(* ===== verification/_CoqProject ===== *)
-Q . S2P
Prelude.v
Json.v
GoTime.v
Calendar.v
Runes.v
Types.v
Users.v
OrchClient.v
Tools.v
Policy.v
Registry.v
Authz.v
Mongo.v
ChatStore.v
TaskStore.v
PostStore.v
HitlStore.v
ReviewStore.v
ChatWorld.v
Postal.v
ChatHitl.v
ChatResume.v
ChatTurn.v
ChatTyping.v
ChatDemo.v
HitlService.v
A2A.v
Prog.v
Dispatch.v
Envelope.v
IntegrationStore.v
OauthLock.v
IntegrationService.v
IntegrationSafety.v
IntegrationSystem.v
IntegrationDemo.v
ReviewRules.v
ReviewService.v
ReviewSafety.v
PostService.v
PostSystem.v
Redis.v
Dedupe.v
ReviewSystem.v
ReviewOutcome.v
ReviewDemo.v
ModelLimits.v
AgentLoop.v
Resume.v
LlmRouter.v
RateLimit.v
Lockout.v
TelegramCallback.v
Pg.v
AccountStore.v
AccountService.v
AccountSystem.v
AccountLinks.v
AccountSafety.v
AccountOps.v
AccountSessions.v
AccountDemo.v
Isolation.v
TeamStore.v
TeamService.v
TeamSystem.v
TeamOrder.v
TeamSafety.v
TeamInvariant.v
TeamOps.v
TeamCap.v
TeamDemo.v
CreditStore.v
CreditService.v
CreditBooks.v
CreditSystem.v
CreditSafety.v
CreditInvariant.v
CreditOps.v
CreditDemo.v
