(* ===== verification/Prelude.v ===== *)
(** * OneVoice: a verification library for the Go backend

    OneVoice lets a business owner run its public pages (Telegram, VK, Yandex
    Business, Google Business) by chat.  The browser talks to the API
    ([services/api]); the API opens a stream at the orchestrator
    ([services/orchestrator]), which runs the model's tool-calling loop and sends
    tool calls over NATS to one agent per platform ([services/agent-*]).  Tools that
    publish need a person's approval: the loop stores a batch of calls and pauses,
    the API records the decisions, and a resume runs what was approved.  The shared
    libraries are under [pkg].  This development models the core of that system,
    from a chat request to the execution of an approved call, and proves what
    makes it correct.

    ** The files, bottom up

    - [Prelude.v] (this file): results, the state and state-error monads with their
      notations ([let?], [do!], [try!], [st!] in [go_scope]), loops, strings, lists,
      tactics.  [Json.v]: [interface{}] values and JSON text.  [GoTime.v]: instants,
      RFC 3339, [strconv.Atoi].  [Runes.v]: UTF-8 rune counts and the edit distance
      (services/api/internal/service/editdistance.go).  [Types.v]: LLM messages, batches, SSE frames and
      their codecs (pkg/llm/types.go, pkg/domain/repository.go, pkg/sse/event.go).
      [Tools.v]: tool names (pkg/tools/constants.go).
    - [Mongo.v], [Redis.v]: the two stores outside the repository, as interfaces
      ([Coll], [Redis]) with the atomicity their clients rely on, drivers that may
      fault before or after an effect, and concrete instances that compute.
    - [Policy.v]: floors, the strictest-wins resolver, edit validation, platform
      scopes (pkg/domain/tool.go, pkg/hitl/policy.go, pkg/tools).  [Registry.v]: the
      tool catalogue (services/orchestrator/internal/toolregistry).
    - [Authz.v]: permissions, owner guards, the access cache (pkg/authz).
    - [HitlStore.v]: approval batches (pkg/hitlstore).  [HitlService.v]: recording
      the decisions (services/api/internal/service/hitl.go).
    - [ChatStore.v], [TaskStore.v], [PostStore.v], [ReviewStore.v]: the document
      repositories of the API (services/api/internal/repository).
    - [OrchClient.v]: the stream client (pkg/orchestratorclient).  [ChatWorld.v],
      [Postal.v], [ChatHitl.v], [ChatResume.v], [ChatTurn.v], [ChatTyping.v]: one chat
      turn in the API (services/api/internal/service/chatturn); [ChatDemo.v] applies
      their theorems to a concrete store.
    - [A2A.v]: NATS dispatch on both sides (services/orchestrator/internal/natsexec,
      pkg/a2a).  [Dedupe.v]: one execution per approval (pkg/hitldedupe,
      pkg/agentbase).
    - [Prog.v]: services as programs over a signature of calls, with an execution
      against any environment, weakest preconditions, and the step relation in which
      many processes interleave and crash.  [Dispatch.v]: the tool dispatch shared by
      posts and reviews (services/api/internal/service/dispatch.go).
    - [Users.v], [Envelope.v], [IntegrationStore.v], [OauthLock.v]: accounts, the
      envelope encryption of tokens (pkg/crypto), the integrations table with its
      statements and index (services/api/internal/repository/integration.go), the
      advisory lock around a refresh (pkg/oauthlock).  [IntegrationService.v]:
      connecting platforms and handing out their tokens
      (services/api/internal/service/integration.go); [IntegrationSafety.v] reasons on
      one run, [IntegrationSystem.v] on replicas that interleave, [IntegrationDemo.v]
      runs them against a small server.
    - [PostService.v], [PostSystem.v]: scheduled posts and post mutations, alone and
      interleaved (services/api/internal/service/post*.go).
    - [ReviewRules.v], [ReviewService.v]: reviews (services/api/internal/service/review*.go,
      services/api/internal/platform/factual_reply.go): settings, gates and texts;
      replies, drafts, batches and syncs as programs.  [ReviewSafety.v] bounds what is
      sent unread, [ReviewSystem.v] composes interleaved replies with [Dedupe.v],
      [ReviewOutcome.v] follows a reply through failure and retry, [ReviewDemo.v]
      runs them.
    - [Pg.v]: transactions of the relational database in READ COMMITTED mode, with row
      locks, savepoints and lost connections, for any set of statements.
      [AccountStore.v]: the account tables and their statements
      (services/api/internal/repository/user.go and the tables of links, mails and
      consents).  [AccountService.v]: accounts and sessions
      (services/api/internal/service/user.go, password_reset.go, email_verification.go,
      account_deletion.go, consent.go).  [AccountSystem.v] interleaves them,
      [AccountLinks.v], [AccountSafety.v] and [AccountOps.v] carry the invariant on what
      open transactions may write, [AccountSessions.v] follows the refresh tokens,
      [AccountDemo.v] runs them.
    - [Isolation.v]: transactions at READ COMMITTED, REPEATABLE READ and SERIALIZABLE, with
      row locks of four strengths and snapshots.  [TeamStore.v]: organizations, members,
      roles and invitations with their statements
      (services/api/internal/repository/business.go, business_member.go, role.go,
      invitation.go, pkg/authz/invariants.go).  [TeamService.v]: their requests, from the
      decoded body to the reply (services/api/internal/service/member_mutations.go,
      business.go, services/api/internal/handler/members.go, roles.go, invitations.go).
      [TeamSystem.v] interleaves them; [TeamOrder.v] says what may be committed,
      [TeamSafety.v] what a request holds between two statements, [TeamInvariant.v] and
      [TeamOps.v] that it lasts, [TeamCap.v] bounds the pending invitations, [TeamDemo.v]
      runs them.
    - [Calendar.v]: dates and their layouts.  [CreditStore.v]: plans, subscriptions, usage
      logs and the credit ledger with their statements
      (services/api/internal/repository/billing.go, credit_ledger.go, credit_grant.go,
      subscription.go, plan_definition.go, services/api/internal/service/creditmeter).
      [CreditService.v]: the plan a business is on, metered usage, monthly grants, the
      summary and the internal endpoint with its client
      (services/api/internal/service/planresolver, creditgrant, billing_summary.go,
      pkg/billingclient).  [CreditBooks.v]: what a business's books say;
      [CreditSystem.v] interleaves requests, grants and erasures, [CreditSafety.v] says
      what each holds between two statements, [CreditInvariant.v] and [CreditOps.v] that
      the books stay in order, [CreditDemo.v] runs them.
    - [ModelLimits.v], [LlmRouter.v], [RateLimit.v]: estimates and prices, provider
      routing, budgets (pkg/llm).  [Lockout.v]: login lockout, request counters
      (pkg/lockout, pkg/ratelimit).  [TelegramCallback.v]: signed approval buttons
      (pkg/telegramcallback).
    - [AgentLoop.v], [Resume.v]: the orchestrator's loop and its resume
      (services/orchestrator/internal/orchestrator).

    ** How a call travels, and what is proved on the way

    [ChatTurn.Run] gates a request.  While the stores answer, a conversation in
    use admits no second turn ([busy_conversation_admits_no_second_turn]), yet a stalled
    one recovers ([stalled_conversation_recovers]); what was streamed is what is stored
    ([finished_turn_is_recorded], [pause_lists_each_call_once],
    [messages_stay_well_typed]), and the stream itself always ends for its reader
    ([stream_always_ends]).  In the orchestrator [AgentLoop.Run] offers the tools the
    whitelist, the connections and the policy allow ([whitelist_boundary],
    [bucket_partition], [fresh_run_stays_in_policy]), answers every call of the model
    ([requests_answer_every_call]), ends ([turn_ends_once]), and announces an approval
    only when it is stored ([pause_is_durable]).  A decision is recorded by
    [HITLService_Resolve] ([resolve_success], [resolve_failure]) over a store that
    implements a life cycle specification under any faults
    ([store_refines_lifecycle], [exactly_one_winner], [verdicts_survive]).  The resume
    needs its claim ([resume_stream_needs_claim]), runs only approved calls in any
    interleaving ([resume_runs_only_approved], [fanout_settles_every_call]), across
    redeliveries a second time only past a claim that was not taken or not kept
    ([at_most_one_execution], [redelivery]), over a wire that may lose a call but does
    not repeat it ([remote_call_refines_exec]), and writes back what happened ([resume_rewrites_message], [resume_accumulates],
    [mutations_audited_once]).  Around it: access control ([owner_guard],
    [access_is_fresh]), routing ([chat_one_shot_retry], [selector_tracks_history]),
    budgets ([requests_bounded], [reserve_all_or_nothing], [admission_sound]) and the
    approval buttons ([callback_data_exact]).  Outside a chat, scheduled posts and
    edits never publish twice ([nothing_published_twice]) and rest on approvals
    ([schedule_needs_approval]).  A platform is connected only
    behind the gates it is wired with ([connect_rests_on_gates]), its tokens, with a key
    service, open for their own row only ([sealed_for_one_row]) and leave it only after an audit row
    ([token_release_audited]), and a replaced refresh token is never sent again
    ([spent_token_never_sent]).  An account's password changes
    and its address is marked as verified only with a link that proves ownership or, for
    a password, the old one ([links_prove_ownership]), it is
    erased only after its days of grace ([erased_after_grace]), a session's token is
    refreshed once ([refresh_once]), and what was there when a wipe began is gone when it
    has succeeded ([wipe_ends_sessions]).  Only the erasure of an account can take an
    organization its last owner ([owner_lost_only_by_erasure]), nobody joins one but by an invitation that is still honoured
    ([joins_are_fair]), and no more than twenty are pending ([pending_capped]).  The
    credits of a business are in balance, one for each usage log, none lost or charged
    twice ([books_balance]), and a month is granted once ([period_granted_once]).  A
    review gets one answer from whoever sends it while claims are kept
    ([review_answered_once]), only replies its owner allowed go out unread
    ([unread_replies_gated]), and a failed one can be sent again
    ([failed_reply_retried]); the corrections kept as examples are measured by a true
    edit distance ([runeLevenshtein_is_edit_distance]).  Theorems named as stale, early or
    refused state defects the model exhibits.

    ** Conventions

    An instant is nanoseconds in [Z]; the zero [time.Time] is [None] where the code
    tests for it; BSON's truncation to milliseconds shows only in sort keys
    ([bson_time]).  A UUID is a number behind the class [UUIDText].  A [string]-typed
    enum stays a [string], so malformed stored values are inhabitants.  A Go map is
    a [gmap], or a member list in one iteration order where order is visible; a map
    that may be nil is an [option].  Functions that touch a store return their result
    beside the store ([SE S E A] with errors, [S → A * S] without).  Concurrency is a
    step relation or an arbitrary sequence of operations of many processes.  Code
    outside the repository (the databases, NATS, HTTP transport, provider SDKs, SHA-256
    and HMAC, regular expressions, Unicode folding, URL resolution) is a parameter or
    an interface; each interface has an instance, and each theorem with hypotheses a
    witness at a concrete input.

    ** Bounds and fuel

    [print_json] is structural; the parser's fuel is the length of its input, which
    its round trip shows is enough.  [ParseIndexedEndpoints] is given a number of
    indices to scan; an environment has finitely many.  The fan-out of a resume takes at most seven
    steps a call and two for the main loop.  A scan of Redis has no bound in
    the code and Redis promises none; the model gives up after a number of pages, of
    which no theorem assumes anything.  The selector keeps 1000 metrics.  A
    token amount in Lua is exact below 2^53.  Prices are exact rationals where the
    code has [float64].  JSON numbers are integral.

    ** Not modelled

    The frontend, deployment files, developer tools and generated OpenAPI types;
    HTTP decoding and routing around the services; SQL run by Postgres, except where
    a statement's filter, lock or index carries a property (integrations, accounts, teams,
    credits); platform agents' calls of third-party APIs and browser automation; provider adapters; the text of prompts; logs, metrics and
    traces; goroutine scheduling of timeouts (a deadline shows as a driver error).
    Connection health and the decision queue are not modelled either:
    they are mostly SQL and orchestration of calls. *)

From stdpp Require Export prelude gmap strings list fin_maps sorting.
From Stdlib Require Export ZArith Lia.
From Stdlib Require Export Ascii.

Declare Scope go_scope.
Delimit Scope go_scope with go.

(** ** Fallible results

    Go's [(T, error)] pairs where the value is meaningless when the error is
    set: one of the two is present. *)
Inductive result (E A : Type) : Type :=
| Ok (a : A)
| Err (e : E).
Arguments Ok {E A} a.
Arguments Err {E A} e.

Definition res_bind {E A B} (r : result E A) (k : A → result E B) : result E B :=
  match r with
  | Ok a => k a
  | Err e => Err e
  end.

Notation "'let?' x ':=' r 'in' k" := (res_bind r (λ x, k))
  (at level 10, x name, r at level 100, k at level 200) : go_scope.

Definition is_ok {E A} (r : result E A) : bool :=
  match r with Ok _ => true | Err _ => false end.

Lemma res_bind_ok {E A B} (r : result E A) (k : A → result E B) b :
  res_bind r k = Ok b ↔ ∃ a, r = Ok a ∧ k a = Ok b.
Proof. destruct r; simpl; naive_solver. Qed.

#[export] Instance result_eq_dec {E A} `{EqDecision E, EqDecision A} :
  EqDecision (result E A).
Proof. solve_decision. Defined.

(** ** Stateful fallible code

    A call that threads a state [S] (a store, an execution trace) and returns a
    value or an error.  The state after an error is the state the failing call
    left, never the state before it. *)
Definition SE (S E A : Type) : Type := S → result E A * S.

Definition se_ret {S E A} (a : A) : SE S E A := λ s, (Ok a, s).
Definition se_err {S E A} (e : E) : SE S E A := λ s, (Err e, s).

Definition se_bind {S E A B} (m : SE S E A) (k : A → SE S E B) : SE S E B := λ s,
  match m s with
  | (Ok a, s') => k a s'
  | (Err e, s') => (Err e, s')
  end.

(** Run [m] and hand its outcome, error included, to [k]: Go's
    [v, err := m()] followed by the caller's own test of [err]. *)
Definition se_try {S E E' A B} (m : SE S E A) (k : result E A → SE S E' B) : SE S E' B :=
  λ s, let '(r, s') := m s in k r s'.

Notation "'do!' x ':=' m 'in' k" := (se_bind m (λ x, k))
  (at level 10, x name, m at level 100, k at level 200) : go_scope.
Notation "'try!' x ':=' m 'in' k" := (se_try m (λ x, k))
  (at level 10, x name, m at level 100, k at level 200) : go_scope.

(** Calls that always return a value, an error being part of it. *)
Definition st_ret {S A} (a : A) : S → A * S := λ s, (a, s).

Definition st_bind {S A B} (m : S → A * S) (k : A → S → B * S) : S → B * S := λ s,
  let '(a, s') := m s in k a s'.

Notation "'st!' x ':=' m 'in' k" := (st_bind m (λ x, k))
  (at level 10, x name, m at level 100, k at level 200) : go_scope.

(** A slice visited in order by a body that only acts on the state. *)
Fixpoint st_iter {S A} (f : A → S → unit * S) (l : list A) : S → unit * S :=
  match l with
  | [] => st_ret tt
  | x :: l' => st_bind (f x) (λ _, st_iter f l')
  end.

(** Run a call of a component on its part of a larger state. *)
Definition focus {W S A} (get : W → S) (put : S → W → W) (m : S → A * S) : W → A * W := λ w,
  let '(a, s) := m (get w) in (a, put s w).

(** The iteration whose body never returns a value is a fold of its effect. *)
Lemma st_iter_foldl {S A} (f : A → S → unit * S) l s :
  st_iter f l s = (tt, foldl (λ s x, (f x s).2) s l).
Proof.
  revert s. induction l as [|x l IH]; intros s; [done|]. cbn [st_iter foldl]. unfold st_bind.
  rewrite <- IH. by destruct (f x s) as [[] s'].
Qed.

(** A sequence runs its first call, then the rest in the state that left. *)
Lemma st_bind_run {S A B} (m : S → A * S) (k : A → S → B * S) s : st_bind m k s = k (m s).1 (m s).2.
Proof. unfold st_bind. by destruct (m s). Qed.

Lemma st_iter_app {S A} (f : A → S → unit * S) l1 l2 s :
  st_iter f (l1 ++ l2) s = st_iter f l2 (st_iter f l1 s).2.
Proof. rewrite !st_iter_foldl. cbn. by rewrite foldl_app. Qed.

(** ** Go strings

    Strings are byte strings; the helpers below are the functions of package
    [strings] the sources use. *)
#[global] Arguments String.append !s1 s2 / : simpl nomatch.

Definition string_prefix (p s : string) : bool := String.prefix p s.

(** [strings.Index(s, sep)]: the byte offset of the first occurrence. *)
Fixpoint index_of (sep s : string) : option nat :=
  if String.prefix sep s then Some 0
  else match s with
       | EmptyString => None
       | String _ s' => S <$> index_of sep s'
       end.

Definition str_contains (s sep : string) : bool :=
  match index_of sep s with Some _ => true | None => false end.

(** [s[:n]] and [s[n:]] for [n] within the string. *)
Fixpoint str_take (n : nat) (s : string) : string :=
  match n, s with
  | S n', String c s' => String c (str_take n' s')
  | _, _ => EmptyString
  end.

Fixpoint str_drop (n : nat) (s : string) : string :=
  match n, s with
  | S n', String _ s' => str_drop n' s'
  | O, s => s
  | _, EmptyString => EmptyString
  end.

Lemma str_take_app a b : str_take (String.length a) (a +:+ b)%string = a.
Proof. induction a as [|k a IH]; [by destruct b|]. cbn. by rewrite IH. Qed.

Lemma str_drop_app a b : str_drop (String.length a) (a +:+ b)%string = b.
Proof. induction a as [|k a IH]; [by destruct b|]. exact IH. Qed.

(** Every byte of [s] satisfies [p]. *)
Fixpoint str_forall (p : ascii → bool) (s : string) : bool :=
  match s with
  | EmptyString => true
  | String a s' => p a && str_forall p s'
  end.

(** Texts free of a separator are read back from what stands before it. *)
Lemma str_forall_sep p c a b x y :
  p c = false → str_forall p a = true → str_forall p b = true →
  (a +:+ String c x)%string = (b +:+ String c y)%string → a = b ∧ x = y.
Proof.
  intros Hc. revert b. induction a as [|k a IH]; intros [|k' b]; cbn; intros Ha Hb He.
  - by injection He.
  - injection He as <- _. by rewrite Hc in Hb.
  - injection He as -> _. by rewrite Hc in Ha.
  - injection He as <- He. apply andb_true_iff in Ha as [_ Ha], Hb as [_ Hb].
    destruct (IH b Ha Hb He) as [-> ->]. done.
Qed.

(** [strings.Split(s, sep)] for a one-byte separator. *)
Fixpoint split_on (c : ascii) (s : string) : list string :=
  match s with
  | EmptyString => [EmptyString]
  | String a s' =>
      if decide (a = c) then EmptyString :: split_on c s'
      else match split_on c s' with
           | [] => [String a EmptyString]
           | w :: ws => String a w :: ws
           end
  end.

(** [strings.Join(parts, sep)]. *)
Fixpoint join_with (sep : string) (parts : list string) : string :=
  match parts with
  | [] => EmptyString
  | [p] => p
  | p :: ps => (p +:+ sep +:+ join_with sep ps)%string
  end.

(** [strconv.Quote], the [%q] verb: bytes from 0x80 up are taken for printable. *)
Definition hex_lower (n : nat) : ascii := ascii_of_nat (if decide (n < 10) then n + 48 else n + 87).

Definition go_quote_byte (a : ascii) : string :=
  let n := nat_of_ascii a in
  let bs c := String "\" (String c "") in
  if decide (n = 34 ∨ n = 92) then bs a
  else if decide (n = 7) then bs "a"%char else if decide (n = 8) then bs "b"%char
  else if decide (n = 9) then bs "t"%char else if decide (n = 10) then bs "n"%char
  else if decide (n = 11) then bs "v"%char else if decide (n = 12) then bs "f"%char
  else if decide (n = 13) then bs "r"%char
  else if decide (n < 32 ∨ n = 127)
  then String "\" (String "x" (String (hex_lower (n / 16)) (String (hex_lower (n mod 16)) "")))
  else String a "".

Fixpoint go_quote_bytes (s : string) : string :=
  match s with
  | EmptyString => EmptyString
  | String a s' => (go_quote_byte a +:+ go_quote_bytes s')%string
  end.

Definition go_quote (s : string) : string :=
  let q := String (ascii_of_nat 34) "" in (q +:+ go_quote_bytes s +:+ q)%string.

(** [strings.ToLower] on ASCII. *)
Definition lower_ascii (a : ascii) : ascii :=
  let n := nat_of_ascii a in
  if decide (65 ≤ n ∧ n ≤ 90) then ascii_of_nat (n + 32) else a.

Fixpoint to_lower (s : string) : string :=
  match s with
  | EmptyString => EmptyString
  | String a s' => String (lower_ascii a) (to_lower s')
  end.

(** [strings.TrimSpace]: ASCII white space. *)
Definition ascii_space (a : ascii) : bool :=
  let n := nat_of_ascii a in bool_decide ((9 ≤ n ∧ n ≤ 13) ∨ n = 32).

Fixpoint trim_left (s : string) : string :=
  match s with
  | String a s' => if ascii_space a then trim_left s' else s
  | EmptyString => EmptyString
  end.

Fixpoint trim_right (s : string) : string :=
  match s with
  | EmptyString => EmptyString
  | String a s' =>
      match trim_right s' with
      | EmptyString => if ascii_space a then EmptyString else String a EmptyString
      | t => String a t
      end
  end.

Definition trim_space (s : string) : string := trim_right (trim_left s).

Fixpoint str_has (c : ascii) (s : string) : bool :=
  match s with
  | EmptyString => false
  | String a s' => if decide (a = c) then true else str_has c s'
  end.

Lemma split_on_no_sep c s : str_has c s = false → split_on c s = [s].
Proof.
  induction s as [|a s IH]; simpl; [done|].
  case_decide; [done|]. intros Hs. by rewrite IH.
Qed.

Lemma split_on_app c s t :
  str_has c s = false →
  split_on c (s +:+ String c t)%string = s :: split_on c t.
Proof.
  induction s as [|a s IH]; simpl; intros Hs.
  - by rewrite decide_True.
  - case_decide; [done|]. by rewrite (IH Hs).
Qed.

Lemma split_on_not_nil c s : split_on c s ≠ [].
Proof.
  destruct s as [|a s]; simpl; [done|].
  case_decide; [done|]. by destruct (split_on c s).
Qed.

(** ** Sets and lists *)

(** [list_mem] is the "have" map of the sources: build a set from a slice,
    then test a key. *)
Definition list_mem {A} `{EqDecision A} (x : A) (l : list A) : bool :=
  bool_decide (x ∈ l).

Lemma list_mem_true {A} `{EqDecision A} (x : A) l : list_mem x l = true ↔ x ∈ l.
Proof. unfold list_mem. apply bool_decide_eq_true. Qed.

Lemma list_mem_false {A} `{EqDecision A} (x : A) l : list_mem x l = false ↔ x ∉ l.
Proof. unfold list_mem. apply bool_decide_eq_false. Qed.

(** The boolean filter the sources write as an [if ... append] loop. *)
Fixpoint filterb {A} (p : A → bool) (l : list A) : list A :=
  match l with
  | [] => []
  | x :: l' => if p x then x :: filterb p l' else filterb p l'
  end.

Lemma elem_of_filterb {A} (p : A → bool) x l :
  x ∈ filterb p l ↔ p x = true ∧ x ∈ l.
Proof.
  induction l as [|y l IH]; simpl.
  - split; [intros Hx; inversion Hx | intros [_ Hx]; inversion Hx].
  - destruct (p y) eqn:Hp; rewrite ?elem_of_cons, ?IH; naive_solver congruence.
Qed.

Lemma filterb_app {A} (p : A → bool) l1 l2 :
  filterb p (l1 ++ l2) = filterb p l1 ++ filterb p l2.
Proof. induction l1 as [|x l1 IH]; simpl; [done|]. destruct (p x); by rewrite ?IH. Qed.

Lemma filterb_all {A} (p : A → bool) l :
  (∀ x, x ∈ l → p x = true) → filterb p l = l.
Proof.
  induction l as [|x l IH]; simpl; intros Hp; [done|].
  rewrite (Hp x) by set_solver. f_equal. apply IH. set_solver.
Qed.

Lemma filterb_sublist {A} (p : A → bool) l : sublist (filterb p l) l.
Proof.
  induction l as [|x l IH]; simpl; [constructor|].
  destruct (p x); by constructor.
Qed.

Lemma filterb_length {A} (p : A → bool) l : length (filterb p l) ≤ length l.
Proof. induction l as [|x l IH]; simpl; [done|]. destruct (p x); simpl; lia. Qed.

#[export] Instance filterb_perm {A} (p : A → bool) : Proper ((≡ₚ) ==> (≡ₚ)) (filterb p).
Proof.
  induction 1 as [|x l1 l2 _ IH|x y l|l1 l2 l3 _ IH1 _ IH2]; simpl; [done| | |by etrans].
  - destruct (p x); [by constructor|done].
  - destruct (p x), (p y); done || by constructor.
Qed.

Lemma filterb_none {A} (p : A → bool) l : (∀ x, x ∈ l → p x = false) → filterb p l = [].
Proof.
  induction l as [|x l IH]; simpl; intros Hp; [done|].
  rewrite (Hp x) by set_solver. apply IH. set_solver.
Qed.

(** Replacing or removing one position of a list, up to order. *)
Lemma insert_perm {A} (l : list A) i x y : l !! i = Some x → <[i := y]> l ≡ₚ y :: delete i l.
Proof.
  revert i. induction l as [|z l IH]; intros [|i] Hi; simplify_eq/=; [done|].
  rewrite (IH i) by done. constructor.
Qed.

(** [sort.SliceStable] for a strict weak order [less]: the sorted permutation that
    keeps equivalent elements in order, by insertion. *)
Section StableSort.
Context {A : Type} (less : A → A → bool).

Fixpoint stable_insert (x : A) (l : list A) : list A :=
  match l with
  | [] => [x]
  | y :: l' => if less y x then y :: stable_insert x l' else x :: l
  end.

Fixpoint stable_sort (l : list A) : list A :=
  match l with
  | [] => []
  | x :: l' => stable_insert x (stable_sort l')
  end.

Definition equivalent (x y : A) : bool := negb (less x y) && negb (less y x).

Lemma stable_insert_perm x l : stable_insert x l ≡ₚ x :: l.
Proof.
  induction l as [|y l IH]; simpl; [done|]. destruct (less y x); [|done].
  rewrite IH. constructor.
Qed.

Lemma stable_sort_perm l : stable_sort l ≡ₚ l.
Proof. induction l as [|x l IH]; simpl; [done|]. by rewrite stable_insert_perm, IH. Qed.

Hypothesis less_asym : ∀ x y, less x y = true → less y x = false.
Hypothesis less_weak : ∀ x y z, less x z = true → less x y = true ∨ less y z = true.

Lemma stable_insert_sorted x l :
  StronglySorted (λ a b, less b a = false) l → StronglySorted (λ a b, less b a = false) (stable_insert x l).
Proof.
  induction 1 as [|y l Hs IH Hall]; simpl; [by repeat constructor|].
  destruct (less y x) eqn:E; constructor; [done| |by constructor|].
  - rewrite stable_insert_perm. constructor; [by apply less_asym|done].
  - constructor; [done|]. eapply Forall_impl; [exact Hall|]. intros b Hb. cbn in Hb.
    destruct (less b x) eqn:Ebx; [|done]. destruct (less_weak _ y _ Ebx); congruence.
Qed.

Lemma stable_sort_sorted l : StronglySorted (λ a b, less b a = false) (stable_sort l).
Proof. induction l as [|x l IH]; simpl; [constructor|by apply stable_insert_sorted]. Qed.

Lemma stable_insert_stable z x l :
  filterb (equivalent z) (stable_insert x l) = filterb (equivalent z) (x :: l).
Proof.
  induction l as [|y l IH]; [done|]. cbn [stable_insert]. destruct (less y x) eqn:E; [|done].
  cbn [filterb] in *. rewrite IH.
  destruct (equivalent z y) eqn:Ey; [|done]. destruct (equivalent z x) eqn:Ex; [|done].
  unfold equivalent in *. rewrite !andb_true_iff, !negb_true_iff in *.
  destruct (less_weak _ z _ E); intuition congruence.
Qed.

Lemma stable_sort_stable z l : filterb (equivalent z) (stable_sort l) = filterb (equivalent z) l.
Proof.
  induction l as [|x l IH]; [done|]. cbn [stable_sort]. rewrite stable_insert_stable.
  cbn [filterb]. by rewrite IH.
Qed.
End StableSort.

Lemma fmap_sublist_mono {A B} (f : A → B) l1 l2 : sublist l1 l2 → sublist (f <$> l1) (f <$> l2).
Proof. induction 1; simpl; by constructor. Qed.

Lemma fmap_filterb_elem {A B} (f : A → B) (p : A → bool) l y :
  y ∈ f <$> filterb p l ↔ ∃ x, y = f x ∧ p x = true ∧ x ∈ l.
Proof. rewrite list_elem_of_fmap. setoid_rewrite elem_of_filterb. naive_solver. Qed.

Lemma fmap_filterb_nodup {A B} (f : A → B) (p : A → bool) l : NoDup (f <$> l) → NoDup (f <$> filterb p l).
Proof. intros Hl. eapply sublist_NoDup; [exact Hl|]. apply fmap_sublist_mono, filterb_sublist. Qed.

(** Go ranges over a map in an unspecified order: an instance picks one order,
    and a theorem stated for every instance holds whatever the order. *)
Class MapRange := {
  range : ∀ {A}, gmap string A → list (string * A);
  range_perm : ∀ {A} (m : gmap string A), range m ≡ₚ map_to_list m;
}.

Lemma elem_of_range `{MapRange} {A} (m : gmap string A) k x :
  (k, x) ∈ range m ↔ m !! k = Some x.
Proof. by rewrite range_perm, elem_of_map_to_list. Qed.

Lemma range_nodup `{MapRange} {A} (m : gmap string A) : NoDup (range m).*1.
Proof. rewrite range_perm. apply NoDup_fst_map_to_list. Qed.

(** One admissible order, for computing. *)
Program Definition sorted_range : MapRange := {| range := λ A m, map_to_list m |}.
Next Obligation. done. Qed.

(** ** Automation *)

Create HintDb go.
#[export] Hint Rewrite @list_mem_true @list_mem_false @elem_of_filterb : go.

(** [destr] splits the innermost [match]/[if] of the goal or a hypothesis. *)
Ltac destr :=
  match goal with
  | |- context [match ?x with _ => _ end] =>
      lazymatch x with context [match _ with _ => _ end] => fail | _ => destruct x eqn:? end
  | H : context [match ?x with _ => _ end] |- _ =>
      lazymatch x with context [match _ with _ => _ end] => fail | _ => destruct x eqn:? end
  end.

Ltac destr_in H :=
  match type of H with
  | context [match ?x with _ => _ end] =>
      lazymatch x with context [match _ with _ => _ end] => fail | _ => destruct x eqn:? end
  end.

(** Split every branch and close the impossible ones. *)
Ltac split_all := repeat (destr; simplify_eq/=; try done).

(** Boolean tests to propositions. *)
Ltac to_prop :=
  repeat match goal with
  | H : (_ && _)%bool = true |- _ => apply andb_true_iff in H as [? ?]
  | H : (_ || _)%bool = false |- _ => apply orb_false_iff in H as [? ?]
  | H : negb _ = true |- _ => apply negb_true_iff in H
  | H : negb _ = false |- _ => apply negb_false_iff in H
  | H : bool_decide _ = true |- _ => apply bool_decide_eq_true in H
  | H : bool_decide _ = false |- _ => apply bool_decide_eq_false in H
  | H : (_ <? _)%Z = true |- _ => apply Z.ltb_lt in H
  | H : (_ <? _)%Z = false |- _ => apply Z.ltb_ge in H
  | H : (_ <=? _)%Z = true |- _ => apply Z.leb_le in H
  | H : (_ <=? _)%Z = false |- _ => apply Z.leb_gt in H
  | H : (_ =? _)%Z = true |- _ => apply Z.eqb_eq in H
  | H : (_ =? _)%Z = false |- _ => apply Z.eqb_neq in H
  end.

(** A number above all of a list. *)
Definition above (l : list N) : N := N.succ (fold_right N.max 0%N l).

Lemma above_unused l : above l ∉ l.
Proof.
  intros Hin. assert (∀ n, n ∈ l → (n ≤ fold_right N.max 0 l)%N) as Hle.
  { clear Hin. induction l as [|x l IH]; intros n; [by intros ?%elem_of_nil|].
    cbn. intros [->|Hn]%elem_of_cons; [lia|]. specialize (IH n Hn). lia. }
  specialize (Hle _ Hin). unfold above in Hle. lia.
Qed.
