(* ===== verification/Json.v ===== *)
(** * Dynamic values and JSON text

    [gval] is Go's [interface{}] as [encoding/json] produces it: null, bool,
    number, string, slice and string-keyed map.  Numbers are integral: no
    modelled code path depends on a fractional part.  An object is the list of
    its members in one iteration order.

    [JsonText] is what the clients (pause snapshots, NATS payloads, cached tool
    responses) rely on of [json.Marshal]/[json.Unmarshal]; [json_text] is a
    concrete printer and parser that discharges it, so every theorem stated
    against the class also computes.  The printer writes bytes from 0x80 up
    unchanged (valid UTF-8 input), and the parser takes integral numbers. *)

From S2P Require Import Prelude.
From Stdlib Require DecimalString DecimalZ.

Inductive gval : Type :=
| GNull
| GBool (b : bool)
| GNum (n : Z)
| GStr (s : string)
| GArr (l : list gval)
| GObj (l : list (string * gval)).

(** Induction through the two nested lists. *)
Section gval_rect.
Variable P : gval → Prop.
Hypothesis Hnull : P GNull.
Hypothesis Hbool : ∀ b, P (GBool b).
Hypothesis Hnum : ∀ n, P (GNum n).
Hypothesis Hstr : ∀ s, P (GStr s).
Hypothesis Harr : ∀ l, Forall P l → P (GArr l).
Hypothesis Hobj : ∀ l, Forall (λ kv, P kv.2) l → P (GObj l).

Fixpoint gval_ind' (v : gval) : P v :=
  match v with
  | GNull => Hnull
  | GBool b => Hbool b
  | GNum n => Hnum n
  | GStr s => Hstr s
  | GArr l => Harr l ((fix go l : Forall P l :=
      match l with
      | [] => List.Forall_nil _
      | x :: l' => List.Forall_cons _ _ _ (gval_ind' x) (go l')
      end) l)
  | GObj l => Hobj l ((fix go l : Forall (λ kv, P kv.2) l :=
      match l with
      | [] => List.Forall_nil _
      | x :: l' => List.Forall_cons _ _ _ (gval_ind' x.2) (go l')
      end) l)
  end.
End gval_rect.

#[export] Instance gval_eq_dec : EqDecision gval.
Proof.
  refine (fix go (v w : gval) : {v = w} + {v ≠ w} :=
    match v, w with
    | GNull, GNull => left eq_refl
    | GBool a, GBool b => cast_if (decide (a = b))
    | GNum a, GNum b => cast_if (decide (a = b))
    | GStr a, GStr b => cast_if (decide (a = b))
    | GArr a, GArr b => cast_if (@list_eq_dec _ go a b)
    | GObj a, GObj b =>
        cast_if (@list_eq_dec _ (@prod_eq_dec _ _ _ go) a b)
    | _, _ => right _
    end); clear go; abstract congruence.
Defined.

(** Go's [m[k]] on a decoded object: of equal member names the last wins. *)
Fixpoint obj_get {A} (k : string) (l : list (string * A)) : option A :=
  match l with
  | [] => None
  | (k', v) :: l' =>
      match obj_get k l' with
      | Some w => Some w
      | None => if decide (k' = k) then Some v else None
      end
  end.

(** Go's [m[k] = v]. *)
Definition obj_set {A} (k : string) (v : A) (l : list (string * A)) : list (string * A) :=
  filterb (λ kv, negb (bool_decide (kv.1 = k))) l ++ [(k, v)].

Lemma obj_get_app {A} k (l1 l2 : list (string * A)) :
  obj_get k (l1 ++ l2) =
  match obj_get k l2 with Some w => Some w | None => obj_get k l1 end.
Proof.
  induction l1 as [|[k' v] l1 IH]; simpl; [by destruct (obj_get k l2)|].
  rewrite IH. by destruct (obj_get k l2).
Qed.

Lemma obj_get_filter_ne {A} k k' (l : list (string * A)) :
  k ≠ k' → obj_get k (filterb (λ kv, negb (bool_decide (kv.1 = k'))) l) = obj_get k l.
Proof.
  intros Hk. induction l as [|[k2 v] l IH]; simpl; [done|].
  case_bool_decide; simpl; rewrite IH; [|done].
  subst. rewrite decide_False by congruence. by destruct (obj_get k l).
Qed.

Lemma obj_get_set_eq {A} k (v : A) l : obj_get k (obj_set k v l) = Some v.
Proof. unfold obj_set. rewrite obj_get_app. simpl. by rewrite decide_True. Qed.

Lemma obj_get_set_ne {A} k k' (v : A) l : k ≠ k' → obj_get k (obj_set k' v l) = obj_get k l.
Proof.
  intros Hk. unfold obj_set. rewrite obj_get_app. simpl.
  rewrite decide_False by congruence. by apply obj_get_filter_ne.
Qed.

Lemma obj_get_elem {A} k (v : A) l : obj_get k l = Some v → (k, v) ∈ l.
Proof.
  induction l as [|[k' w] l IH]; simpl; [done|].
  destruct (obj_get k l) eqn:E; [intros; simplify_eq; set_solver|].
  case_decide; intros; simplify_eq. set_solver.
Qed.

(** What the clients rely on. [json_head_obj]/[json_head_arr]: the first byte
    of an encoded struct is an opening brace, of an encoded slice an opening
    bracket. *)
Class JsonText := {
  json_marshal : gval → string;
  json_unmarshal : string → option gval;
  json_roundtrip : ∀ v, json_unmarshal (json_marshal v) = Some v;
  json_head_obj : ∀ l, ∃ t, json_marshal (GObj l) = String "{" t;
  json_head_arr : ∀ l, ∃ t, json_marshal (GArr l) = String "[" t;
  json_marshal_ne : ∀ v, json_marshal v ≠ ""%string;
  json_unmarshal_empty : json_unmarshal ""%string = None;
}.

(** ** The concrete codec: printing *)

Definition hex_digit (n : nat) : ascii :=
  ascii_of_nat (if decide (n < 10) then n + 48 else n + 87).

(** [\u00XY] for a byte below 0x80. *)
Definition unicode_escape (a : ascii) : string :=
  let n := nat_of_ascii a in
  String "\" (String "u" (String "0" (String "0"
    (String (hex_digit (n / 16)) (String (hex_digit (n mod 16)) ""))))).

Definition escape_byte (a : ascii) : string :=
  let n := nat_of_ascii a in
  if decide (n = 34) then String "\" (String a "")
  else if decide (n = 92) then String "\" (String a "")
  else if decide (n = 8) then String "\" (String "b" "")
  else if decide (n = 12) then String "\" (String "f" "")
  else if decide (n = 10) then String "\" (String "n" "")
  else if decide (n = 13) then String "\" (String "r" "")
  else if decide (n = 9) then String "\" (String "t" "")
  else if decide (n < 32 ∨ n = 60 ∨ n = 62 ∨ n = 38) then unicode_escape a
  else String a "".

Definition dquote : ascii := ascii_of_nat 34.

Fixpoint escape (s : string) : string :=
  match s with
  | EmptyString => EmptyString
  | String a s' => (escape_byte a +:+ escape s')%string
  end.

Definition quote (s : string) : string :=
  String dquote (escape s +:+ String dquote "")%string.

Definition print_Z (n : Z) : string := DecimalString.NilEmpty.string_of_int (Z.to_int n).

Fixpoint print_json (v : gval) : string :=
  match v with
  | GNull => "null"
  | GBool true => "true"
  | GBool false => "false"
  | GNum n => print_Z n
  | GStr s => quote s
  | GArr l => String "[" (join_with "," (map print_json l) +:+ "]")%string
  | GObj l => String "{" (join_with ","
      (map (λ kv, quote kv.1 +:+ String ":" (print_json kv.2))%string l) +:+ "}")%string
  end.

(** ** The concrete codec: parsing *)

Definition is_space (a : ascii) : bool :=
  let n := nat_of_ascii a in
  bool_decide (n = 32 ∨ n = 9 ∨ n = 10 ∨ n = 13).

Fixpoint skip_ws (s : string) : string :=
  match s with
  | String a s' => if is_space a then skip_ws s' else s
  | EmptyString => EmptyString
  end.

Definition hex_val (a : ascii) : option nat :=
  let n := nat_of_ascii a in
  if decide (48 ≤ n ∧ n ≤ 57) then Some (n - 48)
  else if decide (97 ≤ n ∧ n ≤ 102) then Some (n - 87)
  else if decide (65 ≤ n ∧ n ≤ 70) then Some (n - 55)
  else None.

(** UTF-8 of a code point below 0x10000. *)
Definition utf8 (n : nat) : string :=
  if decide (n < 128) then String (ascii_of_nat n) ""
  else if decide (n < 2048) then
    String (ascii_of_nat (192 + n / 64)) (String (ascii_of_nat (128 + n mod 64)) "")
  else
    String (ascii_of_nat (224 + n / 4096))
      (String (ascii_of_nat (128 + (n / 64) mod 64))
        (String (ascii_of_nat (128 + n mod 64)) "")).

Definition unescape_simple (a : ascii) : option ascii :=
  let n := nat_of_ascii a in
  if decide (n = 34 ∨ n = 92 ∨ n = 47) then Some a
  else if decide (n = 98) then Some (ascii_of_nat 8)
  else if decide (n = 102) then Some (ascii_of_nat 12)
  else if decide (n = 110) then Some (ascii_of_nat 10)
  else if decide (n = 114) then Some (ascii_of_nat 13)
  else if decide (n = 116) then Some (ascii_of_nat 9)
  else None.

(** The rest of a string literal after its opening quote. *)
Fixpoint parse_str (s : string) : option (string * string) :=
  match s with
  | EmptyString => None
  | String a s1 =>
      if decide (nat_of_ascii a = 34) then Some (""%string, s1)
      else if decide (nat_of_ascii a = 92) then
        match s1 with
        | EmptyString => None
        | String b s2 =>
            if decide (nat_of_ascii b = 117) then
              match s2 with
              | String h1 (String h2 (String h3 (String h4 s3))) =>
                  match hex_val h1, hex_val h2, hex_val h3, hex_val h4 with
                  | Some d1, Some d2, Some d3, Some d4 =>
                      match parse_str s3 with
                      | Some (t, r) =>
                          Some ((utf8 (d1 * 4096 + d2 * 256 + d3 * 16 + d4) +:+ t)%string, r)
                      | None => None
                      end
                  | _, _, _, _ => None
                  end
              | _ => None
              end
            else
              match unescape_simple b, parse_str s2 with
              | Some c, Some (t, r) => Some (String c t, r)
              | _, _ => None
              end
        end
      else if decide (nat_of_ascii a < 32) then None
      else
        match parse_str s1 with
        | Some (t, r) => Some (String a t, r)
        | None => None
        end
  end.

Definition is_num_byte (a : ascii) : bool :=
  let n := nat_of_ascii a in bool_decide (n = 45 ∨ (48 ≤ n ∧ n ≤ 57)).

(** The longest prefix of number bytes. *)
Fixpoint span_num (s : string) : string * string :=
  match s with
  | EmptyString => (""%string, ""%string)
  | String a s' =>
      if is_num_byte a then let '(p, r) := span_num s' in (String a p, r)
      else (""%string, s)
  end.

Definition parse_num (s : string) : option (Z * string) :=
  let '(p, r) := span_num s in
  match p with
  | EmptyString => None
  | _ => match DecimalString.NilEmpty.int_of_string p with
         | Some d => Some (Z.of_int d, r)
         | None => None
         end
  end.

(** [parse_json] needs one unit of fuel per value and per separator; the
    text's length is enough. *)
Fixpoint parse_json (fuel : nat) (s : string) {struct fuel} : option (gval * string) :=
  match fuel with
  | O => None
  | S f =>
      match skip_ws s with
      | EmptyString => None
      | String a s1 =>
          let n := nat_of_ascii a in
          if decide (n = 34) then
            match parse_str s1 with Some (t, r) => Some (GStr t, r) | None => None end
          else if decide (n = 91) then
            match skip_ws s1 with
            | String c r => if decide (nat_of_ascii c = 93) then Some (GArr [], r)
                            else match parse_elems f s1 with
                                 | Some (l, r) => Some (GArr l, r)
                                 | None => None
                                 end
            | EmptyString => None
            end
          else if decide (n = 123) then
            match skip_ws s1 with
            | String c r => if decide (nat_of_ascii c = 125) then Some (GObj [], r)
                            else match parse_members f s1 with
                                 | Some (l, r) => Some (GObj l, r)
                                 | None => None
                                 end
            | EmptyString => None
            end
          else if is_num_byte a then
            match parse_num (String a s1) with Some (z, r) => Some (GNum z, r) | None => None end
          else if String.prefix "null" (String a s1) then Some (GNull, str_drop 4 (String a s1))
          else if String.prefix "true" (String a s1) then Some (GBool true, str_drop 4 (String a s1))
          else if String.prefix "false" (String a s1) then Some (GBool false, str_drop 5 (String a s1))
          else None
      end
  end
with parse_elems (fuel : nat) (s : string) {struct fuel} : option (list gval * string) :=
  match fuel with
  | O => None
  | S f =>
      match parse_json f s with
      | None => None
      | Some (v, r) =>
          match skip_ws r with
          | String c r' =>
              if decide (nat_of_ascii c = 93) then Some ([v], r')
              else if decide (nat_of_ascii c = 44) then
                match parse_elems f r' with
                | Some (l, r2) => Some (v :: l, r2)
                | None => None
                end
              else None
          | EmptyString => None
          end
      end
  end
with parse_members (fuel : nat) (s : string) {struct fuel} : option (list (string * gval) * string) :=
  match fuel with
  | O => None
  | S f =>
      match skip_ws s with
      | String q s1 =>
          if decide (nat_of_ascii q = 34) then
            match parse_str s1 with
            | None => None
            | Some (k, r0) =>
                match skip_ws r0 with
                | String c r1 =>
                    if decide (nat_of_ascii c = 58) then
                      match parse_json f r1 with
                      | None => None
                      | Some (v, r) =>
                          match skip_ws r with
                          | String c r' =>
                              if decide (nat_of_ascii c = 125) then Some ([(k, v)], r')
                              else if decide (nat_of_ascii c = 44) then
                                match parse_members f r' with
                                | Some (l, r2) => Some ((k, v) :: l, r2)
                                | None => None
                                end
                              else None
                          | EmptyString => None
                          end
                      end
                    else None
                | EmptyString => None
                end
            end
          else None
      | EmptyString => None
      end
  end.

Definition unmarshal_json (s : string) : option gval :=
  match parse_json (String.length s) s with
  | Some (v, r) => match skip_ws r with EmptyString => Some v | _ => None end
  | None => None
  end.

(** ** The codec round trip *)

Lemma str_app_assoc (a b c : string) : ((a +:+ b) +:+ c = a +:+ (b +:+ c))%string.
Proof. induction a as [|x a IH]; simpl; [done|]. by rewrite IH. Qed.

Lemma str_app_length (a b : string) :
  String.length (a +:+ b)%string = String.length a + String.length b.
Proof. induction a as [|x a IH]; simpl; [done|]. by rewrite IH. Qed.

Lemma str_app_nil_r (a : string) : (a +:+ "")%string = a.
Proof. induction a as [|x a IH]; simpl; [done|]. by rewrite IH. Qed.

Lemma parse_str_escape_byte a t :
  parse_str (escape_byte a +:+ t)%string =
  match parse_str t with Some (u, r) => Some (String a u, r) | None => None end.
Proof. destruct a as [[] [] [] [] [] [] [] []]; cbn; try done; by destruct (parse_str t) as [[??]|]. Qed.

Lemma parse_str_escape s r :
  parse_str (escape s +:+ String dquote r)%string = Some (s, r).
Proof.
  induction s as [|a s IH]; [done|]. cbn [escape].
  by rewrite str_app_assoc, parse_str_escape_byte, IH.
Qed.

Fixpoint all_num (s : string) : bool :=
  match s with
  | EmptyString => true
  | String a s' => is_num_byte a && all_num s'
  end.

Definition not_num_head (s : string) : bool :=
  match s with EmptyString => true | String a _ => negb (is_num_byte a) end.

Lemma span_num_app p r :
  all_num p = true → not_num_head r = true → span_num (p +:+ r)%string = (p, r).
Proof.
  induction p as [|a p IH]; simpl; intros Hp Hr.
  - destruct r as [|b r]; simpl; [done|]. simpl in Hr. by destruct (is_num_byte b).
  - apply andb_true_iff in Hp as [-> Hp]. by rewrite IH.
Qed.

Lemma all_num_uint d : all_num (DecimalString.NilEmpty.string_of_uint d) = true.
Proof. induction d; simpl; done. Qed.

Lemma all_num_print_Z n : all_num (print_Z n) = true.
Proof. unfold print_Z. destruct (Z.to_int n); simpl; apply all_num_uint. Qed.

Lemma print_Z_head n : ∃ a s, print_Z n = String a s ∧ is_num_byte a = true.
Proof.
  pose proof (all_num_print_Z n) as H.
  destruct (print_Z n) as [|a s] eqn:E.
  - exfalso. unfold print_Z in E. destruct n as [|p|p]; simpl in E; [done| |].
    + pose proof (DecimalPos.Unsigned.to_uint_nonnil p) as Hn.
      by destruct (Pos.to_uint p).
    + done.
  - apply andb_true_iff in H as [H _]. eauto.
Qed.

Lemma parse_num_print_Z n r :
  not_num_head r = true → parse_num (print_Z n +:+ r)%string = Some (n, r).
Proof.
  intros Hr. unfold parse_num. rewrite span_num_app by (try done; apply all_num_print_Z).
  destruct (print_Z_head n) as (a & s & E & _). rewrite E, <- E.
  unfold print_Z. rewrite DecimalString.NilEmpty.isi. by rewrite DecimalZ.of_to.
Qed.

(** The first byte of a printed value is neither a space nor a closing
    bracket or brace. *)
Lemma print_json_head v :
  ∃ a s, print_json v = String a s ∧ is_space a = false ∧
         nat_of_ascii a ≠ 93 ∧ nat_of_ascii a ≠ 125.
Proof.
  destruct v as [| [] | n | s | l | l]; simpl;
    try (eexists _, _; split; [reflexivity|]; by repeat split).
  destruct (print_Z_head n) as (a & s & -> & Ha). eexists _, _; split; [done|].
  unfold is_num_byte, is_space in *. to_prop.
  rewrite bool_decide_eq_false. lia.
Qed.

Lemma print_json_length v : 1 ≤ String.length (print_json v).
Proof. destruct (print_json_head v) as (a & s & -> & _). simpl. lia. Qed.

Lemma skip_ws_nonspace a s : is_space a = false → skip_ws (String a s) = String a s.
Proof. simpl. by intros ->. Qed.

Definition parses (v : gval) : Prop :=
  ∀ fuel r, String.length (print_json v) ≤ fuel → not_num_head r = true →
    parse_json fuel (print_json v +:+ r)%string = Some (v, r).

Definition member_text (kv : string * gval) : string :=
  (quote kv.1 +:+ String ":" (print_json kv.2))%string.

Lemma join_cons2 sep x y l :
  join_with sep (x :: y :: l) = (x +:+ sep +:+ join_with sep (y :: l))%string.
Proof. done. Qed.

Lemma member_append k v r :
  (member_text (k, v) +:+ r)%string =
  String dquote (escape k +:+ String dquote (String ":" (print_json v +:+ r)))%string.
Proof. unfold member_text, quote. simpl. by rewrite !str_app_assoc. Qed.

Lemma member_length k v :
  String.length (member_text (k, v)) = 3 + String.length (escape k) + String.length (print_json v).
Proof.
  unfold member_text, quote. simpl. repeat (rewrite str_app_length; simpl). lia.
Qed.

Lemma parse_elems_print l fuel r :
  Forall parses l → l ≠ [] →
  S (String.length (join_with "," (map print_json l))) ≤ fuel →
  parse_elems fuel (join_with "," (map print_json l) +:+ String "]" r)%string = Some (l, r).
Proof.
  revert fuel. induction l as [|v [|w l] IH]; intros fuel HF Hne Hlen; [done| |].
  - inversion_clear HF as [|? ? Hv _]. simpl in *. destruct fuel as [|f]; [lia|]. cbn.
    rewrite Hv by (done || lia). done.
  - inversion_clear HF as [|? ? Hv HF'].
    pose proof (λ f, IH f HF' ltac:(done)) as IH'.
    assert (Hcons : join_with "," (map print_json (v :: w :: l)) =
      (print_json v +:+ String "," (join_with "," (map print_json (w :: l))))%string) by done.
    rewrite Hcons in *. clear Hcons IH.
    set (J := join_with "," (map print_json (w :: l))) in *. clearbody J.
    rewrite str_app_length in Hlen. simpl in Hlen. rewrite str_app_assoc.
    destruct fuel as [|f]; [lia|]. pose proof (print_json_length v). cbn [parse_elems].
    rewrite Hv by (done || lia). cbn [String.append].
    rewrite skip_ws_nonspace, decide_False, decide_True by done. by rewrite IH' by lia.
Qed.

Lemma parse_members_print l fuel r :
  Forall (λ kv, parses kv.2) l → l ≠ [] →
  S (String.length (join_with "," (map member_text l))) ≤ fuel →
  parse_members fuel (join_with "," (map member_text l) +:+ String "}" r)%string = Some (l, r).
Proof.
  revert fuel. induction l as [|[k v] l IH]; intros fuel HF Hne Hlen; [done|].
  inversion_clear HF as [|? ? Hv HF']. simpl in Hv.
  destruct fuel as [|f]; [lia|]. destruct l as [|w l].
  - change (join_with "," (map member_text [(k, v)])) with (member_text (k, v)) in *.
    rewrite member_length in Hlen. rewrite member_append. cbn [parse_members].
    rewrite skip_ws_nonspace, decide_True by done.
    rewrite parse_str_escape. rewrite skip_ws_nonspace, decide_True by done.
    by rewrite Hv by (done || lia).
  - pose proof (λ f, IH f HF' ltac:(done)) as IH'.
    assert (Hcons : join_with "," (map member_text ((k, v) :: w :: l)) =
      (member_text (k, v) +:+ String "," (join_with "," (map member_text (w :: l))))%string) by done.
    rewrite Hcons in *. clear Hcons IH.
    set (J := join_with "," (map member_text (w :: l))) in *. clearbody J.
    rewrite str_app_length, member_length in Hlen. simpl in Hlen.
    rewrite str_app_assoc, member_append. cbn [parse_members].
    rewrite skip_ws_nonspace, decide_True by done.
    rewrite parse_str_escape. rewrite skip_ws_nonspace, decide_True by done.
    rewrite Hv by (done || lia). cbn [String.append].
    rewrite skip_ws_nonspace, decide_False, decide_True by done. by rewrite IH' by lia.
Qed.

Lemma print_obj l :
  print_json (GObj l) = String "{" (join_with "," (map member_text l) +:+ "}")%string.
Proof. done. Qed.

Lemma parse_json_print v : parses v.
Proof.
  induction v as [| b | n | s | l IH | l IH] using gval_ind'; intros fuel r Hlen Hr;
    (destruct fuel as [|f];
     [exfalso; match type of Hlen with String.length (print_json ?v) ≤ 0 =>
         pose proof (print_json_length v); lia end|]).
  - by destruct r.
  - by destruct b, r.
  - destruct (print_Z_head n) as (a & s & E & Ha).
    cbn [print_json]. cbn [parse_json].
    assert (is_space a = false ∧ nat_of_ascii a ≠ 34 ∧ nat_of_ascii a ≠ 91 ∧ nat_of_ascii a ≠ 123)
      as (Hs & H1 & H2 & H3).
    { unfold is_num_byte, is_space in *. to_prop. rewrite bool_decide_eq_false. lia. }
    rewrite E. cbn [String.append]. rewrite skip_ws_nonspace by done.
    rewrite !decide_False by done. rewrite Ha.
    change (String a (s +:+ r)%string) with (String a s +:+ r)%string.
    by rewrite <- E, parse_num_print_Z.
  - cbn [print_json]. unfold quote. cbn [String.append]. rewrite str_app_assoc.
    cbn [String.append parse_json]. rewrite skip_ws_nonspace, decide_True by done.
    by rewrite parse_str_escape.
  - destruct l as [|v l]; [done|].
    destruct (print_json_head v) as (a & s & E & Hs & H1 & H2).
    assert (∃ t, join_with "," (map print_json (v :: l)) = String a t) as [t Et].
    { cbn. rewrite E. destruct l; simpl; eauto. }
    pose proof (parse_elems_print (v :: l) f r IH ltac:(done)) as Hp.
    cbn [print_json] in *. set (J := join_with "," (map print_json (v :: l))) in *.
    simpl in Hlen. rewrite str_app_length in Hlen. simpl in Hlen.
    cbn [String.append]. rewrite str_app_assoc. cbn [String.append parse_json].
    rewrite skip_ws_nonspace, decide_False, decide_True by done.
    rewrite Hp by lia. rewrite Et. cbn [String.append]. rewrite skip_ws_nonspace by done.
    by rewrite decide_False.
  - destruct l as [|[k v] l]; [done|].
    assert (∃ t, join_with "," (map member_text ((k, v) :: l)) = String dquote t) as [t Et].
    { destruct l; simpl; eauto. }
    pose proof (parse_members_print ((k, v) :: l) f r IH ltac:(done)) as Hp.
    rewrite print_obj in *. set (J := join_with "," (map member_text ((k, v) :: l))) in *.
    simpl in Hlen. rewrite str_app_length in Hlen. simpl in Hlen.
    cbn [String.append]. rewrite str_app_assoc. cbn [String.append parse_json].
    rewrite skip_ws_nonspace, !decide_False, decide_True by done.
    rewrite Hp by lia. rewrite Et. cbn [String.append]. rewrite skip_ws_nonspace by done.
    by rewrite decide_False.
Qed.

Lemma unmarshal_print v : unmarshal_json (print_json v) = Some v.
Proof.
  unfold unmarshal_json. rewrite <- (str_app_nil_r (print_json v)) at 2.
  by rewrite parse_json_print.
Qed.

#[export] Program Instance json_text : JsonText := {
  json_marshal := print_json;
  json_unmarshal := unmarshal_json;
  json_roundtrip := unmarshal_print;
}.
Next Obligation. intros l. eexists. reflexivity. Qed.
Next Obligation. intros l. eexists. reflexivity. Qed.
Next Obligation. intros v H. destruct (print_json_head v) as (a & s & E & _). congruence. Qed.
Next Obligation. reflexivity. Qed.

(** ** Canonical JSON objects: [json.Marshal] writes a map's keys in order *)

Fixpoint insert_member (k : string) (v : gval) (l : list (string * gval)) : list (string * gval) :=
  match l with
  | [] => [(k, v)]
  | (k', v') :: l' =>
      match String.compare k k' with
      | Lt => (k, v) :: l
      | Eq => l
      | Gt => (k', v') :: insert_member k v l'
      end
  end.

Fixpoint canon (v : gval) : gval :=
  match v with
  | GArr l => GArr (map canon l)
  | GObj l => GObj ((fix members l := match l with
                     | [] => []
                     | (k, v) :: l' => insert_member k (canon v) (members l')
                     end) l)
  | _ => v
  end.
