(* ===== verification/GoTime.v ===== *)
(** * Instants and RFC 3339 timestamps

    What the sources use of package [time]: an instant is a number of
    nanoseconds since the Unix epoch, a duration a number of nanoseconds, and
    [time.Parse(time.RFC3339, s)] is the layout-driven parser of the standard
    library (one- or two-digit hours, a period or comma before the fraction,
    [Z] or a numeric offset). *)

From S2P Require Import Prelude.
Local Open Scope Z_scope.

Definition Nanosecond : Z := 1.
Definition Millisecond : Z := 1000000.
Definition Second : Z := 1000 * Millisecond.
Definition Minute : Z := 60 * Second.
Definition Hour : Z := 60 * Minute.

Definition digit_val (a : ascii) : option Z :=
  let n := Z.of_nat (nat_of_ascii a) in
  if (48 <=? n) && (n <=? 57) then Some (n - 48) else None.

(** [getnum]: one digit is enough unless [fixed]. *)
Definition getnum (fixed : bool) (s : string) : option (Z * string) :=
  match s with
  | String a s1 =>
      match digit_val a with
      | None => None
      | Some d1 =>
          match s1 with
          | String b s2 =>
              match digit_val b with
              | Some d2 => Some (d1 * 10 + d2, s2)
              | None => if fixed then None else Some (d1, s1)
              end
          | EmptyString => if fixed then None else Some (d1, s1)
          end
      end
  | EmptyString => None
  end.

Definition year4 (s : string) : option (Z * string) :=
  match getnum true s with
  | Some (hi, s1) =>
      match getnum true s1 with
      | Some (lo, s2) => Some (hi * 100 + lo, s2)
      | None => None
      end
  | None => None
  end.

(** A literal byte of the layout. *)
Definition lit (c : ascii) (s : string) : option string :=
  match s with
  | String a s' => if decide (a = c) then Some s' else None
  | EmptyString => None
  end.

(** The digits after the fraction mark: the first nine scale to nanoseconds,
    the rest are skipped. *)
Fixpoint frac_digits (scale acc : Z) (s : string) : Z * string :=
  match s with
  | String a s' =>
      match digit_val a with
      | Some d => frac_digits (scale / 10) (acc + d * scale) s'
      | None => (acc, s)
      end
  | EmptyString => (acc, s)
  end.

Definition fraction (s : string) : Z * string :=
  match s with
  | String m (String a _ as s') =>
      if bool_decide (m = "."%char ∨ m = ","%char) then
        match digit_val a with
        | Some _ => let s2 := match s with String _ r => r | _ => s end in
                    frac_digits (Z.div Second 10) 0 s2
        | None => (0, s)
        end
      else (0, s)
  | _ => (0, s)
  end.

(** The zone: [Z] or [±hh:mm]; the offset in seconds. *)
Definition zone (s : string) : option (Z * string) :=
  match s with
  | String sg r =>
      if decide (sg = "Z"%char) then Some (0, r)
      else
        match getnum true r with
        | Some (hr, r1) =>
            match lit ":" r1 with
            | Some r2 =>
                match getnum true r2 with
                | Some (mm, r3) =>
                    if (24 <? hr) || (60 <? mm) then None
                    else if decide (sg = "+"%char) then Some ((hr * 60 + mm) * 60, r3)
                    else if decide (sg = "-"%char) then Some (- ((hr * 60 + mm) * 60), r3)
                    else None
                | None => None
                end
            | None => None
            end
        | None => None
        end
  | EmptyString => None
  end.

Definition is_leap (y : Z) : bool :=
  (y mod 4 =? 0) && (negb (y mod 100 =? 0) || (y mod 400 =? 0)).

Definition days_in (m y : Z) : Z :=
  if m =? 2 then if is_leap y then 29 else 28
  else if (m =? 4) || (m =? 6) || (m =? 9) || (m =? 11) then 30 else 31.

(** Days from 1970-01-01 in the proleptic Gregorian calendar. *)
Definition days_from_civil (y m d : Z) : Z :=
  let y' := if m <=? 2 then y - 1 else y in
  let era := y' / 400 in
  let yoe := y' - era * 400 in
  let doy := (153 * (if m <=? 2 then m + 9 else m - 3) + 2) / 5 + d - 1 in
  era * 146097 + (yoe * 365 + yoe / 4 - yoe / 100 + doy) - 719468.

Definition in_range (lo hi n : Z) : option unit :=
  if (lo <=? n) && (n <=? hi) then Some tt else None.

(** [time.Parse(time.RFC3339, s)]. *)
Definition parse_rfc3339 (s : string) : option Z :=
  p ← year4 s; let '(y, s) := p : Z * string in
  s ← lit "-" s;
  p ← getnum true s; let '(mo, s) := p : Z * string in
  _ ← in_range 1 12 mo;
  s ← lit "-" s;
  p ← getnum true s; let '(d, s) := p : Z * string in
  s ← lit "T" s;
  p ← getnum false s; let '(h, s) := p : Z * string in
  _ ← in_range 0 23 h;
  s ← lit ":" s;
  p ← getnum true s; let '(mi, s) := p : Z * string in
  _ ← in_range 0 59 mi;
  s ← lit ":" s;
  p ← getnum true s; let '(sec, s) := p : Z * string in
  _ ← in_range 0 59 sec;
  let '(ns, s) := fraction s in
  p ← zone s; let '(off, s) := p : Z * string in
  if decide (s = ""%string) then
    _ ← in_range 1 (days_in mo y) d;
    mret ((days_from_civil y mo d * 86400 + h * 3600 + mi * 60 + sec - off) * Second + ns)
  else None.

Example parse_rfc3339_epoch : parse_rfc3339 "1970-01-01T00:00:00Z" = Some 0.
Proof. reflexivity. Qed.
Example parse_rfc3339_offset :
  parse_rfc3339 "2026-03-01T03:00:00.25+03:00" = Some (1772323200 * Second + 250 * Millisecond).
Proof. reflexivity. Qed.
Example parse_rfc3339_bad_day : parse_rfc3339 "2026-02-29T00:00:00Z" = None.
Proof. reflexivity. Qed.

(** ** Decimal text: [strconv.ParseInt(s, 10, 64)] and [strconv.Atoi] *)

Fixpoint atoi_digits (acc : Z) (s : string) : option Z :=
  match s with
  | EmptyString => Some acc
  | String a s' => d ← digit_val a; atoi_digits (10 * acc + d) s'
  end.

Definition int64_range (n : Z) : option Z :=
  if ((-(2 ^ 63) <=? n) && (n <? 2 ^ 63))%Z then Some n else None.

Definition Atoi (s : string) : option Z :=
  match s with
  | EmptyString => None
  | String a s' =>
      let digits t := match t with EmptyString => None | _ => atoi_digits 0 t end in
      if decide (a = "-"%char) then n ← digits s'; int64_range (-n)
      else if decide (a = "+"%char) then n ← digits s'; int64_range n
      else n ← digits s; int64_range n
  end.

