(* ===== verification/Calendar.v ===== *)
(** * Calendar dates

    What the billing code uses of package [time] beside instants: the date of an instant
    in a zone, [time.Date] and [AddDate], and the layouts [2006-01-02] and [2006-01]. *)

From S2P Require Import Prelude Json GoTime.
Local Open Scope Z_scope.

Definition Day : Z := 24 * Hour.

(** A [time.Time]: an instant and the offset of its location, in seconds. *)
Record Time := { ti_at : Z; ti_offset : Z }.

Definition UTC (t : Time) : Time := {| ti_at := ti_at t; ti_offset := 0 |}.

(** The date of day [z] since 1970-01-01. *)
Definition civil_from_days (z : Z) : Z * Z * Z :=
  let z := z + 719468 in
  let era := z / 146097 in
  let doe := z mod 146097 in
  let yoe := (doe - doe / 1460 + doe / 36524 - doe / 146096) / 365 in
  let doy := doe - (365 * yoe + yoe / 4 - yoe / 100) in
  let mp := (5 * doy + 2) / 153 in
  let d := doy - (153 * mp + 2) / 5 + 1 in
  let m := if mp <? 10 then mp + 3 else mp - 9 in
  (yoe + era * 400 + (if m <=? 2 then 1 else 0), m, d).

Definition day_of (t : Time) : Z := (ti_at t + ti_offset t * Second) / Day.

Definition Date_of (t : Time) : Z * Z * Z := civil_from_days (day_of t).
Definition Year (t : Time) : Z := (Date_of t).1.1.
Definition Month (t : Time) : Z := (Date_of t).1.2.
Definition Day_of_month (t : Time) : Z := (Date_of t).2.

(** [time.Date(y, m, d, 0, 0, 0, 0, time.UTC)], any month. *)
Definition Date (y m d : Z) : Z :=
  (days_from_civil (y + (m - 1) / 12) ((m - 1) mod 12 + 1) 1 + (d - 1)) * Day.

(** ** Text *)

Definition digit (n : Z) : ascii := ascii_of_nat (Z.to_nat (48 + n)).
Definition two_digits (n : Z) : string := String (digit (n / 10)) (String (digit (n mod 10)) "").
Definition four_digits (n : Z) : string := (two_digits (n / 100) +:+ two_digits (n mod 100))%string.

(** The year in a layout: four digits at least. *)
Definition year_text (y : Z) : string :=
  let abs y := if y <=? 9999 then four_digits y else print_Z y in
  if y <? 0 then ("-" +:+ abs (- y))%string else abs y.

(** [t.Format("2006-01-02")] and [t.Format("2006-01")]. *)
Definition format_date (t : Time) : string :=
  let '(y, m, d) := Date_of t in (year_text y +:+ ("-" +:+ (two_digits m +:+ ("-" +:+ two_digits d))))%string.

Definition format_month (t : Time) : string :=
  let '(y, m, _) := Date_of t in (year_text y +:+ ("-" +:+ two_digits m))%string.

(** [time.Parse("2006-01-02", s)]: midnight UTC. *)
Definition parse_date (s : string) : option Time :=
  p ← year4 s; let '(y, s) := p : Z * string in
  s ← lit "-" s;
  p ← getnum true s; let '(m, s) := p : Z * string in
  _ ← in_range 1 12 m;
  s ← lit "-" s;
  p ← getnum true s; let '(d, s) := p : Z * string in
  if decide (s = ""%string) then
    _ ← in_range 1 (days_in m y) d;
    mret {| ti_at := days_from_civil y m d * Day; ti_offset := 0 |}
  else None.

(** ** The calendar is a calendar *)

(** [f] holds of [n] numbers from [z] on. *)
Fixpoint all_from (n : nat) (z : Z) (f : Z → bool) : bool :=
  match n with O => true | S n => f z && all_from n (z + 1) f end.

Lemma all_from_spec n z f x : all_from n z f = true → z <= x < z + Z.of_nat n → f x = true.
Proof.
  revert z. induction n as [|n IH]; intros z; cbn [all_from]; [lia|]. intros [Hz Hn]%andb_true_iff Hx.
  destruct (decide (x = z)) as [->|]; [done|]. apply (IH (z + 1)); [done|lia].
Qed.

(** The year of an era of 400, from March to February. *)
Lemma year_of_era doe (yoe := (doe - doe / 1460 + doe / 36524 - doe / 146096) / 365) (doy := doe - (365 * yoe + yoe / 4 - yoe / 100)) :
  0 <= doe < 146097 →
  0 <= yoe < 400 ∧ 0 <= doy ∧ (doy <= 364 ∨ doy = 365 ∧ (yoe + 1) mod 4 = 0 ∧ ((yoe + 1) mod 100 <> 0 ∨ yoe = 399)).
Proof. subst yoe doy. intros. Z.to_euclidean_division_equations. lia. Qed.

(** Month and day of a day of the year. *)
Definition month_right (doy : Z) : bool :=
  let mp := (5 * doy + 2) / 153 in
  let d := doy - (153 * mp + 2) / 5 + 1 in
  let m := if mp <? 10 then mp + 3 else mp - 9 in
  (1 <=? m) && (m <=? 12) && (1 <=? d) && (d <=? (if (m =? 2) && (doy <? 365) then 28 else days_in m 0))
  && ((153 * (if m <=? 2 then m + 9 else m - 3) + 2) / 5 + d - 1 =? doy) && ((m =? 2) || (doy <? 365)).

Lemma months_right : all_from 366 0 month_right = true.
Proof. vm_compute. reflexivity. Qed.

Lemma leap_next yoe era : 0 <= yoe < 400 → (yoe + 1) mod 4 = 0 → (yoe + 1) mod 100 <> 0 ∨ yoe = 399 → is_leap (yoe + era * 400 + 1) = true.
Proof.
  intros Hy H4 H100. unfold is_leap. replace (yoe + era * 400 + 1) with (yoe + 1 + (era * 100) * 4) at 1 by lia. rewrite Z_mod_plus_full, H4.
  destruct H100 as [H100| ->].
  - replace (yoe + era * 400 + 1) with (yoe + 1 + (era * 4) * 100) at 1 by lia. rewrite Z_mod_plus_full.
    destruct (Z.eqb_spec ((yoe + 1) mod 100) 0); [done|]. done.
  - assert ((399 + era * 400 + 1) mod 400 = 0) as -> by (Z.to_euclidean_division_equations; lia). by rewrite orb_true_r.
Qed.

(** Every day has a date of the calendar, and the date is that of the day. *)
Lemma civil_spec z : let '(y, m, d) := civil_from_days z in
  1 <= m <= 12 ∧ 1 <= d <= days_in m y ∧ days_from_civil y m d = z.
Proof.
  unfold civil_from_days. cbv zeta. pose proof (Z_div_mod_eq_full (z + 719468) 146097) as Hz.
  pose proof (year_of_era ((z + 719468) mod 146097) ltac:(pose proof (Z.mod_pos_bound (z + 719468) 146097); lia)) as Hy.
  set (era := (z + 719468) / 146097) in *. set (doe := (z + 719468) mod 146097) in *.
  set (yoe := (doe - doe / 1460 + doe / 36524 - doe / 146096) / 365) in *. clearbody yoe.
  set (doy := doe - (365 * yoe + yoe / 4 - yoe / 100)) in *. destruct Hy as (Hy & Hd0 & Hd).
  pose proof (all_from_spec _ _ _ doy months_right ltac:(lia)) as Hm. unfold month_right in Hm. cbv zeta in Hm.
  set (mp := (5 * doy + 2) / 153) in *. clearbody mp. set (m := if mp <? 10 then mp + 3 else mp - 9) in *. clearbody m.
  set (d := doy - (153 * mp + 2) / 5 + 1) in *. clearbody d. to_prop. split; [lia|]. split.
  - split; [done|]. destruct (m =? 2) eqn:E2; cbn [andb] in *.
    + apply Z.eqb_eq in E2. subst m. destruct (doy <? 365) eqn:E5; [unfold days_in; change (2 =? 2) with true; cbv iota; destruct (is_leap _); lia|].
      destruct Hd as [?|(_ & H4' & H100)]; [lia|]. change (2 <=? 2) with true. unfold days_in in *. cbn [Z.eqb Pos.eqb] in *. by rewrite leap_next.
    + unfold days_in in *. rewrite E2 in *. done.
  - unfold days_from_civil. cbv zeta. set (y' := if m <=? 2 then _ - 1 else _).
    assert (y' = yoe + era * 400) as -> by (subst y'; destruct (m <=? 2); lia).
    rewrite Z_div_plus_full, Z.div_small by lia. replace (yoe + era * 400 - (0 + era) * 400) with yoe by lia. lia.
Qed.

Lemma Date_midnight t : Date (Year t) (Month t) (Day_of_month t) = day_of t * Day.
Proof.
  unfold Date, Year, Month, Day_of_month, Date_of. pose proof (civil_spec (day_of t)) as H. destruct (civil_from_days _) as [[y m] d]. cbn.
  destruct H as (Hm & _ & Hd). rewrite Z.div_small, Z.mod_small by lia. f_equal. rewrite <- Hd.
  replace (y + 0) with y by lia. replace (m - 1 + 1) with m by lia. unfold days_from_civil. lia.
Qed.

(** *** Text read back *)

Lemma two_digits_read n s : 0 <= n < 100 → getnum true (two_digits n +:+ s)%string = Some (n, s).
Proof.
  intros Hn. unfold two_digits. cbn [String.append getnum]. unfold digit_val, digit.
  assert (0 <= n / 10 < 10) by (split; [apply Z.div_pos; lia|apply Z.div_lt_upper_bound; lia]).
  pose proof (Z.mod_pos_bound n 10 ltac:(lia)). rewrite !nat_ascii_embedding by lia. rewrite !Z2Nat.id by lia.
  assert (∀ k, 0 <= k < 10 → (48 <=? 48 + k) && (48 + k <=? 57) = true) as Hk by (intros; apply andb_true_iff; lia).
  rewrite !Hk by done. pose proof (Z_div_mod_eq_full n 10). repeat f_equal. lia.
Qed.

Lemma four_digits_read y s : 0 <= y <= 9999 → year4 (four_digits y +:+ s)%string = Some (y, s).
Proof.
  intros Hy. assert (0 <= y / 100 < 100) by (split; [apply Z.div_pos; lia|apply Z.div_lt_upper_bound; lia]).
  pose proof (Z.mod_pos_bound y 100 ltac:(lia)). unfold four_digits, year4.
  change ((two_digits (y / 100) +:+ two_digits (y mod 100)) +:+ s)%string with (two_digits (y / 100) +:+ (two_digits (y mod 100) +:+ s))%string.
  rewrite !two_digits_read by done. pose proof (Z_div_mod_eq_full y 100). repeat f_equal. lia.
Qed.

Lemma lit_dash s : lit "-" ("-" +:+ s)%string = Some s.
Proof. reflexivity. Qed.

Lemma in_range_ok lo hi n : lo <= n <= hi → in_range lo hi n = Some tt.
Proof. intros H. unfold in_range. replace ((lo <=? n) && (n <=? hi)) with true by lia. done. Qed.

(** A date written and read is the midnight of its day. *)
Lemma format_parse t : 0 <= Year t <= 9999 → parse_date (format_date t) = Some {| ti_at := day_of t * Day; ti_offset := 0 |}.
Proof.
  unfold format_date, Year, Date_of. pose proof (civil_spec (day_of t)) as H. destruct (civil_from_days _) as [[y m] d].
  destruct H as (Hm & Hd & Hz). cbn [fst]. intros Hy. unfold year_text. replace (y <? 0) with false by lia. replace (y <=? 9999) with true by lia.
  assert (d <= 31) by (unfold days_in in Hd; repeat case_match; lia).
  unfold parse_date.
  change (four_digits y +:+ ("-" +:+ (two_digits m +:+ ("-" +:+ two_digits d))))%string with (four_digits y +:+ ("-" +:+ (two_digits m +:+ ("-" +:+ (two_digits d +:+ "")))))%string.
  rewrite four_digits_read by lia. cbn [mbind option_bind]. rewrite lit_dash. cbn [mbind option_bind].
  rewrite two_digits_read by lia. cbn [mbind option_bind]. rewrite in_range_ok by lia.
  cbn [mbind option_bind]. rewrite lit_dash. cbn [mbind option_bind].
  rewrite two_digits_read by lia. cbn [mbind option_bind]. rewrite decide_True by done.
  rewrite in_range_ok by done. cbn. by rewrite Hz.
Qed.
