(* ===== verification/Runes.v ===== *)
(** * Runes and edit distance

    Go's reading of a string as runes ([utf8.RuneCountInString], [[]rune(s)]), the
    clamps built on it, and [runeLevenshtein] of
    [services/api/internal/service/editdistance.go] with the distance it computes. *)

From S2P Require Import Prelude Json.
Local Open Scope Z_scope.

(** ** [utf8.RuneCountInString]

    A byte that starts no valid sequence counts as one rune. *)
Definition byte_in (lo hi : Z) (a : ascii) : bool :=
  (lo <=? Z.of_nat (nat_of_ascii a)) && (Z.of_nat (nat_of_ascii a) <=? hi).

Definition cont (a : ascii) : bool := byte_in 128 191 a.

(** The length in bytes of the rune at the head, less one. *)
Definition rune_extra (s : string) : nat :=
  match s with
  | String a s1 =>
      if byte_in 194 223 a then
        match s1 with String b _ => if cont b then 1 else 0 | _ => 0 end
      else if byte_in 224 239 a then
        match s1 with
        | String b (String c _) =>
            let ok := if byte_in 224 224 a then byte_in 160 191 b
                      else if byte_in 237 237 a then byte_in 128 159 b else cont b in
            if ok && cont c then 2 else 0
        | _ => 0
        end
      else if byte_in 240 244 a then
        match s1 with
        | String b (String c (String d _)) =>
            let ok := if byte_in 240 240 a then byte_in 144 191 b
                      else if byte_in 244 244 a then byte_in 128 143 b else cont b in
            if ok && cont c && cont d then 3 else 0
        | _ => 0
        end
      else 0
  | EmptyString => 0
  end%nat.

Fixpoint rune_count_skip (skip : nat) (s : string) : Z :=
  match s with
  | EmptyString => 0
  | String _ s' =>
      match skip with
      | S n => rune_count_skip n s'
      | O => 1 + rune_count_skip (rune_extra s) s'
      end
  end.

Definition rune_count (s : string) : Z := rune_count_skip 0 s.

(** The runes of [[]rune(s)], each as the bytes that encode it: a byte that starts
    no valid sequence becomes U+FFFD. *)
Definition rune_error : string := utf8 65533.

Definition rune_at (s : string) : string :=
  match s with
  | String a _ => if (rune_extra s =? 0)%nat && negb (byte_in 0 127 a) then rune_error
                  else String.substring 0 (S (rune_extra s)) s
  | EmptyString => ""
  end.

Fixpoint runes_skip (skip : nat) (s : string) : list string :=
  match s with
  | EmptyString => []
  | String _ s' =>
      match skip with
      | S n => runes_skip n s'
      | O => rune_at s :: runes_skip (rune_extra s) s'
      end
  end.

Definition runes (s : string) : list string := runes_skip 0 s.
Definition of_runes (l : list string) : string := String.concat "" l.

(** [string([]rune(s)[:max])] of a longer [s], [s] otherwise. *)
Definition first_runes (max : Z) (s : string) : string :=
  if rune_count s <=? max then s else of_runes (take (Z.to_nat max) (runes s)).

Lemma rune_count_skip_bounds n s : 0 ≤ rune_count_skip n s ≤ Z.of_nat (String.length s).
Proof.
  revert n. induction s as [|a s IH]; intros n; [done|].
  cbn [rune_count_skip String.length]. destruct n as [|n].
  - specialize (IH (rune_extra (String a s))). lia.
  - specialize (IH n). lia.
Qed.

Lemma runes_skip_length n s : Z.of_nat (length (runes_skip n s)) = rune_count_skip n s.
Proof.
  revert n. induction s as [|a s IH]; intros n; [done|]. cbn [runes_skip rune_count_skip].
  destruct n as [|n]; [|apply IH]. cbn [length]. rewrite Nat2Z.inj_succ, IH. lia.
Qed.

Lemma runes_length s : Z.of_nat (length (runes s)) = rune_count s.
Proof. apply runes_skip_length. Qed.

Example runes_cyrillic : runes "да!" = ["д"; "а"; "!"]%string.
Proof. reflexivity. Qed.

Example first_runes_cyrillic : first_runes 2 "привет" = "пр"%string.
Proof. reflexivity. Qed.

(** ** [editdistance.go] *)
Section distance.
Context {A : Type} `{EqDecision A}.
Local Open Scope nat_scope.

Definition substitution (x y : A) : nat := if decide (x = y) then 0 else 1.

(** The inner loop: [left] is [cur[j-1]], [prev] the previous row from [j-1] on. *)
Fixpoint row_cells (x : A) (left : nat) (rb : list A) (prev : list nat) : list nat :=
  match rb, prev with
  | y :: rb', diag :: ((up :: _) as prev') =>
      let c := Nat.min (left + 1) (Nat.min (up + 1) (diag + substitution x y)) in
      c :: row_cells x c rb' prev'
  | _, _ => []
  end.

(** The outer loop, from row [i] on. *)
Fixpoint rows_from (i : nat) (ra rb : list A) (prev : list nat) : list nat :=
  match ra with
  | [] => prev
  | x :: ra' => rows_from (S i) ra' rb (i :: row_cells x i rb prev)
  end.

Definition levenshtein (ra rb : list A) : nat :=
  match ra, rb with
  | [], _ => length rb
  | _, [] => length ra
  | _, _ => nth (length rb) (rows_from 1 ra rb (seq 0 (S (length rb)))) 0
  end.

(** A single edit of a list: one element deleted, inserted or replaced. *)
Inductive edit1 : list A → list A → Prop :=
| edit_delete l x r : edit1 (l ++ x :: r) (l ++ r)
| edit_insert l x r : edit1 (l ++ r) (l ++ x :: r)
| edit_replace l x y r : edit1 (l ++ x :: r) (l ++ y :: r).

(** An alignment of two lists of cost [n]. *)
Inductive aligned : nat → list A → list A → Prop :=
| al_nil : aligned 0 [] []
| al_keep n x a b : aligned n a b → aligned n (x :: a) (x :: b)
| al_replace n x y a b : aligned n a b → aligned (S n) (x :: a) (y :: b)
| al_delete n x a b : aligned n a b → aligned (S n) (x :: a) b
| al_insert n y a b : aligned n a b → aligned (S n) a (y :: b).

Hint Constructors aligned : core.

Lemma aligned_refl a : aligned 0 a a.
Proof. induction a; auto. Qed.

Lemma aligned_app n m a b c d : aligned n a b → aligned m c d → aligned (n + m) (a ++ c) (b ++ d).
Proof. intros H Hc. induction H; cbn; auto. Qed.

Lemma aligned_reverse n a b : aligned n a b → aligned n (reverse a) (reverse b).
Proof.
  induction 1 as [|n x a b _ IH|n x y a b _ IH|n x a b _ IH|n y a b _ IH]; [done|rewrite ?reverse_cons..].
  - rewrite <- (Nat.add_0_r n). apply aligned_app; auto.
  - rewrite <- Nat.add_1_r. apply aligned_app; auto.
  - rewrite <- (app_nil_r (reverse b)), <- Nat.add_1_r. apply aligned_app; auto.
  - rewrite <- (app_nil_r (reverse a)), <- Nat.add_1_r. apply aligned_app; auto.
Qed.

(** One more edit costs at most one more. *)
Lemma aligned_delete n a l x r : aligned n a (l ++ x :: r) → ∃ m, m ≤ S n ∧ aligned m a (l ++ r).
Proof.
  intros H. remember (l ++ x :: r) as b eqn:E. revert l E.
  induction H as [|n z a b H IH|n z w a b H IH|n z a b H IH|n w a b H IH]; intros l E.
  - by destruct l.
  - destruct l as [|w l]; injection E as -> ->; [exists (S n); auto|].
    destruct (IH l eq_refl) as (m & Hm & Ha). exists m. cbn. auto.
  - destruct l as [|v l]; injection E as -> ->; [exists (S n); cbn; auto|].
    destruct (IH l eq_refl) as (m & Hm & Ha). exists (S m). split; [lia|cbn; auto].
  - destruct (IH l E) as (m & Hm & Ha). exists (S m). split; [lia|auto].
  - destruct l as [|v l]; injection E as -> ->; [exists n; cbn; auto|].
    destruct (IH l eq_refl) as (m & Hm & Ha). exists (S m). split; [lia|cbn; auto].
Qed.

Lemma aligned_replace n a l x y r : aligned n a (l ++ x :: r) → ∃ m, m ≤ S n ∧ aligned m a (l ++ y :: r).
Proof.
  intros H. remember (l ++ x :: r) as b eqn:E. revert l E.
  induction H as [|n z a b H IH|n z w a b H IH|n z a b H IH|n w a b H IH]; intros l E.
  - by destruct l.
  - destruct l as [|w l]; injection E as -> ->; [exists (S n); cbn; auto|].
    destruct (IH l eq_refl) as (m & Hm & Ha). exists m. cbn. auto.
  - destruct l as [|v l]; injection E as -> ->; [exists (S n); cbn; auto|].
    destruct (IH l eq_refl) as (m & Hm & Ha). exists (S m). split; [lia|cbn; auto].
  - destruct (IH l E) as (m & Hm & Ha). exists (S m). split; [lia|auto].
  - destruct l as [|v l]; injection E as -> ->; [exists (S n); cbn; auto|].
    destruct (IH l eq_refl) as (m & Hm & Ha). exists (S m). split; [lia|cbn; auto].
Qed.

Lemma aligned_insert n a l y r : aligned n a (l ++ r) → aligned (S n) a (l ++ y :: r).
Proof.
  intros H. remember (l ++ r) as b eqn:E. revert l E.
  induction H as [|n z a b H IH|n z w a b H IH|n z a b H IH|n w a b H IH]; intros l E.
  - symmetry in E. apply app_eq_nil in E as [-> ->]. cbn. auto.
  - destruct l as [|v l]; cbn in E |- *; [subst; auto|]. injection E as <- ->. auto.
  - destruct l as [|v l]; cbn in E |- *; [subst; auto|]. injection E as <- ->. auto.
  - apply al_delete, IH, E.
  - destruct l as [|v l]; cbn in E |- *; [subst; auto|]. injection E as <- ->. auto.
Qed.

Lemma edit1_cons x a b : edit1 a b → edit1 (x :: a) (x :: b).
Proof.
  intros [l y r|l y r|l y z r]; [apply (edit_delete (x :: l))|apply (edit_insert (x :: l))|apply (edit_replace (x :: l))].
Qed.

Lemma edits_cons n x a b : nsteps edit1 n a b → nsteps edit1 n (x :: a) (x :: b).
Proof. induction 1 as [|n a b c Hab _ IH]; [constructor|]. econstructor; [by apply edit1_cons|done]. Qed.

(** Alignments of cost [n] are sequences of [n] edits, and no sequence is shorter
    than the best alignment. *)
Lemma aligned_edits n a b : aligned n a b → nsteps edit1 n a b.
Proof.
  induction 1 as [|n x a b _ IH|n x y a b _ IH|n x a b _ IH|n y a b _ IH]; [constructor|by apply edits_cons|..].
  - econstructor; [apply (edit_replace [] x y a)|]. by apply edits_cons.
  - econstructor; [apply (edit_delete [] x a)|]. done.
  - econstructor; [apply (edit_insert [] y a)|]. by apply edits_cons.
Qed.

Lemma edits_aligned n a b : nsteps edit1 n a b → ∃ m, m ≤ n ∧ aligned m a b.
Proof.
  revert b. induction n as [|n IH]; intros b Hn.
  - inversion Hn; subst. exists 0. split; [done|apply aligned_refl].
  - apply nsteps_inv_r in Hn as (c & Hc & Hcb). destruct (IH c Hc) as (m & Hm & Ha).
    destruct Hcb as [l x r|l x r|l x y r].
    + destruct (aligned_delete _ _ _ _ _ Ha) as (k & Hk & Ha'). exists k. split; [lia|done].
    + exists (S m). split; [lia|by apply aligned_insert].
    + destruct (aligned_replace _ _ _ _ y _ Ha) as (k & Hk & Ha'). exists k. split; [lia|done].
Qed.

(** *** The distance by recursion, and the rows as its table *)
Fixpoint lev (a : list A) : list A → nat :=
  match a with
  | [] => length
  | x :: a' => fix go b :=
      match b with
      | [] => S (length a')
      | y :: b' => Nat.min (S (go b')) (Nat.min (S (lev a' b)) (lev a' b' + substitution x y))
      end
  end.

Lemma lev_cons x a y b :
  lev (x :: a) (y :: b) = Nat.min (S (lev (x :: a) b)) (Nat.min (S (lev a (y :: b))) (lev a b + substitution x y)).
Proof. done. Qed.

Lemma lev_nil_r a : lev a [] = length a.
Proof. by destruct a. Qed.

Lemma aligned_lev a b : aligned (lev a b) a b.
Proof.
  revert b. induction a as [|x a IHa]; intros b.
  - cbn. induction b as [|y b IH]; cbn; auto.
  - induction b as [|y b IHb].
    + specialize (IHa []). rewrite lev_nil_r in IHa. cbn. auto.
    + rewrite lev_cons. assert (aligned (lev a b + substitution x y) (x :: a) (y :: b)) as Hs.
      { unfold substitution. destruct (decide (x = y)) as [->|]; [rewrite Nat.add_0_r|rewrite Nat.add_1_r]; auto. }
      destruct (Nat.min_spec (S (lev a (y :: b))) (lev a b + substitution x y)) as [[_ ->]|[_ ->]];
        match goal with |- aligned (Nat.min ?u ?v) _ _ => destruct (Nat.min_spec u v) as [[_ ->]|[_ ->]] end; auto.
Qed.

Lemma lev_least n a b : aligned n a b → lev a b ≤ n.
Proof.
  induction 1 as [|n x a b _ IH|n x y a b _ IH|n x a b _ IH|n y a b _ IH]; [done|..].
  - rewrite lev_cons. unfold substitution. rewrite decide_True by done. lia.
  - rewrite lev_cons. unfold substitution. destruct (decide (x = y)); lia.
  - destruct b as [|y b]; [rewrite lev_nil_r in *; cbn; lia|]. rewrite lev_cons. lia.
  - destruct a as [|x a]; [cbn in *; lia|]. rewrite lev_cons. lia.
Qed.

(** The prefixes of [l], each reversed, in front of [acc]. *)
Fixpoint prefixes (acc l : list A) : list (list A) :=
  acc :: match l with [] => [] | y :: l' => prefixes (y :: acc) l' end.

Lemma row_cells_table x p acc l :
  row_cells x (lev (x :: p) acc) l (lev p <$> prefixes acc l) = lev (x :: p) <$> drop 1 (prefixes acc l).
Proof.
  revert acc. induction l as [|y l IH]; intros acc; [done|].
  assert (lev p <$> prefixes acc (y :: l)
    = lev p acc :: lev p (y :: acc) :: (lev p <$> drop 1 (prefixes (y :: acc) l))) as -> by (by destruct l).
  cbn [row_cells].
  assert (Nat.min (lev (x :: p) acc + 1) (Nat.min (lev p (y :: acc) + 1) (lev p acc + substitution x y))
    = lev (x :: p) (y :: acc)) as -> by (rewrite lev_cons, !Nat.add_1_r; done).
  assert (lev p (y :: acc) :: (lev p <$> drop 1 (prefixes (y :: acc) l)) = lev p <$> prefixes (y :: acc) l) as ->
    by (by destruct l).
  rewrite IH. by destruct l.
Qed.

Lemma rows_from_table p ra rb :
  rows_from (S (length p)) ra rb (lev p <$> prefixes [] rb) = lev (reverse ra ++ p) <$> prefixes [] rb.
Proof.
  revert p. induction ra as [|x ra IH]; intros p; [done|]. cbn [rows_from].
  assert (S (length p) :: row_cells x (S (length p)) rb (lev p <$> prefixes [] rb) = lev (x :: p) <$> prefixes [] rb) as ->.
  { change (S (length p)) with (lev (x :: p) []) at 2. rewrite row_cells_table. by destruct rb. }
  change (S (S (length p))) with (S (length (x :: p))). rewrite IH, reverse_cons, <- app_assoc. done.
Qed.

Lemma prefixes_first acc l : lev [] <$> prefixes acc l = seq (length acc) (S (length l)).
Proof.
  revert acc. induction l as [|y l IH]; intros acc; [done|].
  change (prefixes acc (y :: l)) with (acc :: prefixes (y :: acc) l).
  rewrite fmap_cons, IH. done.
Qed.

Lemma prefixes_last acc l d : nth (length l) (prefixes acc l) d = reverse l ++ acc.
Proof.
  revert acc. induction l as [|y l IH]; intros acc; [done|].
  change (prefixes acc (y :: l)) with (acc :: prefixes (y :: acc) l). cbn [length nth].
  by rewrite IH, reverse_cons, <- app_assoc.
Qed.

Lemma levenshtein_lev a b : levenshtein a b = lev (reverse a) (reverse b).
Proof.
  assert (nth (length b) (rows_from 1 a b (seq 0 (S (length b)))) 0 = lev (reverse a) (reverse b)) as E.
  { pose proof (prefixes_first [] b) as Ef. pose proof (rows_from_table [] a b) as Er.
    cbn [length] in Ef, Er. rewrite <- Ef, Er, app_nil_r.
    rewrite (nth_indep _ 0 (lev (reverse a) [])).
    - etransitivity; [apply (map_nth (lev (reverse a)))|]. by rewrite prefixes_last, app_nil_r.
    - rewrite length_fmap. clear. generalize (@nil A). induction b as [|y b IH]; intros acc; cbn; [lia|].
      specialize (IH (y :: acc)). lia. }
  unfold levenshtein. destruct a as [|x a]; [|destruct b as [|y b]; [|exact E]].
  - transitivity (length (reverse b)); [by rewrite length_reverse|done].
  - change (reverse (@nil A)) with (@nil A). by rewrite lev_nil_r, length_reverse.
Qed.

(** The two-row table computes the least number of single edits. *)
Lemma levenshtein_steps a b : nsteps edit1 (levenshtein a b) a b.
Proof.
  apply aligned_edits. rewrite levenshtein_lev.
  pose proof (aligned_reverse _ _ _ (aligned_lev (reverse a) (reverse b))) as Ha.
  by rewrite !reverse_involutive in Ha.
Qed.

Lemma levenshtein_least n a b : nsteps edit1 n a b → levenshtein a b ≤ n.
Proof.
  intros (m & Hm & Ha)%edits_aligned. rewrite levenshtein_lev. apply aligned_reverse, lev_least in Ha. lia.
Qed.
End distance.

Definition runeLevenshtein (a b : string) : Z := Z.of_nat (levenshtein (runes a) (runes b)).

Example runeLevenshtein_cyrillic : runeLevenshtein "спасибо" "спасиба!" = 2.
Proof. reflexivity. Qed.

(** [runeLevenshtein]'s two rows compute the edit distance in runes: the texts
    are that many single-rune deletions, insertions or replacements apart, and no
    shorter sequence of them turns one into the other. *)
Theorem runeLevenshtein_is_edit_distance a b :
  let d := Z.to_nat (runeLevenshtein a b) in
  nsteps edit1 d (runes a) (runes b) ∧ ∀ n, nsteps edit1 n (runes a) (runes b) → (d ≤ n)%nat.
Proof.
  unfold runeLevenshtein. rewrite Nat2Z.id. split; [apply levenshtein_steps|]. intros n. apply levenshtein_least.
Qed.

Lemma runeLevenshtein_witness :
  nsteps edit1 1 (runes "да") (runes "да!") ∧ (Z.to_nat (runeLevenshtein "да" "да!") ≤ 1)%nat.
Proof.
  assert (nsteps edit1 1 (runes "да") (runes "да!")) as Hs.
  { apply nsteps_once, (edit_insert (runes "да") "!"%string []). }
  split; [exact Hs|]. exact (proj2 (runeLevenshtein_is_edit_distance "да" "да!") 1%nat Hs).
Defined.
