(* ===== verification/Types.v ===== *)
(** * Shared data: LLM messages, tool calls, approval batches and their wire codecs

    The structs of [src/pkg/llm/types.go], the approval batch of
    [src/pkg/domain/repository.go] and the SSE frame of [src/pkg/sse/event.go],
    with the JSON encodings their field tags prescribe.  A UUID is a number
    ([uuid_nil] is [uuid.Nil]); an instant is a number of nanoseconds and the
    zero [time.Time] is [None].  A Go map value that may be nil is an [option]
    of its members; a slice is a list (nil and empty slices are identified). *)

From Stdlib Require Import QArith.
From S2P Require Import Prelude Json.
Close Scope Q_scope.

Notation uuid := N (only parsing).
Definition uuid_nil : uuid := 0%N.

(** [map[string]interface{}], nil-able. *)
Notation gomap := (option (list (string * gval))).

Definition gomap_members (m : gomap) : list (string * gval) :=
  match m with Some l => l | None => [] end.

Definition gomap_get (k : string) (m : gomap) : option gval := obj_get k (gomap_members m).

(** ** pkg/llm/types.go *)

Record FunctionCall := { fc_name : string; fc_arguments : string }.

Record ToolCall := { tc_id : string; tc_type : string; tc_function : FunctionCall }.

Record Message := {
  m_role : string;
  m_content : string;
  m_tool_calls : list ToolCall;
  m_tool_call_id : string;
}.

Record FunctionDefinition := {
  fd_name : string;
  fd_description : string;
  fd_parameters : gomap;
}.

Record ToolDefinition := { td_type : string; td_function : FunctionDefinition }.

Record SystemBlock := { sb_text : string; sb_cache_boundary : bool }.

Inductive Strategy := StrategyCost | StrategySpeed.

Record ChatRequest := {
  cr_user_id : uuid;
  cr_business_id : uuid;
  cr_conversation_id : string;
  cr_model : string;
  cr_messages : list Message;
  cr_system_blocks : list SystemBlock;
  cr_tools : list ToolDefinition;
  cr_max_tokens : Z;
  cr_temperature : Q;
  cr_top_p : Q;
  cr_stop : list string;
  cr_request_id : string;
  cr_tier : string;
  cr_strategy : Strategy;
}.

Record TokenUsage := {
  tu_input : Z;
  tu_output : Z;
  tu_total : Z;
  tu_cache_read : Z;
  tu_cache_creation : Z;
}.

Record ChatResponse := {
  rs_content : string;
  rs_tool_calls : list ToolCall;
  rs_usage : TokenUsage;
  rs_finish_reason : string;
  rs_latency : Z;
  rs_provider : string;
}.

(** ** pkg/domain/repository.go: approval batches *)

Record PendingCall := {
  pc_call_id : string;
  pc_tool_name : string;
  pc_arguments : gomap;
  pc_floor_at_pause : string;
  pc_verdict : string;
  pc_edited_args : gomap;
  pc_reject_reason : string;
  pc_dispatched : bool;
  pc_dispatched_at : option Z;
}.

Record PendingToolCallBatch := {
  b_id : string;
  b_conversation_id : string;
  b_business_id : string;
  b_project_id : string;
  b_user_id : string;
  b_message_id : string;
  b_selected_platforms : list string;
  b_platform_scope_set : bool;
  b_status : string;
  b_calls : list PendingCall;
  b_model_messages : string;
  b_iteration_idx : Z;
  b_created_at : Z;
  b_updated_at : Z;
  b_expires_at : option Z;
}.

Definition set_status (s : string) (b : PendingToolCallBatch) : PendingToolCallBatch := {|
  b_id := b_id b; b_conversation_id := b_conversation_id b; b_business_id := b_business_id b;
  b_project_id := b_project_id b; b_user_id := b_user_id b; b_message_id := b_message_id b;
  b_selected_platforms := b_selected_platforms b; b_platform_scope_set := b_platform_scope_set b;
  b_status := s; b_calls := b_calls b; b_model_messages := b_model_messages b;
  b_iteration_idx := b_iteration_idx b; b_created_at := b_created_at b;
  b_updated_at := b_updated_at b; b_expires_at := b_expires_at b |}.

Definition set_calls (cs : list PendingCall) (b : PendingToolCallBatch) : PendingToolCallBatch := {|
  b_id := b_id b; b_conversation_id := b_conversation_id b; b_business_id := b_business_id b;
  b_project_id := b_project_id b; b_user_id := b_user_id b; b_message_id := b_message_id b;
  b_selected_platforms := b_selected_platforms b; b_platform_scope_set := b_platform_scope_set b;
  b_status := b_status b; b_calls := cs; b_model_messages := b_model_messages b;
  b_iteration_idx := b_iteration_idx b; b_created_at := b_created_at b;
  b_updated_at := b_updated_at b; b_expires_at := b_expires_at b |}.

(** The three timestamps the store stamps. *)
Definition set_times (created updated : Z) (expires : option Z) (b : PendingToolCallBatch)
  : PendingToolCallBatch := {|
  b_id := b_id b; b_conversation_id := b_conversation_id b; b_business_id := b_business_id b;
  b_project_id := b_project_id b; b_user_id := b_user_id b; b_message_id := b_message_id b;
  b_selected_platforms := b_selected_platforms b; b_platform_scope_set := b_platform_scope_set b;
  b_status := b_status b; b_calls := b_calls b; b_model_messages := b_model_messages b;
  b_iteration_idx := b_iteration_idx b; b_created_at := created;
  b_updated_at := updated; b_expires_at := expires |}.

(** ** pkg/sse/event.go *)

Record ApprovalCall := {
  ac_call_id : string;
  ac_tool_name : string;
  ac_args : gomap;
  ac_editable_fields : list string;
  ac_floor : string;
}.

Record SseEvent := {
  ev_type : string;
  ev_code : string;
  ev_content : string;
  ev_tool_call_id : string;
  ev_tool_name : string;
  ev_tool_display_name : string;
  ev_tool_display_name_key : string;
  ev_tool_args : gomap;
  ev_tool_result : gval;
  ev_tool_error : string;
  ev_batch_id : string;
  ev_calls : list ApprovalCall;
}.

#[export] Instance FunctionCall_eq_dec : EqDecision FunctionCall.
Proof. solve_decision. Defined.
#[export] Instance ToolCall_eq_dec : EqDecision ToolCall.
Proof. solve_decision. Defined.
#[export] Instance Message_eq_dec : EqDecision Message.
Proof. solve_decision. Defined.
#[export] Instance PendingCall_eq_dec : EqDecision PendingCall.
Proof. solve_decision. Defined.
#[export] Instance PendingToolCallBatch_eq_dec : EqDecision PendingToolCallBatch.
Proof. solve_decision. Defined.
#[export] Instance ApprovalCall_eq_dec : EqDecision ApprovalCall.
Proof. solve_decision. Defined.
#[export] Instance SseEvent_eq_dec : EqDecision SseEvent.
Proof. solve_decision. Defined.

(** ** Struct encodings

    A struct encodes as the object of its fields; a field is dropped when its
    [omitempty] test holds.  Decoding looks every tag up: a missing or null
    member leaves Go's zero value, a member of another JSON type is an error,
    unknown members are ignored. *)

Definition fields := list (string * option gval).

Definition struct_members (fs : fields) : list (string * gval) :=
  omap (λ kf, (λ v, (kf.1, v)) <$> kf.2) fs.

Definition struct_enc (fs : fields) : gval := GObj (struct_members fs).

Fixpoint field_get (k : string) (fs : fields) : option gval :=
  match fs with
  | [] => None
  | (k', v) :: fs' => if String.eqb k' k then v else field_get k fs'
  end.

(** No two fields share a tag. *)
Fixpoint tag_used (k : string) (fs : fields) : bool :=
  match fs with
  | [] => false
  | (k', _) :: fs' => String.eqb k' k || tag_used k fs'
  end.

Fixpoint tags_ok (fs : fields) : bool :=
  match fs with
  | [] => true
  | (k, _) :: fs' => negb (tag_used k fs') && tags_ok fs'
  end.

Lemma field_get_unused k fs : tag_used k fs = false → field_get k fs = None.
Proof.
  induction fs as [|[k' v] fs IH]; simpl; [done|].
  intros [-> ?]%orb_false_iff. auto.
Qed.

Lemma obj_get_struct k fs :
  tags_ok fs = true → obj_get k (struct_members fs) = field_get k fs.
Proof.
  induction fs as [|[k' v] fs IH]; [done|]. simpl.
  intros [Hu%negb_true_iff Hok]%andb_true_iff. specialize (IH Hok).
  destruct (String.eqb_spec k' k) as [->|Hne].
  - rewrite (field_get_unused _ _ Hu) in IH. destruct v as [v|]; [|done].
    change (struct_members ((k, Some v) :: fs)) with ((k, v) :: struct_members fs).
    simpl. by rewrite IH, decide_True.
  - destruct v as [v|]; [|done].
    change (struct_members ((k', Some v) :: fs)) with ((k', v) :: struct_members fs).
    simpl. rewrite IH, decide_False by done. by destruct (field_get k fs).
Qed.

(** *** Field encoders: [req_*] always present, [omit_*] under [omitempty] *)
Definition omit_if (c : bool) (v : gval) : option gval := if c then None else Some v.
Definition omit_str (s : string) := omit_if (bool_decide (s = "")) (GStr s).
Definition omit_int (n : Z) := omit_if (bool_decide (n = 0%Z)) (GNum n).
Definition omit_bool (b : bool) := omit_if (negb b) (GBool b).
Definition omit_list {A} (f : A → gval) (l : list A) :=
  omit_if (match l with [] => true | _ => false end) (GArr (f <$> l)).
Definition omit_any (v : gval) := omit_if (bool_decide (v = GNull)) v.
Definition enc_map (m : gomap) : gval := match m with Some l => GObj l | None => GNull end.
Definition omit_map (m : gomap) :=
  omit_if (match gomap_members m with [] => true | _ => false end) (enc_map m).

(** *** Field decoders *)
Definition dec_str (v : option gval) : option string :=
  match v with None | Some GNull => Some "" | Some (GStr s) => Some s | _ => None end.
Definition dec_int (v : option gval) : option Z :=
  match v with None | Some GNull => Some 0%Z | Some (GNum n) => Some n | _ => None end.
Definition dec_bool (v : option gval) : option bool :=
  match v with None | Some GNull => Some false | Some (GBool b) => Some b | _ => None end.
Definition dec_list {A} (f : gval → option A) (v : option gval) : option (list A) :=
  match v with None | Some GNull => Some [] | Some (GArr l) => mapM f l | _ => None end.
Definition dec_map (v : option gval) : option gomap :=
  match v with None | Some GNull => Some None | Some (GObj l) => Some (Some l) | _ => None end.
Definition dec_any (v : option gval) : gval := default GNull v.
Definition dec_str1 (v : gval) : option string := dec_str (Some v).

(** A decoded empty map under [omitempty] is the nil map. *)
Definition norm_map (m : gomap) : gomap :=
  match m with Some [] => None | _ => m end.

Lemma dec_omit_str s : dec_str (omit_str s) = Some s.
Proof. unfold omit_str, omit_if. case_bool_decide; by subst. Qed.
Lemma dec_omit_int n : dec_int (omit_int n) = Some n.
Proof. unfold omit_int, omit_if. case_bool_decide; by subst. Qed.
Lemma dec_omit_bool b : dec_bool (omit_bool b) = Some b.
Proof. by destruct b. Qed.
Lemma dec_omit_any v : dec_any (omit_any v) = v.
Proof. unfold omit_any, omit_if. case_bool_decide; by subst. Qed.
Lemma dec_enc_map m : dec_map (Some (enc_map m)) = Some m.
Proof. by destruct m. Qed.
Lemma dec_omit_map m : dec_map (omit_map m) = Some (norm_map m).
Proof. by destruct m as [[]|]. Qed.

Lemma mapM_fmap_id {A B} (f : A → B) (g : B → option A) l :
  (∀ x, g (f x) = Some x) → mapM g (f <$> l) = Some l.
Proof. intros H. apply mapM_Some_2, Forall2_fmap_l, Forall_Forall2_diag, Forall_forall. auto. Qed.
Lemma dec_list_map {A} (f : A → gval) (g : gval → option A) l :
  (∀ x, g (f x) = Some x) → dec_list g (Some (GArr (f <$> l))) = Some l.
Proof. apply mapM_fmap_id. Qed.
Lemma dec_omit_list {A} (f : A → gval) (g : gval → option A) l :
  (∀ x, g (f x) = Some x) → dec_list g (omit_list f l) = Some l.
Proof.
  intros H. destruct l as [|x l]; [done|].
  change (omit_list f (x :: l)) with (Some (GArr (f <$> (x :: l)))).
  by apply dec_list_map.
Qed.

#[export] Hint Rewrite dec_omit_str dec_omit_int dec_omit_bool dec_omit_any
  dec_enc_map dec_omit_map : codec.

(** Decode a struct value against its field list: every tag lookup computes,
    every field codec rewrites. *)
Ltac codec_step :=
  unfold struct_enc; rewrite ?obj_get_struct by reflexivity;
  cbn [field_get String.eqb Ascii.eqb Bool.eqb fst snd];
  autorewrite with codec.

Ltac codec := repeat (progress (codec_step; cbn [mbind option_bind mret option_ret])).

(** *** The structs *)

Definition enc_function_call (f : FunctionCall) : gval := struct_enc
  [("name", Some (GStr (fc_name f))); ("arguments", Some (GStr (fc_arguments f)))].

Definition dec_function_call (v : option gval) : option FunctionCall :=
  match v with
  | None | Some GNull => Some {| fc_name := ""; fc_arguments := "" |}
  | Some (GObj l) =>
      n ← dec_str (obj_get "name" l); a ← dec_str (obj_get "arguments" l);
      mret {| fc_name := n; fc_arguments := a |}
  | _ => None
  end.

Definition enc_tool_call (t : ToolCall) : gval := struct_enc
  [("id", Some (GStr (tc_id t))); ("type", Some (GStr (tc_type t)));
   ("function", Some (enc_function_call (tc_function t)))].

Definition dec_tool_call (v : gval) : option ToolCall :=
  match v with
  | GNull => Some {| tc_id := ""; tc_type := ""; tc_function := {| fc_name := ""; fc_arguments := "" |} |}
  | GObj l =>
      i ← dec_str (obj_get "id" l); t ← dec_str (obj_get "type" l);
      f ← dec_function_call (obj_get "function" l);
      mret {| tc_id := i; tc_type := t; tc_function := f |}
  | _ => None
  end.

Definition enc_message (m : Message) : gval := struct_enc
  [("role", Some (GStr (m_role m))); ("content", Some (GStr (m_content m)));
   ("tool_calls", omit_list enc_tool_call (m_tool_calls m));
   ("tool_call_id", omit_str (m_tool_call_id m))].

Definition dec_message (v : gval) : option Message :=
  match v with
  | GNull => Some {| m_role := ""; m_content := ""; m_tool_calls := []; m_tool_call_id := "" |}
  | GObj l =>
      r ← dec_str (obj_get "role" l); c ← dec_str (obj_get "content" l);
      t ← dec_list dec_tool_call (obj_get "tool_calls" l);
      i ← dec_str (obj_get "tool_call_id" l);
      mret {| m_role := r; m_content := c; m_tool_calls := t; m_tool_call_id := i |}
  | _ => None
  end.

Lemma dec_enc_function_call f : dec_function_call (Some (enc_function_call f)) = Some f.
Proof. destruct f. unfold enc_function_call. cbn. by codec. Qed.

#[export] Hint Rewrite dec_enc_function_call : codec.

Lemma dec_enc_tool_call t : dec_tool_call (enc_tool_call t) = Some t.
Proof.
  destruct t. unfold dec_tool_call, enc_tool_call, struct_enc. by codec.
Qed.

Lemma dec_enc_message m : dec_message (enc_message m) = Some m.
Proof.
  destruct m. unfold dec_message, enc_message, struct_enc. codec.
  rewrite dec_omit_list by exact dec_enc_tool_call. by codec.
Qed.

Definition enc_approval_call (a : ApprovalCall) : gval := struct_enc
  [("call_id", Some (GStr (ac_call_id a))); ("tool_name", Some (GStr (ac_tool_name a)));
   ("args", Some (enc_map (ac_args a)));
   ("editable_fields", Some (GArr (GStr <$> ac_editable_fields a)));
   ("floor", Some (GStr (ac_floor a)))].

Definition dec_approval_call (v : gval) : option ApprovalCall :=
  match v with
  | GNull => Some {| ac_call_id := ""; ac_tool_name := ""; ac_args := None;
                     ac_editable_fields := []; ac_floor := "" |}
  | GObj l =>
      c ← dec_str (obj_get "call_id" l); t ← dec_str (obj_get "tool_name" l);
      a ← dec_map (obj_get "args" l);
      e ← dec_list dec_str1 (obj_get "editable_fields" l);
      f ← dec_str (obj_get "floor" l);
      mret {| ac_call_id := c; ac_tool_name := t; ac_args := a;
              ac_editable_fields := e; ac_floor := f |}
  | _ => None
  end.

(** [sse.Marshal] and [sse.Unmarshal], up to the text codec. *)
Definition enc_event (e : SseEvent) : gval := struct_enc
  [("type", Some (GStr (ev_type e))); ("code", omit_str (ev_code e));
   ("content", omit_str (ev_content e)); ("tool_call_id", omit_str (ev_tool_call_id e));
   ("tool_name", omit_str (ev_tool_name e));
   ("tool_display_name", omit_str (ev_tool_display_name e));
   ("tool_display_name_key", omit_str (ev_tool_display_name_key e));
   ("tool_args", omit_map (ev_tool_args e)); ("result", omit_any (ev_tool_result e));
   ("error", omit_str (ev_tool_error e)); ("batch_id", omit_str (ev_batch_id e));
   ("calls", omit_list enc_approval_call (ev_calls e))].

Definition empty_event : SseEvent := {|
  ev_type := ""; ev_code := ""; ev_content := ""; ev_tool_call_id := ""; ev_tool_name := "";
  ev_tool_display_name := ""; ev_tool_display_name_key := ""; ev_tool_args := None;
  ev_tool_result := GNull; ev_tool_error := ""; ev_batch_id := ""; ev_calls := [] |}.

Definition dec_event (v : gval) : option SseEvent :=
  match v with
  | GNull => Some empty_event
  | GObj l =>
      t ← dec_str (obj_get "type" l); co ← dec_str (obj_get "code" l);
      c ← dec_str (obj_get "content" l); i ← dec_str (obj_get "tool_call_id" l);
      n ← dec_str (obj_get "tool_name" l); d ← dec_str (obj_get "tool_display_name" l);
      k ← dec_str (obj_get "tool_display_name_key" l); a ← dec_map (obj_get "tool_args" l);
      er ← dec_str (obj_get "error" l); b ← dec_str (obj_get "batch_id" l);
      cs ← dec_list dec_approval_call (obj_get "calls" l);
      mret {| ev_type := t; ev_code := co; ev_content := c; ev_tool_call_id := i;
              ev_tool_name := n; ev_tool_display_name := d; ev_tool_display_name_key := k;
              ev_tool_args := a; ev_tool_result := dec_any (obj_get "result" l);
              ev_tool_error := er; ev_batch_id := b; ev_calls := cs |}
  | _ => None
  end.

Lemma dec_enc_approval_call a : dec_approval_call (enc_approval_call a) = Some a.
Proof.
  destruct a. unfold dec_approval_call, enc_approval_call, struct_enc. codec.
  rewrite (dec_list_map GStr dec_str1) by done. by codec.
Qed.

(** The frame with an empty argument map sent as the nil map. *)
Definition norm_event (e : SseEvent) : SseEvent := {|
  ev_type := ev_type e; ev_code := ev_code e; ev_content := ev_content e;
  ev_tool_call_id := ev_tool_call_id e; ev_tool_name := ev_tool_name e;
  ev_tool_display_name := ev_tool_display_name e;
  ev_tool_display_name_key := ev_tool_display_name_key e;
  ev_tool_args := norm_map (ev_tool_args e); ev_tool_result := ev_tool_result e;
  ev_tool_error := ev_tool_error e; ev_batch_id := ev_batch_id e; ev_calls := ev_calls e |}.

Lemma dec_enc_event e : dec_event (enc_event e) = Some (norm_event e).
Proof.
  destruct e. unfold dec_event, enc_event, struct_enc. codec.
  rewrite dec_omit_list by exact dec_enc_approval_call. by codec.
Qed.

Section sse.
Context `{JsonText}.

Definition sse_Marshal (e : SseEvent) : string := json_marshal (enc_event e).

Definition sse_Unmarshal (b : string) : option SseEvent :=
  v ← json_unmarshal b; dec_event v.

(** a frame marshalled by the orchestrator and unmarshalled by the API
    carries every field, an empty argument map arriving as the nil map. *)
Theorem sse_roundtrip e : sse_Unmarshal (sse_Marshal e) = Some (norm_event e).
Proof.
  unfold sse_Unmarshal, sse_Marshal. rewrite json_roundtrip. apply dec_enc_event.
Qed.
End sse.

(** ** UUID text

    [github.com/google/uuid] is outside the repository: parsing and printing
    are parameters; printing an id gives text that parses back to it, of
    hexadecimal digits and dashes. *)
Definition uuid_char (a : ascii) : bool :=
  let n := nat_of_ascii a in
  (48 <=? n) && (n <=? 57) || (97 <=? n) && (n <=? 102) || (n =? 45).

Class UUIDText := {
  uuid_parse : string → option uuid;
  uuid_string : uuid → string;
  uuid_parse_string : ∀ u, uuid_parse (uuid_string u) = Some u;
  uuid_string_chars : ∀ u, str_forall uuid_char (uuid_string u) = true;
}.

(** An id ahead of a separator is read back from the text. *)
Lemma uuid_string_sep `{UUIDText} c u u' x y :
  uuid_char c = false →
  (uuid_string u +:+ String c x)%string = (uuid_string u' +:+ String c y)%string → u = u' ∧ x = y.
Proof.
  intros Hc He. destruct (str_forall_sep uuid_char c (uuid_string u) (uuid_string u') x y) as [Hu ->]; auto using uuid_string_chars.
  split; [|done]. apply (f_equal uuid_parse) in Hu. rewrite !uuid_parse_string in Hu. congruence.
Qed.

From Stdlib Require DecimalString DecimalN.

Fixpoint drop_dashes (s : string) : string :=
  match s with
  | EmptyString => EmptyString
  | String a s' => if Ascii.eqb a "-" then drop_dashes s' else String a (drop_dashes s')
  end.

Definition decimal_id (s : string) : option uuid :=
  N.of_uint <$> DecimalString.NilEmpty.uint_of_string s.

(** An instance to compute with: decimal ids, dashes allowed. *)
Program Definition decimal_uuid : UUIDText := {|
  uuid_parse s := match decimal_id s with Some u => Some u | None => decimal_id (drop_dashes s) end;
  uuid_string u := DecimalString.NilEmpty.string_of_uint (N.to_uint u);
|}.
Next Obligation.
  intros u. unfold decimal_id. cbn. rewrite DecimalString.NilEmpty.usu. cbn.
  by rewrite DecimalN.Unsigned.of_to.
Qed.
Next Obligation.
  intros u. cbn.
  induction (N.to_uint u) as [|d IH|d IH|d IH|d IH|d IH|d IH|d IH|d IH|d IH|d IH]; [done|..]; exact IH.
Qed.
