(* ===== verification/Users.v ===== *)
(** * Users

    [domain.User] of [pkg/domain/models.go]. *)

From S2P Require Import Prelude GoTime Types.

Record User := {
  us_id : uuid;
  us_email : string;
  us_name : string;
  us_password_hash : string;
  us_preferred_locale : string;
  us_email_verified : bool;
  us_email_verified_at : option Z;
  us_deleted_at : option Z;
  us_deletion_requested_at : option Z;
  us_deletion_canceled_at : option Z;
  us_created_at : Z;
  us_updated_at : Z;
}.
