(* ===== verification/OrchClient.v ===== *)
(** * The API's stream client

    [Client.StreamSSE] of [src/pkg/orchestratorclient/client.go]: it opens the
    orchestrator's stream, copies every line to the browser while the browser is
    there, and hands every decoded frame to its caller's callback.  What the HTTP
    transport and the reader return is a parameter ([Reply]); the two callbacks
    act on a state the caller chooses. *)

From S2P Require Import Prelude Json Types.
Local Open Scope go_scope.

(** An error value as its callers inspect it: its text, and whether
    [errors.Is(err, context.Canceled)] holds. *)
Record StreamError := { se_text : string; se_canceled : bool }.

(** What the transport gives back: no request, no response, or a status with the
    body bytes and the error the body's reader ends with, if any. *)
Inductive Reply :=
| BuildFailed (err : string)
| DoFailed (err : string) (canceled : bool)
| Responded (status : Z) (body : string) (read_err : option string).

Definition sseScannerBufferBytes : Z := 1048576.
Definition maxErrorBodyBytes : nat := 512.
Definition newline : ascii := ascii_of_nat 10.
Definition return_char : ascii := ascii_of_nat 13.
Definition line_break : string := String newline "".

(** [bufio.ScanLines] drops one carriage return at the end of a line. *)
Fixpoint drop_cr (s : string) : string :=
  match s with
  | EmptyString => EmptyString
  | String a EmptyString => if decide (a = return_char) then EmptyString else s
  | String a s' => String a (drop_cr s')
  end.

(** The lines a [bufio.Scanner] delivers and the error it stops with: a line that
    fills the buffer stops it, a last line needs no line break. *)
Fixpoint scan_pieces (pieces : list string) (read_err : option string) : list string * option string :=
  match pieces with
  | [] => ([], read_err)
  | [l] =>
      if (sseScannerBufferBytes <=? Z.of_nat (String.length l))%Z
      then ([], Some "bufio.Scanner: token too long")
      else (if String.eqb l "" then [] else [drop_cr l], read_err)
  | l :: pieces' =>
      if (sseScannerBufferBytes <=? Z.of_nat (String.length l))%Z
      then ([], Some "bufio.Scanner: token too long")
      else let '(ls, e) := scan_pieces pieces' read_err in (drop_cr l :: ls, e)
  end.

Definition scan_lines (body : string) (read_err : option string) : list string * option string :=
  scan_pieces (split_on newline body) read_err.

Definition data_prefix : string := "data: ".

Section stream.
Context `{JsonText} {W : Type}.
(** [on_event] is [req.OnEvent]; [write] appends to the response body, when the
    response writer can flush; [gone n] is whether the browser has disconnected
    when line [n] is reached. *)
Variables (can_flush : bool) (on_event : SseEvent → W → unit * W) (write : string → W → unit * W)
  (gone : nat → bool).

Definition frame_of (line : string) : option SseEvent :=
  if String.prefix data_prefix line then sse_Unmarshal (str_drop 6 line) else None.

Record Seen := { seen_done : bool; seen_error : bool; seen_pause : bool }.

Definition see (ev : SseEvent) (s : Seen) : Seen :=
  if String.eqb (ev_type ev) "done" then {| seen_done := true; seen_error := seen_error s; seen_pause := seen_pause s |}
  else if String.eqb (ev_type ev) "error" then {| seen_done := seen_done s; seen_error := true; seen_pause := seen_pause s |}
  else if String.eqb (ev_type ev) "tool_approval_required"
       then {| seen_done := seen_done s; seen_error := seen_error s; seen_pause := true |}
  else s.

Fixpoint scan_loop (n : nat) (lines : list string) (s : Seen) : W → Seen * W :=
  match lines with
  | [] => st_ret s
  | line :: lines' =>
      st! _ := (if gone n then st_ret tt else write (line +:+ line_break)%string) in
      match frame_of line with
      | None => scan_loop (S n) lines' s
      | Some ev => st! _ := on_event ev in scan_loop (S n) lines' (see ev s)
      end
  end.

Definition interrupted_event : SseEvent := {|
  ev_type := "error"; ev_code := "STREAM_INTERRUPTED"; ev_content := ""; ev_tool_call_id := "";
  ev_tool_name := ""; ev_tool_display_name := ""; ev_tool_display_name_key := ""; ev_tool_args := None;
  ev_tool_result := GNull; ev_tool_error := ""; ev_batch_id := ""; ev_calls := [] |}.

Definition interrupted_bytes : string :=
  (line_break +:+ line_break +:+ "data: " +:+
   "{" +:+ quote "type" +:+ ":" +:+ quote "error" +:+ "," +:+ quote "code" +:+ ":"
   +:+ quote "STREAM_INTERRUPTED" +:+ "}" +:+ line_break +:+ line_break)%string.

Definition client_error (text : string) (canceled : bool) : StreamError :=
  {| se_text := ("orchestratorclient: " +:+ text)%string; se_canceled := canceled |}.

Definition StreamSSE (batchID : string) (reply : Reply) : W → option StreamError * W :=
  let verb := if String.eqb batchID "" then "stream chat" else "stream resume" in
  if negb can_flush then
    st_ret (Some (client_error "StreamSSE: writer does not implement http.Flusher" false))
  else
    match reply with
    | BuildFailed err =>
        st_ret (Some (client_error ("build " +:+ (if String.eqb batchID "" then "chat" else "resume")
                        +:+ " request: " +:+ err)%string false))
    | DoFailed err canceled => st_ret (Some (client_error (verb +:+ ": " +:+ err)%string canceled))
    | Responded status body read_err =>
        if negb (status =? 200)%Z then
          st_ret (Some (client_error (verb +:+ ": unexpected status " +:+ print_Z status +:+ ": "
                          +:+ trim_space (str_take maxErrorBodyBytes body))%string false))
        else
          let '(lines, scan_err) := scan_lines body read_err in
          st! seen := scan_loop 0 lines {| seen_done := false; seen_error := false; seen_pause := false |} in
          let stream_err := match scan_err with
            | Some e => Some e
            | None => if negb (seen_done seen) && negb (seen_error seen) && negb (seen_pause seen)
                      then Some "unexpected EOF" else None
            end in
          match stream_err with
          | None => st_ret None
          | Some e =>
              let err := client_error ("scanner: " +:+ e)%string false in
              if negb (seen_error seen) && negb (seen_pause seen) then
                st! _ := on_event interrupted_event in
                if gone (length lines) then st_ret (Some err)
                else st! _ := write interrupted_bytes in st_ret (Some err)
              else st_ret (Some err)
          end
    end.

(** ** The call as a sequence of actions *)

Inductive action := Wrote (bytes : string) | Delivered (ev : SseEvent).

Definition act (a : action) : W → unit * W :=
  match a with Wrote b => write b | Delivered ev => on_event ev end.

Fixpoint line_actions (n : nat) (lines : list string) : list action :=
  match lines with
  | [] => []
  | line :: lines' =>
      (if gone n then [] else [Wrote (line +:+ line_break)%string])
      ++ match frame_of line with Some ev => [Delivered ev] | None => [] end
      ++ line_actions (S n) lines'
  end.

Definition frames (lines : list string) : list SseEvent := omap frame_of lines.

Definition terminal_type (ty : string) : bool :=
  list_mem ty ["done"; "error"; "tool_approval_required"].

Definition seen_of (evs : list SseEvent) : Seen := {|
  seen_done := existsb (λ e, String.eqb (ev_type e) "done") evs;
  seen_error := existsb (λ e, String.eqb (ev_type e) "error") evs;
  seen_pause := existsb (λ e, String.eqb (ev_type e) "tool_approval_required") evs |}.

Definition seen_or (a b : Seen) : Seen := {|
  seen_done := seen_done a || seen_done b; seen_error := seen_error a || seen_error b;
  seen_pause := seen_pause a || seen_pause b |}.

Lemma see_or ev s evs : seen_or (see ev s) (seen_of evs) = seen_or s (seen_of (ev :: evs)).
Proof.
  unfold see, seen_or, seen_of. cbn [existsb].
  destruct (String.eqb_spec (ev_type ev) "done") as [->|?]; [by destruct s as [[] [] []]|].
  destruct (String.eqb_spec (ev_type ev) "error") as [->|?]; [by destruct s as [[] [] []]|].
  destruct (String.eqb_spec (ev_type ev) "tool_approval_required") as [_|_]; by destruct s as [[] [] []].
Qed.

Lemma scan_loop_actions n lines s w :
  scan_loop n lines s w = (seen_or s (seen_of (frames lines)), (st_iter act (line_actions n lines) w).2).
Proof.
  revert n s w. induction lines as [|line lines IH]; intros n s w; cbn [scan_loop line_actions frames omap list_omap].
  { unfold seen_or, seen_of, st_ret. cbn. destruct s. by rewrite !orb_false_r. }
  assert (∀ s w', match frame_of line with
    | None => scan_loop (S n) lines s
    | Some ev => st_bind (on_event ev) (λ _, scan_loop (S n) lines (see ev s))
    end w' = (seen_or s (seen_of (frames (line :: lines))),
      (st_iter act (match frame_of line with Some ev => [Delivered ev] | None => [] end
         ++ line_actions (S n) lines) w').2)) as Hk.
  { intros s' w'. rewrite st_iter_app. unfold frames. cbn [omap list_omap].
    destruct (frame_of line) as [ev|]; [|by rewrite IH].
    cbn [st_iter act]. unfold st_bind. destruct (on_event ev w') as [[] w1]. cbn. rewrite IH, see_or.
    by unfold frames. }
  unfold st_bind at 1. rewrite st_iter_app. destruct (gone n).
  - unfold st_ret at 1. rewrite Hk. by unfold frames.
  - cbn [st_iter act]. unfold st_bind at 2. destruct (write _ w) as [[] w1]. cbn [fst snd]. rewrite Hk.
    by unfold frames.
Qed.

(** The outcome of the stream proper. *)
Definition stream_fault (body : string) (read_err : option string) : option string :=
  let '(lines, scan_err) := scan_lines body read_err in
  match scan_err with
  | Some e => Some e
  | None => if existsb (λ e, terminal_type (ev_type e)) (frames lines) then None else Some "unexpected EOF"
  end.

(** Whether the client adds its own interruption frame. *)
Definition adds_interruption (body : string) (read_err : option string) : bool :=
  let '(lines, _) := scan_lines body read_err in
  match stream_fault body read_err with
  | None => false
  | Some _ => negb (seen_error (seen_of (frames lines))) && negb (seen_pause (seen_of (frames lines)))
  end.

Definition stream_actions (reply : Reply) : list action :=
  match reply with
  | Responded 200 body read_err =>
      let '(lines, _) := scan_lines body read_err in
      line_actions 0 lines
      ++ (if adds_interruption body read_err
          then Delivered interrupted_event :: (if gone (length lines) then [] else [Wrote interrupted_bytes])
          else [])
  | _ => []
  end.

(** The frames handed to the callback. *)
Definition stream_events (reply : Reply) : list SseEvent :=
  match reply with
  | Responded 200 body read_err =>
      frames (scan_lines body read_err).1
      ++ (if adds_interruption body read_err then [interrupted_event] else [])
  | _ => []
  end.

Definition stream_error (batchID : string) (reply : Reply) : option StreamError :=
  let verb := if String.eqb batchID "" then "stream chat" else "stream resume" in
  match reply with
  | BuildFailed err =>
      Some (client_error ("build " +:+ (if String.eqb batchID "" then "chat" else "resume")
              +:+ " request: " +:+ err)%string false)
  | DoFailed err canceled => Some (client_error (verb +:+ ": " +:+ err)%string canceled)
  | Responded status body read_err =>
      if negb (status =? 200)%Z
      then Some (client_error (verb +:+ ": unexpected status " +:+ print_Z status +:+ ": "
                  +:+ trim_space (str_take maxErrorBodyBytes body))%string false)
      else (λ e, client_error ("scanner: " +:+ e)%string false) <$> stream_fault body read_err
  end.

Lemma seen_terminal evs :
  existsb (λ e, terminal_type (ev_type e)) evs
  = seen_done (seen_of evs) || seen_error (seen_of evs) || seen_pause (seen_of evs).
Proof.
  induction evs as [|e evs IH]; [done|]. cbn [existsb seen_of seen_done seen_error seen_pause] in *.
  rewrite IH. unfold terminal_type, list_mem.
  destruct (String.eqb_spec (ev_type e) "done") as [->|?]; [done|].
  destruct (String.eqb_spec (ev_type e) "error") as [->|?]; [cbn; by rewrite ?orb_true_r|].
  destruct (String.eqb_spec (ev_type e) "tool_approval_required") as [->|?].
  { cbn. by rewrite ?orb_true_r. }
  rewrite bool_decide_eq_false_2 by set_solver. done.
Qed.

Lemma StreamSSE_actions batchID reply w :
  can_flush = true →
  StreamSSE batchID reply w = (stream_error batchID reply, (st_iter act (stream_actions reply) w).2).
Proof.
  intros Hf. unfold StreamSSE, stream_error. rewrite Hf. cbn [negb].
  destruct reply as [err|err c|status body read_err]; [done..|].
  destruct (Z.eqb_spec status 200) as [->|Hne]; cbn [negb].
  2: { cbn. by destruct status as [|p|p]; repeat (destruct p as [p|p|]; try done). }
  unfold stream_actions, adds_interruption, stream_fault.
  destruct (scan_lines body read_err) as [lines scan_err].
  unfold st_bind at 1. rewrite scan_loop_actions. rewrite st_iter_app.
  set (w1 := (st_iter act (line_actions 0 lines) w).2).
  rewrite seen_terminal. set (sn := seen_of (frames lines)).
  replace (seen_or _ sn) with sn by (unfold seen_or; by destruct sn).
  assert (∀ e : string, (if negb (seen_error sn) && negb (seen_pause sn) then
      st_bind (on_event interrupted_event) (λ _,
        if gone (length lines) then st_ret (Some (client_error ("scanner: " +:+ e)%string false))
        else st_bind (write interrupted_bytes) (λ _, st_ret (Some (client_error ("scanner: " +:+ e)%string false))))
      else st_ret (Some (client_error ("scanner: " +:+ e)%string false))) w1
    = (Some (client_error ("scanner: " +:+ e)%string false),
       (st_iter act (if negb (seen_error sn) && negb (seen_pause sn)
          then Delivered interrupted_event :: (if gone (length lines) then [] else [Wrote interrupted_bytes])
          else []) w1).2)) as Hi.
  { intros e. destruct (negb (seen_error sn) && negb (seen_pause sn)); [|done].
    cbn [st_iter act]. unfold st_bind. destruct (on_event interrupted_event w1) as [[] w2].
    destruct (gone (length lines)); [done|]. cbn [st_iter act]. unfold st_bind.
    by destruct (write interrupted_bytes w2) as [[] w3]. }
  destruct scan_err as [e|]; [apply Hi|].
  destruct (seen_done sn), (seen_error sn), (seen_pause sn); cbn in *; try done.
Qed.

(** The callback sees exactly the delivered frames, in order. *)
Definition delivered (a : action) : option SseEvent :=
  match a with Delivered ev => Some ev | Wrote _ => None end.

Lemma delivered_lines n lines : omap delivered (line_actions n lines) = frames lines.
Proof.
  revert n. induction lines as [|line lines IH]; intros n; [done|].
  cbn [line_actions]. rewrite !omap_app, IH. unfold frames. cbn [omap list_omap].
  destruct (gone n), (frame_of line); done.
Qed.

Lemma delivered_actions reply : omap delivered (stream_actions reply) = stream_events reply.
Proof.
  destruct reply as [err|err c|status body read_err]; [done..|]. unfold stream_actions, stream_events.
  destruct status as [|p|p]; try done. repeat (destruct p as [p|p|]; try done).
  destruct (scan_lines body read_err) as [lines e]. cbn [fst]. rewrite omap_app, delivered_lines.
  destruct (adds_interruption body read_err); [|done]. by destruct (gone (length lines)).
Qed.
End stream.

(** ** Every accepted stream ends *)

Section ends.
Context `{JsonText}.

(** The frames a recording callback has seen. *)
Definition record_event (ev : SseEvent) (seen : list SseEvent) : unit * list SseEvent := (tt, seen ++ [ev]).
Definition no_write (bytes : string) (seen : list SseEvent) : unit * list SseEvent := (tt, seen).

Lemma recorded_events gone batchID reply :
  (StreamSSE true record_event no_write gone batchID reply []).2 = stream_events reply.
Proof.
  rewrite StreamSSE_actions by done. cbn [snd]. rewrite <- (delivered_actions gone).
  assert (∀ l seen, (st_iter (act record_event no_write) l seen).2 = seen ++ omap delivered l) as Hrec.
  { induction l as [|a l IH]; intros seen; [by rewrite app_nil_r|]. cbn [st_iter omap list_omap].
    rewrite st_bind_run, IH. destruct a; cbn; [done|]. by rewrite <- app_assoc. }
  by rewrite Hrec.
Qed.

Definition is_terminal (ev : SseEvent) : bool := terminal_type (ev_type ev).

(** C13: whatever bytes an accepted stream delivers and however its reader ends,
    the caller sees a terminal frame (done, error or an approval request), the
    client adding an interruption itself when the orchestrator sent none; the call
    reports success exactly when the orchestrator's own frames held a terminal one
    and the reader ended cleanly. *)
Theorem stream_always_ends gone batchID body read_err :
  let r := StreamSSE true record_event no_write gone batchID (Responded 200 body read_err) [] in
  existsb is_terminal r.2 = true
  ∧ (r.1 = None ↔ (scan_lines body read_err).2 = None
                  ∧ existsb is_terminal (frames (scan_lines body read_err).1) = true).
Proof.
  cbn zeta. rewrite recorded_events, StreamSSE_actions by done.
  cbn [fst stream_error stream_events Z.eqb Pos.eqb negb]. unfold adds_interruption, stream_fault.
  destruct (scan_lines body read_err) as [lines scan_err]. cbn [fst snd]. rewrite existsb_app.
  change (existsb is_terminal (frames lines)) with (existsb (λ e, terminal_type (ev_type e)) (frames lines)).
  rewrite (seen_terminal record_event). set (sn := seen_of (frames lines)).
  destruct scan_err as [e|]; [split; [|split; [done|by intros [? _]]]|].
  - destruct (seen_done sn), (seen_error sn), (seen_pause sn); done.
  - destruct (seen_done sn), (seen_error sn), (seen_pause sn); cbn; intuition congruence.
Qed.
End ends.
