(* ===== verification/Tools.v ===== *)
(** * Tool and platform names

    The canonical tool names of [src/pkg/tools/constants.go], the agent ids of
    [src/pkg/a2a/protocol.go], and the content categories the approval telemetry
    gives the publishing tools. *)

From S2P Require Import Prelude.

Definition AgentTelegram : string := "telegram".
Definition AgentVK : string := "vk".
Definition AgentYandexBusiness : string := "yandex_business".
Definition AgentGoogleBusiness : string := "google_business".

Definition TelegramEditChannelPost : string := "telegram__edit_channel_post".
Definition TelegramDeleteChannelPost : string := "telegram__delete_channel_post".
Definition TelegramSendChannelPost : string := "telegram__send_channel_post".
Definition TelegramSendChannelPhoto : string := "telegram__send_channel_photo".
Definition TelegramSendNotification : string := "telegram__send_notification".
Definition TelegramReplyToComment : string := "telegram__reply_to_comment".
Definition VKEditPost : string := "vk__edit_post".
Definition VKDeletePost : string := "vk__delete_post".
Definition VKPublishPost : string := "vk__publish_post".
Definition VKPostPhoto : string := "vk__post_photo".
Definition VKSchedulePost : string := "vk__schedule_post".
Definition VKUpdateGroupInfo : string := "vk__update_group_info".
Definition VKReplyComment : string := "vk__reply_comment".
Definition YandexBusinessUpdateHours : string := "yandex_business__update_hours".
Definition YandexBusinessUpdateInfo : string := "yandex_business__update_info".
Definition YandexBusinessReplyReview : string := "yandex_business__reply_review".
Definition YandexBusinessUploadPhoto : string := "yandex_business__upload_photo".
Definition YandexBusinessCreatePost : string := "yandex_business__create_post".
Definition GoogleBusinessReplyReview : string := "google_business__reply_review".

(** [approvaltelemetry.Kind] and its events. *)
Definition Kind (tool : string) : string :=
  if list_mem tool [TelegramSendChannelPost; TelegramSendChannelPhoto; VKPublishPost; VKPostPhoto;
                    VKSchedulePost; YandexBusinessCreatePost] then "post"
  else if list_mem tool [TelegramReplyToComment; VKReplyComment; YandexBusinessReplyReview;
                         GoogleBusinessReplyReview] then "review_reply"
  else "".

Record TelemetryEvent := {
  tev_batch_id : string;
  tev_draft_id : string;
  tev_approval_id : string;
  tev_kind : string;
  tev_source : string;
  tev_action : string;
  tev_outcome : string;
}.
