(* ===== verification/Policy.v ===== *)
(** * Tool policy: approval floors, the strictest-wins resolver, edit validation

    [src/pkg/domain/tool.go], [src/pkg/hitl/policy.go], [src/pkg/tools].  A
    floor is Go's [string]-typed [ToolFloor]: a settings entry may hold any
    text, so the type is [string] and malformed values are inhabitants. *)

From S2P Require Import Prelude Json GoTime Types.

Definition ToolFloorAuto : string := "auto".
Definition ToolFloorManual : string := "manual".
Definition ToolFloorForbidden : string := "forbidden".

Definition ValidToolFloor (f : string) : bool :=
  String.eqb f ToolFloorAuto || String.eqb f ToolFloorManual || String.eqb f ToolFloorForbidden.

Definition ToolFloorRank (f : string) : Z :=
  if String.eqb f ToolFloorAuto then 0%Z
  else if String.eqb f ToolFloorManual then 1%Z
  else if String.eqb f ToolFloorForbidden then 2%Z
  else (-1)%Z.

Definition WhitelistModeInherit : string := "inherit".
Definition WhitelistModeAll : string := "all".
Definition WhitelistModeExplicit : string := "explicit".
Definition WhitelistModeNone : string := "none".

Definition ValidWhitelistMode (m : string) : bool :=
  String.eqb m WhitelistModeInherit || String.eqb m WhitelistModeAll
  || String.eqb m WhitelistModeExplicit || String.eqb m WhitelistModeNone.

(** [Business.ToolApprovals] on the [Settings] map: entries that are not a valid
    floor are dropped. *)
Fixpoint tool_approvals_loop (raw : list (string * gval)) (out : gmap string string)
  : gmap string string :=
  match raw with
  | [] => out
  | (name, GStr s) :: rest =>
      tool_approvals_loop rest (if ValidToolFloor s then <[name := s]> out else out)
  | _ :: rest => tool_approvals_loop rest out
  end.

Definition ToolApprovals (settings : gomap) : gmap string string :=
  match gomap_get "tool_approvals" settings with
  | Some (GObj raw) => tool_approvals_loop raw ∅
  | _ => ∅
  end.

Lemma tool_approvals_loop_valid raw out :
  (∀ t f, out !! t = Some f → ValidToolFloor f = true) →
  ∀ t f, tool_approvals_loop raw out !! t = Some f → ValidToolFloor f = true.
Proof.
  revert out. induction raw as [|[name v] raw IH]; intros out Ho; simpl; [done|].
  destruct v; apply IH; try done.
  destruct (ValidToolFloor s) eqn:E; [|done].
  intros t f [[<- <-]|[_ Hl]]%lookup_insert_Some; eauto.
Qed.

Lemma tool_approvals_valid settings t f :
  ToolApprovals settings !! t = Some f → ValidToolFloor f = true.
Proof.
  unfold ToolApprovals. destruct (gomap_get "tool_approvals" settings) as [[]|];
    try (by rewrite lookup_empty).
  apply tool_approvals_loop_valid. intros ??. by rewrite lookup_empty.
Qed.

(** ** The resolver *)
Module Hitl.

Definition strictest (a b : string) : string :=
  if (ToolFloorRank a <? ToolFloorRank b)%Z then b else a.

Definition Resolve (floor : string) (businessPolicy projectOverride : gmap string string)
    (toolName : string) : string :=
  let effective := floor in
  let effective :=
    match businessPolicy !! toolName with
    | Some biz => strictest effective biz
    | None => effective
    end in
  match projectOverride !! toolName with
  | Some proj => strictest effective proj
  | None => effective
  end.

(** One turn of [Bucket]'s loop on the three accumulators. *)
Definition bucket_step (floorOf : string → string) (biz proj : gmap string string)
    (acc : list ToolCall * list ToolCall * list ToolCall) (tc : ToolCall) :=
  let '(auto, manual, forbidden) := acc in
  let floor := floorOf (fc_name (tc_function tc)) in
  let effective := Resolve floor biz proj (fc_name (tc_function tc)) in
  if String.eqb effective ToolFloorAuto then (auto ++ [tc], manual, forbidden)
  else if String.eqb effective ToolFloorManual then (auto, manual ++ [tc], forbidden)
  else if String.eqb effective ToolFloorForbidden then (auto, manual, forbidden ++ [tc])
  else (auto, manual, forbidden ++ [tc]).

Definition Bucket (floorOf : string → string) (biz proj : gmap string string)
    (calls : list ToolCall) : list ToolCall * list ToolCall * list ToolCall :=
  fold_left (bucket_step floorOf biz proj) calls ([], [], []).

(** The verdict of the three sources on one call. *)
Definition effective_of (floorOf : string → string) (biz proj : gmap string string)
    (tc : ToolCall) : string :=
  Resolve (floorOf (fc_name (tc_function tc))) biz proj (fc_name (tc_function tc)).

Definition entry_rank (m : gmap string string) (t : string) : Z :=
  match m !! t with Some f => ToolFloorRank f | None => (-1)%Z end.

Lemma rank_bounds f : (-1 ≤ ToolFloorRank f ≤ 2)%Z.
Proof. unfold ToolFloorRank. split_all; lia. Qed.

Lemma rank_valid f : ValidToolFloor f = true ↔ (0 ≤ ToolFloorRank f)%Z.
Proof. unfold ValidToolFloor, ToolFloorRank. split_all; split; first [done|lia|idtac]. Qed.

Lemma rank_inj_valid f g :
  (0 ≤ ToolFloorRank f)%Z → ToolFloorRank f = ToolFloorRank g → f = g.
Proof.
  unfold ToolFloorRank. intros.
  repeat match goal with
  | H : context [String.eqb ?a ?b] |- _ => destruct (String.eqb_spec a b)
  end; simplify_eq; try lia; done.
Qed.

Lemma strictest_rank a b :
  ToolFloorRank (strictest a b) = Z.max (ToolFloorRank a) (ToolFloorRank b).
Proof. unfold strictest. destruct (Z.ltb_spec (ToolFloorRank a) (ToolFloorRank b)); lia. Qed.

Lemma strictest_one_of a b : strictest a b = a ∨ strictest a b = b.
Proof. unfold strictest. case_match; auto. Qed.

Lemma resolve_rank floor biz proj t :
  ToolFloorRank (Resolve floor biz proj t)
  = Z.max (ToolFloorRank floor) (Z.max (entry_rank biz t) (entry_rank proj t)).
Proof.
  pose proof (rank_bounds floor). unfold Resolve, entry_rank.
  destruct (biz !! t), (proj !! t); rewrite ?strictest_rank; lia.
Qed.

Lemma resolve_source floor biz proj t :
  Resolve floor biz proj t = floor
  ∨ biz !! t = Some (Resolve floor biz proj t)
  ∨ proj !! t = Some (Resolve floor biz proj t).
Proof.
  unfold Resolve. destruct (biz !! t) as [b|] eqn:Eb, (proj !! t) as [p|] eqn:Ep.
  - destruct (strictest_one_of (strictest floor b) p) as [->| ->]; [|auto].
    destruct (strictest_one_of floor b) as [->| ->]; auto.
  - destruct (strictest_one_of floor b) as [->| ->]; auto.
  - destruct (strictest_one_of floor p) as [->| ->]; auto.
  - auto.
Qed.

Lemma resolve_valid floor biz proj t :
  ValidToolFloor floor = true → ValidToolFloor (Resolve floor biz proj t) = true.
Proof. rewrite !rank_valid, resolve_rank. lia. Qed.

Lemma resolve_forbidden_floor biz proj t :
  Resolve ToolFloorForbidden biz proj t = ToolFloorForbidden.
Proof.
  assert (∀ m, -1 ≤ entry_rank m t ≤ 2)%Z as Hb.
  { intros m. unfold entry_rank. destruct (m !! t); [apply rank_bounds|lia]. }
  pose proof (Hb biz); pose proof (Hb proj).
  apply rank_inj_valid; rewrite resolve_rank; change (ToolFloorRank ToolFloorForbidden) with 2%Z; lia.
Qed.

(** [Resolve] is strictest-wins: the rank of its answer is the maximum of
    the registry floor's and the two entries' (an absent or malformed entry
    counts as nothing), and the answer is literally one of the three
    inputs, so no override lowers the floor and no text is made up. *)
Theorem resolve_strictest_wins floor biz proj t :
  ToolFloorRank (Resolve floor biz proj t)
    = Z.max (ToolFloorRank floor) (Z.max (entry_rank biz t) (entry_rank proj t))
  ∧ (Resolve floor biz proj t = floor
     ∨ biz !! t = Some (Resolve floor biz proj t)
     ∨ proj !! t = Some (Resolve floor biz proj t)).
Proof. split; [apply resolve_rank|apply resolve_source]. Qed.

Lemma bucket_fold floorOf biz proj calls a m f :
  fold_left (bucket_step floorOf biz proj) calls (a, m, f) =
  (a ++ filterb (λ tc, String.eqb (effective_of floorOf biz proj tc) ToolFloorAuto) calls,
   m ++ filterb (λ tc, String.eqb (effective_of floorOf biz proj tc) ToolFloorManual) calls,
   f ++ filterb (λ tc, negb (String.eqb (effective_of floorOf biz proj tc) ToolFloorAuto)
                      && negb (String.eqb (effective_of floorOf biz proj tc) ToolFloorManual))
        calls).
Proof.
  revert a m f. induction calls as [|tc calls IH]; intros a m f.
  { by rewrite !app_nil_r. }
  cbn [fold_left filterb]. unfold bucket_step at 2. fold (effective_of floorOf biz proj tc).
  destruct (String.eqb_spec (effective_of floorOf biz proj tc) ToolFloorAuto) as [E|E].
  { rewrite IH, E, <- app_assoc. done. }
  destruct (String.eqb_spec (effective_of floorOf biz proj tc) ToolFloorManual) as [E'|E'].
  { rewrite IH, <- app_assoc. done. }
  destruct (String.eqb _ ToolFloorForbidden); rewrite IH, <- app_assoc; done.
Qed.

Lemma bucket_eq floorOf biz proj calls :
  Bucket floorOf biz proj calls =
  (filterb (λ tc, String.eqb (effective_of floorOf biz proj tc) ToolFloorAuto) calls,
   filterb (λ tc, String.eqb (effective_of floorOf biz proj tc) ToolFloorManual) calls,
   filterb (λ tc, negb (String.eqb (effective_of floorOf biz proj tc) ToolFloorAuto)
                 && negb (String.eqb (effective_of floorOf biz proj tc) ToolFloorManual))
     calls).
Proof. unfold Bucket. by rewrite bucket_fold. Qed.

Lemma bucket_elem floorOf biz proj calls a m f tc :
  Bucket floorOf biz proj calls = (a, m, f) →
  (tc ∈ a ↔ tc ∈ calls ∧ effective_of floorOf biz proj tc = ToolFloorAuto)
  ∧ (tc ∈ m ↔ tc ∈ calls ∧ effective_of floorOf biz proj tc = ToolFloorManual)
  ∧ (tc ∈ f ↔ tc ∈ calls ∧ effective_of floorOf biz proj tc ≠ ToolFloorAuto
                         ∧ effective_of floorOf biz proj tc ≠ ToolFloorManual).
Proof.
  rewrite bucket_eq. intros; simplify_eq. rewrite !elem_of_filterb.
  rewrite !andb_true_iff, !negb_true_iff, !String.eqb_eq, !String.eqb_neq. tauto.
Qed.

Lemma bucket_perm floorOf biz proj calls a m f :
  Bucket floorOf biz proj calls = (a, m, f) → a ++ m ++ f ≡ₚ calls.
Proof.
  rewrite bucket_eq. intros; simplify_eq.
  induction calls as [|tc calls IH]; simpl; [done|].
  destruct (String.eqb_spec (effective_of floorOf biz proj tc) ToolFloorAuto) as [E|E]; simpl.
  - rewrite E. simpl. by constructor.
  - destruct (String.eqb_spec (effective_of floorOf biz proj tc) ToolFloorManual); simpl;
      (etrans; [|apply Permutation_cons; [done|exact IH]]); solve_Permutation.
Qed.

(** [Bucket] splits a batch of proposed calls into three buckets that
    together are the batch, each in the model's order; a call is auto
    exactly when its own resolution is auto, manual exactly when manual, and
    every other outcome, unknown text included, lands in forbidden. *)
Theorem bucket_partition floorOf biz proj calls a m f :
  Bucket floorOf biz proj calls = (a, m, f) →
  a ++ m ++ f ≡ₚ calls
  ∧ sublist a calls ∧ sublist m calls ∧ sublist f calls
  ∧ (∀ tc, tc ∈ a → effective_of floorOf biz proj tc = ToolFloorAuto)
  ∧ (∀ tc, tc ∈ m → effective_of floorOf biz proj tc = ToolFloorManual)
  ∧ (∀ tc, tc ∈ f → effective_of floorOf biz proj tc ≠ ToolFloorAuto
                    ∧ effective_of floorOf biz proj tc ≠ ToolFloorManual).
Proof.
  intros E. pose proof (bucket_perm _ _ _ _ _ _ _ E) as Hp.
  pose proof (λ tc, bucket_elem _ _ _ _ _ _ _ tc E) as He.
  rewrite bucket_eq in E. simplify_eq.
  split; [done|]. split_and!; [apply filterb_sublist..| | |]; naive_solver.
Qed.
End Hitl.

(** ** Guided-compose platform scope ([pkg/tools/platform_scope.go]) *)
Module PlatformScope.

Definition MaxSelectedPlatforms : nat := 3.

Definition selectablePlatformIDs : list string := ["telegram"; "vk"; "yandex_business"].

Inductive ScopeError := ScopeEmpty | ScopeTooMany | ScopeUnsupported (platform : string).

(** The loop of [NormalizeSelectedPlatforms]; [seen] and [result] hold the
    same platforms. *)
Fixpoint normalize_loop (result platforms : list string) : Prelude.result ScopeError (list string) :=
  match platforms with
  | [] => Ok result
  | p :: ps =>
      if negb (list_mem p selectablePlatformIDs) then Err (ScopeUnsupported p)
      else if list_mem p result then normalize_loop result ps
      else normalize_loop (result ++ [p]) ps
  end.

Definition NormalizeSelectedPlatforms (platforms : list string)
  : Prelude.result ScopeError (list string) :=
  if (length platforms =? 0)%nat then Err ScopeEmpty
  else if (MaxSelectedPlatforms <? length platforms)%nat then Err ScopeTooMany
  else normalize_loop [] platforms.

Fixpoint intersect_loop (allowed result active : list string) : list string :=
  match active with
  | [] => result
  | p :: ps =>
      if negb (list_mem p allowed) then intersect_loop allowed result ps
      else if list_mem p result then intersect_loop allowed result ps
      else intersect_loop allowed (result ++ [p]) ps
  end.

Definition IntersectSelectedPlatforms (active selected : list string) : list string :=
  intersect_loop selected [] active.

Lemma intersect_loop_spec allowed res active :
  NoDup res →
  NoDup (intersect_loop allowed res active)
  ∧ ∀ p, p ∈ intersect_loop allowed res active ↔ p ∈ res ∨ (p ∈ active ∧ p ∈ allowed).
Proof.
  revert res. induction active as [|q ps IH]; intros res Hnd; simpl.
  { split; [done|]. set_solver. }
  destruct (list_mem q allowed) eqn:Ha; autorewrite with go in Ha; simpl.
  - destruct (list_mem q res) eqn:Hr; autorewrite with go in Hr.
    + destruct (IH res Hnd) as [H1 H2]. split; [done|]. set_solver.
    + destruct (IH (res ++ [q])) as [H1 H2].
      { apply NoDup_app. split; [done|]. split; [set_solver|apply NoDup_singleton]. }
      split; [done|]. set_solver.
  - destruct (IH res Hnd) as [H1 H2]. split; [done|]. set_solver.
Qed.

Lemma intersect_elem active selected p :
  p ∈ IntersectSelectedPlatforms active selected ↔ p ∈ active ∧ p ∈ selected.
Proof. destruct (intersect_loop_spec selected [] active) as [_ H]; [constructor|]. set_solver. Qed.

Lemma intersect_nodup active selected : NoDup (IntersectSelectedPlatforms active selected).
Proof. by destruct (intersect_loop_spec selected [] active) as [H _]; [constructor|]. Qed.

Lemma normalize_loop_ok res platforms :
  Forall (λ p, p ∈ selectablePlatformIDs) platforms →
  normalize_loop res platforms = Ok (intersect_loop platforms res platforms).
Proof.
  intros Hall.
  assert (∀ sel res, Forall (λ p, p ∈ sel) platforms →
    normalize_loop res platforms = Ok (intersect_loop sel res platforms)) as Hgen.
  { induction Hall as [|p ps Hp Hps IH]; intros sel r Hsel; simpl; [done|].
    inversion Hsel; subst.
    rewrite (proj2 (list_mem_true p selectablePlatformIDs) Hp).
    rewrite (proj2 (list_mem_true p sel)) by done. simpl.
    destruct (list_mem p r); by apply IH. }
  apply Hgen, Forall_forall. auto.
Qed.

Lemma normalize_loop_err res platforms p :
  normalize_loop res platforms = Err p →
  ∃ q, p = ScopeUnsupported q ∧ q ∈ platforms ∧ q ∉ selectablePlatformIDs.
Proof.
  revert res. induction platforms as [|q ps IH]; intros res; simpl; [done|].
  destruct (list_mem q selectablePlatformIDs) eqn:Hs; autorewrite with go in Hs; simpl.
  - destruct (list_mem q res); intros H; apply IH in H; set_solver.
  - intros; simplify_eq. exists q. split_and!; [done|set_solver|done].
Qed.

(** an explicit platform scope is accepted exactly when it names one to
    three platforms, all selectable; the accepted scope has no duplicate and
    the same platforms, each where it first occurred, and intersecting any
    active list with it keeps exactly the platforms in both. *)
Theorem normalize_platforms_spec platforms :
  (is_ok (NormalizeSelectedPlatforms platforms) = true ↔
     1 ≤ length platforms ≤ 3 ∧ ∀ p, p ∈ platforms → p ∈ selectablePlatformIDs)
  ∧ ∀ out, NormalizeSelectedPlatforms platforms = Ok out →
      NoDup out ∧ (∀ p, p ∈ out ↔ p ∈ platforms)
      ∧ out = IntersectSelectedPlatforms platforms platforms
      ∧ ∀ active p, p ∈ IntersectSelectedPlatforms active out ↔ p ∈ active ∧ p ∈ platforms.
Proof.
  unfold NormalizeSelectedPlatforms, MaxSelectedPlatforms.
  destruct (Nat.eqb_spec (length platforms) 0) as [|Hne]; [split; [split; [done|lia]|done]|].
  destruct (Nat.ltb_spec 3 (length platforms)) as [|Hle]; [split; [split; [done|lia]|done]|].
  destruct (decide (Forall (λ p, p ∈ selectablePlatformIDs) platforms)) as [Hall|Hnot].
  - rewrite (normalize_loop_ok [] _ Hall). simpl.
    fold (IntersectSelectedPlatforms platforms platforms).
    split; [split; [rewrite Forall_forall in Hall; auto with lia|done]|].
    intros out [= <-]. split_and!; [apply intersect_nodup| |done|];
      intros; rewrite ?intersect_elem; tauto.
  - destruct (normalize_loop [] platforms) as [out|e] eqn:E.
    + exfalso. apply Hnot. clear -E. revert E. generalize (@nil string).
      induction platforms as [|p ps IH]; intros res; simpl; [constructor|].
      destruct (list_mem p selectablePlatformIDs) eqn:Hs; autorewrite with go in Hs; simpl; [|done].
      destruct (list_mem p res); intros E; constructor; eauto.
    + split; [|done]. split; [done|]. intros [_ Hall]. exfalso. by apply Hnot, Forall_forall.
Qed.
End PlatformScope.

(** ** Edited arguments ([pkg/tools/validate.go]) *)
Module EditArgs.

Inductive EditError :=
| ErrFieldNotEditable (tool field : string) (editable : list string)
| ErrNonScalarValue (tool field : string) (value : gval)
| ErrFieldTypeMismatch (tool field want : string) (value : gval).

Definition editableFieldKind : list (string * string) :=
  [("text", "string"); ("caption", "string"); ("photo_url", "string");
   ("description", "string"); ("hours", "string"); ("scheduled_at", "string")].

Definition EditableFieldKind (field : string) : option string := obj_get field editableFieldKind.

(** [case string, float64, float32, int, int32, int64, bool]. *)
Definition is_scalar (v : gval) : bool :=
  match v with GStr _ | GNum _ | GBool _ => true | _ => false end.

(** [now] is [time.Now()] at the call. *)
Definition assertKind (now : Z) (toolName field kind : string) (value : gval) : option EditError :=
  if negb (String.eqb kind "string") then None
  else match value with
       | GStr text =>
           if String.eqb field "scheduled_at" && negb (String.eqb text "") then
             match parse_rfc3339 text with
             | Some at_ => if (now <? at_)%Z then None
                           else Some (ErrFieldTypeMismatch toolName field "future RFC3339 timestamp" value)
             | None => Some (ErrFieldTypeMismatch toolName field "future RFC3339 timestamp" value)
             end
           else None
       | _ => Some (ErrFieldTypeMismatch toolName field kind value)
       end.

(** The range over [editedArgs], in one iteration order. *)
Fixpoint ValidateEditArgs (now : Z) (toolName : string) (editedArgs : list (string * gval))
    (editable : list string) : option EditError :=
  match editedArgs with
  | [] => None
  | (field, value) :: rest =>
      if negb (list_mem field editable) then Some (ErrFieldNotEditable toolName field editable)
      else if negb (is_scalar value) then Some (ErrNonScalarValue toolName field value)
      else match EditableFieldKind field with
           | Some kind =>
               match assertKind now toolName field kind value with
               | Some err => Some err
               | None => ValidateEditArgs now toolName rest editable
               end
           | None => ValidateEditArgs now toolName rest editable
           end
  end.

(** What the edit contract grants one field. *)
Definition edit_allowed (now : Z) (editable : list string) (field : string) (value : gval) : Prop :=
  field ∈ editable ∧ is_scalar value = true
  ∧ (field ∈ editableFieldKind.*1 →
     ∃ text, value = GStr text
       ∧ (field = "scheduled_at" → text ≠ "" → ∃ at_, parse_rfc3339 text = Some at_ ∧ (now < at_)%Z)).

Definition error_field (e : EditError) : string :=
  match e with
  | ErrFieldNotEditable _ f _ | ErrNonScalarValue _ f _ | ErrFieldTypeMismatch _ f _ _ => f
  end.

Lemma EditableFieldKind_known field k :
  EditableFieldKind field = Some k → k = "string" ∧ field ∈ editableFieldKind.*1.
Proof.
  unfold EditableFieldKind. intros H%obj_get_elem.
  split; [|by apply (list_elem_of_fmap_2' fst _ (field, k))].
  unfold editableFieldKind in H. set_solver.
Qed.

Lemma EditableFieldKind_unknown field :
  EditableFieldKind field = None → field ∉ editableFieldKind.*1.
Proof.
  intros H Hin. cbn in Hin.
  repeat (apply elem_of_cons in Hin as [->|Hin]; [done|]). by apply elem_of_nil in Hin.
Qed.

Lemma assertKind_ok now tool field value :
  assertKind now tool field "string" value = None ↔
  ∃ text, value = GStr text
    ∧ (field = "scheduled_at" → text ≠ "" → ∃ at_, parse_rfc3339 text = Some at_ ∧ (now < at_)%Z).
Proof.
  unfold assertKind. simpl. destruct value; try (split; [done|intros (? & ? & ?); done]).
  destruct (String.eqb_spec field "scheduled_at") as [->|], (String.eqb_spec s "") as [->|]; simpl.
  - split; [eexists; naive_solver|done].
  - destruct (parse_rfc3339 s) as [at_|] eqn:E.
    + destruct (Z.ltb_spec now at_).
      * split; [intros _; eexists; naive_solver|done].
      * split; [done|]. intros (? & [= <-] & Ht).
        destruct Ht as (? & ? & ?); [done..|]. simplify_eq. lia.
    + split; [done|]. intros (? & [= <-] & Ht). destruct Ht as (? & ? & ?); congruence.
  - split; [eexists; naive_solver|done].
  - split; [eexists; naive_solver|done].
Qed.

Lemma assertKind_field now tool field kind value e :
  assertKind now tool field kind value = Some e → error_field e = field.
Proof. unfold assertKind. split_all; naive_solver. Qed.

Lemma validate_head now tool field value rest editable :
  ValidateEditArgs now tool ((field, value) :: rest) editable = None ↔
  edit_allowed now editable field value ∧ ValidateEditArgs now tool rest editable = None.
Proof.
  simpl. unfold edit_allowed.
  destruct (list_mem field editable) eqn:Hm; autorewrite with go in Hm; simpl; [|naive_solver].
  destruct (is_scalar value) eqn:Hs; simpl; [|naive_solver].
  destruct (EditableFieldKind field) as [k|] eqn:Hk.
  - apply EditableFieldKind_known in Hk as [-> Hin].
    pose proof (assertKind_ok now tool field value) as Ha.
    destruct (assertKind now tool field "string" value); naive_solver.
  - apply EditableFieldKind_unknown in Hk. naive_solver.
Qed.

Lemma validate_cons now tool field value rest editable :
  ValidateEditArgs now tool ((field, value) :: rest) editable =
  match ValidateEditArgs now tool [(field, value)] editable with
  | Some e => Some e
  | None => ValidateEditArgs now tool rest editable
  end.
Proof. simpl. split_all. Qed.

Lemma validate_single_field now tool field value editable e :
  ValidateEditArgs now tool [(field, value)] editable = Some e → error_field e = field.
Proof. simpl. split_all; intros; simplify_eq; try done. by eapply assertKind_field. Qed.

Lemma validate_iff now tool args editable :
  ValidateEditArgs now tool args editable = None ↔
  ∀ field value, (field, value) ∈ args → edit_allowed now editable field value.
Proof.
  induction args as [|[field value] rest IH]; [split; [set_solver|done]|].
  rewrite validate_head, IH. set_solver.
Qed.

(** Edited arguments pass exactly when every one of them is an editable
    field with a scalar value of its declared kind ([scheduled_at], when not
    empty, a timestamp in the future); so the verdict does not depend on the
    map's iteration order, and a refusal names a field of the edit that
    breaks the contract. *)
Theorem validate_edit_args_iff now tool args editable :
  (ValidateEditArgs now tool args editable = None ↔
     ∀ field value, (field, value) ∈ args → edit_allowed now editable field value)
  ∧ ∀ e, ValidateEditArgs now tool args editable = Some e →
      ∃ value, (error_field e, value) ∈ args ∧ ¬ edit_allowed now editable (error_field e) value.
Proof.
  induction args as [|[field value] rest [IH1 IH2]].
  { split; [split; [set_solver|done]|done]. }
  pose proof (validate_head now tool field value rest editable) as Hh.
  split; [rewrite Hh, IH1; set_solver|].
  intros e. rewrite validate_cons.
  destruct (ValidateEditArgs now tool [(field, value)] editable) as [e'|] eqn:E1.
  - intros [= ->]. rewrite (validate_single_field _ _ _ _ _ _ E1). exists value.
    pose proof (validate_head now tool field value [] editable). split; [set_solver|].
    intros Ha. naive_solver.
  - intros He. destruct (IH2 e He) as (w & Hw & Hn). exists w. set_solver.
Qed.
End EditArgs.

(** ** The theorems at concrete inputs *)
Section examples.
Definition demo_tc (id name : string) : ToolCall :=
  {| tc_id := id; tc_type := "function"; tc_function := {| fc_name := name; fc_arguments := "{}" |} |}.

Definition demo_floor (name : string) : string :=
  if String.eqb name "get_time" then ToolFloorAuto
  else if String.eqb name "telegram__send" then ToolFloorManual else ToolFloorForbidden.

Definition demo_calls : list ToolCall :=
  [demo_tc "1" "telegram__send"; demo_tc "2" "get_time"; demo_tc "3" "rm_rf"; demo_tc "4" "get_time"].

Lemma bucket_partition_witness :
  [demo_tc "2" "get_time"; demo_tc "4" "get_time"] ++ [demo_tc "1" "telegram__send"]
    ++ [demo_tc "3" "rm_rf"] ≡ₚ demo_calls.
Proof.
  apply (Hitl.bucket_partition demo_floor ∅ ∅ demo_calls); vm_compute; reflexivity.
Defined.
End examples.
