(* ===== verification/Registry.v ===== *)
(** * The orchestrator's tool catalog

    [src/services/orchestrator/internal/toolregistry/registry.go].  A registry
    is the map from full tool names to entries.  An executor is an opaque
    handle of type [X] together with whether it implements [ApprovalExecutor];
    running it is the environment's business ([Execute] returns which handle is
    invoked and with what).  The locale is reduced to the one question the code
    asks of a [language.Tag]: is it English. *)

From S2P Require Import Prelude Json Types Policy.

Section Registry.
Context {X : Type} `{MapRange}.

Inductive Executor := ExecPlain (x : X) | ExecApproval (x : X).

Record entry := {
  e_def : ToolDefinition;
  e_display_name : string;
  e_user_description : string;
  e_display_name_key : string;
  e_description_en : string;
  e_parameter_descriptions_en : gmap string string;
  e_executor : option Executor;
  e_floor : string;
  e_editable_fields : list string;
}.

Notation Registry := (gmap string entry).

Definition NewRegistry : Registry := ∅.

Record ToolSpec := {
  ts_def : ToolDefinition;
  ts_display_name : string;
  ts_display_name_key : string;
  ts_user_description : string;
  ts_description_en : string;
  ts_parameter_descriptions_en : gmap string string;
  ts_floor : string;
  ts_editable_fields : list string;
}.

Definition def_name (d : ToolDefinition) : string := fd_name (td_function d).

Definition entry_of (spec : ToolSpec) (exec : option Executor) : entry := {|
  e_def := ts_def spec;
  e_display_name := ts_display_name spec;
  e_user_description := ts_user_description spec;
  e_display_name_key := ts_display_name_key spec;
  e_description_en := ts_description_en spec;
  e_parameter_descriptions_en := ts_parameter_descriptions_en spec;
  e_executor := exec;
  e_floor := ts_floor spec;
  e_editable_fields := ts_editable_fields spec |}.

Definition Register (spec : ToolSpec) (exec : option Executor) (r : Registry) : Registry :=
  <[def_name (ts_def spec) := entry_of spec exec]> r.

Definition DisplayName (r : Registry) (name : string) : string :=
  match r !! name with Some e => e_display_name e | None => "" end.

Definition DisplayNameKey (r : Registry) (name : string) : string :=
  match r !! name with Some e => e_display_name_key e | None => "" end.

(** The platform test both listing loops make. *)
Definition tool_active (active : list string) (name : string) : bool :=
  match index_of "__" name with
  | None => true
  | Some idx => list_mem (str_take idx name) active
  end.

Definition Available (r : Registry) (activeIntegrations : list string) : list ToolDefinition :=
  e_def <$> filterb (λ e, tool_active activeIntegrations (def_name (e_def e))) (range r).*2.

Definition localize_property (translations : gmap string string) (kv : string * gval)
  : string * gval :=
  let '(name, raw) := kv in
  match raw with
  | GObj propMap =>
      match translations !! name with
      | Some enDesc =>
          if String.eqb enDesc "" then (name, raw)
          else (name, GObj (obj_set "description" (GStr enDesc) propMap))
      | None => (name, raw)
      end
  | _ => (name, raw)
  end.

Definition localizeParameters (params : gomap) (translations : gmap string string) : gomap :=
  match params with
  | None => None
  | Some ps =>
      match obj_get "properties" ps with
      | Some (GObj (p :: props)) =>
          Some (obj_set "properties" (GObj (localize_property translations <$> p :: props)) ps)
      | _ => params
      end
  end.

Definition localizeDef (e : entry) (english : bool) : ToolDefinition :=
  if negb english then e_def e
  else if String.eqb (e_description_en e) "" && bool_decide (e_parameter_descriptions_en e = ∅)
  then e_def e
  else
    let f := td_function (e_def e) in
    {| td_type := td_type (e_def e);
       td_function := {|
         fd_name := fd_name f;
         fd_description := if String.eqb (e_description_en e) "" then fd_description f
                           else e_description_en e;
         fd_parameters := if bool_decide (e_parameter_descriptions_en e = ∅) then fd_parameters f
                          else localizeParameters (fd_parameters f) (e_parameter_descriptions_en e)
       |} |}.

Definition availableLocalized (r : Registry) (activeIntegrations : list string) (english : bool)
  : list ToolDefinition :=
  (λ e, localizeDef e english) <$>
    filterb (λ e, tool_active activeIntegrations (def_name (e_def e))) (range r).*2.

Definition AvailableForWhitelist (english : bool) (r : Registry)
    (activeIntegrations : list string) (mode : string) (allowed : list string)
  : list ToolDefinition :=
  let base := availableLocalized r activeIntegrations english in
  if String.eqb mode "" || String.eqb mode WhitelistModeInherit || String.eqb mode WhitelistModeAll
  then base
  else if String.eqb mode WhitelistModeNone then []
  else if String.eqb mode WhitelistModeExplicit then
    let known := (range r).*1 in
    let allowSet := filterb (λ name, list_mem name known) allowed in
    filterb (λ d, list_mem (def_name d) allowSet
                  || match r !! def_name d with
                     | Some e => String.eqb (e_floor e) ToolFloorAuto
                     | None => false
                     end) base
  else base.

(** ** Execution *)

Inductive RegistryError := UnknownTool (name : string) | NoExecutor (name : string).

Record Invocation := {
  inv_handle : X;
  inv_args : gomap;
  inv_approval : option string;
}.

Definition Execute (r : Registry) (name : string) (args : gomap)
  : result RegistryError Invocation :=
  match r !! name with
  | None => Err (UnknownTool name)
  | Some e =>
      match e_executor e with
      | None => Err (NoExecutor name)
      | Some (ExecPlain x) | Some (ExecApproval x) => Ok {| inv_handle := x; inv_args := args; inv_approval := None |}
      end
  end.

Definition ExecuteWithApproval (r : Registry) (name : string) (args : gomap) (approvalID : string)
  : result RegistryError Invocation :=
  match r !! name with
  | None => Err (UnknownTool name)
  | Some e =>
      match e_executor e with
      | None => Err (NoExecutor name)
      | Some (ExecApproval x) =>
          Ok {| inv_handle := x; inv_args := args; inv_approval := Some approvalID |}
      | Some (ExecPlain x) => Ok {| inv_handle := x; inv_args := args; inv_approval := None |}
      end
  end.

Definition Floor (r : Registry) (toolName : string) : string :=
  match r !! toolName with Some e => e_floor e | None => ToolFloorForbidden end.

Definition EditableFields (r : Registry) (toolName : string) : list string :=
  match r !! toolName with Some e => e_editable_fields e | None => [] end.

Definition Has (r : Registry) (toolName : string) : bool :=
  match r !! toolName with Some _ => true | None => false end.

Definition AllFloors (r : Registry) : gmap string string := e_floor <$> r.

Definition toolPlatform (toolName : string) : string :=
  match index_of "__" toolName with
  | None | Some O => ""
  | Some idx => str_take idx toolName
  end.

(** [domain.ToolEntry]. *)
Record ToolEntry := {
  te_name : string;
  te_display_name : string;
  te_display_name_key : string;
  te_platform : string;
  te_floor : string;
  te_editable_fields : list string;
  te_description : string;
  te_user_description : string;
}.

Definition tool_entry_of (english : bool) (e : entry) : ToolEntry := {|
  te_name := def_name (e_def e);
  te_display_name := e_display_name e;
  te_display_name_key := e_display_name_key e;
  te_platform := toolPlatform (def_name (e_def e));
  te_floor := e_floor e;
  te_editable_fields := e_editable_fields e;
  te_description := if english && negb (String.eqb (e_description_en e) "")
                    then e_description_en e else fd_description (td_function (e_def e));
  te_user_description := e_user_description e |}.

Definition AllEntriesForLocale (r : Registry) (english : bool) : list ToolEntry :=
  tool_entry_of english <$> (range r).*2.

Definition AllEntries (r : Registry) : list ToolEntry := AllEntriesForLocale r false.

(** ** Well-formedness: an entry sits under its own definition's name *)

Definition registry_wf (r : Registry) : Prop :=
  ∀ name e, r !! name = Some e → def_name (e_def e) = name.

Lemma registry_wf_empty : registry_wf NewRegistry.
Proof. intros name e Hl. unfold NewRegistry in Hl. by rewrite lookup_empty in Hl. Qed.

Lemma registry_wf_register spec exec r : registry_wf r → registry_wf (Register spec exec r).
Proof.
  unfold Register. intros Hwf name e [[<- <-]|[_ Hl]]%lookup_insert_Some; [done|by apply Hwf].
Qed.

Lemma localizeDef_name e english : def_name (localizeDef e english) = def_name (e_def e).
Proof. unfold localizeDef. by split_all. Qed.

Lemma range_snd_elem r e : registry_wf r → e ∈ (range r).*2 ↔ r !! def_name (e_def e) = Some e.
Proof.
  intros Hwf. rewrite list_elem_of_fmap. split.
  - intros ([k e'] & -> & Hin). apply elem_of_range in Hin. simpl. by rewrite (Hwf _ _ Hin).
  - intros Hl. exists (def_name (e_def e), e). split; [done|]. by apply elem_of_range.
Qed.

Lemma availableLocalized_names r active english name :
  registry_wf r →
  name ∈ def_name <$> availableLocalized r active english ↔
    is_Some (r !! name) ∧ tool_active active name = true.
Proof.
  intros Hwf. unfold availableLocalized. rewrite <- list_fmap_compose, fmap_filterb_elem.
  setoid_rewrite (range_snd_elem r _ Hwf). simpl. setoid_rewrite localizeDef_name.
  split.
  - intros (e & -> & Ha & Hl). eauto.
  - intros [[e He] Ha]. exists e. rewrite (Hwf _ _ He). auto.
Qed.

Lemma names_nodup r english p :
  registry_wf r →
  NoDup (def_name <$> ((λ e, localizeDef e english) <$> filterb p (range r).*2)).
Proof.
  intros Hwf. rewrite <- list_fmap_compose.
  assert (∀ l : list (string * entry), (∀ k e, (k, e) ∈ l → r !! k = Some e) → NoDup l.*1 →
    NoDup ((def_name ∘ (λ e, localizeDef e english)) <$> filterb p l.*2)) as Hgen.
  { induction l as [|[k e] l IH]; intros Hin Hnd; simpl; [constructor|].
    apply NoDup_cons in Hnd as [Hni Hnd].
    assert (NoDup ((def_name ∘ (λ e, localizeDef e english)) <$> filterb p l.*2)) as Hrec
      by (apply IH; [set_solver|done]).
    destruct (p e); [|done]. simpl. constructor; [|done].
    rewrite fmap_filterb_elem. simpl. setoid_rewrite localizeDef_name.
    intros (e' & He & _ & Hl). apply Hni.
    apply list_elem_of_fmap in Hl as ([k' e2] & -> & Hl).
    assert (r !! k = Some e) as Hk by (apply Hin; set_solver).
    assert (r !! k' = Some e2) as Hk' by (apply Hin; set_solver).
    simpl in He. rewrite (Hwf _ _ Hk), (Hwf _ _ Hk') in He. subst. by apply (list_elem_of_fmap_2 fst) in Hl. }
  apply Hgen; [intros k e; by rewrite elem_of_range|apply range_nodup].
Qed.

(** The whitelist boundary as a predicate on names. *)
Definition whitelisted (r : Registry) (mode : string) (allowed : list string) (name : string) : Prop :=
  mode ≠ WhitelistModeNone
  ∧ (mode = WhitelistModeExplicit → name ∈ allowed ∨ Floor r name = ToolFloorAuto).

Lemma whitelist_names english r active mode allowed name :
  registry_wf r →
  name ∈ def_name <$> AvailableForWhitelist english r active mode allowed ↔
    is_Some (r !! name) ∧ tool_active active name = true ∧ whitelisted r mode allowed name.
Proof.
  intros Hwf. pose proof (availableLocalized_names r active english name Hwf) as Hbase.
  unfold AvailableForWhitelist, whitelisted.
  destruct (String.eqb_spec mode "") as [->|H1]; simpl; [rewrite Hbase; naive_solver|].
  destruct (String.eqb_spec mode WhitelistModeInherit) as [->|H2]; simpl; [rewrite Hbase; naive_solver|].
  destruct (String.eqb_spec mode WhitelistModeAll) as [->|H3]; simpl; [rewrite Hbase; naive_solver|].
  destruct (String.eqb_spec mode WhitelistModeNone) as [->|H4]; simpl.
  { split; [intros Hin; by apply elem_of_nil in Hin|naive_solver]. }
  destruct (String.eqb_spec mode WhitelistModeExplicit) as [->|H5]; [|rewrite Hbase; naive_solver].
  rewrite fmap_filterb_elem. setoid_rewrite orb_true_iff. setoid_rewrite list_mem_true.
  setoid_rewrite elem_of_filterb. setoid_rewrite list_mem_true.
  rewrite list_elem_of_fmap in Hbase.
  assert (∀ n, n ∈ (range r).*1 ↔ is_Some (r !! n)) as Hk.
  { intros n. rewrite list_elem_of_fmap. split.
    - intros ([k e] & -> & Hl%elem_of_range). eauto.
    - intros [e He]. exists (n, e). split; [done|]. by apply elem_of_range. }
  unfold Floor. setoid_rewrite Hk. split.
  - intros (d & -> & Hc & Hd).
    assert (is_Some (r !! def_name d) ∧ tool_active active (def_name d) = true) as [[e He] ?] by naive_solver.
    rewrite He in *. split_and!; [eauto|done|done|]. intros _.
    destruct Hc as [[_ ?]|?%String.eqb_eq]; auto.
  - intros ([e He] & Ha & _ & Hc). destruct (proj2 Hbase) as (d & -> & Hd); [eauto|].
    exists d. rewrite He in *. split_and!; [done| |done].
    destruct Hc as [?| ->]; [done|left; eauto|right; done].
Qed.

Lemma whitelist_nodup english r active mode allowed :
  registry_wf r → NoDup (def_name <$> AvailableForWhitelist english r active mode allowed).
Proof.
  intros Hwf.
  pose proof (names_nodup r english (λ e, tool_active active (def_name (e_def e))) Hwf) as Hb.
  unfold AvailableForWhitelist. fold (availableLocalized r active english) in *.
  repeat case_match; try done; [constructor|].
  eapply sublist_NoDup; [exact Hb|]. unfold availableLocalized.
  apply fmap_sublist_mono, filterb_sublist.
Qed.

(** The catalog a start-up sequence of registrations leaves. *)
Definition registry_of (regs : list (ToolSpec * option Executor)) : Registry :=
  fold_left (λ r se, Register se.1 se.2 r) regs NewRegistry.

Lemma registry_of_wf regs : registry_wf (registry_of regs).
Proof.
  unfold registry_of. generalize registry_wf_empty. generalize NewRegistry.
  induction regs as [|se regs IH]; intros r Hr; simpl; [done|].
  by apply IH, registry_wf_register.
Qed.

(** The tools offered to the model are exactly the registered ones whose
    platform (the part before the first double underscore, none for internal
    tools) is active and which the whitelist mode lets through: all of them,
    none, or, under an explicit list, the listed ones plus those whose floor
    is auto; an unknown mode behaves as inherit, a listed name that is not
    registered is never offered, and no name is offered twice. *)
Theorem whitelist_boundary regs english active mode allowed :
  let r := registry_of regs in
  let offered := def_name <$> AvailableForWhitelist english r active mode allowed in
  NoDup offered ∧
  ∀ name, name ∈ offered ↔
    is_Some (r !! name) ∧ tool_active active name = true
    ∧ mode ≠ WhitelistModeNone
    ∧ (mode = WhitelistModeExplicit → name ∈ allowed ∨ Floor r name = ToolFloorAuto).
Proof.
  intros r offered. pose proof (registry_of_wf regs) as Hwf.
  split; [by apply whitelist_nodup|]. intros name. by apply whitelist_names.
Qed.
End Registry.

#[global] Arguments Executor : clear implicits.
#[global] Arguments entry : clear implicits.
#[global] Arguments Invocation : clear implicits.
Notation Registry X := (gmap string (entry X)).
