(* ===== verification/Authz.v ===== *)
(** * Role-based access control

    [src/pkg/authz]: the permission check, the invariants that guard role and
    membership changes, and the two-level cache in front of the membership
    tables.  The tables are lists of rows; [tx.Query]'s SQL is the filter it
    denotes.  The LRU library is outside the repository and enters through the
    [LRU] interface. *)

From S2P Require Import Prelude Json GoTime Types.

Notation Permission := string (only parsing).

(** ** permissions.go *)
Definition PermBusinessRead : Permission := "business.read".
Definition PermBusinessUpdate : Permission := "business.update".
Definition PermBusinessDelete : Permission := "business.delete".
Definition PermBusinessTransferOwnership : Permission := "business.transfer_ownership".
Definition PermMembersRead : Permission := "members.read".
Definition PermMembersInvite : Permission := "members.invite".
Definition PermMembersRemove : Permission := "members.remove".
Definition PermMembersUpdateRole : Permission := "members.update_role".
Definition PermRolesRead : Permission := "roles.read".
Definition PermRolesCreate : Permission := "roles.create".
Definition PermRolesUpdate : Permission := "roles.update".
Definition PermRolesDelete : Permission := "roles.delete".
Definition PermIntegrationsRead : Permission := "integrations.read".
Definition PermIntegrationsConnect : Permission := "integrations.connect".
Definition PermIntegrationsDisconnect : Permission := "integrations.disconnect".
Definition PermContentRead : Permission := "content.read".
Definition PermContentCreate : Permission := "content.create".
Definition PermContentUpdate : Permission := "content.update".
Definition PermContentDelete : Permission := "content.delete".
Definition PermBillingRead : Permission := "billing.read".
Definition PermBillingUpdate : Permission := "billing.update".
Definition PermAuditRead : Permission := "audit.read".

(** The registry by resource (descriptions are display text). *)
Definition AllPermissions : list (string * list Permission) :=
  [("business", [PermBusinessRead; PermBusinessUpdate; PermBusinessDelete; PermBusinessTransferOwnership]);
   ("members", [PermMembersRead; PermMembersInvite; PermMembersRemove; PermMembersUpdateRole]);
   ("roles", [PermRolesRead; PermRolesCreate; PermRolesUpdate; PermRolesDelete]);
   ("integrations", [PermIntegrationsRead; PermIntegrationsConnect; PermIntegrationsDisconnect]);
   ("content", [PermContentRead; PermContentCreate; PermContentUpdate; PermContentDelete]);
   ("billing", [PermBillingRead; PermBillingUpdate]);
   ("audit", [PermAuditRead])]%string.

Definition SystemRoleOwnerID : string := "00000000-0000-0000-0000-000000000001".

(** ** check.go *)
Record BusinessContext := {
  bc_business_id : uuid;
  bc_user_id : uuid;
  bc_role_id : uuid;
  bc_permissions : list Permission;
}.

(** [ctx] carries at most one [BusinessContext]. *)
Fixpoint can_loop (perm : Permission) (ps : list Permission) : bool :=
  match ps with
  | [] => false
  | p :: ps' => if String.eqb p perm then true else can_loop perm ps'
  end.

Definition Can (ctx : option BusinessContext) (perm : Permission) : bool :=
  match ctx with
  | None => false
  | Some bc => can_loop perm (bc_permissions bc)
  end.

Lemma can_loop_spec perm ps : can_loop perm ps = true ↔ perm ∈ ps.
Proof.
  induction ps as [|p ps IH]; simpl; [set_solver|].
  destruct (String.eqb_spec p perm) as [->|]; [set_solver|]. rewrite IH. set_solver.
Qed.

Inductive AuthzError :=
| ErrLastOwner
| ErrCannotGrantUnownedPermissions (missing : Permission)
| ErrSelfLockout (removed : Permission)
| ErrSystemRoleImmutable
| ErrMisuse (what : string)
| ErrQuery.

(** ** invariants.go *)

(** The rows of [business_members] joined with [users]. *)
Record MemberRow := {
  mr_business : uuid;
  mr_user : uuid;
  mr_role : uuid;
  mr_status : string;
}.

Record UserRow := {
  ur_deletion_requested_at : option Z;
  ur_deletion_canceled_at : option Z;
}.

Record Tables := {
  business_members : list MemberRow;
  users : gmap N UserRow;
}.

Definition pending_deletion (u : UserRow) : bool :=
  match ur_deletion_requested_at u, ur_deletion_canceled_at u with
  | Some _, None => true
  | _, _ => false
  end.

Inductive OwnerChangeKind :=
| OwnerChangeUnspecified
| OwnerChangeDemote
| OwnerChangeRemove
| OwnerChangeRoleEditRemovesOwnerPerm
| OwnerChangeRoleDelete.

Record OwnerChange := {
  oc_kind : OwnerChangeKind;
  oc_member : option uuid;
  oc_role : option uuid;
}.

(** One row of the locked snapshot: user, role, pending deletion. *)
Definition snapshot_row : Type := (uuid * uuid * bool)%type.

(** [lockSQL]: the active members of the business joined with their users. *)
Definition lock_rows (db : Tables) (businessID : uuid) : list snapshot_row :=
  omap (λ m, match users db !! mr_user m with
             | Some u => if bool_decide (mr_business m = businessID)
                            && String.eqb (mr_status m) "active"
                         then Some (mr_user m, mr_role m, pending_deletion u) else None
             | None => None
             end) (business_members db).

(** One turn of the counting loop: an error, or whether the row still counts
    as an owner. *)
Definition counts_after (ownerRoleID : uuid) (change : OwnerChange) (m : snapshot_row)
  : result AuthzError bool :=
  let '(user, role, pending) := m in
  let still := bool_decide (role = ownerRoleID) && negb pending in
  match oc_kind change with
  | OwnerChangeDemote =>
      match oc_member change with
      | None => Err (ErrMisuse "OwnerChangeDemote requires MemberUserID")
      | Some u => if bool_decide (user = u) then Ok false else Ok still
      end
  | OwnerChangeRemove =>
      match oc_member change with
      | None => Err (ErrMisuse "OwnerChangeRemove requires MemberUserID")
      | Some u => if bool_decide (user = u) then Ok false else Ok still
      end
  | OwnerChangeRoleEditRemovesOwnerPerm =>
      match oc_role change with
      | None => Err (ErrMisuse "OwnerChangeRoleEditRemovesOwnerPerm requires RoleID")
      | Some r => if bool_decide (role = r) then Ok false else Ok still
      end
  | OwnerChangeRoleDelete =>
      match oc_role change with
      | None => Err (ErrMisuse "OwnerChangeRoleDelete requires RoleID")
      | Some r => if bool_decide (role = r) then Ok false else Ok still
      end
  | OwnerChangeUnspecified => Err (ErrMisuse "unknown OwnerChange.Kind")
  end.

Fixpoint count_owners (ownerRoleID : uuid) (change : OwnerChange) (snapshot : list snapshot_row)
    (postOwners : nat) : result AuthzError nat :=
  match snapshot with
  | [] => Ok postOwners
  | m :: rest =>
      match counts_after ownerRoleID change m with
      | Err e => Err e
      | Ok b => count_owners ownerRoleID change rest (if b then S postOwners else postOwners)
      end
  end.

Section invariants.
Context `{UUIDText}.

(** [tx] is [None] for a nil transaction, and otherwise the tables the
    transaction sees or the error of its query. *)
Definition EnsureOwnerExistsAfter (tx : option (result unit Tables)) (businessID : uuid)
    (change : OwnerChange) : result AuthzError unit :=
  match tx with
  | None => Err (ErrMisuse "tx is required")
  | Some q =>
      match oc_kind change with
      | OwnerChangeUnspecified => Err (ErrMisuse "OwnerChange.Kind must be set")
      | _ =>
          match uuid_parse SystemRoleOwnerID with
          | None => Err (ErrMisuse "parse SystemRoleOwnerID")
          | Some ownerRoleID =>
              match q with
              | Err _ => Err ErrQuery
              | Ok db =>
                  match count_owners ownerRoleID change (lock_rows db businessID) 0 with
                  | Err e => Err e
                  | Ok postOwners => if (postOwners <? 1)%nat then Err ErrLastOwner else Ok tt
                  end
              end
          end
      end
  end.

Fixpoint first_missing (have proposed : list Permission) : option Permission :=
  match proposed with
  | [] => None
  | p :: ps => if list_mem p have then first_missing have ps else Some p
  end.

Definition CheckEscalationSubset (actorRoleID : uuid) (actorPerms proposedPerms : list Permission)
  : result AuthzError unit :=
  let ownerRoleID := default uuid_nil (uuid_parse SystemRoleOwnerID) in
  if bool_decide (actorRoleID = ownerRoleID) then Ok tt
  else match first_missing actorPerms proposedPerms with
       | Some p => Err (ErrCannotGrantUnownedPermissions p)
       | None => Ok tt
       end.

Definition CheckSelfLockout (actorUserID actorRoleID editedRoleID : uuid)
    (newPerms : list Permission) : result AuthzError unit :=
  if negb (bool_decide (actorRoleID = editedRoleID)) then Ok tt
  else if negb (list_mem PermRolesUpdate newPerms) then Err (ErrSelfLockout PermRolesUpdate)
  else if negb (list_mem PermMembersUpdateRole newPerms) then Err (ErrSelfLockout PermMembersUpdateRole)
  else Ok tt.

(** [role] is the role's [IsSystem] flag, [None] for a nil role. *)
Definition CheckSystemRoleImmutable (role : option bool) : result AuthzError unit :=
  match role with
  | None => Err (ErrMisuse "role is required")
  | Some true => Err ErrSystemRoleImmutable
  | Some false => Ok tt
  end.

(** *** What the guard protects: the membership table after the change *)

(** The rows a change leaves: a removal deletes the member, a demotion gives
    him [newRole], and deleting or stripping a role moves its holders to
    [newRole]. *)
Definition apply_change (businessID newRole : uuid) (change : OwnerChange) (m : MemberRow)
  : option MemberRow :=
  let moved := {| mr_business := mr_business m; mr_user := mr_user m; mr_role := newRole;
                  mr_status := mr_status m |} in
  if negb (bool_decide (mr_business m = businessID)) then Some m
  else match oc_kind change with
       | OwnerChangeRemove => if bool_decide (Some (mr_user m) = oc_member change) then None else Some m
       | OwnerChangeDemote => if bool_decide (Some (mr_user m) = oc_member change) then Some moved else Some m
       | OwnerChangeRoleEditRemovesOwnerPerm | OwnerChangeRoleDelete =>
           if bool_decide (Some (mr_role m) = oc_role change) then Some moved else Some m
       | OwnerChangeUnspecified => Some m
       end.

Definition effective_owner (db : Tables) (businessID ownerRoleID : uuid) (m : MemberRow) : Prop :=
  mr_business m = businessID ∧ mr_status m = "active" ∧ mr_role m = ownerRoleID
  ∧ ∃ u, users db !! mr_user m = Some u ∧ pending_deletion u = false.

(** The change names what its kind needs. *)
Definition change_complete (change : OwnerChange) : Prop :=
  match oc_kind change with
  | OwnerChangeUnspecified => False
  | OwnerChangeDemote | OwnerChangeRemove => is_Some (oc_member change)
  | OwnerChangeRoleEditRemovesOwnerPerm | OwnerChangeRoleDelete => is_Some (oc_role change)
  end.

(** The loop's filter on a row the query returned. *)
Definition hit_by (change : OwnerChange) (user role : uuid) : bool :=
  match oc_kind change with
  | OwnerChangeDemote | OwnerChangeRemove => bool_decide (Some user = oc_member change)
  | _ => bool_decide (Some role = oc_role change)
  end.

Lemma bool_decide_Some_eq (a b : uuid) : bool_decide (Some a = Some b) = bool_decide (a = b).
Proof. apply bool_decide_ext. naive_solver. Qed.

Lemma counts_after_spec owner change user role pending :
  change_complete change →
  counts_after owner change (user, role, pending) =
  Ok (negb (hit_by change user role) && (bool_decide (role = owner) && negb pending)).
Proof.
  unfold counts_after, change_complete, hit_by.
  destruct (oc_kind change); intros Hc; try done; destruct Hc as [x ->];
    rewrite bool_decide_Some_eq; by case_bool_decide.
Qed.

Lemma count_owners_spec owner change rows n :
  change_complete change →
  ∃ k, count_owners owner change rows n = Ok (n + k) ∧
    (1 ≤ k ↔ ∃ user role, (user, role, false) ∈ rows ∧ role = owner ∧ hit_by change user role = false).
Proof.
  intros Hc. revert n. induction rows as [|[[user role] pending] rows IH]; intros n; cbn [count_owners].
  { exists 0. split; [f_equal; lia|]. split; [lia|]. intros (? & ? & Hin & _). set_solver. }
  rewrite counts_after_spec by done.
  destruct (negb (hit_by change user role) && (bool_decide (role = owner) && negb pending)) eqn:Hb.
  - destruct (IH (S n)) as (k & -> & _). exists (S k). split; [f_equal; lia|].
    to_prop. split; [intros _|lia]. exists user, role. destruct pending; [done|]. set_solver.
  - destruct (IH n) as (k & -> & Hk). exists k. split; [done|]. rewrite Hk. split.
    + intros (u & r & Hin & Hr & Hh). exists u, r. set_solver.
    + intros (u & r & [E|Hin]%elem_of_cons & Hr & Hh); [|eauto].
      simplify_eq. rewrite Hh, bool_decide_true in Hb by done. done.
Qed.

Lemma lock_rows_elem db biz user role pending :
  (user, role, pending) ∈ lock_rows db biz ↔
  ∃ m u, m ∈ business_members db ∧ users db !! mr_user m = Some u ∧ mr_business m = biz
    ∧ mr_status m = "active" ∧ user = mr_user m ∧ role = mr_role m ∧ pending = pending_deletion u.
Proof.
  unfold lock_rows. rewrite list_elem_of_omap. split.
  - intros (m & Hm & Hs). destruct (users db !! mr_user m) as [u|] eqn:Hu; [|done].
    destruct (bool_decide (mr_business m = biz) && String.eqb (mr_status m) "active") eqn:Hb; [|done].
    to_prop. apply String.eqb_eq in H1. simplify_eq. naive_solver.
  - intros (m & u & Hm & Hu & <- & Hs & -> & -> & ->). exists m. split; [done|].
    rewrite Hu, Hs, bool_decide_true by done. done.
Qed.

Lemma hit_by_apply biz newRole change m :
  change_complete change → mr_business m = biz →
  hit_by change (mr_user m) (mr_role m) = false → apply_change biz newRole change m = Some m.
Proof.
  unfold hit_by, apply_change, change_complete. intros Hc Hb. rewrite (bool_decide_true (mr_business m = biz)) by done. simpl.
  destruct (oc_kind change); intros Hh; try done; by rewrite Hh.
Qed.

Lemma apply_change_keeps biz newRole owner change m m' :
  change_complete change → newRole ≠ owner → mr_business m = biz →
  apply_change biz newRole change m = Some m' → mr_role m' = owner →
  m' = m ∧ hit_by change (mr_user m) (mr_role m) = false.
Proof.
  unfold hit_by, apply_change, change_complete. intros Hc Hne Hb. rewrite (bool_decide_true (mr_business m = biz)) by done. simpl.
  destruct (oc_kind change); try done; case_bool_decide; intros; simplify_eq/=; done.
Qed.

(** The last-owner guard. A change is let through exactly when the
    membership table it leaves still has an effective owner of the business: an
    active member with the system owner role whose account is not pending
    deletion, whichever role the affected members are moved to; every other
    change is refused as [ErrLastOwner]. *)
Theorem owner_guard db businessID change owner newRole :
  uuid_parse SystemRoleOwnerID = Some owner →
  change_complete change → newRole ≠ owner →
  let after := omap (apply_change businessID newRole change) (business_members db) in
  let verdict := EnsureOwnerExistsAfter (Some (Ok db)) businessID change in
  (verdict = Ok tt ↔ ∃ m, m ∈ after ∧ effective_owner db businessID owner m)
  ∧ (verdict ≠ Ok tt → verdict = Err ErrLastOwner).
Proof.
  intros Hp Hc Hne after verdict.
  destruct (count_owners_spec owner change (lock_rows db businessID) 0 Hc) as (k & Hk & Hiff).
  assert (verdict = if (k <? 1)%nat then Err ErrLastOwner else Ok tt) as ->.
  { subst verdict. unfold EnsureOwnerExistsAfter. rewrite Hp, Hk. simpl.
    unfold change_complete in Hc. by destruct (oc_kind change). }
  split; [|destruct (Nat.ltb_spec k 1); naive_solver].
  transitivity (1 ≤ k); [destruct (Nat.ltb_spec k 1); split; (done || lia)|].
  rewrite Hiff. split.
  - intros (user & role & Hin & -> & Hh).
    apply lock_rows_elem in Hin as (m & u & Hm & Hu & Hb & Hs & -> & Ho & Hpd).
    rewrite Ho in Hh. exists m. split.
    + apply list_elem_of_omap. exists m. split; [done|]. by apply hit_by_apply.
    + unfold effective_owner. split_and!; eauto.
  - intros (m' & Hin & Hb' & Hs & Hr & u & Hu & Hpd).
    apply list_elem_of_omap in Hin as (m & Hm & Ha).
    assert (mr_business m = businessID) as Hb.
    { unfold apply_change in Ha. case_bool_decide; [done|]. simpl in Ha. by simplify_eq. }
    destruct (apply_change_keeps _ _ owner _ _ _ Hc Hne Hb Ha Hr) as [-> Hh].
    exists (mr_user m), (mr_role m). split_and!; [|done|done].
    apply lock_rows_elem. exists m, u. rewrite Hpd. eauto 10.
Qed.

Lemma first_missing_spec have proposed :
  match first_missing have proposed with
  | None => ∀ p, p ∈ proposed → p ∈ have
  | Some p => p ∈ proposed ∧ p ∉ have
  end.
Proof.
  induction proposed as [|p ps IH]; simpl; [set_solver|].
  destruct (list_mem p have) eqn:E; autorewrite with go in E.
  - destruct (first_missing have ps); set_solver.
  - set_solver.
Qed.

(** Role edits cannot escalate or lock out. A proposed permission set is
    accepted exactly when the actor is a system owner or already holds every
    proposed permission, and a refusal names one he lacks; an edit of the
    actor's own role is accepted exactly when it keeps both role-management
    permissions, so [Can] still grants them to a context built from the edited
    role. *)
Theorem role_edit_guards user actorRole editedRole actorPerms proposed :
  (CheckEscalationSubset actorRole actorPerms proposed = Ok tt ↔
     actorRole = default uuid_nil (uuid_parse SystemRoleOwnerID)
     ∨ ∀ p, p ∈ proposed → p ∈ actorPerms)
  ∧ (∀ p, CheckEscalationSubset actorRole actorPerms proposed = Err (ErrCannotGrantUnownedPermissions p) →
       p ∈ proposed ∧ p ∉ actorPerms)
  ∧ (CheckSelfLockout user actorRole editedRole proposed = Ok tt ↔
       actorRole ≠ editedRole ∨
       ∀ biz perm, perm = PermRolesUpdate ∨ perm = PermMembersUpdateRole →
         Can (Some {| bc_business_id := biz; bc_user_id := user; bc_role_id := editedRole;
                      bc_permissions := proposed |}) perm = true).
Proof.
  pose proof (first_missing_spec actorPerms proposed) as Hf.
  unfold CheckEscalationSubset. split_and!.
  - case_bool_decide as Ho; [naive_solver|].
    destruct (first_missing actorPerms proposed) as [p|]; [|naive_solver].
    split; [done|]. intros [?|Hall]; [done|]. destruct Hf as [Hin Hn]. by apply Hall in Hin.
  - intros p. case_bool_decide; [done|]. destruct (first_missing _ _); naive_solver.
  - unfold CheckSelfLockout, Can. simpl. setoid_rewrite can_loop_spec.
    case_bool_decide as Hr; simpl; [|naive_solver].
    destruct (list_mem PermRolesUpdate proposed) eqn:E1, (list_mem PermMembersUpdateRole proposed) eqn:E2;
      autorewrite with go in E1, E2; simpl; (split; [intros; try done; right; naive_solver|]);
      intros [?|Hall]; try done; exfalso;
      (apply E1 || apply E2); apply (Hall uuid_nil); auto.
Qed.
End invariants.

(** ** cache.go, middleware.go *)

Definition cacheTTL : Z := (30 * Second)%Z.

(** The expirable LRU: [lru_view] is the resident entry of a key with the
    instant it was added.  An entry is returned up to its expiry instant, may be
    evicted at any time, and is gone once removed. *)
Class LRU (K V : Type) (ttl : Z) := {
  lru : Type;
  lru_empty : lru;
  lru_view : lru → K → option (V * Z);
  lru_get : Z → K → lru → option V * lru;
  lru_add : Z → K → V → lru → lru;
  lru_remove : K → lru → lru;
  lru_empty_view k : lru_view lru_empty k = None;
  lru_get_hit now k c v : (lru_get now k c).1 = Some v →
    ∃ t, lru_view c k = Some (v, t) ∧ (now ≤ t + ttl)%Z;
  lru_get_view now k c k' x : lru_view (lru_get now k c).2 k' = Some x → lru_view c k' = Some x;
  lru_add_view now k v c k' x : lru_view (lru_add now k v c) k' = Some x →
    (k' = k ∧ x = (v, now)) ∨ (k' ≠ k ∧ lru_view c k' = Some x);
  lru_remove_view k c k' x : lru_view (lru_remove k c) k' = Some x →
    k' ≠ k ∧ lru_view c k' = Some x;
}.

Record CachedMember := { cm_role_id : uuid; cm_status : string; cm_joined_at : Z }.

Record CachedRole := { crole_permissions : list Permission }.

#[export] Instance CachedMember_eq_dec : EqDecision CachedMember.
Proof. solve_decision. Defined.

Inductive LoadError := ErrMembershipNotFound | ErrLoad.

Inductive CacheError := CacheLoad (e : LoadError) | CacheNil.

Section cache.
Context `{LM : LRU (uuid * uuid) CachedMember cacheTTL} `{LR : LRU uuid CachedRole cacheTTL}.

(** The loader's answer at an instant; a nil pointer without error is [Ok None]. *)
Context (LoadMembership : Z → uuid → uuid → result LoadError (option CachedMember)).
Context (LoadRole : Z → uuid → result LoadError (option CachedRole)).

Record Cache := {
  ca_members : @lru _ _ _ LM;
  ca_roles : @lru _ _ _ LR;
}.

Definition NewCache : Cache := {| ca_members := lru_empty; ca_roles := lru_empty |}.

Definition GetMembership (now : Z) (businessID userID : uuid) : SE Cache CacheError CachedMember := λ c,
  let '(hit, ms) := lru_get now (businessID, userID) (ca_members c) in
  let c1 := {| ca_members := ms; ca_roles := ca_roles c |} in
  match hit with
  | Some v => (Ok v, c1)
  | None =>
      match LoadMembership now businessID userID with
      | Err e => (Err (CacheLoad e), c1)
      | Ok None => (Err CacheNil, c1)
      | Ok (Some loaded) =>
          (Ok loaded, {| ca_members := lru_add now (businessID, userID) loaded ms; ca_roles := ca_roles c |})
      end
  end.

Definition GetRole (now : Z) (roleID : uuid) : SE Cache CacheError CachedRole := λ c,
  let '(hit, rs) := lru_get now roleID (ca_roles c) in
  let c1 := {| ca_members := ca_members c; ca_roles := rs |} in
  match hit with
  | Some v => (Ok v, c1)
  | None =>
      match LoadRole now roleID with
      | Err e => (Err (CacheLoad e), c1)
      | Ok None => (Err CacheNil, c1)
      | Ok (Some loaded) =>
          (Ok loaded, {| ca_members := ca_members c; ca_roles := lru_add now roleID loaded rs |})
      end
  end.

Definition InvalidateMember (businessID userID : uuid) (c : Cache) : Cache :=
  {| ca_members := lru_remove (businessID, userID) (ca_members c); ca_roles := ca_roles c |}.

Definition InvalidateRole (businessID roleID : uuid) (c : Cache) : Cache :=
  {| ca_members := ca_members c; ca_roles := lru_remove roleID (ca_roles c) |}.

(** The middleware: the HTTP status and error code it answers with, or the
    context it passes on.  [urlID] is the parsed path parameter and [user] the
    extractor's answer. *)
Definition RequireBusinessAccess (now : Z) (urlID user : option uuid)
  : SE Cache (Z * string) BusinessContext :=
  match urlID with
  | None => se_err (400, "invalid_business_id")%Z
  | Some businessID =>
      match user with
      | None => se_err (401, "unauthorized")%Z
      | Some userID => λ c,
          match GetMembership now businessID userID c with
          | (Err (CacheLoad ErrMembershipNotFound), c1) => (Err (404, "not_found")%Z, c1)
          | (Err _, c1) => (Err (500, "internal_server_error")%Z, c1)
          | (Ok member, c1) =>
              if String.eqb (cm_status member) "suspended" then (Err (403, "forbidden_suspended")%Z, c1)
              else match GetRole now (cm_role_id member) c1 with
                   | (Err _, c2) => (Err (500, "internal_server_error")%Z, c2)
                   | (Ok role, c2) =>
                       (Ok {| bc_business_id := businessID; bc_user_id := userID;
                              bc_role_id := cm_role_id member;
                              bc_permissions := crole_permissions role |}, c2)
                   end
          end
      end
  end.

(** *** Freshness *)

Inductive cache_op :=
| OpAccess (now : Z) (urlID user : option uuid)
| OpInvalidateMember (businessID userID : uuid)
| OpInvalidateRole (businessID roleID : uuid).

Definition cache_exec (op : cache_op) (c : Cache) : Cache :=
  match op with
  | OpAccess now b u => (RequireBusinessAccess now b u c).2
  | OpInvalidateMember b u => InvalidateMember b u c
  | OpInvalidateRole b r => InvalidateRole b r c
  end.

Definition cache_run (ops : list cache_op) : Cache := fold_left (λ c op, cache_exec op c) ops NewCache.

(** [v] was loaded for the member at [t] by an access of the history, and the
    member has not been invalidated since. *)
Definition member_loaded (ops : list cache_op) (b u : uuid) (v : CachedMember) (t : Z) : Prop :=
  LoadMembership t b u = Ok (Some v)
  ∧ ∃ h1 op h2, ops = h1 ++ op :: h2 ∧ (∃ url user, op = OpAccess t url user)
                ∧ OpInvalidateMember b u ∉ h2.

Definition role_loaded (ops : list cache_op) (r : uuid) (v : CachedRole) (t : Z) : Prop :=
  LoadRole t r = Ok (Some v)
  ∧ ∃ h1 op h2, ops = h1 ++ op :: h2 ∧ (∃ url user, op = OpAccess t url user)
                ∧ ∀ b, OpInvalidateRole b r ∉ h2.

Definition cache_ok (ops : list cache_op) (c : Cache) : Prop :=
  (∀ b u v t, lru_view (ca_members c) (b, u) = Some (v, t) → member_loaded ops b u v t)
  ∧ (∀ r v t, lru_view (ca_roles c) r = Some (v, t) → role_loaded ops r v t).

Lemma member_loaded_snoc ops op b u v t :
  op ≠ OpInvalidateMember b u → member_loaded ops b u v t → member_loaded (ops ++ [op]) b u v t.
Proof.
  intros Hop (Hl & h1 & o & h2 & -> & Ho & Hn). split; [done|].
  exists h1, o, (h2 ++ [op]). split_and!; [by rewrite <- app_assoc|done|]. set_solver.
Qed.

Lemma role_loaded_snoc ops op r v t :
  (∀ b, op ≠ OpInvalidateRole b r) → role_loaded ops r v t → role_loaded (ops ++ [op]) r v t.
Proof.
  intros Hop (Hl & h1 & o & h2 & -> & Ho & Hn). split; [done|].
  exists h1, o, (h2 ++ [op]). split_and!; [by rewrite <- app_assoc|done|]. set_solver.
Qed.

Lemma member_loaded_now ops now url user b u v :
  LoadMembership now b u = Ok (Some v) → member_loaded (ops ++ [OpAccess now url user]) b u v now.
Proof. intros Hl. split; [done|]. exists ops, (OpAccess now url user), []. split_and!; eauto. set_solver. Qed.

Lemma role_loaded_now ops now url user r v :
  LoadRole now r = Ok (Some v) → role_loaded (ops ++ [OpAccess now url user]) r v now.
Proof. intros Hl. split; [done|]. exists ops, (OpAccess now url user), []. split_and!; eauto. set_solver. Qed.

(** What one lookup of the middleware leaves in the cache and returns. *)
Lemma get_membership_spec now b u c :
  let '(r, c') := GetMembership now b u c in
  ca_roles c' = ca_roles c
  ∧ (∀ k x, lru_view (ca_members c') k = Some x →
       lru_view (ca_members c) k = Some x
       ∨ (k = (b, u) ∧ x.2 = now ∧ LoadMembership now b u = Ok (Some x.1)))
  ∧ (∀ v, r = Ok v →
       LoadMembership now b u = Ok (Some v)
       ∨ ∃ t, lru_view (ca_members c) (b, u) = Some (v, t) ∧ (now ≤ t + cacheTTL)%Z).
Proof.
  unfold GetMembership. pose proof (lru_get_hit now (b, u) (ca_members c)) as Hh.
  pose proof (lru_get_view now (b, u) (ca_members c)) as Hv.
  destruct (lru_get now (b, u) (ca_members c)) as [[v|] ms]; simpl in *.
  - split_and!; [done|eauto|]. intros ? [= <-]. right. by apply Hh.
  - destruct (LoadMembership now b u) as [[l|]|e] eqn:E; simpl; split_and!; try done; eauto.
    + intros k x [[-> ->]|[_ Hx]]%lru_add_view; eauto.
    + intros ? [= <-]. auto.
Qed.

Lemma get_role_spec now rid c :
  let '(r, c') := GetRole now rid c in
  ca_members c' = ca_members c
  ∧ (∀ k x, lru_view (ca_roles c') k = Some x →
       lru_view (ca_roles c) k = Some x
       ∨ (k = rid ∧ x.2 = now ∧ LoadRole now rid = Ok (Some x.1)))
  ∧ (∀ v, r = Ok v →
       LoadRole now rid = Ok (Some v)
       ∨ ∃ t, lru_view (ca_roles c) rid = Some (v, t) ∧ (now ≤ t + cacheTTL)%Z).
Proof.
  unfold GetRole. pose proof (lru_get_hit now rid (ca_roles c)) as Hh.
  pose proof (lru_get_view now rid (ca_roles c)) as Hv.
  destruct (lru_get now rid (ca_roles c)) as [[v|] ms]; simpl in *.
  - split_and!; [done|eauto|]. intros ? [= <-]. right. by apply Hh.
  - destruct (LoadRole now rid) as [[l|]|e] eqn:E; simpl; split_and!; try done; eauto.
    + intros k x [[-> ->]|[_ Hx]]%lru_add_view; eauto.
    + intros ? [= <-]. auto.
Qed.

(** A context the middleware passes on rests on answers of the loader at most
    30 seconds old and not invalidated since. *)
Definition access_fresh (ops : list cache_op) (now : Z) (url user : option uuid) (bc : BusinessContext) : Prop :=
  url = Some (bc_business_id bc) ∧ user = Some (bc_user_id bc)
  ∧ ∃ member tm role tr,
      member_loaded ops (bc_business_id bc) (bc_user_id bc) member tm ∧ (now ≤ tm + cacheTTL)%Z
      ∧ cm_status member ≠ "suspended" ∧ cm_role_id member = bc_role_id bc
      ∧ role_loaded ops (bc_role_id bc) role tr ∧ (now ≤ tr + cacheTTL)%Z
      ∧ bc_permissions bc = crole_permissions role.

Lemma get_membership_ok ops now url user b u c :
  cache_ok ops c →
  let op := OpAccess now url user in
  let '(r, c') := GetMembership now b u c in
  (∀ b' u' v t, lru_view (ca_members c') (b', u') = Some (v, t) → member_loaded (ops ++ [op]) b' u' v t)
  ∧ ca_roles c' = ca_roles c
  ∧ (∀ v, r = Ok v → ∃ t, member_loaded (ops ++ [op]) b u v t ∧ (now ≤ t + cacheTTL)%Z).
Proof.
  intros [Hm Hr] op. pose proof (get_membership_spec now b u c) as Hs.
  destruct (GetMembership now b u c) as [r c']. destruct Hs as (Er & Hv & Hok). split_and!; [|done|].
  - intros b' u' v t Hx. apply Hv in Hx as [Hx|([= -> ->] & Ht & Hl)].
    + apply member_loaded_snoc; [done|]. by apply Hm.
    + simpl in *. subst. by apply member_loaded_now.
  - intros v Hr'. destruct (Hok v Hr') as [Hl|(t & Ht & Hle)].
    + exists now. split; [by apply member_loaded_now|]. unfold cacheTTL, Second, Millisecond. lia.
    + exists t. split; [|done]. apply member_loaded_snoc; [done|]. by apply Hm.
Qed.

Lemma get_role_ok ops now url user rid c :
  (∀ r v t, lru_view (ca_roles c) r = Some (v, t) → role_loaded ops r v t) →
  let op := OpAccess now url user in
  let '(r, c') := GetRole now rid c in
  (∀ r' v t, lru_view (ca_roles c') r' = Some (v, t) → role_loaded (ops ++ [op]) r' v t)
  ∧ ca_members c' = ca_members c
  ∧ (∀ v, r = Ok v → ∃ t, role_loaded (ops ++ [op]) rid v t ∧ (now ≤ t + cacheTTL)%Z).
Proof.
  intros Hr op. pose proof (get_role_spec now rid c) as Hs.
  destruct (GetRole now rid c) as [r c']. destruct Hs as (Er & Hv & Hok). split_and!; [|done|].
  - intros r' v t Hx. apply Hv in Hx as [Hx|(-> & Ht & Hl)].
    + apply role_loaded_snoc; [done|]. by apply Hr.
    + simpl in *. subst. by apply role_loaded_now.
  - intros v Hr'. destruct (Hok v Hr') as [Hl|(t & Ht & Hle)].
    + exists now. split; [by apply role_loaded_now|]. unfold cacheTTL, Second, Millisecond. lia.
    + exists t. split; [|done]. apply role_loaded_snoc; [done|]. by apply Hr.
Qed.

Lemma access_ok ops now url user c :
  cache_ok ops c →
  let op := OpAccess now url user in
  let '(r, c') := RequireBusinessAccess now url user c in
  cache_ok (ops ++ [op]) c' ∧ ∀ bc, r = Ok bc → access_fresh (ops ++ [op]) now url user bc.
Proof.
  intros Hc op.
  assert (∀ r v t, lru_view (ca_roles c) r = Some (v, t) → role_loaded (ops ++ [op]) r v t) as Hkeep.
  { intros r v t Hx. apply role_loaded_snoc; [done|]. by apply Hc. }
  assert (cache_ok (ops ++ [op]) c) as Hc'.
  { split; [|done]. intros b u v t Hx. apply member_loaded_snoc; [done|]. by apply Hc. }
  unfold RequireBusinessAccess. destruct url as [b|]; [|done]. destruct user as [u|]; [|done].
  pose proof (get_membership_ok ops now (Some b) (Some u) b u c Hc) as Hm.
  destruct (GetMembership now b u c) as [[member|e] c1]; simpl in Hm; destruct Hm as (Hv & Er & Hok).
  2: { destruct e as [[]|]; (split; [split; [done|by rewrite Er]|done]). }
  destruct (Hok member eq_refl) as (tm & Hl & Htm).
  destruct (String.eqb_spec (cm_status member) "suspended") as [|Hs].
  { split; [split; [done|by rewrite Er]|done]. }
  assert (∀ r v t, lru_view (ca_roles c1) r = Some (v, t) → role_loaded ops r v t) as Hrc1.
  { rewrite Er. apply Hc. }
  pose proof (get_role_ok ops now (Some b) (Some u) (cm_role_id member) c1 Hrc1) as Hr.
  destruct (GetRole now (cm_role_id member) c1) as [[role|e] c2]; simpl in Hr;
    destruct Hr as (Hv2 & Em & Hok2); (split; [split; [by rewrite Em|done]|]); [|done].
  intros bc [= <-]. destruct (Hok2 role eq_refl) as (tr & Hlr & Htr).
  split; [done|]. split; [done|]. simpl. exists member, tm, role, tr. done.
Qed.

Lemma cache_exec_ok ops op c : cache_ok ops c → cache_ok (ops ++ [op]) (cache_exec op c).
Proof.
  intros Hc. destruct op as [now url user|b u|b r]; simpl.
  - pose proof (access_ok ops now url user c Hc) as Ha.
    destruct (RequireBusinessAccess now url user c) as [r c']. apply Ha.
  - destruct Hc as [Hm Hr]. split; simpl.
    + intros b' u' v t [Hne Hx]%lru_remove_view. apply member_loaded_snoc; [congruence|]. by apply Hm.
    + intros r v t Hx. apply role_loaded_snoc; [done|]. by apply Hr.
  - destruct Hc as [Hm Hr]. split; simpl.
    + intros b' u' v t Hx. apply member_loaded_snoc; [done|]. by apply Hm.
    + intros r' v t [Hne Hx]%lru_remove_view. apply role_loaded_snoc; [congruence|]. by apply Hr.
Qed.

Lemma cache_run_ok ops : cache_ok ops (cache_run ops).
Proof.
  unfold cache_run. induction ops as [|op ops IH] using rev_ind.
  - split; simpl; intros *; by rewrite lru_empty_view.
  - rewrite fold_left_app. simpl. by apply cache_exec_ok.
Qed.

(** Access is fresh. Whatever accesses and invalidations came before, a
    request the middleware lets through carries the membership and the
    permissions the loader returned at most 30 seconds earlier, the member not
    suspended, and neither invalidated since that load: removing a member and
    invalidating him takes effect at once, a missed invalidation within the
    TTL. *)
Theorem access_is_fresh ops now url user bc c' :
  RequireBusinessAccess now url user (cache_run ops) = (Ok bc, c') →
  access_fresh (ops ++ [OpAccess now url user]) now url user bc.
Proof.
  intros E. pose proof (access_ok ops now url user _ (cache_run_ok ops)) as Ha.
  rewrite E in Ha. by apply Ha.
Qed.
End cache.

(** ** Instances to compute with *)

(** An unbounded cache that drops nothing before its time. *)
Section assoc_lru.
Context {K V : Type} `{EqDecision K} (ttl : Z).

Fixpoint assoc_view (c : list (K * (V * Z))) (k : K) : option (V * Z) :=
  match c with
  | [] => None
  | (k', x) :: c' => if decide (k' = k) then Some x else assoc_view c' k
  end.

Definition assoc_drop (k : K) (c : list (K * (V * Z))) : list (K * (V * Z)) :=
  filterb (λ kx, negb (bool_decide (kx.1 = k))) c.

Lemma assoc_drop_view k c k' x :
  assoc_view (assoc_drop k c) k' = Some x → k' ≠ k ∧ assoc_view c k' = Some x.
Proof.
  unfold assoc_drop. induction c as [|[k2 y] c IH]; [done|].
  cbn [filterb fst assoc_view]. destruct (decide (k2 = k)) as [->|E].
  - rewrite bool_decide_true by done. intros [Hne Hx]%IH. split; [done|]. by rewrite decide_False.
  - rewrite bool_decide_false by done. cbn [negb assoc_view].
    destruct (decide (k2 = k')) as [->|]; [|apply IH]. intros [= <-]. done.
Qed.

Program Definition assoc_lru : LRU K V ttl := {|
  lru := list (K * (V * Z));
  lru_empty := [];
  lru_view := assoc_view;
  lru_get now k c :=
    (match assoc_view c k with
     | Some (v, t) => if (now <=? t + ttl)%Z then Some v else None
     | None => None
     end, c);
  lru_add now k v c := (k, (v, now)) :: assoc_drop k c;
  lru_remove := assoc_drop;
|}.
Next Obligation. done. Qed.
Next Obligation.
  intros now k c v. cbn. destruct (assoc_view c k) as [[w t]|]; [|done].
  destruct (Z.leb_spec now (t + ttl)); intros [= <-]. eauto.
Qed.
Next Obligation. done. Qed.
Next Obligation.
  intros now k v c k' x. cbn. destruct (decide (k = k')) as [->|]; [intros [= <-]; by left|].
  intros [Hne Hx]%assoc_drop_view. by right.
Qed.
Next Obligation. intros k c k' x Hx. by apply assoc_drop_view. Qed.
End assoc_lru.

Section examples.
#[local] Instance demo_members : LRU (uuid * uuid) CachedMember cacheTTL := assoc_lru cacheTTL.
#[local] Instance demo_roles : LRU uuid CachedRole cacheTTL := assoc_lru cacheTTL.

(** A member removed from the table at second 10. *)
Definition demo_load (t : Z) (b u : uuid) : result LoadError (option CachedMember) :=
  if (t <? 10 * Second)%Z then Ok (Some {| cm_role_id := 7; cm_status := "active"; cm_joined_at := 0 |})
  else Err ErrMembershipNotFound.

Definition demo_role (t : Z) (r : uuid) : result LoadError (option CachedRole) :=
  Ok (Some {| crole_permissions := [PermContentRead] |}).

Definition demo_ctx : BusinessContext :=
  {| bc_business_id := 1%N; bc_user_id := 2%N; bc_role_id := 7%N; bc_permissions := [PermContentRead] |}.

Definition demo_ops : list cache_op := [OpAccess Second (Some 1%N) (Some 2%N)].

(** Still let in at second 20 from the cache, refused after invalidation. *)
Lemma access_is_fresh_witness :
  access_fresh demo_load demo_role (demo_ops ++ [OpAccess (20 * Second) (Some 1%N) (Some 2%N)])
    (20 * Second) (Some 1%N) (Some 2%N) demo_ctx
  ∧ (RequireBusinessAccess demo_load demo_role (20 * Second) (Some 1%N) (Some 2%N)
       (cache_run demo_load demo_role (demo_ops ++ [OpInvalidateMember 1%N 2%N]))).1
    = Err (404%Z, "not_found").
Proof.
  split; [|vm_compute; reflexivity].
  eapply (access_is_fresh demo_load demo_role demo_ops). vm_compute. reflexivity.
Defined.

#[local] Instance demo_uuid : UUIDText := decimal_uuid.

(** Two owners, one of them pending deletion: the other may not leave. *)
Definition demo_tables : Tables := {|
  business_members :=
    [{| mr_business := 9; mr_user := 2; mr_role := 1; mr_status := "active" |};
     {| mr_business := 9; mr_user := 3; mr_role := 1; mr_status := "active" |}];
  users := <[2%N := {| ur_deletion_requested_at := None; ur_deletion_canceled_at := None |}]>
    (<[3%N := {| ur_deletion_requested_at := Some 5%Z; ur_deletion_canceled_at := None |}]> ∅) |}.

Definition demo_removal (u : uuid) : OwnerChange :=
  {| oc_kind := OwnerChangeRemove; oc_member := Some u; oc_role := None |}.

Lemma owner_guard_witness :
  EnsureOwnerExistsAfter (Some (Ok demo_tables)) 9%N (demo_removal 2%N) = Err ErrLastOwner.
Proof.
  apply (owner_guard demo_tables 9%N (demo_removal 2%N) 1%N 4%N);
    [vm_compute; reflexivity|by exists 2%N|discriminate|vm_compute; discriminate].
Defined.
End examples.
