(* ===== verification/Mongo.v ===== *)
(** * The document store as its clients rely on it

    MongoDB is outside the repository: [Coll] states what the sources rely on of
    a collection whose documents have type [D], with the contents as a ghost
    view [docs].  A write to one document is atomic, a filtered update applies
    only when the filter holds at that instant, and a driver error leaves a
    write either applied or not (partly applied for a multi-document write).
    A filter is the predicate the query document denotes, an update the
    function its [$set] denotes.

    [scripted_coll] is a concrete collection whose faults follow a script, so
    that every theorem stated against [Coll] can be computed with. *)

From S2P Require Import Prelude.
From Stdlib Require Sorted.

Section interface.
Context {D : Type}.

Definition upd_one (id : string) (p : D → bool) (f : D → D) (m : gmap string D) : gmap string D :=
  match m !! id with
  | Some d => if p d then <[id := f d]> m else m
  | None => m
  end.

Definition hit (id : string) (p : D → bool) (m : gmap string D) : bool :=
  match m !! id with Some d => p d | None => false end.

Definition upd_all (p : D → bool) (f : D → D) (m : gmap string D) : gmap string D :=
  (λ d, if p d then f d else d) <$> m.

Definition values (m : gmap string D) : list D := (map_to_list m).*2.

Definition del_all (p : D → bool) (m : gmap string D) : gmap string D :=
  filter (λ kd, p kd.2 = false) m.

Definition key_le (key : D → Z) (a b : D) : Prop := (key a ≤ key b)%Z.

#[export] Instance key_le_dec key : RelDecision (key_le key).
Proof. intros a b. unfold key_le. apply _. Defined.

#[export] Instance key_le_total key : Total (key_le key).
Proof. intros a b. unfold key_le. lia. Qed.

Definition sorted_by (key : D → Z) (l : list D) : Prop := Sorted (key_le key) l.

(** [m'] is [m] with one document that matches [p], of the least sort key [k]
    among those that match, replaced by its image under [f]. *)
Definition modified (p : D → bool) (k : D → Z) (f : D → D) (m m' : gmap string D) (d : D) : Prop :=
  ∃ id, m !! id = Some d ∧ p d = true ∧ m' = <[id := f d]> m
    ∧ (∀ id' d', m !! id' = Some d' → p d' = true → (k d ≤ k d')%Z).

Definition no_match (p : D → bool) (m : gmap string D) : Prop :=
  ∀ id d, m !! id = Some d → p d = false.

(** The insert arm of an upsert. *)
Definition inserted (key : D → string) (p : D → bool) (ins : D) (m m' : gmap string D) : Prop :=
  no_match p m ∧ m !! key ins = None ∧ m' = <[key ins := ins]> m.
End interface.

Inductive MongoError := MongoFault.

Class Coll (D : Type) (key : D → string) := {
  coll : Type;
  docs : coll → gmap string D;
  insertOne : D → SE coll MongoError unit;
  findOne : string → SE coll MongoError (option D);
  updateOne : string → (D → bool) → (D → D) → SE coll MongoError bool;
  findOneAndUpdate : string → (D → bool) → (D → D) → SE coll MongoError (option D);
  updateMany : (D → bool) → (D → D) → SE coll MongoError nat;
  deleteMany : (D → bool) → SE coll MongoError nat;
  find : (D → bool) → (D → Z) → SE coll MongoError (list D);
  insertOne_spec d c : match insertOne d c with
    | (Ok _, c') => docs c !! key d = None ∧ docs c' = <[key d := d]> (docs c)
    | (Err _, c') => docs c' = docs c
        ∨ (docs c !! key d = None ∧ docs c' = <[key d := d]> (docs c))
    end;
  findOne_spec id c : match findOne id c with
    | (Ok r, c') => r = docs c !! id ∧ docs c' = docs c
    | (Err _, c') => docs c' = docs c
    end;
  updateOne_spec id p f c : match updateOne id p f c with
    | (Ok n, c') => n = hit id p (docs c) ∧ docs c' = upd_one id p f (docs c)
    | (Err _, c') => docs c' = docs c ∨ docs c' = upd_one id p f (docs c)
    end;
  findOneAndUpdate_spec id p f c : match findOneAndUpdate id p f c with
    | (Ok r, c') => docs c' = upd_one id p f (docs c)
        ∧ r = (if hit id p (docs c) then f <$> docs c !! id else None)
    | (Err _, c') => docs c' = docs c ∨ docs c' = upd_one id p f (docs c)
    end;
  updateMany_spec p f c : match updateMany p f c with
    | (Ok n, c') => docs c' = upd_all p f (docs c) ∧ n = length (filterb p (values (docs c)))
    | (Err _, c') => ∀ id, docs c' !! id = docs c !! id ∨ docs c' !! id = upd_all p f (docs c) !! id
    end;
  deleteMany_spec p c : match deleteMany p c with
    | (Ok n, c') => docs c' = del_all p (docs c) ∧ n = length (filterb p (values (docs c)))
    | (Err _, c') => ∀ id, docs c' !! id = docs c !! id ∨ docs c' !! id = del_all p (docs c) !! id
    end;
  find_spec p k c : match find p k c with
    | (Ok l, c') => docs c' = docs c ∧ l ≡ₚ filterb p (values (docs c)) ∧ sorted_by k l
    | (Err _, c') => docs c' = docs c
    end;
  findOneAndModify : (D → bool) → (D → Z) → (D → D) → SE coll MongoError (option D);
  findOneAndModify_spec p k f c : match findOneAndModify p k f c with
    | (Ok None, c') => docs c' = docs c ∧ no_match p (docs c)
    | (Ok (Some d'), c') => ∃ d, d' = f d ∧ modified p k f (docs c) (docs c') d
    | (Err _, c') => docs c' = docs c ∨ ∃ d, modified p k f (docs c) (docs c') d
    end;
  upsertOne : (D → bool) → (D → D) → D → SE coll MongoError unit;
  upsertOne_spec p f ins c : match upsertOne p f ins c with
    | (Ok _, c') => (∃ d, modified p (λ _, 0%Z) f (docs c) (docs c') d)
        ∨ inserted key p ins (docs c) (docs c')
    | (Err _, c') => docs c' = docs c ∨ (∃ d, modified p (λ _, 0%Z) f (docs c) (docs c') d)
        ∨ inserted key p ins (docs c) (docs c')
    end;
}.

(** [UpdateOne] with a filter that is not an [_id]: the match count. *)
Definition updateFirst `{Coll D key} (p : D → bool) (f : D → D) : SE coll MongoError bool := λ c,
  match findOneAndModify p (λ _, 0%Z) f c with
  | (Ok r, c') => (Ok (bool_decide (is_Some r)), c')
  | (Err e, c') => (Err e, c')
  end.

(** [FindOne] with a filter and a sort: the head of the cursor. *)
Definition findFirst `{Coll D key} (p : D → bool) (k : D → Z) : SE coll MongoError (option D) := λ c,
  match find p k c with
  | (Ok l, c') => (Ok (head l), c')
  | (Err e, c') => (Err e, c')
  end.

(** ** Facts on the document-level effects *)
Section effects.
Context {D : Type}.
Implicit Types (m : gmap string D) (p : D → bool).

Lemma upd_one_lookup id p f m k :
  upd_one id p f m !! k =
  if decide (k = id) then (λ d, if p d then f d else d) <$> m !! id else m !! k.
Proof.
  unfold upd_one. case_decide as Hk.
  - subst. destruct (m !! id) as [d|] eqn:E; simpl; [|done].
    destruct (p d); [by rewrite lookup_insert_eq|done].
  - destruct (m !! id) as [d|]; [|done].
    destruct (p d); [by rewrite lookup_insert_ne|done].
Qed.

Lemma upd_one_miss id p f m : hit id p m = false → upd_one id p f m = m.
Proof. unfold hit, upd_one. destruct (m !! id); [by intros ->|done]. Qed.

Lemma upd_one_same id p f m k : k ≠ id → upd_one id p f m !! k = m !! k.
Proof. intros. rewrite upd_one_lookup. by rewrite decide_False. Qed.

Lemma upd_all_lookup p f m k :
  upd_all p f m !! k = (λ d, if p d then f d else d) <$> m !! k.
Proof. unfold upd_all. by rewrite lookup_fmap. Qed.

Lemma del_all_lookup p m k :
  del_all p m !! k = match m !! k with Some d => if p d then None else Some d | None => None end.
Proof.
  unfold del_all. rewrite map_lookup_filter. destruct (m !! k) as [d|]; simpl; [|done].
  destruct (p d) eqn:E; [rewrite option_guard_False|rewrite option_guard_True]; simpl; congruence.
Qed.

Lemma modified_lookup p k f m m' d id :
  modified p k f m m' d → m' !! id = m !! id ∨ (m !! id = Some d ∧ p d = true ∧ m' !! id = Some (f d)).
Proof.
  intros (id' & Hid & Hp & -> & _). destruct (decide (id = id')) as [->|Hne].
  - right. by rewrite lookup_insert_eq.
  - left. by rewrite lookup_insert_ne.
Qed.

Lemma inserted_lookup key p ins m m' id :
  inserted key p ins m m' → m' !! id = m !! id ∨ (m !! id = None ∧ id = key ins ∧ m' !! id = Some ins).
Proof.
  intros (_ & Hn & ->). destruct (decide (id = key ins)) as [->|Hne].
  - right. by rewrite lookup_insert_eq.
  - left. by rewrite lookup_insert_ne.
Qed.

Lemma values_elem m d : d ∈ values m ↔ ∃ k, m !! k = Some d.
Proof.
  unfold values. rewrite list_elem_of_fmap. split.
  - intros ([k d'] & -> & Hin%elem_of_map_to_list). eauto.
  - intros [k Hk]. exists (k, d). split; [done|]. by apply elem_of_map_to_list.
Qed.
End effects.

(** ** Methods as steps of a row

    A relation every collection call of a method respects, the method respects. *)
Section steps.
Context {D : Type} {key : D → string} `{Coll D key} (R : relation (option D)) `{!Reflexive R} (id : string).

(** Whatever the outcome, [m] moves row [id] along [R]. *)
Definition steps {E A} (m : SE coll E A) : Prop :=
  ∀ c, R (docs c !! id) (docs (m c).2 !! id).

Lemma steps_ret {E A} (a : A) : steps (se_ret (E := E) a).
Proof. intros c. reflexivity. Qed.

Lemma steps_err {E A} (e : E) : steps (se_err (A := A) e).
Proof. intros c. reflexivity. Qed.

Lemma steps_bind `{!Transitive R} {E A B} (m : SE coll E A) (k : A → SE coll E B) :
  steps m → (∀ a, steps (k a)) → steps (se_bind m k).
Proof.
  intros Hm Hk c. unfold se_bind. specialize (Hm c).
  destruct (m c) as [[a|e] c']; [|done]. etrans; [exact Hm|apply Hk].
Qed.

Lemma steps_try `{!Transitive R} {E E' A B} (m : SE coll E A) (k : result E A → SE coll E' B) :
  steps m → (∀ r, steps (k r)) → steps (se_try m k).
Proof.
  intros Hm Hk c. unfold se_try. specialize (Hm c).
  destruct (m c) as [r c']. etrans; [exact Hm|apply Hk].
Qed.

(** A write followed by calls that only read. *)
Lemma steps_bind_read {E A B} (m : SE coll E A) (k : A → SE coll E B) :
  steps m → (∀ a c, docs (k a c).2 = docs c) → steps (se_bind m k).
Proof.
  intros Hm Hk c. unfold se_bind. specialize (Hm c). destruct (m c) as [[a|e] c']; [|done]. by rewrite Hk.
Qed.

Lemma steps_insertOne b : (key b = id → R None (Some b)) → steps (insertOne b).
Proof.
  intros Hs c. pose proof (insertOne_spec b c) as Hi.
  assert (docs c !! key b = None →
    R (docs c !! id) ((<[key b := b]> (docs c) : gmap string D) !! id)) as Hgo.
  { intros Hn. destruct (decide (key b = id)) as [Hk|Hk].
    - rewrite Hk in *. rewrite Hn, lookup_insert_eq. by apply Hs.
    - rewrite lookup_insert_ne by done. reflexivity. }
  destruct (insertOne b c) as [[] c']; simpl; [destruct Hi as [? E]; rewrite E; by apply Hgo|].
  destruct Hi as [E|[? E]]; rewrite E; [reflexivity|by apply Hgo].
Qed.

Lemma steps_findOne id' : steps (findOne id').
Proof.
  intros c. pose proof (findOne_spec id' c) as Hi.
  destruct (findOne id' c) as [[] c']; simpl;
    [destruct Hi as [_ E]; rewrite E|rewrite Hi]; reflexivity.
Qed.

Lemma steps_find p k : steps (find p k).
Proof.
  intros c. pose proof (find_spec p k c) as Hi.
  destruct (find p k c) as [[] c']; simpl;
    [destruct Hi as [E _]; rewrite E|rewrite Hi]; reflexivity.
Qed.

Lemma upd_one_step id' p f c c' :
  (id' = id → ∀ d, p d = true → R (Some d) (Some (f d))) →
  docs c' = docs c ∨ docs c' = upd_one id' p f (docs c) → R (docs c !! id) (docs c' !! id).
Proof.
  intros Hf [E|E]; rewrite E; [reflexivity|].
  rewrite upd_one_lookup. case_decide; [|reflexivity].
  subst. destruct (docs c !! id') as [d|]; simpl; [|reflexivity].
  destruct (p d) eqn:Hp; [by apply Hf|reflexivity].
Qed.

Lemma steps_updateOne id' p f :
  (id' = id → ∀ d, p d = true → R (Some d) (Some (f d))) → steps (updateOne id' p f).
Proof.
  intros Hf c. pose proof (updateOne_spec id' p f c) as Hi.
  destruct (updateOne id' p f c) as [[]]; simpl; (eapply upd_one_step; [done|]); naive_solver.
Qed.

Lemma steps_findOneAndUpdate id' p f :
  (id' = id → ∀ d, p d = true → R (Some d) (Some (f d))) → steps (findOneAndUpdate id' p f).
Proof.
  intros Hf c. pose proof (findOneAndUpdate_spec id' p f c) as Hi.
  destruct (findOneAndUpdate id' p f c) as [[]]; simpl; (eapply upd_one_step; [done|]); naive_solver.
Qed.

Lemma steps_updateMany p f :
  (∀ d, p d = true → R (Some d) (Some (f d))) → steps (updateMany p f).
Proof.
  intros Hf c. pose proof (updateMany_spec p f c) as Hi.
  assert (R (docs c !! id) (upd_all p f (docs c) !! id)) as Hs.
  { rewrite upd_all_lookup. destruct (docs c !! id) as [d|]; simpl; [|reflexivity].
    destruct (p d) eqn:Hp; [by apply Hf|reflexivity]. }
  destruct (updateMany p f c) as [[n|e] c']; simpl.
  - destruct Hi as [E _]. by rewrite E.
  - destruct (Hi id) as [E|E]; rewrite E; [reflexivity|done].
Qed.

Lemma steps_deleteMany p : (∀ d, p d = true → R (Some d) None) → steps (deleteMany p).
Proof.
  intros Hp c. pose proof (deleteMany_spec p c) as Hi.
  assert (R (docs c !! id) (del_all p (docs c) !! id)) as Hs.
  { rewrite del_all_lookup. destruct (docs c !! id) as [d|]; simpl; [|reflexivity].
    destruct (p d) eqn:E; [by apply Hp|reflexivity]. }
  destruct (deleteMany p c) as [[n|e] c']; simpl.
  - destruct Hi as [E _]. by rewrite E.
  - destruct (Hi id) as [E|E]; rewrite E; [reflexivity|done].
Qed.

Lemma modified_step p k f c c' d :
  (p d = true → R (Some d) (Some (f d))) → modified p k f (docs c) (docs c') d →
  R (docs c !! id) (docs c' !! id).
Proof.
  intros Hf Hm. destruct (modified_lookup _ _ _ _ _ _ id Hm) as [->|(-> & Hp & ->)]; [reflexivity|by apply Hf].
Qed.

Lemma inserted_step p ins c c' :
  (key ins = id → R None (Some ins)) → inserted key p ins (docs c) (docs c') →
  R (docs c !! id) (docs c' !! id).
Proof.
  intros Hf Hm. destruct (inserted_lookup _ _ _ _ _ id Hm) as [->|(-> & Hk & ->)]; [reflexivity|auto].
Qed.

Lemma steps_findOneAndModify p k f :
  (∀ d, p d = true → R (Some d) (Some (f d))) → steps (findOneAndModify p k f).
Proof.
  intros Hf c. pose proof (findOneAndModify_spec p k f c) as Hm.
  destruct (findOneAndModify p k f c) as [[[d'|]|e] c']; cbn.
  - destruct Hm as (d & _ & Hm). eapply modified_step; [|exact Hm]; auto.
  - destruct Hm as [-> _]. reflexivity.
  - destruct Hm as [->|[d Hm]]; [reflexivity|eapply modified_step; [|exact Hm]; auto].
Qed.

Lemma steps_updateFirst p f :
  (∀ d, p d = true → R (Some d) (Some (f d))) → steps (updateFirst p f).
Proof.
  intros Hf c. pose proof (steps_findOneAndModify p (λ _, 0%Z) f Hf c) as Hm.
  unfold updateFirst. by destruct (findOneAndModify _ _ _ _) as [[]].
Qed.

Lemma steps_findFirst p k : steps (findFirst p k).
Proof. intros c. pose proof (steps_find p k c) as Hm. unfold findFirst. by destruct (find _ _ _) as [[]]. Qed.

Lemma steps_upsertOne p f ins :
  (∀ d, p d = true → R (Some d) (Some (f d))) → (key ins = id → R None (Some ins)) →
  steps (upsertOne p f ins).
Proof.
  intros Hf Hi c. pose proof (upsertOne_spec p f ins c) as Hm.
  destruct (upsertOne p f ins c) as [[u|e] c']; cbn.
  - destruct Hm as [[d Hm]|Hm]; [eapply modified_step; [|exact Hm]; auto|eapply inserted_step; [|exact Hm]; auto].
  - destruct Hm as [->|[[d Hm]|Hm]]; [reflexivity|eapply modified_step; [|exact Hm]; auto|eapply inserted_step; [|exact Hm]; auto].
Qed.

(** Run a method for its effect. *)
Definition se_void {E A} (m : SE coll E A) : SE coll E unit := λ c,
  match m c with (Ok _, c') => (Ok tt, c') | (Err e, c') => (Err e, c') end.

Lemma steps_void {E A} (m : SE coll E A) : steps m → steps (se_void m).
Proof. intros Hm c. unfold se_void. specialize (Hm c). by destruct (m c) as [[]]. Qed.
End steps.

(** Decompose a method into its collection calls, leaving one goal per write:
    that the write moves a row along the relation. *)
Ltac step_calls :=
  repeat first
    [ progress intros
    | lazymatch goal with
      | |- steps _ _ (se_void _) => apply steps_void
      | |- steps _ _ (se_bind _ _) => apply steps_bind; [typeclasses eauto| |]
      | |- steps _ _ (se_try _ _) => apply steps_try; [typeclasses eauto| |]
      | |- steps _ _ (se_ret _) => apply steps_ret; typeclasses eauto
      | |- steps _ _ (se_err _) => apply steps_err; typeclasses eauto
      | |- steps _ _ (findOne _) => apply steps_findOne; typeclasses eauto
      | |- steps _ _ (find _ _) => apply steps_find; typeclasses eauto
      | |- steps _ _ (updateOne _ _ _) => apply steps_updateOne; [typeclasses eauto|]
      | |- steps _ _ (findOneAndUpdate _ _ _) => apply steps_findOneAndUpdate; [typeclasses eauto|]
      | |- steps _ _ (findOneAndModify _ _ _) => apply steps_findOneAndModify; [typeclasses eauto|]
      | |- steps _ _ (updateFirst _ _) => apply steps_updateFirst; [typeclasses eauto|]
      | |- steps _ _ (findFirst _ _) => apply steps_findFirst; typeclasses eauto
      | |- steps _ _ (upsertOne _ _ _) => apply steps_upsertOne; [typeclasses eauto| |]
      | |- steps _ _ (updateMany _ _) => apply steps_updateMany; [typeclasses eauto|]
      | |- steps _ _ (deleteMany _) => apply steps_deleteMany; [typeclasses eauto|]
      | |- steps _ _ (insertOne _) => apply steps_insertOne; [typeclasses eauto|]
      end
    | match goal with |- steps _ _ (if ?b then _ else _) => destruct b end
    | match goal with |- steps _ _ (match ?x with Some _ => _ | None => _ end) => destruct x end
    | match goal with |- steps _ _ (match ?x with Ok _ => _ | Err _ => _ end) => destruct x as [[]|] end ].

(** ** A collection that does not fault

    The operations succeed, an insertion when its key is free. *)
Class Reliable {D key} (C : Coll D key) := {
  insertOne_ok : ∀ d c, docs c !! key d = None → is_ok (insertOne d c).1 = true;
  findOne_ok : ∀ id c, is_ok (findOne id c).1 = true;
  updateOne_ok : ∀ id p f c, is_ok (updateOne id p f c).1 = true;
  findOneAndUpdate_ok : ∀ id p f c, is_ok (findOneAndUpdate id p f c).1 = true;
  find_ok : ∀ p k c, is_ok (find p k c).1 = true;
  findOneAndModify_ok : ∀ p k f c, is_ok (findOneAndModify p k f c).1 = true;
}.

(** ** A concrete collection *)

(** The fate of the next operation: [FBefore] is an error before it took
    effect, [FAfter] one after; an exhausted script means no more faults. *)
Inductive fault := FNone | FBefore | FAfter.

Section scripted.
Context {D : Type} (key : D → string).

Definition scripted := (gmap string D * list fault)%type.

(** An operation with result [r] and effect [m']. *)
Definition run_op {A} (s : scripted) (r : result MongoError A) (m' : gmap string D)
  : result MongoError A * scripted :=
  let '(m, script) := s in
  match script with
  | [] => (r, (m', []))
  | FNone :: sc => (r, (m', sc))
  | FBefore :: sc => (Err MongoFault, (m, sc))
  | FAfter :: sc => (Err MongoFault, (m', sc))
  end.

Definition sort_by (k : D → Z) (l : list D) : list D :=
  merge_sort (key_le k) l.

(** The matching document of least key, with its id. *)
Fixpoint least_by {A} (k : A → Z) (l : list A) : option A :=
  match l with
  | [] => None
  | x :: l' =>
      match least_by k l' with
      | Some y => if (k y <? k x)%Z then Some y else Some x
      | None => Some x
      end
  end.

Lemma least_by_spec {A} (k : A → Z) l :
  match least_by k l with
  | None => l = []
  | Some x => x ∈ l ∧ ∀ y, y ∈ l → (k x ≤ k y)%Z
  end.
Proof.
  induction l as [|x l IH]; cbn [least_by]; [done|].
  destruct (least_by k l) as [y|] eqn:E.
  - destruct IH as [Hy Hle]. destruct (k y <? k x)%Z eqn:Hlt; to_prop; (split; [set_solver|]);
      intros z [->|Hz]%elem_of_cons; try specialize (Hle z Hz); lia.
  - subst. split; [set_solver|]. intros z [->|Hz]%elem_of_cons; [lia|set_solver].
Qed.

Definition pick (p : D → bool) (k : D → Z) (m : gmap string D) : option (string * D) :=
  least_by (λ e, k e.2) (filterb (λ e, p e.2) (map_to_list m)).

Lemma pick_spec p k m :
  match pick p k m with
  | None => no_match p m
  | Some (id, d) => ∀ f, modified p k f m (<[id := f d]> m) d
  end.
Proof.
  unfold pick. pose proof (least_by_spec (λ e : string * D, k e.2) (filterb (λ e, p e.2) (map_to_list m))) as Hl.
  assert (∀ i x, m !! i = Some x → p x = true → (i, x) ∈ filterb (λ e, p e.2) (map_to_list m)) as Hin.
  { intros i x Hi Hp. apply elem_of_filterb. split; [done|]. by apply elem_of_map_to_list. }
  destruct (least_by _ _) as [[id d]|].
  - destruct Hl as [[Hp Hd]%elem_of_filterb Hmin]. intros f. exists id. repeat split; [by apply elem_of_map_to_list in Hd|done|].
    intros i x Hi Hx. by apply (Hmin (i, x)), Hin.
  - intros i x Hi. destruct (p x) eqn:Hx; [|done]. specialize (Hin _ _ Hi Hx). rewrite Hl in Hin. set_solver.
Qed.

Program Definition scripted_coll : Coll D key := {|
  coll := scripted;
  docs := fst;
  insertOne d s :=
    match s.1 !! key d with
    | Some _ => run_op s (Err MongoFault) s.1
    | None => run_op s (Ok tt) (<[key d := d]> s.1)
    end;
  findOne id s := run_op s (Ok (s.1 !! id)) s.1;
  updateOne id p f s := run_op s (Ok (hit id p s.1)) (upd_one id p f s.1);
  findOneAndUpdate id p f s :=
    run_op s (Ok (if hit id p s.1 then f <$> s.1 !! id else None)) (upd_one id p f s.1);
  updateMany p f s := run_op s (Ok (length (filterb p (values s.1)))) (upd_all p f s.1);
  deleteMany p s := run_op s (Ok (length (filterb p (values s.1)))) (del_all p s.1);
  find p k s := run_op s (Ok (sort_by k (filterb p (values s.1)))) s.1;
  findOneAndModify p k f s :=
    match pick p k s.1 with
    | Some (id, d) => run_op s (Ok (Some (f d))) (<[id := f d]> s.1)
    | None => run_op s (Ok None) s.1
    end;
  upsertOne p f ins s :=
    match pick p (λ _, 0%Z) s.1 with
    | Some (id, d) => run_op s (Ok tt) (<[id := f d]> s.1)
    | None =>
        match s.1 !! key ins with
        | Some _ => run_op s (Err MongoFault) s.1
        | None => run_op s (Ok tt) (<[key ins := ins]> s.1)
        end
    end;
|}.
Next Obligation.
  intros d [m [|[] sc]]; cbn [fst]; destruct (m !! key d) eqn:E; cbn; auto.
Qed.
Next Obligation. by intros id [m [|[] sc]]. Qed.
Next Obligation. intros id p f [m [|[] sc]]; cbn; auto. Qed.
Next Obligation. intros id p f [m [|[] sc]]; cbn; auto. Qed.
Next Obligation. intros p f [m [|[] sc]]; cbn; auto. Qed.
Next Obligation. intros p [m [|[] sc]]; cbn; auto. Qed.
Next Obligation.
  intros p k [m script].
  assert (sort_by k (filterb p (values m)) ≡ₚ filterb p (values m)
    ∧ sorted_by k (sort_by k (filterb p (values m)))) as Hs.
  { split; [apply merge_sort_Permutation|].
    apply (Sorted_merge_sort (key_le k)). }
  destruct script as [|[] sc]; cbn; auto.
Qed.
Next Obligation.
  intros p k f [m script]. cbn [fst]. pose proof (pick_spec p k m) as Hp.
  destruct (pick p k m) as [[id d]|]; destruct script as [|[] sc]; cbn; eauto.
Qed.
Next Obligation.
  intros p f ins [m script]. cbn [fst]. pose proof (pick_spec p (λ _, 0%Z) m) as Hp.
  destruct (pick p (λ _, 0%Z) m) as [[id d]|].
  - destruct script as [|[] sc]; cbn; eauto.
  - destruct (m !! key ins) eqn:E; destruct script as [|[] sc]; cbn; unfold inserted; eauto.
Qed.
End scripted.

(** The same collection without faults. *)
Section map_collection.
Context {D : Type} (key : D → string).

Definition plain {A} (f : scripted (D := D) → result MongoError A * scripted) (m : gmap string D)
  : result MongoError A * gmap string D := let '(r, s) := f (m, []) in (r, s.1).

Program Definition map_coll : Coll D key := {|
  coll := gmap string D;
  docs := λ m, m;
  insertOne d := plain (insertOne (Coll := scripted_coll key) d);
  findOne id := plain (findOne (Coll := scripted_coll key) id);
  updateOne id p f := plain (updateOne (Coll := scripted_coll key) id p f);
  findOneAndUpdate id p f := plain (findOneAndUpdate (Coll := scripted_coll key) id p f);
  updateMany p f := plain (updateMany (Coll := scripted_coll key) p f);
  deleteMany p := plain (deleteMany (Coll := scripted_coll key) p);
  find p k := plain (find (Coll := scripted_coll key) p k);
  findOneAndModify p k f := plain (findOneAndModify (Coll := scripted_coll key) p k f);
  upsertOne p f ins := plain (upsertOne (Coll := scripted_coll key) p f ins);
|}.
Next Obligation. intros d m. pose proof (insertOne_spec (Coll := scripted_coll key) d (m, [])) as Hs. unfold plain. by destruct (insertOne _ _) as [[] []]. Qed.
Next Obligation. intros id m. pose proof (findOne_spec (Coll := scripted_coll key) id (m, [])) as Hs. unfold plain. by destruct (findOne _ _) as [[] []]. Qed.
Next Obligation. intros id p f m. pose proof (updateOne_spec (Coll := scripted_coll key) id p f (m, [])) as Hs. unfold plain. by destruct (updateOne _ _ _ _) as [[] []]. Qed.
Next Obligation. intros id p f m. pose proof (findOneAndUpdate_spec (Coll := scripted_coll key) id p f (m, [])) as Hs. unfold plain. by destruct (findOneAndUpdate _ _ _ _) as [[] []]. Qed.
Next Obligation. intros p f m. pose proof (updateMany_spec (Coll := scripted_coll key) p f (m, [])) as Hs. unfold plain. by destruct (updateMany _ _ _) as [[] []]. Qed.
Next Obligation. intros p m. pose proof (deleteMany_spec (Coll := scripted_coll key) p (m, [])) as Hs. unfold plain. by destruct (deleteMany _ _) as [[] []]. Qed.
Next Obligation. intros p k m. pose proof (find_spec (Coll := scripted_coll key) p k (m, [])) as Hs. unfold plain. by destruct (find _ _ _) as [[] []]. Qed.
Next Obligation. intros p k f m. pose proof (findOneAndModify_spec (Coll := scripted_coll key) p k f (m, [])) as Hs. unfold plain. by destruct (findOneAndModify _ _ _ _) as [[[]|] []]. Qed.
Next Obligation. intros p f i m. pose proof (upsertOne_spec (Coll := scripted_coll key) p f i (m, [])) as Hs. unfold plain. by destruct (upsertOne _ _ _ _) as [[] []]. Qed.

Lemma map_coll_reliable : Reliable map_coll.
Proof.
  split; intros; cbn; unfold plain; cbn; repeat case_match; simplify_eq/=; done.
Qed.
End map_collection.
