(* ===== verification/ChatStore.v ===== *)
(** * Chat messages and conversations

    The documents of [src/pkg/domain/mongo_models.go] a chat turn reads and
    writes, and the two repositories over them:
    [services/api/internal/repository/message.go] and [conversation.go].
    Timestamps keep nanoseconds where BSON truncates to milliseconds; a
    [title_status] that is null or missing is [None]. *)

From S2P Require Import Prelude Json GoTime Types Mongo.
Local Open Scope go_scope.

(** ** Documents *)

Definition TitleStatusAutoPending : string := "auto_pending".
Definition TitleStatusAuto : string := "auto".
Definition TitleStatusManual : string := "manual".

Definition MessageStatusComplete : string := "complete".
Definition MessageStatusError : string := "error".
Definition MessageStatusPendingApproval : string := "pending_approval".
Definition MessageStatusInProgress : string := "in_progress".

Definition ToolCallStatusPending : string := "pending_approval".
Definition ToolCallStatusApproved : string := "approved".
Definition ToolCallStatusRejected : string := "rejected".

Definition MessageRoleUser : string := "user".
Definition MessageRoleAssistant : string := "assistant".

Record Attachment := { at_type : string; at_url : string; at_mime_type : string; at_name : string }.

Record DToolCall := {
  dtc_id : string;
  dtc_name : string;
  dtc_arguments : gomap;
  dtc_approval_id : string;
  dtc_status : string;
}.

Record DToolResult := {
  dtr_tool_call_id : string;
  dtr_content : gomap;
  dtr_is_error : bool;
  dtr_code : string;
}.

Record DMessage := {
  dm_successful : bool;
  dm_business_id : string;
  dm_id : string;
  dm_conversation_id : string;
  dm_role : string;
  dm_content : string;
  dm_attachments : list Attachment;
  dm_tool_calls : list DToolCall;
  dm_tool_results : list DToolResult;
  dm_metadata : gomap;
  dm_error_code : string;
  dm_status : string;
  dm_created_at : option Z;
}.

Record Conversation := {
  cv_preview : string;
  cv_id : string;
  cv_user_id : string;
  cv_business_id : string;
  cv_project_id : option string;
  cv_title : string;
  cv_title_status : option string;
  cv_pinned_at : option Z;
  cv_last_message_at : option Z;
  cv_created_at : Z;
  cv_updated_at : Z;
}.

#[export] Instance Attachment_eq_dec : EqDecision Attachment.
Proof. solve_decision. Defined.
#[export] Instance DToolCall_eq_dec : EqDecision DToolCall.
Proof. solve_decision. Defined.
#[export] Instance DToolResult_eq_dec : EqDecision DToolResult.
Proof. solve_decision. Defined.
#[export] Instance DMessage_eq_dec : EqDecision DMessage.
Proof. solve_decision. Defined.
#[export] Instance Conversation_eq_dec : EqDecision Conversation.
Proof. solve_decision. Defined.

(** *** Field updates *)
Definition dtc_set_status (s : string) (c : DToolCall) : DToolCall := {|
  dtc_id := dtc_id c; dtc_name := dtc_name c; dtc_arguments := dtc_arguments c;
  dtc_approval_id := dtc_approval_id c; dtc_status := s |}.

(** The fields a repository assigns. *)
Definition dm_stamp (id business : string) (created : option Z) (m : DMessage) : DMessage := {|
  dm_successful := dm_successful m; dm_business_id := business; dm_id := id;
  dm_conversation_id := dm_conversation_id m; dm_role := dm_role m; dm_content := dm_content m;
  dm_attachments := dm_attachments m; dm_tool_calls := dm_tool_calls m;
  dm_tool_results := dm_tool_results m; dm_metadata := dm_metadata m;
  dm_error_code := dm_error_code m; dm_status := dm_status m; dm_created_at := created |}.

(** The fields a turn assigns. *)
Definition dm_edit (content : string) (calls : list DToolCall) (results : list DToolResult)
    (code status : string) (m : DMessage) : DMessage := {|
  dm_successful := dm_successful m; dm_business_id := dm_business_id m; dm_id := dm_id m;
  dm_conversation_id := dm_conversation_id m; dm_role := dm_role m; dm_content := content;
  dm_attachments := dm_attachments m; dm_tool_calls := calls; dm_tool_results := results;
  dm_metadata := dm_metadata m; dm_error_code := code; dm_status := status;
  dm_created_at := dm_created_at m |}.

Definition dm_set_status (s : string) (m : DMessage) : DMessage :=
  dm_edit (dm_content m) (dm_tool_calls m) (dm_tool_results m) (dm_error_code m) s m.

Definition cv_touch (user title : string) (status : option string) (project : option string)
    (pinned last : option Z) (updated : Z) (c : Conversation) : Conversation := {|
  cv_preview := cv_preview c; cv_id := cv_id c; cv_user_id := user;
  cv_business_id := cv_business_id c; cv_project_id := project; cv_title := title;
  cv_title_status := status; cv_pinned_at := pinned; cv_last_message_at := last;
  cv_created_at := cv_created_at c; cv_updated_at := updated |}.

(** The zero [time.Time] as BSON orders it, before any real timestamp. *)
Definition bson_time (t : option Z) : Z := default (-62135596800 * Second)%Z t.

(** ** The repositories *)

Inductive ChatError :=
| ErrMessageNotFound
| ErrConversationNotFound
| ErrIDRequired
| ErrChatDriver (op : string).

#[export] Instance ChatError_eq_dec : EqDecision ChatError.
Proof. solve_decision. Defined.

Section repos.
Context {CM : Coll DMessage dm_id} {CV : Coll Conversation cv_id}.

Record ChatDB := {
  db_msgs : @coll DMessage dm_id CM;
  db_convs : @coll Conversation cv_id CV;
}.

Definition on_msgs {A} (m : @coll _ _ CM → A * @coll _ _ CM) : ChatDB → A * ChatDB :=
  focus db_msgs (λ s d, {| db_msgs := s; db_convs := db_convs d |}) m.

Definition on_convs {A} (m : @coll _ _ CV → A * @coll _ _ CV) : ChatDB → A * ChatDB :=
  focus db_convs (λ s d, {| db_msgs := db_msgs d; db_convs := s |}) m.

Notation repo A := (SE ChatDB ChatError A).

(** *** messageRepository *)

Definition populateBusinessID (msg : DMessage) : repo DMessage :=
  try! r := on_convs (findOne (dm_conversation_id msg)) in
  match r with
  | Ok None => se_ret (dm_stamp (dm_id msg) "" (dm_created_at msg) msg)
  | Ok (Some conv) => se_ret (dm_stamp (dm_id msg) (cv_business_id conv) (dm_created_at msg) msg)
  | Err _ => se_err (ErrChatDriver "resolve message organization")
  end.

(** The first component is the message the caller's pointer shows afterwards;
    [oid] is the value [bson.NewObjectID] returns. *)
Definition CreateMessage (now : Z) (oid : string) (msg : DMessage)
    : ChatDB → (DMessage * result ChatError unit) * ChatDB :=
  let id := if String.eqb (dm_id msg) "" then oid else dm_id msg in
  let msg := dm_stamp id (dm_business_id msg) (Some now) msg in
  st! p := populateBusinessID msg in
  match p with
  | Err e => st_ret (msg, Err e)
  | Ok msg =>
      st! r := on_msgs (insertOne msg) in
      st_ret (msg, match r with Ok _ => Ok tt | Err _ => Err (ErrChatDriver "insert message") end)
  end.

Definition UpdateMessage (msg : DMessage) : repo unit :=
  if String.eqb (dm_id msg) "" then se_err ErrIDRequired
  else
    do! msg := populateBusinessID msg in
    try! r := on_msgs (updateOne (dm_id msg) (λ _, true) (λ _, msg)) in
    match r with
    | Err _ => se_err (ErrChatDriver "update message")
    | Ok true => se_ret tt
    | Ok false => se_err ErrMessageNotFound
    end.

Definition newest_first (m : DMessage) : Z := (- bson_time (dm_created_at m))%Z.

(** A [limit] of zero is no limit. *)
Definition ListByConversationID (conversationID : string) (limit offset : nat) : repo (list DMessage) :=
  try! r := on_msgs (find (λ m, String.eqb (dm_conversation_id m) conversationID) newest_first) in
  match r with
  | Err _ => se_err (ErrChatDriver "find messages")
  | Ok l =>
      let page := drop offset l in
      se_ret (rev (match limit with 0 => page | _ => take limit page end))
  end.

Definition CountByConversationID (conversationID : string) : repo nat :=
  try! r := on_msgs (find (λ m, String.eqb (dm_conversation_id m) conversationID) (λ _, 0%Z)) in
  match r with
  | Err _ => se_err (ErrChatDriver "count messages")
  | Ok l => se_ret (length l)
  end.

Definition DeleteMessagesByConversationID (conversationID : string) : repo nat :=
  try! r := on_msgs (deleteMany (λ m, String.eqb (dm_conversation_id m) conversationID)) in
  match r with
  | Err _ => se_err (ErrChatDriver "delete messages by conversation")
  | Ok n => se_ret n
  end.

Definition is_active (conversationID : string) (m : DMessage) : bool :=
  String.eqb (dm_conversation_id m) conversationID
  && String.eqb (dm_role m) MessageRoleAssistant
  && list_mem (dm_status m) [MessageStatusPendingApproval; MessageStatusInProgress].

Definition FindByConversationActive (conversationID : string) : repo DMessage :=
  try! r := on_msgs (findFirst (is_active conversationID) newest_first) in
  match r with
  | Err _ => se_err (ErrChatDriver "find active message")
  | Ok None => se_err ErrMessageNotFound
  | Ok (Some m) => se_ret m
  end.

(** *** conversationRepository *)

Definition CreateConversation (now : Z) (oid : string) (conv : Conversation) : repo Conversation :=
  let conv := {|
    cv_preview := cv_preview conv; cv_id := (if String.eqb (cv_id conv) "" then oid else cv_id conv);
    cv_user_id := cv_user_id conv; cv_business_id := cv_business_id conv;
    cv_project_id := cv_project_id conv; cv_title := cv_title conv;
    cv_title_status := cv_title_status conv; cv_pinned_at := cv_pinned_at conv;
    cv_last_message_at := Some (default now (cv_last_message_at conv));
    cv_created_at := now; cv_updated_at := now |} in
  try! r := on_convs (insertOne conv) in
  match r with
  | Err _ => se_err (ErrChatDriver "insert conversation")
  | Ok _ => se_ret conv
  end.

Definition GetConversation (id : string) : repo Conversation :=
  try! r := on_convs (findOne id) in
  match r with
  | Err _ => se_err (ErrChatDriver "query conversation")
  | Ok None => se_err ErrConversationNotFound
  | Ok (Some c) => se_ret c
  end.

(** A filtered [$set] on one conversation that must match. *)
Definition set_conversation (op id : string) (p : Conversation → bool) (f : Conversation → Conversation)
    : repo unit :=
  try! r := on_convs (updateOne id p f) in
  match r with
  | Err _ => se_err (ErrChatDriver op)
  | Ok false => se_err ErrConversationNotFound
  | Ok true => se_ret tt
  end.

Definition UpdateConversation (now : Z) (conv : Conversation) : repo unit :=
  set_conversation "update conversation" (cv_id conv) (λ _, true) (λ c,
    cv_touch (cv_user_id conv) (cv_title conv) (cv_title_status conv) (cv_project_id c)
      (cv_pinned_at c) (cv_last_message_at c) now c).

Definition DeleteConversation (id : string) : repo unit :=
  try! r := on_convs (deleteMany (λ c, String.eqb (cv_id c) id)) in
  match r with
  | Err _ => se_err (ErrChatDriver "delete conversation")
  | Ok 0 => se_err ErrConversationNotFound
  | Ok _ => se_ret tt
  end.

Definition UpdateProjectAssignment (now : Z) (id : string) (projectID : option string) : repo unit :=
  set_conversation "update project assignment" id (λ _, true) (λ c,
    cv_touch (cv_user_id c) (cv_title c) (cv_title_status c) projectID (cv_pinned_at c)
      (cv_last_message_at c) now c).

(** [{"title_status": {$in: [..., nil]}}]: null and a missing field match [nil]. *)
Definition title_status_in (l : list string) (c : Conversation) : bool :=
  match cv_title_status c with None => true | Some s => list_mem s l end.

Definition UpdateTitleIfPending (now : Z) (id title : string) : repo unit :=
  set_conversation "update title if pending" id (title_status_in [TitleStatusAutoPending]) (λ c,
    cv_touch (cv_user_id c) title (Some TitleStatusAuto) (cv_project_id c) (cv_pinned_at c)
      (cv_last_message_at c) now c).

Definition TransitionToAutoPending (now : Z) (id : string) : repo unit :=
  set_conversation "transition to auto_pending" id
    (title_status_in [TitleStatusAuto; TitleStatusAutoPending]) (λ c,
    cv_touch (cv_user_id c) (cv_title c) (Some TitleStatusAutoPending) (cv_project_id c)
      (cv_pinned_at c) (cv_last_message_at c) now c).

Definition owned_by (businessID userID : string) (c : Conversation) : bool :=
  String.eqb (cv_business_id c) businessID && String.eqb (cv_user_id c) userID.

Definition PinConversation (now : Z) (id businessID userID : string) : repo unit :=
  set_conversation "pin conversation" id (owned_by businessID userID) (λ c,
    cv_touch (cv_user_id c) (cv_title c) (cv_title_status c) (cv_project_id c) (Some now)
      (cv_last_message_at c) now c).

Definition UnpinConversation (now : Z) (id businessID userID : string) : repo unit :=
  set_conversation "unpin conversation" id (owned_by businessID userID) (λ c,
    cv_touch (cv_user_id c) (cv_title c) (cv_title_status c) (cv_project_id c) None
      (cv_last_message_at c) now c).

Definition BumpLastMessageAt (id : string) (ts : Z) : repo unit :=
  set_conversation "bump last_message_at" id (λ _, true) (λ c,
    cv_touch (cv_user_id c) (cv_title c) (cv_title_status c) (cv_project_id c) (cv_pinned_at c)
      (Some ts) ts c).

(** ** What each operation does to the documents *)

Definition msgs (d : ChatDB) : gmap string DMessage := docs (db_msgs d).
Definition convs (d : ChatDB) : gmap string Conversation := docs (db_convs d).

(** Who a conversation belongs to: its user and its organisation. *)
Definition owners (d : ChatDB) : gmap string (string * string) :=
  (λ c, (cv_user_id c, cv_business_id c)) <$> convs d.

(** The organisation [populateBusinessID] resolves. *)
Definition business_of (d : ChatDB) (conversationID : string) : string :=
  match owners d !! conversationID with Some (_, b) => b | None => "" end.

(** What a turn's calls leave alone: the messages and who owns what. *)
Definition chat_view (d : ChatDB) := (msgs d, owners d).

Definition same_docs (d d' : ChatDB) : Prop := msgs d' = msgs d ∧ convs d' = convs d.

(** [m] written over the row [dm_id m] with the organisation the store resolved. *)
Definition written (m : DMessage) (d d' : ChatDB) : Prop :=
  msgs d' = <[dm_id m := dm_stamp (dm_id m) (business_of d (dm_conversation_id m)) (dm_created_at m) m]> (msgs d)
  ∧ convs d' = convs d.

Lemma populate_spec msg d :
  match populateBusinessID msg d with
  | (Ok m, d') => same_docs d d'
      ∧ m = dm_stamp (dm_id msg) (business_of d (dm_conversation_id msg)) (dm_created_at msg) msg
  | (Err e, d') => same_docs d d' ∧ e = ErrChatDriver "resolve message organization"
  end.
Proof.
  unfold populateBusinessID, se_try, on_convs, focus.
  pose proof (findOne_spec (dm_conversation_id msg) (db_convs d)) as Hf.
  unfold business_of, owners, same_docs, msgs, convs. rewrite lookup_fmap.
  destruct (findOne (dm_conversation_id msg) (db_convs d)) as [[[c|]|e] s']; cbn; [| |done];
    destruct Hf as [Hr Hs]; (split; [done|]); by rewrite <- Hr.
Qed.

Lemma dm_stamp_id id b t m : dm_id (dm_stamp id b t m) = id.
Proof. done. Qed.

Lemma update_message_spec msg d :
  match UpdateMessage msg d with
  | (Ok _, d') => is_Some (msgs d !! dm_id msg) ∧ written msg d d'
  | (Err ErrMessageNotFound, d') => msgs d !! dm_id msg = None ∧ same_docs d d'
  | (Err _, d') => same_docs d d' ∨ (is_Some (msgs d !! dm_id msg) ∧ written msg d d')
  end.
Proof.
  unfold UpdateMessage. destruct (String.eqb (dm_id msg) ""); [by left|].
  unfold se_bind. pose proof (populate_spec msg d) as Hp.
  destruct (populateBusinessID msg d) as [[m|e] d1]; [|destruct Hp as [? ->]; by left].
  destruct Hp as [[Hm Hc] ->]. unfold se_try, on_msgs, focus. cbn [dm_id dm_stamp].
  set (m := dm_stamp _ _ _ msg).
  pose proof (updateOne_spec (dm_id msg) (λ _, true) (λ _, m) (db_msgs d1)) as Hu.
  assert (∀ s', docs s' = upd_one (dm_id msg) (λ _, true) (λ _, m) (docs (db_msgs d1)) →
    (is_Some (msgs d !! dm_id msg) ∧ written msg d {| db_msgs := s'; db_convs := db_convs d1 |})
    ∨ (msgs d !! dm_id msg = None ∧ same_docs d {| db_msgs := s'; db_convs := db_convs d1 |})) as Hw.
  { intros s' Hs'. unfold written, same_docs, msgs, convs in *. cbn. rewrite Hc, Hs', Hm.
    unfold upd_one. destruct (docs (db_msgs d) !! dm_id msg) eqn:E; [left|right]; eauto. }
  destruct (updateOne _ _ _ _) as [[[]|e] s']; cbn.
  - destruct Hu as [Hh Hs']. unfold hit in Hh. unfold msgs in Hm. rewrite Hm in Hh.
    destruct (Hw s' Hs') as [?|[Hn _]]; [done|]. unfold msgs in Hn. by rewrite Hn in Hh.
  - destruct Hu as [Hh Hs']. unfold hit in Hh. unfold msgs in Hm. rewrite Hm in Hh.
    destruct (Hw s' Hs') as [[[x Hx] _]|?]; [|done]. unfold msgs in Hx. by rewrite Hx in Hh.
  - destruct Hu as [Hs'|Hs'].
    + left. unfold same_docs, msgs, convs in *. cbn. by rewrite Hs', Hm, Hc.
    + destruct (Hw s' Hs') as [?|[_ ?]]; [by right|by left].
Qed.

(** The id a created message gets. *)
Definition created_id (oid : string) (msg : DMessage) : string :=
  if String.eqb (dm_id msg) "" then oid else dm_id msg.

Lemma create_message_spec now oid msg d :
  let row := dm_stamp (created_id oid msg) "" (Some now) msg in
  match CreateMessage now oid msg d with
  | ((m, Ok _), d') => msgs d !! dm_id row = None ∧ written row d d'
      ∧ dm_conversation_id m = dm_conversation_id msg ∧ dm_created_at m = Some now
  | ((m, Err e), d') => e ≠ ErrMessageNotFound
      ∧ (same_docs d d' ∨ (msgs d !! dm_id row = None ∧ written row d d'))
      ∧ dm_conversation_id m = dm_conversation_id msg ∧ dm_created_at m = Some now
  end.
Proof.
  cbn zeta. unfold CreateMessage. fold (created_id oid msg). set (id := created_id oid msg).
  set (m0 := dm_stamp id _ (Some now) msg).
  unfold st_bind. pose proof (populate_spec m0 d) as Hp.
  destruct (populateBusinessID m0 d) as [[m|e] d1]; [|destruct Hp as [? ->]; cbn; auto].
  destruct Hp as [[Hm Hc] ->]. unfold on_msgs, focus, st_ret. cbn [dm_id dm_stamp m0 dm_created_at].
  set (m := dm_stamp id (business_of _ _) _ _).
  pose proof (insertOne_spec m (db_msgs d1)) as Hi.
  assert (∀ s', docs s' = <[dm_id m := m]> (docs (db_msgs d1)) →
    written (dm_stamp id "" (Some now) msg) d {| db_msgs := s'; db_convs := db_convs d1 |}) as Hw.
  { intros s' Hs'. unfold written, msgs, convs in *. cbn. by rewrite Hc, Hs', Hm. }
  unfold msgs in Hm. rewrite Hm in Hi.
  destruct (insertOne m (db_msgs d1)) as [[[]|e] s']; cbn.
  - destruct Hi as [Hn Hs']. split; [done|]. split; [|done]. apply Hw. by rewrite Hm.
  - split; [done|]. split; [|done]. destruct Hi as [Hs'|[Hn Hs']].
    + left. unfold same_docs, msgs, convs in *. cbn. by rewrite Hs', Hc.
    + right. split; [done|]. apply Hw. by rewrite Hm.
Qed.

(** The active message is a newest active assistant message of the conversation. *)
Lemma find_active_spec cid d :
  match FindByConversationActive cid d with
  | (Ok m, d') => same_docs d d' ∧ is_active cid m = true ∧ (∃ id, msgs d !! id = Some m)
      ∧ (∀ id m', msgs d !! id = Some m' → is_active cid m' = true →
           (bson_time (dm_created_at m') ≤ bson_time (dm_created_at m))%Z)
  | (Err ErrMessageNotFound, d') => same_docs d d'
      ∧ (∀ id m', msgs d !! id = Some m' → is_active cid m' = false)
  | (Err _, d') => same_docs d d'
  end.
Proof.
  unfold FindByConversationActive, se_try, on_msgs, focus, findFirst.
  pose proof (find_spec (is_active cid) newest_first (db_msgs d)) as Hf.
  destruct (find _ _ _) as [[l|e] s']; cbn; [|done].
  destruct Hf as (Hd & Hl & Hs). assert (same_docs d {| db_msgs := s'; db_convs := db_convs d |}) as Hsame by done.
  assert (∀ id m', msgs d !! id = Some m' → is_active cid m' = true → m' ∈ l) as Hin.
  { intros id m' Hm' Ha. rewrite Hl. apply elem_of_filterb. split; [done|]. apply values_elem. eauto. }
  destruct l as [|m l]; cbn.
  - split; [done|]. intros id m' Hm'. destruct (is_active cid m') eqn:Ha; [|done].
    by apply Hin, not_elem_of_nil in Hm'.
  - assert (m ∈ m :: l) as Hm by set_solver. rewrite Hl in Hm.
    apply elem_of_filterb in Hm as [Ha Hv]. apply values_elem in Hv as [id Hid].
    split; [done|]. split; [done|]. split; [eauto|]. intros id' m' Hid' Ha'.
    apply Sorted.Sorted_StronglySorted in Hs; [|intros x y z; unfold key_le; lia].
    apply Sorted.StronglySorted_inv in Hs as [_ Hall].
    rewrite Forall_forall in Hall.
    pose proof (Hin _ _ Hid' Ha') as Hl'. apply elem_of_cons in Hl' as [->|Hr]; [done|].
    specialize (Hall _ Hr). unfold key_le, newest_first in Hall. lia.
Qed.

(** A conversation update touches one conversation and no message. *)
Lemma set_conversation_spec op id p f d :
  match set_conversation op id p f d with
  | (Ok _, d') => hit id p (convs d) = true ∧ msgs d' = msgs d ∧ convs d' = upd_one id p f (convs d)
  | (Err ErrConversationNotFound, d') => hit id p (convs d) = false ∧ same_docs d d'
  | (Err _, d') => msgs d' = msgs d ∧ (convs d' = convs d ∨ convs d' = upd_one id p f (convs d))
  end.
Proof.
  unfold set_conversation, se_try, on_convs, focus.
  pose proof (updateOne_spec id p f (db_convs d)) as Hu.
  destruct (updateOne _ _ _ _) as [[[]|e] s']; cbn; unfold same_docs, msgs, convs; cbn.
  - destruct Hu as [Hh Hs']. done.
  - destruct Hu as [Hh Hs']. by rewrite Hs', upd_one_miss.
  - done.
Qed.

Lemma get_conversation_spec id d :
  match GetConversation id d with
  | (Ok c, d') => convs d !! id = Some c ∧ same_docs d d'
  | (Err ErrConversationNotFound, d') => convs d !! id = None ∧ same_docs d d'
  | (Err _, d') => same_docs d d'
  end.
Proof.
  unfold GetConversation, se_try, on_convs, focus. pose proof (findOne_spec id (db_convs d)) as Hf.
  destruct (findOne id (db_convs d)) as [[[c|]|e] s']; cbn; unfold same_docs, msgs, convs; cbn; naive_solver.
Qed.

(** Reads and bumps leave the messages and the owners alone. *)
Lemma same_docs_view d d' : same_docs d d' → chat_view d' = chat_view d.
Proof. intros [Hm Hc]. unfold chat_view, owners. by rewrite Hm, Hc. Qed.

Lemma find_active_view cid d : chat_view (FindByConversationActive cid d).2 = chat_view d.
Proof.
  pose proof (find_active_spec cid d) as Hs. apply same_docs_view.
  destruct (FindByConversationActive cid d) as [[m|[]] d']; naive_solver.
Qed.

Lemma get_conversation_view id d : chat_view (GetConversation id d).2 = chat_view d.
Proof.
  pose proof (get_conversation_spec id d) as Hs. apply same_docs_view.
  destruct (GetConversation id d) as [[m|[]] d']; naive_solver.
Qed.

Lemma list_messages_view id limit offset d : chat_view (ListByConversationID id limit offset d).2 = chat_view d.
Proof.
  apply same_docs_view. unfold ListByConversationID, se_try, on_msgs, focus, same_docs, msgs, convs.
  match goal with |- context [find ?p ?k ?c] => pose proof (find_spec p k c) as Hf; destruct (find p k c) as [[l|e] c'] end;
    cbn; naive_solver.
Qed.

Lemma bump_view id ts d : chat_view (BumpLastMessageAt id ts d).2 = chat_view d.
Proof.
  unfold BumpLastMessageAt.
  match goal with |- context [set_conversation ?op ?i ?p ?f d] =>
    pose proof (set_conversation_spec op i p f d) as Hs; set (upd := f) in * end.
  assert ((λ c, (cv_user_id c, cv_business_id c)) <$> upd_one id (λ _, true) upd (convs d) = owners d) as Ho.
  { apply map_eq. intros k. unfold owners. rewrite !lookup_fmap, upd_one_lookup. case_decide as E; [|done].
    rewrite E. by destruct (convs d !! id). }
  destruct (set_conversation _ _ _ _ d) as [r d']. unfold chat_view, owners in *. unfold same_docs in Hs. cbn.
  destruct r as [u|[]]; [destruct Hs as (_ & -> & ->)|destruct Hs as [-> [->| ->]]
    |destruct Hs as (_ & -> & ->)|destruct Hs as [-> [->| ->]]..]; by rewrite ?Ho.
Qed.

(** Without faults an operation fails only as its specification says. *)
Section reliable.
Context {RM : Reliable CM} {RV : Reliable CV}.

Lemma populate_ok msg d : is_ok (populateBusinessID msg d).1 = true.
Proof.
  unfold populateBusinessID, se_try, on_convs, focus. pose proof (findOne_ok (dm_conversation_id msg) (db_convs d)) as Hf.
  by destruct (findOne (dm_conversation_id msg) (db_convs d)) as [[[]|] ?].
Qed.

Lemma update_message_ok msg d :
  dm_id msg ≠ "" →
  (UpdateMessage msg d).1 = (if decide (is_Some (msgs d !! dm_id msg)) then Ok tt else Err ErrMessageNotFound).
Proof.
  intros Hid. pose proof (update_message_spec msg d) as Hs. unfold UpdateMessage in *.
  rewrite (proj2 (String.eqb_neq _ _) Hid) in *. unfold se_bind in *. pose proof (populate_ok msg d) as Hp.
  destruct (populateBusinessID msg d) as [[m|e] d1]; [|done]. unfold se_try, on_msgs, focus in *.
  pose proof (updateOne_ok (dm_id m) (λ _, true) (λ _, m) (db_msgs d1)) as Hu.
  destruct (updateOne _ _ _ _) as [[[]|e] s']; cbn in *; [| |done].
  - destruct Hs as [Hs _]. by rewrite decide_True.
  - destruct Hs as [Hs _]. rewrite decide_False; [done|]. rewrite Hs. by intros [? ?].
Qed.

Lemma create_message_ok now oid msg d :
  dm_id msg ≠ "" → msgs d !! dm_id msg = None → (CreateMessage now oid msg d).1.2 = Ok tt.
Proof.
  intros Hid Hn. unfold CreateMessage. rewrite (proj2 (String.eqb_neq _ _) Hid). unfold st_bind.
  set (m0 := dm_stamp _ _ _ msg). pose proof (populate_ok m0 d) as Hp. pose proof (populate_spec m0 d) as Hs.
  destruct (populateBusinessID m0 d) as [[m|e] d1]; [|done]. destruct Hs as [[Hm _] ->].
  unfold on_msgs, focus, st_ret.
  match goal with |- context [insertOne ?x _] => pose proof (insertOne_ok x (db_msgs d1)) as Hi end.
  destruct (insertOne _ _) as [[]]; [done|]. cbn in Hi. discriminate Hi. unfold msgs in *. by rewrite Hm.
Qed.

Lemma find_active_ok cid d :
  match (FindByConversationActive cid d).1 with Ok _ | Err ErrMessageNotFound => True | Err _ => False end.
Proof.
  unfold FindByConversationActive, se_try, on_msgs, focus, findFirst.
  pose proof (find_ok (is_active cid) newest_first (db_msgs d)) as Hf.
  by destruct (find _ _ _) as [[[]|] ?].
Qed.
End reliable.
End repos.

#[global] Arguments ChatDB {CM CV}.
