(* ===== verification/TaskStore.v ===== *)
(** * Agent tasks

    The task documents of [src/pkg/domain/mongo_models.go] and their repository,
    [services/api/internal/repository/agent_task.go], over the collection
    interface of Mongo.v: creation, the partial update a result applies, and the
    compare-and-set writes of a post-hoc verification.  The listing, the lookup of
    legacy task origins and the index definitions are not modelled.  An absent
    verification status is the empty string. *)

From S2P Require Import Prelude Json GoTime Types Mongo.
Local Open Scope go_scope.

Inductive DocError :=
| ErrDocNotFound
| ErrPostConflict
| ErrFieldRequired (field : string)
| ErrDocDriver (op : string).

#[export] Instance DocError_eq_dec : EqDecision DocError.
Proof. solve_decision. Defined.

(** ** Agent tasks *)

Definition AgentTaskStatusRunning : string := "running".
Definition AgentTaskStatusDone : string := "done".
Definition AgentTaskStatusError : string := "error".
Definition VerificationPending : string := "pending".
Definition VerificationRunning : string := "running".
Definition VerificationError : string := "error".
Definition VerificationUnverifiable : string := "unverifiable".
Definition VerificationUnsupported : string := "unsupported".

Record AgentTask := {
  tk_id : string;
  tk_business_id : string;
  tk_type : string;
  tk_display_name : string;
  tk_display_name_key : string;
  tk_status : string;
  tk_platform : string;
  tk_input : gomap;
  tk_output : gomap;
  tk_error : string;
  tk_error_code : string;
  tk_dispatch_approval_id : string;
  tk_origin_conversation_id : string;
  tk_origin_user_id : string;
  tk_verification_status : string;
  tk_verification_fields : option (list string);
  tk_verification_mismatches : list string;
  tk_verification_error_code : string;
  tk_verification_checked_at : option Z;
  tk_verification_expected : option (gmap string string);
  tk_verification_target : string;
  tk_verification_attempt : Z;
  tk_verification_updated_at : option Z;
  tk_started_at : option Z;
  tk_completed_at : option Z;
  tk_dismissed_at : option Z;
  tk_created_at : Z;
}.

#[export] Instance AgentTask_eq_dec : EqDecision AgentTask.
Proof. solve_decision. Defined.

Definition new_task : AgentTask := {|
  tk_id := ""; tk_business_id := ""; tk_type := ""; tk_display_name := ""; tk_display_name_key := "";
  tk_status := ""; tk_platform := ""; tk_input := None; tk_output := None; tk_error := "";
  tk_error_code := ""; tk_dispatch_approval_id := ""; tk_origin_conversation_id := "";
  tk_origin_user_id := ""; tk_verification_status := ""; tk_verification_fields := None;
  tk_verification_mismatches := []; tk_verification_error_code := "";
  tk_verification_checked_at := None; tk_verification_expected := None;
  tk_verification_target := ""; tk_verification_attempt := 0; tk_verification_updated_at := None;
  tk_started_at := None; tk_completed_at := None; tk_dismissed_at := None; tk_created_at := 0 |}.

Definition task_stamp (id : string) (created : Z) (t : AgentTask) : AgentTask := {|
  tk_id := id; tk_business_id := tk_business_id t; tk_type := tk_type t;
  tk_display_name := tk_display_name t; tk_display_name_key := tk_display_name_key t;
  tk_status := tk_status t; tk_platform := tk_platform t; tk_input := tk_input t;
  tk_output := tk_output t; tk_error := tk_error t; tk_error_code := tk_error_code t;
  tk_dispatch_approval_id := tk_dispatch_approval_id t;
  tk_origin_conversation_id := tk_origin_conversation_id t; tk_origin_user_id := tk_origin_user_id t;
  tk_verification_status := tk_verification_status t; tk_verification_fields := tk_verification_fields t;
  tk_verification_mismatches := tk_verification_mismatches t;
  tk_verification_error_code := tk_verification_error_code t;
  tk_verification_checked_at := tk_verification_checked_at t;
  tk_verification_expected := tk_verification_expected t; tk_verification_target := tk_verification_target t;
  tk_verification_attempt := tk_verification_attempt t;
  tk_verification_updated_at := tk_verification_updated_at t; tk_started_at := tk_started_at t;
  tk_completed_at := tk_completed_at t; tk_dismissed_at := tk_dismissed_at t; tk_created_at := created |}.

(** The [$set] and [$unset] of [Update]: zero-valued fields of the update leave
    the stored ones; a [done] status drops the stored error, an [error] status the
    stored verification outcome. *)
Definition task_apply (now : Z) (u d : AgentTask) : AgentTask :=
  let keep_str (v old : string) := if String.eqb v "" then old else v in
  let keep_opt {A} (v old : option A) := match v with None => old | Some _ => v end in
  let done := String.eqb (tk_status u) AgentTaskStatusDone in
  let failed := String.eqb (tk_status u) AgentTaskStatusError in
  let verified := negb (String.eqb (tk_verification_status u) "") && negb failed in
  {| tk_id := tk_id d; tk_business_id := tk_business_id d; tk_type := tk_type d;
     tk_display_name := keep_str (tk_display_name u) (tk_display_name d);
     tk_display_name_key := keep_str (tk_display_name_key u) (tk_display_name_key d);
     tk_status := tk_status u; tk_platform := tk_platform d; tk_input := tk_input d;
     tk_output := keep_opt (tk_output u) (tk_output d);
     tk_error := if done then "" else keep_str (tk_error u) (tk_error d);
     tk_error_code := if done then "" else keep_str (tk_error_code u) (tk_error_code d);
     tk_dispatch_approval_id := tk_dispatch_approval_id d;
     tk_origin_conversation_id := tk_origin_conversation_id d; tk_origin_user_id := tk_origin_user_id d;
     tk_verification_status := if failed then "" else
       if verified then tk_verification_status u else tk_verification_status d;
     tk_verification_fields := keep_opt (tk_verification_fields u) (tk_verification_fields d);
     tk_verification_mismatches := if failed then [] else tk_verification_mismatches d;
     tk_verification_error_code := if failed then "" else tk_verification_error_code d;
     tk_verification_checked_at := if failed then None else tk_verification_checked_at d;
     tk_verification_expected := keep_opt (tk_verification_expected u) (tk_verification_expected d);
     tk_verification_target :=
       match tk_verification_expected u with
       | Some _ => tk_verification_target u
       | None => keep_str (tk_verification_target u) (tk_verification_target d)
       end;
     tk_verification_attempt :=
       if (0 <? tk_verification_attempt u)%Z then tk_verification_attempt u else tk_verification_attempt d;
     tk_verification_updated_at := if verified then Some now else tk_verification_updated_at d;
     tk_started_at := keep_opt (tk_started_at u) (tk_started_at d);
     tk_completed_at := keep_opt (tk_completed_at u) (tk_completed_at d);
     tk_dismissed_at := tk_dismissed_at d; tk_created_at := tk_created_at d |}.

(** The verification fields and the dismissal mark, the rest kept. *)
Definition task_verify (status : string) (fields : option (list string)) (mismatches : list string)
    (code : string) (checked : option Z) (attempt : Z) (updated dismissed : option Z)
    (t : AgentTask) : AgentTask := {|
  tk_id := tk_id t; tk_business_id := tk_business_id t; tk_type := tk_type t;
  tk_display_name := tk_display_name t; tk_display_name_key := tk_display_name_key t;
  tk_status := tk_status t; tk_platform := tk_platform t; tk_input := tk_input t;
  tk_output := tk_output t; tk_error := tk_error t; tk_error_code := tk_error_code t;
  tk_dispatch_approval_id := tk_dispatch_approval_id t;
  tk_origin_conversation_id := tk_origin_conversation_id t; tk_origin_user_id := tk_origin_user_id t;
  tk_verification_status := status; tk_verification_fields := fields;
  tk_verification_mismatches := mismatches; tk_verification_error_code := code;
  tk_verification_checked_at := checked;
  tk_verification_expected := tk_verification_expected t; tk_verification_target := tk_verification_target t;
  tk_verification_attempt := attempt; tk_verification_updated_at := updated;
  tk_started_at := tk_started_at t; tk_completed_at := tk_completed_at t;
  tk_dismissed_at := dismissed; tk_created_at := tk_created_at t |}.

Definition task_dismiss (now : Z) (t : AgentTask) : AgentTask :=
  task_verify (tk_verification_status t) (tk_verification_fields t) (tk_verification_mismatches t)
    (tk_verification_error_code t) (tk_verification_checked_at t) (tk_verification_attempt t)
    (tk_verification_updated_at t) (Some now) t.

Record AgentTaskVerificationUpdate := {
  vu_expected_status : string;
  vu_attempt : Z;
  vu_status : string;
  vu_fields : list string;
  vu_mismatches : list string;
  vu_error_code : string;
  vu_checked_at : option Z;
}.

Section tasks.
Context {CT : Coll AgentTask tk_id}.
Notation tasks := (@coll AgentTask tk_id CT).

(** The stored task carries the id the pointer shows afterwards. *)
Definition CreateTask (now : Z) (oid : string) (task : AgentTask) : tasks → (AgentTask * result DocError unit) * tasks :=
  let task := task_stamp (if String.eqb (tk_id task) "" then oid else tk_id task) now task in
  st! r := insertOne task in
  st_ret (task, match r with Ok _ => Ok tt | Err _ => Err (ErrDocDriver "insert agent task") end).

Definition in_business (businessID : string) (t : AgentTask) : bool :=
  String.eqb (tk_business_id t) businessID.

Definition UpdateTask (now : Z) (task : AgentTask) : SE tasks DocError unit :=
  if String.eqb (tk_id task) "" then se_err (ErrFieldRequired "id")
  else if String.eqb (tk_business_id task) "" then se_err (ErrFieldRequired "business_id")
  else
    try! r := updateOne (tk_id task) (in_business (tk_business_id task)) (task_apply now task) in
    match r with
    | Err _ => se_err (ErrDocDriver "update agent task")
    | Ok false => se_err ErrDocNotFound
    | Ok true => se_ret tt
    end.

Definition GetTask (businessID taskID : string) : SE tasks DocError AgentTask :=
  try! r := findOne taskID in
  match r with
  | Err _ => se_err (ErrDocDriver "get agent task")
  | Ok (Some t) => if in_business businessID t then se_ret t else se_err ErrDocNotFound
  | Ok None => se_err ErrDocNotFound
  end.

Definition DismissTask (now : Z) (businessID taskID : string) : SE tasks DocError unit :=
  try! r := updateOne taskID (λ t, in_business businessID t
      && String.eqb (tk_status t) AgentTaskStatusError && negb (bool_decide (is_Some (tk_dismissed_at t))))
    (task_dismiss now) in
  match r with
  | Err _ => se_err (ErrDocDriver "dismiss agent task")
  | Ok false => se_err ErrDocNotFound
  | Ok true => se_ret tt
  end.

(** A verification-only write, applied under the attempt and the status it
    expects.  A stored attempt of zero is a missing field, which no number matches. *)
Definition UpdateVerification (now : Z) (businessID taskID : string) (v : AgentTaskVerificationUpdate)
    : SE tasks DocError unit :=
  try! r := updateOne taskID (λ t, in_business businessID t
      && negb (vu_attempt v =? 0)%Z && (tk_verification_attempt t =? vu_attempt v)%Z
      && (String.eqb (vu_expected_status v) ""
          || String.eqb (tk_verification_status t) (vu_expected_status v)))
    (λ t, task_verify (vu_status v) (Some (vu_fields v)) (vu_mismatches v) (vu_error_code v)
       (match vu_checked_at v with Some c => Some c | None => tk_verification_checked_at t end)
       (tk_verification_attempt t) (Some now) (tk_dismissed_at t) t) in
  match r with
  | Err _ => se_err (ErrDocDriver "update agent task verification")
  | Ok false => se_err ErrDocNotFound
  | Ok true => se_ret tt
  end.

Definition RestartVerification (now : Z) (businessID taskID : string) : SE tasks DocError AgentTask :=
  try! r := findOneAndUpdate taskID (λ t, in_business businessID t
      && String.eqb (tk_status t) AgentTaskStatusDone
      && negb (list_mem (tk_verification_status t) [VerificationPending; VerificationRunning]))
    (λ t, task_verify VerificationPending (tk_verification_fields t) [] "" None
       (tk_verification_attempt t + 1) (Some now) (tk_dismissed_at t) t) in
  match r with
  | Err _ => se_err (ErrDocDriver "restart agent task verification")
  | Ok None => se_err ErrDocNotFound
  | Ok (Some t) => se_ret t
  end.

Definition RecoverStaleVerifications (now before : Z) : SE tasks DocError unit :=
  try! r := updateMany (λ t, list_mem (tk_verification_status t) [VerificationPending; VerificationRunning]
      && match tk_verification_updated_at t with Some u => (u <? before)%Z | None => false end)
    (λ t, task_verify VerificationError (tk_verification_fields t) (tk_verification_mismatches t)
       "interrupted" (Some now) (tk_verification_attempt t) (Some now) (tk_dismissed_at t) t) in
  match r with
  | Err _ => se_err (ErrDocDriver "recover stale task verifications")
  | Ok _ => se_ret tt
  end.
End tasks.
