(* ===== verification/PostStore.v ===== *)
(** * Posts

    The post documents of [src/pkg/domain/mongo_models.go] and their repository,
    [services/api/internal/repository/post.go] and [post_schedule.go].  A post
    under a lifecycle operation carries that operation's id as a durable claim:
    every other write to it requires the claim to be absent or its own. *)

From S2P Require Import Prelude Json GoTime Types Tools Mongo TaskStore.
Local Open Scope go_scope.

Record PlatformResult := {
  pr_external_id : string;
  pr_post_id : string;
  pr_url : string;
  pr_status : string;
  pr_error : string;
}.

Record Post := {
  po_operation_id : string;
  po_id : string;
  po_business_id : string;
  po_content : string;
  po_media_urls : list string;
  po_results : gmap string PlatformResult;
  po_status : string;
  po_scheduled_at : option Z;
  po_published_at : option Z;
  po_broadcast_group_id : string;
  po_created_at : Z;
}.

#[export] Instance PlatformResult_eq_dec : EqDecision PlatformResult.
Proof. solve_decision. Defined.
#[export] Instance Post_eq_dec : EqDecision Post.
Proof. solve_decision. Defined.

Definition statusScheduled : string := "scheduled".
Definition statusProcessing : string := "processing".
Definition statusPublished : string := "published".

(** The mutable fields. *)
Definition post_set (op content : string) (results : gmap string PlatformResult) (status : string)
    (scheduled published : option Z) (p : Post) : Post := {|
  po_operation_id := op; po_id := po_id p; po_business_id := po_business_id p;
  po_content := content; po_media_urls := po_media_urls p; po_results := results;
  po_status := status; po_scheduled_at := scheduled; po_published_at := published;
  po_broadcast_group_id := po_broadcast_group_id p; po_created_at := po_created_at p |}.

Definition post_stamp (id : string) (created : Z) (p : Post) : Post := {|
  po_operation_id := po_operation_id p; po_id := id; po_business_id := po_business_id p;
  po_content := po_content p; po_media_urls := po_media_urls p; po_results := po_results p;
  po_status := po_status p; po_scheduled_at := po_scheduled_at p; po_published_at := po_published_at p;
  po_broadcast_group_id := po_broadcast_group_id p; po_created_at := created |}.

Definition pr_set_status (status error : string) (r : PlatformResult) : PlatformResult := {|
  pr_external_id := pr_external_id r; pr_post_id := pr_post_id r; pr_url := pr_url r;
  pr_status := status; pr_error := error |}.

(** [{"operation_id": {$in: ["", nil]}}]. *)
Definition unclaimed (p : Post) : bool := String.eqb (po_operation_id p) "".

(** [{"platform_results.telegram.external_id": {$exists: true, $ne: ""}}]. *)
Definition telegram_target (p : Post) : bool :=
  match po_results p !! AgentTelegram with
  | Some r => negb (String.eqb (pr_external_id r) "")
  | None => false
  end.

Section posts.
Context {CP : Coll Post po_id}.
Notation posts := (@coll Post po_id CP).

Definition CreatePost (now : Z) (oid : string) (post : Post) : SE posts DocError Post :=
  let post := post_stamp (if String.eqb (po_id post) "" then oid else po_id post) now post in
  try! r := insertOne post in
  match r with Ok _ => se_ret post | Err _ => se_err (ErrDocDriver "insert post") end.

Definition GetPost (id : string) : SE posts DocError Post :=
  try! r := findOne id in
  match r with
  | Err _ => se_err (ErrDocDriver "query post")
  | Ok None => se_err ErrDocNotFound
  | Ok (Some p) => se_ret p
  end.

Definition claim_operation_filter (businessID previousStatus : string) (p : Post) : bool :=
  String.eqb (po_business_id p) businessID && String.eqb (po_status p) previousStatus && unclaimed p.

Definition claim_post (operationID : string) (p : Post) : Post :=
  post_set operationID (po_content p) (po_results p) statusProcessing (po_scheduled_at p)
    (po_published_at p) p.

(** [ModifiedCount == 1]: the match, unless the write changes nothing. *)
Definition ClaimOperation (businessID id previousStatus operationID : string) : SE posts DocError bool :=
  try! r := updateOne id (claim_operation_filter businessID previousStatus) (claim_post operationID) in
  match r with
  | Err _ => se_err (ErrDocDriver "claim post operation")
  | Ok b => se_ret (b && negb (String.eqb operationID "" && String.eqb previousStatus statusProcessing))
  end.

Definition complete_filter (post : Post) (operationID : string) (p : Post) : bool :=
  String.eqb (po_business_id p) (po_business_id post) && String.eqb (po_operation_id p) operationID.

Definition complete_post (post p : Post) : Post :=
  post_set "" (po_content post) (po_results post) (po_status post) (po_scheduled_at p)
    (po_published_at post) p.

Definition CompleteOperation (post : Post) (operationID : string) : SE posts DocError unit :=
  try! r := updateOne (po_id post) (complete_filter post operationID) (complete_post post) in
  match r with
  | Err _ => se_err (ErrDocDriver "complete post operation")
  | Ok false => se_err ErrPostConflict
  | Ok true => se_ret tt
  end.

(** A stored empty external id is a missing field, which no string matches. *)
Definition reconcile_filter (businessID platform externalID postID : string) (p : Post) : bool :=
  String.eqb (po_business_id p) businessID && unclaimed p
  && match po_results p !! platform with
     | Some r => negb (String.eqb externalID "") && String.eqb (pr_external_id r) externalID
                 && String.eqb (pr_post_id r) postID
     | None => false
     end.

Definition reconcile_post (platform status : string) (content : option string) (p : Post) : Post :=
  post_set (po_operation_id p) (default (po_content p) content)
    (alter (pr_set_status status "") platform (po_results p)) status (po_scheduled_at p)
    (po_published_at p) p.

Definition ReconcileMutation (businessID platform externalID postID status : string)
    (content : option string) : SE posts DocError unit :=
  try! r := updateFirst (reconcile_filter businessID platform externalID postID)
              (reconcile_post platform status content) in
  match r with
  | Err _ => se_err (ErrDocDriver "reconcile post mutation")
  | Ok _ => se_ret tt
  end.

(** *** post_schedule.go *)

Definition due (now : Z) (p : Post) : bool :=
  String.eqb (po_status p) statusScheduled
  && match po_scheduled_at p with Some at_ => (at_ <=? now)%Z | None => false end
  && telegram_target p && negb (bool_decide (is_Some (po_results p !! AgentVK))) && unclaimed p.

(** [operationID] is the id [uuid.NewString] returns for this claim. *)
Definition ClaimDue (now : Z) (operationID : string) : SE posts DocError (option Post) :=
  try! r := findOneAndModify (due now) (λ p, default 0%Z (po_scheduled_at p)) (claim_post operationID) in
  match r with
  | Err _ => se_err (ErrDocDriver "claim due Telegram post")
  | Ok r => se_ret r
  end.

Definition scheduled_filter (businessID : string) (p : Post) : bool :=
  String.eqb (po_business_id p) businessID && String.eqb (po_status p) statusScheduled
  && telegram_target p && unclaimed p.

Definition reschedule_post (at_ : option Z) (content : option string) (status : string) (p : Post) : Post :=
  post_set (po_operation_id p) (default (po_content p) content)
    (alter (λ r, pr_set_status status (pr_error r) r) AgentTelegram (po_results p)) status
    (match at_ with Some t => Some t | None => po_scheduled_at p end) (po_published_at p) p.

Definition UpdateScheduled (businessID id : string) (at_ : option Z) (content : option string)
    (status : string) : SE posts DocError bool :=
  try! r := updateOne id (scheduled_filter businessID) (reschedule_post at_ content status) in
  match r with
  | Err _ => se_err (ErrDocDriver "update queued post")
  | Ok b => se_ret b
  end.
End posts.
