(* ===== verification/HitlStore.v ===== *)
(** * The approval-batch store

    [src/pkg/hitlstore/pending_tool_call.go]: the repository of paused tool-call
    batches, each method a sequence of collection operations against the
    [Coll] interface, with [now] the value [time.Now()] returns at the call.
    [lifecycle] is the specification: the steps one batch may take; every
    method, whatever its outcome, moves each document along such steps. *)

From S2P Require Import Prelude Json GoTime Types Policy Mongo.
Local Open Scope go_scope.

Definition pendingToolCallTTL : Z := (24 * Hour)%Z.

Definition statusPreparing : string := "preparing".
Definition statusPending : string := "pending".
Definition statusResolving : string := "resolving".
Definition statusResuming : string := "resuming".
Definition statusResolved : string := "resolved".
Definition statusExpired : string := "expired".

Inductive StoreError :=
| ErrRequired (field : string)
| ErrBatchNotFound
| ErrBatchNotPending
| ErrBatchNotResolving
| ErrDriver (op : string).

Notation Batch := PendingToolCallBatch (only parsing).

Definition status_is (s : string) (b : Batch) : bool := String.eqb (b_status b) s.

(** [$set {status: s, updated_at: now}]. *)
Definition move (s : string) (now : Z) (b : Batch) : Batch :=
  set_times (b_created_at b) now (b_expires_at b) (set_status s b).

Definition recordedVerdicts : list string := ["approve"; "edit"; "reject"].

(** [{"calls.verdict": {$nin: recordedVerdicts}}]: no element matches. *)
Definition no_verdict (b : Batch) : bool :=
  forallb (λ c, negb (list_mem (pc_verdict c) recordedVerdicts)) (b_calls b).

Definition mark_call (now : Z) (c : PendingCall) : PendingCall := {|
  pc_call_id := pc_call_id c; pc_tool_name := pc_tool_name c; pc_arguments := pc_arguments c;
  pc_floor_at_pause := pc_floor_at_pause c; pc_verdict := pc_verdict c;
  pc_edited_args := pc_edited_args c; pc_reject_reason := pc_reject_reason c;
  pc_dispatched := true; pc_dispatched_at := Some now |}.

(** The positional [$] operator: the first element the filter matched. *)
Fixpoint mark_first (callID : string) (now : Z) (cs : list PendingCall) : list PendingCall :=
  match cs with
  | [] => []
  | c :: cs' =>
      if String.eqb (pc_call_id c) callID then mark_call now c :: cs'
      else c :: mark_first callID now cs'
  end.

Definition has_call (callID : string) (b : Batch) : bool :=
  existsb (λ c, String.eqb (pc_call_id c) callID) (b_calls b).

Definition virtualizeExpiry (now : Z) (doc : Batch) : Batch :=
  match b_expires_at doc with
  | None => doc
  | Some e =>
      if negb (status_is statusPending doc) && negb (status_is statusResolving doc)
         && negb (status_is statusResuming doc) then doc
      else if (e <? now)%Z then set_status statusExpired doc
      else doc
  end.

Section repo.
Context `{Coll Batch b_id}.

Notation repo A := (SE coll StoreError A).

(** A collection call whose driver error is returned wrapped. *)
Definition driver {A} (op : string) (m : SE coll MongoError A) : repo A := λ c,
  match m c with
  | (Ok a, c') => (Ok a, c')
  | (Err _, c') => (Err (ErrDriver op), c')
  end.

Definition Persist (now : Z) (b : Batch) : repo Batch :=
  if String.eqb (b_conversation_id b) "" then se_err (ErrRequired "conversation_id")
  else if String.eqb (b_business_id b) "" then se_err (ErrRequired "business_id")
  else
    let b := set_times now now (b_expires_at b) (set_status statusPreparing b) in
    do! _ := driver "stage preparing" (insertOne b) in
    let expiresAt := (now + pendingToolCallTTL)%Z in
    let promote := λ d, set_times (b_created_at d) now (Some expiresAt) (set_status statusPending d) in
    do! matched := driver "promote to pending"
      (updateOne (b_id b) (status_is statusPreparing) promote) in
    if negb matched then se_err ErrBatchNotFound
    else se_ret (promote b).

Definition GetByBatchID (now : Z) (batchID : string) : repo Batch :=
  do! doc := driver "find" (findOne batchID) in
  match doc with
  | None => se_err ErrBatchNotFound
  | Some doc => se_ret (virtualizeExpiry now doc)
  end.

Definition ListPendingByConversation (now : Z) (conversationID : string) : repo (list Batch) :=
  do! ds := driver "find" (find (λ d, String.eqb (b_conversation_id d) conversationID
      && list_mem (b_status d) [statusPending; statusResolving; statusResuming]) b_created_at) in
  se_ret (virtualizeExpiry now <$> ds).

(** The projection of the decision queue keeps these fields of a call. *)
Definition project_call (c : PendingCall) : PendingCall := {|
  pc_call_id := pc_call_id c; pc_tool_name := pc_tool_name c;
  pc_arguments := match pc_arguments c with
    | None => None
    | Some a => Some (filterb (λ kv, list_mem kv.1
                        ["text"; "caption"; "scheduled_at"; "publish_date"]%string) a)
    end;
  pc_floor_at_pause := ""; pc_verdict := ""; pc_edited_args := None; pc_reject_reason := "";
  pc_dispatched := false; pc_dispatched_at := None |}.

Definition project_batch (b : Batch) : Batch := {|
  b_id := b_id b; b_conversation_id := b_conversation_id b; b_business_id := b_business_id b;
  b_project_id := ""; b_user_id := b_user_id b; b_message_id := ""; b_selected_platforms := [];
  b_platform_scope_set := false; b_status := b_status b; b_calls := project_call <$> b_calls b;
  b_model_messages := ""; b_iteration_idx := 0; b_created_at := b_created_at b;
  b_updated_at := 0; b_expires_at := b_expires_at b |}.

Definition ListPendingByBusiness (now : Z) (businessID userID : string) : repo (list Batch) :=
  do! ds := driver "list business approvals" (find (λ d,
      String.eqb (b_business_id d) businessID && String.eqb (b_user_id d) userID
      && status_is statusPending d
      && match b_expires_at d with Some e => (now <? e)%Z | None => false end) b_created_at) in
  se_ret (project_batch <$> ds).

(** [findOneAndUpdate] from one status to another; a miss probes the row to
    tell a missing batch from one in another status. *)
Definition transition (from to : string) (miss : StoreError) (now : Z) (batchID : string) : repo Batch :=
  do! doc := driver "transition" (findOneAndUpdate batchID (status_is from) (move to now)) in
  match doc with
  | Some d => se_ret d
  | None =>
      do! probe := driver "probe" (findOne batchID) in
      match probe with
      | None => se_err ErrBatchNotFound
      | Some _ => se_err miss
      end
  end.

Definition AtomicTransitionToResolving : Z → string → repo Batch :=
  transition statusPending statusResolving ErrBatchNotPending.

Definition AtomicTransitionResolvingToResuming : Z → string → repo Batch :=
  transition statusResolving statusResuming ErrBatchNotResolving.

Definition AtomicTransitionResumingToResolving (now : Z) (batchID : string) : repo unit :=
  do! matched := driver "update"
    (updateOne batchID (status_is statusResuming) (move statusResolving now)) in
  if matched : bool then se_ret tt
  else try! probe := findOne batchID in
       match probe with
       | Ok None => se_err ErrBatchNotFound
       | _ => se_ret tt
       end.

Definition ResetResolvingToPending (now : Z) (batchID : string) : repo unit :=
  do! _ := driver "update"
    (updateOne batchID (λ d, status_is statusResolving d && no_verdict d) (move statusPending now)) in
  se_ret tt.

(** A [$set] on the row [_id = batchID] that must exist. *)
Definition update_row (batchID : string) (f : Batch → Batch) : repo unit :=
  do! matched := driver "update" (updateOne batchID (λ _, true) f) in
  if matched : bool then se_ret tt else se_err ErrBatchNotFound.

Definition touch (now : Z) (b : Batch) : Batch :=
  set_times (b_created_at b) now (b_expires_at b) b.

Definition RecordDecisions (now : Z) (batchID : string) (calls : list PendingCall) : repo unit :=
  update_row batchID (λ b, touch now (set_calls calls b)).

Definition MarkDispatched (now : Z) (batchID callID : string) : repo unit :=
  do! _ := driver "update" (updateOne batchID (has_call callID)
    (λ b, touch now (set_calls (mark_first callID now (b_calls b)) b))) in
  se_ret tt.

Definition MarkResolved (now : Z) (batchID : string) : repo unit :=
  update_row batchID (move statusResolved now).

Definition MarkExpired (now : Z) (batchID : string) : repo unit :=
  update_row batchID (move statusExpired now).

Definition DeleteByConversationIDs (ids : list string) : repo nat :=
  if (length ids =? 0)%nat then se_ret 0
  else driver "delete by conversation ids" (deleteMany (λ d, list_mem (b_conversation_id d) ids)).

Definition DeleteByConversationID (conversationID : string) : repo nat :=
  DeleteByConversationIDs [conversationID].

Definition DeleteByBusinessID (businessID : string) : repo nat :=
  if String.eqb businessID "" then se_ret 0
  else driver "delete by business id" (deleteMany (λ d, String.eqb (b_business_id d) businessID)).

Definition ReconcileOrphanPreparing (now olderThan : Z) : repo nat :=
  let cutoff := (now - olderThan)%Z in
  driver "update" (updateMany
    (λ d, status_is statusPreparing d && (b_created_at d <? cutoff)%Z)
    (λ d, set_times (b_created_at d) now (Some now) (set_status statusExpired d))).

(** [now], [now1], [now2]: the three readings of the clock. *)
Definition ReconcileOrphanResolving (now now1 now2 olderThan : Z) : repo nat :=
  let cutoff := (now - olderThan)%Z in
  do! n1 := driver "update" (updateMany
    (λ d, status_is statusResolving d && (b_updated_at d <? cutoff)%Z && no_verdict d)
    (move statusPending now1)) in
  do! n2 := driver "update" (updateMany
    (λ d, status_is statusResuming d && (b_updated_at d <? cutoff)%Z)
    (move statusResolving now2)) in
  se_ret (n1 + n2).
End repo.

(** ** The life of one batch

    [None] is an absent row.  The steps a row may take, each under its name, with the
    clock reading it stamps; [LRemove] is a cascade delete or the TTL monitor. *)
Inductive label :=
| LInsert (b : Batch) | LPromote (now : Z) | LAbandon (now : Z) | LClaim (now : Z) | LReset (now : Z)
| LResume (now : Z) | LUnresume (now : Z) | LDecide (now : Z) (cs : list PendingCall)
| LDispatch (now : Z) (callID : string) | LResolved (now : Z) | LExpired (now : Z) | LRemove.

Inductive lifecycle : label → option Batch → option Batch → Prop :=
| L_insert b : b_status b = statusPreparing → lifecycle (LInsert b) None (Some b)
| L_promote b now : b_status b = statusPreparing →
    lifecycle (LPromote now) (Some b)
      (Some (set_times (b_created_at b) now (Some (now + pendingToolCallTTL)%Z) (set_status statusPending b)))
| L_abandon b now : b_status b = statusPreparing →
    lifecycle (LAbandon now) (Some b) (Some (set_times (b_created_at b) now (Some now) (set_status statusExpired b)))
| L_claim b now : b_status b = statusPending → lifecycle (LClaim now) (Some b) (Some (move statusResolving now b))
| L_reset b now : b_status b = statusResolving → no_verdict b = true →
    lifecycle (LReset now) (Some b) (Some (move statusPending now b))
| L_resume b now : b_status b = statusResolving → lifecycle (LResume now) (Some b) (Some (move statusResuming now b))
| L_unresume b now : b_status b = statusResuming → lifecycle (LUnresume now) (Some b) (Some (move statusResolving now b))
| L_decide b now cs : lifecycle (LDecide now cs) (Some b) (Some (touch now (set_calls cs b)))
| L_dispatch b now callID : has_call callID b = true →
    lifecycle (LDispatch now callID) (Some b) (Some (touch now (set_calls (mark_first callID now (b_calls b)) b)))
| L_resolved b now : lifecycle (LResolved now) (Some b) (Some (move statusResolved now b))
| L_expired b now : lifecycle (LExpired now) (Some b) (Some (move statusExpired now b))
| L_remove b : lifecycle LRemove (Some b) None.

(** A row takes these steps, in this order. *)
Inductive path : list label → option Batch → option Batch → Prop :=
| path_nil x : path [] x x
| path_cons l ls x y z : lifecycle l x y → path ls y z → path (l :: ls) x z.

#[export] Hint Constructors lifecycle path : hitl.

Lemma path_app ls1 ls2 x y z : path ls1 x y → path ls2 y z → path (ls1 ++ ls2) x z.
Proof. intros H1 H2. induction H1; [done|]. cbn. econstructor; eauto. Qed.

(** The row takes one of these sequences of steps. *)
Definition within (L : list (list label)) (x y : option Batch) : Prop := ∃ ls, ls ∈ L ∧ path ls x y.

#[export] Instance within_refl L : Reflexive (within ([] :: L)).
Proof. intros x. exists []. split; [set_solver|constructor]. Qed.

Lemma within_once l L x y : lifecycle l x y → [l] ∈ L → within L x y.
Proof. intros Hl Hin. exists [l]. split; [done|]. eauto with hitl. Qed.

Section refinement.
Context `{Coll Batch b_id} (R : relation (option Batch)) (id : string).

Lemma steps_driver {A} op (m : SE coll MongoError A) : steps R id m → steps R id (driver op m).
Proof. intros Hm c. unfold driver. specialize (Hm c). by destruct (m c) as [[]]. Qed.

End refinement.

Lemma status_is_true s b : status_is s b = true → b_status b = s.
Proof. apply String.eqb_eq. Qed.

(** One goal per write: that the write moves a row along the relation. *)
Ltac step_method :=
  unfold Persist, GetByBatchID, ListPendingByConversation, ListPendingByBusiness,
    AtomicTransitionToResolving, AtomicTransitionResolvingToResuming, transition,
    AtomicTransitionResumingToResolving, ResetResolvingToPending, RecordDecisions,
    MarkDispatched, MarkResolved, MarkExpired, update_row, DeleteByConversationID, DeleteByConversationIDs,
    DeleteByBusinessID, ReconcileOrphanPreparing, ReconcileOrphanResolving;
  repeat (step_calls; try match goal with |- steps _ _ (driver _ _) => apply steps_driver end);
  cbv beta in *; to_prop;
  repeat match goal with H : status_is _ _ = true |- _ => apply status_is_true in H end.

(** ** Commands: the operations a process issues against the store *)
Inductive cmd :=
| CPersist (now : Z) (b : Batch)
| CGet (now : Z) (id : string)
| CListConversation (now : Z) (conv : string)
| CListBusiness (now : Z) (biz user : string)
| CToResolving (now : Z) (id : string)
| CToResuming (now : Z) (id : string)
| CBackToResolving (now : Z) (id : string)
| CResetToPending (now : Z) (id : string)
| CRecord (now : Z) (id : string) (calls : list PendingCall)
| CDispatched (now : Z) (id call : string)
| CResolved (now : Z) (id : string)
| CExpired (now : Z) (id : string)
| CDeleteConversations (ids : list string)
| CDeleteBusiness (biz : string)
| CReconcilePreparing (now older : Z)
| CReconcileResolving (now now1 now2 older : Z)
| CTtl (now : Z).

Section commands.
Context `{Coll Batch b_id}.

(** The TTL monitor deletes rows past their [expires_at]. *)
Definition exec (k : cmd) : SE coll StoreError unit :=
  match k with
  | CPersist now b => se_void (Persist now b)
  | CGet now id => se_void (GetByBatchID now id)
  | CListConversation now conv => se_void (ListPendingByConversation now conv)
  | CListBusiness now biz user => se_void (ListPendingByBusiness now biz user)
  | CToResolving now id => se_void (AtomicTransitionToResolving now id)
  | CToResuming now id => se_void (AtomicTransitionResolvingToResuming now id)
  | CBackToResolving now id => AtomicTransitionResumingToResolving now id
  | CResetToPending now id => ResetResolvingToPending now id
  | CRecord now id calls => RecordDecisions now id calls
  | CDispatched now id call => MarkDispatched now id call
  | CResolved now id => MarkResolved now id
  | CExpired now id => MarkExpired now id
  | CDeleteConversations ids => se_void (DeleteByConversationIDs ids)
  | CDeleteBusiness biz => se_void (DeleteByBusinessID biz)
  | CReconcilePreparing now older => se_void (ReconcileOrphanPreparing now older)
  | CReconcileResolving now now1 now2 older => se_void (ReconcileOrphanResolving now now1 now2 older)
  | CTtl now => se_void (driver "ttl" (deleteMany (λ d,
      match b_expires_at d with Some e => (e <? now)%Z | None => false end)))
  end.

(** The steps a command may make row [id] take: one of these sequences. *)
Definition allowed (id : string) (k : cmd) : list (list label) :=
  let on i l := [] :: if String.eqb i id then [[l]] else [] in
  match k with
  | CPersist now b =>
      let staged := set_times now now (b_expires_at b) (set_status statusPreparing b) in
      [] :: if String.eqb (b_id b) id then [[LInsert staged]; [LInsert staged; LPromote now]] else []
  | CGet _ _ | CListConversation _ _ | CListBusiness _ _ _ => [[]]
  | CToResolving now i => on i (LClaim now)
  | CToResuming now i => on i (LResume now)
  | CBackToResolving now i => on i (LUnresume now)
  | CResetToPending now i => on i (LReset now)
  | CRecord now i cs => on i (LDecide now cs)
  | CDispatched now i call => on i (LDispatch now call)
  | CResolved now i => on i (LResolved now)
  | CExpired now i => on i (LExpired now)
  | CDeleteConversations _ | CDeleteBusiness _ | CTtl _ => [[]; [LRemove]]
  | CReconcilePreparing now _ => [[]; [LAbandon now]]
  | CReconcileResolving _ now1 now2 _ => [[]; [LReset now1]; [LUnresume now2]]
  end.

Lemma on_row i id l x y : i = id → lifecycle l x y → within ([] :: if String.eqb i id then [[l]] else []) x y.
Proof. intros -> Hl. rewrite String.eqb_refl. eapply within_once; [done|set_solver]. Qed.

Lemma find_keeps id c : docs (driver "probe" (findOne id) c).2 = docs c.
Proof.
  unfold driver. pose proof (findOne_spec id c) as Hf. destruct (findOne id c) as [[r|e] c']; [by destruct Hf|done].
Qed.

Lemma transition_allowed from to miss now i id l :
  (∀ d, b_status d = from → lifecycle l (Some d) (Some (move to now d))) →
  steps (within ([] :: if String.eqb i id then [[l]] else [])) id (transition from to miss now i).
Proof.
  intros Hl. unfold transition. apply steps_bind_read.
  - apply steps_driver, steps_findOneAndUpdate; [typeclasses eauto|]. intros Hi d Hs%status_is_true. by apply on_row, Hl.
  - intros [d|] c; [done|]. unfold se_bind. pose proof (find_keeps i c) as Hf.
    destruct (driver "probe" (findOne i) c) as [[[p|]|e] c']; exact Hf.
Qed.

(** A guarded write on one row, then nothing more. *)
Lemma update_allowed {B} i id p f l (k : bool → SE coll StoreError B) :
  (∀ d, p d = true → lifecycle l (Some d) (Some (f d))) → (∀ a c, docs (k a c).2 = docs c) →
  steps (within ([] :: if String.eqb i id then [[l]] else [])) id (se_bind (driver "update" (updateOne i p f)) k).
Proof.
  intros Hl Hk. apply steps_bind_read; [|done]. apply steps_driver, steps_updateOne; [typeclasses eauto|].
  intros Hi d Hp. by apply on_row, Hl.
Qed.

Lemma update_row_allowed i id f l :
  (∀ d, lifecycle l (Some d) (Some (f d))) → steps (within ([] :: if String.eqb i id then [[l]] else [])) id (update_row i f).
Proof. intros Hl. apply update_allowed; [by intros|]. by intros [] c. Qed.

(** What a write to many documents did to one row. *)
Definition rewrote (p : Batch → bool) (f : Batch → Batch) (x y : option Batch) : Prop :=
  y = x ∨ ∃ d, x = Some d ∧ p d = true ∧ y = Some (f d).

#[local] Instance rewrote_refl p f : Reflexive (rewrote p f).
Proof. by left. Qed.

Lemma update_many_row op id p f : steps (rewrote p f) id (driver op (updateMany p f)).
Proof. apply steps_driver, steps_updateMany; [typeclasses eauto|]. intros d Hp. right. eauto. Qed.

Lemma delete_many_allowed op p id : steps (within [[]; [LRemove]]) id (driver op (deleteMany p)).
Proof.
  apply steps_driver, steps_deleteMany; [typeclasses eauto|]. intros d _. eapply within_once; [apply L_remove|set_solver].
Qed.

Lemma persist_allowed now b id : steps (within (allowed id (CPersist now b))) id (Persist now b).
Proof.
  intros c. unfold Persist, allowed. destruct (String.eqb (b_conversation_id b) ""); [apply within_refl|].
  destruct (String.eqb (b_business_id b) ""); [apply within_refl|].
  set (b0 := set_times now now (b_expires_at b) (set_status statusPreparing b)). unfold se_bind, driver.
  destruct (String.eqb_spec (b_id b) id) as [<-|Hne].
  2: { pose proof (steps_insertOne (=) id b0 (λ E, False_ind _ (Hne E)) c) as Hi.
    destruct (insertOne b0 c) as [[[]|e] c1]; cbn [snd] in *; [|rewrite Hi; apply within_refl].
    match goal with |- context [updateOne ?i ?p ?f c1] =>
      pose proof (steps_updateOne (=) id i p f (λ E, False_ind _ (Hne E)) c1) as Hu;
      destruct (updateOne i p f c1) as [[m|e] c2] end; cbn [snd] in *; [destruct (negb m)|]; cbn; rewrite Hi, Hu; apply within_refl. }
  pose proof (insertOne_spec b0 c) as Hi. destruct (insertOne b0 c) as [[[]|e] c1].
  - destruct Hi as [Hn E1]. change (b_id b0) with (b_id b) in *.
    assert (path [LInsert b0] (docs c !! b_id b) (docs c1 !! b_id b)) as Hp
      by (rewrite Hn, E1, lookup_insert_eq; econstructor; [by apply L_insert|constructor]).
    match goal with |- context [updateOne ?i ?p ?f c1] =>
      pose proof (updateOne_spec i p f c1) as Hu; pose proof (upd_one_lookup i p f (docs c1) i) as Hl;
      destruct (updateOne i p f c1) as [r c2] end.
    rewrite decide_True in Hl by done. rewrite E1, lookup_insert_eq in Hl. cbn in Hl.
    assert (within ([] :: [[LInsert b0]; [LInsert b0; LPromote now]]) (docs c !! b_id b) (docs c2 !! b_id b)) as Hw.
    { assert (docs c2 = docs c1 ∨ docs c2 !! b_id b = Some (set_times (b_created_at b0) now (Some (now + pendingToolCallTTL)%Z) (set_status statusPending b0))) as [->|E2].
      { rewrite <-E1 in Hl. destruct r as [m|e]; [destruct Hu as [_ Hu]; right; rewrite Hu; exact Hl|]. destruct Hu as [->|Hu]; [by left|right; rewrite Hu; exact Hl]. }
      - exists [LInsert b0]. split; [set_solver|done].
      - exists [LInsert b0; LPromote now]. split; [set_solver|]. rewrite E2, Hn.
        econstructor; [by apply L_insert|]. econstructor; [by apply L_promote|constructor]. }
    destruct r as [[]|e]; exact Hw.
  - cbn. destruct Hi as [->|[Hn ->]]; [apply within_refl|]. change (b_id b0) with (b_id b) in *.
    exists [LInsert b0]. split; [set_solver|]. rewrite Hn, lookup_insert_eq. econstructor; [by apply L_insert|constructor].
Qed.

Lemma reconcile_allowed now now1 now2 older id :
  steps (within [[]; [LReset now1]; [LUnresume now2]]) id (ReconcileOrphanResolving now now1 now2 older).
Proof.
  intros c. unfold ReconcileOrphanResolving, se_bind.
  match goal with |- context [driver "update" (updateMany ?p ?f) c] =>
    pose proof (update_many_row "update" id p f c) as H1; destruct (driver "update" (updateMany p f) c) as [r c1] end.
  cbn [snd] in H1. assert (∀ y, rewrote (λ d, status_is statusResuming d && (b_updated_at d <? now - older)%Z) (move statusResolving now2) (docs c1 !! id) y →
    within [[]; [LReset now1]; [LUnresume now2]] (docs c !! id) y) as Hw.
  { intros y Hy. destruct H1 as [E1|(d & Ed & [[Hs _]%andb_true_iff Hv]%andb_true_iff & E1)]; rewrite E1 in Hy.
    - destruct Hy as [->|(d & -> & [Hs _]%andb_true_iff & ->)]; [apply within_refl|].
      eapply within_once; [apply L_unresume; by apply status_is_true|set_solver].
    - apply status_is_true in Hs. rewrite Ed. destruct Hy as [->|(d' & [= <-] & [Hs' _]%andb_true_iff & _)]; [|done].
      eapply within_once; [by apply L_reset|set_solver]. }
  destruct r as [n|e]; [|by apply Hw; left].
  match goal with |- context [driver "update" (updateMany ?p ?f) c1] =>
    pose proof (update_many_row "update" id p f c1) as H2; destruct (driver "update" (updateMany p f) c1) as [r2 c2] end.
  apply Hw in H2. by destruct r2.
Qed.

(** Every method of the repository makes a row take the steps it is allowed. *)
Lemma exec_allowed k id : steps (within (allowed id k)) id (exec k).
Proof.
  destruct k; cbn [exec allowed]; try lazymatch goal with |- steps _ _ (se_void _) => apply steps_void end.
  - apply persist_allowed.
  - apply steps_bind_read; [apply steps_driver, steps_findOne; typeclasses eauto|]. by intros [] ?.
  - apply steps_bind_read; [apply steps_driver, steps_find; typeclasses eauto|done].
  - apply steps_bind_read; [apply steps_driver, steps_find; typeclasses eauto|done].
  - apply transition_allowed. by constructor.
  - apply transition_allowed. by constructor.
  - unfold AtomicTransitionResumingToResolving. apply update_allowed; [intros d Hd%status_is_true; by constructor|]. intros [] c; [done|]. unfold se_try.
    pose proof (findOne_spec id0 c) as Hf. destruct (findOne id0 c) as [[[]|] c']; [by destruct Hf..|done].
  - unfold ResetResolvingToPending. apply update_allowed; [intros d [Hd%status_is_true Hv]%andb_true_iff; by constructor|done].
  - apply update_row_allowed. constructor.
  - unfold MarkDispatched. apply update_allowed; [by constructor|done].
  - apply update_row_allowed. constructor.
  - apply update_row_allowed. constructor.
  - unfold DeleteByConversationIDs. case_match; [apply steps_ret; typeclasses eauto|apply delete_many_allowed].
  - unfold DeleteByBusinessID. case_match; [apply steps_ret; typeclasses eauto|apply delete_many_allowed].
  - apply steps_driver, steps_updateMany; [typeclasses eauto|]. intros d [Hs%status_is_true _]%andb_true_iff.
    eapply within_once; [by apply L_abandon|set_solver].
  - apply reconcile_allowed.
  - apply delete_many_allowed.
Qed.

(** A history: commands one after another, by any number of processes. *)
Fixpoint run (ks : list cmd) (c : coll) : coll :=
  match ks with
  | [] => c
  | k :: ks' => run ks' (exec k c).2
  end.

Lemma run_steps R `{!PreOrder R} id ks :
  (∀ k, k ∈ ks → steps R id (exec k)) → ∀ c, R (docs c !! id) (docs (run ks c) !! id).
Proof.
  induction ks as [|k ks IH]; intros Hk c; simpl; [reflexivity|].
  etrans; [|apply IH; set_solver]. apply (Hk k). set_solver.
Qed.

(** C16: refinement: along any history of operations, errors and half-applied writes
    included, every batch takes the steps its operations are allowed, in their order,
    and no other: a claim only pending to resolving, a resume only resolving to
    resuming and back, the reset and the sweep back to pending only without a recorded
    verdict, a mark only its own, each at most once per operation and only on the row
    it names. *)
Theorem store_refines_lifecycle ks id c :
  ∃ lss, Forall2 (λ k ls, ls ∈ allowed id k) ks lss ∧ path (concat lss) (docs c !! id) (docs (run ks c) !! id).
Proof.
  revert c. induction ks as [|k ks IH]; intros c; cbn.
  - exists []. split; constructor.
  - destruct (exec_allowed k id c) as (ls & Hin & Hp). destruct (IH (exec k c).2) as (lss & Hall & Hrest).
    exists (ls :: lss). split; [by constructor|]. cbn. by eapply path_app.
Qed.

(** *** Well-formed rows *)

Definition live_status (s : string) : bool :=
  list_mem s [statusPending; statusResolving; statusResuming].

Definition known_status (s : string) : bool :=
  list_mem s [statusPreparing; statusPending; statusResolving; statusResuming;
              statusResolved; statusExpired].

Definition row_wf (x : option Batch) : Prop :=
  match x with
  | None => True
  | Some b => known_status (b_status b) = true
              ∧ (live_status (b_status b) = true → is_Some (b_expires_at b))
  end.

Lemma lifecycle_wf l x y : lifecycle l x y → row_wf x → row_wf y.
Proof.
  destruct 1; simpl; try done;
    repeat match goal with Hs : b_status _ = _ |- _ => rewrite Hs end; try done; naive_solver.
Qed.

Lemma path_wf ls x y : path ls x y → row_wf x → row_wf y.
Proof. induction 1; eauto using lifecycle_wf. Qed.

#[local] Instance row_wf_impl : PreOrder (λ x y, row_wf x → row_wf y).
Proof. split; [by intros x|intros x y z; auto]. Qed.

Lemma exec_wf k id : steps (λ x y, row_wf x → row_wf y) id (exec k).
Proof. intros c. destruct (exec_allowed k id c) as (ls & _ & Hp). exact (path_wf _ _ _ Hp). Qed.

(** From an empty collection, after any history of operations, every row
    has one of the six statuses, and a row a caller may still act on (pending,
    resolving, resuming) carries a deadline, so expiry virtualisation and the
    TTL sweep both see it. *)
Theorem live_rows_have_deadline ks c id b :
  docs c = ∅ → docs (run ks c) !! id = Some b →
  known_status (b_status b) = true
  ∧ (live_status (b_status b) = true → is_Some (b_expires_at b)).
Proof.
  intros Hc Hb. change (row_wf (Some b)). rewrite <- Hb.
  pose proof (run_steps (λ x y, row_wf x → row_wf y) id ks (λ k _, exec_wf k id) c) as Hrun. cbn beta in Hrun.
  apply Hrun. by rewrite Hc, lookup_empty.
Qed.

(** *** Exactly one winner *)

(** A [/resolve] wins when its claim returns the batch. *)
Definition won_resolve (id : string) (k : cmd) (c : coll) : nat :=
  match k with
  | CToResolving _ id' => if decide (id' = id) then if is_ok (exec k c).1 then 1 else 0 else 0
  | _ => 0
  end.

Definition won_resume (id : string) (k : cmd) (c : coll) : nat :=
  match k with
  | CToResuming _ id' => if decide (id' = id) then if is_ok (exec k c).1 then 1 else 0 else 0
  | _ => 0
  end.

Fixpoint wins (won : cmd → coll → nat) (ks : list cmd) (c : coll) : nat :=
  match ks with
  | [] => 0
  | k :: ks' => won k c + wins won ks' (exec k c).2
  end.

(** The commands that can reopen the batch for another resolve: the reset
    after a failed recording, the start-up sweep, removal of the row. *)
Definition reopens_resolve (id : string) (k : cmd) : bool :=
  match k with
  | CResetToPending _ id' => bool_decide (id' = id)
  | CReconcileResolving _ _ _ _ | CDeleteConversations _ | CDeleteBusiness _ | CTtl _ => true
  | _ => false
  end.

Definition reopens_resume (id : string) (k : cmd) : bool :=
  match k with
  | CBackToResolving _ id' => bool_decide (id' = id)
  | CReconcileResolving _ _ _ _ | CDeleteConversations _ | CDeleteBusiness _ | CTtl _ => true
  | _ => false
  end.

(** How many wins the row still allows without being reopened. *)
Definition open_for (ss : list string) (x : option Batch) : nat :=
  match x with
  | None => 1
  | Some b => if list_mem (b_status b) ss then 1 else 0
  end.

Definition before_resolving : list string := [statusPreparing; statusPending].
Definition before_resuming : list string := [statusPreparing; statusPending; statusResolving].

Definition shrinks (ss : list string) (x y : option Batch) : Prop := open_for ss y ≤ open_for ss x.

#[export] Instance shrinks_preorder ss : PreOrder (shrinks ss).
Proof. split; unfold shrinks; [intros x; lia|intros x y z; lia]. Qed.

Lemma open_le_1 ss x : open_for ss x ≤ 1.
Proof. destruct x; simpl; [case_match|]; lia. Qed.

Ltac shrink :=
  unfold shrinks, open_for; simpl;
  repeat match goal with Hs : b_status _ = _ |- _ => rewrite Hs end;
  repeat case_match; try done; try lia.

Lemma exec_shrinks_resolve k id :
  reopens_resolve id k = false → steps (shrinks before_resolving) id (exec k).
Proof.
  destruct k; simpl; intros; try done; step_method; subst; try (by rewrite bool_decide_true in *);
    shrink.
Qed.

Lemma exec_shrinks_resume k id :
  reopens_resume id k = false → steps (shrinks before_resuming) id (exec k).
Proof.
  destruct k; simpl; intros; try done; step_method; subst; shrink.
Qed.

Lemma transition_spec from to miss now id c :
  match transition from to miss now id c with
  | (Ok d, c') => ∃ d0, docs c !! id = Some d0 ∧ b_status d0 = from ∧ d = move to now d0
                        ∧ docs c' = <[id := d]> (docs c)
  | (Err e, c') => match e with ErrDriver _ => True | _ => docs c' = docs c end
                   ∧ (e = ErrBatchNotFound → e ≠ miss → docs c !! id = None)
                   ∧ (e = miss → match miss with ErrDriver _ => False | ErrBatchNotFound => False | _ => True end →
                      ∃ d0, docs c !! id = Some d0 ∧ b_status d0 ≠ from)
  end.
Proof.
  unfold transition, se_bind, driver.
  pose proof (findOneAndUpdate_spec id (status_is from) (move to now) c) as Hf.
  destruct (findOneAndUpdate id (status_is from) (move to now) c) as [[r|e] c1]; simpl.
  2: { split_and!; [done|done|]. by intros <-. }
  destruct Hf as [E Hr]. unfold hit in Hr.
  destruct (docs c !! id) as [d0|] eqn:Ed.
  - destruct (status_is from d0) eqn:Hs; subst r; simpl.
    + apply status_is_true in Hs. exists d0. split_and!; try done.
      rewrite E. unfold upd_one, status_is. rewrite Ed, Hs, String.eqb_refl. done.
    + pose proof (findOne_spec id c1) as Hp. rewrite upd_one_miss in E by (unfold hit; by rewrite Ed).
      destruct (findOne id c1) as [[pr|e] c2]; simpl; [|split_and!; [done|done|by intros <-]].
      destruct Hp as [Hp Hp2]. rewrite E, Ed in Hp. subst pr. simpl.
      apply String.eqb_neq in Hs. rewrite Hp2, E.
      split_and!; [by destruct miss|congruence|]. intros _ _. eauto.
  - subst r. simpl. pose proof (findOne_spec id c1) as Hp.
    rewrite upd_one_miss in E by (unfold hit; by rewrite Ed).
    destruct (findOne id c1) as [[pr|e] c2]; simpl; [|split_and!; [done|done|by intros <-]].
    destruct Hp as [Hp Hp2]. rewrite E, Ed in Hp. subst pr. simpl.
    rewrite Hp2, E. split_and!; [done|done|]. by intros <-.
Qed.

Lemma win_closes ss from to miss now id c b c' :
  list_mem from ss = true → list_mem to ss = false →
  transition from to miss now id c = (Ok b, c') →
  open_for ss (docs c !! id) = 1 ∧ open_for ss (docs c' !! id) = 0.
Proof.
  intros H1 H2 Ht. pose proof (transition_spec from to miss now id c) as Hs. rewrite Ht in Hs.
  destruct Hs as (d0 & Ed & Es & -> & E). rewrite E, Ed, lookup_insert_eq. simpl.
  by rewrite Es, H1, H2.
Qed.

Lemma wins_bound ss (won : cmd → coll → nat) (reopens : cmd → bool) id ks :
  (∀ k c, reopens k = false →
     won k c + open_for ss (docs (exec k c).2 !! id) ≤ open_for ss (docs c !! id)) →
  (∀ k c, reopens k = true → won k c = 0) →
  ∀ c, wins won ks c ≤ open_for ss (docs c !! id) + length (filterb reopens ks).
Proof.
  intros Hstep Hre. induction ks as [|k ks IH]; intros c; simpl; [lia|].
  specialize (IH (exec k c).2). destruct (reopens k) eqn:Hk; simpl.
  - rewrite (Hre k c Hk). pose proof (open_le_1 ss (docs (exec k c).2 !! id)). lia.
  - specialize (Hstep k c Hk). lia.
Qed.

(** C4: exactly one winner. Whatever operations any number of processes run
    against a batch, in whatever order and with whatever driver faults, the
    number of [/resolve] calls whose claim succeeds is at most one more than
    the number of operations that may reopen it (the compensating reset, the
    start-up sweep, deletion of the row), and the same bound holds for
    [/resume] claims; without such an operation two racing calls can never
    both win. *)
Theorem exactly_one_winner id ks c :
  wins (won_resolve id) ks c ≤ 1 + length (filterb (reopens_resolve id) ks)
  ∧ wins (won_resume id) ks c ≤ 1 + length (filterb (reopens_resume id) ks).
Proof.
  split.
  - etrans; [apply (wins_bound before_resolving _ (reopens_resolve id) id)|
             pose proof (open_le_1 before_resolving (docs c !! id)); lia].
    + intros k c0 Hk. pose proof (exec_shrinks_resolve k id Hk c0) as Hs. unfold shrinks in Hs.
      destruct k; cbn [won_resolve]; try lia. destruct (decide _) as [->|]; [|lia].
      unfold exec, se_void, AtomicTransitionToResolving in *.
      destruct (transition _ _ _ now id c0) as [[b|e] c1] eqn:Et; simpl in *; [|lia].
      eapply (win_closes before_resolving) in Et as [-> ->]; done.
    + by intros [].
  - etrans; [apply (wins_bound before_resuming _ (reopens_resume id) id)|
             pose proof (open_le_1 before_resuming (docs c !! id)); lia].
    + intros k c0 Hk. pose proof (exec_shrinks_resume k id Hk c0) as Hs. unfold shrinks in Hs.
      destruct k; cbn [won_resume]; try lia. destruct (decide _) as [->|]; [|lia].
      unfold exec, se_void, AtomicTransitionResolvingToResuming in *.
      destruct (transition _ _ _ now id c0) as [[b|e] c1] eqn:Et; simpl in *; [|lia].
      eapply (win_closes before_resuming) in Et as [-> ->]; done.
    + by intros [].
Qed.

(** *** Recorded verdicts survive *)

Definition writes_calls (id : string) (k : cmd) : bool :=
  match k with
  | CRecord _ id' _ => bool_decide (id' = id)
  | CDeleteConversations _ | CDeleteBusiness _ | CTtl _ => true
  | _ => false
  end.

Definition decisions (b : Batch) : list (string * string * gomap * string) :=
  (λ c, (pc_call_id c, pc_verdict c, pc_edited_args c, pc_reject_reason c)) <$> b_calls b.

(** A row holding a verdict past pending keeps its decisions and never goes
    back to pending. *)
Definition decided (x : option Batch) : Prop :=
  match x with
  | Some b => no_verdict b = false ∧ list_mem (b_status b) before_resolving = false
  | None => False
  end.

Definition keeps (x y : option Batch) : Prop :=
  decided x → decided y ∧ (decisions <$> y) = (decisions <$> x).

#[export] Instance keeps_preorder : PreOrder keeps.
Proof. split; [by intros x|]. intros x y z H1 H2 Hx. destruct (H1 Hx), (H2); [done|]. split; congruence. Qed.

Lemma mark_first_decisions callID now cs :
  (λ c, (pc_call_id c, pc_verdict c, pc_edited_args c, pc_reject_reason c)) <$> mark_first callID now cs
  = (λ c, (pc_call_id c, pc_verdict c, pc_edited_args c, pc_reject_reason c)) <$> cs.
Proof.
  induction cs as [|c cs IH]; [done|]. cbn [mark_first].
  destruct (String.eqb (pc_call_id c) callID); [done|]. rewrite !fmap_cons. by rewrite IH.
Qed.

Lemma mark_first_no_verdict callID now b :
  no_verdict (touch now (set_calls (mark_first callID now (b_calls b)) b)) = no_verdict b.
Proof.
  unfold no_verdict. cbn. induction (b_calls b) as [|c cs IH]; cbn; [done|].
  destruct (String.eqb _ _); cbn; [done|]. by rewrite IH.
Qed.

Lemma exec_keeps k id : writes_calls id k = false → steps keeps id (exec k).
Proof.
  destruct k; cbn [writes_calls exec]; intros; try done; step_method; subst; try done;
    unfold keeps; simpl; try (intros []; done);
    intros [Hn Hs];
    repeat match goal with He : b_status _ = _ |- _ => rewrite He in Hs end; try done.
  all: try (by rewrite bool_decide_true in *).
  all: try (change (no_verdict (move _ _ d)) with (no_verdict d)); try congruence; try by auto.
  rewrite mark_first_no_verdict. split; [done|]. unfold decisions. simpl.
  by rewrite mark_first_decisions.
Qed.

(** C17: no recorded decision is lost: once a batch past pending holds a
    verdict, no reset, start-up sweep, compensation, claim, dispatch mark or
    terminal transition, faulty or not, changes the decisions of any call or
    returns the batch to pending; only recording again or deleting the row
    can. *)
Theorem verdicts_survive ks c id b :
  docs c !! id = Some b → no_verdict b = false →
  b_status b ≠ statusPreparing → b_status b ≠ statusPending →
  (∀ k, k ∈ ks → writes_calls id k = false) →
  ∃ b', docs (run ks c) !! id = Some b' ∧ decisions b' = decisions b
        ∧ b_status b' ≠ statusPending.
Proof.
  intros Hb Hv Hs1 Hs2 Hks.
  assert (keeps (docs c !! id) (docs (run ks c) !! id)) as Hk.
  { apply (run_steps keeps). intros k Hin. apply exec_keeps. auto. }
  rewrite Hb in Hk. destruct Hk as [Hd He].
  { split; [done|]. apply list_mem_false. unfold before_resolving. set_solver. }
  destruct (docs (run ks c) !! id) as [b'|]; [|done]. exists b'.
  simpl in He. injection He as He. destruct Hd as [_ Hd%list_mem_false].
  split_and!; [done|done|]. intros E. apply Hd. rewrite E. unfold before_resolving. set_solver.
Qed.

(** *** Persist, then read *)

Lemma persist_spec now b c b' c' :
  Persist now b c = (Ok b', c') →
  (b_conversation_id b ≠ "" ∧ b_business_id b ≠ "")
  ∧ docs c !! b_id b = None
  ∧ b' = set_times now now (Some (now + pendingToolCallTTL)%Z) (set_status statusPending b)
  ∧ docs c' = <[b_id b := b']> (docs c).
Proof.
  unfold Persist. destruct (String.eqb_spec (b_conversation_id b) "") as [|Hc]; [done|].
  destruct (String.eqb_spec (b_business_id b) "") as [|Hb]; [done|].
  set (b0 := set_times now now (b_expires_at b) (set_status statusPreparing b)).
  unfold se_bind, driver.
  pose proof (insertOne_spec b0 c) as Hi. destruct (insertOne b0 c) as [[[]|e] c1]; [|done].
  destruct Hi as [Hn E1].
  match goal with |- context [updateOne ?id ?p ?f c1] =>
    pose proof (updateOne_spec id p f c1) as Hu; destruct (updateOne id p f c1) as [[m|e] c2]; [|done]
  end.
  destruct Hu as [Hm E2]. destruct m; [|done]. simpl. intros [= <- <-].
  assert (docs c2 = <[b_id b := set_times now now (Some (now + pendingToolCallTTL)%Z)
    (set_status statusPending b)]> (docs c)) as E.
  { rewrite E2, E1. unfold upd_one. simpl. rewrite lookup_insert_eq.
    apply insert_insert_eq. }
  done.
Qed.

(** [Persist] refuses a batch without conversation or business and never
    overwrites a row; when it succeeds the stored row is the batch stamped
    pending with a deadline 24 hours ahead, and every later read returns
    exactly that row, shown as expired strictly after the deadline. *)
Theorem persist_then_get now b c b' c' :
  Persist now b c = (Ok b', c') →
  b_conversation_id b ≠ "" ∧ b_business_id b ≠ ""
  ∧ docs c !! b_id b = None
  ∧ b' = set_times now now (Some (now + pendingToolCallTTL)%Z) (set_status statusPending b)
  ∧ docs c' = <[b_id b := b']> (docs c)
  ∧ ∀ later, match GetByBatchID later (b_id b) c' with
             | (Ok d, c'') => docs c'' = docs c'
                 ∧ d = if (now + pendingToolCallTTL <? later)%Z then set_status statusExpired b' else b'
             | (Err e, _) => e = ErrDriver "find"
             end.
Proof.
  intros Hp. destruct (persist_spec _ _ _ _ _ Hp) as ([Hc Hb] & Hn & -> & E). clear Hp.
  split_and!; [done|done|done|done|done|]. intros later.
  unfold GetByBatchID, se_bind, driver. pose proof (findOne_spec (b_id b) c') as Hf.
  destruct (findOne (b_id b) c') as [[d|e] c3]; [|done].
  destruct Hf as [-> E3]. rewrite E, lookup_insert_eq. simpl. split; [congruence|].
  unfold virtualizeExpiry. simpl. done.
Qed.
End commands.

(** ** Functional specifications for the store's clients *)
Section specs.
Context `{Coll Batch b_id}.

Lemma get_spec now id c :
  match GetByBatchID now id c with
  | (Ok d, c') => docs c' = docs c ∧ ∃ d0, docs c !! id = Some d0 ∧ d = virtualizeExpiry now d0
  | (Err e, c') => docs c' = docs c ∧ (e = ErrBatchNotFound → docs c !! id = None)
  end.
Proof.
  unfold GetByBatchID, se_bind, driver. pose proof (findOne_spec id c) as Hf.
  destruct (findOne id c) as [[d|e] c1]; [|done]. destruct Hf as [-> E].
  destruct (docs c !! id) as [d|] eqn:Ed; simpl; rewrite E; eauto.
Qed.

Lemma virtualize_not_expired now d :
  b_status (virtualizeExpiry now d) ≠ statusExpired → virtualizeExpiry now d = d.
Proof. unfold virtualizeExpiry. repeat case_match; try done. Qed.

Lemma record_spec now id cs c :
  let row' := (λ b, touch now (set_calls cs b)) <$> docs c !! id in
  match RecordDecisions now id cs c with
  | (Ok _, c') => ∃ b, docs c !! id = Some b ∧ docs c' = <[id := touch now (set_calls cs b)]> (docs c)
  | (Err e, c') => (∀ k, k ≠ id → docs c' !! k = docs c !! k)
                   ∧ (docs c' !! id = docs c !! id ∨ docs c' !! id = row')
  end.
Proof.
  unfold RecordDecisions, update_row, se_bind, driver.
  match goal with |- context [updateOne id ?p ?f c] =>
    pose proof (updateOne_spec id p f c) as Hu;
    pose proof (λ k, upd_one_lookup id p f (docs c) k) as Hl;
    destruct (updateOne id p f c) as [[m|e] c1]
  end.
  - destruct Hu as [Hm E]. unfold hit in Hm. destruct (docs c !! id) as [b|] eqn:Ed; subst m; simpl.
    + exists b. split; [done|]. rewrite E. unfold upd_one. by rewrite Ed.
    + rewrite upd_one_miss in E by (unfold hit; by rewrite Ed). rewrite E, Ed. auto.
  - simpl. destruct Hu as [E|E]; rewrite E; [by auto|]. split.
    + intros k Hk. by rewrite Hl, decide_False.
    + right. by rewrite Hl, decide_True.
Qed.

Lemma reset_spec now id c :
  let c' := (ResetResolvingToPending now id c).2 in
  (∀ k, k ≠ id → docs c' !! k = docs c !! k)
  ∧ (docs c' !! id = docs c !! id
     ∨ ∃ b, docs c !! id = Some b ∧ b_status b = statusResolving ∧ no_verdict b = true
            ∧ docs c' !! id = Some (move statusPending now b)).
Proof.
  unfold ResetResolvingToPending, se_bind, driver.
  match goal with |- context [updateOne id ?p ?f c] =>
    pose proof (updateOne_spec id p f c) as Hu;
    pose proof (λ k, upd_one_lookup id p f (docs c) k) as Hl;
    destruct (updateOne id p f c) as [r c1]
  end.
  assert (docs c1 = docs c ∨ docs c1 = upd_one id (λ d, status_is statusResolving d && no_verdict d)
    (move statusPending now) (docs c)) as Hd by (destruct r; naive_solver).
  destruct r as [m|e]; simpl; (destruct Hd as [E|E]; rewrite E; [by auto|]); (split;
    [intros k Hk; by rewrite Hl, decide_False|]);
    rewrite Hl, decide_True by done; destruct (docs c !! id) as [b|]; simpl; auto;
    destruct (status_is statusResolving b && no_verdict b) eqn:Eb; auto;
    to_prop; right; exists b; split_and!; auto; by apply status_is_true.
Qed.

(** A reset that reports no error reopened an undecided row. *)
Lemma reset_ok now id c b :
  docs c !! id = Some b → is_ok (ResetResolvingToPending now id c).1 = true →
  b_status b = statusResolving → no_verdict b = true →
  docs (ResetResolvingToPending now id c).2 !! id = Some (move statusPending now b).
Proof.
  intros Hb Hok Hs Hv. unfold ResetResolvingToPending, se_bind, driver in *.
  match goal with |- context [updateOne id ?p ?f c] =>
    pose proof (updateOne_spec id p f c) as Hu;
    pose proof (upd_one_lookup id p f (docs c) id) as Hl;
    destruct (updateOne id p f c) as [[m|e] c1]; [|done]
  end.
  simpl. destruct Hu as [_ ->]. rewrite Hl, decide_True, Hb by done. simpl. unfold status_is. by rewrite Hs, Hv.
Qed.

(** A row a caller may still act on at [now]. *)
Definition live_at (now : Z) (b : Batch) : bool :=
  live_status (b_status b) && match b_expires_at b with Some e => (now <=? e)%Z | None => true end.

Lemma virtualize_cases now d :
  (live_at now d = true ∧ virtualizeExpiry now d = d)
  ∨ (live_at now d = false ∧ live_status (b_status (virtualizeExpiry now d)) = false).
Proof.
  unfold live_at, virtualizeExpiry.
  assert (negb (status_is statusPending d) && negb (status_is statusResolving d)
      && negb (status_is statusResuming d) = negb (live_status (b_status d))) as Hl.
  { unfold live_status, status_is, list_mem.
    destruct (String.eqb_spec (b_status d) statusPending) as [->|?]; [done|].
    destruct (String.eqb_spec (b_status d) statusResolving) as [->|?]; [done|].
    destruct (String.eqb_spec (b_status d) statusResuming) as [->|?]; [done|].
    rewrite bool_decide_eq_false_2; [done|]. set_solver. }
  destruct (live_status (b_status d)) eqn:E; destruct (b_expires_at d) as [e|]; rewrite ?Hl; cbn; rewrite ?E; auto.
  destruct (e <? now)%Z eqn:H1; destruct (now <=? e)%Z eqn:H2; to_prop; auto; lia.
Qed.

(** The live rows a conversation's listing shows are exactly the live rows. *)
Lemma list_conversation_spec now cid c :
  match ListPendingByConversation now cid c with
  | (Ok l, c') => docs c' = docs c ∧ ∀ b, (b ∈ l ∧ live_status (b_status b) = true)
      ↔ ((∃ id, docs c !! id = Some b) ∧ b_conversation_id b = cid ∧ live_at now b = true)
  | (Err _, c') => docs c' = docs c
  end.
Proof.
  unfold ListPendingByConversation, se_bind, driver.
  match goal with |- context [find ?p ?k c] => pose proof (find_spec p k c) as Hf; destruct (find p k c) as [[l|e] c1] end;
    [|done].
  destruct Hf as (Hd & Hl & _). split; [done|]. intros b. rewrite list_elem_of_fmap.
  setoid_rewrite Hl. setoid_rewrite elem_of_filterb. setoid_rewrite values_elem.
  split.
  - intros [(d & -> & [Hc Hs]%andb_true_iff & Hin) Hlive]. apply String.eqb_eq in Hc.
    destruct (virtualize_cases now d) as [[? ->]|[_ Hn]]; [done|]. by rewrite Hn in Hlive.
  - intros (Hin & Hc & Hlive). destruct (virtualize_cases now b) as [[_ Hv]|[Hn _]]; [|by rewrite Hn in Hlive].
    unfold live_at in Hlive. apply andb_true_iff in Hlive as [Hlive _]. split; [|done]. exists b.
    rewrite Hc, String.eqb_refl. by rewrite Hv.
Qed.

(** A claim, whatever its outcome, leaves the row or moves it to [to]. *)
Lemma transition_effect from to miss now id c :
  let c' := (transition from to miss now id c).2 in
  (∀ k, k ≠ id → docs c' !! k = docs c !! k)
  ∧ (docs c' !! id = docs c !! id
     ∨ ∃ b, docs c !! id = Some b ∧ b_status b = from ∧ docs c' !! id = Some (move to now b)).
Proof.
  unfold transition, se_bind, driver.
  pose proof (findOneAndUpdate_spec id (status_is from) (move to now) c) as Hf.
  pose proof (λ k, upd_one_lookup id (status_is from) (move to now) (docs c) k) as Hl.
  destruct (findOneAndUpdate id (status_is from) (move to now) c) as [r c1].
  assert (docs c1 = docs c ∨ docs c1 = upd_one id (status_is from) (move to now) (docs c)) as Hd
    by (destruct r; naive_solver).
  assert ((∀ k, k ≠ id → docs c1 !! k = docs c !! k)
     ∧ (docs c1 !! id = docs c !! id
        ∨ ∃ b, docs c !! id = Some b ∧ b_status b = from ∧ docs c1 !! id = Some (move to now b))) as Hgoal.
  { destruct Hd as [E|E]; rewrite E; [by auto|]. split; [intros k Hk; by rewrite Hl, decide_False|].
    rewrite Hl, decide_True by done. destruct (docs c !! id) as [b|]; simpl; auto.
    destruct (status_is from b) eqn:Eb; auto. right. exists b. by apply status_is_true in Eb. }
  destruct r as [[d|]|e]; [exact Hgoal| |exact Hgoal].
  pose proof (findOne_spec id c1) as Hp. destruct (findOne id c1) as [[[p|]|e] c2]; simpl in *;
    [destruct Hp as [_ ->]|destruct Hp as [_ ->]|rewrite Hp]; done.
Qed.
End specs.

(** ** The theorems at concrete histories *)
Section examples.
#[local] Instance demo_coll : Coll Batch b_id := scripted_coll b_id.

Definition demo_call : PendingCall := {|
  pc_call_id := "c1"; pc_tool_name := "telegram__send_channel_post";
  pc_arguments := Some [("text", GStr "hi")]; pc_floor_at_pause := "manual"; pc_verdict := "";
  pc_edited_args := None; pc_reject_reason := ""; pc_dispatched := false; pc_dispatched_at := None |}.

Definition demo_verdict : PendingCall := {|
  pc_call_id := "c1"; pc_tool_name := "telegram__send_channel_post";
  pc_arguments := Some [("text", GStr "hi")]; pc_floor_at_pause := "manual"; pc_verdict := "approve";
  pc_edited_args := None; pc_reject_reason := ""; pc_dispatched := false; pc_dispatched_at := None |}.

Definition demo_batch : Batch := {|
  b_id := "b1"; b_conversation_id := "conv"; b_business_id := "biz"; b_project_id := "";
  b_user_id := "u"; b_message_id := "m"; b_selected_platforms := []; b_platform_scope_set := false;
  b_status := ""; b_calls := [demo_call]; b_model_messages := ""; b_iteration_idx := 0;
  b_created_at := 0; b_updated_at := 0; b_expires_at := None |}.

Definition empty_coll (script : list fault) : @coll _ _ demo_coll := (∅, script).

Definition demo_pending : Batch :=
  set_times 5 5 (Some (5 + pendingToolCallTTL)%Z) (set_status statusPending demo_batch).

Lemma persist_then_get_witness :
  docs (Persist 5 demo_batch (empty_coll [])).2 = <[ "b1" := demo_pending ]> ∅.
Proof.
  destruct (persist_then_get 5 demo_batch (empty_coll []) demo_pending
    (Persist 5 demo_batch (empty_coll [])).2 eq_refl) as (_ & _ & _ & _ & E & _).
  exact E.
Defined.

(** A resolve whose first claim reply is lost, recovered by the sweep. *)
Definition demo_history : list cmd :=
  [CPersist 5 demo_batch; CToResolving 6 "b1"; CReconcileResolving 4000 4000 4000 60;
   CToResolving 4001 "b1"; CRecord 4002 "b1" [demo_verdict]; CToResuming 4003 "b1"].

Definition demo_script : list fault := [FNone; FNone; FAfter].

Definition demo_resuming : Batch :=
  set_times 5 4003 (Some (5 + pendingToolCallTTL)%Z)
    (set_calls [demo_verdict] (set_status statusResuming demo_batch)).

Lemma live_rows_have_deadline_witness :
  live_status (b_status demo_resuming) = true ∧ is_Some (b_expires_at demo_resuming).
Proof.
  split; [reflexivity|].
  apply (live_rows_have_deadline demo_history (empty_coll demo_script) "b1" demo_resuming);
    vm_compute; reflexivity.
Defined.

Example demo_history_wins :
  wins (won_resolve "b1") demo_history (empty_coll demo_script) = 1
  ∧ wins (won_resume "b1") demo_history (empty_coll demo_script) = 1.
Proof. split; vm_compute; reflexivity. Qed.

(** The recorded approval outlives a late reset and the next sweep. *)
Definition decided_coll : @coll _ _ demo_coll :=
  (<[ "b1" := set_status statusResolving (set_calls [demo_verdict] demo_pending) ]> ∅, [FBefore]).

Lemma verdicts_survive_witness :
  ∃ b', docs (run [CResetToPending 9 "b1"; CResetToPending 10 "b1"; CReconcileResolving 99 99 99 1]
               decided_coll) !! "b1" = Some b'
        ∧ decisions b' = [("c1", "approve", None, "")] ∧ b_status b' ≠ statusPending.
Proof.
  apply (verdicts_survive _ decided_coll "b1"
    (set_status statusResolving (set_calls [demo_verdict] demo_pending)));
    [vm_compute; reflexivity|vm_compute; reflexivity|discriminate|discriminate|].
  intros k Hk. repeat (apply elem_of_cons in Hk as [->|Hk]; [reflexivity|]).
  by apply elem_of_nil in Hk.
Defined.
End examples.
