(* ===== verification/ReviewStore.v ===== *)
(** * Reviews

    The review documents of [src/pkg/domain/mongo_models.go] and their repository,
    [services/api/internal/repository/review.go] and [review_autopilot.go]: the upsert on the natural key
    (organisation, platform, external id), the reply and draft writes, and the
    few-shot selection.  The delegation aggregate, the projections for statistics,
    the index definitions and the [successful_action] marker, which only the
    activation statistics read, are not modelled.  [normalizeReplyKey] is a
    parameter: it folds case and white space over Unicode. *)

From S2P Require Import Prelude Json GoTime Types Tools Mongo TaskStore PostStore.
Local Open Scope go_scope.

Definition ReviewReplyStatusPending : string := "pending".
Definition ReviewReplyStatusSkipped : string := "skipped".
Definition ReviewReplyStatusReplied : string := "replied".
Definition ReviewReplyStatusError : string := "error".
Definition ReviewDraftStatusGenerating : string := "generating".
Definition ReviewDraftStatusReady : string := "ready".
Definition ReviewDraftStatusFailed : string := "failed".

Record Review := {
  rv_id : string;
  rv_business_id : string;
  rv_platform : string;
  rv_external_id : string;
  rv_author_name : string;
  rv_rating : Z;
  rv_text : string;
  rv_reply_text : string;
  rv_reply_status : string;
  rv_platform_meta : list (string * gval);
  rv_dispatch_approval_id : string;
  rv_created_at : Z;
  rv_replied_at : option Z;
  rv_draft_reply : string;
  rv_draft_status : string;
  rv_draft_generated_at : option Z;
  rv_draft_error : string;
  rv_needs_review : bool;
  rv_accepted_unedited : option bool;
  rv_edit_distance : option Z;
  rv_auto_reply_deferred : bool;
}.

Record ReviewDraftFeedback := { fb_accepted_unedited : bool; fb_edit_distance : Z }.

#[export] Instance Review_eq_dec : EqDecision Review.
Proof. solve_decision. Defined.

(** What a platform sync may change. *)
Definition rv_sync (author : string) (rating : Z) (text reply status : string)
    (meta : list (string * gval)) (r : Review) : Review := {|
  rv_id := rv_id r; rv_business_id := rv_business_id r; rv_platform := rv_platform r;
  rv_external_id := rv_external_id r; rv_author_name := author; rv_rating := rating; rv_text := text;
  rv_reply_text := reply; rv_reply_status := status; rv_platform_meta := meta;
  rv_dispatch_approval_id := rv_dispatch_approval_id r; rv_created_at := rv_created_at r;
  rv_replied_at := rv_replied_at r; rv_draft_reply := rv_draft_reply r;
  rv_draft_status := rv_draft_status r; rv_draft_generated_at := rv_draft_generated_at r;
  rv_draft_error := rv_draft_error r; rv_needs_review := rv_needs_review r;
  rv_accepted_unedited := rv_accepted_unedited r; rv_edit_distance := rv_edit_distance r;
  rv_auto_reply_deferred := rv_auto_reply_deferred r |}.

(** The four transient draft fields and the hold-back flag. *)
Definition rv_draft (reply status : string) (generated : option Z) (error : string) (needs : bool)
    (r : Review) : Review := {|
  rv_id := rv_id r; rv_business_id := rv_business_id r; rv_platform := rv_platform r;
  rv_external_id := rv_external_id r; rv_author_name := rv_author_name r; rv_rating := rv_rating r;
  rv_text := rv_text r; rv_reply_text := rv_reply_text r; rv_reply_status := rv_reply_status r;
  rv_platform_meta := rv_platform_meta r; rv_dispatch_approval_id := rv_dispatch_approval_id r;
  rv_created_at := rv_created_at r; rv_replied_at := rv_replied_at r; rv_draft_reply := reply;
  rv_draft_status := status; rv_draft_generated_at := generated; rv_draft_error := error;
  rv_needs_review := needs; rv_accepted_unedited := rv_accepted_unedited r;
  rv_edit_distance := rv_edit_distance r;
  rv_auto_reply_deferred := rv_auto_reply_deferred r |}.

Definition rv_clear_draft (r : Review) : Review := rv_draft "" "" None "" (rv_needs_review r) r.

(** The reply fields. *)
Definition rv_reply (text status approval : string) (replied : option Z) (accepted : option bool)
    (distance : option Z) (r : Review) : Review := {|
  rv_id := rv_id r; rv_business_id := rv_business_id r; rv_platform := rv_platform r;
  rv_external_id := rv_external_id r; rv_author_name := rv_author_name r; rv_rating := rv_rating r;
  rv_text := rv_text r; rv_reply_text := text; rv_reply_status := status;
  rv_platform_meta := rv_platform_meta r; rv_dispatch_approval_id := approval;
  rv_created_at := rv_created_at r; rv_replied_at := replied; rv_draft_reply := rv_draft_reply r;
  rv_draft_status := rv_draft_status r; rv_draft_generated_at := rv_draft_generated_at r;
  rv_draft_error := rv_draft_error r; rv_needs_review := rv_needs_review r;
  rv_accepted_unedited := accepted; rv_edit_distance := distance;
  rv_auto_reply_deferred := rv_auto_reply_deferred r |}.

Definition VKUnknownUserName : string := "Пользователь ВКонтакте".
Definition VKUnknownCommunityName : string := "Сообщество ВКонтакте".

Definition natural_key (r : Review) : string * string * string :=
  (rv_business_id r, rv_platform r, rv_external_id r).

Definition same_key (k : string * string * string) (r : Review) : bool := bool_decide (natural_key r = k).

Definition unknownVKAuthor (r : Review) : bool :=
  String.eqb (rv_platform r) AgentVK
  && (String.eqb (rv_author_name r) VKUnknownUserName || String.eqb (rv_author_name r) VKUnknownCommunityName).

(** [reviewUpsert]: the update of an existing row, and the row inserted when none
    matches ([newID] is the value [uuid.NewString] returns). *)
Definition upsert_update (review r : Review) : Review :=
  let replied := String.eqb (rv_reply_status review) ReviewReplyStatusReplied in
  let r := rv_sync
    (if unknownVKAuthor review then rv_author_name r else rv_author_name review)
    (rv_rating review) (rv_text review)
    (if String.eqb (rv_reply_text review) "" then rv_reply_text r else rv_reply_text review)
    (if replied then ReviewReplyStatusReplied else rv_reply_status r)
    (match rv_platform_meta review with [] => rv_platform_meta r | m => m end) r in
  if replied then rv_clear_draft r else r.

Definition upsert_insert (newID : string) (review : Review) : Review := {|
  rv_id := (if String.eqb (rv_id review) "" then newID else rv_id review);
  rv_business_id := rv_business_id review; rv_platform := rv_platform review;
  rv_external_id := rv_external_id review; rv_author_name := rv_author_name review;
  rv_rating := rv_rating review; rv_text := rv_text review; rv_reply_text := rv_reply_text review;
  rv_reply_status := rv_reply_status review; rv_platform_meta := rv_platform_meta review;
  rv_dispatch_approval_id := ""; rv_created_at := rv_created_at review; rv_replied_at := None;
  rv_draft_reply := ""; rv_draft_status := ""; rv_draft_generated_at := None; rv_draft_error := "";
  rv_needs_review := false; rv_accepted_unedited := None; rv_edit_distance := None;
  rv_auto_reply_deferred := false |}.

Inductive ReviewError :=
| ErrReviewNotFound
| ErrReviewAlreadyAnswered
| ErrExternalIDRequired
| ErrReviewDriver (op : string).

#[export] Instance ReviewError_eq_dec : EqDecision ReviewError.
Proof. solve_decision. Defined.

(** [BulkUpsert]'s de-duplication: the last review of a natural key, at the
    position of the first. *)
Fixpoint dedupe_reviews (seen : list (string * string * string)) (out : list Review) (l : list Review)
    : list Review :=
  match l with
  | [] => out
  | r :: l' =>
      if String.eqb (rv_external_id r) "" then dedupe_reviews seen out l'
      else if list_mem (natural_key r) seen
      then dedupe_reviews seen ((λ o, if same_key (natural_key r) o then r else o) <$> out) l'
      else dedupe_reviews (natural_key r :: seen) (out ++ [r]) l'
  end.

(** *** Few-shot selection *)

Definition fewShotPoolFactor : nat := 4.
Definition fewShotPoolCap : nat := 40.
Definition fewShotEditedPoolLimit (poolLimit : nat) : nat := (poolLimit + 1) / 2.

Section few_shot.
Variable normalizeReplyKey : string → string.

(** The near-duplicates dropped, edited rows and other rows apart. *)
Fixpoint split_pool (seen : list string) (pool : list Review) : list Review * list Review :=
  match pool with
  | [] => ([], [])
  | r :: pool' =>
      let key := normalizeReplyKey (rv_reply_text r) in
      if negb (String.eqb key "") && list_mem key seen then split_pool seen pool'
      else
        let '(edited, recent) := split_pool (if String.eqb key "" then seen else key :: seen) pool' in
        if bool_decide (rv_accepted_unedited r = Some false) then (r :: edited, recent)
        else (edited, r :: recent)
  end.

(** One edited row, one recent row, in turn, up to [limit]. *)
Fixpoint interleave (limit : nat) (edited recent : list Review) : list Review :=
  match limit with
  | 0 => []
  | S l =>
      match edited, recent with
      | [], [] => []
      | e :: es, [] => e :: interleave l es []
      | [], r :: rs => r :: interleave l [] rs
      | e :: es, r :: rs =>
          e :: match l with 0 => [] | S l' => r :: interleave l' es rs end
      end
  end.

Definition selectFewShotExamples (pool : list Review) (limit : nat) : list Review :=
  match limit, pool with
  | 0, _ | _, [] => pool
  | _, _ => let '(edited, recent) := split_pool [] pool in interleave limit edited recent
  end.
End few_shot.

Section reviews.
Context {CR : Coll Review rv_id}.
Notation reviews := (@coll Review rv_id CR).

Definition GetReview (id : string) : SE reviews ReviewError Review :=
  try! r := findOne id in
  match r with
  | Err _ => se_err (ErrReviewDriver "query review")
  | Ok None => se_err ErrReviewNotFound
  | Ok (Some r) => se_ret r
  end.

Definition GetByExternalID (businessID platform externalID : string) : SE reviews ReviewError Review :=
  try! r := findFirst (same_key (businessID, platform, externalID)) (λ _, 0%Z) in
  match r with
  | Err _ => se_err (ErrReviewDriver "query review by external_id")
  | Ok None => se_err ErrReviewNotFound
  | Ok (Some r) => se_ret r
  end.

Definition upsert_one (newID : string) (review : Review) : SE reviews MongoError unit :=
  upsertOne (same_key (natural_key review)) (upsert_update review) (upsert_insert newID review).

Definition Upsert (newID : string) (review : Review) : SE reviews ReviewError unit :=
  if String.eqb (rv_external_id review) "" then se_err ErrExternalIDRequired
  else
    try! r := upsert_one newID review in
    match r with Ok _ => se_ret tt | Err _ => se_err (ErrReviewDriver "upsert review") end.

(** An unordered bulk write: every model is attempted, any failure is reported. *)
Fixpoint bulk_write (models : list (string * Review)) (failed : bool) : reviews → bool * reviews :=
  match models with
  | [] => st_ret failed
  | (newID, review) :: models' =>
      st! r := upsert_one newID review in bulk_write models' (failed || negb (is_ok r))
  end.

Definition BulkUpsert (newID : nat → string) (l : list Review) : SE reviews ReviewError unit :=
  let models := imap (λ i r, (newID i, r)) (dedupe_reviews [] [] l) in
  st! failed := bulk_write models false in
  if failed : bool then se_err (ErrReviewDriver "bulk upsert reviews") else se_ret tt.

Definition reply_update (now : Z) (text status approval : string) (feedback : option ReviewDraftFeedback)
    (r : Review) : Review :=
  let replied := String.eqb status ReviewReplyStatusReplied in
  let r' := rv_reply text status
    (if String.eqb approval "" then rv_dispatch_approval_id r else approval)
    (if replied then Some now else rv_replied_at r)
    (match feedback with Some f => if replied then Some (fb_accepted_unedited f) else rv_accepted_unedited r
                       | None => rv_accepted_unedited r end)
    (match feedback with Some f => if replied then Some (fb_edit_distance f) else rv_edit_distance r
                       | None => rv_edit_distance r end) r in
  if String.eqb status ReviewReplyStatusError then r' else rv_clear_draft r'.

Definition updateReply (now : Z) (id text status approval : string) (feedback : option ReviewDraftFeedback)
    : SE reviews ReviewError unit :=
  try! r := updateOne id (λ _, true) (reply_update now text status approval feedback) in
  match r with
  | Err _ => se_err (ErrReviewDriver "update review reply")
  | Ok false => se_err ErrReviewNotFound
  | Ok true => se_ret tt
  end.

Definition UpdateReply (now : Z) (id text status : string) (feedback : option ReviewDraftFeedback) :=
  updateReply now id text status "" feedback.

Definition UpdateReplyDispatched (now : Z) (id text status approval : string) :=
  updateReply now id text status approval None.

Definition stamp_approval (approval : string) (r : Review) : Review :=
  rv_reply (rv_reply_text r) (rv_reply_status r) approval (rv_replied_at r) (rv_accepted_unedited r)
    (rv_edit_distance r) r.

Definition StampReplyDispatchApprovalID (businessID platform externalID approval : string)
    : SE reviews ReviewError unit :=
  if String.eqb approval "" || String.eqb externalID "" then se_ret tt
  else
    try! r := updateFirst (same_key (businessID, platform, externalID)) (stamp_approval approval) in
    match r with
    | Err _ => se_err (ErrReviewDriver "stamp review dispatch approval id")
    | Ok _ => se_ret tt
    end.

(** A limit of zero returns before the query. *)
Definition ListPendingWithoutDraft (businessID platform : string) (limit : nat)
    : SE reviews ReviewError (list Review) :=
  match limit with
  | 0 => se_ret []
  | _ =>
      try! r := find (λ r, String.eqb (rv_business_id r) businessID
          && list_mem (rv_reply_status r) [ReviewReplyStatusPending; ReviewReplyStatusError]
          && list_mem (rv_draft_status r) [""; ReviewDraftStatusFailed]
          && (String.eqb platform "" || String.eqb (rv_platform r) platform))
        (λ r, - rv_created_at r)%Z in
      match r with
      | Err _ => se_err (ErrReviewDriver "find pending without draft")
      | Ok l => se_ret (take limit l)
      end
  end.

Definition replied_example (businessID platform : string) (r : Review) : bool :=
  String.eqb (rv_business_id r) businessID
  && String.eqb (rv_reply_status r) ReviewReplyStatusReplied
  && negb (String.eqb (rv_reply_text r) "")
  && (String.eqb platform "" || String.eqb (rv_platform r) platform).

Definition example_pool_limit (limit : nat) : nat := Nat.max (Nat.min (limit * fewShotPoolFactor) fewShotPoolCap) limit.

Definition ListRepliedExamples (normalizeReplyKey : string → string) (businessID platform : string)
    (limit : nat) : SE reviews ReviewError (list Review) :=
  match limit with
  | 0 => se_ret []
  | _ =>
      let poolLimit := example_pool_limit limit in
      let newest := λ r, (- rv_created_at r)%Z in
      let edited := λ r, bool_decide (rv_accepted_unedited r = Some false) in
      try! e := find (λ r, replied_example businessID platform r && edited r) newest in
      match e with
      | Err _ => se_err (ErrReviewDriver "find replied examples")
      | Ok l =>
          let pool := take (fewShotEditedPoolLimit poolLimit) l in
          if (length pool <? poolLimit)%nat then
            try! r := find (λ r, replied_example businessID platform r && negb (edited r)) newest in
            match r with
            | Err _ => se_err (ErrReviewDriver "find recent replied examples")
            | Ok recent =>
                se_ret (selectFewShotExamples normalizeReplyKey
                  (pool ++ take (poolLimit - length pool) recent) limit)
            end
          else se_ret (selectFewShotExamples normalizeReplyKey pool limit)
      end
  end.

Definition claimable_draft (r : Review) : bool :=
  negb (String.eqb (rv_reply_status r) ReviewReplyStatusSkipped)
  && list_mem (rv_draft_status r) [""; ReviewDraftStatusFailed].

Definition start_draft (r : Review) : Review :=
  rv_draft (rv_draft_reply r) ReviewDraftStatusGenerating (rv_draft_generated_at r) ""
    (rv_needs_review r) r.

Definition ClaimDraftForGenerating (id : string) : SE reviews ReviewError bool :=
  try! r := updateOne id claimable_draft start_draft in
  match r with
  | Err _ => se_err (ErrReviewDriver "claim review draft")
  | Ok b => se_ret b
  end.

Definition finish_draft (now : Z) (draft status errMsg : string) (needsReview : bool) (r : Review) : Review :=
  if String.eqb status ReviewDraftStatusReady
  then rv_draft draft status (Some now) "" needsReview r
  else rv_draft (rv_draft_reply r) status (rv_draft_generated_at r)
         (if String.eqb status ReviewDraftStatusFailed then errMsg else rv_draft_error r)
         (rv_needs_review r) r.

Definition UpdateDraft (now : Z) (id draft status errMsg : string) (needsReview : bool)
    : SE reviews ReviewError unit :=
  try! r := updateOne id (λ r, negb (String.eqb (rv_reply_status r) ReviewReplyStatusSkipped))
              (finish_draft now draft status errMsg needsReview) in
  match r with
  | Err _ => se_err (ErrReviewDriver "update review draft")
  | Ok false => se_err ErrReviewNotFound
  | Ok true => se_ret tt
  end.

Definition pending_in (businessID : string) (r : Review) : bool :=
  String.eqb (rv_business_id r) businessID && String.eqb (rv_reply_status r) ReviewReplyStatusPending.

Definition PrepareRegeneration (businessID id : string) : SE reviews ReviewError unit :=
  try! r := updateOne id (λ r, pending_in businessID r
      && negb (String.eqb (rv_draft_status r) ReviewDraftStatusGenerating))
    (λ r, rv_draft (rv_draft_reply r) "" (rv_draft_generated_at r) (rv_draft_error r) (rv_needs_review r) r) in
  match r with
  | Err _ => se_err (ErrReviewDriver "prepare review regeneration")
  | Ok false => se_err ErrReviewAlreadyAnswered
  | Ok true => se_ret tt
  end.

Definition SkipPending (businessID id : string) : SE reviews ReviewError unit :=
  try! r := updateOne id (pending_in businessID) (λ r, rv_clear_draft (rv_reply (rv_reply_text r)
    ReviewReplyStatusSkipped (rv_dispatch_approval_id r) (rv_replied_at r) (rv_accepted_unedited r)
    (rv_edit_distance r) r)) in
  match r with
  | Err _ => se_err (ErrReviewDriver "skip pending review")
  | Ok false => se_err ErrReviewAlreadyAnswered
  | Ok true => se_ret tt
  end.
(** *** Autopilot rows ([review_autopilot.go]) *)

Definition rv_deferred (b : bool) (r : Review) : Review := {|
  rv_id := rv_id r; rv_business_id := rv_business_id r; rv_platform := rv_platform r;
  rv_external_id := rv_external_id r; rv_author_name := rv_author_name r; rv_rating := rv_rating r;
  rv_text := rv_text r; rv_reply_text := rv_reply_text r; rv_reply_status := rv_reply_status r;
  rv_platform_meta := rv_platform_meta r; rv_dispatch_approval_id := rv_dispatch_approval_id r;
  rv_created_at := rv_created_at r; rv_replied_at := rv_replied_at r; rv_draft_reply := rv_draft_reply r;
  rv_draft_status := rv_draft_status r; rv_draft_generated_at := rv_draft_generated_at r;
  rv_draft_error := rv_draft_error r; rv_needs_review := rv_needs_review r;
  rv_accepted_unedited := rv_accepted_unedited r; rv_edit_distance := rv_edit_distance r;
  rv_auto_reply_deferred := b |}.

Definition pending_ready (businessID : string) (r : Review) : bool :=
  pending_in businessID r && String.eqb (rv_draft_status r) ReviewDraftStatusReady.

Definition SetAutoReplyDeferred (businessID id : string) (deferred : bool) : SE reviews ReviewError unit :=
  try! r := updateOne id (pending_ready businessID) (rv_deferred deferred) in
  match r with Err _ => se_err (ErrReviewDriver "defer auto-reply") | Ok _ => se_ret tt end.

Definition ListDeferredAutoReplies (now : Z) (businessID platform : string) (limit : nat)
    : SE reviews ReviewError (list Review) :=
  match limit with
  | 0 => se_ret []
  | _ =>
      try! r := find (λ r, pending_ready businessID r && String.eqb (rv_platform r) platform
          && rv_auto_reply_deferred r && (now - 7 * 24 * Hour <=? rv_created_at r)%Z) rv_created_at in
      match r with
      | Err _ => se_err (ErrReviewDriver "find deferred auto-replies")
      | Ok l => se_ret (take limit l)
      end
  end.
End reviews.
