(* ===== verification/ChatWorld.v ===== *)
(** * The world of a chat turn

    What [chatturn.Deps] (services/api/internal/service/chatturn/turn.go) wires:
    the five document stores, the collaborators outside them as parameters, and
    the externally visible effects as a log.  [clock n] is the [n]-th reading of
    [time.Now], [fresh n] the [n]-th generated id. *)

From S2P Require Import Prelude Json GoTime Types Tools Mongo HitlStore ChatStore TaskStore PostStore ReviewStore.
Local Open Scope go_scope.

Record Integration := { in_platform : string; in_status : string; in_external_id : string }.

Definition IntegrationStatusActive : string := "active".

Record Business := {
  bz_id : uuid;
  bz_name : string;
  bz_category : string;
  bz_address : string;
  bz_phone : string;
  bz_website : option string;
  bz_description : string;
  bz_settings : gomap;
}.

Record Project := {
  pj_id : uuid;
  pj_name : string;
  pj_system_prompt : string;
  pj_whitelist_mode : string;
  pj_allowed_tools : list string;
  pj_approval_overrides : gmap string string;
}.

(** What leaves the process. *)
Inductive Fx :=
| FxWrote (bytes : string)
| FxStream (conversationID batchID : string) (body : gval)
| FxHub (created : bool) (businessID : string) (task : AgentTask)
| FxVerify (businessID taskID : string) (attempt : Z)
| FxTokenExpired (businessID : uuid) (platform externalID : string)
| FxAudit (action : string) (businessID : uuid) (actor : option uuid) (tool platform target : string)
| FxValue (action sourceID : string) (businessID : uuid) (platform kind : string)
| FxApproval (ev : TelemetryEvent)
| FxTitler (businessID conversationID userText assistantText : string).

(** The optional collaborators are present or not; a lookup may answer
    differently each time, so it takes the reading it happens at. *)
Record Deps := {
  has_posts : bool;
  has_reviews : bool;
  has_tasks : bool;
  has_hub : bool;
  has_titler : bool;
  has_audit : bool;
  has_verification : bool;
  has_value_telemetry : bool;
  has_approval_telemetry : bool;
  get_business : nat → uuid → option (option Business);
  list_integrations : nat → uuid → option (list Integration);
  get_project : nat → uuid → uuid → option Project;
  plan_tier : option (uuid → string);
  history_limit : nat;
}.

Section world.
Context {CM : Coll DMessage dm_id} {CV : Coll Conversation cv_id}
  {CB : Coll PendingToolCallBatch b_id} {CT : Coll AgentTask tk_id}
  {CP : Coll Post po_id} {CR : Coll Review rv_id}.

Record World := {
  w_chat : ChatDB;
  w_batches : @coll _ _ CB;
  w_tasks : @coll _ _ CT;
  w_posts : @coll _ _ CP;
  w_reviews : @coll _ _ CR;
  w_tick : nat;
  w_ids : nat;
  w_fx : list Fx;
}.

Definition on_chat {A} : (ChatDB → A * ChatDB) → World → A * World :=
  focus w_chat (λ s w, {| w_chat := s; w_batches := w_batches w; w_tasks := w_tasks w;
    w_posts := w_posts w; w_reviews := w_reviews w; w_tick := w_tick w; w_ids := w_ids w; w_fx := w_fx w |}).

Definition on_batches {A} : (@coll _ _ CB → A * @coll _ _ CB) → World → A * World :=
  focus w_batches (λ s w, {| w_chat := w_chat w; w_batches := s; w_tasks := w_tasks w;
    w_posts := w_posts w; w_reviews := w_reviews w; w_tick := w_tick w; w_ids := w_ids w; w_fx := w_fx w |}).

Definition on_tasks {A} : (@coll _ _ CT → A * @coll _ _ CT) → World → A * World :=
  focus w_tasks (λ s w, {| w_chat := w_chat w; w_batches := w_batches w; w_tasks := s;
    w_posts := w_posts w; w_reviews := w_reviews w; w_tick := w_tick w; w_ids := w_ids w; w_fx := w_fx w |}).

Definition on_posts {A} : (@coll _ _ CP → A * @coll _ _ CP) → World → A * World :=
  focus w_posts (λ s w, {| w_chat := w_chat w; w_batches := w_batches w; w_tasks := w_tasks w;
    w_posts := s; w_reviews := w_reviews w; w_tick := w_tick w; w_ids := w_ids w; w_fx := w_fx w |}).

Definition on_reviews {A} : (@coll _ _ CR → A * @coll _ _ CR) → World → A * World :=
  focus w_reviews (λ s w, {| w_chat := w_chat w; w_batches := w_batches w; w_tasks := w_tasks w;
    w_posts := w_posts w; w_reviews := s; w_tick := w_tick w; w_ids := w_ids w; w_fx := w_fx w |}).

Definition emit (e : Fx) : World → unit * World := λ w,
  (tt, {| w_chat := w_chat w; w_batches := w_batches w; w_tasks := w_tasks w; w_posts := w_posts w;
          w_reviews := w_reviews w; w_tick := w_tick w; w_ids := w_ids w; w_fx := w_fx w ++ [e] |}).

(** One reading of the clock; [look] is one call of an outside collaborator. *)
Definition look {A} (f : nat → A) : World → A * World := λ w,
  (f (w_tick w), {| w_chat := w_chat w; w_batches := w_batches w; w_tasks := w_tasks w;
     w_posts := w_posts w; w_reviews := w_reviews w; w_tick := S (w_tick w); w_ids := w_ids w;
     w_fx := w_fx w |}).

Definition new_id (fresh : nat → string) : World → string * World := λ w,
  (fresh (w_ids w), {| w_chat := w_chat w; w_batches := w_batches w; w_tasks := w_tasks w;
     w_posts := w_posts w; w_reviews := w_reviews w; w_tick := w_tick w; w_ids := S (w_ids w);
     w_fx := w_fx w |}).

(** The orchestrator streams opened so far: conversation and batch. *)
Definition streams (w : World) : list (string * string) :=
  omap (λ e, match e with FxStream c b _ => Some (c, b) | _ => None end) (w_fx w).

Definition v_msgs (w : World) : gmap string DMessage := msgs (w_chat w).
Definition v_convs (w : World) : gmap string Conversation := convs (w_chat w).
Definition v_batches (w : World) : gmap string PendingToolCallBatch := docs (w_batches w).

(** What the side effects of a turn never touch, and what its reads do not. *)
Definition chat_part (w : World) := (w_chat w, w_batches w, streams w).
Definition turn_part (w : World) := (chat_view (w_chat w), v_batches w, streams w).

(** ** What a call leaves alone

    [keeps get m]: whatever [m] returns, it does not change the part [get]. *)
Definition keeps {S A} (get : World → S) (m : World → A * World) : Prop :=
  ∀ w, get (m w).2 = get w.

Lemma keeps_ret {S A} (get : World → S) (a : A) : keeps get (st_ret a).
Proof. done. Qed.

Lemma keeps_bind {S A B} (get : World → S) (m : World → A * World) (k : A → World → B * World) :
  keeps get m → (∀ a, keeps get (k a)) → keeps get (st_bind m k).
Proof.
  intros Hm Hk w. unfold st_bind. specialize (Hm w). destruct (m w) as [a w']. cbn in *.
  by rewrite Hk.
Qed.

Lemma keeps_iter {S A} (get : World → S) (f : A → World → unit * World) l :
  (∀ x, keeps get (f x)) → keeps get (st_iter f l).
Proof.
  intros Hf. induction l as [|x l IH]; cbn [st_iter]; [apply keeps_ret|].
  by apply keeps_bind; [|intros _].
Qed.

Lemma keeps_weaken {S S' A} (get : World → S) (get' : World → S') (m : World → A * World) :
  (∀ w w', get w = get w' → get' w = get' w') → keeps get m → keeps get' m.
Proof. intros Hg Hm w. apply Hg, Hm. Qed.

Lemma keeps_look {S A} (get : World → S) (f : nat → A) :
  (∀ w, get (look f w).2 = get w) → keeps get (look f).
Proof. done. Qed.
End world.
#[global] Arguments World {CM CV CB CT CP CR}.

(** The frame rules of the primitives compute. *)
Ltac keeps_prim := intros ?; unfold on_chat, on_batches, on_tasks, on_posts, on_reviews, focus, emit, look, new_id;
  repeat case_match; simplify_eq/=; unfold chat_part, turn_part, streams, v_msgs, v_batches; cbn;
  rewrite ?omap_app; cbn; rewrite ?app_nil_r; reflexivity.

Ltac keeps_step :=
  lazymatch goal with
  | |- keeps _ (st_ret _) => apply keeps_ret
  | |- keeps _ (st_bind _ _) => apply keeps_bind; [|intros ?]
  | |- keeps _ (st_iter _ _) => apply keeps_iter; intros ?
  | |- keeps _ (emit _) => keeps_prim
  | |- keeps _ (look _) => keeps_prim
  | |- keeps _ (new_id _) => keeps_prim
  | |- keeps _ (on_tasks _) => keeps_prim
  | |- keeps _ (on_posts _) => keeps_prim
  | |- keeps _ (on_reviews _) => keeps_prim
  | |- keeps _ (match ?x with _ => _ end) => destruct x eqn:?
  | |- keeps _ (let _ := _ in _) => cbv zeta
  end.

(** Split a call into its primitives. *)
Ltac keeps_tac := repeat (first [progress keeps_step | progress cbv beta zeta | progress eauto with keeps]).
Create HintDb keeps.

Section reads.
Context {CM : Coll DMessage dm_id} {CV : Coll Conversation cv_id}
  {CB : Coll PendingToolCallBatch b_id} {CT : Coll AgentTask tk_id}
  {CP : Coll Post po_id} {CR : Coll Review rv_id}.

Lemma keeps_chat_turn {A} (m : World → A * World) : keeps chat_part m → keeps turn_part m.
Proof.
  apply keeps_weaken. unfold chat_part, turn_part, v_batches. intros w w' Hw.
  injection Hw as -> -> ->. done.
Qed.

Lemma keeps_on_chat {A} (m : ChatDB → A * ChatDB) :
  (∀ d, chat_view (m d).2 = chat_view d) → keeps turn_part (on_chat m).
Proof.
  intros Hm w. unfold on_chat, focus, turn_part, v_batches, streams. specialize (Hm (w_chat w)).
  destruct (m (w_chat w)) as [a d]. cbn in *. by rewrite Hm.
Qed.

Lemma keeps_on_batches {A} (m : @coll _ _ CB → A * @coll _ _ CB) :
  (∀ c, docs (m c).2 = docs c) → keeps turn_part (on_batches m).
Proof.
  intros Hm w. unfold on_batches, focus, turn_part, v_batches, streams. specialize (Hm (w_batches w)).
  destruct (m (w_batches w)) as [a d]. cbn in *. by rewrite Hm.
Qed.

(** Every store call leaves the streams alone. *)
Lemma keeps_chat_streams {A} (m : World → A * World) : keeps chat_part m → keeps streams m.
Proof. apply keeps_weaken. unfold chat_part. intros w w' Hw. by injection Hw. Qed.

Lemma keeps_turn_streams {A} (m : World → A * World) : keeps turn_part m → keeps streams m.
Proof. apply keeps_weaken. unfold turn_part. intros w w' Hw. by injection Hw. Qed.

Lemma keeps_streams_on_chat {A} (m : ChatDB → A * ChatDB) : keeps streams (on_chat m).
Proof. keeps_prim. Qed.

Lemma keeps_streams_on_batches {A} (m : @coll _ _ CB → A * @coll _ _ CB) : keeps streams (on_batches m).
Proof. keeps_prim. Qed.

Lemma streams_open c b body w : streams (emit (FxStream c b body) w).2 = streams w ++ [(c, b)].
Proof. unfold streams. cbn. by rewrite omap_app. Qed.
End reads.

(** ** The two message writes of a turn *)
Section writes.
Context {CM : Coll DMessage dm_id} {CV : Coll Conversation cv_id}
  {CB : Coll PendingToolCallBatch b_id} {CT : Coll AgentTask tk_id}
  {CP : Coll Post po_id} {CR : Coll Review rv_id}.

(** The row an update writes: the message under its conversation's organisation. *)
Definition stored (w : World) (m : DMessage) : DMessage :=
  dm_stamp (dm_id m) (business_of (w_chat w) (dm_conversation_id m)) (dm_created_at m) m.

(** What a message write leaves alone. *)
Definition side_part (w : World) := (owners (w_chat w), v_batches w, streams w, w_ids w).

Definition put_msg (w : World) (m : DMessage) : gmap string DMessage := <[dm_id m := m]> (v_msgs w).

Lemma update_effect m w :
  let r := on_chat (UpdateMessage m) w in
  side_part r.2 = side_part w ∧
  match r.1 with
  | Ok _ => is_Some (v_msgs w !! dm_id m) ∧ v_msgs r.2 = put_msg w (stored w m)
  | Err ErrMessageNotFound => v_msgs w !! dm_id m = None ∧ v_msgs r.2 = v_msgs w
  | Err _ => v_msgs r.2 = v_msgs w ∨ (is_Some (v_msgs w !! dm_id m) ∧ v_msgs r.2 = put_msg w (stored w m))
  end.
Proof.
  unfold on_chat, focus. pose proof (update_message_spec m (w_chat w)) as Hu.
  destruct (UpdateMessage m (w_chat w)) as [r d]. cbn [fst snd]. unfold side_part, v_msgs, v_batches, streams. cbn.
  unfold written, same_docs, owners in *.
  destruct r as [u|[]]; [destruct Hu as (? & ? & ->)|destruct Hu as (? & ? & ->)|destruct Hu as [[? ->]|(? & ? & ->)]..];
    auto.
Qed.

Lemma update_ok `{!Reliable CM, !Reliable CV} m w :
  dm_id m ≠ "" → is_Some (v_msgs w !! dm_id m) → (on_chat (UpdateMessage m) w).1 = Ok tt.
Proof.
  intros Hid Hs. unfold on_chat, focus. pose proof (update_message_ok m (w_chat w) Hid) as Hu.
  destruct (UpdateMessage m (w_chat w)) as [r d]. cbn in *. by rewrite decide_True in Hu.
Qed.

Lemma create_effect t oid m w :
  let r := on_chat (CreateMessage t oid m) w in
  let row := stored w (dm_stamp (created_id oid m) "" (Some t) m) in
  side_part r.2 = side_part w ∧ dm_conversation_id r.1.1 = dm_conversation_id m ∧
  match r.1.2 with
  | Ok _ => v_msgs w !! dm_id row = None ∧ v_msgs r.2 = put_msg w row
  | Err _ => v_msgs r.2 = v_msgs w ∨ (v_msgs w !! dm_id row = None ∧ v_msgs r.2 = put_msg w row)
  end.
Proof.
  unfold on_chat, focus. pose proof (create_message_spec t oid m (w_chat w)) as Hc. cbn zeta in Hc.
  destruct (CreateMessage t oid m (w_chat w)) as [[m' r] d]. cbn [fst snd].
  unfold side_part, v_msgs, v_batches, streams. cbn. unfold written, same_docs, owners in *.
  destruct r as [u|e].
  - destruct Hc as (? & [? ->] & ? & ?). auto.
  - destruct Hc as (_ & Hc & ? & ?). destruct Hc as [[? ->]|[? [? ->]]]; auto.
Qed.

Lemma create_ok `{!Reliable CM, !Reliable CV} t oid m w :
  dm_id m ≠ "" → v_msgs w !! dm_id m = None → (on_chat (CreateMessage t oid m) w).1.2 = Ok tt.
Proof.
  intros Hid Hn. unfold on_chat, focus. pose proof (create_message_ok t oid m (w_chat w) Hid Hn) as Hc.
  by destruct (CreateMessage t oid m (w_chat w)) as [[] ?].
Qed.
(** What every message write and side effect of a turn leaves alone. *)
Definition frame_part (w : World) := (owners (w_chat w), v_batches w, streams w).

Lemma turn_part_frame w w' : turn_part w' = turn_part w → frame_part w' = frame_part w ∧ v_msgs w' = v_msgs w.
Proof. unfold turn_part, chat_view, frame_part, v_msgs. by intros [= -> -> -> ->]. Qed.

Lemma stored_owners w w' m : owners (w_chat w') = owners (w_chat w) → stored w' m = stored w m.
Proof. unfold stored, business_of. by intros ->. Qed.

Lemma stored_frame w w' m : frame_part w' = frame_part w → stored w' m = stored w m.
Proof. unfold frame_part. intros [= ? _ _]. by apply stored_owners. Qed.
End writes.

#[export] Hint Resolve keeps_on_chat keeps_on_batches keeps_streams_on_chat keeps_streams_on_batches : keeps.
