(* ===== verification/Postal.v ===== *)
(** * Side effects of a chat turn

    [services/api/internal/service/chatturn/postal.go] and
    [post_reconciliation.go]: the agent-task rows written while the stream runs,
    and the posts, reviews and audit rows recorded from its tool results.
    [yandex_published] stands for [platform.YandexReviewPublishedAt], which reads
    Russian dates over Unicode. *)

From S2P Require Import Prelude Json GoTime Types Tools Mongo HitlStore ChatStore TaskStore PostStore ReviewStore ChatWorld.
Local Open Scope go_scope.

(** ** Reading arguments and results *)

Definition arg_str (k : string) (m : gomap) : option string :=
  match gomap_get k m with Some (GStr s) => Some s | _ => None end.

Definition str_or_empty (k : string) (m : gomap) : string := default "" (arg_str k m).

(** Numbers arrive as [float64], integral here. *)
Definition argInt (args : gomap) (key : string) : option Z :=
  match gomap_get key args with
  | Some (GNum n) => Some n
  | Some (GStr s) => Atoi s
  | _ => None
  end.

Definition parseScheduleTime (v : option gval) : option Z :=
  match v with
  | Some (GStr t) =>
      if String.eqb t "" then None
      else match parse_rfc3339 t with
           | Some parsed => Some parsed
           | None => (λ sec, sec * Second)%Z <$> Atoi t
           end
  | Some (GNum n) => Some (n * Second)%Z
  | _ => None
  end.

Definition resultURL (content : gomap) : string := str_or_empty "url" content.

Definition id_text (v : option gval) : option string :=
  match v with
  | Some (GStr s) => if String.eqb s "" then None else Some s
  | Some (GNum n) => if (n =? 0)%Z then None else Some (print_Z n)
  | _ => None
  end.

Definition resultPostID (content : gomap) : string :=
  match id_text (gomap_get "post_id" content) with
  | Some s => s
  | None => default "" (id_text (gomap_get "message_id" content))
  end.

Record postingToolInfo := {
  pt_platform : string;
  pt_content_field : string;
  pt_media_field : string;
  pt_scheduled : bool;
  pt_schedule_field : string;
}.

Definition posting (platform content media : string) : postingToolInfo := {|
  pt_platform := platform; pt_content_field := content; pt_media_field := media;
  pt_scheduled := false; pt_schedule_field := "" |}.

Definition postingTools : list (string * postingToolInfo) := [
  (TelegramSendChannelPost, posting AgentTelegram "text" "");
  (TelegramSendChannelPhoto, posting AgentTelegram "caption" "photo_url");
  (VKPublishPost, posting AgentVK "text" "");
  (VKPostPhoto, posting AgentVK "caption" "photo_url");
  (VKSchedulePost, {| pt_platform := AgentVK; pt_content_field := "text"; pt_media_field := "";
                      pt_scheduled := true; pt_schedule_field := "publish_date" |});
  (YandexBusinessCreatePost, posting AgentYandexBusiness "text" "")].

Definition replyReviewPlatform : list (string * string) := [
  (YandexBusinessReplyReview, AgentYandexBusiness); (GoogleBusinessReplyReview, AgentGoogleBusiness);
  (VKReplyComment, AgentVK); (TelegramReplyToComment, AgentTelegram)].

Definition join_ids (a b : option Z) : string :=
  match a, b with
  | Some x, Some y => (print_Z x +:+ "_" +:+ print_Z y)%string
  | _, _ => ""
  end.

Definition replyReviewExternalID (toolName : string) (args : gomap) : string :=
  if String.eqb toolName YandexBusinessReplyReview then str_or_empty "review_id" args
  else if String.eqb toolName GoogleBusinessReplyReview then str_or_empty "review_name" args
  else if String.eqb toolName VKReplyComment then join_ids (argInt args "post_id") (argInt args "comment_id")
  else if String.eqb toolName TelegramReplyToComment then join_ids (argInt args "chat_id") (argInt args "message_id")
  else "".

Definition tokenExpiryExternalIDFields : list (string * string) :=
  [(AgentTelegram, "channel_id"); (AgentVK, "group_id")]%string.

Definition externalIDFromToolArgs (platform : string) (toolArgs : gomap) : string :=
  match obj_get platform tokenExpiryExternalIDFields with
  | None => ""
  | Some field => str_or_empty field toolArgs
  end.

(** *** Audit classification *)
Definition ActionRPAReviewReplied : string := "rpa.review_replied".
Definition ActionRPAPostPublished : string := "rpa.post_published".
Definition ActionRPAPhotoUploaded : string := "rpa.photo_uploaded".
Definition ActionRPAInfoUpdated : string := "rpa.info_updated".
Definition ActionRPAHoursUpdated : string := "rpa.hours_updated".
Definition ActionPlatformPostPublished : string := "platform.post_published".
Definition ActionPlatformDMSent : string := "platform.dm_sent".
Definition ActionPlatformReviewReplied : string := "platform.review_replied".

Definition rpaMutationTools : list (string * string) := [
  (YandexBusinessReplyReview, ActionRPAReviewReplied); (YandexBusinessCreatePost, ActionRPAPostPublished);
  (YandexBusinessUploadPhoto, ActionRPAPhotoUploaded); (YandexBusinessUpdateInfo, ActionRPAInfoUpdated);
  (YandexBusinessUpdateHours, ActionRPAHoursUpdated)].

Definition platformMutationTools : list (string * (string * string)) := [
  (TelegramSendChannelPost, (ActionPlatformPostPublished, AgentTelegram));
  (TelegramSendChannelPhoto, (ActionPlatformPostPublished, AgentTelegram));
  (TelegramSendNotification, (ActionPlatformDMSent, AgentTelegram));
  (TelegramReplyToComment, (ActionPlatformReviewReplied, AgentTelegram));
  (VKPublishPost, (ActionPlatformPostPublished, AgentVK));
  (VKPostPhoto, (ActionPlatformPostPublished, AgentVK));
  (VKSchedulePost, (ActionPlatformPostPublished, AgentVK));
  (VKReplyComment, (ActionPlatformReviewReplied, AgentVK));
  (GoogleBusinessReplyReview, (ActionPlatformReviewReplied, AgentGoogleBusiness))].

Definition rpaTargetID (toolName : string) (args : gomap) : string :=
  if String.eqb toolName YandexBusinessReplyReview then str_or_empty "review_id" args else "".

Definition platformMutationTarget (toolName : string) (args content : gomap) : string :=
  match obj_get toolName replyReviewPlatform with
  | Some _ => replyReviewExternalID toolName args
  | None => resultPostID content
  end.

(** *** Field names of [internal/platform] *)
Definition FieldTitle : string := "title".
Definition FieldDescription : string := "description".
Definition FieldWebsite : string := "website".
Definition FieldPhone : string := "phone".
Definition FieldSchedule : string := "schedule".

(** The members of [fields] present as strings in [args], renamed. *)
Definition expected_fields (args : gomap) (fields : list (string * string)) : gmap string string :=
  foldl (λ m kf, match arg_str kf.1 args with Some v => <[kf.2 := v]> m | None => m end) ∅ fields.

Definition integration_token_invalid : string := "integration_token_invalid".

(** *** Calls by id: of equal ids the last one stays *)
Definition calls_by_id (calls : list DToolCall) : list (string * DToolCall) := (λ c, (dtc_id c, c)) <$> calls.
Definition call_of (calls : list DToolCall) (id : string) : option DToolCall := obj_get id (calls_by_id calls).

(** [PlatformMetaFromMap]. *)
Definition coord (m : gomap) (key : string) : list (string * gval) :=
  match argInt m key with Some n => [(key, GNum n)] | None => [] end.
Definition PlatformMetaFromMap (m : gomap) : list (string * gval) := coord m "chat_id" ++ coord m "message_id".

Definition rating_of (v : option gval) : Z :=
  match v with
  | Some (GNum n) => n
  | Some (GStr s) => match Atoi s with
                     | Some n => if ((1 <=? n) && (n <=? 5))%Z then n else 0%Z
                     | None => 0%Z
                     end
  | _ => 0%Z
  end.

Section postal.
Context {CM : Coll DMessage dm_id} {CV : Coll Conversation cv_id}
  {CB : Coll PendingToolCallBatch b_id} {CT : Coll AgentTask tk_id}
  {CP : Coll Post po_id} {CR : Coll Review rv_id} {U : UUIDText}.
Variables (deps : Deps) (clock : nat → Z) (fresh : nat → string)
  (yandex_published : gomap → Z → option Z) (format_rfc3339 : Z → string).

Notation M A := (World → A * World).

Definition now : M Z := look clock.

(** *** Tool calls *)

Definition active_target (platform : string) (l : list Integration) : string :=
  match filterb (λ i, String.eqb (in_platform i) platform
                  && String.eqb (in_status i) IntegrationStatusActive) l with
  | i :: _ => in_external_id i
  | [] => ""
  end.

Definition yandexTarget (businessID : string) : M string :=
  match uuid_parse businessID with
  | None => st_ret ""
  | Some id =>
      st! l := look (λ n, list_integrations deps n id) in
      match l with
      | None => st_ret ""
      | Some l => st_ret (active_target AgentYandexBusiness l)
      end
  end.

Definition chatVerificationIntent (businessID toolName : string) (args : gomap)
    : M (option (gmap string string) * string * string) :=
  if String.eqb toolName VKUpdateGroupInfo then
    match arg_str "group_id" args with
    | None => st_ret (None, "", VerificationUnverifiable)
    | Some target =>
        let expected := expected_fields args
          [("title", FieldTitle); ("description", FieldDescription); ("website", FieldWebsite)]%string in
        let expected := match arg_str "phone" args with
          | Some p => if String.eqb p "" then expected else <[FieldPhone := p]> expected
          | None => expected
          end in
        if bool_decide (expected = ∅) then st_ret (None, target, VerificationUnverifiable)
        else st_ret (Some expected, target, VerificationPending)
    end
  else if String.eqb toolName YandexBusinessUpdateHours then
    st! target := yandexTarget businessID in
    st_ret (Some {[ FieldSchedule := str_or_empty "hours" args ]}, target, VerificationPending)
  else if String.eqb toolName YandexBusinessUpdateInfo then
    let expected := expected_fields args [(FieldPhone, FieldPhone); (FieldDescription, FieldDescription)] in
    st! target := yandexTarget businessID in
    if negb (String.eqb target "") && negb (bool_decide (expected = ∅))
    then st_ret (Some expected, target, VerificationPending)
    else st_ret (Some expected, target, VerificationUnverifiable)
  else st_ret (None, "", VerificationUnsupported).

Definition stampReviewDispatch (businessID toolName : string) (toolArgs : gomap) (approvalID : string) : M unit :=
  if negb (has_reviews deps) || String.eqb approvalID "" then st_ret tt
  else
    match obj_get toolName replyReviewPlatform with
    | None => st_ret tt
    | Some platform =>
        let externalID := replyReviewExternalID toolName toolArgs in
        if String.eqb externalID "" then st_ret tt
        else
          st! _ := on_reviews (StampReplyDispatchApprovalID businessID platform externalID approvalID) in
          st_ret tt
    end.

(** The row a dispatched platform tool gets. *)
Definition dispatched_task (businessID conversationID userID toolName display displayKey : string)
    (platform type : string) (toolArgs : gomap) (approvalID : string) (started : Z)
    (expected : option (gmap string string)) (target status : string) : AgentTask := {|
  tk_id := ""; tk_business_id := businessID; tk_type := type; tk_display_name := display;
  tk_display_name_key := displayKey; tk_status := AgentTaskStatusRunning; tk_platform := platform;
  tk_input := toolArgs; tk_output := None; tk_error := ""; tk_error_code := "";
  tk_dispatch_approval_id := approvalID; tk_origin_conversation_id := conversationID;
  tk_origin_user_id := userID;
  tk_verification_status := (if String.eqb status VerificationPending then "" else status);
  tk_verification_fields := None; tk_verification_mismatches := []; tk_verification_error_code := "";
  tk_verification_checked_at := None; tk_verification_expected := expected;
  tk_verification_target := target;
  tk_verification_attempt := (if String.eqb status VerificationPending then 1 else 0)%Z;
  tk_verification_updated_at := None; tk_started_at := Some started; tk_completed_at := None;
  tk_dismissed_at := None; tk_created_at := 0 |}.

(** The returned map is the caller's [idMap] afterwards. *)
Definition onToolCallWithOrigin (businessID conversationID userID toolCallID toolName display displayKey : string)
    (toolArgs : gomap) (approvalID : string) (idMap : gmap string string) : M (gmap string string) :=
  if negb (has_tasks deps) then st_ret idMap
  else
    match index_of "__" toolName with
    | None => st_ret idMap
    | Some sep =>
        if String.eqb toolCallID "" then st_ret idMap
        else
          st! started := now in
          st! intent := chatVerificationIntent businessID toolName toolArgs in
          let '(expected, target, status) := intent in
          let task := dispatched_task businessID conversationID userID toolName display displayKey
            (str_take sep toolName) (str_drop (sep + 2) toolName) toolArgs approvalID started
            expected target status in
          st! oid := new_id fresh in
          st! created := now in
          st! r := on_tasks (CreateTask created oid task) in
          match r with
          | (_, Err _) => st_ret idMap
          | (task, Ok _) =>
              st! _ := stampReviewDispatch businessID toolName toolArgs approvalID in
              st! _ := (if has_hub deps then emit (FxHub true businessID task) else st_ret tt) in
              st_ret (<[toolCallID := tk_id task]> idMap)
          end
    end.

(** *** Tool results *)

Definition freshVerificationStatus (businessID taskID : string) : M string :=
  st! r := on_tasks (GetTask businessID taskID) in
  match r with
  | Err _ => st_ret ""
  | Ok task =>
      if negb (String.eqb (tk_verification_status task) "") then st_ret (tk_verification_status task)
      else
        match tk_verification_expected task with
        | None => st_ret ""
        | Some e =>
            if bool_decide (e = ∅) then st_ret ""
            else if String.eqb (tk_verification_target task) "" then st_ret VerificationUnverifiable
            else st_ret VerificationPending
        end
  end.

Definition markIntegrationTokenExpired (businessID platform externalID : string) : M unit :=
  if String.eqb platform "" then st_ret tt
  else match uuid_parse businessID with
       | None => st_ret tt
       | Some id => emit (FxTokenExpired id platform externalID)
       end.

(** The update of a finished call. *)
Definition result_update (businessID taskID status : string) (output : gomap)
    (error code verification : string) (completed : Z) : AgentTask := {|
  tk_id := taskID; tk_business_id := businessID; tk_type := ""; tk_display_name := "";
  tk_display_name_key := ""; tk_status := status; tk_platform := ""; tk_input := None;
  tk_output := output; tk_error := error; tk_error_code := code; tk_dispatch_approval_id := "";
  tk_origin_conversation_id := ""; tk_origin_user_id := ""; tk_verification_status := verification;
  tk_verification_fields := None; tk_verification_mismatches := []; tk_verification_error_code := "";
  tk_verification_checked_at := None; tk_verification_expected := None; tk_verification_target := "";
  tk_verification_attempt := 0; tk_verification_updated_at := None; tk_started_at := None;
  tk_completed_at := Some completed; tk_dismissed_at := None; tk_created_at := 0 |}.

Definition error_text (content : gomap) (toolError : string) : string :=
  match arg_str "error" content with
  | Some msg => if String.eqb msg "" then toolError else msg
  | None => toolError
  end.

Definition onToolResult (businessID toolCallID : string) (content toolArgs : gomap)
    (toolError code : string) (idMap : gmap string string) : M unit :=
  if negb (has_tasks deps) || String.eqb toolCallID "" then st_ret tt
  else
    match idMap !! toolCallID with
    | None => st_ret tt
    | Some taskID =>
        st! completed := now in
        st! update := (if negb (String.eqb toolError "")
          then st_ret (result_update businessID taskID AgentTaskStatusError None
                  (error_text content toolError) code "" completed)
          else st! v := freshVerificationStatus businessID taskID in
               st_ret (result_update businessID taskID AgentTaskStatusDone (Some (gomap_members content))
                  "" "" v completed)) in
        st! stamped := now in
        st! r := on_tasks (UpdateTask stamped update) in
        match r with
        | Err _ => st_ret tt
        | Ok _ =>
            let flip := String.eqb code integration_token_invalid in
            if negb (has_hub deps) && negb flip then st_ret tt
            else
              st! f := on_tasks (GetTask businessID taskID) in
              match f with
              | Err _ => st_ret tt
              | Ok task =>
                  st! _ := (if flip then markIntegrationTokenExpired businessID (tk_platform task)
                              (externalIDFromToolArgs (tk_platform task) toolArgs) else st_ret tt) in
                  st! _ := (if has_hub deps then emit (FxHub false businessID task) else st_ret tt) in
                  if String.eqb (tk_status task) AgentTaskStatusDone
                     && String.eqb (tk_verification_status task) VerificationPending
                     && has_verification deps
                  then emit (FxVerify (tk_business_id task) (tk_id task) (tk_verification_attempt task))
                  else st_ret tt
              end
        end
    end.

(** *** Posts *)

Definition failedPostTarget (businessID platform : string) (args : gomap) : M string :=
  let key := if String.eqb platform AgentVK then Some "group_id"
             else if String.eqb platform AgentTelegram then Some "channel_id" else None in
  match key with
  | None => st_ret ""
  | Some key =>
      let requested := str_or_empty key args in
      if String.eqb requested "" then st_ret ""
      else
        match uuid_parse businessID with
        | None => st_ret ""
        | Some business =>
            st! l := look (λ n, list_integrations deps n business) in
            match l with
            | None => st_ret ""
            | Some l =>
                st_ret (match filterb (λ i, String.eqb (in_platform i) platform
                            && String.eqb (in_status i) "active"
                            && String.eqb (in_external_id i) requested) l with
                        | i :: _ => in_external_id i
                        | [] => ""
                        end)
            end
        end
  end.

(** The platform and the status of an edit or a delete tool. *)
Definition mutation_of (tool : string) : option (string * string) :=
  if String.eqb tool TelegramEditChannelPost then Some (AgentTelegram, statusPublished)
  else if String.eqb tool TelegramDeleteChannelPost then Some (AgentTelegram, "deleted")
  else if String.eqb tool VKEditPost then Some (AgentVK, statusPublished)
  else if String.eqb tool VKDeletePost then Some (AgentVK, "deleted")
  else None.

Definition reconcile_one (businessID : string) (calls : list DToolCall) (result : DToolResult) : M unit :=
  if dtr_is_error result then st_ret tt
  else
    match call_of calls (dtr_tool_call_id result) with
    | None => st_ret tt
    | Some call =>
        match mutation_of (dtc_name call) with
        | None => st_ret tt
        | Some (platform, status) =>
            let externalID := str_or_empty "external_id" (dtr_content result) in
            let postID := resultPostID (dtr_content result) in
            if String.eqb externalID "" || String.eqb postID "" then st_ret tt
            else
              let text := arg_str "text" (dtc_arguments call) in
              if String.eqb status statusPublished && negb (bool_decide (is_Some text)) then st_ret tt
              else
                st! _ := on_posts (ReconcileMutation businessID platform externalID postID status
                            (if String.eqb status statusPublished then text else None)) in
                st_ret tt
        end
    end.

Definition reconcilePostMutations (businessID : string) (results : list DToolResult)
    (calls : list DToolCall) : M unit :=
  st_iter (reconcile_one businessID calls) results.

(** A Telegram schedule the queue API owns: its failed attempt stays with the task. *)
Definition failed_schedule (tc : DToolCall) (tr : DToolResult) : bool :=
  match arg_str "scheduled_at" (dtc_arguments tc) with
  | Some date => negb (String.eqb date "") && dtr_is_error tr
      && list_mem (dtc_name tc) [TelegramSendChannelPost; TelegramSendChannelPhoto]
  | None => false
  end.

Definition claims_schedule (tr : DToolResult) : bool :=
  bool_decide (gomap_get "api_owned_schedule" (dtr_content tr) = Some (GBool true))
  && negb (dtr_is_error tr).

(** The receipt names a post of this organisation, this turn and this channel. *)
Definition receipt_matches (businessID group recordID externalID : string) (r : result DocError Post) : bool :=
  match r with
  | Err _ => false
  | Ok p => negb (String.eqb externalID "") && String.eqb (po_id p) recordID
      && String.eqb (po_business_id p) businessID && String.eqb (po_broadcast_group_id p) group
      && String.eqb (match po_results p !! AgentTelegram with Some r => pr_external_id r | None => "" end)
           externalID
  end.

Definition unverified_receipt (tr : DToolResult) : DToolResult := {|
  dtr_tool_call_id := dtr_tool_call_id tr;
  dtr_content := Some [("error", GStr "scheduled post receipt could not be verified")];
  dtr_is_error := true; dtr_code := dtr_code tr |}.

(** The record of one posting call with the result [tr]. *)
Definition posted (businessID group : string) (info : postingToolInfo) (tc : DToolCall) (tr : DToolResult)
    (failed_target : string) (at_ : Z) : Post :=
  let status := if dtr_is_error tr then "error"
    else if pt_scheduled info then statusScheduled else statusPublished in
  let content := str_or_empty (pt_content_field info) (dtc_arguments tc) in
  let media := if String.eqb (pt_media_field info) "" then []
    else match arg_str (pt_media_field info) (dtc_arguments tc) with
         | Some u => if String.eqb u "" then [] else [u]
         | None => []
         end in
  let external := if dtr_is_error tr && negb (String.eqb (dtr_code tr) "")
                     && negb (String.eqb (dtr_code tr) "transient")
                  then failed_target else str_or_empty "external_id" (dtr_content tr) in
  {| po_operation_id := ""; po_id := ""; po_business_id := businessID; po_content := content;
     po_media_urls := media;
     po_results := {[ pt_platform info := {|
       pr_external_id := external;
       pr_post_id := if dtr_is_error tr then "" else resultPostID (dtr_content tr);
       pr_url := if dtr_is_error tr then "" else resultURL (dtr_content tr);
       pr_status := status;
       pr_error := if dtr_is_error tr then str_or_empty "error" (dtr_content tr) else "" |} ]};
     po_status := status;
     po_scheduled_at := if negb (dtr_is_error tr) && pt_scheduled info
       then parseScheduleTime (gomap_get (pt_schedule_field info) (dtc_arguments tc)) else None;
     po_published_at := if dtr_is_error tr || pt_scheduled info then None else Some at_;
     po_broadcast_group_id := group; po_created_at := 0 |}.

Definition record_post (businessID group : string) (tc : DToolCall) (tr : DToolResult) : M unit :=
  match obj_get (dtc_name tc) postingTools with
  | None => st_ret tt
  | Some info =>
      st! at_ := (if dtr_is_error tr || pt_scheduled info then st_ret 0%Z else now) in
      st! target := (if dtr_is_error tr && negb (String.eqb (dtr_code tr) "")
                        && negb (String.eqb (dtr_code tr) "transient")
                     then failedPostTarget businessID (pt_platform info) (dtc_arguments tc)
                     else st_ret "") in
      let post := posted businessID group info tc tr target at_ in
      st! oid := new_id fresh in
      st! created := now in
      st! r := on_posts (CreatePost created oid post) in
      match r with
      | Err _ => st_ret tt
      | Ok _ =>
          if String.eqb (po_status post) statusPublished && has_value_telemetry deps then
            match uuid_parse businessID with
            | None => st_ret tt
            | Some bizID =>
                emit (FxValue "post_published"
                  (businessID +:+ ":" +:+ group +:+ ":" +:+ dtc_id tc)%string bizID (pt_platform info) "post")
            end
          else st_ret tt
      end
  end.

Definition post_one (businessID group : string) (calls : list DToolCall) (tr : DToolResult) : M unit :=
  match call_of calls (dtr_tool_call_id tr) with
  | None => st_ret tt
  | Some tc =>
      if failed_schedule tc tr then st_ret tt
      else if claims_schedule tr then
        let recordID := str_or_empty "post_record_id" (dtr_content tr) in
        let externalID := str_or_empty "external_id" (dtr_content tr) in
        st! r := on_posts (GetPost recordID) in
        if receipt_matches businessID group recordID externalID r then st_ret tt
        else record_post businessID group tc (unverified_receipt tr)
      else record_post businessID group tc tr
  end.

(** *** Reviews *)

Definition reviewFromToolResult (m : gomap) (businessID platform id : string) (at_ : Z) : Review :=
  let reply := str_or_empty "reply" m in
  let created := match arg_str "created_at" m with
    | Some ts => if String.eqb ts "" then at_ else default at_ (parse_rfc3339 ts)
    | None => at_
    end in
  let yandex := String.eqb platform AgentYandexBusiness in
  let published := yandex_published m at_ in
  {| rv_id := id; rv_business_id := businessID; rv_platform := platform;
     rv_external_id := str_or_empty "id" m; rv_author_name := str_or_empty "author" m;
     rv_rating := rating_of (gomap_get "rating" m); rv_text := str_or_empty "text" m;
     rv_reply_text := reply;
     rv_reply_status := if String.eqb reply "" then ReviewReplyStatusPending else ReviewReplyStatusReplied;
     rv_platform_meta :=
       if yandex then match published with
                      | Some p => [("published_at", GStr (format_rfc3339 p))]
                      | None => []
                      end
       else PlatformMetaFromMap m;
     rv_dispatch_approval_id := "";
     rv_created_at := if yandex then default created published else created;
     rv_replied_at := None; rv_draft_reply := ""; rv_draft_status := ""; rv_draft_generated_at := None;
     rv_draft_error := ""; rv_needs_review := false; rv_accepted_unedited := None;
     rv_edit_distance := None; rv_auto_reply_deferred := false |}.

Definition reconcile_reply (businessID : string) (calls : list DToolCall) (tr : DToolResult) : M unit :=
  if dtr_is_error tr then st_ret tt
  else
    match call_of calls (dtr_tool_call_id tr) with
    | None => st_ret tt
    | Some tc =>
        match obj_get (dtc_name tc) replyReviewPlatform with
        | None => st_ret tt
        | Some platform =>
            let externalID := replyReviewExternalID (dtc_name tc) (dtc_arguments tc) in
            if String.eqb externalID "" then st_ret tt
            else
              let replyText := str_or_empty "text" (dtc_arguments tc) in
              st! r := on_reviews (GetByExternalID businessID platform externalID) in
              match r with
              | Err _ => st_ret tt
              | Ok review =>
                  st! at_ := now in
                  st! u := on_reviews (UpdateReplyDispatched at_ (rv_id review) replyText
                              ReviewReplyStatusReplied (dtc_approval_id tc)) in
                  match u with
                  | Err _ => st_ret tt
                  | Ok _ =>
                      match uuid_parse businessID with
                      | Some bizID =>
                          if has_value_telemetry deps
                          then emit (FxValue "review_replied" (businessID +:+ ":" +:+ rv_id review)%string
                                 bizID platform "review_reply")
                          else st_ret tt
                      | None => st_ret tt
                      end
                  end
              end
        end
    end.

Definition reconcileReviewReplies (businessID : string) (results : list DToolResult) (calls : list DToolCall)
    : M unit := st_iter (reconcile_reply businessID calls) results.

Definition get_reviews_suffix : string := "__get_reviews".

(** [strings.HasSuffix] with the rest of the name. *)
Definition cut_suffix (s suffix : string) : option string :=
  let n := String.length s - String.length suffix in
  if (String.length suffix <=? String.length s)%nat && String.eqb (str_drop n s) suffix
  then Some (str_take n s) else None.

Definition upsert_review (businessID platform : string) (r : gval) : M unit :=
  match r with
  | GObj m =>
      st! at_ := now in
      st! id := new_id fresh in
      let review := reviewFromToolResult (Some m) businessID platform id at_ in
      if String.eqb (rv_external_id review) "" then st_ret tt
      else st! _ := on_reviews (Upsert id review) in st_ret tt
  | _ => st_ret tt
  end.

Definition sync_reviews (businessID : string) (calls : list DToolCall) (tr : DToolResult) : M unit :=
  match call_of calls (dtr_tool_call_id tr) with
  | None => st_ret tt
  | Some tc =>
      match cut_suffix (dtc_name tc) get_reviews_suffix with
      | None => st_ret tt
      | Some platform =>
          if dtr_is_error tr then st_ret tt
          else match gomap_get "reviews" (dtr_content tr) with
               | Some (GArr l) => st_iter (upsert_review businessID platform) l
               | _ => st_ret tt
               end
      end
  end.

Definition recordPostsAndReviews (businessID group : string) (calls : list DToolCall)
    (results : list DToolResult) : M unit :=
  match results with
  | [] => st_ret tt
  | _ =>
      st! _ := (if has_posts deps then
                  st! _ := reconcilePostMutations businessID results calls in
                  st_iter (post_one businessID group calls) results
                else st_ret tt) in
      if has_reviews deps then
        st! _ := reconcileReviewReplies businessID results calls in
        st_iter (sync_reviews businessID calls) results
      else st_ret tt
  end.

(** *** Audit *)

(** One row per landed call [classify] knows. *)
Definition audit_one (bizID : uuid) (actor : option uuid)
    (classify : DToolCall → DToolResult → option (string * string * string))
    (calls : list DToolCall) (tr : DToolResult) : M unit :=
  if dtr_is_error tr then st_ret tt
  else
    match call_of calls (dtr_tool_call_id tr) with
    | None => st_ret tt
    | Some tc =>
        match classify tc tr with
        | None => st_ret tt
        | Some (action, platform, target) => emit (FxAudit action bizID actor (dtc_name tc) platform target)
        end
    end.

Definition audit_mutations (classify : DToolCall → DToolResult → option (string * string * string))
    (businessID actorUserID : string) (calls : list DToolCall) (results : list DToolResult) : M unit :=
  if negb (has_audit deps) then st_ret tt
  else match uuid_parse businessID with
       | None => st_ret tt
       | Some bizID => st_iter (audit_one bizID (uuid_parse actorUserID) classify calls) results
       end.

Definition rpa_row (tc : DToolCall) (tr : DToolResult) : option (string * string * string) :=
  (λ action, (action, AgentYandexBusiness, rpaTargetID (dtc_name tc) (dtc_arguments tc)))
    <$> obj_get (dtc_name tc) rpaMutationTools.

Definition platform_row (tc : DToolCall) (tr : DToolResult) : option (string * string * string) :=
  (λ m : string * string, (m.1, m.2, platformMutationTarget (dtc_name tc) (dtc_arguments tc) (dtr_content tr)))
    <$> obj_get (dtc_name tc) platformMutationTools.

Definition auditRPAMutations := audit_mutations rpa_row.
Definition auditPlatformMutations := audit_mutations platform_row.

(** ** The messages and the approval batches are not touched *)

Lemma keeps_yandexTarget b : keeps chat_part (yandexTarget b).
Proof. unfold yandexTarget. keeps_tac. Qed.
#[local] Hint Resolve keeps_yandexTarget : keeps.

Lemma keeps_intent b t a : keeps chat_part (chatVerificationIntent b t a).
Proof. unfold chatVerificationIntent. keeps_tac. Qed.
#[local] Hint Resolve keeps_intent : keeps.

Lemma keeps_stamp b t a i : keeps chat_part (stampReviewDispatch b t a i).
Proof. unfold stampReviewDispatch. keeps_tac. Qed.
#[local] Hint Resolve keeps_stamp : keeps.

Lemma keeps_onToolCall b c u i t d k a p m :
  keeps chat_part (onToolCallWithOrigin b c u i t d k a p m).
Proof. unfold onToolCallWithOrigin, now. keeps_tac. Qed.

Lemma keeps_fresh_status b t : keeps chat_part (freshVerificationStatus b t).
Proof. unfold freshVerificationStatus. keeps_tac. Qed.
#[local] Hint Resolve keeps_fresh_status : keeps.

Lemma keeps_mark b p e : keeps chat_part (markIntegrationTokenExpired b p e).
Proof. unfold markIntegrationTokenExpired. keeps_tac. Qed.
#[local] Hint Resolve keeps_mark : keeps.

Lemma keeps_onToolResult b i c a e k m : keeps chat_part (onToolResult b i c a e k m).
Proof. unfold onToolResult, now. keeps_tac. Qed.

Lemma keeps_failed_target b p a : keeps chat_part (failedPostTarget b p a).
Proof. unfold failedPostTarget. keeps_tac. Qed.
#[local] Hint Resolve keeps_failed_target : keeps.

Lemma keeps_record_post b g c r : keeps chat_part (record_post b g c r).
Proof. unfold record_post, now. keeps_tac. Qed.
#[local] Hint Resolve keeps_record_post : keeps.

Lemma keeps_records b g c r : keeps chat_part (recordPostsAndReviews b g c r).
Proof.
  unfold recordPostsAndReviews, reconcilePostMutations, reconcile_one, post_one, reconcileReviewReplies,
    reconcile_reply, sync_reviews, upsert_review, now. keeps_tac.
Qed.

Lemma keeps_audit k b u c r : keeps chat_part (audit_mutations k b u c r).
Proof. unfold audit_mutations, audit_one. keeps_tac. Qed.

(** ** The audit trail *)

(** The audit row of one result, if it has one. *)
Definition audit_row (bizID : uuid) (actor : option uuid)
    (classify : DToolCall → DToolResult → option (string * string * string))
    (calls : list DToolCall) (tr : DToolResult) : option Fx :=
  if dtr_is_error tr then None
  else match call_of calls (dtr_tool_call_id tr) with
       | None => None
       | Some tc => (λ row : string * string * string,
           FxAudit row.1.1 bizID actor (dtc_name tc) row.1.2 row.2) <$> classify tc tr
       end.

Lemma audit_appends bizID actor classify calls results w :
  w_fx (st_iter (audit_one bizID actor classify calls) results w).2
  = w_fx w ++ omap (audit_row bizID actor classify calls) results.
Proof.
  revert w. induction results as [|tr results IH]; intros w; [by rewrite app_nil_r|].
  cbn [st_iter omap list_omap]. rewrite st_bind_run, IH. unfold audit_one, audit_row.
  destruct (dtr_is_error tr); [done|]. destruct (call_of calls _) as [tc|]; [|done].
  destruct (classify tc tr) as [[[action platform] target]|]; [|done]. cbn. by rewrite <- app_assoc.
Qed.

(** Which of the two audits knows a tool. *)
Definition audited_by_rpa (tool : string) : bool := bool_decide (is_Some (obj_get tool rpaMutationTools)).
Definition audited_by_platform (tool : string) : bool := bool_decide (is_Some (obj_get tool platformMutationTools)).

Definition public_tools : list string := (fst <$> postingTools) ++ (fst <$> replyReviewPlatform).

(** The audit trail of a turn is exact: the two audits append to the log one
    row per successful result of a tool they know, in the order of the results,
    with the acting user, and nothing else; every tool that publishes a post or a
    reply is known to exactly one of the two, so that no public action goes
    unaudited or is audited twice. *)
Theorem mutations_audited_once businessID actorUserID calls results w bizID :
  has_audit deps = true → uuid_parse businessID = Some bizID →
  let rows classify := omap (audit_row bizID (uuid_parse actorUserID) classify calls) results in
  w_fx (auditPlatformMutations businessID actorUserID calls results
          (auditRPAMutations businessID actorUserID calls results w).2).2
  = w_fx w ++ rows rpa_row ++ rows platform_row
  ∧ ∀ tool, tool ∈ public_tools → xorb (audited_by_rpa tool) (audited_by_platform tool) = true.
Proof.
  intros Ha Hb. cbn zeta. unfold auditPlatformMutations, auditRPAMutations, audit_mutations. rewrite Ha, Hb. cbn [negb].
  rewrite !audit_appends, <- app_assoc. split; [done|].
  assert (Forall (λ tool, xorb (audited_by_rpa tool) (audited_by_platform tool) = true) public_tools) as Hall
    by (repeat constructor).
  intros tool Hin. rewrite Forall_forall in Hall. by apply Hall.
Qed.
End postal.

#[export] Hint Resolve keeps_onToolCall keeps_onToolResult keeps_records keeps_audit : keeps.
