(* ===== verification/ChatHitl.v ===== *)
(** * The chat gate and the resume of an approved turn

    [services/api/internal/service/chatturn/persist.go] and [hitl.go]: what a
    request to a conversation is routed to, how an assistant message is finalised,
    and the resume stream that folds the approved tools' results into the paused
    message.  Log lines, metrics and context deadlines are left out; a deadline
    shows as a driver error of the store. *)

From S2P Require Import Prelude Json GoTime Types OrchClient Tools Mongo ChatStore TaskStore PostStore HitlStore ReviewStore ChatWorld Postal.
Local Open Scope go_scope.

Definition streamBudget : Z := (10 * Minute)%Z.

Inductive TurnOutcome :=
| OutcomeDone
| OutcomeError
| OutcomePauseHITL
| OutcomeReemittedApproval
| OutcomeRejoinedResume
| OutcomeOrchestratorUnavailable
| OutcomeBusinessNotFound
| OutcomeInlineError
| OutcomeMissingMessage
| OutcomeConversationNotFound
| OutcomeTurnInProgress
| OutcomeResumeInProgress.

Inductive gateAction :=
| gateFresh
| gateRejoinResume
| gateReemitApproval
| gateHealStranded
| gateRejectInProgress.

#[export] Instance TurnOutcome_eq_dec : EqDecision TurnOutcome.
Proof. solve_decision. Defined.
#[export] Instance gateAction_eq_dec : EqDecision gateAction.
Proof. solve_decision. Defined.

Definition reasonNoActiveApproval : string := "no_active_approval_for_conversation".

Definition error_event (content : string) : SseEvent := {|
  ev_type := "error"; ev_code := ""; ev_content := content; ev_tool_call_id := ""; ev_tool_name := "";
  ev_tool_display_name := ""; ev_tool_display_name_key := ""; ev_tool_args := None;
  ev_tool_result := GNull; ev_tool_error := ""; ev_batch_id := ""; ev_calls := [] |}.

Definition approval_frame (batchID : string) (calls : list ApprovalCall) : SseEvent := {|
  ev_type := "tool_approval_required"; ev_code := ""; ev_content := ""; ev_tool_call_id := "";
  ev_tool_name := ""; ev_tool_display_name := ""; ev_tool_display_name_key := ""; ev_tool_args := None;
  ev_tool_result := GNull; ev_tool_error := ""; ev_batch_id := batchID; ev_calls := calls |}.

(** A tool result that is not an object is wrapped. *)
Definition result_content (v : gval) : gomap :=
  match v with GObj m => Some m | _ => Some [("raw", v)] end.

Definition result_of (ev : SseEvent) : DToolResult := {|
  dtr_tool_call_id := ev_tool_call_id ev; dtr_content := result_content (ev_tool_result ev);
  dtr_is_error := negb (String.eqb (ev_tool_error ev) ""); dtr_code := ev_code ev |}.

(** [<batch_id>-<call_id>]. *)
Definition approval_id (batchID callID : string) : string := (batchID +:+ "-" +:+ callID)%string.

Definition resumeApprovalID (batchID callID : string) : string :=
  if String.eqb callID "" then "" else approval_id batchID callID.

(** A batch call in its pending form. *)
Definition pending_call (batchID : string) (call : ApprovalCall) : DToolCall := {|
  dtc_id := ac_call_id call; dtc_name := ac_tool_name call; dtc_arguments := ac_args call;
  dtc_approval_id := approval_id batchID (ac_call_id call); dtc_status := ToolCallStatusPending |}.

(** The position of the last element with each id. *)
Fixpoint last_index_from (n : nat) (ids : list string) (m : gmap string nat) : gmap string nat :=
  match ids with
  | [] => m
  | id :: ids' => last_index_from (S n) ids' (<[id := n]> m)
  end.

Definition index_map (ids : list string) : gmap string nat := last_index_from 0 ids ∅.

(** [dst[i] = tr] for a known id, [append] for a new one. *)
Definition put_result (idx : gmap string nat) (l : list DToolResult) (tr : DToolResult)
    : gmap string nat * list DToolResult :=
  match idx !! dtr_tool_call_id tr with
  | Some i => (idx, <[i := tr]> l)
  | None => (<[dtr_tool_call_id tr := length l]> idx, l ++ [tr])
  end.

Definition resumeToolArgs (toolCallID : string) (callIdx : gmap string nat) (persisted fresh : list DToolCall)
    : gomap :=
  if String.eqb toolCallID "" then None
  else
    match callIdx !! toolCallID with
    | Some i =>
        match persisted !! i with
        | Some c => dtc_arguments c
        | None => match filterb (λ c, String.eqb (dtc_id c) toolCallID) fresh with
                  | c :: _ => dtc_arguments c | [] => None end
        end
    | None => match filterb (λ c, String.eqb (dtc_id c) toolCallID) fresh with
              | c :: _ => dtc_arguments c | [] => None end
    end.

(** What the resume stream accumulates. *)
Record ResumeState := {
  rs_msg : DMessage;
  rs_text : string;
  rs_call_idx : gmap string nat;
  rs_result_idx : gmap string nat;
  rs_rec_result_idx : gmap string nat;
  rs_fresh_ids : list string;
  rs_telemetry : list string;
  rs_ids : gmap string string;
  rs_calls : list DToolCall;
  rs_results : list DToolResult;
  rs_terminated : bool;
  rs_fire_title : bool;
  rs_repause : option SseEvent;
}.

Definition start_resume (m : DMessage) : ResumeState := {|
  rs_msg := m; rs_text := dm_content m;
  rs_call_idx := index_map (dtc_id <$> dm_tool_calls m);
  rs_result_idx := index_map (dtr_tool_call_id <$> dm_tool_results m);
  rs_rec_result_idx := ∅; rs_fresh_ids := []; rs_telemetry := []; rs_ids := ∅; rs_calls := [];
  rs_results := []; rs_terminated := false; rs_fire_title := false; rs_repause := None |}.

(** The message with other calls and results. *)
Definition dm_tools (calls : list DToolCall) (results : list DToolResult) (m : DMessage) : DMessage :=
  dm_edit (dm_content m) calls results (dm_error_code m) (dm_status m) m.

Definition rs_edit (m : DMessage) (text : string) (call_idx result_idx rec_idx : gmap string nat)
    (fresh telemetry : list string) (ids : gmap string string) (calls : list DToolCall)
    (results : list DToolResult) (s : ResumeState) : ResumeState := {|
  rs_msg := m; rs_text := text; rs_call_idx := call_idx; rs_result_idx := result_idx;
  rs_rec_result_idx := rec_idx; rs_fresh_ids := fresh; rs_telemetry := telemetry; rs_ids := ids;
  rs_calls := calls; rs_results := results; rs_terminated := rs_terminated s;
  rs_fire_title := rs_fire_title s; rs_repause := rs_repause s |}.

(** [case "text"]. *)
Definition add_text (content : string) (s : ResumeState) : ResumeState :=
  rs_edit (rs_msg s) (rs_text s +:+ content)%string (rs_call_idx s) (rs_result_idx s)
    (rs_rec_result_idx s) (rs_fresh_ids s) (rs_telemetry s) (rs_ids s) (rs_calls s) (rs_results s) s.

(** [case "tool_call"], its task row apart. *)
Definition add_call (batchID : string) (ev : SseEvent) (s : ResumeState) : ResumeState :=
  let id := ev_tool_call_id ev in
  let call status := {| dtc_id := id; dtc_name := ev_tool_name ev; dtc_arguments := ev_tool_args ev;
    dtc_approval_id := resumeApprovalID batchID id; dtc_status := status |} in
  let m := rs_msg s in
  let known := bool_decide (is_Some (rs_call_idx s !! id)) in
  let new := negb (String.eqb id "") && negb known in
  rs_edit
    (if new then dm_tools (dm_tool_calls m ++ [call ToolCallStatusApproved]) (dm_tool_results m) m else m)
    (rs_text s)
    (if new then <[id := length (dm_tool_calls m)]> (rs_call_idx s) else rs_call_idx s)
    (rs_result_idx s) (rs_rec_result_idx s)
    (if String.eqb id "" then rs_fresh_ids s else id :: rs_fresh_ids s)
    (rs_telemetry s) (rs_ids s) (rs_calls s ++ [call ""]) (rs_results s) s.

Definition set_call_status (i : nat) (status : string) (m : DMessage) : DMessage :=
  dm_tools (alter (dtc_set_status status) i (dm_tool_calls m)) (dm_tool_results m) m.

(** A result is kept when its call is known. *)
Definition known_result (s : ResumeState) (id : string) : bool :=
  negb (String.eqb id "")
  && (bool_decide (is_Some (rs_call_idx s !! id)) || list_mem id (rs_fresh_ids s)).

(** [case "tool_result"], its task row and telemetry apart. *)
Definition add_result (ev : SseEvent) (s : ResumeState) : ResumeState :=
  let tr := result_of ev in
  let m := rs_msg s in
  let '(ridx, results) := put_result (rs_result_idx s) (dm_tool_results m) tr in
  let '(recidx, rec) := put_result (rs_rec_result_idx s) (rs_results s) tr in
  let m := dm_tools (dm_tool_calls m) results m in
  let m := match rs_call_idx s !! ev_tool_call_id ev with
    | Some i => set_call_status i
        (if dtr_is_error tr then ToolCallStatusRejected else ToolCallStatusApproved) m
    | None => m
    end in
  rs_edit m (rs_text s) (rs_call_idx s) ridx recidx (rs_fresh_ids s) (rs_telemetry s) (rs_ids s)
    (rs_calls s) rec s.

(** [case "tool_rejected"]. *)
Definition reject_call (id : string) (s : ResumeState) : ResumeState :=
  match rs_call_idx s !! id with
  | Some i => rs_edit (set_call_status i ToolCallStatusRejected (rs_msg s)) (rs_text s) (rs_call_idx s)
      (rs_result_idx s) (rs_rec_result_idx s) (rs_fresh_ids s) (rs_telemetry s) (rs_ids s) (rs_calls s)
      (rs_results s) s
  | None => s
  end.

Definition set_repause (ev : SseEvent) (s : ResumeState) : ResumeState := {|
  rs_msg := rs_msg s; rs_text := rs_text s; rs_call_idx := rs_call_idx s;
  rs_result_idx := rs_result_idx s; rs_rec_result_idx := rs_rec_result_idx s;
  rs_fresh_ids := rs_fresh_ids s; rs_telemetry := rs_telemetry s; rs_ids := rs_ids s;
  rs_calls := rs_calls s; rs_results := rs_results s; rs_terminated := rs_terminated s;
  rs_fire_title := rs_fire_title s; rs_repause := Some ev |}.

Definition set_ids (ids : gmap string string) (telemetry : list string) (s : ResumeState) : ResumeState :=
  rs_edit (rs_msg s) (rs_text s) (rs_call_idx s) (rs_result_idx s) (rs_rec_result_idx s)
    (rs_fresh_ids s) telemetry ids (rs_calls s) (rs_results s) s.

Definition terminate (status code : string) (title : bool) (s : ResumeState) : ResumeState := {|
  rs_msg := dm_edit (rs_text s) (dm_tool_calls (rs_msg s)) (dm_tool_results (rs_msg s)) code status (rs_msg s);
  rs_text := rs_text s; rs_call_idx := rs_call_idx s; rs_result_idx := rs_result_idx s;
  rs_rec_result_idx := rs_rec_result_idx s; rs_fresh_ids := rs_fresh_ids s;
  rs_telemetry := rs_telemetry s; rs_ids := rs_ids s; rs_calls := rs_calls s; rs_results := rs_results s;
  rs_terminated := true; rs_fire_title := title; rs_repause := rs_repause s |}.

(** The message a second pause leaves: the calls of the new batch it does not
    list yet are appended in their pending form. *)
Definition repaused (content : string) (pause : SseEvent) (m : DMessage) : DMessage :=
  let existing := dtc_id <$> dm_tool_calls m in
  let added := filterb (λ c, negb (list_mem (ac_call_id c) existing)) (ev_calls pause) in
  dm_edit content (dm_tool_calls m ++ (pending_call (ev_batch_id pause) <$> added)) (dm_tool_results m)
    (dm_error_code m) MessageStatusPendingApproval m.

(** The message an interrupted resume leaves. *)
Definition interrupted_resume (text : string) (m : DMessage) : DMessage :=
  dm_edit text (dm_tool_calls m) (dm_tool_results m) (dm_error_code m)
    (if list_mem (dm_status m) [MessageStatusPendingApproval; MessageStatusInProgress]
     then MessageStatusComplete else dm_status m) m.

Section hitl.
Context {CM : Coll DMessage dm_id} {CV : Coll Conversation cv_id}
  {CB : Coll PendingToolCallBatch b_id} {CT : Coll AgentTask tk_id}
  {CP : Coll Post po_id} {CR : Coll Review rv_id} {U : UUIDText} {J : JsonText}.
Variables (deps : Deps) (clock : nat → Z) (fresh : nat → string)
  (yandex_published : gomap → Z → option Z) (format_rfc3339 : Z → string)
  (can_flush : bool) (gone : nat → bool).

Notation M A := (World → A * World).
Notation now := (now clock).
Notation records := (recordPostsAndReviews deps clock fresh yandex_published format_rfc3339).

(** ** persist.go *)

Definition bump_at (conversationID : string) (ts : Z) : M unit :=
  if String.eqb conversationID "" then st_ret tt
  else st! _ := on_chat (BumpLastMessageAt conversationID ts) in st_ret tt.

Definition bumpLastMessageAt (msg : DMessage) : M unit :=
  if String.eqb (dm_conversation_id msg) "" then st_ret tt
  else match dm_created_at msg with
       | Some ts => bump_at (dm_conversation_id msg) ts
       | None => st! ts := now in bump_at (dm_conversation_id msg) ts
       end.

Definition bumpLastMessageAtNow (conversationID : string) : M unit :=
  if String.eqb conversationID "" then st_ret tt
  else st! ts := now in bump_at conversationID ts.

(** [Create] followed by the bump: [persistUserMessage] and
    [persistAssistantPlaceholder]. *)
Definition create_and_bump (msg : DMessage) : M (result ChatError unit) :=
  st! at_ := now in
  st! oid := new_id fresh in
  st! r := on_chat (CreateMessage at_ oid msg) in
  st! _ := bumpLastMessageAt r.1 in
  st_ret r.2.

Definition finalizeAssistantMessage (msg : DMessage) : M (result ChatError unit) :=
  st! r := on_chat (UpdateMessage msg) in
  match r with
  | Err ErrMessageNotFound => create_and_bump msg
  | r => st! _ := bumpLastMessageAt msg in st_ret r
  end.

Definition fireAutoTitle (conversationID : string) (businessID : option string)
    (userText : M (option string)) (assistantText : string) : M unit :=
  if negb (has_titler deps) then st_ret tt
  else
    st! r := on_chat (GetConversation conversationID) in
    match r with
    | Err _ => st_ret tt
    | Ok conv =>
        if negb (bool_decide (cv_title_status conv = Some TitleStatusAutoPending)) then st_ret tt
        else
          st! t := userText in
          match t with
          | None => st_ret tt
          | Some t => emit (FxTitler (default (cv_business_id conv) businessID) conversationID t assistantText)
          end
    end.

Definition fireAutoTitleIfPending (conversationID businessID userText assistantText : string) : M unit :=
  fireAutoTitle conversationID (Some businessID) (st_ret (Some userText)) assistantText.

(** The latest user message of the loaded history, empty when there is none. *)
Definition last_user_text (msgs : list DMessage) : string :=
  match filterb (λ m, String.eqb (dm_role m) MessageRoleUser) (rev msgs) with
  | m :: _ => dm_content m
  | [] => ""
  end.

Definition fireAutoTitleIfPendingResume (conversationID : string) (assistantMsg : DMessage) : M unit :=
  fireAutoTitle conversationID None
    (st! r := on_chat (ListByConversationID conversationID (history_limit deps) 0) in
     match r with
     | Err _ => st_ret None
     | Ok msgs => st_ret (Some (last_user_text msgs))
     end) (dm_content assistantMsg).

(** ** The gate *)

Definition first_status (ss : list string) (l : list PendingToolCallBatch) : option PendingToolCallBatch :=
  head (filterb (λ b, list_mem (b_status b) ss) l).

Definition isRecentInProgress (msg : DMessage) : M bool :=
  if negb (String.eqb (dm_status msg) MessageStatusInProgress) then st_ret false
  else match dm_created_at msg with
       | None => st_ret false
       | Some created => st! t := now in st_ret (t - created <? streamBudget)%Z
       end.

Definition gateOnRequest (conversationID headerBatchID : string)
    : M (gateAction * option DMessage * option PendingToolCallBatch * string) :=
  st! found := on_chat (FindByConversationActive conversationID) in
  match found with
  | Err _ => st_ret (gateFresh, None, None, "")
  | Ok activeMsg =>
      if negb (String.eqb headerBatchID "")
      then st_ret (gateRejoinResume, Some activeMsg, None, headerBatchID)
      else
        st! t := now in
        st! l := on_batches (ListPendingByConversation t conversationID) in
        let batches := match l with Ok bs => bs | Err _ => [] end in
        match first_status [statusResolving; statusResuming] batches with
        | Some b => st_ret (gateRejoinResume, Some activeMsg, Some b, b_id b)
        | None =>
            match first_status [statusPending] batches with
            | Some b => st_ret (gateReemitApproval, Some activeMsg, Some b, "")
            | None =>
                st! recent := isRecentInProgress activeMsg in
                st_ret (if recent : bool then gateRejectInProgress else gateHealStranded,
                        Some activeMsg, None, "")
            end
        end
  end.

Definition finalizeStranded (msg : DMessage) : M unit :=
  st! _ := on_chat (UpdateMessage (dm_set_status MessageStatusComplete msg)) in
  bumpLastMessageAtNow (dm_conversation_id msg).

Definition write_event (ev : SseEvent) : M unit :=
  if can_flush
  then emit (FxWrote ("data: " +:+ sse_Marshal ev +:+ line_break +:+ line_break)%string)
  else emit (FxWrote ("streaming not supported" +:+ line_break)%string).

Definition reemitApprovalEvent (batch : PendingToolCallBatch) : M unit :=
  write_event (approval_frame (b_id batch)
    ((λ call, {| ac_call_id := pc_call_id call; ac_tool_name := pc_tool_name call;
                 ac_args := pc_arguments call; ac_editable_fields := []; ac_floor := "manual" |})
     <$> b_calls batch)).

Definition sseInlineError : M unit := write_event (error_event reasonNoActiveApproval).

(** ** Ownership (turn.go) *)

Definition ownsConversation (conversationID userID businessID : string) : M bool :=
  st! r := on_chat (GetConversation conversationID) in
  match r with
  | Err _ => st_ret true
  | Ok conv => st_ret (String.eqb (cv_user_id conv) userID && String.eqb (cv_business_id conv) businessID)
  end.

(** ** The resume stream *)

Definition recordApprovalResult (batch : PendingToolCallBatch) (callID : string) (failed : bool)
    (seen : list string) : M (list string) :=
  if negb (has_approval_telemetry deps) || list_mem callID seen then st_ret seen
  else
    match filterb (λ c, String.eqb (pc_call_id c) callID && negb (String.eqb (Kind (pc_tool_name c)) "")
              && list_mem (pc_verdict c) ["approve"; "edit"]) (b_calls batch) with
    | [] => st_ret seen
    | call :: _ =>
        let id := resumeApprovalID (b_id batch) callID in
        st! _ := emit (FxApproval {| tev_batch_id := b_id batch; tev_draft_id := id; tev_approval_id := id;
          tev_kind := Kind (pc_tool_name call); tev_source := "chat"; tev_action := "send_result";
          tev_outcome := if failed then "error" else "success" |}) in
        st_ret (callID :: seen)
    end.

(** The side effects common to the three ends of a resume. *)
Definition record_resume (businessID actorUserID messageID : string) (calls : list DToolCall)
    (results : list DToolResult) : M unit :=
  st! _ := records businessID messageID calls results in
  st! _ := auditRPAMutations deps businessID actorUserID calls results in
  auditPlatformMutations deps businessID actorUserID calls results.

Definition save_resume (msg : DMessage) (bumped businessID actorUserID : string) (calls : list DToolCall)
    (results : list DToolResult) : M unit :=
  st! _ := on_chat (UpdateMessage msg) in
  st! _ := bumpLastMessageAtNow bumped in
  record_resume businessID actorUserID (dm_id msg) calls results.

Definition persistResumeDone (msg : DMessage) (businessID actorUserID : string) (calls : list DToolCall)
    (results : list DToolResult) : M unit :=
  save_resume msg (dm_conversation_id msg) businessID actorUserID calls results.

Definition persistResumeRePause (msg : DMessage) (businessID actorUserID content : string) (pause : SseEvent)
    (calls : list DToolCall) (results : list DToolResult) : M TurnOutcome :=
  let msg := repaused content pause msg in
  st! _ := save_resume msg (dm_conversation_id msg) businessID actorUserID calls results in
  st_ret OutcomePauseHITL.

Definition compensateResuming (batchID : string) : M unit :=
  st! t := now in
  st! _ := on_batches (AtomicTransitionResumingToResolving t batchID) in
  st_ret tt.

(** [OnEvent] on the accumulated state. *)
Definition on_resume_event (claimed : PendingToolCallBatch)
    (batchID conversationID businessID actorUserID : string) (ev : SseEvent) (s : ResumeState)
    : M ResumeState :=
  let ty := ev_type ev in
  if rs_terminated s then st_ret s
  else if String.eqb ty "text" then st_ret (add_text (ev_content ev) s)
  else if String.eqb ty "tool_call" then
    let s := add_call batchID ev s in
    st! ids := onToolCallWithOrigin deps clock fresh businessID conversationID actorUserID
                 (ev_tool_call_id ev) (ev_tool_name ev) (ev_tool_display_name ev)
                 (ev_tool_display_name_key ev) (ev_tool_args ev)
                 (resumeApprovalID batchID (ev_tool_call_id ev)) (rs_ids s) in
    st_ret (set_ids ids (rs_telemetry s) s)
  else if String.eqb ty "tool_approval_required" then st_ret (set_repause ev s)
  else if String.eqb ty "tool_result" then
    if negb (known_result s (ev_tool_call_id ev)) then st_ret s
    else
      let failed := negb (String.eqb (ev_tool_error ev) "") in
      st! seen := recordApprovalResult claimed (ev_tool_call_id ev) failed (rs_telemetry s) in
      let s := set_ids (rs_ids s) seen (add_result ev s) in
      st! _ := onToolResult deps clock businessID (ev_tool_call_id ev) (result_content (ev_tool_result ev))
                 (resumeToolArgs (ev_tool_call_id ev) (rs_call_idx s) (dm_tool_calls (rs_msg s)) (rs_calls s))
                 (ev_tool_error ev) (ev_code ev) (rs_ids s) in
      st_ret s
  else if String.eqb ty "tool_rejected" then st_ret (reject_call (ev_tool_call_id ev) s)
  else if String.eqb ty "error" then
    let s := terminate MessageStatusError (if String.eqb (ev_code ev) "" then "STREAM_ERROR" else ev_code ev)
               false s in
    st! _ := persistResumeDone (rs_msg s) businessID actorUserID (rs_calls s) (rs_results s) in
    st_ret s
  else if String.eqb ty "done" then
    let s := terminate MessageStatusComplete (dm_error_code (rs_msg s)) true s in
    st! _ := persistResumeDone (rs_msg s) businessID actorUserID (rs_calls s) (rs_results s) in
    st_ret s
  else st_ret s.

(** A callback that threads a state of its own beside the world. *)
Definition with_state {S} (f : SseEvent → S → M S) (ev : SseEvent) : S * World → unit * (S * World) :=
  λ sw, let '(s, w) := f ev sw.1 sw.2 in (tt, (s, w)).

Definition write_beside {S} (bytes : string) : S * World → unit * (S * World) :=
  λ sw, (tt, (sw.1, (emit (FxWrote bytes) sw.2).2)).

Definition stream_through {S} (batchID : string) (reply : Reply) (f : SseEvent → S → M S) (s : S)
    : M (option StreamError * S) := λ w,
  let '(e, (s, w)) := StreamSSE can_flush (with_state f) write_beside gone batchID reply (s, w) in
  ((e, s), w).

(** The orchestrator refused the stream before its first byte. *)
Definition refused (err : option StreamError) (s : ResumeState) : bool :=
  match err with
  | Some e => negb (rs_terminated s) && str_contains (se_text e) "stream resume:"
  | None => false
  end.

(** What follows the stream: give the claim back, or write what the stream left
    unwritten. *)
Definition settle_resume (conversationID businessID actorUserID batchID : string)
    (streamErr : option StreamError) (s : ResumeState) : M TurnOutcome :=
  if refused streamErr s then
    st! _ := compensateResuming batchID in st_ret OutcomeOrchestratorUnavailable
  else if rs_terminated s then
    st! _ := (if rs_fire_title s then fireAutoTitleIfPendingResume conversationID (rs_msg s)
              else st_ret tt) in
    st_ret OutcomeRejoinedResume
  else
    match rs_repause s with
    | Some pause => persistResumeRePause (rs_msg s) businessID actorUserID (rs_text s) pause
                      (rs_calls s) (rs_results s)
    | None =>
        st! _ := save_resume (interrupted_resume (rs_text s) (rs_msg s)) conversationID businessID
                   actorUserID (rs_calls s) (rs_results s) in
        st_ret OutcomeRejoinedResume
    end.

Definition runResumeStream (reply : Reply) (conversationID : string) (activeMsg : DMessage)
    (businessID actorUserID batchID : string) (body : gval) : M TurnOutcome :=
  st! t := now in
  st! claim := on_batches (AtomicTransitionResolvingToResuming t batchID) in
  match claim with
  | Err ErrBatchNotResolving => st_ret OutcomeResumeInProgress
  | Err _ => st! _ := sseInlineError in st_ret OutcomeInlineError
  | Ok claimed =>
      st! _ := emit (FxStream conversationID batchID body) in
      st! r := stream_through batchID reply
                 (on_resume_event claimed batchID conversationID businessID actorUserID) (start_resume activeMsg) in
      settle_resume conversationID businessID actorUserID batchID r.1 r.2
  end.

(** ** Entry points *)

(** The distinct active platforms, in order. *)
Fixpoint active_platforms (seen : list string) (l : list Integration) : list string :=
  match l with
  | [] => []
  | i :: l' =>
      if String.eqb (in_status i) IntegrationStatusActive && negb (list_mem (in_platform i) seen)
      then in_platform i :: active_platforms (in_platform i :: seen) l'
      else active_platforms seen l'
  end.

Definition resumeBody (businessID projectID : string) : M gval :=
  match uuid_parse businessID with
  | None => st_ret GNull
  | Some biz =>
      st! l := look (λ n, list_integrations deps n biz) in
      let active := match l with Some l => active_platforms [] l | None => [] end in
      let body mode tools := GObj [("active_integrations", GArr (GStr <$> active));
        ("whitelist_mode", GStr mode); ("allowed_tools", tools)] in
      match (if String.eqb projectID "" then None else uuid_parse projectID) with
      | None => st_ret (body "" GNull)
      | Some proj =>
          st! p := look (λ n, get_project deps n biz proj) in
          st_ret (match p with
                  | Some p => body (pj_whitelist_mode p) (GArr (GStr <$> pj_allowed_tools p))
                  | None => body "" GNull
                  end)
      end
  end.

(** The batch of this conversation, or the inline error. *)
Definition with_batch (conversationID batchID : string) (k : PendingToolCallBatch → M TurnOutcome)
    : M TurnOutcome :=
  st! t := now in
  st! r := on_batches (GetByBatchID t batchID) in
  match r with
  | Ok batch =>
      if negb (String.eqb (b_conversation_id batch) conversationID)
      then st! _ := sseInlineError in st_ret OutcomeInlineError
      else k batch
  | Err _ => st! _ := sseInlineError in st_ret OutcomeInlineError
  end.

Definition streamResume (reply : Reply) (conversationID : string) (activeMsg : DMessage) (batchID : string)
    : M TurnOutcome :=
  with_batch conversationID batchID (λ batch,
    st! body := resumeBody (b_business_id batch) (b_project_id batch) in
    runResumeStream reply conversationID activeMsg (b_business_id batch) (b_user_id batch) batchID body).

Definition ResumeApproved (reply : Reply) (conversationID batchID : string) (body : gval) : M TurnOutcome :=
  with_batch conversationID batchID (λ batch,
    st! owns := ownsConversation conversationID (b_user_id batch) (b_business_id batch) in
    if negb owns then st! _ := sseInlineError in st_ret OutcomeConversationNotFound
    else
      st! found := on_chat (FindByConversationActive conversationID) in
      match found with
      | Err _ => st! _ := sseInlineError in st_ret OutcomeInlineError
      | Ok activeMsg =>
          runResumeStream reply conversationID activeMsg (b_business_id batch) (b_user_id batch) batchID body
      end).

(** ** What the calls leave alone *)

#[local] Hint Resolve find_active_view get_conversation_view bump_view list_messages_view : keeps.
#[local] Hint Resolve keeps_chat_turn keeps_chat_streams keeps_turn_streams : keeps.

Lemma list_batches_docs t cid c : docs (ListPendingByConversation t cid c).2 = docs c.
Proof. pose proof (list_conversation_spec t cid c) as Hs. destruct (ListPendingByConversation t cid c) as [[] ?]; naive_solver. Qed.

Lemma get_batch_docs t id c : docs (GetByBatchID t id c).2 = docs c.
Proof. pose proof (get_spec t id c) as Hs. destruct (GetByBatchID t id c) as [[] ?]; naive_solver. Qed.
#[local] Hint Resolve list_batches_docs get_batch_docs : keeps.

Lemma keeps_now : keeps turn_part now.
Proof. unfold Postal.now. keeps_tac. Qed.
#[local] Hint Resolve keeps_now : keeps.

Lemma keeps_bump m : keeps turn_part (bumpLastMessageAt m).
Proof. unfold bumpLastMessageAt, bump_at. keeps_tac. Qed.

Lemma keeps_bump_now c : keeps turn_part (bumpLastMessageAtNow c).
Proof. unfold bumpLastMessageAtNow, bump_at. keeps_tac. Qed.

Lemma keeps_auto_title c b (u : M (option string)) a : keeps turn_part u → keeps turn_part (fireAutoTitle c b u a).
Proof. intros Hu. unfold fireAutoTitle. keeps_tac. Qed.

Lemma keeps_auto_title_pending c b u a : keeps turn_part (fireAutoTitleIfPending c b u a).
Proof. apply keeps_auto_title, keeps_ret. Qed.

Lemma keeps_auto_title_resume c m : keeps turn_part (fireAutoTitleIfPendingResume c m).
Proof. apply keeps_auto_title. keeps_tac. Qed.

Lemma keeps_recent m : keeps turn_part (isRecentInProgress m).
Proof. unfold isRecentInProgress. keeps_tac. Qed.
#[local] Hint Resolve keeps_recent : keeps.

Lemma keeps_gate c h : keeps turn_part (gateOnRequest c h).
Proof. unfold gateOnRequest. keeps_tac. Qed.

Lemma keeps_write ev : keeps turn_part (write_event ev).
Proof. unfold write_event. keeps_tac. Qed.

Lemma keeps_owns c u b : keeps turn_part (ownsConversation c u b).
Proof. unfold ownsConversation. keeps_tac. Qed.

Lemma keeps_record_approval b c f l : keeps turn_part (recordApprovalResult b c f l).
Proof. unfold recordApprovalResult. keeps_tac. Qed.

Lemma keeps_record_resume b a i c r : keeps turn_part (record_resume b a i c r).
Proof. unfold record_resume, auditRPAMutations, auditPlatformMutations. keeps_tac. Qed.

Lemma keeps_resume_body b p : keeps turn_part (resumeBody b p).
Proof. unfold resumeBody. keeps_tac. Qed.

(** ** The stream as a fold of its frames *)
Section stream_rules.
Context {S : Type} (f : SseEvent → S → M S).

(** The client's actions on the pair of a state and the world. *)
Definition acts (l : list action) (s : S) : M S := λ w, (st_iter (act (with_state f) write_beside) l (s, w)).2.

Lemma acts_cons a l s w :
  acts (a :: l) s w = match a with
    | Wrote b => acts l s (emit (FxWrote b) w).2
    | Delivered ev => acts l (f ev s w).1 (f ev s w).2
    end.
Proof.
  unfold acts. destruct a as [b|ev]; cbn [st_iter act]; unfold st_bind, write_beside, with_state; cbn; [done|].
  by destruct (f ev s w).
Qed.

(** What the frames and the echoed bytes preserve, the stream preserves. *)
Lemma acts_inv (P : S → World → Prop) l s w :
  (∀ s w b, P s w → P s (emit (FxWrote b) w).2) →
  (∀ ev s w, P s w → P (f ev s w).1 (f ev s w).2) →
  P s w → P (acts l s w).1 (acts l s w).2.
Proof.
  intros Hw Hf. revert s w. induction l as [|a l IH]; intros s w HP; [done|].
  rewrite acts_cons. destruct a; apply IH; auto.
Qed.

(** When a view [α] of the state moves by a pure step, the stream folds it. *)
Lemma acts_fold {T} (α : S → T) (g : SseEvent → T → T) l s w :
  (∀ ev s w, α (f ev s w).1 = g ev (α s)) →
  α (acts l s w).1 = foldl (λ t ev, g ev t) (α s) (omap delivered l).
Proof.
  intros Hf. revert s w. induction l as [|a l IH]; intros s w; [done|].
  rewrite acts_cons. destruct a as [b|ev]; cbn [omap list_omap delivered foldl]; rewrite IH; [done|]. by rewrite Hf.
Qed.

Lemma stream_through_acts batchID reply s w :
  can_flush = true →
  stream_through batchID reply f s w
  = ((stream_error batchID reply, (acts (stream_actions gone reply) s w).1),
     (acts (stream_actions gone reply) s w).2).
Proof.
  intros Hf. unfold stream_through, acts. rewrite StreamSSE_actions by done. by destruct (st_iter _ _ _).2.
Qed.

Lemma stream_through_blocked batchID reply s w :
  can_flush = false → ∃ e, stream_through batchID reply f s w = ((Some e, s), w).
Proof. intros Hf. unfold stream_through, StreamSSE. rewrite Hf. cbn. eauto. Qed.

Lemma stream_through_inv (P : S → World → Prop) batchID reply s w :
  (∀ s w b, P s w → P s (emit (FxWrote b) w).2) →
  (∀ ev s w, P s w → P (f ev s w).1 (f ev s w).2) →
  P s w → P (stream_through batchID reply f s w).1.2 (stream_through batchID reply f s w).2.
Proof.
  intros Hw Hf HP. destruct can_flush eqn:E.
  - rewrite stream_through_acts by done. by apply acts_inv.
  - destruct (stream_through_blocked batchID reply s w E) as [e ->]. done.
Qed.

Lemma keeps_stream {T} (get : World → T) batchID reply s :
  (∀ w b, get (emit (FxWrote b) w).2 = get w) → (∀ ev s, keeps get (f ev s)) →
  keeps get (stream_through batchID reply f s).
Proof.
  intros Hw Hf w. apply (stream_through_inv (λ _ w', get w' = get w)); [..|done].
  - intros s' w' b <-. apply Hw.
  - intros ev s' w' <-. apply Hf.
Qed.
End stream_rules.

End hitl.

#[export] Hint Resolve find_active_view get_conversation_view bump_view list_messages_view : keeps.
#[export] Hint Resolve keeps_chat_turn keeps_chat_streams : keeps.
#[export] Hint Resolve keeps_now keeps_bump keeps_bump_now keeps_auto_title_pending keeps_auto_title_resume
  keeps_gate keeps_write keeps_owns keeps_record_approval keeps_record_resume keeps_resume_body : keeps.

(** ** What the gate's answer says of the stores *)
Section gate.
Context {CM : Coll DMessage dm_id} {CV : Coll Conversation cv_id}
  {CB : Coll PendingToolCallBatch b_id} {CT : Coll AgentTask tk_id}
  {CP : Coll Post po_id} {CR : Coll Review rv_id}.
Variable clock : nat → Z.

Definition active_row (w : World) (cid : string) (m : DMessage) : Prop :=
  (∃ id, v_msgs w !! id = Some m) ∧ is_active cid m = true
  ∧ ∀ id m', v_msgs w !! id = Some m' → is_active cid m' = true →
      (bson_time (dm_created_at m') ≤ bson_time (dm_created_at m))%Z.

Definition live_row (w : World) (t : Z) (cid : string) (b : PendingToolCallBatch) : Prop :=
  (∃ id, v_batches w !! id = Some b) ∧ b_conversation_id b = cid ∧ live_at t b = true.

(** A turn that still has its stream's time budget at [t]. *)
Definition in_flight (t : Z) (m : DMessage) : Prop :=
  dm_status m = MessageStatusInProgress ∧ ∃ c, dm_created_at m = Some c ∧ (t - c < streamBudget)%Z.

Lemma first_status_spec ss l :
  match first_status ss l with
  | Some b => b ∈ l ∧ b_status b ∈ ss
  | None => ∀ b, b ∈ l → b_status b ∉ ss
  end.
Proof.
  unfold first_status. destruct (filterb _ l) as [|b l'] eqn:E; cbn.
  - intros b Hb Hs. assert (b ∈ filterb (λ b, list_mem (b_status b) ss) l) as Hin.
    { apply elem_of_filterb. by rewrite list_mem_true. }
    rewrite E in Hin. set_solver.
  - assert (b ∈ filterb (λ b, list_mem (b_status b) ss) l) as Hin by (rewrite E; set_solver).
    apply elem_of_filterb in Hin as [Hs Hb]. by apply list_mem_true in Hs.
Qed.

Lemma recent_spec m w :
  w_tick w ≤ w_tick (isRecentInProgress clock m w).2
  ∧ ((isRecentInProgress clock m w).1 = true ↔ in_flight (clock (w_tick w)) m).
Proof.
  unfold isRecentInProgress, in_flight.
  destruct (String.eqb_spec (dm_status m) MessageStatusInProgress) as [->|?]; cbn [negb].
  2: { split; [done|]. split; [done|]. by intros [? _]. }
  destruct (dm_created_at m) as [c|]; [|split; [done|]; split; [done|]; by intros [_ (? & ? & _)]].
  cbn. split; [lia|]. rewrite Z.ltb_lt. naive_solver.
Qed.

Lemma gate_spec cid h w :
  match (gateOnRequest clock cid h w).1 with
  | (gateFresh, m, b, id) => m = None ∧ b = None ∧ id = ""
      ∧ (Reliable CM → ∀ k m', v_msgs w !! k = Some m' → is_active cid m' = false)
  | (gateRejoinResume, m, b, id) => ∃ m', m = Some m' ∧ active_row w cid m' ∧
      if decide (h = "") then ∃ b', b = Some b' ∧ id = b_id b' ∧ live_row w (clock (w_tick w)) cid b'
                                ∧ b_status b' ∈ [statusResolving; statusResuming]
      else b = None ∧ id = h
  | (gateReemitApproval, m, b, id) => h = "" ∧ id = "" ∧ ∃ m' b', m = Some m' ∧ b = Some b'
      ∧ active_row w cid m' ∧ live_row w (clock (w_tick w)) cid b' ∧ b_status b' = statusPending
  | (gateRejectInProgress, m, b, id) => h = "" ∧ b = None ∧ id = "" ∧ ∃ m', m = Some m'
      ∧ active_row w cid m' ∧ in_flight (clock (S (w_tick w))) m'
      ∧ (Reliable CB → ∀ b', ¬ live_row w (clock (w_tick w)) cid b')
  | (gateHealStranded, m, b, id) => h = "" ∧ b = None ∧ id = "" ∧ ∃ m', m = Some m'
      ∧ active_row w cid m' ∧ ¬ in_flight (clock (S (w_tick w))) m'
      ∧ (Reliable CB → ∀ b', ¬ live_row w (clock (w_tick w)) cid b')
  end.
Proof.
  unfold gateOnRequest. unfold st_bind at 1, on_chat, focus.
  pose proof (find_active_spec cid (w_chat w)) as Hf.
  assert (Reliable CM → match (FindByConversationActive cid (w_chat w)).1 with
    Ok _ | Err ErrMessageNotFound => True | Err _ => False end) as Hok by (intros; apply find_active_ok).
  destruct (FindByConversationActive cid (w_chat w)) as [[m|e] d].
  2: { cbn. split_and!; [done..|]. intros HR k m' Hk. specialize (Hok HR). destruct e; try done. by eapply Hf. }
  destruct Hf as ([Hm _] & Ha & Hin & Hnew).
  assert (active_row w cid m) as Hrow by exact (conj Hin (conj Ha Hnew)).
  destruct (String.eqb_spec h "") as [->|Hh]; cbn [negb].
  2: { exists m. rewrite decide_False by done. auto. }
  unfold st_bind, Postal.now, look, on_batches, focus. cbn [w_tick w_batches].
  pose proof (list_conversation_spec (clock (w_tick w)) cid (w_batches w)) as Hl.
  assert (Reliable CB → is_ok (ListPendingByConversation (clock (w_tick w)) cid (w_batches w)).1 = true) as Hok'.
  { intros HR. unfold ListPendingByConversation, se_bind, driver.
    match goal with |- context [find ?p ?k ?c] => pose proof (find_ok p k c) as Ho end.
    by destruct (find _ _ _) as [[]]. }
  destruct (ListPendingByConversation (clock (w_tick w)) cid (w_batches w)) as [r c1]. cbn in Hok' |- *.
  set (bs := match r with Ok bs => bs | Err _ => [] end).
  assert (∀ b, b ∈ bs → live_status (b_status b) = true → live_row w (clock (w_tick w)) cid b) as Hlive.
  { intros b Hb Hs. subst bs. destruct r as [l|e]; [|by apply elem_of_nil in Hb].
    destruct Hl as [_ Hl]. by apply Hl. }
  assert (Reliable CB → ∀ b, live_row w (clock (w_tick w)) cid b → b ∈ bs ∧ live_status (b_status b) = true) as Hall.
  { intros HR b Hb. specialize (Hok' HR). destruct r as [l|e]; [|done]. destruct Hl as [_ Hl]. by apply Hl. }
  pose proof (first_status_spec [statusResolving; statusResuming] bs) as H1.
  destruct (first_status [statusResolving; statusResuming] bs) as [b|].
  { destruct H1 as [Hb Hs]. exists m. rewrite decide_True by done. split_and!; [done|done|].
    exists b. split_and!; [done|done| |done]. apply Hlive; [done|]. apply list_mem_true.
    unfold live_status. set_solver. }
  pose proof (first_status_spec [statusPending] bs) as H2.
  destruct (first_status [statusPending] bs) as [b|].
  { destruct H2 as [Hb Hs]. apply list_elem_of_singleton in Hs. cbn. split_and!; [done|done|].
    exists m, b. split_and!; [done|done|done| |done]. apply Hlive; [done|]. by rewrite Hs. }
  assert (Reliable CB → ∀ b, ¬ live_row w (clock (w_tick w)) cid b) as Hnone.
  { intros HR b Hb. destruct (Hall HR b Hb) as [Hin' Hs]. apply list_mem_true in Hs.
    specialize (H1 b Hin'). specialize (H2 b Hin'). set_solver. }
  match goal with |- context [isRecentInProgress clock m ?w1] => pose proof (recent_spec m w1) as [_ Hr];
    destruct (isRecentInProgress clock m w1) as [recent w2] end.
  cbn in Hr. destruct recent; cbn; split_and!; try done; exists m; split_and!; try done; [by apply Hr|].
  intros Hi. by apply Hr in Hi.
Qed.
End gate.
