(* ===== verification/ChatResume.v ===== *)
(** * What a resumed turn does to the conversation

    Facts on [runResumeStream] (services/api/internal/service/chatturn/hitl.go),
    modelled in ChatHitl.v: the approval batch must be claimed before a stream is
    opened, a refused stream gives the claim back, and the paused message is
    rewritten once, with what the stream's frames add up to. *)

From S2P Require Import Prelude Json GoTime Types OrchClient Tools Mongo ChatStore TaskStore PostStore HitlStore ReviewStore ChatWorld Postal ChatHitl.
Local Open Scope go_scope.

(** What a frame adds to the accumulated state, task rows and telemetry apart. *)
Definition resume_step (batchID : string) (s : ResumeState) (ev : SseEvent) : ResumeState :=
  let ty := ev_type ev in
  if rs_terminated s then s
  else if String.eqb ty "text" then add_text (ev_content ev) s
  else if String.eqb ty "tool_call" then add_call batchID ev s
  else if String.eqb ty "tool_approval_required" then set_repause ev s
  else if String.eqb ty "tool_result" then
    if known_result s (ev_tool_call_id ev) then add_result ev s else s
  else if String.eqb ty "tool_rejected" then reject_call (ev_tool_call_id ev) s
  else if String.eqb ty "error" then
    terminate MessageStatusError (if String.eqb (ev_code ev) "" then "STREAM_ERROR" else ev_code ev) false s
  else if String.eqb ty "done" then terminate MessageStatusComplete (dm_error_code (rs_msg s)) true s
  else s.

(** The state without the task ids and the telemetry already sent. *)
Definition plain (s : ResumeState) : ResumeState := set_ids ∅ [] s.

Lemma plain_step batchID s ev : plain (resume_step batchID s ev) = resume_step batchID (plain s) ev.
Proof.
  unfold resume_step, plain, set_ids, add_text, add_call, set_repause, known_result, add_result, reject_call,
    terminate, rs_edit. destruct s. cbn. repeat case_match; simplify_eq/=; done.
Qed.

(** The state the frames of a stream add up to. *)
Definition resume_fold (batchID : string) (m : DMessage) (evs : list SseEvent) : ResumeState :=
  foldl (resume_step batchID) (start_resume m) evs.

(** The message a resume leaves, the outcome it reports. *)
Definition resumed_message (s : ResumeState) : DMessage :=
  if rs_terminated s then rs_msg s
  else match rs_repause s with
       | Some pause => repaused (rs_text s) pause (rs_msg s)
       | None => interrupted_resume (rs_text s) (rs_msg s)
       end.

Definition resumed_outcome (s : ResumeState) : TurnOutcome :=
  if rs_terminated s then OutcomeRejoinedResume
  else match rs_repause s with Some _ => OutcomePauseHITL | None => OutcomeRejoinedResume end.

Lemma step_id batchID s ev : dm_id (rs_msg (resume_step batchID s ev)) = dm_id (rs_msg s).
Proof.
  unfold resume_step, add_text, add_call, set_repause, add_result, reject_call, terminate, rs_edit, set_call_status,
    dm_tools, dm_edit. destruct s. cbn. repeat case_match; simplify_eq/=; done.
Qed.

Lemma fold_id batchID m evs : dm_id (rs_msg (resume_fold batchID m evs)) = dm_id m.
Proof.
  unfold resume_fold. change (dm_id m) with (dm_id (rs_msg (start_resume m))). generalize (start_resume m).
  induction evs as [|ev evs IH]; intros s; [done|]. cbn [foldl]. by rewrite IH, step_id.
Qed.

Lemma resumed_id batchID m evs : dm_id (resumed_message (resume_fold batchID m evs)) = dm_id m.
Proof.
  rewrite <- (fold_id batchID m evs). unfold resumed_message.
  destruct (resume_fold batchID m evs). by destruct rs_terminated, rs_repause.
Qed.

(** ** The accumulated message *)

Definition call_ids (m : DMessage) : list string := dtc_id <$> dm_tool_calls m.
Definition result_ids (m : DMessage) : list string := dtr_tool_call_id <$> dm_tool_results m.

(** An index names exactly the positions of the ids. *)
Definition coherent (idx : gmap string nat) (ids : list string) : Prop :=
  ∀ id i, idx !! id = Some i ↔ ids !! i = Some id.

Lemma coherent_nodup idx ids : coherent idx ids → NoDup ids.
Proof. intros Hc. apply NoDup_alt. intros i j id Hi Hj. apply Hc in Hi, Hj. congruence. Qed.

Lemma coherent_snoc idx ids id :
  coherent idx ids → idx !! id = None → coherent (<[id := length ids]> idx) (ids ++ [id]).
Proof.
  intros Hc Hn id' i. destruct (decide (id' = id)) as [->|Hne].
  - rewrite lookup_insert_eq. split; [intros [= <-]; by apply list_lookup_middle|].
    intros Hi. rewrite lookup_app_Some in Hi. destruct Hi as [Hi|[Hle Hi]]; [by apply Hc in Hi; congruence|].
    apply list_lookup_singleton_Some in Hi as [Hi _]. f_equal. lia.
  - rewrite lookup_insert_ne, (Hc id' i) by done. split; [by apply lookup_app_l_Some|].
    rewrite lookup_app_Some. intros [Hi|[_ [_ Hi]%list_lookup_singleton_Some]]; [done|congruence].
Qed.

Lemma last_index_spec ids : NoDup ids → ∀ n m id i,
  last_index_from n ids m !! id = Some i ↔
  (∃ j, ids !! j = Some id ∧ i = n + j) ∨ (id ∉ ids ∧ m !! id = Some i).
Proof.
  induction 1 as [|x ids Hx _ IH]; intros n m id i; cbn [last_index_from].
  - split; [intros Hm; right; split; [set_solver|done]|]. intros [(j & Hj & _)|[_ ?]]; [by rewrite lookup_nil in Hj|done].
  - rewrite IH. split.
    + intros [(j & Hj & ->)|[Hn Hm]]; [left; exists (S j); split; [done|lia]|].
      destruct (decide (id = x)) as [->|Hne]; [rewrite lookup_insert_eq in Hm; left; exists 0; simplify_eq; split; [done|lia]|].
      rewrite lookup_insert_ne in Hm by done. right. set_solver.
    + intros [([|j] & Hj & ->)|[Hn Hm]]; simplify_eq/=.
      * right. rewrite lookup_insert_eq. split; [done|f_equal; lia].
      * left. exists j. split; [done|lia].
      * right. rewrite lookup_insert_ne by set_solver. set_solver.
Qed.

Lemma index_map_coherent ids : NoDup ids → coherent (index_map ids) ids.
Proof.
  intros Hn id i. unfold index_map. rewrite last_index_spec by done. rewrite lookup_empty. naive_solver.
Qed.

(** What the accumulated state says of the message it started from. *)
Record accumulated (m : DMessage) (s : ResumeState) : Prop := {
  acc_calls : coherent (rs_call_idx s) (call_ids (rs_msg s));
  acc_results : coherent (rs_result_idx s) (result_ids (rs_msg s));
  acc_kept_calls : call_ids m `prefix_of` call_ids (rs_msg s);
  acc_kept_results : result_ids m `prefix_of` result_ids (rs_msg s);
  acc_fresh : ∀ id, id ∈ rs_fresh_ids s → id ∈ call_ids (rs_msg s);
  acc_known : ∀ r, r ∈ dm_tool_results (rs_msg s) →
    r ∈ dm_tool_results m ∨ dtr_tool_call_id r ∈ call_ids (rs_msg s);
}.

Lemma known_is_call m s id : accumulated m s → known_result s id = true ↔ id ≠ "" ∧ id ∈ call_ids (rs_msg s).
Proof.
  intros Ha. unfold known_result. rewrite andb_true_iff, negb_true_iff, String.eqb_neq, orb_true_iff,
    bool_decide_eq_true, list_mem_true. split.
  - intros [Hid [[i Hi]|Hf]]; (split; [done|]); [|by apply (acc_fresh _ _ Ha)].
    apply (acc_calls _ _ Ha) in Hi. by eapply list_elem_of_lookup_2.
  - intros [Hid [i Hi]%list_elem_of_lookup_1]. split; [done|]. left. exists i. by apply (acc_calls _ _ Ha).
Qed.

Lemma fmap_alter_id {A B} (g : A → B) (f : A → A) i (l : list A) : (∀ x, g (f x) = g x) → g <$> alter f i l = g <$> l.
Proof.
  intros Hf. revert i. induction l as [|x l IH]; intros [|i]; [done..| |].
  - change (g (f x) :: (g <$> l) = g x :: (g <$> l)). by rewrite Hf.
  - change (g x :: (g <$> alter f i l) = g x :: (g <$> l)). by rewrite IH.
Qed.

Lemma put_result_spec idx l tr idx' l' :
  coherent idx (dtr_tool_call_id <$> l) → put_result idx l tr = (idx', l') →
  coherent idx' (dtr_tool_call_id <$> l') ∧ (dtr_tool_call_id <$> l) `prefix_of` (dtr_tool_call_id <$> l')
  ∧ tr ∈ l' ∧ ∀ r, r ∈ l' → r = tr ∨ r ∈ l.
Proof.
  intros Hc. unfold put_result. destruct (idx !! dtr_tool_call_id tr) as [i|] eqn:E; intros [= <- <-].
  - apply Hc in E. rewrite list_fmap_insert, (list_insert_id _ i) by done.
    rewrite list_lookup_fmap in E. destruct (l !! i) as [x|] eqn:Ex; [|done].
    split_and!; [done|done| |].
    + apply list_elem_of_insert. by eapply lookup_lt_Some.
    + intros r [j Hj]%list_elem_of_lookup_1. destruct (decide (j = i)) as [->|Hne].
      * rewrite list_lookup_insert_eq in Hj by (by eapply lookup_lt_Some). left. congruence.
      * rewrite list_lookup_insert_ne in Hj by done. right. by eapply list_elem_of_lookup_2.
  - rewrite fmap_app. cbn. rewrite <- (length_fmap dtr_tool_call_id l). split_and!; [by apply coherent_snoc|by apply prefix_app_r|set_solver|set_solver].
Qed.

Lemma add_call_accumulated batchID m ev s : accumulated m s → accumulated m (add_call batchID ev s).
Proof.
  intros [Hc Hr Hkc Hkr Hf Hk]. unfold add_call. cbv zeta. set (id := ev_tool_call_id ev).
  destruct (String.eqb_spec id "") as [_|_]; cbn [negb andb]; [by split|].
  case_bool_decide as Hi; cbn [negb].
  - split; [done..| |done]. cbn. intros id' [->|Hin]%elem_of_cons; [|auto].
    destruct Hi as [i Hi]. apply Hc in Hi. by eapply list_elem_of_lookup_2.
  - assert (rs_call_idx s !! id = None) as Hn by (by apply eq_None_not_Some).
    set (c := {| dtc_id := id |}).
    assert (call_ids (dm_tools (dm_tool_calls (rs_msg s) ++ [c]) (dm_tool_results (rs_msg s)) (rs_msg s))
      = call_ids (rs_msg s) ++ [id]) as Hids by (unfold call_ids; cbn; by rewrite fmap_app).
    split; cbn [rs_msg rs_edit rs_call_idx rs_result_idx rs_fresh_ids]; rewrite ?Hids; [|done| |done| |].
    + replace (length (dm_tool_calls (rs_msg s))) with (length (call_ids (rs_msg s)))
        by (unfold call_ids; by rewrite length_fmap). by apply coherent_snoc.
    + by apply prefix_app_r.
    + intros id' [->|Hin]%elem_of_cons; [set_solver|]. specialize (Hf _ Hin). set_solver.
    + intros r Hin. destruct (Hk r Hin); [by left|right; set_solver].
Qed.

Lemma call_ids_set_status i st m : call_ids (set_call_status i st m) = call_ids m.
Proof. unfold call_ids, set_call_status. cbn. by apply fmap_alter_id. Qed.

Lemma add_result_accumulated m ev s :
  accumulated m s → ev_tool_call_id ev ∈ call_ids (rs_msg s) →
  accumulated m (add_result ev s) ∧ result_of ev ∈ dm_tool_results (rs_msg (add_result ev s)).
Proof.
  intros [Hc Hr Hkc Hkr Hf Hk] Hin. unfold add_result. cbv zeta.
  destruct (put_result (rs_result_idx s) _ _) as [ridx results] eqn:E1.
  destruct (put_result (rs_rec_result_idx s) _ _) as [recidx rec].
  destruct (put_result_spec _ _ _ _ _ Hr E1) as (Hr' & Hp & Htr & Hold).
  set (m1 := dm_tools (dm_tool_calls (rs_msg s)) results (rs_msg s)).
  set (m2 := match rs_call_idx s !! ev_tool_call_id ev with Some i => set_call_status i _ m1 | None => m1 end).
  assert (call_ids m2 = call_ids (rs_msg s) ∧ dm_tool_results m2 = results) as [Hids Hres].
  { unfold m2. destruct (rs_call_idx s !! _); rewrite ?call_ids_set_status; done. }
  split; [|cbn [rs_msg rs_edit]; by rewrite Hres].
  split; cbn [rs_msg rs_edit rs_call_idx rs_result_idx rs_fresh_ids]; unfold result_ids in *;
    rewrite ?Hids, ?Hres; [done|done|done|by etrans|done|].
  intros r [->|Hr1]%Hold; [by right|auto].
Qed.

Lemma add_result_marks m ev s :
  accumulated m s → ev_tool_call_id ev ∈ call_ids (rs_msg s) →
  ∃ c, c ∈ dm_tool_calls (rs_msg (add_result ev s)) ∧ dtc_id c = ev_tool_call_id ev
    ∧ dtc_status c = if String.eqb (ev_tool_error ev) "" then ToolCallStatusApproved else ToolCallStatusRejected.
Proof.
  intros [Hc _ _ _ _ _] [i Hi]%list_elem_of_lookup_1. pose proof (proj2 (Hc _ _) Hi) as Hx.
  unfold add_result. cbv zeta. destruct (put_result _ _ _) as [ridx results], (put_result _ _ _) as [recidx rec].
  cbn [rs_msg rs_edit]. rewrite Hx. unfold call_ids in Hi. rewrite list_lookup_fmap in Hi.
  destruct (dm_tool_calls (rs_msg s) !! i) as [c|] eqn:Ec; [|done]. injection Hi as Hid.
  eexists. split; [|split; [|]].
  - cbn. eapply list_elem_of_lookup_2. rewrite list_lookup_alter, decide_True, Ec by done. reflexivity.
  - done.
  - cbn. by destruct (String.eqb (ev_tool_error ev) "").
Qed.

Lemma reject_accumulated m id s : accumulated m s → accumulated m (reject_call id s).
Proof.
  intros [Hc Hr Hkc Hkr Hf Hk]. unfold reject_call. destruct (rs_call_idx s !! id); [|by split].
  split; cbn [rs_msg rs_edit rs_call_idx rs_result_idx rs_fresh_ids]; rewrite ?call_ids_set_status; done.
Qed.

Lemma step_accumulated batchID m s ev : accumulated m s → accumulated m (resume_step batchID s ev).
Proof.
  intros Ha. unfold resume_step. destruct (rs_terminated s) eqn:Et; [done|].
  destruct (String.eqb (ev_type ev) "text"); [by destruct Ha|].
  destruct (String.eqb (ev_type ev) "tool_call"); [by apply add_call_accumulated|].
  destruct (String.eqb (ev_type ev) "tool_approval_required"); [by destruct Ha|].
  destruct (String.eqb (ev_type ev) "tool_result").
  { destruct (known_result s _) eqn:Hk; [|done]. apply (known_is_call m) in Hk as [_ Hk]; [|done].
    by apply add_result_accumulated. }
  destruct (String.eqb (ev_type ev) "tool_rejected"); [by apply reject_accumulated|].
  destruct (String.eqb (ev_type ev) "error"); [by destruct Ha|].
  destruct (String.eqb (ev_type ev) "done"); [by destruct Ha|done].
Qed.

Lemma fold_accumulated batchID m evs :
  NoDup (call_ids m) → NoDup (result_ids m) → accumulated m (resume_fold batchID m evs).
Proof.
  intros Hc Hr. assert (accumulated m (start_resume m)) as Ha.
  { split; cbn; [by apply index_map_coherent|by apply index_map_coherent|done|done|set_solver|auto]. }
  unfold resume_fold. revert Ha. generalize (start_resume m).
  induction evs as [|ev evs IH]; intros s Ha; [done|]. cbn [foldl]. by apply IH, step_accumulated.
Qed.

(** Whatever frames the orchestrator streams, the resumed message keeps the
    paused calls and the results it had, in order, lists every call and every
    result once, holds a result only for a call it lists or one it already had,
    and, until the turn ends, each result of a listed call replaces the previous
    one and marks its call approved, or rejected when it is an error. *)
Theorem resume_accumulates batchID m evs ev :
  NoDup (call_ids m) → NoDup (result_ids m) →
  let s := resume_fold batchID m evs in
  let m' := rs_msg s in
  (call_ids m `prefix_of` call_ids m' ∧ NoDup (call_ids m'))
  ∧ (result_ids m `prefix_of` result_ids m' ∧ NoDup (result_ids m'))
  ∧ (∀ r, r ∈ dm_tool_results m' → r ∈ dm_tool_results m ∨ dtr_tool_call_id r ∈ call_ids m')
  ∧ (rs_terminated s = false → ev_type ev = "tool_result" → ev_tool_call_id ev ≠ "" →
     ev_tool_call_id ev ∈ call_ids m' →
     let m'' := rs_msg (resume_step batchID s ev) in
     result_of ev ∈ dm_tool_results m''
     ∧ ∃ c, c ∈ dm_tool_calls m'' ∧ dtc_id c = ev_tool_call_id ev
         ∧ dtc_status c = if String.eqb (ev_tool_error ev) "" then ToolCallStatusApproved else ToolCallStatusRejected).
Proof.
  intros Hc Hr. cbn zeta. pose proof (fold_accumulated batchID m evs Hc Hr) as Ha.
  set (s := resume_fold batchID m evs) in *.
  split; [split; [apply Ha|eapply coherent_nodup, (acc_calls _ _ Ha)]|].
  split; [split; [apply Ha|eapply coherent_nodup, (acc_results _ _ Ha)]|].
  split; [apply Ha|]. intros Ht Hty Hid Hin. unfold resume_step. rewrite Ht, Hty. cbn [String.eqb Ascii.eqb Bool.eqb].
  rewrite (proj2 (known_is_call m s _ Ha)) by done. split; [by apply (add_result_accumulated m)|].
  by apply (add_result_marks m).
Qed.

Section resume.
Context {CM : Coll DMessage dm_id} {CV : Coll Conversation cv_id}
  {CB : Coll PendingToolCallBatch b_id} {CT : Coll AgentTask tk_id}
  {CP : Coll Post po_id} {CR : Coll Review rv_id} {U : UUIDText} {J : JsonText}.
Variables (deps : Deps) (clock : nat → Z) (fresh : nat → string)
  (yandex_published : gomap → Z → option Z) (format_rfc3339 : Z → string)
  (can_flush : bool) (gone : nat → bool).

Notation on_event := (on_resume_event deps clock fresh yandex_published format_rfc3339).

Lemma event_step claimed batchID cid biz actor ev s w :
  plain (on_event claimed batchID cid biz actor ev s w).1 = resume_step batchID (plain s) ev.
Proof.
  rewrite <- plain_step. unfold on_resume_event, resume_step. cbv zeta.
  destruct (rs_terminated s) eqn:Et; [done|].
  destruct (String.eqb (ev_type ev) "text"); [done|].
  destruct (String.eqb (ev_type ev) "tool_call"); [by rewrite st_bind_run|].
  destruct (String.eqb (ev_type ev) "tool_approval_required"); [done|].
  destruct (String.eqb (ev_type ev) "tool_result").
  { destruct (known_result s (ev_tool_call_id ev)); [|done]. cbn [negb]. by rewrite !st_bind_run. }
  destruct (String.eqb (ev_type ev) "tool_rejected"); [done|].
  destruct (String.eqb (ev_type ev) "error"); [by rewrite st_bind_run|].
  destruct (String.eqb (ev_type ev) "done"); [by rewrite st_bind_run|done].
Qed.

(** *** Saving the message *)

(** The row of [m] is rewritten with [m], for certain when the stores answer. *)
Definition rewritten (w0 w : World) (m : DMessage) : Prop :=
  (v_msgs w = v_msgs w0 ∨ (is_Some (v_msgs w0 !! dm_id m) ∧ v_msgs w = put_msg w0 (stored w0 m)))
  ∧ (Reliable CM → Reliable CV → dm_id m ≠ "" → is_Some (v_msgs w0 !! dm_id m) →
     v_msgs w = put_msg w0 (stored w0 m)).

Lemma rewritten_from w0 w1 w m :
  chat_view (w_chat w1) = chat_view (w_chat w0) → rewritten w1 w m → rewritten w0 w m.
Proof.
  unfold chat_view. intros [= Hm Ho] Hr. unfold rewritten, put_msg, v_msgs in *.
  by rewrite (stored_owners w0 w1 m Ho), Hm in Hr.
Qed.

Notation save := (save_resume deps clock fresh yandex_published format_rfc3339).

Lemma save_effect m c biz a calls results w :
  let w' := (save m c biz a calls results w).2 in frame_part w' = frame_part w ∧ rewritten w w' m.
Proof.
  cbn zeta. unfold save_resume. rewrite st_bind_run. pose proof (update_effect m w) as [Hs Hr]. cbn zeta in *.
  assert (Reliable CM → Reliable CV → dm_id m ≠ "" → is_Some (v_msgs w !! dm_id m) →
    v_msgs (on_chat (UpdateMessage m) w).2 = put_msg w (stored w m)) as Hok.
  { intros. rewrite (update_ok m w) in Hr by done. apply Hr. }
  set (w1 := (on_chat (UpdateMessage m) w).2) in *.
  match goal with |- context [st_bind ?x ?k w1] => assert (turn_part (st_bind x k w1).2 = turn_part w1) as Ht end.
  { rewrite st_bind_run. rewrite (keeps_record_resume _ _ _ _ _ _ _ _ _ _ _). apply keeps_bump_now. }
  destruct (turn_part_frame _ _ Ht) as [Hf Hm]. unfold rewritten. rewrite Hf, Hm.
  split; [unfold side_part, frame_part in *; congruence|]. split; [|done].
  destruct (on_chat (UpdateMessage m) w).1 as [u|[]]; naive_solver.
Qed.

(** *** The stream *)

(** While the stream runs the message is written at most once, when it ends. *)
Definition in_stream (w0 : World) (s : ResumeState) (w : World) : Prop :=
  frame_part w = frame_part w0 ∧ if rs_terminated s then rewritten w0 w (rs_msg s) else v_msgs w = v_msgs w0.

Lemma in_stream_keeps w0 s s' w w' :
  turn_part w' = turn_part w → rs_terminated s' = rs_terminated s →
  (rs_terminated s = true → rs_msg s' = rs_msg s) → in_stream w0 s w → in_stream w0 s' w'.
Proof.
  intros [Hf Hm]%turn_part_frame Ht Hmsg [Hs Hr]. unfold in_stream in *. rewrite Hf, Ht. split; [done|].
  destruct (rs_terminated s); [|by rewrite Hm]. rewrite (Hmsg eq_refl). unfold rewritten in *. by rewrite Hm.
Qed.

Lemma in_stream_ends w0 s st code title c biz a calls results w :
  rs_terminated s = false → in_stream w0 s w →
  in_stream w0 (terminate st code title s)
    (save (rs_msg (terminate st code title s)) c biz a calls results w).2.
Proof.
  intros Ht [Hf Hm]. rewrite Ht in Hm. set (m := rs_msg (terminate st code title s)).
  destruct (save_effect m c biz a calls results w) as [Hf' Hr].
  unfold in_stream. cbn [terminate rs_terminated]. split; [by rewrite Hf'|]. fold m.
  unfold rewritten, put_msg in *. rewrite (stored_frame w0 w m Hf), Hm in Hr. exact Hr.
Qed.

Lemma event_in_stream w0 claimed batchID cid biz actor ev s w :
  in_stream w0 s w →
  in_stream w0 (on_event claimed batchID cid biz actor ev s w).1 (on_event claimed batchID cid biz actor ev s w).2.
Proof.
  intros Hs. unfold on_resume_event. cbv zeta. destruct (rs_terminated s) eqn:Et; [done|].
  assert (∀ s' w', turn_part w' = turn_part w → rs_terminated s' = false → in_stream w0 s' w') as Hk.
  { intros s' w' Hw Ht. apply (in_stream_keeps w0 s _ w); [done|congruence|congruence|done]. }
  destruct (String.eqb (ev_type ev) "text"); [by apply Hk|].
  destruct (String.eqb (ev_type ev) "tool_call").
  { rewrite st_bind_run. apply Hk; [|done]. cbn [st_ret snd]. apply (keeps_chat_turn _ (keeps_onToolCall _ _ _ _ _ _ _ _ _ _ _ _ _)). }
  destruct (String.eqb (ev_type ev) "tool_approval_required"); [by apply Hk|].
  destruct (String.eqb (ev_type ev) "tool_result").
  { destruct (known_result s (ev_tool_call_id ev)); [|done]. cbn [negb]. rewrite !st_bind_run. apply Hk.
    - cbn [st_ret snd]. etrans; [apply (keeps_chat_turn _ (keeps_onToolResult _ _ _ _ _ _ _ _ _))|apply keeps_record_approval].
    - unfold set_ids, add_result. cbn. by destruct (put_result _ _ _), (put_result _ _ _). }
  destruct (String.eqb (ev_type ev) "tool_rejected").
  { apply Hk; [done|]. unfold reject_call. by destruct (rs_call_idx s !! _). }
  destruct (String.eqb (ev_type ev) "error"); [rewrite st_bind_run; by apply in_stream_ends|].
  destruct (String.eqb (ev_type ev) "done"); [rewrite st_bind_run; by apply in_stream_ends|done].
Qed.

(** *** The whole call *)
Section claimed.
Variables (reply : Reply) (cid : string) (m : DMessage) (biz actor batchID : string) (body : gval).
Notation resume := (runResumeStream deps clock fresh yandex_published format_rfc3339 can_flush gone reply cid m
  biz actor batchID body).
Notation events_of := (stream_events reply).
Notation final := (resume_fold batchID m (stream_events reply)).

(** The batch row was this call's to resume. *)
Definition claimed_row (w : World) (b : PendingToolCallBatch) : Prop :=
  v_batches w !! batchID = Some b ∧ b_status b = statusResolving.

(** A refused claim opens nothing. *)
Definition not_claimed (w w' : World) (o : TurnOutcome) : Prop :=
  streams w' = streams w ∧ v_msgs w' = v_msgs w ∧ o ∈ [OutcomeResumeInProgress; OutcomeInlineError]
  ∧ (Reliable CB → ∀ b, ¬ claimed_row w b).

(** With a batch collection that answers, a resolving row is won. *)
Lemma claim_wins w b :
  Reliable CB → claimed_row w b →
  is_ok (on_batches (AtomicTransitionResolvingToResuming (clock (w_tick w)) batchID) (now clock w).2).1 = true.
Proof.
  intros HR [Hb Hs]. unfold on_batches, focus, now, look. cbn [w_batches fst snd].
  unfold AtomicTransitionResolvingToResuming, transition, se_bind, driver.
  match goal with |- context [findOneAndUpdate ?id ?p ?f ?c] =>
    pose proof (findOneAndUpdate_spec id p f c) as Hu; pose proof (findOneAndUpdate_ok id p f c) as Hok;
    destruct (findOneAndUpdate id p f c) as [[r|e] c1]; [|done] end.
  destruct Hu as [_ ->]. unfold hit. unfold v_batches in Hb. rewrite Hb. unfold status_is. by rewrite Hs.
Qed.

Lemma claim_effect w :
  let t := clock (w_tick w) in
  let r := on_batches (AtomicTransitionResolvingToResuming t batchID) (now clock w).2 in
  chat_view (w_chat r.2) = chat_view (w_chat w) ∧ streams r.2 = streams w ∧
  match r.1 with
  | Ok claimed => ∃ b, claimed_row w b ∧ claimed = move statusResuming t b
      ∧ v_batches r.2 = <[batchID := move statusResuming t b]> (v_batches w)
  | Err _ => True
  end.
Proof.
  cbn zeta. unfold on_batches, focus, now, look. cbn [w_batches fst snd].
  pose proof (transition_spec statusResolving statusResuming ErrBatchNotResolving (clock (w_tick w)) batchID
    (w_batches w)) as Ht. unfold AtomicTransitionResolvingToResuming.
  destruct (transition _ _ _ _ _ _) as [[d|e] c]; cbn; [|done].
  destruct Ht as (b & Hb & Hs & -> & Hd). split_and!; [done|done|]. exists b. split_and!; try done.
Qed.

Lemma compensate_effect w b :
  v_batches w !! batchID = Some b → b_status b = statusResuming →
  let back := <[batchID := move statusResolving (clock (w_tick w)) b]> (v_batches w) in
  let w' := (compensateResuming clock batchID w).2 in
  chat_view (w_chat w') = chat_view (w_chat w) ∧ streams w' = streams w
  ∧ (v_batches w' = v_batches w ∨ v_batches w' = back) ∧ (Reliable CB → v_batches w' = back).
Proof.
  intros Hb Hs. cbn zeta. unfold compensateResuming, st_bind, now, look, on_batches, focus, v_batches in *. cbn.
  unfold AtomicTransitionResumingToResolving, se_bind, driver.
  match goal with |- context [updateOne ?id ?p ?f ?c] =>
    pose proof (updateOne_spec id p f c) as Hu;
    assert (Reliable CB → is_ok (updateOne id p f c).1 = true) as Hok by (intros ?; apply updateOne_ok);
    assert (upd_one id p f (docs c) = <[id := f b]> (docs c)) as Hupd;
    [|assert (hit id p (docs c) = true) as Hhit; [|destruct (updateOne id p f c) as [[n|e] c1]]] end.
  { unfold upd_one. rewrite Hb. unfold status_is. by rewrite Hs. }
  { unfold hit. rewrite Hb. unfold status_is. by rewrite Hs. }
  - destruct Hu as [-> Hd]. rewrite Hhit, Hupd in *. cbn. auto.
  - rewrite Hupd in Hu. cbn in *. split_and!; [done|done|done|]. intros HR. by specialize (Hok HR).
Qed.

(** What settling the stream does, from the world the stream left. *)
Lemma settle_effect err s w0 w b :
  in_stream w0 s w → v_batches w !! batchID = Some b → b_status b = statusResuming →
  let r := settle_resume deps clock fresh yandex_published format_rfc3339 cid biz actor batchID err s w in
  streams r.2 = streams w0 ∧
  if refused err s then
    r.1 = OutcomeOrchestratorUnavailable ∧ v_msgs r.2 = v_msgs w0 ∧ ∃ t,
      let back := <[batchID := move statusResolving t b]> (v_batches w0) in
      (v_batches r.2 = v_batches w0 ∨ v_batches r.2 = back) ∧ (Reliable CB → v_batches r.2 = back)
  else r.1 = resumed_outcome s ∧ v_batches r.2 = v_batches w0 ∧ rewritten w0 r.2 (resumed_message s).
Proof.
  intros [Hf Hs] Hb Hbs. cbn zeta. unfold settle_resume, resumed_outcome, resumed_message.
  unfold frame_part in Hf. injection Hf as Ho Hbt Hst.
  destruct (refused err s) eqn:Er.
  { assert (rs_terminated s = false) as Et.
    { unfold refused in Er. destruct err; [|done]. apply andb_true_iff in Er as [Er _]. by destruct (rs_terminated s). }
    rewrite Et in Hs. rewrite st_bind_run. cbn [st_ret fst snd].
    destruct (compensate_effect w b Hb Hbs) as (Hv & Hst' & Hd & HR). unfold chat_view in Hv.
    injection Hv as Hm _. split; [congruence|]. split; [done|]. split; [unfold v_msgs in *; congruence|].
    exists (clock (w_tick w)). rewrite Hbt in *. done. }
  assert (∀ m c biz', let w' := (save m c biz' actor (rs_calls s) (rs_results s) w).2 in
    rs_terminated s = false →
    streams w' = streams w0 ∧ v_batches w' = v_batches w0 ∧ rewritten w0 w' m) as Hsave.
  { intros m' c biz' w' Et. rewrite Et in Hs. destruct (save_effect m' c biz' actor (rs_calls s) (rs_results s) w) as [Hf' Hr].
    fold w' in Hf', Hr. unfold frame_part in Hf'. injection Hf' as _ Hb' Hs'.
    split_and!; [congruence|congruence|]. unfold rewritten, put_msg in *.
    rewrite (stored_frame w0 w m') in Hr by (unfold frame_part; congruence). by rewrite Hs in Hr. }
  destruct (rs_terminated s) eqn:Et.
  { rewrite st_bind_run. cbn [st_ret fst snd].
    match goal with |- context [(?x w).2] => assert (turn_part (x w).2 = turn_part w) as Ht end.
    { destruct (rs_fire_title s); [apply keeps_auto_title_resume|done]. }
    destruct (turn_part_frame _ _ Ht) as [Hf' Hm']. unfold frame_part in Hf'. injection Hf' as _ Hb' Hs'.
    split_and!; [congruence|done|congruence|]. unfold rewritten in *. by rewrite Hm'. }
  destruct (rs_repause s) as [pause|].
  - unfold persistResumeRePause. rewrite st_bind_run. cbn [st_ret fst snd]. cbv zeta.
    destruct (Hsave (repaused (rs_text s) pause (rs_msg s)) (dm_conversation_id (repaused (rs_text s) pause (rs_msg s))) biz eq_refl)
      as (? & ? & ?). done.
  - rewrite st_bind_run. cbn [st_ret fst snd].
    destruct (Hsave (interrupted_resume (rs_text s) (rs_msg s)) cid biz eq_refl) as (? & ? & ?). done.
Qed.

(** Everything a resume can do, once its stream can be written to the browser. *)
Lemma resume_run w :
  can_flush = true →
  let r := resume w in
  not_claimed w r.2 r.1 ∨ ∃ b, claimed_row w b ∧ streams r.2 = streams w ++ [(cid, batchID)] ∧
    let held := <[batchID := move statusResuming (clock (w_tick w)) b]> (v_batches w) in
    if refused (stream_error batchID reply) final then
      r.1 = OutcomeOrchestratorUnavailable ∧ v_msgs r.2 = v_msgs w ∧ ∃ t,
        let back := <[batchID := move statusResolving t (move statusResuming (clock (w_tick w)) b)]> held in
        (v_batches r.2 = held ∨ v_batches r.2 = back) ∧ (Reliable CB → v_batches r.2 = back)
    else r.1 = resumed_outcome final ∧ v_batches r.2 = held ∧ rewritten w r.2 (resumed_message final).
Proof.
  intros Hflush. cbn zeta. unfold runResumeStream. rewrite !st_bind_run.
  pose proof (claim_effect w) as (Hv & Hst & Hr). cbn zeta in *.
  change ((now clock w).1) with (clock (w_tick w)).
  pose proof (λ b HR, claim_wins w b HR) as Hwins.
  destruct (on_batches (AtomicTransitionResolvingToResuming (clock (w_tick w)) batchID) (now clock w).2)
    as [[claimed|e] w1]; cbn [fst snd] in *.
  2: { left. pose proof (keeps_write can_flush (error_event reasonNoActiveApproval) w1) as Hi.
       unfold turn_part in Hi. unfold chat_view in *. injection Hi as Him _ _ His. injection Hv as Hm _.
       unfold not_claimed, v_msgs, sseInlineError in *.
       destruct e; rewrite ?st_bind_run; cbn [st_ret fst snd]; (split_and!; [congruence|congruence|set_solver|]);
         intros HR b Hb; by specialize (Hwins b HR Hb). }
  right. destruct Hr as (b & Hb & -> & Hd). exists b. split; [done|].
  rewrite !st_bind_run. set (w2 := (emit (FxStream cid batchID body) w1).2).
  set (f := on_event (move statusResuming (clock (w_tick w)) b) batchID cid biz actor).
  rewrite stream_through_acts by done. cbn [fst snd]. set (l := stream_actions gone reply).
  assert (in_stream w2 (acts f l (start_resume m) w2).1 (acts f l (start_resume m) w2).2) as Hin.
  { apply (acts_inv f (in_stream w2)); [|intros; by apply event_in_stream|done].
    intros s' w' x Hs. apply (in_stream_keeps w2 s' s' w'); [|done|done|done].
    unfold turn_part, streams. cbn. by rewrite omap_app, app_nil_r. }
  assert (plain (acts f l (start_resume m) w2).1 = final) as Hs.
  { rewrite (acts_fold f plain (λ ev t, resume_step batchID t ev)) by (intros; apply event_step).
    unfold l. by rewrite delivered_actions. }
  set (s := (acts f l (start_resume m) w2).1) in *. set (w3 := (acts f l (start_resume m) w2).2) in *.
  rewrite <- Hs. change (refused (stream_error batchID reply) (plain s)) with (refused (stream_error batchID reply) s).
  change (resumed_outcome (plain s)) with (resumed_outcome s).
  change (resumed_message (plain s)) with (resumed_message s).
  assert (v_batches w2 = <[batchID := move statusResuming (clock (w_tick w)) b]> (v_batches w)) as Hb2 by exact Hd.
  assert (v_batches w3 = v_batches w2) as Hb3 by (destruct Hin as [Hf _]; unfold frame_part in Hf; congruence).
  destruct (settle_effect (stream_error batchID reply) s w2 w3 (move statusResuming (clock (w_tick w)) b) Hin)
    as [Hst' Hrest]; [by rewrite Hb3, Hb2, lookup_insert_eq|done|].
  unfold w2 at 1 in Hst'. rewrite streams_open, Hst in Hst'. split; [exact Hst'|].
  rewrite Hb2 in Hrest. destruct (refused _ s).
  - destruct Hrest as (? & Hm & t & ?). split; [done|]. split; [|by exists t].
    rewrite Hm. unfold chat_view in Hv. injection Hv as Hv _. exact Hv.
  - destruct Hrest as (? & ? & Hrw). split_and!; [done|done|]. by apply (rewritten_from w w2).
Qed.

Lemma refused_outcome s : resumed_outcome s ≠ OutcomeOrchestratorUnavailable.
Proof. unfold resumed_outcome. by destruct (rs_terminated s), (rs_repause s). Qed.

(** A batch that is resuming opens no stream. *)
Lemma resuming_row_closed w d m0 :
  can_flush = true → v_batches w = <[batchID := d]> m0 → b_status d = statusResuming → streams (resume w).2 = streams w.
Proof.
  intros Hf Hd Hs. destruct (resume_run w Hf) as [Hn|(b & [Hb Hbs] & _)]; [by destruct Hn|].
  rewrite Hd, lookup_insert_eq in Hb. injection Hb as <-. by rewrite Hs in Hbs.
Qed.

(** C7: no approved call runs twice: whatever the stores do, a resume opens an
    orchestrator stream only when it moved its own batch from resolving to resuming,
    and opens exactly one.  When the claim is refused it touches no message.  When the
    orchestrator takes the stream, the batch's row is left resuming with the calls it
    had, no other row changed, and a repeated resume opens no further stream; when the
    orchestrator refuses it, the paused message stays as it was and a batch store that
    answers has the row back at resolving. *)
Theorem resume_stream_needs_claim w :
  can_flush = true →
  let r := resume w in
  not_claimed w r.2 r.1
  ∨ ∃ b, claimed_row w b ∧ streams r.2 = streams w ++ [(cid, batchID)]
      ∧ (r.1 ≠ OutcomeOrchestratorUnavailable → ∃ d, v_batches r.2 = <[batchID := d]> (v_batches w)
         ∧ b_status d = statusResuming ∧ b_calls d = b_calls b ∧ streams (resume r.2).2 = streams r.2)
      ∧ (r.1 = OutcomeOrchestratorUnavailable → v_msgs r.2 = v_msgs w
         ∧ (Reliable CB → ∃ d, v_batches r.2 !! batchID = Some d ∧ b_status d = statusResolving
                               ∧ b_calls d = b_calls b)).
Proof.
  intros Hf. cbn zeta. destruct (resume_run w Hf) as [Hn|(b & Hb & Hst & Hr)]; [by left|right].
  exists b. cbn zeta in Hr. destruct (refused _ _).
  - destruct Hr as (Ho & Hm & t & _ & HR). split_and!; [done|done|by rewrite Ho|]. intros _. split; [done|].
    intros HB. rewrite (HR HB). eexists. by rewrite lookup_insert_eq.
  - destruct Hr as (Ho & Hd & _). split_and!; [done|done| |intros E; rewrite E in Ho; by destruct (refused_outcome _ (eq_sym Ho))].
    intros _. eexists. split_and!; [exact Hd|done|done|]. by eapply resuming_row_closed.
Qed.

(** C11: an approved turn is written back exactly: with stores that answer, when
    the batch is resolving and the orchestrator accepts the stream, the paused
    message's row becomes the message the frames add up to (completed, failed,
    paused again or interrupted), under its conversation's organisation, no other
    message changes, and the outcome names which of these happened. *)
Theorem resume_rewrites_message {RB : Reliable CB} {RM : Reliable CM} {RV : Reliable CV} w b :
  can_flush = true → claimed_row w b → dm_id m ≠ "" → is_Some (v_msgs w !! dm_id m) →
  refused (stream_error batchID reply) final = false →
  let r := resume w in
  r.1 = resumed_outcome final
  ∧ v_msgs r.2 = <[dm_id m := stored w (resumed_message final)]> (v_msgs w)
  ∧ v_batches r.2 = <[batchID := move statusResuming (clock (w_tick w)) b]> (v_batches w).
Proof.
  intros Hf Hb Hid Hrow Href. cbn zeta. destruct (resume_run w Hf) as [Hn|(b' & Hb' & _ & Hr)].
  { destruct Hn as (_ & _ & _ & Hn). by destruct (Hn RB b Hb). }
  cbn zeta in Hr. rewrite Href in Hr. destruct Hr as (Ho & Hd & _ & HR). destruct Hb as [Hb _], Hb' as [Hb' _].
  rewrite Hb in Hb'. injection Hb' as <-. split; [done|]. split; [|done].
  rewrite HR by (rewrite ?resumed_id; done). unfold put_msg.
  by assert (dm_id (stored w (resumed_message final)) = dm_id m) as -> by apply resumed_id.
Qed.
End claimed.
End resume.
