(* ===== verification/ChatTurn.v ===== *)
(** * The chat turn

    [services/api/internal/service/chatturn/stream.go], [enrich.go] and [turn.go]:
    one request to [POST /chat/{id}], from the ownership check to the message it
    persists, and the HTTP status the two handlers give its outcome
    ([services/api/internal/handler/chat_proxy.go], [hitl.go]).
    [resolve_url] stands for the URL resolution of [net/url], [voice_instructions]
    for [platform.VoiceInstructionsFromSettings]; [user_locale] is the request's
    language. *)

From S2P Require Import Prelude Json GoTime Types OrchClient Tools Policy Mongo ChatStore TaskStore PostStore HitlStore ReviewStore ChatWorld Postal ChatHitl ChatResume.
Local Open Scope go_scope.

Record TurnRequest := {
  rq_attachments : list Attachment;
  rq_business_id : uuid;
  rq_user_id : uuid;
  rq_conversation_id : string;
  rq_message : string;
  rq_model : string;
  rq_selected_platforms : list string;
  rq_platform_scope_set : bool;
  rq_resume_batch_id : string;
  rq_english : bool;
}.

(** ** The stream state *)

Record streamState := {
  ss_done : bool;
  ss_text : string;
  ss_calls : list DToolCall;
  ss_results : list DToolResult;
  ss_pause : option SseEvent;
  ss_err_content : string;
  ss_err_code : string;
  ss_ids : gmap string string;
}.

Definition newStreamState : streamState := {|
  ss_done := false; ss_text := ""; ss_calls := []; ss_results := []; ss_pause := None;
  ss_err_content := ""; ss_err_code := ""; ss_ids := ∅ |}.

Definition toolArgsByCallID (s : streamState) (toolCallID : string) : gomap :=
  if String.eqb toolCallID "" then None
  else match filterb (λ c, String.eqb (dtc_id c) toolCallID) (ss_calls s) with
       | c :: _ => dtc_arguments c
       | [] => None
       end.

Definition streamed_call (ev : SseEvent) : DToolCall := {|
  dtc_id := ev_tool_call_id ev; dtc_name := ev_tool_name ev; dtc_arguments := ev_tool_args ev;
  dtc_approval_id := ""; dtc_status := "" |}.

Definition set_stream_ids (ids : gmap string string) (s : streamState) : streamState := {|
  ss_done := ss_done s; ss_text := ss_text s; ss_calls := ss_calls s; ss_results := ss_results s;
  ss_pause := ss_pause s; ss_err_content := ss_err_content s; ss_err_code := ss_err_code s; ss_ids := ids |}.

(** What a frame adds to the state, the task rows apart. *)
Definition absorb (ev : SseEvent) (s : streamState) : streamState :=
  let ty := ev_type ev in
  let mk d t c r p ec ek := {| ss_done := d; ss_text := t; ss_calls := c; ss_results := r; ss_pause := p;
    ss_err_content := ec; ss_err_code := ek; ss_ids := ss_ids s |} in
  if String.eqb ty "done" then
    mk true (ss_text s) (ss_calls s) (ss_results s) (ss_pause s) (ss_err_content s) (ss_err_code s)
  else if String.eqb ty "text" then
    mk (ss_done s) (ss_text s +:+ ev_content ev)%string (ss_calls s) (ss_results s) (ss_pause s)
      (ss_err_content s) (ss_err_code s)
  else if String.eqb ty "tool_call" then
    mk (ss_done s) (ss_text s) (ss_calls s ++ [streamed_call ev]) (ss_results s) (ss_pause s)
      (ss_err_content s) (ss_err_code s)
  else if String.eqb ty "tool_result" then
    mk (ss_done s) (ss_text s) (ss_calls s) (ss_results s ++ [result_of ev]) (ss_pause s)
      (ss_err_content s) (ss_err_code s)
  else if String.eqb ty "tool_approval_required" then
    mk (ss_done s) (ss_text s) (ss_calls s) (ss_results s) (Some ev) (ss_err_content s) (ss_err_code s)
  else if String.eqb ty "error" then
    mk (ss_done s) (ss_text s) (ss_calls s) (ss_results s) (ss_pause s) (ev_content ev)
      (if String.eqb (ev_code ev) "" then "STREAM_ERROR" else ev_code ev)
  else s.

(** ** What the turn persists *)

(** The calls of a paused message: those the batch does not hold, then the
    batch's own, each once. *)
Definition paused_calls (streamed : list DToolCall) (pause : SseEvent) : list DToolCall :=
  filterb (λ tc, negb (list_mem (dtc_id tc) (ac_call_id <$> ev_calls pause))) streamed
  ++ (pending_call (ev_batch_id pause) <$> ev_calls pause).

Definition assistant_message (id conversationID content : string) (calls : list DToolCall)
    (results : list DToolResult) (status code : string) (successful : bool) (at_ : Z) : DMessage := {|
  dm_successful := successful; dm_business_id := ""; dm_id := id; dm_conversation_id := conversationID;
  dm_role := MessageRoleAssistant; dm_content := content; dm_attachments := [];
  dm_tool_calls := calls; dm_tool_results := results; dm_metadata := None; dm_error_code := code;
  dm_status := status; dm_created_at := Some at_ |}.

(** The catalogue entry [api.chat.stream_error_wrapper]. *)
Definition stream_error_wrapper (english : bool) (content : string) : string :=
  if english then ("[Error: " +:+ content +:+ "]")%string else ("[Ошибка: " +:+ content +:+ "]")%string.

(** The error code after the stream: one that neither finished nor reported an
    error was interrupted. *)
Definition final_code (s : streamState) : string :=
  if negb (ss_done s) && String.eqb (ss_err_code s) "" then "STREAM_INTERRUPTED" else ss_err_code s.

(** The message of the turn, as [persistAfterStream] builds it. *)
Definition final_message (english : bool) (id conversationID : string) (at_ : Z) (s : streamState) : DMessage :=
  match ss_pause s with
  | Some pause => assistant_message id conversationID (ss_text s) (paused_calls (ss_calls s) pause)
      (ss_results s) MessageStatusPendingApproval "" false at_
  | None =>
      let code := final_code s in
      let failed := negb (String.eqb code "") in
      let content := if String.eqb (ss_text s) "" && negb (String.eqb (ss_err_content s) "")
                     then stream_error_wrapper english (ss_err_content s) else ss_text s in
      assistant_message id conversationID content (ss_calls s) (ss_results s)
        (if failed then MessageStatusError else MessageStatusComplete) code
        (ss_done s && String.eqb code "") at_
  end.

(** ** Enrichment *)

Record projectFields := {
  pf_id : string;
  pf_name : string;
  pf_system_prompt : string;
  pf_whitelist_mode : string;
  pf_allowed_tools : list string;
}.

Definition no_project : projectFields :=
  {| pf_id := ""; pf_name := ""; pf_system_prompt := ""; pf_whitelist_mode := ""; pf_allowed_tools := [] |}.

Record enrichmentResult := {
  en_business : Business;
  en_active : list string;
  en_history : option (list (string * string));
  en_user_message : DMessage;
  en_project : projectFields;
  en_business_approvals : gmap string string;
  en_project_overrides : gmap string string;
}.

Inductive EnrichError := ErrBusinessNotFound | ErrEnrich.

(** [extractVoiceTone] on settings read back from JSON. *)
Definition extractVoiceTone (settings : gomap) : option (list string) :=
  match gomap_get "voiceTone" settings with
  | Some (GArr l) => Some (omap (λ v, match v with GStr s => if String.eqb s "" then None else Some s
                                                 | _ => None end) l)
  | _ => None
  end.

Definition enc_strings (l : list string) : gval := GArr (GStr <$> l).
Definition enc_floors (m : gmap string string) : gval := GObj ((λ kv, (kv.1, GStr kv.2)) <$> map_to_list m).

Section turn.
Context {CM : Coll DMessage dm_id} {CV : Coll Conversation cv_id}
  {CB : Coll PendingToolCallBatch b_id} {CT : Coll AgentTask tk_id}
  {CP : Coll Post po_id} {CR : Coll Review rv_id} {U : UUIDText} {J : JsonText}.
Variables (deps : Deps) (clock : nat → Z) (fresh : nat → string)
  (yandex_published : gomap → Z → option Z) (format_rfc3339 : Z → string)
  (can_flush : bool) (gone : nat → bool)
  (resolve_url : string → string) (voice_instructions : gomap → string).

Notation M A := (World → A * World).
Notation now := (now clock).
Notation records := (recordPostsAndReviews deps clock fresh yandex_published format_rfc3339).

Definition contentWithAttachments (text : string) (attachments : list Attachment) : string :=
  foldl (λ acc a, if String.eqb (at_type a) "image"
    then (acc +:+ line_break +:+ line_break +:+ "User-provided image URL for the requested action: "
          +:+ resolve_url (at_url a))%string else acc) text attachments.

Definition history_line (m : DMessage) : option (string * string) :=
  let content := contentWithAttachments (dm_content m) (dm_attachments m) in
  if String.eqb (dm_role m) MessageRoleUser then Some (MessageRoleUser, content)
  else if String.eqb (dm_role m) MessageRoleAssistant then
    if String.eqb content "" && (length (dm_tool_calls m) =? 0)%nat then None
    else Some (MessageRoleAssistant, content)
  else None.

Definition loadHistory (conversationID : string) : M (option (list (string * string))) :=
  st! r := on_chat (ListByConversationID conversationID (history_limit deps) 0) in
  match r with
  | Err _ => st_ret None
  | Ok msgs => st_ret (Some (omap history_line msgs))
  end.

Definition resolveProject (businessID : uuid) (conversationID : string)
    : M (projectFields * gmap string string) :=
  st! r := on_chat (GetConversation conversationID) in
  match r with
  | Err _ => st_ret (no_project, ∅)
  | Ok conv =>
      match cv_project_id conv with
      | None => st_ret (no_project, ∅)
      | Some pid =>
          match (if String.eqb pid "" then None else uuid_parse pid) with
          | None => st_ret (no_project, ∅)
          | Some proj =>
              st! p := look (λ n, get_project deps n businessID proj) in
              st_ret (match p with
                | None => (no_project, ∅)
                | Some p => ({| pf_id := uuid_string (pj_id p); pf_name := pj_name p;
                    pf_system_prompt := pj_system_prompt p; pf_whitelist_mode := pj_whitelist_mode p;
                    pf_allowed_tools := pj_allowed_tools p |}, pj_approval_overrides p)
                end)
          end
      end
  end.

Definition enrich (req : TurnRequest) : M (result EnrichError enrichmentResult) :=
  st! b := look (λ n, get_business deps n (rq_business_id req)) in
  match b with
  | None => st_ret (Err ErrEnrich)
  | Some None => st_ret (Err ErrBusinessNotFound)
  | Some (Some business) =>
      st! l := look (λ n, list_integrations deps n (bz_id business)) in
      match l with
      | None => st_ret (Err ErrEnrich)
      | Some l =>
          let active := active_platforms [] l in
          let active := if rq_platform_scope_set req
            then PlatformScope.IntersectSelectedPlatforms active (rq_selected_platforms req) else active in
          st! history := loadHistory (rq_conversation_id req) in
          st! id := new_id fresh in
          let userMsg := {| dm_successful := false; dm_business_id := ""; dm_id := id;
            dm_conversation_id := rq_conversation_id req; dm_role := MessageRoleUser;
            dm_content := rq_message req; dm_attachments := rq_attachments req; dm_tool_calls := [];
            dm_tool_results := []; dm_metadata := None; dm_error_code := ""; dm_status := "";
            dm_created_at := None |} in
          st! p := resolveProject (bz_id business) (rq_conversation_id req) in
          st_ret (Ok {| en_business := business; en_active := active; en_history := history;
            en_user_message := userMsg; en_project := p.1;
            en_business_approvals := ToolApprovals (bz_settings business);
            en_project_overrides := p.2 |})
      end
  end.

Definition buildOrchestratorRequest (req : TurnRequest) (e : enrichmentResult) : gval :=
  let b := en_business e in
  let p := en_project e in
  GObj ([("model", GStr (rq_model req));
    ("message", GStr (contentWithAttachments (rq_message req) (rq_attachments req)));
    ("business_id", GStr (uuid_string (bz_id b))); ("business_name", GStr (bz_name b));
    ("business_category", GStr (bz_category b)); ("business_address", GStr (bz_address b));
    ("business_phone", GStr (bz_phone b)); ("business_website", GStr (default "" (bz_website b)));
    ("business_description", GStr (bz_description b));
    ("business_voice_tone", match extractVoiceTone (bz_settings b) with
                            | Some l => enc_strings l | None => GNull end);
    ("business_voice_profile", GStr (voice_instructions (bz_settings b)));
    ("active_integrations", enc_strings (en_active e));
    ("history", match en_history e with
       | Some h => GArr ((λ rc, GObj [("role", GStr rc.1); ("content", GStr rc.2)]) <$> h)
       | None => GNull end);
    ("project_id", GStr (pf_id p)); ("project_name", GStr (pf_name p));
    ("project_system_prompt", GStr (pf_system_prompt p));
    ("project_whitelist_mode", GStr (pf_whitelist_mode p));
    ("project_allowed_tools", enc_strings (pf_allowed_tools p));
    ("user_id", GStr (uuid_string (rq_user_id req)));
    ("message_id", GStr (dm_id (en_user_message e)));
    ("tier", GStr (match plan_tier deps with Some f => f (bz_id b) | None => "" end));
    ("business_approvals", enc_floors (en_business_approvals e));
    ("project_approval_overrides", enc_floors (en_project_overrides e));
    ("locale", GStr (if rq_english req then "en" else "ru"))]
  ++ (if rq_platform_scope_set req
      then [("selected_platforms", enc_strings (rq_selected_platforms req))] else [])).

(** ** The stream *)

Definition dispatchEventWithOrigin (businessID conversationID userID : string) (ev : SseEvent)
    (s : streamState) : M streamState :=
  let s := absorb ev s in
  if String.eqb (ev_type ev) "tool_call" then
    st! ids := onToolCallWithOrigin deps clock fresh businessID conversationID userID
                 (ev_tool_call_id ev) (ev_tool_name ev) (ev_tool_display_name ev)
                 (ev_tool_display_name_key ev) (ev_tool_args ev) "" (ss_ids s) in
    st_ret (set_stream_ids ids s)
  else if String.eqb (ev_type ev) "tool_result" then
    st! _ := onToolResult deps clock businessID (ev_tool_call_id ev) (result_content (ev_tool_result ev))
               (toolArgsByCallID s (ev_tool_call_id ev)) (ev_tool_error ev) (ev_code ev) (ss_ids s) in
    st_ret s
  else st_ret s.

Definition reserveAssistantPlaceholder (conversationID messageID : string) (createdAt : Z) : M unit :=
  st! _ := create_and_bump clock fresh (assistant_message messageID conversationID "" [] []
             MessageStatusInProgress "" false createdAt) in
  st_ret tt.

Definition persistAfterStream (req : TurnRequest) (businessID streamStartID : string) (streamStartAt : Z)
    (s : streamState) : M unit :=
  st! _ := finalizeAssistantMessage clock fresh
             (final_message (rq_english req) streamStartID (rq_conversation_id req) streamStartAt s) in
  match ss_pause s with
  | Some _ => st_ret tt
  | None =>
      if String.eqb (final_code s) ""
         && (negb (String.eqb (ss_text s) "") || negb (length (ss_calls s) =? 0)%nat)
      then fireAutoTitleIfPending deps (rq_conversation_id req) businessID (rq_message req) (ss_text s)
      else st_ret tt
  end.

Definition record_turn (businessID userID group : string) (s : streamState) : M unit :=
  st! _ := records businessID group (ss_calls s) (ss_results s) in
  st! _ := auditRPAMutations deps businessID userID (ss_calls s) (ss_results s) in
  auditPlatformMutations deps businessID userID (ss_calls s) (ss_results s).

(** The stream was refused before its first byte. *)
Definition unavailable (err : option StreamError) (s : streamState) : bool :=
  match err with
  | None => false
  | Some e => negb (bool_decide (is_Some (ss_pause s))) && String.eqb (ss_err_code s) ""
      && negb (se_canceled e) && str_contains (se_text e) "stream chat"
  end.

(** Persist, record, and name the outcome. *)
Definition finish_turn (req : TurnRequest) (e : enrichmentResult) (streamStartID : string)
    (streamStartAt : Z) (err : option StreamError) (s : streamState) : M TurnOutcome :=
  let businessID := uuid_string (bz_id (en_business e)) in
  if unavailable err s then st_ret OutcomeOrchestratorUnavailable
  else
    st! _ := persistAfterStream req businessID streamStartID streamStartAt s in
    st! _ := record_turn businessID (uuid_string (rq_user_id req)) streamStartID s in
    st_ret (match ss_pause s with
            | Some _ => OutcomePauseHITL
            | None => if negb (String.eqb (final_code s) "") then OutcomeError else OutcomeDone
            end).

(** A fresh turn: [reply] is what the orchestrator's stream gives back. *)
Definition fresh_turn (req : TurnRequest) (reply : Reply) : M TurnOutcome :=
  if String.eqb (rq_message req) "" then st_ret OutcomeMissingMessage
  else
    st! en := enrich req in
    match en with
    | Err ErrBusinessNotFound => st_ret OutcomeBusinessNotFound
    | Err ErrEnrich => st_ret OutcomeError
    | Ok e =>
        let businessID := uuid_string (bz_id (en_business e)) in
        let conversationID := rq_conversation_id req in
        st! _ := create_and_bump clock fresh (en_user_message e) in
        st! streamStartID := new_id fresh in
        st! streamStartAt := now in
        st! _ := reserveAssistantPlaceholder conversationID streamStartID streamStartAt in
        st! _ := emit (FxStream conversationID "" (buildOrchestratorRequest req e)) in
        st! r := stream_through can_flush gone "" reply
                   (dispatchEventWithOrigin businessID conversationID (uuid_string (rq_user_id req)))
                   newStreamState in
        finish_turn req e streamStartID streamStartAt r.1 r.2
    end.

Definition Run (req : TurnRequest) (reply : Reply) : M TurnOutcome :=
  let conversationID := rq_conversation_id req in
  st! owns := ownsConversation conversationID (uuid_string (rq_user_id req)) (uuid_string (rq_business_id req)) in
  if negb owns then st_ret OutcomeConversationNotFound
  else
    st! g := gateOnRequest clock conversationID (rq_resume_batch_id req) in
    match g with
    | (gateRejoinResume, Some activeMsg, _, batchID) =>
        streamResume deps clock fresh yandex_published format_rfc3339 can_flush gone reply conversationID
          activeMsg batchID
    | (gateReemitApproval, _, Some batch, _) =>
        st! _ := reemitApprovalEvent can_flush batch in st_ret OutcomeReemittedApproval
    | (gateRejectInProgress, _, _, _) => st_ret OutcomeTurnInProgress
    | (gateHealStranded, Some activeMsg, _, _) =>
        st! _ := finalizeStranded clock activeMsg in fresh_turn req reply
    | _ => fresh_turn req reply
    end.

(** ** What the steps leave alone *)

Lemma keeps_history cid : keeps turn_part (loadHistory cid).
Proof. unfold loadHistory. keeps_tac. Qed.
#[local] Hint Resolve keeps_history : keeps.

Lemma keeps_project b cid : keeps turn_part (resolveProject b cid).
Proof. unfold resolveProject. keeps_tac. Qed.
#[local] Hint Resolve keeps_project : keeps.

Lemma keeps_enrich req : keeps turn_part (enrich req).
Proof. unfold enrich. keeps_tac. Qed.

Lemma keeps_dispatch b c u ev s : keeps chat_part (dispatchEventWithOrigin b c u ev s).
Proof. unfold dispatchEventWithOrigin. keeps_tac. Qed.

Lemma keeps_record_turn b u g s : keeps chat_part (record_turn b u g s).
Proof. unfold record_turn, auditRPAMutations, auditPlatformMutations. keeps_tac. Qed.
#[local] Hint Resolve keeps_enrich keeps_dispatch keeps_record_turn : keeps.
#[local] Hint Resolve keeps_turn_streams : keeps.

Lemma keeps_create m : keeps streams (create_and_bump clock fresh m).
Proof. unfold create_and_bump. keeps_tac. Qed.
#[local] Hint Resolve keeps_create : keeps.

Lemma keeps_finalize m : keeps streams (finalizeAssistantMessage clock fresh m).
Proof. unfold finalizeAssistantMessage. keeps_tac. Qed.

Lemma keeps_stranded m : keeps streams (finalizeStranded clock m).
Proof. unfold finalizeStranded. keeps_tac. Qed.
#[local] Hint Resolve keeps_finalize keeps_stranded : keeps.

Lemma keeps_reserve c i t : keeps streams (reserveAssistantPlaceholder c i t).
Proof. unfold reserveAssistantPlaceholder. keeps_tac. Qed.

Lemma keeps_finish req e i t err s : keeps streams (finish_turn req e i t err s).
Proof. unfold finish_turn, persistAfterStream. keeps_tac. Qed.

Lemma keeps_turn_stream batchID reply b c u s :
  keeps streams (stream_through can_flush gone batchID reply (dispatchEventWithOrigin b c u) s).
Proof. apply keeps_stream; [|eauto with keeps]. intros w x. unfold streams. cbn. by rewrite omap_app, app_nil_r. Qed.

(** ** What the stream's frames add up to *)

Definition turn_fold (evs : list SseEvent) : streamState := foldl (λ s ev, absorb ev s) newStreamState evs.

Lemma dispatch_absorb b c u ev s w :
  set_stream_ids ∅ (dispatchEventWithOrigin b c u ev s w).1 = absorb ev (set_stream_ids ∅ s).
Proof.
  unfold dispatchEventWithOrigin. cbv zeta.
  assert (set_stream_ids ∅ (absorb ev s) = absorb ev (set_stream_ids ∅ s)) as <-.
  { unfold absorb, set_stream_ids. destruct s. cbn. repeat case_match; done. }
  destruct (String.eqb (ev_type ev) "tool_call"); [by rewrite st_bind_run|].
  destruct (String.eqb (ev_type ev) "tool_result"); [by rewrite st_bind_run|done].
Qed.

Lemma stream_folds reply b c u w :
  can_flush = true →
  let r := stream_through can_flush gone "" reply (dispatchEventWithOrigin b c u) newStreamState w in
  r.1.1 = stream_error "" reply ∧ set_stream_ids ∅ r.1.2 = turn_fold (stream_events reply)
  ∧ turn_part r.2 = turn_part w.
Proof.
  intros Hf. cbn zeta. rewrite stream_through_acts by done. cbn [fst snd]. split; [done|]. split.
  - rewrite (acts_fold _ (set_stream_ids ∅) absorb) by (intros; apply dispatch_absorb).
    by rewrite delivered_actions.
  - apply (acts_inv _ (λ _ w', turn_part w' = turn_part w)); [|intros ev s w' <-; apply keeps_chat_turn, keeps_dispatch|done].
    intros s w' x <-. unfold turn_part, streams. cbn. by rewrite omap_app, app_nil_r.
Qed.

(** ** The writes of a finished turn *)

#[local] Hint Extern 1 (keeps w_ids (on_chat _)) => keeps_prim : keeps.

(** The user's message of a turn, with its id and nothing else of the store's. *)
Definition user_message (req : TurnRequest) (id : string) : DMessage := {|
  dm_successful := false; dm_business_id := ""; dm_id := id;
  dm_conversation_id := rq_conversation_id req; dm_role := MessageRoleUser;
  dm_content := rq_message req; dm_attachments := rq_attachments req; dm_tool_calls := [];
  dm_tool_results := []; dm_metadata := None; dm_error_code := ""; dm_status := "";
  dm_created_at := None |}.

Lemma enrich_message req w e :
  (enrich req w).1 = Ok e →
  en_user_message e = user_message req (fresh (w_ids w)) ∧ w_ids (enrich req w).2 = S (w_ids w).
Proof.
  assert (∀ cid, keeps w_ids (loadHistory cid)) as Hh by (intros; unfold loadHistory; keeps_tac).
  assert (∀ b cid, keeps w_ids (resolveProject b cid)) as Hp by (intros; unfold resolveProject; keeps_tac).
  unfold enrich. rewrite st_bind_run. destruct (look _ w).1 as [[b|]|]; [|done..].
  rewrite st_bind_run. destruct (look _ _).1 as [l|]; [|done]. cbv zeta.
  rewrite !st_bind_run. cbn [st_ret fst snd]. intros [= <-]. cbn [en_user_message].
  split; [by rewrite Hh|]. rewrite Hp. cbn [new_id snd w_ids]. by rewrite Hh.
Qed.

Section reliable.
Context {RM : Reliable CM} {RV : Reliable CV}.

(** A fresh message is written under its conversation's organisation. *)
Lemma create_writes m w :
  dm_id m ≠ "" → v_msgs w !! dm_id m = None →
  let w' := (create_and_bump clock fresh m w).2 in
  frame_part w' = frame_part w ∧ w_ids w' = S (w_ids w)
  ∧ v_msgs w' = put_msg w (stored w (dm_stamp (dm_id m) "" (Some (clock (w_tick w))) m)).
Proof.
  intros Hid Hn. cbn zeta. unfold create_and_bump. rewrite !st_bind_run. cbn [st_ret snd].
  set (w1 := (new_id fresh (now w).2).2). set (oid := (new_id fresh (now w).2).1).
  change (now w).1 with (clock (w_tick w)).
  pose proof (create_effect (clock (w_tick w)) oid m w1) as (Hs & _ & Hr). cbn zeta in *.
  unfold created_id in Hr. rewrite (proj2 (String.eqb_neq _ _) Hid) in Hr.
  pose proof (create_ok (clock (w_tick w)) oid m w1 Hid Hn) as Hok. rewrite Hok in Hr. destruct Hr as [_ Hr].
  set (r := on_chat (CreateMessage (clock (w_tick w)) oid m) w1) in *.
  destruct (turn_part_frame _ _ (keeps_bump clock r.1.1 r.2)) as [Hf Hm].
  assert (keeps w_ids (bumpLastMessageAt clock r.1.1)) as Hk.
  { unfold bumpLastMessageAt, bump_at, Postal.now. keeps_tac. }
  rewrite Hf, Hm, Hk, Hr. unfold side_part in Hs. injection Hs as Ho Hb Hst Hi.
  unfold frame_part. rewrite Ho, Hb, Hst, Hi. done.
Qed.

(** Finalising a message that has its row rewrites the row. *)
Lemma finalize_writes m w :
  dm_id m ≠ "" → is_Some (v_msgs w !! dm_id m) →
  let w' := (finalizeAssistantMessage clock fresh m w).2 in
  frame_part w' = frame_part w ∧ v_msgs w' = put_msg w (stored w m).
Proof.
  intros Hid Hs. cbn zeta. unfold finalizeAssistantMessage. rewrite st_bind_run.
  pose proof (update_effect m w) as [Hsp Hr]. cbn zeta in *. rewrite (update_ok m w Hid Hs) in *.
  rewrite st_bind_run. cbn [st_ret snd]. destruct Hr as [_ Hr].
  destruct (turn_part_frame _ _ (keeps_bump clock m (on_chat (UpdateMessage m) w).2)) as [Hf Hm].
  rewrite Hf, Hm, Hr. unfold side_part, frame_part in *. injection Hsp as -> -> -> _. done.
Qed.
End reliable.

(** ** A request that runs a turn of its own *)

(** A read that [enrich] rests on fails, or finds no business. *)
Definition enrich_blocked (req : TurnRequest) : Prop :=
  (∃ n, ∀ b, get_business deps n (rq_business_id req) ≠ Some (Some b)) ∨ (∃ n b, list_integrations deps n b = None).

Lemma enrich_or_blocked req w :
  (∃ e, (enrich req w).1 = Ok e) ∨ (∃ f, (enrich req w).1 = Err f) ∧ enrich_blocked req.
Proof.
  unfold enrich. rewrite st_bind_run. cbn [look fst snd].
  destruct (get_business deps (w_tick w) (rq_business_id req)) as [[b|]|] eqn:Eb;
    [|right; split; [by eexists|left; exists (w_tick w); intros b'; by rewrite Eb]..].
  rewrite st_bind_run. cbn [look fst snd].
  match goal with |- context [list_integrations deps ?n ?i] => destruct (list_integrations deps n i) as [l|] eqn:El;
    [|right; split; [by eexists|right; by exists n, i]] end.
  left. rewrite !st_bind_run. eexists. reflexivity.
Qed.

Section answering.
Variable (req : TurnRequest).
Hypothesis business_known : ∀ n, ∃ b, get_business deps n (rq_business_id req) = Some (Some b).
Hypothesis integrations_listed : ∀ n b, is_Some (list_integrations deps n b).

Lemma enrich_answers w : ∃ e, (enrich req w).1 = Ok e.
Proof.
  destruct (enrich_or_blocked req w) as [?|[_ [[n Hn]|(n & b & Hn)]]]; [done|..].
  - destruct (business_known n) as [b Hb]. by destruct (Hn b).
  - destruct (integrations_listed n b) as [l Hl]. congruence.
Qed.
End answering.

Lemma finish_outcome req e i t err s w :
  (finish_turn req e i t err s w).1 ∈ [OutcomeOrchestratorUnavailable; OutcomePauseHITL; OutcomeError; OutcomeDone].
Proof.
  unfold finish_turn. destruct (unavailable err s); [set_solver|]. rewrite !st_bind_run. cbn [st_ret fst].
  destruct (ss_pause s); [set_solver|]. destruct (String.eqb (final_code s) ""); set_solver.
Qed.

(** A turn of its own opens its stream, or says why it could not. *)
Definition own_turn (req : TurnRequest) (before : list (string * string)) (r : TurnOutcome * World) : Prop :=
  r.1 ∉ [OutcomeTurnInProgress; OutcomeReemittedApproval; OutcomeResumeInProgress] ∧
  (streams r.2 = before ++ [(rq_conversation_id req, "")]
   ∨ streams r.2 = before ∧ (rq_message req = "" ∨ enrich_blocked req)).

Lemma fresh_turn_opens req reply w w' :
  streams w' = streams w → own_turn req (streams w) (fresh_turn req reply w').
Proof.
  intros <-. unfold own_turn, fresh_turn. destruct (String.eqb_spec (rq_message req) "") as [Hm|Hm].
  { cbn. split; [set_solver|]. by auto. }
  pose proof (keeps_turn_streams _ (keeps_enrich req) w') as Hs. rewrite st_bind_run.
  destruct (enrich_or_blocked req w') as [[e ->]|[[[] ->] Hb]]; [|cbn [st_ret fst snd]; split; [set_solver|by auto]..].
  rewrite !st_bind_run. match goal with |- (finish_turn ?q ?e ?i ?t ?err ?s ?w1).1 ∉ _ ∧ _ =>
    pose proof (finish_outcome q e i t err s w1) as Ho; rewrite (keeps_finish q e i t err s w1) end.
  split.
  - intros Hn. apply list_mem_true in Ho, Hn. by destruct (finish_turn _ _ _ _ _ _ _).1.
  - left. rewrite (keeps_turn_stream _ _ _ _ _ _ _), streams_open, (keeps_reserve _ _ _ _).
    change (streams (create_and_bump clock fresh (en_user_message e) (enrich req w').2).2
      ++ [(rq_conversation_id req, "")] = streams w' ++ [(rq_conversation_id req, "")]).
    by rewrite (keeps_create _ _), Hs.
Qed.

Section entering.
Variable (req : TurnRequest).

(** Someone else's conversation is the only one refused before the gate. *)
Definition may_enter (w : World) : Prop :=
  ∀ o, owners (w_chat w) !! rq_conversation_id req = Some o →
    o = (uuid_string (rq_user_id req), uuid_string (rq_business_id req)).

Lemma tick_owns c u b : keeps w_tick (ownsConversation c u b).
Proof.
  unfold ownsConversation. apply keeps_bind; [keeps_prim|]. intros []; apply keeps_ret.
Qed.

Lemma ids_owns c u b : keeps w_ids (ownsConversation c u b).
Proof.
  unfold ownsConversation. apply keeps_bind; [keeps_prim|]. intros []; apply keeps_ret.
Qed.

Lemma owns_enter w :
  may_enter w →
  (ownsConversation (rq_conversation_id req) (uuid_string (rq_user_id req)) (uuid_string (rq_business_id req)) w).1
  = true.
Proof.
  intros He. unfold ownsConversation. rewrite st_bind_run. unfold on_chat, focus.
  pose proof (get_conversation_spec (rq_conversation_id req) (w_chat w)) as Hs.
  destruct (GetConversation _ (w_chat w)) as [[c|e] d]; [|done]. destruct Hs as [Hc _]. cbn.
  unfold may_enter, owners in He. rewrite lookup_fmap, Hc in He. specialize (He _ eq_refl).
  injection He as -> ->. by rewrite !String.eqb_refl.
Qed.

(** C8: a stalled conversation always recovers: whatever the stores hold and
    however their calls fault, once every placeholder of the conversation has
    outlived the stream budget and every approval batch of it is closed or past
    its deadline, the next request of its owner without a resume header is never
    told that a turn is in progress or shown an old approval, and opens exactly one
    orchestrator stream, unless its message is empty, its business is missing or
    unreadable, or its integrations cannot be listed. *)
Theorem stalled_conversation_recovers reply w :
  rq_resume_batch_id req = "" → may_enter w →
  (∀ k m n, v_msgs w !! k = Some m → is_active (rq_conversation_id req) m = true →
     w_tick w ≤ n → ¬ in_flight (clock n) m) →
  (∀ k b n, v_batches w !! k = Some b → b_conversation_id b = rq_conversation_id req →
     w_tick w ≤ n → live_at (clock n) b = false) →
  let r := Run req reply w in
  r.1 ∉ [OutcomeTurnInProgress; OutcomeReemittedApproval; OutcomeResumeInProgress]
  ∧ (streams r.2 = streams w ++ [(rq_conversation_id req, "")]
     ∨ streams r.2 = streams w ∧ (rq_message req = ""
         ∨ (∃ n, ∀ b, get_business deps n (rq_business_id req) ≠ Some (Some b))
         ∨ ∃ n b, list_integrations deps n b = None)).
Proof.
  intros no_header He Hmsgs Hbs. change (own_turn req (streams w) (Run req reply w)). unfold Run. rewrite st_bind_run, owns_enter by done. cbn [negb].
  set (w1 := (ownsConversation _ _ _ w).2).
  assert (turn_part w1 = turn_part w) as Hw1 by apply keeps_owns.
  rewrite st_bind_run, no_header. pose proof (gate_spec clock (rq_conversation_id req) "" w1) as Hg.
  set (w2 := (gateOnRequest clock (rq_conversation_id req) "" w1).2).
  assert (turn_part w2 = turn_part w) as Hw2 by (rewrite <- Hw1; apply keeps_gate).
  unfold turn_part, chat_view in Hw1, Hw2. injection Hw1 as Em Eo Eb _. injection Hw2 as Em2 _ _ Es2.
  assert (w_tick w ≤ w_tick w1) as Ht by (apply Nat.eq_le_incl; symmetry; apply tick_owns).
  assert (∀ b, ¬ live_row w1 (clock (w_tick w1)) (rq_conversation_id req) b) as Hdead.
  { intros b ([k Hk] & Hc & Hl). rewrite Eb in Hk. by rewrite (Hbs k b (w_tick w1)) in Hl. }
  destruct (gateOnRequest clock (rq_conversation_id req) "" w1).1 as [[[[] m] b] id].
  - by apply fresh_turn_opens.
  - destruct Hg as (m' & _ & _ & b' & _ & _ & Hl & _). by destruct (Hdead _ Hl).
  - destruct Hg as (_ & _ & m' & b' & _ & _ & _ & Hl & _). by destruct (Hdead _ Hl).
  - destruct Hg as (_ & -> & -> & m' & -> & _). rewrite st_bind_run. apply fresh_turn_opens.
    by rewrite (keeps_stranded m' w2).
  - destruct Hg as (_ & _ & _ & m' & _ & ([k Hk] & Ha & _) & Hf & _). unfold v_msgs in Hk. rewrite Em in Hk.
    by destruct (Hmsgs k m' (S (w_tick w1)) Hk Ha (Nat.le_trans _ _ _ Ht (Nat.le_succ_diag_r _)) Hf).
Qed.
End entering.

(** The gate runs on the stores the request found. *)
Lemma run_gate req reply w :
  (Run req reply w).1 = OutcomeConversationNotFound ∧ turn_part (Run req reply w).2 = turn_part w
  ∨ ∃ w1, turn_part w1 = turn_part w ∧ w_tick w1 = w_tick w ∧ w_ids w1 = w_ids w
      ∧ Run req reply w = (let cid := rq_conversation_id req in
        let g := gateOnRequest clock cid (rq_resume_batch_id req) w1 in
        match g.1 with
        | (gateRejoinResume, Some activeMsg, _, batchID) =>
            streamResume deps clock fresh yandex_published format_rfc3339 can_flush gone reply cid activeMsg batchID g.2
        | (gateReemitApproval, _, Some batch, _) =>
            (OutcomeReemittedApproval, (reemitApprovalEvent can_flush batch g.2).2)
        | (gateRejectInProgress, _, _, _) => (OutcomeTurnInProgress, g.2)
        | (gateHealStranded, Some activeMsg, _, _) => fresh_turn req reply (finalizeStranded clock activeMsg g.2).2
        | _ => fresh_turn req reply g.2
        end).
Proof.
  unfold Run. rewrite st_bind_run. set (o := ownsConversation _ _ _ w).
  assert (turn_part o.2 = turn_part w) as Hp by apply keeps_owns.
  assert (w_tick o.2 = w_tick w) as Ht by apply tick_owns.
  assert (w_ids o.2 = w_ids w) as Hi by apply ids_owns.
  destruct o.1; cbn [negb]; [right|by left]. exists o.2. split_and!; [done|done|done|].
  rewrite st_bind_run. destruct (gateOnRequest clock _ _ o.2) as [[[[[] m] b] id] w2]; cbn [fst snd]; try done;
    destruct m; try done; try destruct b; by rewrite ?st_bind_run.
Qed.

(** Facts of the stores carry over to a world with the same ones. *)
Lemma turn_part_rows w w' :
  turn_part w' = turn_part w →
  v_msgs w' = v_msgs w ∧ owners (w_chat w') = owners (w_chat w) ∧ v_batches w' = v_batches w
  ∧ streams w' = streams w.
Proof. unfold turn_part, chat_view. intros [= ? ? ? ?]. done. Qed.

Lemma active_row_same w w' cid m : turn_part w' = turn_part w → active_row w' cid m → active_row w cid m.
Proof. intros (E & _)%turn_part_rows. unfold active_row. by rewrite E. Qed.

Lemma live_row_same w w' t cid b : turn_part w' = turn_part w → live_row w' t cid b → live_row w t cid b.
Proof. intros (_ & _ & E & _)%turn_part_rows. unfold live_row. by rewrite E. Qed.

(** ** What a turn of its own leaves in the store *)

(** How a turn ends once its stream was accepted. *)
Definition turn_outcome (s : streamState) : TurnOutcome :=
  match ss_pause s with
  | Some _ => OutcomePauseHITL
  | None => if negb (String.eqb (final_code s) "") then OutcomeError else OutcomeDone
  end.

(** The row of the assistant's message after the turn. *)
Definition turn_row (req : TurnRequest) (refused : bool) (id : string) (t0 t : Z) (s : streamState) : DMessage :=
  if refused then dm_stamp id "" (Some t)
      (assistant_message id (rq_conversation_id req) "" [] [] MessageStatusInProgress "" false t0)
  else final_message (rq_english req) id (rq_conversation_id req) t0 s.

(** ** What the frames of a turn say *)

Definition frames_of (type : string) (evs : list SseEvent) : list SseEvent :=
  filterb (λ ev, String.eqb (ev_type ev) type) evs.

Definition streamed_text (evs : list SseEvent) : string :=
  foldr (λ ev t, ev_content ev +:+ t)%string "" (frames_of "text" evs).

(** The assistant's message [m] and the outcome [o] are those the frames call for. *)
Definition recorded_as (english : bool) (evs : list SseEvent) (m : DMessage) (o : TurnOutcome) : Prop :=
  let text := streamed_text evs in
  dm_role m = MessageRoleAssistant
  ∧ (λ r, (dtr_tool_call_id r, dtr_content r, dtr_is_error r, dtr_code r)) <$> dm_tool_results m
    = (λ ev, (ev_tool_call_id ev, result_content (ev_tool_result ev), negb (String.eqb (ev_tool_error ev) ""), ev_code ev))
        <$> frames_of "tool_result" evs
  ∧ match last (frames_of "tool_approval_required" evs) with
    | Some pause =>
        o = OutcomePauseHITL ∧ dm_status m = "pending_approval" ∧ dm_error_code m = "" ∧ dm_content m = text
        ∧ (∀ ev, ev ∈ frames_of "tool_call" evs → ev_tool_call_id ev ∈ call_ids m)
        ∧ ∀ c, c ∈ ev_calls pause → ∃ tc, tc ∈ dm_tool_calls m ∧ dtc_id tc = ac_call_id c
            ∧ dtc_name tc = ac_tool_name c ∧ dtc_arguments tc = ac_args c ∧ dtc_status tc = "pending_approval"
    | None =>
        (λ tc, (dtc_id tc, dtc_name tc, dtc_arguments tc)) <$> dm_tool_calls m
          = (λ ev, (ev_tool_call_id ev, ev_tool_name ev, ev_tool_args ev)) <$> frames_of "tool_call" evs
        ∧ match last (frames_of "error" evs) with
          | Some ev =>
              o = OutcomeError ∧ dm_status m = "error"
              ∧ dm_error_code m = (if String.eqb (ev_code ev) "" then "STREAM_ERROR" else ev_code ev)
              ∧ dm_content m = (if String.eqb text "" && negb (String.eqb (ev_content ev) "")
                                then stream_error_wrapper english (ev_content ev) else text)
          | None =>
              dm_content m = text ∧
              match frames_of "done" evs with
              | [] => o = OutcomeError ∧ dm_status m = "error" ∧ dm_error_code m = "STREAM_INTERRUPTED"
              | _ => o = OutcomeDone ∧ dm_status m = "complete" ∧ dm_error_code m = ""
              end
          end
    end.

Lemma frames_snoc ty evs ev :
  frames_of ty (evs ++ [ev]) = frames_of ty evs ++ (if String.eqb (ev_type ev) ty then [ev] else []).
Proof. unfold frames_of. rewrite filterb_app. cbn [filterb]. by destruct (String.eqb _ ty). Qed.

Lemma string_app_assoc (a b c : string) : (a +:+ b +:+ c = (a +:+ b) +:+ c)%string.
Proof. induction a as [|x a IH]; [done|]. cbn. by rewrite IH. Qed.

Lemma string_app_nil (a : string) : (a +:+ "" = a)%string.
Proof. induction a as [|x a IH]; [done|]. cbn. by rewrite IH. Qed.

Lemma streamed_text_snoc evs ev :
  streamed_text (evs ++ [ev]) = (streamed_text evs +:+ if String.eqb (ev_type ev) "text" then ev_content ev else "")%string.
Proof.
  unfold streamed_text. rewrite frames_snoc, foldr_app. destruct (String.eqb (ev_type ev) "text"); cbn; [|by rewrite string_app_nil].
  rewrite string_app_nil. induction (frames_of "text" evs) as [|x l IH]; [done|]. cbn. by rewrite IH, string_app_assoc.
Qed.

Definition error_code_of (evs : list SseEvent) : string :=
  match last (frames_of "error" evs) with
  | Some ev => if String.eqb (ev_code ev) "" then "STREAM_ERROR" else ev_code ev
  | None => ""
  end.

Definition error_content_of (evs : list SseEvent) : string :=
  match last (frames_of "error" evs) with Some ev => ev_content ev | None => "" end.

(** The stream state says of the frames what they say of themselves. *)
Lemma turn_fold_spec evs : turn_fold evs = {|
  ss_done := match frames_of "done" evs with [] => false | _ => true end;
  ss_text := streamed_text evs;
  ss_calls := streamed_call <$> frames_of "tool_call" evs;
  ss_results := result_of <$> frames_of "tool_result" evs;
  ss_pause := last (frames_of "tool_approval_required" evs);
  ss_err_content := error_content_of evs;
  ss_err_code := error_code_of evs;
  ss_ids := ∅ |}.
Proof.
  induction evs as [|ev evs IH] using rev_ind; [done|]. unfold turn_fold in *. rewrite foldl_snoc, IH. unfold absorb, error_content_of, error_code_of.
  rewrite streamed_text_snoc, !frames_snoc. cbn [ss_done ss_text ss_calls ss_results ss_pause ss_err_content ss_err_code ss_ids].
  destruct (String.eqb_spec (ev_type ev) "done") as [->|_];
    [|destruct (String.eqb_spec (ev_type ev) "text") as [->|_];
    [|destruct (String.eqb_spec (ev_type ev) "tool_call") as [->|_];
    [|destruct (String.eqb_spec (ev_type ev) "tool_result") as [->|_];
    [|destruct (String.eqb_spec (ev_type ev) "tool_approval_required") as [->|_];
    [|destruct (String.eqb_spec (ev_type ev) "error") as [_|_]]]]]];
    cbn [String.eqb Ascii.eqb Bool.eqb]; rewrite ?app_nil_r, ?string_app_nil, ?fmap_app, ?last_snoc; cbn [fmap list_fmap]; try done;
    by destruct (frames_of "done" evs).
Qed.

(** The message the turn writes, in any organisation, is the one the frames call for. *)
Lemma final_recorded english evs id cid t i bz at_ :
  recorded_as english evs (dm_stamp i bz at_ (final_message english id cid t (turn_fold evs))) (turn_outcome (turn_fold evs)).
Proof.
  rewrite turn_fold_spec. unfold recorded_as, final_message, turn_outcome, final_code. cbn [ss_pause ss_done ss_err_code ss_text ss_calls ss_results ss_err_content].
  assert (∀ l : list SseEvent, (λ r, (dtr_tool_call_id r, dtr_content r, dtr_is_error r, dtr_code r)) <$> (result_of <$> l)
    = (λ ev, (ev_tool_call_id ev, result_content (ev_tool_result ev), negb (String.eqb (ev_tool_error ev) ""), ev_code ev)) <$> l) as Hres
    by (intros; by rewrite <-list_fmap_compose).
  destruct (last (frames_of "tool_approval_required" evs)) as [pause|]; cbn; (split; [done|]; split; [apply Hres|]).
  - split_and!; try done.
    + intros ev Hev. unfold call_ids, paused_calls. cbn. rewrite fmap_app. apply elem_of_app.
      destruct (list_mem (ev_tool_call_id ev) (ac_call_id <$> ev_calls pause)) eqn:E.
      * right. apply list_mem_true in E. by rewrite <-list_fmap_compose.
      * left. apply fmap_filterb_elem. exists (streamed_call ev). cbn. rewrite E. split_and!; [done..|]. by apply list_elem_of_fmap_2.
    + intros c Hc. exists (pending_call (ev_batch_id pause) c). split_and!; [|done..]. unfold paused_calls. apply elem_of_app. right. by apply list_elem_of_fmap_2.
  - split; [by rewrite <-list_fmap_compose|]. unfold error_code_of, error_content_of. destruct (last (frames_of "error" evs)) as [ev|].
    + destruct (String.eqb (ev_code ev) "") eqn:Ec; rewrite ?andb_false_r, ?Ec; cbn; rewrite ?andb_false_r, ?Ec; done.
    + destruct (frames_of "done" evs); cbn; by rewrite andb_false_r.
Qed.

Section recorded.
Context {RM : Reliable CM} {RV : Reliable CV}.
Variables (req : TurnRequest) (reply : Reply).
Hypothesis business_known : ∀ n, ∃ b, get_business deps n (rq_business_id req) = Some (Some b).
Hypothesis integrations_listed : ∀ n b, is_Some (list_integrations deps n b).
Hypothesis fresh_injective : ∀ i j, fresh i = fresh j → i = j.
Hypothesis flushing : can_flush = true.

Definition unused_ids (w : World) : Prop := ∀ n, w_ids w ≤ n → fresh n ≠ "" ∧ v_msgs w !! fresh n = None.

Notation folded := (turn_fold (stream_events reply)).
Notation turned_away := (unavailable (stream_error "" reply) folded).

Lemma finish_writes e id t0 s w :
  id ≠ "" → is_Some (v_msgs w !! id) →
  unavailable (stream_error "" reply) s = false →
  let r := finish_turn req e id t0 (stream_error "" reply) s w in
  r.1 = turn_outcome s ∧ frame_part r.2 = frame_part w
  ∧ v_msgs r.2 = <[id := stored w (final_message (rq_english req) id (rq_conversation_id req) t0 s)]> (v_msgs w).
Proof.
  intros Hne Hs Hu. cbn zeta. assert (dm_id (final_message (rq_english req) id (rq_conversation_id req) t0 s) = id) as Hid.
  { unfold final_message. by destruct (ss_pause s). }
  unfold finish_turn. rewrite Hu, !st_bind_run. cbn [st_ret fst snd]. split; [done|].
  set (m := final_message _ _ _ _ s) in *.
  match goal with |- frame_part (?x ?w1).2 = _ ∧ _ =>
    assert (turn_part (x w1).2 = turn_part w1) as Hk by apply keeps_chat_turn, keeps_record_turn end.
  destruct (turn_part_frame _ _ Hk) as [-> ->]. clear Hk. unfold persistAfterStream. rewrite st_bind_run. fold m.
  destruct (finalize_writes m w) as [Hf Hw]; [by rewrite Hid|by rewrite Hid|]. rewrite <- Hid at 1.
  match goal with |- frame_part (?x ?w1).2 = _ ∧ _ => assert (turn_part (x w1).2 = turn_part w1) as Ht end.
  { destruct (ss_pause s); [done|]. destruct (_ && _); [apply keeps_auto_title_pending|done]. }
  destruct (turn_part_frame _ _ Ht) as [-> ->]. done.
Qed.

(** From the reserved row to the end of the turn. *)
Lemma stream_writes e id t0 w :
  id ≠ "" → is_Some (v_msgs w !! id) →
  let b := uuid_string (bz_id (en_business e)) in
  let r := (st! _ := emit (FxStream (rq_conversation_id req) "" (buildOrchestratorRequest req e)) in
            st! r := stream_through can_flush gone "" reply
                       (dispatchEventWithOrigin b (rq_conversation_id req) (uuid_string (rq_user_id req)))
                       newStreamState in
            finish_turn req e id t0 r.1 r.2) w in
  r.1 = (if turned_away then OutcomeOrchestratorUnavailable else turn_outcome folded)
  ∧ frame_part r.2 = (owners (w_chat w), v_batches w, streams w ++ [(rq_conversation_id req, "")])
  ∧ v_msgs r.2 = if turned_away then v_msgs w
                 else <[id := stored w (final_message (rq_english req) id (rq_conversation_id req) t0 folded)]> (v_msgs w).
Proof.
  intros Hne Hs. cbn zeta. rewrite !st_bind_run. set (w1 := (emit _ w).2).
  assert (frame_part w1 = (owners (w_chat w), v_batches w, streams w ++ [(rq_conversation_id req, "")])) as Hf1.
  { unfold frame_part, w1. by rewrite streams_open. }
  destruct (stream_folds reply (uuid_string (bz_id (en_business e))) (rq_conversation_id req)
    (uuid_string (rq_user_id req)) w1 flushing) as (He & Hfold & Hp). cbn zeta in *.
  set (r := stream_through _ _ _ _ _ _ w1) in *. destruct (turn_part_frame _ _ Hp) as [Hf Hm].
  rewrite He, <- Hfold. set (s := r.1.2) in *.
  change (unavailable (stream_error "" reply) (set_stream_ids ∅ s)) with (unavailable (stream_error "" reply) s).
  destruct (unavailable (stream_error "" reply) s) eqn:Eu.
  - unfold finish_turn. rewrite Eu. cbn [st_ret fst snd]. split_and!; [done|congruence|exact Hm].
  - destruct (finish_writes e id t0 s r.2 Hne) as (Ho & Hf' & Hw); [by rewrite Hm|done|].
    split_and!; [exact Ho|congruence|]. rewrite Hw, Hm. f_equal. apply stored_owners.
    transitivity (owners (w_chat w1)); [|done]. unfold frame_part in Hf. congruence.
Qed.

(** The store after a turn of its own: the user's message, then the assistant's row. *)
Lemma fresh_turn_writes w :
  rq_message req ≠ "" → unused_ids w →
  let r := fresh_turn req reply w in
  ∃ uid id tu t0 t, uid ≠ id ∧ id ≠ "" ∧ v_msgs w !! uid = None ∧ v_msgs w !! id = None
    ∧ r.1 = (if turned_away then OutcomeOrchestratorUnavailable else turn_outcome folded)
    ∧ frame_part r.2 = (owners (w_chat w), v_batches w, streams w ++ [(rq_conversation_id req, "")])
    ∧ v_msgs r.2 = <[id := stored w (turn_row req turned_away id t0 t folded)]>
        (<[uid := stored w (dm_stamp uid "" (Some tu) (user_message req uid))]> (v_msgs w)).
Proof.
  intros Hm Hfresh. cbn zeta. unfold fresh_turn. rewrite (proj2 (String.eqb_neq _ _) Hm).
  destruct (enrich_answers req business_known integrations_listed w) as [e He].
  rewrite st_bind_run, He. destruct (enrich_message req w e He) as [Hu Hi1].
  set (w1 := (enrich req w).2) in *. destruct (turn_part_frame _ _ (keeps_enrich req w)) as [Hf1 Hm1].
  fold w1 in Hf1, Hm1. set (uid := fresh (w_ids w)) in *. rewrite Hu.
  destruct (Hfresh (w_ids w)) as [Hne Hnone]; [done|]. fold uid in Hne, Hnone.
  rewrite st_bind_run.
  destruct (create_writes (user_message req uid) w1 Hne) as (Hf2 & Hi2 & Hw2); [by rewrite Hm1|].
  set (w2 := (create_and_bump clock fresh (user_message req uid) w1).2) in *.
  rewrite st_bind_run. change (new_id fresh w2).1 with (fresh (w_ids w2)). set (id := fresh (w_ids w2)) in *.
  assert (w_ids w2 = S (S (w_ids w))) as Hids by congruence.
  destruct (Hfresh (w_ids w2)) as [Hne' Hnone']; [rewrite Hids; lia|]. fold id in Hne', Hnone'.
  assert (uid ≠ id) as Hdiff by (intros E; apply fresh_injective in E; lia).
  rewrite st_bind_run. set (t0 := (now (new_id fresh w2).2).1). set (w3 := (now (new_id fresh w2).2).2).
  rewrite st_bind_run. set (ph := assistant_message id (rq_conversation_id req) "" [] [] MessageStatusInProgress "" false t0).
  replace (reserveAssistantPlaceholder (rq_conversation_id req) id t0 w3).2 with (create_and_bump clock fresh ph w3).2
    by (unfold reserveAssistantPlaceholder; by rewrite st_bind_run).
  assert (v_msgs w2 !! id = None) as Hfree.
  { rewrite Hw2. unfold put_msg. rewrite lookup_insert_ne by (intros E; by apply Hdiff). by rewrite Hm1. }
  destruct (create_writes ph w3 Hne' Hfree) as (Hf4 & _ & Hw4).
  set (w4 := (create_and_bump clock fresh ph w3).2) in *.
  destruct (stream_writes e id t0 w4 Hne') as (Ho & Hf & Hw).
  { rewrite Hw4. unfold put_msg. by rewrite lookup_insert_eq. }
  assert (frame_part w3 = frame_part w) as Hf3 by (change (frame_part w2 = frame_part w); congruence).
  rewrite Hf3 in Hf4.
  exists uid, id, (clock (w_tick w1)), t0, (clock (w_tick w3)). split_and!; [done|done|done|done|exact Ho| |].
  - rewrite Hf. unfold frame_part in Hf4. congruence.
  - rewrite Hw, Hw4. unfold put_msg. change (v_msgs w3) with (v_msgs w2). rewrite Hw2. unfold put_msg.
    rewrite (stored_frame w w4), (stored_frame w w1), (stored_frame w w3), Hm1 by congruence. cbn [dm_id stored dm_stamp].
    unfold turn_row. destruct turned_away; [done|]. by rewrite insert_insert_eq.
Qed.
Definition quiet (w : World) : Prop :=
  ∀ k m, v_msgs w !! k = Some m → is_active (rq_conversation_id req) m = false.

(** A request to a quiet conversation runs a turn of its own. *)
Lemma run_quiet w :
  may_enter req w → quiet w →
  ∃ w2, Run req reply w = fresh_turn req reply w2 ∧ turn_part w2 = turn_part w ∧ w_ids w2 = w_ids w.
Proof.
  intros Hin Hq. set (cid := rq_conversation_id req).
  assert (∀ c h, keeps w_ids (gateOnRequest clock c h)) as Hids.
  { intros c h. unfold gateOnRequest, isRecentInProgress, Postal.now.
    repeat first [keeps_step | progress cbv beta zeta]; keeps_prim. }
  unfold Run. rewrite st_bind_run, owns_enter by done. cbn [negb]. fold cid.
  set (w1 := (ownsConversation cid _ _ w).2).
  assert (turn_part w1 = turn_part w) as Hp1 by apply keeps_owns.
  assert (w_ids w1 = w_ids w) as Hi1 by apply ids_owns.
  rewrite st_bind_run. pose proof (gate_spec clock cid (rq_resume_batch_id req) w1) as Hg.
  set (g := gateOnRequest clock cid (rq_resume_batch_id req) w1) in *.
  assert (turn_part g.2 = turn_part w) as Hp2 by (rewrite <- Hp1; apply keeps_gate).
  assert (w_ids g.2 = w_ids w) as Hi2 by (rewrite <- Hi1; apply Hids).
  assert (∀ m, ¬ active_row w1 cid m) as Hno.
  { intros m [[k Hk] [Ha _]]. destruct (turn_part_rows _ _ Hp1) as (E & _). rewrite E in Hk.
    specialize (Hq k m Hk). fold cid in Hq. congruence. }
  destruct g as [[[[[] m] b] id] w2]; cbn [fst snd] in *; [by exists w2|..].
  - destruct Hg as (m' & _ & Hr & _). by destruct (Hno m').
  - destruct Hg as (_ & _ & m' & _ & _ & _ & Hr & _). by destruct (Hno m').
  - destruct Hg as (_ & _ & _ & m' & _ & Hr & _). by destruct (Hno m').
  - destruct Hg as (_ & _ & _ & m' & _ & Hr & _). by destruct (Hno m').
Qed.

(** C10: a turn is recorded exactly as it was streamed: with message and conversation
    stores that answer and a known business, on a conversation without an active
    message, a request whose stream the orchestrator accepts adds two messages with
    unused ids and changes no other.  One is the user's text.  The other holds the text
    frames joined in order, every call and every result streamed, and is pending
    approval, failed with the code of the last error frame or as interrupted, or
    complete, as the outcome says: it is not in progress.  Both carry the conversation's
    organisation. *)
Theorem finished_turn_is_recorded w :
  rq_message req ≠ "" → may_enter req w → quiet w → unused_ids w → turned_away = false →
  let r := Run req reply w in
  ∃ uid id u m, uid ≠ id ∧ v_msgs w !! uid = None ∧ v_msgs w !! id = None
    ∧ v_msgs r.2 = <[id := m]> (<[uid := u]> (v_msgs w))
    ∧ dm_conversation_id m = rq_conversation_id req ∧ dm_conversation_id u = rq_conversation_id req
    ∧ dm_business_id m = business_of (w_chat w) (rq_conversation_id req) ∧ dm_business_id u = dm_business_id m
    ∧ dm_role u = MessageRoleUser ∧ dm_content u = rq_message req ∧ dm_attachments u = rq_attachments req
    ∧ dm_status m ≠ "in_progress"
    ∧ recorded_as (rq_english req) (stream_events reply) m r.1.
Proof.
  intros Hm Hin Hq Hids Hta. cbn zeta. destruct (run_quiet w Hin Hq) as (w2 & -> & Hp & Hi).
  destruct (turn_part_frame _ _ Hp) as [Hf Hv].
  destruct (fresh_turn_writes w2 Hm) as (uid & id & tu & t0 & t & Hne & _ & Hu & Hd & Ho & _ & Hw).
  { unfold unused_ids in *. by rewrite Hi, Hv. }
  rewrite Hta in *. rewrite Hv, !(stored_frame w w2) in * by done. rewrite Ho. eexists uid, id, _, _.
  assert (dm_id (final_message (rq_english req) id (rq_conversation_id req) t0 folded) = id
    ∧ dm_conversation_id (final_message (rq_english req) id (rq_conversation_id req) t0 folded) = rq_conversation_id req
    ∧ dm_status (final_message (rq_english req) id (rq_conversation_id req) t0 folded) ≠ "in_progress") as (_ & Hc & Hs).
  { unfold final_message. destruct (ss_pause folded); [done|]. cbn. by destruct (negb _). }
  split_and!; [done|done|done|exact Hw|exact Hc|done|cbn; by rewrite Hc|cbn; by rewrite Hc|done|done|done|exact Hs|].
  apply final_recorded.
Qed.
(** A conversation whose only active message is in flight refuses requests. *)
Lemma in_flight_refused req' reply' w' id ph :
  let cid := rq_conversation_id req' in
  rq_resume_batch_id req' = "" → v_msgs w' !! id = Some ph → is_active cid ph = true →
  (∀ k m, v_msgs w' !! k = Some m → is_active cid m = true → m = ph) →
  in_flight (clock (S (w_tick w'))) ph → (∀ b, ¬ live_row w' (clock (w_tick w')) cid b) →
  (Run req' reply' w').1 ∈ [OutcomeTurnInProgress; OutcomeConversationNotFound]
  ∧ streams (Run req' reply' w').2 = streams w'.
Proof.
  cbn zeta. set (cid := rq_conversation_id req'). intros Hh Hid Hph Honly Hfly Hdead.
  destruct (run_gate req' reply' w') as [[Hr Hs]|(w1 & Hp1 & Ht & _ & ->)].
  { destruct (turn_part_rows _ _ Hs) as (_ & _ & _ & E). rewrite Hr. split; [set_solver|exact E]. }
  cbn zeta. fold cid. rewrite Hh. pose proof (gate_spec clock cid "" w1) as Hg. rewrite Ht in Hg.
  pose proof (keeps_gate clock cid "" w1) as Hk. unfold turn_part in Hk.
  destruct (turn_part_rows _ _ Hp1) as (Hrows & _ & _ & Hst).
  destruct (gateOnRequest clock cid "" w1) as [[[[[] m'] b] i] w3]; cbn [fst snd] in *.
  - destruct Hg as (_ & _ & _ & Hn). specialize (Hn RM id ph). rewrite Hrows in Hn. by rewrite Hn in Hph.
  - destruct Hg as (m1 & _ & _ & b' & _ & _ & Hl & _). destruct (Hdead b'). exact (live_row_same _ _ _ _ _ Hp1 Hl).
  - destruct Hg as (_ & _ & m1 & b' & _ & _ & _ & Hl & _). destruct (Hdead b'). exact (live_row_same _ _ _ _ _ Hp1 Hl).
  - destruct Hg as (_ & _ & _ & m1 & _ & ([k Hkm] & Ha & _) & Hnf & _). destruct Hnf. rewrite Hrows in Hkm.
    by rewrite (Honly k m1 Hkm Ha).
  - split; [set_solver|]. injection Hk as _ _ _ Hk. congruence.
Qed.

(** A refused stream blocks the conversation: with stores that answer, when the
    orchestrator refuses the stream of a turn (a 502 to the user), the turn's
    placeholder stays in progress, so that every request of the following ten
    minutes, whoever makes it, is refused with 409 turn_already_in_progress (or as
    someone else's conversation) and opens no stream. *)
Theorem refused_turn_blocks_conversation w :
  rq_message req ≠ "" → may_enter req w → quiet w → unused_ids w → turned_away = true →
  let cid := rq_conversation_id req in
  let r := Run req reply w in
  r.1 = OutcomeOrchestratorUnavailable ∧
  ∃ t, ∀ req' reply' w', turn_part w' = turn_part r.2 →
    rq_conversation_id req' = cid → rq_resume_batch_id req' = "" →
    (∀ b, ¬ live_row w' (clock (w_tick w')) cid b) →
    (clock (S (w_tick w')) - t < streamBudget)%Z →
    (Run req' reply' w').1 ∈ [OutcomeTurnInProgress; OutcomeConversationNotFound]
    ∧ streams (Run req' reply' w').2 = streams w'.
Proof.
  intros Hm Hin Hq Hids Hta. cbn zeta. destruct (run_quiet w Hin Hq) as (w2 & -> & Hp & Hi).
  destruct (turn_part_frame _ _ Hp) as [Hf Hv].
  destruct (fresh_turn_writes w2 Hm) as (uid & id & tu & t0 & t & Hne & _ & Hu & Hd & Ho & _ & Hw).
  { unfold unused_ids in *. by rewrite Hi, Hv. }
  rewrite Hta in *. split; [exact Ho|]. exists t. intros req' reply' w' Hp' Hcid Hh Hdead Hclock.
  destruct (turn_part_rows _ _ Hp') as (Hrows & _). rewrite Hw in Hrows.
  apply (in_flight_refused req' reply' w' id (stored w2 (turn_row req true id t0 t folded))); rewrite ?Hcid; [done|..].
  - by rewrite Hrows, lookup_insert_eq.
  - unfold is_active. cbn. by rewrite String.eqb_refl.
  - intros k m Hkm Ha. rewrite Hrows in Hkm. destruct (decide (k = id)) as [->|Hkid].
    { rewrite lookup_insert_eq in Hkm. congruence. }
    rewrite lookup_insert_ne in Hkm by done. destruct (decide (k = uid)) as [->|Hkuid].
    { rewrite lookup_insert_eq in Hkm. injection Hkm as <-. unfold is_active in Ha. cbn in Ha.
      by rewrite andb_false_r in Ha. }
    rewrite lookup_insert_ne, Hv in Hkm by done. by rewrite (Hq k m Hkm) in Ha.
  - split; [done|by exists t].
  - exact Hdead.
Qed.
End recorded.

(** C9: a busy conversation admits no second turn: with stores that answer, while
    the conversation has an active message and either a live approval batch or a
    placeholder still within the stream budget, a request without a resume header
    changes no message, no batch and opens no stream, except that a batch already
    being resolved is handed to the resume path, which must still win its claim. *)
Theorem busy_conversation_admits_no_second_turn {RM : Reliable CM} {RB : Reliable CB} req reply w :
  let cid := rq_conversation_id req in
  rq_resume_batch_id req = "" →
  (∃ k m, v_msgs w !! k = Some m ∧ is_active cid m = true) →
  (∃ b, live_row w (clock (w_tick w)) cid b) ∨ (∀ m, active_row w cid m → in_flight (clock (S (w_tick w))) m) →
  (turn_part (Run req reply w).2 = turn_part w
   ∧ (Run req reply w).1 ∈ [OutcomeConversationNotFound; OutcomeReemittedApproval; OutcomeTurnInProgress])
  ∨ ∃ b m w', live_row w (clock (w_tick w)) cid b ∧ b_status b ∈ [statusResolving; statusResuming]
      ∧ active_row w cid m ∧ turn_part w' = turn_part w
      ∧ Run req reply w = streamResume deps clock fresh yandex_published format_rfc3339 can_flush gone reply
                            cid m (b_id b) w'.
Proof.
  cbn zeta. set (cid := rq_conversation_id req). intros Hh (k & m & Hk & Ha) Hbusy.
  destruct (run_gate req reply w) as [[Ho Hp]|(w1 & Hp1 & Ht & _ & ->)]; [left; split; [done|set_solver]|].
  cbn zeta. rewrite Hh. fold cid. pose proof (gate_spec clock cid "" w1) as Hg. rewrite Ht in Hg.
  assert (turn_part (gateOnRequest clock cid "" w1).2 = turn_part w) as Hp2 by (rewrite <- Hp1; apply keeps_gate).
  destruct (gateOnRequest clock cid "" w1) as [[[[[] m'] b] id] w2]; cbn [fst snd] in *.
  - destruct Hg as (_ & _ & _ & Hn). destruct (turn_part_rows _ _ Hp1) as (E & _).
    specialize (Hn RM k m). rewrite E in Hn. rewrite (Hn Hk) in Ha. done.
  - right. destruct Hg as (m1 & -> & Hrow & b' & _ & -> & Hl & Hs). exists b', m1, w2.
    split_and!; [exact (live_row_same _ _ _ _ _ Hp1 Hl)|done|exact (active_row_same _ _ _ _ Hp1 Hrow)|done|done].
  - left. destruct Hg as (_ & _ & m1 & b' & -> & -> & _). cbn [fst snd]. split; [|set_solver].
    unfold reemitApprovalEvent. by rewrite (keeps_write can_flush _ w2).
  - destruct Hg as (_ & _ & _ & m1 & _ & Hrow & Hnf & Hnl). destruct Hbusy as [[b' Hl]|Hfl].
    + destruct (Hnl RB b'). exact (live_row_same _ _ _ _ _ (eq_sym Hp1) Hl).
    + destruct Hnf. apply Hfl, (active_row_same _ _ _ _ Hp1 Hrow).
  - left. split; [done|set_solver].
Qed.
End turn.

(** ** A paused message lists each call once *)

Lemma pending_ids batchID (l : list ApprovalCall) : dtc_id <$> (pending_call batchID <$> l) = ac_call_id <$> l.
Proof. rewrite <- list_fmap_compose. done. Qed.

(** When the stream pauses for approval, the stored message lists every call
    that was streamed or awaits approval exactly once, in stream order with the
    batch's calls last: a call of the batch in its pending form under the approval
    id <batch>-<call>, even when it was streamed before, every other call as it was
    streamed; the message awaits approval and carries no error. *)
Theorem pause_lists_each_call_once english id cid t s pause :
  ss_pause s = Some pause → NoDup (dtc_id <$> ss_calls s) → NoDup (ac_call_id <$> ev_calls pause) →
  let m := final_message english id cid t s in
  let batch := ac_call_id <$> ev_calls pause in
  dm_status m = MessageStatusPendingApproval ∧ dm_error_code m = ""
  ∧ NoDup (call_ids m)
  ∧ (∀ tc, tc ∈ dm_tool_calls m ↔ (tc ∈ ss_calls s ∧ dtc_id tc ∉ batch)
       ∨ ∃ c, c ∈ ev_calls pause ∧ tc = pending_call (ev_batch_id pause) c)
  ∧ batch `suffix_of` call_ids m.
Proof.
  intros Hp Hs Hb. unfold final_message. rewrite Hp. cbn zeta.
  set (m := assistant_message _ _ _ _ _ _ _ _ _).
  assert (call_ids m = (dtc_id <$> filterb (λ tc, negb (list_mem (dtc_id tc) (ac_call_id <$> ev_calls pause))) (ss_calls s))
    ++ (ac_call_id <$> ev_calls pause)) as Hids.
  { unfold call_ids, m, paused_calls. cbn [dm_tool_calls assistant_message]. by rewrite fmap_app, pending_ids. }
  split; [done|]. split; [done|]. rewrite Hids. split; [|split].
  - apply NoDup_app. split; [by apply fmap_filterb_nodup|]. split; [|done].
    intros x Hx. apply fmap_filterb_elem in Hx as (tc & -> & Hn & _). apply negb_true_iff in Hn.
    by apply list_mem_false in Hn.
  - intros tc. unfold m, paused_calls. cbn [dm_tool_calls assistant_message].
    rewrite elem_of_app, elem_of_filterb, negb_true_iff, list_mem_false,
      (list_elem_of_fmap (pending_call (ev_batch_id pause))). split.
    + intros [[Hn Hi]|(c & -> & Hc)]; [by left|right; by exists c].
    + intros [[Hi Hn]|(c & Hc & ->)]; [by left|right; by exists c].
  - by apply suffix_app_r.
Qed.

(** ** The handlers *)

(** [ChatProxyHandler.Chat]: the status and message written for an outcome; the
    others leave what the turn wrote, or an empty 200. *)
Definition chat_status (o : TurnOutcome) : option (Z * string) :=
  match o with
  | OutcomeMissingMessage => Some (400%Z, "message is required")
  | OutcomeBusinessNotFound => Some (404%Z, "business not found")
  | OutcomeConversationNotFound => Some (404%Z, "conversation not found")
  | OutcomeTurnInProgress => Some (409%Z, "turn_already_in_progress")
  | OutcomeOrchestratorUnavailable => Some (502%Z, "orchestrator unavailable")
  | _ => None
  end.

(** [HITLHandler.Resume]: the same after [ResumeApproved]. *)
Definition resume_status (o : TurnOutcome) : option (Z * string) :=
  match o with
  | OutcomeResumeInProgress => Some (409%Z, "batch resolving")
  | OutcomeOrchestratorUnavailable => Some (502%Z, "orchestrator unavailable")
  | _ => None
  end.
