(* ===== verification/ChatTyping.v ===== *)
(** * The shape of a stored chat message

    A type invariant on the message collection that every entry point of the chat
    turn (ChatTurn.v, ChatHitl.v) preserves whatever the stores, the orchestrator
    and the collaborators do. *)

From S2P Require Import Prelude Json GoTime Types OrchClient Tools Mongo ChatStore TaskStore PostStore HitlStore ReviewStore ChatWorld Postal ChatHitl ChatResume ChatTurn.
Local Open Scope go_scope.

Definition message_statuses : list string :=
  [""; MessageStatusComplete; MessageStatusError; MessageStatusPendingApproval; MessageStatusInProgress].

(** An error code exactly on a failed message; success only on a complete one; a
    placeholder holds nothing yet. *)
Record message_ok (m : DMessage) : Prop := {
  ok_status : dm_status m ∈ message_statuses;
  ok_code : dm_error_code m ≠ "" ↔ dm_status m = MessageStatusError;
  ok_success : dm_successful m = true → dm_status m = MessageStatusComplete;
  ok_placeholder : dm_status m = MessageStatusInProgress →
    dm_content m = "" ∧ dm_tool_calls m = [] ∧ dm_tool_results m = [];
}.

(** What is left of it while a resume edits the message it found. *)
Definition resumable (m : DMessage) : Prop :=
  dm_status m ∈ [MessageStatusPendingApproval; MessageStatusInProgress]
  ∧ dm_error_code m = "" ∧ dm_successful m = false.

Lemma active_resumable cid m : message_ok m → is_active cid m = true → resumable m.
Proof.
  intros [_ Hc Hs _] Ha. unfold is_active in Ha. apply andb_true_iff in Ha as [_ Ha].
  apply list_mem_true in Ha. split; [done|].
  assert (dm_status m ≠ MessageStatusError ∧ dm_status m ≠ MessageStatusComplete) as [He Hk].
  { split; intros E; rewrite E in Ha; set_solver. }
  split; [|by destruct (dm_successful m); [destruct Hk; apply Hs|]].
  destruct (String.eqb_spec (dm_error_code m) "") as [?|Hn]; [done|]. by apply Hc in Hn.
Qed.

(** Edits that close or pause a resumable message. *)
Lemma edited_ok text calls results code st m :
  resumable m →
  (st = MessageStatusComplete ∧ code = "") ∨ (st = MessageStatusPendingApproval ∧ code = "")
    ∨ (st = MessageStatusError ∧ code ≠ "") →
  message_ok (dm_edit text calls results code st m).
Proof.
  intros (_ & _ & Hs) Hst. split; cbn; rewrite ?Hs; [..|destruct Hst as [[-> _]|[[-> _]|[-> _]]]; done].
  - unfold message_statuses. destruct Hst as [[-> _]|[[-> _]|[-> _]]]; set_solver.
  - destruct Hst as [[-> ->]|[[-> ->]|[-> ?]]]; done.
  - done.
Qed.

Section typing.
Context {CM : Coll DMessage dm_id} {CV : Coll Conversation cv_id}
  {CB : Coll PendingToolCallBatch b_id} {CT : Coll AgentTask tk_id}
  {CP : Coll Post po_id} {CR : Coll Review rv_id} {U : UUIDText} {J : JsonText}.
Variables (deps : Deps) (clock : nat → Z) (fresh : nat → string)
  (yandex_published : gomap → Z → option Z) (format_rfc3339 : Z → string)
  (can_flush : bool) (gone : nat → bool)
  (resolve_url : string → string) (voice_instructions : gomap → string).

Notation M A := (World → A * World).

Definition all_ok (w : World) : Prop := ∀ k m, v_msgs w !! k = Some m → message_ok m.

(** [m] keeps the collection well typed. *)
Definition typed {A} (m : M A) : Prop := ∀ w, all_ok w → all_ok (m w).2.

Lemma typed_keeps {A} (m : M A) : keeps turn_part m → typed m.
Proof. intros Hk w Hw. destruct (turn_part_frame _ _ (Hk w)) as [_ E]. unfold all_ok. by rewrite E. Qed.

Lemma typed_ret {A} (a : A) : typed (st_ret a).
Proof. by intros w Hw. Qed.

Lemma typed_bind {A B} (m : M A) (k : A → M B) : typed m → (∀ a, typed (k a)) → typed (st_bind m k).
Proof. intros Hm Hk w Hw. rewrite st_bind_run. by apply Hk, Hm. Qed.

Lemma all_ok_put w m : all_ok w → message_ok m → ∀ k x, put_msg w m !! k = Some x → message_ok x.
Proof.
  intros Hw Hm k x. unfold put_msg. destruct (decide (k = dm_id m)) as [->|Hne].
  - rewrite lookup_insert_eq. by intros [= <-].
  - rewrite lookup_insert_ne by done. apply Hw.
Qed.

Lemma stamped_ok id b t m : message_ok m → message_ok (dm_stamp id b t m).
Proof. by intros []. Qed.

Lemma typed_update m : message_ok m → typed (on_chat (UpdateMessage m)).
Proof.
  intros Hm w Hw. pose proof (update_effect m w) as [_ Hr]. cbn zeta in Hr. unfold all_ok.
  pose proof (all_ok_put w (stored w m) Hw (stamped_ok _ _ _ _ Hm)) as Hput.
  destruct (on_chat (UpdateMessage m) w).1 as [u|[]];
    [destruct Hr as [_ ->]|destruct Hr as [_ ->]|destruct Hr as [->|[_ ->]]..]; done.
Qed.

Lemma typed_create t oid m : message_ok m → typed (on_chat (CreateMessage t oid m)).
Proof.
  intros Hm w Hw. pose proof (create_effect t oid m w) as (_ & _ & Hr). cbn zeta in Hr. unfold all_ok.
  pose proof (all_ok_put w (stored w (dm_stamp (created_id oid m) "" (Some t) m)) Hw
    (stamped_ok _ _ _ _ (stamped_ok _ _ _ _ Hm))) as Hput.
  destruct (on_chat (CreateMessage t oid m) w).1.2 as [u|e];
    [destruct Hr as [_ ->]|destruct Hr as [->|[_ ->]]]; done.
Qed.

Lemma typed_on_batches {A} (m : @coll _ _ CB → A * @coll _ _ CB) : typed (on_batches m).
Proof. intros w Hw. unfold on_batches, focus. by destruct (m (w_batches w)). Qed.

Ltac typed_tac :=
  repeat first
    [ apply typed_bind; [|intros ?]
    | solve [apply typed_update; assumption | apply typed_create; assumption]
    | solve [apply typed_keeps; keeps_tac]
    | match goal with |- typed (match ?x with _ => _ end) => destruct x end ].
#[local] Hint Resolve keeps_history keeps_project keeps_enrich keeps_record_turn : keeps.

Lemma typed_create_and_bump m : message_ok m → typed (create_and_bump clock fresh m).
Proof. intros Hm. unfold create_and_bump. typed_tac. Qed.

Lemma typed_finalize m : message_ok m → typed (finalizeAssistantMessage clock fresh m).
Proof.
  intros Hm. unfold finalizeAssistantMessage, create_and_bump. typed_tac.
Qed.

Lemma typed_save m c b a calls results :
  message_ok m → typed (save_resume deps clock fresh yandex_published format_rfc3339 m c b a calls results).
Proof. intros Hm. unfold save_resume. typed_tac. Qed.

Lemma typed_stranded m cid : message_ok m → is_active cid m = true → typed (finalizeStranded clock m).
Proof.
  intros Hm Ha. unfold finalizeStranded.
  assert (message_ok (dm_set_status MessageStatusComplete m)) as Hok.
  { pose proof (active_resumable cid m Hm Ha) as Hr. destruct (Hr) as (_ & Hc & _). unfold dm_set_status.
    apply edited_ok; [done|]. by left. }
  typed_tac.
Qed.

(** While the resume stream runs. *)
Definition stream_ok (s : ResumeState) (w : World) : Prop :=
  all_ok w ∧ (rs_terminated s = false → resumable (rs_msg s)).

Lemma step_resumable batchID s ev :
  resumable (rs_msg s) → rs_terminated (resume_step batchID s ev) = false →
  resumable (rs_msg (resume_step batchID s ev)).
Proof.
  unfold resumable, resume_step, add_text, add_call, set_repause, add_result, reject_call, terminate, rs_edit,
    set_call_status, dm_tools, dm_edit. destruct s. cbn. intros Hr Ht. repeat case_match; simplify_eq/=; done.
Qed.

Lemma event_plain claimed batchID cid biz actor ev s w :
  let s' := (on_resume_event deps clock fresh yandex_published format_rfc3339 claimed batchID cid biz actor ev s w).1 in
  rs_msg s' = rs_msg (resume_step batchID s ev) ∧ rs_terminated s' = rs_terminated (resume_step batchID s ev).
Proof.
  cbn zeta. set (s' := (on_resume_event _ _ _ _ _ _ _ _ _ _ _ _ _).1).
  assert (plain s' = plain (resume_step batchID s ev)) as E by (rewrite plain_step; apply event_step).
  split; [apply (f_equal rs_msg E)|apply (f_equal rs_terminated E)].
Qed.

Lemma typed_end st code title c b a calls results s w :
  all_ok w → resumable (rs_msg s) →
  (st = MessageStatusComplete ∧ code = "") ∨ (st = MessageStatusError ∧ code ≠ "") →
  all_ok (save_resume deps clock fresh yandex_published format_rfc3339
    (rs_msg (terminate st code title s)) c b a calls results w).2.
Proof. intros Hw Hr Hst. apply typed_save; [|done]. apply edited_ok; [done|]. tauto. Qed.

Lemma event_typed claimed batchID cid biz actor ev s w :
  stream_ok s w →
  let r := on_resume_event deps clock fresh yandex_published format_rfc3339 claimed batchID cid biz actor ev s w in
  stream_ok r.1 r.2.
Proof.
  intros [Hw Hs]. cbn zeta. destruct (event_plain claimed batchID cid biz actor ev s w) as [Hm Ht].
  split; [|rewrite Hm, Ht; intros Hf; apply step_resumable; [|done]; apply Hs;
    destruct (rs_terminated s) eqn:E; [unfold resume_step in Hf; rewrite E in Hf; congruence|done]].
  clear Hm Ht. unfold on_resume_event. cbv zeta. destruct (rs_terminated s) eqn:Et; [done|]. specialize (Hs eq_refl).
  destruct (String.eqb (ev_type ev) "text"); [done|].
  destruct (String.eqb (ev_type ev) "tool_call"); [apply (typed_keeps (A := ResumeState)); [|done]; keeps_tac|].
  destruct (String.eqb (ev_type ev) "tool_approval_required"); [done|].
  destruct (String.eqb (ev_type ev) "tool_result").
  { destruct (known_result s (ev_tool_call_id ev)); [|done]. apply (typed_keeps (A := ResumeState)); [|done].
    cbn [negb]. keeps_tac. }
  destruct (String.eqb (ev_type ev) "tool_rejected"); [done|].
  destruct (String.eqb (ev_type ev) "error").
  { rewrite st_bind_run. apply typed_end; [done|done|]. right. split; [done|].
    by destruct (String.eqb_spec (ev_code ev) ""). }
  destruct (String.eqb (ev_type ev) "done"); [|done].
  rewrite st_bind_run. apply typed_end; [done|done|]. left. by destruct Hs as (_ & -> & _).
Qed.

Lemma typed_settle err s w c b a batchID :
  stream_ok s w →
  all_ok (settle_resume deps clock fresh yandex_published format_rfc3339 c b a batchID err s w).2.
Proof.
  intros [Hw Hs]. unfold settle_resume. destruct (refused err s).
  { rewrite st_bind_run. unfold compensateResuming. rewrite !st_bind_run. by apply (typed_on_batches _ (now clock w).2). }
  destruct (rs_terminated s) eqn:Et.
  { rewrite st_bind_run. destruct (rs_fire_title s); [|done].
    apply (typed_keeps (fireAutoTitleIfPendingResume deps c (rs_msg s))); [keeps_tac|done]. }
  specialize (Hs eq_refl). pose proof Hs as (Hst & Hc & _).
  destruct (rs_repause s) as [pause|].
  - unfold persistResumeRePause. cbv zeta. rewrite st_bind_run. apply typed_save; [|done].
    apply edited_ok; [done|]. right. by left.
  - rewrite st_bind_run. apply typed_save; [|done]. unfold interrupted_resume.
    rewrite (proj2 (list_mem_true _ _) Hst). apply edited_ok; [done|]. by left.
Qed.

Lemma typed_resume reply c m b a batchID body w :
  all_ok w → message_ok m → is_active c m = true →
  all_ok (runResumeStream deps clock fresh yandex_published format_rfc3339 can_flush gone reply c m b a batchID body w).2.
Proof.
  intros Hw Hm Ha. unfold runResumeStream. rewrite !st_bind_run. set (w1 := (on_batches _ _).2).
  assert (all_ok w1) as Hw1 by (by apply (typed_on_batches _ (now clock w).2)).
  destruct (on_batches _ _).1 as [claimed|e].
  - rewrite !st_bind_run. apply typed_settle.
    apply (stream_through_inv can_flush gone _ stream_ok); [done|intros; by apply event_typed|].
    split; [done|]. intros _. by apply (active_resumable c).
  - apply (typed_keeps (A := TurnOutcome)); [|done]. unfold sseInlineError. destruct e; keeps_tac.
Qed.

Lemma typed_with_batch c batchID k :
  (∀ batch, typed (k batch)) → typed (with_batch clock can_flush c batchID k).
Proof.
  intros Hk. unfold with_batch. apply typed_bind; [apply typed_keeps; keeps_tac|intros t].
  apply typed_bind; [apply typed_keeps; apply keeps_on_batches; intros; apply get_batch_docs|intros r].
  assert (typed (st! _ := sseInlineError can_flush in st_ret OutcomeInlineError)) as Hi.
  { apply typed_keeps. unfold sseInlineError. keeps_tac. }
  destruct r as [batch|e]; [|done]. destruct (negb _); [done|apply Hk].
Qed.

Lemma typed_stream_resume reply c m batchID :
  message_ok m → is_active c m = true →
  typed (streamResume deps clock fresh yandex_published format_rfc3339 can_flush gone reply c m batchID).
Proof.
  intros Hm Ha. apply typed_with_batch. intros batch. apply typed_bind; [apply typed_keeps; keeps_tac|intros body].
  intros w Hw. by apply typed_resume.
Qed.

Lemma final_message_ok english id c t s : message_ok (final_message english id c t s).
Proof.
  unfold final_message. destruct (ss_pause s) as [pause|]; [split; cbn; try done; unfold message_statuses; set_solver|].
  destruct (String.eqb_spec (final_code s) "") as [->|Hne]; cbn [negb].
  - split; cbn; try done. unfold message_statuses. set_solver.
  - split; cbn; try done; [unfold message_statuses; set_solver|]. by rewrite andb_false_r.
Qed.

Lemma user_message_ok req id : message_ok (user_message req id).
Proof. split; cbn; try done. unfold message_statuses. set_solver. Qed.

Lemma typed_finish req e id t err s :
  typed (finish_turn deps clock fresh yandex_published format_rfc3339 req e id t err s).
Proof.
  unfold finish_turn. destruct (unavailable err s); [apply typed_ret|].
  apply typed_bind; [|intros ?; apply typed_keeps; keeps_tac]. unfold persistAfterStream.
  apply typed_bind; [apply typed_finalize, final_message_ok|intros _; apply typed_keeps; keeps_tac].
Qed.

Lemma typed_fresh_turn req reply :
  typed (fresh_turn deps clock fresh yandex_published format_rfc3339 can_flush gone resolve_url voice_instructions req reply).
Proof.
  unfold fresh_turn. destruct (String.eqb (rq_message req) ""); [apply typed_ret|].
  intros w Hw. rewrite st_bind_run.
  pose proof (typed_keeps _ (keeps_enrich deps fresh resolve_url req) w Hw) as Hw1.
  destruct (enrich deps fresh resolve_url req w).1 as [e|[]] eqn:He; [|done..].
  destruct (enrich_message _ _ _ req w e He) as [Hu _]. rewrite Hu.
  match goal with |- all_ok (?m _).2 => enough (typed m) as Ht by exact (Ht _ Hw1) end.
  apply typed_bind; [apply typed_create_and_bump, user_message_ok|intros _].
  apply typed_bind; [apply typed_keeps; keeps_tac|intros id].
  apply typed_bind; [apply typed_keeps; keeps_tac|intros t].
  apply typed_bind; [|intros _].
  { unfold reserveAssistantPlaceholder. apply typed_bind; [apply typed_create_and_bump|intros _; apply typed_ret].
    split; cbn; try done. unfold message_statuses. set_solver. }
  apply typed_bind; [by intros w' Hw'|intros _].
  apply typed_bind; [|intros r; apply typed_finish].
  apply typed_keeps, keeps_stream.
  - intros w' x. unfold turn_part, streams. cbn. by rewrite omap_app, app_nil_r.
  - intros ev s. apply keeps_chat_turn, keeps_dispatch.
Qed.

(** C12: the message collection stays well typed: whatever the stores, the
    orchestrator and the browser do, a chat request and a resume leave only
    messages of the five statuses, with an error code exactly on the failed ones,
    a success mark only on complete ones, and placeholders that hold no content,
    calls or results. *)
Theorem messages_stay_well_typed req reply conversationID batchID body w :
  all_ok w →
  all_ok (Run deps clock fresh yandex_published format_rfc3339 can_flush gone resolve_url voice_instructions req reply w).2
  ∧ all_ok (ResumeApproved deps clock fresh yandex_published format_rfc3339 can_flush gone reply conversationID batchID body w).2.
Proof.
  intros Hw. split.
  - destruct (run_gate deps clock fresh yandex_published format_rfc3339 can_flush gone resolve_url voice_instructions
      req reply w) as [[_ Hp]|(w1 & Hp & _ & _ & ->)]; destruct (turn_part_frame _ _ Hp) as [_ Hm].
    { unfold all_ok. by rewrite Hm. }
    assert (all_ok w1) as Hw1 by (unfold all_ok; by rewrite Hm). cbn zeta.
    set (cid := rq_conversation_id req). pose proof (gate_spec clock cid (rq_resume_batch_id req) w1) as Hg.
    pose proof (typed_keeps _ (keeps_gate clock cid (rq_resume_batch_id req)) w1 Hw1) as Hw2.
    destruct (gateOnRequest clock cid (rq_resume_batch_id req) w1) as [[[[[] m] b] id] w2]; cbn [fst snd] in *.
    + by apply typed_fresh_turn.
    + destruct Hg as (m' & -> & ([k Hk] & Ha & _) & _). apply typed_stream_resume; [by eapply Hw1|done|done].
    + destruct Hg as (_ & _ & m' & b' & -> & -> & _).
      apply (typed_keeps (reemitApprovalEvent can_flush b')); [|done]. unfold reemitApprovalEvent. keeps_tac.
    + destruct Hg as (_ & _ & _ & m' & -> & ([k Hk] & Ha & _) & _). apply typed_fresh_turn.
      apply (typed_stranded m' cid); [by eapply Hw1|done|done].
    + done.
  - revert w Hw. unfold ResumeApproved. apply typed_with_batch. intros batch.
    apply typed_bind; [apply typed_keeps; keeps_tac|intros owns].
    destruct (negb owns); [apply typed_keeps; unfold sseInlineError; keeps_tac|].
    intros w Hw. rewrite st_bind_run. pose proof (find_active_spec conversationID (w_chat w)) as Hf.
    pose proof (find_active_view conversationID (w_chat w)) as Hv. unfold chat_view in Hv. injection Hv as Hv _.
    unfold on_chat, focus. destruct (FindByConversationActive conversationID (w_chat w)) as [[m|e] d]; cbn [fst snd] in *.
    + destruct Hf as ([Hm _] & Ha & [k Hk] & _). apply typed_resume; [|by eapply Hw|done].
      intros k' m'. unfold v_msgs. cbn. rewrite Hm. apply Hw.
    + apply (typed_keeps (st! _ := sseInlineError can_flush in st_ret OutcomeInlineError)).
      { unfold sseInlineError. keeps_tac. }
      intros k m. unfold v_msgs. cbn. rewrite Hv. apply Hw.
Qed.
End typing.
