(* ===== verification/ChatDemo.v ===== *)
(** * The chat turn on a concrete store

    A conversation with one paused message and its resolving approval batch, over
    collections that answer, and the theorems of [ChatTurn.v], [ChatResume.v],
    [ChatTyping.v] and [Postal.v] applied to it. *)

From S2P Require Import Prelude Json GoTime Types OrchClient Tools Policy Mongo ChatStore TaskStore PostStore HitlStore ReviewStore ChatWorld Postal ChatHitl ChatResume ChatTurn ChatTyping.
From stdpp Require Import pretty.
Local Open Scope go_scope.

#[local] Instance demo_msgs : Coll DMessage dm_id := map_coll dm_id.
#[local] Instance demo_convs : Coll Conversation cv_id := map_coll cv_id.
#[local] Instance demo_batches : Coll PendingToolCallBatch b_id := map_coll b_id.
#[local] Instance demo_tasks : Coll AgentTask tk_id := map_coll tk_id.
#[local] Instance demo_posts : Coll Post po_id := map_coll po_id.
#[local] Instance demo_reviews : Coll Review rv_id := map_coll rv_id.
#[local] Instance demo_msgs_ok : Reliable demo_msgs := map_coll_reliable dm_id.
#[local] Instance demo_convs_ok : Reliable demo_convs := map_coll_reliable cv_id.
#[local] Instance demo_batches_ok : Reliable demo_batches := map_coll_reliable b_id.
#[local] Existing Instance decimal_uuid.

Definition demo_business : Business := {|
  bz_id := 8; bz_name := "Bakery"; bz_category := "food"; bz_address := ""; bz_phone := "";
  bz_website := None; bz_description := ""; bz_settings := None |}.

Definition demo_deps : Deps := {|
  has_posts := true; has_reviews := true; has_tasks := true; has_hub := true; has_titler := true;
  has_audit := true; has_verification := true; has_value_telemetry := true; has_approval_telemetry := true;
  get_business := λ _ _, Some (Some demo_business); list_integrations := λ _ _, Some [];
  get_project := λ _ _ _, None; plan_tier := None; history_limit := 20 |}.

(** A minute passes between two readings. *)
Definition demo_clock (n : nat) : Z := (Z.of_nat n * 60000000000)%Z.
Definition demo_fresh (n : nat) : string := String "m" (pretty n).

Definition demo_call : DToolCall := {|
  dtc_id := "t1"; dtc_name := "telegram__send_channel_post"; dtc_arguments := Some []; dtc_approval_id := "b1-t1";
  dtc_status := ToolCallStatusPending |}.

Definition demo_message (status : string) (calls : list DToolCall) : DMessage := {|
  dm_successful := false; dm_business_id := "8"; dm_id := "p"; dm_conversation_id := "c1";
  dm_role := MessageRoleAssistant; dm_content := ""; dm_attachments := []; dm_tool_calls := calls;
  dm_tool_results := []; dm_metadata := None; dm_error_code := ""; dm_status := status;
  dm_created_at := Some 0%Z |}.

Definition demo_paused : DMessage := demo_message MessageStatusPendingApproval [demo_call].

Definition demo_conversation : Conversation := {|
  cv_preview := ""; cv_id := "c1"; cv_user_id := "7"; cv_business_id := "8"; cv_project_id := None;
  cv_title := ""; cv_title_status := None; cv_pinned_at := None; cv_last_message_at := None;
  cv_created_at := 0; cv_updated_at := 0 |}.

Definition demo_batch (status : string) : PendingToolCallBatch := {|
  b_id := "b1"; b_conversation_id := "c1"; b_business_id := "8"; b_project_id := ""; b_user_id := "7";
  b_message_id := "p"; b_selected_platforms := []; b_platform_scope_set := false; b_status := status;
  b_calls := []; b_model_messages := ""; b_iteration_idx := 0; b_created_at := 0; b_updated_at := 0;
  b_expires_at := Some 1000%Z |}.

(** The world with these messages and batches, the clock at [tick]. *)
Definition demo_world (ms : list DMessage) (bs : list PendingToolCallBatch) (tick : nat) : World := {|
  w_chat := {| db_msgs := list_to_map ((λ m, (dm_id m, m)) <$> ms) : gmap string DMessage;
               db_convs := {["c1" := demo_conversation]} : gmap string Conversation |};
  w_batches := list_to_map ((λ b, (b_id b, b)) <$> bs) : gmap string PendingToolCallBatch;
  w_tasks := (∅ : gmap string AgentTask); w_posts := (∅ : gmap string Post);
  w_reviews := (∅ : gmap string Review); w_tick := tick; w_ids := 0; w_fx := [] |}.

Definition demo_request : TurnRequest := {|
  rq_attachments := []; rq_business_id := 8; rq_user_id := 7; rq_conversation_id := "c1";
  rq_message := "hello"; rq_model := ""; rq_selected_platforms := []; rq_platform_scope_set := false;
  rq_resume_batch_id := ""; rq_english := true |}.

(** The frame of an event, and the replies of an orchestrator that answers, and
    of one that does not. *)
Definition frame (ev : SseEvent) : string := (data_prefix +:+ json_marshal (enc_event ev) +:+ line_break)%string.

Definition demo_event (type tool_call content : string) : SseEvent := {|
  ev_type := type; ev_code := ""; ev_content := content; ev_tool_call_id := tool_call; ev_tool_name := "";
  ev_tool_display_name := ""; ev_tool_display_name_key := ""; ev_tool_args := None; ev_tool_result := GNull;
  ev_tool_error := ""; ev_batch_id := ""; ev_calls := [] |}.

Definition demo_events : list SseEvent := [demo_event "text" "" "Posted"; demo_event "done" "" ""].
Definition answered : Reply := Responded 200 (foldr (λ ev s, frame ev +:+ s) "" demo_events)%string None.
Definition unanswered : Reply := DoFailed "connection refused" false.

Example answered_events : stream_events answered = demo_events.
Proof. vm_compute. reflexivity. Qed.

(** The four kinds of world the witnesses start in. *)
Definition quiet_world : World := demo_world [] [] 0.
Definition stale_world : World :=
  demo_world [demo_message MessageStatusInProgress []] [demo_batch statusPending] 20.
Definition paused_world (status : string) : World := demo_world [demo_paused] [demo_batch status] 0.

Definition demo_run : TurnRequest → Reply → World → TurnOutcome * World :=
  Run demo_deps demo_clock demo_fresh (λ _ _, None) (λ _, "") true (λ _, false) id (λ _, "").

Definition demo_resume : Reply → World → TurnOutcome * World := λ reply,
  runResumeStream demo_deps demo_clock demo_fresh (λ _ _, None) (λ _, "") true (λ _, false) reply "c1"
    demo_paused "8" "7" "b1" GNull.

Lemma demo_business_known n : ∃ b, get_business demo_deps n (rq_business_id demo_request) = Some (Some b).
Proof. by exists demo_business. Qed.

Lemma demo_integrations_listed n b : is_Some (list_integrations demo_deps n b).
Proof. by eexists. Qed.

Lemma demo_fresh_injective i j : demo_fresh i = demo_fresh j → i = j.
Proof. unfold demo_fresh. intros [= E]. by apply (inj pretty) in E. Qed.

Lemma demo_may_enter ms bs tick : may_enter demo_request (demo_world ms bs tick).
Proof. intros o Ho. vm_compute in Ho. by injection Ho as <-. Qed.

Lemma quiet_unused : unused_ids demo_fresh quiet_world.
Proof. intros n _. split; [done|reflexivity]. Qed.

Lemma quiet_is_quiet : quiet demo_request quiet_world.
Proof. intros k m Hm. change (None = Some m) in Hm. done. Qed.

(** Rows of a world with one message and one batch. *)
Lemma one_message m bs tick k m' : v_msgs (demo_world [m] bs tick) !! k = Some m' → m' = m.
Proof. change (({[dm_id m := m]} : gmap string DMessage) !! k = Some m' → m' = m). rewrite lookup_singleton. by case_decide; intros [= ->]. Qed.

Lemma one_batch ms b tick k b' : v_batches (demo_world ms [b] tick) !! k = Some b' → b' = b.
Proof. change (({[b_id b := b]} : gmap string PendingToolCallBatch) !! k = Some b' → b' = b). rewrite lookup_singleton. by case_decide; intros [= ->]. Qed.

Lemma pause_lists_each_call_once_witness :
  let pause := {| ev_type := "tool_approval_required"; ev_code := ""; ev_content := ""; ev_tool_call_id := "";
    ev_tool_name := ""; ev_tool_display_name := ""; ev_tool_display_name_key := ""; ev_tool_args := None;
    ev_tool_result := GNull; ev_tool_error := ""; ev_batch_id := "b1"; ev_calls := [] |} in
  let s := set_stream_ids ∅ {| ss_done := false; ss_text := ""; ss_calls := [demo_call]; ss_results := [];
    ss_pause := Some pause; ss_err_content := ""; ss_err_code := ""; ss_ids := ∅ |} in
  NoDup (call_ids (final_message true "p" "c1" 0 s)).
Proof.
  intros pause s. apply (pause_lists_each_call_once true "p" "c1" 0 s pause); [reflexivity| |apply NoDup_nil_2].
  apply NoDup_singleton.
Defined.

Lemma resume_accumulates_witness :
  call_ids demo_paused `prefix_of` call_ids (rs_msg (resume_fold "b1" demo_paused demo_events)).
Proof.
  apply (resume_accumulates "b1" demo_paused demo_events (demo_event "tool_result" "t1" ""));
    [apply NoDup_singleton|apply NoDup_nil_2].
Defined.

Lemma resume_stream_needs_claim_witness :
  let w := paused_world statusResolving in
  let r := demo_resume unanswered w in
  not_claimed "b1" w r.2 r.1 ∨ ∃ b, claimed_row "b1" w b ∧ streams r.2 = streams w ++ [("c1", "b1")].
Proof.
  intros w r.
  destruct (resume_stream_needs_claim demo_deps demo_clock demo_fresh (λ _ _, None) (λ _, "") true (λ _, false)
    unanswered "c1" demo_paused "8" "7" "b1" GNull w eq_refl) as [H|(b & Hb & Hs & _)];
    [left; exact H|right; exists b; split; [exact Hb|exact Hs]].
Defined.

Lemma resume_rewrites_message_witness :
  let w := paused_world statusResolving in (demo_resume answered w).1 = OutcomeRejoinedResume.
Proof.
  intros w.
  exact (proj1 (resume_rewrites_message demo_deps demo_clock demo_fresh (λ _ _, None) (λ _, "") true (λ _, false)
    answered "c1" demo_paused "8" "7" "b1" GNull w (demo_batch statusResolving) eq_refl
    (conj eq_refl eq_refl) ltac:(discriminate) ltac:(eexists; reflexivity) ltac:(vm_compute; reflexivity))).
Defined.

Lemma stalled_conversation_recovers_witness :
  streams (demo_run demo_request answered stale_world).2 = [("c1", "")].
Proof.
  destruct (stalled_conversation_recovers demo_deps demo_clock demo_fresh (λ _ _, None) (λ _, "") true (λ _, false) id
    (λ _, "") demo_request answered stale_world eq_refl (demo_may_enter _ _ _)) as [_ [H|(_ & [H|[[n H]|(n & b & H)]])]].
  - intros k m n Hm _ Hn [_ (c & Hc & Hlt)]. apply one_message in Hm as ->. injection Hc as <-.
    unfold stale_world in Hn. cbn [demo_world w_tick] in Hn. change streamBudget with 600000000000%Z in Hlt. unfold demo_clock in Hlt. lia.
  - intros k b n Hb _ Hn. apply one_batch in Hb as ->. unfold stale_world in Hn. cbn [demo_world w_tick] in Hn.
    unfold live_at. cbn [demo_batch b_expires_at]. rewrite (proj2 (Z.leb_gt (demo_clock n) 1000)); [reflexivity|].
    unfold demo_clock. lia.
  - exact H.
  - discriminate H.
  - destruct (H demo_business eq_refl).
  - discriminate H.
Defined.

Lemma busy_conversation_admits_no_second_turn_witness :
  turn_part (demo_run demo_request answered (paused_world statusPending)).2 = turn_part (paused_world statusPending).
Proof.
  destruct (busy_conversation_admits_no_second_turn demo_deps demo_clock demo_fresh (λ _ _, None) (λ _, "") true
    (λ _, false) id (λ _, "") demo_request answered (paused_world statusPending))
    as [[H _]|(b & m & w' & [[k Hb] _] & Hs & _)].
  - reflexivity.
  - exists "p", demo_paused. split; reflexivity.
  - left. exists (demo_batch statusPending). split; [exists "b1"; reflexivity|split; reflexivity].
  - exact H.
  - exfalso. apply one_batch in Hb as ->. apply list_elem_of_In in Hs as [|[|[]]]; discriminate.
Defined.

Lemma finished_turn_is_recorded_witness :
  (demo_run demo_request answered quiet_world).1 = OutcomeDone
  ∧ ∃ id m, v_msgs (demo_run demo_request answered quiet_world).2 !! id = Some m ∧ dm_content m = "Posted" ∧ dm_status m = "complete".
Proof.
  destruct (finished_turn_is_recorded demo_deps demo_clock demo_fresh (λ _ _, None) (λ _, "") true (λ _, false) id
    (λ _, "") demo_request answered demo_business_known demo_integrations_listed demo_fresh_injective eq_refl
    quiet_world ltac:(discriminate) (demo_may_enter _ _ _) quiet_is_quiet quiet_unused
    ltac:(vm_compute; reflexivity)) as (uid & id & u & m & _ & _ & _ & Hw & _ & _ & _ & _ & _ & _ & _ & _ & Hr).
  rewrite answered_events in Hr. destruct Hr as (_ & _ & _ & Ht & Ho & Hs & _).
  split; [exact Ho|]. exists id, m. split; [|exact (conj Ht Hs)].
  unfold demo_run. rewrite Hw. apply lookup_insert_eq.
Defined.

Lemma refused_turn_blocks_conversation_witness :
  (demo_run demo_request unanswered quiet_world).1 = OutcomeOrchestratorUnavailable.
Proof.
  destruct (refused_turn_blocks_conversation demo_deps demo_clock demo_fresh (λ _ _, None) (λ _, "") true (λ _, false) id
    (λ _, "") demo_request unanswered demo_business_known demo_integrations_listed demo_fresh_injective eq_refl
    quiet_world ltac:(discriminate) (demo_may_enter _ _ _) quiet_is_quiet quiet_unused ltac:(vm_compute; reflexivity)) as [H _].
  exact H.
Defined.

Lemma messages_stay_well_typed_witness :
  all_ok (demo_run demo_request answered (paused_world statusResolving)).2.
Proof.
  refine (proj1 (messages_stay_well_typed demo_deps demo_clock demo_fresh (λ _ _, None) (λ _, "") true (λ _, false) id (λ _, "")
    demo_request answered "c1" "b1" GNull (paused_world statusResolving) _)).
  intros k m Hm. apply one_message in Hm as ->. split; cbn; try done.
  unfold message_statuses. set_solver.
Defined.

Lemma mutations_audited_once_witness :
  w_fx (auditPlatformMutations demo_deps "8" "7" [demo_call] []
          (auditRPAMutations demo_deps "8" "7" [demo_call] [] quiet_world).2).2 = [].
Proof.
  refine (proj1 (mutations_audited_once demo_deps "8" "7" [demo_call] [] quiet_world 8 eq_refl _)).
  vm_compute. reflexivity.
Defined.
