(* ===== verification/HitlService.v ===== *)
(** * Resolving an approval batch

    [src/services/api/internal/service/hitl.go], [hitl_helpers.go],
    [approvaltelemetry] and [storage/media.go]: [HITLService.Resolve] against
    the store of HitlStore.v, with the business and project repositories, the
    upload store and the clock as parameters, and the cache over the
    orchestrator's tool projection. *)

From S2P Require Import Prelude Json GoTime Types Tools Policy Registry Authz Mongo HitlStore.
Local Open Scope go_scope.

(** ** Owned uploads ([storage.OwnedMediaExtension]) *)

Record Uploader := {
  KeyFromPublicURL : string → string;
  PublicURL : string → string;
}.

(** [path.Ext]: from the last dot of the last path element. *)
Fixpoint path_ext (s : string) : string :=
  match s with
  | EmptyString => ""
  | String a s' =>
      match path_ext s' with
      | EmptyString => if Ascii.eqb a "." && negb (str_has "/" s') then s else ""
      | e => e
      end
  end.

Definition trim_suffix (s suffix : string) : string :=
  str_take (String.length s - String.length suffix) s.

Inductive MediaError := ErrStoreUnavailable | ErrOutsideMedia | ErrInvalidMediaKey.

Section service.
Context `{UUIDText} `{Coll Batch b_id}.

Definition media_prefix (businessID : uuid) : string :=
  ("businesses/" +:+ uuid_string businessID +:+ "/media/")%string.

Definition OwnedMediaExtension (store : option Uploader) (businessID : uuid) (url : string)
  : result MediaError string :=
  match store with
  | None => Err ErrStoreUnavailable
  | Some st =>
      let key := KeyFromPublicURL st url in
      let prefix := media_prefix businessID in
      if negb (String.prefix prefix key) || negb (String.eqb url (PublicURL st key))
      then Err ErrOutsideMedia
      else
        let filename := str_drop (String.length prefix) key in
        let ext := path_ext filename in
        if (str_has "/" filename || str_has "\" filename || str_has "%" filename
            || str_has "?" filename || str_has "#" filename)
           || negb (list_mem ext [".jpg"; ".png"; ".webp"]%string)
        then Err ErrInvalidMediaKey
        else match uuid_parse (trim_suffix filename ext) with
             | None => Err ErrInvalidMediaKey
             | Some id => if String.eqb filename (uuid_string id +:+ ext)%string then Ok ext
                          else Err ErrInvalidMediaKey
             end
  end.

Definition parseUUIDSafe (s : string) : uuid := default uuid_nil (uuid_parse s).

Definition parseUUIDStrict (s : string) : option uuid := uuid_parse s.

(** ** Inputs and results *)

Definition actionApprove : string := "approve".
Definition actionEdit : string := "edit".
Definition actionReject : string := "reject".

Definition MaxRejectReasonChars : nat := 500.

Record DecisionInput := {
  di_id : string;
  di_action : string;
  di_edited_args : gomap;
  di_reject_reason : string;
}.

Record ResolveInput := {
  ri_conversation_id : string;
  ri_batch_id : string;
  ri_actor_user_id : string;
  ri_actor_business_id : string;
  ri_decisions : list DecisionInput;
}.

Record ResolvedCall := { rc_id : string; rc_action : string; rc_reason : string }.

Record ResolveResult := {
  rr_batch_id : string;
  rr_resolved_at : Z;
  rr_decisions : list ResolvedCall;
}.

Inductive ResolveError :=
| ErrHITLBatchNotFound
| ErrHITLForbidden
| ErrHITLBatchExpired
| ErrHITLBatchAlreadyResolving
| ErrHITLDecisionsShape (missing : list string)
| ErrHITLRejectReasonTooLong (max got : nat)
| ErrHITLInvalidAction (action : string)
| ErrHITLInvalidPhotoURL (e : MediaError)
| ErrEdit (e : EditArgs.EditError)
| ErrLoadBatch (e : StoreError)
| ErrTransition (e : StoreError)
| ErrRecordDecisions (e : StoreError).

(** [missingCallIDs]: its length test only turns one empty slice into nil. *)
Definition missingCallIDs (calls : list PendingCall) (decisions : list DecisionInput) : list string :=
  let have := di_id <$> decisions in
  let missing := filterb (λ id, negb (list_mem id have)) (pc_call_id <$> calls) in
  if (length missing =? 0)%nat && negb (length decisions =? length calls)%nat then []
  else missing.

Definition zero_decision : DecisionInput :=
  {| di_id := ""; di_action := ""; di_edited_args := None; di_reject_reason := "" |}.

(** [decisionByID[id]]: of equal ids the last decision stays. *)
Definition decision_for (decisions : list DecisionInput) (id : string) : DecisionInput :=
  default zero_decision (obj_get id ((λ d, (di_id d, d)) <$> decisions)).

Definition is_delete_tool (t : string) : bool := list_mem t [TelegramDeleteChannelPost; VKDeletePost].

(** The destructive tools need the system owner of the batch's business,
    holding the delete permission. *)
Definition owner_may_delete (actor : option BusinessContext) (batch : Batch) : bool :=
  match actor with
  | None => false
  | Some bc =>
      String.eqb (uuid_string (bc_business_id bc)) (b_business_id batch)
      && String.eqb (uuid_string (bc_role_id bc)) SystemRoleOwnerID
      && Can actor PermContentDelete
  end.

(** The validation loop's body. [entries] is the tools cache, [store] the
    attachment storage, [now] the clock [ValidateEditArgs] reads. *)
Definition check_call (now : Z) (store : option Uploader) (editable : string → list string)
    (actor : option BusinessContext) (batch : Batch) (decisions : list DecisionInput)
    (c : PendingCall) : option ResolveError :=
  let d := decision_for decisions (pc_call_id c) in
  if match gomap_get "scheduled_at" (di_edited_args d) with Some _ => true | None => false end
     && String.eqb (di_action d) actionApprove
     && list_mem (pc_tool_name c) [TelegramSendChannelPost; TelegramSendChannelPhoto]
  then Some (ErrHITLInvalidAction "scheduled_at changes require edit")
  else if is_delete_tool (pc_tool_name c) && negb (String.eqb (di_action d) actionReject)
          && negb (owner_may_delete actor batch)
  then Some ErrHITLForbidden
  else if String.eqb (di_action d) actionApprove then None
  else if String.eqb (di_action d) actionEdit then
    match EditArgs.ValidateEditArgs now (pc_tool_name c) (gomap_members (di_edited_args d))
            (editable (pc_tool_name c)) with
    | Some e => Some (ErrEdit e)
    | None =>
        if list_mem (pc_tool_name c) [TelegramSendChannelPhoto; VKPostPhoto] then
          match gomap_get "photo_url" (di_edited_args d) with
          | Some photo =>
              if bool_decide (photo = default GNull (gomap_get "photo_url" (pc_arguments c))) then None
              else match OwnedMediaExtension store (parseUUIDSafe (b_business_id batch))
                           (match photo with GStr url => url | _ => "" end) with
                   | Err e => Some (ErrHITLInvalidPhotoURL e)
                   | Ok _ => None
                   end
          | None => None
          end
        else None
    end
  else if String.eqb (di_action d) actionReject then
    if (MaxRejectReasonChars <? String.length (di_reject_reason d))%nat
    then Some (ErrHITLRejectReasonTooLong MaxRejectReasonChars (String.length (di_reject_reason d)))
    else None
  else Some (ErrHITLInvalidAction (di_action d)).

Fixpoint check_calls (check : PendingCall → option ResolveError) (cs : list PendingCall)
  : option ResolveError :=
  match cs with
  | [] => None
  | c :: cs' => match check c with Some e => Some e | None => check_calls check cs' end
  end.

(** The finalising loop's body: the call to record and its projection. *)
Definition finalize_call (biz proj : gmap string string) (decisions : list DecisionInput)
    (c : PendingCall) : PendingCall * ResolvedCall :=
  let d := decision_for decisions (pc_call_id c) in
  let recorded v r := {|
    pc_call_id := pc_call_id c; pc_tool_name := pc_tool_name c; pc_arguments := pc_arguments c;
    pc_floor_at_pause := pc_floor_at_pause c; pc_verdict := v; pc_edited_args := di_edited_args d;
    pc_reject_reason := r; pc_dispatched := pc_dispatched c; pc_dispatched_at := pc_dispatched_at c |} in
  if (String.eqb (di_action d) actionApprove || String.eqb (di_action d) actionEdit)
     && String.eqb (Hitl.Resolve (pc_floor_at_pause c) biz proj (pc_tool_name c)) ToolFloorForbidden
  then (recorded actionReject "policy_revoked",
        {| rc_id := pc_call_id c; rc_action := actionReject; rc_reason := "policy_revoked" |})
  else (recorded (di_action d) (di_reject_reason d),
        {| rc_id := pc_call_id c; rc_action := di_action d; rc_reason := "" |}).

(** The event of one recorded decision. *)
Definition telemetry_event (batchID : string) (fc : PendingCall) : option TelemetryEvent :=
  let kind := Kind (pc_tool_name fc) in
  if String.eqb kind "" then None
  else
    let id := (batchID +:+ "-" +:+ pc_call_id fc)%string in
    Some {| tev_batch_id := batchID; tev_draft_id := id; tev_approval_id := id; tev_kind := kind;
            tev_source := "chat"; tev_action := "decision_recorded"; tev_outcome := pc_verdict fc |}.

(** ** Resolve *)

(** The collaborators of one call: the repositories' answers, the tools cache,
    the upload store, whether a telemetry sink is attached, and the successive
    readings of the clock. *)
Record Env := {
  env_business : uuid → result unit (option gomap);
  env_project : uuid → result unit (option (gmap string string));
  env_editable : string → list string;
  env_store : option Uploader;
  env_telemetry : bool;
  env_clock : nat → Z;
}.

(** The fresh policy maps; a failed read yields no override. *)
Definition fresh_business (env : Env) (batch : Batch) : gmap string string :=
  match env_business env (parseUUIDSafe (b_business_id batch)) with
  | Ok (Some settings) => ToolApprovals settings
  | _ => ∅
  end.

Definition fresh_project (env : Env) (batch : Batch) : gmap string string :=
  if String.eqb (b_project_id batch) "" then ∅
  else match parseUUIDStrict (b_project_id batch) with
       | None => ∅
       | Some p => match env_project env p with Ok (Some overrides) => overrides | _ => ∅ end
       end.

Definition compensateResolving (now : Z) (batchID : string) : SE coll ResolveError unit :=
  try! _ := ResetResolvingToPending now batchID in se_ret tt.

Definition HITLService_Resolve (env : Env) (actor : option BusinessContext) (input : ResolveInput)
  : SE coll ResolveError (ResolveResult * list TelemetryEvent) :=
  try! got := GetByBatchID (env_clock env 0) (ri_batch_id input) in
  match got with
  | Err ErrBatchNotFound => se_err ErrHITLBatchNotFound
  | Err e => se_err (ErrLoadBatch e)
  | Ok batch =>
      if negb (String.eqb (b_business_id batch) (ri_actor_business_id input)) then se_err ErrHITLForbidden
      else if negb (String.eqb (b_conversation_id batch) (ri_conversation_id input)) then se_err ErrHITLForbidden
      else if status_is statusExpired batch then se_err ErrHITLBatchExpired
      else
        let missing := missingCallIDs (b_calls batch) (ri_decisions input) in
        if negb (length missing =? 0)%nat then se_err (ErrHITLDecisionsShape missing)
        else
          match check_calls (check_call (env_clock env 1) (env_store env) (env_editable env) actor batch
                               (ri_decisions input)) (b_calls batch) with
          | Some e => se_err e
          | None =>
              try! claimed := AtomicTransitionToResolving (env_clock env 2) (ri_batch_id input) in
              match claimed with
              | Err ErrBatchNotPending => se_err ErrHITLBatchAlreadyResolving
              | Err ErrBatchNotFound => se_err ErrHITLBatchNotFound
              | Err e => se_err (ErrTransition e)
              | Ok _ =>
                  let pairs := finalize_call (fresh_business env batch) (fresh_project env batch)
                                 (ri_decisions input) <$> b_calls batch in
                  let finalized := pairs.*1 in
                  try! recorded := RecordDecisions (env_clock env 4) (ri_batch_id input) finalized in
                  match recorded with
                  | Err e =>
                      do! _ := compensateResolving (env_clock env 5) (ri_batch_id input) in
                      se_err (ErrRecordDecisions e)
                  | Ok _ =>
                      se_ret ({| rr_batch_id := ri_batch_id input; rr_resolved_at := env_clock env 3;
                                 rr_decisions := pairs.*2 |},
                              if env_telemetry env then omap (telemetry_event (ri_batch_id input)) finalized
                              else [])
                  end
              end
          end
  end.

(** ** Facts on the pieces *)

Lemma missing_spec calls decisions id :
  id ∈ missingCallIDs calls decisions ↔ id ∈ pc_call_id <$> calls ∧ id ∉ di_id <$> decisions.
Proof.
  unfold missingCallIDs.
  assert (id ∈ filterb (λ id, negb (list_mem id (di_id <$> decisions))) (pc_call_id <$> calls) ↔
    id ∈ pc_call_id <$> calls ∧ id ∉ di_id <$> decisions) as Hf.
  { rewrite elem_of_filterb, negb_true_iff, list_mem_false. tauto. }
  rewrite <- Hf. destruct (filterb _ _) as [|x l]; simpl; [|done].
  by destruct (negb _).
Qed.

Lemma missing_nil calls decisions :
  missingCallIDs calls decisions = [] ↔ ∀ c, c ∈ calls → pc_call_id c ∈ di_id <$> decisions.
Proof.
  split.
  - intros E c Hc. destruct (decide (pc_call_id c ∈ di_id <$> decisions)) as [|Hn]; [done|].
    assert (pc_call_id c ∈ missingCallIDs calls decisions) as Hm.
    { apply missing_spec. split; [by apply list_elem_of_fmap_2|done]. }
    rewrite E in Hm. by apply elem_of_nil in Hm.
  - intros Hall. destruct (missingCallIDs calls decisions) as [|x l] eqn:E; [done|].
    assert (x ∈ missingCallIDs calls decisions) as Hx by (rewrite E; set_solver).
    apply missing_spec in Hx as [(c & -> & Hc)%list_elem_of_fmap Hn]. by apply Hall in Hc.
Qed.

(** Decision coverage. A batch is refused for its decisions' shape exactly
    when some call has no decision, and the refusal lists the undecided ids in
    batch order; a decision whose id names no call is never noticed, so adding
    one to a covering set is still accepted. *)
Theorem decision_coverage calls decisions :
  (missingCallIDs calls decisions = [] ↔ ∀ c, c ∈ calls → pc_call_id c ∈ di_id <$> decisions)
  ∧ missingCallIDs calls decisions
    = filterb (λ id, negb (list_mem id (di_id <$> decisions))) (pc_call_id <$> calls)
  ∧ ∀ extra, missingCallIDs calls decisions = [] → missingCallIDs calls (extra :: decisions) = [].
Proof.
  split_and!; [apply missing_nil| |].
  - unfold missingCallIDs. destruct (filterb _ _) as [|x l]; [|done]. by destruct (_ && _).
  - intros extra. rewrite !missing_nil. set_solver.
Qed.

Lemma check_calls_none check cs :
  check_calls check cs = None ↔ ∀ c, c ∈ cs → check c = None.
Proof.
  induction cs as [|c cs IH]; simpl; [set_solver|].
  destruct (check c) eqn:E.
  - split; [done|]. intros Hall. by rewrite Hall in E by set_solver.
  - rewrite IH. set_solver.
Qed.

(** What the contract grants one decided call. *)
Definition decision_valid (now : Z) (store : option Uploader) (editable : string → list string)
    (actor : option BusinessContext) (batch : Batch) (d : DecisionInput) (c : PendingCall) : Prop :=
  (di_action d = actionApprove ∨ di_action d = actionEdit ∨ di_action d = actionReject)
  ∧ (di_action d ≠ actionReject → is_delete_tool (pc_tool_name c) = true → owner_may_delete actor batch = true)
  ∧ (di_action d = actionEdit →
       (∀ f v, (f, v) ∈ gomap_members (di_edited_args d) →
          EditArgs.edit_allowed now (editable (pc_tool_name c)) f v)
       ∧ (∀ photo, pc_tool_name c ∈ [TelegramSendChannelPhoto; VKPostPhoto] →
            gomap_get "photo_url" (di_edited_args d) = Some photo →
            photo = default GNull (gomap_get "photo_url" (pc_arguments c))
            ∨ ∃ url ext, OwnedMediaExtension store (parseUUIDSafe (b_business_id batch)) url = Ok ext
                         ∧ url = match photo with GStr u => u | _ => "" end))
  ∧ (di_action d = actionReject → String.length (di_reject_reason d) ≤ MaxRejectReasonChars).

Lemma check_call_valid now store editable actor batch decisions c :
  check_call now store editable actor batch decisions c = None →
  decision_valid now store editable actor batch (decision_for decisions (pc_call_id c)) c.
Proof.
  unfold check_call, decision_valid. set (d := decision_for decisions (pc_call_id c)).
  destruct (_ && list_mem _ _); [done|].
  destruct (is_delete_tool (pc_tool_name c) && _ && _) eqn:Edel; [done|]. intros Hrest.
  assert (di_action d ≠ actionReject → is_delete_tool (pc_tool_name c) = true →
    owner_may_delete actor batch = true) as Hdel.
  { intros Hr Hd. rewrite Hd, (proj2 (String.eqb_neq _ _) Hr) in Edel. by apply negb_false_iff in Edel. }
  destruct (String.eqb_spec (di_action d) actionApprove) as [Ea|Ea].
  { rewrite Ea in *. split_and!; by auto. }
  destruct (String.eqb_spec (di_action d) actionEdit) as [Ee|Ee].
  - rewrite Ee in *. split_and!; [by auto|done| |done]. intros _.
    destruct (EditArgs.ValidateEditArgs _ _ _ _) eqn:Ev; [done|].
    split; [exact (proj1 (EditArgs.validate_iff _ _ _ _) Ev)|].
    intros photo Ht Hg. rewrite (proj2 (list_mem_true _ _) Ht), Hg in Hrest.
    case_bool_decide as Heq; [by left|].
    destruct (OwnedMediaExtension _ _ _) eqn:Em; [|done]. right; eauto.
  - destruct (String.eqb_spec (di_action d) actionReject) as [Er|Er]; [|done].
    destruct (Nat.ltb_spec MaxRejectReasonChars (String.length (di_reject_reason d))); [done|].
    split_and!; auto; intros; congruence.
Qed.

Lemma check_calls_some check cs e :
  check_calls check cs = Some e → ∃ c, c ∈ cs ∧ check c = Some e.
Proof.
  induction cs as [|c cs IH]; simpl; [done|]. destruct (check c) eqn:E; [intros; simplify_eq|intros H1%IH];
    set_solver.
Qed.

(** The validation step never reports a store error. *)
Lemma check_call_error now store editable actor batch ds c e :
  check_call now store editable actor batch ds c = Some e →
  match e with ErrTransition _ | ErrRecordDecisions _ => False | _ => True end.
Proof. unfold check_call. repeat case_match; intros; simplify_eq; done. Qed.

Lemma prefix_app p s : String.prefix p s = true → s = (p +:+ str_drop (String.length p) s)%string.
Proof.
  revert s. induction p as [|a p IH]; intros [|b s]; simpl; try done.
  destruct (ascii_dec a b) as [->|]; [|done]. intros Hp. f_equal. by apply IH.
Qed.

(** An edited photo can only be an upload of the batch's own business: an
    accepted URL is the store's canonical URL of the key
    [businesses/<business>/media/<uuid><ext>] with a jpg, png or webp
    extension, so no other tenant's object, foreign host or crafted path is
    let through. *)
Theorem owned_media_only store businessID url ext :
  OwnedMediaExtension store businessID url = Ok ext →
  ext ∈ [".jpg"; ".png"; ".webp"]%string
  ∧ ∃ st id, store = Some st
      ∧ url = PublicURL st (media_prefix businessID +:+ uuid_string id +:+ ext)%string.
Proof.
  unfold OwnedMediaExtension. destruct store as [st|]; [|done].
  generalize (media_prefix businessID) as prefix. intros prefix.
  destruct (String.prefix prefix (KeyFromPublicURL st url)) eqn:Hp; [|done].
  destruct (String.eqb_spec url (PublicURL st (KeyFromPublicURL st url))) as [Hu|]; [|done].
  cbn [negb orb]. apply prefix_app in Hp.
  set (filename := str_drop _ _) in *. clearbody filename.
  destruct (_ || negb (list_mem _ _)) eqn:Hc; [done|]. to_prop.
  destruct (uuid_parse _) as [id|]; [|done].
  destruct (String.eqb_spec filename (uuid_string id +:+ path_ext filename)%string) as [Hf|]; [|done].
  intros [= <-]. match goal with H : list_mem _ _ = true |- _ => apply list_mem_true in H end.
  split; [done|]. exists st, id. split; [done|]. congruence.
Qed.

Lemma finalize_id biz proj ds c : pc_call_id (finalize_call biz proj ds c).1 = pc_call_id c.
Proof. unfold finalize_call. by case_match. Qed.

(** No call the fresh policy forbids is recorded as approved. *)
Lemma finalize_not_forbidden biz proj ds c :
  pc_verdict (finalize_call biz proj ds c).1 = actionApprove
  ∨ pc_verdict (finalize_call biz proj ds c).1 = actionEdit →
  Hitl.Resolve (pc_floor_at_pause c) biz proj (pc_tool_name c) ≠ ToolFloorForbidden
  ∧ pc_verdict (finalize_call biz proj ds c).1 = di_action (decision_for ds (pc_call_id c)).
Proof.
  unfold finalize_call. set (d := decision_for ds (pc_call_id c)).
  destruct (_ && String.eqb (Hitl.Resolve _ _ _ _) _) eqn:E; simpl; [intros [?|?]; done|].
  intros Ha. split; [|done]. intros Hf. rewrite Hf in E.
  assert (String.eqb (di_action d) actionApprove || String.eqb (di_action d) actionEdit = true) as Ht
    by (destruct Ha as [-> | ->]; reflexivity).
  by rewrite Ht in E.
Qed.

(** C14: what a successful resolve did. The batch was pending, owned by the
    actor's business and conversation and not past its deadline; every call has
    a decision that satisfies the contract (a known action, editable fields,
    owned photos, the reason cap in bytes, deletions by the owner only); and the
    row now holds, in status resolving, each call with its decision, except that
    an approval or edit the freshly read policies forbid is recorded as a
    rejection with reason [policy_revoked], in the row and in the answer. *)
Theorem resolve_success env actor input c res tele c' :
  HITLService_Resolve env actor input c = (Ok (res, tele), c') →
  ∃ b, docs c !! ri_batch_id input = Some b
    ∧ b_status b = statusPending
    ∧ b_business_id b = ri_actor_business_id input
    ∧ b_conversation_id b = ri_conversation_id input
    ∧ virtualizeExpiry (env_clock env 0) b = b
    ∧ (∀ k, k ∈ b_calls b →
         pc_call_id k ∈ di_id <$> ri_decisions input
         ∧ decision_valid (env_clock env 1) (env_store env) (env_editable env) actor b
             (decision_for (ri_decisions input) (pc_call_id k)) k)
    ∧ (let pairs := finalize_call (fresh_business env b) (fresh_project env b) (ri_decisions input)
                      <$> b_calls b in
       docs c' = <[ri_batch_id input :=
         touch (env_clock env 4) (set_calls pairs.*1 (move statusResolving (env_clock env 2) b))]> (docs c)
       ∧ rr_decisions res = pairs.*2
       ∧ ∀ k, k ∈ pairs.*1 → pc_verdict k = actionApprove ∨ pc_verdict k = actionEdit →
           Hitl.Resolve (pc_floor_at_pause k) (fresh_business env b) (fresh_project env b)
             (pc_tool_name k) ≠ ToolFloorForbidden).
Proof.
  unfold HITLService_Resolve, se_try. pose proof (get_spec (env_clock env 0) (ri_batch_id input) c) as Hg.
  destruct (GetByBatchID (env_clock env 0) (ri_batch_id input) c) as [[b|e] c1];
    [|by destruct e]. destruct Hg as (E1 & d0 & Hd0 & Hv).
  destruct (String.eqb_spec (b_business_id b) (ri_actor_business_id input)) as [Hbiz|]; [|done].
  destruct (String.eqb_spec (b_conversation_id b) (ri_conversation_id input)) as [Hconv|]; [|done].
  destruct (String.eqb_spec (b_status b) statusExpired) as [|Hexp];
    [unfold status_is; by rewrite e, String.eqb_refl|].
  unfold status_is. rewrite (proj2 (String.eqb_neq _ _) Hexp). simpl.
  assert (b = d0) as <- by (rewrite Hv in Hexp |- *; by apply virtualize_not_expired).
  destruct (missingCallIDs (b_calls b) (ri_decisions input)) eqn:Em; [|done]. simpl.
  destruct (check_calls _ _) eqn:Ec; [done|].
  pose proof (transition_spec statusPending statusResolving ErrBatchNotPending (env_clock env 2)
    (ri_batch_id input) c1) as Ht. unfold AtomicTransitionToResolving.
  destruct (transition _ _ _ _ _ c1) as [[b1|e] c2]; [|by destruct e].
  destruct Ht as (d1 & Hd1 & Hs1 & -> & E2). rewrite E1, Hd0 in Hd1. injection Hd1 as <-.
  set (pairs := finalize_call _ _ _ <$> b_calls b).
  pose proof (record_spec (env_clock env 4) (ri_batch_id input) pairs.*1 c2) as Hr.
  destruct (RecordDecisions _ _ _ c2) as [[[]|e] c3]; [|unfold se_bind; by destruct (compensateResolving _ _ c3) as [[]]].
  intros [= <- _ <-]. destruct Hr as (b2 & Hb2 & E3).
  rewrite E2, lookup_insert_eq in Hb2. injection Hb2 as <-.
  exists b. fold pairs. split_and!; [done|done|done|done|by rewrite <- Hv| | |done|].
  - intros k Hk. split; [by apply (proj1 (missing_nil _ _) Em)|].
    apply check_call_valid. by apply (proj1 (check_calls_none _ _) Ec).
  - by rewrite E3, E2, insert_insert_eq, E1.
  - intros k (kc & -> & (c0 & -> & Hc0)%list_elem_of_fmap)%list_elem_of_fmap Ha.
    destruct (finalize_not_forbidden _ _ _ c0 Ha) as [Hnf _].
    unfold finalize_call in *. by case_match.
Qed.

(** C15: a failed resolve loses nothing. When [Resolve] returns an error every other
    batch is untouched, and so is the batch itself unless the driver failed in the
    claim or in the recording. After an error in the claim its row is the old one, or
    the claimed one, still with its calls. After an error in the recording the service
    reopens the batch: its row holds exactly the finalised calls, or the old ones, and
    then an undecided batch is pending again, unless the reset failed as well; never a
    partial or foreign set of verdicts. *)
Theorem resolve_failure env actor input c e c' :
  HITLService_Resolve env actor input c = (Err e, c') →
  (∀ k, k ≠ ri_batch_id input → docs c' !! k = docs c !! k)
  ∧ match e with
    | ErrTransition _ =>
        ∀ b, docs c !! ri_batch_id input = Some b →
          ∃ b', docs c' !! ri_batch_id input = Some b'
            ∧ b_calls b' = b_calls b ∧ (b' = b ∨ b_status b = statusPending ∧ b_status b' = statusResolving)
    | ErrRecordDecisions _ =>
        ∀ b, docs c !! ri_batch_id input = Some b →
          ∃ b' before reset, docs c' !! ri_batch_id input = Some b'
            ∧ ResetResolvingToPending (env_clock env 5) (ri_batch_id input) before = (reset, c')
            ∧ (b_calls b' = (finalize_call (fresh_business env b) (fresh_project env b)
                               (ri_decisions input) <$> b_calls b).*1
               ∨ b_calls b' = b_calls b
                 ∧ (b_status b' = statusPending
                    ∨ b_status b' = statusResolving ∧ (no_verdict b = true → is_ok reset = false)))
    | _ => docs c' = docs c
    end.
Proof.
  unfold HITLService_Resolve, se_try. pose proof (get_spec (env_clock env 0) (ri_batch_id input) c) as Hg.
  destruct (GetByBatchID (env_clock env 0) (ri_batch_id input) c) as [[b|e0] c1].
  2: { destruct Hg as [E1 _]. destruct e0; intros [= <- <-]; rewrite E1; auto. }
  destruct Hg as (E1 & d0 & Hd0 & Hv).
  destruct (negb (String.eqb (b_business_id b) _)); [intros [= <- <-]; rewrite E1; auto|].
  destruct (negb (String.eqb (b_conversation_id b) _)); [intros [= <- <-]; rewrite E1; auto|].
  destruct (status_is statusExpired b) eqn:Hexp; [intros [= <- <-]; rewrite E1; auto|].
  apply String.eqb_neq in Hexp.
  assert (b = d0) as <- by (rewrite Hv in Hexp |- *; by apply virtualize_not_expired).
  destruct (negb _); [intros [= <- <-]; rewrite E1; auto|].
  destruct (check_calls _ _) as [e1|]  eqn:Ec.
  { intros [= <- <-]. rewrite E1. split; [done|].
    apply check_calls_some in Ec as (k & _ & Hk). apply check_call_error in Hk. by destruct e1. }
  pose proof (transition_spec statusPending statusResolving ErrBatchNotPending (env_clock env 2)
    (ri_batch_id input) c1) as Ht.
  pose proof (transition_effect statusPending statusResolving ErrBatchNotPending (env_clock env 2)
    (ri_batch_id input) c1) as Hte. unfold AtomicTransitionToResolving.
  destruct (transition _ _ _ _ _ c1) as [[b1|e2] c2]; simpl in Hte; rewrite E1 in Hte, Ht.
  2: { destruct Ht as [Hsame _], Hte as [Ho Hi].
       destruct e2; intros [= <- <-]; (split; [done|]); try done; intros b' Hb';
       rewrite Hd0 in Hb'; injection Hb' as <-;
       (destruct Hi as [Hi|(d1 & Hd1 & Hs1 & Hi)]; [|rewrite Hd0 in Hd1; injection Hd1 as <-]);
       rewrite Hi; eexists; (split; [eassumption || reflexivity|]); auto. }
  destruct Ht as (d1 & Hd1 & Hs1 & -> & E2). rewrite Hd0 in Hd1. injection Hd1 as <-.
  set (pairs := finalize_call _ _ _ <$> b_calls b).
  pose proof (record_spec (env_clock env 4) (ri_batch_id input) pairs.*1 c2) as Hr.
  destruct (RecordDecisions _ _ _ c2) as [[[]|e3] c3]; [done|].
  unfold se_bind, compensateResolving, se_try.
  pose proof (reset_spec (env_clock env 5) (ri_batch_id input) c3) as Hs.
  pose proof (reset_ok (env_clock env 5) (ri_batch_id input) c3) as Hok.
  destruct (ResetResolvingToPending _ _ c3) as [r4 c4] eqn:Ereset. simpl in Hs, Hok.
  intros [= <- <-]. destruct Hr as [Hro Hri], Hs as [Hso Hsi]. split.
  { intros k Hk. rewrite Hso, Hro by done. rewrite E2. by rewrite lookup_insert_ne. }
  intros b' Hb'. rewrite Hd0 in Hb'. injection Hb' as <-. rewrite E2, lookup_insert_eq in Hri.
  destruct Hri as [Hri|Hri]; rewrite Hri in Hsi, Hok;
    (destruct Hsi as [Hsi|(d2 & Hd2 & _ & _ & Hsi)]; [|injection Hd2 as <-]);
    rewrite Hsi in *; eexists _, c3, r4; (split; [reflexivity|]); (split; [exact Ereset|]); simpl;
    [right; split; [done|right; split; [done|]]|right; auto|left; done..].
  intros Hnv. destruct r4 as [u|]; [|done]. specialize (Hok _ eq_refl eq_refl eq_refl Hnv). discriminate Hok.
Qed.
End service.

(** ** ToolsRegistryCache *)
#[local] Notation list_find := List.find.

Module ToolsCache.

Definition defaultToolsRegistryCacheTTL : Z := (5 * Minute)%Z.

(** [tc_has_orch] is false in the seed-only mode (no orchestrator URL). *)
Record ToolsRegistryCache := {
  tc_has_orch : bool;
  tc_ttl : Z;
  tc_by_locale : gmap string (list ToolEntry * Z);
  tc_in_flight : gset string;
  tc_latest : list ToolEntry;
}.

Definition NewToolsRegistryCache (hasURL : bool) (ttl : Z) : ToolsRegistryCache := {|
  tc_has_orch := hasURL;
  tc_ttl := if (ttl <=? 0)%Z then defaultToolsRegistryCacheTTL else ttl;
  tc_by_locale := ∅; tc_in_flight := ∅; tc_latest := [] |}.

Definition ToolsRegistryCache_Seed (now : Z) (entries : list ToolEntry) (c : ToolsRegistryCache) : ToolsRegistryCache := {|
  tc_has_orch := tc_has_orch c; tc_ttl := tc_ttl c;
  tc_by_locale := <["en" := (entries, now)]> (<["ru" := (entries, now)]>
                    (<["" := (entries, now)]> (tc_by_locale c)));
  tc_in_flight := tc_in_flight c; tc_latest := entries |}.

Definition ToolsRegistryCache_Floor (toolName : string) (c : ToolsRegistryCache) : string :=
  match list_find (λ e, String.eqb (te_name e) toolName) (tc_latest c) with
  | Some e => te_floor e
  | None => ToolFloorForbidden
  end.

Definition ToolsRegistryCache_EditableFields (toolName : string) (c : ToolsRegistryCache) : list string :=
  match list_find (λ e, String.eqb (te_name e) toolName) (tc_latest c) with
  | Some e => te_editable_fields e
  | None => []
  end.

Definition ToolsRegistryCache_Has (toolName : string) (c : ToolsRegistryCache) : bool :=
  existsb (λ e, String.eqb (te_name e) toolName) (tc_latest c).

(** [refresh] up to the network call: [None] when another goroutine already
    refreshes this locale (the caller waits for it and returns). *)
Definition refresh_begin (localeKey : string) (c : ToolsRegistryCache) : option ToolsRegistryCache :=
  if bool_decide (localeKey ∈ tc_in_flight c) then None
  else Some {| tc_has_orch := tc_has_orch c; tc_ttl := tc_ttl c; tc_by_locale := tc_by_locale c;
               tc_in_flight := {[localeKey]} ∪ tc_in_flight c; tc_latest := tc_latest c |}.

(** The rest of [refresh]: store the orchestrator's answer, if there is one,
    and leave the in-flight set. *)
Definition refresh_end (now : Z) (localeKey : string) (answer : option (list ToolEntry))
    (c : ToolsRegistryCache) : ToolsRegistryCache :=
  let c := match (if tc_has_orch c then answer else None) with
           | Some fresh => {|
               tc_has_orch := tc_has_orch c; tc_ttl := tc_ttl c;
               tc_by_locale := <[localeKey := (fresh, now)]> (tc_by_locale c);
               tc_in_flight := tc_in_flight c; tc_latest := fresh |}
           | None => c
           end in
  {| tc_has_orch := tc_has_orch c; tc_ttl := tc_ttl c; tc_by_locale := tc_by_locale c;
     tc_in_flight := tc_in_flight c ∖ {[localeKey]}; tc_latest := tc_latest c |}.

Definition snapshot (localeKey : string) (c : ToolsRegistryCache) : list ToolEntry :=
  match tc_by_locale c !! localeKey with Some (entries, _) => entries | None => [] end.

Definition is_fresh (now : Z) (localeKey : string) (c : ToolsRegistryCache) : bool :=
  match tc_by_locale c !! localeKey with
  | Some (_, loadedAt) => (now - loadedAt <? tc_ttl c)%Z
  | None => false
  end.

(** [List] with nothing in flight: [fetch] is the orchestrator's answer. *)
Definition ToolsRegistryCache_List (now : Z) (localeKey : string) (fetch : option (list ToolEntry))
    (c : ToolsRegistryCache) : list ToolEntry * ToolsRegistryCache :=
  if is_fresh now localeKey c then (snapshot localeKey c, c)
  else
    let c' := match refresh_begin localeKey c with
              | None => c
              | Some c1 => refresh_end now localeKey fetch c1
              end in
    (snapshot localeKey c', c').

(** The tools cache is stale-safe and fails closed. Within its TTL a locale
    is served from the cache whatever the orchestrator would answer; past it, an
    answer replaces the snapshot and a failure leaves every snapshot as it was;
    and a tool absent from the last snapshot has floor forbidden and no editable
    field, so every non-empty edit of it is refused. *)
Theorem tools_cache_fail_closed now key fetch c :
  (is_fresh now key c = true → ToolsRegistryCache_List now key fetch c = (snapshot key c, c))
  ∧ (key ∉ tc_in_flight c → is_fresh now key c = false →
       match (if tc_has_orch c then fetch else None) with
       | Some fresh => (ToolsRegistryCache_List now key fetch c).1 = fresh ∧ tc_latest (ToolsRegistryCache_List now key fetch c).2 = fresh
       | None => (ToolsRegistryCache_List now key fetch c).1 = snapshot key c
                 ∧ tc_by_locale (ToolsRegistryCache_List now key fetch c).2 = tc_by_locale c
                 ∧ tc_latest (ToolsRegistryCache_List now key fetch c).2 = tc_latest c
       end)
  ∧ ∀ tool, ToolsRegistryCache_Has tool c = false →
      ToolsRegistryCache_Floor tool c = ToolFloorForbidden
      ∧ ∀ t f v rest, EditArgs.ValidateEditArgs t tool ((f, v) :: rest) (ToolsRegistryCache_EditableFields tool c) ≠ None.
Proof.
  split_and!.
  - intros Hf. unfold ToolsRegistryCache_List. by rewrite Hf.
  - intros Hni Hf. unfold ToolsRegistryCache_List, refresh_begin. rewrite Hf, bool_decide_false by done.
    unfold refresh_end, snapshot. simpl. destruct (tc_has_orch c); [|done].
    destruct fetch; simpl; [|done]. by rewrite lookup_insert_eq.
  - intros tool Hh. unfold ToolsRegistryCache_Floor, ToolsRegistryCache_EditableFields.
    assert (list_find (λ e, String.eqb (te_name e) tool) (tc_latest c) = None) as ->.
    { destruct (list_find _ _) eqn:E; [|done]. apply List.find_some in E as [Hin Hp].
      unfold ToolsRegistryCache_Has in Hh. rewrite (proj2 (existsb_exists _ _)) in Hh; eauto. done. }
    done.
Qed.
End ToolsCache.

(** ** The theorems at concrete inputs *)
Section examples.
#[local] Instance demo_uuid : UUIDText := decimal_uuid.
#[local] Existing Instance demo_coll.

Definition demo_input (ds : list DecisionInput) : ResolveInput := {|
  ri_conversation_id := "conv"; ri_batch_id := "b1"; ri_actor_user_id := "u";
  ri_actor_business_id := "biz"; ri_decisions := ds |}.

Definition demo_decision (id action : string) : DecisionInput :=
  {| di_id := id; di_action := action; di_edited_args := None; di_reject_reason := "" |}.

(** The business has since forbidden the tool. *)
Definition demo_env : Env := {|
  env_business _ := Ok (Some (Some [("tool_approvals",
    GObj [("telegram__send_channel_post", GStr "forbidden")])]%string));
  env_project _ := Ok None;
  env_editable _ := ["text"%string];
  env_store := None;
  env_telemetry := true;
  env_clock n := Z.of_nat (10 + n) |}.

Definition stored_coll (script : list fault) : @coll _ _ demo_coll := (<["b1" := demo_pending]> ∅, script).

(** An approval the policy has overtaken, with a decision for an unknown call
    on top: accepted, recorded as a rejection. *)
Lemma resolve_success_witness :
  ∃ b, docs (stored_coll []) !! "b1"%string = Some b
    ∧ docs (HITLService_Resolve demo_env None (demo_input [demo_decision "c1" "approve"; demo_decision "ghost" "approve"])
              (stored_coll [])).2
      = <["b1"%string := touch 14 (set_calls
            (finalize_call (fresh_business demo_env b) (fresh_project demo_env b)
               [demo_decision "c1" "approve"; demo_decision "ghost" "approve"] <$> b_calls b).*1
            (move statusResolving 12 b))]> (docs (stored_coll [])).
Proof.
  destruct (resolve_success demo_env None
    (demo_input [demo_decision "c1" "approve"; demo_decision "ghost" "approve"]) (stored_coll [])
    _ _ _ ltac:(vm_compute; reflexivity)) as (b & Hb & _ & _ & _ & _ & _ & Hd & _).
  exists b. split; [exact Hb|exact Hd].
Defined.

Lemma resolve_failure_witness :
  ∃ b', docs (HITLService_Resolve demo_env None (demo_input [demo_decision "c1" "approve"])
                (stored_coll [FNone; FNone; FBefore])).2 !! "b1"%string = Some b'
        ∧ b_calls b' = [demo_call] ∧ b_status b' = statusPending.
Proof.
  destruct (resolve_failure demo_env None (demo_input [demo_decision "c1" "approve"])
    (stored_coll [FNone; FNone; FBefore]) _ _ ltac:(vm_compute; reflexivity)) as [_ Hf].
  destruct (Hf demo_pending ltac:(vm_compute; reflexivity)) as (b' & before & reset & Hb & _ & _).
  vm_compute in Hb. injection Hb as <-. eexists. split; [vm_compute; reflexivity|]. split; reflexivity.
Defined.

Definition demo_uploader : Uploader := {|
  KeyFromPublicURL u := str_drop 9 u;
  PublicURL k := ("https://x" +:+ k)%string |}.

Lemma owned_media_only_witness :
  ∃ id, "https://xbusinesses/7/media/42.png"%string
        = PublicURL demo_uploader (media_prefix 7%N +:+ uuid_string id +:+ ".png")%string.
Proof.
  destruct (owned_media_only (H:=demo_uuid) (Some demo_uploader) 7%N "https://xbusinesses/7/media/42.png" ".png"
    ltac:(vm_compute; reflexivity)) as (_ & st & id & [= <-] & E).
  exists id. exact E.
Defined.

(** 251 two-byte letters. *)
Definition cyrillic_reason : string :=
  Nat.iter 251 (λ s, String (ascii_of_nat 208) (String (ascii_of_nat 180) s)) ""%string.

(** The reject-reason cap counts bytes: a reason of 251 Cyrillic letters, well
    within 500 characters, is refused as too long. *)
Lemma cyrillic_reason_refused :
  check_call 0 None (λ _, []) None demo_pending
    [{| di_id := "c1"; di_action := actionReject; di_edited_args := None;
        di_reject_reason := cyrillic_reason |}] demo_call
  = Some (ErrHITLRejectReasonTooLong 500 502).
Proof. vm_compute. reflexivity. Qed.
End examples.
