(* ===== verification/A2A.v ===== *)
(** * Tool dispatch over NATS: executor, wire protocol, agent

    [src/services/orchestrator/internal/natsexec] (deny list, executor) and
    [src/pkg/a2a] (messages, error codes, [Agent.handle]).  NATS is outside the
    repository: the executor's [Requester] is a parameter, of which [at_most_once] says
    what core NATS documents: a message reaches a subscriber at most once, if at all, and
    a request ends with a reply or with an error.  An agent subscribes without a queue
    group, so a message is for every process of it.  A call may change a world state [W]
    (the platform, caches). *)

From S2P Require Import Prelude Json GoTime Types.
Local Open Scope go_scope.

(** ** Errors ([types.go]) *)

(** A Go error chain: a text, or a wrapper around an error. [EWrap p e] is
    [fmt.Errorf("p: %w", e)]. *)
Inductive goerr :=
| EText (msg : string)
| EWrap (prefix : string) (e : goerr)
| ENonRetryable (e : goerr)
| ECoded (code : string) (e : goerr).

#[export] Instance goerr_eq_dec : EqDecision goerr.
Proof. solve_decision. Defined.

Fixpoint error_text (e : goerr) : string :=
  match e with
  | EText m => m
  | EWrap p e' => (p +:+ ": " +:+ error_text e')%string
  | ENonRetryable e' => error_text e'
  | ECoded _ e' => error_text e'
  end.

(** The code of the first [CodedError] of the chain. *)
Fixpoint CodeOf (e : goerr) : string :=
  match e with
  | EText _ => ""
  | EWrap _ e' => CodeOf e'
  | ENonRetryable e' => CodeOf e'
  | ECoded c _ => c
  end.

Definition code_of (e : option goerr) : string :=
  match e with Some e => CodeOf e | None => "" end.

Fixpoint is_nonretryable (e : goerr) : bool :=
  match e with
  | EText _ => false
  | EWrap _ e' => is_nonretryable e'
  | ENonRetryable _ => true
  | ECoded _ e' => is_nonretryable e'
  end.

(** ** Messages ([protocol.go]) *)

Definition Subject (agentID : string) : string := ("tasks." +:+ agentID)%string.

(** [Deadline] is kept as its RFC 3339 text. *)
Record ToolRequest := {
  tr_deadline : option string;
  tr_task_id : string;
  tr_tool : string;
  tr_args : gomap;
  tr_business_id : string;
  tr_request_id : string;
  tr_approval_id : string;
}.

Record ToolResponse := {
  tp_task_id : string;
  tp_success : bool;
  tp_result : gomap;
  tp_error : string;
  tp_code : string;
}.

#[export] Instance ToolRequest_eq_dec : EqDecision ToolRequest.
Proof. solve_decision. Defined.
#[export] Instance ToolResponse_eq_dec : EqDecision ToolResponse.
Proof. solve_decision. Defined.

Definition empty_request : ToolRequest := {|
  tr_deadline := None; tr_task_id := ""; tr_tool := ""; tr_args := None; tr_business_id := "";
  tr_request_id := ""; tr_approval_id := "" |}.

Definition empty_response : ToolResponse := {|
  tp_task_id := ""; tp_success := false; tp_result := None; tp_error := ""; tp_code := "" |}.

(** [response.go] *)
Definition OK_response (req : ToolRequest) (res : gomap) : ToolResponse :=
  {| tp_task_id := tr_task_id req; tp_success := true; tp_result := res; tp_error := ""; tp_code := "" |}.

Definition failure (task error code : string) : ToolResponse :=
  {| tp_task_id := task; tp_success := false; tp_result := None; tp_error := error; tp_code := code |}.

Definition enc_request (r : ToolRequest) : gval := struct_enc
  [("deadline", GStr <$> tr_deadline r); ("task_id", Some (GStr (tr_task_id r)));
   ("tool", Some (GStr (tr_tool r))); ("args", Some (enc_map (tr_args r)));
   ("business_id", Some (GStr (tr_business_id r))); ("request_id", omit_str (tr_request_id r));
   ("approval_id", omit_str (tr_approval_id r))].

Definition dec_deadline (v : option gval) : option (option string) :=
  match v with
  | None | Some GNull => Some None
  | Some (GStr s) => match parse_rfc3339 s with Some _ => Some (Some s) | None => None end
  | _ => None
  end.

Definition dec_request (v : gval) : option ToolRequest :=
  match v with
  | GNull => Some empty_request
  | GObj l =>
      d ← dec_deadline (obj_get "deadline" l); t ← dec_str (obj_get "task_id" l);
      n ← dec_str (obj_get "tool" l); a ← dec_map (obj_get "args" l);
      b ← dec_str (obj_get "business_id" l); r ← dec_str (obj_get "request_id" l);
      p ← dec_str (obj_get "approval_id" l);
      mret {| tr_deadline := d; tr_task_id := t; tr_tool := n; tr_args := a; tr_business_id := b;
              tr_request_id := r; tr_approval_id := p |}
  | _ => None
  end.

Definition enc_response (r : ToolResponse) : gval := struct_enc
  [("task_id", Some (GStr (tp_task_id r))); ("success", Some (GBool (tp_success r)));
   ("result", omit_map (tp_result r)); ("error", omit_str (tp_error r)); ("code", omit_str (tp_code r))].

Definition dec_response (v : gval) : option ToolResponse :=
  match v with
  | GNull => Some empty_response
  | GObj l =>
      t ← dec_str (obj_get "task_id" l); s ← dec_bool (obj_get "success" l);
      r ← dec_map (obj_get "result" l); e ← dec_str (obj_get "error" l);
      c ← dec_str (obj_get "code" l);
      mret {| tp_task_id := t; tp_success := s; tp_result := r; tp_error := e; tp_code := c |}
  | _ => None
  end.

Definition norm_response (r : ToolResponse) : ToolResponse :=
  {| tp_task_id := tp_task_id r; tp_success := tp_success r; tp_result := norm_map (tp_result r);
     tp_error := tp_error r; tp_code := tp_code r |}.

Lemma dec_enc_request r : tr_deadline r = None → dec_request (enc_request r) = Some r.
Proof.
  destruct r as [d ? ? ? ? ? ?]. cbn [tr_deadline]. intros ->.
  unfold dec_request, enc_request, struct_enc. cbn [tr_deadline tr_task_id tr_tool tr_args
    tr_business_id tr_request_id tr_approval_id fmap option_fmap option_map dec_deadline]. by codec.
Qed.

Lemma dec_enc_response r : dec_response (enc_response r) = Some (norm_response r).
Proof. destruct r. unfold dec_response, enc_response, struct_enc. by codec. Qed.

(** ** The deny list ([denylist.go]) *)

Definition deniedKeys : list string :=
  ["cookies"; "session_id"; "token"; "auth"; "authorization"; "password"; "api_key"]%string.

Definition denied (k : string) : bool := list_mem (to_lower k) deniedKeys.

Fixpoint walkValue (v : gval) : option string :=
  match v with
  | GObj l => (fix walk l := match l with
                | [] => None
                | (k, v) :: l' =>
                    if denied k then Some k
                    else match walkValue v with Some key => Some key | None => walk l' end
                end) l
  | GArr l => (fix walk l := match l with
                | [] => None
                | v :: l' => match walkValue v with Some key => Some key | None => walk l' end
                end) l
  | _ => None
  end.

Definition walkDeny (m : list (string * gval)) : option string := walkValue (GObj m).

Definition violatesDenyList (args : gomap) : option string := walkDeny (gomap_members args).

(** [k] is a member name somewhere inside the value. *)
Inductive key_inside (k : string) : gval → Prop :=
| KI_here l v : (k, v) ∈ l → key_inside k (GObj l)
| KI_member l k' v : (k', v) ∈ l → key_inside k v → key_inside k (GObj l)
| KI_element l v : v ∈ l → key_inside k v → key_inside k (GArr l).

Lemma walkValue_sound v k : walkValue v = Some k → key_inside k v ∧ denied k = true.
Proof.
  revert k. induction v as [| | | |l IH|l IH] using gval_ind'; intros k; simpl; try done.
  - induction IH as [|v l Hv Hl IHl]; [done|].
    destruct (walkValue v) as [key|] eqn:E.
    + intros [= <-]. destruct (Hv _ eq_refl). split; [|done]. eapply KI_element; [constructor|done].
    + intros Hw. destruct (IHl Hw) as [Hi Hd]. split; [|done].
      inversion Hi; subst. eapply KI_element; [by constructor|done].
  - induction IH as [|[k0 v] l Hv Hl IHl]; [done|]. simpl in Hv.
    destruct (denied k0) eqn:Ed.
    { intros [= <-]. split; [|done]. eapply KI_here. constructor. }
    destruct (walkValue v) as [key|] eqn:E.
    + intros [= <-]. destruct (Hv _ eq_refl). split; [|done]. eapply KI_member; [constructor|done].
    + intros Hw. destruct (IHl Hw) as [Hi Hd]. split; [|done].
      inversion Hi; subst; [eapply KI_here|eapply KI_member]; try done; by constructor.
Qed.

Lemma walkValue_complete v k : walkValue v = None → key_inside k v → denied k = false.
Proof.
  revert k. induction v as [| | | |l IH|l IH] using gval_ind'; intros k Hw Hi; try by inversion Hi.
  - inversion Hi as [| |? w Hin Hk]; subst. clear Hi. simpl in Hw.
    induction IH as [|v l Hv Hl IHl]; [by apply elem_of_nil in Hin|].
    destruct (walkValue v) as [key|] eqn:E; [done|].
    apply elem_of_cons in Hin as [->|Hin]; [by apply Hv|by apply IHl].
  - simpl in Hw. induction IH as [|[k0 v] l Hv Hl IHl].
    { inversion Hi as [? w Hin|? ? w Hin|]; subst; by apply elem_of_nil in Hin. }
    simpl in Hv. destruct (denied k0) eqn:Ed; [done|].
    destruct (walkValue v) as [key|] eqn:E; [done|].
    inversion Hi as [? w Hin|? k' w Hin Hk|]; subst;
      apply elem_of_cons in Hin as [Heq|Hin]; simplify_eq.
    + done.
    + apply IHl; [done|]. eapply KI_here; done.
    + by apply Hv.
    + apply IHl; [done|]. eapply KI_member; done.
Qed.

(** ** The executor ([executor.go]) *)

Definition ErrDenyListed : goerr := EText "natsexec: tool argument rejected by security policy".

Record NATSExecutor := { ne_agentID : string; ne_toolName : string }.

(** What the executor reads from its [context.Context]. *)
Record CallContext := { cx_business_id : string; cx_correlation_id : string }.

Section Wire.
Context `{JsonText} {W : Type}.

(** [Requester.Request(ctx, subject, data)]. *)
Definition Requester : Type := string → string → W → result goerr string * W.

Definition decode_reply (e : NATSExecutor) (replyData : string) : result goerr gomap :=
  match (v ← json_unmarshal replyData; dec_response v) with
  | None => Err (EWrap "natsexec: decode response" (EText "json"))
  | Some resp =>
      if negb (tp_success resp) then
        let wrapped := EText ("natsexec: agent " +:+ ne_agentID e +:+ " error: " +:+ tp_error resp) in
        if negb (String.eqb (tp_code resp) "") then Err (ECoded (tp_code resp) wrapped)
        else Err wrapped
      else Ok (tp_result resp)
  end.

Definition dispatch (request : Requester) (e : NATSExecutor) (req : ToolRequest) (w : W)
  : result goerr gomap * W :=
  match violatesDenyList (tr_args req) with
  | Some _ => (Err ErrDenyListed, w)
  | None =>
      let data := json_marshal (enc_request req) in
      let subject := Subject (ne_agentID e) in
      match request subject data w with
      | (Err err, w') => (Err (EWrap ("natsexec: request to " +:+ subject) err), w')
      | (Ok replyData, w') => (decode_reply e replyData, w')
      end
  end.

(** [task] is the fresh [uuid.New().String()]. *)
Definition request_of (e : NATSExecutor) (ctx : CallContext) (task : string) (args : gomap)
    (approvalID : string) : ToolRequest := {|
  tr_deadline := None; tr_task_id := task; tr_tool := ne_toolName e; tr_args := args;
  tr_business_id := cx_business_id ctx; tr_request_id := cx_correlation_id ctx;
  tr_approval_id := approvalID |}.

Definition NATSExecutor_ExecuteWithApproval (request : Requester) (e : NATSExecutor)
    (ctx : CallContext) (task : string) (args : gomap) (approvalID : string) (w : W)
  : result goerr gomap * W :=
  dispatch request e (request_of e ctx task args approvalID) w.

Definition NATSExecutor_Execute (request : Requester) (e : NATSExecutor) (ctx : CallContext)
    (task : string) (args : gomap) (w : W) : result goerr gomap * W :=
  NATSExecutor_ExecuteWithApproval request e ctx task args "" w.

(** ** The agent ([agent.go]) *)

(** One run of an [Exec]: it returns a response (possibly nil) and an error
    (possibly nil), or panics. *)
Inductive outcome :=
| Returned (resp : option ToolResponse) (err : option goerr)
| Panicked.

Definition Exec : Type := ToolRequest → W → outcome * W.

(** The response the agent sends for an outcome: the switch of [handle] and, for
    a panic, [recoverHandler]. *)
Definition agent_response (req : ToolRequest) (o : outcome) : ToolResponse :=
  match o with
  | Returned _ (Some err) => failure (tr_task_id req) (error_text err) (CodeOf err)
  | Returned None None =>
      failure (tr_task_id req) "handler returned nil response and nil error" "transient"
  | Returned (Some resp) None => resp
  | Panicked => failure (tr_task_id req) "agent panic" "transient"
  end.

(** What is published, if anything, as [(reply, data)]. *)
Definition publish (reply : string) (resp : ToolResponse) : option (string * string) :=
  if String.eqb reply "" then None else Some (reply, json_marshal (enc_response resp)).

Definition Agent_handle (exec : Exec) (reply data : string) (w : W)
  : option (string * string) * W :=
  match (v ← json_unmarshal data; dec_request v) with
  | None => (publish reply (failure "" "agent failed to decode request" "transient"), w)
  | Some req => let '(o, w') := exec req w in (publish reply (agent_response req o), w')
  end.

(** One message handled by several agents, one after the other. *)
Fixpoint handle_all (ran : list Exec) (reply data : string) (w : W) : list (option (string * string)) * W :=
  match ran with
  | [] => ([], w)
  | exec :: ran =>
      let '(p, w) := Agent_handle exec reply data w in
      let '(ps, w) := handle_all ran reply data w in (p :: ps, w)
  end.

(** Core NATS between the caller and the processes that subscribe as the agent: some of
    them, perhaps none, get the message, each once; the caller gets one of their replies,
    or an error, whether or not the message arrived. *)
Definition at_most_once (agentID : string) (agents : list Exec) (request : Requester) : Prop :=
  ∀ subject data w, ∃ ran inbox, ran ⊆+ agents ∧ inbox ≠ "" ∧ (subject ≠ Subject agentID → ran = [])
    ∧ (request subject data w).2 = (handle_all ran inbox data w).2
    ∧ ∀ d, (request subject data w).1 = Ok d → Some (inbox, d) ∈ (handle_all ran inbox data w).1.

(** Several runs of [Exec]s on one request. *)
Fixpoint exec_all (ran : list Exec) (req : ToolRequest) (w : W) : list outcome * W :=
  match ran with
  | [] => ([], w)
  | exec :: ran =>
      let '(o, w) := exec req w in
      let '(os, w) := exec_all ran req w in (o :: os, w)
  end.

(** What a caller gets for an outcome of the remote [Exec]. *)
Definition remote_result (agentID : string) (o : outcome) : result goerr gomap :=
  let fail text code :=
    let e := EText ("natsexec: agent " +:+ agentID +:+ " error: " +:+ text) in
    if String.eqb code "" then Err e else Err (ECoded code e) in
  match o with
  | Returned _ (Some err) => fail (error_text err) (CodeOf err)
  | Returned (Some r) None =>
      if tp_success r then Ok (norm_map (tp_result r)) else fail (tp_error r) (tp_code r)
  | Returned None None => fail "handler returned nil response and nil error" "transient"
  | Panicked => fail "agent panic" "transient"
  end.

(** ** Properties *)

Lemma violates_spec args :
  match violatesDenyList args with
  | Some k => key_inside k (GObj (gomap_members args)) ∧ denied k = true
  | None => ∀ k, key_inside k (GObj (gomap_members args)) → denied k = false
  end.
Proof.
  unfold violatesDenyList, walkDeny. destruct (walkValue _) as [k|] eqn:E.
  - by apply walkValue_sound.
  - intros k. by apply walkValue_complete.
Qed.

Lemma decode_marshalled_request r : tr_deadline r = None →
  (v ← json_unmarshal (json_marshal (enc_request r)); dec_request v) = Some r.
Proof. intros Hd. rewrite json_roundtrip. cbn. by apply dec_enc_request. Qed.

Lemma decode_marshalled_response r :
  (v ← json_unmarshal (json_marshal (enc_response r)); dec_response v) = Some (norm_response r).
Proof. rewrite json_roundtrip. cbn. apply dec_enc_response. Qed.

Lemma Subject_self a : String.eqb (Subject a) (Subject a) = true.
Proof. apply String.eqb_refl. Qed.

Lemma decode_agent_response e req o :
  decode_reply e (json_marshal (enc_response (agent_response req o))) =
  remote_result (ne_agentID e) o.
Proof.
  unfold decode_reply. rewrite decode_marshalled_response.
  destruct o as [[r|] [err|]|]; cbn [agent_response norm_response failure tp_success tp_error
    tp_code tp_result negb remote_result]; try done; try by destruct (String.eqb (CodeOf err) "").
  destruct (tp_success r); cbn; [done|]. by destruct (String.eqb (tp_code r) "").
Qed.

Lemma handle_all_request ran inbox req w : tr_deadline req = None →
  handle_all ran inbox (json_marshal (enc_request req)) w =
  let '(os, w') := exec_all ran req w in ((λ o, publish inbox (agent_response req o)) <$> os, w').
Proof.
  intros Hd. revert w. induction ran as [|exec ran IH]; intros w; cbn [handle_all exec_all]; [done|].
  unfold Agent_handle. rewrite decode_marshalled_request by done. destruct (exec req w) as [o w1]. rewrite IH.
  by destruct (exec_all ran req w1).
Qed.

(** What the executor reports when the transport answers with an error. *)
Definition transport_error (e : NATSExecutor) (err : goerr) : goerr := EWrap ("natsexec: request to " +:+ Subject (ne_agentID e)) err.

Section transport.
Variables (agents : list Exec) (e : NATSExecutor) (request : Requester).
Hypothesis nats : at_most_once (ne_agentID e) agents request.

Lemma dispatch_runs req w : tr_deadline req = None → violatesDenyList (tr_args req) = None →
  ∃ ran, ran ⊆+ agents ∧ (dispatch request e req w).2 = (exec_all ran req w).2
    ∧ ((∃ o, o ∈ (exec_all ran req w).1 ∧ (dispatch request e req w).1 = remote_result (ne_agentID e) o)
       ∨ ∃ err, (dispatch request e req w).1 = Err (transport_error e err)).
Proof.
  intros Hd Hv. unfold dispatch. rewrite Hv.
  destruct (nats (Subject (ne_agentID e)) (json_marshal (enc_request req)) w) as (ran & inbox & Hran & Hin & _ & Hw & Hr).
  rewrite handle_all_request in Hw, Hr by done. exists ran. destruct (exec_all ran req w) as [os w1].
  destruct (request _ _ w) as [[d|err] w']; cbn in *; (split; [done|]); (split; [done|]); [left|right; by exists err].
  specialize (Hr d eq_refl). apply list_elem_of_fmap in Hr as (o & Hp & Ho). exists o. split; [done|].
  unfold publish in Hp. destruct (String.eqb_spec inbox ""); [done|]. injection Hp as ->. apply decode_agent_response.
Qed.

(** C35: Over a transport that hands a request to each process subscribed as the agent at
    most once and may lose it, lose the reply or time out, a tool call runs the [Exec] of
    each such process at most once, on the request the executor built (the arguments,
    business, correlation and approval ids unchanged), and changes nothing else; it
    returns what one of those runs came to, with its result, error text, error code,
    nil answer and panic carried back, or an error of the transport; unless the
    arguments name a denied key at any depth, in any letter case, and then nothing
    is sent and the agents' state is untouched. *)
Theorem remote_call_refines_exec ctx task args approvalID w :
  let call := NATSExecutor_ExecuteWithApproval request e ctx task args approvalID w in
  ((∃ k, key_inside k (GObj (gomap_members args)) ∧ to_lower k ∈ deniedKeys) →
     call = (Err ErrDenyListed, w)) ∧
  ((∀ k, key_inside k (GObj (gomap_members args)) → to_lower k ∉ deniedKeys) →
     ∃ ran, ran ⊆+ agents ∧
       let '(outcomes, w') := exec_all ran (request_of e ctx task args approvalID) w in
       call.2 = w' ∧ ((∃ o, o ∈ outcomes ∧ call.1 = remote_result (ne_agentID e) o)
                      ∨ ∃ err, call.1 = Err (transport_error e err))).
Proof.
  intros call. subst call. unfold NATSExecutor_ExecuteWithApproval. pose proof (violates_spec args) as Hs.
  destruct (violatesDenyList args) as [k|] eqn:E; split.
  - intros _. unfold dispatch. cbn [tr_args request_of]. by rewrite E.
  - destruct Hs as [Hin Hd]. intros Hno. apply list_mem_true in Hd. by destruct (Hno k Hin).
  - intros (k & Hin & Hd). apply Hs in Hin. by apply list_mem_false in Hin.
  - intros _. destruct (dispatch_runs (request_of e ctx task args approvalID) w eq_refl E) as (ran & Hran & Hw & Hr).
    exists ran. by destruct (exec_all ran _ w).
Qed.
End transport.

(** Whatever bytes arrive and whatever the tool does (error, nil answer,
    panic), an agent publishes at most one message, on the request's own reply
    subject, and exactly one when there is such a subject; the message decodes, and
    a failed run is reported as a failure of the same task.  Undecodable bytes are
    answered without running the tool. *)
Theorem agent_always_replies exec reply data w :
  match Agent_handle exec reply data w with
  | (None, _) => reply = ""
  | (Some (r, d), w') =>
      r = reply ∧ reply ≠ "" ∧ ∃ resp, (v ← json_unmarshal d; dec_response v) = Some resp ∧
      match (v ← json_unmarshal data; dec_request v) with
      | None => w' = w ∧ tp_success resp = false ∧ tp_code resp = "transient"
      | Some req =>
          w' = (exec req w).2 ∧
          match (exec req w).1 with
          | Returned (Some ok) None => resp = norm_response ok
          | Returned _ (Some err) =>
              resp = failure (tr_task_id req) (error_text err) (CodeOf err)
          | Returned None None | Panicked =>
              tp_success resp = false ∧ tp_task_id resp = tr_task_id req ∧ tp_code resp = "transient"
          end
      end
  end.
Proof.
  unfold Agent_handle. destruct (v ← json_unmarshal data; dec_request v) as [req|].
  - destruct (exec req w) as [o w']. unfold publish. destruct (String.eqb_spec reply ""); [done|].
    split; [done|split; [done|]]. eexists. split; [apply decode_marshalled_response|].
    split; [done|]. by destruct o as [[r|] [err|]|].
  - unfold publish. destruct (String.eqb_spec reply ""); [done|].
    split; [done|split; [done|]]. eexists. split; [apply decode_marshalled_response|]. done.
Qed.
End Wire.

(** ** Integer parameters ([params.go]) *)

(** A JSON number is a [float64] after decoding; the model's numbers are
    integral, so the conversion of one in range is the identity. *)
Definition GetIntParam (args : gomap) (key : string) (defaultValue : Z) : Z * bool :=
  match gomap_get key args with
  | None => (defaultValue, true)
  | Some (GNum n) => (n, true)
  | Some (GStr s) => match Atoi (trim_space s) with Some i => (i, true) | None => (defaultValue, false) end
  | Some _ => (defaultValue, false)
  end.

Example get_int_text :
  GetIntParam (Some [("id", GStr " -42 ")]) "id" 7 = ((-42)%Z, true) ∧
  GetIntParam (Some [("id", GStr "9223372036854775808")]) "id" 7 = (7%Z, false).
Proof. split; vm_compute; reflexivity. Qed.

(** ** Two transports, one that answers and one that loses the reply *)

#[local] Existing Instance json_text.

(** A tool that counts its runs. *)
Definition counting (req : ToolRequest) (runs : nat) : outcome * nat :=
  (Returned (Some (OK_response req (Some [("runs", GNum (Z.of_nat (S runs)))]))) None, S runs).

Definition delivering (lose_reply : bool) (agentID : string) : Requester (W := nat) := λ subject data w,
  if String.eqb subject (Subject agentID) then
    match Agent_handle counting "_INBOX.1" data w with
    | (Some (_, d), w') => (if lose_reply then Err (EText "nats: timeout") else Ok d, w')
    | (None, w') => (Err (EText "nats: timeout"), w')
    end
  else (Err (EText "nats: no responders available for request"), w).

Lemma delivering_at_most_once lose agentID : at_most_once agentID [counting] (delivering lose agentID).
Proof.
  intros subject data w. unfold delivering. destruct (String.eqb_spec subject (Subject agentID)) as [->|Hne].
  - exists [counting], "_INBOX.1". split; [done|]. split; [done|]. split; [done|]. cbn [handle_all].
    unfold Agent_handle. destruct (v ← json_unmarshal data; dec_request v); cbn [counting publish];
      (split; [by destruct lose|]); intros d; destruct lose; try done; intros [= <-]; left.
  - exists [], "_INBOX.1". split; [by apply submseteq_nil_l|]. by split_and!.
Qed.

Definition demo_executor : NATSExecutor := {| ne_agentID := "telegram"; ne_toolName := "telegram__send" |}.

(** The call succeeds, or ends in a timeout though the tool ran. *)
Lemma remote_call_refines_exec_witness :
  let call lose := NATSExecutor_ExecuteWithApproval (delivering lose "telegram") demo_executor
    {| cx_business_id := "b"; cx_correlation_id := "c" |} "t" (Some [("text", GStr "hi")]) "a" 0 in
  (is_ok (call false).1 = true ∧ is_ok (call true).1 = false) ∧
  ∀ lose, ∃ ran, ran ⊆+ [counting] ∧
    let '(outcomes, w') := exec_all ran (request_of demo_executor {| cx_business_id := "b"; cx_correlation_id := "c" |} "t"
      (Some [("text", GStr "hi")]) "a") 0 in
    (call lose).2 = w' ∧ ((∃ o, o ∈ outcomes ∧ (call lose).1 = remote_result "telegram" o)
                          ∨ ∃ err, (call lose).1 = Err (transport_error demo_executor err)).
Proof.
  cbn zeta. split; [split; vm_compute; reflexivity|]. intros lose.
  apply (remote_call_refines_exec [counting] demo_executor (delivering lose "telegram") (delivering_at_most_once lose "telegram")).
  intros k Hk Hd. apply list_mem_true in Hd.
  pose proof (violates_spec (Some [("text", GStr "hi")])) as Hs.
  assert (violatesDenyList (Some [("text", GStr "hi")]) = None) as E by (vm_compute; reflexivity). rewrite E in Hs.
  specialize (Hs k Hk). unfold denied in Hs. congruence.
Defined.
