(* ===== verification/Prog.v ===== *)
(** * Operations as programs over the calls they make

    An operation of a service that talks to several others is a program over a
    signature [E] of calls, [E B] being the calls answered by a [B].  [exec] runs it
    against any answers; [wp] is the logic its safety is proved in, with a ghost
    state threaded through the calls; [Sys] interleaves any number of programs over
    one shared state, call by call, each of which may crash at any point. *)

From S2P Require Import Prelude.
Local Open Scope go_scope.

Inductive prog (E : Type → Type) (A : Type) : Type :=
| Ret (a : A)
| Call {B : Type} (c : E B) (k : B → prog E A).
Arguments Ret {E A} a.
Arguments Call {E A B} c k.

Fixpoint prog_bind {E A B} (p : prog E A) (f : A → prog E B) : prog E B :=
  match p with
  | Ret a => f a
  | Call c k => Call c (λ b, prog_bind (k b) f)
  end.

Notation "'call!' x ':=' c 'in' k" := (Call c (λ x, k))
  (at level 10, x name, c at level 100, k at level 200) : go_scope.
Notation "'sub!' x ':=' p 'in' k" := (prog_bind p (λ x, k))
  (at level 10, x name, p at level 100, k at level 200) : go_scope.

(** The next step of a fallible operation. *)
Notation "'ok!' x ':=' p 'in' k" :=
  (prog_bind p (λ r, match r with Err e => Ret (Err e) | Ok x => k end))
  (at level 10, x name, p at level 100, k at level 200) : go_scope.

Definition forget {E A} (p : prog E A) : prog E unit := prog_bind p (λ _, Ret tt).

(** The calls of a component as calls of its client. *)
Fixpoint embed {E E' A} (f : ∀ B, E B → E' B) (p : prog E A) : prog E' A :=
  match p with
  | Ret a => Ret a
  | Call c k => Call (f _ c) (λ b, embed f (k b))
  end.

(** ** Runs *)

(** A call as the log of a run shows it. *)
Inductive made (E : Type → Type) :=
| Made {B : Type} (c : E B).
Arguments Made {E B} c.

(** Call number [n] of a run is answered by [h n]. *)
Fixpoint exec {E A} (h : nat → ∀ B, E B → B) (n : nat) (p : prog E A) : A * list (made E) :=
  match p with
  | Ret a => (a, [])
  | Call c k => let '(a, l) := exec h (S n) (k (h n _ c)) in (a, Made c :: l)
  end.

(** Against a server of the calls the state is threaded from call to call. *)
Fixpoint serve {E A S} (h : ∀ B, E B → S → B * S) (p : prog E A) (s : S) : A * S :=
  match p with
  | Ret a => (a, s)
  | Call c k => let '(b, s) := h _ c s in serve h (k b) s
  end.

Lemma serve_bind {E A B S} (h : ∀ B, E B → S → B * S) (p : prog E A) (f : A → prog E B) s :
  serve h (prog_bind p f) s = let '(a, s) := serve h p s in serve h (f a) s.
Proof.
  revert s. induction p as [a|C c k IH]; intros s; cbn; [done|]. destruct (h C c s) as [b s1]. apply IH.
Qed.

(** ** Reasoning on programs

    [spec c s K]: in ghost state [s] the call [c] is allowed, and whatever it
    answers, [K] holds of the answer and the new ghost state. *)
Section wp.
Context {E : Type → Type} {S : Type} (spec : ∀ B, E B → S → (B → S → Prop) → Prop).

Fixpoint wp {A} (p : prog E A) (Q : A → S → Prop) (s : S) : Prop :=
  match p with
  | Ret a => Q a s
  | Call c k => spec _ c s (λ b, wp (k b) Q)
  end.

Definition monotone : Prop := ∀ B (c : E B) s (K K' : B → S → Prop),
  (∀ b s', K b s' → K' b s') → spec B c s K → spec B c s K'.

Hypothesis spec_mono : monotone.

Lemma wp_mono {A} (p : prog E A) (Q Q' : A → S → Prop) s :
  (∀ a s', Q a s' → Q' a s') → wp p Q s → wp p Q' s.
Proof.
  intros HQ. revert s. induction p as [a|B c k IH]; intros s; cbn [wp]; [apply HQ|].
  apply spec_mono. intros b s'. apply IH.
Qed.

Lemma wp_any {A} (p : prog E A) (Q : A → S → Prop) s :
  (∀ a s', Q a s') → wp p (λ _ _, True) s → wp p Q s.
Proof. intros HQ. apply wp_mono. auto. Qed.

Lemma wp_bind {A B} (p : prog E A) (f : A → prog E B) (Q : B → S → Prop) s :
  wp p (λ a, wp (f a) Q) s → wp (prog_bind p f) Q s.
Proof.
  revert s. induction p as [a|C c k IH]; intros s; cbn [wp prog_bind]; [done|].
  apply spec_mono. intros b s'. apply IH.
Qed.

Lemma wp_forget {A} (p : prog E A) s : wp p (λ _ _, True) s → wp (forget p) (λ _ _, True) s.
Proof. intros Hp. apply wp_bind. by apply wp_any. Qed.
End wp.

Lemma wp_embed {E E' S A} (spec : ∀ B, E' B → S → (B → S → Prop) → Prop) (f : ∀ B, E B → E' B)
    (p : prog E A) (Q : A → S → Prop) s :
  monotone spec → wp (λ B c, spec B (f B c)) p Q s → wp spec (embed f p) Q s.
Proof.
  intros Hm. revert s. induction p as [a|B c k IH]; intros s; cbn [wp embed]; [done|].
  apply Hm. intros b s'. apply IH.
Qed.

(** A program respects a weaker specification, with a weaker postcondition. *)
Lemma wp_weaken {E S A} (spec spec' : ∀ B, E B → S → (B → S → Prop) → Prop) (p : prog E A) (Q Q' : A → S → Prop) s :
  (∀ B (c : E B) s (K K' : B → S → Prop), (∀ b s', K b s' → K' b s') → spec B c s K → spec' B c s K') →
  (∀ a s', Q a s' → Q' a s') → wp spec p Q s → wp spec' p Q' s.
Proof.
  intros Hspec HQ. revert s. induction p as [a|B c k IH]; intros s; cbn [wp]; [apply HQ|].
  apply Hspec. intros b s'. apply IH.
Qed.

(** Without a ghost state: every call made is [allowed], and [ans] bounds the answers. *)
Section plain.
Context {E : Type → Type}.

Definition plain_spec (ans : ∀ B, E B → B → Prop) (allowed : ∀ B, E B → Prop)
    B (c : E B) (s : unit) (K : B → unit → Prop) : Prop :=
  allowed B c ∧ ∀ b, ans B c b → K b tt.

Lemma plain_spec_mono ans allowed : monotone (plain_spec ans allowed).
Proof. intros B c s K K' HK [Ha Hb]. split; [done|]. intros b Hans. by apply HK, Hb. Qed.

Definition answers (h : nat → ∀ B, E B → B) B (c : E B) (b : B) : Prop := ∃ n, h n B c = b.

Definition all_made (allowed : ∀ B, E B → Prop) : list (made E) → Prop :=
  Forall (λ m, match m with Made c => allowed _ c end).

Lemma exec_wp {A} (h : nat → ∀ B, E B → B) (allowed : ∀ B, E B → Prop) (p : prog E A) (Q : A → Prop) n :
  wp (plain_spec (answers h) allowed) p (λ a _, Q a) tt →
  Q (exec h n p).1 ∧ all_made allowed (exec h n p).2.
Proof.
  revert n. induction p as [a|B c k IH]; intros n; cbn [wp exec]; [by split; [|constructor]|].
  intros [Ha Hb]. specialize (Hb (h n B c) (ex_intro _ n eq_refl)). destruct (IH _ (S n) Hb) as [Hq Hl].
  destruct (exec h (S n) (k (h n B c))) as [a l]. cbn [fst snd] in *. split; [done|]. by constructor.
Qed.
End plain.

(** ** Histories

    A run with the calls it made and their answers, newest first; [ans] bounds the
    answers. *)
Inductive answered (E : Type → Type) :=
| Answered {B : Type} (c : E B) (b : B).
Arguments Answered {E B} c b.

Fixpoint run {E A} (h : nat → ∀ B, E B → B) (n : nat) (p : prog E A) (past : list (answered E))
    : A * list (answered E) :=
  match p with
  | Ret a => (a, past)
  | Call c k => let b := h n _ c in run h (S n) (k b) (Answered c b :: past)
  end.

Definition history_spec {E} (ans : ∀ B, E B → B → Prop) B (c : E B) (past : list (answered E))
    (K : B → list (answered E) → Prop) : Prop :=
  ∀ b, ans B c b → K b (Answered c b :: past).

(** A logic that allows a call whatever is to follow allows it. *)
Definition loose {E S} (spec : ∀ B, E B → S → (B → S → Prop) → Prop) : Prop :=
  ∀ B (c : E B) s (K : B → S → Prop), (∀ b s', K b s') → spec B c s K.

Section history.
Context {E : Type → Type} (ans : ∀ B, E B → B → Prop).

Lemma history_spec_mono : monotone (history_spec ans).
Proof. intros B c past K K' HK Hs b Hb. by apply HK, Hs. Qed.

Lemma history_spec_loose : loose (history_spec ans).
Proof. intros B c past K HK b _. apply HK. Qed.

(** Nothing is forgotten. *)
Lemma history_grows {A} (p : prog E A) (Q : A → list (answered E) → Prop) past :
  wp (history_spec ans) p Q past → wp (history_spec ans) p (λ a hist, Q a hist ∧ past ⊆ hist) past.
Proof.
  revert past. induction p as [a|B c k IH]; intros past; cbn [wp]; [done|].
  intros Hs b Hb. eapply wp_mono; [apply history_spec_mono| |apply IH, (Hs b Hb)].
  cbn. intros a hist [Hq Hl]. split; [done|]. set_solver.
Qed.

Lemma wp_history_true {A} (p : prog E A) past : wp (history_spec ans) p (λ _ hist, past ⊆ hist) past.
Proof.
  eapply wp_mono; [apply history_spec_mono| |apply (history_grows _ (λ _ _, True))]; [by intros a hist [_ Hl]|].
  revert past. induction p as [a|B c k IH]; intros past; cbn [wp]; [done|]. intros b _. apply IH.
Qed.

Lemma run_wp h n {A} (p : prog E A) (Q : A → list (answered E) → Prop) past :
  (∀ n B c, ans B c (h n B c)) → wp (history_spec ans) p Q past → Q (run h n p past).1 (run h n p past).2.
Proof.
  intros Hh. revert n past. induction p as [a|B c k IH]; intros n past; cbn [wp run]; [done|].
  intros Hs. apply IH, Hs, Hh.
Qed.
End history.

(** A call made only after a history that allows it. *)
Definition guarded_spec {E} (ok : ∀ B, E B → list (answered E) → Prop) B (c : E B) (past : list (answered E))
    (K : B → list (answered E) → Prop) : Prop :=
  ok B c past ∧ ∀ b, K b (Answered c b :: past).

Fixpoint guarded {E} (ok : ∀ B, E B → list (answered E) → Prop) (hist : list (answered E)) : Prop :=
  match hist with
  | [] => True
  | Answered c _ :: past => ok _ c past ∧ guarded ok past
  end.

Section guards.
Context {E : Type → Type} (ok : ∀ B, E B → list (answered E) → Prop).

Lemma guarded_spec_mono : monotone (guarded_spec ok).
Proof. intros B c past P P' HP [Ho Hs]. split; [done|]. intros b. by apply HP, Hs. Qed.

Lemma guarded_grows {A} (p : prog E A) (Q : A → list (answered E) → Prop) past :
  wp (guarded_spec ok) p Q past → wp (guarded_spec ok) p (λ a hist, Q a hist ∧ past ⊆ hist) past.
Proof.
  revert past. induction p as [a|B c k IH]; intros past; cbn [wp]; [done|].
  intros [Ho Hs]. split; [done|]. intros b. eapply wp_mono; [apply guarded_spec_mono| |apply IH, (Hs b)].
  cbn. intros a hist [Hq Hl]. split; [done|]. set_solver.
Qed.

Lemma run_guarded h n {A} (p : prog E A) (Q : A → list (answered E) → Prop) past :
  wp (guarded_spec ok) p Q past → guarded ok past →
  Q (run h n p past).1 (run h n p past).2 ∧ guarded ok (run h n p past).2.
Proof.
  revert n past. induction p as [a|B c k IH]; intros n past; cbn [wp run]; [done|].
  intros [Ho Hs] Hg. apply IH; [apply Hs|]. by split.
Qed.
End guards.

(** ** Interference *)
Section interference.
Context {E : Type → Type} {Store : Type}.
Variable step : ∀ B, E B → Store → B → Store → Prop.

(** One program run to its end, the others making the moves [R] between its calls. *)
Fixpoint runs {A} (R : Store → Store → Prop) (p : prog E A) (s : Store) (a : A) (s' : Store) : Prop :=
  match p with
  | Ret a' => a = a' ∧ s' = s
  | Call c k => ∃ s1 b s2, rtc R s s1 ∧ step _ c s1 b s2 ∧ runs R (k b) s2 a s'
  end.

Lemma runs_bind {A B} R (p : prog E A) (f : A → prog E B) s b s' :
  runs R (prog_bind p f) s b s' ↔ ∃ a s1, runs R p s a s1 ∧ runs R (f a) s1 b s'.
Proof.
  revert s. induction p as [a|C c k IH]; intros s; cbn [prog_bind runs].
  - split; [intros Hf; by exists a, s|by intros (? & ? & [-> ->] & ?)].
  - setoid_rewrite IH. naive_solver.
Qed.

Lemma runs_mono {A} (R R' : Store → Store → Prop) (p : prog E A) s a s' :
  (∀ s s', R s s' → R' s s') → runs R p s a s' → runs R' p s a s'.
Proof.
  intros HR. revert s. induction p as [x|B c k IH]; intros s; cbn; [done|].
  intros (s1 & b & s2 & H1 & H2 & H3). exists s1, b, s2. split_and!; [|done|by apply IH].
  clear -HR H1. induction H1; [reflexivity|]. eapply rtc_l; eauto.
Qed.
Lemma serve_runs {A} (h : ∀ B, E B → Store → B * Store) R (p : prog E A) s :
  (∀ B (c : E B) s, step B c s (h B c s).1 (h B c s).2) → runs R p s (serve h p s).1 (serve h p s).2.
Proof.
  intros Hh. revert s. induction p as [a|B c k IH]; intros s; cbn; [done|].
  specialize (Hh B c s). destruct (h B c s) as [b s']. exists s, b, s'. split_and!; [reflexivity|done|apply IH].
Qed.
End interference.

(** ** Interleaving

    [step c s b s']: in the shared state [s] the call [c] may be answered [b],
    leaving [s'].  [env] is what happens without any of the programs. *)
Section system.
Context {E : Type → Type} {Store : Type}.
Variables (step : ∀ B, E B → Store → B → Store → Prop) (env : Store → Store → Prop)
  (starts : prog E unit → Prop).

Record Sys := { sy_store : Store; sy_procs : list (prog E unit) }.

Inductive sys_step : Sys → Sys → Prop :=
| step_call s ps i B (c : E B) k b s' :
    ps !! i = Some (Call c k) → step B c s b s' →
    sys_step {| sy_store := s; sy_procs := ps |} {| sy_store := s'; sy_procs := <[i := k b]> ps |}
| step_start s ps p :
    starts p → sys_step {| sy_store := s; sy_procs := ps |} {| sy_store := s; sy_procs := ps ++ [p] |}
| step_crash s ps i :
    sys_step {| sy_store := s; sy_procs := ps |} {| sy_store := s; sy_procs := <[i := Ret tt]> ps |}
| step_env s ps s' :
    env s s' → sys_step {| sy_store := s; sy_procs := ps |} {| sy_store := s'; sy_procs := ps |}.

(** Reachable from an [initial] state with no operation in progress. *)
Definition reachable (initial : Store → Prop) (s : Sys) : Prop :=
  ∃ s0, initial s0 ∧ rtc sys_step {| sy_store := s0; sy_procs := [] |} s.

(** A program served alone, from its start to its end, is a run of the system. *)
Lemma serve_steps (h : ∀ B, E B → Store → B * Store) :
  (∀ B (c : E B) s, step B c s (h B c s).1 (h B c s).2) →
  ∀ p s ps i, ps !! i = Some p →
    rtc sys_step {| sy_store := s; sy_procs := ps |}
      {| sy_store := (serve h p s).2; sy_procs := <[i := Ret (serve h p s).1]> ps |}.
Proof.
  intros Hh p. induction p as [a|B c k IH]; intros s ps i Hi; cbn.
  - rewrite list_insert_id by done. reflexivity.
  - specialize (Hh B c s). destruct (h B c s) as [b s'] eqn:Eh. cbn in Hh.
    eapply rtc_l; [by eapply step_call|].
    assert (<[i := Ret (serve h (k b) s').1]> ps = <[i := Ret (serve h (k b) s').1]> (<[i := k b]> ps)) as ->
      by by rewrite list_insert_insert_eq.
    apply IH. rewrite list_lookup_insert_eq; [done|by eapply lookup_lt_Some].
Qed.

Lemma serve_reachable (h : ∀ B, E B → Store → B * Store) initial p s ps :
  (∀ B (c : E B) s, step B c s (h B c s).1 (h B c s).2) → starts p →
  reachable initial {| sy_store := s; sy_procs := ps |} →
  reachable initial {| sy_store := (serve h p s).2; sy_procs := ps ++ [Ret (serve h p s).1] |}.
Proof.
  intros Hh Hp (s0 & H0 & Hr). exists s0. split; [done|]. etrans; [exact Hr|].
  eapply rtc_l; [by apply step_start|].
  pose proof (serve_steps h Hh p s (ps ++ [p]) (length ps)) as Hs. rewrite insert_app_r_alt in Hs by lia.
  rewrite Nat.sub_diag in Hs. apply Hs. by rewrite lookup_app_r, Nat.sub_diag by lia.
Qed.

(** *** The invariant rule

    [safe s hs] relates the shared state to what the processes hold; every call
    allowed by [spec] keeps it, and every program starts out holding [h0]. *)
Context {H : Type} (spec : ∀ B, E B → H → (B → H → Prop) → Prop) (safe : Store → list H → Prop) (h0 : H).

Hypothesis safe_call : ∀ B (c : E B) s b s' hs i h (K : B → H → Prop),
  safe s hs → hs !! i = Some h → spec B c h K → step B c s b s' →
  ∃ h', K b h' ∧ safe s' (<[i := h']> hs).
Hypothesis safe_more : ∀ s hs, safe s hs → safe s (hs ++ [h0]).
Hypothesis safe_env : ∀ s hs s', safe s hs → env s s' → safe s' hs.
Hypothesis safe_starts : ∀ p, starts p → wp spec p (λ _ _, True) h0.

Definition sound (s : Sys) : Prop := ∃ hs,
  safe (sy_store s) hs ∧ length hs = length (sy_procs s)
  ∧ ∀ i p h, sy_procs s !! i = Some p → hs !! i = Some h → wp spec p (λ _ _, True) h.

Lemma sound_step s s' : sound s → sys_step s s' → sound s'.
Proof.
  intros (hs & Hsafe & Hlen & Hord) Hstep.
  destruct Hstep as [st ps i B c k b st' Hi Hcall|st ps p Hp|st ps i|st ps st' He]; cbn [sy_store sy_procs] in *.
  - destruct (lookup_lt_is_Some_2 hs i) as [h Hh]; [rewrite Hlen; by eapply lookup_lt_Some|].
    specialize (Hord i _ h Hi Hh) as Hwp. cbn [wp] in Hwp.
    destruct (safe_call _ c st b st' hs i h _ Hsafe Hh Hwp Hcall) as (h' & Hk & Hs').
    exists (<[i := h']> hs). split; [done|]. split; [cbn; by rewrite !length_insert|]. intros j p hj Hj Hhj.
    apply list_lookup_insert_Some in Hj as [(-> & <- & _)|[Hn Hj]].
    + rewrite list_lookup_insert_eq in Hhj by (rewrite Hlen; by eapply lookup_lt_Some). by injection Hhj as <-.
    + rewrite list_lookup_insert_ne in Hhj by done. by eapply Hord.
  - exists (hs ++ [h0]). split; [by apply safe_more|]. split; [cbn; rewrite !length_app; cbn; lia|]. cbn [sy_procs].
    intros i q h Hq Hh. apply lookup_app_Some in Hq as [Hq|[Hge Hq]].
    + rewrite lookup_app_l in Hh by (rewrite Hlen; by eapply lookup_lt_Some). by eapply Hord.
    + apply list_lookup_singleton_Some in Hq as [_ <-]. rewrite lookup_app_r in Hh by lia.
      apply list_lookup_singleton_Some in Hh as [_ <-]. by apply safe_starts.
  - exists hs. split; [done|]. split; [cbn; by rewrite length_insert|]. intros j p h Hj Hh.
    apply list_lookup_insert_Some in Hj as [(-> & <- & _)|[Hn Hj]]; [done|by eapply Hord].
  - exists hs. split; [by eapply safe_env|done].
Qed.

Lemma reachable_sound initial s : (∀ s0, initial s0 → safe s0 []) → reachable initial s → sound s.
Proof.
  intros Hinit (s0 & H0 & Hr).
  assert (sound {| sy_store := s0; sy_procs := [] |}) as Hs.
  { exists []. split; [by apply Hinit|]. split; [done|]. by intros i p h Hi. }
  revert Hs. generalize {| sy_store := s0; sy_procs := [] |} Hr. clear Hr H0 s0.
  intros x Hr. induction Hr as [x|x y z Hxy _ IH]; intros Hx; [done|]. by apply IH, (sound_step x).
Qed.

Lemma sound_reachable initial s :
  (∀ s0, initial s0 → safe s0 []) → reachable initial s → ∃ hs, safe (sy_store s) hs.
Proof. intros Hi Hr. destruct (reachable_sound initial s Hi Hr) as (hs & Hx & _). by exists hs. Qed.
End system.
Arguments Sys E Store : clear implicits.
