(* ===== verification/Dispatch.v ===== *)
(** * One request to a platform agent

    [services/api/internal/service/dispatch.go], over whatever calls of the client
    answer [uuid.NewString] and a NATS request. *)

From S2P Require Import Prelude Json GoTime Types A2A Prog.
Local Open Scope go_scope.

(** A signature of calls that can reach the platform agents. *)
Class Dispatching (E : Type → Type) := {
  newID : E string;
  request : string → ToolRequest → E (result goerr string);
}.

Section dispatch.
Context {J : JsonText} {E : Type → Type} {D : Dispatching E}.

Definition tool_request (taskID tool : string) (args : gomap) (businessID approvalID : string) : ToolRequest :=
  {| tr_deadline := None; tr_task_id := taskID; tr_tool := tool; tr_args := args;
     tr_business_id := businessID; tr_request_id := ""; tr_approval_id := approvalID |}.

(** What the answer to a request means: no answer, one that is no response, a
    failure with its code, or a success. *)
Definition read_reply (platform : string) (reply : result goerr string) : ToolResponse * option goerr :=
  match reply with
  | Err e => (empty_response, Some (EWrap ("nats request to " +:+ Subject platform) e))
  | Ok data =>
      match (v ← json_unmarshal data; dec_response v) with
      | None => (empty_response, Some (EWrap "decode agent response" (EText "json")))
      | Some resp =>
          if negb (tp_success resp) then
            let agentErr := EText ("agent error: " +:+ tp_error resp) in
            (resp, Some (if negb (String.eqb (tp_code resp) "") then ECoded (tp_code resp) agentErr
                         else agentErr))
          else (resp, None)
      end
  end.

Definition dispatchToolWithApproval (platform tool : string) (args : gomap) (businessID approvalID : string)
    : prog E (ToolResponse * option goerr) :=
  call! taskID := newID in
  call! reply := request (Subject platform) (tool_request taskID tool args businessID approvalID) in
  Ret (read_reply platform reply).

Definition dispatchTool (platform tool : string) (args : gomap) (businessID : string)
    : prog E (ToolResponse * option goerr) :=
  dispatchToolWithApproval platform tool args businessID "".

(** Whatever a monotone logic allows of the two calls it allows of a dispatch. *)
Lemma wp_dispatch {S} (spec : ∀ B, E B → S → (B → S → Prop) → Prop) platform tool args businessID approvalID
    (Q : ToolResponse * option goerr → S → Prop) s :
  monotone spec →
  spec _ newID s (λ taskID s1,
    spec _ (request (Subject platform) (tool_request taskID tool args businessID approvalID)) s1
      (λ reply, Q (read_reply platform reply))) →
  wp spec (dispatchToolWithApproval platform tool args businessID approvalID) Q s.
Proof. intros Hm. cbn. apply Hm. intros taskID s1. by apply Hm. Qed.
End dispatch.
