(* ===== verification/Envelope.v ===== *)
(** * Envelope encryption of stored tokens

    [pkg/crypto/envelope.go] and [crypto.go].  Bytes are strings; a nil [wrappedDEK]
    is [None]; [sha256_hex] stands for [hex(sha256(s))].  AES-GCM and the key
    service are outside the repository: [Gcm] is the cipher with its correctness,
    [Kms] states what [KMSEncrypter] asks of an implementation, that a wrapped key
    opens under the associated data it was wrapped with and under no other.  The
    operations are programs (Prog.v) over the random source and the key service.
    Wiping a buffer leaves no trace in the model. *)

From S2P Require Import Prelude Json Types A2A Prog.
Local Open Scope go_scope.

Class Gcm := {
  gcm_seal : string → string → string → string → string;
  gcm_open : string → string → string → string → option string;
  gcm_open_seal : ∀ key nonce plaintext aad,
    gcm_open key nonce (gcm_seal key nonce plaintext aad) aad = Some plaintext;
}.

(** [wraps w dek aad]: the service answers [w] when it wraps [dek] under [aad]. *)
Class Kms := {
  wraps : string → string → string → Prop;
  wraps_once : ∀ w dek aad dek' aad', wraps w dek aad → wraps w dek' aad' → dek = dek' ∧ aad = aad';
}.

Inductive CryptoCall : Type → Type :=
| RandC (n : nat) : CryptoCall (result goerr string)
| KmsEncryptC (plaintext aad : string) : CryptoCall (result goerr (string * string))
| KmsDecryptC (ciphertext aad : string) : CryptoCall (result goerr (string * string)).

Inductive CryptoError :=
| ErrLegacyKeyNotConfigured
| ErrUnmappedKMSVersion (version : string)
| ErrInvalidCiphertext
| ErrKeyLength
| ErrAuthentication
| CryptoCause (e : goerr)
| CryptoWrap (op : string) (e : CryptoError).

Definition AES256KeyLen : nat := 32.
Definition gcmNonceSize : nat := 12.

Record Envelope := {
  ev_kms : bool;
  ev_legacy : option string;
  ev_fingerprint : string;
  ev_version_map : gmap string Z;
}.

Notation prog := (Prog.prog CryptoCall).
Definition wrap_err {A} (op : string) (r : result CryptoError A) : result CryptoError A :=
  match r with Ok a => Ok a | Err e => Err (CryptoWrap op e) end.

Section envelope.
Context {U : UUIDText} {G : Gcm}.
Variable sha256_hex : string → string.

(** ** crypto.go *)

Definition NewEncryptor (key : string) : result CryptoError string :=
  if negb (String.length key =? AES256KeyLen) then Err ErrKeyLength else Ok key.

Definition Encrypt (legacy plaintext : string) : prog (result CryptoError string) :=
  call! r := RandC gcmNonceSize in
  Ret (match r with
       | Err e => Err (CryptoWrap "generate nonce" (CryptoCause e))
       | Ok nonce => Ok (nonce +:+ gcm_seal legacy nonce plaintext "")
       end).

Definition Decrypt (legacy ciphertext : string) : result CryptoError string :=
  if String.length ciphertext <? gcmNonceSize then Err ErrInvalidCiphertext
  else
    match gcm_open legacy (str_take gcmNonceSize ciphertext) (str_drop gcmNonceSize ciphertext) "" with
    | None => Err (CryptoWrap "decrypt" ErrAuthentication)
    | Some plaintext => Ok plaintext
    end.

(** ** envelope.go *)

Definition NewEnvelope (kms : bool) (legacy : option string) (kmsKeyID : string) (versionMap : option (gmap string Z))
    : Envelope :=
  {| ev_kms := kms; ev_legacy := legacy; ev_fingerprint := sha256_hex kmsKeyID; ev_version_map := default ∅ versionMap |}.

Definition envelopeAAD (integrationID : uuid) (platform : string) : string :=
  uuid_string integrationID +:+ "|" +:+ platform.

(** [aes.NewCipher] takes keys of three lengths. *)
Definition aes_key (key : string) : bool := bool_decide (String.length key ∈ [16; 24; 32]).

Definition aeadSeal (key plaintext aad : string) : prog (result CryptoError string) :=
  if negb (aes_key key) then Ret (Err ErrKeyLength)
  else
    call! r := RandC gcmNonceSize in
    Ret (match r with
         | Err e => Err (CryptoWrap "nonce" (CryptoCause e))
         | Ok nonce => Ok (nonce +:+ gcm_seal key nonce plaintext aad)
         end).

Definition aeadOpen (key ciphertext aad : string) : result CryptoError string :=
  if negb (aes_key key) then Err ErrKeyLength
  else if String.length ciphertext <? gcmNonceSize then Err ErrInvalidCiphertext
  else
    match gcm_open key (str_take gcmNonceSize ciphertext) (str_drop gcmNonceSize ciphertext) aad with
    | None => Err (CryptoWrap "open" ErrAuthentication)
    | Some plaintext => Ok plaintext
    end.

Definition resolveVersion (e : Envelope) (versionStr : string) : Z := default 0%Z (ev_version_map e !! versionStr).

Definition resolveVersionForEncrypt (e : Envelope) (versionStr : string) : result CryptoError Z :=
  match ev_version_map e !! versionStr with
  | Some v => Ok v
  | None => if negb (String.eqb versionStr "") then Err (ErrUnmappedKMSVersion versionStr) else Ok 0%Z
  end.

(** Each non-empty plaintext sealed by [seal]; an empty one has no ciphertext. *)
Fixpoint seal_each (seal : string → prog (result CryptoError string)) (op : string) (plaintexts : list string)
    : prog (result CryptoError (list string)) :=
  match plaintexts with
  | [] => Ret (Ok [])
  | pt :: pts =>
      ok! ct := (if String.eqb pt "" then Ret (Ok "") else sub! r := seal pt in Ret (wrap_err op r)) in
      ok! cts := seal_each seal op pts in
      Ret (Ok (ct :: cts))
  end.

(** The ciphertexts, the wrapped key, its version and its fingerprint. *)
Definition Sealed : Type := list string * option string * Z * string.

Definition EncryptForRow (e : Envelope) (integrationID : uuid) (platform : string) (plaintexts : list string)
    : prog (result CryptoError Sealed) :=
  if negb (ev_kms e) then
    match ev_legacy e with
    | None => Ret (Err ErrLegacyKeyNotConfigured)
    | Some legacy =>
        ok! cts := seal_each (Encrypt legacy) "crypto: legacy encrypt" plaintexts in
        Ret (Ok (cts, None, 0%Z, ""))
    end
  else
    call! dek := RandC AES256KeyLen in
    match dek with
    | Err err => Ret (Err (CryptoWrap "crypto: dek gen" (CryptoCause err)))
    | Ok dek =>
        let aad := envelopeAAD integrationID platform in
        call! wrapped := KmsEncryptC dek aad in
        match wrapped with
        | Err err => Ret (Err (CryptoWrap "crypto: kms wrap" (CryptoCause err)))
        | Ok (wrapped, versionStr) =>
            ok! cts := seal_each (λ pt, aeadSeal dek pt aad) "crypto: aead seal" plaintexts in
            Ret (match resolveVersionForEncrypt e versionStr with
                 | Err err => Err err
                 | Ok ver => Ok (cts, Some wrapped, ver, ev_fingerprint e)
                 end)
        end
    end.

Definition EncryptToken (e : Envelope) (integrationID : uuid) (platform plaintext : string)
    : prog (result CryptoError (string * string * Z * string)) :=
  call! dek := RandC AES256KeyLen in
  match dek with
  | Err err => Ret (Err (CryptoWrap "crypto: dek gen" (CryptoCause err)))
  | Ok dek =>
      let aad := envelopeAAD integrationID platform in
      call! wrapped := KmsEncryptC dek aad in
      match wrapped with
      | Err err => Ret (Err (CryptoWrap "crypto: kms wrap" (CryptoCause err)))
      | Ok (wrapped, versionStr) =>
          sub! ct := aeadSeal dek plaintext aad in
          Ret (let? ct := wrap_err "crypto: aead seal" ct in
               let? ver := resolveVersionForEncrypt e versionStr in
               Ok (ct, wrapped, ver, ev_fingerprint e))
      end
  end.

Definition DecryptToken (e : Envelope) (integrationID : uuid) (platform ciphertext : string) (wrappedDEK : option string)
    : prog (result CryptoError (string * Z)) :=
  match wrappedDEK with
  | None =>
      Ret (match ev_legacy e with
           | None => Err ErrLegacyKeyNotConfigured
           | Some legacy =>
               let? pt := wrap_err "crypto: legacy decrypt" (Decrypt legacy ciphertext) in Ok (pt, 0%Z)
           end)
  | Some wrapped =>
      let aad := envelopeAAD integrationID platform in
      call! r := KmsDecryptC wrapped aad in
      Ret (match r with
           | Err err => Err (CryptoWrap "crypto: kms unwrap" (CryptoCause err))
           | Ok (dek, versionStr) =>
               let? pt := wrap_err "crypto: aead open" (aeadOpen dek ciphertext aad) in
               Ok (pt, resolveVersion e versionStr)
           end)
  end.

(** Each non-empty ciphertext opened. *)
Fixpoint open_each (dek aad : string) (ciphertexts : list string) : result CryptoError (list string) :=
  match ciphertexts with
  | [] => Ok []
  | ct :: cts =>
      let? pt := (if String.eqb ct "" then Ok "" else wrap_err "crypto: aead open" (aeadOpen dek ct aad)) in
      let? pts := open_each dek aad cts in
      Ok (pt :: pts)
  end.

(** A nil [wrappedDEK] is handed to the key service as it is. *)
Definition DecryptForRow (e : Envelope) (integrationID : uuid) (platform : string) (ciphertexts : list string)
    (wrappedDEK : option string) : prog (result CryptoError (list string * Z)) :=
  let aad := envelopeAAD integrationID platform in
  call! r := KmsDecryptC (default "" wrappedDEK) aad in
  Ret (match r with
       | Err err => Err (CryptoWrap "crypto: kms unwrap" (CryptoCause err))
       | Ok (dek, versionStr) =>
           let? pts := open_each dek aad ciphertexts in Ok (pts, resolveVersion e versionStr)
       end).

(** ** What a stored ciphertext holds *)
Context {K : Kms}.

(** How the random source and the key service answer. *)
Definition crypto_ans B (c : CryptoCall B) : B → Prop :=
  match c in CryptoCall B return B → Prop with
  | RandC n => λ r, ∀ s, r = Ok s → String.length s = n
  | KmsEncryptC plaintext aad => λ r, ∀ w v, r = Ok (w, v) → wraps w plaintext aad
  | KmsDecryptC ciphertext aad => λ r, ∀ p v, r = Ok (p, v) → wraps ciphertext p aad
  end.

(** [ct], stored for the row beside [wrapped], holds [pt]. *)
Definition holds (e : Envelope) (integrationID : uuid) (platform : string) (wrapped : option string) (ct pt : string) : Prop :=
  match wrapped with
  | None => ∃ legacy, ev_legacy e = Some legacy ∧ Decrypt legacy ct = Ok pt
  | Some w => ∃ dek, wraps w dek (envelopeAAD integrationID platform)
      ∧ aeadOpen dek ct (envelopeAAD integrationID platform) = Ok pt
  end.

Notation does p Q := (wp (plain_spec crypto_ans (λ _ _, True)) p (λ r _, Q r) tt).

Lemma does_bind {A B} (p : prog A) (f : A → prog B) Q : does p (λ a, does (f a) Q) → does (prog_bind p f) Q.
Proof.
  intros Hp. apply wp_bind; [apply plain_spec_mono|]. eapply wp_mono; [apply plain_spec_mono| |exact Hp].
  by intros a [].
Qed.

Lemma does_mono {A} (p : prog A) (Q Q' : A → Prop) : (∀ a, Q a → Q' a) → does p Q → does p Q'.
Proof. intros HQ. apply wp_mono; [apply plain_spec_mono|auto]. Qed.

Lemma nonce_split nonce ct : String.length nonce = gcmNonceSize →
  String.length (nonce +:+ ct) <? gcmNonceSize = false
  ∧ str_take gcmNonceSize (nonce +:+ ct) = nonce ∧ str_drop gcmNonceSize (nonce +:+ ct) = ct.
Proof.
  intros Hn. split; [apply Nat.ltb_ge; rewrite str_app_length; lia|].
  rewrite <- Hn. split; [apply str_take_app|apply str_drop_app].
Qed.

(** What a sealed plaintext opens to. *)
Lemma Encrypt_opens legacy pt :
  does (Encrypt legacy pt) (λ r, ∀ ct, r = Ok ct → ct ≠ "" ∧ Decrypt legacy ct = Ok pt).
Proof.
  split; [done|]. intros [nonce|err] Ha; cbn; [|done]. intros ct [= <-]. pose proof (Ha _ eq_refl) as Hn.
  destruct (nonce_split nonce (gcm_seal legacy nonce pt "") Hn) as (Hl & Ht & Hd).
  split; [by intros Hc; apply (f_equal String.length) in Hc; rewrite str_app_length, Hn in Hc|].
  unfold Decrypt. by rewrite Hl, Ht, Hd, gcm_open_seal.
Qed.

Lemma aeadSeal_opens key pt aad :
  does (aeadSeal key pt aad) (λ r, ∀ ct, r = Ok ct → ct ≠ "" ∧ aeadOpen key ct aad = Ok pt).
Proof.
  unfold aeadSeal, aeadOpen. destruct (negb (aes_key key)); [done|].
  split; [done|]. intros [nonce|err] Ha; cbn [wp]; [|done]. intros ct [= <-]. pose proof (Ha _ eq_refl) as Hn.
  destruct (nonce_split nonce (gcm_seal key nonce pt aad) Hn) as (Hl & Ht & Hd).
  split; [by intros Hc; apply (f_equal String.length) in Hc; rewrite str_app_length, Hn in Hc|].
  by rewrite Hl, Ht, Hd, gcm_open_seal.
Qed.

(** A ciphertext column: empty for an empty plaintext, else one that opens to it. *)
Definition column_of (opens : string → string → Prop) (pt ct : string) : Prop :=
  (pt = "" ∧ ct = "") ∨ (pt ≠ "" ∧ ct ≠ "" ∧ opens ct pt).

Lemma seal_each_opens (seal : string → prog (result CryptoError string)) (opens : string → string → Prop) op pts :
  (∀ pt, does (seal pt) (λ r, ∀ ct, r = Ok ct → ct ≠ "" ∧ opens ct pt)) →
  does (seal_each seal op pts) (λ r, ∀ cts, r = Ok cts → Forall2 (column_of opens) pts cts).
Proof.
  intros Hs. induction pts as [|pt pts IH]; [by intros cts [= <-]; constructor|]. cbn [seal_each]. apply does_bind.
  assert (does (if String.eqb pt "" then Ret (Ok "") else sub! r := seal pt in Ret (wrap_err op r))
            (λ r, ∀ ct, r = Ok ct → column_of opens pt ct)) as Hc.
  { destruct (String.eqb_spec pt "") as [->|Hne]; [by intros ct [= <-]; left|].
    apply does_bind. eapply does_mono; [|apply Hs]. intros [ct|err] Hr; cbn; [|done].
    intros ct' [= <-]. right. split; [done|]. by apply Hr. }
  eapply does_mono; [|exact Hc]. intros [ct|err] Hct; [|done]. apply does_bind.
  eapply does_mono; [|exact IH]. intros [cts|err] Hcts; [|done]. intros cts' [= <-]. constructor; auto.
Qed.

Lemma EncryptForRow_holds e id platform pts :
  does (EncryptForRow e id platform pts)
    (λ r, ∀ cts w ver fp, r = Ok (cts, w, ver, fp) → Forall2 (column_of (holds e id platform w)) pts cts).
Proof.
  unfold EncryptForRow. destruct (negb (ev_kms e)).
  - destruct (ev_legacy e) as [legacy|] eqn:El; [|done]. apply does_bind.
    eapply does_mono; [|apply (seal_each_opens _ (holds e id platform None))].
    + intros [cts|err] Hc; [|done]. intros ? ? ? ? [= <- <- <- <-]. auto.
    + intros pt. eapply does_mono; [|apply Encrypt_opens]. intros r Hr ct ->. destruct (Hr ct eq_refl). cbn. eauto.
  - split; [done|]. intros [dek|err] _; [|done]. split; [done|]. intros [[w v]|err] Hw; [|done]. apply does_bind.
    eapply does_mono; [|apply (seal_each_opens _ (holds e id platform (Some w)))].
    + intros [cts|err] Hc; [|done]. destruct (resolveVersionForEncrypt e v); cbn; [|done].
      intros ? ? ? ? [= <- <- <- <-]. auto.
    + intros pt. eapply does_mono; [|apply aeadSeal_opens]. intros r Hr ct ->. destruct (Hr ct eq_refl).
      split; [done|]. exists dek. split; [|done]. by eapply Hw.
Qed.

(** There is a wrapped key exactly when a key service is configured. *)
Lemma EncryptForRow_mode e id platform pts :
  does (EncryptForRow e id platform pts)
    (λ r, ∀ cts w ver fp, r = Ok (cts, w, ver, fp) → if ev_kms e then is_Some w else w = None).
Proof.
  assert (∀ seal op (Q : result CryptoError (list string) → Prop), (∀ pt, does (seal pt) (λ _, True)) → (∀ r, Q r) → does (seal_each seal op pts) Q) as Hany.
  { intros seal op Q Hs HQ. revert Q HQ. induction pts as [|pt l IH]; intros Q HQ; cbn [seal_each]; [apply HQ|]. apply does_bind.
    eapply (does_mono _ (λ _, True)).
    - intros [ct|e'] _; [|apply HQ]. apply does_bind, IH. intros [cts|e']; apply HQ.
    - destruct (String.eqb pt ""); [done|]. apply does_bind. by eapply does_mono; [|apply Hs]. }
  unfold EncryptForRow. destruct (ev_kms e); cbn [negb].
  - split; [done|]. intros [dek|err] _; [|done]. split; [done|]. intros [[w v]|err] _; [|done]. apply does_bind, Hany.
    + intros pt. eapply does_mono; [|apply aeadSeal_opens]. done.
    + intros [cts|err]; [|done]. destruct (resolveVersionForEncrypt e v); cbn; [|done]. intros ? ? ? ? [= <- <- <- <-]. by exists w.
  - destruct (ev_legacy e) as [legacy|]; [|done]. apply does_bind, Hany.
    + intros pt. eapply does_mono; [|apply Encrypt_opens]. done.
    + intros [cts|err]; [|done]. by intros ? ? ? ? [= <- <- <- <-].
Qed.

Lemma DecryptToken_holds e id platform ct w :
  does (DecryptToken e id platform ct w) (λ r, ∀ pt ver, r = Ok (pt, ver) → holds e id platform w ct pt).
Proof.
  unfold DecryptToken. destruct w as [w|].
  - split; [done|]. intros [[dek v]|err] Hk; cbn; [|done]. specialize (Hk dek v eq_refl).
    destruct (aeadOpen dek ct (envelopeAAD id platform)) as [pt|err] eqn:Eo; cbn; [|done].
    intros ? ? [= <- <-]. by exists dek.
  - cbn. destruct (ev_legacy e) as [legacy|] eqn:El; [|done].
    destruct (Decrypt legacy ct) as [pt|err] eqn:Ed; cbn; [|done]. intros ? ? [= <- <-]. by exists legacy.
Qed.

Lemma open_each_holds dek aad cts pts : open_each dek aad cts = Ok pts →
  Forall2 (λ ct pt, (ct = "" ∧ pt = "") ∨ (ct ≠ "" ∧ aeadOpen dek ct aad = Ok pt)) cts pts.
Proof.
  revert pts. induction cts as [|ct cts IH]; intros pts; cbn; [intros [= <-]; constructor|].
  destruct (String.eqb_spec ct "") as [->|Hne]; cbn.
  - destruct (open_each dek aad cts) as [l|]; cbn; [|done]. intros [= <-]. constructor; auto.
  - destruct (aeadOpen dek ct aad) as [pt|] eqn:E; cbn; [|done].
    destruct (open_each dek aad cts) as [l|]; cbn; [|done]. intros [= <-]. constructor; auto.
Qed.

Lemma DecryptForRow_holds e id platform cts w :
  does (DecryptForRow e id platform cts (Some w))
    (λ r, ∀ pts ver, r = Ok (pts, ver) →
      Forall2 (λ ct pt, (ct = "" ∧ pt = "") ∨ (ct ≠ "" ∧ holds e id platform (Some w) ct pt)) cts pts).
Proof.
  split; [done|]. intros [[dek v]|err] Hk; cbn; [|done]. specialize (Hk dek v eq_refl).
  destruct (open_each dek _ cts) as [l|] eqn:E; cbn; [|done]. intros ? ? [= <- <-].
  eapply Forall2_impl; [by apply open_each_holds|]. intros ct pt [?|[? ?]]; [by left|right]. split; [done|]. by exists dek.
Qed.

(** A stored ciphertext holds one plaintext. *)
Lemma holds_once e id platform w ct pt pt' :
  holds e id platform w ct pt → holds e id platform w ct pt' → pt = pt'.
Proof.
  destruct w as [w|]; cbn; [|intros (l & Hl & H1) (l' & Hl' & H2); congruence]. intros (dek & Hw & Ho) (dek' & Hw' & Ho').
  destruct (wraps_once _ _ _ _ _ Hw Hw') as [<- _]. congruence.
Qed.

(** A key wrapped for one row is wrapped for no other. *)
Lemma envelopeAAD_inj id platform id' platform' :
  envelopeAAD id platform = envelopeAAD id' platform' → id = id' ∧ platform = platform'.
Proof. apply (uuid_string_sep "|"%char). done. Qed.

Lemma holds_row e id platform id' platform' w ct pt ct' pt' :
  holds e id platform (Some w) ct pt → holds e id' platform' (Some w) ct' pt' → id = id' ∧ platform = platform'.
Proof.
  intros (dek & Hw & _) (dek' & Hw' & _). apply envelopeAAD_inj. by destruct (wraps_once _ _ _ _ _ Hw Hw').
Qed.

(** Answers that keep to [crypto_ans]. *)
Definition faithful (h : nat → ∀ B, CryptoCall B → B) : Prop := ∀ n B c, crypto_ans B c (h n B c).

Lemma does_exec h {A} (p : prog A) Q n : faithful h → does p Q → Q (exec h n p).1.
Proof.
  intros Hh Hp. apply (exec_wp h (λ _ _, True) p Q n).
  eapply wp_weaken; [| |exact Hp]; [|done]. intros B c [] P P' HK [_ Ha]. split; [done|].
  intros b [m <-]. by apply HK, Ha.
Qed.

(** The key service answered with an error. *)
Definition kms_refused (h : nat → ∀ B, CryptoCall B → B) (n : nat) (w aad : string) : Prop :=
  ∃ err, h n _ (KmsDecryptC w aad) = Err err.

(** Opening is complete: only the key service can stand in the way. *)
Lemma DecryptToken_opens e h n id platform w ct pt : faithful h → holds e id platform w ct pt →
  (∃ ver, (exec h n (DecryptToken e id platform ct w)).1 = Ok (pt, ver))
  ∨ ∃ wrapped, w = Some wrapped ∧ kms_refused h n wrapped (envelopeAAD id platform).
Proof.
  intros Hh. destruct w as [w|]; cbn.
  - intros (dek & Hw & Ho). specialize (Hh n _ (KmsDecryptC w (envelopeAAD id platform))) as Ha. cbn in Ha.
    destruct (h n _ (KmsDecryptC w (envelopeAAD id platform))) as [[dek' v]|err] eqn:E; [|right; exists w; split; [done|by exists err]].
    destruct (wraps_once _ _ _ _ _ Hw (Ha _ _ eq_refl)) as [<- _]. left. rewrite Ho. cbn. eauto.
  - intros (legacy & -> & Hd). left. rewrite Hd. cbn. eauto.
Qed.

(** C34: What [EncryptForRow] sealed for one integration, [DecryptToken] opens for
    that integration to exactly the token that was sealed, unless the key service
    refuses, whatever the random source and the key service answer.  With a key service
    configured it opens nothing for any other integration or platform; without one there
    is no wrapped key, and the old key opens the ciphertext for every row. *)
Theorem sealed_for_one_row (e : Envelope) (h h' : nat → ∀ B, CryptoCall B → B) n n' id platform pts cts w ver fp i pt ct :
  faithful h → faithful h' →
  (exec h n (EncryptForRow e id platform pts)).1 = Ok (cts, w, ver, fp) →
  pts !! i = Some pt → cts !! i = Some ct →
  if String.eqb pt "" then ct = ""
  else
    ((∃ ver', (exec h' n' (DecryptToken e id platform ct w)).1 = Ok (pt, ver'))
      ∨ ∃ wrapped, w = Some wrapped ∧ kms_refused h' n' wrapped (envelopeAAD id platform))
    ∧ if ev_kms e then
        is_Some w ∧ ∀ id' platform', (id', platform') ≠ (id, platform) →
          is_ok (exec h' n' (DecryptToken e id' platform' ct w)).1 = false
      else w = None ∧ ∀ id' platform', (exec h' n' (DecryptToken e id' platform' ct w)).1 = Ok (pt, 0%Z).
Proof.
  intros Hh Hh' He Hp Hc. pose proof (does_exec h _ _ n Hh (EncryptForRow_holds e id platform pts) _ _ _ _ He) as Hall.
  destruct (Forall2_lookup_lr _ _ _ _ _ _ Hall Hp Hc) as [[-> ->]|(Hne & _ & Ho)]; [done|].
  destruct (String.eqb_spec pt "") as [|_]; [done|]. split; [by apply DecryptToken_opens|].
  pose proof (does_exec h _ _ n Hh (EncryptForRow_mode e id platform pts) _ _ _ _ He) as Hmode.
  destruct (ev_kms e); [|subst w; split; [done|]; intros id' platform'; destruct Ho as (legacy & Hl & Hd); cbn; by rewrite Hl, Hd].
  destruct Hmode as [wrapped ->]. split; [by exists wrapped|]. intros id' platform' Hrow.
  destruct (exec h' n' (DecryptToken e id' platform' ct (Some wrapped))).1 as [[pt' ver']|err] eqn:E; [|done].
  pose proof (does_exec h' _ _ n' Hh' (DecryptToken_holds e id' platform' ct (Some wrapped)) _ _ E) as Ho'.
  destruct (holds_row _ _ _ _ _ _ _ _ _ _ Ho Ho') as [<- <-]. done.
Qed.
End envelope.

(** ** A concrete cipher and key service *)

#[local] Existing Instance json_text.

Definition demo_seal (key nonce aad plaintext : string) : string :=
  json_marshal (GArr [GStr key; GStr nonce; GStr aad; GStr plaintext]).

Definition demo_open (key nonce ct aad : string) : option string :=
  match json_unmarshal ct with
  | Some (GArr [GStr key'; GStr nonce'; GStr aad'; GStr plaintext]) =>
      if String.eqb key key' && String.eqb nonce nonce' && String.eqb aad aad' then Some plaintext else None
  | _ => None
  end.

Program Definition demo_gcm : Gcm := {|
  gcm_seal key nonce plaintext aad := demo_seal key nonce aad plaintext;
  gcm_open := demo_open;
|}.
Next Obligation.
  intros key nonce plaintext aad. unfold demo_open, demo_seal. rewrite json_roundtrip. by rewrite !String.eqb_refl.
Qed.

Definition demo_wrap (dek aad : string) : string := json_marshal (GArr [GStr dek; GStr aad]).

Program Definition demo_kms : Kms := {| wraps w dek aad := w = demo_wrap dek aad |}.
Next Obligation.
  intros w dek aad dek' aad' -> Heq. apply (f_equal json_unmarshal) in Heq. unfold demo_wrap in Heq.
  rewrite !json_roundtrip in Heq. by injection Heq as -> ->.
Qed.

Fixpoint demo_zeros (n : nat) : string :=
  match n with O => "" | S n => String "0" (demo_zeros n) end.

Definition demo_unwrap (w aad : string) : result goerr (string * string) :=
  match json_unmarshal w with
  | Some (GArr [GStr dek; GStr aad']) =>
      if String.eqb w (demo_wrap dek aad) then Ok (dek, "v1") else Err (EText "kms: access denied")
  | _ => Err (EText "kms: access denied")
  end.

(** A service that answers every call. *)
Definition demo_crypto B (c : CryptoCall B) : B :=
  match c in CryptoCall B return B with
  | RandC n => Ok (demo_zeros n)
  | KmsEncryptC plaintext aad => Ok (demo_wrap plaintext aad, "v1")
  | KmsDecryptC ciphertext aad => demo_unwrap ciphertext aad
  end.

Lemma demo_crypto_faithful : faithful (K := demo_kms) (λ _, demo_crypto).
Proof.
  intros n B [m|pt aad|w aad]; cbn.
  - intros s [= <-]. induction m as [|m IH]; [done|]. cbn. by rewrite IH.
  - by intros w v [= <- <-].
  - unfold demo_unwrap. intros p v. destruct (json_unmarshal w) as [[]|]; try done.
    repeat match goal with |- context [match ?l with [] => _ | _ :: _ => _ end] => destruct l; try done
           | |- context [match ?g with GStr _ => _ | _ => _ end] => destruct g; try done end.
    destruct (String.eqb_spec w (demo_wrap s aad)); [|done]. by intros [= <- <-].
Qed.

Definition demo_envelope : Envelope := NewEnvelope (λ s, s) true None "key" (Some {["v1" := 1%Z]}).

Lemma sealed_for_one_row_witness :
  let seal := exec (λ _, demo_crypto) 0 (EncryptForRow (U := decimal_uuid) (G := demo_gcm) demo_envelope 7%N "vk" ["token"; ""]) in
  match seal.1 with
  | Ok (ct :: _, w, _, _) =>
      (exec (λ _, demo_crypto) 0 (DecryptToken (U := decimal_uuid) (G := demo_gcm) demo_envelope 7%N "vk" ct w)).1 = Ok ("token", 1%Z)
      ∧ is_ok (exec (λ _, demo_crypto) 0 (DecryptToken (U := decimal_uuid) (G := demo_gcm) demo_envelope 8%N "vk" ct w)).1 = false
  | _ => False
  end.
Proof.
  pose proof (λ cts w ver fp ct He Hc,
    sealed_for_one_row (U := decimal_uuid) (G := demo_gcm) (K := demo_kms) demo_envelope (λ _, demo_crypto) (λ _, demo_crypto)
      0 0 7%N "vk" ["token"; ""] cts w ver fp 0 "token" ct demo_crypto_faithful demo_crypto_faithful He eq_refl Hc) as H.
  cbn zeta. destruct (exec _ _ _).1 as [[[[cts w] ver] fp]|err] eqn:E; [|by vm_compute in E].
  destruct cts as [|ct cts]; [by vm_compute in E|]. specialize (H _ _ _ _ ct eq_refl eq_refl). cbn [String.eqb] in H.
  split.
  - vm_compute in E. injection E as <- _ <- _ _. vm_compute. reflexivity.
  - by apply (proj2 H).
Defined.
