(* ===== verification/IntegrationStore.v ===== *)
(** * The integrations table

    [services/api/internal/repository/integration.go]: the statements it sends and
    the methods over them.  Postgres is outside the repository; [run_sql] is what the
    text of each statement denotes on a table of rows, the partial unique index
    [uq_integrations_active] of [migrations/postgres/000020] included, and [step_sql]
    what a client may rely on: a statement is atomic, an unordered result comes in any
    order, a lost connection leaves a write done or not done.  [updated_at] is stamped
    by the table's trigger, whatever a statement sets.  A method is a program over its
    statements and the clock. *)

From S2P Require Import Prelude Json GoTime Types Prog.
Local Open Scope go_scope.

Definition IntegrationStatusActive : string := "active".
Definition IntegrationStatusTokenExpired : string := "token_expired".

(** [domain.Integration]; an absent ciphertext is [""]. *)
Record Integration := {
  in_id : uuid;
  in_business_id : uuid;
  in_platform : string;
  in_status : string;
  in_access : string;
  in_refresh : string;
  in_user : string;
  in_external_id : string;
  in_metadata : list (string * gval);
  in_token_expires_at : option Z;
  in_user_token_expires_at : option Z;
  in_created_at : Z;
  in_updated_at : Z;
  in_wrapped_dek : option string;
  in_key_version : Z;
  in_fingerprint : string;
}.

#[export] Instance Integration_eq_dec : EqDecision Integration.
Proof. solve_decision. Defined.

(** The row beside its tombstone [deleted_at]. *)
Record Row := { row_integration : Integration; row_deleted_at : option Z }.

#[export] Instance Row_eq_dec : EqDecision Row.
Proof. solve_decision. Defined.

Notation table := (gmap uuid Row).

Inductive PgError := PgUnique | PgFailed.

Inductive SqlCall : Type → Type :=
| InsertC (i : Integration) : SqlCall unit
| SelectByIDC (id : uuid) : SqlCall (option Integration)
| SelectByBusinessPlatformC (businessID : uuid) (platform : string) : SqlCall (list Integration)
| SelectByExternalC (businessID : uuid) (platform externalID : string) : SqlCall (list Integration)
| SelectClaimantC (platform externalID : string) : SqlCall (list Integration)
| SelectByBusinessC (businessID : uuid) : SqlCall (list Integration)
| SelectActiveC (platforms : list string) : SqlCall (list Integration)
| ExistsC (businessID : uuid) (platform externalID : string) : SqlCall bool
| UpdateC (i : Integration) : SqlCall nat
| SetMetadataC (id : uuid) (metadata : list (string * gval)) : SqlCall nat
| SetMetadataKeysC (id : uuid) (keys : list (string * gval)) : SqlCall nat
| SetExternalIDC (id : uuid) (externalID : string) : SqlCall nat
| DeleteC (id : uuid) : SqlCall nat
| SoftDeleteC (id : uuid) (at_ : Z) : SqlCall nat
| PurgeC (cutoff : Z) : SqlCall nat
| MarkExpiredC (businessID : uuid) (platform externalID : string) : SqlCall nat.

Definition row_active (r : Row) : bool := negb (bool_decide (is_Some (row_deleted_at r))).

(** The rows of [activeQuery] that satisfy [p]. *)
Definition active_rows (p : Integration → bool) (t : table) : list Integration :=
  row_integration <$> filterb (λ r, row_active r && p (row_integration r)) (map_to_list t).*2.

Definition at_coordinates (businessID : uuid) (platform externalID : string) (i : Integration) : bool :=
  bool_decide (in_business_id i = businessID) && String.eqb (in_platform i) platform
  && String.eqb (in_external_id i) externalID.

(** Another active row stands where [i] would. *)
Definition taken (i : Integration) (t : table) : bool :=
  existsb (λ j, negb (bool_decide (in_id j = in_id i)))
    (active_rows (at_coordinates (in_business_id i) (in_platform i) (in_external_id i)) t).

Definition row_of (id : uuid) (t : table) : option Integration :=
  match t !! id with Some r => if row_active r then Some (row_integration r) else None | None => None end.

Definition put (i : Integration) (t : table) : table :=
  <[in_id i := {| row_integration := i; row_deleted_at := None |}]> t.

(** An [UPDATE ... WHERE id = $1 AND deleted_at IS NULL]. *)
Definition update_row (id : uuid) (f : Integration → Integration) (t : table) : result PgError nat * table :=
  match row_of id t with
  | None => (Ok 0, t)
  | Some i => if taken (f i) t then (Err PgUnique, t) else (Ok 1, put (f i) t)
  end.

Definition set_metadata (now : Z) (metadata : list (string * gval)) (i : Integration) : Integration :=
  {| in_id := in_id i; in_business_id := in_business_id i; in_platform := in_platform i; in_status := in_status i;
     in_access := in_access i; in_refresh := in_refresh i; in_user := in_user i; in_external_id := in_external_id i;
     in_metadata := metadata; in_token_expires_at := in_token_expires_at i;
     in_user_token_expires_at := in_user_token_expires_at i; in_created_at := in_created_at i; in_updated_at := now;
     in_wrapped_dek := in_wrapped_dek i; in_key_version := in_key_version i; in_fingerprint := in_fingerprint i |}.

Definition set_external_id (now : Z) (externalID : string) (i : Integration) : Integration :=
  {| in_id := in_id i; in_business_id := in_business_id i; in_platform := in_platform i; in_status := in_status i;
     in_access := in_access i; in_refresh := in_refresh i; in_user := in_user i; in_external_id := externalID;
     in_metadata := in_metadata i; in_token_expires_at := in_token_expires_at i;
     in_user_token_expires_at := in_user_token_expires_at i; in_created_at := in_created_at i; in_updated_at := now;
     in_wrapped_dek := in_wrapped_dek i; in_key_version := in_key_version i; in_fingerprint := in_fingerprint i |}.

Definition set_status (now : Z) (status : string) (i : Integration) : Integration :=
  {| in_id := in_id i; in_business_id := in_business_id i; in_platform := in_platform i; in_status := status;
     in_access := in_access i; in_refresh := in_refresh i; in_user := in_user i; in_external_id := in_external_id i;
     in_metadata := in_metadata i; in_token_expires_at := in_token_expires_at i;
     in_user_token_expires_at := in_user_token_expires_at i; in_created_at := in_created_at i; in_updated_at := now;
     in_wrapped_dek := in_wrapped_dek i; in_key_version := in_key_version i; in_fingerprint := in_fingerprint i |}.

(** The columns [Update] writes, on the row [i] that is there. *)
Definition overwrite (now : Z) (n i : Integration) : Integration :=
  {| in_id := in_id i; in_business_id := in_business_id i; in_platform := in_platform i; in_status := in_status n;
     in_access := in_access n; in_refresh := in_refresh n; in_user := in_user n; in_external_id := in_external_id n;
     in_metadata := in_metadata n; in_token_expires_at := in_token_expires_at n;
     in_user_token_expires_at := in_user_token_expires_at n; in_created_at := in_created_at i; in_updated_at := now;
     in_wrapped_dek := in_wrapped_dek n; in_key_version := in_key_version n; in_fingerprint := in_fingerprint n |}.

(** [jsonb_set] of each key in turn. *)
Definition jsonb_set_keys (keys metadata : list (string * gval)) : list (string * gval) :=
  fold_left (λ m kv, obj_set kv.1 kv.2 m) keys metadata.

Definition rows_gone (p : uuid * Row → bool) (t : table) : nat * table :=
  (length (filterb p (map_to_list t)), filter (λ kr, p kr = false) t).

Definition expires (businessID : uuid) (platform externalID : string) (r : Row) : bool :=
  let i := row_integration r in
  row_active r && bool_decide (in_business_id i = businessID) && String.eqb (in_platform i) platform
  && String.eqb (in_status i) IntegrationStatusActive
  && (String.eqb externalID "" || String.eqb (in_external_id i) externalID).

(** The statement at server time [now], its rows in the order [ord]. *)
Definition run_sql (now : Z) (ord : list Integration → list Integration) {X} (c : SqlCall X) (t : table)
    : result PgError X * table :=
  match c in SqlCall X return result PgError X * table with
  | InsertC i =>
      if bool_decide (is_Some (t !! in_id i)) || taken i t then (Err PgUnique, t) else (Ok tt, put i t)
  | SelectByIDC id => (Ok (row_of id t), t)
  | SelectByBusinessPlatformC b p =>
      (Ok (ord (active_rows (λ i, bool_decide (in_business_id i = b) && String.eqb (in_platform i) p) t)), t)
  | SelectByExternalC b p e => (Ok (ord (active_rows (at_coordinates b p e) t)), t)
  | SelectClaimantC p e =>
      (Ok (ord (active_rows (λ i, String.eqb (in_status i) IntegrationStatusActive && String.eqb (in_platform i) p
                                  && String.eqb (in_external_id i) e) t)), t)
  | SelectByBusinessC b => (Ok (ord (active_rows (λ i, bool_decide (in_business_id i = b)) t)), t)
  | SelectActiveC ps =>
      (Ok (ord (active_rows (λ i, String.eqb (in_status i) IntegrationStatusActive && list_mem (in_platform i) ps) t)), t)
  | ExistsC b p e => (Ok (negb (bool_decide (active_rows (at_coordinates b p e) t = []))), t)
  | UpdateC i => update_row (in_id i) (overwrite now i) t
  | SetMetadataC id metadata => update_row id (set_metadata now metadata) t
  | SetMetadataKeysC id keys => update_row id (λ i, set_metadata now (jsonb_set_keys keys (in_metadata i)) i) t
  | SetExternalIDC id externalID => update_row id (set_external_id now externalID) t
  | DeleteC id => let '(n, t') := rows_gone (λ kr, bool_decide (kr.1 = id)) t in (Ok n, t')
  | SoftDeleteC id at_ =>
      match row_of id t with
      | None => (Ok 0, t)
      | Some i => (Ok 1, <[id := {| row_integration := i; row_deleted_at := Some at_ |}]> t)
      end
  | PurgeC cutoff =>
      let '(n, t') := rows_gone (λ kr, match row_deleted_at kr.2 with Some d => (d <? cutoff)%Z | None => false end) t in
      (Ok n, t')
  | MarkExpiredC b p e =>
      (Ok (length (filterb (λ kr, expires b p e kr.2) (map_to_list t))),
       (λ r, if expires b p e r
             then {| row_integration := set_status now IntegrationStatusTokenExpired (row_integration r);
                     row_deleted_at := row_deleted_at r |}
             else r) <$> t)
  end.

(** What the server and the connection may do of a statement. *)
Definition step_sql {X} (c : SqlCall X) (t : table) (r : result PgError X) (t' : table) : Prop :=
  ∃ now ord, (∀ l, ord l ≡ₚ l) ∧
    (run_sql now ord c t = (r, t') ∨ (r = Err PgFailed ∧ (t' = t ∨ t' = (run_sql now ord c t).2))).

(** ** The methods *)

Inductive RepoCall : Type → Type :=
| SqlC {X} (c : SqlCall X) : RepoCall (result PgError X)
| RepoNowC : RepoCall Z
| RepoIDC : RepoCall uuid.

Inductive RepoError := ErrIntegrationNotFound | ErrIntegrationExists | RepoFailed (op : string).

Notation repo := (Prog.prog RepoCall).

Definition with_times (id : uuid) (now : Z) (i : Integration) : Integration :=
  {| in_id := id; in_business_id := in_business_id i; in_platform := in_platform i; in_status := in_status i;
     in_access := in_access i; in_refresh := in_refresh i; in_user := in_user i; in_external_id := in_external_id i;
     in_metadata := in_metadata i; in_token_expires_at := in_token_expires_at i;
     in_user_token_expires_at := in_user_token_expires_at i; in_created_at := now; in_updated_at := now;
     in_wrapped_dek := in_wrapped_dek i; in_key_version := in_key_version i; in_fingerprint := in_fingerprint i |}.

(** The integration as the method leaves it. *)
Definition Create (integration : Integration) : repo (result RepoError Integration) :=
  sub! id := (if bool_decide (in_id integration = uuid_nil) then Call RepoIDC Ret else Ret (in_id integration)) in
  call! now := RepoNowC in
  let i := with_times id now integration in
  call! r := SqlC (InsertC i) in
  Ret (match r with
       | Ok _ => Ok i
       | Err PgUnique => Err ErrIntegrationExists
       | Err PgFailed => Err (RepoFailed "insert integration")
       end).

(** [QueryRow]: the first row. *)
Definition query_row (r : result PgError (list Integration)) : result RepoError Integration :=
  match r with
  | Ok [] => Err ErrIntegrationNotFound
  | Ok (i :: _) => Ok i
  | Err _ => Err (RepoFailed "query integration")
  end.

Definition query_rows (r : result PgError (list Integration)) : result RepoError (list Integration) :=
  match r with Ok l => Ok l | Err _ => Err (RepoFailed "query integrations") end.

Definition GetByID (id : uuid) : repo (result RepoError Integration) :=
  call! r := SqlC (SelectByIDC id) in
  Ret (match r with
       | Ok (Some i) => Ok i
       | Ok None => Err ErrIntegrationNotFound
       | Err _ => Err (RepoFailed "query integration")
       end).

Definition GetByBusinessAndPlatform (businessID : uuid) (platform : string) : repo (result RepoError Integration) :=
  call! r := SqlC (SelectByBusinessPlatformC businessID platform) in Ret (query_row r).

Definition GetByBusinessPlatformExternal (businessID : uuid) (platform externalID : string)
    : repo (result RepoError Integration) :=
  call! r := SqlC (SelectByExternalC businessID platform externalID) in Ret (query_row r).

Definition GetActiveByPlatformExternal (platform externalID : string) : repo (result RepoError Integration) :=
  call! r := SqlC (SelectClaimantC platform externalID) in Ret (query_row r).

Definition ListByBusinessID (businessID : uuid) : repo (result RepoError (list Integration)) :=
  call! r := SqlC (SelectByBusinessC businessID) in Ret (query_rows r).

Definition ListByBusinessAndPlatform (businessID : uuid) (platform : string) : repo (result RepoError (list Integration)) :=
  call! r := SqlC (SelectByBusinessPlatformC businessID platform) in Ret (query_rows r).

Definition ListAllActiveByPlatforms (platforms : list string) : repo (result RepoError (list Integration)) :=
  call! r := SqlC (SelectActiveC platforms) in Ret (query_rows r).

(** No row affected means that it is gone. *)
Definition affected (op : string) (r : result PgError nat) : result RepoError unit :=
  match r with
  | Err _ => Err (RepoFailed op)
  | Ok n => if n =? 0 then Err ErrIntegrationNotFound else Ok tt
  end.

Definition Update (integration : Integration) : repo (result RepoError unit) :=
  call! r := SqlC (UpdateC integration) in Ret (affected "update integration" r).

Definition UpdateMetadata (id : uuid) (metadata : list (string * gval)) : repo (result RepoError unit) :=
  call! r := SqlC (SetMetadataC id metadata) in Ret (affected "update integration metadata" r).

Definition SetMetadataKeys (id : uuid) (keys : list (string * gval)) : repo (result RepoError unit) :=
  if bool_decide (keys = []) then Ret (Ok tt)
  else call! r := SqlC (SetMetadataKeysC id keys) in Ret (affected "set integration metadata keys" r).

Definition UpdateExternalID (id : uuid) (externalID : string) : repo (result RepoError unit) :=
  call! r := SqlC (SetExternalIDC id externalID) in Ret (affected "update integration external_id" r).

Definition Delete (id : uuid) : repo (result RepoError unit) :=
  call! r := SqlC (DeleteC id) in Ret (affected "delete integration" r).

Definition SoftDelete (id : uuid) : repo (result RepoError unit) :=
  call! now := RepoNowC in
  call! r := SqlC (SoftDeleteC id now) in Ret (affected "soft-delete integration" r).

Definition DeleteOlderThan (cutoff : Z) : repo (result RepoError nat) :=
  call! r := SqlC (PurgeC cutoff) in
  Ret (match r with Ok n => Ok n | Err _ => Err (RepoFailed "purge integrations") end).

Definition markTokenExpiredWhere (businessID : uuid) (platform externalID : string) : repo (result RepoError nat) :=
  call! r := SqlC (MarkExpiredC businessID platform externalID) in
  Ret (match r with Ok n => Ok n | Err _ => Err (RepoFailed "mark token expired") end).

Definition integrationExists (businessID : uuid) (platform externalID : string) : repo (result RepoError bool) :=
  call! r := SqlC (ExistsC businessID platform externalID) in
  Ret (match r with Ok b => Ok b | Err _ => Err (RepoFailed "integration exists") end).

Definition MarkTokenExpired (businessID : uuid) (platform externalID : string) : repo (result RepoError nat) :=
  sub! r := markTokenExpiredWhere businessID platform externalID in
  match r with
  | Err e => Ret (Err e)
  | Ok n =>
      if (0 <? n) || String.eqb externalID "" then Ret (Ok n)
      else
        sub! ex := integrationExists businessID platform externalID in
        match ex with
        | Err e => Ret (Err e)
        | Ok true => Ret (Ok 0)
        | Ok false => markTokenExpiredWhere businessID platform ""
        end
  end.

(** ** Facts on the statements *)

Lemma row_of_Some id t i :
  row_of id t = Some i ↔ ∃ r, t !! id = Some r ∧ row_active r = true ∧ row_integration r = i.
Proof.
  unfold row_of. split.
  - destruct (t !! id) as [r|]; [|done]. destruct (row_active r) eqn:E; [|done]. intros [= <-]. eauto.
  - intros (r & -> & -> & ->). done.
Qed.

(** A table keeps each row under its id. *)
Definition keyed (t : table) : Prop := ∀ id r, t !! id = Some r → in_id (row_integration r) = id.

Lemma active_rows_elem p t i : keyed t →
  i ∈ active_rows p t ↔ row_of (in_id i) t = Some i ∧ p i = true.
Proof.
  intros Hk. unfold active_rows. rewrite list_elem_of_fmap, row_of_Some. split.
  - intros (r & -> & Hr). apply elem_of_filterb in Hr as [[Ha Hp]%andb_true_iff Hr].
    apply list_elem_of_fmap in Hr as ([id r'] & -> & Hin%elem_of_map_to_list). cbn in *.
    rewrite (Hk _ _ Hin). eauto.
  - intros [(r & Hr & Ha & <-) Hp]. exists r. split; [done|]. apply elem_of_filterb. split; [by rewrite Ha|].
    apply list_elem_of_fmap. exists (in_id (row_integration r), r). split; [done|]. by apply elem_of_map_to_list.
Qed.

Lemma taken_spec i t : keyed t →
  taken i t = true ↔ ∃ j, in_id j ≠ in_id i ∧ row_of (in_id j) t = Some j
    ∧ at_coordinates (in_business_id i) (in_platform i) (in_external_id i) j = true.
Proof.
  intros Hk. unfold taken. rewrite existsb_exists. setoid_rewrite <- list_elem_of_In. split.
  - intros (j & Hj & Hn). apply active_rows_elem in Hj as [Hr Hc]; [|done]. exists j.
    apply negb_true_iff, bool_decide_eq_false in Hn. done.
  - intros (j & Hn & Hr & Hc). exists j. rewrite active_rows_elem by done. split; [done|].
    by apply negb_true_iff, bool_decide_eq_false.
Qed.

(** *** What statements leave of a table *)

Lemma step_sql_table {X} (q : SqlCall X) t r t' :
  step_sql q t r t' → t' = t ∨ ∃ now ord, t' = (run_sql now ord q t).2.
Proof.
  intros (now & ord & _ & [Hr|[_ [->| ->]]]); [right; exists now, ord; by rewrite Hr|by left|right; by exists now, ord].
Qed.

Lemma keyed_put i t : keyed t → keyed (put i t).
Proof. intros Hk id r. unfold put. intros [[<- <-]|[_ Hr]]%lookup_insert_Some; [done|by apply Hk]. Qed.

Lemma update_row_table id f t : (update_row id f t).2 = t ∨ ∃ i, row_of id t = Some i ∧ (update_row id f t).2 = put (f i) t.
Proof.
  unfold update_row. destruct (row_of id t) as [i|]; [|by left]. destruct (taken (f i) t); [by left|right; eauto].
Qed.

Lemma row_of_lookup id t i : row_of id t = Some i → ∃ d, t !! id = Some {| row_integration := i; row_deleted_at := d |}.
Proof. intros ([j d] & Hl & _ & <-)%row_of_Some. by exists d. Qed.

Lemma run_sql_keyed now ord {X} (q : SqlCall X) t : keyed t → keyed (run_sql now ord q t).2.
Proof.
  intros Hk. assert (∀ id f, keyed (update_row id f t).2) as Hu.
  { intros id f. destruct (update_row_table id f t) as [->|(i & _ & ->)]; [done|by apply keyed_put]. }
  assert (∀ p, keyed (rows_gone p t).2) as Hg.
  { intros p id r Hr. cbn in Hr. apply map_lookup_filter_Some in Hr as [Hr _]. by apply Hk. }
  destruct q; cbn; try apply Hu; try done.
  - destruct (_ || _); [done|by apply keyed_put].
  - apply (Hg (λ kr, bool_decide (kr.1 = id))).
  - destruct (row_of id t) as [i|] eqn:E; [|done].
    intros id' r. cbn. intros [[<- <-]|[_ Hr]]%lookup_insert_Some; [|by apply Hk].
    apply row_of_lookup in E as [d E]. by apply Hk in E.
  - apply (Hg (λ kr, match row_deleted_at kr.2 with Some d => (d <? cutoff)%Z | None => false end)).
  - intros id r Hr. rewrite lookup_fmap in Hr. destruct (t !! id) as [o|] eqn:E; [|done]. cbn in Hr. injection Hr as <-.
    apply Hk in E. by destruct (expires _ _ _ o).
Qed.
