(* ===== verification/OauthLock.v ===== *)
(** * The lock around a token refresh

    [pkg/oauthlock/lock.go].  A transaction tries Postgres' advisory lock of the
    integration and runs [fn]; the end of the transaction, committed or rolled back,
    gives the lock up.  [LockCalls] are the calls it makes of its client's signature;
    [sha256] is the digest.  The contention counters leave no trace. *)

From S2P Require Import Prelude GoTime Types A2A Prog.
Local Open Scope go_scope.

Class LockCalls (E : Type → Type) := {
  beginTx : E (result goerr N);
  tryLock : N → Z → E (result goerr bool);
  commitTx : N → E (result goerr unit);
  rollbackTx : N → E unit;
  jitter : Z → E Z;
  sleep : Z → E (result goerr unit);
}.

(** [LockFn]: what [fn] returned. *)
Inductive LockError (X : Type) :=
| ErrLockBusy
| ErrLockExhausted
| LockFailed (op : string) (e : goerr)
| LockCanceled (e : goerr)
| LockFn (e : X).
Arguments ErrLockBusy {X}.
Arguments ErrLockExhausted {X}.
Arguments LockFailed {X} op e.
Arguments LockCanceled {X} e.
Arguments LockFn {X} e.

(** The bytes of a number, most significant first. *)
Fixpoint be_bytes (n : nat) (x : N) : string :=
  match n with
  | O => ""
  | S n => be_bytes n (x / 256) +:+ String (ascii_of_N (x mod 256)) ""
  end.

Fixpoint le_value (s : string) : Z :=
  match s with
  | EmptyString => 0
  | String a s' => Z.of_N (N_of_ascii a) + 256 * le_value s'
  end%Z.

(** A 64-bit word read as a signed integer. *)
Definition as_int64 (v : Z) : Z := (if v <? 2 ^ 63 then v else v - 2 ^ 64)%Z.

Definition lockKey (sha256 : string → string) (id : uuid) : Z :=
  as_int64 (le_value (str_take 8 (sha256 ("oauth:refresh:" +:+ be_bytes 16 id)%string))).

Section lock.
Context {E : Type → Type} {L : LockCalls E}.
Variable sha256 : string → string.
Context {X A : Type}.

Notation prog := (Prog.prog E).

Definition WithRefreshLock (integrationID : uuid) (fn : N → prog (result X A)) : prog (result (LockError X) A) :=
  call! begun := beginTx in
  match begun with
  | Err e => Ret (Err (LockFailed "begin tx" e))
  | Ok tx =>
      let fail e := call! _ := rollbackTx tx in Ret (Err e) in
      call! acquired := tryLock tx (lockKey sha256 integrationID) in
      match acquired with
      | Err e => fail (LockFailed "try-lock" e)
      | Ok false => fail ErrLockBusy
      | Ok true =>
          sub! r := fn tx in
          match r with
          | Err e => fail (LockFn e)
          | Ok a =>
              call! committed := commitTx tx in
              match committed with
              | Err e => fail (LockFailed "commit" e)
              | Ok _ => Ret (Ok a)
              end
          end
      end
  end.

Definition backoffs : list Z := [100 * Millisecond; 300 * Millisecond; 1 * Second; 1500 * Millisecond]%Z.

Definition jitterDivisor : Z := 4.

Fixpoint retry_lock (lockFn : prog (result (LockError X) A)) (waits : list Z) : prog (result (LockError X) A) :=
  match waits with
  | [] => Ret (Err ErrLockExhausted)
  | wait :: waits =>
      sub! r := lockFn in
      match r with
      | Ok a => Ret (Ok a)
      | Err ErrLockBusy =>
          if bool_decide (waits = []) then Ret (Err ErrLockExhausted)
          else
            call! j := jitter (wait / jitterDivisor)%Z in
            call! slept := sleep (wait + j)%Z in
            match slept with
            | Err e => Ret (Err (LockCanceled e))
            | Ok _ => retry_lock lockFn waits
            end
      | Err e => Ret (Err e)
      end
  end.

Definition RefreshWithRetry (integrationID : uuid) (fn : N → prog (result X A)) : prog (result (LockError X) A) :=
  retry_lock (WithRefreshLock integrationID fn) backoffs.

(** What [fn] establishes of its result, whatever the history before it, holds of the
    result the caller gets. *)
Section history.
Variable (ans : ∀ B, E B → B → Prop) (P : A → list (answered E) → Prop).
Hypothesis P_grows : ∀ a hist hist', hist ⊆ hist' → P a hist → P a hist'.

Definition yields {Y} (r : result Y A) (hist : list (answered E)) : Prop := ∀ a, r = Ok a → P a hist.

Variable fn : N → prog (result X A).
Hypothesis fn_yields : ∀ tx past, wp (history_spec ans) (fn tx) yields past.

Lemma WithRefreshLock_yields id past : wp (history_spec ans) (WithRefreshLock id fn) yields past.
Proof.
  intros [tx|e] _; [|done]. intros [[|]|e] _; [|by intros [] _ a|by intros [] _ a].
  apply wp_bind; [apply history_spec_mono|]. eapply wp_mono; [apply history_spec_mono| |apply fn_yields].
  intros [a|e] hist Hr; [|by intros [] _ a]. intros [[]|e] _; [|by intros [] _ a'].
  intros a' [= <-]. eapply P_grows; [|by apply Hr]. set_solver.
Qed.

Lemma RefreshWithRetry_yields id past : wp (history_spec ans) (RefreshWithRetry id fn) yields past.
Proof.
  unfold RefreshWithRetry. revert past. induction backoffs as [|wait waits IH]; intros past; [done|]. cbn [retry_lock].
  apply wp_bind; [apply history_spec_mono|]. eapply wp_mono; [apply history_spec_mono| |apply WithRefreshLock_yields].
  intros [a|[]] hist Hr; cbn; try done. destruct (bool_decide _); [done|]. intros j _ [[]|e] _; [apply IH|done].
Qed.
End history.
End lock.
