(* ===== verification/IntegrationService.v ===== *)
(** * Platform integrations

    [services/api/internal/service/integration.go]: connecting a platform, handing
    out its decrypted token, refreshing it, disconnecting it.  Every operation is a
    program (Prog.v) over the calls it makes: repository methods
    (IntegrationStore.v), the cipher (Envelope.v), the lock (OauthLock.v), the
    provider's token endpoint, the lookups of its gates, audit and telemetry rows.
    A repository or provider call carries the lock its context was derived under.
    [sha256] is the digest, [format_rfc3339] the format of an instant. *)

From S2P Require Import Prelude Json GoTime Types Users Tools Authz A2A Prog Envelope IntegrationStore OauthLock.
Local Open Scope go_scope.

Definition memberStatusSuspended : string := "suspended".
Definition callerServiceInternal : string := "api.internal".
Definition ParsedFormatAccessToken : string := "access_token".
Definition YandexSharedRepExternalID : string := "__shared_rep__".

Record ConnectParams := {
  cp_business_id : uuid;
  cp_actor_id : uuid;
  cp_platform : string;
  cp_external_id : string;
  cp_access_token : string;
  cp_refresh_token : string;
  cp_user_token : string;
  cp_user_token_expires : option Z;
  cp_metadata : gomap;
  cp_expires_at : option Z;
  cp_actor_ip : string;
  cp_user_agent : string;
  cp_parsed_format : string;
}.

Record SharedSessionParams := {
  sp_shared_business_id : uuid;
  sp_platform : string;
  sp_credential : string;
  sp_actor_ip : string;
  sp_user_agent : string;
}.

Record TokenResponse := {
  tk_integration_id : uuid;
  tk_platform : string;
  tk_external_id : string;
  tk_access_token : string;
  tk_user_token : string;
  tk_metadata : list (string * gval);
  tk_expires_at : option Z;
  tk_user_token_expires : option Z;
}.

(** What a refresh answers: the new access token, the new refresh token or [""], the
    lifetime in seconds. *)
Definition Refreshed : Type := string * string * Z.

Inductive LookupError := LookupNotFound | LookupFailed.

Inductive IntegrationNote :=
| NoteConnected (businessID actor integrationID : uuid) (platform externalID ip userAgent parsedFormat : string)
| NoteConnectedValue (integrationID actor businessID : uuid) (platform : string)
| NoteMetadataUpdated (businessID integrationID : uuid) (platform : string) (keys : list string)
| NoteExternalIDUpdated (businessID integrationID : uuid) (platform oldID newID : string)
| NoteDeleted (businessID actor integrationID : uuid) (platform externalID : string)
| NoteTokenRotated (businessID integrationID : uuid) (platform : string)
| NoteTokenExpired (businessID : uuid) (platform externalID : string) (rows : nat).

(** The synchronous row that precedes the release of a token. *)
Record TokenAudit := {
  ta_business_id : uuid;
  ta_integration_id : uuid;
  ta_platform : string;
  ta_caller : string;
  ta_correlation_id : string;
  ta_reason : string;
  ta_key_version : Z;
}.

(** The lock a context was derived under: its transaction and its integration. *)
Definition Lock : Type := N * uuid.

Inductive IntegrationCall : Type → Type :=
| CtxErrC : IntegrationCall (option goerr)
| RepoC (lk : option Lock) {B} (c : RepoCall B) : IntegrationCall B
| CipherC {B} (c : CryptoCall B) : IntegrationCall B
| RefreshTokenC (lk : option Lock) (refreshToken : string) : IntegrationCall (result goerr Refreshed)
| BeginTxC : IntegrationCall (result goerr N)
| TryLockC (tx : N) (key : Z) : IntegrationCall (result goerr bool)
| CommitC (tx : N) : IntegrationCall (result goerr unit)
| RollbackC (tx : N) : IntegrationCall unit
| JitterC (n : Z) : IntegrationCall Z
| SleepC (d : Z) : IntegrationCall (result goerr unit)
| MutexLockC (id : uuid) : IntegrationCall unit
| MutexUnlockC (id : uuid) : IntegrationCall unit
| ActorC (id : uuid) : IntegrationCall (result LookupError User)
| MembershipC (businessID userID : uuid) : IntegrationCall (result LoadError CachedMember)
| RoleC (id : uuid) : IntegrationCall (result LookupError CachedRole)
| BusinessC (id : uuid) : IntegrationCall (result LookupError unit)
| NowC : IntegrationCall Z
| NewIDC : IntegrationCall uuid
| AuditSyncC (row : TokenAudit) : IntegrationCall (result goerr unit)
| PublishC (subject : string) : IntegrationCall (result goerr unit)
| NoteC (note : IntegrationNote) : IntegrationCall unit.

#[export] Instance integration_locks : LockCalls IntegrationCall := {|
  beginTx := BeginTxC; tryLock := TryLockC; commitTx := CommitC; rollbackTx := RollbackC;
  jitter := JitterC; sleep := SleepC |}.

Inductive IntegrationError :=
| SvcRequired (what : string)
| SvcContext (e : goerr)
| SvcNotFound
| SvcExists
| SvcRepo (op : string) (e : RepoError)
| SvcTokenExpired
| SvcUnavailable
| SvcEmailNotVerified
| SvcPendingDeletion
| SvcForbidden
| SvcNoBusiness
| SvcClaimedByOtherTenant
| SvcLookup (op : string)
| SvcCipher (op : string) (e : CryptoError)
| SvcLock (e : LockError IntegrationError)
| SvcAudit (e : goerr).

Record IntegrationDeps := {
  id_envelope : Envelope;
  id_pool : bool;
  id_refresher : bool;
  id_nats : bool;
  id_actors : bool;
  id_members : bool;
  id_business : bool;
  id_value_telemetry : bool;
}.

(** What a request's context carries. *)
Record Caller := { ca_service : string; ca_correlation_id : string }.

Notation prog := (Prog.prog IntegrationCall).

Definition repository {A} (lk : option Lock) (p : IntegrationStore.repo A) : prog A := embed (λ _ c, RepoC lk c) p.
Definition cipher {A} (p : Envelope.prog A) : prog A := embed (λ _ c, CipherC c) p.

(** An error of the repository: [ErrIntegrationNotFound] bare, others under [op]. *)
Definition of_repo (op : string) (e : RepoError) : IntegrationError :=
  match e with ErrIntegrationNotFound => SvcNotFound | _ => SvcRepo op e end.

Definition lift_repo {A} (op : string) (r : result RepoError A) : result IntegrationError A :=
  match r with Ok a => Ok a | Err e => Err (of_repo op e) end.

Definition lift_cipher {A} (op : string) (r : result CryptoError A) : result IntegrationError A :=
  match r with Ok a => Ok a | Err e => Err (SvcCipher op e) end.

Section service.
Context {U : UUIDText} {G : Gcm}.
Variables (deps : IntegrationDeps) (sha256 : string → string) (format_rfc3339 : Z → string).

(** [if err := ctx.Err(); err != nil] ahead of an operation. *)
Definition with_ctx {A} (p : prog (result IntegrationError A)) : prog (result IntegrationError A) :=
  call! e := CtxErrC in match e with Some e => Ret (Err (SvcContext e)) | None => p end.

Definition required {A} (missing : bool) (what : string) (p : prog (result IntegrationError A))
    : prog (result IntegrationError A) :=
  if missing then Ret (Err (SvcRequired what)) else p.

Definition is_nil (id : uuid) : bool := bool_decide (id = uuid_nil).

Definition refresherSupports (platform : string) : bool := String.eqb platform AgentGoogleBusiness.

(** ** Reads *)

Definition ListByBusinessID (businessID : uuid) : prog (result IntegrationError (list Integration)) :=
  with_ctx (required (is_nil businessID) "business id"
    (sub! r := repository None (IntegrationStore.ListByBusinessID businessID) in
     Ret (match r with Ok l => Ok l | Err e => Err (SvcRepo "list integrations" e) end))).

Definition GetByBusinessAndPlatform (businessID : uuid) (platform : string) : prog (result IntegrationError Integration) :=
  with_ctx (required (is_nil businessID) "business id" (required (String.eqb platform "") "platform"
    (sub! r := repository None (IntegrationStore.GetByBusinessAndPlatform businessID platform) in
     Ret (lift_repo "get integration" r)))).

(** The repository's error is handed on as it is. *)
Definition ListByBusinessAndPlatform (businessID : uuid) (platform : string)
    : prog (result IntegrationError (list Integration)) :=
  required (is_nil businessID) "business id"
    (sub! r := repository None (IntegrationStore.ListByBusinessAndPlatform businessID platform) in
     Ret (match r with Ok l => Ok l | Err e => Err (SvcRepo "" e) end)).

(** ** Changes of a row *)

(** [sort.Strings]. *)
Definition sortedKeys (m : list (string * gval)) : list string := merge_sort String.le (m.*1).

Definition UpdateMetadata (integrationID : uuid) (metadata : gomap) : prog (result IntegrationError unit) :=
  with_ctx (required (is_nil integrationID) "integration id"
    (let metadata := gomap_members metadata in
     ok! integ := (sub! r := repository None (GetByID integrationID) in Ret (lift_repo "get integration" r)) in
     ok! _ := (sub! r := repository None (IntegrationStore.UpdateMetadata integrationID metadata) in
               Ret (lift_repo "update integration" r)) in
     call! _ := NoteC (NoteMetadataUpdated (in_business_id integ) integrationID (in_platform integ) (sortedKeys metadata)) in
     Ret (Ok tt))).

Definition UpdateExternalID (integrationID : uuid) (externalID : string) : prog (result IntegrationError unit) :=
  with_ctx (required (is_nil integrationID) "integration id" (required (String.eqb externalID "") "external id"
    (ok! integ := (sub! r := repository None (GetByID integrationID) in Ret (lift_repo "get integration" r)) in
     ok! _ := (sub! r := repository None (IntegrationStore.UpdateExternalID integrationID externalID) in
               Ret (lift_repo "update integration" r)) in
     call! _ := NoteC (NoteExternalIDUpdated (in_business_id integ) integrationID (in_platform integ)
                         (in_external_id integ) externalID) in
     Ret (Ok tt)))).

Definition Delete (integrationID actorID : uuid) : prog (result IntegrationError unit) :=
  with_ctx (required (is_nil integrationID) "integration id"
    (ok! integ := (sub! r := repository None (GetByID integrationID) in Ret (lift_repo "get integration" r)) in
     ok! _ := (sub! r := repository None (SoftDelete integrationID) in Ret (lift_repo "soft-delete" r)) in
     call! _ := NoteC (NoteDeleted (in_business_id integ) actorID integrationID (in_platform integ) (in_external_id integ)) in
     if id_nats deps then
       call! _ := PublishC ("integrations.revoked." +:+ in_platform integ +:+ "."
                            +:+ uuid_string (in_business_id integ))%string in
       Ret (Ok tt)
     else Ret (Ok tt))).

Definition MarkTokenExpired (businessID : uuid) (platform externalID : string) : prog (result IntegrationError unit) :=
  required (is_nil businessID) "business id" (required (String.eqb platform "") "platform"
    (sub! r := repository None (IntegrationStore.MarkTokenExpired businessID platform externalID) in
     match r with
     | Err e => Ret (Err (SvcRepo "mark token expired" e))
     | Ok n =>
         if 0 <? n then call! _ := NoteC (NoteTokenExpired businessID platform externalID n) in Ret (Ok tt)
         else Ret (Ok tt)
     end)).

(** ** Connecting *)

Definition gateActor (actorID : uuid) : prog (result IntegrationError unit) :=
  if negb (id_actors deps) || is_nil actorID then Ret (Ok tt)
  else
    call! r := ActorC actorID in
    Ret (match r with
         | Err LookupNotFound => Ok tt
         | Err LookupFailed => Err (SvcLookup "load connect actor")
         | Ok u =>
             if negb (us_email_verified u) then Err SvcEmailNotVerified
             else if bool_decide (is_Some (us_deletion_requested_at u)) && bool_decide (us_deletion_canceled_at u = None)
             then Err SvcPendingDeletion
             else Ok tt
         end).

Definition gateMembership (actorID businessID : uuid) : prog (result IntegrationError unit) :=
  if negb (id_members deps) || is_nil actorID || is_nil businessID then Ret (Ok tt)
  else
    call! r := MembershipC businessID actorID in
    match r with
    | Err ErrMembershipNotFound => Ret (Err SvcForbidden)
    | Err ErrLoad => Ret (Err (SvcLookup "load connect membership"))
    | Ok member =>
        if String.eqb (cm_status member) memberStatusSuspended then Ret (Err SvcForbidden)
        else
          call! r := RoleC (cm_role_id member) in
          Ret (match r with
               | Err LookupNotFound => Err SvcForbidden
               | Err LookupFailed => Err (SvcLookup "load connect role")
               | Ok role => if can_loop PermIntegrationsConnect (crole_permissions role) then Ok tt else Err SvcForbidden
               end)
    end.

Definition gateBusiness (businessID : uuid) : prog (result IntegrationError unit) :=
  if negb (id_business deps) || is_nil businessID then Ret (Ok tt)
  else
    call! r := BusinessC businessID in
    Ret (match r with
         | Ok _ => Ok tt
         | Err LookupNotFound => Err SvcNoBusiness
         | Err LookupFailed => Err (SvcLookup "load connect business")
         end).

(** The active row at these coordinates, if any, gives way to a new one. *)
Definition retire_existing (businessID : uuid) (platform externalID delOp lookOp : string)
    : prog (result IntegrationError unit) :=
  sub! existing := repository None (GetByBusinessPlatformExternal businessID platform externalID) in
  match existing with
  | Err ErrIntegrationNotFound => Ret (Ok tt)
  | Err e => Ret (Err (SvcRepo lookOp e))
  | Ok existing =>
      sub! r := repository None (SoftDelete (in_id existing)) in
      Ret (match r with
           | Ok _ | Err ErrIntegrationNotFound => Ok tt
           | Err e => Err (SvcRepo delOp e)
           end)
  end.

(** No other business holds the channel. *)
Definition check_claim (params : ConnectParams) : prog (result IntegrationError unit) :=
  sub! claimant := repository None (GetActiveByPlatformExternal (cp_platform params) (cp_external_id params)) in
  Ret (match claimant with
       | Ok claimant =>
           if negb (bool_decide (in_business_id claimant = cp_business_id params)) then Err SvcClaimedByOtherTenant
           else Ok tt
       | Err ErrIntegrationNotFound => Ok tt
       | Err e => Err (SvcRepo "lookup cross-tenant integration" e)
       end).

(** The error of [Create] is handed on as it is. *)
Definition of_create (e : RepoError) : IntegrationError :=
  match e with ErrIntegrationExists => SvcExists | e => SvcRepo "" e end.

Definition store_new (integration : Integration) : prog (result IntegrationError Integration) :=
  sub! r := repository None (Create integration) in
  Ret (match r with Ok i => Ok i | Err e => Err (of_create e) end).

(** The row [Connect] creates; a token that was not given has no ciphertext. *)
Definition connected_row (params : ConnectParams) (integrationID : uuid) (s : Sealed) : Integration :=
  let '(cts, wrapped, ver, fp) := s in
  let column token i := if negb (String.eqb token "") then default "" (cts !! i) else "" in
  {| in_id := integrationID; in_business_id := cp_business_id params; in_platform := cp_platform params;
     in_status := IntegrationStatusActive; in_access := column (cp_access_token params) 0;
     in_refresh := column (cp_refresh_token params) 1; in_user := column (cp_user_token params) 2;
     in_external_id := cp_external_id params; in_metadata := gomap_members (cp_metadata params);
     in_token_expires_at := cp_expires_at params; in_user_token_expires_at := cp_user_token_expires params;
     in_created_at := 0; in_updated_at := 0; in_wrapped_dek := wrapped; in_key_version := ver; in_fingerprint := fp |}.

Definition Connect (params : ConnectParams) : prog (result IntegrationError Integration) :=
  required (is_nil (cp_business_id params)) "business id" (required (String.eqb (cp_platform params) "") "platform"
    (ok! _ := gateActor (cp_actor_id params) in
     ok! _ := gateMembership (cp_actor_id params) (cp_business_id params) in
     ok! _ := gateBusiness (cp_business_id params) in
     ok! _ := (if negb (String.eqb (cp_external_id params) "") then
                 ok! _ := check_claim params in
                 retire_existing (cp_business_id params) (cp_platform params) (cp_external_id params)
                   "retire existing integration" "lookup existing integration"
               else Ret (Ok tt)) in
     call! integrationID := NewIDC in
     sub! sealed := cipher (EncryptForRow (id_envelope deps) integrationID (cp_platform params)
                              [cp_access_token params; cp_refresh_token params; cp_user_token params]) in
     match sealed with
     | Err e => Ret (Err (SvcCipher "envelope encrypt" e))
     | Ok sealed =>
         ok! integration := store_new (connected_row params integrationID sealed) in
         call! _ := NoteC (NoteConnected (cp_business_id params) (cp_actor_id params) (in_id integration)
                             (cp_platform params) (cp_external_id params) (cp_actor_ip params) (cp_user_agent params)
                             (cp_parsed_format params)) in
         if id_value_telemetry deps then
           call! _ := NoteC (NoteConnectedValue (in_id integration) (cp_actor_id params) (cp_business_id params)
                               (cp_platform params)) in
           Ret (Ok integration)
         else Ret (Ok integration)
     end)).

Definition shared_row (params : SharedSessionParams) (integrationID : uuid) (now : Z) (s : Sealed) : Integration :=
  let '(cts, wrapped, ver, fp) := s in
  {| in_id := integrationID; in_business_id := sp_shared_business_id params; in_platform := sp_platform params;
     in_status := IntegrationStatusActive; in_access := default "" (cts !! 0); in_refresh := ""; in_user := "";
     in_external_id := YandexSharedRepExternalID;
     in_metadata := [("shared_representative", GBool true); ("connected_at", GStr (format_rfc3339 now))];
     in_token_expires_at := None; in_user_token_expires_at := None; in_created_at := 0; in_updated_at := 0;
     in_wrapped_dek := wrapped; in_key_version := ver; in_fingerprint := fp |}.

Definition SetSharedSession (params : SharedSessionParams) : prog (result IntegrationError Integration) :=
  required (is_nil (sp_shared_business_id params)) "shared business id" (required (String.eqb (sp_platform params) "") "platform"
    (required (String.eqb (sp_credential params) "") "shared session credential"
    (ok! _ := retire_existing (sp_shared_business_id params) (sp_platform params) YandexSharedRepExternalID
                "retire existing shared session" "lookup existing shared session" in
     call! integrationID := NewIDC in
     sub! sealed := cipher (EncryptForRow (id_envelope deps) integrationID (sp_platform params)
                              [sp_credential params; ""; ""]) in
     match sealed with
     | Err e => Ret (Err (SvcCipher "envelope encrypt shared session" e))
     | Ok sealed =>
         call! now := NowC in
         ok! integration := store_new (shared_row params integrationID now sealed) in
         call! _ := NoteC (NoteConnected (sp_shared_business_id params) uuid_nil (in_id integration) (sp_platform params)
                             YandexSharedRepExternalID (sp_actor_ip params) (sp_user_agent params) ParsedFormatAccessToken) in
         Ret (Ok integration)
     end))).

(** ** Handing out a token *)

(** [t.Before(now)] of a deadline that may be nil. *)
Definition expired (i : Integration) : prog bool :=
  match in_token_expires_at i with
  | None => Ret false
  | Some e => call! now := NowC in Ret (e <? now)%Z
  end.

Fixpoint first_active (l : list Integration) : option Integration :=
  match l with
  | [] => None
  | i :: l => if String.eqb (in_status i) IntegrationStatusActive then Some i else first_active l
  end.

(** The integration named, else the first active one of the platform. *)
Definition find_integration (businessID : uuid) (platform externalID : string)
    : prog (result IntegrationError Integration) :=
  ok! named :=
    (if negb (String.eqb externalID "") then
       sub! r := repository None (GetByBusinessPlatformExternal businessID platform externalID) in
       Ret (match r with
            | Ok i => Ok (Some i)
            | Err ErrIntegrationNotFound => Ok None
            | Err e => Err (SvcRepo "get integration by external id" e)
            end)
     else Ret (Ok None)) in
  match named with
  | Some i => Ret (Ok i)
  | None =>
      sub! r := repository None (IntegrationStore.ListByBusinessAndPlatform businessID platform) in
      Ret (match r with
           | Err e => Err (SvcRepo "list integrations" e)
           | Ok l => match first_active l with Some i => Ok i | None => Err SvcNotFound end
           end)
  end.

(** [time.Duration(expiresIn) * time.Second] wraps at 64 bits. *)
Definition seconds (n : Z) : Z := as_int64 ((n * Second) mod 2 ^ 64)%Z.

(** The row [fresh] with the tokens a refresh brought. *)
Definition refreshed_row (fresh : Integration) (s : Sealed) (expiresAt : Z) : Integration :=
  let '(cts, wrapped, ver, fp) := s in
  {| in_id := in_id fresh; in_business_id := in_business_id fresh; in_platform := in_platform fresh;
     in_status := in_status fresh; in_access := default "" (cts !! 0); in_refresh := default "" (cts !! 1);
     in_user := default "" (cts !! 2); in_external_id := in_external_id fresh; in_metadata := in_metadata fresh;
     in_token_expires_at := Some expiresAt; in_user_token_expires_at := in_user_token_expires_at fresh;
     in_created_at := in_created_at fresh; in_updated_at := in_updated_at fresh; in_wrapped_dek := wrapped;
     in_key_version := ver; in_fingerprint := fp |}.

(** A column of [i] in the clear, beside the version of its key. *)
Definition decrypt_column (i : Integration) (op ct : string) : prog (result IntegrationError (string * Z)) :=
  sub! r := cipher (DecryptToken (id_envelope deps) (in_id i) (in_platform i) ct (in_wrapped_dek i)) in
  Ret (lift_cipher op r).

Definition decrypt_optional (i : Integration) (op ct : string) : prog (result IntegrationError (string * Z)) :=
  if negb (String.eqb ct "") then decrypt_column i op ct else Ret (Ok ("", 0%Z)).

(** The exchange of [fresh]'s refresh token, under the lock [lk] if any. *)
Definition exchange_tokens (lk : option Lock) (fresh : Integration) : prog (result IntegrationError Integration) :=
  ok! refresh := decrypt_column fresh "decrypt refresh token" (in_refresh fresh) in
  call! r := RefreshTokenC lk (fst refresh) in
  match r with
  | Err _ => Ret (Err SvcTokenExpired)
  | Ok (newAccess, newRefresh, expiresIn) =>
      let refreshPlaintext := if String.eqb newRefresh "" then fst refresh else newRefresh in
      ok! user := decrypt_optional fresh "decrypt user token" (in_user fresh) in
      sub! sealed := cipher (EncryptForRow (id_envelope deps) (in_id fresh) (in_platform fresh)
                               [newAccess; refreshPlaintext; fst user]) in
      match sealed with
      | Err e => Ret (Err (SvcCipher "encrypt new tokens" e))
      | Ok sealed =>
          call! now := NowC in
          let updated := refreshed_row fresh sealed (now + seconds expiresIn) in
          sub! saved := repository lk (Update updated) in
          match saved with
          | Err e => Ret (Err (SvcRepo "persist refreshed tokens" e))
          | Ok _ =>
              call! _ := NoteC (NoteTokenRotated (in_business_id fresh) (in_id fresh) (in_platform fresh)) in
              Ret (Ok updated)
          end
      end
  end.

(** Read the row again; exchange its token if it is still past its deadline. *)
Definition refresh_row (lk : option Lock) (id : uuid) : prog (result IntegrationError Integration) :=
  sub! r := repository lk (GetByID id) in
  match r with
  | Err e => Ret (Err (SvcRepo "re-read integration after lock" e))
  | Ok fresh =>
      sub! stale := expired fresh in
      if stale then exchange_tokens lk fresh else Ret (Ok fresh)
  end.

(** The tokens in the clear, once the row that says so is written. *)
Definition release (caller : Caller) (businessID : uuid) (platform reason : string) (i : Integration)
    : prog (result IntegrationError TokenResponse) :=
  ok! access := decrypt_optional i "decrypt access token" (in_access i) in
  ok! user := decrypt_optional i "decrypt user token" (in_user i) in
  sub! userToken :=
    (if String.eqb (in_user i) "" then Ret ""
     else match in_user_token_expires_at i with
          | None => Ret (fst user)
          | Some e => call! now := NowC in Ret (if (now <? e)%Z then fst user else "")
          end) in
  call! audited := AuditSyncC {|
    ta_business_id := businessID; ta_integration_id := in_id i; ta_platform := platform;
    ta_caller := if String.eqb (ca_service caller) "" then callerServiceInternal else ca_service caller;
    ta_correlation_id := ca_correlation_id caller; ta_reason := reason; ta_key_version := snd access |} in
  Ret (match audited with
       | Err e => Err (SvcAudit e)
       | Ok _ => Ok {| tk_integration_id := in_id i; tk_platform := in_platform i; tk_external_id := in_external_id i;
                       tk_access_token := fst access; tk_user_token := userToken; tk_metadata := in_metadata i;
                       tk_expires_at := in_token_expires_at i; tk_user_token_expires := in_user_token_expires_at i |}
       end).

Definition of_lock {A} (r : result (LockError IntegrationError) A) : result IntegrationError A :=
  match r with
  | Ok a => Ok a
  | Err ErrLockExhausted => Err SvcUnavailable
  | Err (LockFn SvcTokenExpired) => Err SvcTokenExpired
  | Err e => Err (SvcLock e)
  end.

Definition GetDecryptedToken (caller : Caller) (businessID : uuid) (platform externalID reason : string)
    : prog (result IntegrationError TokenResponse) :=
  ok! integration := find_integration businessID platform externalID in
  if negb (String.eqb (in_status integration) IntegrationStatusActive) then Ret (Err SvcTokenExpired)
  else
    sub! stale := expired integration in
    if stale then
      if String.eqb (in_refresh integration) "" || negb (id_refresher deps)
         || negb (refresherSupports (in_platform integration))
      then Ret (Err SvcTokenExpired)
      else if id_pool deps then
        ok! fresh := (sub! r := RefreshWithRetry sha256 (in_id integration)
                                  (λ tx, refresh_row (Some (tx, in_id integration)) (in_id integration)) in
                      Ret (of_lock r)) in
        release caller businessID platform reason fresh
      else
        call! _ := MutexLockC (in_id integration) in
        sub! r := (ok! fresh := refresh_row None (in_id integration) in
                   release caller businessID platform reason fresh) in
        call! _ := MutexUnlockC (in_id integration) in
        Ret r
    else release caller businessID platform reason integration.
End service.
