(* ===== verification/IntegrationSafety.v ===== *)
(** * What a connection and a released token rest on

    Whatever the calls of IntegrationService.v answer, within what the table, the
    random source and the key service may answer: a token leaves only after the row
    that records it, from an active integration of the business that asked; a new
    connection is stored only after every gate let it through. *)

From S2P Require Import Prelude Json GoTime Types Users Tools Authz A2A Prog Envelope IntegrationStore OauthLock IntegrationService.
Local Open Scope go_scope.

(** What the rows of an answer have in common. *)
Definition sql_ans {X} (q : SqlCall X) : result PgError X → Prop :=
  match q in SqlCall X return result PgError X → Prop with
  | SelectByIDC id => λ r, ∀ i, r = Ok (Some i) → in_id i = id
  | SelectByBusinessPlatformC b p => λ r, ∀ l i, r = Ok l → i ∈ l → in_business_id i = b ∧ in_platform i = p
  | SelectByExternalC b p e => λ r, ∀ l i, r = Ok l → i ∈ l →
      in_business_id i = b ∧ in_platform i = p ∧ in_external_id i = e
  | SelectClaimantC p e => λ r, ∀ l i, r = Ok l → i ∈ l →
      in_status i = IntegrationStatusActive ∧ in_platform i = p ∧ in_external_id i = e
  | _ => λ _, True
  end.

Lemma ord_active ord p t l i : (∀ l, ord l ≡ₚ l) → Ok l = Ok (E := PgError) (ord (active_rows p t)) → i ∈ l → p i = true.
Proof.
  intros Ho [= ->] Hi. rewrite Ho in Hi. unfold active_rows in Hi. apply list_elem_of_fmap in Hi as (r & -> & Hr).
  by apply elem_of_filterb in Hr as [[_ Hp]%andb_true_iff _].
Qed.

(** Any table answers so. *)
Lemma step_sql_ans {X} (q : SqlCall X) t r t' : keyed t → step_sql q t r t' → sql_ans q r.
Proof.
  intros Hk (now & ord & Ho & [Hr|[-> _]]); [|by destruct q; cbn].
  destruct q; cbn in *; try done; injection Hr as Hr <-; subst r.
  - intros i [= Hi]. apply row_of_Some in Hi as (row & Hl & _ & <-). by eapply Hk.
  - intros l i Hl Hi. eapply ord_active in Hi; [|done..]. apply andb_true_iff in Hi as [?%bool_decide_eq_true ?%String.eqb_eq]. done.
  - intros l i Hl Hi. eapply ord_active in Hi; [|done..]. unfold at_coordinates in Hi.
    rewrite !andb_true_iff in Hi. destruct Hi as [[?%bool_decide_eq_true ?%String.eqb_eq] ?%String.eqb_eq]. done.
  - intros l i Hl Hi. eapply ord_active in Hi; [|done..].
    rewrite !andb_true_iff in Hi. destruct Hi as [[?%String.eqb_eq ?%String.eqb_eq] ?%String.eqb_eq]. done.
Qed.

Section safety.
Context {U : UUIDText} {G : Gcm} {K : Kms}.
Variables (deps : IntegrationDeps) (sha256 : string → string).

Definition repo_ans B (c : RepoCall B) : B → Prop :=
  match c in RepoCall B return B → Prop with SqlC q => sql_ans q | _ => λ _, True end.

Definition integration_ans B (c : IntegrationCall B) : B → Prop :=
  match c in IntegrationCall B return B → Prop with
  | RepoC _ c => repo_ans _ c
  | CipherC c => crypto_ans _ c
  | _ => λ _, True
  end.

Notation history := (list (answered IntegrationCall)).
Notation hwp p Q := (wp (history_spec integration_ans) p Q).

Lemma hwp_bind {A B} (p : prog A) (f : A → prog B) Q past :
  hwp p (λ a hist, past ⊆ hist → hwp (f a) Q hist) past → hwp (prog_bind p f) Q past.
Proof.
  intros Hp. apply wp_bind; [apply history_spec_mono|].
  eapply wp_mono; [apply history_spec_mono| |apply history_grows, Hp]. cbn. intros a hist [Hq Hl]. auto.
Qed.

Lemma hwp_mono {A} (p : prog A) (Q Q' : A → history → Prop) past :
  (∀ a hist, Q a hist → Q' a hist) → hwp p Q past → hwp p Q' past.
Proof. apply wp_mono, history_spec_mono. Qed.

Lemma hwp_any {A} (p : prog A) (Q : A → history → Prop) past : (∀ a hist, past ⊆ hist → Q a hist) → hwp p Q past.
Proof. intros HQ. eapply hwp_mono; [|apply wp_history_true]. auto. Qed.

(** What the cipher guarantees of any client's calls. *)
Lemma hwp_cipher {A} (p : Envelope.prog A) (Q : A → Prop) past :
  wp (plain_spec crypto_ans (λ _ _, True)) p (λ a _, Q a) tt → hwp (cipher p) (λ a _, Q a) past.
Proof.
  intros Hp. apply wp_embed; [apply history_spec_mono|]. revert past.
  induction p as [a|B c k IH]; intros past; cbn [wp] in *; [done|].
  intros b Hb. destruct Hp as [_ Hp]. by apply IH, Hp.
Qed.

(** ** Releasing a token *)

(** [i] is an active integration read for the business and platform. *)
Definition selected (businessID : uuid) (platform : string) (i : Integration) (hist : history) : Prop :=
  in_business_id i = businessID ∧ in_platform i = platform ∧ in_status i = IntegrationStatusActive
  ∧ ∃ l, i ∈ l ∧ (Answered (RepoC None (SqlC (SelectByBusinessPlatformC businessID platform))) (Ok l) ∈ hist
                  ∨ ∃ e, Answered (RepoC None (SqlC (SelectByExternalC businessID platform e))) (Ok l) ∈ hist).

(** Not past its deadline at a reading of the clock, or renewed by the provider. *)
Definition usable (deadline : option Z) (hist : history) : Prop :=
  deadline = None ∨ (∃ e now, deadline = Some e ∧ (now ≤ e)%Z ∧ Answered NowC now ∈ hist)
  ∨ ∃ lk token r, Answered (RefreshTokenC lk token) (Ok r) ∈ hist.

(** A token that some ciphertext sealed for the integration holds. *)
Definition sealed_token (id : uuid) (token : string) : Prop :=
  token = "" ∨ ∃ platform w ct, holds (id_envelope deps) id platform w ct token.

Definition released (caller : Caller) (businessID : uuid) (platform reason : string) (resp : TokenResponse)
    (hist : history) : Prop :=
  (∃ i, in_id i = tk_integration_id resp ∧ selected businessID platform i hist)
  ∧ (∃ row, ta_business_id row = businessID ∧ ta_integration_id row = tk_integration_id resp
      ∧ ta_platform row = platform ∧ ta_reason row = reason ∧ ta_correlation_id row = ca_correlation_id caller
      ∧ Answered (AuditSyncC row) (Ok tt) ∈ hist)
  ∧ usable (tk_expires_at resp) hist
  ∧ sealed_token (tk_integration_id resp) (tk_access_token resp)
  ∧ sealed_token (tk_integration_id resp) (tk_user_token resp).

Definition fresh_for (id : uuid) (i : Integration) (hist : history) : Prop :=
  in_id i = id ∧ usable (in_token_expires_at i) hist.

Lemma usable_grows d hist hist' : hist ⊆ hist' → usable d hist → usable d hist'.
Proof.
  intros Hl [?|[(e & now & ? & ? & ?)|(tx & tok & r & ?)]]; [by left|right; left|right; right].
  - exists e, now. auto.
  - exists tx, tok, r. auto.
Qed.

Lemma expired_usable i past : hwp (expired i) (λ stale hist, stale = false → usable (in_token_expires_at i) hist) past.
Proof.
  unfold expired. destruct (in_token_expires_at i) as [e|]; [|by left]. intros now _. cbn. intros Hn. right. left.
  exists e, now. split; [done|]. apply Z.ltb_ge in Hn. split; [lia|]. set_solver.
Qed.

Lemma exchange_yields lk fresh past :
  hwp (exchange_tokens deps lk fresh) (yields (fresh_for (in_id fresh))) past.
Proof.
  unfold exchange_tokens. apply hwp_bind, hwp_any. intros [refresh|e] h1 _; [|by intros _ i [=]].
  intros _. intros [[[newAccess newRefresh] expiresIn]|e] _; [|by intros i [=]]. set (h2 := _ :: h1).
  apply hwp_bind, hwp_any. intros [user|e] h3 Hl3; [|by intros _ i [=]]. intros _.
  apply hwp_bind, hwp_any. intros [sealed|e] h4 Hl4; [|by intros _ i [=]]. intros _ now _.
  apply hwp_bind, hwp_any. intros [[]|e] h5 Hl5; [|by intros _ i [=]]. intros _ [] _. cbn.
  intros i [= <-]. split; [by destruct sealed as [[[??]?]?]|]. right. right.
  eexists lk, refresh.1, _. apply list_elem_of_further. apply Hl5, list_elem_of_further, Hl4, Hl3. subst h2. left.
Qed.

Lemma refresh_yields lk id past : hwp (refresh_row deps lk id) (yields (fresh_for id)) past.
Proof.
  unfold refresh_row. cbn. intros [[fresh|]|e] Hb; cbn; [|done..].
  pose proof (Hb fresh eq_refl) as <-. apply hwp_bind.
  eapply hwp_mono; [|apply expired_usable]. intros [|] hist Hu; [intros _; apply exchange_yields|].
  intros _ i [= <-]. split; [done|]. by apply Hu.
Qed.

Lemma find_selected businessID platform externalID past :
  hwp (find_integration businessID platform externalID)
    (λ r hist, ∀ i, r = Ok i → in_status i = IntegrationStatusActive → selected businessID platform i hist) past.
Proof.
  unfold find_integration. apply hwp_bind. 
  assert (hwp (if negb (String.eqb externalID "") then
       sub! r := repository None (GetByBusinessPlatformExternal businessID platform externalID) in
       Ret (match r with
            | Ok i => Ok (Some i)
            | Err ErrIntegrationNotFound => Ok None
            | Err e => Err (SvcRepo "get integration by external id" e)
            end)
     else Ret (Ok None))
    (λ r hist, ∀ i, r = Ok (Some i) → in_status i = IntegrationStatusActive → selected businessID platform i hist) past) as Hn.
  { destruct (negb _); [|by intros i]. cbn. intros [[|j l]|e] Hb; cbn; [done| |done].
    destruct (Hb _ j eq_refl ltac:(left)) as (Hbu & Hp & _). intros i [= <-] Hs. split_and!; [done..|].
    exists (j :: l). split; [left|]. right. exists externalID. left. }
  eapply hwp_mono; [|exact Hn]. cbn beta. intros [[i|]|e] hist Hr Hl; [by intros j [= <-]; auto| |by intros j].
  cbn. intros [l|e] Hb; cbn; [|by intros j]. destruct (first_active l) as [j|] eqn:Ef; [|by intros i].
  intros i [= <-] Hs. assert (j ∈ l) as Hj.
  { clear -Ef. induction l as [|i l IH]; cbn in Ef; [done|]. destruct (String.eqb _ _); [injection Ef as <-; left|right; auto]. }
  destruct (Hb l j eq_refl Hj) as [? ?]. split_and!; [done..|]. exists l. split; [done|]. left. left.
Qed.

Lemma optional_sealed i op ct past :
  hwp (decrypt_optional deps i op ct) (λ r _, ∀ p, r = Ok p → sealed_token (in_id i) p.1) past.
Proof.
  unfold decrypt_optional, decrypt_column. destruct (negb _); [|intros p [= <-]; by left]. apply hwp_bind.
  eapply hwp_mono; [|apply (hwp_cipher _ _ past (DecryptToken_holds (id_envelope deps) (in_id i) (in_platform i) ct (in_wrapped_dek i)))].
  intros [[pt ver]|e] hist Hr _; cbn; [|done]. intros p [= <-]. right. exists (in_platform i), (in_wrapped_dek i), ct. by eapply Hr.
Qed.

Lemma release_released caller businessID platform reason i0 i past :
  in_id i = in_id i0 → selected businessID platform i0 past → usable (in_token_expires_at i) past →
  hwp (release deps caller businessID platform reason i)
    (yields (λ resp hist, released caller businessID platform reason resp hist)) past.
Proof.
  intros Hid Hsel Hu. unfold release.
  apply hwp_bind. eapply hwp_mono; [|apply optional_sealed].
  intros [access|e] h1 Ha Hl1; [|by intros r]. specialize (Ha _ eq_refl). apply hwp_bind.
  eapply hwp_mono; [|apply optional_sealed]. intros [user|e] h2 Hus Hl2; [|by intros r]. specialize (Hus _ eq_refl).
  apply hwp_bind. eapply (hwp_mono _ (λ token _, sealed_token (in_id i) token)).
  2:{ destruct (String.eqb _ _); [by left|]. destruct (in_user_token_expires_at i); [|exact Hus].
      intros now _. cbn. destruct (_ <? _)%Z; [exact Hus|by left]. }
  intros userToken h3 Ht Hl3 [[]|e] _; [|by intros r]. set (row := {| ta_business_id := _ |}). intros resp [= <-].
  assert (past ⊆ Answered (AuditSyncC row) (Ok tt) :: h3) as Hl by (intros x Hx; right; auto).
  split_and!; cbn; [|by exists row; split_and!; [..|left]|by eapply usable_grows|done|done].
  exists i0. split; [done|]. destruct Hsel as (? & ? & ? & l & Hi & Hq). split_and!; [done..|].
  exists l. split; [done|]. destruct Hq as [Hq|[e Hq]]; [left|right; exists e]; auto.
Qed.

Lemma selected_grows biz platform i hist hist' : hist ⊆ hist' → selected biz platform i hist → selected biz platform i hist'.
Proof.
  intros Hl (? & ? & ? & l & Hi & Hq). split_and!; [done..|]. exists l. split; [done|].
  destruct Hq as [Hq|[e Hq]]; [left|right; exists e]; auto.
Qed.

(** C32: However the database, the key service, the provider, the lock and the other
    lookups answer, [GetDecryptedToken] returns a token only after the audit row that
    names the caller's business, the integration and the reason was written; the
    integration was read, active, under the business and platform asked for; its
    deadline had not passed at a reading of the clock or the provider had just renewed
    it; and what is returned was sealed for that very integration. *)
Theorem token_release_audited (h : nat → ∀ B, IntegrationCall B → B) caller businessID platform externalID reason resp :
  (∀ n B c, integration_ans B c (h n B c)) →
  (run h 0 (GetDecryptedToken deps sha256 caller businessID platform externalID reason) []).1 = Ok resp →
  released caller businessID platform reason resp
    (run h 0 (GetDecryptedToken deps sha256 caller businessID platform externalID reason) []).2.
Proof.
  intros Hh. revert resp. change (yields (released caller businessID platform reason)
    (run h 0 (GetDecryptedToken deps sha256 caller businessID platform externalID reason) []).1
    (run h 0 (GetDecryptedToken deps sha256 caller businessID platform externalID reason) []).2).
  apply (run_wp integration_ans h); [done|]. unfold GetDecryptedToken.
  apply hwp_bind. eapply hwp_mono; [|apply find_selected]. intros [i0|e] h1 Hsel _; [|by intros r].
  destruct (String.eqb_spec (in_status i0) IntegrationStatusActive) as [Hs|]; [|by intros r]. cbn [negb].
  specialize (Hsel i0 eq_refl Hs). apply hwp_bind. eapply hwp_mono; [|apply expired_usable].
  intros [|] h2 Hu Hl2; [|by apply (release_released _ _ _ _ i0); [|eapply selected_grows|auto]].
  destruct (_ || _ || _); [by intros r|]. destruct (id_pool deps).
  - apply hwp_bind, hwp_bind. eapply hwp_mono.
    2:{ apply (RefreshWithRetry_yields sha256 _ (fresh_for (in_id i0))).
        - intros a hist hist' Hl [? ?]. split; [done|]. by eapply usable_grows.
        - intros tx past. apply refresh_yields. }
    intros r h3 Hr Hl3. cbn. destruct r as [fresh|err]; cbn [of_lock].
    + intros _. destruct (Hr _ eq_refl) as [Hid Huse].
      apply (release_released _ _ _ _ i0); [done| |done]. eapply selected_grows; [|exact Hsel]. set_solver.
    + intros _. destruct err as [| | | |[]]; by intros r.
  - intros [] _. apply hwp_bind. eapply (hwp_mono _ (yields (released caller businessID platform reason))).
    2:{ apply hwp_bind. eapply hwp_mono; [|apply refresh_yields]. intros [fresh|e] h3 Hr Hl3; [|by intros r].
        destruct (Hr _ eq_refl) as [Hid Huse]. apply (release_released _ _ _ _ i0); [done| |done].
        eapply selected_grows; [|exact Hsel]. set_solver. }
    intros r h4 Hr Hl4 [] _. cbn. intros resp ->. specialize (Hr resp eq_refl) as (Hi & (row & Hrow) & Hus & Hrest).
    split_and!; [..|by eapply usable_grows; [|exact Hus]; intros x Hx; right| |]; try apply Hrest.
    + destruct Hi as (i & ? & ?). exists i. split; [done|]. eapply selected_grows; [|done]. intros x Hx. by right.
    + exists row. destruct Hrow as (? & ? & ? & ? & ? & ?). split_and!; [done..|]. by right.
Qed.

(** ** Storing a connection *)

(** Nobody verified this person away: no such user, or a verified one who is not
    leaving. *)
Definition actor_cleared (r : result LookupError User) : Prop :=
  match r with
  | Ok u => us_email_verified u = true ∧ (us_deletion_requested_at u = None ∨ is_Some (us_deletion_canceled_at u))
  | Err e => e = LookupNotFound
  end.

Definition member_cleared (businessID actorID : uuid) (past : history) : Prop :=
  ∃ member role, Answered (MembershipC businessID actorID) (Ok member) ∈ past
    ∧ cm_status member ≠ memberStatusSuspended
    ∧ Answered (RoleC (cm_role_id member)) (Ok role) ∈ past ∧ PermIntegrationsConnect ∈ crole_permissions role.

(** The channel has no active holder, or the business itself. *)
Definition channel_cleared (businessID : uuid) (platform externalID : string) (past : history) : Prop :=
  ∃ l, Answered (RepoC None (SqlC (SelectClaimantC platform externalID))) (Ok l) ∈ past
    ∧ ∀ i, head l = Some i → in_business_id i = businessID.

Definition cleared (params : ConnectParams) (past : history) : Prop :=
  let businessID := cp_business_id params in
  let actorID := cp_actor_id params in
  (id_actors deps = true → actorID ≠ uuid_nil → ∃ r, Answered (ActorC actorID) r ∈ past ∧ actor_cleared r)
  ∧ (id_members deps = true → actorID ≠ uuid_nil → member_cleared businessID actorID past)
  ∧ (id_business deps = true → Answered (BusinessC businessID) (Ok tt) ∈ past)
  ∧ (cp_external_id params ≠ "" → channel_cleared businessID (cp_platform params) (cp_external_id params) past).

(** [ct] is [pt] sealed under [key] with a nonce drawn in the run; nothing is nothing. *)
Definition sealed_column (key aad pt ct : string) (past : history) : Prop :=
  if String.eqb pt "" then ct = ""
  else ∃ nonce, Answered (CipherC (RandC gcmNonceSize)) (Ok nonce) ∈ past ∧ ct = nonce +:+ gcm_seal key nonce pt aad.

(** Where the key of a row comes from: drawn in the run and wrapped for integration [id];
    or the one old key, while no key service is configured. *)
Definition key_of_row (id : uuid) (platform key aad : string) (wrapped : option string) (past : history) : Prop :=
  if ev_kms (id_envelope deps) then
    aad = envelopeAAD id platform ∧ Answered (CipherC (RandC AES256KeyLen)) (Ok key) ∈ past
    ∧ ∃ w version, wrapped = Some w ∧ Answered (CipherC (KmsEncryptC key aad)) (Ok (w, version)) ∈ past
  else aad = "" ∧ ev_legacy (id_envelope deps) = Some key ∧ wrapped = None.

(** The three tokens as they were given, sealed under the key of this very row. *)
Definition row_sealed (params : ConnectParams) (i : Integration) (past : history) : Prop :=
  ∃ id key aad, Answered NewIDC id ∈ past ∧ (id ≠ uuid_nil → in_id i = id)
    ∧ key_of_row id (cp_platform params) key aad (in_wrapped_dek i) past
    ∧ sealed_column key aad (cp_access_token params) (in_access i) past
    ∧ sealed_column key aad (cp_refresh_token params) (in_refresh i) past
    ∧ sealed_column key aad (cp_user_token params) (in_user i) past.

(** The row stored is active, under the business, platform and channel that were
    cleared, its tokens sealed for it. *)
Definition insert_cleared (params : ConnectParams) B (c : IntegrationCall B) (past : history) : Prop :=
  match c with
  | RepoC _ (SqlC (InsertC i)) =>
      in_business_id i = cp_business_id params ∧ in_platform i = cp_platform params
      ∧ in_external_id i = cp_external_id params ∧ in_status i = IntegrationStatusActive ∧ row_sealed params i past
      ∧ cleared params past
  | _ => True
  end.

(** What a client of the cipher is told, whatever the answers. *)
Notation cwp p Q := (wp (λ B (c : CryptoCall B) past K, ∀ b : B, K b (Answered (CipherC c) b :: past)) p Q).

Lemma cipherwp_mono {A} (p : Envelope.prog A) (Q Q' : A → history → Prop) past :
  (∀ a hist, Q a hist → Q' a hist) → cwp p Q past → cwp p Q' past.
Proof. apply wp_mono. intros B c s P P' HP Hs b. by apply HP, Hs. Qed.

Lemma cipherwp_bind {A B} (p : Envelope.prog A) (f : A → Envelope.prog B) Q past :
  cwp p (λ a hist, cwp (f a) Q hist) past → cwp (prog_bind p f) Q past.
Proof. apply wp_bind. intros B' c s P P' HP Hs b. by apply HP, Hs. Qed.

(** [seal] seals under [key]. *)
Definition seals (key aad : string) (seal : string → Envelope.prog (result CryptoError string)) : Prop :=
  ∀ pt past, cwp (seal pt) (λ r hist, past ⊆ hist ∧ ∀ ct, r = Ok ct → pt ≠ "" → sealed_column key aad pt ct hist) past.

Lemma sealed_column_nonce key aad pt nonce (past : history) :
  pt ≠ "" → sealed_column key aad pt (nonce +:+ gcm_seal key nonce pt aad) (Answered (CipherC (RandC gcmNonceSize)) (Ok nonce) :: past).
Proof. intros Hne. unfold sealed_column. destruct (String.eqb_spec pt ""); [done|]. exists nonce. split; [left|done]. Qed.

Lemma Encrypt_seals legacy : seals legacy "" (Encrypt legacy).
Proof.
  intros pt past [nonce|e]; cbn; (split; [set_solver|]); [|done]. intros ct [= <-]. apply sealed_column_nonce.
Qed.

Lemma aeadSeal_seals key aad : seals key aad (λ pt, aeadSeal key pt aad).
Proof.
  intros pt past. unfold aeadSeal. destruct (negb (aes_key key)); [done|].
  intros [nonce|e]; cbn; (split; [set_solver|]); [|done]. intros ct [= <-]. apply sealed_column_nonce.
Qed.

Lemma sealed_column_grows key aad pt ct (hist hist' : history) : hist ⊆ hist' →
  sealed_column key aad pt ct hist → sealed_column key aad pt ct hist'.
Proof. unfold sealed_column. intros Hl. destruct (String.eqb pt ""); [done|]. intros (nonce & ? & ?). exists nonce. auto. Qed.

Lemma seal_each_seals key aad seal op pts past : seals key aad seal →
  cwp (seal_each seal op pts)
    (λ r hist, past ⊆ hist ∧ ∀ cts, r = Ok cts → Forall2 (λ pt ct, sealed_column key aad pt ct hist) pts cts) past.
Proof.
  intros Hs. revert past. induction pts as [|pt pts IH]; intros past; cbn [seal_each].
  { split; [done|]. intros cts [= <-]. constructor. }
  apply cipherwp_bind. apply (cipherwp_mono _ (λ r hist, past ⊆ hist ∧ ∀ ct, r = Ok ct → sealed_column key aad pt ct hist)).
  - intros [ct|e] h1 [Hl1 H1]; [|done]. apply cipherwp_bind. eapply cipherwp_mono; [|apply IH].
    intros [cts|e] h2 [Hl2 H2]; (split; [set_solver|]); [|done]. intros cts' [= <-]. constructor; [|auto].
    eapply sealed_column_grows; [exact Hl2|auto].
  - unfold sealed_column at 1. destruct (String.eqb_spec pt "") as [->|Hne].
    { split; [done|]. by intros ct [= <-]. }
    apply cipherwp_bind. eapply cipherwp_mono; [|apply Hs]. intros r hist [Hl Hr]. split; [done|]. intros ct Hct.
    destruct r as [ct'|e]; [|done]. injection Hct as ->. specialize (Hr ct eq_refl Hne).
    unfold sealed_column in Hr. by destruct (String.eqb_spec pt "").
Qed.

Lemma EncryptForRow_seals id platform pts past :
  cwp (EncryptForRow (id_envelope deps) id platform pts)
    (λ r hist, past ⊆ hist ∧ ∀ cts w ver fp, r = Ok (cts, w, ver, fp) → ∃ key aad,
       key_of_row id platform key aad w hist ∧ Forall2 (λ pt ct, sealed_column key aad pt ct hist) pts cts) past.
Proof.
  unfold EncryptForRow, key_of_row. destruct (ev_kms (id_envelope deps)); cbn [negb].
  - intros [key|e]; [|split; [set_solver|done]]. intros [[w v]|e]; [|split; [set_solver|done]].
    apply cipherwp_bind. eapply cipherwp_mono; [|apply seal_each_seals, aeadSeal_seals]. intros [cts|e] hist [Hl Hc]; [|split; [set_solver|done]].
    split; [set_solver|]. intros ? ? ? ?. destruct (resolveVersionForEncrypt _ v); [|done]. intros [= <- <- <- <-].
    eexists key, _. split; [|by apply Hc]. split; [done|]. split; [apply Hl; right; left|]. exists w, v. split; [done|]. apply Hl. left.
  - destruct (ev_legacy (id_envelope deps)) as [legacy|] eqn:El; [|done]. apply cipherwp_bind.
    eapply cipherwp_mono; [|apply seal_each_seals, Encrypt_seals]. intros [cts|e] hist [Hl Hc]; (split; [set_solver|]); [|done].
    intros ? ? ? ? [= <- <- <- <-]. exists legacy, "". split; [done|auto].
Qed.

Section connect.
Variable params : ConnectParams.
Notation gwp p Q := (wp (guarded_spec (insert_cleared params)) p Q).

Lemma gwp_bind {A B} (p : prog A) (f : A → prog B) Q past :
  gwp p (λ a hist, past ⊆ hist → gwp (f a) Q hist) past → gwp (prog_bind p f) Q past.
Proof.
  intros Hp. apply wp_bind; [apply guarded_spec_mono|].
  eapply wp_mono; [apply guarded_spec_mono| |apply guarded_grows, Hp]. cbn. intros a hist [Hq Hl]. auto.
Qed.

Lemma gwp_mono {A} (p : prog A) (Q Q' : A → history → Prop) past :
  (∀ a hist, Q a hist → Q' a hist) → gwp p Q past → gwp p Q' past.
Proof. apply wp_mono, guarded_spec_mono. Qed.

Lemma gwp_cipher {A} (p : Envelope.prog A) (Q : A → history → Prop) past : cwp p Q past → gwp (cipher p) Q past.
Proof.
  intros Hp. unfold cipher. revert past Hp.
  induction p as [a|B c k IH]; intros past Hp; cbn [wp embed] in *; [done|]. split; [done|]. intros b. apply IH, Hp.
Qed.

Lemma gate_actor past :
  gwp (gateActor deps (cp_actor_id params))
    (λ r hist, r = Ok tt → id_actors deps = true → cp_actor_id params ≠ uuid_nil →
       ∃ a, Answered (ActorC (cp_actor_id params)) a ∈ hist ∧ actor_cleared a) past.
Proof.
  unfold gateActor, is_nil. destruct (negb (id_actors deps) || bool_decide _) eqn:E.
  { intros _ Ha Hn. rewrite Ha, bool_decide_false in E by done. done. }
  split; [done|]. intros a Hr _ _. exists a. split; [left|]. destruct a as [u|[]]; cbn in *; [|done..].
  destruct (us_email_verified u); [|done]. split; [done|]. cbn in Hr.
  destruct (us_deletion_requested_at u); [|by left]. destruct (us_deletion_canceled_at u); [by right|done].
Qed.

Lemma gate_member past :
  gwp (gateMembership deps (cp_actor_id params) (cp_business_id params))
    (λ r hist, r = Ok tt → id_members deps = true → cp_actor_id params ≠ uuid_nil → cp_business_id params ≠ uuid_nil →
       member_cleared (cp_business_id params) (cp_actor_id params) hist) past.
Proof.
  unfold gateMembership, is_nil. destruct (_ || _ || _) eqn:E.
  { intros _ Ha Hn Hb. rewrite Ha, !bool_decide_false in E by done. done. }
  split; [done|]. intros [m|[]]; [|done..]. destruct (String.eqb_spec (cm_status m) memberStatusSuspended); [done|].
  split; [done|]. intros [role|[]]; [|done..]. cbn. destruct (can_loop _ _) eqn:Ep; [|done]. intros _ _ _ _.
  exists m, role. apply can_loop_spec in Ep. split_and!; [right; left|done|left|done].
Qed.

Lemma gate_business past :
  gwp (gateBusiness deps (cp_business_id params))
    (λ r hist, r = Ok tt → id_business deps = true → cp_business_id params ≠ uuid_nil →
       Answered (BusinessC (cp_business_id params)) (Ok tt) ∈ hist) past.
Proof.
  unfold gateBusiness, is_nil. destruct (_ || _) eqn:E.
  { intros _ Ha Hb. rewrite Ha, bool_decide_false in E by done. done. }
  split; [done|]. intros [[]|[]]; [|done..]. intros _ _ _. left.
Qed.

Lemma retire_silent b p e o1 o2 past : gwp (retire_existing b p e o1 o2) (λ _ _, True) past.
Proof.
  split; [done|]. intros [[|i l]|[]]; cbn; [done| |done..]. split; [done|]. intros now. split; [done|].
  intros [[|n]|er]; done.
Qed.

Lemma claim_checked past :
  gwp (check_claim params)
    (λ r hist, r = Ok tt → channel_cleared (cp_business_id params) (cp_platform params) (cp_external_id params) hist) past.
Proof.
  split; [done|]. intros [[|i l]|[]]; cbn; [|..|done|done].
  - intros _. exists []. split; [left|done].
  - destruct (bool_decide_reflect (in_business_id i = cp_business_id params)) as [He|]; [|done].
    intros _. exists (i :: l). split; [left|]. by intros j [= <-].
Qed.

(** [Create] keeps the id it is given and leaves the columns alone. *)
Lemma row_sealed_stored i id now (past past' : history) : past ⊆ past' → (in_id i ≠ uuid_nil → id = in_id i) →
  row_sealed params i past → row_sealed params (with_times id now i) past'.
Proof.
  intros Hl Hid (id0 & key & aad & Hn & Hi & Hk & Ha & Hr & Hu). exists id0, key, aad.
  split; [auto|]. split; [intros Hnil; cbn; specialize (Hi Hnil); rewrite <- Hi in Hnil |- *; auto|].
  split_and!; [|by eapply sealed_column_grows..]. unfold key_of_row in *. destruct (ev_kms (id_envelope deps)); [|done].
  destruct Hk as (? & ? & w & v & ? & ?). split; [done|]. split; [auto|]. exists w, v. auto.
Qed.

Lemma connected_sealed id cts w ver fp key aad past : Answered NewIDC id ∈ past →
  key_of_row id (cp_platform params) key aad w past →
  Forall2 (λ pt ct, sealed_column key aad pt ct past) [cp_access_token params; cp_refresh_token params; cp_user_token params] cts →
  row_sealed params (connected_row params id (cts, w, ver, fp)) past.
Proof.
  intros Hn Hk Hc. exists id, key, aad. split; [done|]. split; [done|]. split; [done|].
  apply Forall2_cons_inv_l in Hc as (a & l & Ha & Hc & ->). apply Forall2_cons_inv_l in Hc as (r & l' & Hr & Hc & ->).
  apply Forall2_cons_inv_l in Hc as (u & l'' & Hu & _ & ->). cbn. split_and!; [revert Ha|revert Hr|revert Hu];
    unfold sealed_column; by destruct (String.eqb _ "").
Qed.

Lemma store_cleared i past : cleared params past → row_sealed params i past →
  in_business_id i = cp_business_id params → in_platform i = cp_platform params →
  in_external_id i = cp_external_id params → in_status i = IntegrationStatusActive →
  gwp (store_new i) (λ _ _, True) past.
Proof.
  intros Hc Hrow Hb Hp He Hs. apply gwp_bind. unfold repository, Create.
  assert (∀ past', past ⊆ past' → cleared params past') as Hgrow.
  { intros past' Hl. destruct Hc as (H1 & H2 & H3 & H4). split_and!; [..|auto|].
    - intros Ha Hn. destruct (H1 Ha Hn) as (r & ? & ?). exists r. auto.
    - intros Ha Hn. destruct (H2 Ha Hn) as (m & role & ? & ? & ? & ?). exists m, role. auto.
    - intros Hx. destruct (H4 Hx) as (l & ? & ?). exists l. auto. }
  destruct (bool_decide_reflect (in_id i = uuid_nil)) as [Hid|Hid]; cbn; repeat (split; [done|intros ?]); (split; [|by intros [|[]]]);
    (split_and!; [done..|eapply row_sealed_stored; [|by intros|exact Hrow]; set_solver|apply Hgrow; set_solver]).
Qed.
End connect.

(** C33: Whatever its calls answer, [Connect] stores a row only for the business,
    platform and channel asked for, and only after the gates let it through: where the
    service is wired with them and the actor is known, a verified actor who is not
    leaving and an active membership whose role may connect integrations; where it is
    wired, a business that is not deleted; for a channel with an external id, no other
    business that holds it.  The tokens stored are those given, each sealed in this run
    under a key drawn and wrapped for the id of this very row, or, while no key service is
    configured, under the one old key. *)
Theorem connect_rests_on_gates (h : nat → ∀ B, IntegrationCall B → B) params :
  guarded (insert_cleared params) (run h 0 (Connect deps params) []).2.
Proof.
  refine (proj2 (run_guarded _ h 0 _ (λ _ _, True) [] _ I)). unfold Connect, required.
  destruct (is_nil (cp_business_id params)) eqn:Enil; [done|]. apply bool_decide_eq_false in Enil.
  destruct (String.eqb (cp_platform params) ""); [done|].
  apply gwp_bind. eapply gwp_mono; [|apply gate_actor]. intros [[]|e] h1 H1 _; [|done].
  apply gwp_bind. eapply gwp_mono; [|apply gate_member]. intros [[]|e] h2 H2 Hl2; [|done].
  apply gwp_bind. eapply gwp_mono; [|apply gate_business]. intros [[]|e] h3 H3 Hl3; [|done].
  apply gwp_bind. eapply (gwp_mono _ _ (λ r hist, r = Ok tt → cp_external_id params ≠ "" →
    channel_cleared (cp_business_id params) (cp_platform params) (cp_external_id params) hist)).
  2:{ destruct (String.eqb_spec (cp_external_id params) "") as [|Hne]; [by intros _ Hne|]. cbn [negb]. apply gwp_bind.
      eapply gwp_mono; [|apply claim_checked]. intros [[]|e] h4 H4 _; [|done].
      eapply gwp_mono; [|apply guarded_grows, (retire_silent _ _ _ _ _ _ h4)]. cbn. intros r h5 [_ Hl] _ _.
      destruct (H4 eq_refl) as (l & Hl4 & Hb). exists l. auto. }
  cbn beta. intros [[]|e] h4 H4 Hl4; [|done]. split; [done|]. intros id.
  apply gwp_bind, gwp_cipher. eapply cipherwp_mono; [|apply EncryptForRow_seals].
  intros [[[[cts w] ver] fp]|e] h5 [Hl5 Hsealed] _; [|done]. destruct (Hsealed _ _ _ _ eq_refl) as (key & aad & Hkey & Hcols).
  cbn beta iota. apply gwp_bind. apply (gwp_mono _ _ (λ _ _, True)).
  2:{ apply store_cleared; [|eapply connected_sealed; [apply Hl5; left|done..]|done..]. split_and!.
      - intros Ha Hn. destruct (H1 eq_refl Ha Hn) as (r & ? & ?). exists r. auto 10 using list_elem_of_further.
      - intros Ha Hn. destruct (H2 eq_refl Ha Hn Enil) as (m & role & ? & ? & ? & ?). exists m, role.
        auto 10 using list_elem_of_further.
      - intros Ha. auto 10 using list_elem_of_further.
      - intros Hx. destruct (H4 eq_refl Hx) as (l & ? & ?). exists l. auto 10 using list_elem_of_further. }
  intros [i|e] h6 _ _; [|done]. split; [done|]. intros []. by destruct (id_value_telemetry deps).
Qed.
End safety.
