(* ===== verification/IntegrationSystem.v ===== *)
(** * Token refresh under concurrency

    Any number of the operations of IntegrationService.v interleaved call by call over
    one integrations table, on any number of replicas, each of which may crash at any
    point and whose connections may fail before or after their effect, together with
    the re-encryption of rows ([services/api/cmd/rekey]), the retention purge and the
    other writers of the table.  A provider that rotates refresh tokens accepts each
    of them once.  The server may also drop the connection that holds a lock, and with
    it the lock, while its process goes on: the log shows that as [ELost]. *)

From S2P Require Import Prelude Json GoTime Types Users Tools Authz A2A Prog Envelope IntegrationStore OauthLock IntegrationService IntegrationSafety.
Local Open Scope go_scope.

(** What the history of a run shows, newest first: a lock's connection lost, a refresh
    token sent for an integration, a row [o] rewritten as [n] by a full update. *)
Inductive Entry :=
| ELost (tx : N)
| ESent (tx : N) (id : uuid) (token : string)
| EWrote (tx : N) (o n : Integration).

#[export] Instance Entry_eq_dec : EqDecision Entry.
Proof. solve_decision. Defined.

Section system.
Context {U : UUIDText} {G : Gcm} {K : Kms}.
Variables (deps : IntegrationDeps) (sha256 : string → string) (format_rfc3339 : Z → string).

(** [i] stores the refresh token [token]. *)
Definition refresh_of (i : Integration) (token : string) : Prop :=
  holds (id_envelope deps) (in_id i) (in_platform i) (in_wrapped_dek i) (in_refresh i) token.

Definition same_tokens (o n : Integration) : Prop :=
  in_id n = in_id o ∧ in_platform n = in_platform o ∧ ∀ token, refresh_of n token ↔ refresh_of o token.

Record Store := {
  st_table : table;
  st_locks : gmap Z N;
  st_txs : list N;
  st_ids : list uuid;
  st_log : list Entry;
}.

Definition with_table (t : table) (l : list Entry) (s : Store) : Store :=
  {| st_table := t; st_locks := st_locks s; st_txs := st_txs s; st_ids := st_ids s; st_log := l ++ st_log s |}.
Definition with_locks (m : gmap Z N) (s : Store) : Store :=
  {| st_table := st_table s; st_locks := m; st_txs := st_txs s; st_ids := st_ids s; st_log := st_log s |}.
Definition note (e : Entry) (s : Store) : Store :=
  {| st_table := st_table s; st_locks := st_locks s; st_txs := st_txs s; st_ids := st_ids s; st_log := e :: st_log s |}.
Definition new_tx (tx : N) (s : Store) : Store :=
  {| st_table := st_table s; st_locks := st_locks s; st_txs := tx :: st_txs s; st_ids := st_ids s; st_log := st_log s |}.
Definition draw (id : uuid) (s : Store) : Store :=
  {| st_table := st_table s; st_locks := st_locks s; st_txs := st_txs s; st_ids := id :: st_ids s; st_log := st_log s |}.

(** The end of a transaction gives up its locks. *)
Definition unlock (tx : N) (m : gmap Z N) : gmap Z N := filter (λ kv, kv.2 ≠ tx) m.

(** What a full update under a lock leaves in the log. *)
Definition written {X} (lk : option Lock) (q : SqlCall X) (t t' : table) : list Entry :=
  match q, lk with
  | UpdateC i, Some (tx, _) =>
      match t !! in_id i, t' !! in_id i with
      | Some o, Some n => [EWrote tx (row_integration o) (row_integration n)]
      | _, _ => []
      end
  | _, _ => []
  end.

Definition repo_step {B} (lk : option Lock) (c : RepoCall B) : Store → B → Store → Prop :=
  match c in RepoCall B return Store → B → Store → Prop with
  | SqlC q => λ s r s', ∃ t', step_sql q (st_table s) r t'
      ∧ ((t' = st_table s ∧ s' = s) ∨ (t' ≠ st_table s ∧ s' = with_table t' (written lk q (st_table s) t') s))
  | RepoNowC => λ s _ s', s' = s
  | RepoIDC => λ s id s', id ∉ st_ids s ∧ s' = draw id s
  end.

Definition sent_before (token : string) (l : list Entry) : Prop := ∃ tx id, ESent tx id token ∈ l.

(** A provider's new refresh token is none it was sent before. *)
Definition provider_new (token : string) (l : list Entry) (r : result goerr Refreshed) : Prop :=
  match r with
  | Ok (_, newRefresh, _) => newRefresh ≠ "" → newRefresh ≠ token ∧ ¬ sent_before newRefresh l
  | Err _ => True
  end.

(** One call answered [b]. *)
Definition call_step {B} (c : IntegrationCall B) : Store → B → Store → Prop :=
  match c in IntegrationCall B return Store → B → Store → Prop with
  | RepoC lk c => repo_step lk c
  | CipherC c => λ s b s', crypto_ans _ c b ∧ s' = s
  | RefreshTokenC lk token => λ s r s', provider_new token (st_log s) r
      ∧ s' = match lk with Some (tx, id) => note (ESent tx id token) s | None => s end
  | BeginTxC => λ s r s',
      match r with Ok tx => tx ∉ st_txs s ∧ s' = new_tx tx s | Err _ => s' = s end
  | TryLockC tx key => λ s r s',
      match r with
      | Ok true => ELost tx ∉ st_log s ∧ st_locks s !! key = None ∧ s' = with_locks (<[key := tx]> (st_locks s)) s
      | Ok false => is_Some (st_locks s !! key) ∧ s' = s
      | Err _ => s' = s ∨ (st_locks s !! key = None ∧ s' = with_locks (<[key := tx]> (st_locks s)) s)
      end
  | CommitC tx => λ s r s', s' = with_locks (unlock tx (st_locks s)) s ∨ (r ≠ Ok tt ∧ s' = s)
  | RollbackC tx => λ s _ s', s' = with_locks (unlock tx (st_locks s)) s ∨ s' = s
  | NewIDC => λ s id s', id ∉ st_ids s ∧ s' = draw id s
  | _ => λ s _ s', s' = s
  end.

(** The operations a process may run. *)
Inductive starts : prog unit → Prop :=
| start_token caller b p e reason : starts (forget (GetDecryptedToken deps sha256 caller b p e reason))
| start_connect params : starts (forget (Connect deps params))
| start_shared params : starts (forget (SetSharedSession deps format_rfc3339 params))
| start_metadata id m : starts (forget (UpdateMetadata id m))
| start_external id e : starts (forget (UpdateExternalID id e))
| start_delete id actor : starts (forget (Delete deps id actor))
| start_expired b p e : starts (forget (MarkTokenExpired b p e)).

(** Statements that touch no token: those of the health worker, the retention purge,
    the hard delete. *)
Definition neutral {X} (q : SqlCall X) : Prop :=
  match q with UpdateC _ | InsertC _ => False | _ => True end.

(** Rows sealed anew, each with the tokens it had. *)
Definition rekeyed (t t' : table) : Prop :=
  (∀ id, is_Some (t' !! id) → is_Some (t !! id))
  ∧ ∀ id o n, t !! id = Some o → t' !! id = Some n → same_tokens (row_integration o) (row_integration n).

Inductive env (s : Store) : Store → Prop :=
| env_lost tx : env s (note (ELost tx) (with_locks (unlock tx (st_locks s)) s))
| env_sql X (q : SqlCall X) r t' : neutral q → step_sql q (st_table s) r t' → env s (with_table t' [] s)
| env_rekey t' : rekeyed (st_table s) t' → env s (with_table t' [] s).

(** A table of rows under their ids, all counting as drawn, without history. *)
Definition quiet_start (s : Store) : Prop :=
  keyed (st_table s) ∧ (∀ id, is_Some (st_table s !! id) → id ∈ st_ids s) ∧ uuid_nil ∈ st_ids s
  ∧ st_locks s = ∅ ∧ st_log s = [].

(** ** What must hold of a log *)

(** A connection that lost its lock went on to write. *)
Fixpoint overtaken (l : list Entry) : Prop :=
  match l with
  | [] => False
  | e :: l => (match e with EWrote tx _ _ => ELost tx ∈ l | _ => False end) ∨ overtaken l
  end.

(** [token] of integration [id] was replaced in its row. *)
Definition spent (id : uuid) (token : string) (l : list Entry) : Prop :=
  ∃ tx o n, EWrote tx o n ∈ l ∧ in_id n = id ∧ refresh_of o token ∧ ¬ refresh_of n token.

Definition entry_ok (e : Entry) (l : list Entry) : Prop :=
  match e with
  | ESent tx id token => spent id token l → ELost tx ∈ l ∨ overtaken l
  | _ => True
  end.

Fixpoint log_ok (log : list Entry) : Prop :=
  match log with
  | [] => True
  | e :: l => entry_ok e l ∧ log_ok l
  end.

(** ** What a process holds

    The id it drew, and how far its turn under the lock went: begun, locked, the row
    read, its token sent and the replacement received ([""] when it stays), done. *)
Inductive Stage :=
| Locked
| Read (row : Integration)
| SentOn (row : Integration) (token newToken : string)
| Done.

Inductive Turn := Free | Begun (tx : N) | Holding (tx : N) (id : uuid) (stage : Stage).
Definition Hold : Type := option uuid * Turn.

Definition crypto_spec {B} (c : CryptoCall B) (h : Hold) (P : B → Hold → Prop) : Prop :=
  ∀ b, crypto_ans _ c b → P b h.

Definition sql_spec {X} (lk : option Lock) (q : SqlCall X) : Hold → (result PgError X → Hold → Prop) → Prop :=
  match q in SqlCall X return Hold → (result PgError X → Hold → Prop) → Prop with
  | UpdateC i => λ h P, ∃ tx id row token newToken, lk = Some (tx, id)
      ∧ h.2 = Holding tx id (SentOn row token newToken) ∧ in_id i = id ∧ in_platform i = in_platform row
      ∧ (∀ t, refresh_of i t → t = if String.eqb newToken "" then token else newToken)
      ∧ ∀ r, P r (h.1, Holding tx id Done)
  | InsertC i => λ h P, h.1 = Some (in_id i) ∧ ∀ r, P r (None, h.2)
  | SelectByIDC id => λ h P, ∀ r, (∀ i, r = Ok (Some i) → in_id i = id) →
      match r, h.2 with
      | Ok (Some i), Holding tx id' Locked => if decide (id = id') then P r (h.1, Holding tx id' (Read i)) else P r h
      | _, _ => P r h
      end
  | _ => λ h P, ∀ r, P r h
  end.

Definition repo_spec {B} (lk : option Lock) (c : RepoCall B) : Hold → (B → Hold → Prop) → Prop :=
  match c in RepoCall B return Hold → (B → Hold → Prop) → Prop with
  | SqlC q => sql_spec lk q
  | RepoNowC => λ h P, ∀ b, P b h
  | RepoIDC => λ h P, ∀ id, P id (Some id, h.2)
  end.

Definition integration_spec B (c : IntegrationCall B) : Hold → (B → Hold → Prop) → Prop :=
  match c in IntegrationCall B return Hold → (B → Hold → Prop) → Prop with
  | RepoC lk c => repo_spec lk c
  | CipherC c => crypto_spec c
  | RefreshTokenC lk token => λ h P, ∃ tx id row, lk = Some (tx, id) ∧ h.2 = Holding tx id (Read row)
      ∧ refresh_of row token
      ∧ ∀ r, P r (h.1, Holding tx id (SentOn row token (match r with Ok (_, new, _) => new | Err _ => "" end)))
  | BeginTxC => λ h P, h.2 = Free ∧ ∀ r, P r (h.1, match r with Ok tx => Begun tx | Err _ => Free end)
  | TryLockC tx key => λ h P, h.2 = Begun tx ∧ ∃ id, key = lockKey sha256 id
      ∧ ∀ r, P r (h.1, match r with Ok true => Holding tx id Locked | _ => Begun tx end)
  | CommitC tx => λ h P, (h.2 = Begun tx ∨ ∃ id st, h.2 = Holding tx id st)
      ∧ ∀ r, P r (h.1, match r with Ok _ => Free | Err _ => Begun tx end)
  | RollbackC tx => λ h P, (h.2 = Begun tx ∨ ∃ id st, h.2 = Holding tx id st) ∧ ∀ r, P r (h.1, Free)
  | NewIDC => λ h P, ∀ id, id ≠ uuid_nil → P id (Some id, h.2)
  | _ => λ h P, ∀ b, P b h
  end.

Lemma integration_spec_mono : monotone integration_spec.
Proof.
  intros B c h P P' HP. destruct c as [|lk B c|B c| | | | | | | | | | | | | | | | | |]; cbn; try naive_solver.
  - destruct c as [X q| |]; cbn; try naive_solver. destruct q; cbn; try naive_solver.
    intros Hs r Hr. specialize (Hs r Hr). destruct r as [[i|]|]; auto. destruct h.2 as [| |tx id' []]; auto.
    destruct (decide _); auto.
  - unfold crypto_spec. naive_solver.
Qed.

(** *** The operations keep to the rules *)

Notation iwp p Q h := (wp integration_spec p Q h).

Lemma iwp_bind {A B} (p : prog A) (f : A → prog B) (Q : B → Hold → Prop) h :
  iwp p (λ a, wp integration_spec (f a) Q) h → iwp (prog_bind p f) Q h.
Proof. apply wp_bind, integration_spec_mono. Qed.

Lemma iwp_mono {A} (p : prog A) (Q Q' : A → Hold → Prop) h : (∀ a h', Q a h' → Q' a h') → iwp p Q h → iwp p Q' h.
Proof. apply wp_mono, integration_spec_mono. Qed.

Lemma iwp_cipher {A} (p : Envelope.prog A) (Q : A → Hold → Prop) h :
  wp (plain_spec crypto_ans (λ _ _, True)) p (λ a _, Q a h) tt → iwp (cipher p) Q h.
Proof.
  intros Hp. apply wp_embed; [apply integration_spec_mono|]. induction p as [a|B c k IH]; cbn [wp] in *; [done|].
  intros b Hb. destruct Hp as [_ Hp]. by apply IH, Hp.
Qed.

(** A reading of a column: nothing changes, and what comes out is what the column
    holds. *)
Lemma iwp_column i op ct h (Q : result IntegrationError (string * Z) → Hold → Prop) :
  (∀ e, Q (Err e) h) →
  (∀ pt ver, holds (id_envelope deps) (in_id i) (in_platform i) (in_wrapped_dek i) ct pt → Q (Ok (pt, ver)) h) →
  iwp (decrypt_column deps i op ct) Q h.
Proof.
  intros He Ho. unfold decrypt_column. apply iwp_bind, iwp_cipher.
  eapply does_mono; [|apply DecryptToken_holds]. intros [[pt ver]|e] Hr; cbn; [|apply He]. apply Ho. by eapply Hr.
Qed.

Lemma iwp_optional i op ct h (Q : result IntegrationError (string * Z) → Hold → Prop) :
  (∀ r, Q r h) → iwp (decrypt_optional deps i op ct) Q h.
Proof. intros HQ. unfold decrypt_optional. destruct (negb _); [by apply iwp_column|apply HQ]. Qed.

Lemma iwp_expired i h (Q : bool → Hold → Prop) : (∀ b, Q b h) → iwp (expired i) Q h.
Proof. intros HQ. unfold expired. destruct (in_token_expires_at i); cbn; auto. Qed.

(** The second column of what [EncryptForRow] returned holds the refresh token. *)
Lemma column_refresh fresh a r u cts w ver fp at_ :
  Forall2 (column_of (holds (id_envelope deps) (in_id fresh) (in_platform fresh) w)) [a; r; u] cts →
  ∀ t, refresh_of (refreshed_row fresh (cts, w, ver, fp) at_) t → t = r.
Proof.
  intros Hc t. unfold refresh_of. cbn. inversion Hc as [|? ca ? cts1 _ Hc1]; subst.
  inversion Hc1 as [|? cr ? cts2 Hr _]; subst. cbn. destruct Hr as [[-> ->]|(_ & _ & Ho)].
  - destruct w as [w|]; cbn; [|intros (l & _ & Hd); by cbn in Hd].
    intros (dek & _ & Ho). revert Ho. unfold aeadOpen. by destruct (negb _).
  - intros Ht. by eapply holds_once.
Qed.

Lemma iwp_exchange tx id row d :
  in_id row = id →
  iwp (exchange_tokens deps (Some (tx, id)) row) (λ _ h, ∃ st, h = (d, Holding tx id st)) (d, Holding tx id (Read row)).
Proof.
  intros Hid. unfold exchange_tokens. apply iwp_bind, iwp_column; [by eexists|]. intros token ver Ht.
  exists tx, id, row. split_and!; [done..|]. intros [[[access new] expiresIn]|e]; [|by eexists].
  apply iwp_bind, iwp_optional. intros [user|e]; [|by eexists].
  apply iwp_bind, iwp_cipher. eapply does_mono; [|apply EncryptForRow_holds].
  intros [[[[cts w] v] fp]|e] Hc; [|by eexists]. intros now. cbn beta iota. apply iwp_bind.
  exists tx, id, row, token, new. split_and!; [done..| |].
  - intros t Hr. rewrite (column_refresh _ _ _ _ _ _ _ _ _ (Hc _ _ _ _ eq_refl) t Hr). by destruct (String.eqb_spec new "").
  - intros [[|n]|e]; by eexists.
Qed.

Lemma iwp_refresh tx id d :
  iwp (refresh_row deps (Some (tx, id)) id) (λ _ h, ∃ st, h = (d, Holding tx id st)) (d, Holding tx id Locked).
Proof.
  unfold refresh_row. cbn. intros [[row|]|e] Hr; cbn; [|by eexists..]. rewrite decide_True by done.
  apply iwp_bind, iwp_expired. intros [|]; [|by eexists]. apply iwp_exchange. by apply Hr.
Qed.

Lemma iwp_locked id d :
  iwp (WithRefreshLock sha256 id (λ tx, refresh_row deps (Some (tx, id)) id)) (λ _ h, h = (d, Free)) (d, Free).
Proof.
  split; [done|]. intros [tx|e]; [|done]. split; [done|]. exists id. split; [done|].
  intros [[|]|e]; [|split; [by left|done]..]. apply iwp_bind. eapply iwp_mono; [|apply iwp_refresh].
  intros [i|e] h [st ->]; (split; [right; by eexists _, _|]); [|done].
  intros [[]|e]; [done|]. split; [by left|done].
Qed.

Lemma iwp_retry id d :
  iwp (RefreshWithRetry sha256 id (λ tx, refresh_row deps (Some (tx, id)) id)) (λ _ h, h = (d, Free)) (d, Free).
Proof.
  unfold RefreshWithRetry. induction backoffs as [|wait waits IH]; [done|]. cbn [retry_lock].
  apply iwp_bind. eapply iwp_mono; [|apply iwp_locked]. intros [i|[]] h ->; cbn; try done.
  destruct (bool_decide _); [done|]. intros j [[]|e]; [apply IH|done].
Qed.

(** Calls that change nothing a process holds. *)
Ltac calm := repeat first
  [ done
  | apply iwp_bind
  | progress cbn beta iota
  | match goal with |- wp _ (if ?b then _ else _) _ _ => destruct b end
  | match goal with |- wp _ (match ?x with Ok _ => _ | Err _ => _ end) _ _ => destruct x end
  | match goal with |- wp _ (match ?x with Some _ => _ | None => _ end) _ _ => destruct x end
  | progress intros ].

Lemma iwp_release caller b p reason i d : iwp (release deps caller b p reason i) (λ _ h, h = (d, Free)) (d, Free).
Proof.
  unfold release. apply iwp_bind, iwp_optional. intros [access|e]; [|done]. apply iwp_bind, iwp_optional.
  intros [user|e]; [|done]. apply iwp_bind. destruct (String.eqb _ _); [by intros [[]|e]|].
  destruct (in_user_token_expires_at i); [by intros now [[]|e]|by intros [[]|e]].
Qed.

Lemma iwp_find b p e d : iwp (find_integration b p e) (λ _ h, h = (d, Free)) (d, Free).
Proof.
  unfold find_integration. apply iwp_bind. apply (iwp_mono _ (λ _ h, h = (d, Free))).
  - intros [[i|]|er] h ->; [done| |done]. by intros [l|er].
  - destruct (negb _); [|done]. by intros [[|i l]|er].
Qed.

Hypothesis pool : id_pool deps = true.

Lemma starts_token caller b p e reason :
  iwp (GetDecryptedToken deps sha256 caller b p e reason) (λ _ _, True) (None, Free).
Proof.
  unfold GetDecryptedToken. apply iwp_bind. eapply iwp_mono; [|apply iwp_find]. intros [i|er] h ->; [|done].
  destruct (negb _); [done|]. apply iwp_bind, iwp_expired. intros [|].
  - destruct (_ || _ || _); [done|]. rewrite pool. apply iwp_bind, iwp_bind.
    eapply iwp_mono; [|apply iwp_retry]. intros r h ->. cbn.
    destruct r as [fresh|err]; [|by destruct err as [| | | |[]]]. cbn [of_lock].
    eapply iwp_mono; [|apply iwp_release]. done.
  - eapply iwp_mono; [|apply iwp_release]. done.
Qed.

Lemma iwp_retire b p e o1 o2 d : iwp (retire_existing b p e o1 o2) (λ _ h, h = (d, Free)) (d, Free).
Proof. intros [[|i l]|er]; cbn; [done| |done]. by intros now [[|n]|er]. Qed.

Lemma iwp_store i id : in_id i = id → id ≠ uuid_nil → iwp (store_new i) (λ _ h, h.2 = Free) (Some id, Free).
Proof.
  intros <- Hne. apply iwp_bind. unfold repository, Create. rewrite bool_decide_false by done. cbn.
  intros now. split; [done|]. by intros [|[]].
Qed.

Lemma starts_connect params : iwp (Connect deps params) (λ _ _, True) (None, Free).
Proof.
  unfold Connect, required. destruct (is_nil _); [done|]. destruct (String.eqb _ _); [done|].
  apply iwp_bind. apply (iwp_mono _ (λ _ h, h = (None, Free))).
  2:{ unfold gateActor. destruct (_ || _); [done|]. by intros r. }
  intros [[]|e] h ->; [|done]. apply iwp_bind. apply (iwp_mono _ (λ _ h, h = (None, Free))).
  2:{ unfold gateMembership. destruct (_ || _ || _); [done|]. intros [m|[]]; [|done..]. destruct (String.eqb _ _); [done|]. by intros r. }
  intros [[]|e] h ->; [|done]. apply iwp_bind. apply (iwp_mono _ (λ _ h, h = (None, Free))).
  2:{ unfold gateBusiness. destruct (_ || _); [done|]. by intros r. }
  intros [[]|e] h ->; [|done]. apply iwp_bind. apply (iwp_mono _ (λ _ h, h = (None, Free))).
  2:{ destruct (negb _); [|done]. apply iwp_bind. apply (iwp_mono _ (λ _ h, h = (None, Free))).
      - intros [[]|e] h ->; [apply iwp_retire|done].
      - by intros [[|i l]|er]. }
  intros [[]|e] h ->; [|done]. intros id Hid. apply iwp_bind, iwp_cipher.
  eapply does_mono; [|apply EncryptForRow_holds]. intros [[[[cts w] ver] fp]|e] _; [|done]. cbn beta iota.
  apply iwp_bind. eapply iwp_mono; [|by apply iwp_store]. intros [i|e] h _; [|done]. intros []. by destruct (id_value_telemetry deps).
Qed.

Lemma starts_shared params : iwp (SetSharedSession deps format_rfc3339 params) (λ _ _, True) (None, Free).
Proof.
  unfold SetSharedSession, required. destruct (is_nil _); [done|]. do 2 (destruct (String.eqb _ _); [done|]).
  apply iwp_bind. eapply iwp_mono; [|apply iwp_retire]. intros [[]|e] h ->; [|done]. intros id Hid.
  apply iwp_bind, iwp_cipher. eapply does_mono; [|apply EncryptForRow_holds]. intros [[[[cts w] ver] fp]|e] _; [|done].
  intros now. cbn beta iota. apply iwp_bind. eapply iwp_mono; [|by apply iwp_store]. by intros [i|e] h _.
Qed.

(** Operations that read a row and change one column. *)
Lemma iwp_get id d : iwp (repository None (GetByID id)) (λ _ h, h = (d, Free)) (d, Free).
Proof. by intros [[i|]|e]. Qed.

Lemma starts_wp p : starts p → iwp p (λ _ _, True) (None, Free).
Proof.
  intros Hp. destruct Hp; apply wp_forget; try exact integration_spec_mono.
  - apply starts_token.
  - apply starts_connect.
  - apply starts_shared.
  - unfold UpdateMetadata, with_ctx, required. intros [e|]; [done|]. destruct (is_nil id); [done|]. apply iwp_bind, iwp_bind.
    eapply iwp_mono; [|apply iwp_get]. intros [i|e] h ->; [|done]. apply iwp_bind, iwp_bind. by intros [[|n]|e].
  - unfold UpdateExternalID, with_ctx, required. intros [e'|]; [done|]. destruct (is_nil id); [done|].
    destruct (String.eqb _ _); [done|]. apply iwp_bind, iwp_bind.
    eapply iwp_mono; [|apply iwp_get]. intros [i|e'] h ->; [|done]. apply iwp_bind, iwp_bind. by intros [[|n]|e'].
  - unfold Delete, with_ctx, required. intros [e|]; [done|]. destruct (is_nil id); [done|]. apply iwp_bind, iwp_bind.
    eapply iwp_mono; [|apply iwp_get]. intros [i|e] h ->; [|done]. apply iwp_bind, iwp_bind. intros now [[|n]|e]; [done| |done].
    intros []. cbn. by destruct (id_nats deps).
  - unfold MarkTokenExpired, required. destruct (is_nil b); [done|]. destruct (String.eqb p ""); [done|].
    apply iwp_bind. unfold repository, IntegrationStore.MarkTokenExpired. cbn. intros [n|er]; cbn; [|done].
    destruct n as [|n]; cbn; [|done]. destruct (String.eqb e ""); cbn; [done|].
    intros [[|]|er]; cbn; [done| |done]. intros [[|m]|er]; by cbn.
Qed.

(** *** How a call moves what its process holds *)

Definition sql_moves {X} (lk : option Lock) (q : SqlCall X) (h : Hold) : result PgError X → Hold → Prop :=
  match q in SqlCall X return result PgError X → Hold → Prop with
  | UpdateC i => λ _ h', ∃ tx id row token newToken, lk = Some (tx, id)
      ∧ h.2 = Holding tx id (SentOn row token newToken) ∧ in_id i = id ∧ in_platform i = in_platform row
      ∧ (∀ t, refresh_of i t → t = if String.eqb newToken "" then token else newToken)
      ∧ h' = (h.1, Holding tx id Done)
  | InsertC i => λ _ h', h.1 = Some (in_id i) ∧ h' = (None, h.2)
  | SelectByIDC id => λ r h', h' = h
      ∨ ∃ i tx, r = Ok (Some i) ∧ h.2 = Holding tx id Locked ∧ h' = (h.1, Holding tx id (Read i))
  | _ => λ _ h', h' = h
  end.

Definition repo_moves {B} (lk : option Lock) (c : RepoCall B) (h : Hold) : B → Hold → Prop :=
  match c in RepoCall B return B → Hold → Prop with
  | SqlC q => sql_moves lk q h
  | RepoNowC => λ _ h', h' = h
  | RepoIDC => λ id h', h' = (Some id, h.2)
  end.

Definition moves {B} (c : IntegrationCall B) (h : Hold) : B → Hold → Prop :=
  match c in IntegrationCall B return B → Hold → Prop with
  | RepoC lk c => repo_moves lk c h
  | RefreshTokenC lk token => λ r h', ∃ tx id row, lk = Some (tx, id) ∧ h.2 = Holding tx id (Read row)
      ∧ refresh_of row token
      ∧ h' = (h.1, Holding tx id (SentOn row token (match r with Ok (_, new, _) => new | Err _ => "" end)))
  | BeginTxC => λ r h', h.2 = Free ∧ h' = (h.1, match r with Ok tx => Begun tx | Err _ => Free end)
  | TryLockC tx key => λ r h', h.2 = Begun tx ∧ ∃ id, key = lockKey sha256 id
      ∧ h' = (h.1, match r with Ok true => Holding tx id Locked | _ => Begun tx end)
  | CommitC tx => λ r h', (h.2 = Begun tx ∨ ∃ id st, h.2 = Holding tx id st)
      ∧ h' = (h.1, match r with Ok _ => Free | Err _ => Begun tx end)
  | RollbackC tx => λ _ h', (h.2 = Begun tx ∨ ∃ id st, h.2 = Holding tx id st) ∧ h' = (h.1, Free)
  | NewIDC => λ id h', h' = (Some id, h.2)
  | _ => λ _ h', h' = h
  end.

(** A table kept under its ids. *)
Definition kept (s : Store) : Prop := keyed (st_table s) ∧ uuid_nil ∈ st_ids s.

Lemma spec_moves B (c : IntegrationCall B) s b s' h (P : B → Hold → Prop) :
  kept s → call_step c s b s' → integration_spec B c h P → ∃ h', P b h' ∧ moves c h b h'.
Proof.
  intros (Hk & Hnil) Hs. destruct c as [|lk B c|B c| | | | | | | | | | | | | | | | | |]; cbn in *; try naive_solver.
  - destruct c as [X q| |]; cbn in *; [|naive_solver..]. destruct Hs as (t' & Hs & _).
    apply step_sql_ans in Hs; [|done]. destruct q; cbn in *; try naive_solver.
    intros HP. specialize (HP b Hs). destruct b as [[i|]|]; [|naive_solver..].
    destruct h.2 as [| |tx id' []] eqn:E; try naive_solver. destruct (decide (id = id')) as [->|]; [|naive_solver].
    eexists; split; [exact HP|]. right. eauto.
Qed.

(** *** The invariant *)

Definition unspent (id : uuid) (i : Integration) (l : list Entry) : Prop :=
  ∀ token, refresh_of i token → ¬ spent id token l.

(** [row], read under the lock, still is what the table stores. *)
Definition current (row : Integration) (id : uuid) (s : Store) : Prop :=
  unspent id row (st_log s) ∧ ∀ r, st_table s !! id = Some r → same_tokens row (row_integration r).

Definition stage_ok (id : uuid) (st : Stage) (s : Store) : Prop :=
  match st with
  | Locked | Done => True
  | Read row => current row id s
  | SentOn row token newToken => current row id s ∧ refresh_of row token ∧ sent_before token (st_log s)
      ∧ (newToken ≠ "" → newToken ≠ token ∧ ¬ spent id newToken (st_log s))
  end.

(** The integration whose row the process has read under the lock. *)
Definition reads (t : Turn) : option uuid :=
  match t with Holding _ id (Read _) | Holding _ id (SentOn _ _ _) => Some id | _ => None end.

Definition turn_ok (t : Turn) (s : Store) : Prop :=
  (∀ id, reads t = Some id → id ∈ st_ids s) ∧
  match t with
  | Free => True
  | Begun tx => tx ∈ st_txs s
  | Holding tx id st => tx ∈ st_txs s
      ∧ (ELost tx ∉ st_log s → st_locks s !! lockKey sha256 id = Some tx ∧ stage_ok id st s)
  end.

Definition drawn_ok (d : option uuid) (s : Store) : Prop :=
  ∀ id, d = Some id → id ∈ st_ids s ∧ st_table s !! id = None ∧ ∀ tx o n, EWrote tx o n ∈ st_log s → in_id n ≠ id.

Definition tx_of (t : Turn) : option N :=
  match t with Free => None | Begun tx => Some tx | Holding tx _ _ => Some tx end.

(** No two processes hold the same transaction or drew the same id. *)
Definition apart (hs : list Hold) : Prop :=
  ∀ i j h h', hs !! i = Some h → hs !! j = Some h' → i ≠ j →
    (∀ tx, tx_of h.2 = Some tx → tx_of h'.2 ≠ Some tx) ∧ (∀ id, h.1 = Some id → h'.1 ≠ Some id).

(** An id drawn for a new row is none whose row was read. *)
Definition strangers (hs : list Hold) : Prop :=
  ∀ h h' id, h ∈ hs → h' ∈ hs → reads h.2 = Some id → h'.1 ≠ Some id.

Definition tokens_ok (s : Store) : Prop :=
  (∀ id r, st_table s !! id = Some r → unspent id (row_integration r) (st_log s))
  ∧ (∀ id token, spent id token (st_log s) → sent_before token (st_log s))
  ∧ (∀ tx o n, EWrote tx o n ∈ st_log s → in_id n ∈ st_ids s)
  ∧ (∀ id, is_Some (st_table s !! id) → id ∈ st_ids s).

Definition inv (s : Store) (hs : list Hold) : Prop :=
  tokens_ok s ∧ apart hs ∧ strangers hs ∧ ∀ h, h ∈ hs → turn_ok h.2 s ∧ drawn_ok h.1 s.

Definition safe (s : Store) (hs : list Hold) : Prop :=
  kept s ∧ log_ok (st_log s) ∧ (overtaken (st_log s) ∨ inv s hs).

Lemma same_refl i : same_tokens i i.
Proof. by split_and!. Qed.

Lemma same_trans i j k : same_tokens i j → same_tokens j k → same_tokens i k.
Proof. intros (Hi & Hp & Ht) (Hi' & Hp' & Ht'). split_and!; [congruence..|]. intros token. by rewrite Ht'. Qed.

Lemma rekeyed_refl t : rekeyed t t.
Proof. split; [done|]. intros id o n Ho Hn. rewrite Ho in Hn. injection Hn as <-. apply same_refl. Qed.

Lemma rekeyed_put t id i j : keyed t → row_of id t = Some i → same_tokens i j → rekeyed t (put j t).
Proof.
  intros Hk (d & Hl)%row_of_lookup Hs. pose proof (Hk _ _ Hl) as Hid. cbn in Hid. destruct Hs as (Hj & Hs).
  unfold put. rewrite Hj, Hid. split.
  - intros id' [r Hr]. apply lookup_insert_Some in Hr as [[<- _]|[_ Hr]]; eauto.
  - intros id' o n Ho [[<- <-]|[_ Hr]]%lookup_insert_Some.
    + rewrite Hl in Ho. injection Ho as <-. by split.
    + rewrite Ho in Hr. injection Hr as <-. apply same_refl.
Qed.

Lemma neutral_rekeyed {X} (q : SqlCall X) t r t' : keyed t → neutral q → step_sql q t r t' → rekeyed t t'.
Proof.
  intros Hk Hn Hs. apply step_sql_table in Hs as [->|(now & ord & ->)]; [apply rekeyed_refl|].
  assert (∀ id f, (∀ i, same_tokens i (f i)) → rekeyed t (update_row id f t).2) as Hu.
  { intros id f Hf. destruct (update_row_table id f t) as [->|(i & Hi & ->)]; [apply rekeyed_refl|by eapply rekeyed_put]. }
  assert (∀ p, rekeyed t (rows_gone p t).2) as Hg.
  { intros p. split.
    - intros id [n Hr]. cbn in Hr. apply map_lookup_filter_Some in Hr as [Hr _]. eauto.
    - intros id o n Ho Hr. cbn in Hr. apply map_lookup_filter_Some in Hr as [Hr _]. rewrite Ho in Hr.
      injection Hr as <-. apply same_refl. }
  destruct q; cbn; try done; try apply rekeyed_refl.
  - by apply Hu.
  - by apply Hu.
  - by apply Hu.
  - apply (Hg (λ kr, bool_decide (kr.1 = id))).
  - destruct (row_of id t) as [i|] eqn:E; [|apply rekeyed_refl]. apply row_of_lookup in E as [d E]. split.
    + intros id' [n Hr]. cbn in Hr. apply lookup_insert_Some in Hr as [[<- _]|[_ Hr]]; eauto.
    + intros id' o n Ho. cbn. intros [[<- <-]|[_ Hr]]%lookup_insert_Some.
      * rewrite E in Ho. injection Ho as <-. apply same_refl.
      * rewrite Ho in Hr. injection Hr as <-. apply same_refl.
  - apply (Hg (λ kr, match row_deleted_at kr.2 with Some d => (d <? cutoff)%Z | None => false end)).
  - split.
    + intros id [n Hr]. rewrite lookup_fmap in Hr. destruct (t !! id); eauto.
    + intros id o n Ho Hr. rewrite lookup_fmap, Ho in Hr. cbn in Hr. injection Hr as <-.
      destruct (expires _ _ _ o); [by split_and!|apply same_refl].
Qed.

Lemma step_keyed {X} (q : SqlCall X) t r t' : keyed t → step_sql q t r t' → keyed t'.
Proof. intros Hk [->|(now & ord & ->)]%step_sql_table; [done|by apply run_sql_keyed]. Qed.

Lemma rekeyed_keyed t t' : keyed t → rekeyed t t' → keyed t'.
Proof.
  intros Hk [Hd Hs] id n Hn. destruct (Hd id) as [o Ho]; [by eexists|].
  destruct (Hs id o n Ho Hn) as (-> & _). by apply Hk.
Qed.

(** *** What steps keep *)

(** No row rewritten. *)
Definition quiet (l : list Entry) : Prop := ∀ tx o n, EWrote tx o n ∉ l.

Lemma spent_quiet id token l0 l : quiet l0 → spent id token (l0 ++ l) ↔ spent id token l.
Proof.
  intros Hq. unfold spent. split; intros (tx & o & n & Hin & Hr); exists tx, o, n; (split; [|done]).
  - by apply elem_of_app in Hin as [Hin|Hin]; [destruct (Hq _ _ _ Hin)|].
  - apply elem_of_app. by right.
Qed.

Lemma sent_more token l0 l : sent_before token l → sent_before token (l0 ++ l).
Proof. intros (tx & id & Hin). exists tx, id. apply elem_of_app. by right. Qed.

Lemma overtaken_more l0 l : overtaken l → overtaken (l0 ++ l).
Proof. induction l0; [done|]. cbn. auto. Qed.

(** [s'] follows [s] without a row rewritten, its tokens kept; [keeps tx]: the locks of
    [tx] are kept. *)
Record follows (keeps : N → Prop) (s s' : Store) : Prop := {
  fo_table : rekeyed (st_table s) (st_table s');
  fo_log : ∃ l0, quiet l0 ∧ st_log s' = l0 ++ st_log s;
  fo_ids : st_ids s ⊆ st_ids s';
  fo_txs : st_txs s ⊆ st_txs s';
  fo_locks : ∀ tx key, keeps tx → ELost tx ∉ st_log s' → st_locks s !! key = Some tx → st_locks s' !! key = Some tx;
}.

Section follows.
Context {keeps : N → Prop} {s s' : Store} (F : follows keeps s s').

Lemma spent_follows id token : spent id token (st_log s') ↔ spent id token (st_log s).
Proof. destruct (fo_log _ _ _ F) as (l0 & Hq & ->). by apply spent_quiet. Qed.

Lemma sent_follows token : sent_before token (st_log s) → sent_before token (st_log s').
Proof. destruct (fo_log _ _ _ F) as (l0 & _ & ->). apply sent_more. Qed.

Lemma lost_follows tx : ELost tx ∉ st_log s' → ELost tx ∉ st_log s.
Proof. destruct (fo_log _ _ _ F) as (l0 & _ & ->). intros Hn Hl. apply Hn, elem_of_app. by right. Qed.

Lemma current_follows row id : current row id s → current row id s'.
Proof.
  intros [Hu Hc]. split; [intros token Ht; rewrite spent_follows; by apply Hu|].
  intros n Hn. destruct (fo_table _ _ _ F) as [Hd Hs]. destruct (Hd id) as [o Ho]; [by eexists|].
  eapply same_trans; [by apply Hc|]. by eapply Hs.
Qed.

Lemma stage_follows id st : stage_ok id st s → stage_ok id st s'.
Proof.
  destruct st; cbn; try done; [apply current_follows|]. intros (Hc & Hr & Hs & Hn).
  split_and!; [by apply current_follows|done|by apply sent_follows|]. rewrite spent_follows. done.
Qed.

Lemma turn_follows t : (∀ tx, tx_of t = Some tx → keeps tx) → turn_ok t s → turn_ok t s'.
Proof.
  intros Hk [Hr Ht]. split; [intros id Hid; by apply (fo_ids _ _ _ F), Hr|]. revert Ht.
  destruct t as [|tx|tx id st]; cbn; [done|apply (fo_txs _ _ _ F)|]. intros [Htx Hl].
  split; [by apply (fo_txs _ _ _ F)|]. intros Hn. destruct (Hl (lost_follows _ Hn)) as [Hlock Hst].
  split; [by apply (fo_locks _ _ _ F); [apply Hk| |]|by apply stage_follows].
Qed.

Lemma drawn_follows d : drawn_ok d s → drawn_ok d s'.
Proof.
  intros Hd id ->. destruct (Hd id eq_refl) as (Hi & Ht & Hw). split_and!.
  - by apply (fo_ids _ _ _ F).
  - apply eq_None_not_Some. intros Hs. apply (proj1 (fo_table _ _ _ F)) in Hs. rewrite Ht in Hs. by destruct Hs.
  - destruct (fo_log _ _ _ F) as (l0 & Hq & ->). intros tx o n [Hin|Hin]%elem_of_app; [by destruct (Hq _ _ _ Hin)|by eapply Hw].
Qed.

Lemma tokens_follows : tokens_ok s → tokens_ok s'.
Proof.
  intros (H1 & H2 & H3 & H4). destruct (fo_table _ _ _ F) as [Hd Hs]. split_and!.
  - intros id n Hn token Ht. rewrite spent_follows. destruct (Hd id) as [o Ho]; [by eexists|].
    apply (H1 id o Ho). by apply (Hs id o n Ho Hn).
  - intros id token. rewrite spent_follows. intros Hsp. by eapply sent_follows, H2.
  - destruct (fo_log _ _ _ F) as (l0 & Hq & ->). intros tx o n [Hin|Hin]%elem_of_app; [by destruct (Hq _ _ _ Hin)|].
    by eapply (fo_ids _ _ _ F), H3.
  - intros id Hn. by apply (fo_ids _ _ _ F), H4, Hd.
Qed.
End follows.

(** One process moves, the others stay. *)
Lemma apart_move hs i h h' :
  apart hs → hs !! i = Some h →
  (∀ tx, tx_of h'.2 = Some tx → tx_of h.2 = Some tx ∨ ∀ hj, hj ∈ hs → tx_of hj.2 ≠ Some tx) →
  (∀ id, h'.1 = Some id → h.1 = Some id ∨ ∀ hj, hj ∈ hs → hj.1 ≠ Some id) →
  apart (<[i := h']> hs).
Proof.
  intros Ha Hi Htx Hid.
  assert (∀ j hj, hs !! j = Some hj → i ≠ j →
    (∀ tx, tx_of h'.2 = Some tx → tx_of hj.2 ≠ Some tx) ∧ (∀ id, h'.1 = Some id → hj.1 ≠ Some id)) as Hone.
  { intros j hj Hj Hne. destruct (Ha i j h hj Hi Hj Hne) as [H1 H2]. split.
    - intros tx Ht. destruct (Htx tx Ht) as [He|He]; [by apply H1|]. by eapply He, list_elem_of_lookup_2.
    - intros id Ht. destruct (Hid id Ht) as [He|He]; [by apply H2|]. by eapply He, list_elem_of_lookup_2. }
  intros j k hj hk Hj Hk Hne.
  apply list_lookup_insert_Some in Hj as [(<- & <- & _)|[Hj1 Hj]];
    apply list_lookup_insert_Some in Hk as [(<- & <- & _)|[Hk1 Hk]]; [done|exact (Hone k hk Hk Hk1)| |exact (Ha j k hj hk Hj Hk Hne)].
  destruct (Hone j hj Hj Hj1) as [H1 H2]. split; intros x Hx Hx'; [by apply (H1 x Hx')|by apply (H2 x Hx')].
Qed.

Lemma inv_move s s' hs i h h' :
  inv s hs → hs !! i = Some h → tokens_ok s' →
  (∀ j hj, hs !! j = Some hj → i ≠ j → turn_ok hj.2 s' ∧ drawn_ok hj.1 s') →
  turn_ok h'.2 s' → drawn_ok h'.1 s' →
  (∀ tx, tx_of h'.2 = Some tx → tx_of h.2 = Some tx ∨ ∀ hj, hj ∈ hs → tx_of hj.2 ≠ Some tx) →
  (∀ id, h'.1 = Some id → h.1 = Some id ∨ ∀ hj, hj ∈ hs → hj.1 ≠ Some id ∧ reads hj.2 ≠ Some id) →
  (∀ id, reads h'.2 = Some id → reads h.2 = Some id ∨ ∀ hj, hj ∈ hs → hj.1 ≠ Some id) →
  (h'.1 = h.1 ∨ reads h'.2 = reads h.2) →
  inv s' (<[i := h']> hs).
Proof.
  intros (_ & Ha & Hst & _) Hi Ht Hothers Hturn Hdrawn Htx Hid Hrd Hone. pose proof (list_elem_of_lookup_2 _ _ _ Hi) as Hin.
  split_and!; [done| | |].
  { eapply apart_move; [done..|]. intros id Hx. destruct (Hid id Hx) as [?|Hn]; [by left|right]. intros hj Hj. by apply Hn. }
  { assert (∀ hj, hj ∈ <[i:=h']> hs → hj = h' ∨ hj ∈ hs) as Hcase.
    { intros hj [j Hj]%list_elem_of_lookup. apply list_lookup_insert_Some in Hj as [(_ & <- & _)|[_ Hj]]; [by left|right].
      by eapply list_elem_of_lookup_2. }
    intros hj hk id [->|Hj]%Hcase [->|Hk]%Hcase Hr Hd.
    - destruct Hone as [He|He]; [|destruct (Hid id Hd) as [?|Hn]; [by eapply (Hst h h); [done..|by rewrite <- He|]|]].
      + rewrite He in Hd. destruct (Hrd id Hr) as [?|Hn]; [by eapply (Hst h h)|by eapply Hn].
      + destruct (Hn h Hin) as [_ Hx]. by rewrite <- He in Hx.
    - destruct (Hrd id Hr) as [?|Hn]; [by eapply (Hst h hk)|by eapply Hn].
    - destruct (Hid id Hd) as [?|Hn]; [by eapply (Hst hj h)|by apply (Hn hj Hj)].
    - by eapply (Hst hj hk). }
  intros hk Hk. apply list_elem_of_lookup in Hk as [k Hk].
  apply list_lookup_insert_Some in Hk as [(<- & <- & _)|[Hne Hk]]; [done|by apply (Hothers k hk)].
Qed.

Lemma inv_follows keeps s s' hs :
  follows keeps s s' → (∀ h tx, h ∈ hs → tx_of h.2 = Some tx → keeps tx) → inv s hs → inv s' hs.
Proof.
  intros F Hk (Ht & Ha & Hst & Hh). split_and!; [by eapply tokens_follows|done..|]. intros h Hin.
  destruct (Hh h Hin) as [H1 H2]. split; [|by eapply drawn_follows]. eapply turn_follows; [done| |done]. eauto.
Qed.

(** A step after which the process alone has moved. *)
Lemma inv_moved s s' hs i h h' :
  follows (λ tx, tx_of h.2 ≠ Some tx) s s' → inv s hs → hs !! i = Some h →
  turn_ok h'.2 s' → drawn_ok h'.1 s' →
  (∀ tx, tx_of h'.2 = Some tx → tx_of h.2 = Some tx ∨ tx ∉ st_txs s) →
  (∀ id, h'.1 = Some id → h.1 = Some id ∨ id ∉ st_ids s) →
  (∀ id, reads h'.2 = Some id → reads h.2 = Some id ∨ is_Some (st_table s !! id)) →
  (h'.1 = h.1 ∨ reads h'.2 = reads h.2) →
  inv s' (<[i := h']> hs).
Proof.
  intros F Hinv Hi Ht Hd Htx Hid Hrd Hone. pose proof Hinv as (Htok & Ha & Hst & Hh).
  apply (inv_move s s' hs i h h'); [done..|by eapply tokens_follows| |done|done| | | |done].
  - intros j hj Hj Hne. destruct (Hh hj) as [H1 H2]; [by eapply list_elem_of_lookup_2|].
    split; [|by eapply drawn_follows]. eapply turn_follows; [done| |done]. intros tx Htxj Hth.
    by destruct (Ha i j h hj Hi Hj Hne) as [Hx _]; destruct (Hx tx Hth).
  - intros tx Hx. destruct (Htx tx Hx) as [?|Hn]; [by left|right]. intros hj Hin Heq. destruct (Hh hj Hin) as [Hj _].
    destruct Hj as [_ Hj]. destruct hj as [dj [|tx'|tx' id' st']]; cbn in *; [done|..]; injection Heq as ->; [done|by destruct Hj].
  - intros id Hx. destruct (Hid id Hx) as [?|Hn]; [by left|right]. intros hj Hin. destruct (Hh hj Hin) as [[Hr _] Hj].
    split; [intros Heq; by destruct (Hj id Heq)|intros Heq; by apply Hn, Hr].
  - intros id Hx. destruct (Hrd id Hx) as [?|[r Hr]]; [by left|right]. intros hj Hin Heq. destruct (Hh hj Hin) as [_ Hj].
    destruct (Hj id Heq) as (_ & Hnone & _). by rewrite Hr in Hnone.
Qed.

Lemma follows_same keeps s : follows keeps s s.
Proof. split; [apply rekeyed_refl|by exists []; split; [intros ? ? ? ?%elem_of_nil|]|done..]. Qed.

Lemma follows_locks keeps m s :
  (∀ tx key, keeps tx → st_locks s !! key = Some tx → m !! key = Some tx) → follows keeps s (with_locks m s).
Proof. intros Hm. split; [apply rekeyed_refl|by exists []; split; [intros ? ? ? ?%elem_of_nil|]|done..|]. intros tx key Hk _. by apply Hm. Qed.

Lemma follows_table keeps t s : rekeyed (st_table s) t → follows keeps s (with_table t [] s).
Proof. intros Hr. split; [done|by exists []; split; [intros ? ? ? ?%elem_of_nil|]|done..]. Qed.

Lemma follows_sent keeps tx id token s : follows keeps s (note (ESent tx id token) s).
Proof. split; [apply rekeyed_refl|by exists [ESent tx id token]; split; [intros ? ? ? ?%list_elem_of_singleton|]|done..]. Qed.

Lemma follows_draw keeps id s : follows keeps s (draw id s).
Proof. split; [apply rekeyed_refl|by exists []; split; [intros ? ? ? ?%elem_of_nil|]|set_solver|done..]. Qed.

Lemma follows_tx keeps tx s : follows keeps s (new_tx tx s).
Proof. split; [apply rekeyed_refl|by exists []; split; [intros ? ? ? ?%elem_of_nil|]|done|set_solver|done]. Qed.

(** The end of a transaction keeps the locks of the others. *)
Lemma unlock_keeps tx tx' key m : tx' ≠ tx → m !! key = Some tx' → unlock tx m !! key = Some tx'.
Proof. intros Hne Hm. unfold unlock. by apply map_lookup_filter_Some. Qed.

Lemma follows_unlock tx s (keeps : N → Prop) : (∀ tx', keeps tx' → tx' ≠ tx) →
  follows keeps s (with_locks (unlock tx (st_locks s)) s).
Proof. intros Hk. apply follows_locks. intros tx' key Hx. apply unlock_keeps. auto. Qed.

Lemma follows_lost tx s : follows (λ _, True) s (note (ELost tx) (with_locks (unlock tx (st_locks s)) s)).
Proof.
  split; cbn; [apply rekeyed_refl|by exists [ELost tx]; split; [intros ? ? ? ?%list_elem_of_singleton|]|done..|].
  intros tx' key _ Hn. apply unlock_keeps. intros ->. apply Hn. left.
Qed.

(** *** A row rewritten under a lock *)

Section rewrite.
Variables (s : Store) (hs : list Hold) (i : nat) (h : Hold) (tx : N) (id : uuid) (row o n upd : Integration)
  (token newToken : string) (now : Z).
Hypothesis Hkept : kept s.
Hypothesis Hinv : inv s hs.
Hypothesis Hi : hs !! i = Some h.
Hypothesis Hh : h.2 = Holding tx id (SentOn row token newToken).
Hypothesis Hid : in_id upd = id.
Hypothesis Hplatform : in_platform upd = in_platform row.
Hypothesis Htokens : ∀ t, refresh_of upd t → t = if String.eqb newToken "" then token else newToken.
Hypothesis Ho : row_of id (st_table s) = Some o.
Hypothesis Hn : n = overwrite now upd o.
Hypothesis Hlive : ELost tx ∉ st_log s.

Let s' : Store := with_table (put n (st_table s)) [EWrote tx o n] s.

Lemma holder : current row id s ∧ refresh_of row token ∧ sent_before token (st_log s)
  ∧ (newToken ≠ "" → newToken ≠ token ∧ ¬ spent id newToken (st_log s)) ∧ st_locks s !! lockKey sha256 id = Some tx.
Proof.
  destruct Hinv as (_ & _ & _ & Hall). destruct (Hall h) as [Ht _]; [by eapply list_elem_of_lookup_2|].
  rewrite Hh in Ht. destruct Ht as (_ & _ & Ht). destruct (Ht Hlive) as (Hl & Hc & Hr & Hs & Hne). done.
Qed.

Lemma old_row : in_id o = id ∧ ∃ d, st_table s !! id = Some {| row_integration := o; row_deleted_at := d |}.
Proof. destruct (row_of_lookup _ _ _ Ho) as [d Hl]. split; [by apply Hkept in Hl|by exists d]. Qed.

Lemma old_token t : refresh_of o t → t = token.
Proof.
  destruct old_row as (_ & d & Hl), holder as ((_ & Hc) & Hr & _). destruct (Hc _ Hl) as (_ & _ & Hs).
  intros Ht. apply Hs in Ht. by eapply holds_once.
Qed.

Lemma new_id : in_id n = id.
Proof. subst n. apply old_row. Qed.

Lemma new_token t : refresh_of n t → t = if String.eqb newToken "" then token else newToken.
Proof.
  intros Ht. apply Htokens. destruct old_row as (Hoid & d & Hl), holder as ((_ & Hc) & _).
  destruct (Hc _ Hl) as (_ & Hp & _). revert Ht. subst n. unfold refresh_of. cbn in *. rewrite Hoid, Hp, <- Hplatform. by subst id.
Qed.

(** Only [token] is spent by the rewriting, and only if it is no longer stored. *)
Lemma spent_rewrite id' t : spent id' t (st_log s') ↔ spent id' t (st_log s) ∨ (id' = id ∧ refresh_of o t ∧ ¬ refresh_of n t).
Proof.
  unfold spent, s'. cbn. split.
  - intros (tx' & o' & n' & [[= -> -> ->]|Hin]%elem_of_cons & Hi' & Hr); [right|left; by exists tx', o', n'].
    rewrite new_id in Hi'. done.
  - intros [(tx' & o' & n' & Hin & Hr)|(-> & Hr)].
    + exists tx', o', n'. split; [by right|done].
    + exists tx, o, n. split; [left|]. split; [apply new_id|done].
Qed.

Lemma unspent_rewrite id' j : id' ≠ id → unspent id' j (st_log s) → unspent id' j (st_log s').
Proof. intros Hne Hu t Ht. rewrite spent_rewrite. intros [Hs|[? _]]; [by eapply Hu|done]. Qed.

Lemma tokens_rewrite : tokens_ok s'.
Proof.
  destruct Hinv as ((H1 & H2 & H3 & H4) & _), old_row as (Hoid & d & Hl), holder as ((Hu & _) & Hr & Hs & Hne & _).
  assert (id ∈ st_ids s) as Hids by (apply H4; by eexists). split_and!.
  - intros id' r Hr'. unfold s', put in Hr'. cbn in Hr'. rewrite new_id in Hr'.
    apply lookup_insert_Some in Hr' as [[<- <-]|[Hd Hr']]; [|by apply unspent_rewrite, H1].
    intros t Ht. cbn in Ht. rewrite spent_rewrite. pose proof (new_token t Ht) as Htok.
    destruct (String.eqb_spec newToken "") as [He|He]; subst t.
    + intros [Hsp|(_ & _ & Hno)]; [by apply (Hu token)|done].
    + destruct (Hne He) as [_ Hsp]. intros [?|(_ & _ & Hno)]; [done|by apply Hno].
  - intros id' t [Hsp|(_ & Hot & _)]%spent_rewrite.
    + apply (sent_more _ [EWrote tx o n]). by eapply H2.
    + apply old_token in Hot as ->. by apply (sent_more _ [EWrote tx o n]).
  - intros tx' o' n' [[= -> -> ->]|Hin]%elem_of_cons; [by rewrite new_id|by eapply H3].
  - intros id' [r Hr']. unfold s', put in Hr'. cbn in Hr'. rewrite new_id in Hr'.
    apply lookup_insert_Some in Hr' as [[<- _]|[_ Hr']]; [done|apply H4; by eexists].
Qed.

Lemma other_turn (hj : Hold) : tx_of hj.2 ≠ Some tx → turn_ok hj.2 s → turn_ok hj.2 s'.
Proof.
  destruct holder as (_ & _ & _ & _ & Hlock). intros Hne [Hrd Ht]. split; [exact Hrd|]. revert Hne Ht.
  destruct hj.2 as [|tx'|tx' id' st]; cbn; [done..|]. intros Hne [Htx Hl]. split; [done|]. intros Hn'. destruct (Hl (λ H, Hn' (list_elem_of_further _ _ _ H))) as [Hlk Hst].
  split; [done|]. assert (id' ≠ id) as Hdiff by congruence.
  assert (∀ row', current row' id' s → current row' id' s') as Hcur.
  { intros row' [Hu Hc]. split; [by apply unspent_rewrite|]. intros r Hr. apply Hc. revert Hr. unfold s', put. cbn.
    rewrite new_id. by rewrite lookup_insert_ne. }
  destruct st; cbn in *; try done; [by apply Hcur|]. destruct Hst as (Hc & Hr & Hs & Hnw).
  split_and!; [by apply Hcur|done|by apply (sent_more _ [EWrote tx o n])|].
  intros He. destruct (Hnw He) as [? Hsp]. split; [done|]. intros [?|[? _]]%spent_rewrite; done.
Qed.

Lemma other_drawn d : drawn_ok d s → drawn_ok d s'.
Proof.
  destruct old_row as (_ & x & Hl). intros Hd id' ->. destruct (Hd id' eq_refl) as (Hin & Htab & Hw).
  assert (id ≠ id') as Hne by (intros <-; by rewrite Hl in Htab). split_and!; [done| |].
  - unfold s', put. cbn. by rewrite new_id, lookup_insert_ne.
  - intros tx' o' n' [[= -> -> ->]|Hin']%elem_of_cons; [by rewrite new_id|by eapply Hw].
Qed.

Lemma inv_rewrite : inv s' (<[i := (h.1, Holding tx id Done)]> hs).
Proof.
  pose proof Hinv as (_ & Ha & _ & Hall). apply (inv_move s s' hs i h); [done..|apply tokens_rewrite| | | | | |done|by left].
  - intros j hj Hj Hne. destruct (Hall hj) as [Ht Hd]; [by eapply list_elem_of_lookup_2|]. split; [|by apply other_drawn].
    apply other_turn; [|done]. destruct (Ha i j h hj Hi Hj Hne) as [Hx _]. apply Hx. by rewrite Hh.
  - destruct (Hall h) as [Ht _]; [by eapply list_elem_of_lookup_2|]. rewrite Hh in Ht. destruct Ht as (_ & Htx & _).
    split; [done|]. split; [done|]. intros _. split; [apply holder|done].
  - destruct (Hall h) as [_ Hd]; [by eapply list_elem_of_lookup_2|]. by apply other_drawn.
  - cbn. intros tx' Hx. left. by rewrite Hh.
  - cbn. by left.
Qed.
End rewrite.

(** *** A row stored under the id drawn for it *)
Lemma inv_insert s hs i h j :
  kept s → inv s hs → hs !! i = Some h → h.1 = Some (in_id j) → st_table s !! in_id j = None →
  inv (with_table (put j (st_table s)) [] s) (<[i := (None, h.2)]> hs).
Proof.
  intros Hk Hinv Hi Hd Hnone. pose proof Hinv as ((H1 & H2 & H3 & H4) & Ha & Hst & Hall).
  pose proof (list_elem_of_lookup_2 _ _ _ Hi) as Hin. destruct (Hall h Hin) as [Hturn Hdrawn].
  destruct (Hdrawn _ Hd) as (Hids & _ & Hw). set (s' := with_table _ _ _).
  assert (∀ hj : Hold, hj ∈ hs → turn_ok hj.2 s → turn_ok hj.2 s') as Hturns.
  { intros hj Hj [Hr Ht]. split; [exact Hr|]. revert Ht Hr. destruct hj.2 as [|tx|tx id st] eqn:E; cbn; [done..|].
    intros [Htx Hl] Hr. split; [done|]. intros Hn. destruct (Hl Hn) as [Hlk Hs]. split; [done|].
    assert (reads hj.2 = Some id → ∀ row, current row id s → current row id s') as Hcur.
    { intros Hreads row [Hu Hc]. split; [exact Hu|]. intros r Hlr. apply Hc. revert Hlr. cbn. unfold put.
      rewrite lookup_insert_ne; [done|]. intros He. destruct (Hst hj h id Hj Hin Hreads). by rewrite Hd, He. }
    rewrite E in Hcur. destruct st; cbn in *; try done; [by apply Hcur|]. destruct Hs as (Hc & Hs). split; [by apply Hcur|exact Hs]. }
  apply (inv_move s s' hs i h); [done|done| | |by apply (Hturns h)|by intros id|by left|by intros id|by left|by right].
  - split_and!; [|exact H2|exact H3|].
    + intros id r Hr. cbn in Hr. unfold put in Hr. apply lookup_insert_Some in Hr as [[<- <-]|[_ Hr]]; [|by apply H1].
      intros token _ (tx & o & n & Hlog & Hn & _). by eapply Hw.
    + intros id [r Hr]. cbn in Hr. unfold put in Hr. apply lookup_insert_Some in Hr as [[<- _]|[_ Hr]]; [done|apply H4; by eexists].
  - intros k hk Hk' Hne. pose proof (list_elem_of_lookup_2 _ _ _ Hk') as Hkin. destruct (Hall hk Hkin) as [Ht' Hd'].
    split; [by apply Hturns|]. intros id Hx. destruct (Hd' id Hx) as (Hin' & Htab & Hw'). split_and!; [done| |done].
    cbn. unfold put. rewrite lookup_insert_ne; [done|]. intros <-. destruct (Ha i k h hk Hi Hk' Hne) as [_ Hx']. by apply (Hx' _ Hd).
Qed.

(** A statement that touches no token moves nothing else. *)
Lemma inv_neutral {X} (q : SqlCall X) lk r t' s s' hs :
  kept s → inv s hs → neutral q → step_sql q (st_table s) r t' →
  (t' = st_table s ∧ s' = s) ∨ (t' ≠ st_table s ∧ s' = with_table t' (written lk q (st_table s) t') s) →
  inv s' hs.
Proof.
  intros [Hk _] Hinv Hn Hs [[_ ->]|[_ ->]]; [done|].
  assert (written lk q (st_table s) t' = []) as -> by (by destruct q).
  eapply inv_follows; [apply (follows_table (λ _, True)); by eapply neutral_rekeyed|done|done].
Qed.

Lemma update_changes (upd : Integration) t r t' : step_sql (UpdateC upd) t r t' → t' ≠ t →
  ∃ now o, row_of (in_id upd) t = Some o ∧ t' = put (overwrite now upd o) t.
Proof.
  intros [->|(now & ord & ->)]%step_sql_table Hne; [done|]. cbn in *.
  destruct (update_row_table (in_id upd) (overwrite now upd) t) as [He|(o & Ho & He)]; [done|].
  exists now, o. by rewrite He.
Qed.

Lemma insert_changes j t r t' : step_sql (InsertC j) t r t' → t' ≠ t → t !! in_id j = None ∧ t' = put j t.
Proof.
  intros [->|(now & ord & ->)]%step_sql_table Hne; [done|]. cbn in *.
  destruct (bool_decide (is_Some (t !! in_id j)) || taken j t) eqn:E; [done|]. apply orb_false_iff in E as [E%bool_decide_eq_false _].
  split; [by apply eq_None_not_Some|done].
Qed.

Lemma inv_sql {X} lk (q : SqlCall X) r t' s s' hs i h h' :
  kept s → inv s hs → hs !! i = Some h → sql_moves lk q h r h' → step_sql q (st_table s) r t' →
  (t' = st_table s ∧ s' = s) ∨ (t' ≠ st_table s ∧ s' = with_table t' (written lk q (st_table s) t') s) →
  overtaken (st_log s') ∨ inv s' (<[i := h']> hs).
Proof.
  intros Hk Hinv Hi Hm Hs Hs'. pose proof Hinv as (Htok & Ha & Hst & Hall).
  destruct (Hall h) as [Hturn Hdrawn]; [by eapply list_elem_of_lookup_2|].
  assert (neutral q → h' = h → overtaken (st_log s') ∨ inv s' (<[i := h']> hs)) as Hneutral.
  { intros Hn ->. right. rewrite list_insert_id by done. by eapply inv_neutral. }
  destruct q; cbn in Hm; try (by apply Hneutral).
  - destruct Hm as [Hd ->]. right. destruct Hs' as [[_ ->]|[Hne ->]].
    + eapply inv_moved; [apply follows_same|done|done|done|by intros id|by left|by intros id|by left|by right].
    + destruct (insert_changes _ _ _ _ Hs Hne) as [Hnone ->]. by apply inv_insert.
  - destruct Hm as [->|(row & tx & -> & Hh & ->)]; [by apply Hneutral|]. right.
    assert (t' = st_table s) as -> by (apply step_sql_table in Hs as [->|(now & ord & ->)]; done).
    destruct Hs' as [[_ ->]|[? _]]; [|done]. destruct Hs as (now & ord & _ & [Hr|[? _]]); [|done]. injection Hr as Hr.
    destruct (row_of_lookup _ _ _ Hr) as [d Hl]. pose proof Htok as (H1 & _ & _ & H4).
    eapply inv_moved; [apply follows_same|done|done| |done| | | |by left].
    + rewrite Hh in Hturn. destruct Hturn as (_ & Htx & Hlive). cbn. split; [intros id' [= <-]; apply H4; by eexists|].
      split; [done|]. intros Hn. destruct (Hlive Hn) as [Hlk _]. split; [done|]. split; [apply (H1 _ _ Hl)|].
      intros r Hr'. rewrite Hl in Hr'. injection Hr' as <-. apply same_refl.
    + cbn. intros tx' [= <-]. left. by rewrite Hh.
    + by left.
    + cbn. intros id' [= <-]. right. by eexists.
  - destruct Hm as (tx & id & row & token & new & -> & Hh & Hid & Hp & Ht & ->).
    destruct Hs' as [[_ ->]|[Hne ->]].
    + right. rewrite Hh in Hturn. destruct Hturn as (_ & Htx & Hlive).
      eapply inv_moved; [apply follows_same|done|done| |done| |by left|by intros id'|by left].
      * split; [by intros id'|]. split; [done|]. intros Hn. by destruct (Hlive Hn).
      * cbn. intros tx' [= <-]. left. by rewrite Hh.
    + destruct (update_changes _ _ _ _ Hs Hne) as (now & o & Ho & ->).
      destruct (row_of_lookup _ _ _ Ho) as [d Hl]. pose proof (proj1 Hk _ _ Hl) as Hoid. cbn in Hoid.
      assert (written (Some (tx, id)) (UpdateC i0) (st_table s) (put (overwrite now i0 o) (st_table s))
        = [EWrote tx o (overwrite now i0 o)]) as Hw.
      { cbn. rewrite Hl. unfold put. cbn. rewrite Hoid, lookup_insert_eq. done. }
      rewrite Hw. destruct (decide (ELost tx ∈ st_log s)) as [Hlost|Hlive]; [left; cbn; by left|]. right.
      eapply inv_rewrite; try done. by rewrite <- Hid.
Qed.

(** *** Every step is safe *)

Lemma inv_draw s hs i h id :
  inv s hs → hs !! i = Some h → id ∉ st_ids s → inv (draw id s) (<[i := (Some id, h.2)]> hs).
Proof.
  intros Hinv Hi Hid. pose proof Hinv as ((_ & _ & H3 & H4) & _ & _ & Hall).
  destruct (Hall h) as [Hturn _]; [by eapply list_elem_of_lookup_2|].
  eapply inv_moved; [apply follows_draw|done|done| | |by left| |by left|by right].
  - eapply turn_follows; [apply (follows_draw (λ _, True))|done|done].
  - intros id' [= <-]. split_and!; [left| |].
    + apply eq_None_not_Some. intros Hs. by apply Hid, H4.
    + intros tx o n Hin <-. by eapply Hid, H3.
  - cbn. intros id' [= <-]. by right.
Qed.

Lemma inv_unlock s hs i h tx (t : Turn) :
  inv s hs → hs !! i = Some h → tx_of h.2 = Some tx → (t = Free ∨ t = Begun tx) →
  inv (with_locks (unlock tx (st_locks s)) s) (<[i := (h.1, t)]> hs).
Proof.
  intros Hinv Hi Htx Ht. pose proof Hinv as (_ & _ & _ & Hall).
  destruct (Hall h) as [Hturn Hdrawn]; [by eapply list_elem_of_lookup_2|].
  eapply inv_moved; [apply follows_unlock|done|done| | | |by left| |by left].
  - intros tx' Hne ->. by apply Hne.
  - split; [by destruct Ht as [-> | ->]|]. destruct Ht as [-> | ->]; [done|]. destruct Hturn as [_ Hturn].
    destruct h.2 as [|tx'|tx' id st]; cbn in *; [done|..]; injection Htx as ->; [done|by destruct Hturn].
  - exact Hdrawn.
  - destruct Ht as [-> | ->]; cbn; intros tx' Hx; [done|]. left. congruence.
  - destruct Ht as [-> | ->]; by intros id.
Qed.

(** A turn may fall back to its transaction, or to nothing. *)
Lemma inv_back s hs i h tx (t : Turn) :
  inv s hs → hs !! i = Some h → tx_of h.2 = Some tx → (t = Free ∨ t = Begun tx) → inv s (<[i := (h.1, t)]> hs).
Proof.
  intros Hinv Hi Htx Ht. pose proof Hinv as (_ & _ & _ & Hall).
  destruct (Hall h) as [Hturn Hdrawn]; [by eapply list_elem_of_lookup_2|].
  eapply inv_moved; [apply follows_same|done|done| |exact Hdrawn| |by left| |by left].
  - split; [by destruct Ht as [-> | ->]|]. destruct Ht as [-> | ->]; [done|]. destruct Hturn as [_ Hturn].
    destruct h.2 as [|tx'|tx' id st]; cbn in *; [done|..]; injection Htx as ->; [done|by destruct Hturn].
  - destruct Ht as [-> | ->]; cbn; intros tx' Hx; [done|]. left. congruence.
  - destruct Ht as [-> | ->]; by intros id.
Qed.

Lemma inv_send s hs i h tx id row token r :
  inv s hs → hs !! i = Some h → h.2 = Holding tx id (Read row) → refresh_of row token → provider_new token (st_log s) r →
  inv (note (ESent tx id token) s)
    (<[i := (h.1, Holding tx id (SentOn row token (match r with Ok (_, new, _) => new | Err _ => "" end)))]> hs).
Proof.
  intros Hinv Hi Hh Hr Hnew. pose proof Hinv as ((_ & H2 & _) & _ & _ & Hall).
  destruct (Hall h) as [Hturn Hdrawn]; [by eapply list_elem_of_lookup_2|]. rewrite Hh in Hturn.
  destruct Hturn as (Hrd & Htx & Hlive). set (new := match r with Ok _ => _ | Err _ => _ end).
  pose proof (follows_sent (λ _, True) tx id token s) as F.
  eapply inv_moved; [apply follows_sent|done|done| | | |by left| |by left].
  - split; [exact Hrd|]. split; [done|]. intros Hn. destruct (Hlive (lost_follows F _ Hn)) as [Hlk Hc].
    split; [done|]. split_and!; [by apply (current_follows F)|done|exists tx, id; left|]. intros Hne.
    rewrite (spent_follows F). unfold new in *. destruct r as [[[a n'] e]|e]; [|done]. destruct (Hnew Hne) as [? Hns].
    split; [done|]. intros Hsp. by apply Hns, (H2 id).
  - by eapply drawn_follows.
  - cbn. intros tx' [= <-]. left. by rewrite Hh.
  - cbn. intros id' [= <-]. left. by rewrite Hh.
Qed.

Lemma inv_try_lock s hs i h tx id m b :
  inv s hs → hs !! i = Some h → h.2 = Begun tx →
  (∀ key tx', st_locks s !! key = Some tx' → m !! key = Some tx') →
  (b = true → m !! lockKey sha256 id = Some tx) →
  inv (with_locks m s) (<[i := (h.1, if b then Holding tx id Locked else Begun tx)]> hs).
Proof.
  intros Hinv Hi Hh Hm Hb. pose proof Hinv as (_ & _ & _ & Hall).
  destruct (Hall h) as [Hturn Hdrawn]; [by eapply list_elem_of_lookup_2|]. rewrite Hh in Hturn. destruct Hturn as [_ Htx].
  eapply inv_moved; [apply follows_locks|done|done| |exact Hdrawn| |by left|by destruct b|by left].
  - intros tx' key _. apply Hm.
  - split; [by destruct b|]. destruct b; cbn; [|done]. split; [done|]. intros _. split; [by apply Hb|done].
  - cbn. intros tx' Hx. left. rewrite Hh. by destruct b.
Qed.

Lemma kept_call {B} (c : IntegrationCall B) s b s' : kept s → call_step c s b s' → kept s'.
Proof.
  intros Hk. destruct c as [|lk B c|B c| | | | | | | | | | | | | | | | | |]; cbn; try (by intros ->).
  - destruct c as [X q| |]; cbn; [|by intros ->|by intros [_ ->]; destruct Hk; split; [|right]].
    intros (t' & Hs & [[_ ->]|[_ ->]]); [done|]. destruct Hk. split; [by eapply step_keyed|done].
  - by intros [_ ->].
  - intros [_ ->]. by destruct lk as [[tx id]|].
  - destruct b; [by intros [_ ->]|by intros ->].
  - destruct b as [[|]|]; [by intros (_ & _ & ->)|by intros [_ ->]|by intros [->|[_ ->]]].
  - by intros [->|[_ ->]].
  - by intros [->| ->].
  - intros [_ ->]. destruct Hk; split; [done|by right].
Qed.

Lemma inv_call {B} (c : IntegrationCall B) s b s' hs i h h' :
  kept s → inv s hs → hs !! i = Some h → moves c h b h' → call_step c s b s' →
  overtaken (st_log s') ∨ inv s' (<[i := h']> hs).
Proof.
  intros Hk Hinv Hi. assert (inv s (<[i := h]> hs)) as Hsame by by rewrite list_insert_id.
  destruct c as [|lk B c|B c| | | | | | | | | | | | | | | | | |]; cbn; try (by intros -> ->; right).
  - destruct c as [X q| |]; cbn; [|by intros -> ->; right|intros -> [Hid ->]; right; by apply inv_draw].
    intros Hm (t' & Hs & Hs'). by eapply inv_sql.
  - intros -> [_ ->]. by right.
  - intros (tx & id & row & -> & Hh & Hr & ->) [Hnew ->]. right. by apply inv_send.
  - intros [Hh ->] Hs. right. destruct b as [tx|e]; [destruct Hs as [Htx ->]|subst s'].
    + pose proof Hinv as (_ & _ & _ & Hall). destruct (Hall h) as [_ Hdrawn]; [by eapply list_elem_of_lookup_2|].
      eapply inv_moved; [apply follows_tx|done|done| | | |by left|by intros id|by left].
      * split; [by intros id|]. cbn. left.
      * eapply drawn_follows; [apply (follows_tx (λ _, True))|done].
      * cbn. intros tx' [= <-]. by right.
    + by rewrite <- Hh, <- surjective_pairing.
  - intros (Hh & id & -> & ->) Hs. right. destruct b as [[|]|e].
    + destruct Hs as (_ & Hnone & ->). apply (inv_try_lock s hs i h tx id _ true); [done..| |].
      * intros key tx' Hl. rewrite lookup_insert_ne; [done|]. intros <-. by rewrite Hnone in Hl.
      * intros _. apply lookup_insert_eq.
    + destruct Hs as [_ ->]. by rewrite <- Hh, <- surjective_pairing.
    + destruct Hs as [->|[Hnone ->]]; [by rewrite <- Hh, <- surjective_pairing|].
      apply (inv_try_lock s hs i h tx id _ false); [done..| |done].
      intros key tx' Hl. rewrite lookup_insert_ne; [done|]. intros <-. by rewrite Hnone in Hl.
  - intros (Hh & ->) Hs. right. assert (tx_of h.2 = Some tx) as Htx by (by destruct Hh as [->|(id & st & ->)]).
    destruct b as [[]|e]; [destruct Hs as [->|[? _]]; [|done]; apply inv_unlock; auto|].
    destruct Hs as [->|[_ ->]]; [apply inv_unlock|apply (inv_back s hs i h tx)]; auto.
  - intros (Hh & ->) Hs. right. assert (tx_of h.2 = Some tx) as Htx by (by destruct Hh as [->|(id & st & ->)]).
    destruct Hs as [->| ->]; [apply inv_unlock|apply (inv_back s hs i h tx)]; auto.
  - intros -> [Hid ->]. right. by apply inv_draw.
Qed.

Lemma log_call {B} (c : IntegrationCall B) s b s' hs i h h' :
  safe s hs → hs !! i = Some h → moves c h b h' → call_step c s b s' → log_ok (st_log s').
Proof.
  intros (_ & Hlog & Hinv) Hi. destruct c as [|lk B c|B c| | | | | | | | | | | | | | | | | |]; cbn; try (by intros _ ->).
  - destruct c as [X q| |]; cbn; [|by intros _ ->|by intros _ [_ ->]].
    intros _ (t' & _ & [[_ ->]|[_ ->]]); [done|]. destruct q; try done. cbn.
    destruct lk as [[tx id]|]; [|done]. by destruct (st_table s !! in_id i0), (t' !! in_id i0).
  - by intros _ [_ ->].
  - intros (tx & id & row & -> & Hh & Hr & _) [_ ->]. split; [|done]. intros Hsp.
    destruct Hinv as [?|(_ & _ & _ & Hall)]; [by right|]. left.
    destruct (decide (ELost tx ∈ st_log s)) as [|Hn]; [done|]. destruct (Hall h) as [Ht _]; [by eapply list_elem_of_lookup_2|].
    rewrite Hh in Ht. destruct Ht as (_ & _ & Ht). destruct (Ht Hn) as (_ & Hu & _). by destruct (Hu refreshToken Hr).
  - intros _. destruct b; [by intros [_ ->]|by intros ->].
  - intros _. destruct b as [[|]|]; [by intros (_ & _ & ->)|by intros [_ ->]|by intros [->|[_ ->]]].
  - by intros _ [->|[_ ->]].
  - by intros _ [->| ->].
  - by intros _ [_ ->].
Qed.

Lemma overtaken_call {B} (c : IntegrationCall B) s b s' : call_step c s b s' → overtaken (st_log s) → overtaken (st_log s').
Proof.
  destruct c as [|lk B c|B c| | | | | | | | | | | | | | | | | |]; cbn; try (by intros ->).
  - destruct c as [X q| |]; cbn; [|by intros ->|by intros [_ ->]].
    intros (t' & _ & [[_ ->]|[_ ->]]); [done|]. apply overtaken_more.
  - by intros [_ ->].
  - intros [_ ->]. destruct lk as [[tx id]|]; [by right|done].
  - destruct b; [by intros [_ ->]|by intros ->].
  - destruct b as [[|]|]; [by intros (_ & _ & ->)|by intros [_ ->]|by intros [->|[_ ->]]].
  - by intros [->|[_ ->]].
  - by intros [->| ->].
  - by intros [_ ->].
Qed.

Lemma hold_call B (c : IntegrationCall B) s b s' hs i h (P : B → Hold → Prop) :
  safe s hs → hs !! i = Some h → integration_spec B c h P → call_step c s b s' →
  ∃ h', P b h' ∧ safe s' (<[i := h']> hs).
Proof.
  intros Hs Hi Hsp Hstep. pose proof Hs as (Hk & Hlog & Hinv).
  destruct (spec_moves _ _ _ _ _ _ _ Hk Hstep Hsp) as (h' & HP & Hm). exists h'. split; [done|].
  split_and!; [by eapply kept_call|by eapply log_call|].
  destruct Hinv as [Ho|Hinv]; [left; by eapply overtaken_call|by eapply inv_call].
Qed.

Lemma hold_more s hs : safe s hs → safe s (hs ++ [(None, Free)]).
Proof.
  intros (Hk & Hl & [Ho|(Ht & Ha & Hst & Hall)]); split_and!; try done; [by left|right]. split_and!; [done| | |].
  - intros i j h h' Hi Hj Hne.
    apply lookup_app_Some in Hi as [Hi|[Hge [_ <-]%list_lookup_singleton_Some]];
      apply lookup_app_Some in Hj as [Hj|[Hge' [_ <-]%list_lookup_singleton_Some]]; try (by split; intros x Hx).
    by eapply Ha.
  - intros h h' id [Hh|Hh]%elem_of_app [Hh'|Hh']%elem_of_app;
      try (apply list_elem_of_singleton in Hh' as ->; done); [by eapply Hst|].
    apply list_elem_of_singleton in Hh as ->. done.
  - intros h [Hh|Hh]%elem_of_app; [by apply Hall|]. apply list_elem_of_singleton in Hh as ->. split; [by split|by intros id].
Qed.

Lemma hold_env s hs s' : safe s hs → env s s' → safe s' hs.
Proof.
  intros (Hk & Hl & Hinv) He. destruct He as [tx|X q r t' Hn Hs|t' Hr].
  - split_and!; [done|by split|]. destruct Hinv as [Ho|Hinv]; [left; by right|right].
    eapply inv_follows; [apply follows_lost|done|done].
  - destruct Hk as [Hk Hnil]. split_and!; [split; [by eapply step_keyed|done]|done|].
    destruct Hinv as [Ho|Hinv]; [by left|right]. eapply inv_follows; [apply (follows_table (λ _, True)); by eapply neutral_rekeyed|done..].
  - destruct Hk as [Hk Hnil]. split_and!; [split; [by eapply rekeyed_keyed|done]|done|].
    destruct Hinv as [Ho|Hinv]; [by left|right]. eapply inv_follows; [by apply (follows_table (λ _, True))|done..].
Qed.

Lemma safe_quiet s : quiet_start s → safe s [].
Proof.
  intros (Hk & Hd & Hnil & _ & Hlog). split_and!; [done|by rewrite Hlog|right]. split_and!; [split_and!| | |].
  - intros id r Hr token _ (tx & o & n & Hin & _). rewrite Hlog in Hin. by apply elem_of_nil in Hin.
  - intros id token (tx & o & n & Hin & _). rewrite Hlog in Hin. by apply elem_of_nil in Hin.
  - intros tx o n Hin. rewrite Hlog in Hin. by apply elem_of_nil in Hin.
  - exact Hd.
  - by intros i j h h' Hi.
  - by intros h h' id Hh%elem_of_nil.
  - by intros h Hh%elem_of_nil.
Qed.

(** C31: However the operations of any number of replicas interleave, crash and lose
    their connections, beside re-encryption and the other writers: once a refresh token
    has been replaced in an integration's row, no refresh of that integration sends it
    again, unless it had lost the connection that held its lock, or some connection that
    had lost its lock went on to write.  Hypotheses: the advisory locks of the database
    are wired, and the provider never hands out a token it was sent before. *)
Theorem spent_token_never_sent (s : Sys IntegrationCall Store) :
  reachable (@call_step) env starts quiet_start s → log_ok (st_log (sy_store s)).
Proof.
  intros Hr. destruct (sound_reachable (@call_step) env starts integration_spec safe (None, Free)) with quiet_start s as [hs Hs].
  - intros B c st b st' hs i h P Hs Hi Hsp Hc. by eapply hold_call.
  - apply hold_more.
  - intros st hs st' Hs He. by eapply hold_env.
  - apply starts_wp.
  - apply safe_quiet.
  - done.
  - apply Hs.
Qed.
End system.
