(* ===== verification/IntegrationDemo.v ===== *)
(** * Integrations on concrete data

    A server that answers every call, the witnesses of the theorems on integrations,
    and the runs that show where the code departs from its comments. *)

From S2P Require Import Prelude Json GoTime Types Users Tools Authz A2A Prog Envelope IntegrationStore OauthLock IntegrationService IntegrationSafety IntegrationSystem.
Local Open Scope go_scope.

#[local] Existing Instance decimal_uuid.
#[local] Existing Instance demo_gcm.
#[local] Existing Instance demo_kms.

Definition demo_integration_deps : IntegrationDeps := {|
  id_envelope := demo_envelope; id_pool := true; id_refresher := true; id_nats := true; id_actors := true;
  id_members := true; id_business := true; id_value_telemetry := false |}.

(** A text longer than any token sent so far. *)
Fixpoint sent_text (l : list Entry) : string :=
  match l with
  | [] => ""
  | ESent _ _ token :: l => token +:+ sent_text l
  | _ :: l => sent_text l
  end.

Definition new_token (token : string) (l : list Entry) : string := String "r" (token +:+ sent_text l).

Definition above (l : list N) : N := N.succ (fold_right N.max 0%N l).

(** What happens while a call is under way. *)
Record Hooks := { hk_now : Z; hk_exchange : Store → Store; hk_draw : Store → Store }.

Definition sql_server {X} (now : Z) (lk : option Lock) (q : SqlCall X) (s : Store) : result PgError X * Store :=
  let '(r, t') := run_sql now (λ l, l) q (st_table s) in
  (r, if decide (t' = st_table s) then s else with_table t' (written lk q (st_table s) t') s).

Definition repo_server {B} (hk : Hooks) (lk : option Lock) (c : RepoCall B) : Store → B * Store :=
  match c in RepoCall B return Store → B * Store with
  | SqlC q => sql_server (hk_now hk) lk q
  | RepoNowC => λ s, (hk_now hk, s)
  | RepoIDC => λ s, let id := above (st_ids s) in (id, draw id s)
  end.

Definition owner_user : User := {|
  us_id := 1%N; us_email := "o@example.com"; us_name := ""; us_password_hash := ""; us_preferred_locale := "ru";
  us_email_verified := true; us_email_verified_at := None; us_deleted_at := None; us_deletion_requested_at := None;
  us_deletion_canceled_at := None; us_created_at := 0; us_updated_at := 0 |}.

Definition server (hk : Hooks) B (c : IntegrationCall B) : Store → B * Store :=
  match c in IntegrationCall B return Store → B * Store with
  | CtxErrC => λ s, (None, s)
  | RepoC lk c => repo_server hk lk c
  | CipherC c => λ s, (demo_crypto _ c, s)
  | RefreshTokenC lk token => λ s,
      let s := hk_exchange hk s in
      (Ok ("access", new_token token (st_log s), 3600%Z),
       match lk with Some (tx, id) => note (ESent tx id token) s | None => s end)
  | BeginTxC => λ s, let tx := above (st_txs s) in (Ok tx, new_tx tx s)
  | TryLockC tx key => λ s,
      if decide (ELost tx ∈ st_log s) then (Err (EText "conn closed"), s)
      else match st_locks s !! key with
           | Some _ => (Ok false, s)
           | None => (Ok true, with_locks (<[key := tx]> (st_locks s)) s)
           end
  | CommitC tx => λ s, (Ok tt, with_locks (unlock tx (st_locks s)) s)
  | RollbackC tx => λ s, (tt, with_locks (unlock tx (st_locks s)) s)
  | JitterC _ => λ s, (0%Z, s)
  | SleepC _ => λ s, (Ok tt, s)
  | MutexLockC _ => λ s, (tt, s)
  | MutexUnlockC _ => λ s, (tt, s)
  | ActorC _ => λ s, (Ok owner_user, s)
  | MembershipC _ _ => λ s, (Ok {| cm_role_id := 9%N; cm_status := "active"; cm_joined_at := 0%Z |}, s)
  | RoleC _ => λ s, (Ok {| crole_permissions := [PermIntegrationsConnect] |}, s)
  | BusinessC _ => λ s, (Ok tt, s)
  | NowC => λ s, (hk_now hk, s)
  | NewIDC => λ s, let s := hk_draw hk s in let id := above (st_ids s) in (id, draw id s)
  | AuditSyncC _ => λ s, (Ok tt, s)
  | PublishC _ => λ s, (Ok tt, s)
  | NoteC _ => λ s, (tt, s)
  end.

Definition plain_hooks (now : Z) : Hooks := {| hk_now := now; hk_exchange := λ s, s; hk_draw := λ s, s |}.

(** ** The server alone is one the system allows *)

Lemma above_new l : above l ∉ l.
Proof.
  intros Hin. assert (∀ n, n ∈ l → (n ≤ fold_right N.max 0 l)%N) as Hle.
  { clear Hin. induction l as [|x l IH]; intros n; [by intros ?%elem_of_nil|].
    cbn. intros [->|Hn]%elem_of_cons; [lia|]. specialize (IH n Hn). lia. }
  specialize (Hle _ Hin). unfold above in Hle. lia.
Qed.

Lemma sent_text_long l tx id token : ESent tx id token ∈ l → String.length token ≤ String.length (sent_text l).
Proof.
  induction l as [|e l IH]; [by intros ?%elem_of_nil|]. intros [<-|Hin]%elem_of_cons; cbn; [rewrite str_app_length; lia|].
  specialize (IH Hin). destruct e; cbn; [lia|rewrite str_app_length; lia|lia].
Qed.

Lemma new_token_new token l : new_token token l ≠ token ∧ ¬ sent_before (new_token token l) l.
Proof.
  unfold new_token. split.
  - intros He. apply (f_equal String.length) in He. cbn in He. rewrite str_app_length in He. lia.
  - intros (tx & id & Hin). apply sent_text_long in Hin. cbn in Hin. rewrite str_app_length in Hin. lia.
Qed.

Lemma server_step now B (c : IntegrationCall B) s :
  call_step c s (server (plain_hooks now) B c s).1 (server (plain_hooks now) B c s).2.
Proof.
  destruct c as [|lk B c|B c| | | | | | | | | | | | | | | | | |]; cbn; try done.
  - destruct c as [X q| |]; cbn; [|done|split; [apply above_new|done]]. unfold sql_server.
    destruct (run_sql now (λ l, l) q (st_table s)) as [r t'] eqn:E. exists t'. split.
    + exists now, (λ l, l). split; [done|]. by left.
    + case_decide; [by left|by right].
  - split; [apply (demo_crypto_faithful 0)|done].
  - split; [intros _; apply new_token_new|done].
  - split; [apply above_new|done].
  - case_decide as Hl; [by left|]. destruct (st_locks s !! key) eqn:E; cbn; [by split; [eexists|]|by split_and!].
  - by left.
  - by left.
  - split; [apply above_new|done].
Qed.

Lemma serve_kept now {A} (p : prog A) s : kept s → kept (serve (server (plain_hooks now)) p s).2.
Proof.
  revert s. induction p as [a|B c k IH]; intros s Hs; cbn; [done|]. pose proof (server_step now B c s) as Hst.
  destruct (server (plain_hooks now) B c s) as [b s']. apply IH. by eapply kept_call.
Qed.

(** Its answers in one state are answers a table, a source and a service may give. *)
Lemma server_ans now s B (c : IntegrationCall B) : kept s → integration_ans B c (server (plain_hooks now) B c s).1.
Proof.
  intros [Hk _]. pose proof (server_step now B c s) as Hst.
  destruct c as [|lk B c|B c| | | | | | | | | | | | | | | | | |]; cbn in *; try done; [|by destruct Hst].
  destruct c as [X q| |]; cbn in *; [|done..]. destruct Hst as (t' & Hs & _). by eapply step_sql_ans.
Qed.

(** ** A connection and two refreshes *)

Definition demo_sha (_ : string) : string := "01234567".
Definition empty_store : Store := {| st_table := ∅; st_locks := ∅; st_txs := []; st_ids := [uuid_nil]; st_log := [] |}.

Definition demo_params (businessID : uuid) : ConnectParams := {|
  cp_business_id := businessID; cp_actor_id := 1%N; cp_platform := AgentGoogleBusiness; cp_external_id := "channel";
  cp_access_token := "first"; cp_refresh_token := "refresh"; cp_user_token := ""; cp_user_token_expires := None;
  cp_metadata := None; cp_expires_at := Some 10%Z; cp_actor_ip := ""; cp_user_agent := ""; cp_parsed_format := "" |}.

Definition demo_caller : Caller := {| ca_service := "agent"; ca_correlation_id := "c" |}.

Definition demo_connect (businessID : uuid) : prog (result IntegrationError Integration) :=
  Connect demo_integration_deps (demo_params businessID).
Definition demo_token : prog (result IntegrationError TokenResponse) :=
  GetDecryptedToken demo_integration_deps demo_sha demo_caller 8%N AgentGoogleBusiness "channel" "test".

Definition day : Z := 86400000000000.

Definition connected : Store := (serve (server (plain_hooks 0)) (demo_connect 8%N) empty_store).2.

Definition token_view (r : result IntegrationError TokenResponse) : option (string * option Z) :=
  match r with Ok t => Some (tk_access_token t, tk_expires_at t) | Err _ => None end.

(** Within its lifetime the stored token is handed out, later it is renewed. *)
Example token_kept_then_renewed :
  token_view (serve (server (plain_hooks 5)) demo_token connected).1 = Some ("first", Some 10%Z)
  ∧ token_view (serve (server (plain_hooks day)) demo_token connected).1 = Some ("access", Some (day + 3600 * Second)%Z).
Proof. vm_compute. by split. Qed.

Definition sent_tokens (l : list Entry) : list string :=
  omap (λ e, match e with ESent _ _ token => Some token | _ => None end) l.

Definition twice_renewed : Store :=
  let s := (serve (server (plain_hooks 0)) (forget (demo_connect 8%N)) empty_store).2 in
  let s := (serve (server (plain_hooks day)) (forget demo_token) s).2 in
  (serve (server (plain_hooks (2 * day))) (forget demo_token) s).2.

(** Two renewals, the second with the token the first one brought. *)
Lemma spent_token_never_sent_witness :
  sent_tokens (st_log twice_renewed) = [new_token "refresh" []; "refresh"]
  ∧ log_ok demo_integration_deps (st_log twice_renewed).
Proof.
  split; [vm_compute; reflexivity|].
  pose proof (λ ps, spent_token_never_sent demo_integration_deps demo_sha print_Z eq_refl
    {| sy_store := twice_renewed; sy_procs := ps |}) as H. cbn [sy_store] in H. eapply H.
  unfold twice_renewed. cbn zeta.
  apply serve_reachable; [apply server_step|apply start_token|].
  apply serve_reachable; [apply server_step|apply start_token|].
  apply serve_reachable; [apply server_step|apply start_connect|].
  exists empty_store. split; [|apply rtc_refl]. split_and!; [by intros id r|by intros id [r]|left|done|done].
Defined.

(** The history of a run of [demo_token] beside the store. *)
Lemma token_release_audited_witness :
  let out := run (λ n B c, (server (plain_hooks 5) B c connected).1) 0 demo_token [] in
  match out.1 with
  | Ok resp => tk_access_token resp = "first"
      ∧ released demo_integration_deps demo_caller 8%N AgentGoogleBusiness "test" resp out.2
  | Err _ => False
  end.
Proof.
  cbn zeta. pose proof (λ resp Ha Hr, token_release_audited demo_integration_deps demo_sha
    (λ n B c, (server (plain_hooks 5) B c connected).1) demo_caller 8%N AgentGoogleBusiness "channel" "test" resp Ha Hr) as H.
  fold demo_token in H.
  destruct (run _ 0 demo_token []) as [[resp|e] hist] eqn:E; [|by vm_compute in E]. cbn [fst snd] in *. split.
  - assert (token_view (run (λ n B c, (server (plain_hooks 5) B c connected).1) 0 demo_token []).1 = Some ("first", Some 10%Z)) as Hv
      by (vm_compute; reflexivity). rewrite E in Hv. cbn in Hv. by injection Hv.
  - apply H; [|done]. intros n B c. apply server_ans, serve_kept. split; [by intros id r|left].
Defined.

(** ** A renewal undoes what was written during the exchange

    The row is read before the provider is asked and rewritten whole after it
    answered: a column changed in between by a statement of its own goes back. *)
Definition healing (s : Store) : Store :=
  (serve (server (plain_hooks day)) (UpdateMetadata 1%N (Some [("channel_title", GStr "Bakery")])) s).2.

Definition metadata_of (id : uuid) (s : Store) : option (list (string * gval)) :=
  in_metadata <$> row_of id (st_table s).

Example renewal_reverts_metadata :
  let renewed := serve (server {| hk_now := day; hk_exchange := healing; hk_draw := λ s, s |}) demo_token connected in
  token_view renewed.1 = Some ("access", Some (day + 3600 * Second)%Z)
  ∧ metadata_of 1%N (healing connected) = Some [("channel_title", GStr "Bakery")]
  ∧ metadata_of 1%N renewed.2 = Some [].
Proof. vm_compute. by split_and!. Qed.

(** ** Two businesses connect one channel

    The claim is looked up before the row is stored, and the unique index spans one
    business: a connection that overlaps another leaves the channel with two holders. *)
Definition rival (s : Store) : Store := (serve (server (plain_hooks 0)) (demo_connect 9%N) s).2.

Definition holders (s : Store) : list uuid :=
  in_business_id <$> active_rows (λ i, String.eqb (in_status i) IntegrationStatusActive
    && String.eqb (in_external_id i) "channel") (st_table s).

Example channel_claimed_twice :
  let overlapped := serve (server {| hk_now := 0; hk_exchange := λ s, s; hk_draw := rival |}) (demo_connect 8%N) empty_store in
  is_ok overlapped.1 = true ∧ holders overlapped.2 = [8%N; 9%N]
  ∧ is_ok (serve (server (plain_hooks 0)) (demo_connect 9%N) connected).1 = false.
Proof. vm_compute. by split_and!. Qed.
