(* ===== verification/ReviewRules.v ===== *)
(** * Decisions about one review

    What the review services read off a review and a business before they act: the
    autopilot settings ([services/api/internal/platform/helpers.go]), the factual
    answers ([factual_reply.go], [review_factual.go]), the tool call of a reply and
    its approval key ([services/api/internal/service/review.go]), the gates of bulk
    approval and autopilot ([review_batch.go], [review_drafter.go]), the feedback on
    a draft and the telemetry names ([review_telemetry.go]).  [fold_question] stands
    for [strings.ToLower] of the words joined by single spaces, [to_lower] for
    [strings.ToLower]. *)

From S2P Require Import Prelude Json GoTime Runes Types Tools Policy Mongo TaskStore PostStore ReviewStore ChatWorld Postal.
Local Open Scope go_scope.

(** ** Members of a decoded Go struct

    [encoding/json] matches member names to fields without regard to case, later
    members over earlier ones, and fails on a value of another type. *)

Definition lower_ascii (a : ascii) : ascii :=
  let n := nat_of_ascii a in
  if (65 <=? n)%nat && (n <=? 90)%nat then ascii_of_nat (n + 32) else a.

Fixpoint lower_text (s : string) : string :=
  match s with
  | EmptyString => EmptyString
  | String a s' => String (lower_ascii a) (lower_text s')
  end.

(** [f] folds a member of the object into the struct. *)
Definition decode_struct {A} (f : string → gval → A → option A) (zero : A) (v : gval) : option A :=
  match v with
  | GNull => Some zero
  | GObj _ => match canon v with
              | GObj l => foldl (λ acc kv, a ← acc; f (lower_text kv.1) kv.2 a) (Some zero) l
              | _ => None
              end
  | _ => None
  end.

Definition into_bool (v : gval) (old : bool) : option bool :=
  match v with GBool b => Some b | GNull => Some old | _ => None end.
Definition into_int (v : gval) (old : Z) : option Z :=
  match v with GNum n => int64_range n | GNull => Some old | _ => None end.
Definition into_string (v : gval) (old : string) : option string :=
  match v with GStr s => Some s | GNull => Some old | _ => None end.

(** ** Autopilot settings *)

Definition ReviewNeedsReviewMaxRating : Z := 3.
Definition ReviewAutopilotSettingsKey : string := "reviewAutopilot".
Definition ReviewAutopilotDefaultMinRating : Z := 5.
Definition ReviewAutopilotMinRatingFloor : Z := ReviewNeedsReviewMaxRating + 1.

Record ReviewAutopilotConfig := {
  ra_enabled : bool;
  ra_ignore_four_star : bool;
  ra_auto_answer_facts : bool;
  ra_min_rating : Z;
}.

Definition zero_config : ReviewAutopilotConfig :=
  {| ra_enabled := false; ra_ignore_four_star := false; ra_auto_answer_facts := false; ra_min_rating := 0 |}.

Definition default_config : ReviewAutopilotConfig :=
  {| ra_enabled := true; ra_ignore_four_star := true; ra_auto_answer_facts := true;
     ra_min_rating := ReviewAutopilotDefaultMinRating |}.

Definition config_field (k : string) (v : gval) (c : ReviewAutopilotConfig) : option ReviewAutopilotConfig :=
  if String.eqb k "enabled" then
    b ← into_bool v (ra_enabled c);
    Some {| ra_enabled := b; ra_ignore_four_star := ra_ignore_four_star c;
            ra_auto_answer_facts := ra_auto_answer_facts c; ra_min_rating := ra_min_rating c |}
  else if String.eqb k "ignorefourstar" then
    b ← into_bool v (ra_ignore_four_star c);
    Some {| ra_enabled := ra_enabled c; ra_ignore_four_star := b;
            ra_auto_answer_facts := ra_auto_answer_facts c; ra_min_rating := ra_min_rating c |}
  else if String.eqb k "autoanswerfacts" then
    b ← into_bool v (ra_auto_answer_facts c);
    Some {| ra_enabled := ra_enabled c; ra_ignore_four_star := ra_ignore_four_star c;
            ra_auto_answer_facts := b; ra_min_rating := ra_min_rating c |}
  else if String.eqb k "minrating" then
    n ← into_int v (ra_min_rating c);
    Some {| ra_enabled := ra_enabled c; ra_ignore_four_star := ra_ignore_four_star c;
            ra_auto_answer_facts := ra_auto_answer_facts c; ra_min_rating := n |}
  else Some c.

Definition raise_floor (c : ReviewAutopilotConfig) : ReviewAutopilotConfig :=
  if (ra_min_rating c <? ReviewAutopilotMinRatingFloor)%Z
  then {| ra_enabled := ra_enabled c; ra_ignore_four_star := ra_ignore_four_star c;
          ra_auto_answer_facts := ra_auto_answer_facts c; ra_min_rating := ReviewAutopilotMinRatingFloor |}
  else c.

Definition ReviewAutopilotFromSettings (settings : gomap) : ReviewAutopilotConfig :=
  match gomap_get ReviewAutopilotSettingsKey settings with
  | None | Some GNull | Some (GObj []) => default_config
  | Some raw => match decode_struct config_field zero_config raw with
                | None => zero_config
                | Some cfg => raise_floor cfg
                end
  end.

(** ** Factual answers *)

Definition dayOrder : list string := ["mon"; "tue"; "wed"; "thu"; "fri"; "sat"; "sun"].
Definition dayRU : list (string * string) :=
  [("mon", "Пн"); ("tue", "Вт"); ("wed", "Ср"); ("thu", "Чт"); ("fri", "Пт"); ("sat", "Сб"); ("sun", "Вс")]%string.
Definition englishDays : list (string * string) :=
  [("mon", "Mon"); ("tue", "Tue"); ("wed", "Wed"); ("thu", "Thu"); ("fri", "Fri"); ("sat", "Sat"); ("sun", "Sun")]%string.

Record Day := { day_day : string; day_open : string; day_close : string; day_closed : bool }.

Definition zero_day : Day := {| day_day := ""; day_open := ""; day_close := ""; day_closed := false |}.

Definition day_field (k : string) (v : gval) (d : Day) : option Day :=
  if String.eqb k "day" then
    s ← into_string v (day_day d);
    Some {| day_day := s; day_open := day_open d; day_close := day_close d; day_closed := day_closed d |}
  else if String.eqb k "open" then
    s ← into_string v (day_open d);
    Some {| day_day := day_day d; day_open := s; day_close := day_close d; day_closed := day_closed d |}
  else if String.eqb k "close" then
    s ← into_string v (day_close d);
    Some {| day_day := day_day d; day_open := day_open d; day_close := s; day_closed := day_closed d |}
  else if String.eqb k "closed" then
    b ← into_bool v (day_closed d);
    Some {| day_day := day_day d; day_open := day_open d; day_close := day_close d; day_closed := b |}
  else Some d.

Definition decode_days (v : option gval) : option (list Day) :=
  match v with
  | None | Some GNull => Some []
  | Some (GArr l) => mapM (decode_struct day_field zero_day) l
  | Some _ => None
  end.

(** [time.Parse("15:04", s)], in minutes: one or two digits of hours, two of minutes. *)
Definition parse_hm (s : string) : option Z :=
  let minutes h t :=
    match t with
    | String c (String m1 (String m2 EmptyString)) =>
        d1 ← digit_val m1; d2 ← digit_val m2;
        if bool_decide (c = ":"%char) && (h <? 24)%Z && (d1 * 10 + d2 <? 60)%Z
        then Some (h * 60 + d1 * 10 + d2)%Z else None
    | _ => None
    end in
  match s with
  | String a ((String b t) as rest) =>
      h1 ← digit_val a;
      match digit_val b with
      | Some h2 => minutes (h1 * 10 + h2)%Z t
      | None => minutes h1 rest
      end
  | _ => None
  end.

(** The line of one day; [None] when the schedule does not determine it. *)
Definition day_line (english : bool) (d : Day) : option string :=
  label ← obj_get (day_day d) (if english then englishDays else dayRU);
  if day_closed d then Some (label +:+ (if english then ": closed" else ": выходной"))%string
  else
    o ← parse_hm (day_open d); c ← parse_hm (day_close d);
    if (o <? c)%Z then Some (label +:+ " " +:+ day_open d +:+ "–" +:+ day_close d)%string else None.

Fixpoint day_lines (english : bool) (days : list Day) (byDay : list (string * string)) : option (list (string * string)) :=
  match days with
  | [] => Some byDay
  | d :: days' =>
      if list_mem (day_day d) (map fst byDay) then None
      else line ← day_line english d; day_lines english days' ((day_day d, line) :: byDay)
  end.

Definition hours_reply (english : bool) (schedule : option gval) : option string :=
  days ← decode_days schedule;
  if negb (length days =? length dayOrder)%nat then None
  else
    byDay ← day_lines english days [];
    Some ((if english then "Regular weekly hours: " else "Обычные часы работы: ")
      +:+ String.concat "; " ((λ k, default "" (obj_get k byDay)) <$> dayOrder))%string.

(** [strings.ContainsAny]. *)
Definition contains_any (chars s : string) : bool := existsb (λ c, str_has c s) (String.list_ascii_of_string chars).

Definition CR : ascii := ascii_of_nat 13.
Definition LF : ascii := ascii_of_nat 10.
Definition markup : string := String "<" (String ">" (String CR (String LF "{}"))).

Definition address_reply (english : bool) (business : Business) : option string :=
  let address := trim_space (bz_address business) in
  if String.eqb address "" || contains_any markup address then None
  else Some ((if english then "Our address: " else "Наш адрес: ") +:+ address)%string.

Definition trim_suffix_q (s : string) : string :=
  match rev (String.list_ascii_of_string s) with
  | c :: l => if bool_decide (c = "?"%char) then String.string_of_list_ascii (rev l) else s
  | [] => s
  end.

Section rules.
Variables (fold_question to_lower : string → string).

Definition FactualBusinessReply (business : Business) (question : string) : option string :=
  let normalized := trim_suffix_q (fold_question question) in
  if list_mem normalized ["какой у вас адрес"; "какой ваш адрес"; "где вы находитесь"]
  then address_reply false business
  else if list_mem normalized ["what is your address"; "where are you located"] then address_reply true business
  else if list_mem normalized ["какой у вас график работы"; "какие у вас часы работы"; "график работы"]
  then hours_reply false (gomap_get "schedule" (bz_settings business))
  else if list_mem normalized ["what are your opening hours"; "what are your hours"]
  then hours_reply true (gomap_get "schedule" (bz_settings business))
  else None.

(** ** The tool call of a reply *)

Definition metaString (m : list (string * gval)) (key : string) : option string :=
  match obj_get key m with
  | Some (GStr s) => if String.eqb s "" then None else Some s
  | Some (GNum n) => Some (print_Z n)
  | _ => None
  end.

Definition metaInt (m : list (string * gval)) (key : string) : option Z :=
  match obj_get key m with
  | Some (GNum n) => Some n
  | Some (GStr s) => Atoi s
  | _ => None
  end.

Inductive TargetError :=
| VKExternalID (externalID : string)
| VKPostID (text : string)
| VKCommentID (text : string)
| NoMeta (key id : string)
| NoExternalID (id : string).

(** [strings.SplitN(s, "_", 2)]. *)
Definition split_first (c : ascii) (s : string) : option (string * string) :=
  match split_on c s with
  | a :: (_ :: _) as l => match l with a :: rest => Some (a, String.concat (String c "") rest) | [] => None end
  | _ => None
  end.

(** [Ok None]: the platform has no reply tool. *)
Definition buildPlatformReply (review : Review) (replyText : string)
    : result TargetError (option (string * list (string * gval))) :=
  let platform := rv_platform review in
  if String.eqb platform AgentVK then
    match split_first "_" (rv_external_id review) with
    | None => Err (VKExternalID (rv_external_id review))
    | Some (post, comment) =>
        match Atoi post with
        | None => Err (VKPostID post)
        | Some postID =>
            match Atoi comment with
            | None => Err (VKCommentID comment)
            | Some commentID =>
                Ok (Some (VKReplyComment, [("post_id", GNum postID); ("comment_id", GNum commentID); ("text", GStr replyText)]))
            end
        end
    end
  else if String.eqb platform AgentTelegram then
    match metaString (rv_platform_meta review) "chat_id" with
    | None => Err (NoMeta "chat_id" (rv_id review))
    | Some chatID =>
        match metaInt (rv_platform_meta review) "message_id" with
        | None => Err (NoMeta "message_id" (rv_id review))
        | Some messageID =>
            Ok (Some (TelegramReplyToComment, [("chat_id", GStr chatID); ("message_id", GNum messageID); ("text", GStr replyText)]))
        end
    end
  else if String.eqb platform AgentYandexBusiness then
    if String.eqb (rv_external_id review) "" then Err (NoExternalID (rv_id review))
    else Ok (Some (YandexBusinessReplyReview, [("review_id", GStr (rv_external_id review)); ("text", GStr replyText)]))
  else if String.eqb platform AgentGoogleBusiness then
    if String.eqb (rv_external_id review) "" then Err (NoExternalID (rv_id review))
    else Ok (Some (GoogleBusinessReplyReview, [("review_name", GStr (rv_external_id review)); ("text", GStr replyText)]))
  else Ok None.

Definition replyToolForPlatform (platform : string) : string :=
  if String.eqb platform AgentVK then VKReplyComment
  else if String.eqb platform AgentTelegram then TelegramReplyToComment
  else if String.eqb platform AgentGoogleBusiness then GoogleBusinessReplyReview
  else if String.eqb platform AgentYandexBusiness then YandexBusinessReplyReview
  else "".

Definition manualReplyApprovalID (review : Review) : string :=
  if negb (String.eqb (rv_dispatch_approval_id review) "") then rv_dispatch_approval_id review
  else ("review-reply-" +:+ rv_id review)%string.

(** ** The gates *)

(** An answer was published, or may have been: only a failed send may be repeated. *)
Definition answered (r : Review) : bool :=
  String.eqb (rv_reply_status r) ReviewReplyStatusReplied
  || (negb (String.eqb (rv_reply_text r) "") && negb (String.eqb (rv_reply_status r) ReviewReplyStatusError)).

Definition skipped (r : Review) : bool := String.eqb (rv_reply_status r) ReviewReplyStatusSkipped.

Definition isPositiveDraftReady (r : Review) : bool :=
  if negb (String.eqb (rv_draft_status r) ReviewDraftStatusReady) || String.eqb (rv_draft_reply r) "" then false
  else if rv_needs_review r then false
  else (ReviewNeedsReviewMaxRating <? rv_rating r)%Z.

Definition isBulkApprovable (r : Review) : bool := isPositiveDraftReady r.

Definition autoPublishMaxRunes : Z := 800.

Definition isDraftSafeForAutoPublish (draft : string) : bool :=
  if (autoPublishMaxRunes <? rune_count draft)%Z then false
  else
    let lower := to_lower draft in
    negb (str_contains lower "://" || str_contains lower "www." || str_contains draft "](").

(** The explicit floor of [tool] is above automatic. *)
Definition floor_forbids (business : Business) (tool : string) : bool :=
  match ToolApprovals (bz_settings business) !! tool with
  | Some floor => negb (String.eqb floor ToolFloorAuto)
  | None => false
  end.

Definition num_of (key : string) (args : list (string * gval)) : Z :=
  match obj_get key args with Some (GNum n) => n | _ => 0%Z end.
Definition str_of (key : string) (args : list (string * gval)) : string :=
  match obj_get key args with Some (GStr s) => s | _ => "" end.

(** The reply goes to a group chat's message, or to a community's comment. *)
Definition in_public (platform : string) (args : list (string * gval)) : bool :=
  if String.eqb platform AgentTelegram then
    match Atoi (str_of "chat_id" args) with
    | None => false
    | Some chat => (chat <? 0)%Z && (0 <? num_of "message_id" args)%Z
    end
  else (0 <? num_of "post_id" args)%Z && (0 <? num_of "comment_id" args)%Z.

Definition factualCommentReply (business : Business) (r : Review) : option string :=
  if rv_needs_review r || negb (rv_rating r =? 0)%Z
     || negb (String.eqb (rv_reply_status r) ReviewReplyStatusPending)
     || (negb (String.eqb (rv_platform r) AgentTelegram) && negb (String.eqb (rv_platform r) AgentVK))
  then None
  else
    match FactualBusinessReply business (rv_text r) with
    | None => None
    | Some reply =>
        if negb (isDraftSafeForAutoPublish reply) then None
        else
          match buildPlatformReply r reply with
          | Err _ | Ok None => None
          | Ok (Some (tool, args)) =>
              if floor_forbids business tool then None
              else if in_public (rv_platform r) args then Some reply else None
          end
    end.

Definition yandexAutoReplyMaxAge : Z := 7 * 24 * Hour.

(** A Yandex review with a known publication date of the last seven days. *)
Definition fresh_yandex (now : Z) (r : Review) : bool :=
  match obj_get "published_at" (rv_platform_meta r) with
  | Some (GStr value) =>
      match parse_rfc3339 value with
      | None => false
      | Some published => (published <=? now)%Z && (now - published <=? yandexAutoReplyMaxAge)%Z
      end
  | _ => false
  end.

Definition with_draft (draft : string) (needsReview : bool) (r : Review) : Review :=
  rv_draft draft ReviewDraftStatusReady (rv_draft_generated_at r) (rv_draft_error r) needsReview r.

Definition autopilotShouldPublish (now : Z) (cfg : ReviewAutopilotConfig) (r : Review) (draft : string)
    (needsReview : bool) : bool :=
  if ra_ignore_four_star cfg && (rv_rating r =? ReviewAutopilotMinRatingFloor)%Z then false
  else if negb (ra_enabled cfg) || (5 <? rv_rating r)%Z then false
  else if negb (isPositiveDraftReady (with_draft draft needsReview r)) then false
  else if negb (isDraftSafeForAutoPublish draft) then false
  else if (rv_rating r <? ra_min_rating cfg)%Z then false
  else if String.eqb (rv_platform r) AgentYandexBusiness then fresh_yandex now r
  else true.

(** ** Texts *)

Definition yandexReplyMaxRunes : Z := 2500.

Definition clampDraftForPlatform (platform draft : string) : string :=
  if String.eqb platform AgentYandexBusiness then first_runes yandexReplyMaxRunes draft else draft.

Definition clampRunes (s : string) (maxRunes : Z) : string :=
  if (maxRunes <=? 0)%Z then s else first_runes maxRunes s.

Definition exampleMaxRunes : Z := 600.
Definition fewShotTotalRuneBudget : Z := 3000.

Record DraftReplyExample := { ex_review_text : string; ex_reply_text : string; ex_rating : Z }.

Fixpoint build_examples (remaining : Z) (src : list Review) (skipID : string) : list DraftReplyExample :=
  match src with
  | [] => []
  | ex :: src' =>
      if String.eqb (rv_id ex) skipID then build_examples remaining src' skipID
      else
        let reviewText := clampRunes (trim_space (rv_text ex)) exampleMaxRunes in
        let replyText := clampRunes (trim_space (rv_reply_text ex)) exampleMaxRunes in
        if String.eqb reviewText "" || String.eqb replyText "" then build_examples remaining src' skipID
        else
          let cost := (rune_count reviewText + rune_count replyText)%Z in
          if (remaining <? cost)%Z then []
          else {| ex_review_text := reviewText; ex_reply_text := replyText; ex_rating := rv_rating ex |}
                 :: build_examples (remaining - cost) src' skipID
  end.

Definition buildExamples (src : list Review) (skipID : string) : list DraftReplyExample :=
  build_examples fewShotTotalRuneBudget src skipID.

(** The quotient of two lengths is at most the [float64] 0.1 exactly when ten
    times the one is at most the other. *)
Definition draftReplyFeedback (draft final : string) : option ReviewDraftFeedback :=
  let d := trim_space draft in
  let f := trim_space final in
  if String.eqb d "" || String.eqb f "" then None
  else
    let dist := runeLevenshtein d f in
    let longest := Z.max (rune_count d) (rune_count f) in
    let accepted := (dist =? 0)%Z || ((0 <? longest)%Z && (10 * dist <=? longest)%Z) in
    Some {| fb_accepted_unedited := accepted; fb_edit_distance := dist |}.

Definition isReadyReviewDraft (r : Review) : bool :=
  String.eqb (rv_draft_status r) ReviewDraftStatusReady && negb (String.eqb (trim_space (rv_draft_reply r)) "").

Definition reviewEditSavedEligible (r : Review) (replyText : string) (recordsDecision : bool) : bool :=
  recordsDecision && isReadyReviewDraft r && negb (String.eqb (rv_draft_reply r) replyText).
End rules.
