(* ===== verification/ReviewService.v ===== *)
(** * Replying to reviews

    [services/api/internal/service/review.go], [review_batch.go],
    [review_drafter.go], [review_sync.go] and [review_telemetry.go]: every operation
    as a program (Prog.v) over the calls it makes to the review repository
    (ReviewStore.v), the businesses, NATS, the orchestrator, the hourly counter and
    the clock, and over the audit and telemetry rows it leaves.  The business
    service, the audit log and the repository's optional methods are wired.
    [svc_text] is the wording of an error; [yandex_published] and [format_rfc3339]
    are as in Postal.v, [voice] stands for [VoiceInstructionsFromSettings]. *)

From S2P Require Import Prelude Json GoTime Runes Types Tools Policy Authz Mongo TaskStore PostStore ReviewStore ChatWorld Postal A2A Prog Dispatch ReviewRules.
Local Open Scope go_scope.

Inductive BusinessError := ErrBusinessNotFound | BusinessFailed.

Record DraftReplyRequest := {
  dr_business_id : string;
  dr_business_name : string;
  dr_business_category : string;
  dr_business_description : string;
  dr_voice_profile : string;
  dr_platform : string;
  dr_review_text : string;
  dr_rating : Z;
  dr_author_name : string;
  dr_examples : list DraftReplyExample;
}.

(** ** The calls *)

Inductive ReviewCall : Type → Type :=
| GetReviewC (id : string) : ReviewCall (result ReviewError Review)
| UpdateReplyC (id text status : string) (feedback : option ReviewDraftFeedback) : ReviewCall (result ReviewError unit)
| UpdateReplyDispatchedC (id text status approval : string) : ReviewCall (result ReviewError unit)
| SkipPendingC (businessID id : string) : ReviewCall (result ReviewError unit)
| PrepareRegenerationC (businessID id : string) : ReviewCall (result ReviewError unit)
| ListPendingC (businessID platform : string) (limit : nat) : ReviewCall (result ReviewError (list Review))
| ListExamplesC (businessID platform : string) (limit : nat) : ReviewCall (result ReviewError (list Review))
| ListDeferredC (businessID platform : string) (limit : nat) : ReviewCall (result ReviewError (list Review))
| SetDeferredC (businessID id : string) (deferred : bool) : ReviewCall (result ReviewError unit)
| ClaimDraftC (id : string) : ReviewCall (result ReviewError bool)
| UpdateDraftC (id draft status errMsg : string) (needsReview : bool) : ReviewCall (result ReviewError unit)
| BulkUpsertC (l : list Review) : ReviewCall (result ReviewError unit)
| BusinessC (id : uuid) : ReviewCall (result BusinessError Business)
| AgentC (subject : string) (req : ToolRequest) : ReviewCall (result goerr string)
| NewIDC : ReviewCall string
| NowC : ReviewCall Z
| HourlyC (key : string) : ReviewCall (result goerr Z)
| DraftC (req : DraftReplyRequest) : ReviewCall (result goerr string)
| NoteC (fx : Fx) : ReviewCall unit.

#[export] Instance review_dispatching : Dispatching ReviewCall := {| newID := NewIDC; request := AgentC |}.

Notation prog := (Prog.prog ReviewCall).

(** ** Errors *)

Inductive DispatchError := BadTarget (e : TargetError) | AgentFailed (e : goerr).

Inductive ServiceError :=
| SvcNotFound
| SvcAnswered
| SvcNotRetryable
| SvcNoBusiness
| SvcEmptyReply
| SvcUnconfigured (what : string)
| SvcFailed (op : string)
| SvcPublish (platform : string) (e : DispatchError)
| SvcDraft (e : goerr)
| SvcRegenerate (text : string).

Definition of_review (op : string) (e : ReviewError) : ServiceError :=
  match e with
  | ErrReviewNotFound => SvcNotFound
  | ErrReviewAlreadyAnswered => SvcAnswered
  | _ => SvcFailed op
  end.

Definition lift {A} (op : string) (r : result ReviewError A) : result ServiceError A :=
  match r with Ok a => Ok a | Err e => Err (of_review op e) end.

Record ReviewDeps := {
  rd_nats : bool;
  rd_drafter : bool;
  rd_refresher : bool;
  rd_autopublisher : bool;
  rd_redis : bool;
  rd_approval_telemetry : bool;
  rd_value_telemetry : bool;
  rd_max_examples : nat;
  rd_per_pass_limit : nat;
}.

(** What a request carries: the autopilot's mark and the caller's access. *)
Record Ctx := { cx_auto : bool; cx_business : option BusinessContext }.

Definition withAutoPublishSignal (ctx : Ctx) : Ctx := {| cx_auto := true; cx_business := cx_business ctx |}.

Record BatchItemResult := { bi_review_id : string; bi_status : string; bi_error : string }.

Definition BatchItemStatusDrafted : string := "drafted".
Definition BatchItemStatusPublished : string := "published".
Definition BatchItemStatusSkipped : string := "skipped".
Definition BatchItemStatusFailed : string := "failed".
Definition maxBatchReviewIDs : nat := 50.
Definition draftExamplesLimit : nat := 5.
Definition yandexAutoRepliesPerHour : Z := 10.
Definition ActionReviewAutoReplied : string := "review.auto_replied".
Definition ReviewReplied : string := "review_replied".

Definition batch_item (id status error : string) : BatchItemResult :=
  {| bi_review_id := id; bi_status := status; bi_error := error |}.

Section service.
Context {U : UUIDText} {J : JsonText}.
Variables (deps : ReviewDeps) (fold_question to_lower : string → string) (svc_text : ServiceError → string)
  (voice : gomap → string) (yandex_published : gomap → Z → option Z) (format_rfc3339 : Z → string).

(** ** review.go *)

Definition GetByID (businessID : uuid) (id : string) : prog (result ServiceError Review) :=
  call! r := GetReviewC id in
  Ret (match r with
       | Err e => Err (of_review "get review" e)
       | Ok review => if negb (String.eqb (rv_business_id review) (uuid_string businessID)) then Err SvcNotFound
                      else Ok review
       end).

Definition gateBusiness (businessID : uuid) : prog (result ServiceError unit) :=
  if bool_decide (businessID = uuid_nil) then Ret (Ok tt)
  else
    call! r := BusinessC businessID in
    Ret (match r with
         | Ok _ => Ok tt
         | Err ErrBusinessNotFound => Err SvcNoBusiness
         | Err BusinessFailed => Err (SvcFailed "load review business")
         end).

(** *** review_telemetry.go *)

Definition recordReviewApproval (ctx : Ctx) (review : Review) (action outcome : string) : prog unit :=
  if negb (rd_approval_telemetry deps) || cx_auto ctx then Ret tt
  else Call (NoteC (FxApproval {|
         tev_batch_id := ""; tev_draft_id := ("review-reply-" +:+ rv_id review)%string;
         tev_approval_id := manualReplyApprovalID review; tev_kind := "review_reply";
         tev_source := "reviews"; tev_action := action; tev_outcome := outcome |})) Ret.

Definition recordReviewDecision (ctx : Ctx) (review : Review) (replyText : string) : prog unit :=
  recordReviewApproval ctx review "decision_recorded"
    (if isReadyReviewDraft review && negb (String.eqb (rv_draft_reply review) replyText) then "edit" else "approve").

Definition recordReviewEditSaved (ctx : Ctx) (review : Review) : prog unit :=
  recordReviewApproval ctx review "edit_saved" "".

(** The tool that was dispatched: [""] when none was. *)
Definition recordReviewResult (ctx : Ctx) (review : Review) (out : result DispatchError string) : prog unit :=
  recordReviewApproval ctx review "send_result"
    (match out with
     | Err _ => "error"
     | Ok toolName => if String.eqb toolName "" then "not_dispatched" else "success"
     end).

(** *** Dispatch *)

Definition dispatchToPlatform (review : Review) (replyText : string) : prog (result DispatchError string) :=
  if negb (rd_nats deps) then Ret (Ok "")
  else
    match buildPlatformReply review replyText with
    | Err e => Ret (Err (BadTarget e))
    | Ok None => Ret (Ok "")
    | Ok (Some (toolName, args)) =>
        sub! out := dispatchToolWithApproval (rv_platform review) toolName (Some args)
                      (rv_business_id review) (manualReplyApprovalID review) in
        Ret (match out.2 with
             | Some e => Err (AgentFailed e)
             | None => Ok toolName
             end)
    end.

Definition auditReviewReplied (ctx : Ctx) (review : Review) (toolName : string) : prog unit :=
  match uuid_parse (rv_business_id review) with
  | None => Ret tt
  | Some bizID =>
      let action := if String.eqb (rv_platform review) AgentYandexBusiness then ActionRPAReviewReplied
                    else ActionPlatformReviewReplied in
      Call (NoteC (FxAudit action bizID (bc_user_id <$> cx_business ctx) toolName (rv_platform review)
                     (rv_external_id review))) Ret
  end.

Definition record_value (review : Review) : prog unit :=
  if rd_value_telemetry deps then
    match uuid_parse (rv_business_id review) with
    | None => Ret tt
    | Some bizID => Call (NoteC (FxValue ReviewReplied (rv_business_id review +:+ ":" +:+ rv_id review)%string
                                   bizID (rv_platform review) "review_reply")) Ret
    end
  else Ret tt.

Definition final_status (out : result DispatchError string) : string :=
  if is_ok out then ReviewReplyStatusReplied else ReviewReplyStatusError.

(** The reply went out: the tool that carried it. *)
Definition sent_tool (out : result DispatchError string) : bool :=
  match out with Ok toolName => negb (String.eqb toolName "") | Err _ => false end.

(** The status write of the first pass, only after a reply went out. *)
Definition record_dispatched (ctx : Ctx) (review : Review) (replyText : string) (recordsDecision : bool)
    (out : result DispatchError string) : prog (result ServiceError bool) :=
  if sent_tool out then
    call! r := UpdateReplyDispatchedC (rv_id review) replyText (final_status out) (manualReplyApprovalID review) in
    match r with
    | Err e => Ret (Err (of_review "record successful review dispatch" e))
    | Ok _ =>
        if reviewEditSavedEligible review replyText recordsDecision
        then sub! _ := recordReviewEditSaved ctx review in Ret (Ok true)
        else Ret (Ok false)
    end
  else Ret (Ok false).

Definition publishReply (ctx : Ctx) (review : Review) (replyText : string) (recordsDecision : bool)
    : prog (result ServiceError unit) :=
  sub! _ := (if recordsDecision then recordReviewDecision ctx review replyText else Ret tt) in
  sub! out := dispatchToPlatform review replyText in
  sub! _ := recordReviewResult ctx review out in
  sub! _ := (match out with
             | Ok toolName => if sent_tool out && negb (cx_auto ctx) then auditReviewReplied ctx review toolName
                              else Ret tt
             | Err _ => Ret tt
             end) in
  ok! editSavedRecorded := record_dispatched ctx review replyText recordsDecision out in
  let feedback := if cx_auto ctx then None else draftReplyFeedback (rv_draft_reply review) replyText in
  call! r := UpdateReplyC (rv_id review) replyText (final_status out) feedback in
  match r with
  | Err e => Ret (Err (of_review "update reply" e))
  | Ok _ =>
      sub! _ := (if negb editSavedRecorded && reviewEditSavedEligible review replyText recordsDecision
                 then recordReviewEditSaved ctx review else Ret tt) in
      match out with
      | Err e => Ret (Err (SvcPublish (rv_platform review) e))
      | Ok _ => sub! _ := (if sent_tool out then record_value review else Ret tt) in Ret (Ok tt)
      end
  end.

Definition Reply (ctx : Ctx) (businessID : uuid) (id replyText : string) : prog (result ServiceError unit) :=
  if String.eqb replyText "" then Ret (Err SvcEmptyReply)
  else
    ok! review := GetByID businessID id in
    if (cx_auto ctx && skipped review) || answered review then Ret (Err SvcAnswered)
    else
      ok! _ := gateBusiness businessID in
      publishReply ctx review replyText true.

Definition Skip (businessID : uuid) (id : string) : prog (result ServiceError unit) :=
  ok! review := GetByID businessID id in
  if skipped review then Ret (Ok tt)
  else if negb (String.eqb (rv_reply_status review) ReviewReplyStatusPending) then Ret (Err SvcAnswered)
  else
    ok! _ := gateBusiness businessID in
    call! r := SkipPendingC (uuid_string businessID) id in
    Ret (lift "skip review" r).

Definition retryable (review : Review) : bool :=
  String.eqb (rv_reply_status review) ReviewReplyStatusError && negb (String.eqb (rv_reply_text review) "").

Definition RetryReply (ctx : Ctx) (businessID : uuid) (id : string) : prog (result ServiceError unit) :=
  ok! review := GetByID businessID id in
  if negb (retryable review) then Ret (Err SvcNotRetryable)
  else
    ok! _ := gateBusiness businessID in
    publishReply ctx review (rv_reply_text review) false.

(** The syncs a manual refresh starts are those of [review_syncs]. *)
Definition Refresh (ctx : Ctx) : prog (result ServiceError uuid) :=
  if negb (rd_refresher deps) then Ret (Err (SvcUnconfigured "review refresh"))
  else
    match cx_business ctx with
    | None => Ret (Err (SvcUnconfigured "BusinessContext"))
    | Some bc =>
        ok! _ := gateBusiness (bc_business_id bc) in
        Ret (Ok (bc_business_id bc))
    end.

(** ** review_drafter.go *)

Definition publishAutomaticReply (ctx : Ctx) (business : Business) (review : Review) (draft : string) : prog unit :=
  let publish :=
    sub! r := Reply (withAutoPublishSignal ctx) (bz_id business) (rv_id review) draft in
    match r with
    | Err _ => Ret tt
    | Ok _ => Call (NoteC (FxAudit ActionReviewAutoReplied (bz_id business) None
                (replyToolForPlatform (rv_platform review)) (rv_platform review) (rv_external_id review))) Ret
    end in
  if negb (rd_autopublisher deps) then Ret tt
  else
    let tool := replyToolForPlatform (rv_platform review) in
    if String.eqb tool "" then Ret tt
    else if floor_forbids business tool then Ret tt
    else if String.eqb (rv_platform review) AgentYandexBusiness then
      if negb (rd_redis deps) then Ret tt
      else
        call! count := HourlyC ("reviews:auto:yandex:" +:+ uuid_string (bz_id business))%string in
        match count with
        | Err _ => Ret tt
        | Ok n =>
            if (yandexAutoRepliesPerHour <? n)%Z
            then call! _ := SetDeferredC (uuid_string (bz_id business)) (rv_id review) true in Ret tt
            else publish
        end
    else publish.

Definition maybeAutoPublish (ctx : Ctx) (business : Business) (review : Review) (draft : string) (needsReview : bool)
    : prog unit :=
  if negb (rd_autopublisher deps) then Ret tt
  else
    call! now := NowC in
    if negb (autopilotShouldPublish to_lower now (ReviewAutopilotFromSettings (bz_settings business)) review draft needsReview)
    then Ret tt
    else publishAutomaticReply ctx business review draft.

Definition draft_request (business : Business) (review : Review) (examples : list Review) : DraftReplyRequest := {|
  dr_business_id := uuid_string (bz_id business);
  dr_business_name := bz_name business;
  dr_business_category := bz_category business;
  dr_business_description := bz_description business;
  dr_voice_profile := voice (bz_settings business);
  dr_platform := rv_platform review;
  dr_review_text := rv_text review;
  dr_rating := rv_rating review;
  dr_author_name := rv_author_name review;
  dr_examples := buildExamples examples (rv_id review);
|}.

Definition callOrchestrator (body : DraftReplyRequest) : prog (result goerr string) :=
  call! r := DraftC body in
  Ret (match r with
       | Err e => Err (EWrap "post draft-reply" e)
       | Ok out => let draft := trim_space out in
                   if String.eqb draft "" then Err (EText "orchestrator returned empty draft") else Ok draft
       end).

(** A draft from the orchestrator, stored and perhaps published. *)
Definition draft_by_model (ctx : Ctx) (business : Business) (review : Review) (examples : list Review)
    : prog (result ServiceError unit) :=
  sub! r := callOrchestrator (draft_request business review examples) in
  match r with
  | Err e =>
      call! _ := UpdateDraftC (rv_id review) "" ReviewDraftStatusFailed (error_text e) false in
      Ret (Err (SvcDraft e))
  | Ok text =>
      let draft := clampDraftForPlatform (rv_platform review) text in
      let needsReview := (rv_rating review <=? ReviewNeedsReviewMaxRating)%Z in
      call! u := UpdateDraftC (rv_id review) draft ReviewDraftStatusReady "" needsReview in
      match u with
      | Err e => Ret (Err (of_review "persist draft" e))
      | Ok _ => sub! _ := maybeAutoPublish ctx business review draft needsReview in Ret (Ok tt)
      end
  end.

Definition generateOne (ctx : Ctx) (business : Business) (review : Review) (examples : list Review)
    : prog (result ServiceError unit) :=
  let cfg := ReviewAutopilotFromSettings (bz_settings business) in
  if ra_ignore_four_star cfg && String.eqb (rv_reply_status review) ReviewReplyStatusPending
     && (rv_rating review =? ReviewAutopilotMinRatingFloor)%Z
  then
    call! r := SkipPendingC (uuid_string (bz_id business)) (rv_id review) in
    Ret (lift "skip pending review" r)
  else
    call! claimed := ClaimDraftC (rv_id review) in
    match claimed with
    | Err e => Ret (Err (of_review "claim row" e))
    | Ok false => Ret (Ok tt)
    | Ok true =>
        match (if ra_auto_answer_facts cfg then factualCommentReply fold_question to_lower business review else None) with
        | Some reply =>
            call! u := UpdateDraftC (rv_id review) reply ReviewDraftStatusReady "" false in
            match u with
            | Err e => Ret (Err (of_review "persist factual draft" e))
            | Ok _ => sub! _ := publishAutomaticReply ctx business review reply in Ret (Ok tt)
            end
        | None => draft_by_model ctx business review examples
        end
    end.

Definition DraftReviewByID := generateOne.

(** Deferred replies again: those no longer eligible lose their mark, and the pass
    stops when that fails. *)
Fixpoint publish_deferred (ctx : Ctx) (businessID : uuid) (business : Business) (l : list Review)
    : prog (result ServiceError unit) :=
  match l with
  | [] => Ret (Ok tt)
  | review :: l' =>
      call! now := NowC in
      if negb (autopilotShouldPublish to_lower now (ReviewAutopilotFromSettings (bz_settings business)) review
                 (rv_draft_reply review) (rv_needs_review review))
      then
        call! r := SetDeferredC (uuid_string businessID) (rv_id review) false in
        match r with
        | Err e => Ret (Err (of_review "clear ineligible auto-reply deferral" e))
        | Ok _ => publish_deferred ctx businessID business l'
        end
      else
        sub! _ := maybeAutoPublish ctx business review (rv_draft_reply review) (rv_needs_review review) in
        publish_deferred ctx businessID business l'
  end.

Fixpoint generate_all (ctx : Ctx) (business : Business) (examples : list Review) (l : list Review) : prog unit :=
  match l with
  | [] => Ret tt
  | review :: l' =>
      sub! _ := generateOne ctx business review examples in generate_all ctx business examples l'
  end.

Definition list_deferred (businessID platform : string) : prog (result ReviewError (list Review)) :=
  if String.eqb platform AgentYandexBusiness || String.eqb platform ""
  then Call (ListDeferredC businessID AgentYandexBusiness (rd_per_pass_limit deps)) Ret
  else Ret (Ok []).

Definition generate_pass (ctx : Ctx) (businessID : uuid) (platform : string) (deferred pending : list Review)
    : prog (result ServiceError unit) :=
  call! b := BusinessC businessID in
  match b with
  | Err _ => Ret (Err (SvcFailed "get business"))
  | Ok business =>
      ok! _ := publish_deferred ctx businessID business deferred in
      match pending with
      | [] => Ret (Ok tt)
      | _ =>
          call! ex := ListExamplesC (uuid_string businessID) platform (rd_max_examples deps) in
          let examples := match ex with Ok l => l | Err _ => [] end in
          sub! _ := generate_all ctx business examples pending in
          Ret (Ok tt)
      end
  end.

Definition GenerateForBusiness (ctx : Ctx) (businessID : uuid) (platform : string) : prog (result ServiceError unit) :=
  call! p := ListPendingC (uuid_string businessID) platform (rd_per_pass_limit deps) in
  match p with
  | Err e => Ret (Err (of_review "list pending without draft" e))
  | Ok pending =>
      sub! d := list_deferred (uuid_string businessID) platform in
      match d with
      | Err e => Ret (Err (of_review "list deferred auto-replies" e))
      | Ok deferred =>
          match pending, deferred with
          | [], [] => Ret (Ok tt)
          | _, _ => generate_pass ctx businessID platform deferred pending
          end
      end
  end.

(** ** review_batch.go *)

Definition not_found (id : string) : BatchItemResult := batch_item id BatchItemStatusSkipped "not_found".
Definition already_answered (id : string) : BatchItemResult := batch_item id BatchItemStatusSkipped "already_answered".

(** What a batch may not touch, by the row as read. *)
Definition batch_refusal (businessID : uuid) (id : string) (r : result ReviewError Review) : Review + BatchItemResult :=
  match r with
  | Err _ => inr (not_found id)
  | Ok review =>
      if negb (String.eqb (rv_business_id review) (uuid_string businessID)) then inr (not_found id)
      else if skipped review || answered review then inr (already_answered id)
      else inl review
  end.

Fixpoint resolve_ids (businessID : uuid) (ids : list string) (targets : list Review) (results : list BatchItemResult)
    : prog (list Review * list BatchItemResult) :=
  match ids with
  | [] => Ret (targets, results)
  | id :: ids' =>
      call! r := GetReviewC id in
      match batch_refusal businessID id r with
      | inl review => resolve_ids businessID ids' (targets ++ [review]) results
      | inr item => resolve_ids businessID ids' targets (results ++ [item])
      end
  end.

Definition resolveDraftTargets (businessID : uuid) (ids : list string)
    : prog (result ServiceError (list Review * list BatchItemResult)) :=
  match ids with
  | [] =>
      call! p := ListPendingC (uuid_string businessID) "" maxBatchReviewIDs in
      Ret (match p with
           | Err e => Err (of_review "list pending without draft" e)
           | Ok pending => Ok (pending, [])
           end)
  | _ => sub! out := resolve_ids businessID (take maxBatchReviewIDs ids) [] [] in Ret (Ok out)
  end.

Fixpoint draft_all (ctx : Ctx) (business : Business) (examples targets : list Review) (results : list BatchItemResult)
    : prog (list BatchItemResult) :=
  match targets with
  | [] => Ret results
  | review :: targets' =>
      sub! r := DraftReviewByID ctx business review examples in
      let item := match r with
        | Ok _ => batch_item (rv_id review) BatchItemStatusDrafted ""
        | Err e => batch_item (rv_id review) BatchItemStatusFailed (svc_text e)
        end in
      draft_all ctx business examples targets' (results ++ [item])
  end.

Definition BatchDraft (ctx : Ctx) (businessID : uuid) (ids : list string)
    : prog (result ServiceError (list BatchItemResult)) :=
  if negb (rd_drafter deps) then Ret (Err (SvcUnconfigured "review drafting"))
  else
    ok! _ := gateBusiness businessID in
    call! b := BusinessC businessID in
    match b with
    | Err ErrBusinessNotFound => Ret (Err SvcNoBusiness)
    | Err BusinessFailed => Ret (Err (SvcFailed "load business"))
    | Ok business =>
        ok! resolved := resolveDraftTargets businessID ids in
        match resolved.1 with
        | [] => Ret (Ok resolved.2)
        | targets =>
            call! ex := ListExamplesC (uuid_string businessID) "" draftExamplesLimit in
            let examples := match ex with Ok l => l | Err _ => [] end in
            sub! results := draft_all ctx business examples targets resolved.2 in
            Ret (Ok results)
        end
    end.

Definition bulkApproveOne (ctx : Ctx) (businessID : uuid) (id : string) : prog BatchItemResult :=
  call! r := GetReviewC id in
  match batch_refusal businessID id r with
  | inr item => Ret item
  | inl review =>
      if negb (isBulkApprovable review) then Ret (batch_item id BatchItemStatusSkipped "not_positive_or_no_draft")
      else
        sub! out := Reply ctx businessID id (rv_draft_reply review) in
        Ret (match out with
             | Ok _ => batch_item id BatchItemStatusPublished ""
             | Err e => batch_item id BatchItemStatusFailed (svc_text e)
             end)
  end.

Fixpoint approve_all (ctx : Ctx) (businessID : uuid) (ids : list string) : prog (list BatchItemResult) :=
  match ids with
  | [] => Ret []
  | id :: ids' =>
      sub! item := bulkApproveOne ctx businessID id in
      sub! items := approve_all ctx businessID ids' in
      Ret (item :: items)
  end.

Definition BulkApprove (ctx : Ctx) (businessID : uuid) (ids : list string)
    : prog (result ServiceError (list BatchItemResult)) :=
  match ids with
  | [] => Ret (Ok [])
  | _ =>
      ok! _ := gateBusiness businessID in
      sub! items := approve_all ctx businessID (take maxBatchReviewIDs ids) in
      Ret (Ok items)
  end.

Definition Regenerate (ctx : Ctx) (businessID : uuid) (id : string) : prog (result ServiceError unit) :=
  ok! _ := GetByID businessID id in
  ok! _ := gateBusiness businessID in
  call! r := PrepareRegenerationC (uuid_string businessID) id in
  match r with
  | Err e => Ret (Err (of_review "prepare review regeneration" e))
  | Ok _ =>
      ok! results := BatchDraft ctx businessID [id] in
      Ret (match filterb (λ item, negb (String.eqb (bi_status item) BatchItemStatusDrafted)) results with
           | [] => Ok tt
           | item :: _ => Err (SvcRegenerate (bi_error item))
           end)
  end.

(** ** review_sync.go *)

Definition reviewSyncBatchSize : Z := 50.
Definition ingestedTextMaxRunes : Z := 8000.

Definition TelegramGetReviews : string := "telegram__get_reviews".
Definition YandexBusinessGetReviews : string := "yandex_business__get_reviews".
Definition VKGetComments : string := "vk__get_comments".

Definition reviewToolByPlatform : list (string * string) := [
  (AgentTelegram, TelegramGetReviews); (AgentYandexBusiness, YandexBusinessGetReviews); (AgentVK, VKGetComments)].

(** The pairs a full sync visits, each once, and the platforms of one business. *)
Fixpoint unique_pairs (seen : list (uuid * string)) (l : list (uuid * string)) : list (uuid * string) :=
  match l with
  | [] => []
  | k :: l' => if list_mem k seen then unique_pairs seen l' else k :: unique_pairs (k :: seen) l'
  end.

Definition business_platforms (l : list Integration) : list string :=
  remove_dups ((λ i, in_platform i) <$>
    filterb (λ i, String.eqb (in_status i) IntegrationStatusActive
               && bool_decide (is_Some (obj_get (in_platform i) reviewToolByPlatform))) l).

Definition VKReviewAuthorName (name : string) (fromID : Z) : string :=
  let name := trim_space name in
  let '(name, fromID) :=
    if String.prefix "vk_user_" name then
      match Atoi (str_drop 8 name) with Some id => ("", id) | None => (name, fromID) end
    else (name, fromID) in
  if negb (String.eqb name "") then name
  else if (fromID <? 0)%Z then VKUnknownCommunityName else VKUnknownUserName.

Definition externalIDFromMap (m : list (string * gval)) (platform : string) : string :=
  match obj_get "id" m with
  | Some (GStr s) => if negb (String.eqb s "") then s else ""
  | _ =>
      match metaInt m "id" with
      | None => ""
      | Some id =>
          match (if String.eqb platform AgentVK then metaInt m "post_id" else None) with
          | Some postID => (print_Z postID +:+ "_" +:+ print_Z id)%string
          | None => print_Z id
          end
      end
  end.

Definition created_of (m : list (string * gval)) (now : Z) : Z :=
  match obj_get "created_at" m with
  | Some (GStr ts) =>
      if String.eqb ts "" then
        match metaInt m "date" with Some unix => if (0 <? unix)%Z then (unix * Second)%Z else now | None => now end
      else default now (parse_rfc3339 ts)
  | _ => match metaInt m "date" with Some unix => if (0 <? unix)%Z then (unix * Second)%Z else now | None => now end
  end.

Definition review_of (m : list (string * gval)) (businessID platform id : string) (now : Z) (published : option Z)
    : Review :=
  let text := clampRunes (str_or_empty "text" (Some m)) ingestedTextMaxRunes in
  let reply := clampRunes (str_or_empty "reply" (Some m)) ingestedTextMaxRunes in
  let author := str_or_empty "author" (Some m) in
  let yandex := String.eqb platform AgentYandexBusiness in
  {| rv_id := id; rv_business_id := businessID; rv_platform := platform;
     rv_external_id := externalIDFromMap m platform;
     rv_author_name := (if String.eqb platform AgentVK then VKReviewAuthorName author (default 0%Z (metaInt m "from_id"))
                        else author);
     rv_rating := rating_of (obj_get "rating" m); rv_text := text; rv_reply_text := reply;
     rv_reply_status := (if String.eqb reply "" then ReviewReplyStatusPending else ReviewReplyStatusReplied);
     rv_platform_meta :=
       (if yandex then match published with
                       | Some p => [("published_at", GStr (format_rfc3339 p))]
                       | None => []
                       end
        else PlatformMetaFromMap (Some m));
     rv_dispatch_approval_id := "";
     rv_created_at := (if yandex then default (created_of m now) published else created_of m now);
     rv_replied_at := None; rv_draft_reply := ""; rv_draft_status := ""; rv_draft_generated_at := None;
     rv_draft_error := ""; rv_needs_review := false; rv_accepted_unedited := None; rv_edit_distance := None;
     rv_auto_reply_deferred := false |}.

Definition reviewFromMap (m : list (string * gval)) (businessID platform : string) : prog Review :=
  call! now := NowC in
  call! id := NewIDC in
  if String.eqb platform AgentYandexBusiness then
    call! now' := NowC in
    Ret (review_of m businessID platform id now (yandex_published (Some m) now'))
  else Ret (review_of m businessID platform id now None).

(** The entries that are objects, in order. *)
Fixpoint reviews_from (l : list gval) (businessID platform : string) : prog (list Review) :=
  match l with
  | [] => Ret []
  | GObj m :: l' =>
      sub! r := reviewFromMap m businessID platform in
      sub! rs := reviews_from l' businessID platform in
      Ret (r :: rs)
  | _ :: l' => reviews_from l' businessID platform
  end.

(** The last entry of an external id, at the place of the first. *)
Fixpoint last_by_external_id (out : list Review) (l : list Review) : list Review :=
  match l with
  | [] => out
  | r :: l' =>
      let same o := String.eqb (rv_external_id o) (rv_external_id r) in
      if String.eqb (rv_external_id r) "" then last_by_external_id out l'
      else if existsb same out then last_by_external_id ((λ o, if same o then r else o) <$> out) l'
      else last_by_external_id (out ++ [r]) l'
  end.

Definition dedupeReviewsByExternalID (l : list gval) (businessID platform : string) : prog (list Review) :=
  sub! rs := reviews_from l businessID platform in Ret (last_by_external_id [] rs).

Definition fetched (resp : ToolResponse) : option (list gval) :=
  match gomap_get "reviews" (tp_result resp) with
  | Some (GArr l) => Some l
  | Some _ => None
  | None => match gomap_get "comments" (tp_result resp) with Some (GArr l) => Some l | _ => None end
  end.

Definition syncOne (ctx : Ctx) (businessID : uuid) (platform : string) : prog (result ServiceError unit) :=
  match obj_get platform reviewToolByPlatform with
  | None => Ret (Err (SvcUnconfigured platform))
  | Some toolName =>
      sub! out := dispatchTool platform toolName (Some [("limit", GNum reviewSyncBatchSize)]) (uuid_string businessID) in
      match out.2 with
      | Some e => Ret (Err (SvcPublish platform (AgentFailed e)))
      | None =>
          match fetched out.1 with
          | None => Ret (Ok tt)
          | Some l =>
              sub! reviews := dedupeReviewsByExternalID l (uuid_string businessID) platform in
              call! r := BulkUpsertC reviews in
              match r with
              | Err e => Ret (Err (of_review "bulk upsert reviews" e))
              | Ok _ =>
                  if rd_drafter deps then
                    sub! _ := GenerateForBusiness ctx businessID platform in Ret (Ok tt)
                  else Ret (Ok tt)
              end
          end
      end
  end.
End service.
