(* ===== verification/ReviewSafety.v ===== *)
(** * What a reply rests on

    The requests the review operations of ReviewService.v may send, whatever their
    calls answer: an unattended pass publishes only what the autopilot's gates let
    through, a bulk approval only positive drafts. *)

From S2P Require Import Prelude Json GoTime Runes Types Tools Policy Authz Mongo TaskStore PostStore ReviewStore ChatWorld Postal A2A Prog Dispatch ReviewRules ReviewService.
Local Open Scope go_scope.

Section safety.
Context {U : UUIDText} {J : JsonText}.
Variables (deps : ReviewDeps) (fold_question to_lower : string → string) (svc_text : ServiceError → string)
  (voice : gomap → string) (yandex_published : gomap → Z → option Z) (format_rfc3339 : Z → string).
Variable (ans : ∀ B, ReviewCall B → B → Prop).

(** The request that posts [text] under [review]. *)
Definition reply_to (review : Review) (text subject : string) (req : ToolRequest) : Prop :=
  ∃ tool args taskID, buildPlatformReply review text = Ok (Some (tool, args))
    ∧ subject = Subject (rv_platform review)
    ∧ req = tool_request taskID tool (Some args) (rv_business_id review) (manualReplyApprovalID review).

Definition sends_only (P : string → ToolRequest → Prop) B (c : ReviewCall B) : Prop :=
  match c with AgentC subject req => P subject req | _ => True end.

(** Whatever the calls answer, [p] sends only what [P] allows. *)
Notation sending P p := (wp (plain_spec ans (sends_only P)) p (λ _ _, True) tt).

Lemma sending_bind {A B} P (p : prog A) (f : A → prog B) :
  sending P p → (∀ a, sending P (f a)) → sending P (prog_bind p f).
Proof.
  intros Hp Hf. apply wp_bind; [apply plain_spec_mono|].
  eapply wp_mono; [apply plain_spec_mono| |exact Hp]. intros a [] _. apply Hf.
Qed.

Lemma sending_weaken {A} (P Q : string → ToolRequest → Prop) (p : prog A) :
  (∀ subject req, P subject req → Q subject req) → sending P p → sending Q p.
Proof.
  intros HPQ. apply wp_weaken; [|done]. intros B c [] K K' HK [Ha Hb].
  split; [destruct c; cbn in *; auto|]. intros b Hans. by apply HK, Hb.
Qed.

(** A read, a clock, a note: calls that are no request. *)
Ltac quiet := repeat first
  [ done
  | apply sending_bind; [|intros ?]
  | match goal with |- wp _ (if ?b then _ else _) _ _ => destruct b end
  | match goal with |- wp _ (match ?x with Ok _ => _ | Err _ => _ end) _ _ => destruct x end
  | match goal with |- wp _ (match ?x with Some _ => _ | None => _ end) _ _ => destruct x end
  | split; [done|intros ? ?; cbn beta] ].

Lemma sending_approval P ctx review action outcome :
  sending P (recordReviewApproval deps ctx review action outcome).
Proof. unfold recordReviewApproval. quiet. Qed.

Hint Resolve sending_approval : core.

Lemma sending_audit P ctx review tool : sending P (auditReviewReplied ctx review tool).
Proof. unfold auditReviewReplied. quiet. Qed.

Lemma sending_value P review : sending P (record_value deps review).
Proof. unfold record_value. quiet. Qed.

Lemma sending_recorded P ctx review text dec out : sending P (record_dispatched deps ctx review text dec out).
Proof. unfold record_dispatched, recordReviewEditSaved. quiet; auto. Qed.

Lemma sending_gate P biz : sending P (gateBusiness biz).
Proof. unfold gateBusiness. quiet. Qed.

Lemma sending_get P biz id (Q : result ServiceError Review → unit → Prop) :
  (∀ e, Q (Err e) tt) →
  (∀ review, ans _ (GetReviewC id) (Ok review) → rv_business_id review = uuid_string biz → Q (Ok review) tt) →
  wp (plain_spec ans (sends_only P)) (GetByID biz id) Q tt.
Proof.
  intros He Hr. split; [done|]. intros [review|e] Ha; cbn; [|apply He].
  destruct (String.eqb_spec (rv_business_id review) (uuid_string biz)) as [E|E]; cbn; [by apply Hr|apply He].
Qed.

Lemma sending_dispatch (P : string → ToolRequest → Prop) review text :
  (∀ subject req, reply_to review text subject req → P subject req) →
  sending P (dispatchToPlatform deps review text).
Proof.
  intros HP. unfold dispatchToPlatform. destruct (negb _); [done|].
  destruct (buildPlatformReply review text) as [[[tool args]|]|e] eqn:Eb; [|done..].
  apply sending_bind; [|done]. apply wp_dispatch; [apply plain_spec_mono|]. split; [done|]. intros task _.
  split; [|done]. apply HP. by exists tool, args, task.
Qed.

Lemma sending_publish (P : string → ToolRequest → Prop) ctx review text dec :
  (∀ subject req, reply_to review text subject req → P subject req) →
  sending P (publishReply deps ctx review text dec).
Proof.
  intros HP. unfold publishReply, recordReviewDecision, recordReviewResult, recordReviewEditSaved.
  apply sending_bind; [destruct dec; [apply sending_approval|done]|intros _].
  apply sending_bind; [by apply sending_dispatch|intros out].
  apply sending_bind; [apply sending_approval|intros _].
  apply sending_bind; [destruct out; [destruct (_ && _); [apply sending_audit|]|]; done|intros _].
  apply sending_bind; [apply sending_recorded|intros [saved|e]; [|done]].
  split; [done|]. intros [u|e] _; [|done].
  apply sending_bind; [destruct (_ && _); [apply sending_approval|done]|intros _].
  destruct out; [|done]. apply sending_bind; [destruct (sent_tool _); [apply sending_value|done]|done].
Qed.

(** The row a reply is sent for, as read just before. *)
Record open_row (auto : bool) (biz : uuid) (id : string) (review : Review) : Prop := {
  or_read : ans _ (GetReviewC id) (Ok review);
  or_business : rv_business_id review = uuid_string biz;
  or_open : answered review = false;
  or_unskipped : auto = true → skipped review = false;
}.

Lemma sending_reply (P : string → ToolRequest → Prop) ctx biz id text :
  (∀ review subject req, open_row (cx_auto ctx) biz id review → reply_to review text subject req → P subject req) →
  sending P (Reply deps ctx biz id text).
Proof.
  intros HP. unfold Reply. destruct (String.eqb text ""); [done|].
  apply wp_bind; [apply plain_spec_mono|]. apply sending_get; [done|]. intros review Hr Hb.
  destruct (_ || _) eqn:Eo; [done|]. apply orb_false_iff in Eo as [Es Ea].
  apply sending_bind; [apply sending_gate|intros [u|e]; [|done]]. apply sending_publish. intros subject req.
  apply HP. split; [done..|]. intros Hauto. by rewrite Hauto in Es.
Qed.

(** ** The unattended pass *)

(** Short, and without a link. *)
Definition plain_text (draft : string) : Prop :=
  (rune_count draft ≤ autoPublishMaxRunes)%Z ∧ str_contains (to_lower draft) "://" = false
  ∧ str_contains (to_lower draft) "www." = false ∧ str_contains draft "](" = false.

(** The owner's consent to publish [draft] under [review] unread: the autopilot for
    positive reviews, or the factual answers to unrated comments. *)
Definition consent (business : Business) (review : Review) (draft : string) : Prop :=
  let cfg := ReviewAutopilotFromSettings (bz_settings business) in
  (ra_enabled cfg = true ∧ (ReviewNeedsReviewMaxRating < rv_rating review ≤ 5)%Z
   ∧ (ra_min_rating cfg ≤ rv_rating review)%Z
   ∧ (ra_ignore_four_star cfg = true → rv_rating review ≠ 4%Z)
   ∧ (rv_platform review = AgentYandexBusiness → ∃ now, ans _ NowC now ∧ fresh_yandex now review = true))
  ∨ (ra_auto_answer_facts cfg = true ∧ rv_rating review = 0%Z ∧ rv_reply_status review = ReviewReplyStatusPending
     ∧ rv_platform review ∈ [AgentTelegram; AgentVK]
     ∧ FactualBusinessReply fold_question business (rv_text review) = Some draft).

Record unattended (business : Business) (review : Review) (draft : string) : Prop := {
  un_text : plain_text draft;
  un_consent : consent business review draft;
  un_floor : floor_forbids business (replyToolForPlatform (rv_platform review)) = false;
  un_cap : rv_platform review = AgentYandexBusiness →
    ∃ n, ans _ (HourlyC ("reviews:auto:yandex:" +:+ uuid_string (bz_id business))%string) (Ok n) ∧ (n ≤ yandexAutoRepliesPerHour)%Z;
}.

(** The reply goes to the row re-read when it was due, still open and not skipped. *)
Definition auto_reply (business : Business) (review : Review) (subject : string) (req : ToolRequest) : Prop :=
  ∃ draft row, unattended business review draft ∧ open_row true (bz_id business) (rv_id review) row
    ∧ reply_to row draft subject req.

Lemma safe_plain draft : isDraftSafeForAutoPublish to_lower draft = true → plain_text draft.
Proof.
  unfold isDraftSafeForAutoPublish. destruct (Z.ltb_spec autoPublishMaxRunes (rune_count draft)); [done|].
  rewrite negb_true_iff, !orb_false_iff. intros [[H1 H2] H3]. by split_and!.
Qed.

Lemma gate_consent now business review draft needs :
  ans _ NowC now →
  autopilotShouldPublish to_lower now (ReviewAutopilotFromSettings (bz_settings business)) review draft needs = true →
  plain_text draft ∧ consent business review draft.
Proof.
  intros Hnow. unfold autopilotShouldPublish. set (cfg := ReviewAutopilotFromSettings _).
  destruct (ra_ignore_four_star cfg && _) eqn:E4; [done|].
  destruct (negb (ra_enabled cfg) || _) eqn:Ee; [done|]. apply orb_false_iff in Ee as [Een%negb_false_iff E5%Z.ltb_ge].
  destruct (negb (isPositiveDraftReady _)) eqn:Ep; [done|]. apply negb_false_iff in Ep.
  unfold isPositiveDraftReady in Ep. destruct (_ || _) in Ep; [done|]. destruct (rv_needs_review _) in Ep; [done|].
  apply Z.ltb_lt in Ep.
  destruct (negb (isDraftSafeForAutoPublish _ _)) eqn:Es; [done|]. apply negb_false_iff, safe_plain in Es.
  destruct (Z.ltb_spec (rv_rating review) (ra_min_rating cfg)); [done|]. intros Hy. split; [done|]. left.
  split_and!; [done|exact Ep|lia|done| |].
  - intros Hi Hr. fold cfg in Hi. by rewrite Hi, Hr in E4.
  - intros Hpl. rewrite Hpl in Hy. by exists now.
Qed.

Lemma factual_consent business review draft :
  ra_auto_answer_facts (ReviewAutopilotFromSettings (bz_settings business)) = true →
  factualCommentReply fold_question to_lower business review = Some draft →
  plain_text draft ∧ consent business review draft.
Proof.
  intros Hf. unfold factualCommentReply. destruct (_ || _) eqn:E; [done|]. rewrite !orb_false_iff in E.
  destruct E as [[[_ Hr%negb_false_iff%Z.eqb_eq] Hs%negb_false_iff%String.eqb_eq] Hp].
  destruct (FactualBusinessReply _ _ _) as [reply|] eqn:Er; [|done].
  destruct (isDraftSafeForAutoPublish to_lower reply) eqn:Es; [|done]. apply safe_plain in Es. cbn [negb].
  destruct (buildPlatformReply _ _) as [[[tool args]|]|]; [|done..]. destruct (floor_forbids _ _); [done|].
  destruct (in_public _ _); [|done]. intros [= <-]. split; [done|]. right. split_and!; [done..| |done].
  apply andb_false_iff in Hp as [Hp%negb_false_iff%String.eqb_eq|Hp%negb_false_iff%String.eqb_eq]; set_solver.
Qed.

Lemma sending_auto ctx business review draft :
  plain_text draft → consent business review draft →
  sending (auto_reply business review) (publishAutomaticReply deps ctx business review draft).
Proof.
  intros Ht Hc. unfold publishAutomaticReply. destruct (negb (rd_autopublisher deps)); [done|].
  destruct (String.eqb _ ""); [done|]. destruct (floor_forbids business _) eqn:Ef; [done|].
  assert ((rv_platform review = AgentYandexBusiness →
      ∃ n, ans _ (HourlyC ("reviews:auto:yandex:" +:+ uuid_string (bz_id business))%string) (Ok n) ∧ (n ≤ yandexAutoRepliesPerHour)%Z) →
    sending (auto_reply business review) (sub! r := Reply deps (withAutoPublishSignal ctx) (bz_id business) (rv_id review) draft in
      match r with
      | Err _ => Ret tt
      | Ok _ => Call (NoteC (FxAudit ActionReviewAutoReplied (bz_id business) None
                  (replyToolForPlatform (rv_platform review)) (rv_platform review) (rv_external_id review))) Ret
      end)) as Hgo.
  { intros Hcap. apply sending_bind; [|intros [u|e]; [by split|done]].
    apply sending_reply. intros row subject req Hrow Hreq. exists draft, row. by split_and!. }
  destruct (String.eqb_spec (rv_platform review) AgentYandexBusiness) as [Ey|Ey]; [|by apply Hgo].
  destruct (negb _); [done|]. split; [done|]. intros [n|e] Hn; [|done].
  destruct (Z.ltb_spec yandexAutoRepliesPerHour n); [by split|]. apply Hgo. intros _. eauto.
Qed.

Lemma sending_maybe ctx business review draft needs :
  sending (auto_reply business review) (maybeAutoPublish deps to_lower ctx business review draft needs).
Proof.
  unfold maybeAutoPublish. destruct (negb _); [done|]. split; [done|]. intros now Hnow.
  destruct (negb (autopilotShouldPublish _ _ _ _ _ _)) eqn:E; [done|]. apply negb_false_iff in E.
  destruct (gate_consent _ _ _ _ _ Hnow E). by apply sending_auto.
Qed.

Lemma sending_draft ctx business review examples :
  sending (auto_reply business review) (draft_by_model deps to_lower voice ctx business review examples).
Proof.
  unfold draft_by_model, callOrchestrator. apply sending_bind; [by split|]. intros [text|e]; [|by split].
  split; [done|]. intros [u|e] _; [|done]. apply sending_bind; [apply sending_maybe|done].
Qed.

Lemma sending_generate ctx business review examples :
  sending (auto_reply business review)
    (generateOne deps fold_question to_lower voice ctx business review examples).
Proof.
  unfold generateOne. destruct (_ && _ && _); [by split|]. split; [done|]. intros [[|]|e] _; [|done..].
  destruct (if ra_auto_answer_facts _ then _ else _) as [reply|] eqn:Ef; [|apply sending_draft].
  destruct (ra_auto_answer_facts _) eqn:Ea; [|done]. destruct (factual_consent _ _ _ Ea Ef).
  split; [done|]. intros [u|e] _; [|done]. apply sending_bind; [by apply sending_auto|done].
Qed.

(** The row of [review] was read by the queries of a pass: pending, or deferred. *)
Definition listed (biz : uuid) (platform : string) (review : Review) : Prop :=
  ∃ l, review ∈ l ∧ (ans _ (ListPendingC (uuid_string biz) platform (rd_per_pass_limit deps)) (Ok l)
                     ∨ ans _ (ListDeferredC (uuid_string biz) AgentYandexBusiness (rd_per_pass_limit deps)) (Ok l)).

(** What a pass over the stored reviews of [biz] may send: the reply that the consent,
    the floor and the cap let through for a row the pass read. *)
Definition pass_reply (biz : uuid) (platform subject : string) (req : ToolRequest) : Prop :=
  ∃ business review, ans _ (BusinessC biz) (Ok business) ∧ listed biz platform review ∧ auto_reply business review subject req.

Lemma sending_deferred ctx biz business l :
  sending (λ s r, ∃ review, review ∈ l ∧ auto_reply business review s r) (publish_deferred deps to_lower ctx biz business l).
Proof.
  induction l as [|review l IH]; [done|].
  apply (sending_weaken _ (λ s r, ∃ review0, review0 ∈ review :: l ∧ auto_reply business review0 s r)) in IH;
    [|intros s r (x & ? & ?); exists x; split; [by right|done]]. split; [done|]. intros now Hnow. destruct (negb _).
  - split; [done|]. intros [u|e] _; [exact IH|done].
  - apply sending_bind; [|intros _; exact IH]. eapply sending_weaken; [|apply sending_maybe].
    intros s r Hr. exists review. split; [by left|done].
Qed.

Lemma sending_all (P : string → ToolRequest → Prop) ctx business examples l :
  (∀ review s r, review ∈ l → auto_reply business review s r → P s r) →
  sending P (generate_all deps fold_question to_lower voice ctx business examples l).
Proof.
  induction l as [|review l IH]; intros HP; [done|].
  apply sending_bind; [|intros _; apply IH; intros; eapply HP; [by right|done]].
  eapply sending_weaken; [|apply sending_generate]. intros s r. apply HP. by left.
Qed.

Lemma sending_generate_pass ctx biz platform deferred pending :
  (∀ review, review ∈ deferred → listed biz platform review) → (∀ review, review ∈ pending → listed biz platform review) →
  sending (pass_reply biz platform) (generate_pass deps fold_question to_lower voice ctx biz platform deferred pending).
Proof.
  intros Hd Hp. unfold generate_pass. split; [done|]. intros [business|e] Hb; [|done].
  apply sending_bind; [|intros [u|e]; [|done]].
  { eapply sending_weaken; [|apply sending_deferred]. intros s r (review & Hin & Hr). exists business, review. auto. }
  destruct pending as [|p pending]; [done|]. split; [done|]. intros ex _. apply sending_bind; [|done].
  apply sending_all. intros review s r Hin Hr. exists business, review. auto.
Qed.

Lemma sending_pass ctx biz platform :
  sending (pass_reply biz platform) (GenerateForBusiness deps fold_question to_lower voice ctx biz platform).
Proof.
  unfold GenerateForBusiness. split; [done|]. intros [pending|e] Hp; [|done].
  assert (∀ review, review ∈ pending → listed biz platform review) as Hpend by (intros review Hin; exists pending; auto).
  assert (∀ deferred, (∀ review, review ∈ deferred → listed biz platform review) →
    sending (pass_reply biz platform) (match pending, deferred with
      | [], [] => Ret (Ok tt)
      | _, _ => generate_pass deps fold_question to_lower voice ctx biz platform deferred pending end)) as Hg.
  { intros deferred Hdef. pose proof (sending_generate_pass ctx biz platform deferred pending Hdef Hpend). by destruct pending, deferred. }
  unfold list_deferred. destruct (_ || _); cbn.
  - split; [done|]. intros [deferred|e] Hd; [|done]. apply Hg. intros review Hin. exists deferred. auto.
  - apply (Hg []). by intros review ?%elem_of_nil.
Qed.

Lemma sending_rows P l biz platform : sending P (dedupeReviewsByExternalID yandex_published format_rfc3339 l biz platform).
Proof.
  unfold dedupeReviewsByExternalID. apply sending_bind; [|done].
  induction l as [|[] l IH]; cbn [reviews_from]; try done.
  apply sending_bind; [|intros r; apply sending_bind; [exact IH|done]]. unfold reviewFromMap. quiet.
Qed.

(** The fetch of a sync carries no approval. *)
Definition fetch (biz : uuid) (platform subject : string) (req : ToolRequest) : Prop :=
  subject = Subject platform ∧ ∃ taskID tool, obj_get platform reviewToolByPlatform = Some tool
    ∧ req = tool_request taskID tool (Some [("limit", GNum reviewSyncBatchSize)]) (uuid_string biz) "".

Lemma sending_sync ctx biz platform :
  sending (λ s r, fetch biz platform s r ∨ pass_reply biz platform s r)
    (syncOne deps fold_question to_lower voice yandex_published format_rfc3339 ctx biz platform).
Proof.
  unfold syncOne. destruct (obj_get platform _) as [tool|] eqn:Et; [|done].
  apply sending_bind.
  - apply wp_dispatch; [apply plain_spec_mono|]. split; [done|]. intros task _. split; [|done]. left.
    split; [done|]. by exists task, tool.
  - intros out. destruct out.2; [done|]. destruct (fetched out.1) as [l|]; [|done].
    apply sending_bind; [apply sending_rows|intros rows]. split; [done|]. intros [u|e] _; [|done].
    destruct (rd_drafter deps); [|done]. apply sending_bind; [|done].
    eapply sending_weaken; [|apply sending_pass]. by right.
Qed.

(** ** Bulk approval *)

(** A stored draft that may be approved unread with others: positive, ready, not
    set aside for the owner. *)
Record approvable (biz : uuid) (id : string) (review : Review) : Prop := {
  ab_read : ans _ (GetReviewC id) (Ok review);
  ab_business : rv_business_id review = uuid_string biz;
  ab_positive : (ReviewNeedsReviewMaxRating < rv_rating review)%Z;
  ab_ready : rv_draft_status review = ReviewDraftStatusReady ∧ rv_draft_reply review ≠ "";
  ab_cleared : rv_needs_review review = false;
  ab_open : answered review = false ∧ skipped review = false;
}.

Definition bulk_reply (biz : uuid) (ids : list string) (subject : string) (req : ToolRequest) : Prop :=
  ∃ id review row, id ∈ ids ∧ approvable biz id review ∧ open_row false biz id row
    ∧ reply_to row (rv_draft_reply review) subject req.

Lemma refusal_inl biz id r review :
  batch_refusal biz id r = inl review →
  r = Ok review ∧ rv_business_id review = uuid_string biz ∧ answered review = false ∧ skipped review = false.
Proof.
  unfold batch_refusal. destruct r as [x|e]; [|done].
  destruct (String.eqb_spec (rv_business_id x) (uuid_string biz)); [|done]. cbn [negb].
  destruct (_ || _) eqn:E; [done|]. apply orb_false_iff in E as [? ?]. by intros [= <-].
Qed.

Lemma bulk_positive review : isBulkApprovable review = true →
  rv_draft_status review = ReviewDraftStatusReady ∧ rv_draft_reply review ≠ ""
  ∧ rv_needs_review review = false ∧ (ReviewNeedsReviewMaxRating < rv_rating review)%Z.
Proof.
  unfold isBulkApprovable, isPositiveDraftReady. destruct (_ || _) eqn:E; [done|].
  apply orb_false_iff in E as [E1%negb_false_iff%String.eqb_eq E2%String.eqb_neq].
  destruct (rv_needs_review review); [done|]. by intros ?%Z.ltb_lt.
Qed.

Lemma sending_approve_one ctx biz id ids :
  cx_auto ctx = false → id ∈ ids → sending (bulk_reply biz ids) (bulkApproveOne deps svc_text ctx biz id).
Proof.
  intros Hauto Hid. unfold bulkApproveOne. split; [done|]. intros r Hr.
  destruct (batch_refusal biz id r) as [review|item] eqn:Eb; [|done].
  apply refusal_inl in Eb as (-> & Hb & Ha & Hs). destruct (isBulkApprovable review) eqn:Ep; [|done].
  apply bulk_positive in Ep as (Hst & Hd & Hn & Hp). apply sending_bind; [|done].
  apply sending_reply. rewrite Hauto. intros row subject req Hrow Hreq. by exists id, review, row.
Qed.

Lemma sending_approve_all ctx biz ids todo :
  cx_auto ctx = false → (∀ id, id ∈ todo → id ∈ ids) →
  sending (bulk_reply biz ids) (approve_all deps svc_text ctx biz todo).
Proof.
  intros Hauto. induction todo as [|id todo IH]; intros Hl; [done|]. cbn [approve_all].
  apply sending_bind; [apply sending_approve_one; [done|]; apply Hl; set_solver|]. intros item.
  apply sending_bind; [apply IH; set_solver|done].
Qed.

Lemma sending_bulk ctx biz ids :
  cx_auto ctx = false →
  sending (bulk_reply biz (take maxBatchReviewIDs ids)) (BulkApprove deps svc_text ctx biz ids).
Proof.
  intros Hauto. unfold BulkApprove. destruct ids as [|id0 ids0]; [done|].
  apply sending_bind; [apply sending_gate|intros [u|e]; [|done]]. apply sending_bind; [|done].
  by apply sending_approve_all.
Qed.
End safety.

Section gated.
Context {U : UUIDText} {J : JsonText}.
Variables (deps : ReviewDeps) (fold_question to_lower : string → string) (svc_text : ServiceError → string)
  (voice : gomap → string) (yandex_published : gomap → Z → option Z) (format_rfc3339 : Z → string).

(** C21: no unread reply slips through: whatever the database, the agents, the model
    and the clock answer, the unattended pass of a sync sends, besides the fetch
    itself, only replies of at most 800 runes without links, to a review its own
    queries returned and the owner's settings let it answer (an enabled autopilot and a
    rating of that row above both floors, on Yandex fresh; or an exact factual
    question), by a tool without a stricter floor, on Yandex within the business's
    hourly cap, and sent for the row of that id re-read as open; and a bulk approval sends only the
    ready drafts of positive reviews that were not set aside for the owner, of at
    most 50 of the ids it was given. *)
Theorem unread_replies_gated h biz platform ids :
  (∀ ctx, let log := (exec h 0 (syncOne deps fold_question to_lower voice yandex_published format_rfc3339
                                  ctx biz platform)).2 in
     all_made (sends_only (λ subject req, fetch biz platform subject req
       ∨ pass_reply deps fold_question to_lower (answers h) biz platform subject req)) log)
  ∧ (∀ actor, let log := (exec h 0 (BulkApprove deps svc_text {| cx_auto := false; cx_business := actor |} biz ids)).2 in
     all_made (sends_only (bulk_reply (answers h) biz (take maxBatchReviewIDs ids))) log).
Proof.
  split; intros c.
  - apply (exec_wp h _ _ (λ _, True) 0), sending_sync.
  - apply (exec_wp h _ _ (λ _, True) 0). by apply sending_bulk.
Qed.
End gated.
