(* ===== verification/PostService.v ===== *)
(** * Publishing and changing posts outside a chat

    [services/api/internal/service/post.go], [post_schedule.go],
    [post_mutation.go] and [post_schedule_approval.go], and the status mapping of
    [services/api/internal/handler/internal_post_schedule.go].

    An operation is a program (Prog.v) over the calls it makes: the post repository
    of PostStore.v, NATS, the integrations, the approval and conversation
    repositories, the clock and [uuid.NewString].  PostSystem.v interleaves programs
    over one store.
    [uuid_sha1] stands for [uuid.NewSHA1] in the OID name space, [sprint_other] for
    [fmt.Sprint] of a value that is neither a string, a number nor a boolean. *)

From S2P Require Import Prelude Json GoTime Types Tools Authz Mongo ChatStore TaskStore PostStore HitlStore HitlService A2A Prog Dispatch.
Local Open Scope go_scope.

Record PostIntegration := {
  pi_business_id : uuid;
  pi_platform : string;
  pi_external_id : string;
  pi_status : string;
}.

(** ** The calls *)

Inductive PostCall : Type → Type :=
| GetPostC (id : string) : PostCall (result DocError Post)
| CreatePostC (post : Post) : PostCall (result DocError Post)
| ClaimOperationC (businessID id previousStatus operationID : string) : PostCall (result DocError bool)
| CompleteC (post : Post) (operationID : string) : PostCall (result DocError unit)
| ClaimDueC (now : Z) : PostCall (result DocError (option Post))
| UpdateScheduledC (businessID id : string) (at_ : option Z) (content : option string) (status : string)
    : PostCall (result DocError bool)
| RequestC (subject : string) (req : ToolRequest) : PostCall (result goerr string)
| IntegrationC (businessID : uuid) (platform externalID : string) : PostCall (option PostIntegration)
| IntegrationsC (businessID : uuid) (platform : string) : PostCall (option (list PostIntegration))
| BatchC (batchID : string) : PostCall (result StoreError PendingToolCallBatch)
| ConversationC (id : string) : PostCall (result ChatError Conversation)
| NowC : PostCall Z
| NewIDC : PostCall string
| CtxErrC : PostCall (option goerr).

Notation prog := (Prog.prog PostCall).

#[export] Instance post_dispatching : Dispatching PostCall := {| newID := NewIDC; request := RequestC |}.

(** ** Errors *)

Definition post_conflict_text : string := "post operation unavailable".

Inductive PostError := PostForbidden | PostConflict | PostMissing | PostFailed (op : string).

Definition of_doc (op : string) (e : DocError) : PostError :=
  match e with
  | ErrDocNotFound => PostMissing
  | ErrPostConflict => PostConflict
  | _ => PostFailed op
  end.

(** ** [fmt.Sprint] of a decoded JSON value

    A number is a [float64]: from 10^6 on it prints in scientific notation. *)

Fixpoint drop_zeros (s : string) : string :=
  match s with
  | EmptyString => EmptyString
  | String a s' => match drop_zeros s' with
                   | EmptyString => if decide (a = "0"%char) then EmptyString else String a EmptyString
                   | s'' => String a s''
                   end
  end.

Definition fmt_float (n : Z) : string :=
  let digits := print_Z (Z.abs n) in
  let sign := (if (n <? 0)%Z then "-" else "")%string in
  if (Z.abs n <? 1000000)%Z then print_Z n
  else
    let e := Z.of_nat (String.length digits - 1) in
    let exponent := ((if (e <? 10)%Z then "0" else "") +:+ print_Z e)%string in
    match drop_zeros digits with
    | String d EmptyString => (sign +:+ String d ("e+" +:+ exponent))%string
    | String d rest => (sign +:+ String d ("." +:+ rest +:+ "e+" +:+ exponent))%string
    | EmptyString => ""
    end.

Section service.
Context {U : UUIDText} {J : JsonText}.

Record PostDeps := {
  pd_dispatch : bool;
  pd_integrations : bool;
  pd_approval : bool;
}.

Variables (deps : PostDeps) (uuid_sha1 : string → string) (sprint_other : gval → string).

Definition fmt_sprint (v : gval) : string :=
  match v with
  | GStr s => s
  | GNum n => fmt_float n
  | GBool b => if b then "true" else "false"
  | _ => sprint_other v
  end.

(** *** post.go *)

Definition GetByID (businessID : uuid) (id : string) : prog (result PostError Post) :=
  call! r := GetPostC id in
  Ret (match r with
       | Err e => Err (of_doc "get post" e)
       | Ok post => if negb (String.eqb (po_business_id post) (uuid_string businessID)) then Err PostMissing
                    else Ok post
       end).

(** *** post_schedule.go *)

Definition postStatusCanceled : string := "canceled".
Definition postStatusUncertain : string := "uncertain".
Definition postOutcomeTransient : string := "transient".
Definition postIntegrationActive : string := "active".
Definition taskStatusError : string := "error".
Definition scheduledBatchSize : nat := 10.

Definition postActionDelete : string := "delete".
Definition postActionRetry : string := "retry".

Definition blank (s : string) : bool := String.eqb (trim_space s) "".
Definition empty {A} (l : list A) : bool := match l with [] => true | _ => false end.

Definition scheduled_result (externalID : string) : PlatformResult :=
  {| pr_external_id := externalID; pr_post_id := ""; pr_url := ""; pr_status := statusScheduled; pr_error := "" |}.

Definition scheduled_post (businessID : uuid) (externalID content : string) (mediaURLs : list string) (at_ : Z)
    (id group : string) : Post := {|
  po_operation_id := ""; po_id := id; po_business_id := uuid_string businessID; po_content := content;
  po_media_urls := mediaURLs; po_results := {[AgentTelegram := scheduled_result externalID]};
  po_status := statusScheduled; po_scheduled_at := Some at_; po_published_at := None;
  po_broadcast_group_id := group; po_created_at := 0 |}.

(** The checks and the insertion, when no earlier post carries [id]. *)
Definition insert_schedule (businessID : uuid) (externalID content : string) (mediaURLs : list string) (at_ : Z)
    (id group : string) : prog (result PostError Post) :=
  call! t := NowC in
  if negb (t <? at_)%Z || (blank content && empty mediaURLs) || (1 <? length mediaURLs)%nat
  then Ret (Err PostConflict)
  else if negb (pd_integrations deps) || negb (pd_dispatch deps) then Ret (Err PostConflict)
  else
    call! found := IntegrationC businessID AgentTelegram externalID in
    match found with
    | None => Ret (Err PostConflict)
    | Some integration =>
        if negb (bool_decide (pi_business_id integration = businessID))
           || negb (String.eqb (pi_external_id integration) externalID)
           || negb (String.eqb (pi_status integration) postIntegrationActive)
        then Ret (Err PostForbidden)
        else
          call! r := CreatePostC (scheduled_post businessID externalID content mediaURLs at_ id group) in
          match r with
          | Ok post => Ret (Ok post)
          | Err _ =>
              if String.eqb id "" then Ret (Err (PostFailed "create scheduled post"))
              else
                call! again := GetPostC id in
                Ret (match again with
                     | Ok existing => if String.eqb (po_business_id existing) (uuid_string businessID)
                                      then Ok existing else Err (PostFailed "create scheduled post")
                     | Err _ => Err (PostFailed "create scheduled post")
                     end)
          end
    end.

Definition createSchedule (businessID : uuid) (externalID content : string) (mediaURLs : list string) (at_ : Z)
    (id group : string) : prog (result PostError Post) :=
  if String.eqb id "" then insert_schedule businessID externalID content mediaURLs at_ id group
  else
    call! found := GetPostC id in
    match found with
    | Ok existing => Ret (if negb (String.eqb (po_business_id existing) (uuid_string businessID))
                          then Err PostForbidden else Ok existing)
    | Err ErrDocNotFound => insert_schedule businessID externalID content mediaURLs at_ id group
    | Err _ => Ret (Err (PostFailed "lookup approved schedule"))
    end.

(** The caller acts for this business and holds the permission. *)
Definition may (ctx : option BusinessContext) (businessID : uuid) (permission : Permission) : bool :=
  match ctx with
  | None => false
  | Some bc => bool_decide (bc_business_id bc = businessID) && Can ctx permission
  end.

Definition Schedule (ctx : option BusinessContext) (businessID : uuid) (externalID content : string)
    (mediaURLs : list string) (at_ : Z) : prog (result PostError Post) :=
  if negb (may ctx businessID PermContentCreate) then Ret (Err PostForbidden)
  else createSchedule businessID externalID content mediaURLs at_ "" "".

Definition telegram_result (post : Post) : PlatformResult :=
  default {| pr_external_id := ""; pr_post_id := ""; pr_url := ""; pr_status := ""; pr_error := "" |}
    (po_results post !! AgentTelegram).

(** The caller's copy after a successful [UpdateScheduled]. *)
Definition rescheduled (at_ : option Z) (content : option string) (status : string) (post : Post) : Post :=
  post_set (po_operation_id post) (default (po_content post) content)
    (<[AgentTelegram := let r := telegram_result post in pr_set_status status (pr_error r) r]> (po_results post))
    status (match at_ with Some t => Some t | None => po_scheduled_at post end) (po_published_at post) post.

Definition updateScheduled (post : Post) (at_ : option Z) (content : option string) (status : string)
    : prog (result PostError Post) :=
  if negb (size (po_results post) =? 1)%nat || String.eqb (pr_external_id (telegram_result post)) ""
  then Ret (Err PostConflict)
  else if match content with Some c => blank c && empty (po_media_urls post) | None => false end
  then Ret (Err PostConflict)
  else
    call! r := UpdateScheduledC (po_business_id post) (po_id post) at_ content status in
    Ret (match r with
         | Err _ => Err (PostFailed "update scheduled post")
         | Ok false => Err PostConflict
         | Ok true => Ok (rescheduled at_ content status post)
         end).

Definition Reschedule (ctx : option BusinessContext) (businessID : uuid) (id : string) (at_ : option Z)
    (content : option string) : prog (result PostError Post) :=
  if negb (may ctx businessID PermContentUpdate) then Ret (Err PostForbidden)
  else
    let go :=
      sub! found := GetByID businessID id in
      match found with
      | Err e => Ret (Err e)
      | Ok post =>
          if negb (String.eqb (po_status post) statusScheduled) then Ret (Err PostConflict)
          else updateScheduled post at_ content statusScheduled
      end in
    match at_ with
    | None => go
    | Some t => call! n := NowC in if negb (n <? t)%Z then Ret (Err PostConflict) else go
    end.

(** *** post_mutation.go *)

(** The text of an error wrapping [ErrPostConflict]. *)
Definition conflict (detail : string) : goerr := EText (post_conflict_text +:+ ": " +:+ detail).

(** [*content] is read for an edit only, which [Mutate] allows only with a content. *)
Definition postOperation (post : Post) (platform : string) (result : PlatformResult) (action : string)
    (content : option string) : Prelude.result goerr (string * list (string * gval)) :=
  if negb (String.eqb platform AgentTelegram) && negb (String.eqb platform AgentVK)
  then Err (conflict "this platform does not support post lifecycle operations")
  else
    let telegram := String.eqb platform AgentTelegram in
    let target := if telegram then "channel_id" else "group_id" in
    let idField := if telegram then "message_id" else "post_id" in
    let args := [("strict_target", GBool true); (target, GStr (pr_external_id result))] in
    if String.eqb action postActionRetry then
      match po_media_urls post with
      | [] => Ok (if telegram then TelegramSendChannelPost else VKPublishPost,
                  args ++ [("text", GStr (po_content post))])
      | [url] => Ok (if telegram then TelegramSendChannelPhoto else VKPostPhoto,
                     args ++ [("photo_url", GStr url); ("caption", GStr (po_content post))])
      | _ => Err (conflict "retry supports one photo per post")
      end
    else
      match Atoi (pr_post_id result) with
      | None => Err (conflict "saved platform post ID is invalid")
      | Some id =>
          if (id <=? 0)%Z then Err (conflict "saved platform post ID is invalid")
          else
            let args := args ++ [(idField, GNum id)] in
            if String.eqb action postActionDelete
            then Ok (if telegram then TelegramDeleteChannelPost else VKDeletePost, args)
            else
              let args := args ++ [("text", GStr (default "" content))] in
              if telegram
              then Ok (TelegramEditChannelPost, args ++ [("is_caption", GBool (negb (empty (po_media_urls post))))])
              else Ok (VKEditPost, args)
      end.

Definition member (key : string) (m : gomap) : option gval := obj_get key (gomap_members m).

(** [if value := m[key]; value != nil { id = fmt.Sprint(value) }]. *)
Definition confirmed_id (key : string) (m : gomap) (id : string) : string :=
  match member key m with
  | None | Some GNull => id
  | Some v => fmt_sprint v
  end.

Definition pr_set (post_id url status error : string) (r : PlatformResult) : PlatformResult :=
  {| pr_external_id := pr_external_id r; pr_post_id := post_id; pr_url := url; pr_status := status;
     pr_error := error |}.

Definition url_of (m : gomap) : option string :=
  match member "url" m with Some (GStr s) => Some s | _ => None end.

(** A failure without a code, or a transient one, may have reached the platform. *)
Definition may_have_landed (e : goerr) : bool :=
  String.eqb (CodeOf e) "" || String.eqb (CodeOf e) postOutcomeTransient.

(** What a dispatch of a due post leaves in its record; [now] is read on success only. *)
Definition due_post_id (receipt : ToolResponse) (result : PlatformResult) : string :=
  confirmed_id "message_id" (tp_result receipt) (pr_post_id result).

Definition due_published (now : Z) (receipt : ToolResponse) (post : Post) : Post :=
  let r := telegram_result post in
  post_set (po_operation_id post) (po_content post)
    (<[AgentTelegram := pr_set (due_post_id receipt r) (default (pr_url r) (url_of (tp_result receipt)))
        statusPublished "" r]> (po_results post))
    statusPublished (po_scheduled_at post) (Some now) post.

Definition due_failed (e : goerr) (post_id : string) (post : Post) : Post :=
  let r := telegram_result post in
  let status := if may_have_landed e then postStatusUncertain else taskStatusError in
  post_set (po_operation_id post) (po_content post)
    (<[AgentTelegram := pr_set post_id (pr_url r) status (error_text e) r]> (po_results post))
    status (po_scheduled_at post) (po_published_at post) post.

Definition no_message_id : goerr := EText "telegram did not confirm a message ID".

(** Write the outcome back and go on with [go (published + n)]. *)
Definition complete_due (post : Post) (published : nat) (go : nat → prog (nat * option PostError))
    : prog (nat * option PostError) :=
  call! r := CompleteC post (po_operation_id post) in
  match r with
  | Err _ => Ret (published, Some (PostFailed "persist scheduled outcome"))
  | Ok _ => go published
  end.

Definition publish_one (post : Post) (published : nat) (go : nat → prog (nat * option PostError))
    : prog (nat * option PostError) :=
  let result := telegram_result post in
  match postOperation post AgentTelegram result postActionRetry None with
  | Err e => complete_due (due_failed e (pr_post_id result) post) published go
  | Ok (tool, args) =>
      sub! out := dispatchToolWithApproval AgentTelegram tool (Some args) (po_business_id post)
                    (po_operation_id post) in
      match out with
      | (_, Some e) => complete_due (due_failed e (pr_post_id result) post) published go
      | (receipt, None) =>
          if String.eqb (due_post_id receipt result) ""
          then complete_due (due_failed no_message_id "" post) published go
          else
            call! t := NowC in
            complete_due (due_published t receipt post) (S published) go
      end
  end.

Fixpoint publish_loop (n published : nat) : prog (nat * option PostError) :=
  match n with
  | O => Ret (published, None)
  | S n' =>
      call! canceled := CtxErrC in
      match canceled with
      | Some _ => Ret (published, Some (PostFailed "context"))
      | None =>
          call! t := NowC in
          call! claim := ClaimDueC t in
          match claim with
          | Err _ => Ret (published, Some (PostFailed "claim due post"))
          | Ok None => Ret (published, None)
          | Ok (Some post) => publish_one post published (publish_loop n')
          end
      end
  end.

Definition PublishDue : prog (nat * option PostError) :=
  if negb (pd_dispatch deps) then Ret (0, None) else publish_loop scheduledBatchSize 0.

Definition permission_of (action : string) : option Permission :=
  if String.eqb action postActionDelete then Some PermContentDelete
  else if String.eqb action postActionRetry then Some PermContentCreate
  else if String.eqb action actionEdit then Some PermContentUpdate
  else None.

Definition is_owner (ctx : option BusinessContext) : bool :=
  match ctx with Some bc => String.eqb (uuid_string (bc_role_id bc)) SystemRoleOwnerID | None => false end.

(** The state a platform record must be in for the action. *)
Definition action_fits (action : string) (post : Post) (result : PlatformResult) : bool :=
  if String.eqb action postActionRetry
  then String.eqb (po_status post) taskStatusError && String.eqb (pr_status result) taskStatusError
       && String.eqb (pr_post_id result) ""
  else String.eqb (po_status post) statusPublished && negb (String.eqb (pr_post_id result) "").

Definition edit_text_ok (action : string) (content : option string) (post : Post) : bool :=
  if String.eqb action actionEdit
  then match content with None => false | Some c => negb (blank c && empty (po_media_urls post)) end
  else true.

Definition mutated_post_id (receipt : ToolResponse) (result : PlatformResult) : string :=
  confirmed_id "post_id" (tp_result receipt) (confirmed_id "message_id" (tp_result receipt) (pr_post_id result)).

(** The error of the operation: the dispatch's, or that a retry got no post id. *)
Definition mutation_error (action : string) (receipt : ToolResponse) (err : option goerr) (result : PlatformResult)
    : option goerr :=
  match err with
  | Some e => Some e
  | None => if String.eqb action postActionRetry && String.eqb (mutated_post_id receipt result) ""
            then Some (EText "platform did not confirm a published post ID") else None
  end.

(** The record's id after a retry whose dispatch succeeded. *)
Definition id_after (action : string) (receipt : ToolResponse) (err : option goerr) (result : PlatformResult) : string :=
  match err with
  | None => if String.eqb action postActionRetry then mutated_post_id receipt result else pr_post_id result
  | Some _ => pr_post_id result
  end.

Definition mutation_rejected (receipt : ToolResponse) : bool :=
  match member "mutation_rejected" (tp_result receipt) with Some (GBool b) => b | _ => false end.

Definition mutation_failed (action platform : string) (receipt : ToolResponse) (e : goerr) (id : string)
    (result : PlatformResult) (post : Post) : Post :=
  let lost := (negb (mutation_rejected receipt) || String.eqb action postActionRetry) && may_have_landed e in
  post_set (po_operation_id post) (po_content post)
    (<[platform := pr_set id (pr_url result) (if lost then postStatusUncertain else pr_status result)
        (error_text e) result]> (po_results post))
    (if lost then postStatusUncertain else po_status post) (po_scheduled_at post) (po_published_at post) post.

Definition mutation_done (action platform : string) (content : option string) (receipt : ToolResponse)
    (id : string) (published : option Z) (result : PlatformResult) (post : Post) : Post :=
  let status := if String.eqb action postActionDelete then "deleted" else statusPublished in
  let url := match url_of (tp_result receipt) with
             | Some u => if String.eqb u "" then pr_url result else u
             | None => pr_url result
             end in
  post_set (po_operation_id post)
    (if String.eqb action actionEdit then default "" content else po_content post)
    (<[platform := pr_set id url status "" result]> (po_results post))
    status (po_scheduled_at post) published post.

Definition complete_mutation (post : Post) (operationID : string) : prog (result PostError Post) :=
  call! r := CompleteC post operationID in
  Ret (match r with Err e => Err (of_doc "persist post outcome" e) | Ok _ => Ok post end).

(** The claimed part of [Mutate]. *)
Definition mutate_claimed (post : Post) (platform tool : string) (args : list (string * gval))
    (result : PlatformResult) (action : string) (content : option string) (operationID : string)
    : prog (Prelude.result PostError Post) :=
  sub! out := dispatchToolWithApproval platform tool (Some args) (po_business_id post) operationID in
  let id := id_after action out.1 out.2 result in
  match mutation_error action out.1 out.2 result with
  | Some e => complete_mutation (mutation_failed action platform out.1 e id result post) operationID
  | None =>
      if String.eqb action postActionRetry then
        call! t := NowC in
        complete_mutation (mutation_done action platform content out.1 id (Some t) result post) operationID
      else
        complete_mutation (mutation_done action platform content out.1 id (po_published_at post) result post)
          operationID
  end.

(** A single platform record with its name. *)
Definition only_result (post : Post) : option (string * PlatformResult) :=
  match map_to_list (po_results post) with [pr] => Some pr | _ => None end.

Definition mutate_post (post : Post) (action : string) (content : option string)
    : prog (result PostError Post) :=
  if negb (pd_dispatch deps) then Ret (Err PostConflict)
  else
    match only_result post with
    | None => Ret (Err PostConflict)
    | Some (platform, result) =>
        if String.eqb (pr_external_id result) "" || negb (action_fits action post result)
           || negb (edit_text_ok action content post)
        then Ret (Err PostConflict)
        else
          match postOperation post platform result action content with
          | Err _ => Ret (Err PostConflict)
          | Ok (tool, args) =>
              call! operationID := NewIDC in
              call! claim := ClaimOperationC (po_business_id post) (po_id post) (po_status post) operationID in
              match claim with
              | Err _ => Ret (Err (PostFailed "claim post"))
              | Ok false => Ret (Err PostConflict)
              | Ok true => mutate_claimed post platform tool args result action content operationID
              end
          end
    end.

Definition Mutate (ctx : option BusinessContext) (businessID : uuid) (id action : string) (content : option string)
    : prog (result PostError Post) :=
  match permission_of action with
  | None => Ret (Err PostConflict)
  | Some permission =>
      if negb (may ctx businessID permission) || (String.eqb action postActionDelete && negb (is_owner ctx))
      then Ret (Err PostForbidden)
      else
        sub! found := GetByID businessID id in
        match found with
        | Err e => Ret (Err e)
        | Ok post =>
            if String.eqb (po_status post) statusScheduled
               && (String.eqb action actionEdit || String.eqb action postActionDelete)
            then updateScheduled post None content
                   (if String.eqb action postActionDelete then postStatusCanceled else statusScheduled)
            else mutate_post post action content
        end
  end.

(** *** post_schedule_approval.go *)

Record ApprovedPostSchedule := {
  ap_business_id : string;
  ap_conversation_id : string;
  ap_approval_id : string;
  ap_tool : string;
  ap_args : gomap;
}.

Inductive ApprovedScheduleResult :=
| ScheduledAs (post : Post)
| PublishNow (externalID : string).

Definition batchUUIDLength : nat := 36.

Definition schedulable (tool : string) : bool :=
  String.eqb tool TelegramSendChannelPost || String.eqb tool TelegramSendChannelPhoto.

Definition call_with (id : string) (batch : PendingToolCallBatch) : option PendingCall :=
  head (filterb (λ c, String.eqb (pc_call_id c) id) (b_calls batch)).

Definition edited (c : PendingCall) : bool := String.eqb (pc_verdict c) actionEdit.

Definition grants (tool : string) (c : PendingCall) : bool :=
  String.eqb (pc_tool_name c) tool && (String.eqb (pc_verdict c) actionApprove || edited c) && schedulable tool.

(** The arguments with the edits over them: of equal members the last counts. *)
Definition effective_args (c : PendingCall) : list (string * gval) :=
  gomap_members (pc_arguments c) ++ (if edited c then gomap_members (pc_edited_args c) else []).

Definition same_json (a b : gval) : bool := String.eqb (json_marshal (canon a)) (json_marshal (canon b)).

Definition active_channel (businessID : uuid) (i : PostIntegration) : bool :=
  bool_decide (pi_business_id i = businessID) && String.eqb (pi_platform i) AgentTelegram
  && String.eqb (pi_status i) postIntegrationActive && negb (String.eqb (pi_external_id i) "").

(** The channel to post to: the call's own, or the only active one. *)
Definition resolve_channel (businessID : uuid) (target : string) (k : string → prog (result PostError ApprovedScheduleResult))
    : prog (result PostError ApprovedScheduleResult) :=
  if negb (String.eqb target "") then k target
  else if negb (pd_integrations deps) then Ret (Err PostConflict)
  else
    call! found := IntegrationsC businessID AgentTelegram in
    match found with
    | None => Ret (Err (PostFailed "resolve scheduled channel"))
    | Some l =>
        match filterb (active_channel businessID) l with
        | [i] => k (pi_external_id i)
        | _ => Ret (Err PostConflict)
        end
    end.

(** An edit that cleared the date publishes at once. *)
Definition approved_now (call : PendingCall) (businessID : uuid) (target : string)
    : prog (result PostError ApprovedScheduleResult) :=
  if negb (edited call && match member "scheduled_at" (pc_edited_args call) with
                          | Some (GStr s) => String.eqb s "" | _ => false end)
  then Ret (Err PostForbidden)
  else if negb (pd_integrations deps) then Ret (Err PostConflict)
  else
    call! found := IntegrationC businessID AgentTelegram target in
    Ret (match found with
         | None => Err PostForbidden
         | Some i =>
             if negb (bool_decide (pi_business_id i = businessID)) || negb (String.eqb (pi_external_id i) target)
                || negb (String.eqb (pi_status i) postIntegrationActive)
             then Err PostForbidden else Ok (PublishNow target)
         end).

Definition member_text (key : string) (args : list (string * gval)) : string :=
  match obj_get key args with Some (GStr s) => s | _ => "" end.

(** The text and the photo of the post; a photo call without one is refused. *)
Definition approved_media (tool : string) (args : list (string * gval)) : option (string * list string) :=
  if String.eqb tool TelegramSendChannelPhoto then
    let photo := member_text "photo_url" args in
    if String.eqb photo "" then None else Some (member_text "caption" args, [photo])
  else Some (member_text "text" args, []).

Definition schedule_id (req : ApprovedPostSchedule) : string :=
  uuid_sha1 (ap_business_id req +:+ ":" +:+ ap_approval_id req).

Definition schedule_call (req : ApprovedPostSchedule) (batch : PendingToolCallBatch) (call : PendingCall)
    (businessID : uuid) (at_ : option Z) (target : string) : prog (result PostError ApprovedScheduleResult) :=
  match at_ with
  | None => approved_now call businessID target
  | Some at_ =>
      match approved_media (ap_tool req) (effective_args call) with
      | None => Ret (Err PostConflict)
      | Some (content, media) =>
          sub! r := createSchedule businessID target content media at_ (schedule_id req) (b_message_id batch) in
          Ret (let? post := r in Ok (ScheduledAs post))
      end
  end.

(** The date of the call: absent when empty; [None] when it is no timestamp. *)
Definition approved_date (args : list (string * gval)) : option (option Z) :=
  match obj_get "scheduled_at" args with
  | Some (GStr "") => Some None
  | Some (GStr date) => Some <$> parse_rfc3339 date
  | _ => None
  end.

Definition grant_call (req : ApprovedPostSchedule) (batch : PendingToolCallBatch) (call : PendingCall)
    : prog (result PostError ApprovedScheduleResult) :=
  if negb (same_json (GObj (effective_args call)) (enc_map (ap_args req))) then Ret (Err PostForbidden)
  else
    match approved_date (effective_args call) with
    | None => Ret (Err PostConflict)
    | Some at_ =>
        match uuid_parse (ap_business_id req) with
        | None => Ret (Err PostForbidden)
        | Some businessID =>
            resolve_channel businessID (member_text "channel_id" (effective_args call))
              (schedule_call req batch call businessID at_)
        end
    end.

Definition ScheduleApproved (req : ApprovedPostSchedule) : prog (result PostError ApprovedScheduleResult) :=
  let approvalID := ap_approval_id req in
  if (String.length approvalID <=? S batchUUIDLength)%nat
     || negb (String.eqb (str_take 1 (str_drop batchUUIDLength approvalID)) "-") || negb (pd_approval deps)
  then Ret (Err PostForbidden)
  else
    let batchID := str_take batchUUIDLength approvalID in
    let callID := str_drop (S batchUUIDLength) approvalID in
    match uuid_parse batchID with
    | None => Ret (Err PostForbidden)
    | Some _ =>
        call! found := BatchC batchID in
        match found with
        | Err _ => Ret (Err (PostFailed "load scheduling approval"))
        | Ok batch =>
            if negb (String.eqb (b_id batch) batchID) || negb (String.eqb (b_business_id batch) (ap_business_id req))
               || negb (String.eqb (b_conversation_id batch) (ap_conversation_id req))
               || negb (list_mem (b_status batch) [statusResuming; statusResolved])
            then Ret (Err PostForbidden)
            else if negb (match uuid_parse (b_user_id batch) with
                          | Some u => negb (bool_decide (u = uuid_nil)) | None => false end)
            then Ret (Err PostForbidden)
            else
              call! conv := ConversationC (ap_conversation_id req) in
              match conv with
              | Err _ => Ret (Err (PostFailed "load scheduling conversation"))
              | Ok conversation =>
                  if negb (String.eqb (cv_user_id conversation) (b_user_id batch))
                     || negb (String.eqb (cv_business_id conversation) (ap_business_id req))
                  then Ret (Err PostForbidden)
                  else match call_with callID batch with
                       | None => Ret (Err PostForbidden)
                       | Some call => if negb (grants (ap_tool req) call) then Ret (Err PostForbidden)
                                      else grant_call req batch call
                       end
              end
        end
    end.

(** *** internal_post_schedule.go: the status of an answer *)
Definition schedule_status (r : result PostError ApprovedScheduleResult) : Z :=
  match r with
  | Ok _ => 200
  | Err PostForbidden => 403
  | Err PostConflict => 409
  | Err _ => 500
  end.
End service.

(** ** A schedule rests on its approval *)

Section approval.
Context {U : UUIDText} {J : JsonText}.
Variables (deps : PostDeps) (uuid_sha1 : string → string).
Variable (ans : ∀ B, PostCall B → B → Prop).

(** The stored decision [req] names, as the repositories answered. *)
Record granted (req : ApprovedPostSchedule) (batch : PendingToolCallBatch) (call : PendingCall) : Prop := {
  gr_stored : ans _ (BatchC (b_id batch)) (Ok batch);
  gr_batch : b_id batch = str_take batchUUIDLength (ap_approval_id req);
  gr_business : b_business_id batch = ap_business_id req;
  gr_conversation : b_conversation_id batch = ap_conversation_id req;
  gr_status : b_status batch ∈ [statusResuming; statusResolved];
  gr_owner : ∃ conv, ans _ (ConversationC (ap_conversation_id req)) (Ok conv)
    ∧ cv_user_id conv = b_user_id batch ∧ cv_business_id conv = ap_business_id req;
  gr_call : call ∈ b_calls batch ∧ pc_call_id call = str_drop (S batchUUIDLength) (ap_approval_id req);
  gr_decided : pc_verdict call ∈ [actionApprove; actionEdit] ∧ pc_tool_name call = ap_tool req
    ∧ ap_tool req ∈ [TelegramSendChannelPost; TelegramSendChannelPhoto];
  gr_args : same_json (GObj (effective_args call)) (enc_map (ap_args req)) = true;
}.

(** The post an approved call asks for: its text, photo and date, under the
    approval's own id, for an active channel of the business. *)
Record asked_for (req : ApprovedPostSchedule) (batch : PendingToolCallBatch) (call : PendingCall) (post : Post) : Prop := {
  af_id : po_id post = schedule_id uuid_sha1 req;
  af_waiting : po_status post = statusScheduled ∧ po_operation_id post = "" ∧ po_published_at post = None;
  af_content : approved_media (ap_tool req) (effective_args call) = Some (po_content post, po_media_urls post);
  af_date : ∃ t now, approved_date (effective_args call) = Some (Some t) ∧ po_scheduled_at post = Some t
    ∧ ans _ NowC now ∧ (now < t)%Z;
  af_channel : ∃ biz i, uuid_parse (ap_business_id req) = Some biz ∧ po_business_id post = uuid_string biz
    ∧ ans _ (IntegrationC biz AgentTelegram (pi_external_id i)) (Some i)
    ∧ pi_business_id i = biz ∧ pi_status i = postIntegrationActive
    ∧ po_results post = {[AgentTelegram := scheduled_result (pi_external_id i)]};
  af_group : po_broadcast_group_id post = b_message_id batch;
}.

Definition creates_only (P : Post → Prop) B (c : PostCall B) : Prop :=
  match c with
  | CreatePostC post => P post
  | ClaimOperationC _ _ _ _ | CompleteC _ _ | ClaimDueC _ | UpdateScheduledC _ _ _ _ _ | RequestC _ _ => False
  | _ => True
  end.

(** Whatever the calls answer, [p] only creates posts [P] holds of, and a value
    it returns satisfies [Q]. *)
Notation guarded P p Q := (wp (plain_spec ans (creates_only P)) p (λ r _, ∀ a, r = Ok a → Q a) tt).

Lemma guarded_create (P : Post → Prop) biz target content media at_ id group :
  (∀ i now, ans _ (IntegrationC biz AgentTelegram target) (Some i) → pi_business_id i = biz →
     pi_external_id i = target → pi_status i = postIntegrationActive → ans _ NowC now → (now < at_)%Z →
     P (scheduled_post biz target content media at_ id group)) →
  guarded P (createSchedule deps biz target content media at_ id group) (λ _, True).
Proof.
  intros HP.
  assert (guarded P (insert_schedule deps biz target content media at_ id group) (λ _, True)) as Hi.
  { unfold insert_schedule. cbn [wp]. split; [done|]. intros now Hnow.
    destruct (negb (now <? at_)%Z) eqn:Et; [done|]. apply negb_false_iff, Z.ltb_lt in Et.
    cbn [orb]. destruct (_ || _); [done|]. destruct (_ || _); [done|]. split; [done|]. intros [i|] Hint; [|done].
    destruct (_ || _) eqn:Ei; [done|]. apply orb_false_iff in Ei as [[Hb%negb_false_iff He%negb_false_iff]%orb_false_iff Hs%negb_false_iff].
    apply bool_decide_eq_true in Hb. apply String.eqb_eq in He, Hs. split; [by apply (HP i now)|].
    intros [post|e] _; [done|]. destruct (String.eqb id ""); [done|]. split; done. }
  unfold createSchedule. destruct (String.eqb id ""); [done|]. split; [done|]. intros [post|[]] _; done.
Qed.

Lemma guarded_grant req batch call :
  granted req batch call →
  guarded (asked_for req batch call) (grant_call deps uuid_sha1 req batch call) (λ _, granted req batch call).
Proof.
  intros Hg. unfold grant_call. destruct (negb _); [done|].
  destruct (approved_date (effective_args call)) as [at_|] eqn:Ed; [|done].
  destruct (uuid_parse (ap_business_id req)) as [biz|] eqn:Eb; [|done].
  assert (∀ target, guarded (asked_for req batch call)
    (schedule_call deps uuid_sha1 req batch call biz at_ target) (λ _, granted req batch call)) as Hs.
  { intros target. unfold schedule_call. destruct at_ as [t|].
    2: { unfold approved_now. destruct (negb _); [done|]. destruct (negb _); [done|]. split; [done|]. by intros i _ a _. }
    destruct (approved_media (ap_tool req) (effective_args call)) as [[content media]|] eqn:Em; [|done].
    apply wp_bind; [apply plain_spec_mono|]. eapply wp_mono; [apply plain_spec_mono|by intros r [] _ a _|].
    apply guarded_create. intros i now Hi Hb He Hst Hnow Hlt. subst target.
    split; [done|done|exact Em|by exists t, now|by exists biz, i|done]. }
  unfold resolve_channel. destruct (negb _); [apply Hs|]. destruct (negb _); [done|]. split; [done|].
  intros [l|] _; [|done]. destruct (filterb _ l) as [|i [|]]; [done|apply Hs|done].
Qed.

Lemma guarded_approved req :
  wp (plain_spec ans (creates_only (λ post, ∃ batch call, granted req batch call ∧ asked_for req batch call post)))
    (ScheduleApproved deps uuid_sha1 req) (λ r _, is_ok r = true → ∃ batch call, granted req batch call) tt.
Proof.
  unfold ScheduleApproved. destruct (_ || _); [done|]. destruct (uuid_parse _); [|done]. split; [done|].
  intros [batch|e] Hbatch; [|done].
  destruct (_ || _) eqn:Eb; [done|]. repeat rewrite orb_false_iff in Eb. rewrite !negb_false_iff, !String.eqb_eq in Eb.
  destruct Eb as [[[Hid Hbiz] Hconv] Hst]. apply list_mem_true in Hst.
  destruct (negb _); [done|]. split; [done|]. intros [conv|e] Hc; [|done].
  destruct (_ || _) eqn:Ec; [done|]. rewrite orb_false_iff, !negb_false_iff, !String.eqb_eq in Ec.
  destruct (call_with _ batch) as [call|] eqn:Ecall; [|done].
  destruct (grants (ap_tool req) call) eqn:Egr; [|done]. cbn [negb].
  destruct (same_json (GObj (effective_args call)) (enc_map (ap_args req))) eqn:Ej.
  2: { unfold grant_call. by rewrite Ej. }
  assert (granted req batch call) as Hg.
  { unfold call_with in Ecall. apply head_Some_elem_of, elem_of_filterb in Ecall as [Hcid%String.eqb_eq Hin].
    unfold grants in Egr. rewrite !andb_true_iff, orb_true_iff, String.eqb_eq in Egr. destruct Egr as [[Hn Hv] Hsch].
    split; [by rewrite Hid|done|done|done|done|by exists conv|done| |done]. split; [|split; [done|]].
    - unfold edited in Hv. rewrite !String.eqb_eq in Hv. set_solver.
    - unfold schedulable in Hsch. rewrite orb_true_iff, !String.eqb_eq in Hsch. set_solver. }
  eapply wp_weaken; [|intros r [] _ _; by exists batch, call|apply (guarded_grant req batch call Hg)].
  intros B c s K K' HK [Ha Hb]. split; [|intros b Hans; by apply HK, Hb].
  destruct c; try done. by exists batch, call.
Qed.
End approval.

(** C19: a scheduled post rests on its approval: whatever the repositories answer,
    [ScheduleApproved] claims, changes and sends nothing, and when it succeeds or
    creates a post there is a stored batch of the named organisation and
    conversation, being resumed or resolved, with an approved or edited publishing
    call whose effective arguments are the ones sent, in a conversation of the
    batch's owner; a created post has the approval's own id, waits unclaimed, and
    carries that call's text, photo and future date for an active channel of the
    organisation. *)
Theorem schedule_needs_approval `{U : UUIDText} `{J : JsonText} deps uuid_sha1 h req :
  let r := exec h 0 (ScheduleApproved deps uuid_sha1 req) in
  let ans := answers h in
  (is_ok r.1 = true → ∃ batch call, granted ans req batch call)
  ∧ Forall (λ m, match m with Made c => creates_only (λ post, ∃ batch call,
      granted ans req batch call ∧ asked_for uuid_sha1 ans req batch call post) _ c end) r.2.
Proof.
  exact (exec_wp h _ _ (λ r, is_ok r = true → ∃ batch call, granted (answers h) req batch call) 0
    (guarded_approved deps uuid_sha1 (answers h) req)).
Qed.
