(* ===== verification/PostSystem.v ===== *)
(** * Posts under concurrent operations

    Any number of the operations of PostService.v (the scheduler's [PublishDue] on
    every replica, users' edits, deletions, retries and reschedules, approved
    schedules) interleaved call by call over one post collection, each of which may
    crash at any point and whose database calls may fail before or after their
    effect, together with the chat turn's own writes to posts (Postal.v).  Ids are
    never drawn twice. *)

From S2P Require Import Prelude Json GoTime Types Tools Authz Mongo ChatStore TaskStore PostStore HitlStore HitlService A2A Prog Dispatch PostService.
Local Open Scope go_scope.

(** What the history of a run shows, newest first: a claim a process learnt it
    won, by the scheduler or by a user's operation, a request sent under an
    operation's id, an attempt to write its outcome back, a cancellation. *)
Inductive Entry :=
| EClaim (due : bool) (id op : string)
| ESent (op : string)
| ETried (op : string)
| ECanceled (id : string).

Section system.
Context {CP : Coll Post po_id} {U : UUIDText} {J : JsonText}.
Variables (deps : PostDeps) (uuid_sha1 : string → string) (sprint_other : gval → string).

Record Store := {
  st_posts : @coll Post po_id CP;
  st_used : list string;
  st_log : list Entry;
}.

Definition with_posts (c : @coll Post po_id CP) (s : Store) : Store :=
  {| st_posts := c; st_used := st_used s; st_log := st_log s |}.
Definition draw (id : string) (s : Store) : Store :=
  {| st_posts := st_posts s; st_used := id :: st_used s; st_log := st_log s |}.
Definition note (l : list Entry) (s : Store) : Store :=
  {| st_posts := st_posts s; st_used := st_used s; st_log := l ++ st_log s |}.

Definition unused (id : string) (s : Store) : Prop := id ≠ "" ∧ id ∉ st_used s.

(** One call answered [b]. *)
Definition call_step {B} (c : PostCall B) : Store → B → Store → Prop :=
  match c in PostCall B return Store → B → Store → Prop with
  | GetPostC id => λ s r s', let o := GetPost id (st_posts s) in r = o.1 ∧ s' = with_posts o.2 s
  | CreatePostC post => λ s r s', ∃ now oid,
      let o := CreatePost now oid post (st_posts s) in r = o.1 ∧ s' = with_posts o.2 s
  | ClaimOperationC businessID id previousStatus op => λ s r s',
      let o := ClaimOperation businessID id previousStatus op (st_posts s) in
      r = o.1 ∧ s' = note (match o.1 with Ok true => [EClaim false id op] | _ => [] end) (with_posts o.2 s)
  | CompleteC post op => λ s r s',
      let o := CompleteOperation post op (st_posts s) in r = o.1 ∧ s' = note [ETried op] (with_posts o.2 s)
  | ClaimDueC now => λ s r s', ∃ op, unused op s ∧
      let o := ClaimDue now op (st_posts s) in
      r = o.1 ∧ s' = note (match o.1 with Ok (Some p) => [EClaim true (po_id p) op] | _ => [] end)
                       (draw op (with_posts o.2 s))
  | UpdateScheduledC businessID id at_ content status => λ s r s',
      let o := UpdateScheduled businessID id at_ content status (st_posts s) in
      r = o.1 ∧ s' = note (match o.1 with
                           | Ok true => if String.eqb status postStatusCanceled then [ECanceled id] else []
                           | _ => [] end) (with_posts o.2 s)
  | RequestC _ req => λ s _ s', s' = note [ESent (tr_approval_id req)] s
  | NewIDC => λ s id s', unused id s ∧ s' = draw id s
  | _ => λ s _ s', s' = s
  end.

(** The operations a process may run. *)
Inductive starts : prog unit → Prop :=
| start_due : starts (forget (PublishDue deps sprint_other))
| start_mutate ctx biz id action content : starts (forget (Mutate deps sprint_other ctx biz id action content))
| start_schedule ctx biz external content media at_ :
    starts (forget (Schedule deps ctx biz external content media at_))
| start_reschedule ctx biz id at_ content : starts (forget (Reschedule ctx biz id at_ content))
| start_approved req : starts (forget (ScheduleApproved deps uuid_sha1 req)).

(** The chat turn's own writes to posts. *)
Inductive env (s : Store) : Store → Prop :=
| env_record now oid post :
    po_operation_id post = "" → env s (with_posts (CreatePost now oid post (st_posts s)).2 s)
| env_reconcile businessID platform externalID postID status content :
    status ≠ statusScheduled →
    env s (with_posts (ReconcileMutation businessID platform externalID postID status content (st_posts s)).2 s).

(** A collection as the repository keeps it, the ids in it counting as drawn. *)
Definition well_kept (c : @coll Post po_id CP) (used : list string) : Prop :=
  ∀ id p, docs c !! id = Some p → po_id p = id ∧ (po_operation_id p = "" ∨ po_operation_id p ∈ used).

(** A store without history. *)
Definition quiet_start (s : Store) : Prop := well_kept (st_posts s) (st_used s) ∧ st_log s = [].

(** What must hold of an entry given the history before it. *)
Definition entry_ok (e : Entry) (l : list Entry) : Prop :=
  match e with
  | EClaim due id op =>
      (∀ due' id', EClaim due' id' op ∉ l)
      ∧ (∀ due' op', EClaim due' id op' ∈ l → ETried op' ∈ l)
      ∧ (due = true → (∀ op', EClaim true id op' ∉ l) ∧ ECanceled id ∉ l)
  | ESent op => (∃ due id, EClaim due id op ∈ l) ∧ ESent op ∉ l ∧ ETried op ∉ l
  | ETried op => ∃ due id, EClaim due id op ∈ l
  | ECanceled id => ∀ op, EClaim true id op ∉ l
  end.

Fixpoint log_ok (log : list Entry) : Prop :=
  match log with
  | [] => True
  | e :: l => entry_ok e l ∧ log_ok l
  end.

(** ** What a process holds

    The id it drew last, and its claim: won, or won and sent. *)
Inductive Claim := Free | Claimed (op : string) | Sent (op : string).
Definition Hold : Type := option string * Claim.

Definition post_spec B (c : PostCall B) : Hold → (B → Hold → Prop) → Prop :=
  match c in PostCall B return Hold → (B → Hold → Prop) → Prop with
  | CreatePostC post => λ h K, po_operation_id post = "" ∧ ∀ r, K r h
  | ClaimOperationC _ id previousStatus op => λ h K,
      h = (Some op, Free) ∧ previousStatus ≠ statusScheduled
      ∧ ∀ r, K r (None, match r with Ok true => Claimed op | _ => Free end)
  | CompleteC post op => λ h K,
      (h.2 = Claimed op ∨ h.2 = Sent op) ∧ po_status post ≠ statusScheduled ∧ ∀ r, K r (h.1, Free)
  | ClaimDueC _ => λ h K, h.2 = Free
      ∧ ∀ r, K r (h.1, match r with Ok (Some p) => Claimed (po_operation_id p) | _ => Free end)
  | UpdateScheduledC _ _ _ _ status => λ h K, status ∈ [statusScheduled; postStatusCanceled] ∧ ∀ r, K r h
  | RequestC _ req => λ h K, h.2 = Claimed (tr_approval_id req) ∧ ∀ r, K r (h.1, Sent (tr_approval_id req))
  | NewIDC => λ h K, ∀ id, K id (Some id, h.2)
  | _ => λ h K, ∀ b, K b h
  end.

Lemma post_spec_weaken : monotone post_spec.
Proof. intros B c h K K' HK. destruct c; cbn; intuition. Qed.

(** *** The operations keep to the rules *)

(** A dispatch under the claim's own id leaves the claim sent. *)
Lemma wp_send platform tool args businessID op drawn (Q : ToolResponse * option goerr → Hold → Prop) :
  (∀ out drawn', Q out (drawn', Sent op)) →
  wp post_spec (dispatchToolWithApproval platform tool args businessID op) Q (drawn, Claimed op).
Proof. intros HQ. apply wp_dispatch; [apply post_spec_weaken|]. intros taskID. split; [done|]. intros r. apply HQ. Qed.

Lemma wp_complete_due post published go h op :
  h.2 = Claimed op ∨ h.2 = Sent op → po_operation_id post = op → po_status post ≠ statusScheduled →
  (∀ n, wp post_spec (go n) (λ _ _, True) (h.1, Free)) →
  wp post_spec (complete_due post published go) (λ _ _, True) h.
Proof. intros Hh <- Hs Hgo. cbn. split; [done|]. split; [done|]. by intros [u|e]. Qed.

Lemma due_failed_status e id post : po_status (due_failed e id post) ≠ statusScheduled.
Proof. unfold due_failed. cbn. by destruct (may_have_landed e). Qed.

Lemma wp_publish_one post published go drawn :
  (∀ n drawn', wp post_spec (go n) (λ _ _, True) (drawn', Free)) →
  wp post_spec (publish_one sprint_other post published go) (λ _ _, True) (drawn, Claimed (po_operation_id post)).
Proof.
  intros Hgo. unfold publish_one. destruct (postOperation _ _ _ _ _) as [[tool args]|e].
  - apply wp_bind; [apply post_spec_weaken|]. apply wp_send. intros [receipt [e|]] drawn'.
    + by eapply wp_complete_due; [right| |apply due_failed_status|intros n; apply Hgo].
    + destruct (String.eqb _ "").
      * by eapply wp_complete_due; [right| |apply due_failed_status|intros n; apply Hgo].
      * cbn [wp]. intros t. by eapply wp_complete_due; [right| |cbn|intros n; apply Hgo].
  - by eapply wp_complete_due; [left| |apply due_failed_status|intros n; apply Hgo].
Qed.

Lemma wp_publish_loop n published drawn :
  wp post_spec (publish_loop sprint_other n published) (λ _ _, True) (drawn, Free).
Proof.
  revert published drawn. induction n as [|n IH]; intros published drawn; [done|].
  intros [e|]; [done|]. intros t. split; [done|]. intros [[post|]|e]; [|done..].
  apply wp_publish_one. intros m drawn'. apply IH.
Qed.

(** An early return of a program. *)
Ltac branch := match goal with |- wp _ (if ?b then _ else _) _ _ => destruct b; [done|] end.

Lemma wp_get businessID id (Q : result PostError Post → Hold → Prop) h :
  (∀ r, Q r h) → wp post_spec (GetByID businessID id) Q h.
Proof. intros HQ r. apply HQ. Qed.

Lemma wp_update_scheduled post at_ content status h :
  status ∈ [statusScheduled; postStatusCanceled] →
  wp post_spec (updateScheduled post at_ content status) (λ _ _, True) h.
Proof. 
  intros Hs. unfold updateScheduled. branch.
  branch. by split.
Qed.

Lemma wp_complete_mutation post op h :
  h.2 = Sent op → po_status post ≠ statusScheduled →
  wp post_spec (complete_mutation post op) (λ _ _, True) h.
Proof. intros Hh Hs. cbn. split; [by right|]. split; [done|]. done. Qed.

Lemma wp_mutate_claimed post platform tool args result action content op :
  po_status post ≠ statusScheduled →
  wp post_spec (mutate_claimed sprint_other post platform tool args result action content op) (λ _ _, True)
    (None, Claimed op).
Proof.
  intros Hs. unfold mutate_claimed. apply wp_bind; [apply post_spec_weaken|]. apply wp_send.
  intros out drawn. destruct (mutation_error _ _ _ _ _) as [e|].
  - apply wp_complete_mutation; [done|]. unfold mutation_failed. cbn. by destruct (_ && _).
  - assert (∀ id t, po_status (mutation_done action platform content out.1 id t result post) ≠ statusScheduled) as Hd.
    { intros id t. unfold mutation_done. cbn. by destruct (String.eqb action postActionDelete). }
    destruct (String.eqb action postActionRetry); [intros t|]; by apply wp_complete_mutation.
Qed.

Lemma action_fits_status action post result :
  action_fits action post result = true → po_status post ≠ statusScheduled.
Proof.
  unfold action_fits. destruct (String.eqb action postActionRetry); rewrite !andb_true_iff, !String.eqb_eq;
    [intros [[-> _] _]|intros [-> _]]; done.
Qed.

Lemma wp_mutate ctx businessID id action content :
  wp post_spec (Mutate deps sprint_other ctx businessID id action content) (λ _ _, True) (None, Free).
Proof.
  unfold Mutate. destruct (permission_of action); [|done]. destruct (_ || _); [done|].
  apply wp_bind; [apply post_spec_weaken|]. apply wp_get. intros [post|e]; [|done].
  destruct (_ && _). { apply wp_update_scheduled. destruct (String.eqb action postActionDelete); set_solver. }
  unfold mutate_post. destruct (negb _); [done|]. destruct (only_result post) as [[platform result]|]; [|done].
  destruct (_ || _) eqn:Ef; [done|]. apply orb_false_iff in Ef as [[_ Hfit%negb_false_iff]%orb_false_iff _].
  destruct (postOperation _ _ _ _ _) as [[tool args]|e]; [|done]. intros op. apply action_fits_status in Hfit.
  split; [done|]. split; [done|]. intros [[|]|e]; [by apply wp_mutate_claimed|done..].
Qed.

Lemma wp_create_schedule businessID externalID content media at_ id group h :
  wp post_spec (createSchedule deps businessID externalID content media at_ id group) (λ _ _, True) h.
Proof.
  assert (wp post_spec (insert_schedule deps businessID externalID content media at_ id group) (λ _ _, True) h) as Hi.
  { unfold insert_schedule. intros t. branch; branch. intros [i|]; [|done]. branch.
    split; [done|]. intros [post|e]; [done|]. branch. done. }
  unfold createSchedule. destruct (String.eqb id ""); [done|]. intros [post|[]]; done.
Qed.

Lemma wp_schedule_approved req : wp post_spec (ScheduleApproved deps uuid_sha1 req) (λ _ _, True) (None, Free).
Proof.
  unfold ScheduleApproved. branch. destruct (uuid_parse _); [|done]. intros [batch|e]; [|done].
  branch; branch. intros [conv|e]; [|done]. branch. destruct (call_with _ _) as [call|]; [|done].
  branch. unfold grant_call. branch. destruct (approved_date _) as [at_|]; [|done].
  destruct (uuid_parse _) as [biz|]; [|done].
  assert (∀ target, wp post_spec (schedule_call deps uuid_sha1 req batch call biz at_ target) (λ _ _, True) (None, Free)) as Hs.
  { intros target. unfold schedule_call. destruct at_ as [t|].
    - destruct (approved_media _ _) as [[text media]|]; [|done]. apply wp_bind; [apply post_spec_weaken|].
      apply wp_any; [apply post_spec_weaken|done|]. apply wp_create_schedule.
    - unfold approved_now. branch; branch. done. }
  unfold resolve_channel. destruct (negb _); [apply Hs|]. branch. intros [l|]; [|done].
  destruct (filterb _ l) as [|i [|]]; [done|apply Hs|done].
Qed.

Lemma starts_orderly p : starts p → wp post_spec p (λ _ _, True) (None, Free).
Proof.
  intros [|ctx biz id action content|ctx biz ext content media at_|ctx biz id at_ content|req]; apply wp_forget; try apply post_spec_weaken.
  - unfold PublishDue. branch. apply wp_publish_loop.
  - apply wp_mutate.
  - unfold Schedule. branch. apply wp_create_schedule.
  - unfold Reschedule. branch.
    assert (wp post_spec (sub! found := GetByID biz id in
      match found with
      | Err e => Ret (Err e)
      | Ok post => if negb (String.eqb (po_status post) statusScheduled) then Ret (Err PostConflict)
                   else updateScheduled post at_ content statusScheduled
      end) (λ _ _, True) (None, Free)) as Hg.
    { apply wp_bind; [apply post_spec_weaken|]. apply wp_get. intros [post|e]; [|done]. branch.
      apply wp_update_scheduled. set_solver. }
    destruct at_ as [t|]; [|exact Hg]. intros n. branch. exact Hg.
  - apply wp_schedule_approved.
Qed.

(** ** What a store call does to the rows

    [claim] is the operation a row may come to carry, [clear] the one it may lose. *)
Inductive row_step (claim clear : option string) (id : string) : option Post → option Post → Prop :=
| row_same r : row_step claim clear id r r
| row_new p : po_id p = id → po_operation_id p = "" → row_step claim clear id None (Some p)
| row_calm p p' :
    po_id p' = po_id p → po_operation_id p' = po_operation_id p →
    (po_status p ≠ statusScheduled → po_status p' ≠ statusScheduled) →
    row_step claim clear id (Some p) (Some p')
| row_claim op p p' :
    claim = Some op → po_id p' = po_id p → po_operation_id p = "" → po_operation_id p' = op →
    po_status p' ≠ statusScheduled → row_step claim clear id (Some p) (Some p')
| row_clear op p p' :
    clear = Some op → po_id p' = po_id p → po_operation_id p = op → po_operation_id p' = "" →
    po_status p' ≠ statusScheduled → row_step claim clear id (Some p) (Some p').

Lemma row_back claim clear id r p' :
  row_step claim clear id r (Some p') →
  (r = None ∧ po_id p' = id ∧ po_operation_id p' = "")
  ∨ ∃ p, r = Some p ∧ po_id p' = po_id p
      ∧ (po_operation_id p' = po_operation_id p ∨ po_operation_id p' = "" ∨ claim = Some (po_operation_id p')).
Proof. inversion 1; subst; eauto 10. Qed.

Lemma row_forth claim clear id p r' :
  row_step claim clear id (Some p) r' →
  ∃ p', r' = Some p' ∧ (po_status p ≠ statusScheduled → po_status p' ≠ statusScheduled)
      ∧ (po_operation_id p' = po_operation_id p ∨ po_operation_id p = "" ∨ clear = Some (po_operation_id p)).
Proof. inversion 1; subst; eauto 10. Qed.

Definition rows (claim clear : option string) (c c' : @coll Post po_id CP) : Prop :=
  ∀ id, row_step claim clear id (docs c !! id) (docs c' !! id).

Lemma rows_same claim clear c c' : docs c' = docs c → rows claim clear c c'.
Proof. intros E id. rewrite E. apply row_same. Qed.

Lemma rows_upd claim clear id f g c c' :
  (∀ p, f p = true → row_step claim clear id (Some p) (Some (g p))) →
  docs c' = docs c ∨ docs c' = upd_one id f g (docs c) → rows claim clear c c'.
Proof.
  intros Hf [E|E]; [by apply rows_same|]. intros k. rewrite E, upd_one_lookup. case_decide as Hk; [subst k|apply row_same].
  destruct (docs c !! id) as [p|] eqn:Ep; cbn; [|apply row_same]. destruct (f p) eqn:Efp; [by apply Hf|apply row_same].
Qed.

Lemma rows_modified claim clear p k f c c' d :
  (∀ id d, p d = true → row_step claim clear id (Some d) (Some (f d))) →
  modified p k f (docs c) (docs c') d → rows claim clear c c'.
Proof.
  intros Hf Hm id. destruct (modified_lookup _ _ _ _ _ _ id Hm) as [->|(-> & Hp & ->)]; [apply row_same|by apply Hf].
Qed.

Lemma create_rows now oid post c :
  po_operation_id post = "" → rows None None c (CreatePost now oid post c).2.
Proof.
  intros Ho. unfold CreatePost, se_try. set (p := post_stamp _ now post).
  pose proof (insertOne_spec p c) as Hs. destruct (insertOne p c) as [[u|e] c']; cbn [snd se_ret se_err] in *.
  - destruct Hs as [Hn E]. intros id. rewrite E. destruct (decide (id = po_id p)) as [->|Hne].
    + rewrite lookup_insert_eq, Hn. by apply row_new.
    + rewrite lookup_insert_ne by done. apply row_same.
  - destruct Hs as [E|[Hn E]]; [by apply rows_same|]. intros id. rewrite E. destruct (decide (id = po_id p)) as [->|Hne].
    + rewrite lookup_insert_eq, Hn. by apply row_new.
    + rewrite lookup_insert_ne by done. apply row_same.
Qed.

Lemma get_rows id c : rows None None c (GetPost id c).2.
Proof.
  unfold GetPost, se_try. pose proof (findOne_spec id c) as Hs.
  destruct (findOne id c) as [[[p|]|e] c']; cbn in *; apply rows_same; by destruct Hs.
Qed.

Lemma claim_row claim op id p :
  claim = Some op → unclaimed p = true → row_step claim None id (Some p) (Some (claim_post op p)).
Proof. intros Hc Hu. apply String.eqb_eq in Hu. by apply (row_claim _ _ _ op). Qed.

Lemma claim_rows businessID id previous op c :
  let o := ClaimOperation businessID id previous op c in
  rows (Some op) None c o.2
  ∧ (o.1 = Ok true → ∃ p, docs c !! id = Some p ∧ po_operation_id p = "" ∧ po_status p = previous
     ∧ docs o.2 !! id = Some (claim_post op p)).
Proof.
  cbn zeta. unfold ClaimOperation, se_try.
  pose proof (updateOne_spec id (claim_operation_filter businessID previous) (claim_post op) c) as Hs.
  destruct (updateOne id _ (claim_post op) c) as [[b|e] c']; cbn [fst snd se_ret se_err] in *.
  2: { split; [|done]. eapply rows_upd; [|exact Hs]. intros p Hp. apply (claim_row _ op); [done|].
       unfold claim_operation_filter in Hp. by apply andb_true_iff in Hp as [_ Hp]. }
  destruct Hs as [Hb E]. split.
  - eapply rows_upd; [|by right]. intros p Hp. apply (claim_row _ op); [done|].
    unfold claim_operation_filter in Hp. by apply andb_true_iff in Hp as [_ Hp].
  - intros [= Ht]. apply andb_true_iff in Ht as [Ht _]. rewrite Ht in Hb. symmetry in Hb. unfold hit in Hb.
    destruct (docs c !! id) as [p|] eqn:Ep; [|done]. exists p. split; [done|].
    pose proof Hb as Hf. unfold claim_operation_filter in Hf. rewrite !andb_true_iff, !String.eqb_eq in Hf.
    destruct Hf as [[_ Hst] Hu]. apply String.eqb_eq in Hu. split_and!; [done|done|].
    rewrite E, upd_one_lookup, decide_True, Ep by done. cbn. by rewrite Hb.
Qed.

Lemma complete_rows post op c :
  po_status post ≠ statusScheduled → rows None (Some op) c (CompleteOperation post op c).2.
Proof.
  intros Hst. unfold CompleteOperation, se_try.
  pose proof (updateOne_spec (po_id post) (complete_filter post op) (complete_post post) c) as Hs.
  assert (∀ c', docs c' = docs c ∨ docs c' = upd_one (po_id post) (complete_filter post op) (complete_post post) (docs c) →
    rows None (Some op) c c') as Hr.
  { intros c'. apply rows_upd. intros p Hp. unfold complete_filter in Hp. apply andb_true_iff in Hp as [_ Hp%String.eqb_eq].
    by apply (row_clear _ _ _ op). }
  destruct (updateOne _ _ (complete_post post) c) as [[[]|e] c']; cbn [fst snd se_ret se_err] in *;
    apply Hr; [right|right|done]; by destruct Hs.
Qed.

Lemma due_rows now op c :
  let o := ClaimDue now op c in
  rows (Some op) None c o.2
  ∧ (∀ p, o.1 = Ok (Some p) → ∃ id d, docs c !! id = Some d ∧ po_operation_id d = "" ∧ po_status d = statusScheduled
     ∧ p = claim_post op d ∧ docs o.2 !! id = Some p).
Proof.
  cbn zeta. unfold ClaimDue, se_try. set (k := λ p : Post, default 0%Z (po_scheduled_at p)).
  assert (∀ d, due now d = true → unclaimed d = true ∧ po_status d = statusScheduled) as Hdue.
  { intros d Hd. unfold due in Hd. rewrite !andb_true_iff, String.eqb_eq in Hd. tauto. }
  assert (∀ id d, due now d = true → row_step (Some op) None id (Some d) (Some (claim_post op d))) as Hrow.
  { intros id d Hd. apply (claim_row _ op); [done|]. by apply Hdue. }
  pose proof (findOneAndModify_spec (due now) k (claim_post op) c) as Hs.
  destruct (findOneAndModify (due now) k (claim_post op) c) as [[[d'|]|e] c']; cbn [fst snd se_ret se_err] in *.
  - destruct Hs as (d & -> & Hm). split; [by eapply rows_modified|]. intros p [= <-].
    destruct Hm as (id & Hd & Hp & E & _). exists id, d. destruct (Hdue d Hp) as [Hu%String.eqb_eq Hst].
    split_and!; [done|done|done|done|]. by rewrite E, lookup_insert_eq.
  - split; [|done]. apply rows_same. by destruct Hs.
  - split; [|done]. destruct Hs as [E|[d Hm]]; [by apply rows_same|by eapply rows_modified].
Qed.

Lemma update_rows businessID id at_ content status c :
  let o := UpdateScheduled businessID id at_ content status c in
  rows None None c o.2
  ∧ (o.1 = Ok true → ∃ p, docs c !! id = Some p ∧ po_status p = statusScheduled
     ∧ docs o.2 !! id = Some (reschedule_post at_ content status p)).
Proof.
  cbn zeta. unfold UpdateScheduled, se_try.
  assert (∀ p, scheduled_filter businessID p = true → po_status p = statusScheduled) as Hf.
  { intros p Hp. unfold scheduled_filter in Hp. rewrite !andb_true_iff, !String.eqb_eq in Hp. tauto. }
  assert (∀ p, scheduled_filter businessID p = true →
    row_step None None id (Some p) (Some (reschedule_post at_ content status p))) as Hrow.
  { intros p Hp. apply row_calm; [done|done|]. intros Hn. by destruct Hn, (Hf p Hp). }
  pose proof (updateOne_spec id (scheduled_filter businessID) (reschedule_post at_ content status) c) as Hs.
  destruct (updateOne id _ _ c) as [[b|e] c']; cbn [fst snd se_ret se_err] in *; [|split; [by eapply rows_upd|done]].
  destruct Hs as [Hb E]. split; [eapply rows_upd; [done|by right]|]. intros [= Ht]. rewrite Ht in Hb. symmetry in Hb.
  unfold hit in Hb. destruct (docs c !! id) as [p|] eqn:Ep; [|done]. exists p. split_and!; [done|by apply Hf|].
  rewrite E, upd_one_lookup, decide_True, Ep by done. cbn. by rewrite Hb.
Qed.

Lemma reconcile_rows businessID platform externalID postID status content c :
  status ≠ statusScheduled →
  rows None None c (ReconcileMutation businessID platform externalID postID status content c).2.
Proof.
  intros Hst. unfold ReconcileMutation, updateFirst, se_try.
  assert (∀ id d, reconcile_filter businessID platform externalID postID d = true →
    row_step None None id (Some d) (Some (reconcile_post platform status content d))) as Hrow.
  { intros id d _. by apply row_calm. }
  match goal with |- context [findOneAndModify ?p ?k ?f c] => pose proof (findOneAndModify_spec p k f c) as Hs;
    destruct (findOneAndModify p k f c) as [[[d'|]|e] c'] end; cbn [fst snd se_ret se_err] in *.
  - destruct Hs as (d & -> & Hm). by eapply rows_modified.
  - apply rows_same. by destruct Hs.
  - destruct Hs as [E|[d Hm]]; [by apply rows_same|by eapply rows_modified].
Qed.

(** ** The invariant *)

Notation posts_of s := (docs (st_posts s)).

Record consistent (s : Store) : Prop := {
  cs_kept : well_kept (st_posts s) (st_used s);
  cs_log : log_ok (st_log s);
  cs_claims : ∀ due id op, EClaim due id op ∈ st_log s → op ≠ "" ∧ op ∈ st_used s
    ∧ (ETried op ∈ st_log s ∨ ∃ p, posts_of s !! id = Some p ∧ po_operation_id p = op);
  cs_left : ∀ id, (∃ op, EClaim true id op ∈ st_log s) ∨ ECanceled id ∈ st_log s →
    ∃ p, posts_of s !! id = Some p ∧ po_status p ≠ statusScheduled;
}.

Definition ops_of (h : Hold) : list string :=
  match h.1 with Some op => [op] | None => [] end
  ++ match h.2 with Claimed op | Sent op => [op] | Free => [] end.

Definition won (op : string) (s : Store) : Prop := ∃ due id, EClaim due id op ∈ st_log s.

Record held (s : Store) (h : Hold) : Prop := {
  hd_drawn : ∀ op, h.1 = Some op → op ≠ "" ∧ op ∈ st_used s ∧ ¬ won op s
    ∧ ∀ id p, posts_of s !! id = Some p → po_operation_id p ≠ op;
  hd_claimed : ∀ op, h.2 = Claimed op → won op s ∧ ETried op ∉ st_log s ∧ ESent op ∉ st_log s;
  hd_sent : ∀ op, h.2 = Sent op → won op s ∧ ETried op ∉ st_log s;
}.

Definition apart (hs : list Hold) : Prop :=
  ∀ i j hi hj op, hs !! i = Some hi → hs !! j = Some hj → op ∈ ops_of hi → op ∈ ops_of hj → i = j.

(** What is added to a log is about the operation [op]. *)
Definition about (op : string) (l : list Entry) : Prop :=
  ∀ e, e ∈ l → match e with EClaim _ _ o | ESent o | ETried o => o = op | ECanceled _ => True end.

Definition extend (c : @coll Post po_id CP) (ids : list string) (l : list Entry) (s : Store) : Store :=
  {| st_posts := c; st_used := ids ++ st_used s; st_log := l ++ st_log s |}.

Lemma consistent_extend s c ids l claim clear :
  consistent s → rows claim clear (st_posts s) c →
  (∀ op, claim = Some op → op ∈ ids ++ st_used s) →
  (∀ op, clear = Some op → ETried op ∈ l) →
  log_ok (l ++ st_log s) →
  (∀ due id op, EClaim due id op ∈ l → op ≠ "" ∧ op ∈ ids ++ st_used s
     ∧ ∃ p, docs c !! id = Some p ∧ po_operation_id p = op ∧ po_status p ≠ statusScheduled) →
  (∀ id, ECanceled id ∈ l → ∃ p, docs c !! id = Some p ∧ po_status p ≠ statusScheduled) →
  consistent (extend c ids l s).
Proof.
  intros [Hk Hl Hc Hleft] Hrows Hclaim Hclear Hlog Hnew Hcan. split; [|exact Hlog|..]; cbn [extend st_posts st_used st_log].
  - intros id p Hp. specialize (Hrows id). rewrite Hp in Hrows.
    destruct (row_back _ _ _ _ _ Hrows) as [(_ & ? & ?)|(p0 & E & -> & Ho)]; [by split; [|left]|].
    destruct (Hk id p0 E) as [? Hor]. split; [done|]. destruct Ho as [->|[?|?]]; [|by left|right; by apply Hclaim].
    destruct Hor; [by left|right; set_solver].
  - intros due id op [Hin|Hin]%elem_of_app.
    { destruct (Hnew _ _ _ Hin) as (? & ? & p & ? & ? & _). split_and!; [done|done|right; by exists p]. }
    destruct (Hc _ _ _ Hin) as (Hne & Hu & [Ht|(p & Hp & Ho)]); (split_and!; [done|set_solver|]); [left; set_solver|].
    specialize (Hrows id). rewrite Hp in Hrows.
    destruct (row_forth _ _ _ _ _ Hrows) as (p' & Hp' & _ & Ho'). rewrite Ho in Ho'.
    destruct Ho' as [?|[?|?]]; [right; by exists p'|done|left; apply elem_of_app; left; by apply Hclear].
  - intros id Hor.
    assert ((∃ p, posts_of s !! id = Some p ∧ po_status p ≠ statusScheduled)
      ∨ ∃ p, docs c !! id = Some p ∧ po_status p ≠ statusScheduled) as [(p & Hp & Hst)|?]; [|..|done].
    { destruct Hor as [[op [Hin|Hin]%elem_of_app]|[Hin|Hin]%elem_of_app].
      - right. destruct (Hnew _ _ _ Hin) as (_ & _ & p & ? & _ & ?). by exists p.
      - left. apply Hleft. left. by exists op.
      - right. by apply Hcan.
      - left. apply Hleft. by right. }
    specialize (Hrows id). rewrite Hp in Hrows.
    destruct (row_forth _ _ _ _ _ Hrows) as (p' & Hp' & Hs' & _). exists p'. by split; [|apply Hs'].
Qed.

(** A hold that has nothing to do with a change survives it. *)
Lemma held_extend s c ids l claim clear op h :
  held s h → rows claim clear (st_posts s) c → (claim = None ∨ claim = Some op) → about op l → op ∉ ops_of h →
  held (extend c ids l s) h.
Proof.
  intros [Hd Hc Hs] Hrows Hclaim Hab Hop. unfold ops_of in Hop.
  assert (∀ o, o ≠ op → ¬ won o s → ¬ won o (extend c ids l s)) as Hwon.
  { intros o Hne Hn (due & id & [Hin|Hin]%elem_of_app); [by apply Hne, (Hab _ Hin)|]. apply Hn. by exists due, id. }
  assert (∀ o, won o s → won o (extend c ids l s)) as Hkeep.
  { intros o (due & id & Hin). exists due, id. cbn. set_solver. }
  assert (∀ o, o ≠ op → ETried o ∉ st_log s → ETried o ∉ l ++ st_log s) as Htr.
  { intros o Hne Hn [Hin|Hin]%elem_of_app; [by apply Hne, (Hab _ Hin)|done]. }
  assert (∀ o, o ≠ op → ESent o ∉ st_log s → ESent o ∉ l ++ st_log s) as Hse.
  { intros o Hne Hn [Hin|Hin]%elem_of_app; [by apply Hne, (Hab _ Hin)|done]. }
  split; cbn [extend st_posts st_used st_log].
  - intros o Ho. assert (o ≠ op) as Hne by (intros ->; rewrite Ho in Hop; set_solver).
    destruct (Hd o Ho) as (? & ? & ? & Hrow). split_and!; [done|set_solver|by apply Hwon|].
    intros id p Hp Heq. specialize (Hrows id). rewrite Hp in Hrows.
    destruct (row_back _ _ _ _ _ Hrows) as [(_ & _ & ?)|(p0 & E & _ & [Ho'|[?|Hcl]])]; [congruence| |congruence|].
    + apply (Hrow id p0); [done|congruence].
    + destruct Hclaim as [|Hclaim]; congruence.
  - intros o Ho. assert (o ≠ op) as Hne by (intros ->; rewrite Ho in Hop; set_solver).
    destruct (Hc o Ho) as (? & ? & ?). split_and!; auto.
  - intros o Ho. assert (o ≠ op) as Hne by (intros ->; rewrite Ho in Hop; set_solver).
    destruct (Hs o Ho) as (? & ?). split; auto.
Qed.

Record safe (s : Store) (hs : list Hold) : Prop := {
  sf_store : consistent s;
  sf_held : ∀ i h, hs !! i = Some h → held s h;
  sf_apart : apart hs;
}.

Lemma log_won s op : log_ok (st_log s) → ESent op ∈ st_log s ∨ ETried op ∈ st_log s → won op s.
Proof.
  unfold won. induction (st_log s) as [|e l IH]; cbn [log_ok]; [set_solver|]. intros [He Hl] Hor.
  assert (e = ESent op ∨ e = ETried op ∨ ESent op ∈ l ∨ ETried op ∈ l) as [->|[->|Hin]] by set_solver.
  - destruct He as [(due & id & Hin) _]. exists due, id. set_solver.
  - destruct He as (due & id & Hin). exists due, id. set_solver.
  - destruct (IH Hl Hin) as (due & id & Hc). exists due, id. set_solver.
Qed.

Lemma held_op s h op : consistent s → held s h → op ∈ ops_of h → op ≠ "" ∧ op ∈ st_used s.
Proof.
  intros Hc [Hd Hcl Hs] Hin. unfold ops_of in Hin. destruct h as [drawn claim]. cbn [fst snd] in *.
  apply elem_of_app in Hin as [Hin|Hin].
  - destruct drawn as [o|]; [|set_solver]. apply list_elem_of_singleton in Hin as ->. by destruct (Hd o eq_refl) as (? & ? & _).
  - destruct claim as [|o|o]; [set_solver|..]; apply list_elem_of_singleton in Hin as ->.
    + destruct (Hcl o eq_refl) as ((due & id & Hw) & _). by destruct (cs_claims s Hc _ _ _ Hw) as (? & ? & _).
    + destruct (Hs o eq_refl) as ((due & id & Hw) & _). by destruct (cs_claims s Hc _ _ _ Hw) as (? & ? & _).
Qed.

(** A change about [op] by process [i], to which no other process's ops belong. *)
Lemma safe_extend s c ids l claim clear op hs i h h' :
  safe s hs → hs !! i = Some h → rows claim clear (st_posts s) c → (claim = None ∨ claim = Some op) → about op l →
  (op ∈ ops_of h ∨ op = "" ∨ op ∉ st_used s) →
  (∀ o, o ∈ ops_of h' → o ∈ ops_of h ∨ o ∉ st_used s) →
  consistent (extend c ids l s) → held (extend c ids l s) h' →
  safe (extend c ids l s) (<[i := h']> hs).
Proof.
  intros [Hc Hh Ha] Hi Hrows Hclaim Hab Hop Hops Hc' Hh'.
  assert (∀ j hj, j ≠ i → hs !! j = Some hj → op ∉ ops_of hj) as Hother.
  { intros j hj Hne Hj Hin. destruct (held_op s hj op Hc (Hh j hj Hj) Hin) as [? ?].
    destruct Hop as [Hop|[?|?]]; [|done..]. by apply Hne, (Ha j i hj h op). }
  split; [done|..].
  - intros j hj Hj. apply list_lookup_insert_Some in Hj as [(<- & <- & _)|[Hne Hj]]; [done|].
    eapply held_extend; [by eapply Hh|done|exact Hclaim|done|]. by eapply Hother.
  - assert (∀ j hj o, j ≠ i → hs !! j = Some hj → o ∈ ops_of h' → o ∈ ops_of hj → False) as Hx.
    { intros j hj o Hne Hj Ho Ho'. destruct (Hops o Ho) as [Hin|Hu].
      - by apply Hne, (Ha j i hj h o).
      - destruct (held_op s hj o Hc (Hh j hj Hj) Ho') as [? ?]. done. }
    intros j1 j2 h1 h2 o H1 H2 Ho1 Ho2.
    apply list_lookup_insert_Some in H1 as [(<- & <- & _)|[Hn1 H1]],
      H2 as [(<- & <- & _)|[Hn2 H2]]; [done| | |by eapply Ha].
    + by destruct (Hx j2 h2 o).
    + by destruct (Hx j1 h1 o).
Qed.

(** A change about no operation: reads, insertions, reschedules, cancellations. *)
Lemma consistent_calm s c l :
  consistent s → rows None None (st_posts s) c →
  (l = [] ∨ ∃ id, l = [ECanceled id] ∧ (∀ op, EClaim true id op ∉ st_log s)
     ∧ ∃ p, docs c !! id = Some p ∧ po_status p ≠ statusScheduled) →
  consistent (extend c [] l s).
Proof.
  intros Hc Hrows Hl. assert (log_ok (st_log s)) as Hlog by apply Hc. eapply consistent_extend; [done|done|done|done|..].
  - by destruct Hl as [->|(id & -> & Hn & _)].
  - intros due id op Hin. destruct Hl as [->|(id' & -> & _)]; set_solver.
  - intros id Hin. destruct Hl as [->|(id' & -> & _ & Hp)]; [set_solver|]. by apply list_elem_of_singleton in Hin as [= ->].
Qed.

Lemma safe_calm s c l hs :
  safe s hs → rows None None (st_posts s) c →
  (l = [] ∨ ∃ id, l = [ECanceled id] ∧ (∀ op, EClaim true id op ∉ st_log s)
     ∧ ∃ p, docs c !! id = Some p ∧ po_status p ≠ statusScheduled) →
  safe (extend c [] l s) hs.
Proof.
  intros [Hc Hh Ha] Hrows Hl. split; [by apply consistent_calm| |done]. intros j h Hj.
  eapply (held_extend s c [] l None None ""); [by eapply Hh|done|by left| |].
  - intros e He. destruct Hl as [->|(id & -> & _)]; [set_solver|]. by apply list_elem_of_singleton in He as ->.
  - intros Hin. by destruct (held_op s h "" Hc (Hh j h Hj) Hin).
Qed.

(** A claim on row [id] by an operation nobody has won. *)
Lemma entry_claim s due id op p :
  consistent s → ¬ won op s → posts_of s !! id = Some p → po_operation_id p = "" →
  (due = true → po_status p = statusScheduled) → entry_ok (EClaim due id op) (st_log s).
Proof.
  intros Hc Hw Hp Ho Hst. split_and!.
  - intros due' id' Hin. apply Hw. by exists due', id'.
  - intros due' op' Hin. destruct (cs_claims s Hc _ _ _ Hin) as (Hne & _ & [?|(p' & Hp' & Ho')]); [done|]. congruence.
  - intros Hd. specialize (Hst Hd). split.
    + intros op' Hin. destruct (cs_left s Hc id) as (p' & Hp' & Hs'); [left; by exists op'|]. congruence.
    + intros Hin. destruct (cs_left s Hc id) as (p' & Hp' & Hs'); [by right|]. congruence.
Qed.

Lemma held_join s d cl : held s (d, Free) → held s (None, cl) → held s (d, cl).
Proof. intros [Hd _ _] [_ Hc Hs]. by split. Qed.

Lemma held_drawn s h : held s h → held s (h.1, Free).
Proof. intros [Hd _ _]. by split. Qed.

Lemma held_nothing s : held s (None, Free).
Proof. by split. Qed.

Lemma used_drawn s h op : consistent s → held s h → op ∉ st_used s → op ∉ ops_of (h.1, Free).
Proof.
  intros Hc Hh Hu Hin. apply Hu. apply (held_op s (h.1, Free) op); [done|by apply held_drawn|done].
Qed.

Lemma safe_claim s c ids due id op hs i h drawn (learnt : bool) :
  safe s hs → hs !! i = Some h → rows (Some op) None (st_posts s) c →
  op ≠ "" → op ∈ ids ++ st_used s → ¬ won op s → op ∈ ops_of h ∨ op ∉ st_used s →
  drawn = None ∨ (drawn = h.1 ∧ op ∉ st_used s) →
  (learnt = true → ∃ p, posts_of s !! id = Some p ∧ po_operation_id p = ""
     ∧ (due = true → po_status p = statusScheduled) ∧ docs c !! id = Some (claim_post op p)) →
  safe (extend c ids (if learnt then [EClaim due id op] else []) s)
    (<[i := (drawn, if learnt then Claimed op else Free)]> hs).
Proof.
  intros Hsafe Hi Hrows Hne Hu Hw Hop Hdr Hlearnt. destruct Hsafe as [Hc Hh Ha] eqn:Es. clear Es.
  set (l := if learnt then [EClaim due id op] else []).
  assert (about op l) as Hab.
  { unfold l. intros e He. destruct learnt; [|set_solver]. by apply list_elem_of_singleton in He as ->. }
  assert (consistent (extend c ids l s)) as Hc'.
  { eapply consistent_extend; [done|exact Hrows|by intros o [= <-]|done|..]; unfold l.
    - destruct learnt; [|apply Hc]. split; [|apply Hc]. destruct (Hlearnt eq_refl) as (p & Hp & Ho & Hst & _).
      by eapply entry_claim.
    - intros due' id' op' Hin. destruct learnt; [|set_solver]. apply list_elem_of_singleton in Hin as [= -> -> ->].
      destruct (Hlearnt eq_refl) as (p & Hp & Ho & Hst & Hq). split_and!; [done|done|]. by exists (claim_post op p).
    - intros id' Hin. destruct learnt; set_solver. }
  eapply safe_extend with (op := op); [done|done|exact Hrows|by right|done| | |done|].
  - destruct Hop; [by left|by right; right].
  - intros o Ho. unfold ops_of in Ho. cbn [fst snd] in Ho. apply elem_of_app in Ho as [Ho|Ho].
    + left. unfold ops_of. apply elem_of_app. left. destruct Hdr as [->|[-> _]]; [set_solver|done].
    + destruct learnt; [|set_solver]. by apply list_elem_of_singleton in Ho as ->.
  - apply held_join.
    + destruct Hdr as [->|[-> Hfresh]]; [apply held_nothing|].
      eapply held_extend with (op := op); [by eapply held_drawn, Hh|exact Hrows|by right|done|by eapply used_drawn; [|eapply Hh|]].
    + unfold l. destruct learnt; [|apply held_nothing]. split; [done| |done]. intros o [= <-]. split_and!.
      * exists due, id. cbn. set_solver.
      * cbn. intros [?|Hin]%elem_of_cons; [done|]. apply Hw, log_won; [apply Hc|by right].
      * cbn. intros [?|Hin]%elem_of_cons; [done|]. apply Hw, log_won; [apply Hc|by left].
Qed.

Lemma safe_complete s c op hs i h :
  safe s hs → hs !! i = Some h → rows None (Some op) (st_posts s) c → h.2 = Claimed op ∨ h.2 = Sent op →
  safe (extend c [] [ETried op] s) (<[i := (h.1, Free)]> hs).
Proof.
  intros Hsafe Hi Hrows Hcl. assert (held s h) as Hh by by eapply sf_held. assert (consistent s) as Hc by apply Hsafe.
  assert (won op s) as Hw by (destruct Hcl as [E|E]; [by destruct (hd_claimed s h Hh op E)|by destruct (hd_sent s h Hh op E)]).
  assert (about op [ETried op]) as Hab by (intros e ->%list_elem_of_singleton; done).
  assert (op ∉ ops_of (h.1, Free)) as Hno.
  { intros Hin. unfold ops_of in Hin. rewrite app_nil_r in Hin. cbn [fst] in Hin. destruct h.1 as [o|] eqn:E; [|set_solver].
    apply list_elem_of_singleton in Hin as ->. by destruct (hd_drawn s h Hh o E) as (_ & _ & Hn & _). }
  eapply safe_extend with (op := op); [done|done|exact Hrows|by left|done| | |..].
  - left. unfold ops_of. apply elem_of_app. right. destruct Hcl as [-> | ->]; set_solver.
  - intros o Ho. left. unfold ops_of in *. cbn [fst snd] in Ho. set_solver.
  - eapply consistent_extend; [done|exact Hrows|done|intros o [= <-]; set_solver| | |].
    + by split; [|apply Hc].
    + set_solver.
    + set_solver.
  - eapply held_extend with (op := op); [by apply held_drawn|exact Hrows|by left|done|done].
Qed.

Lemma safe_send s op hs i h :
  safe s hs → hs !! i = Some h → h.2 = Claimed op →
  safe (note [ESent op] s) (<[i := (h.1, Sent op)]> hs).
Proof.
  intros Hsafe Hi Hcl. assert (held s h) as Hh by by eapply sf_held. assert (consistent s) as Hc by apply Hsafe.
  destruct (hd_claimed s h Hh op Hcl) as (Hw & Ht & Hse).
  change (note [ESent op] s) with (extend (st_posts s) [] [ESent op] s).
  assert (about op [ESent op]) as Hab by (intros e ->%list_elem_of_singleton; done).
  assert (rows None None (st_posts s) (st_posts s)) as Hrows by by apply rows_same.
  eapply safe_extend with (op := op); [done|done|exact Hrows|by left|done| | |..].
  - left. unfold ops_of. apply elem_of_app. right. rewrite Hcl. set_solver.
  - intros o Ho. left. unfold ops_of in *. rewrite Hcl. cbn [fst snd] in Ho. set_solver.
  - eapply consistent_extend; [done|exact Hrows|done|done| | |].
    + by split; [|apply Hc].
    + set_solver.
    + set_solver.
  - apply held_join.
    + eapply held_extend with (op := op); [by apply held_drawn|exact Hrows|by left|done|].
      intros Hin. unfold ops_of in Hin. rewrite app_nil_r in Hin. cbn [fst] in Hin. destruct h.1 as [o|] eqn:E; [|set_solver].
      apply list_elem_of_singleton in Hin as ->. by destruct (hd_drawn s h Hh o E) as (_ & _ & Hn & _).
    + split; [done|done|]. intros o [= <-]. split; [|set_solver]. destruct Hw as (due & id & Hin).
      exists due, id. cbn. set_solver.
Qed.

Lemma safe_draw s id hs i h :
  safe s hs → hs !! i = Some h → unused id s → safe (draw id s) (<[i := (Some id, h.2)]> hs).
Proof.
  intros Hsafe Hi [Hne Hu]. assert (held s h) as Hh by by eapply sf_held. assert (consistent s) as Hc by apply Hsafe.
  change (draw id s) with (extend (st_posts s) [id] [] s).
  assert (rows None None (st_posts s) (st_posts s)) as Hrows by by apply rows_same.
  assert (¬ won id s) as Hw.
  { intros (due & k & Hin). by destruct (cs_claims s Hc _ _ _ Hin) as (_ & ? & _). }
  eapply safe_extend with (op := id); [done|done|exact Hrows|by left|intros e He; set_solver|by right; right| |..].
  - intros o Ho. unfold ops_of in *. cbn [fst snd] in Ho. apply elem_of_app in Ho as [Ho|Ho]; [|left; set_solver].
    apply list_elem_of_singleton in Ho as ->. by right.
  - eapply consistent_extend; [done|exact Hrows|done|done|apply Hc|set_solver|set_solver].
  - apply held_join.
    + split; [|done|done]. intros o [= <-]. cbn. split_and!; [done|set_solver|done|]. intros k p Hp Ho.
      destruct (cs_kept s Hc k p Hp) as [_ [?|?]]; congruence.
    + destruct Hh as [_ Hcl Hse]. by split.
Qed.

(** *** Every step is safe *)

Lemma insert_self (hs : list Hold) i h : hs !! i = Some h → <[i := h]> hs = hs.
Proof. apply list_insert_id. Qed.

Lemma safe_calm_at s c hs i h (K : Hold → Prop) :
  safe s hs → hs !! i = Some h → rows None None (st_posts s) c → K h →
  ∃ h', K h' ∧ safe (with_posts c s) (<[i := h']> hs).
Proof.
  intros Hs Hi Hrows HK. exists h. split; [done|]. rewrite insert_self by done.
  change (with_posts c s) with (extend c [] [] s). apply safe_calm; [done|done|by left].
Qed.

Lemma safe_call_claim s businessID id previous op hs i (K : result DocError bool → Hold → Prop) :
  safe s hs → hs !! i = Some (Some op, Free) → previous ≠ statusScheduled →
  (∀ r, K r (None, match r with Ok true => Claimed op | _ => Free end)) →
  let o := ClaimOperation businessID id previous op (st_posts s) in
  ∃ h', K o.1 h' ∧ safe (note (match o.1 with Ok true => [EClaim false id op] | _ => [] end) (with_posts o.2 s))
                        (<[i := h']> hs).
Proof.
  intros Hs Hi Hprev HK. destruct (claim_rows businessID id previous op (st_posts s)) as [Hrows Hok]. cbn zeta in *.
  set (o := ClaimOperation businessID id previous op (st_posts s)) in *.
  assert (held s (Some op, Free)) as Hh by by eapply sf_held.
  destruct (hd_drawn s _ Hh op eq_refl) as (Hne & Hu & Hw & _). eexists. split; [apply HK|].
  set (learnt := match o.1 with Ok true => true | _ => false end).
  assert (safe (extend o.2 [] (if learnt then [EClaim false id op] else []) s)
    (<[i := (None, if learnt then Claimed op else Free)]> hs)) as Hsafe.
  { eapply safe_claim; [done|done|exact Hrows|done|done|done| |by left|].
    - left. unfold ops_of. set_solver.
    - intros Hl. unfold learnt in Hl. destruct Hok as (p & ? & ? & _ & ?); [|by exists p].
      by destruct o.1 as [[]|]. }
  unfold learnt in Hsafe. destruct o.1 as [[]|e]; exact Hsafe.
Qed.

Lemma safe_call_due s now op hs i h (K : result DocError (option Post) → Hold → Prop) :
  safe s hs → hs !! i = Some h → h.2 = Free → unused op s →
  (∀ r, K r (h.1, match r with Ok (Some p) => Claimed (po_operation_id p) | _ => Free end)) →
  let o := ClaimDue now op (st_posts s) in
  ∃ h', K o.1 h' ∧ safe (note (match o.1 with Ok (Some p) => [EClaim true (po_id p) op] | _ => [] end)
                          (draw op (with_posts o.2 s))) (<[i := h']> hs).
Proof.
  intros Hs Hi Hfree [Hne Hu] HK. destruct (due_rows now op (st_posts s)) as [Hrows Hok]. cbn zeta in *.
  set (o := ClaimDue now op (st_posts s)) in *. assert (consistent s) as Hc by apply Hs.
  eexists. split; [apply HK|].
  set (learnt := match o.1 with Ok (Some _) => true | _ => false end).
  set (pid := match o.1 with Ok (Some p) => po_id p | _ => "" end).
  assert (safe (extend o.2 [op] (if learnt then [EClaim true pid op] else []) s)
    (<[i := (h.1, if learnt then Claimed op else Free)]> hs)) as Hsafe.
  { eapply safe_claim; [done|done|exact Hrows|done|set_solver| |by right|by right|].
    - intros (due & k & Hin). by destruct (cs_claims s Hc _ _ _ Hin) as (_ & ? & _).
    - intros Hl. unfold learnt, pid in *. destruct o.1 as [[p|]|e]; [|done..].
      destruct (Hok p eq_refl) as (id & d & Hd & Ho & Hst & -> & Hd').
      destruct (cs_kept s Hc id d Hd) as [Hid _]. exists d. cbn. by rewrite Hid. }
  unfold learnt, pid in Hsafe. destruct o.1 as [[p|]|e]; [|exact Hsafe..].
  destruct (Hok p eq_refl) as (id & d & _ & _ & _ & -> & _). exact Hsafe.
Qed.

Lemma safe_call_update s businessID id at_ content status hs i h (K : result DocError bool → Hold → Prop) :
  safe s hs → hs !! i = Some h → (∀ r, K r h) →
  let o := UpdateScheduled businessID id at_ content status (st_posts s) in
  ∃ h', K o.1 h' ∧ safe (note (match o.1 with
                           | Ok true => if String.eqb status postStatusCanceled then [ECanceled id] else []
                           | _ => [] end) (with_posts o.2 s)) (<[i := h']> hs).
Proof.
  intros Hs Hi HK. destruct (update_rows businessID id at_ content status (st_posts s)) as [Hrows Hok]. cbn zeta in *.
  set (o := UpdateScheduled businessID id at_ content status (st_posts s)) in *.
  exists h. split; [done|]. rewrite insert_self by done.
  match goal with |- safe (note ?l _) _ => change (safe (extend o.2 [] l s) hs) end. apply safe_calm; [done|done|].
  destruct o.1 as [[]|e]; [|by left|by left]. destruct (String.eqb_spec status postStatusCanceled) as [->|]; [|by left].
  right. exists id. split; [done|]. destruct (Hok eq_refl) as (p & Hp & Hst & Hp'). split.
  - intros op Hin. assert (consistent s) as Hc by apply Hs. destruct (cs_left s Hc id) as (p' & Hq & Hn); [left; by exists op|].
    congruence.
  - eexists. by split.
Qed.

Lemma safe_call {B} (c : PostCall B) s b s' hs i h (K : B → Hold → Prop) :
  safe s hs → hs !! i = Some h → post_spec B c h K → call_step c s b s' →
  ∃ h', K b h' ∧ safe s' (<[i := h']> hs).
Proof.
  intros Hs Hi Hspec Hstep.
  destruct c as [id|post|businessID id prev op|post op|now|businessID id at_ content status|subject req|? ? ?|? ?|?|?| | |];
    cbn [post_spec call_step] in Hspec, Hstep;
    try (subst s'; exists h; split; [apply Hspec|by rewrite insert_self]).
  - destruct Hstep as [-> ->]. apply (safe_calm_at s _ hs i h); [done|done|apply get_rows|apply Hspec].
  - destruct Hstep as (now & oid & -> & ->), Hspec as [Ho HK].
    apply (safe_calm_at s _ hs i h); [done|done|by apply create_rows|apply HK].
  - destruct Hstep as [-> ->], Hspec as (-> & Hprev & HK). by apply safe_call_claim.
  - destruct Hstep as [-> ->], Hspec as (Hh & Hst & HK). eexists. split; [apply HK|].
    apply (safe_complete s _ op hs i h); [done|done|by apply complete_rows|done].
  - destruct Hstep as (op & Hu & -> & ->), Hspec as [Hfree HK]. by apply safe_call_due with (h := h).
  - destruct Hstep as [-> ->], Hspec as [_ HK]. by apply safe_call_update with (h := h).
  - subst s'. destruct Hspec as [Hcl HK]. eexists. split; [apply HK|by apply safe_send].
  - destruct Hstep as [Hu ->]. eexists. split; [apply Hspec|by apply safe_draw].
Qed.

Lemma safe_more s hs h : safe s hs → h = (None, Free) → safe s (hs ++ [h]).
Proof.
  intros [Hc Hh Ha] ->. split; [done|..].
  - intros i h Hi. apply lookup_app_Some in Hi as [Hi|[_ Hi]]; [by eapply Hh|].
    apply list_lookup_singleton_Some in Hi as [_ <-]. apply held_nothing.
  - intros i j hi hj op Hi Hj Ho Ho'.
    apply lookup_app_Some in Hi as [Hi|[_ Hi]]; apply lookup_app_Some in Hj as [Hj|[_ Hj]]; [by eapply Ha| | |];
      repeat match goal with H : [_] !! _ = Some _ |- _ => apply list_lookup_singleton_Some in H as [_ <-] end;
      by apply elem_of_nil in Ho || by apply elem_of_nil in Ho'.
Qed.

Lemma safe_env s hs s' : safe s hs → env s s' → safe s' hs.
Proof.
  intros Hs [now oid post Ho|biz pl ext pid status ct Hne].
  - apply (safe_calm _ _ [] hs); [done|by apply create_rows|by left].
  - apply (safe_calm _ _ [] hs); [done|by apply reconcile_rows|by left].
Qed.

Lemma safe_start s : quiet_start s → safe s [].
Proof.
  intros [Hk Hl]. split; [|by intros i h Hi|by intros i j hi hj op Hi].
  split; [done|by rewrite Hl|rewrite Hl; set_solver|rewrite Hl; set_solver].
Qed.

Lemma safe_reachable s : reachable (@call_step) env starts quiet_start s → ∃ hs, safe (sy_store s) hs.
Proof.
  apply (sound_reachable (@call_step) env starts post_spec safe (None, Free)).
  - intros B c st b st' hs i h K. apply safe_call.
  - intros st hs Hs. by apply safe_more.
  - apply safe_env.
  - apply starts_orderly.
  - apply safe_start.
Qed.

Lemma log_at l1 e l2 : log_ok (l1 ++ e :: l2) → entry_ok e l2.
Proof. induction l1 as [|e' l1 IH]; intros [He Hl]; [done|by apply IH]. Qed.

Lemma due_once l id op op' :
  log_ok l → EClaim true id op ∈ l → EClaim true id op' ∈ l → op = op'.
Proof.
  induction l as [|e l IH]; [set_solver|]. intros [He Hl] [Hx|Hx]%elem_of_cons [Hy|Hy]%elem_of_cons; [congruence|..].
  - subst e. destruct He as (_ & _ & Hd). by destruct (proj1 (Hd eq_refl) op').
  - subst e. destruct He as (_ & _ & Hd). by destruct (proj1 (Hd eq_refl) op).
  - by apply IH.
Qed.

Lemma canceled_never_due l id op : log_ok l → ECanceled id ∈ l → EClaim true id op ∉ l.
Proof.
  induction l as [|e l IH]; [set_solver|]. intros [He Hl] [Hx|Hx]%elem_of_cons [Hy|Hy]%elem_of_cons; [congruence|..].
  - subst e. by apply (He op).
  - subst e. destruct He as (_ & _ & Hd). by apply (proj2 (Hd eq_refl)).
  - by apply IH.
Qed.

(** C18: nothing is published twice: however schedulers, users' operations and
    approved schedules interleave, crash and lose database answers, a request goes
    out under an operation's id only after that operation won its claim on a post,
    once, and never after its outcome was written back; a post is claimed again only
    after the outcome of each earlier claim was written back, so a claim whose
    process died blocks the post for good; a scheduler claims a post at most once
    ever, and never one whose cancellation was confirmed. *)
Theorem nothing_published_twice s :
  reachable (@call_step) env starts quiet_start s →
  let log := st_log (sy_store s) in
  (∀ l1 l2 op, log = l1 ++ ESent op :: l2 →
     (∃ due id, EClaim due id op ∈ l2) ∧ ESent op ∉ l2 ∧ ETried op ∉ l2)
  ∧ (∀ l1 l2 due id op, log = l1 ++ EClaim due id op :: l2 →
     (∀ due' id', EClaim due' id' op ∉ l2) ∧ ∀ due' op', EClaim due' id op' ∈ l2 → ETried op' ∈ l2)
  ∧ (∀ id op op', EClaim true id op ∈ log → EClaim true id op' ∈ log → op = op')
  ∧ (∀ id op, ECanceled id ∈ log → EClaim true id op ∉ log).
Proof.
  intros [hs Hsafe]%safe_reachable. cbn zeta. assert (log_ok (st_log (sy_store s))) as Hl by apply Hsafe.
  split_and!.
  - intros l1 l2 op E. rewrite E in Hl. exact (log_at _ _ _ Hl).
  - intros l1 l2 due id op E. rewrite E in Hl. destruct (log_at _ _ _ Hl) as (Hn & He & _). done.
  - intros id op op'. by apply due_once.
  - intros id op. by apply canceled_never_due.
Qed.
End system.

(** ** On a concrete store *)

Section demo.
#[local] Instance demo_post_coll : Coll Post po_id := map_coll po_id.
#[local] Existing Instance decimal_uuid.

Definition demo_result (status post_id : string) : PlatformResult := {|
  pr_external_id := "@shop"; pr_post_id := post_id; pr_url := ""; pr_status := status; pr_error := "" |}.

Definition demo_post (status post_id content : string) : Post := {|
  po_operation_id := ""; po_id := "p1"; po_business_id := "8"; po_content := content; po_media_urls := [];
  po_results := {[AgentTelegram := demo_result status post_id]}; po_status := status; po_scheduled_at := Some 1%Z;
  po_published_at := None; po_broadcast_group_id := ""; po_created_at := 0 |}.

Definition demo_service : PostDeps := {| pd_dispatch := true; pd_integrations := true; pd_approval := true |}.

Definition demo_start : Store := {|
  st_posts := {["p1" := demo_post statusScheduled "" "Fresh bread"]} : gmap string Post;
  st_used := []; st_log := [] |}.

Definition demo_claimed : Post := claim_post "op1" (demo_post statusScheduled "" "Fresh bread").

Lemma demo_start_quiet : quiet_start demo_start.
Proof.
  split; [|done]. intros id p Hp. change (({["p1" := demo_post statusScheduled "" "Fresh bread"]} : gmap string Post) !! id = Some p) in Hp.
  apply lookup_singleton_Some in Hp as [<- <-]. split; [done|by left].
Qed.

(** The scheduler claims the due post and sends it. *)
Lemma demo_sent : ∃ s : Sys PostCall Store, reachable (@call_step _) env (starts demo_service (λ s, s) (λ _, "")) quiet_start s ∧ ESent "op1" ∈ st_log (sy_store s).
Proof.
  eexists. split.
  - exists demo_start. split; [apply demo_start_quiet|].
    eapply rtc_l; [apply step_start, start_due|].
    eapply rtc_l; [eapply step_call with (i := 0) (b := None); [reflexivity|reflexivity]|].
    eapply rtc_l; [eapply step_call with (i := 0) (b := 5%Z); [reflexivity|reflexivity]|].
    eapply rtc_l; [eapply step_call with (i := 0) (b := Ok (Some demo_claimed)); [reflexivity|exists "op1"; split;
      [split; [done|set_solver]|split; [vm_compute; reflexivity|reflexivity]]]|].
    eapply rtc_l; [eapply step_call with (i := 0) (b := "t1"); [reflexivity|split; [split; [done|set_solver]|reflexivity]]|].
    eapply rtc_l; [eapply step_call with (i := 0) (b := Err (EText "timeout")); [reflexivity|reflexivity]|].
    apply rtc_refl.
  - apply list_elem_of_here.
Qed.

Lemma nothing_published_twice_witness : ∃ s : Sys PostCall Store,
  ESent "op1" ∈ st_log (sy_store s)
  ∧ ∀ id op op', EClaim true id op ∈ st_log (sy_store s) → EClaim true id op' ∈ st_log (sy_store s) → op = op'.
Proof.
  destruct demo_sent as (s & Hr & Hs). exists s. split; [exact Hs|].
  apply (nothing_published_twice demo_service (λ s, s) (λ _, "") s Hr).
Defined.

(** *** A completed edit is overwritten by a stale snapshot

    One process reads the published post for an edit; another edits it and writes
    "new" back; the first then wins its own claim, its dispatch is rejected, and
    writing the rejection back restores the text it had read before. *)
Definition demo_published : Post := demo_post statusPublished "10" "old".

Definition edited_by_other (c : gmap string Post) : gmap string Post :=
  let c := (ClaimOperation "8" "p1" statusPublished "opB" c).2 in
  (CompleteOperation (mutation_done actionEdit AgentTelegram (Some "new") empty_response "10" None
     (demo_result statusPublished "10") demo_published) "opB" c).2.

Definition rejected_receipt : ToolResponse := {|
  tp_task_id := ""; tp_success := false; tp_result := Some [("mutation_rejected", GBool true)];
  tp_error := "message is not modified"; tp_code := "" |}.

Definition rejected_edit (read : Post) (c : gmap string Post) : gmap string Post :=
  let c := (ClaimOperation "8" "p1" (po_status read) "opA" c).2 in
  (CompleteOperation (mutation_failed actionEdit AgentTelegram rejected_receipt (EText "agent error") "10"
     (demo_result statusPublished "10") read) "opA" c).2.

Example lost_update :
  let c0 : gmap string Post := {["p1" := demo_published]} in
  let c1 := edited_by_other c0 in
  (po_content <$> c1 !! "p1") = Some "new" ∧ (po_content <$> rejected_edit demo_published c1 !! "p1") = Some "old".
Proof. vm_compute. by split. Qed.

(** *** A message id from 10^6 on makes its post unchangeable *)
Example large_message_id :
  let id := fmt_sprint (λ _, "") (GNum 1234567) in
  id = "1.234567e+06"
  ∧ postOperation demo_published AgentTelegram (demo_result statusPublished id) actionEdit (Some "x")
    = Err (conflict "saved platform post ID is invalid").
Proof. vm_compute. by split. Qed.
End demo.
