(* ===== verification/Redis.v ===== *)
(** * The key-value store as its clients rely on it

    Redis is outside the repository.  The [cmd_*] functions state the documented
    meaning of the commands the sources use, on a keyspace whose cells carry an
    optional expiry instant (nanoseconds; an expired cell counts as absent).  A
    Lua script of the sources is the composition of its [redis.call]s, its
    effects so far kept when a call fails, as Redis runs it.

    [Redis] is what a client relies on: a command or script runs atomically at
    some instant; when the client gets a transport error it ran or did not run;
    and while the server is [up] there are no transport errors.  [scripted_redis]
    is a concrete server with a script of faults. *)

From S2P Require Import Prelude Json GoTime.
From Stdlib Require DecimalString DecimalZ.
From S2P Require Export Mongo.
Local Open Scope go_scope.

Record cell := { c_val : string; c_exp : option Z }.

#[export] Instance cell_eq_dec : EqDecision cell.
Proof. solve_decision. Defined.

Notation keyspace := (gmap string cell).

Inductive RedisError := RedisDown | NotAnInteger.

#[export] Instance RedisError_eq_dec : EqDecision RedisError.
Proof. solve_decision. Defined.

Definition cmd (R : Type) : Type := SE keyspace RedisError R.

(** A key lives up to and including its expiry instant. *)
Definition cell_live (now : Z) (c : cell) : bool :=
  match c_exp c with None => true | Some e => (now <=? e)%Z end.

Definition live_cell (now : Z) (k : string) (m : keyspace) : option cell :=
  match m !! k with Some c => if cell_live now c then Some c else None | None => None end.

(** The integers Redis recognises: canonical decimal text within 64 bits. *)
Definition in_int64 (n : Z) : bool := ((-(2 ^ 63) <=? n) && (n <? 2 ^ 63))%Z.

Definition parse_int (s : string) : option Z :=
  n ← Z.of_int <$> DecimalString.NilEmpty.int_of_string s;
  if String.eqb (print_Z n) s && in_int64 n then Some n else None.

Lemma parse_print_int n : in_int64 n = true → parse_int (print_Z n) = Some n.
Proof.
  intros Hn. unfold parse_int.
  assert (DecimalString.NilEmpty.int_of_string (print_Z n) = Some (Z.to_int n)) as ->
    by apply DecimalString.NilEmpty.isi.
  cbn. by rewrite DecimalZ.of_to, String.eqb_refl, Hn.
Qed.

Section commands.
Variable now : Z.

Definition cmd_get (k : string) : cmd (option string) := λ m,
  (Ok (c_val <$> live_cell now k m), m).

Definition cmd_set (k v : string) (ttl : Z) : cmd unit := λ m,
  (Ok tt, <[k := {| c_val := v; c_exp := Some (now + ttl)%Z |}]> m).

Definition cmd_setnx (k v : string) (ttl : Z) : cmd bool := λ m,
  match live_cell now k m with
  | Some _ => (Ok false, m)
  | None => (Ok true, <[k := {| c_val := v; c_exp := Some (now + ttl)%Z |}]> m)
  end.

Definition cmd_del (k : string) : cmd bool := λ m,
  (Ok (bool_decide (is_Some (live_cell now k m))), delete k m).

Definition cmd_incrby (k : string) (n : Z) : cmd Z := λ m,
  match live_cell now k m with
  | None => (Ok n, <[k := {| c_val := print_Z n; c_exp := None |}]> m)
  | Some c =>
      match parse_int (c_val c) with
      | None => (Err NotAnInteger, m)
      | Some v =>
          if in_int64 (v + n)
          then (Ok (v + n)%Z, <[k := {| c_val := print_Z (v + n); c_exp := c_exp c |}]> m)
          else (Err NotAnInteger, m)
      end
  end.

(** [PTTL]: -2 without the key, -1 without an expiry, else milliseconds left. *)
Definition cmd_pttl (k : string) : cmd Z := λ m,
  (Ok (match live_cell now k m with
       | None => -2
       | Some {| c_exp := None |} => -1
       | Some {| c_exp := Some e |} => (e - now) / Millisecond
       end)%Z, m).

Definition cmd_pexpire (k : string) (ms : Z) : cmd bool := λ m,
  match live_cell now k m with
  | None => (Ok false, m)
  | Some c =>
      (Ok true, if (ms <=? 0)%Z then delete k m
                else <[k := {| c_val := c_val c; c_exp := Some (now + ms * Millisecond)%Z |}]> m)
  end.

(** A full [SCAN] iteration with the glob [prefix*], no client writing meanwhile. *)
Definition cmd_scan (prefix : string) : cmd (list string) := λ m,
  (Ok (filterb (λ k, String.prefix prefix k && bool_decide (is_Some (live_cell now k m)))
         (map_to_list m).*1), m).
End commands.

(** ** The client *)

Class Redis := {
  rdb : Type;
  keys : rdb → keyspace;
  up : rdb → Prop;
  redis_do : ∀ {R : Type}, cmd R → SE rdb RedisError R;
  redis_do_spec : ∀ {R} (c : cmd R) s,
    let '(r, s') := redis_do c s in
    c (keys s) = (r, keys s') ∨
    (r = Err RedisDown ∧ (keys s' = keys s ∨ keys s' = (c (keys s)).2));
  redis_do_up : ∀ {R} (c : cmd R) s, up s →
    let '(r, s') := redis_do c s in c (keys s) = (r, keys s') ∧ up s';
}.

Lemma redis_do_healthy `{Redis} {R} (c : cmd R) s : up s →
  ∃ s', redis_do c s = ((c (keys s)).1, s') ∧ keys s' = (c (keys s)).2 ∧ up s'.
Proof.
  intros Hu. pose proof (redis_do_up c s Hu) as Hs.
  destruct (redis_do c s) as [r s'] eqn:E. destruct Hs as [Hc Hu'].
  exists s'. by rewrite Hc.
Qed.

Program Definition scripted_redis : Redis := {|
  rdb := (keyspace * list fault)%type;
  keys := fst;
  up s := s.2 = [];
  redis_do R c s :=
    match s.2 with
    | [] => let '(r, m) := c s.1 in (r, (m, []))
    | FNone :: sc => let '(r, m) := c s.1 in (r, (m, sc))
    | FBefore :: sc => (Err RedisDown, (s.1, sc))
    | FAfter :: sc => (Err RedisDown, ((c s.1).2, sc))
    end;
|}.
Next Obligation.
  intros R c [m [|[] sc]]; cbn; try (destruct (c m) as [r m']; cbn; by left); right; auto.
Qed.
Next Obligation. intros R c [m sc]. cbn. intros ->. by destruct (c m) as [r m']. Qed.

(** ** Facts about the commands *)

Lemma live_insert_eq now k c m : cell_live now c = true → live_cell now k (<[k := c]> m) = Some c.
Proof. intros Hl. unfold live_cell. by rewrite lookup_insert_eq, Hl. Qed.

Lemma live_insert_ne now k k' c m : k ≠ k' → live_cell now k (<[k' := c]> m) = live_cell now k m.
Proof. intros. unfold live_cell. by rewrite lookup_insert_ne. Qed.

Lemma live_delete_eq now k m : live_cell now k (delete k m) = None.
Proof. unfold live_cell. by rewrite lookup_delete_eq. Qed.

Lemma live_delete_ne now k k' m : k ≠ k' → live_cell now k (delete k' m) = live_cell now k m.
Proof. intros. unfold live_cell. by rewrite lookup_delete_ne. Qed.

(** A live cell was live at every earlier instant. *)
Lemma live_cell_earlier t t' k m c :
  (t ≤ t')%Z → live_cell t' k m = Some c → live_cell t k m = Some c.
Proof.
  unfold live_cell, cell_live. intros Ht. destruct (m !! k) as [d|]; [|done].
  destruct (c_exp d) as [e|] eqn:E; [|done].
  destruct (Z.leb_spec t' e); [|done]. intros [= ->]. by rewrite (proj2 (Z.leb_le t e)) by lia.
Qed.

Lemma live_cell_lookup t k m c : live_cell t k m = Some c → m !! k = Some c.
Proof. unfold live_cell. destruct (m !! k); [|done]. by destruct (cell_live t _); intros [= ->]. Qed.

