(* ===== verification/Dedupe.v ===== *)
(** * One execution per approval: the dedupe client and the agent dispatcher

    [src/pkg/hitldedupe/dedupe.go] over the [Redis] interface, and
    [src/pkg/agentbase]: [dispatcher.go], [router.go], [error_classifier.go].
    [Claim] issues two commands at two instants; its halves are separate
    definitions, so that the concurrent system below ([wstep]) can interleave
    other workers between them, and lose Redis at any command.  Times are the server's clock, in nanoseconds. *)

From S2P Require Import Prelude Json GoTime Types Redis A2A.
Local Open Scope go_scope.

Definition DedupeTTL : Z := 24 * Hour.
Definition ExecutingTTL : Z := 300 * Second.
Definition valueExecuting : string := "executing".

Inductive ClaimOutcome :=
| ClaimOutcomeSkip | ClaimOutcomeClaimed | ClaimOutcomeInFlight | ClaimOutcomeDuplicate.

Definition KeyFor (businessID approvalID : string) : string :=
  ("hitl:approval:" +:+ businessID +:+ ":" +:+ approvalID)%string.

(** The Lua [releaseSentinelScript]. *)
Definition releaseSentinelScript (now : Z) (key argv : string) : cmd Z :=
  do! v := cmd_get now key in
  if bool_decide (v = Some argv)
  then do! n := cmd_del now key in se_ret (if n : bool then 1%Z else 0%Z)
  else se_ret 0%Z.

Definition redis_err (e : RedisError) : goerr :=
  EText (match e with RedisDown => "redis: connection" | NotAnInteger => "ERR value is not an integer" end).

Section Client.
Context `{J : JsonText} `{Rd : Redis}.

Definition claim_begin (now : Z) (businessID approvalID : string) : SE rdb RedisError bool :=
  redis_do (cmd_setnx now (KeyFor businessID approvalID) valueExecuting ExecutingTTL).

Definition claim_lookup (now : Z) (businessID approvalID : string)
  : SE rdb goerr (ClaimOutcome * string) :=
  try! r := redis_do (cmd_get now (KeyFor businessID approvalID)) in
  match r with
  | Err e => se_err (EWrap "hitldedupe: Get after SetNX miss" (redis_err e))
  | Ok None => se_ret (ClaimOutcomeDuplicate, ""%string)
  | Ok (Some val) =>
      if String.eqb val valueExecuting then se_ret (ClaimOutcomeInFlight, ""%string)
      else se_ret (ClaimOutcomeDuplicate, val)
  end.

Definition Claim (t1 t2 : Z) (businessID approvalID : string)
  : SE rdb goerr (ClaimOutcome * string) :=
  if String.eqb approvalID "" then se_ret (ClaimOutcomeSkip, ""%string)
  else
    try! r := claim_begin t1 businessID approvalID in
    match r with
    | Err e => se_err (EWrap "hitldedupe: SetNX" (redis_err e))
    | Ok true => se_ret (ClaimOutcomeClaimed, ""%string)
    | Ok false => claim_lookup t2 businessID approvalID
    end.

Definition Store (now : Z) (businessID approvalID : string) (result : gval) : SE rdb goerr unit :=
  if String.eqb approvalID "" then se_ret tt
  else
    try! r := redis_do (cmd_set now (KeyFor businessID approvalID) (json_marshal result) DedupeTTL) in
    match r with Err e => se_err (redis_err e) | Ok _ => se_ret tt end.

Definition Release (now : Z) (businessID approvalID : string) : SE rdb goerr unit :=
  if String.eqb approvalID "" then se_ret tt
  else
    try! r := redis_do (releaseSentinelScript now (KeyFor businessID approvalID) valueExecuting) in
    match r with
    | Err e => se_err (EWrap "hitldedupe: release CAS" (redis_err e))
    | Ok _ => se_ret tt
    end.

(** ** The dispatcher ([dispatcher.go]) *)

Definition with_task (task : string) (r : ToolResponse) : ToolResponse :=
  {| tp_task_id := task; tp_success := tp_success r; tp_result := tp_result r;
     tp_error := tp_error r; tp_code := tp_code r |}.

(** [dedupe] tells whether a client is configured; [Some resp] is "stop with". *)
Definition dedupeGate (dedupe : bool) (t1 t2 : Z) (req : ToolRequest) (s : rdb)
  : option ToolResponse * rdb :=
  if negb dedupe || String.eqb (tr_approval_id req) "" then (None, s)
  else
    match Claim t1 t2 (tr_business_id req) (tr_approval_id req) s with
    | (Err _, s') => (None, s')
    | (Ok (ClaimOutcomeInFlight, _), s') =>
        (Some (failure (tr_task_id req) "duplicate: already in flight" "transient"), s')
    | (Ok (ClaimOutcomeDuplicate, cached), s') =>
        match (v ← json_unmarshal cached; dec_response v) with
        | None => (Some (failure (tr_task_id req) "duplicate: cached result unavailable" ""), s')
        | Some cachedResp => (Some (with_task (tr_task_id req) cachedResp), s')
        end
    | (Ok ((ClaimOutcomeClaimed | ClaimOutcomeSkip), _), s') => (None, s')
    end.

Definition dedupeStore (dedupe : bool) (now : Z) (req : ToolRequest)
    (resp : option ToolResponse) (execErr : option goerr) (s : rdb) : rdb :=
  if negb dedupe || String.eqb (tr_approval_id req) "" then s
  else
    match resp, execErr with
    | Some r, None => (Store now (tr_business_id req) (tr_approval_id req) (enc_response r) s).2
    | _, _ => (Release now (tr_business_id req) (tr_approval_id req) s).2
    end.

(** [ErrorClassifier.Classify], when there is a classifier. *)
Definition classify (classifier : option (option goerr → option goerr)) (err : option goerr)
  : option goerr :=
  match classifier with Some f => f err | None => err end.

(** The server's clock at the gate's two commands and at the final one. *)
Record instants := { at_claim : Z; at_lookup : Z; at_store : Z }.

(** A panic of [exec] unwinds through [Dispatch]: nothing is stored or released. *)
Definition Dispatch {W} (dedupe : bool) (classifier : option (option goerr → option goerr))
    (clk : instants) (req : ToolRequest) (exec : Exec (W:=W)) (st : rdb * W)
  : outcome * (rdb * W) :=
  let '(s, w) := st in
  match dedupeGate dedupe (at_claim clk) (at_lookup clk) req s with
  | (Some resp, s1) => (Returned (Some resp) None, (s1, w))
  | (None, s1) =>
      match exec req w with
      | (Panicked, w') => (Panicked, (s1, w'))
      | (Returned resp err, w') =>
          let err' := classify classifier err in
          (Returned resp err', (dedupeStore dedupe (at_store clk) req resp err' s1, w'))
      end
  end.

(** [NewRouter]: the per-tool table, in front of a dispatcher or of a bare
    classifier. *)
Definition routeTool {W} (routes : gmap string (Exec (W:=W))) : Exec (W:=W) := λ req w,
  match routes !! tr_tool req with
  | Some exec => exec req w
  | None => (Returned None (Some (EText ("unknown tool: " +:+ tr_tool req))), w)
  end.

Definition NewRouter {W} (routes : gmap string (Exec (W:=W)))
    (dispatcher : option (bool * option (option goerr → option goerr)))
    (fallback : option (option goerr → option goerr)) (clk : instants)
  : ToolRequest → rdb * W → outcome * (rdb * W) := λ req st,
  match dispatcher with
  | Some (dedupe, classifier) => Dispatch dedupe classifier clk req (routeTool routes) st
  | None =>
      match routeTool routes req st.2 with
      | (Panicked, w') => (Panicked, (st.1, w'))
      | (Returned resp err, w') => (Returned resp (classify fallback err), (st.1, w'))
      end
  end.
End Client.

(** ** Workers sharing one server *)

Section Workers.
Context `{J : JsonText} `{Rd : Redis}.
(** The request each worker handles. *)
Variable reqs : nat → ToolRequest.

(** A worker runs its tool under a claim, or without one: the gate fails open. *)
Inductive phase := Waiting | Executing (since : Z) | Unguarded | Finished.

(** What undoes the protection of a key: a worker of it ran without a claim, or was
    still running when the claim it made had lapsed. *)
Inductive mishap := Unclaimed (w : nat) | Overstayed (w : nat).

Definition mishap_worker (e : mishap) : nat := match e with Unclaimed w | Overstayed w => w end.

Record world := {
  wd_now : Z;
  wd_rdb : rdb;
  wd_phase : gmap nat phase;
  wd_done : list (string * Z);  (* results known to be stored: key and instant *)
  wd_log : list mishap;
}.

Definition key_of (w : nat) : string := KeyFor (tr_business_id (reqs w)) (tr_approval_id (reqs w)).

Definition set_phase (w : nat) (p : phase) (s : rdb) (l : list mishap) (x : world) : world := {|
  wd_now := wd_now x; wd_rdb := s; wd_phase := <[w := p]> (wd_phase x); wd_done := wd_done x; wd_log := l ++ wd_log x |}.

(** The workers whose claim has lapsed at [t]. *)
Definition late (t : Z) (x : world) : list mishap :=
  omap (λ wp, match wp.2 with
              | Executing since => if (since + ExecutingTTL <? t)%Z then Some (Overstayed wp.1) else None
              | _ => None
              end) (map_to_list (wd_phase x)).

Definition running (x : world) (w : nat) : Prop :=
  match wd_phase x !! w with Some (Executing _) | Some Unguarded => True | _ => False end.

(** One step of a worker.  A Redis command may fail, done or not: then the gate lets the
    call through, and a final command that failed is only logged.  A crash or a panic
    leaves things as they are.  Time passes at will. *)
Inductive wstep : world → world → Prop :=
| WTick x t : (wd_now x ≤ t)%Z →
    wstep x {| wd_now := t; wd_rdb := wd_rdb x; wd_phase := wd_phase x; wd_done := wd_done x; wd_log := late t x ++ wd_log x |}
| WUngated x w : wd_phase x !! w = None →  (* no client, or no approval *)
    wstep x (set_phase w Unguarded (wd_rdb x) [Unclaimed w] x)
| WClaim x w r s' : wd_phase x !! w = None → tr_approval_id (reqs w) ≠ "" →
    claim_begin (wd_now x) (tr_business_id (reqs w)) (tr_approval_id (reqs w)) (wd_rdb x) = (r, s') →
    wstep x (match r with
             | Ok true => set_phase w (Executing (wd_now x)) s' [] x
             | Ok false => set_phase w Waiting s' [] x
             | Err _ => set_phase w Unguarded s' [Unclaimed w] x
             end)
| WLookup x w r s' : wd_phase x !! w = Some Waiting →
    claim_lookup (wd_now x) (tr_business_id (reqs w)) (tr_approval_id (reqs w)) (wd_rdb x) = (r, s') →
    wstep x (match r with
             | Ok _ => set_phase w Finished s' [] x
             | Err _ => set_phase w Unguarded s' [Unclaimed w] x
             end)
| WStore x w resp r s' : running x w → tr_approval_id (reqs w) ≠ "" →
    Store (wd_now x) (tr_business_id (reqs w)) (tr_approval_id (reqs w)) (enc_response resp) (wd_rdb x) = (r, s') →
    wstep x {| wd_now := wd_now x; wd_rdb := s'; wd_phase := <[w := Finished]> (wd_phase x);
               wd_done := match r with Ok _ => (key_of w, wd_now x) :: wd_done x | Err _ => wd_done x end; wd_log := wd_log x |}
| WRelease x w r s' : running x w →
    Release (wd_now x) (tr_business_id (reqs w)) (tr_approval_id (reqs w)) (wd_rdb x) = (r, s') →
    wstep x (set_phase w Finished s' [] x)
| WStop x w : running x w → wstep x (set_phase w Finished (wd_rdb x) [] x).

Definition starting (t : Z) (s : rdb) : world :=
  {| wd_now := t; wd_rdb := s; wd_phase := ∅; wd_done := []; wd_log := [] |}.

Definition holds (x : world) (w : nat) (since : Z) : Prop :=
  wd_phase x !! w = Some (Executing since).

(** No worker of the key has run unclaimed or overstayed. *)
Definition undisturbed (k : string) (x : world) : Prop :=
  ∀ w, key_of w = k → Unclaimed w ∉ wd_log x ∧ Overstayed w ∉ wd_log x.

Definition sentinel (since : Z) : cell :=
  {| c_val := valueExecuting; c_exp := Some (since + ExecutingTTL)%Z |}.

(** What holds of an undisturbed key. *)
Record claims_ok (k : string) (x : world) : Prop := {
  ok_live : ∀ w since, holds x w since → key_of w = k →
    (since ≤ wd_now x ≤ since + ExecutingTTL)%Z ∧ keys (wd_rdb x) !! k = Some (sentinel since);
  ok_unique : ∀ w1 w2 s1 s2, holds x w1 s1 → holds x w2 s2 → key_of w1 = k → key_of w2 = k → w1 = w2;
  ok_done : ∀ t, (k, t) ∈ wd_done x → (t ≤ wd_now x)%Z ∧ ((wd_now x ≤ t + DedupeTTL)%Z →
    (∃ v, v ≠ valueExecuting ∧ keys (wd_rdb x) !! k = Some {| c_val := v; c_exp := Some (t + DedupeTTL)%Z |})
    ∧ ∀ w since, holds x w since → key_of w ≠ k);
}.

(** *** What a call did to the keyspace *)

(** A command that touches one key, whether its answer arrives or not. *)
Lemma redis_do_local {R} (c : cmd R) key s r s' : (∀ m k, k ≠ key → (c m).2 !! k = m !! k) →
  redis_do c s = (r, s') → ∀ k, k ≠ key → keys s' !! k = keys s !! k.
Proof.
  intros Hc E k Hk. pose proof (redis_do_spec c s) as Hs. rewrite E in Hs. destruct Hs as [Hs|(_ & [-> | ->])]; [|done|by apply Hc].
  pose proof (Hc (keys s) k Hk) as H. by rewrite Hs in H.
Qed.

Lemma redis_do_ok {R} (c : cmd R) s r s' :
  redis_do c s = (Ok r, s') → c (keys s) = (Ok r, keys s').
Proof.
  intros E. pose proof (redis_do_spec c s) as Hs. rewrite E in Hs.
  by destruct Hs as [?|[? _]].
Qed.

Lemma claim_begin_local now b a s r s' : claim_begin now b a s = (r, s') → ∀ k, k ≠ KeyFor b a → keys s' !! k = keys s !! k.
Proof.
  apply redis_do_local. intros m k Hk. unfold cmd_setnx. destruct (live_cell _ _ _); [done|]. cbn. by rewrite lookup_insert_ne.
Qed.

Lemma claim_begin_ok now b a s ok s' : claim_begin now b a s = (Ok ok, s') →
  if ok then live_cell now (KeyFor b a) (keys s) = None ∧
             keys s' = <[KeyFor b a := sentinel now]> (keys s)
  else keys s' = keys s.
Proof.
  intros E%redis_do_ok. unfold cmd_setnx in E. destruct (live_cell _ _ _); by simplify_eq.
Qed.

Lemma claim_lookup_keys now b a s r s' : claim_lookup now b a s = (r, s') → keys s' = keys s.
Proof.
  unfold claim_lookup, se_try. destruct (redis_do _ s) as [v s1] eqn:E.
  assert (keys s1 = keys s) as <-.
  { pose proof (redis_do_spec (cmd_get now (KeyFor b a)) s) as Hs. rewrite E in Hs. unfold cmd_get in Hs. cbn in Hs.
    by destruct Hs as [[= _ ?]|(_ & [?|?])]. }
  destruct v as [[v|]|e]; [destruct (String.eqb v _)| |]; by intros [= _ <-].
Qed.

Lemma store_local now b a v s r s' : Store now b a v s = (r, s') → ∀ k, k ≠ KeyFor b a → keys s' !! k = keys s !! k.
Proof.
  unfold Store, se_try. destruct (String.eqb a ""); [by intros [= _ <-]|].
  destruct (redis_do _ s) as [u s1] eqn:E. intros Hr. assert (s' = s1) as -> by (by destruct u; injection Hr).
  revert E. apply redis_do_local. intros m k Hk. cbn. by rewrite lookup_insert_ne.
Qed.

Lemma store_ok now b a v s s' : a ≠ "" → Store now b a v s = (Ok tt, s') →
  keys s' = <[KeyFor b a := {| c_val := json_marshal v; c_exp := Some (now + DedupeTTL)%Z |}]> (keys s).
Proof.
  intros Ha. unfold Store, se_try. destruct (String.eqb_spec a ""); [done|].
  destruct (redis_do _ s) as [[u|e] s1] eqn:E; [|by intros]. intros [= <-].
  apply redis_do_ok in E. by injection E.
Qed.

Lemma release_local now b a s r s' : Release now b a s = (r, s') → ∀ k, k ≠ KeyFor b a → keys s' !! k = keys s !! k.
Proof.
  unfold Release, se_try. destruct (String.eqb a ""); [by intros [= _ <-]|].
  destruct (redis_do _ s) as [u s1] eqn:E. intros Hr. assert (s' = s1) as -> by (by destruct u; injection Hr).
  revert E. apply redis_do_local. intros m k Hk. unfold releaseSentinelScript, se_bind, cmd_get. cbn.
  destruct (decide (c_val <$> live_cell now (KeyFor b a) m = Some valueExecuting)) as [Hv|Hv].
  - rewrite (bool_decide_eq_true_2 _ Hv). cbn. by rewrite lookup_delete_ne.
  - by rewrite (bool_decide_eq_false_2 _ Hv).
Qed.

Lemma marshalled_struct_not_executing r : json_marshal (enc_response r) ≠ valueExecuting.
Proof.
  unfold enc_response, struct_enc. destruct (json_head_obj (struct_members
    [("task_id", Some (GStr (tp_task_id r))); ("success", Some (GBool (tp_success r)));
     ("result", omit_map (tp_result r)); ("error", omit_str (tp_error r));
     ("code", omit_str (tp_code r))])) as [t Ht].
  by rewrite Ht.
Qed.

(** *** A step and one key *)

Lemma holds_set w p s l x w' since : holds (set_phase w p s l x) w' since →
  (w' = w ∧ p = Executing since) ∨ (w' ≠ w ∧ holds x w' since).
Proof.
  unfold holds. cbn. intros [[<- ?]|[? ?]]%lookup_insert_Some; [by left|right; auto].
Qed.

(** A step of worker [w], not into a claim, that leaves the cell of [k] alone unless [w] held it. *)
Lemma other_ok k x w p s' l : claims_ok k x → (∀ since, p ≠ Executing since) →
  (keys s' !! k = keys (wd_rdb x) !! k ∨ key_of w = k ∧ ∃ since, holds x w since) → claims_ok k (set_phase w p s' l x).
Proof.
  intros [Hlive Huniq Hdone] Hp Hk.
  assert (∀ w' since, holds (set_phase w p s' l x) w' since → holds x w' since ∧ w' ≠ w) as Hh.
  { intros w' since [[_ E]|[? ?]]%holds_set; [by apply Hp in E|done]. }
  split; cbn.
  - intros w' since [Hh' Hne]%Hh Hw. destruct (Hlive _ _ Hh' Hw) as [Ht Hc]. split; [done|].
    destruct Hk as [->|(Hkw & since' & Hw')]; [done|]. destruct Hne. by eapply Huniq.
  - intros w1 w2 s1 s2 [H1 _]%Hh [H2 _]%Hh. by eapply Huniq.
  - intros t Hin. destruct (Hdone t Hin) as [Ht Hd]. split; [done|]. intros Hn. destruct (Hd Hn) as [Hc Hno].
    split; [|intros w' since [Hh' _]%Hh; by eapply Hno]. destruct Hk as [->|(Hkw & since' & Hw')]; [done|]. by destruct (Hno _ _ Hw').
Qed.

Lemma claim_ok x w s' k : claims_ok k x → (key_of w = k → live_cell (wd_now x) k (keys (wd_rdb x)) = None ∧ keys s' = <[k := sentinel (wd_now x)]> (keys (wd_rdb x))) →
  (key_of w ≠ k → keys s' !! k = keys (wd_rdb x) !! k) → claims_ok k (set_phase w (Executing (wd_now x)) s' [] x).
Proof.
  intros [Hlive Huniq Hdone] Heq Hne. destruct (decide (key_of w = k)) as [E|E].
  - destruct (Heq E) as [Hdead Hk]. clear Heq Hne.
    assert (∀ w' since, holds x w' since → key_of w' = k → False) as Hfree.
    { intros w' since Hh Hw. destruct (Hlive _ _ Hh Hw) as [Ht Hc]. unfold live_cell in Hdead. rewrite Hc in Hdead.
      unfold cell_live, sentinel in Hdead. cbn in Hdead. destruct (Z.leb_spec (wd_now x) (since + ExecutingTTL)); [done|lia]. }
    split; cbn.
    + intros w' since [[-> [= <-]]|[_ Hh]]%holds_set Hw; [|by destruct (Hfree _ _ Hh Hw)]. split; [assert (0 ≤ ExecutingTTL)%Z by done; lia|]. by rewrite Hk, lookup_insert_eq.
    + intros w1 w2 s1 s2 [[-> _]|[_ H1]]%holds_set [[-> _]|[_ H2]]%holds_set E1 E2; [done|by destruct (Hfree _ _ H2 E2)|by destruct (Hfree _ _ H1 E1)|by eapply Huniq].
    + intros t Hin. destruct (Hdone t Hin) as [Ht Hd]. split; [done|]. intros Hn. destruct (Hd Hn) as [(v & _ & Hc) _].
      unfold live_cell in Hdead. rewrite Hc in Hdead. unfold cell_live in Hdead. cbn in Hdead. destruct (Z.leb_spec (wd_now x) (t + DedupeTTL)); [done|lia].
  - specialize (Hne E). clear Heq.
    assert (∀ w' since, holds (set_phase w (Executing (wd_now x)) s' [] x) w' since → key_of w' = k → holds x w' since) as Hh.
    { intros w' since [[-> _]|[_ ?]]%holds_set Hw; [congruence|done]. }
    split; cbn.
    + intros w' since Hh' Hw. rewrite Hne. by eapply Hlive, Hw; apply Hh.
    + intros w1 w2 s1 s2 H1 H2 E1 E2. eapply Huniq; [by apply Hh|by apply Hh|done..].
    + intros t Hin. destruct (Hdone t Hin) as [Ht Hd]. split; [done|]. intros Hn. destruct (Hd Hn) as [Hc Hno]. rewrite Hne.
      split; [done|]. intros w' since Hh' Hw. by eapply Hno, Hw; apply Hh.
Qed.

Lemma stored_ok k x w since s' v : claims_ok k x → holds x w since → key_of w = k → v ≠ valueExecuting →
  keys s' = <[k := {| c_val := v; c_exp := Some (wd_now x + DedupeTTL)%Z |}]> (keys (wd_rdb x)) →
  claims_ok k {| wd_now := wd_now x; wd_rdb := s'; wd_phase := <[w := Finished]> (wd_phase x); wd_done := (key_of w, wd_now x) :: wd_done x; wd_log := wd_log x |}.
Proof.
  intros Hok Hw Hkw Hv Hk. pose proof (other_ok k x w Finished s' [] Hok ltac:(done) (or_intror (conj Hkw (ex_intro _ since Hw)))) as [Hlive' Huniq' Hdone'].
  split; cbn in *; [exact Hlive'|exact Huniq'|]. intros t [[= Ht]|Hin]%elem_of_cons; [subst t|by apply Hdone'].
  split; [lia|]. intros _. split; [exists v; split; [done|by rewrite Hk, lookup_insert_eq]|].
  intros w' s1 Hh Hw'. assert (holds (set_phase w Finished s' [] x) w' s1) as [[_ ?]|[Hne Hh']]%holds_set by exact Hh; [done|].
  destruct Hne. by eapply (ok_unique _ _ Hok).
Qed.

(** Unguarded workers are in the log, as are those who overstayed. *)
Definition logged (x : world) : Prop :=
  (∀ w, wd_phase x !! w = Some Unguarded → Unclaimed w ∈ wd_log x).

Lemma logged_step x y : logged x → wstep x y → logged y.
Proof.
  intros Hl Hs.
  assert (∀ w p s l, p ≠ Unguarded ∨ Unclaimed w ∈ l → logged (set_phase w p s l x)) as Hset.
  { intros w p s l Hp w'. cbn. intros [[<- ->]|[_ Hw]]%lookup_insert_Some; [destruct Hp; set_solver|]. apply elem_of_app. right. by apply Hl. }
  destruct Hs as [x t Ht|x w Hn|x w r s' Hn Ha Hc|x w r s' Hw Hc|x w resp r s' Hw Ha Hc|x w r s' Hw Hc|x w Hw].
  - intros w Hw. cbn. apply elem_of_app. right. by apply Hl.
  - apply Hset. right. set_solver.
  - destruct r as [[]|e]; apply Hset; [by left|by left|right; set_solver].
  - destruct r; apply Hset; [by left|right; set_solver].
  - intros w'. cbn. intros [[_ ?]|[_ Hw']]%lookup_insert_Some; [done|by apply Hl].
  - apply Hset. by left.
  - apply Hset. by left.
Qed.

Lemma log_grows x y : wstep x y → wd_log x ⊆ wd_log y.
Proof. intros Hs. destruct Hs as [| |? ? [[]|] ?|? ? [] ?| | |]; cbn; set_solver. Qed.

(** A running worker of an undisturbed key has claimed it. *)
Lemma running_holds k x w : logged x → undisturbed k x → key_of w = k → running x w → ∃ since, holds x w since.
Proof.
  unfold running, holds. intros Hl Hu Hk Hr. destruct (wd_phase x !! w) as [[]|] eqn:E; try done; [eauto|].
  destruct (Hu w Hk) as [Hn _]. destruct Hn. by apply Hl.
Qed.

Lemma tick_ok k x t : claims_ok k x → (wd_now x ≤ t)%Z → undisturbed k {| wd_now := t; wd_rdb := wd_rdb x; wd_phase := wd_phase x; wd_done := wd_done x; wd_log := late t x ++ wd_log x |} →
  claims_ok k {| wd_now := t; wd_rdb := wd_rdb x; wd_phase := wd_phase x; wd_done := wd_done x; wd_log := late t x ++ wd_log x |}.
Proof.
  intros [Hlive Huniq Hdone] Ht Hu. split; cbn; [|exact Huniq|].
  - intros w since Hh Hk. destruct (Hlive _ _ Hh Hk) as [? Hc]. split; [|done]. split; [lia|].
    destruct (Z.le_gt_cases t (since + ExecutingTTL)); [done|]. destruct (Hu w Hk) as [_ Hn]. destruct Hn. cbn. apply elem_of_app. left.
    unfold late. apply list_elem_of_omap. exists (w, Executing since). split; [by apply elem_of_map_to_list|]. cbn. rewrite (proj2 (Z.ltb_lt _ _)) by lia. done.
  - intros t' Hin. destruct (Hdone t' Hin) as [? Hd]. split; [lia|]. intros. apply Hd. lia.
Qed.

Lemma wstep_ok k x y : claims_ok k x → logged x → undisturbed k y → wstep x y → claims_ok k y.
Proof.
  intros Hok Hl Hu Hs. assert (undisturbed k x) as Hux.
  { pose proof (log_grows _ _ Hs) as Hg. intros w Hk. destruct (Hu w Hk). set_solver. }
  assert (∀ w s', running x w → (∀ k', k' ≠ key_of w → keys s' !! k' = keys (wd_rdb x) !! k') →
    keys s' !! k = keys (wd_rdb x) !! k ∨ key_of w = k ∧ ∃ since, holds x w since) as Hown.
  { intros w s' Hr Hk. destruct (decide (key_of w = k)) as [E|E]; [right; split; [done|by eapply running_holds]|left; by apply Hk]. }
  destruct Hs as [x t Ht|x w Hn|x w r s' Hn Ha Hc|x w r s' Hw Hc|x w resp r s' Hw Ha Hc|x w r s' Hw Hc|x w Hw].
  - by apply tick_ok.
  - apply other_ok; auto.
  - pose proof (claim_begin_local _ _ _ _ _ _ Hc) as Hloc. destruct r as [[]|e].
    + destruct (claim_begin_ok _ _ _ _ _ _ Hc) as [Hd Hk]. apply claim_ok; [done|by intros <-|by intros Hne; apply Hloc].
    + apply other_ok; [done|done|]. left. by rewrite (claim_begin_ok _ _ _ _ _ _ Hc).
    + apply other_ok; [done|done|]. left. apply Hloc. intros ->. destruct (Hu w eq_refl) as [Hn' _]. destruct Hn'. cbn. set_solver.
  - apply claim_lookup_keys in Hc. destruct r; (apply other_ok; [done|done|]); left; by rewrite Hc.
  - pose proof (store_local _ _ _ _ _ _ _ Hc) as Hloc.
    assert (claims_ok k (set_phase w Finished s' [] x)) as Hfin by (apply other_ok; auto).
    destruct r as [[]|e]; [|exact Hfin]. destruct (decide (key_of w = k)) as [<-|E].
    + destruct (running_holds _ _ _ Hl Hux eq_refl Hw) as [since Hh]. eapply (stored_ok _ x w since s'); [done..|apply marshalled_struct_not_executing|by apply store_ok in Hc].
    + destruct Hfin as [H1 H2 H3]. split; [exact H1|exact H2|]. intros t [[= ? ?]|Hin]%elem_of_cons; [done|by apply H3].
  - pose proof (release_local _ _ _ _ _ _ Hc) as Hloc. apply other_ok; auto.
  - apply other_ok; auto.
Qed.

Lemma reachable_ok t s x k : rtc wstep (starting t s) x → undisturbed k x → claims_ok k x ∧ logged x.
Proof.
  intros Hrun. remember (starting t s) as x0 eqn:E0.
  assert (claims_ok k x0 ∧ logged x0) as Hstart.
  { subst. split; [split; unfold holds; cbn; [by intros ? ?; rewrite lookup_empty|by intros ? ? ? ?; rewrite lookup_empty|by intros ? Hin%elem_of_nil]|]. intros w. cbn. by rewrite lookup_empty. }
  clear E0. induction Hrun as [|x y z Hxy Hyz IH]; [done|]. intros Hu. apply IH; [|done].
  assert (wd_log y ⊆ wd_log z) as Hg by (clear -Hyz; induction Hyz as [|? ? ? Hs _ IH]; [done|]; by etrans; [apply log_grows|]).
  destruct Hstart as [Hok Hl]. split; [|by eapply logged_step]. eapply wstep_ok; [done|done| |done]. intros w Hk. destruct (Hu w Hk). set_solver.
Qed.

(** Nobody else runs a call of an undisturbed key, and nobody for a day after its result. *)
Lemma undisturbed_once t s x w1 : rtc wstep (starting t s) x → undisturbed (key_of w1) x → running x w1 →
  (∀ w2, running x w2 → key_of w2 = key_of w1 → w1 = w2) ∧ ∀ t0, (key_of w1, t0) ∈ wd_done x → (t0 + DedupeTTL < wd_now x)%Z.
Proof.
  intros Hrun Hu H1. destruct (reachable_ok _ _ _ _ Hrun Hu) as [Hok Hl]. destruct (running_holds _ _ _ Hl Hu eq_refl H1) as [s1 Hh1]. split.
  - intros w2 H2 E. destruct (running_holds _ _ w2 Hl Hu E H2) as [s2 Hh2]. by eapply (ok_unique _ _ Hok).
  - intros t0 Hin. destruct (ok_done _ _ Hok _ Hin) as [_ Hd]. destruct (Z.le_gt_cases (wd_now x) (t0 + DedupeTTL)) as [Hle|]; [|lia].
    destruct (Hd Hle) as [_ Hno]. by destruct (Hno _ _ Hh1).
Qed.

(** [w] and another worker of its key run together, or [w] runs within 24 hours of a
    result of its key known to be stored. *)
Definition doubled (x : world) (w : nat) : Prop :=
  (∃ w', key_of w' = key_of w ∧ w' ≠ w ∧ running x w')
  ∨ ∃ t0, (key_of w, t0) ∈ wd_done x ∧ (wd_now x ≤ t0 + DedupeTTL)%Z.

Definition slipped (x : world) (w : nat) : Prop := Unclaimed w ∈ wd_log x ∨ Overstayed w ∈ wd_log x.

Lemma doubled_slipped t s x w : rtc wstep (starting t s) x → running x w → doubled x w →
  ∃ w', key_of w' = key_of w ∧ slipped x w'.
Proof.
  intros Hrun Hw Hbad. destruct (decide (Exists (λ e, key_of (mishap_worker e) = key_of w) (wd_log x))) as [He|Hn].
  - apply Exists_exists in He as (e & Hin & He). destruct e as [w'|w']; exists w'; (split; [done|]); [by left|by right].
  - exfalso. assert (undisturbed (key_of w) x) as Hu.
    { intros w' Hk. split; intros Hin; apply Hn, Exists_exists; (eexists; split; [exact Hin|done]). }
    destruct (undisturbed_once _ _ _ _ Hrun Hu Hw) as [Hone Hold]. destruct Hbad as [(w' & Hk & Hne & Hw')|(t0 & Hin & Hle)].
    + destruct Hne. symmetry. by apply Hone.
    + specialize (Hold _ Hin). lia.
Qed.

(** C3: Workers of any number of processes handle tool requests, interleaving their Redis
    commands in any order, failing commands included, crashing at will and taking their
    time.  Then two of them run one approved call at once, or one runs it within 24 hours
    of a result known to be stored, only if a worker of that call ran it without a claim
    (its gate failed open, or had no client) or was still running when its claim had
    lapsed. *)
Theorem at_most_one_execution t s x w : rtc wstep (starting t s) x → running x w →
  (∃ w', tr_business_id (reqs w') = tr_business_id (reqs w) ∧ tr_approval_id (reqs w') = tr_approval_id (reqs w) ∧ w' ≠ w ∧ running x w')
  ∨ (∃ t0, (key_of w, t0) ∈ wd_done x ∧ (wd_now x ≤ t0 + DedupeTTL)%Z) →
  ∃ w', key_of w' = key_of w ∧ (Unclaimed w' ∈ wd_log x ∨ Overstayed w' ∈ wd_log x).
Proof.
  intros Hrun Hw Hbad. eapply doubled_slipped; [done..|]. destruct Hbad as [(w' & Hb & Ha & Hne & Hw')|Hold]; [left|by right].
  exists w'. split_and!; [|done..]. unfold key_of. congruence.
Qed.
End Workers.

Definition demo_req (_ : nat) : ToolRequest := {|
  tr_deadline := None; tr_task_id := "t"; tr_tool := "telegram__post"; tr_args := None;
  tr_business_id := "b1"; tr_request_id := ""; tr_approval_id := "batch-1-call-1" |}.

(** Worker 0 claims the call, worker 1 finds Redis gone and runs it all the same. *)
Definition demo_claimed (script : list fault) : world (Rd := scripted_redis) :=
  set_phase (Rd := scripted_redis) 0 (Executing 0) (<[KeyFor "b1" "batch-1-call-1" := sentinel 0]> ∅, script) [] (starting (Rd := scripted_redis) 0 (∅, FNone :: script)).

Definition failed_open : world (Rd := scripted_redis) :=
  set_phase (Rd := scripted_redis) 1 Unguarded (<[KeyFor "b1" "batch-1-call-1" := sentinel 0]> ∅, []) [Unclaimed 1] (demo_claimed [FBefore]).

Lemma failed_open_reached : rtc (wstep (J := json_text) (Rd := scripted_redis) demo_req) (starting (Rd := scripted_redis) 0 (∅, [FNone; FBefore])) failed_open.
Proof.
  eapply rtc_l; [|apply rtc_once].
  - apply (WClaim (J := json_text) (Rd := scripted_redis) demo_req (starting (Rd := scripted_redis) 0 (∅, [FNone; FBefore])) 0 (Ok true)); [reflexivity|discriminate|reflexivity].
  - apply (WClaim (J := json_text) (Rd := scripted_redis) demo_req (demo_claimed [FBefore]) 1 (Err RedisDown)); [reflexivity|discriminate|reflexivity].
Qed.

Lemma at_most_one_execution_witness :
  running (Rd := scripted_redis) failed_open 0 ∧ running (Rd := scripted_redis) failed_open 1
  ∧ ∃ w', key_of demo_req w' = key_of demo_req 0
      ∧ (Unclaimed w' ∈ wd_log (Rd := scripted_redis) failed_open ∨ Overstayed w' ∈ wd_log (Rd := scripted_redis) failed_open).
Proof.
  split; [exact I|]. split; [exact I|].
  apply (at_most_one_execution (J := json_text) (Rd := scripted_redis) demo_req 0 (∅, [FNone; FBefore]) failed_open 0 failed_open_reached I).
  left. exists 1. split; [reflexivity|]. split; [reflexivity|]. split; [discriminate|exact I].
Defined.

(** ** One worker after another *)

Section Replay.
Context `{J : JsonText} `{Rd : Redis}.

Definition reply_for (req : ToolRequest) (cached : string) : ToolResponse :=
  if String.eqb cached valueExecuting
  then failure (tr_task_id req) "duplicate: already in flight" "transient"
  else match (v ← json_unmarshal cached; dec_response v) with
       | None => failure (tr_task_id req) "duplicate: cached result unavailable" ""
       | Some r => with_task (tr_task_id req) r
       end.

Lemma gate_enabled req : tr_approval_id req ≠ "" →
  negb true || String.eqb (tr_approval_id req) "" = false.
Proof. intros Ha. cbn. by apply String.eqb_neq. Qed.

(** The gate lets a call through when the key is free. *)
Lemma gate_free t1 t2 req s : up s → tr_approval_id req ≠ "" →
  live_cell t1 (KeyFor (tr_business_id req) (tr_approval_id req)) (keys s) = None →
  ∃ s', dedupeGate true t1 t2 req s = (None, s') ∧ up s' ∧
    keys s' = <[KeyFor (tr_business_id req) (tr_approval_id req) := sentinel t1]> (keys s).
Proof.
  intros Hu Ha Hfree. unfold dedupeGate, Claim, claim_begin, se_try.
  rewrite gate_enabled by done. destruct (String.eqb_spec (tr_approval_id req) ""); [done|].
  destruct (redis_do_healthy (cmd_setnx t1 (KeyFor (tr_business_id req) (tr_approval_id req))
    valueExecuting ExecutingTTL) s Hu) as (s1 & -> & Hk & Hu1).
  unfold cmd_setnx in *. rewrite Hfree in *. cbn in *. exists s1. by rewrite Hk.
Qed.

(** It answers from the key's value when the key is taken. *)
Lemma gate_taken t1 t2 req s c : up s → tr_approval_id req ≠ "" →
  live_cell t1 (KeyFor (tr_business_id req) (tr_approval_id req)) (keys s) = Some c →
  live_cell t2 (KeyFor (tr_business_id req) (tr_approval_id req)) (keys s) = Some c →
  ∃ s', dedupeGate true t1 t2 req s = (Some (reply_for req (c_val c)), s') ∧ keys s' = keys s.
Proof.
  intros Hu Ha H1 H2. unfold dedupeGate, Claim, claim_begin, claim_lookup, se_try, reply_for.
  rewrite gate_enabled by done. destruct (String.eqb_spec (tr_approval_id req) ""); [done|].
  destruct (redis_do_healthy (cmd_setnx t1 (KeyFor (tr_business_id req) (tr_approval_id req))
    valueExecuting ExecutingTTL) s Hu) as (s1 & -> & Hk1 & Hu1).
  unfold cmd_setnx in *. rewrite H1 in *. cbn [fst snd] in *.
  destruct (redis_do_healthy (cmd_get t2 (KeyFor (tr_business_id req) (tr_approval_id req)))
    s1 Hu1) as (s2 & -> & Hk2 & _).
  unfold cmd_get in *. rewrite Hk1, H2 in *. cbn [fst snd fmap option_fmap option_map] in *.
  destruct (String.eqb (c_val c) valueExecuting); [by exists s2|].
  unfold se_ret. destruct (json_unmarshal (c_val c) ≫= _); by exists s2.
Qed.

Lemma gate_passed t1 t2 req s : up s → tr_approval_id req ≠ "" → (t1 ≤ t2)%Z →
  (dedupeGate true t1 t2 req s).1 = None →
  ∃ s', dedupeGate true t1 t2 req s = (None, s') ∧ up s' ∧
    keys s' = <[KeyFor (tr_business_id req) (tr_approval_id req) := sentinel t1]> (keys s).
Proof.
  intros Hu Ha Ht Hg.
  destruct (live_cell t1 (KeyFor (tr_business_id req) (tr_approval_id req)) (keys s)) as [c|] eqn:E;
    [|by apply gate_free].
  exfalso. revert Hg. unfold dedupeGate, Claim, claim_begin, claim_lookup, se_try.
  rewrite gate_enabled by done. destruct (String.eqb_spec (tr_approval_id req) ""); [done|].
  destruct (redis_do_healthy (cmd_setnx t1 (KeyFor (tr_business_id req) (tr_approval_id req))
    valueExecuting ExecutingTTL) s Hu) as (s1 & -> & Hk1 & Hu1).
  unfold cmd_setnx. rewrite E. cbn [fst snd].
  destruct (redis_do_healthy (cmd_get t2 (KeyFor (tr_business_id req) (tr_approval_id req)))
    s1 Hu1) as (s2 & -> & _ & _).
  unfold cmd_get, se_ret. cbn [fst snd]. intros Hg. by repeat (destr_in Hg; simplify_eq/=).
Qed.

Lemma store_healthy t req r s : up s → tr_approval_id req ≠ "" →
  let s' := dedupeStore true t req (Some r) None s in
  up s' ∧ keys s' = <[KeyFor (tr_business_id req) (tr_approval_id req) :=
    {| c_val := json_marshal (enc_response r); c_exp := Some (t + DedupeTTL)%Z |}]> (keys s).
Proof.
  intros Hu Ha. unfold dedupeStore, Store, se_try. rewrite gate_enabled by done.
  destruct (String.eqb_spec (tr_approval_id req) ""); [done|].
  destruct (redis_do_healthy (cmd_set t (KeyFor (tr_business_id req) (tr_approval_id req))
    (json_marshal (enc_response r)) DedupeTTL) s Hu) as (s1 & -> & Hk & Hu1). done.
Qed.

(** Releasing one's own sentinel, or one that has lapsed, frees the key. *)
Lemma release_healthy t t0 b a s : up s → a ≠ "" → (t0 ≤ t)%Z →
  keys s !! KeyFor b a = Some (sentinel t0) →
  ∃ s', Release t b a s = (Ok tt, s') ∧ up s' ∧
    ∀ t', (t ≤ t')%Z → live_cell t' (KeyFor b a) (keys s') = None.
Proof.
  intros Hu Ha Ht Hc. unfold Release, se_try. destruct (String.eqb_spec a ""); [done|].
  destruct (redis_do_healthy (releaseSentinelScript t (KeyFor b a) valueExecuting) s Hu)
    as (s1 & -> & Hk & Hu1).
  unfold releaseSentinelScript, se_bind, cmd_get in *. cbn beta iota in *.
  destruct (live_cell t (KeyFor b a) (keys s)) as [c|] eqn:E.
  - assert (c = sentinel t0) as -> by (apply live_cell_lookup in E; congruence).
    cbn in *. exists s1. split; [done|]. split; [done|]. intros t' _. rewrite Hk. apply live_delete_eq.
  - cbn in Hk. cbn. exists s1. split; [done|]. split; [done|]. intros t' Ht'. rewrite Hk.
    destruct (live_cell t' (KeyFor b a) (keys s)) as [c|] eqn:E'; [|done].
    apply (live_cell_earlier t) in E'; [|done]. congruence.
Qed.

Lemma dedupeStore_failed t req resp err s :
  (∀ r, resp = Some r → err ≠ None) → tr_approval_id req ≠ "" →
  dedupeStore true t req resp err s = (Release t (tr_business_id req) (tr_approval_id req) s).2.
Proof.
  intros Hf Ha. unfold dedupeStore. rewrite gate_enabled by done.
  destruct resp as [r|], err; try done. by specialize (Hf r eq_refl).
Qed.
End Replay.

Section Dispatching.
Context `{J : JsonText} `{Rd : Redis} {W : Type}.
Implicit Types (exec : Exec (W:=W)) (w : W).

Lemma dispatch_passed cls clk req exec s s1 w :
  dedupeGate true (at_claim clk) (at_lookup clk) req s = (None, s1) →
  Dispatch true cls clk req exec (s, w) =
  match exec req w with
  | (Panicked, w') => (Panicked, (s1, w'))
  | (Returned resp err, w') =>
      (Returned resp (classify cls err),
       (dedupeStore true (at_store clk) req resp (classify cls err) s1, w'))
  end.
Proof. intros Hg. unfold Dispatch. by rewrite Hg. Qed.

Lemma dispatch_stopped cls clk req exec s s1 w r :
  dedupeGate true (at_claim clk) (at_lookup clk) req s = (Some r, s1) →
  Dispatch true cls clk req exec (s, w) = (Returned (Some r) None, (s1, w)).
Proof. intros Hg. unfold Dispatch. by rewrite Hg. Qed.

Lemma dispatch_passed_runs cls clk req exec s s1 w :
  dedupeGate true (at_claim clk) (at_lookup clk) req s = (None, s1) →
  (Dispatch true cls clk req exec (s, w)).2.2 = (exec req w).2.
Proof. intros Hg. rewrite (dispatch_passed _ _ _ _ _ s1) by done. by destruct (exec req w) as [[] ?]. Qed.
End Dispatching.

Section Sequential.
Context `{J : JsonText} `{Rd : Redis} {W : Type}.
Variables (cls : option (option goerr → option goerr)) (clk1 clk2 : instants)
          (req1 req2 : ToolRequest) (exec1 exec2 : Exec (W:=W)) (s : rdb) (w : W).
Hypothesis Hup : up s.
Hypothesis Happroval : tr_approval_id req1 ≠ "".
Hypothesis Hsame_b : tr_business_id req2 = tr_business_id req1.
Hypothesis Hsame_a : tr_approval_id req2 = tr_approval_id req1.
Hypothesis Hgate : (dedupeGate true (at_claim clk1) (at_lookup clk1) req1 s).1 = None.
Hypothesis Horder : (at_claim clk1 ≤ at_lookup clk1 ∧ at_lookup clk1 ≤ at_store clk1 ∧
  at_store clk1 ≤ at_claim clk2 ∧ at_claim clk2 ≤ at_lookup clk2)%Z.

Let first := Dispatch true cls clk1 req1 exec1 (s, w).
Let second := Dispatch true cls clk2 req2 exec2 first.2.

Lemma approval2 : tr_approval_id req2 ≠ "".
Proof using Happroval Hsame_a. by rewrite Hsame_a. Qed.

(** A tool call that went through the gate of a reachable Redis and came back
    with a response is answered, when redelivered within 24 hours, with that same
    response under the new task id, and the tool does not run again.  One that
    failed (error or no response) runs again when redelivered.  One whose tool
    panicked is refused as in flight until the executing window lapses. *)
Theorem redelivery :
  match exec1 req1 w with
  | (Panicked, w1) =>
      (at_lookup clk2 ≤ at_claim clk1 + ExecutingTTL)%Z →
      second.1 = Returned (Some (failure (tr_task_id req2) "duplicate: already in flight" "transient")) None
      ∧ second.2.2 = w1
  | (Returned resp err, w1) =>
      match resp, classify cls err with
      | Some r, None =>
          (at_lookup clk2 ≤ at_store clk1 + DedupeTTL)%Z →
          second.1 = Returned (Some (with_task (tr_task_id req2) (norm_response r))) None
          ∧ second.2.2 = w1
      | _, _ => second.2.2 = (exec2 req2 w1).2
      end
  end.
Proof using All.
  pose proof approval2 as Ha2.
  destruct (gate_passed _ _ _ _ Hup Happroval (proj1 Horder) Hgate) as (s1 & Hg1 & Hu1 & Hk1).
  subst second first. rewrite (dispatch_passed _ _ _ _ _ s1) by done.
  destruct (exec1 req1 w) as [[resp err|] w1] eqn:Eexec; cbn [snd].
  - assert ((∀ r, resp = Some r → classify cls err ≠ None) ∨
      ∃ r, resp = Some r ∧ classify cls err = None) as [Hfail|(r & -> & Hc)].
    { destruct resp as [r|]; [|by left]. destruct (classify cls err); [by left|right; eauto]. }
    + rewrite dedupeStore_failed by done.
      destruct (release_healthy (at_store clk1) (at_claim clk1) (tr_business_id req1)
        (tr_approval_id req1) s1) as (s2 & -> & Hu2 & Hfree);
        [done|done|lia|by rewrite Hk1, lookup_insert_eq|].
      destruct (gate_free (at_claim clk2) (at_lookup clk2) req2 s2) as (s3 & Hg3 & _);
        [done|done|rewrite Hsame_b, Hsame_a; apply Hfree; lia|].
      rewrite (dispatch_passed_runs _ _ _ _ _ _ _ Hg3).
      destruct resp as [r|]; [|done]. destruct (classify cls err) eqn:Ec; [done|].
      by destruct (Hfail r eq_refl).
    + rewrite Hc. intros Hwin. destruct (store_healthy (at_store clk1) req1 r s1 Hu1 Happroval) as [Hu2 Hk2].
      destruct (gate_taken (at_claim clk2) (at_lookup clk2) req2 (dedupeStore true (at_store clk1) req1
        (Some r) None s1) {| c_val := json_marshal (enc_response r);
                             c_exp := Some (at_store clk1 + DedupeTTL)%Z |} Hu2 Ha2) as (s3 & Hg & _);
        [rewrite Hk2, Hsame_b, Hsame_a; apply live_insert_eq; apply Z.leb_le; lia..|].
      rewrite (dispatch_stopped _ _ _ _ _ _ _ _ Hg). split; [|done]. cbn. unfold reply_for.
      rewrite (proj2 (String.eqb_neq _ _)) by apply marshalled_struct_not_executing.
      by rewrite decode_marshalled_response.
  - intros Hwin.
    destruct (gate_taken (at_claim clk2) (at_lookup clk2) req2 s1 (sentinel (at_claim clk1)) Hu1 Ha2)
      as (s3 & Hg & _);
      [rewrite Hk1, Hsame_b, Hsame_a; apply live_insert_eq; apply Z.leb_le; lia..|].
    by rewrite (dispatch_stopped _ _ _ _ _ _ _ _ Hg).
Qed.
End Sequential.

Definition ok_exec : Exec (W:=nat) := λ req n, (Returned (Some (OK_response req None)) None, S n).

Definition at_time (t : Z) : instants := {| at_claim := t; at_lookup := t; at_store := t |}.

Lemma redelivery_witness :
  let req2 := {| tr_deadline := None; tr_task_id := "t2"; tr_tool := "telegram__post"; tr_args := None;
                 tr_business_id := "b1"; tr_request_id := ""; tr_approval_id := "batch-1-call-1" |} in
  let first := Dispatch (J:=json_text) (Rd:=scripted_redis) true None (at_time 0) (demo_req 0) ok_exec ((∅, []), 0) in
  let second := Dispatch (J:=json_text) (Rd:=scripted_redis) true None (at_time Hour) req2 ok_exec first.2 in
  second.1 = Returned (Some (with_task "t2" (OK_response (demo_req 0) None))) None ∧ second.2.2 = 1.
Proof.
  intros req2 first second.
  apply (redelivery (J:=json_text) (Rd:=scripted_redis) None (at_time 0) (at_time Hour) (demo_req 0) req2
    ok_exec ok_exec (∅, []) 0); try reflexivity; try discriminate.
  repeat split; vm_compute; discriminate.
Defined.

Section Stale.
Context `{Rd : Redis}.

(** A worker that outlived its executing window and then failed frees, with
    its release, the claim of the worker that took over: a third worker claims the
    same call while the second is still inside its own window. *)
Theorem stale_release_frees_successor b a t0 t1 t2 t3 s s1 :
  up s → a ≠ "" → (t0 + ExecutingTTL < t1)%Z → (t1 ≤ t2)%Z → (t2 ≤ t3)%Z → (t3 ≤ t1 + ExecutingTTL)%Z →
  claim_begin t0 b a s = (Ok true, s1) →
  ∃ s2 s3 s4,
    claim_begin t1 b a s1 = (Ok true, s2) ∧
    Release t2 b a s2 = (Ok tt, s3) ∧
    claim_begin t3 b a s3 = (Ok true, s4) ∧
    live_cell t3 (KeyFor b a) (keys s2) = Some (sentinel t1).
Proof.
  intros Hu Ha H01 H12 H23 H31 Hc.
  assert (up s1) as Hu1.
  { pose proof (redis_do_up (cmd_setnx t0 (KeyFor b a) valueExecuting ExecutingTTL) s Hu) as Hs.
    unfold claim_begin in Hc. rewrite Hc in Hs. tauto. }
  apply claim_begin_ok in Hc as [_ Hk1].
  destruct (redis_do_healthy (cmd_setnx t1 (KeyFor b a) valueExecuting ExecutingTTL) s1 Hu1)
    as (s2 & E2 & Hk2 & Hu2).
  assert (live_cell t1 (KeyFor b a) (keys s1) = None) as Hdead.
  { rewrite Hk1. unfold live_cell. rewrite lookup_insert_eq. unfold cell_live. cbn.
    destruct (Z.leb_spec t1 (t0 + ExecutingTTL)); [lia|done]. }
  unfold cmd_setnx in E2, Hk2. rewrite Hdead in E2, Hk2. cbn in E2, Hk2.
  destruct (release_healthy t2 t1 b a s2) as (s3 & E3 & Hu3 & Hfree);
    [done|done|done|by rewrite Hk2, lookup_insert_eq|].
  destruct (redis_do_healthy (cmd_setnx t3 (KeyFor b a) valueExecuting ExecutingTTL) s3 Hu3)
    as (s4 & E4 & Hk4 & Hu4).
  unfold cmd_setnx in E4. rewrite (Hfree t3) in E4 by done. cbn in E4.
  exists s2, s3, s4. split; [exact E2|]. split; [exact E3|]. split; [exact E4|].
  rewrite Hk2. apply live_insert_eq. apply Z.leb_le. lia.
Qed.
End Stale.

Lemma stale_release_witness :
  ∃ s2 s3 s4,
    claim_begin (Rd:=scripted_redis) (301 * Second) "b" "a" (<[KeyFor "b" "a" := sentinel 0]> ∅, []) = (Ok true, s2) ∧
    Release (Rd:=scripted_redis) (302 * Second) "b" "a" s2 = (Ok tt, s3) ∧
    claim_begin (Rd:=scripted_redis) (303 * Second) "b" "a" s3 = (Ok true, s4) ∧
    live_cell (303 * Second) (KeyFor "b" "a") (keys s2) = Some (sentinel (301 * Second)).
Proof.
  apply (stale_release_frees_successor (Rd:=scripted_redis) "b" "a" 0 (301 * Second) (302 * Second)
    (303 * Second) (∅, [])); try reflexivity; try discriminate.
Defined.

(** Different calls never share a key: a business id (a UUID's text) holds no
    colon. *)
Lemma KeyFor_inj b1 a1 b2 a2 : str_has ":" b1 = false → str_has ":" b2 = false →
  KeyFor b1 a1 = KeyFor b2 a2 → b1 = b2 ∧ a1 = a2.
Proof.
  unfold KeyFor. intros H1 H2 Heq. repeat (injection Heq as Heq).
  apply (f_equal (split_on ":")) in Heq as Hs.
  change (":" +:+ a1)%string with (String ":" a1) in *. change (":" +:+ a2)%string with (String ":" a2) in *.
  rewrite !split_on_app in Hs by done. injection Hs as Hb Ha. subst b2. split; [done|].
  clear Ha. induction b1 as [|c b1 IH]; cbn in *; [by injection Heq|].
  case_decide; [done|]. injection Heq as Heq. by apply IH.
Qed.
