(* ===== verification/ReviewSystem.v ===== *)
(** * Reviews under concurrent operations

    Any number of the operations of ReviewService.v and of the platform syncs
    interleaved call by call over one review collection, each of which may crash and
    whose database calls may fail before or after their effect, together with the
    chat turn's own ingestion of reviews (Postal.v), but without replies sent from a
    chat, which bring an approval id of their own.  The requests they send are then
    handled by the agents' workers of Dedupe.v. *)

From S2P Require Import Prelude Json GoTime Runes Types Tools Policy Authz Mongo TaskStore PostStore ReviewStore ChatWorld Postal A2A Prog Dispatch ReviewRules ReviewService ReviewSafety Redis Dedupe.
Local Open Scope go_scope.

Section system.
Context {CR : Coll Review rv_id} {U : UUIDText} {J : JsonText}.
Variables (deps : ReviewDeps) (fold_question to_lower normalize : string → string) (svc_text : ServiceError → string)
  (voice : gomap → string) (yandex_published : gomap → Z → option Z) (format_rfc3339 : Z → string).

Record RStore := {
  rs_reviews : @coll Review rv_id CR;
  rs_sent : list (string * ToolRequest);
}.

Definition with_reviews (c : @coll Review rv_id CR) (s : RStore) : RStore :=
  {| rs_reviews := c; rs_sent := rs_sent s |}.
Definition log_sent (subject : string) (req : ToolRequest) (s : RStore) : RStore :=
  {| rs_reviews := rs_reviews s; rs_sent := (subject, req) :: rs_sent s |}.

(** A method of the repository answers [r] and leaves its collection. *)
Definition on_rows {A} (m : SE (@coll Review rv_id CR) ReviewError A) (s : RStore) (r : result ReviewError A)
    (s' : RStore) : Prop :=
  let o := m (rs_reviews s) in r = o.1 ∧ s' = with_reviews o.2 s.

(** One call answered [b]. *)
Definition review_step {B} (c : ReviewCall B) : RStore → B → RStore → Prop :=
  match c in ReviewCall B return RStore → B → RStore → Prop with
  | GetReviewC id => on_rows (GetReview id)
  | UpdateReplyC id text status feedback => λ s r s', ∃ now, on_rows (UpdateReply now id text status feedback) s r s'
  | UpdateReplyDispatchedC id text status approval => λ s r s', ∃ now,
      on_rows (UpdateReplyDispatched now id text status approval) s r s'
  | SkipPendingC biz id => on_rows (SkipPending biz id)
  | PrepareRegenerationC biz id => on_rows (PrepareRegeneration biz id)
  | ListPendingC biz platform limit => on_rows (ListPendingWithoutDraft biz platform limit)
  | ListExamplesC biz platform limit => on_rows (ListRepliedExamples normalize biz platform limit)
  | ListDeferredC biz platform limit => λ s r s', ∃ now, on_rows (ListDeferredAutoReplies now biz platform limit) s r s'
  | SetDeferredC biz id deferred => on_rows (SetAutoReplyDeferred biz id deferred)
  | ClaimDraftC id => on_rows (ClaimDraftForGenerating id)
  | UpdateDraftC id draft status err needs => λ s r s', ∃ now, on_rows (UpdateDraft now id draft status err needs) s r s'
  | BulkUpsertC l => λ s r s', ∃ ids, on_rows (BulkUpsert ids l) s r s'
  | AgentC subject req => λ s _ s', s' = log_sent subject req s
  | _ => λ s _ s', s' = s
  end.

(** The chat turn ingests the reviews its tools return. *)
Inductive review_env (s : RStore) : RStore → Prop :=
| env_upsert newID review : review_env s (with_reviews (Upsert newID review (rs_reviews s)).2 s).

(** The operations a process may run. *)
Inductive review_op : prog unit → Prop :=
| op_reply ctx biz id text : review_op (forget (Reply deps ctx biz id text))
| op_retry ctx biz id : review_op (forget (RetryReply deps ctx biz id))
| op_skip biz id : review_op (forget (Skip biz id))
| op_bulk ctx biz ids : review_op (forget (BulkApprove deps svc_text ctx biz ids))
| op_draft ctx biz ids :
    review_op (forget (BatchDraft deps fold_question to_lower svc_text voice ctx biz ids))
| op_regenerate ctx biz id :
    review_op (forget (Regenerate deps fold_question to_lower svc_text voice ctx biz id))
| op_sync ctx biz platform :
    review_op (forget (syncOne deps fold_question to_lower voice yandex_published format_rfc3339 ctx biz platform)).

(** ** What never changes of a row *)

Record same_review (r r' : Review) : Prop := {
  sr_id : rv_id r' = rv_id r;
  sr_business : rv_business_id r' = rv_business_id r;
  sr_platform : rv_platform r' = rv_platform r;
  sr_external : rv_external_id r' = rv_external_id r;
  sr_key : manualReplyApprovalID r' = manualReplyApprovalID r;
}.

#[export] Instance same_review_preorder : PreOrder same_review.
Proof.
  split; [by intros r|]. intros a b c [H1 H2 H3 H4 H5] [K1 K2 K3 K4 K5]. split; congruence.
Qed.

Definition row_kept (o o' : option Review) : Prop :=
  match o with Some r => ∃ r', o' = Some r' ∧ same_review r r' | None => True end.

#[export] Instance row_kept_preorder : PreOrder row_kept.
Proof.
  split; [by intros [r|]; [exists r|]|]. intros [a|] y z; [|done]. intros (b & -> & Hb) (c & -> & Hc).
  exists c. split; [done|]. by etrans.
Qed.

(** Every update but the reply's own leaves these fields alone. *)
Lemma kept_fields r r' :
  rv_id r' = rv_id r → rv_business_id r' = rv_business_id r → rv_platform r' = rv_platform r →
  rv_external_id r' = rv_external_id r → rv_dispatch_approval_id r' = rv_dispatch_approval_id r →
  row_kept (Some r) (Some r').
Proof.
  intros H1 H2 H3 H4 H5. exists r'. split; [done|]. split; [done..|]. unfold manualReplyApprovalID. by rewrite H1, H5.
Qed.

Lemma kept_reply now text status approval feedback r :
  approval = "" ∨ approval = manualReplyApprovalID r →
  row_kept (Some r) (Some (reply_update now text status approval feedback r)).
Proof.
  intros Ha. eexists. split; [reflexivity|].
  assert (∀ x : Review, manualReplyApprovalID (rv_clear_draft x) = manualReplyApprovalID x) as Hc by done.
  unfold reply_update. cbn zeta.
  assert (∀ replied acc dist, manualReplyApprovalID (rv_reply text status
    (if String.eqb approval "" then rv_dispatch_approval_id r else approval) replied acc dist r)
    = manualReplyApprovalID r) as Hk.
  { intros replied acc dist. unfold manualReplyApprovalID. cbn. destruct (String.eqb_spec approval "") as [->|Hn]; [done|].
    destruct Ha as [->| ->]; [done|]. destruct (String.eqb_spec (manualReplyApprovalID r) "") as [|_]; [done|].
    unfold manualReplyApprovalID. by destruct (negb (String.eqb (rv_dispatch_approval_id r) "")). }
  destruct (String.eqb status ReviewReplyStatusError); (split; [done..|]); rewrite ?Hc; apply Hk.
Qed.

Lemma kept_update_reply now id text status approval feedback c :
  approval = "" ∨ (∀ r, docs c !! id = Some r → approval = manualReplyApprovalID r) →
  ∀ k, row_kept (docs c !! k) (docs (updateReply now id text status approval feedback c).2 !! k).
Proof.
  intros Ha k. unfold updateReply, se_try.
  pose proof (updateOne_spec id (λ _, true) (reply_update now text status approval feedback) c) as Hu.
  destruct (updateOne id _ _ c) as [r c'].
  assert (docs c' = docs c ∨ docs c' = upd_one id (λ _, true) (reply_update now text status approval feedback) (docs c)) as Hd.
  { destruct r; [destruct Hu as [_ Hu]; by right|done]. }
  replace (docs (match r with Ok false => se_err ErrReviewNotFound | Ok true => se_ret tt
    | Err _ => se_err (ErrReviewDriver "update review reply") end c').2) with (docs c') by (by destruct r as [[]|]).
  destruct Hd as [-> | ->]; [reflexivity|]. rewrite upd_one_lookup. case_decide as Hk; [|reflexivity]. subst k.
  destruct (docs c !! id) as [r0|] eqn:E; [|done]. cbn. apply kept_reply. destruct Ha as [->|Ha]; [by left|right; by apply Ha].
Qed.

(** A step of row [id]: kept if it was there, and keyed by its id if new. *)
Definition keyed (id : string) (o : option Review) : Prop := ∀ r, o = Some r → rv_id r = id.
Definition row_ok (id : string) (o o' : option Review) : Prop := row_kept o o' ∧ (keyed id o → keyed id o').

#[export] Instance row_ok_preorder id : PreOrder (row_ok id).
Proof.
  split; [intros o; by split|]. intros a b c [H1 K1] [H2 K2]. split; [by etrans|auto].
Qed.

Lemma row_ok_some id r r' : row_kept (Some r) (Some r') → row_ok id (Some r) (Some r').
Proof.
  intros Hk. split; [done|]. destruct Hk as (x & [= <-] & Hs). intros Hr y [= <-].
  rewrite (sr_id _ _ Hs). by apply Hr.
Qed.

Lemma row_ok_fields id r r' :
  rv_id r' = rv_id r → rv_business_id r' = rv_business_id r → rv_platform r' = rv_platform r →
  rv_external_id r' = rv_external_id r → rv_dispatch_approval_id r' = rv_dispatch_approval_id r →
  row_ok id (Some r) (Some r').
Proof. intros. apply row_ok_some. by apply kept_fields. Qed.

Lemma answer_row_new id r : rv_id r = id → row_ok id None (Some r).
Proof. intros Hr. split; [done|]. by intros _ x [= <-]. Qed.

Notation moves id m := (steps (row_ok id) id m).

(** A write that touches only other fields. *)
Ltac other_fields := intros; apply row_ok_fields; try done.

Lemma upsert_update_ok id review r : row_ok id (Some r) (Some (upsert_update review r)).
Proof. other_fields; unfold upsert_update; cbn zeta; by destruct (String.eqb _ ReviewReplyStatusReplied). Qed.

Lemma moves_upsert id newID review : moves id (upsert_one newID review).
Proof.
  unfold upsert_one. step_calls; [apply upsert_update_ok|by apply answer_row_new].
Qed.

Lemma moves_bulk id models failed c :
  row_ok id (docs c !! id) (docs (bulk_write models failed c).2 !! id).
Proof.
  revert failed c. induction models as [|[newID review] models IH]; intros failed c; [reflexivity|].
  cbn [bulk_write]. unfold st_bind. pose proof (moves_upsert id newID review c) as Hm.
  destruct (upsert_one newID review c) as [r c']. etrans; [exact Hm|apply IH].
Qed.

Lemma moves_bulk_upsert id ids l : moves id (BulkUpsert ids l).
Proof.
  intros c. unfold BulkUpsert, st_bind. pose proof (moves_bulk id (imap (λ i r, (ids i, r)) (dedupe_reviews [] [] l)) false c) as Hm.
  destruct (bulk_write _ _ c) as [[] c']; exact Hm.
Qed.

Lemma moves_read id x : moves id (GetReview x).
Proof. unfold GetReview. step_calls. Qed.

Lemma moves_pending id biz platform limit : moves id (ListPendingWithoutDraft biz platform limit).
Proof. unfold ListPendingWithoutDraft. destruct limit; step_calls. Qed.

Lemma moves_deferred_list id now biz platform limit : moves id (ListDeferredAutoReplies now biz platform limit).
Proof. unfold ListDeferredAutoReplies. destruct limit; step_calls. Qed.

Lemma moves_examples id biz platform limit : moves id (ListRepliedExamples normalize biz platform limit).
Proof. unfold ListRepliedExamples. destruct limit; step_calls. Qed.

Lemma moves_skip id biz x : moves id (SkipPending biz x).
Proof. unfold SkipPending. step_calls. other_fields. Qed.

Lemma moves_prepare id biz x : moves id (PrepareRegeneration biz x).
Proof. unfold PrepareRegeneration. step_calls. other_fields. Qed.

Lemma moves_set_deferred id biz x b : moves id (SetAutoReplyDeferred biz x b).
Proof. unfold SetAutoReplyDeferred. step_calls. other_fields. Qed.

Lemma moves_claim id x : moves id (ClaimDraftForGenerating x).
Proof. unfold ClaimDraftForGenerating. step_calls. other_fields. Qed.

Lemma moves_update_draft id now x draft status err needs : moves id (UpdateDraft now x draft status err needs).
Proof. unfold UpdateDraft. step_calls. other_fields; unfold finish_draft; by destruct (String.eqb status _). Qed.

Lemma moves_update_reply id now x text status approval feedback c :
  approval = "" ∨ (∀ r, docs c !! x = Some r → approval = manualReplyApprovalID r) →
  row_ok id (docs c !! id) (docs (updateReply now x text status approval feedback c).2 !! id).
Proof.
  intros Ha. pose proof (kept_update_reply now x text status approval feedback c Ha id) as Hk. split; [done|].
  intros Hid r' Hr'. destruct (docs c !! id) as [r|] eqn:E.
  - destruct Hk as (y & Hy & Hs). rewrite Hy in Hr'. injection Hr' as <-. rewrite (sr_id _ _ Hs). by apply Hid.
  - exfalso. revert Hr'. unfold updateReply, se_try.
    pose proof (updateOne_spec x (λ _, true) (reply_update now text status approval feedback) c) as Hu.
    destruct (updateOne x _ _ c) as [r c'].
    replace (docs (match r with Ok false => se_err ErrReviewNotFound | Ok true => se_ret tt
      | Err _ => se_err (ErrReviewDriver "update review reply") end c').2) with (docs c') by (by destruct r as [[]|]).
    assert (docs c' !! id = None) as ->; [|done].
    assert (docs c' = docs c ∨ docs c' = upd_one x (λ _, true) (reply_update now text status approval feedback) (docs c)) as [-> | ->].
    { destruct r; [destruct Hu as [_ Hu]; by right|done]. }
    + done.
    + rewrite upd_one_lookup. case_decide; [subst; by rewrite E|done].
Qed.

(** ** The invariant *)

(** The row as [r] was read still stands, under the same approval key. *)
Definition stored (s : RStore) (r : Review) : Prop :=
  ∃ r', docs (rs_reviews s) !! rv_id r = Some r' ∧ same_review r r'.

(** A request is a fetch, or a reply to a review that stands. *)
Definition accounted (s : RStore) (m : string * ToolRequest) : Prop :=
  tr_approval_id m.2 = "" ∨ ∃ r text, stored s r ∧ reply_to r text m.1 m.2.

(** What a process holds: the reviews it has read. *)
Record rsafe (s : RStore) (hs : list (list Review)) : Prop := {
  rs_keyed : ∀ id, keyed id (docs (rs_reviews s) !! id);
  rs_known : ∀ i h r, hs !! i = Some h → r ∈ h → stored s r;
  rs_accounted : Forall (accounted s) (rs_sent s);
}.

Definition review_spec B (c : ReviewCall B) : list Review → (B → list Review → Prop) → Prop :=
  match c in ReviewCall B return list Review → (B → list Review → Prop) → Prop with
  | GetReviewC id => λ h K,
      (∀ e, K (Err e) h) ∧ ∀ r, rv_id r = id → K (Ok r) (r :: h)
  | UpdateReplyDispatchedC id text status approval => λ h K,
      (∃ r, r ∈ h ∧ rv_id r = id ∧ approval = manualReplyApprovalID r) ∧ ∀ b, K b h
  | AgentC subject req => λ h K,
      (tr_approval_id req = "" ∨ ∃ r text, r ∈ h ∧ reply_to r text subject req) ∧ ∀ b, K b h
  | _ => λ h K, ∀ b, K b h
  end.

Lemma review_spec_mono : monotone review_spec.
Proof. intros B c h K K' HK. destruct c; cbn; intuition. Qed.

Lemma rows_safe s hs c' :
  rsafe s hs → (∀ id, row_ok id (docs (rs_reviews s) !! id) (docs c' !! id)) → rsafe (with_reviews c' s) hs.
Proof.
  intros [Hk Hn Ha] Hrows.
  assert (∀ r, stored s r → stored (with_reviews c' s) r) as Hst.
  { intros r (r1 & Hr1 & Hs). destruct (Hrows (rv_id r)) as [Hkept _]. rewrite Hr1 in Hkept.
    destruct Hkept as (r2 & Hr2 & Hs2). exists r2. split; [done|by etrans]. }
  split; cbn.
  - intros id. by apply (Hrows id).
  - intros i h r Hi Hr. by eapply Hst, Hn.
  - eapply Forall_impl; [exact Ha|]. intros m [Hm|(r & text & Hr & Hm)]; [by left|right]. eauto.
Qed.

Lemma rows_safe_at {A} (m : SE (@coll Review rv_id CR) ReviewError A) s b s' hs i h (K : result ReviewError A → list Review → Prop) :
  rsafe s hs → hs !! i = Some h → (∀ id, row_ok id (docs (rs_reviews s) !! id) (docs (m (rs_reviews s)).2 !! id)) →
  (∀ b, K b h) → on_rows m s b s' → ∃ h', K b h' ∧ rsafe s' (<[i := h']> hs).
Proof.
  intros Hs Hi Hrows HK [-> ->]. exists h. split; [apply HK|]. rewrite list_insert_id by done. by apply rows_safe.
Qed.

Lemma get_review_reads id c r : (GetReview id c).1 = Ok r → docs c !! id = Some r.
Proof.
  unfold GetReview, se_try. pose proof (findOne_spec id c) as Hf.
  destruct (findOne id c) as [[[x|]|e] c']; cbn; try done. intros [= <-]. by destruct Hf as [<- _].
Qed.

Lemma known_more s hs i h r :
  rsafe s hs → hs !! i = Some h → stored s r → rsafe s (<[i := r :: h]> hs).
Proof.
  intros [Hk Hn Ha] Hi Hr. split; [done| |done]. intros j h' x Hj Hx.
  apply list_lookup_insert_Some in Hj as [(_ & <- & _)|[_ Hj]]; [|by eapply Hn].
  apply elem_of_cons in Hx as [->|Hx]; [done|by eapply Hn].
Qed.

Lemma same_keyed s hs r : rsafe s hs → stored s r →
  ∀ x, docs (rs_reviews s) !! rv_id r = Some x → manualReplyApprovalID r = manualReplyApprovalID x.
Proof. intros _ (r' & Hr' & Hs) x Hx. rewrite Hr' in Hx. injection Hx as <-. symmetry. apply Hs. Qed.

Lemma rsafe_reply s hs i h id now text status approval (K : result ReviewError unit → list Review → Prop) :
  rsafe s hs → hs !! i = Some h →
  approval = "" ∨ (∃ r, r ∈ h ∧ rv_id r = id ∧ approval = manualReplyApprovalID r) → (∀ b, K b h) →
  ∀ feedback b s', on_rows (updateReply now id text status approval feedback) s b s' →
  ∃ h', K b h' ∧ rsafe s' (<[i := h']> hs).
Proof.
  intros Hs Hi Ha HK feedback b s' Hon. eapply (rows_safe_at _ _ _ _ _ _ _ _ Hs Hi); [|exact HK|exact Hon].
  intros k. apply moves_update_reply. destruct Ha as [->|(r & Hr & <- & ->)]; [by left|right].
  intros x Hx. eapply same_keyed; [exact Hs| |exact Hx]. by eapply rs_known.
Qed.

Lemma rsafe_call B (c : ReviewCall B) s b s' hs i h (K : B → list Review → Prop) :
  rsafe s hs → hs !! i = Some h → review_spec B c h K → review_step c s b s' →
  ∃ h', K b h' ∧ rsafe s' (<[i := h']> hs).
Proof.
  intros Hs Hi Hspec Hstep.
  destruct c; cbn [review_spec review_step] in Hspec, Hstep;
    try (subst s'; exists h; split; [apply Hspec|by rewrite list_insert_id]).
  - destruct Hstep as [-> ->], Hspec as [Herr Hok]. pose proof (get_review_reads id (rs_reviews s)) as Hg.
    assert (rsafe (with_reviews (GetReview id (rs_reviews s)).2 s) hs) as Hs'.
    { apply rows_safe; [done|]. intros k. apply moves_read. }
    destruct (GetReview id (rs_reviews s)) as [[r|e] c'] eqn:E; cbn [fst snd] in *.
    + exists (r :: h). specialize (Hg r eq_refl). pose proof (rs_keyed _ _ Hs id _ Hg) as Hid. split; [by apply Hok|].
      apply known_more; [done|done|]. pose proof (moves_read id id (rs_reviews s)) as [Hm _].
      rewrite E in Hm. cbn [snd] in Hm. rewrite Hg in Hm. by unfold stored; rewrite Hid.
    + exists h. split; [apply Herr|by rewrite list_insert_id].
  - destruct Hstep as [now Hstep]. eapply rsafe_reply; [exact Hs|exact Hi|by left|exact Hspec|exact Hstep].
  - destruct Hstep as [now Hstep], Hspec as [Hr HK]. eapply rsafe_reply; [exact Hs|exact Hi|right; exact Hr|exact HK|exact Hstep].
  - by eapply (rows_safe_at _ _ _ _ _ _ _ _ Hs Hi (λ k, moves_skip k _ _ _)).
  - by eapply (rows_safe_at _ _ _ _ _ _ _ _ Hs Hi (λ k, moves_prepare k _ _ _)).
  - by eapply (rows_safe_at _ _ _ _ _ _ _ _ Hs Hi (λ k, moves_pending k _ _ _ _)).
  - by eapply (rows_safe_at _ _ _ _ _ _ _ _ Hs Hi (λ k, moves_examples k _ _ _ _)).
  - destruct Hstep as [now Hstep]. by eapply (rows_safe_at _ _ _ _ _ _ _ _ Hs Hi (λ k, moves_deferred_list k _ _ _ _ _)).
  - by eapply (rows_safe_at _ _ _ _ _ _ _ _ Hs Hi (λ k, moves_set_deferred k _ _ _ _)).
  - by eapply (rows_safe_at _ _ _ _ _ _ _ _ Hs Hi (λ k, moves_claim k _ _)).
  - destruct Hstep as [now Hstep]. by eapply (rows_safe_at _ _ _ _ _ _ _ _ Hs Hi (λ k, moves_update_draft k _ _ _ _ _ _ _)).
  - destruct Hstep as [ids Hstep]. by eapply (rows_safe_at _ _ _ _ _ _ _ _ Hs Hi (λ k, moves_bulk_upsert k _ _ _)).
  - subst s'. destruct Hspec as [Hreq HK]. exists h. split; [apply HK|]. rewrite list_insert_id by done.
    destruct Hs as [Hk Hn Ha]. split; [done|exact Hn|]. constructor; [|exact Ha].
    destruct Hreq as [Hreq|(r & text & Hr & Hreq)]; [by left|right]. exists r, text. split; [by eapply Hn|done].
Qed.

(** ** The operations keep to the rules *)

Notation fine p h := (wp review_spec p (λ _ _, True) h).

Lemma fine_bind {A B} (p : prog A) (f : A → prog B) h :
  wp review_spec p (λ a h', fine (f a) h') h → fine (prog_bind p f) h.
Proof. apply wp_bind, review_spec_mono. Qed.

(** A program that neither reads a review nor sends: it leaves what is held. *)
Notation still p h := (wp review_spec p (λ _ h', h' = h) h).

Lemma still_bind {A B} (p : prog A) (f : A → prog B) Q h :
  still p h → (∀ a, wp review_spec (f a) Q h) → wp review_spec (prog_bind p f) Q h.
Proof.
  intros Hp Hf. apply wp_bind; [apply review_spec_mono|]. eapply wp_mono; [apply review_spec_mono| |exact Hp].
  intros a h' ->. apply Hf.
Qed.

Ltac still := repeat first
  [ done
  | match goal with |- wp _ (if ?b then _ else _) _ _ => destruct b end
  | match goal with |- wp _ (match ?x with Ok _ => _ | Err _ => _ end) _ _ => destruct x end
  | match goal with |- wp _ (match ?x with Some _ => _ | None => _ end) _ _ => destruct x end
  | progress cbn [wp review_spec prog_bind]
  | intros ? ].

Lemma still_approval ctx review action outcome h : still (recordReviewApproval deps ctx review action outcome) h.
Proof. unfold recordReviewApproval. still. Qed.

Lemma still_audit ctx review tool h : still (auditReviewReplied ctx review tool) h.
Proof. unfold auditReviewReplied. still. Qed.

Lemma still_value review h : still (record_value deps review) h.
Proof. unfold record_value. still. Qed.

Lemma still_gate biz h : still (gateBusiness biz) h.
Proof. unfold gateBusiness. still. Qed.

Lemma still_dispatch review text h : review ∈ h → still (dispatchToPlatform deps review text) h.
Proof.
  intros Hr. unfold dispatchToPlatform. destruct (negb _); [done|].
  destruct (buildPlatformReply review text) as [[[tool args]|]|e] eqn:Eb; [|done..].
  apply wp_bind; [apply review_spec_mono|]. apply wp_dispatch; [apply review_spec_mono|]. intros task. split; [|done].
  right. exists review, text. split; [done|]. by exists tool, args, task.
Qed.

Lemma still_recorded ctx review text dec out h : review ∈ h → still (record_dispatched deps ctx review text dec out) h.
Proof.
  intros Hr. unfold record_dispatched. destruct (sent_tool out); [|done].
  split; [by exists review|]. intros [u|e]; [|done]. destruct (reviewEditSavedEligible _ _ _); [|done].
  apply still_bind; [apply still_approval|done].
Qed.

Lemma still_publish ctx review text dec h : review ∈ h → still (publishReply deps ctx review text dec) h.
Proof.
  intros Hr. unfold publishReply, recordReviewDecision, recordReviewResult, recordReviewEditSaved.
  apply still_bind; [destruct dec; [apply still_approval|done]|intros _].
  apply still_bind; [by apply still_dispatch|intros out].
  apply still_bind; [apply still_approval|intros _].
  apply still_bind; [destruct out; [destruct (_ && _); [apply still_audit|]|]; done|intros _].
  apply still_bind; [by apply still_recorded|intros [saved|e]; [|done]]. intros [u|e]; [|done].
  apply still_bind; [destruct (_ && _); [apply still_approval|done]|intros _].
  destruct out; [|done]. apply still_bind; [destruct (sent_tool _); [apply still_value|done]|done].
Qed.

Lemma wp_read biz id (Q : result ServiceError Review → list Review → Prop) h :
  (∀ e h', Q (Err e) h') → (∀ review, Q (Ok review) (review :: h)) → wp review_spec (GetByID biz id) Q h.
Proof.
  intros He Hr. split; [intros e; apply He|]. intros review _. cbn.
  destruct (negb _); [apply He|apply Hr].
Qed.

Lemma fine_still {A} (p : prog A) h : still p h → fine p h.
Proof. apply wp_mono; [apply review_spec_mono|done]. Qed.

Lemma fine_reply ctx biz id text h : fine (Reply deps ctx biz id text) h.
Proof.
  unfold Reply. destruct (String.eqb text ""); [done|]. apply fine_bind, wp_read; [done|]. intros review.
  destruct (_ || _); [done|]. apply still_bind; [apply still_gate|intros [u|e]; [|done]].
  apply fine_still, still_publish. set_solver.
Qed.

Lemma fine_retry ctx biz id h : fine (RetryReply deps ctx biz id) h.
Proof.
  unfold RetryReply. apply fine_bind, wp_read; [done|]. intros review. destruct (negb _); [done|].
  apply still_bind; [apply still_gate|intros [u|e]; [|done]]. apply fine_still, still_publish. set_solver.
Qed.

Lemma fine_skip biz id h : fine (Skip biz id) h.
Proof.
  unfold Skip. apply fine_bind, wp_read; [done|]. intros review. destruct (skipped review); [done|].
  destruct (negb _); [done|]. apply still_bind; [apply still_gate|intros [u|e]; done].
Qed.

(** Any two orderly programs in sequence, whatever is held in between. *)
Lemma fine_seq {A B} (p : prog A) (f : A → prog B) h :
  fine p h → (∀ a h', fine (f a) h') → fine (prog_bind p f) h.
Proof.
  intros Hp Hf. apply fine_bind. eapply wp_mono; [apply review_spec_mono| |exact Hp]. intros a h' _. apply Hf.
Qed.

Lemma fine_auto ctx business review draft h : fine (publishAutomaticReply deps ctx business review draft) h.
Proof.
  assert (∀ h', fine (sub! r := Reply deps (withAutoPublishSignal ctx) (bz_id business) (rv_id review) draft in
      match r with
      | Err _ => Ret tt
      | Ok _ => Call (NoteC (FxAudit ActionReviewAutoReplied (bz_id business) None
                  (replyToolForPlatform (rv_platform review)) (rv_platform review) (rv_external_id review))) Ret
      end) h') as Hgo.
  { intros h'. apply fine_seq; [apply fine_reply|]. by intros [u|e] h''. }
  unfold publishAutomaticReply. destruct (negb (rd_autopublisher deps)); [done|]. destruct (String.eqb _ ""); [done|].
  destruct (floor_forbids _ _); [done|]. destruct (String.eqb _ AgentYandexBusiness); [|apply Hgo].
  destruct (negb _); [done|]. intros [n|e]; [|done]. destruct (_ <? _)%Z; [done|apply Hgo].
Qed.

Lemma fine_maybe ctx business review draft needs h : fine (maybeAutoPublish deps to_lower ctx business review draft needs) h.
Proof.
  unfold maybeAutoPublish. destruct (negb _); [done|]. intros now. destruct (negb _); [done|]. apply fine_auto.
Qed.

Lemma fine_generate ctx business review examples h :
  fine (generateOne deps fold_question to_lower voice ctx business review examples) h.
Proof.
  unfold generateOne. destruct (_ && _ && _); [done|]. intros [[|]|e]; [|done..].
  destruct (if ra_auto_answer_facts _ then _ else _) as [reply|].
  - intros [u|e]; [|done]. apply fine_seq; [apply fine_auto|done].
  - unfold draft_by_model, callOrchestrator. intros r. cbn [prog_bind]. destruct (match r with Ok _ => _ | Err _ => _ end); [|done].
    intros [u|e']; [|done]. apply fine_seq; [apply fine_maybe|done].
Qed.

Lemma fine_deferred ctx biz business l h : fine (publish_deferred deps to_lower ctx biz business l) h.
Proof.
  revert h. induction l as [|review l IH]; intros h; [done|]. intros now. destruct (negb _).
  - intros [u|e]; [apply IH|done].
  - apply fine_seq; [apply fine_maybe|intros _ h'; apply IH].
Qed.

Lemma fine_pass ctx biz platform h : fine (GenerateForBusiness deps fold_question to_lower voice ctx biz platform) h.
Proof.
  unfold GenerateForBusiness. intros [pending|e]; [|done]. apply fine_seq.
  { unfold list_deferred. by destruct (_ || _). }
  intros [deferred|e] h'; [|done].
  assert (fine (generate_pass deps fold_question to_lower voice ctx biz platform deferred pending) h') as Hg.
  { intros [business|e]; [|done]. apply fine_seq; [apply fine_deferred|]. intros [u|e] h2; [|done].
    destruct pending as [|p pending]; [done|]. intros ex. apply fine_seq; [|done]. revert h2.
    generalize (p :: pending). intros l. induction l as [|review l IH]; intros h2; [done|].
    apply fine_seq; [apply fine_generate|intros _ h3; apply IH]. }
  destruct pending, deferred; done.
Qed.

Lemma fine_rows l biz platform h : fine (dedupeReviewsByExternalID yandex_published format_rfc3339 l biz platform) h.
Proof.
  apply fine_seq; [|done]. revert h. induction l as [|[] l IH]; intros h; cbn [reviews_from]; try done; try apply IH.
  apply fine_seq; [|intros r h'; apply fine_seq; [apply IH|done]]. unfold reviewFromMap. still.
Qed.

Lemma fine_sync ctx biz platform h :
  fine (syncOne deps fold_question to_lower voice yandex_published format_rfc3339 ctx biz platform) h.
Proof.
  unfold syncOne. destruct (obj_get platform _) as [tool|]; [|done]. apply fine_bind.
  apply wp_dispatch; [apply review_spec_mono|]. intros task. split; [by left|]. intros reply.
  destruct (read_reply platform reply).2; [done|]. destruct (fetched _) as [l|]; [|done].
  apply fine_seq; [apply fine_rows|]. intros rows h' [u|e]; [|done]. destruct (rd_drafter deps); [|done].
  apply fine_seq; [apply fine_pass|done].
Qed.

Lemma fine_bulk ctx biz ids h : fine (BulkApprove deps svc_text ctx biz ids) h.
Proof.
  unfold BulkApprove. destruct ids as [|id0 ids0]; [done|].
  apply still_bind; [apply still_gate|intros [u|e]; [|done]]. apply fine_seq; [|done].
  revert h. generalize (take maxBatchReviewIDs (id0 :: ids0)). intros l.
  induction l as [|id l IH]; intros h; [done|]. cbn [approve_all].
  apply fine_seq; [|intros item h'; apply fine_seq; [apply IH|done]].
  unfold bulkApproveOne. split; [done|]. intros r _. destruct (batch_refusal _ _ _); [|done].
  destruct (negb _); [done|]. apply fine_seq; [apply fine_reply|done].
Qed.

Lemma fine_targets biz ids targets results h : fine (resolve_ids biz ids targets results) h.
Proof.
  revert targets results h. induction ids as [|id ids IH]; intros targets results h; [done|].
  split; [intros e; apply IH|]. intros r _. cbn [resolve_ids]. destruct (batch_refusal _ _ _); apply IH.
Qed.

Lemma fine_draft ctx biz ids h : fine (BatchDraft deps fold_question to_lower svc_text voice ctx biz ids) h.
Proof.
  unfold BatchDraft. destruct (negb _); [done|]. apply still_bind; [apply still_gate|intros [u|e]; [|done]].
  intros [business|[]]; [|done..]. apply fine_seq.
  { unfold resolveDraftTargets. destruct ids; [done|]. apply fine_seq; [apply fine_targets|done]. }
  intros [[targets results]|e] h'; [|done]. cbn [fst snd]. destruct targets as [|t targets]; [done|].
  intros ex. apply fine_seq; [|done]. revert h' results. generalize (t :: targets). intros l.
  induction l as [|review l IH]; intros h' results; [done|]. cbn [draft_all].
  apply fine_seq; [apply fine_generate|intros r h2; apply IH].
Qed.

Lemma fine_regenerate ctx biz id h : fine (Regenerate deps fold_question to_lower svc_text voice ctx biz id) h.
Proof.
  unfold Regenerate. apply fine_bind, wp_read; [done|]. intros review.
  apply still_bind; [apply still_gate|intros [u|e]; [|done]]. intros [u'|e]; [|done].
  apply fine_seq; [apply fine_draft|]. by intros [results|e] h'.
Qed.

Lemma op_fine p : review_op p → fine p [].
Proof.
  intros []; apply wp_forget; try apply review_spec_mono;
    [apply fine_reply|apply fine_retry|apply fine_skip|apply fine_bulk|apply fine_draft|apply fine_regenerate|apply fine_sync].
Qed.

(** ** One reply per review *)

(** A collection as the repository keeps it; nothing sent. *)
Definition quiet_reviews (s : RStore) : Prop := (∀ id, keyed id (docs (rs_reviews s) !! id)) ∧ rs_sent s = [].

Lemma rsafe_reachable s :
  reachable (@review_step) review_env review_op quiet_reviews s → ∃ hs, rsafe (sy_store s) hs.
Proof.
  apply (sound_reachable (@review_step) review_env review_op review_spec rsafe []).
  - intros B c st b st' hs i h K. apply rsafe_call.
  - intros st hs [Hk Hn Ha]. split; [done| |done]. intros i h r Hi Hr.
    apply lookup_app_Some in Hi as [Hi|[_ Hi]]; [by eapply Hn|].
    apply list_lookup_singleton_Some in Hi as [_ <-]. by apply elem_of_nil in Hr.
  - intros st hs st' Hs [newID review]. apply rows_safe; [done|]. intros id. unfold Upsert.
    destruct (String.eqb _ ""); [reflexivity|]. cbn. unfold se_try. pose proof (moves_upsert id newID review (rs_reviews st)) as Hm.
    destruct (upsert_one newID review (rs_reviews st)) as [[u|e] c']; exact Hm.
  - apply op_fine.
  - intros st [Hk Hl]. split; [done|by intros i h r Hi|by rewrite Hl].
Qed.

(** [req] was sent to reply to review [id], as that row was read and still stands. *)
Definition reply_of (s : RStore) (id : string) (req : ToolRequest) : Prop :=
  ∃ subject r text, (subject, req) ∈ rs_sent s ∧ rv_id r = id ∧ stored s r ∧ reply_to r text subject req.

Lemma reply_key s id req row : reply_of s id req → docs (rs_reviews s) !! id = Some row →
  tr_business_id req = rv_business_id row ∧ tr_approval_id req = manualReplyApprovalID row.
Proof.
  intros (subject & r & text & _ & <- & (r' & Hr' & Hs) & (tool & args & task & _ & _ & ->)) Hrow.
  rewrite Hr' in Hrow. injection Hrow as <-. cbn. by rewrite (sr_business _ _ Hs), (sr_key _ _ Hs).
Qed.

Lemma reply_same_key s id req req' : reply_of s id req → reply_of s id req' →
  KeyFor (tr_business_id req) (tr_approval_id req) = KeyFor (tr_business_id req') (tr_approval_id req').
Proof.
  intros H H'. assert (∃ row, docs (rs_reviews s) !! id = Some row) as [row Hrow].
  { destruct H as (_ & r & _ & _ & <- & (r' & Hr' & _) & _). by exists r'. }
  destruct (reply_key _ _ _ _ H Hrow) as [-> ->]. by destruct (reply_key _ _ _ _ H' Hrow) as [-> ->].
Qed.

End system.
