(* ===== verification/ReviewOutcome.v ===== *)
(** * What a reply leaves behind

    ReviewService.v run against a review collection that does not fault: a reply
    that failed is stored as an error and a retry sends it again verbatim under the
    same approval key; and the runs the modelling found faults with. *)

From S2P Require Import Prelude Json GoTime Runes Types Tools Policy Authz Mongo TaskStore PostStore ReviewStore ChatWorld Postal A2A Prog Dispatch ReviewRules ReviewService ReviewSafety Redis Dedupe ReviewSystem.
Local Open Scope go_scope.

Section server.
Context {CR : Coll Review rv_id} {U : UUIDText} {J : JsonText}.
Variables (normalize : string → string) (now : Z) (task : string) (ids : nat → string)
  (business : uuid → result BusinessError Business) (model : DraftReplyRequest → result goerr string).

(** The calls answered by the repository and fixed collaborators; [agent] may act
    on the collection before it answers. *)
Definition answer (agent : ToolRequest → @coll Review rv_id CR → result goerr string * @coll Review rv_id CR)
    B (c : ReviewCall B) : @coll Review rv_id CR → B * @coll Review rv_id CR :=
  match c in ReviewCall B return @coll Review rv_id CR → B * @coll Review rv_id CR with
  | GetReviewC id => GetReview id
  | UpdateReplyC id text status feedback => UpdateReply now id text status feedback
  | UpdateReplyDispatchedC id text status approval => UpdateReplyDispatched now id text status approval
  | SkipPendingC biz id => SkipPending biz id
  | PrepareRegenerationC biz id => PrepareRegeneration biz id
  | ListPendingC biz platform limit => ListPendingWithoutDraft biz platform limit
  | ListExamplesC biz platform limit => ListRepliedExamples normalize biz platform limit
  | ListDeferredC biz platform limit => ListDeferredAutoReplies now biz platform limit
  | SetDeferredC biz id deferred => SetAutoReplyDeferred biz id deferred
  | ClaimDraftC id => ClaimDraftForGenerating id
  | UpdateDraftC id draft status err needs => UpdateDraft now id draft status err needs
  | BulkUpsertC l => BulkUpsert ids l
  | BusinessC id => λ s, (business id, s)
  | AgentC _ req => agent req
  | NewIDC => λ s, (task, s)
  | NowC => λ s, (now, s)
  | HourlyC _ => λ s, (Ok 1%Z, s)
  | DraftC req => λ s, (model req, s)
  | NoteC _ => λ s, (tt, s)
  end.

(** An agent that leaves the collection alone. *)
Definition remote (f : ToolRequest → result goerr string) (req : ToolRequest) (c : @coll Review rv_id CR) :=
  (f req, c).

Section reliable.
Context {CRr : Reliable CR}.
Variable deps : ReviewDeps.

Lemma get_review_ok id c : ∃ c', docs c' = docs c ∧
  GetReview id c = (match docs c !! id with Some r => Ok r | None => Err ErrReviewNotFound end, c').
Proof.
  unfold GetReview, se_try. pose proof (findOne_spec id c) as Hf. pose proof (findOne_ok id c) as Ho.
  destruct (findOne id c) as [[x|e] c']; [|done]. destruct Hf as [-> Hd]. exists c'. split; [done|].
  by destruct (docs c !! id).
Qed.

Lemma update_reply_ok t id text status approval feedback c r :
  docs c !! id = Some r → ∃ c', updateReply t id text status approval feedback c = (Ok tt, c')
    ∧ docs c' = <[id := reply_update t text status approval feedback r]> (docs c).
Proof.
  intros Hr. unfold updateReply, se_try.
  pose proof (updateOne_spec id (λ _, true) (reply_update t text status approval feedback) c) as Hu.
  pose proof (updateOne_ok id (λ _, true) (reply_update t text status approval feedback) c) as Ho.
  destruct (updateOne id _ _ c) as [[x|e] c']; [|done]. destruct Hu as [-> Hd]. unfold hit, upd_one in *.
  rewrite Hr in *. by exists c'.
Qed.

Notation runs agent p := (serve (answer agent) p).

Lemma agent_runs_bind {A B} agent (p : prog A) (f : A → prog B) c a c' :
  runs agent p c = (a, c') → runs agent (prog_bind p f) c = runs agent (f a) c'.
Proof. intros E. by rewrite serve_bind, E. Qed.

Lemma runs_approval agent ctx review action outcome c :
  runs agent (recordReviewApproval deps ctx review action outcome) c = (tt, c).
Proof. unfold recordReviewApproval. by destruct (_ || _). Qed.

Lemma runs_audit agent ctx review tool c : runs agent (auditReviewReplied ctx review tool) c = (tt, c).
Proof. unfold auditReviewReplied. by destruct (uuid_parse _). Qed.

Lemma runs_value agent review c : runs agent (record_value deps review) c = (tt, c).
Proof. unfold record_value. destruct (rd_value_telemetry deps); [|done]. by destruct (uuid_parse _). Qed.

Lemma runs_get agent biz id c r :
  docs c !! id = Some r → rv_business_id r = uuid_string biz →
  ∃ c', runs agent (GetByID biz id) c = (Ok r, c') ∧ docs c' = docs c.
Proof.
  intros Hr Hb. destruct (get_review_ok id c) as (c' & Hd & E). exists c'. split; [|done].
  cbn. rewrite E, Hr. cbn. by rewrite Hb, String.eqb_refl.
Qed.

(** The business can be loaded, or is the nil one. *)
Definition business_stands (biz : uuid) : Prop := biz = uuid_nil ∨ is_ok (business biz) = true.

Lemma runs_gate agent biz c : business_stands biz → runs agent (gateBusiness biz) c = (Ok tt, c).
Proof.
  unfold gateBusiness. case_bool_decide as Hn; [done|]. intros [?|Hb]; [done|]. cbn. by destruct (business biz).
Qed.

Definition reply_request (r : Review) (tool : string) (args : list (string * gval)) : ToolRequest :=
  tool_request task tool (Some args) (rv_business_id r) (manualReplyApprovalID r).

Lemma runs_dispatch f r text tool args c :
  rd_nats deps = true → buildPlatformReply r text = Ok (Some (tool, args)) →
  runs (remote f) (dispatchToPlatform deps r text) c =
    (match (read_reply (rv_platform r) (f (reply_request r tool args))).2 with
     | Some e => Err (AgentFailed e)
     | None => Ok tool
     end, c).
Proof.
  intros Hn Hb. unfold dispatchToPlatform. rewrite Hn, Hb. cbn.
  by destruct (read_reply _ _).2.
Qed.

(** The tail of a reply whose dispatch failed. *)
Lemma runs_publish_failed f ctx r text dec tool args e c :
  rd_nats deps = true → buildPlatformReply r text = Ok (Some (tool, args)) →
  (read_reply (rv_platform r) (f (reply_request r tool args))).2 = Some e →
  docs c !! rv_id r = Some r →
  ∃ c' fb, runs (remote f) (publishReply deps ctx r text dec) c = (Err (SvcPublish (rv_platform r) (AgentFailed e)), c')
    ∧ docs c' = <[rv_id r := reply_update now text ReviewReplyStatusError "" fb r]> (docs c).
Proof.
  intros Hn Hb He Hr. unfold publishReply, recordReviewDecision, recordReviewResult, recordReviewEditSaved.
  erewrite agent_runs_bind; [|by destruct dec; [apply runs_approval|reflexivity]].
  erewrite agent_runs_bind; [|by apply runs_dispatch]. rewrite He.
  erewrite agent_runs_bind; [|apply runs_approval]. erewrite agent_runs_bind; [|reflexivity].
  erewrite agent_runs_bind; [|reflexivity]. cbn [sent_tool final_status is_ok].
  set (fb := if cx_auto ctx then _ else _).
  destruct (update_reply_ok now (rv_id r) text ReviewReplyStatusError "" fb c r Hr) as (c' & E & Hd).
  exists c', fb. split; [|done]. cbn [serve answer]. unfold UpdateReply. rewrite E.
  erewrite agent_runs_bind; [|by destruct (_ && _); [apply runs_approval|reflexivity]]. reflexivity.
Qed.

(** The tail of a reply that went out: both writes land. *)
Lemma runs_publish_sent f ctx r text dec tool args c :
  rd_nats deps = true → buildPlatformReply r text = Ok (Some (tool, args)) → tool ≠ "" →
  (read_reply (rv_platform r) (f (reply_request r tool args))).2 = None →
  docs c !! rv_id r = Some r →
  ∃ c' fb, runs (remote f) (publishReply deps ctx r text dec) c = (Ok tt, c')
    ∧ docs c' = <[rv_id r := reply_update now text ReviewReplyStatusReplied "" fb
        (reply_update now text ReviewReplyStatusReplied (manualReplyApprovalID r) None r)]> (docs c).
Proof.
  intros Hn Hb Htool He Hr. unfold publishReply, recordReviewDecision, recordReviewResult, recordReviewEditSaved, record_dispatched.
  erewrite agent_runs_bind; [|by destruct dec; [apply runs_approval|reflexivity]].
  erewrite agent_runs_bind; [|by apply runs_dispatch]. rewrite He.
  erewrite agent_runs_bind; [|apply runs_approval].
  erewrite agent_runs_bind; [|by destruct (_ && _); [apply runs_audit|reflexivity]].
  assert (sent_tool (Ok tool) = true) as Hs by (cbn; by destruct (String.eqb_spec tool "")).
  rewrite Hs. cbn [final_status is_ok].
  destruct (update_reply_ok now (rv_id r) text ReviewReplyStatusReplied (manualReplyApprovalID r) None c r Hr) as (c1 & E1 & Hd1).
  set (r1 := reply_update now text ReviewReplyStatusReplied (manualReplyApprovalID r) None r) in *.
  assert (docs c1 !! rv_id r = Some r1) as Hr1 by (by rewrite Hd1, lookup_insert_eq).
  set (fb := if cx_auto ctx then _ else _).
  destruct (update_reply_ok now (rv_id r) text ReviewReplyStatusReplied "" fb c1 r1 Hr1) as (c2 & E2 & Hd2).
  exists c2, fb. split; [|by rewrite Hd2, Hd1, insert_insert_eq].
  erewrite (agent_runs_bind _ _ _ _ (Ok (reviewEditSavedEligible r text dec)) c1).
  - cbn [serve answer]. unfold UpdateReply. rewrite E2.
    erewrite agent_runs_bind; [|by destruct (_ && _); [apply runs_approval|reflexivity]].
    erewrite agent_runs_bind; [reflexivity|apply runs_value].
  - cbn [serve answer]. unfold UpdateReplyDispatched. rewrite E1.
    destruct (reviewEditSavedEligible r text dec); [|reflexivity].
    erewrite agent_runs_bind; [reflexivity|apply runs_approval].
Qed.

(** Only the failing status lets a reply with a text be sent again. *)
Lemma failed_row text fb t r : text ≠ "" →
  let r' := reply_update t text ReviewReplyStatusError "" fb r in
  retryable r' = true ∧ rv_reply_text r' = text ∧ rv_draft_reply r' = rv_draft_reply r
  ∧ same_review r r' ∧ rv_platform_meta r' = rv_platform_meta r.
Proof.
  intros Ht. cbn zeta. unfold retryable, reply_update. cbn. split_and!; [|done..].
  by destruct (String.eqb_spec text "").
Qed.

Lemma replied_row text fb t r k : k ≠ "" →
  let r' := reply_update t text ReviewReplyStatusReplied "" fb (reply_update t text ReviewReplyStatusReplied k None r) in
  rv_reply_status r' = ReviewReplyStatusReplied ∧ rv_reply_text r' = text ∧ rv_replied_at r' = Some t
  ∧ rv_dispatch_approval_id r' = k ∧ rv_draft_reply r' = "" ∧ rv_draft_status r' = "".
Proof. intros Hk. cbn zeta. unfold reply_update. cbn. split_and!; try done. by destruct (String.eqb_spec k ""). Qed.

Lemma reply_target_same r r' text :
  same_review r r' → rv_platform_meta r' = rv_platform_meta r → buildPlatformReply r' text = buildPlatformReply r text.
Proof. intros [H1 H2 H3 H4 H5] H6. unfold buildPlatformReply. by rewrite H1, H3, H4, H6. Qed.

Lemma reply_request_same r r' tool args : same_review r r' → reply_request r' tool args = reply_request r tool args.
Proof. intros [H1 H2 H3 H4 H5]. unfold reply_request. by rewrite H2, H5. Qed.

Lemma key_not_empty r : manualReplyApprovalID r ≠ "".
Proof. unfold manualReplyApprovalID. destruct (String.eqb_spec (rv_dispatch_approval_id r) ""); done. Qed.

(** With a database that answers, a reply whose dispatch fails is reported as
    such and leaves the row in error with its text and its draft; a retry then sends
    the same text to the same place under the same approval key, needing no body,
    and once the agent confirms it the row is replied, stamped, and its draft gone;
    no other review changes. *)
Theorem failed_reply_retried f1 f2 ctx1 ctx2 biz id text r tool args e c :
  rd_nats deps = true → business_stands biz → text ≠ "" →
  docs c !! id = Some r → rv_id r = id → rv_business_id r = uuid_string biz →
  answered r = false → cx_auto ctx1 = false ∨ skipped r = false →
  buildPlatformReply r text = Ok (Some (tool, args)) → tool ≠ "" →
  (read_reply (rv_platform r) (f1 (reply_request r tool args))).2 = Some e →
  (read_reply (rv_platform r) (f2 (reply_request r tool args))).2 = None →
  let '(res1, c1) := serve (answer (remote f1)) (Reply deps ctx1 biz id text) c in
  let '(res2, c2) := serve (answer (remote f2)) (RetryReply deps ctx2 biz id) c1 in
  (res1 = Err (SvcPublish (rv_platform r) (AgentFailed e))
   ∧ ∃ r1, docs c1 = <[id := r1]> (docs c) ∧ retryable r1 = true ∧ rv_reply_text r1 = text
       ∧ rv_draft_reply r1 = rv_draft_reply r)
  ∧ (res2 = Ok tt
     ∧ ∃ r2, docs c2 = <[id := r2]> (docs c) ∧ rv_reply_status r2 = ReviewReplyStatusReplied
         ∧ rv_reply_text r2 = text ∧ rv_replied_at r2 = Some now
         ∧ rv_dispatch_approval_id r2 = manualReplyApprovalID r ∧ rv_draft_reply r2 = "" ∧ rv_draft_status r2 = "").
Proof.
  intros Hn Hbiz Ht Hr Hid Hb Ha Hs Hbuild Htool He Hok. subst id.
  destruct (runs_get (remote f1) biz (rv_id r) c r Hr Hb) as (c0 & E0 & Hd0).
  assert (docs c0 !! rv_id r = Some r) as Hr0 by (by rewrite Hd0).
  destruct (runs_publish_failed f1 ctx1 r text true tool args e c0 Hn Hbuild He Hr0) as (c1 & fb & E1 & Hd1).
  destruct (failed_row text fb now r Ht) as (Hre & Htx & Hdr & Hsame & Hmeta).
  set (r1 := reply_update now text ReviewReplyStatusError "" fb r) in *.
  assert (serve (answer (remote f1)) (Reply deps ctx1 biz (rv_id r) text) c
    = (Err (SvcPublish (rv_platform r) (AgentFailed e)), c1)) as ->.
  { unfold Reply. destruct (String.eqb_spec text ""); [done|]. erewrite agent_runs_bind; [|exact E0]. cbn beta iota.
    assert ((cx_auto ctx1 && skipped r) || answered r = false) as ->.
    { rewrite Ha, orb_false_r. destruct Hs as [-> | ->]; [done|apply andb_false_r]. }
    erewrite agent_runs_bind; [|by apply runs_gate]. exact E1. }
  assert (docs c1 !! rv_id r = Some r1) as Hr1 by (by rewrite Hd1, lookup_insert_eq).
  assert (rv_id r1 = rv_id r) as Hid1 by apply Hsame.
  destruct (runs_get (remote f2) biz (rv_id r) c1 r1 Hr1) as (c2 & E2 & Hd2).
  { rewrite <- Hb. apply Hsame. }
  assert (docs c2 !! rv_id r1 = Some r1) as Hr2 by (by rewrite Hd2, Hid1).
  destruct (runs_publish_sent f2 ctx2 r1 text false tool args c2 Hn) as (c3 & fb2 & E3 & Hd3); [|done| |done|].
  { by rewrite (reply_target_same r r1 text Hsame Hmeta). }
  { by rewrite (reply_request_same r r1 tool args Hsame), (sr_platform _ _ Hsame). }
  assert (serve (answer (remote f2)) (RetryReply deps ctx2 biz (rv_id r)) c1 = (Ok tt, c3)) as ->.
  { unfold RetryReply. erewrite agent_runs_bind; [|exact E2]. cbn beta iota. rewrite Hre, Htx. cbn [negb].
    erewrite agent_runs_bind; [|by apply runs_gate]. exact E3. }
  destruct (replied_row text fb2 now r1 (manualReplyApprovalID r1) (key_not_empty r1)) as (K1 & K2 & K3 & K4 & K5 & K6).
  split; (split; [done|]).
  - exists r1. split_and!; [by rewrite Hd1, Hd0|done..].
  - eexists. split; [rewrite Hd3, Hd2, Hd1, Hd0, Hid1, insert_insert_eq; reflexivity|].
    split_and!; [exact K1|exact K2|exact K3|rewrite K4; apply Hsame|exact K5|exact K6].
Qed.
End reliable.
End server.
