(* ===== verification/ReviewDemo.v ===== *)
(** * Review operations on concrete data

    Witnesses of the theorems on reviews, and the runs that show where the code
    departs from its comments. *)

From S2P Require Import Prelude Json GoTime Runes Types Tools Policy Authz Mongo TaskStore PostStore ReviewStore ChatWorld Postal A2A Prog Dispatch ReviewRules ReviewService ReviewSafety Redis Dedupe ReviewSystem ReviewOutcome.
Local Open Scope go_scope.

#[local] Instance demo_reviews : Coll Review rv_id := map_coll rv_id.
#[local] Instance demo_reviews_reliable : Reliable demo_reviews := map_coll_reliable rv_id.
#[local] Existing Instance decimal_uuid.
#[local] Existing Instance json_text.

Definition demo_review (rating : Z) : Review := {|
  rv_id := "r1"; rv_business_id := "8"; rv_platform := AgentYandexBusiness; rv_external_id := "y-77";
  rv_author_name := "Anna"; rv_rating := rating; rv_text := "Lovely place"; rv_reply_text := "";
  rv_reply_status := ReviewReplyStatusPending;
  rv_platform_meta := [("published_at", GStr "2026-01-05T10:00:00Z")];
  rv_dispatch_approval_id := ""; rv_created_at := 0; rv_replied_at := None; rv_draft_reply := ""; rv_draft_status := "";
  rv_draft_generated_at := None; rv_draft_error := ""; rv_needs_review := false; rv_accepted_unedited := None;
  rv_edit_distance := None; rv_auto_reply_deferred := false |}.

Definition demo_rows (rating : Z) : gmap string Review := {["r1" := demo_review rating]}.

Definition demo_business : Business := {|
  bz_id := 8%N; bz_name := "Bakery"; bz_category := ""; bz_address := " Lenina 1 "; bz_phone := ""; bz_website := None;
  bz_description := ""; bz_settings := None |}.

Definition demo_deps : ReviewDeps := {|
  rd_nats := true; rd_drafter := true; rd_refresher := true; rd_autopublisher := true; rd_redis := true;
  rd_approval_telemetry := false; rd_value_telemetry := false; rd_max_examples := 5; rd_per_pass_limit := 10 |}.

Definition owner : Ctx := {| cx_auto := false; cx_business := None |}.

Definition demo_success : string := json_marshal (enc_response {|
  tp_task_id := "t"; tp_success := true; tp_result := None; tp_error := ""; tp_code := "" |}).

(** 2026-01-06. *)
Definition demo_now : Z := default 0%Z (parse_rfc3339 "2026-01-06T10:00:00Z").

Definition demo_answer (model : DraftReplyRequest → result goerr string) :=
  answer (CR := demo_reviews) (λ s, s) demo_now "t" (λ _, "n") (λ _, Ok demo_business) model.

Definition no_model (_ : DraftReplyRequest) : result goerr string := Err (EText "no model").

Definition lost (_ : ToolRequest) : result goerr string := Err (EText "nats: timeout").
Definition confirmed (_ : ToolRequest) : result goerr string := Ok demo_success.

Lemma failed_reply_retried_witness :
  let '(res1, c1) := serve (demo_answer no_model (remote (CR := demo_reviews) lost)) (Reply demo_deps owner 8%N "r1" "Thank you!") (demo_rows 5) in
  let '(res2, c2) := serve (demo_answer no_model (remote (CR := demo_reviews) confirmed)) (RetryReply demo_deps owner 8%N "r1") c1 in
  res2 = Ok tt ∧ ∃ r2, c2 !! "r1" = Some r2 ∧ rv_reply_text r2 = "Thank you!".
Proof.
  pose proof (failed_reply_retried (CR := demo_reviews) (λ s, s) demo_now "t" (λ _, "n") (λ _, Ok demo_business) no_model
    demo_deps lost confirmed owner owner 8%N "r1" "Thank you!" (demo_review 5) YandexBusinessReplyReview
    [("review_id", GStr "y-77"); ("text", GStr "Thank you!")] (EWrap "nats request to tasks.yandex_business" (EText "nats: timeout"))
    (demo_rows 5) eq_refl (or_intror eq_refl) ltac:(done) eq_refl eq_refl eq_refl eq_refl (or_introl eq_refl)
    eq_refl ltac:(done) eq_refl eq_refl) as H.
  revert H. unfold demo_answer.
  match goal with |- context [serve ?h ?p (demo_rows 5)] => destruct (serve h p (demo_rows 5)) as [res1 c1] end.
  match goal with |- context [serve ?h ?p c1] => destruct (serve h p c1) as [res2 c2] end. intros H.
  destruct H as [_ [Hr (r2 & Hd & _ & Ht & _)]]. split; [exact Hr|]. exists r2. split; [|exact Ht].
  change (docs c2 !! "r1" = Some r2). rewrite Hd. apply lookup_insert_eq.
Defined.

(** ** A late failure takes over a published reply

    B reads the row; A's reply goes out and is recorded while B's request is
    refused as "already in flight"; recording B's failure rewrites the row, whose
    published text is lost; B's retry is then answered from A's cached result and
    the row shows B's text as published. *)
Definition demo_in_flight : string := json_marshal (enc_response
  (failure "t" "duplicate: already in flight" "transient")).

Definition overtaken (req : ToolRequest) (c : gmap string Review) : result goerr string * gmap string Review :=
  (Ok demo_in_flight,
   (serve (demo_answer no_model (remote (CR := demo_reviews) confirmed)) (Reply demo_deps owner 8%N "r1" "From A") c).2).

Definition reply_view (c : gmap string Review) : option (string * string) :=
  (λ r, (rv_reply_status r, rv_reply_text r)) <$> c !! "r1".

Example late_failure_overwrites_reply :
  let after_a := (overtaken (reply_request "t" (demo_review 5) "" []) (demo_rows 5)).2 in
  let after_b := (serve (demo_answer no_model overtaken) (Reply demo_deps owner 8%N "r1" "From B") (demo_rows 5)).2 in
  let after_retry := (serve (demo_answer no_model (remote (CR := demo_reviews) confirmed))
                        (RetryReply demo_deps owner 8%N "r1") after_b).2 in
  reply_view after_a = Some (ReviewReplyStatusReplied, "From A")
  ∧ reply_view after_b = Some (ReviewReplyStatusError, "From B")
  ∧ reply_view after_retry = Some (ReviewReplyStatusReplied, "From B").
Proof. vm_compute. by split_and!. Qed.

(** ** Asking for a draft of a four-star review skips it

    With the default settings the request is reported as drafted. *)
Example four_star_draft_skips :
  let out := serve (demo_answer no_model (remote (CR := demo_reviews) confirmed))
    (BatchDraft demo_deps (λ s, s) (λ s, s) (λ _, "") (λ _, "") owner 8%N ["r1"]) (demo_rows 4) in
  out.1 = Ok [batch_item "r1" BatchItemStatusDrafted ""]
  ∧ reply_view out.2 = Some (ReviewReplyStatusSkipped, "").
Proof. vm_compute. by split. Qed.

(** ** A draft left in the generating state stays there

    No filter of the drafting paths matches it, whatever its age. *)
Lemma generating_never_reclaimed r : rv_draft_status r = ReviewDraftStatusGenerating →
  claimable_draft r = false ∧ list_mem (rv_draft_status r) [""; ReviewDraftStatusFailed] = false
  ∧ negb (String.eqb (rv_draft_status r) ReviewDraftStatusGenerating) = false.
Proof. intros Hr. unfold claimable_draft. rewrite Hr. cbn. by rewrite andb_false_r. Qed.

(** ** The autopilot publishes a five-star draft by default *)
Definition a_model (_ : DraftReplyRequest) : result goerr string := Ok " Thank you, Anna! ".

Example five_star_published :
  let out := serve (demo_answer a_model (remote (CR := demo_reviews) confirmed))
    (GenerateForBusiness demo_deps (λ s, s) (λ s, s) (λ _, "") owner 8%N AgentYandexBusiness) (demo_rows 5) in
  reply_view out.2 = Some (ReviewReplyStatusReplied, "Thank you, Anna!").
Proof. vm_compute. reflexivity. Qed.

(** ** Two requests for one review carry one key *)
Section answered_once.
#[local] Existing Instance scripted_redis.

Definition demo_store : RStore (CR := demo_reviews) := {| rs_reviews := demo_rows 5 : gmap string Review; rs_sent := [] |}.

Definition demo_request (text : string) : ToolRequest :=
  tool_request "t" YandexBusinessReplyReview (Some [("review_id", GStr "y-77"); ("text", GStr text)]) "8" "review-reply-r1".

Notation demo_step := (λ B, @review_step demo_reviews (λ s, s) B).
Notation demo_ops := (review_op demo_deps (λ s, s) (λ s, s) (λ _, "") (λ _, "") (λ _ _, None) (λ _, "")).

(** Two operators read the row and send. *)
Lemma demo_two_sent : ∃ s : Sys ReviewCall (RStore (CR := demo_reviews)),
  reachable demo_step (review_env (CR := demo_reviews)) demo_ops (quiet_reviews (CR := demo_reviews)) s
  ∧ reply_of (sy_store s) "r1" (demo_request "A") ∧ reply_of (sy_store s) "r1" (demo_request "B").
Proof.
  eexists. split.
  - exists demo_store. split.
    { split; [|done]. intros id r Hr. change (({["r1" := demo_review 5]} : gmap string Review) !! id = Some r) in Hr.
      apply lookup_singleton_Some in Hr as [<- <-]. done. }
    eapply rtc_l; [apply step_start, (op_reply _ _ _ _ _ _ _ owner 8%N "r1" "A")|].
    eapply rtc_l; [apply step_start, (op_reply _ _ _ _ _ _ _ owner 8%N "r1" "B")|].
    eapply rtc_l; [eapply step_call with (i := 0) (b := Ok (demo_review 5)); [reflexivity|split; reflexivity]|].
    eapply rtc_l; [eapply step_call with (i := 1) (b := Ok (demo_review 5)); [reflexivity|split; reflexivity]|].
    eapply rtc_l; [eapply step_call with (i := 0) (b := Ok demo_business); [reflexivity|reflexivity]|].
    eapply rtc_l; [eapply step_call with (i := 1) (b := Ok demo_business); [reflexivity|reflexivity]|].
    eapply rtc_l; [eapply step_call with (i := 0) (b := "t"); [reflexivity|reflexivity]|].
    eapply rtc_l; [eapply step_call with (i := 1) (b := "t"); [reflexivity|reflexivity]|].
    eapply rtc_l; [eapply step_call with (i := 0) (b := lost (demo_request "A")); [reflexivity|reflexivity]|].
    eapply rtc_l; [eapply step_call with (i := 1) (b := lost (demo_request "B")); [reflexivity|reflexivity]|].
    apply rtc_refl.
  - split; exists (Subject AgentYandexBusiness), (demo_review 5).
    + exists "A". split_and!; [cbn; right; left|reflexivity|exists (demo_review 5); split; [reflexivity|reflexivity]|].
      exists YandexBusinessReplyReview, [("review_id", GStr "y-77"); ("text", GStr "A")], "t". by split_and!.
    + exists "B". split_and!; [cbn; left|reflexivity|exists (demo_review 5); split; [reflexivity|reflexivity]|].
      exists YandexBusinessReplyReview, [("review_id", GStr "y-77"); ("text", GStr "B")], "t". by split_and!.
Qed.

Definition demo_workers (w : nat) : ToolRequest := demo_request (match w with 0 => "A" | _ => "B" end).

(** Worker 0 claims the first reply; worker 1 cannot reach Redis and runs the second. *)
Definition demo_claimed_reply : world (Rd := scripted_redis) :=
  set_phase (Rd := scripted_redis) 0 (Executing 0) (<[KeyFor "8" "review-reply-r1" := sentinel 0]> ∅, [FBefore]) []
    (starting (Rd := scripted_redis) 0 (∅, [FNone; FBefore])).

Definition demo_world : world (Rd := scripted_redis) :=
  set_phase (Rd := scripted_redis) 1 Unguarded (<[KeyFor "8" "review-reply-r1" := sentinel 0]> ∅, []) [Unclaimed 1] demo_claimed_reply.

Lemma demo_world_run : rtc (wstep (J := json_text) (Rd := scripted_redis) demo_workers)
  (starting (Rd := scripted_redis) 0 (∅, [FNone; FBefore])) demo_world.
Proof.
  eapply rtc_l; [|apply rtc_once].
  - apply (WClaim (J := json_text) (Rd := scripted_redis) demo_workers (starting (Rd := scripted_redis) 0 (∅, [FNone; FBefore])) 0 (Ok true)); [reflexivity|discriminate|reflexivity].
  - apply (WClaim (J := json_text) (Rd := scripted_redis) demo_workers demo_claimed_reply 1 (Err RedisDown)); [reflexivity|discriminate|reflexivity].
Qed.

End answered_once.
