(* ===== verification/ModelLimits.v ===== *)
(** * Token estimates, output caps, list prices and errors of an LLM call

    [src/pkg/llm]: [estimate.go], [maxtokens.go], [pricing.go], [transient.go].  Prices are exact
    rationals where the code has [float64]. *)

From Stdlib Require Import QArith.
From S2P Require Import Prelude Json Types Runes.
Close Scope Q_scope.
Local Open Scope Z_scope.

(** ** [estimate.go] *)

Definition estimateCharsPerToken : Z := 4.
Definition estimatePerMessageOverhead : Z := 4.
Definition estimateToolCallOverhead : Z := 4.
Definition estimatePerSystemBlockOverhead : Z := 4.
Definition estimatePerToolSchemaOverhead : Z := 4.

Record TokenCharge := { tk_variable : Z; tk_stable : Z }.

Definition charge_total (c : TokenCharge) : Z := tk_variable c + tk_stable c.

Definition estimateContentTokens (s : string) : Z := rune_count s / estimateCharsPerToken.

Definition sum_of {A} (f : A → Z) (l : list A) : Z := fold_right (λ x n, f x + n) 0 l.

Definition estimateTokens (messages : list Message) : Z :=
  sum_of (λ m, estimatePerMessageOverhead + estimateContentTokens (m_content m)
    + estimateContentTokens (m_role m)
    + sum_of (λ tc, estimateToolCallOverhead + estimateContentTokens (fc_name (tc_function tc))
                    + estimateContentTokens (fc_arguments (tc_function tc))) (m_tool_calls m))
    messages.

Section Estimate.
Context `{JsonText}.

Definition estimateStableTokens (req : ChatRequest) : Z :=
  sum_of (λ b, estimatePerSystemBlockOverhead + estimateContentTokens (sb_text b)) (cr_system_blocks req)
  + sum_of (λ t, let fn := td_function t in
      estimatePerToolSchemaOverhead + estimateContentTokens (fd_name fn)
      + estimateContentTokens (fd_description fn)
      + match fd_parameters fn with
        | Some ps => estimateContentTokens (json_marshal (GObj ps))
        | None => 0
        end) (cr_tools req).

Definition estimateRequestCharge (req : ChatRequest) : TokenCharge :=
  {| tk_variable := estimateTokens (cr_messages req); tk_stable := estimateStableTokens req |}.

Definition estimateRequestTokens (req : ChatRequest) : Z := charge_total (estimateRequestCharge req).

Lemma estimateContentTokens_nonneg s : 0 ≤ estimateContentTokens s.
Proof.
  apply Z.div_pos; [|done]. pose proof (rune_count_skip_bounds 0 s). unfold rune_count. lia.
Qed.

Lemma sum_of_nonneg {A} (f : A → Z) l : (∀ x, 0 ≤ f x) → 0 ≤ sum_of f l.
Proof. intros Hf. unfold sum_of. induction l as [|x l IH]; cbn; [done|]. specialize (Hf x). lia. Qed.

Lemma sum_of_app {A} (f : A → Z) l1 l2 : sum_of f (l1 ++ l2) = sum_of f l1 + sum_of f l2.
Proof. unfold sum_of in *. induction l1 as [|x l IH]; cbn; [done|]. rewrite IH. lia. Qed.

Ltac est := repeat first
  [ apply Z.add_nonneg_nonneg | apply sum_of_nonneg; intros ? | apply estimateContentTokens_nonneg | done ].

Lemma estimateTokens_nonneg ms : 0 ≤ estimateTokens ms.
Proof. unfold estimateTokens. est. Qed.

Lemma estimateStableTokens_nonneg req : 0 ≤ estimateStableTokens req.
Proof. unfold estimateStableTokens. est. destruct (fd_parameters _); est. Qed.

Lemma estimateTokens_app ms1 ms2 : estimateTokens (ms1 ++ ms2) = estimateTokens ms1 + estimateTokens ms2.
Proof. apply sum_of_app. Qed.
End Estimate.

(** ** [maxtokens.go] *)

Definition maxTokensSonnetDefault : Z := 8192.
Definition maxTokensHaikuDefault : Z := 4096.
Definition maxTokensOpusDefault : Z := 8192.
Definition maxTokensUnknownDefault : Z := 4096.

Definition maxTokensByModel : gmap string Z := list_to_map
  [("claude-sonnet-4-6", maxTokensSonnetDefault); ("claude-haiku-4-5", maxTokensHaikuDefault);
   ("claude-haiku-4-5-20251001", maxTokensHaikuDefault); ("claude-opus-4-7", maxTokensOpusDefault);
   ("claude-opus-4-6", maxTokensOpusDefault); ("claude-sonnet-4-5", maxTokensSonnetDefault);
   ("claude-sonnet-4-5-20250929", maxTokensSonnetDefault)]%string.

Definition DefaultMaxTokensFor (model : string) : Z :=
  match maxTokensByModel !! model with
  | Some v => v
  | None =>
      match index_of "/" model with
      | Some i =>
          match maxTokensByModel !! str_drop (S i) model with
          | Some v => v
          | None => maxTokensUnknownDefault
          end
      | None => maxTokensUnknownDefault
      end
  end.

(** ** [pricing.go] *)

Definition cents (n : Z) : Q := (n # 100)%Q.

Definition modelPricing : gmap string (Q * Q) := list_to_map
  [("anthropic/claude-sonnet-4-6", (cents 300, cents 1500));
   ("anthropic/claude-haiku-4-5", (cents 100, cents 500));
   ("anthropic/claude-opus-4-7", (cents 500, cents 2500));
   ("openai/gpt-4o-mini", (cents 15, cents 60));
   ("dall-e-3", (cents 4, cents 4));
   ("deepseek-v4-flash", (cents 360, cents 600))]%string.

Definition cut_prefix (prefix s : string) : option string :=
  if String.prefix prefix s then Some (str_drop (String.length prefix) s) else None.

Definition NormalizeModelID (modelID : string) : string :=
  match cut_prefix "gpt://" modelID with
  | None => modelID
  | Some rest =>
      match split_on "/" rest with
      | _ :: m :: _ => m
      | _ => modelID
      end
  end.

Definition PriceFor (modelID : string) : Q * Q :=
  match modelPricing !! NormalizeModelID modelID with
  | Some p => p
  | None => (0%Q, 0%Q)
  end.

Example folder_qualified_price :
  PriceFor "gpt://b1g-folder/deepseek-v4-flash/latest" = (cents 360, cents 600) ∧
  DefaultMaxTokensFor "anthropic/claude-sonnet-4-6" = 8192 ∧
  rune_count "привет, мир" = 11.
Proof. vm_compute. done. Qed.

(** ** Errors ([router.go], [ratelimit.go]) and [transient.go] *)

(** An error of a provider SDK, by what [errors.As] finds in it: a [net.Error]
    with its [Timeout] and [Temporary], the status of an OpenAI or an Anthropic
    API error. *)
Record ProviderError := {
  pe_text : string;
  pe_net : option (bool * bool);
  pe_openai : option Z;
  pe_anthropic : option Z;
}.

Inductive LLMError :=
| ErrNoProvider
| ErrRateLimitExceeded
| ErrDailySpendExceeded
| ErrRateLimitUnavailable
| ErrUnknownTier (tier : string)
| ErrNilProviderResponse
| ErrProvider (e : ProviderError).

Definition retryable_status (code : Z) : bool := (code =? 429) || ((500 <=? code) && (code <? 600)).

Definition isTransientLLMError (err : LLMError) : bool :=
  match err with
  | ErrNilProviderResponse => true
  | ErrProvider e =>
      if match pe_net e with Some (timeout, temporary) => timeout || temporary | None => false end then true
      else match pe_openai e with
           | Some code => retryable_status code
           | None =>
               match pe_anthropic e with
               | Some code => retryable_status code
               | None =>
                   str_contains (pe_text e) "429" || str_contains (pe_text e) "502"
                   || str_contains (pe_text e) "503" || str_contains (pe_text e) "504"
               end
           end
  | _ => false
  end.
