(* ===== verification/AgentLoop.v ===== *)
(** * The agent loop

    [src/services/orchestrator/internal/orchestrator]: [orchestrator.go]
    ([Run], [dispatchToolCalls]), [step.go] ([stepRun]), [rejection.go],
    [redact.go].

    The environment of a run is a value [Env]: the events delivered so far, the
    LLM requests made, the tool calls executed, the world the tools act on and
    the approval store.  What the environment chooses is given by parameters
    that range over all behaviours: the LLM's answer to each request, each
    tool's outcome, the instant the context is cancelled and, once it is, which
    branch each [select] takes, and the order in which the goroutines of a
    parallel batch finish.  The locale is the question whether it is English. *)

From S2P Require Import Prelude Json GoTime Types Policy Registry Mongo HitlStore A2A ModelLimits.
From Stdlib Require Import QArith.
Close Scope Q_scope.
Local Open Scope go_scope.

(** ** Events *)

Inductive EventType :=
| EventText | EventToolCall | EventToolResult | EventError | EventDone
| EventToolApprovalRequired | EventToolRejected.

#[export] Instance EventType_eq_dec : EqDecision EventType.
Proof. solve_decision. Defined.

Record Event := {
  oe_type : EventType;
  oe_code : string;
  oe_content : string;
  oe_call_id : string;
  oe_tool_name : string;
  oe_display_name : string;
  oe_display_name_key : string;
  oe_args : gomap;
  oe_result : gval;
  oe_tool_error : string;
  oe_batch_id : string;
  oe_calls : list ApprovalCall;
}.

Definition plain_event (t : EventType) (code content : string) : Event := {|
  oe_type := t; oe_code := code; oe_content := content; oe_call_id := ""; oe_tool_name := "";
  oe_display_name := ""; oe_display_name_key := ""; oe_args := None; oe_result := GNull;
  oe_tool_error := ""; oe_batch_id := ""; oe_calls := [] |}.

Definition rejected_event (callID toolName reason : string) : Event := {|
  oe_type := EventToolRejected; oe_code := ""; oe_content := reason; oe_call_id := callID;
  oe_tool_name := toolName; oe_display_name := ""; oe_display_name_key := ""; oe_args := None;
  oe_result := GNull; oe_tool_error := ""; oe_batch_id := ""; oe_calls := [] |}.

Definition call_event (callID toolName display key : string) (args : gomap) : Event := {|
  oe_type := EventToolCall; oe_code := ""; oe_content := ""; oe_call_id := callID;
  oe_tool_name := toolName; oe_display_name := display; oe_display_name_key := key; oe_args := args;
  oe_result := GNull; oe_tool_error := ""; oe_batch_id := ""; oe_calls := [] |}.

Definition result_event (callID toolName display key : string) (result : gval) (error code : string)
  : Event := {|
  oe_type := EventToolResult; oe_code := code; oe_content := ""; oe_call_id := callID;
  oe_tool_name := toolName; oe_display_name := display; oe_display_name_key := key; oe_args := None;
  oe_result := result; oe_tool_error := error; oe_batch_id := ""; oe_calls := [] |}.

Definition approval_event (batchID : string) (calls : list ApprovalCall) : Event := {|
  oe_type := EventToolApprovalRequired; oe_code := ""; oe_content := ""; oe_call_id := "";
  oe_tool_name := ""; oe_display_name := ""; oe_display_name_key := ""; oe_args := None;
  oe_result := GNull; oe_tool_error := ""; oe_batch_id := batchID; oe_calls := calls |}.

(** ** User-facing texts ([step.go]) *)

Definition friendlyConversationCapMessage (english : bool) : string :=
  if english then "This conversation has reached its token limit. Start a new chat to continue."
  else "Этот диалог достиг лимита токенов. Создайте новый чат, чтобы продолжить.".

Definition friendlyMaxIterationsMessage (english : bool) : string :=
  if english then "Could not complete the request — the task was too complex. Try rephrasing it or breaking it into smaller steps."
  else "Не получилось завершить запрос — действие оказалось слишком сложным. Попробуйте сформулировать его проще или разбить на части.".

Definition friendlyInternalErrorMessage (english : bool) : string :=
  if english then "Something went wrong on our side. Please try again in a moment."
  else "Произошла внутренняя ошибка. Попробуйте ещё раз чуть позже.".

Definition friendlyApprovalExpiredMessage (english : bool) : string :=
  if english then "The approval window for this action has expired. Send a new message to continue."
  else "Время на подтверждение действия истекло. Отправьте новое сообщение, чтобы продолжить.".

Definition internal_error (english : bool) : Event :=
  plain_event EventError "internal_error" (friendlyInternalErrorMessage english).

Definition translateChatError (english : bool) (err : LLMError) : Event :=
  match err with
  | ErrDailySpendExceeded => plain_event EventError "daily_spend_exceeded"
      (if english then "Daily spend limit reached for this business. Try again tomorrow."
       else "Достигнут дневной лимит расходов для этого бизнеса. Попробуйте завтра.")
  | ErrRateLimitUnavailable => plain_event EventError "rate_limit_unavailable"
      (if english then "Rate limiter is temporarily unavailable. Please try again shortly."
       else "Сервис ограничения запросов временно недоступен. Попробуйте позже.")
  | ErrRateLimitExceeded => plain_event EventError "rate_limit_exceeded"
      (if english then "Too many requests. Wait a minute and try again."
       else "Слишком много запросов. Подождите минуту и повторите.")
  | _ => internal_error english
  end.

(** ** [rejection.go] *)

Inductive rejectionSource := rejectionByOwner | rejectionByPolicy | rejectionByDecisionState.

Definition rejection_source_text (s : rejectionSource) : string :=
  match s with
  | rejectionByOwner => "owner"
  | rejectionByPolicy => "policy"
  | rejectionByDecisionState => "decision_state"
  end.

Definition reasonPolicyForbidden : string := "policy_forbidden".
Definition reasonPolicyRevoked : string := "policy_revoked".
Definition reasonUserRejected : string := "user_rejected".
Definition reasonDecisionUnavailable : string := "decision_unavailable".

Definition decisionUnavailableNote : string :=
  "No valid approval decision is available for this action. " +:+
  "The call was never sent to the platform. This does not mean the owner declined it. " +:+
  "Do not retry it or substitute another channel or tool; ask the owner for a new approval.".
Definition ownerRejectionNote : string :=
  "The business owner declined this action on the OneVoice approval card. " +:+
  "The call was never sent to the platform. Do not retry it and do not substitute another channel or tool; " +:+
  "tell the owner the action was canceled and ask what to change.".
Definition policyForbiddenNote : string :=
  "This tool is disabled for the current project or business by the OneVoice tool policy " +:+
  "(Settings -> Tools). The call was never sent to the platform, and the platform itself raised no error. " +:+
  "Do not retry it and do not substitute another channel; tell the owner the tool is switched off in OneVoice settings.".
Definition policyRevokedNote : string :=
  "The OneVoice tool policy for this business or project changed after the approval card was shown " +:+
  "and now forbids this tool. The call was never sent to the platform. Do not retry it and do not substitute " +:+
  "another channel; tell the owner the permission was withdrawn in OneVoice settings.".

Definition buildRejectionMessage `{JsonText} (by_ : rejectionSource) (reason note : string) : string :=
  json_marshal (GObj [("rejected", GBool true); ("by", GStr (rejection_source_text by_));
                      ("reason", GStr reason); ("note", GStr note)]).

(** ** [redact.go] *)

Definition redact_message (scrub : string → string) (m : Message) : Message := {|
  m_role := m_role m; m_content := scrub (m_content m);
  m_tool_calls := (λ tc, {| tc_id := tc_id tc; tc_type := tc_type tc;
      tc_function := {| fc_name := fc_name (tc_function tc);
                        fc_arguments := scrub (fc_arguments (tc_function tc)) |} |}) <$> m_tool_calls m;
  m_tool_call_id := m_tool_call_id m |}.

Definition redact_blocks (scrub : string → string) (bs : list SystemBlock) : list SystemBlock :=
  match bs with
  | [] => []
  | b :: rest => b :: ((λ b, {| sb_text := scrub (sb_text b); sb_cache_boundary := sb_cache_boundary b |}) <$> rest)
  end.

Definition redactRequestPDn (scrub : string → string) (req : ChatRequest) : ChatRequest := {|
  cr_user_id := cr_user_id req; cr_business_id := cr_business_id req;
  cr_conversation_id := cr_conversation_id req; cr_model := cr_model req;
  cr_messages := redact_message scrub <$> cr_messages req;
  cr_system_blocks := redact_blocks scrub (cr_system_blocks req);
  cr_tools := cr_tools req; cr_max_tokens := cr_max_tokens req; cr_temperature := cr_temperature req;
  cr_top_p := cr_top_p req; cr_stop := cr_stop req; cr_request_id := cr_request_id req;
  cr_tier := cr_tier req; cr_strategy := cr_strategy req |}.

(** Phone and website, trimmed and non-empty. *)
Definition businessContactAllowlist (phone website : string) : list string :=
  filterb (λ s, negb (String.eqb s "")) [trim_space phone; trim_space website].

(** ** State *)

Inductive StepOutcome := OutcomeDone | OutcomePaused | OutcomeError | OutcomeMaxIterations.

Record RunState := {
  st_messages : list Message;
  st_system_platform : string;
  st_system_business : string;
  st_tools : list ToolDefinition;
  st_selected_platforms : list string;
  st_platform_scope_set : bool;
  st_pdn_allowlist : list string;
  st_business_approvals : gmap string string;
  st_project_overrides : gmap string string;
  st_conversation_id : string;
  st_business_id : string;
  st_project_id : string;
  st_user_id : string;
  st_message_id : string;
  st_model : string;
  st_tier : string;
  st_user_uuid : uuid;
  st_iter : Z;
  st_input_tokens : Z;
  st_output_tokens : Z;
}.

(** The loop writes messages, counters and the iteration index. *)
Definition set_loop (ms : list Message) (iter inp out : Z) (st : RunState) : RunState := {|
  st_messages := ms; st_system_platform := st_system_platform st;
  st_system_business := st_system_business st; st_tools := st_tools st;
  st_selected_platforms := st_selected_platforms st; st_platform_scope_set := st_platform_scope_set st;
  st_pdn_allowlist := st_pdn_allowlist st; st_business_approvals := st_business_approvals st;
  st_project_overrides := st_project_overrides st; st_conversation_id := st_conversation_id st;
  st_business_id := st_business_id st; st_project_id := st_project_id st; st_user_id := st_user_id st;
  st_message_id := st_message_id st; st_model := st_model st; st_tier := st_tier st;
  st_user_uuid := st_user_uuid st; st_iter := iter; st_input_tokens := inp; st_output_tokens := out |}.

Definition with_messages (ms : list Message) (st : RunState) : RunState :=
  set_loop ms (st_iter st) (st_input_tokens st) (st_output_tokens st) st.

Record Options := {
  MaxIterations : Z;
  ConversationInputCap : Z;
  ConversationOutputCap : Z;
  RedactOutboundPDn : bool;
}.

(** [NewWithOptions]. *)
Definition normalize_options (o : Options) : Options :=
  if (MaxIterations o <=? 0)%Z
  then {| MaxIterations := 10; ConversationInputCap := ConversationInputCap o;
          ConversationOutputCap := ConversationOutputCap o; RedactOutboundPDn := RedactOutboundPDn o |}
  else o.

(** A tool call that reached an executor. *)
Record Ran := { ran_name : string; ran_args : gomap; ran_approval : option string }.

Inductive chat_outcome :=
| ChatOk (r : ChatResponse)
| ChatErr (e : LLMError)
| ChatPanic.

Inductive tool_outcome :=
| ToolOk (v : gval)
| ToolErr (e : goerr)
| ToolPanic.

(** The order in which the goroutines of a batch finish: an instance picks one
    per batch, a theorem stated for every instance holds for all. *)
Class Scheduler := {
  schedule : ∀ {A}, nat → list A → list A;
  schedule_perm : ∀ {A} n (l : list A), schedule n l ≡ₚ l;
}.

Program Definition in_order : Scheduler := {| schedule := λ A _ l, l |}.

Record Env {W C : Type} := {
  en_tick : nat;
  en_sent : list Event;
  en_requests : list ChatRequest;
  en_ran : list Ran;
  en_world : W;
  en_store : C;
}.
Arguments Env : clear implicits.

(** ** Pure helpers of the loop *)

Definition offeredToolSet (defs : list ToolDefinition) : list string := def_name <$> defs.

Definition call_name (tc : ToolCall) : string := fc_name (tc_function tc).

Definition enforceOffered (classified forbiddenCalls : list ToolCall) (offered : list string)
  : list ToolCall * list ToolCall :=
  fold_left (λ acc tc, let '(allowed, forbidden) := acc in
      if list_mem (call_name tc) offered then (allowed ++ [tc], forbidden)
      else (allowed, forbidden ++ [tc])) classified ([], forbiddenCalls).

Definition tool_message (callID content : string) : Message :=
  {| m_role := "tool"; m_content := content; m_tool_calls := []; m_tool_call_id := callID |}.

Definition assistant_message (content : string) (calls : list ToolCall) : Message :=
  {| m_role := "assistant"; m_content := content; m_tool_calls := calls; m_tool_call_id := "" |}.

Section Parsing.
Context `{JsonText}.

Definition parseToolArgs (raw : string) : gomap :=
  if String.eqb raw "" then Some []
  else match json_unmarshal raw with
       | Some (GObj l) => Some l
       | Some GNull => None
       | _ => Some [("raw", GStr raw)]
       end.

(** The argument parse of [buildPendingBatch] and [summarizeManualCalls]: no
    arguments leave the map nil. *)
Definition pending_args (raw : string) : gomap :=
  if String.eqb raw "" then None else parseToolArgs raw.

(** [modelMessagesSnapshotV2]. *)
Record Snapshot := {
  sn_messages : list Message;
  sn_system_platform : string;
  sn_system_business : string;
  sn_pdn_allowlist : list string;
  sn_input_tokens : Z;
  sn_output_tokens : Z;
  sn_legacy : bool;
}.

Definition enc_snapshot (s : Snapshot) : gval := struct_enc
  [("v", Some (GNum 2)); ("messages", Some (GArr (enc_message <$> sn_messages s)));
   ("system_platform", omit_str (sn_system_platform s));
   ("system_business", omit_str (sn_system_business s));
   ("pdn_allowlist", omit_list GStr (sn_pdn_allowlist s));
   ("accumulated_input_tokens", omit_int (sn_input_tokens s));
   ("accumulated_output_tokens", omit_int (sn_output_tokens s))].

Definition snapshot_of (st : RunState) : Snapshot := {|
  sn_messages := st_messages st; sn_system_platform := st_system_platform st;
  sn_system_business := st_system_business st; sn_pdn_allowlist := st_pdn_allowlist st;
  sn_input_tokens := st_input_tokens st; sn_output_tokens := st_output_tokens st;
  sn_legacy := false |}.

Definition empty_snapshot (legacy : bool) (ms : list Message) : Snapshot := {|
  sn_messages := ms; sn_system_platform := ""; sn_system_business := ""; sn_pdn_allowlist := [];
  sn_input_tokens := 0; sn_output_tokens := 0; sn_legacy := legacy |}.

Definition dec_snapshot (v : gval) : option Snapshot :=
  match v with
  | GObj l =>
      _ ← dec_int (obj_get "v" l); ms ← dec_list dec_message (obj_get "messages" l);
      p ← dec_str (obj_get "system_platform" l); b ← dec_str (obj_get "system_business" l);
      a ← dec_list dec_str1 (obj_get "pdn_allowlist" l);
      i ← dec_int (obj_get "accumulated_input_tokens" l);
      o ← dec_int (obj_get "accumulated_output_tokens" l);
      mret {| sn_messages := ms; sn_system_platform := p; sn_system_business := b;
              sn_pdn_allowlist := a; sn_input_tokens := i; sn_output_tokens := o; sn_legacy := false |}
  | _ => None
  end.

(** [decodeSnapshot] ([resume.go]): an object is the versioned envelope, anything
    else the legacy message array. *)
Definition decodeSnapshot (raw : string) : option Snapshot :=
  match skip_ws raw with
  | EmptyString => Some (empty_snapshot false [])
  | String c _ =>
      v ← json_unmarshal raw;
      if Ascii.eqb c "{" then dec_snapshot v
      else empty_snapshot true <$> dec_list dec_message (Some v)
  end.

Lemma dec_enc_snapshot s : sn_legacy s = false → dec_snapshot (enc_snapshot s) = Some s.
Proof.
  destruct s as [ms p b a i o lg]. cbn [sn_legacy]. intros ->.
  unfold dec_snapshot, enc_snapshot, struct_enc.
  cbn [sn_messages sn_system_platform sn_system_business sn_pdn_allowlist sn_input_tokens sn_output_tokens].
  codec. rewrite dec_list_map by exact dec_enc_message. codec.
  rewrite dec_omit_list by done. by codec.
Qed.

Lemma decode_snapshot_of s : sn_legacy s = false → decodeSnapshot (json_marshal (enc_snapshot s)) = Some s.
Proof.
  intros Hl. unfold decodeSnapshot. destruct (json_head_obj (struct_members
    [("v", Some (GNum 2)); ("messages", Some (GArr (enc_message <$> sn_messages s)));
     ("system_platform", omit_str (sn_system_platform s));
     ("system_business", omit_str (sn_system_business s));
     ("pdn_allowlist", omit_list GStr (sn_pdn_allowlist s));
     ("accumulated_input_tokens", omit_int (sn_input_tokens s));
     ("accumulated_output_tokens", omit_int (sn_output_tokens s))])) as [t Ht].
  assert (json_marshal (enc_snapshot s) = String "{" t) as Hm by exact Ht.
  rewrite json_roundtrip. rewrite Hm. cbn -[dec_snapshot]. by apply dec_enc_snapshot.
Qed.

Definition pending_call (tc : ToolCall) : PendingCall := {|
  pc_call_id := tc_id tc; pc_tool_name := call_name tc;
  pc_arguments := pending_args (fc_arguments (tc_function tc)); pc_floor_at_pause := ToolFloorManual;
  pc_verdict := ""; pc_edited_args := None; pc_reject_reason := ""; pc_dispatched := false;
  pc_dispatched_at := None |}.

Definition buildPendingBatch (batchID : string) (st : RunState) (manualCalls : list ToolCall)
  : PendingToolCallBatch := {|
  b_id := batchID; b_conversation_id := st_conversation_id st; b_business_id := st_business_id st;
  b_project_id := st_project_id st; b_user_id := st_user_id st; b_message_id := st_message_id st;
  b_selected_platforms := st_selected_platforms st; b_platform_scope_set := st_platform_scope_set st;
  b_status := ""; b_calls := pending_call <$> manualCalls;
  b_model_messages := json_marshal (enc_snapshot (snapshot_of st)); b_iteration_idx := st_iter st;
  b_created_at := 0; b_updated_at := 0; b_expires_at := None |}.
End Parsing.

Definition tool_error_payload (name : string) (e : goerr) : gval :=
  GObj [("error", GStr (error_text e)); ("tool_name", GStr name)].

(** ** Histories a provider accepts

    Every tool call of an assistant message must be answered by one tool message
    before anything else follows: [owed aw ms] reads [ms] while the calls [aw]
    are unanswered, and returns those unanswered at the end. *)

Fixpoint remove_first (x : string) (l : list string) : option (list string) :=
  match l with
  | [] => None
  | y :: l' => if String.eqb x y then Some l' else cons y <$> remove_first x l'
  end.

Fixpoint owed (aw : list string) (ms : list Message) : option (list string) :=
  match ms with
  | [] => Some aw
  | m :: ms' =>
      if String.eqb (m_role m) "tool" then
        match remove_first (m_tool_call_id m) aw with
        | Some aw' => owed aw' ms'
        | None => None
        end
      else match aw with
           | [] => owed (tc_id <$> m_tool_calls m) ms'
           | _ => None
           end
  end.

Definition answered (ms : list Message) : Prop := owed [] ms = Some [].

Lemma owed_app aw ms1 ms2 : owed aw (ms1 ++ ms2) = aw' ← owed aw ms1; owed aw' ms2.
Proof.
  revert aw. induction ms1 as [|m ms1 IH]; intros aw; cbn; [done|].
  destruct (String.eqb (m_role m) "tool").
  - destruct (remove_first _ aw); [apply IH|done].
  - destruct aw; [apply IH|done].
Qed.

Lemma remove_first_elem x l : x ∈ l → ∃ l', remove_first x l = Some l' ∧ l ≡ₚ x :: l'.
Proof.
  induction l as [|y l IH]; cbn; [by intros ?%elem_of_nil|].
  destruct (String.eqb_spec x y) as [->|Hne]; [eauto|].
  intros [->|Hin]%elem_of_cons; [done|]. destruct (IH Hin) as (l' & -> & Hp).
  exists (y :: l'). split; [done|]. rewrite Hp. solve_Permutation.
Qed.

(** Tool messages that answer calls still open close exactly those. *)
Lemma owed_tools aw ms rest :
  (∀ m, m ∈ ms → m_role m = "tool") → aw ≡ₚ (m_tool_call_id <$> ms) ++ rest →
  ∃ aw', owed aw ms = Some aw' ∧ aw' ≡ₚ rest.
Proof.
  revert aw. induction ms as [|m ms IH]; intros aw Hr Hp; cbn in *; [eauto|].
  rewrite (Hr m) by constructor. cbn.
  destruct (remove_first_elem (m_tool_call_id m) aw) as (aw1 & -> & Hp1);
    [rewrite Hp; constructor|].
  apply IH; [intros; apply Hr; by constructor|].
  apply (Permutation_cons_inv (a := m_tool_call_id m)). by rewrite <- Hp1, Hp.
Qed.

Lemma owed_assistant ms content calls aw :
  owed [] ms = Some [] → owed [] (ms ++ assistant_message content calls :: aw) = owed (tc_id <$> calls) aw.
Proof. intros Ha. rewrite owed_app, Ha. done. Qed.

(** After an assistant message, tool messages for some of its calls leave the
    others open. *)
Lemma owed_turn ms content calls replies rest :
  answered ms → (∀ m, m ∈ replies → m_role m = "tool") →
  tc_id <$> calls ≡ₚ (m_tool_call_id <$> replies) ++ rest →
  ∃ aw, owed [] (ms ++ assistant_message content calls :: replies) = Some aw ∧ aw ≡ₚ rest.
Proof. intros Ha Hr Hp. rewrite owed_assistant by done. by apply owed_tools. Qed.

Lemma owed_redact scrub aw ms : owed aw (redact_message scrub <$> ms) = owed aw ms.
Proof.
  revert aw. induction ms as [|m ms IH]; intros aw; cbn; [done|].
  destruct (String.eqb (m_role m) "tool"); [destruct (remove_first _ aw); [apply IH|done]|].
  destruct aw; [|done]. rewrite IH, <- list_fmap_compose. done.
Qed.

(** ** The loop *)

Section Loop.
Context `{J : JsonText} `{MR : MapRange} `{U : UUIDText} `{Sch : Scheduler}.
Context `{St : Coll PendingToolCallBatch b_id} {X W : Type}.
(** The tool catalog, the options, the locale, whether a store is wired. *)
Variables (reg : Registry X) (opts : Options) (english has_repo : bool).
(** The environment's choices. *)
Variables (llm_chat : nat → ChatRequest → chat_outcome)
          (tool_run : Invocation X → W → tool_outcome * W)
          (RedactPIIExcept : string → list string → string)
          (cancel_at : option nat) (pick : nat → bool)
          (clock : nat → Z) (new_uuid : nat → string).

Notation E := (Env W coll).

Definition cancelled (t : nat) : bool :=
  match cancel_at with Some c => Nat.leb c t | None => false end.

Definition tick (sent : list Event) (e : E) : E := {|
  en_tick := S (en_tick e); en_sent := sent; en_requests := en_requests e; en_ran := en_ran e;
  en_world := en_world e; en_store := en_store e |}.

(** [select { case out <- ev: case <-ctx.Done(): }]. *)
Definition send (ev : Event) (e : E) : bool * E :=
  if negb (cancelled (en_tick e)) || pick (en_tick e)
  then (true, tick (en_sent e ++ [ev]) e) else (false, tick (en_sent e) e).

Definition chat (req : ChatRequest) (e : E) : chat_outcome * E :=
  (llm_chat (length (en_requests e)) req,
   {| en_tick := en_tick e; en_sent := en_sent e; en_requests := en_requests e ++ [req];
      en_ran := en_ran e; en_world := en_world e; en_store := en_store e |}).

Definition ctx_err : goerr := EText "context canceled".

Definition registry_err (err : RegistryError) : goerr :=
  match err with
  | UnknownTool name => EText ("unknown tool: " +:+ go_quote name)
  | NoExecutor name => EText ("tool " +:+ go_quote name +:+ " has no executor (NATS unavailable)")
  end.

(** An execution through the registry; only a call that reaches an executor is
    recorded. *)
Definition invoke (name : string) (args : gomap) (inv : result RegistryError (Invocation X)) (e : E)
  : tool_outcome * E :=
  match inv with
  | Err err => (ToolErr (registry_err err), e)
  | Ok i =>
      let '(o, w) := tool_run i (en_world e) in
      (o, {| en_tick := en_tick e; en_sent := en_sent e; en_requests := en_requests e;
             en_ran := en_ran e ++ [{| ran_name := name; ran_args := args; ran_approval := inv_approval i |}];
             en_world := w; en_store := en_store e |})
  end.

(** A panic of the tool becomes that call's error ([recoverToolPanic]). *)
Definition tool_result (o : tool_outcome) : gval * option goerr :=
  match o with
  | ToolOk v => (v, None)
  | ToolErr e => (GNull, Some e)
  | ToolPanic => (GNull, Some (EText "internal tool error"))
  end.

Definition executeOne (name : string) (args : gomap) (e : E) : tool_outcome * E :=
  invoke name args (Execute reg name args) e.

Definition buildToolResultEvent (tc : ToolCall) (result : gval) (execErr : option goerr) : Event :=
  result_event (tc_id tc) (call_name tc) (DisplayName reg (call_name tc)) (DisplayNameKey reg (call_name tc))
    (match execErr with Some err => tool_error_payload (call_name tc) err | None => result end)
    (match execErr with Some err => error_text err | None => "" end)
    (match execErr with Some err => CodeOf err | None => "" end).

(** The announcements, in order; [false] when the context was cancelled. *)
Fixpoint announce (calls : list ToolCall) (e : E) : bool * E :=
  match calls with
  | [] => (true, e)
  | tc :: rest =>
      let '(ok, e) := send (call_event (tc_id tc) (call_name tc) (DisplayName reg (call_name tc))
        (DisplayNameKey reg (call_name tc)) (parseToolArgs (fc_arguments (tc_function tc)))) e in
      if ok then announce rest e else (false, e)
  end.

(** One goroutine of the batch: execute, store the outcome in its slot, report. *)
Definition run_one (i : nat) (tc : ToolCall) (outcomes : list (gval * option goerr)) (e : E)
  : list (gval * option goerr) * E :=
  let '(o, e) := executeOne (call_name tc) (parseToolArgs (fc_arguments (tc_function tc))) e in
  let r := tool_result o in
  let '(_, e) := send (buildToolResultEvent tc r.1 r.2) e in
  (<[i := r]> outcomes, e).

Fixpoint run_all (work : list (nat * ToolCall)) (outcomes : list (gval * option goerr)) (e : E)
  : list (gval * option goerr) * E :=
  match work with
  | [] => (outcomes, e)
  | (i, tc) :: rest => let '(outcomes, e) := run_one i tc outcomes e in run_all rest outcomes e
  end.

Definition outcome_message (tc : ToolCall) (r : gval * option goerr) : Message :=
  tool_message (tc_id tc) (json_marshal
    (match r.2 with Some err => tool_error_payload (call_name tc) err | None => r.1 end)).

Definition dispatchToolCalls (calls : list ToolCall) (messages : list Message) (e : E)
  : bool * list Message * E :=
  let '(ok, e) := announce calls e in
  if negb ok then (false, messages, e)
  else
    let work := schedule (en_tick e) (imap pair calls) in
    let '(outcomes, e) := run_all work (replicate (length calls) (GNull, None)) e in
    if cancelled (en_tick e) then (false, messages, e)
    else (true, messages ++ zip_with outcome_message calls outcomes, e).

Definition parseBizID (s : string) : uuid :=
  if String.eqb s "" then uuid_nil else default uuid_nil (uuid_parse s).

Definition chat_request (st : RunState) : ChatRequest := {|
  cr_user_id := st_user_uuid st; cr_business_id := parseBizID (st_business_id st);
  cr_conversation_id := st_conversation_id st; cr_model := st_model st;
  cr_messages := st_messages st;
  cr_system_blocks :=
    if negb (String.eqb (st_system_platform st) "") || negb (String.eqb (st_system_business st) "")
    then [{| sb_text := st_system_platform st; sb_cache_boundary := true |};
          {| sb_text := st_system_business st; sb_cache_boundary := false |}]
    else [];
  cr_tools := st_tools st; cr_max_tokens := DefaultMaxTokensFor (st_model st);
  cr_temperature := 0%Q; cr_top_p := 0%Q; cr_stop := []; cr_request_id := ""; cr_tier := st_tier st;
  cr_strategy := StrategyCost |}.

Definition applyOutboundRedaction (req : ChatRequest) (allow : list string) : ChatRequest :=
  if RedactOutboundPDn opts then redactRequestPDn (λ s, RedactPIIExcept s allow) req else req.

Definition summarizeManualCalls (calls : list ToolCall) : list ApprovalCall :=
  (λ tc, {| ac_call_id := tc_id tc; ac_tool_name := call_name tc;
            ac_args := pending_args (fc_arguments (tc_function tc));
            ac_editable_fields := EditableFields reg (call_name tc);
            ac_floor := ToolFloorManual |}) <$> calls.

Definition forbidden_message (tc : ToolCall) : Message :=
  tool_message (tc_id tc) (buildRejectionMessage rejectionByPolicy reasonPolicyForbidden policyForbiddenNote).

Fixpoint reject_forbidden (calls : list ToolCall) (messages : list Message) (e : E)
  : bool * list Message * E :=
  match calls with
  | [] => (true, messages, e)
  | tc :: rest =>
      let messages := messages ++ [forbidden_message tc] in
      let '(ok, e) := send (rejected_event (tc_id tc) (call_name tc) reasonPolicyForbidden) e in
      if ok then reject_forbidden rest messages e else (false, messages, e)
  end.

(** How an iteration ends: the loop goes on, [stepRun] returns, or the LLM call
    panicked. *)
Inductive step_end :=
| Continue (st : RunState)
| Return (o : StepOutcome) (batchID : string) (err : option goerr) (st : RunState)
| Crash.

Definition llm_goerr (err : LLMError) : goerr :=
  EText (match err with ErrProvider p => pe_text p | _ => "llm" end).

Definition cap_hit (st : RunState) : bool :=
  ((0 <? ConversationInputCap opts) && (ConversationInputCap opts <=? st_input_tokens st)
   || (0 <? ConversationOutputCap opts) && (ConversationOutputCap opts <=? st_output_tokens st))%Z.

(** The pause: persist the batch, then announce it. *)
Definition pause (manualCalls : list ToolCall) (st : RunState) (e : E) : step_end * E :=
  if negb has_repo then
    let '(_, e) := send (internal_error english) e in
    (Return OutcomeError "" (Some (EText "HITL not configured: manual-floor tool classified but pendingRepo is nil")) st, e)
  else
    let batchID := new_uuid (length (en_requests e)) in
    let batch := buildPendingBatch batchID st manualCalls in
    let '(r, store) := Persist (clock (en_tick e)) batch (en_store e) in
    let e := {| en_tick := en_tick e; en_sent := en_sent e; en_requests := en_requests e;
                en_ran := en_ran e; en_world := en_world e; en_store := store |} in
    match r with
    | Err _ =>
        let '(_, e) := send (internal_error english) e in
        (Return OutcomeError "" (Some (EText "persist approval batch")) st, e)
    | Ok _ =>
        let '(ok, e) := send (approval_event batchID (summarizeManualCalls manualCalls)) e in
        (Return OutcomePaused batchID (if ok then None else Some ctx_err) st, e)
    end.

(** The three buckets of a response, with the whitelist boundary re-asserted. *)
Definition classify_calls (st : RunState) (calls : list ToolCall)
  : list ToolCall * list ToolCall * list ToolCall :=
  let '(autoCalls, manualCalls, forbiddenCalls) :=
    Hitl.Bucket (Floor reg) (st_business_approvals st) (st_project_overrides st) calls in
  let offered := offeredToolSet (st_tools st) in
  let '(autoCalls, forbiddenCalls) := enforceOffered autoCalls forbiddenCalls offered in
  let '(manualCalls, forbiddenCalls) := enforceOffered manualCalls forbiddenCalls offered in
  (autoCalls, manualCalls, forbiddenCalls).

(** Everything after a response that proposes tool calls. *)
Definition handle_calls (resp : ChatResponse) (st : RunState) (e : E) : step_end * E :=
  let messages := st_messages st ++ [assistant_message (rs_content resp) (rs_tool_calls resp)] in
  let '(autoCalls, manualCalls, forbiddenCalls) := classify_calls st (rs_tool_calls resp) in
  let '(ok, messages, e) := reject_forbidden forbiddenCalls messages e in
  if negb ok then (Return OutcomeError "" (Some ctx_err) (with_messages messages st), e)
  else
    let '(ok, messages, e) :=
      match autoCalls with
      | [] => (true, messages, e)
      | _ => dispatchToolCalls autoCalls messages e
      end in
    let st := with_messages messages st in
    if negb ok then (Return OutcomeError "" (Some ctx_err) st, e)
    else
      match manualCalls with
      | [] => (Continue (set_loop (st_messages st) (st_iter st + 1) (st_input_tokens st)
                 (st_output_tokens st) st), e)
      | _ => pause manualCalls st e
      end.

(** One iteration of [stepRun]'s loop. *)
Definition step_once (st : RunState) (e : E) : step_end * E :=
  let '(out, e) := chat (applyOutboundRedaction (chat_request st) (st_pdn_allowlist st)) e in
  match out with
  | ChatPanic => (Crash, e)
  | ChatErr err =>
      let '(_, e) := send (translateChatError english err) e in
      (Return OutcomeError "" (Some (llm_goerr err)) st, e)
  | ChatOk resp =>
      let st := set_loop (st_messages st) (st_iter st) (st_input_tokens st + tu_input (rs_usage resp))
                  (st_output_tokens st + tu_output (rs_usage resp)) st in
      if cap_hit st then
        let '(_, e) := send (plain_event EventError "conversation_token_cap"
                               (friendlyConversationCapMessage english)) e in
        (Return OutcomeError "" (Some (EText "conversation token cap exceeded")) st, e)
      else
        let '(ok, e) := if String.eqb (rs_content resp) "" then (true, e)
                        else send (plain_event EventText "" (rs_content resp)) e in
        match rs_tool_calls resp with
        | [] =>
            if ok then let '(_, e) := send (plain_event EventDone "" "") e in (Return OutcomeDone "" None st, e)
            else (Return OutcomeDone "" None st, e)
        | _ => if ok then handle_calls resp st e else (Return OutcomeError "" (Some ctx_err) st, e)
        end
  end.

(** The end of a loop that has used up its iterations. *)
Definition max_reached (st : RunState) (e : E) : step_end * E :=
  let '(_, e) := send (plain_event EventError "max_iterations" (friendlyMaxIterationsMessage english)) e in
  (Return OutcomeMaxIterations "" None st, e).

(** [stepRun]'s loop: its test before each iteration.  With no fuel left it stops as
    [Continue], as a loop that would go on. *)
Fixpoint step_loop (fuel : nat) (st : RunState) (e : E) : step_end * E :=
  if (st_iter st <? MaxIterations opts)%Z then
    match fuel with
    | O => (Continue st, e)
    | S fuel =>
        match step_once st e with
        | (Continue st', e') => step_loop fuel st' e'
        | r => r
        end
    end
  else max_reached st e.

Definition loop_fuel (st : RunState) : nat := Z.to_nat (MaxIterations opts - st_iter st).

Definition stepRun (st : RunState) (e : E) : step_end * E := step_loop (loop_fuel st) st e.

(** The goroutine body: a panic becomes a terminal error event ([recoverToError]). *)
Definition run_goroutine (st : RunState) (e : E) : E :=
  match stepRun st e with
  | (Crash, e) => (send (internal_error english) e).2
  | (_, e) => e
  end.

(** ** [Run]

    Prompt assembly ([prompt.BuildSplit]) is a parameter; the business context is
    what it takes plus the two contact fields. *)
Section Run.
Context {BC PC : Type}.
Variables (BuildSplit : bool → BC → option PC → list Message → string * string * list Message)
          (contact_phone contact_website : BC → string).

Record RunRequest := {
  rr_user_id : uuid;
  rr_model : string;
  rr_business_context : BC;
  rr_project_context : option PC;
  rr_whitelist_mode : string;
  rr_allowed_tools : list string;
  rr_messages : list Message;
  rr_active_integrations : list string;
  rr_selected_platforms : list string;
  rr_platform_scope_set : bool;
  rr_tier : string;
  rr_conversation_id : string;
  rr_business_id : string;
  rr_project_id : string;
  rr_user_id_string : string;
  rr_message_id : string;
  rr_business_approvals : gmap string string;
  rr_project_overrides : gmap string string;
}.

Definition scoped_integrations (active : list string) (scope_set : bool) (selected : list string)
  : list string :=
  if scope_set then PlatformScope.IntersectSelectedPlatforms active selected else active.

Definition GenerateImage : string := "generate_image".

Definition run_state (req : RunRequest) : RunState :=
  let '(platform, business, history) := BuildSplit (Has reg GenerateImage) (rr_business_context req)
    (rr_project_context req) (rr_messages req) in
  {| st_messages := history; st_system_platform := platform; st_system_business := business;
     st_tools := AvailableForWhitelist english reg
       (scoped_integrations (rr_active_integrations req) (rr_platform_scope_set req)
          (rr_selected_platforms req)) (rr_whitelist_mode req) (rr_allowed_tools req);
     st_selected_platforms := rr_selected_platforms req;
     st_platform_scope_set := rr_platform_scope_set req;
     st_pdn_allowlist := businessContactAllowlist (contact_phone (rr_business_context req))
       (contact_website (rr_business_context req));
     st_business_approvals := rr_business_approvals req; st_project_overrides := rr_project_overrides req;
     st_conversation_id := rr_conversation_id req; st_business_id := rr_business_id req;
     st_project_id := rr_project_id req; st_user_id := rr_user_id_string req;
     st_message_id := rr_message_id req; st_model := rr_model req; st_tier := rr_tier req;
     st_user_uuid := rr_user_id req; st_iter := 0; st_input_tokens := 0; st_output_tokens := 0 |}.

Definition Run (req : RunRequest) (e : E) : E := run_goroutine (run_state req) e.
End Run.
End Loop.

(** ** What a run does to its environment *)

Section LoopFacts.
Context `{J : JsonText} `{MR : MapRange} `{U : UUIDText} `{Sch : Scheduler}.
Context `{St : Coll PendingToolCallBatch b_id} {X W : Type}.
Variables (reg : Registry X) (opts : Options) (english has_repo : bool).
Variables (llm_chat : nat → ChatRequest → chat_outcome)
          (tool_run : Invocation X → W → tool_outcome * W)
          (RedactPIIExcept : string → list string → string)
          (cancel_at : option nat) (pick : nat → bool)
          (clock : nat → Z) (new_uuid : nat → string).
Notation E := (Env W coll).
Notation send := (send cancel_at pick).
Notation cancelled := (cancelled cancel_at).
Notation announce := (announce reg cancel_at pick).
Notation run_all := (run_all reg tool_run cancel_at pick).
Notation dispatchToolCalls := (dispatchToolCalls reg tool_run cancel_at pick).
Notation reject_forbidden := (reject_forbidden cancel_at pick).
Notation pause := (pause reg english has_repo cancel_at pick clock new_uuid).
Notation handle_calls := (handle_calls reg english has_repo tool_run cancel_at pick clock new_uuid).
Notation step_once := (step_once reg opts english has_repo llm_chat tool_run RedactPIIExcept
  cancel_at pick clock new_uuid).
Notation step_loop := (step_loop reg opts english has_repo llm_chat tool_run RedactPIIExcept
  cancel_at pick clock new_uuid).
Notation max_reached := (max_reached english cancel_at pick).
Notation loop_fuel := (loop_fuel opts).
Notation stepRun := (stepRun reg opts english has_repo llm_chat tool_run RedactPIIExcept
  cancel_at pick clock new_uuid).
Notation run_goroutine := (run_goroutine reg opts english has_repo llm_chat tool_run RedactPIIExcept
  cancel_at pick clock new_uuid).

Implicit Types (e : Env W coll).

(** From [e] to [e'] the run only appended: events satisfying [P], executions
    satisfying [Q], and at most [n] LLM requests satisfying [R]. *)
Record ext (P : Event → Prop) (Q : Ran → Prop) (e e' : E) : Prop := {
  ext_sent : ∃ evs, en_sent e' = en_sent e ++ evs ∧ Forall P evs;
  ext_ran : ∃ rs, en_ran e' = en_ran e ++ rs ∧ Forall Q rs;
  ext_requests : en_requests e' = en_requests e;
  ext_tick : en_tick e ≤ en_tick e';
}.

#[local] Instance ext_preorder P Q : PreOrder (ext P Q).
Proof.
  split.
  - intros e. split; [exists []|exists []| |]; rewrite ?app_nil_r; auto.
  - intros e1 e2 e3 [(ev1 & E1 & H1) (r1 & F1 & G1) Q1 T1] [(ev2 & E2 & H2) (r2 & F2 & G2) Q2 T2]. split.
    + exists (ev1 ++ ev2). rewrite E2, E1, app_assoc. split; [done|]. by apply Forall_app.
    + exists (r1 ++ r2). rewrite F2, F1, app_assoc. split; [done|]. by apply Forall_app.
    + congruence.
    + lia.
Qed.

Lemma ext_weaken (P P' : Event → Prop) (Q Q' : Ran → Prop) e e' :
  (∀ ev, P ev → P' ev) → (∀ r, Q r → Q' r) → ext P Q e e' → ext P' Q' e e'.
Proof.
  intros HP HQ [(evs & Es & Hs) (rs & Er & Hr) ? ?]. split; [exists evs|exists rs|done|done];
    (split; [done|]; eapply Forall_impl; eauto).
Qed.

Lemma send_cases ev e :
  (send ev e = (true, tick (en_sent e ++ [ev]) e)) ∨
  (send ev e = (false, tick (en_sent e) e) ∧ cancelled (en_tick e) = true).
Proof.
  unfold AgentLoop.send. destruct (cancelled (en_tick e)); cbn; [|by left].
  destruct (pick (en_tick e)); [by left|by right].
Qed.

Lemma send_ext (P : Event → Prop) Q ev e : P ev → ext P Q e (send ev e).2.
Proof.
  intros HP. destruct (send_cases ev e) as [->|[-> _]]; split; cbn; try lia; try done.
  - exists [ev]. split; [done|by constructor].
  - exists []. by rewrite app_nil_r.
  - exists []. by rewrite app_nil_r.
  - exists []. by rewrite app_nil_r.
Qed.

Lemma cancelled_mono t t' : t ≤ t' → cancelled t = true → cancelled t' = true.
Proof.
  unfold AgentLoop.cancelled. destruct cancel_at as [c|]; [|done].
  intros ? ?%Nat.leb_le. apply Nat.leb_le. lia.
Qed.

Lemma send_live ev e : cancelled (en_tick e) = false → send ev e = (true, tick (en_sent e ++ [ev]) e).
Proof. intros Hc. destruct (send_cases ev e) as [?|[_ ?]]; [done|congruence]. Qed.

Lemma invoke_ext P (Q : Ran → Prop) name args inv e :
  (∀ i, inv = Ok i → Q {| ran_name := name; ran_args := args; ran_approval := inv_approval i |}) →
  ext P Q e (invoke tool_run name args inv e).2.
Proof.
  intros HQ. unfold invoke. destruct inv as [i|err]; [|reflexivity].
  destruct (tool_run i (en_world e)) as [o w]. split; cbn; [exists []| |done|lia].
  - by rewrite app_nil_r.
  - eexists [_]. split; [done|]. constructor; [by apply HQ|constructor].
Qed.

(** The tool calls of a batch, where they would be run from. *)
Definition auto_run (tc : ToolCall) : Ran → Prop := λ r,
  ran_name r = call_name tc ∧ ran_args r = parseToolArgs (fc_arguments (tc_function tc)) ∧
  ran_approval r = None.

Lemma execute_no_approval name args i : Execute reg name args = Ok i → inv_approval i = None.
Proof. unfold Execute. intros Hx. repeat (destr_in Hx; simplify_eq/=); done. Qed.

Lemma run_one_ext (P : Event → Prop) (Q : Ran → Prop) i tc outs e :
  (∀ r o, P (buildToolResultEvent reg tc r o)) → (∀ r, auto_run tc r → Q r) →
  ext P Q e (run_one reg tool_run cancel_at pick i tc outs e).2.
Proof.
  intros HP HQ. unfold run_one, executeOne.
  pose proof (invoke_ext P Q (call_name tc) (parseToolArgs (fc_arguments (tc_function tc)))
    (Execute reg (call_name tc) (parseToolArgs (fc_arguments (tc_function tc)))) e) as Hi.
  destruct (invoke _ _ _ _ e) as [o e1]. cbn [snd] in Hi.
  pose proof (send_ext P Q (buildToolResultEvent reg tc (tool_result o).1 (tool_result o).2) e1 (HP _ _)) as Hs.
  destruct (send _ e1) as [ok e2]. cbn [snd] in *. etrans; [|exact Hs]. apply Hi.
  intros i0 Hx. apply HQ. split_and!; [done|done|]. cbn. by eapply execute_no_approval.
Qed.

Lemma run_all_ext (P : Event → Prop) (Q : Ran → Prop) work outs e :
  (∀ i tc r o, (i, tc) ∈ work → P (buildToolResultEvent reg tc r o)) →
  (∀ i tc r, (i, tc) ∈ work → auto_run tc r → Q r) →
  ext P Q e (run_all work outs e).2.
Proof.
  revert outs e. induction work as [|[i tc] work IH]; intros outs e HP HQ; cbn; [reflexivity|].
  pose proof (run_one_ext P Q i tc outs e) as Ho. destruct (run_one _ _ _ _ i tc outs e) as [outs1 e1].
  etrans; [apply Ho|apply IH].
  - intros r o. apply (HP i). constructor.
  - intros r. apply (HQ i). constructor.
  - intros i' tc' r o Hin. apply (HP i'). by constructor.
  - intros i' tc' r Hin. apply (HQ i'). by constructor.
Qed.

Lemma announce_ext (P : Event → Prop) Q calls e :
  (∀ tc d k a, tc ∈ calls → P (call_event (tc_id tc) (call_name tc) d k a)) →
  ext P Q e (announce calls e).2.
Proof.
  revert e. induction calls as [|tc calls IH]; intros e HP; cbn; [reflexivity|].
  match goal with |- context [send ?ev e] => pose proof (send_ext P Q ev e) as Hs; destruct (send ev e) as [ok e1] end.
  assert (ext P Q e e1) as H1 by (apply Hs, HP; constructor).
  destruct ok; [|done]. etrans; [exact H1|]. apply IH. intros. apply HP. by constructor.
Qed.

Lemma schedule_elem n (calls : list ToolCall) i tc :
  (i, tc) ∈ schedule n (imap pair calls) → tc ∈ calls.
Proof.
  rewrite (schedule_perm n). intros Hin. apply list_elem_of_lookup in Hin as [j Hj].
  rewrite list_lookup_imap in Hj. destruct (calls !! j) as [tc'|] eqn:Ej; [|done].
  cbn in Hj. injection Hj as _ ->. by eapply list_elem_of_lookup_2.
Qed.

Definition quiet (ev : Event) : Prop :=
  oe_type ev ≠ EventError ∧ oe_type ev ≠ EventDone ∧ oe_type ev ≠ EventToolApprovalRequired.

Lemma dispatch_ext (Q : Ran → Prop) calls ms e :
  (∀ tc r, tc ∈ calls → auto_run tc r → Q r) → ext quiet Q e (dispatchToolCalls calls ms e).2.
Proof.
  intros HQ. unfold AgentLoop.dispatchToolCalls.
  pose proof (announce_ext quiet Q calls e) as Ha. destruct (announce calls e) as [ok e1].
  cbn [snd] in Ha. destruct ok; cbn [negb]; [|by apply Ha].
  pose proof (run_all_ext quiet Q (schedule (en_tick e1) (imap pair calls))
    (replicate (length calls) (GNull, None)) e1) as Hr.
  destruct (run_all _ _ e1) as [outs e2]. cbn [snd] in Hr.
  assert (ext quiet Q e e2) as H2.
  { etrans; [by apply Ha|]. apply Hr; [done|]. intros i tc r Hin. apply HQ. by eapply schedule_elem. }
  by destruct (cancelled (en_tick e2)).
Qed.

Lemma reject_ext Q calls ms e : ext quiet Q e (reject_forbidden calls ms e).2.
Proof.
  revert ms e. induction calls as [|tc calls IH]; intros ms e; cbn; [reflexivity|].
  match goal with |- context [send ?ev e] => pose proof (send_ext quiet Q ev e) as Hs; destruct (send ev e) as [ok e1] end.
  assert (ext quiet Q e e1) as H1 by by apply Hs.
  destruct ok; [|done]. etrans; [exact H1|apply IH].
Qed.

(** *** Classification *)

Lemma enforceOffered_fold cls acc forb offered :
  fold_left (λ acc tc, let '(allowed, forbidden) := acc in
    if list_mem (call_name tc) offered then (allowed ++ [tc], forbidden)
    else (allowed, forbidden ++ [tc])) cls (acc, forb) =
  (acc ++ filterb (λ tc, list_mem (call_name tc) offered) cls,
   forb ++ filterb (λ tc, negb (list_mem (call_name tc) offered)) cls).
Proof.
  revert acc forb. induction cls as [|tc cls IH]; intros acc forb; cbn; [by rewrite !app_nil_r|].
  destruct (list_mem (call_name tc) offered); cbn; rewrite IH, <- app_assoc; done.
Qed.

Lemma enforceOffered_eq cls forb offered :
  enforceOffered cls forb offered =
  (filterb (λ tc, list_mem (call_name tc) offered) cls,
   forb ++ filterb (λ tc, negb (list_mem (call_name tc) offered)) cls).
Proof. apply enforceOffered_fold. Qed.

Definition effective (st : RunState) (name : string) : string :=
  Hitl.Resolve (Floor reg name) (st_business_approvals st) (st_project_overrides st) name.

Lemma filterb_split_perm {A} (p : A → bool) l : filterb p l ++ filterb (λ x, negb (p x)) l ≡ₚ l.
Proof.
  induction l as [|x l IH]; cbn; [done|]. destruct (p x); cbn; [by constructor|].
  by rewrite <- Permutation_middle, IH.
Qed.

Lemma classify_spec st calls a m f :
  classify_calls reg st calls = (a, m, f) →
  (∀ tc, tc ∈ a → call_name tc ∈ offeredToolSet (st_tools st) ∧ effective st (call_name tc) = ToolFloorAuto)
  ∧ (∀ tc, tc ∈ m → call_name tc ∈ offeredToolSet (st_tools st) ∧ effective st (call_name tc) = ToolFloorManual)
  ∧ f ++ a ++ m ≡ₚ calls.
Proof.
  unfold classify_calls. destruct (Hitl.Bucket _ _ _ calls) as [[a0 m0] f0] eqn:Eb.
  rewrite !enforceOffered_eq. intros [= <- <- <-].
  pose proof (Hitl.bucket_perm _ _ _ _ _ _ _ Eb) as Hp.
  split_and!.
  - intros tc [Ho%list_mem_true Hin]%elem_of_filterb. split; [done|].
    by apply (proj1 (Hitl.bucket_elem _ _ _ _ _ _ _ tc Eb)) in Hin as [_ ?].
  - intros tc [Ho%list_mem_true Hin]%elem_of_filterb. split; [done|].
    by apply (proj1 (proj2 (Hitl.bucket_elem _ _ _ _ _ _ _ tc Eb))) in Hin as [_ ?].
  - pose proof (filterb_split_perm (λ tc, list_mem (call_name tc) (offeredToolSet (st_tools st))) a0) as Ha.
    pose proof (filterb_split_perm (λ tc, list_mem (call_name tc) (offeredToolSet (st_tools st))) m0) as Hm.
    cbn beta in Ha, Hm.
    transitivity (f0 ++ (filterb (λ tc, list_mem (call_name tc) (offeredToolSet (st_tools st))) a0
        ++ filterb (λ tc, negb (list_mem (call_name tc) (offeredToolSet (st_tools st)))) a0)
      ++ filterb (λ tc, list_mem (call_name tc) (offeredToolSet (st_tools st))) m0
        ++ filterb (λ tc, negb (list_mem (call_name tc) (offeredToolSet (st_tools st)))) m0);
      [solve_Permutation|]. rewrite Ha, Hm, <- Hp. solve_Permutation.
Qed.

(** *** Steps of the loop *)

Definition terminal (ev : Event) : Prop :=
  oe_type ev = EventError ∨ oe_type ev = EventDone ∨ oe_type ev = EventToolApprovalRequired.

(** The event a returning iteration ends with. *)
Definition outcome_event (o : StepOutcome) : EventType :=
  match o with
  | OutcomeDone => EventDone
  | OutcomePaused => EventToolApprovalRequired
  | OutcomeError | OutcomeMaxIterations => EventError
  end.

(** The run made quiet events and executions satisfying [Q], then sent one event
    of type [t], or was cancelled. *)
Definition ended (t : EventType) (Q : Ran → Prop) (e e' : E) : Prop :=
  ∃ evs last rs,
    en_sent e' = en_sent e ++ evs ++ last ∧ Forall quiet evs ∧
    (last = [] ∧ cancelled (en_tick e') = true ∨ ∃ ev, last = [ev] ∧ oe_type ev = t) ∧
    en_ran e' = en_ran e ++ rs ∧ Forall Q rs ∧ en_requests e' = en_requests e.

Lemma ended_after t (Q : Ran → Prop) e e1 e' : ext quiet Q e e1 → ended t Q e1 e' → ended t Q e e'.
Proof.
  intros [(ev1 & E1 & H1) (r1 & F1 & G1) Q1 _] (evs & last & rs & Es & Hev & Hl & Er & Hr & Hq).
  exists (ev1 ++ evs), last, (r1 ++ rs). rewrite Es, Er, E1, F1, !app_assoc.
  split_and!; try done; [by apply Forall_app|by apply Forall_app|congruence].
Qed.

Lemma ended_send Q ev e : ended (oe_type ev) Q e (send ev e).2.
Proof. destruct (send_cases ev e) as [->|[-> Hc]]; cbn.
  - exists [], [ev], []. cbn. rewrite app_nil_r. split_and!; eauto.
  - exists [], [], []. cbn. rewrite !app_nil_r. split_and!; eauto.
    left. split; [done|]. eapply cancelled_mono; [|exact Hc]. cbn. lia.
Qed.

Lemma ended_cancelled t (Q : Ran → Prop) e e' :
  ext quiet Q e e' → cancelled (en_tick e') = true → ended t Q e e'.
Proof.
  intros [(ev1 & E1 & H1) (r1 & F1 & G1) Q1 _] Hc. exists ev1, [], r1.
  rewrite app_nil_r. split_and!; eauto.
Qed.

Lemma send_false ev e : (send ev e).1 = false → cancelled (en_tick (send ev e).2) = true.
Proof.
  destruct (send_cases ev e) as [->|[-> Hc]]; cbn; [done|]. intros _.
  eapply cancelled_mono; [|exact Hc]. lia.
Qed.

Lemma announce_false calls e : (announce calls e).1 = false → cancelled (en_tick (announce calls e).2) = true.
Proof.
  revert e. induction calls as [|tc calls IH]; intros e; cbn; [done|].
  match goal with |- context [send ?ev e] => pose proof (send_false ev e) as Hs; destruct (send ev e) as [[] e1] end;
    [apply IH|done].
Qed.

Lemma dispatch_false calls ms e :
  (dispatchToolCalls calls ms e).1.1 = false → cancelled (en_tick (dispatchToolCalls calls ms e).2) = true.
Proof.
  unfold AgentLoop.dispatchToolCalls. pose proof (announce_false calls e) as Ha.
  destruct (announce calls e) as [[] e1]; cbn in *; [|done].
  destruct (run_all _ _ e1) as [outs e2]. destruct (cancelled (en_tick e2)) eqn:Ec; cbn; done.
Qed.

Lemma reject_false calls ms e :
  (reject_forbidden calls ms e).1.1 = false → cancelled (en_tick (reject_forbidden calls ms e).2) = true.
Proof.
  revert ms e. induction calls as [|tc calls IH]; intros ms e; cbn; [done|].
  match goal with |- context [send ?ev e] => pose proof (send_false ev e) as Hs; destruct (send ev e) as [[] e1] end;
    [apply IH|done].
Qed.

Definition safe_run (st : RunState) (r : Ran) : Prop :=
  ran_approval r = None ∧ ran_name r ∈ offeredToolSet (st_tools st) ∧
  effective st (ran_name r) = ToolFloorAuto.

Lemma set_loop_set_loop ms i x y ms' i' x' y' st :
  set_loop ms i x y (set_loop ms' i' x' y' st) = set_loop ms i x y st.
Proof. done. Qed.

(** What one iteration may do. *)
Definition step_ok (st : RunState) (e : E) (r : step_end * E) : Prop :=
  match r with
  | (Continue st', e') => ext quiet (safe_run st) e e' ∧
      ∃ ms inp out, st' = set_loop ms (st_iter st + 1) inp out st
  | (Return o _ _ _, e') => ended (outcome_event o) (safe_run st) e e'
  | (Crash, e') => ext quiet (safe_run st) e e'
  end.

Lemma step_ok_after st e e1 r : ext quiet (safe_run st) e e1 → step_ok st e1 r → step_ok st e r.
Proof.
  intros H1. destruct r as [[st'|o b err st'|] e']; cbn.
  - intros [H2 ?]. split; [by etrans|done].
  - by apply ended_after.
  - intros H2. by etrans.
Qed.

Lemma pause_ok m st st' e : step_ok st e (pause m st' e).
Proof.
  unfold AgentLoop.pause. destruct has_repo; cbn [negb].
  - destruct (Persist _ _ _) as [[b|err] store].
    + match goal with |- context [send ?ev ?e0] =>
        pose proof (ended_send (safe_run st) ev e0) as Hs; destruct (send ev e0) as [ok e2] end.
      cbn. destruct Hs as (evs & last & rs & H). by exists evs, last, rs.
    + match goal with |- context [send ?ev ?e0] =>
        pose proof (ended_send (safe_run st) ev e0) as Hs; destruct (send ev e0) as [ok e2] end.
      cbn. destruct Hs as (evs & last & rs & H). by exists evs, last, rs.
  - match goal with |- context [send ?ev ?e0] =>
      pose proof (ended_send (safe_run st) ev e0) as Hs; destruct (send ev e0) as [ok e2] end.
    exact Hs.
Qed.

Lemma handle_calls_ok resp st e : step_ok st e (handle_calls resp st e).
Proof.
  unfold AgentLoop.handle_calls.
  destruct (classify_calls reg st (rs_tool_calls resp)) as [[auto manual] forb] eqn:Ec.
  destruct (classify_spec _ _ _ _ _ Ec) as (Hauto & _ & _).
  match goal with |- context [reject_forbidden ?c ?ms e] =>
    pose proof (reject_ext (safe_run st) c ms e) as Hr; pose proof (reject_false c ms e) as Hrf;
    destruct (reject_forbidden c ms e) as [[ok1 ms1] e1] end.
  cbn [fst snd] in Hr, Hrf. destruct ok1; cbn [negb]; [|by apply ended_cancelled; auto].
  assert (∃ ok2 ms2 e2, (match auto with [] => (true, ms1, e1) | _ => dispatchToolCalls auto ms1 e1 end)
    = (ok2, ms2, e2) ∧ ext quiet (safe_run st) e1 e2 ∧ (ok2 = false → cancelled (en_tick e2) = true))
    as (ok2 & ms2 & e2 & E2 & Hd & Hdf).
  { destruct auto as [|tc auto]; [by exists true, ms1, e1|].
    pose proof (dispatch_ext (safe_run st) (tc :: auto) ms1 e1) as Hd.
    pose proof (dispatch_false (tc :: auto) ms1 e1) as Hdf.
    destruct (dispatchToolCalls (tc :: auto) ms1 e1) as [[ok2 ms2] e2].
    exists ok2, ms2, e2. split; [done|]. split; [|done]. apply Hd.
    intros tc' r Hin (Hn & _ & Ha). destruct (Hauto tc' Hin). unfold safe_run. by rewrite Hn. }
  assert (ext quiet (safe_run st) e e2) as He2 by by etrans.
  rewrite E2. destruct ok2; cbn [negb]; [|by apply ended_cancelled; auto].
  destruct manual as [|tc manual].
  - cbn. split; [done|]. eauto.
  - by eapply step_ok_after, pause_ok.
Qed.
Lemma step_once_ok st e :
  step_ok st (chat llm_chat (applyOutboundRedaction opts RedactPIIExcept (chat_request st)
    (st_pdn_allowlist st)) e).2 (step_once st e).
Proof.
  unfold AgentLoop.step_once. destruct (chat _ _ e) as [out e1]. cbn [snd].
  destruct out as [resp|err|].
  - set (st1 := set_loop _ _ _ _ st).
    destruct (cap_hit opts st1).
    { match goal with |- context [send ?ev ?e0] =>
        pose proof (ended_send (safe_run st) ev e0) as Hs; destruct (send ev e0) as [ok e2] end.
      exact Hs. }
    assert (∃ ok e2, (if String.eqb (rs_content resp) "" then (true, e1)
        else send (plain_event EventText "" (rs_content resp)) e1) = (ok, e2)
      ∧ ext quiet (safe_run st) e1 e2 ∧ (ok = false → cancelled (en_tick e2) = true))
      as (ok & e2 & -> & H12 & Hf).
    { destruct (String.eqb (rs_content resp) ""); [by exists true, e1|].
      match goal with |- context [send ?ev ?e0] => pose proof (send_ext quiet (safe_run st) ev e0) as Hs;
        pose proof (send_false ev e0) as Hsf; destruct (send ev e0) as [ok e2] end.
      exists ok, e2. split_and!; [done|by apply Hs|done]. }
    destruct (rs_tool_calls resp) as [|tc tcs] eqn:Etc.
    + destruct ok; [|by apply ended_cancelled; auto].
      match goal with |- context [send ?ev ?e0] =>
        pose proof (ended_send (safe_run st) ev e0) as Hs; destruct (send ev e0) as [ok e3] end.
      eapply ended_after; [exact H12|]. exact Hs.
    + destruct ok; [|by apply ended_cancelled; auto].
      eapply step_ok_after; [exact H12|].
      exact (handle_calls_ok resp st1 e2).
  - match goal with |- context [send ?ev ?e0] =>
      pose proof (ended_send (safe_run st) ev e0) as Hs; destruct (send ev e0) as [ok e2] end.
    destruct err; exact Hs.
  - cbn. reflexivity.
Qed.

(** [ended] with up to [n] LLM requests. *)
Definition finished (Q : Ran → Prop) (n : nat) (e e' : E) : Prop :=
  ∃ evs last rs reqs,
    en_sent e' = en_sent e ++ evs ++ last ∧ Forall quiet evs ∧
    (last = [] ∧ cancelled (en_tick e') = true ∨ ∃ ev, last = [ev] ∧ terminal ev) ∧
    en_ran e' = en_ran e ++ rs ∧ Forall Q rs ∧ en_requests e' = en_requests e ++ reqs ∧ length reqs ≤ n.

Lemma outcome_terminal o ev : oe_type ev = outcome_event o → terminal ev.
Proof. unfold terminal. destruct o; cbn; auto. Qed.

Lemma ended_finished o Q n e e' : ended (outcome_event o) Q e e' → finished Q n e e'.
Proof.
  intros (evs & last & rs & ? & ? & Hl & ? & ? & Hq). exists evs, last, rs, [].
  rewrite app_nil_r. cbn. split_and!; try done; [|lia].
  destruct Hl as [?|(ev & ? & ?)]; [by left|right]. exists ev. split; [done|by eapply outcome_terminal].
Qed.

Lemma finished_after (Q : Ran → Prop) n e e1 e' : ext quiet Q e e1 → finished Q n e1 e' → finished Q n e e'.
Proof.
  intros [(ev1 & E1 & H1) (r1 & F1 & G1) Q1 _] (evs & last & rs & reqs & Es & Hev & Hl & Er & Hr & Hq & Hn).
  exists (ev1 ++ evs), last, (r1 ++ rs), reqs. rewrite Es, Er, E1, F1, Hq, Q1, !app_assoc.
  split_and!; try done; by apply Forall_app.
Qed.

Lemma finished_request (Q : Ran → Prop) n req e e' :
  finished Q n (chat llm_chat req e).2 e' → finished Q (S n) e e'.
Proof.
  intros (evs & last & rs & reqs & Es & Hev & Hl & Er & Hr & Hq & Hn).
  exists evs, last, rs, (req :: reqs). cbn in *. rewrite Es, Er, Hq, <- app_assoc.
  split_and!; try done. lia.
Qed.

Definition crash_to_error (r : step_end * E) : E :=
  match r with (Crash, e) => (send (internal_error english) e).2 | (_, e) => e end.

Lemma max_reached_finished Q n st e : finished Q n e (crash_to_error (max_reached st e)).
Proof.
  unfold AgentLoop.max_reached. match goal with |- context [send ?ev ?e0] =>
    pose proof (ended_send Q ev e0) as Hs; destruct (send ev e0) as [ok e2] end.
  cbn. by apply (ended_finished OutcomeMaxIterations).
Qed.

(** Enough fuel: what the loop has left shrinks with each iteration. *)
Lemma step_loop_finished n st e : loop_fuel st ≤ n →
  finished (safe_run st) (loop_fuel st) e (crash_to_error (step_loop n st e))
  ∧ ∀ st', (step_loop n st e).1 ≠ Continue st'.
Proof.
  revert st e. induction n as [|n IH]; intros st e Hn; cbn [AgentLoop.step_loop];
    (destruct (Z.ltb_spec (st_iter st) (MaxIterations opts)) as [Hlt|_];
      [|split; [apply max_reached_finished|unfold AgentLoop.max_reached; by destruct (send _ e)]]).
  - exfalso. unfold AgentLoop.loop_fuel in Hn. lia.
  - assert (loop_fuel st = S (Z.to_nat (MaxIterations opts - (st_iter st + 1)))) as Hf by (unfold AgentLoop.loop_fuel; lia).
    rewrite Hf. pose proof (step_once_ok st e) as Ho.
    match type of Ho with step_ok _ (chat _ ?req _).2 _ => set (req0 := req) in * end.
    destruct (step_once st e) as [[st'|o b err st'|] e1]; cbn [step_ok] in Ho.
    + destruct Ho as [Hx (ms & inp & out & ->)].
      destruct (IH (set_loop ms (st_iter st + 1) inp out st) e1) as [IH1 IH2].
      { change (loop_fuel (set_loop ms (st_iter st + 1) inp out st)) with (Z.to_nat (MaxIterations opts - (st_iter st + 1))). lia. }
      split; [|exact IH2]. apply (finished_request _ _ req0). eapply finished_after; [exact Hx|]. exact IH1.
    + split; [|done]. apply (finished_request _ _ req0). by eapply ended_finished.
    + split; [|done]. apply (finished_request _ _ req0). eapply finished_after; [exact Ho|].
      apply (ended_finished OutcomeError), ended_send.
Qed.

(** More fuel changes nothing. *)
Lemma step_loop_fuel n st e : loop_fuel st ≤ n → step_loop n st e = stepRun st e.
Proof.
  unfold AgentLoop.stepRun. remember (loop_fuel st) as m eqn:Hm. revert st e m Hm.
  induction n as [|n IH]; intros st e m Hm Hn.
  - by replace m with 0 by lia.
  - destruct m as [|m]; cbn [AgentLoop.step_loop]; (destruct (Z.ltb_spec (st_iter st) (MaxIterations opts)); [|done]).
    + exfalso. unfold AgentLoop.loop_fuel in Hm. lia.
    + pose proof (step_once_ok st e) as Ho. destruct (step_once st e) as [[st'|o b err st'|] e1]; try done.
      destruct Ho as [_ (ms & inp & out & ->)]. apply IH; [|lia].
      unfold AgentLoop.loop_fuel in *. cbn. lia.
Qed.

Lemma run_finished st e : finished (safe_run st) (loop_fuel st) e (run_goroutine st e).
Proof.
  destruct (step_loop_finished (loop_fuel st) st e) as [Hf _]; [done|].
  unfold AgentLoop.run_goroutine, AgentLoop.stepRun. by destruct (step_loop _ st e) as [[]].
Qed.

(** C38: Whatever the model answers, whatever the tools do (errors and panics
    included) and whenever the client disconnects, the loop ends, however much fuel it
    is given beyond the iterations it has left: it makes at most [MaxIterations] minus
    its start index LLM requests, and what a turn delivers is a run of progress events
    followed by one terminal event (an error, done, or an approval request) and
    nothing more; a cancelled turn may lack the terminal event. *)
Theorem turn_ends_once st e :
  let e' := run_goroutine st e in
  (∀ fuel, (MaxIterations opts - st_iter st ≤ Z.of_nat fuel)%Z →
     step_loop fuel st e = stepRun st e ∧ ∀ st', (step_loop fuel st e).1 ≠ Continue st') ∧
  ∃ evs last reqs,
    en_sent e' = en_sent e ++ evs ++ last ∧ Forall quiet evs ∧
    (last = [] ∧ cancelled (en_tick e') = true ∨ ∃ ev, last = [ev] ∧ terminal ev) ∧
    en_requests e' = en_requests e ++ reqs ∧
    (Z.of_nat (length reqs) ≤ Z.max 0 (MaxIterations opts - st_iter st))%Z.
Proof.
  intros e'. split.
  { intros fuel Hf. assert (loop_fuel st ≤ fuel) by (unfold AgentLoop.loop_fuel; lia).
    split; [by apply step_loop_fuel|by apply step_loop_finished]. }
  destruct (run_finished st e) as (evs & last & rs & reqs & ? & ? & ? & _ & _ & ? & Hl).
  exists evs, last, reqs. split_and!; try done. unfold AgentLoop.loop_fuel in Hl. lia.
Qed.

Lemma run_only_safe st e :
  ∃ rs, en_ran (run_goroutine st e) = en_ran e ++ rs ∧ Forall (safe_run st) rs.
Proof.
  destruct (run_finished st e) as (_ & _ & rs & _ & _ & _ & _ & Hran & Hq & _). by exists rs.
Qed.

(** *** The history *)

Lemma reject_messages calls ms e :
  (reject_forbidden calls ms e).1.1 = true →
  (reject_forbidden calls ms e).1.2 = ms ++ (forbidden_message <$> calls).
Proof.
  revert ms e. induction calls as [|tc calls IH]; intros ms e; cbn; [by rewrite app_nil_r|].
  destruct (send _ e) as [[] e1]; [|done]. intros Hok. rewrite IH by done. by rewrite <- app_assoc.
Qed.

Lemma run_one_length i tc outs e :
  length (run_one reg tool_run cancel_at pick i tc outs e).1 = length outs.
Proof.
  unfold run_one. destruct (executeOne _ _ _ _ e) as [o e1]. destruct (send _ e1) as [ok e2].
  cbn. apply length_insert.
Qed.

Lemma run_all_length work outs e : length (run_all work outs e).1 = length outs.
Proof.
  revert outs e. induction work as [|[i tc] work IH]; intros outs e; cbn; [done|].
  pose proof (run_one_length i tc outs e) as Hl. destruct (run_one _ _ _ _ i tc outs e) as [outs1 e1].
  by rewrite IH.
Qed.

Lemma dispatch_messages calls ms e :
  (dispatchToolCalls calls ms e).1.1 = true →
  ∃ outs, length outs = length calls ∧
    (dispatchToolCalls calls ms e).1.2 = ms ++ zip_with outcome_message calls outs.
Proof.
  unfold AgentLoop.dispatchToolCalls. destruct (announce calls e) as [[] e1]; cbn [negb]; [|done].
  pose proof (run_all_length (schedule (en_tick e1) (imap pair calls))
    (replicate (length calls) (GNull, None)) e1) as Hl. rewrite length_replicate in Hl.
  destruct (run_all _ _ e1) as [outs e2]. destruct (cancelled (en_tick e2)); [done|]. intros _. by exists outs.
Qed.

Lemma outcome_messages_ids calls outs : length outs = length calls →
  m_tool_call_id <$> zip_with outcome_message calls outs = tc_id <$> calls.
Proof.
  revert outs. induction calls as [|tc calls IH]; intros [|o outs]; cbn; intros Hl; try done.
  f_equal. apply IH. congruence.
Qed.

Lemma outcome_messages_role calls outs m :
  m ∈ zip_with outcome_message calls outs → m_role m = "tool".
Proof. intros (i & tc & o & -> & _)%elem_of_lookup_zip_with. done. Qed.

Lemma pause_returns m st e : ∃ o bid err e', pause m st e = (Return o bid err st, e').
Proof.
  unfold AgentLoop.pause. destruct has_repo; cbn [negb].
  - destruct (Persist _ _ _) as [[b|err] store]; destruct (send _ _) as [ok e2]; eauto.
  - destruct (send _ _) as [ok e2]; eauto.
Qed.

(** The messages one iteration adds for the calls it settles. *)
Lemma handle_calls_history resp st e :
  answered (st_messages st) →
  match handle_calls resp st e with
  | (Continue st', _) => answered (st_messages st')
  | (Return OutcomePaused bid err st', e') =>
      ∃ manual aw e1, manual ≠ [] ∧
        (∀ tc, tc ∈ manual → call_name tc ∈ offeredToolSet (st_tools st) ∧
                             effective st (call_name tc) = ToolFloorManual) ∧
        owed [] (st_messages st') = Some aw ∧ aw ≡ₚ tc_id <$> manual ∧
        (∃ ms, st' = with_messages ms st) ∧ pause manual st' e1 = (Return OutcomePaused bid err st', e')
  | _ => True
  end.
Proof.
  intros Hans. unfold AgentLoop.handle_calls.
  destruct (classify_calls reg st (rs_tool_calls resp)) as [[auto manual] forb] eqn:Ec.
  destruct (classify_spec _ _ _ _ _ Ec) as (_ & Hman & Hperm).
  match goal with |- context [reject_forbidden ?c ?ms e] =>
    pose proof (reject_messages c ms e) as Hr; destruct (reject_forbidden c ms e) as [[ok1 ms1] e1] end.
  cbn [fst snd] in Hr. destruct ok1; cbn [negb]; [|done]. specialize (Hr eq_refl). subst ms1.
  match goal with |- context [match auto with [] => (true, ?m, e1) | _ => _ end] => set (ms1 := m) end.
  assert (∃ ok2 replies e2, (match auto with [] => (true, ms1, e1) | _ => dispatchToolCalls auto ms1 e1 end)
      = (ok2, ms1 ++ replies, e2) ∧ (ok2 = true → (m_tool_call_id <$> replies) = tc_id <$> auto ∧
        ∀ m, m ∈ replies → m_role m = "tool") ∨
    (match auto with [] => (true, ms1, e1) | _ => dispatchToolCalls auto ms1 e1 end).1.1 = false)
    as (ok2 & replies & e2 & [[E2 Hrep]|E2]).
  { destruct auto as [|tc auto]; [exists true, [], e1; left; rewrite app_nil_r; split; [done|];
      intros _; split; [done|]; by intros m ?%elem_of_nil|].
    pose proof (dispatch_messages (tc :: auto) ms1 e1) as Hd.
    destruct (dispatchToolCalls (tc :: auto) ms1 e1) as [[[] ms2] e2]; [|exists false, [], e1; by right].
    destruct Hd as (outs & Hl & Hm); [done|]. cbn [fst snd] in Hm. exists true, (zip_with outcome_message (tc :: auto) outs), e2.
    left. split; [by rewrite Hm|]. intros _. split; [by apply outcome_messages_ids|].
    intros m. apply outcome_messages_role. }
  2:{ destruct (match auto with [] => _ | _ => _ end) as [[ok3 ms3] e3]. cbn in E2. by subst ok3. }
  rewrite E2. destruct ok2; cbn [negb]; [|done]. destruct (Hrep eq_refl) as [Hids Hrole].
  destruct (owed_turn (st_messages st) (rs_content resp) (rs_tool_calls resp)
    ((forbidden_message <$> forb) ++ replies) (tc_id <$> manual)) as (aw & Haw & Hpaw); [done| | |].
  { intros m [(tc & -> & _)%list_elem_of_fmap|Hm]%elem_of_app; [done|by apply Hrole]. }
  { rewrite <- Hperm, !fmap_app, Hids, <- list_fmap_compose. by rewrite <- app_assoc. }
  assert (owed [] (ms1 ++ replies) = Some aw) as Hms.
  { subst ms1. rewrite <- !app_assoc. exact Haw. }
  destruct manual as [|tc manual].
  - cbn. unfold answered. rewrite Hms. f_equal. by apply Permutation_nil_r.
  - destruct (pause_returns (tc :: manual) (with_messages (ms1 ++ replies) st) e2)
      as (o & bid & err & e' & Ep). rewrite Ep. destruct o; try done.
    exists (tc :: manual), aw, e2. split_and!; try done. by exists (ms1 ++ replies).
Qed.
Lemma step_once_requests st e :
  en_requests (step_once st e).2 = en_requests e ++
    [applyOutboundRedaction opts RedactPIIExcept (chat_request st) (st_pdn_allowlist st)].
Proof.
  pose proof (step_once_ok st e) as Ho.
  destruct (step_once st e) as [[st'|o b err st'|] e1]; cbn [step_ok snd] in *.
  - destruct Ho as [[_ _ Hq _] _]. exact Hq.
  - by destruct Ho as (? & ? & ? & ? & ? & ? & ? & ? & Hq).
  - by destruct Ho as [_ _ Hq _].
Qed.

Lemma request_answered st :
  answered (st_messages st) →
  answered (cr_messages (applyOutboundRedaction opts RedactPIIExcept (chat_request st) (st_pdn_allowlist st))).
Proof.
  unfold answered, applyOutboundRedaction. destruct (RedactOutboundPDn opts); [|done].
  cbn. by rewrite owed_redact.
Qed.

(** What the pause of [manual] in state [st'] left behind. *)
Definition durable_pause (st st' : RunState) (bid : string) (err : option goerr) (e' : E) : Prop :=
  ∃ manual aw b,
    manual ≠ [] ∧
    (∀ tc, tc ∈ manual → call_name tc ∈ offeredToolSet (st_tools st) ∧
                         effective st (call_name tc) = ToolFloorManual) ∧
    docs (en_store e') !! bid = Some b ∧ b_status b = statusPending ∧
    b_calls b = pending_call <$> manual ∧ b_iteration_idx b = st_iter st' ∧
    decodeSnapshot (b_model_messages b) = Some (snapshot_of st') ∧
    owed [] (st_messages st') = Some aw ∧ aw ≡ₚ tc_id <$> manual ∧
    (err = None → ∃ evs, en_sent e' = evs ++ [approval_event bid (summarizeManualCalls reg manual)]).

Lemma pause_persists manual st e bid err e' :
  pause manual st e = (Return OutcomePaused bid err st, e') →
  ∃ b, docs (en_store e') !! bid = Some b ∧ b_status b = statusPending ∧
    b_calls b = pending_call <$> manual ∧ b_iteration_idx b = st_iter st ∧
    decodeSnapshot (b_model_messages b) = Some (snapshot_of st) ∧
    (err = None → ∃ evs, en_sent e' = evs ++ [approval_event bid (summarizeManualCalls reg manual)]).
Proof.
  unfold AgentLoop.pause. destruct has_repo; cbn [negb]; [|by destruct (send _ e)].
  destruct (Persist _ _ _) as [[b|err0] store] eqn:Ep; [|by destruct (send _ _)].
  destruct (persist_spec _ _ _ _ _ Ep) as (_ & _ & -> & Hd).
  match goal with |- context [send ?ev ?e0] => destruct (send_cases ev e0) as [->|[-> _]] end;
    intros [= <- <- <-]; cbn [en_store tick]; rewrite Hd; cbn [b_id buildPendingBatch];
    (eexists; split; [apply lookup_insert_eq|]);
    (split_and!; [done|done|done|by apply decode_snapshot_of|]); [|done].
  intros _. by exists (en_sent e).
Qed.

Lemma step_once_history st e :
  answered (st_messages st) →
  match step_once st e with
  | (Continue st', _) => answered (st_messages st')
  | (Return OutcomePaused bid err st', e') => durable_pause st st' bid err e'
  | _ => True
  end.
Proof.
  intros Hans. unfold AgentLoop.step_once. destruct (chat _ _ e) as [[resp|err|] e1];
    [|by destruct (send _ e1)|done].
  set (st1 := set_loop _ _ _ _ st). destruct (cap_hit opts st1); [by destruct (send _ e1)|].
  destruct (if String.eqb (rs_content resp) "" then _ else _) as [ok e2].
  destruct (rs_tool_calls resp) as [|tc tcs]; [destruct ok; [by destruct (send _ e2)|done]|].
  destruct ok; [|done].
  pose proof (handle_calls_history resp st1 e2 Hans) as Hh.
  destruct (handle_calls resp st1 e2) as [[st'|[] bid err st'|] e']; try done.
  destruct Hh as (manual & aw & e3 & Hne & Hman & Haw & Hp & _ & Epause).
  destruct (pause_persists _ _ _ _ _ _ Epause) as (b & ? & ? & ? & ? & ? & ?).
  exists manual, aw, b. done.
Qed.

Lemma step_loop_history n st e :
  answered (st_messages st) →
  (∃ reqs, en_requests (step_loop n st e).2 = en_requests e ++ reqs ∧
    ∀ req, req ∈ reqs → answered (cr_messages req)) ∧
  match step_loop n st e with
  | (Return OutcomePaused bid err st', e') => durable_pause st st' bid err e'
  | _ => True
  end.
Proof.
  revert st e. induction n as [|n IH]; intros st e Hans; cbn [AgentLoop.step_loop];
    (destruct (st_iter st <? MaxIterations opts)%Z;
      [|unfold AgentLoop.max_reached; match goal with |- context [send ?ev ?e0] => destruct (send_cases ev e0) as [->|[-> _]] end;
        (split; [|done]); exists []; cbn; rewrite app_nil_r; (split; [done|]); by intros ? ?%elem_of_nil]).
  - split; [|done]. exists []. cbn. rewrite app_nil_r. split; [done|]. by intros ? ?%elem_of_nil.
  - pose proof (step_once_history st e Hans) as Hh. pose proof (step_once_requests st e) as Hq.
    pose proof (step_once_ok st e) as Ho.
    destruct (step_once st e) as [[st'|o b err st'|] e1]; cbn [snd step_ok] in *.
    + destruct Ho as [_ (ms & inp & out & ->)].
      destruct (IH (set_loop ms (st_iter st + 1) inp out st) e1 Hh) as [(reqs & Hr & Hall) Hp]. split.
      * eexists (_ :: reqs). rewrite Hr, Hq, <- app_assoc. split; [done|].
        intros req [->|Hin]%elem_of_cons; [by apply request_answered|by apply Hall].
      * exact Hp.
    + split; [|exact Hh]. eexists [_]. split; [exact Hq|].
      intros req [->|Hin%elem_of_nil]%elem_of_cons; [by apply request_answered|done].
    + split; [|done]. eexists [_]. split; [exact Hq|].
      intros req [->|Hin%elem_of_nil]%elem_of_cons; [by apply request_answered|done].
Qed.

Lemma goroutine_requests st e :
  ∃ n, en_requests (run_goroutine st e) = en_requests (step_loop n st e).2.
Proof.
  exists (loop_fuel st). unfold AgentLoop.run_goroutine, AgentLoop.stepRun.
  destruct (step_loop _ st e) as [[st'|o b err st'|] e1]; try done.
  destruct (send_cases (internal_error english) e1) as [->|[-> _]]; done.
Qed.

(** C5: If the turn starts from a history in which every tool call is answered,
    then so is the history of every request it sends to the model: each tool call
    of an assistant message is followed, before anything else, by exactly one tool
    message for it, whatever mix of rejected, run, failed and panicking calls it
    was and in whatever order they finished. *)
Theorem requests_answer_every_call st e :
  answered (st_messages st) →
  ∃ reqs, en_requests (run_goroutine st e) = en_requests e ++ reqs ∧
    ∀ req, req ∈ reqs → answered (cr_messages req).
Proof.
  intros Hans. destruct (goroutine_requests st e) as [n ->]. by apply step_loop_history.
Qed.

Lemma step_loop_events n st e :
  ∃ evs last, en_sent (step_loop n st e).2 = en_sent e ++ evs ++ last ∧ Forall quiet evs ∧
    match (step_loop n st e).1 with
    | Continue _ | Crash => last = []
    | Return o _ _ _ => ∀ ev, ev ∈ last → oe_type ev = outcome_event o
    end.
Proof.
  revert st e. induction n as [|n IH]; intros st e; cbn [AgentLoop.step_loop];
    (destruct (st_iter st <? MaxIterations opts)%Z;
      [|unfold AgentLoop.max_reached; match goal with |- context [send ?ev ?e0] => destruct (send_cases ev e0) as [->|[-> _]] end; cbn;
        [exists [], [plain_event EventError "max_iterations" (friendlyMaxIterationsMessage english)];
         split_and!; [done|done|]; by intros ev [->|?%elem_of_nil]%elem_of_cons
        |exists [], []; rewrite app_nil_r; split_and!; [done|done|]; by intros ev ?%elem_of_nil]]).
  - exists [], []. cbn. by rewrite app_nil_r.
  - pose proof (step_once_ok st e) as Ho.
    destruct (step_once st e) as [[st'|o b err st'|] e1]; cbn [fst snd step_ok] in *.
    + destruct Ho as [[(ev1 & E1 & H1) _ _ _] _]. destruct (IH st' e1) as (evs & last & Es & Hev & Hm).
      exists (ev1 ++ evs), last. rewrite Es, E1. cbn. rewrite !app_assoc. split_and!; [done|by apply Forall_app|done].
    + destruct Ho as (evs & last & rs & Es & Hev & Hl & _). exists evs, last. split_and!; [done|done|].
      destruct Hl as [[-> _]|(ev & -> & Ht)]; [by intros ? ?%elem_of_nil|].
      by intros ? [->|?%elem_of_nil]%elem_of_cons.
    + destruct Ho as [(ev1 & E1 & H1) _ _ _]. exists ev1, []. by rewrite app_nil_r.
Qed.

(** C6: A turn announces an approval request only when it pauses, and when it
    pauses the batch is already in the store: pending, holding exactly the calls
    that were offered and need approval, at the current iteration, with a snapshot
    that decodes to the paused state, whose history leaves exactly those calls
    unanswered; the announcement, when delivered, is the last event and lists the
    same calls. *)
Theorem pause_is_durable st e :
  answered (st_messages st) →
  match stepRun st e with
  | (Return OutcomePaused bid err st', e') => durable_pause st st' bid err e'
  | (_, e') => ∃ new, en_sent e' = en_sent e ++ new ∧
      ∀ ev, ev ∈ new → oe_type ev ≠ EventToolApprovalRequired
  end.
Proof.
  intros Hans. unfold AgentLoop.stepRun.
  destruct (step_loop_history (loop_fuel st) st e Hans) as [_ Hp].
  destruct (step_loop_events (loop_fuel st) st e) as (evs & last & Es & Hev & Hm).
  rewrite Forall_forall in Hev. unfold quiet in Hev.
  destruct (step_loop _ st e) as [[st'|[] bid err st'|] e']; try done; cbn [fst snd] in *;
    exists (evs ++ last); (split; [done|]); intros ev [Hin|Hin]%elem_of_app;
    try (by apply Hev in Hin as (_ & _ & ?)); try (apply Hm in Hin; cbn in Hin; congruence).
  all: subst last; by apply elem_of_nil in Hin.
Qed.
(** *** One parallel batch *)

(** What reaches an executor when [tc] is run. *)
Definition planned (tc : ToolCall) : option Ran :=
  let args := parseToolArgs (fc_arguments (tc_function tc)) in
  match Execute reg (call_name tc) args with
  | Ok i => Some {| ran_name := call_name tc; ran_args := args; ran_approval := inv_approval i |}
  | Err _ => None
  end.

Definition announcement (tc : ToolCall) : Event :=
  call_event (tc_id tc) (call_name tc) (DisplayName reg (call_name tc)) (DisplayNameKey reg (call_name tc))
    (parseToolArgs (fc_arguments (tc_function tc))).

Definition result_of (tc : ToolCall) (o : gval * option goerr) : Event :=
  buildToolResultEvent reg tc o.1 o.2.

Definition slot (outs : list (gval * option goerr)) (i : nat) : gval * option goerr :=
  default (GNull, None) (outs !! i).

Lemma announce_true calls e :
  (announce calls e).1 = true →
  en_sent (announce calls e).2 = en_sent e ++ (announcement <$> calls) ∧
  en_ran (announce calls e).2 = en_ran e.
Proof.
  revert e. induction calls as [|tc calls IH]; intros e; cbn; [by rewrite app_nil_r|].
  match goal with |- context [send ?ev e] => destruct (send_cases ev e) as [->|[-> _]] end; [|done].
  intros Hok. destruct (IH _ Hok) as [-> ->]. cbn. by rewrite <- app_assoc.
Qed.

Lemma executeOne_spec tc e :
  let '(o, e1) := executeOne reg tool_run (call_name tc) (parseToolArgs (fc_arguments (tc_function tc))) e in
  en_sent e1 = en_sent e ∧ en_tick e1 = en_tick e ∧ en_ran e1 = en_ran e ++ option_list (planned tc).
Proof.
  unfold executeOne, planned, invoke.
  destruct (Execute reg (call_name tc) _) as [inv|err]; [by destruct (tool_run inv (en_world e))|].
  by rewrite app_nil_r.
Qed.

Lemma run_one_spec i tc outs e outs' e' :
  run_one reg tool_run cancel_at pick i tc outs e = (outs', e') → cancelled (en_tick e') = false →
  ∃ r, outs' = <[i := r]> outs ∧ en_sent e' = en_sent e ++ [result_of tc r] ∧
    en_ran e' = en_ran e ++ option_list (planned tc) ∧ en_tick e ≤ en_tick e'.
Proof.
  unfold run_one. pose proof (executeOne_spec tc e) as Hx.
  destruct (executeOne _ _ _ _ e) as [o e1]. destruct Hx as (Es & Et & Er).
  destruct (send_cases (result_of tc (tool_result o)) e1) as [Ef|[Ef Hc1]];
    unfold result_of in *; rewrite Ef; intros [= <- <-] Hc; exists (tool_result o); cbn.
  - rewrite Es, Er, Et. split_and!; [done|done|done|lia].
  - exfalso. cbn in Hc. rewrite (cancelled_mono (en_tick e1)) in Hc; [done|lia|done].
Qed.

Lemma run_all_spec work outs e outs' e' :
  run_all work outs e = (outs', e') → cancelled (en_tick e') = false → NoDup work.*1 →
  (∀ i, i ∈ work.*1 → i < length outs) →
  (∀ i, i ∉ work.*1 → outs' !! i = outs !! i) ∧
  en_sent e' = en_sent e ++ ((λ p, result_of p.2 (slot outs' p.1)) <$> work) ∧
  en_ran e' = en_ran e ++ omap planned work.*2 ∧ en_tick e ≤ en_tick e'.
Proof.
  revert outs e. induction work as [|[i tc] work IH]; intros outs e; cbn [AgentLoop.run_all].
  { intros [= <- <-] _ _ _. cbn. rewrite !app_nil_r. done. }
  destruct (run_one reg tool_run cancel_at pick i tc outs e) as [outs1 e1] eqn:E1.
  intros Hrun Hc [Hni Hnd]%NoDup_cons Hlt.
  assert (length outs1 = length outs) as Hlen.
  { pose proof (run_one_length i tc outs e) as Hl. by rewrite E1 in Hl. }
  destruct (IH outs1 e1 Hrun Hc Hnd) as (Hsame & Hs & Hr & Ht).
  { intros j Hj. rewrite Hlen. apply Hlt. cbn. by right. }
  destruct (run_one_spec _ _ _ _ _ _ E1) as (r & -> & Hs1 & Hr1 & Ht1).
  { destruct (cancelled (en_tick e1)) eqn:Hc1; [|done].
    by rewrite (cancelled_mono (en_tick e1)) in Hc. }
  assert (outs' !! i = Some r) as Hi.
  { rewrite Hsame by done. apply list_lookup_insert_eq. apply Hlt. cbn. by left. }
  split_and!.
  - intros j Hj. cbn in Hj. apply not_elem_of_cons in Hj as [Hne Hj].
    rewrite Hsame by done. by apply list_lookup_insert_ne.
  - cbn. unfold slot at 1. rewrite Hi. cbn. rewrite Hs, Hs1, <- app_assoc. done.
  - rewrite Hr, Hr1, <- app_assoc. f_equal. cbn. by destruct (planned tc).
  - lia.
Qed.

Lemma imap_pair_fst (calls : list ToolCall) : (imap pair calls).*1 = seq 0 (length calls).
Proof.
  apply list_eq. intros i. rewrite list_lookup_fmap, list_lookup_imap.
  destruct (decide (i < length calls)) as [Hi|Hi].
  - rewrite lookup_seq_lt by done. destruct (lookup_lt_is_Some_2 calls i Hi) as [tc ->]. done.
  - rewrite (lookup_ge_None_2 (seq 0 (length calls)) i) by (rewrite length_seq; lia).
    by rewrite (lookup_ge_None_2 calls i) by lia.
Qed.

Lemma imap_pair_snd (calls : list ToolCall) : (imap pair calls).*2 = calls.
Proof.
  apply list_eq. intros i. rewrite list_lookup_fmap, list_lookup_imap. by destruct (calls !! i).
Qed.

Lemma slots_zip calls outs : length outs = length calls →
  (λ p : nat * ToolCall, result_of p.2 (slot outs p.1)) <$> imap pair calls = zip_with result_of calls outs.
Proof.
  intros Hl. apply list_eq. intros i. rewrite list_lookup_fmap, list_lookup_imap, lookup_zip_with.
  destruct (calls !! i) as [tc|] eqn:Ec; cbn; [|done].
  apply lookup_lt_Some in Ec. rewrite <- Hl in Ec. unfold slot.
  by destruct (lookup_lt_is_Some_2 outs i Ec) as [o ->].
Qed.

(** A parallel batch that was not cut short ran every call that has an
    executor exactly once, announced every call in order, reported every call's
    own outcome once, and appended one tool message per call in the order of the
    calls, each with that call's outcome: whatever the order in which the
    goroutines finished. *)
Theorem batch_runs_each_call_once calls ms e :
  let '(ok, ms', e') := dispatchToolCalls calls ms e in
  ok = true →
  ∃ outs results rs, length outs = length calls ∧
    ms' = ms ++ zip_with outcome_message calls outs ∧
    en_sent e' = en_sent e ++ (announcement <$> calls) ++ results ∧
    results ≡ₚ zip_with result_of calls outs ∧
    en_ran e' = en_ran e ++ rs ∧ rs ≡ₚ omap planned calls.
Proof.
  unfold AgentLoop.dispatchToolCalls. pose proof (announce_true calls e) as Ha.
  destruct (announce calls e) as [[] e1]; cbn [negb fst snd] in *; [|done].
  destruct (Ha eq_refl) as [Hs1 Hr1].
  set (work := schedule (en_tick e1) (imap pair calls)).
  assert (work ≡ₚ imap pair calls) as Hw by apply schedule_perm.
  pose proof (run_all_length work (replicate (length calls) (GNull, None)) e1) as Hl.
  rewrite length_replicate in Hl.
  destruct (run_all work (replicate (length calls) (GNull, None)) e1) as [outs e2] eqn:Erun.
  destruct (cancelled (en_tick e2)) eqn:Hc; [done|]. intros _. cbn [fst] in Hl.
  assert (work.*1 ≡ₚ seq 0 (length calls)) as Hw1 by by rewrite Hw, imap_pair_fst.
  destruct (run_all_spec _ _ _ _ _ Erun Hc) as (_ & Hs & Hr & _).
  { rewrite Hw1. apply NoDup_seq. }
  { intros i Hi. rewrite Hw1 in Hi. apply elem_of_seq in Hi. rewrite length_replicate. lia. }
  exists outs, ((λ p, result_of p.2 (slot outs p.1)) <$> work), (omap planned work.*2).
  split_and!; [done|done| | | |].
  - by rewrite Hs, Hs1, app_assoc.
  - rewrite Hw. by rewrite slots_zip.
  - by rewrite Hr, Hr1.
  - by rewrite Hw, imap_pair_snd.
Qed.
(** *** Fresh runs *)

Section RunFacts.
Context {BC PC : Type}.
Variables (BuildSplit : bool → BC → option PC → list Message → string * string * list Message)
          (contact_phone contact_website : BC → string).

(** C1: In a fresh turn no tool reaches an executor unless it is registered, its
    platform is connected (and selected, when the user narrowed the platforms),
    the project whitelist lets it through, and the registry floor and the business
    and project policies together leave it auto: a tool that needs approval, is
    forbidden, unknown or withheld never runs, whatever names the model emits. *)
Theorem fresh_run_stays_in_policy req e :
  registry_wf reg →
  ∃ rs, en_ran (Run reg opts english has_repo llm_chat tool_run RedactPIIExcept cancel_at pick clock
          new_uuid BuildSplit contact_phone contact_website req e) = en_ran e ++ rs ∧
    ∀ r, r ∈ rs →
      is_Some (reg !! ran_name r) ∧
      tool_active (rr_active_integrations req) (ran_name r) = true ∧
      (rr_platform_scope_set req = true → tool_active (rr_selected_platforms req) (ran_name r) = true) ∧
      whitelisted reg (rr_whitelist_mode req) (rr_allowed_tools req) (ran_name r) ∧
      Hitl.Resolve (Floor reg (ran_name r)) (rr_business_approvals req) (rr_project_overrides req)
        (ran_name r) = ToolFloorAuto ∧
      ran_approval r = None.
Proof.
  intros Hwf. unfold Run.
  destruct (run_only_safe (run_state reg english BuildSplit contact_phone contact_website req) e)
    as (rs & -> & Hsafe).
  exists rs. split; [done|]. rewrite Forall_forall in Hsafe. intros r Hr.
  destruct (Hsafe r Hr) as (Hap & Hoff & Heff). revert Hoff Heff. unfold effective, run_state, offeredToolSet.
  destruct (BuildSplit _ _ _ _) as [[p b] h]. cbn [st_tools st_business_approvals st_project_overrides].
  intros (Hreg & Hact & Hwl)%whitelist_names Heff; [|done].
  assert (∀ l, tool_active l (ran_name r) = true ↔
    match index_of "__" (ran_name r) with None => True | Some i => str_take i (ran_name r) ∈ l end) as Hta.
  { intros l. unfold tool_active. destruct (index_of "__" (ran_name r)); [apply list_mem_true|done]. }
  rewrite Hta in Hact. rewrite !Hta. unfold scoped_integrations in Hact.
  destruct (rr_platform_scope_set req), (index_of "__" (ran_name r));
    try rewrite PlatformScope.intersect_elem in Hact; split_and!; try done; naive_solver.
Qed.
End RunFacts.
End LoopFacts.

(** ** The theorems at a concrete turn *)
Section demo.
#[local] Existing Instance json_text.
#[local] Existing Instance decimal_uuid.
#[local] Existing Instance in_order.
#[local] Existing Instance demo_coll.
#[local] Existing Instance sorted_range.

Definition demo_tool (name floor : string) : ToolSpec := {|
  ts_def := {| td_type := "function"; td_function := {| fd_name := name; fd_description := "d";
                                                        fd_parameters := None |} |};
  ts_display_name := name; ts_display_name_key := ""; ts_user_description := ""; ts_description_en := "";
  ts_parameter_descriptions_en := ∅; ts_floor := floor; ts_editable_fields := [] |}.

Definition demo_registry : Registry nat :=
  registry_of [(demo_tool "telegram__read" "auto", Some (ExecPlain 1));
               (demo_tool "telegram__post" "manual", Some (ExecApproval 2))].

Definition demo_call_of (id name : string) : ToolCall :=
  {| tc_id := id; tc_type := "function"; tc_function := {| fc_name := name; fc_arguments := "{}" |} |}.

Definition demo_usage : TokenUsage :=
  {| tu_input := 10; tu_output := 5; tu_total := 15; tu_cache_read := 0; tu_cache_creation := 0 |}.

(** The model reads, then reads again while asking to post. *)
Definition demo_llm (n : nat) (_ : ChatRequest) : chat_outcome :=
  ChatOk {| rs_content := "ok";
            rs_tool_calls := match n with
              | O => [demo_call_of "c1" "telegram__read"]
              | _ => [demo_call_of "c2" "telegram__post"; demo_call_of "c3" "telegram__read";
                      demo_call_of "c4" "vk__post"]
              end;
            rs_usage := demo_usage; rs_finish_reason := ""; rs_latency := 0; rs_provider := "" |}.

Definition demo_run (i : Invocation nat) (w : nat) : tool_outcome * nat :=
  (if Nat.eqb w 1 then ToolPanic else ToolOk (GNum 7), S w).

Definition demo_opts : Options := {|
  MaxIterations := 10; ConversationInputCap := 0; ConversationOutputCap := 0; RedactOutboundPDn := false |}.

Definition demo_request : @RunRequest unit unit := {|
  rr_user_id := 1%N; rr_model := "m"; rr_business_context := tt; rr_project_context := None;
  rr_whitelist_mode := "all"; rr_allowed_tools := [];
  rr_messages := [{| m_role := "user"; m_content := "hi"; m_tool_calls := []; m_tool_call_id := "" |}];
  rr_active_integrations := ["telegram"]; rr_selected_platforms := ["telegram"];
  rr_platform_scope_set := true; rr_tier := "free"; rr_conversation_id := "conv"; rr_business_id := "7";
  rr_project_id := ""; rr_user_id_string := "1"; rr_message_id := "m1"; rr_business_approvals := ∅;
  rr_project_overrides := ∅ |}.

Definition demo_env : Env nat coll := {|
  en_tick := 0; en_sent := []; en_requests := []; en_ran := []; en_world := 0; en_store := (∅, []) |}.

Definition demo_split (_ : bool) (_ : unit) (_ : option unit) (ms : list Message) : string * string * list Message :=
  ("platform", "business", ms).

Definition demo_state : RunState :=
  run_state demo_registry false demo_split (λ _, "") (λ _, "") demo_request.

Definition demo_stepRun := stepRun demo_registry demo_opts false true demo_llm demo_run (λ s _, s) None
  (λ _, true) (λ n, Z.of_nat n) (λ n, "batch") demo_state demo_env.

Definition demo_final : Env nat coll := run_goroutine demo_registry demo_opts false true demo_llm demo_run
  (λ s _, s) None (λ _, true) (λ n, Z.of_nat n) (λ n, "batch") demo_state demo_env.

Example demo_pauses :
  (ran_name <$> en_ran demo_final) = ["telegram__read"; "telegram__read"] ∧
  (oe_type <$> en_sent demo_final) =
    [EventText; EventToolCall; EventToolResult; EventText; EventToolRejected; EventToolCall;
     EventToolResult; EventToolApprovalRequired].
Proof. split; vm_compute; reflexivity. Qed.

Lemma requests_answer_every_call_witness :
  ∃ reqs, en_requests demo_final = [] ++ reqs ∧ ∀ req, req ∈ reqs → answered (cr_messages req).
Proof.
  exact (requests_answer_every_call demo_registry demo_opts false true demo_llm demo_run (λ s _, s) None
    (λ _, true) (λ n, Z.of_nat n) (λ n, "batch") demo_state demo_env eq_refl).
Defined.

Lemma pause_is_durable_witness :
  match demo_stepRun with
  | (Return OutcomePaused bid err st', e') =>
      durable_pause (X:=nat) (W:=nat) demo_registry demo_state st' bid err e'
  | _ => False
  end.
Proof.
  pose proof (pause_is_durable demo_registry demo_opts false true demo_llm demo_run (λ s _, s) None
    (λ _, true) (λ n, Z.of_nat n) (λ n, "batch") demo_state demo_env eq_refl) as H.
  fold demo_stepRun in H. destruct demo_stepRun as [[st'|[] bid err st'|] e'] eqn:E;
    try exact H; vm_compute in E; discriminate E.
Defined.

Lemma fresh_run_stays_in_policy_witness :
  ∃ rs, en_ran demo_final = [] ++ rs ∧
    ∀ r, r ∈ rs → is_Some (demo_registry !! ran_name r) ∧ ran_approval r = None.
Proof.
  destruct (fresh_run_stays_in_policy demo_registry demo_opts false true demo_llm demo_run (λ s _, s) None
    (λ _, true) (λ n, Z.of_nat n) (λ n, "batch") demo_split (λ _, "") (λ _, "") demo_request demo_env
    (registry_of_wf _)) as (rs & Hr & Hall).
  exists rs. split; [exact Hr|]. intros r Hin.
  destruct (Hall r Hin) as (H1 & _ & _ & _ & _ & H2). exact (conj H1 H2).
Defined.
End demo.
