(* ===== verification/Resume.v ===== *)
(** * Resuming a paused turn

    [src/services/orchestrator/internal/orchestrator/resume.go].  The fan-out of
    the approved calls ([dispatchApprovedCalls]) is concurrent: its main loop
    settles the batch's calls in order and spawns a goroutine per approved one,
    and the goroutines announce, execute, append their message, mark the call and
    report, interleaved in any way.  A configuration [DState] holds the main
    loop's position, the goroutines still alive and the shared message list;
    [dstep] is one atomic step of the main loop or of one goroutine, and a run is
    any sequence of such steps.  Environment and parameters are those of
    [AgentLoop]. *)

From S2P Require Import Prelude Json GoTime Types Policy Registry Mongo HitlStore A2A ModelLimits AgentLoop.
Local Open Scope go_scope.

(** [ResumeRequest]. *)
Record ResumeRequest := {
  rq_batch_id : string;
  rq_business_approvals : gmap string string;
  rq_project_overrides : gmap string string;
  rq_active_integrations : list string;
  rq_whitelist_mode : string;
  rq_allowed_tools : list string;
  rq_model : string;
  rq_tier : string;
}.

(** What the main loop does with a call: answer it with a rejection, note that it
    was dispatched before, or run it. *)
Inductive disposition :=
| DReject (by_ : rejectionSource) (reason note : string)
| DDispatched
| DRun.

(** A goroutine's next action. *)
Inductive stage :=
| WAnnounce
| WExecute
| WAppend (o : tool_outcome)
| WMark (o : tool_outcome)
| WReport (o : tool_outcome).

Record worker := { wk_call : PendingCall; wk_stage : stage }.

Inductive position := MLoop | MWait | MReturned.

#[export] Instance position_eq_dec : EqDecision position.
Proof. solve_decision. Defined.

(** The edited arguments laid over the original ones. *)
Definition call_args (c : PendingCall) : gomap :=
  match pc_edited_args c with
  | Some edits =>
      if String.eqb (pc_verdict c) "edit"
      then Some (fold_left (λ acc kv, obj_set kv.1 kv.2 acc) edits (gomap_members (pc_arguments c)))
      else pc_arguments c
  | None => pc_arguments c
  end.

Definition approval_id (batchID : string) (c : PendingCall) : string :=
  (batchID +:+ "-" +:+ pc_call_id c)%string.

Section Resume.
Context `{J : JsonText} `{MR : MapRange} `{U : UUIDText} `{Sch : Scheduler}.
Context `{St : Coll PendingToolCallBatch b_id} {X W : Type}.
Variables (reg : Registry X) (opts : Options) (english has_repo : bool).
Variables (llm_chat : nat → ChatRequest → chat_outcome)
          (tool_run : Invocation X → W → tool_outcome * W)
          (RedactPIIExcept : string → list string → string)
          (cancel_at : option nat) (pick : nat → bool)
          (clock : nat → Z) (new_uuid : nat → string).
Notation E := (Env W coll).
Notation send := (send cancel_at pick).
Notation cancelled := (cancelled cancel_at).

Record DState := {
  d_env : E;
  d_messages : list Message;
  d_todo : list PendingCall;
  d_workers : list worker;
  d_main : position;
}.

(** [resumeUserUUID]. *)
Definition resumeUserUUID (userID : string) : uuid :=
  if String.eqb userID "" then uuid_nil else default uuid_nil (uuid_parse userID).

(** The state the loop resumes in. *)
Definition resume_state (snap : Snapshot) (batch : PendingToolCallBatch) (req : ResumeRequest) : RunState := {|
  st_messages := sn_messages snap; st_system_platform := sn_system_platform snap;
  st_system_business := sn_system_business snap;
  st_tools := AvailableForWhitelist english reg
    (scoped_integrations (rq_active_integrations req) (b_platform_scope_set batch)
       (b_selected_platforms batch)) (rq_whitelist_mode req) (rq_allowed_tools req);
  st_selected_platforms := b_selected_platforms batch;
  st_platform_scope_set := b_platform_scope_set batch; st_pdn_allowlist := sn_pdn_allowlist snap;
  st_business_approvals := rq_business_approvals req; st_project_overrides := rq_project_overrides req;
  st_conversation_id := b_conversation_id batch; st_business_id := b_business_id batch;
  st_project_id := b_project_id batch; st_user_id := b_user_id batch;
  st_message_id := b_message_id batch; st_model := rq_model req; st_tier := rq_tier req;
  st_user_uuid := resumeUserUUID (b_user_id batch); st_iter := b_iteration_idx batch + 1;
  st_input_tokens := sn_input_tokens snap; st_output_tokens := sn_output_tokens snap |}.

Definition disposition_of (st : RunState) (call : PendingCall) : disposition :=
  if negb (String.eqb (pc_verdict call) "approve") && negb (String.eqb (pc_verdict call) "edit") then
    if String.eqb (pc_verdict call) "reject"
    then DReject rejectionByOwner
           (if String.eqb (pc_reject_reason call) "" then reasonUserRejected else pc_reject_reason call)
           ownerRejectionNote
    else DReject rejectionByDecisionState reasonDecisionUnavailable decisionUnavailableNote
  else if negb (list_mem (pc_tool_name call) (offeredToolSet (st_tools st)))
  then DReject rejectionByPolicy reasonPolicyForbidden policyForbiddenNote
  else if String.eqb (Hitl.Resolve (Floor reg (pc_tool_name call)) (st_business_approvals st)
                        (st_project_overrides st) (pc_tool_name call)) ToolFloorForbidden
  then DReject rejectionByPolicy reasonPolicyRevoked policyRevokedNote
  else if pc_dispatched call then DDispatched
  else DRun.

Definition quoted_error (e : goerr) : string :=
  let q := String (ascii_of_nat 34) "" in
  ("{" +:+ q +:+ "error" +:+ q +:+ ":" +:+ go_quote (error_text e) +:+ "}")%string.

Definition already_dispatched_note : string :=
  let q := String (ascii_of_nat 34) "" in
  ("{" +:+ q +:+ "dispatched" +:+ q +:+ ":true," +:+ q +:+ "note" +:+ q +:+ ":" +:+ q
   +:+ "result not persisted across resume" +:+ q +:+ "}")%string.

Definition result_content (o : tool_outcome) : string :=
  match o with
  | ToolOk v => json_marshal v
  | ToolErr e => quoted_error e
  | ToolPanic => quoted_error (EText "internal tool error")
  end.

Definition report_event (c : PendingCall) (o : tool_outcome) : Event :=
  let ev := result_event (pc_call_id c) (pc_tool_name c) (DisplayName reg (pc_tool_name c))
              (DisplayNameKey reg (pc_tool_name c)) in
  match o with
  | ToolOk v => ev v "" ""
  | ToolErr e => ev GNull (error_text e) (CodeOf e)
  | ToolPanic => ev GNull "internal tool error" ""
  end.

(** One iteration of the main loop. *)
Definition main_call (st : RunState) (call : PendingCall) (rest : list PendingCall) (x : DState) : DState :=
  match disposition_of st call with
  | DReject by_ reason note =>
      let '(ok, e) := send (rejected_event (pc_call_id call) (pc_tool_name call) reason) (d_env x) in
      {| d_env := e;
         d_messages := d_messages x ++ [tool_message (pc_call_id call) (buildRejectionMessage by_ reason note)];
         d_todo := rest; d_workers := d_workers x; d_main := if ok then MLoop else MReturned |}
  | DDispatched =>
      {| d_env := d_env x;
         d_messages := d_messages x ++ [tool_message (pc_call_id call) already_dispatched_note];
         d_todo := rest; d_workers := d_workers x; d_main := MLoop |}
  | DRun =>
      {| d_env := d_env x; d_messages := d_messages x; d_todo := rest;
         d_workers := d_workers x ++ [{| wk_call := call; wk_stage := WAnnounce |}]; d_main := MLoop |}
  end.

(** [ctx.Err()] is read at an instant of its own. *)
Definition observe (x : DState) : DState := {|
  d_env := tick (en_sent (d_env x)) (d_env x); d_messages := d_messages x; d_todo := d_todo x;
  d_workers := d_workers x; d_main := d_main x |}.

Definition main_step (st : RunState) (x : DState) : option DState :=
  match d_main x, d_todo x with
  | MLoop, call :: rest =>
      if cancelled (en_tick (d_env x))
      then Some {| d_env := d_env x; d_messages := d_messages x; d_todo := []; d_workers := d_workers x;
                   d_main := MWait |}
      else Some (main_call st call rest (observe x))
  | MLoop, [] => Some {| d_env := d_env x; d_messages := d_messages x; d_todo := []; d_workers := d_workers x;
                         d_main := MWait |}
  | MWait, _ =>
      match d_workers x with
      | [] => Some {| d_env := d_env x; d_messages := d_messages x; d_todo := d_todo x; d_workers := [];
                      d_main := MReturned |}
      | _ => None
      end
  | MReturned, _ => None
  end.

(** One action of a goroutine: its next stage ([None]: it ended), the messages and
    the environment. *)
Definition worker_step (batchID : string) (wk : worker) (ms : list Message) (e : E)
  : option stage * list Message * E :=
  let c := wk_call wk in
  match wk_stage wk with
  | WAnnounce =>
      let '(ok, e) := send (call_event (pc_call_id c) (pc_tool_name c) (DisplayName reg (pc_tool_name c))
                              (DisplayNameKey reg (pc_tool_name c)) (call_args c)) e in
      (if ok then Some WExecute else None, ms, e)
  | WExecute =>
      let '(o, e) := invoke tool_run (pc_tool_name c) (call_args c)
        (ExecuteWithApproval reg (pc_tool_name c) (call_args c) (approval_id batchID c)) e in
      (Some (WAppend o), ms, e)
  | WAppend o =>
      (Some (match o with ToolPanic => WReport o | _ => WMark o end),
       ms ++ [tool_message (pc_call_id c) (result_content o)], e)
  | WMark o =>
      let '(_, store) := MarkDispatched (clock (en_tick e)) batchID (pc_call_id c) (en_store e) in
      (Some (WReport o), ms,
       {| en_tick := en_tick e; en_sent := en_sent e; en_requests := en_requests e; en_ran := en_ran e;
          en_world := en_world e; en_store := store |})
  | WReport o => let '(_, e) := send (report_event c o) e in (None, ms, e)
  end.

(** Who moves next: the main loop or the [n]-th live goroutine. *)
Inductive choice := CMain | CWorker (n : nat).

Definition dstep (st : RunState) (batchID : string) (c : choice) (x : DState) : option DState :=
  match c with
  | CMain => main_step st x
  | CWorker n =>
      match d_workers x !! n with
      | None => None
      | Some wk =>
          let '(next, ms, e) := worker_step batchID wk (d_messages x) (d_env x) in
          Some {| d_env := e; d_messages := ms; d_todo := d_todo x;
                  d_workers := match next with
                    | Some s => <[n := {| wk_call := wk_call wk; wk_stage := s |}]> (d_workers x)
                    | None => delete n (d_workers x)
                    end;
                  d_main := d_main x |}
      end
  end.

Definition dsteps (st : RunState) (batchID : string) : relation DState := λ x y,
  ∃ c, dstep st batchID c x = Some y.

Fixpoint run_choices (st : RunState) (batchID : string) (cs : list choice) (x : DState) : option DState :=
  match cs with
  | [] => Some x
  | c :: cs' => y ← dstep st batchID c x; run_choices st batchID cs' y
  end.

Definition dispatch_start (st : RunState) (batch : PendingToolCallBatch) (e : E) : DState := {|
  d_env := e; d_messages := st_messages st; d_todo := b_calls batch; d_workers := []; d_main := MLoop |}.

(** After the join: mark the batch resolved, whatever that returns, and go on. *)
Definition after_dispatch (st : RunState) (batchID : string) (x : DState) : E :=
  let e := d_env x in
  let '(_, store) := MarkResolved (clock (en_tick e)) batchID (en_store e) in
  run_goroutine reg opts english has_repo llm_chat tool_run RedactPIIExcept cancel_at pick clock new_uuid
    (with_messages (d_messages x) st)
    {| en_tick := en_tick e; en_sent := en_sent e; en_requests := en_requests e; en_ran := en_ran e;
       en_world := en_world e; en_store := store |}.

(** The whole of [Resume] for a join that was reached in [x]: [inl] is the state
    in which the fan-out starts, [inr] a refusal, which is one event. *)
Definition Resume (req : ResumeRequest) (e : E) : (RunState * PendingToolCallBatch * E) + E :=
  let refuse ev e := inr {| en_tick := en_tick e; en_sent := en_sent e ++ [ev];
    en_requests := en_requests e; en_ran := en_ran e; en_world := en_world e; en_store := en_store e |} in
  if negb has_repo then refuse (internal_error english) e
  else
    let '(r, store) := GetByBatchID (clock (en_tick e)) (rq_batch_id req) (en_store e) in
    let e := {| en_tick := en_tick e; en_sent := en_sent e; en_requests := en_requests e;
                en_ran := en_ran e; en_world := en_world e; en_store := store |} in
    match r with
    | Err _ => refuse (internal_error english) e
    | Ok batch =>
        if String.eqb (b_status batch) statusExpired
        then refuse (plain_event EventError "approval_expired" (friendlyApprovalExpiredMessage english)) e
        else match decodeSnapshot (b_model_messages batch) with
             | None => refuse (internal_error english) e
             | Some snap => inl (resume_state snap batch req, batch, e)
             end
    end.
End Resume.

(** ** The fan-out *)

Section Fanout.
Context `{J : JsonText} `{MR : MapRange} `{U : UUIDText} `{Sch : Scheduler}.
Context `{St : Coll PendingToolCallBatch b_id} {X W : Type}.
Variables (reg : Registry X) (tool_run : Invocation X → W → tool_outcome * W)
          (cancel_at : option nat) (pick : nat → bool) (clock : nat → Z).
Notation E := (Env W coll).
Notation cancelled := (cancelled cancel_at).
Notation dstep := (dstep reg tool_run cancel_at pick clock).
Notation dsteps := (dsteps reg tool_run cancel_at pick clock).
Notation main_step := (main_step reg cancel_at pick).
Notation worker_step := (worker_step reg tool_run cancel_at pick clock).
Notation D := (@DState St W).
Implicit Types (e : E) (x y : D).

Definition executed (s : stage) : bool :=
  match s with WAnnounce | WExecute => false | _ => true end.

Definition appended (s : stage) : bool :=
  match s with WMark _ | WReport _ => true | _ => false end.

Definition calls_at (p : stage → bool) (ws : list worker) : list PendingCall :=
  wk_call <$> filterb (λ wk, p (wk_stage wk)) ws.

Definition runs (st : RunState) (c : PendingCall) : bool :=
  match disposition_of reg st c with DRun => true | _ => false end.

Definition rejects (st : RunState) (c : PendingCall) : bool :=
  match disposition_of reg st c with DReject _ _ _ => true | _ => false end.

(** What reaches an executor when [c] is run. *)
Definition planned_run (batchID : string) (c : PendingCall) : option Ran :=
  match ExecuteWithApproval reg (pc_tool_name c) (call_args c) (approval_id batchID c) with
  | Ok i => Some {| ran_name := pc_tool_name c; ran_args := call_args c; ran_approval := inv_approval i |}
  | Err _ => None
  end.

(** The accounts of a configuration: every call of the batch is settled inline,
    in a live goroutine, in one that ended after or before running, or not yet
    reached; messages and executions are those of the calls that got that far. *)
Definition accounted (st : RunState) (batch : PendingToolCallBatch) (e : E) (x : D) : Prop :=
  ∃ inline full early skipped rs replies,
    inline ++ full ++ early ++ (wk_call <$> d_workers x) ++ skipped ++ d_todo x ≡ₚ b_calls batch
    ∧ (∀ c, c ∈ inline → runs st c = false)
    ∧ (∀ c, c ∈ full ++ early ++ (wk_call <$> d_workers x) → runs st c = true)
    ∧ d_messages x = st_messages st ++ replies
    ∧ (∀ m, m ∈ replies → m_role m = "tool")
    ∧ m_tool_call_id <$> replies ≡ₚ pc_call_id <$> inline ++ full ++ calls_at appended (d_workers x)
    ∧ en_ran (d_env x) = en_ran e ++ rs
    ∧ rs ≡ₚ omap (planned_run (b_id batch)) (full ++ calls_at executed (d_workers x))
    ∧ en_requests (d_env x) = en_requests e
    ∧ (cancelled (en_tick (d_env x)) = false → early = [] ∧ skipped = [])
    ∧ match d_main x with
      | MLoop => True
      | MWait => d_todo x = []
      | MReturned => (d_todo x = [] ∧ d_workers x = [])
                     ∨ (cancelled (en_tick (d_env x)) = true ∧ ∃ c, c ∈ inline ∧ rejects st c = true)
      end.

Lemma accounted_start st batch e : accounted st batch e (dispatch_start st batch e).
Proof.
  exists [], [], [], [], [], []. cbn. rewrite !app_nil_r.
  split_and!; try done; by intros ? ?%elem_of_nil.
Qed.

Lemma send_env ev e :
  let '(ok, e') := send cancel_at pick ev e in
  en_ran e' = en_ran e ∧ en_requests e' = en_requests e ∧ en_tick e' = S (en_tick e) ∧
  (ok = false → cancelled (en_tick e) = true).
Proof. by destruct (send_cases cancel_at pick ev e) as [->|[-> ?]]. Qed.

(** What holds while the context is alive held before. *)
Lemma alive_before t t' : t ≤ t' → cancelled t' = false → cancelled t = false.
Proof. intros Ht Hc. destruct (cancelled t) eqn:E; [|done]. by rewrite (cancelled_mono cancel_at t t') in Hc. Qed.

Ltac acct := split_and!; try done.

Lemma main_call_accounted st batch e x call rest :
  accounted st batch e x → d_main x = MLoop → d_todo x = call :: rest →
  accounted st batch e (main_call reg cancel_at pick st call rest x).
Proof.
  intros (inl & full & early & sk & rs & rep & Hc & Hi & Hr & Hm & Hrole & Hid & Hran & Hrs & Hq & Hnc & _) Hpos Htodo.
  rewrite Htodo in Hc. unfold main_call. destruct (disposition_of reg st call) as [by_ reason note| |] eqn:Ed.
  - pose proof (send_env (rejected_event (pc_call_id call) (pc_tool_name call) reason) (d_env x)) as Hs.
    destruct (AgentLoop.send _ _ _ (d_env x)) as [ok e']. destruct Hs as (Er & Eq & Et & Hf).
    exists (inl ++ [call]), full, early, sk, rs,
      (rep ++ [tool_message (pc_call_id call) (buildRejectionMessage by_ reason note)]).
    cbn [d_env d_messages d_todo d_workers d_main]. acct.
    + rewrite <- Hc. solve_Permutation.
    + intros c [Hin| ->%list_elem_of_singleton]%elem_of_app; [by apply Hi|]. unfold runs. by rewrite Ed.
    + by rewrite Hm, app_assoc.
    + intros m [Hin| ->%list_elem_of_singleton]%elem_of_app; [by apply Hrole|done].
    + rewrite !fmap_app in *. cbn. rewrite Hid. solve_Permutation.
    + by rewrite Er.
    + by rewrite Eq.
    + intros Hal. apply Hnc. eapply alive_before; [|exact Hal]. lia.
    + destruct ok; [done|]. right. split; [eapply cancelled_mono; [|by apply Hf]; lia|].
      exists call. split; [set_solver|]. unfold rejects. by rewrite Ed.
  - exists (inl ++ [call]), full, early, sk, rs, (rep ++ [tool_message (pc_call_id call) already_dispatched_note]).
    cbn [d_env d_messages d_todo d_workers d_main]. acct.
    + rewrite <- Hc. solve_Permutation.
    + intros c [Hin| ->%list_elem_of_singleton]%elem_of_app; [by apply Hi|]. unfold runs. by rewrite Ed.
    + by rewrite Hm, app_assoc.
    + intros m [Hin| ->%list_elem_of_singleton]%elem_of_app; [by apply Hrole|done].
    + rewrite !fmap_app in *. cbn. rewrite Hid. solve_Permutation.
  - exists inl, full, early, sk, rs, rep.
    cbn [d_env d_messages d_todo d_workers d_main].
    assert (∀ p, p WAnnounce = false →
      calls_at p (d_workers x ++ [{| wk_call := call; wk_stage := WAnnounce |}]) = calls_at p (d_workers x)) as Hp.
    { intros p Hp. unfold calls_at. rewrite filterb_app. cbn. by rewrite Hp, app_nil_r. }
    rewrite !Hp by done. acct.
    + rewrite fmap_app, <- Hc. cbn. solve_Permutation.
    + intros c. rewrite fmap_app, !elem_of_app. intros [?|[?|[?|Hin]]];
        [apply Hr; set_solver..|]. apply list_elem_of_singleton in Hin as ->. unfold runs. cbn. by rewrite Ed.
Qed.

Lemma main_step_accounted st batch e x y :
  accounted st batch e x → main_step st x = Some y → accounted st batch e y.
Proof.
  intros Hacc. unfold Resume.main_step. destruct (d_main x) eqn:Epos; [| |done].
  - destruct (d_todo x) as [|call rest] eqn:Et.
    + intros [= <-]. destruct Hacc as (inl & full & early & sk & rs & rep & H).
      exists inl, full, early, sk, rs, rep. cbn [d_env d_messages d_todo d_workers d_main].
      rewrite Et in H. tauto.
    + destruct (cancelled (en_tick (d_env x))) eqn:Ec.
      * intros [= <-].
        destruct Hacc as (inl & full & early & sk & rs & rep & Hc & Hi & Hr & Hm & Hrole & Hid & Hran & Hrs & Hq & Hnc & _).
        exists inl, full, early, (sk ++ call :: rest), rs, rep. cbn [d_env d_messages d_todo d_workers d_main].
        acct.
        -- rewrite <- Hc, Et. solve_Permutation.
        -- intros Hal. by rewrite Hal in Ec.
      * intros [= <-]. apply main_call_accounted; [|done|done].
        destruct Hacc as (inl & full & early & sk & rs & rep & Hc & Hi & Hr & Hm & Hrole & Hid & Hran & Hrs & Hq & Hnc & Hp).
        exists inl, full, early, sk, rs, rep. cbn. rewrite Epos in *. acct.
        intros Hal. apply Hnc. eapply alive_before; [|exact Hal]. lia.
  - destruct (d_workers x) as [|wk ws] eqn:Ew; [|done]. intros [= <-].
    destruct Hacc as (inl & full & early & sk & rs & rep & H).
    exists inl, full, early, sk, rs, rep. cbn [d_env d_messages d_todo d_workers d_main].
    rewrite Epos, Ew in H. tauto.
Qed.

Lemma worker_ran batchID c e :
  let '(o, e') := invoke tool_run (pc_tool_name c) (call_args c)
    (ExecuteWithApproval reg (pc_tool_name c) (call_args c) (approval_id batchID c)) e in
  en_ran e' = en_ran e ++ option_list (planned_run batchID c) ∧ en_requests e' = en_requests e
  ∧ en_tick e' = en_tick e.
Proof.
  unfold invoke, planned_run. destruct (ExecuteWithApproval _ _ _ _) as [i|err].
  - by destruct (tool_run i (en_world e)).
  - by rewrite app_nil_r.
Qed.

Lemma calls_at_cons p c s ws :
  calls_at p ({| wk_call := c; wk_stage := s |} :: ws) = (if p s then [c] else []) ++ calls_at p ws.
Proof. unfold calls_at. cbn. by destruct (p s). Qed.

#[local] Instance calls_at_perm p : Proper ((≡ₚ) ==> (≡ₚ)) (calls_at p).
Proof. intros l1 l2 Hl. unfold calls_at. by rewrite Hl. Qed.

(** The accounts with the goroutines up to order. *)
Lemma accounted_workers st batch e x ws :
  d_workers x ≡ₚ ws → accounted st batch e x →
  accounted st batch e {| d_env := d_env x; d_messages := d_messages x; d_todo := d_todo x;
                          d_workers := ws; d_main := d_main x |}.
Proof.
  intros Hp (inl & full & early & sk & rs & rep & Hc & Hi & Hr & Hm & Hrole & Hid & Hran & Hrs & Hq & Hnc & Hpos).
  exists inl, full, early, sk, rs, rep. cbn [d_env d_messages d_todo d_workers d_main]. acct.
  - by rewrite <- Hp.
  - intros c. rewrite <- Hp. apply Hr.
  - by rewrite <- Hp.
  - by rewrite <- Hp.
  - destruct (d_main x); try done. destruct Hpos as [[? Hw]|?]; [left|by right].
    split; [done|]. rewrite Hw in Hp. by apply Permutation_nil_l in Hp.
Qed.

Lemma tick_cancelled_mono e e' :
  en_tick e ≤ en_tick e' → cancelled (en_tick e) = true → cancelled (en_tick e') = true.
Proof. apply cancelled_mono. Qed.

Lemma worker_accounted st batch e x wk ws next ms e' :
  d_workers x = wk :: ws → worker_step (b_id batch) wk (d_messages x) (d_env x) = (next, ms, e') →
  accounted st batch e x →
  accounted st batch e {| d_env := e'; d_messages := ms; d_todo := d_todo x;
    d_workers := match next with Some s => {| wk_call := wk_call wk; wk_stage := s |} :: ws | None => ws end;
    d_main := d_main x |}.
Proof.
  intros Hws Hstep (inl & full & early & sk & rs & rep & Hc & Hi & Hr & Hm & Hrole & Hid & Hran & Hrs & Hq & Hnc & Hpos).
  rewrite Hws in *. destruct wk as [c s]. unfold Resume.worker_step in Hstep. cbn [wk_call wk_stage] in *.
  assert (∀ e1, en_tick (d_env x) ≤ en_tick e1 → match d_main x with
      | MLoop => True | MWait => d_todo x = []
      | MReturned => (d_todo x = [] ∧ match next with
            Some s => {| wk_call := c; wk_stage := s |} :: ws | None => ws end = []) ∨
          (cancelled (en_tick e1) = true ∧ ∃ c, c ∈ inl ∧ rejects st c = true) end) as Hpos'.
  { intros e1 Ht. destruct (d_main x); try done. right.
    destruct Hpos as [[_ ?]|[Hcan ?]]; [done|]. split; [by eapply cancelled_mono|done]. }
  assert (∀ e1, en_tick (d_env x) ≤ en_tick e1 → cancelled (en_tick e1) = false → early = [] ∧ sk = []) as Hnc'.
  { intros e1 Ht Hal. apply Hnc. by eapply alive_before. }
  rewrite !calls_at_cons in *. destruct s as [| |o|o|o]; cbn [executed appended app] in *.
  - pose proof (send_env (call_event (pc_call_id c) (pc_tool_name c) (DisplayName reg (pc_tool_name c))
      (DisplayNameKey reg (pc_tool_name c)) (call_args c)) (d_env x)) as Hs.
    destruct (AgentLoop.send _ _ _ (d_env x)) as [ok e1]. destruct Hs as (Er & Eq & Et & Hf).
    destruct ok; injection Hstep as <- <- <-.
    + exists inl, full, early, sk, rs, rep. cbn [d_env d_messages d_todo d_workers d_main].
      rewrite !calls_at_cons. cbn [executed appended app]. acct; [by rewrite Er|by rewrite Eq|apply Hnc'; lia|].
      apply Hpos'. lia.
    + exists inl, full, (c :: early), sk, rs, rep. cbn [d_env d_messages d_todo d_workers d_main]. acct.
      * rewrite <- Hc. cbn. solve_Permutation.
      * intros c'. rewrite !elem_of_app, elem_of_cons. cbn in Hr. intros. apply Hr. set_solver.
      * by rewrite Er.
      * by rewrite Eq.
      * intros Hal. apply (alive_before (en_tick (d_env x))) in Hal; [|lia]. by rewrite Hf in Hal.
      * apply Hpos'. lia.
  - pose proof (worker_ran (b_id batch) c (d_env x)) as Hw.
    destruct (invoke tool_run _ _ _ (d_env x)) as [o e1]. destruct Hw as (Er & Eq & Et).
    injection Hstep as <- <- <-.
    exists inl, full, early, sk, (rs ++ option_list (planned_run (b_id batch) c)), rep.
    cbn [d_env d_messages d_todo d_workers d_main].
    rewrite !calls_at_cons. cbn [executed appended app]. acct.
    + by rewrite Er, Hran, app_assoc.
    + rewrite Hrs, !omap_app. cbn. destruct (planned_run (b_id batch) c); cbn; solve_Permutation.
    + by rewrite Eq.
    + apply Hnc'. lia.
    + apply Hpos'. lia.
  - injection Hstep as <- <- <-.
    exists inl, full, early, sk, rs, (rep ++ [tool_message (pc_call_id c) (result_content o)]).
    cbn [d_env d_messages d_todo d_workers d_main].
    assert ((if appended match o with ToolPanic => WReport o | _ => WMark o end then [c] else []) = [c]
      ∧ (if executed match o with ToolPanic => WReport o | _ => WMark o end then [c] else []) = [c]) as [Ea Ee]
      by by destruct o.
    rewrite !calls_at_cons, Ea, Ee. acct.
    + by rewrite Hm, app_assoc.
    + intros m [Hin| ->%list_elem_of_singleton]%elem_of_app; [by apply Hrole|done].
    + rewrite !fmap_app in *. cbn. rewrite Hid. solve_Permutation.
    + by apply Hpos'.
  - destruct (MarkDispatched _ _ _ _) as [r store]. injection Hstep as <- <- <-.
    exists inl, full, early, sk, rs, rep. cbn [d_env d_messages d_todo d_workers d_main].
    rewrite !calls_at_cons. cbn [executed appended app]. acct. by apply Hpos'.
  - pose proof (send_env (report_event reg c o) (d_env x)) as Hs.
    destruct (AgentLoop.send _ _ _ (d_env x)) as [ok e1]. destruct Hs as (Er & Eq & Et & Hf).
    injection Hstep as <- <- <-.
    exists inl, (full ++ [c]), early, sk, rs, rep. cbn [d_env d_messages d_todo d_workers d_main]. acct.
    + rewrite <- Hc. cbn. solve_Permutation.
    + intros c'. rewrite !elem_of_app, list_elem_of_singleton. cbn in Hr. intros. apply Hr. set_solver.
    + rewrite Hid, !fmap_app. cbn. solve_Permutation.
    + by rewrite Er.
    + rewrite Hrs, !omap_app. cbn. destruct (planned_run (b_id batch) c); cbn; solve_Permutation.
    + by rewrite Eq.
    + apply Hnc'. lia.
    + apply Hpos'. lia.
Qed.

Lemma dstep_accounted st batch e c x y :
  accounted st batch e x → dstep st (b_id batch) c x = Some y → accounted st batch e y.
Proof.
  intros Hacc. destruct c as [|n]; [by apply main_step_accounted|].
  unfold Resume.dstep. destruct (d_workers x !! n) as [wk|] eqn:En; [|done].
  destruct (worker_step (b_id batch) wk (d_messages x) (d_env x)) as [[next ms] e1] eqn:Ew.
  intros [= <-].
  pose proof (accounted_workers _ _ _ _ _ (delete_Permutation _ _ _ En) Hacc) as Hacc1.
  eapply worker_accounted in Hacc1 as Hacc2; [|reflexivity|exact Ew].
  cbn [d_todo d_main] in Hacc2. destruct next as [s|]; [|exact Hacc2].
  refine (accounted_workers _ _ _ _ _ _ Hacc2). cbn [d_workers]. symmetry. by eapply insert_perm.
Qed.

Lemma run_choices_rtc st batchID cs x y :
  run_choices reg tool_run cancel_at pick clock st batchID cs x = Some y → rtc (dsteps st batchID) x y.
Proof.
  revert x. induction cs as [|c cs IH]; intros x; cbn [run_choices]; [by intros [= ->]|].
  intros (x' & Hc & Hr)%bind_Some. eapply rtc_l; [by exists c|by apply IH].
Qed.

Lemma reachable_accounted st batch e x :
  rtc (dsteps st (b_id batch)) (dispatch_start st batch e) x → accounted st batch e x.
Proof.
  intros Hrun. pose proof (accounted_start st batch e) as H0'.
  induction Hrun as [|x y z [c Hxy] _ IH]; [done|]. apply IH. by eapply dstep_accounted.
Qed.

(** *** Termination *)

Definition stage_rank (s : stage) : nat :=
  match s with WAnnounce => 5 | WExecute => 4 | WAppend _ => 3 | WMark _ => 2 | WReport _ => 1 end.

Fixpoint rank (ws : list worker) : nat :=
  match ws with [] => 0 | wk :: ws' => stage_rank (wk_stage wk) + rank ws' end.

Definition measure (x : D) : nat :=
  7 * length (d_todo x) + rank (d_workers x) +
  match d_main x with MLoop => 2 | MWait => 1 | MReturned => 0 end.

Lemma rank_app l1 l2 : rank (l1 ++ l2) = rank l1 + rank l2.
Proof. induction l1 as [|wk l1 IH]; cbn; lia. Qed.

#[local] Instance rank_perm : Proper ((≡ₚ) ==> (=)) rank.
Proof. induction 1 as [|wk l1 l2 _ IH|wk1 wk2 l|l1 l2 l3 _ IH1 _ IH2]; cbn; lia. Qed.

Lemma worker_step_rank batchID wk ms e :
  match (worker_step batchID wk ms e).1.1 with
  | Some s => stage_rank s < stage_rank (wk_stage wk)
  | None => 0 < stage_rank (wk_stage wk)
  end.
Proof.
  destruct wk as [c [| |o|o|o]]; unfold Resume.worker_step; cbn.
  - destruct (AgentLoop.send _ _ _ e) as [[] e1]; cbn; lia.
  - destruct (invoke _ _ _ _ e) as [o e1]; cbn; lia.
  - destruct o; cbn; lia.
  - destruct (MarkDispatched _ _ _ _) as [r store]; cbn; lia.
  - destruct (AgentLoop.send _ _ _ e) as [ok e1]; cbn; lia.
Qed.

Lemma dstep_measure st batchID x y : dsteps st batchID x y → measure y < measure x.
Proof.
  intros [[|n] Hs]; cbn [Resume.dstep] in Hs; unfold measure.
  - unfold Resume.main_step in Hs. destruct (d_main x), (d_todo x) as [|call rest] eqn:Et; try done.
    + injection Hs as <-. cbn. lia.
    + destruct (cancelled _); injection Hs as <-; [cbn; lia|].
      unfold main_call. destruct (disposition_of reg st call); cbn.
      * destruct (AgentLoop.send _ _ _ _) as [[] e1]; cbn; lia.
      * lia.
      * rewrite rank_app. cbn. lia.
    + destruct (d_workers x) eqn:Ew; [|done]. injection Hs as <-. cbn. lia.
    + destruct (d_workers x) eqn:Ew; [|done]. injection Hs as <-. cbn. lia.
  - destruct (d_workers x !! n) as [wk|] eqn:En; [|done].
    pose proof (worker_step_rank batchID wk (d_messages x) (d_env x)) as Hr.
    destruct (worker_step batchID wk (d_messages x) (d_env x)) as [[next ms] e1]. injection Hs as <-.
    cbn [d_todo d_workers d_main fst] in *.
    rewrite (rank_perm _ _ (delete_Permutation _ _ _ En)). cbn.
    destruct next as [s|]; [|lia].
    rewrite (rank_perm _ _ (insert_perm _ _ _ {| wk_call := wk_call wk; wk_stage := s |} En)). cbn. lia.
Qed.

Lemma dsteps_bounded st batchID n x y : nsteps (dsteps st batchID) n x y → n ≤ measure x.
Proof.
  induction 1 as [x|n x y z Hxy _ IH]; [lia|]. apply dstep_measure in Hxy. lia.
Qed.

(** Until the main loop has returned, it or a goroutine can move. *)
Lemma can_move st batchID x : d_main x ≠ MReturned → ∃ y, dsteps st batchID x y.
Proof.
  intros Hp. destruct (d_workers x) as [|wk ws] eqn:Ew.
  - destruct (d_main x) eqn:Ep; [| |done].
    + destruct (d_todo x) as [|call rest] eqn:Et.
      * eexists. exists CMain. cbn. unfold Resume.main_step. by rewrite Ep, Et.
      * destruct (cancelled (en_tick (d_env x))) eqn:Ec; eexists; exists CMain; cbn;
          unfold Resume.main_step; rewrite Ep, Et, Ec; done.
    + eexists. exists CMain. cbn. unfold Resume.main_step. by rewrite Ep, Ew.
  - destruct (worker_step batchID wk (d_messages x) (d_env x)) as [[next ms] e1] eqn:Es.
    eexists. exists (CWorker 0). cbn [Resume.dstep]. rewrite Ew. cbn. by rewrite Es.
Qed.

(** *** What may run *)

Lemma runs_true st c : runs st c = true →
  (pc_verdict c = "approve" ∨ pc_verdict c = "edit") ∧ pc_dispatched c = false ∧
  pc_tool_name c ∈ offeredToolSet (st_tools st) ∧
  Hitl.Resolve (Floor reg (pc_tool_name c)) (st_business_approvals st) (st_project_overrides st)
    (pc_tool_name c) ≠ ToolFloorForbidden.
Proof.
  unfold runs, disposition_of.
  destruct (String.eqb_spec (pc_verdict c) "approve"), (String.eqb_spec (pc_verdict c) "edit"); cbn;
    try (destruct (String.eqb (pc_verdict c) "reject"); done);
  (destruct (list_mem (pc_tool_name c) (offeredToolSet (st_tools st))) eqn:El; cbn; [|done];
   destruct (String.eqb_spec (Hitl.Resolve (Floor reg (pc_tool_name c)) (st_business_approvals st)
     (st_project_overrides st) (pc_tool_name c)) ToolFloorForbidden); [done|];
   destruct (pc_dispatched c); [done|]; apply list_mem_true in El; auto).
Qed.

Lemma filterb_runs_split st inline full early ws sk todo calls :
  inline ++ full ++ early ++ ws ++ sk ++ todo ≡ₚ calls →
  (∀ c, c ∈ full ++ early ++ ws → runs st c = true) →
  full ++ ws ⊆+ filterb (runs st) calls.
Proof.
  intros Hc Hr. rewrite <- Hc, !filterb_app.
  rewrite (filterb_all (runs st) full) by (intros; apply Hr; set_solver).
  rewrite (filterb_all (runs st) ws) by (intros; apply Hr; set_solver).
  transitivity (filterb (runs st) inline ++ full ++ ws); [apply submseteq_inserts_l; done|].
  apply submseteq_app; [done|]. apply submseteq_app; [done|].
  etrans; [|apply submseteq_inserts_l; reflexivity].
  apply submseteq_inserts_r. done.
Qed.

Lemma calls_at_submseteq p ws : calls_at p ws ⊆+ wk_call <$> ws.
Proof.
  unfold calls_at. apply fmap_submseteq, sublist_submseteq, filterb_sublist.
Qed.

Lemma omap_submseteq {A B} (f : A → option B) l1 l2 : l1 ⊆+ l2 → omap f l1 ⊆+ omap f l2.
Proof.
  intros (k & Hp)%submseteq_Permutation. rewrite Hp, omap_app. apply submseteq_inserts_r. done.
Qed.

(** C2: At every moment of a resume's fan-out, under any interleaving, any tool
    outcomes and any cancellation, the executions so far are among the batch's
    calls that were approved or edited, were not dispatched before, are offered
    under the whitelist as it is now, and are not forbidden by the policies as they
    are now; each such call ran at most once, with its edits laid over its
    arguments, under no other approval id than the batch's and its own. *)
Theorem resume_runs_only_approved st batch e x :
  rtc (dsteps st (b_id batch)) (dispatch_start st batch e) x →
  ∃ rs, en_ran (d_env x) = en_ran e ++ rs ∧
    rs ⊆+ omap (planned_run (b_id batch)) (filterb (runs st) (b_calls batch)) ∧
    ∀ r, r ∈ rs → ∃ c, c ∈ b_calls batch ∧
      ran_name r = pc_tool_name c ∧ ran_args r = call_args c ∧
      (ran_approval r = None ∨ ran_approval r = Some (approval_id (b_id batch) c)) ∧
      (pc_verdict c = "approve" ∨ pc_verdict c = "edit") ∧ pc_dispatched c = false ∧
      pc_tool_name c ∈ offeredToolSet (st_tools st) ∧
      Hitl.Resolve (Floor reg (pc_tool_name c)) (st_business_approvals st) (st_project_overrides st)
        (pc_tool_name c) ≠ ToolFloorForbidden.
Proof.
  intros Hrun. destruct (reachable_accounted _ _ _ _ Hrun)
    as (inl & full & early & sk & rs & rep & Hc & _ & Hr & _ & _ & _ & Hran & Hrs & _).
  exists rs. split; [done|].
  assert (rs ⊆+ omap (planned_run (b_id batch)) (filterb (runs st) (b_calls batch))) as Hsub.
  { rewrite Hrs. apply omap_submseteq. etrans; [|by eapply filterb_runs_split].
    apply submseteq_app; [done|]. apply calls_at_submseteq. }
  split; [done|]. intros r Hin. apply (elem_of_submseteq _ _ _ Hin) in Hsub.
  apply list_elem_of_omap in Hsub as (c & [Hrc Hc']%elem_of_filterb & Hp).
  destruct (runs_true _ _ Hrc) as (Hv & Hd & Ho & Hf).
  exists c. unfold planned_run in Hp.
  destruct (ExecuteWithApproval _ _ _ _) as [i|err] eqn:Ex; [|done]. injection Hp as <-. cbn.
  split_and!; try done. unfold ExecuteWithApproval in Ex.
  repeat (destr_in Ex; simplify_eq/=); auto.
Qed.

(** A fan-out the main loop has returned from: joined, unless the delivery of a
    rejection was given up because the context was cancelled. *)
Lemma fanout_returned st batch e x :
  rtc (dsteps st (b_id batch)) (dispatch_start st batch e) x → d_main x = MReturned →
  (d_todo x = [] ∧ d_workers x = []) ∨ (cancelled (en_tick (d_env x)) = true ∧ ∃ c, c ∈ b_calls batch ∧ rejects st c = true).
Proof.
  intros Hrun Hp. destruct (reachable_accounted _ _ _ _ Hrun)
    as (inl & full & early & sk & rs & rep & Hc & _ & _ & _ & _ & _ & _ & _ & _ & _ & Hpos).
  rewrite Hp in Hpos. destruct Hpos as [?|(? & c & Hin & ?)]; [by left|right]. split; [done|]. exists c.
  split; [|done]. rewrite <- Hc. set_solver.
Qed.

(** One that was not cancelled has settled every call. *)
Lemma fanout_joined st batch e x :
  rtc (dsteps st (b_id batch)) (dispatch_start st batch e) x → d_main x = MReturned → cancelled (en_tick (d_env x)) = false →
  ∃ replies rs, d_messages x = st_messages st ++ replies ∧ (∀ m, m ∈ replies → m_role m = "tool") ∧
    m_tool_call_id <$> replies ≡ₚ pc_call_id <$> b_calls batch ∧
    en_ran (d_env x) = en_ran e ++ rs ∧
    rs ≡ₚ omap (planned_run (b_id batch)) (filterb (runs st) (b_calls batch)).
Proof.
  intros Hrun Hp Hal. destruct (fanout_returned _ _ _ _ Hrun Hp) as [[Ht Hw]|[Hcan _]]; [|by rewrite Hal in Hcan].
  destruct (reachable_accounted _ _ _ _ Hrun)
    as (inl & full & early & sk & rs & rep & Hc & Hi & Hr & Hm & Hrole & Hid & Hran & Hrs & _ & Hnc & _).
  destruct (Hnc Hal) as [-> ->]. rewrite Hw, Ht in *. cbn in *. rewrite !app_nil_r in *.
  exists rep, rs. split_and!; try done.
  - by rewrite Hid, Hc.
  - rewrite Hrs, <- Hc, filterb_app, (filterb_none _ inl) by done.
    by rewrite (filterb_all _ full) by (intros; by apply Hr).
Qed.

(** C36: The fan-out always ends: no run has more steps than seven per call and two
    more, and until the main loop has returned some step can be taken.  Once it has
    returned no goroutine is left; the exception is a turn cancelled while the
    rejection of some call was being delivered, which returns without waiting.  If
    the turn was not cancelled by then, every call of the batch has been answered
    by exactly one tool message, and the calls that were to run (approved or edited,
    still offered, not forbidden now, not dispatched before) have all run, each once. *)
Theorem fanout_settles_every_call st batch e x :
  (∀ n, nsteps (dsteps st (b_id batch)) n (dispatch_start st batch e) x → n ≤ 7 * length (b_calls batch) + 2) ∧
  (rtc (dsteps st (b_id batch)) (dispatch_start st batch e) x →
   (d_main x ≠ MReturned → ∃ y, dsteps st (b_id batch) x y) ∧
   (d_main x = MReturned →
    (d_workers x = [] ∨ (cancelled (en_tick (d_env x)) = true ∧ ∃ c, c ∈ b_calls batch ∧ rejects st c = true)) ∧
    (cancelled (en_tick (d_env x)) = false →
     ∃ replies rs, d_messages x = st_messages st ++ replies ∧ (∀ m, m ∈ replies → m_role m = "tool") ∧
       m_tool_call_id <$> replies ≡ₚ pc_call_id <$> b_calls batch ∧
       en_ran (d_env x) = en_ran e ++ rs ∧
       rs ≡ₚ omap (planned_run (b_id batch)) (filterb (runs st) (b_calls batch))))).
Proof.
  split.
  { intros n Hn. apply dsteps_bounded in Hn. unfold measure in Hn. cbn [d_todo d_workers d_main dispatch_start rank] in Hn. lia. }
  intros Hrun. split; [by apply can_move|]. intros Hp. split; [|by apply fanout_joined].
  destruct (fanout_returned _ _ _ _ Hrun Hp) as [[_ ?]|?]; [by left|by right].
Qed.

(** A rejection whose delivery is cut off returns from the fan-out without
    joining: the goroutines spawned before it are still alive, and can go on to
    announce, execute and append after the resume has moved on. *)
Theorem early_return_skips_join st batch e c1 c2 rest by_ reason note :
  b_calls batch = c1 :: c2 :: rest →
  disposition_of reg st c1 = DRun → disposition_of reg st c2 = DReject by_ reason note →
  cancel_at = Some (en_tick e + 2) → pick (en_tick e + 2) = false → pick (en_tick e + 3) = true →
  ∃ x y, rtc (dsteps st (b_id batch)) (dispatch_start st batch e) x ∧
    d_main x = MReturned ∧ d_workers x = [{| wk_call := c1; wk_stage := WAnnounce |}] ∧
    en_ran (d_env x) = en_ran e ∧
    rtc (dsteps st (b_id batch)) x y ∧
    en_ran (d_env y) = en_ran e ++ option_list (planned_run (b_id batch) c1) ∧
    length (d_messages y) = S (length (d_messages x)).
Proof.
  intros Hcalls H1 H2 Hcan Hp2 Hp3.
  assert (∀ t, cancelled t = Nat.leb (en_tick e + 2) t) as Hct by (intros; unfold AgentLoop.cancelled; by rewrite Hcan).
  set (x0 := dispatch_start st batch e).
  set (ran e' := {| en_tick := S (S (S (en_tick e))); en_sent := en_sent e; en_requests := en_requests e;
                   en_ran := en_ran e'; en_world := en_world e'; en_store := en_store e |} : E).
  assert (∃ x, rtc (dsteps st (b_id batch)) x0 x ∧ d_main x = MReturned ∧
    d_workers x = [{| wk_call := c1; wk_stage := WAnnounce |}] ∧ d_env x = ran e) as (x & Hx & Hpos & Hw & He).
  { eexists. split; [|split_and!].
    - eapply rtc_l; [exists CMain; cbn; unfold Resume.main_step; cbn; rewrite Hcalls, Hct;
        rewrite (proj2 (Nat.leb_gt _ _)) by lia; unfold main_call; rewrite H1; reflexivity|].
      eapply rtc_l; [exists CMain; cbn; unfold Resume.main_step; cbn; rewrite Hct;
        rewrite (proj2 (Nat.leb_gt _ _)) by lia; unfold main_call; rewrite H2; cbn;
        unfold AgentLoop.send; cbn; rewrite Hct, (proj2 (Nat.leb_le _ _)) by lia; cbn;
        replace (S (S (en_tick e))) with (en_tick e + 2) by lia; rewrite Hp2; reflexivity|].
      reflexivity.
    - done.
    - done.
    - done. }
  exists x.
  pose proof (worker_ran (b_id batch) c1 (tick (en_sent e ++ [call_event (pc_call_id c1) (pc_tool_name c1)
    (DisplayName reg (pc_tool_name c1)) (DisplayNameKey reg (pc_tool_name c1)) (call_args c1)]) (ran e))) as Hwr.
  destruct (invoke tool_run _ _ _ _) as [o e2] eqn:Ei in Hwr. destruct Hwr as (Hr2 & _ & _).
  eexists. split_and!; [done|done|done|by rewrite He| | |].
  - eapply rtc_l; [exists (CWorker 0); cbn [Resume.dstep]; rewrite Hw; cbn [lookup list_lookup]; cbn;
      rewrite He; unfold AgentLoop.send; cbn; replace (S (S (S (en_tick e)))) with (en_tick e + 3) by lia;
      rewrite Hp3, orb_true_r; reflexivity|].
    eapply rtc_l; [exists (CWorker 0); cbn [Resume.dstep]; cbn; replace (en_tick e + 3) with (S (S (S (en_tick e)))) by lia;
      unfold ran, tick in Ei |- *; cbn in Ei |- *; rewrite Ei; reflexivity|].
    eapply rtc_l; [exists (CWorker 0); cbn [Resume.dstep]; reflexivity|].
    reflexivity.
  - cbn. by rewrite Hr2.
  - cbn. rewrite length_app. cbn. lia.
Qed.
End Fanout.

(** ** From the fan-out back into the loop *)

Section AfterFanout.
Context `{J : JsonText} `{MR : MapRange} `{U : UUIDText} `{Sch : Scheduler}.
Context `{St : Coll PendingToolCallBatch b_id} {X W : Type}.
Variables (reg : Registry X) (opts : Options) (english has_repo : bool).
Variables (llm_chat : nat → ChatRequest → chat_outcome)
          (tool_run : Invocation X → W → tool_outcome * W)
          (RedactPIIExcept : string → list string → string)
          (cancel_at : option nat) (pick : nat → bool) (clock : nat → Z) (new_uuid : nat → string).

(** C37: A resumed turn goes on with a history a provider accepts: if the history
    that was paused owes exactly the answers to the batch's calls (which is how a
    pause leaves it), and the turn was not cancelled before the main loop of the
    fan-out returned, then no goroutine is left to change the history, and every
    request the resumed loop makes has each tool call answered exactly once, whatever
    the decisions, the interleaving of the goroutines and the tools' outcomes. *)
Theorem resumed_requests_answer_every_call st batch (e : Env W coll) x aw :
  owed [] (st_messages st) = Some aw → aw ≡ₚ pc_call_id <$> b_calls batch →
  rtc (dsteps reg tool_run cancel_at pick clock st (b_id batch)) (dispatch_start st batch e) x →
  d_main x = MReturned → cancelled cancel_at (en_tick (d_env x)) = false →
  d_workers x = [] ∧
  ∃ reqs, en_requests (after_dispatch reg opts english has_repo llm_chat tool_run RedactPIIExcept cancel_at pick
            clock new_uuid st (b_id batch) x) = en_requests e ++ reqs ∧
    ∀ req, req ∈ reqs → answered (cr_messages req).
Proof.
  intros Ho Hp Hrun Hret Hal.
  destruct (fanout_joined _ _ _ _ _ _ _ _ _ Hrun Hret Hal) as (rep & rs & Hm & Hrole & Hid & _).
  split; [by destruct (fanout_returned _ _ _ _ _ _ _ _ _ Hrun Hret) as [[_ ?]|[Hcan _]]; [|rewrite Hal in Hcan]|].
  destruct (owed_tools aw rep [] Hrole) as (aw' & Haw & ->%Permutation_nil_r); [by rewrite Hid, app_nil_r|].
  unfold after_dispatch. destruct (MarkResolved _ _ _) as [r store].
  match goal with |- context [run_goroutine _ _ _ _ _ _ _ _ _ _ _ ?st1 ?e1] =>
    destruct (goroutine_requests reg opts english has_repo llm_chat tool_run RedactPIIExcept cancel_at pick clock
      new_uuid st1 e1) as [n ->];
    destruct (step_loop_history reg opts english has_repo llm_chat tool_run RedactPIIExcept cancel_at pick clock
      new_uuid n st1 e1) as [(reqs & Hr & Hall) _] end.
  - change (owed [] (d_messages x) = Some []). rewrite Hm, owed_app, Ho. exact Haw.
  - exists reqs. split; [|done]. rewrite Hr. cbn [en_requests].
    destruct (reachable_accounted _ _ _ _ _ _ _ _ _ Hrun) as (? & ? & ? & ? & ? & ? & ? & ? & ? & ? & ? & ? & ? & ? & Hq & _).
    by rewrite Hq.
Qed.
End AfterFanout.

(** ** On a concrete batch *)

Section resume_demo.
#[local] Existing Instance json_text.
#[local] Existing Instance decimal_uuid.
#[local] Existing Instance sorted_range.
#[local] Existing Instance in_order.
#[local] Existing Instance demo_coll.

Definition demo_decided (id name verdict : string) (edits : gomap) : PendingCall := {|
  pc_call_id := id; pc_tool_name := name; pc_arguments := Some [("n", GNum 1); ("text", GStr "a")];
  pc_floor_at_pause := "manual"; pc_verdict := verdict; pc_reject_reason := ""; pc_edited_args := edits; pc_dispatched := false;
  pc_dispatched_at := None |}.

Definition demo_batch : PendingToolCallBatch := {|
  b_id := "b1"; b_conversation_id := "conv"; b_business_id := "7"; b_project_id := ""; b_user_id := "1";
  b_message_id := "m1"; b_selected_platforms := ["telegram"]; b_platform_scope_set := true;
  b_status := statusResolving;
  b_calls := [demo_decided "c1" "telegram__post" "edit" (Some [("text", GStr "b")]);
              demo_decided "c2" "telegram__read" "reject" None];
  b_model_messages := ""; b_iteration_idx := 0; b_created_at := 0%Z; b_updated_at := 0%Z; b_expires_at := None |}.

Definition demo_fanout (cancel_at : option nat) (pick : nat → bool) (cs : list choice) :=
  run_choices demo_registry demo_run cancel_at pick (λ _, 5%Z) demo_state "b1" cs
    (dispatch_start demo_state demo_batch demo_env).

(** The main loop spawns, rejects and waits; the goroutine runs; the loop joins. *)
Definition demo_schedule : list choice :=
  [CMain; CMain; CMain; CWorker 0; CWorker 0; CWorker 0; CWorker 0; CWorker 0; CMain].

Example demo_fanout_runs :
  (x ← demo_fanout None (λ _, true) demo_schedule;
   Some (en_ran (d_env x), m_tool_call_id <$> d_messages x, d_workers x, d_main x)) =
  Some ([{| ran_name := "telegram__post"; ran_args := Some [("n", GNum 1); ("text", GStr "b")];
            ran_approval := Some "b1-c1" |}],
        [""; "c2"; "c1"], [], MReturned).
Proof. vm_compute. reflexivity. Qed.

Lemma resume_runs_only_approved_witness :
  match demo_fanout None (λ _, true) demo_schedule with
  | Some x => ∃ rs, en_ran (d_env x) = [] ++ rs ∧ length rs = 1 ∧
      ∀ r, r ∈ rs → ∃ c, c ∈ b_calls demo_batch ∧ ran_args r = call_args c ∧
        (pc_verdict c = "approve" ∨ pc_verdict c = "edit")
  | None => False
  end.
Proof.
  pose proof demo_fanout_runs as Hd. destruct (demo_fanout None (λ _, true) demo_schedule) as [x|] eqn:E.
  2: { discriminate Hd. }
  destruct (resume_runs_only_approved demo_registry demo_run None (λ _, true) (λ _, 5%Z)
    demo_state demo_batch demo_env x (run_choices_rtc _ _ _ _ _ _ _ _ _ _ E)) as (rs & Hr & _ & Hall).
  exists rs. split; [exact Hr|]. split.
  - cbn in Hd. injection Hd as Hran _ _ _.
    exact (eq_trans (eq_sym (f_equal (@length _) Hr)) (f_equal (@length _) Hran)).
  - intros r Hin. destruct (Hall r Hin) as (c & H1 & _ & H2 & _ & H3 & _). exists c. exact (conj H1 (conj H2 H3)).
Defined.

Definition demo_owing : RunState := with_messages
  [{| m_role := "user"; m_content := "hi"; m_tool_calls := []; m_tool_call_id := "" |};
   assistant_message "" [demo_call_of "c1" "telegram__post"; demo_call_of "c2" "telegram__read"]] demo_state.

Definition demo_owing_run := run_choices demo_registry demo_run None (λ _, true) (λ _, 5%Z) demo_owing "b1"
  demo_schedule (dispatch_start demo_owing demo_batch demo_env).

Example demo_owing_joined :
  (x ← demo_owing_run; Some (d_workers x, d_main x)) = Some ([], MReturned).
Proof. vm_compute. reflexivity. Qed.

Lemma resumed_requests_answer_every_call_witness :
  match demo_owing_run with
  | Some x => d_workers x = [] ∧ ∃ reqs, en_requests (after_dispatch demo_registry demo_opts false true demo_llm demo_run (λ s _, s)
      None (λ _, true) (λ _, 5%Z) (λ n, "batch") demo_owing "b1" x) = [] ++ reqs ∧
      ∀ req, req ∈ reqs → answered (cr_messages req)
  | None => False
  end.
Proof.
  pose proof demo_owing_joined as Hd. destruct demo_owing_run as [x|] eqn:E; [|discriminate Hd].
  cbn in Hd. injection Hd as Hw Hp.
  exact (resumed_requests_answer_every_call demo_registry demo_opts false true demo_llm demo_run (λ s _, s) None
    (λ _, true) (λ _, 5%Z) (λ n, "batch") demo_owing demo_batch demo_env x ["c1"; "c2"] eq_refl (Permutation_refl _)
    (run_choices_rtc _ _ _ _ _ _ _ _ _ _ E) Hp eq_refl).
Defined.

Lemma early_return_skips_join_witness :
  ∃ x y, rtc (dsteps demo_registry demo_run (Some 2) (λ t, Nat.eqb t 3) (λ _, 5%Z) demo_state "b1")
           (dispatch_start demo_state demo_batch demo_env) x ∧
    d_main x = MReturned ∧
    rtc (dsteps demo_registry demo_run (Some 2) (λ t, Nat.eqb t 3) (λ _, 5%Z) demo_state "b1") x y ∧
    length (en_ran (d_env x)) = 0 ∧ length (en_ran (d_env y)) = 1.
Proof.
  destruct (early_return_skips_join demo_registry demo_run (Some 2) (λ t, Nat.eqb t 3) (λ _, 5%Z)
    demo_state demo_batch demo_env _ _ [] rejectionByOwner reasonUserRejected ownerRejectionNote
    eq_refl ltac:(vm_compute; reflexivity) ltac:(vm_compute; reflexivity) eq_refl eq_refl eq_refl)
    as (x & y & Hx & Hp & _ & Hr & Hy & Hr' & _).
  exists x, y. split; [exact Hx|]. split; [exact Hp|]. split; [exact Hy|].
  rewrite Hr, Hr'. split; vm_compute; reflexivity.
Defined.

(** An executor error quoted with [%q] is not always JSON. *)
Example quoted_error_not_json :
  unmarshal_json (quoted_error (EText (String (ascii_of_nat 7) ""))) = None.
Proof. vm_compute. reflexivity. Qed.
End resume_demo.
