(* ===== verification/LlmRouter.v ===== *)
(** * Routing LLM calls to providers

    [src/pkg/llm]: the model registry ([registry.go]), candidate selection and
    provider health ([selector.go]), the router ([router.go]), the commission
    ([billing.go]) and the deployment gates ([endpoints.go], [residency.go]).
    The registry hands out pointers, so entries live in a heap and both the
    registry and the candidates hold addresses.  A provider's answer, the clock
    and whatever other requests do to the shared state meanwhile are parameters.
    Prices are exact rationals where the code has [float64]. *)

From Stdlib Require Import QArith.
From S2P Require Import Prelude Json GoTime Types ModelLimits.
Close Scope Q_scope.
Local Open Scope Z_scope.

(** ** [registry.go] *)

Definition HealthStatusHealthy : string := "healthy".
Definition HealthStatusDegraded : string := "degraded".
Definition HealthStatusDown : string := "down".

Record ModelProviderEntry := {
  me_model : string;
  me_provider : string;
  me_input_cost : Q;
  me_output_cost : Q;
  me_avg_latency_ms : Z;
  me_health_status : string;
  me_enabled : bool;
  me_priority : Z;
  me_last_checked : Z;
}.

(** [providerMetrics]. *)
Record providerMetrics := {
  pm_total : Z;
  pm_success : Z;
  pm_failure : Z;
  pm_consecutive : Z;
  pm_avg_latency_ms : Z;
  pm_latencies : list Z;
  pm_health : string;
  pm_touched : Z;
}.

(** The heap of entries, the registry's map and the selector's metrics. *)
Record LlmState := {
  ls_heap : gmap nat ModelProviderEntry;
  ls_entries : gmap string (list nat);
  ls_metrics : gmap string providerMetrics;
}.

Definition GetModelProviders (model : string) (s : LlmState) : list nat :=
  default [] (ls_entries s !! model).

Definition ModelExists (model : string) (s : LlmState) : bool :=
  negb (Nat.eqb (length (GetModelProviders model s)) 0).

Definition same_provider (provider : string) (s : LlmState) (q : nat) : bool :=
  match ls_heap s !! q with Some e => String.eqb (me_provider e) provider | None => false end.

(** The first slot of the provider is taken by the new pointer; else it is appended. *)
Fixpoint put_slot (p : nat) (hit : nat → bool) (l : list nat) : list nat :=
  match l with
  | [] => [p]
  | q :: l' => if hit q then p :: l' else q :: put_slot p hit l'
  end.

(** [RegisterModelProvider] of a freshly allocated entry at address [p]. *)
Definition RegisterModelProvider (p : nat) (e : ModelProviderEntry) (s : LlmState) : LlmState := {|
  ls_heap := <[p := e]> (ls_heap s);
  ls_entries := <[me_model e := put_slot p (same_provider (me_provider e) s) (GetModelProviders (me_model e) s)]>
                  (ls_entries s);
  ls_metrics := ls_metrics s |}.

Definition NewModelRegistry : LlmState := {| ls_heap := ∅; ls_entries := ∅; ls_metrics := ∅ |}.

(** ** [selector.go] *)

Definition latencyWindow : nat := 100.
Definition healthRecoverySuccessMin : Z := 3.
Definition metricsMaxEntries : nat := 1000.

Record Outcome := { oc_success : bool; oc_latency : Z }.

Definition avgCost (e : ModelProviderEntry) : Q := ((me_input_cost e + me_output_cost e) / 2)%Q.

Definition betterLatency (candidate current : ModelProviderEntry) : bool :=
  if me_avg_latency_ms candidate =? 0 then false
  else if me_avg_latency_ms current =? 0 then true
  else me_avg_latency_ms candidate <? me_avg_latency_ms current.

Definition is_healthy (e : ModelProviderEntry) : bool := String.eqb (me_health_status e) HealthStatusHealthy.

(** The comparison [buildCandidates] sorts by. *)
Definition candidate_less (strategy : Strategy) (a b : ModelProviderEntry) : bool :=
  if Bool.eqb (is_healthy a) (is_healthy b) then
    match strategy with
    | StrategyCost => negb (Qle_bool (avgCost b) (avgCost a))
    | _ => betterLatency a b
    end
  else is_healthy a.

Section Selector.
Context {P : Type} `{MR : MapRange}.
Variable providers : gmap string P.

Record Candidate := { cd_ptr : nat; cd_entry : ModelProviderEntry; cd_provider : P }.

Definition candidate_of (s : LlmState) (p : nat) : option Candidate :=
  e ← ls_heap s !! p;
  if me_enabled e
  then pr ← providers !! me_provider e; Some {| cd_ptr := p; cd_entry := e; cd_provider := pr |}
  else None.

Definition buildCandidates (model : string) (strategy : Strategy) (s : LlmState) : list Candidate :=
  stable_sort (λ a b, candidate_less strategy (cd_entry a) (cd_entry b))
    (omap (candidate_of s) (GetModelProviders model s)).

Definition Pick (model : string) (strategy : Strategy) (s : LlmState) : option Candidate :=
  head (buildCandidates model strategy s).

Definition metric_key (e : ModelProviderEntry) : string := (me_provider e +:+ ":" +:+ me_model e)%string.

Definition new_metrics : providerMetrics := {|
  pm_total := 0; pm_success := 0; pm_failure := 0; pm_consecutive := 0; pm_avg_latency_ms := 0;
  pm_latencies := []; pm_health := HealthStatusHealthy; pm_touched := 0 |}.

(** [evictOldestMetricLocked]. *)
Definition evictOldest (m : gmap string providerMetrics) : gmap string providerMetrics :=
  match fold_left (λ acc kv, match acc with
      | Some (_, oldest) => if pm_touched kv.2 <? oldest then Some (kv.1, pm_touched kv.2) else acc
      | None => Some (kv.1, pm_touched kv.2)
      end) (range m) (None : option (string * Z)) with
  | Some (k, _) => delete k m
  | None => m
  end.

Definition sumZ (l : list Z) : Z := fold_right Z.add 0 l.

Definition push_latency (ms : Z) (l : list Z) : list Z :=
  let l := l ++ [ms] in if Nat.ltb latencyWindow (length l) then drop 1 l else l.

(** [failureRate > 0.5] and [> 0.2]: with counts below 2^50 the [float64] quotient
    compares like the exact one. *)
Definition classify_rate (failures total : Z) : string :=
  if total <? 2 * failures then HealthStatusDown
  else if total <? 5 * failures then HealthStatusDegraded else HealthStatusHealthy.

(** How an outcome moves one row. *)
Definition update_metrics (now : Z) (oc : Outcome) (m : providerMetrics) : providerMetrics :=
  let total := pm_total m + 1 in
  if oc_success oc then
    let consecutive := pm_consecutive m + 1 in
    let latencies := if 0 <? oc_latency oc then push_latency (Z.quot (oc_latency oc) Millisecond) (pm_latencies m)
                     else pm_latencies m in
    {| pm_total := total; pm_success := pm_success m + 1; pm_failure := pm_failure m;
       pm_consecutive := consecutive;
       pm_avg_latency_ms := if 0 <? oc_latency oc then Z.quot (sumZ latencies) (Z.of_nat (length latencies))
                            else pm_avg_latency_ms m;
       pm_latencies := latencies;
       pm_health := if negb (String.eqb (pm_health m) HealthStatusHealthy) && (healthRecoverySuccessMin <=? consecutive)
                    then HealthStatusHealthy else pm_health m;
       pm_touched := now |}
  else
    {| pm_total := total; pm_success := pm_success m; pm_failure := pm_failure m + 1; pm_consecutive := 0;
       pm_avg_latency_ms := pm_avg_latency_ms m; pm_latencies := pm_latencies m;
       pm_health := classify_rate (pm_failure m + 1) total; pm_touched := now |}.

(** [Record]: [now] is read for the row, [checked] for the entry. *)
Definition Record_ (p : nat) (oc : Outcome) (now checked : Z) (s : LlmState) : LlmState :=
  match ls_heap s !! p with
  | None => s
  | Some e =>
      let key := metric_key e in
      let base := match ls_metrics s !! key with
        | Some _ => ls_metrics s
        | None => if Nat.leb metricsMaxEntries (size (ls_metrics s)) then evictOldest (ls_metrics s) else ls_metrics s
        end in
      let m := update_metrics now oc (default new_metrics (ls_metrics s !! key)) in
      {| ls_heap := <[p := {| me_model := me_model e; me_provider := me_provider e;
             me_input_cost := me_input_cost e; me_output_cost := me_output_cost e;
             me_avg_latency_ms := if oc_success oc && (0 <? oc_latency oc) then pm_avg_latency_ms m
                                  else me_avg_latency_ms e;
             me_health_status := pm_health m; me_enabled := me_enabled e; me_priority := me_priority e;
             me_last_checked := checked |}]> (ls_heap s);
         ls_entries := ls_entries s;
         ls_metrics := <[key := m]> base |}
  end.
End Selector.
Arguments Candidate : clear implicits.

(** ** Candidate order *)

Definition less_of (a b : Q) : bool := negb (Qle_bool b a).

Lemma less_of_lt a b : less_of a b = true ↔ (a < b)%Q.
Proof.
  unfold less_of. rewrite negb_true_iff, <- not_true_iff_false, Qle_bool_iff.
  split; [apply Qnot_le_lt|apply Qlt_not_le].
Qed.

Lemma candidate_less_asym st a b : candidate_less st a b = true → candidate_less st b a = false.
Proof.
  unfold candidate_less, betterLatency. destruct (is_healthy a), (is_healthy b), st; cbn; try done;
    rewrite <- ?not_true_iff_false; fold (less_of (avgCost a) (avgCost b)) (less_of (avgCost b) (avgCost a));
    rewrite ?less_of_lt; try (intros H1 H2; exact (Qlt_irrefl _ (Qlt_trans _ _ _ H1 H2)));
    repeat case_match; to_prop; try done; lia.
Qed.

Lemma candidate_less_weak st a b c :
  candidate_less st a c = true → candidate_less st a b = true ∨ candidate_less st b c = true.
Proof.
  unfold candidate_less, betterLatency.
  destruct (is_healthy a), (is_healthy b), (is_healthy c), st; cbn; try (by auto);
    fold (less_of (avgCost a) (avgCost c)) (less_of (avgCost a) (avgCost b)) (less_of (avgCost b) (avgCost c));
    rewrite ?less_of_lt;
    try (intros Hac; destruct (Qlt_le_dec (avgCost a) (avgCost b)) as [?|Hba]; [by left|right];
         exact (Qle_lt_trans _ _ _ Hba Hac));
    repeat case_match; to_prop; try done; try (by auto); lia.
Qed.

(** Registrations keep one slot per provider, and only addresses in the heap. *)
Definition slot_of (model provider : string) (s : LlmState) (p : nat) : Prop :=
  ∃ e, ls_heap s !! p = Some e ∧ me_model e = model ∧ me_provider e = provider.

Definition provider_of (s : LlmState) (p : nat) : string :=
  match ls_heap s !! p with Some e => me_provider e | None => "" end.

Definition registry_ok (s : LlmState) : Prop :=
  ∀ model, (∀ p, p ∈ GetModelProviders model s → ∃ provider, slot_of model provider s p) ∧
           NoDup (provider_of s <$> GetModelProviders model s).

Lemma put_slot_elem p hit l q : q ∈ put_slot p hit l → q = p ∨ q ∈ l.
Proof.
  induction l as [|x l IH]; cbn; [set_solver|]. destruct (hit x); [set_solver|].
  rewrite !elem_of_cons. intuition.
Qed.

(** Replacing the slot of a provider, or appending one for a new provider, keeps
    the providers of the slots distinct. *)
Lemma put_slot_nodup (f g : nat → string) p hit l :
  (∀ q, q ∈ l → hit q = String.eqb (f q) (g p)) → (∀ q, q ∈ l → q ≠ p → g q = f q) →
  p ∉ l → NoDup (f <$> l) → NoDup (g <$> put_slot p hit l).
Proof.
  intros Hh Hg Hp Hn.
  assert (∀ l' : list nat, (∀ q, q ∈ l' → q ∈ l) → g <$> l' = f <$> l') as Heq.
  { intros l' Hl'. apply list_fmap_ext. intros i q Hq%list_elem_of_lookup_2. apply Hg; [by apply Hl'|].
    intros ->. by apply Hp, Hl'. }
  assert (∀ l', (∀ q, q ∈ l' → q ∈ l) → NoDup (f <$> l') → NoDup (g <$> put_slot p hit l')) as IH;
    [|by apply IH].
  induction l' as [|x l' IH]; intros Hl' Hn'; cbn; [apply NoDup_singleton|].
  rewrite (Hh x) by (apply Hl'; constructor). cbn in Hn'. apply NoDup_cons in Hn' as [Hx Hn'].
  destruct (String.eqb_spec (f x) (g p)) as [Hxp|Hne]; cbn; apply NoDup_cons.
  - rewrite Heq, <- Hxp by (intros; apply Hl'; by constructor). done.
  - split; [|apply IH; [intros; apply Hl'; by constructor|done]].
    rewrite Hg by (try (apply Hl'; constructor); intros ->; apply Hp, Hl'; constructor).
    intros (q & Hq & [->|Hin]%put_slot_elem)%list_elem_of_fmap; [done|].
    rewrite Hg in Hq by (try (apply Hl'; by constructor); intros ->; apply Hp, Hl'; by constructor).
    apply Hx, list_elem_of_fmap. eauto.
Qed.

Lemma registry_ok_new : registry_ok NewModelRegistry.
Proof. intros model. cbn. split; [by intros p ?%elem_of_nil|constructor]. Qed.

Lemma registry_ok_register p e s :
  ls_heap s !! p = None → registry_ok s → registry_ok (RegisterModelProvider p e s).
Proof.
  intros Hp Hok model.
  assert (∀ m q, q ∈ GetModelProviders m s → q ≠ p) as Hne.
  { intros m q Hq ->. destruct (proj1 (Hok m) _ Hq) as (pr & e' & He & _). congruence. }
  assert (∀ q, q ≠ p → provider_of (RegisterModelProvider p e s) q = provider_of s q) as Hpr.
  { intros q Hq. unfold provider_of. cbn. by rewrite lookup_insert_ne. }
  unfold GetModelProviders at 1 2. cbn [RegisterModelProvider ls_entries].
  destruct (decide (me_model e = model)) as [<-|Hm].
  - rewrite lookup_insert_eq. cbn. destruct (Hok (me_model e)) as [Hs Hn]. split.
    + intros q [->|Hq]%put_slot_elem.
      * exists (me_provider e), e. cbn. by rewrite lookup_insert_eq.
      * destruct (Hs _ Hq) as (pr & e' & He & H1 & H2). exists pr, e'. cbn.
        by rewrite lookup_insert_ne by (symmetry; by eapply Hne).
    + eapply put_slot_nodup; [| |by intros ?%Hne|exact Hn].
      * intros q Hq. unfold same_provider, provider_of. cbn. rewrite lookup_insert_eq.
        destruct (Hs _ Hq) as (pr & e' & He & _). by rewrite He.
      * intros q Hq Hqp. by apply Hpr.
  - rewrite lookup_insert_ne by done. fold (GetModelProviders model s). destruct (Hok model) as [Hs Hn]. split.
    + intros q Hq. destruct (Hs _ Hq) as (pr & e' & He & H1 & H2). exists pr, e'. cbn.
      by rewrite lookup_insert_ne by (symmetry; by eapply Hne).
    + erewrite list_fmap_ext; [exact Hn|]. intros i q Hq%list_elem_of_lookup_2. apply Hpr. by eapply Hne.
Qed.

Section Candidates.
Context {P : Type}.
Variable providers : gmap string P.
Notation candidate_of := (candidate_of providers).
Notation buildCandidates := (buildCandidates providers).

Lemma candidate_of_ptr s p c : candidate_of s p = Some c →
  cd_ptr c = p ∧ ls_heap s !! p = Some (cd_entry c) ∧ me_enabled (cd_entry c) = true ∧
  providers !! me_provider (cd_entry c) = Some (cd_provider c).
Proof.
  unfold LlmRouter.candidate_of. destruct (ls_heap s !! p) as [e|]; [|done]. cbn.
  destruct (me_enabled e) eqn:Ee; [|done]. destruct (providers !! me_provider e) eqn:Ep; [|done].
  cbn. by intros [= <-].
Qed.

Lemma sorted_lookup {A} (R : A → A → Prop) l i j x y :
  StronglySorted R l → l !! i = Some x → l !! j = Some y → (i < j)%nat → R x y.
Proof.
  intros Hs. revert i j. induction Hs as [|z l Hs IH Hall]; intros [|i] [|j] Hx Hy Hij; simplify_eq/=; try lia.
  - rewrite Forall_forall in Hall. apply Hall. by eapply list_elem_of_lookup_2.
  - apply (IH i j); [done|done|lia].
Qed.

Lemma omap_candidate_sublist s l : sublist (cd_ptr <$> omap (candidate_of s) l) l.
Proof.
  induction l as [|p l IH]; cbn; [done|]. destruct (candidate_of s p) as [c|] eqn:Ec; cbn.
  - apply candidate_of_ptr in Ec as [-> _]. by constructor.
  - by constructor.
Qed.

(** The candidates for a model are its registered entries that are enabled and
    whose provider is wired, each provider once; healthy ones come first, and within
    the same health the cheapest (or, for speed, the fastest with a measurement)
    does, ties in registration order.  [Pick] is their head: it is unhealthy only
    when no candidate is healthy. *)
Theorem candidates_spec model st s :
  registry_ok s →
  (∀ c, c ∈ buildCandidates model st s ↔ ∃ p, p ∈ GetModelProviders model s ∧ candidate_of s p = Some c) ∧
  NoDup (cd_ptr <$> buildCandidates model st s) ∧
  NoDup ((λ c, me_provider (cd_entry c)) <$> buildCandidates model st s) ∧
  (∀ i j a b, buildCandidates model st s !! i = Some a → buildCandidates model st s !! j = Some b → (i < j)%nat →
     (is_healthy (cd_entry b) = true → is_healthy (cd_entry a) = true) ∧
     (is_healthy (cd_entry a) = is_healthy (cd_entry b) →
      match st with
      | StrategyCost => (avgCost (cd_entry a) <= avgCost (cd_entry b))%Q
      | StrategySpeed => betterLatency (cd_entry b) (cd_entry a) = false
      end)) ∧
  (∀ c, filterb (equivalent (λ a b, candidate_less st (cd_entry a) (cd_entry b)) c) (buildCandidates model st s) =
        filterb (equivalent (λ a b, candidate_less st (cd_entry a) (cd_entry b)) c)
          (omap (candidate_of s) (GetModelProviders model s))) ∧
  Pick providers model st s = head (buildCandidates model st s).
Proof.
  intros Hok. destruct (Hok model) as [Hslots Hn].
  set (less := λ a b : Candidate P, candidate_less st (cd_entry a) (cd_entry b)).
  pose proof (stable_sort_perm less (omap (candidate_of s) (GetModelProviders model s))) as Hperm.
  assert (NoDup (provider_of s <$> (cd_ptr <$> omap (candidate_of s) (GetModelProviders model s)))) as Hnp.
  { eapply sublist_NoDup; [exact Hn|]. apply fmap_sublist_mono, omap_candidate_sublist. }
  split_and!.
  - intros c. unfold LlmRouter.buildCandidates. fold less. rewrite Hperm, list_elem_of_omap. done.
  - unfold LlmRouter.buildCandidates. fold less. rewrite Hperm. by eapply NoDup_fmap_1.
  - unfold LlmRouter.buildCandidates. fold less. rewrite Hperm.
    erewrite <- list_fmap_compose, list_fmap_ext in Hnp; [exact Hnp|].
    intros i c (p & _ & Hc)%list_elem_of_lookup_2%list_elem_of_omap.
    apply candidate_of_ptr in Hc as (<- & He & _). cbn. unfold provider_of. by rewrite He.
  - intros i j a b Ha Hb Hij.
    assert (StronglySorted (λ a b, less b a = false) (buildCandidates model st s)) as Hs.
    { apply stable_sort_sorted; intros *; [apply candidate_less_asym|apply candidate_less_weak]. }
    pose proof (sorted_lookup _ _ _ _ _ _ Hs Ha Hb Hij) as Hl. unfold less, candidate_less in Hl.
    destruct (is_healthy (cd_entry a)), (is_healthy (cd_entry b)); cbn in Hl; try done; (split; [done|intros _]);
      (destruct st; [apply negb_false_iff, Qle_bool_iff in Hl; done|done]).
  - intros c. unfold LlmRouter.buildCandidates. apply stable_sort_stable; intros *; apply candidate_less_weak.
  - done.
Qed.
End Candidates.

(** ** Health as a function of history

    The reference: what the outcomes of a pair, newest first, say of it. *)
Section Health.
Context `{MR : MapRange}.

Fixpoint streak (h : list Outcome) : nat :=
  match h with
  | oc :: h' => if oc_success oc then S (streak h') else 0
  | [] => 0
  end%nat.

Definition failures (h : list Outcome) : Z := Z.of_nat (length (filterb (λ oc, negb (oc_success oc)) h)).

(** Three successes in a row, or no failure at all, is healthy; else the failure
    rate as it stood right after the last failure decides. *)
Definition health_of (h : list Outcome) : string :=
  if Nat.leb 3 (streak h) then HealthStatusHealthy
  else match drop (streak h) h with
       | [] => HealthStatusHealthy
       | h' => classify_rate (failures h') (Z.of_nat (length h'))
       end.

Definition measured (oc : Outcome) : option Z :=
  if oc_success oc && (0 <? oc_latency oc) then Some (Z.quot (oc_latency oc) Millisecond) else None.

(** The last hundred measured latencies, oldest first. *)
Definition samples (h : list Outcome) : list Z := rev (take latencyWindow (omap measured h)).

Definition row_ok (h : list Outcome) (m : providerMetrics) : Prop :=
  pm_total m = Z.of_nat (length h) ∧ pm_success m = Z.of_nat (length h) - failures h ∧
  pm_failure m = failures h ∧ pm_consecutive m = Z.of_nat (streak h) ∧
  pm_latencies m = samples h ∧
  pm_avg_latency_ms m = Z.quot (sumZ (samples h)) (Z.of_nat (length (samples h))) ∧
  pm_health m = health_of h.

Lemma row_ok_new : row_ok [] new_metrics.
Proof. done. Qed.

Lemma push_latency_samples ms (l : list Z) :
  push_latency ms (rev (take latencyWindow l)) = rev (take latencyWindow (ms :: l)).
Proof.
  unfold push_latency. change (take latencyWindow (ms :: l)) with (ms :: take 99 l). cbn [rev].
  rewrite length_app, length_rev, length_take. cbn [length].
  destruct (decide (length l < 100)%nat) as [Hl|Hl].
  - rewrite (proj2 (Nat.ltb_ge _ _)) by (unfold latencyWindow; lia).
    unfold latencyWindow. by rewrite !take_ge by lia.
  - rewrite (proj2 (Nat.ltb_lt _ _)) by (unfold latencyWindow; lia).
    destruct (l !! 99%nat) as [x|] eqn:Hx; [|apply lookup_ge_None in Hx; lia].
    unfold latencyWindow. rewrite (take_S_r _ _ _ Hx), rev_app_distr. done.
Qed.

Lemma failures_nonneg h : 0 ≤ failures h ≤ Z.of_nat (length h).
Proof. unfold failures. pose proof (filterb_length (λ oc, negb (oc_success oc)) h). lia. Qed.

Lemma failures_cons oc h : failures (oc :: h) = failures h + (if oc_success oc then 0 else 1).
Proof. unfold failures. cbn. destruct (oc_success oc); cbn; lia. Qed.

Lemma failures_drop_streak h : failures (drop (streak h) h) = failures h.
Proof.
  induction h as [|oc h IH]; [done|]. cbn [streak]. rewrite failures_cons.
  destruct (oc_success oc) eqn:E; cbn [drop]; [rewrite IH; lia|]. by rewrite failures_cons, E.
Qed.

Lemma streak_le h : (streak h ≤ length h)%nat.
Proof. induction h as [|oc h IH]; cbn; [lia|]. destruct (oc_success oc); lia. Qed.

Lemma update_metrics_ok now oc h m : row_ok h m → row_ok (oc :: h) (update_metrics now oc m).
Proof.
  intros (Ht & Hs & Hf & Hc & Hl & Ha & Hh). unfold update_metrics.
  assert (oc_success oc = true → samples (oc :: h) =
    if 0 <? oc_latency oc then push_latency (Z.quot (oc_latency oc) Millisecond) (samples h) else samples h) as Hsam.
  { intros Hok. unfold samples. cbn [omap list_omap]. unfold measured at 1. rewrite Hok. cbn [andb].
    destruct (0 <? oc_latency oc); [by rewrite push_latency_samples|done]. }
  assert (oc_success oc = false → samples (oc :: h) = samples h) as Hsam'.
  { intros Hok. unfold samples. cbn [omap list_omap]. unfold measured at 1. by rewrite Hok. }
  destruct (oc_success oc) eqn:Eok; unfold row_ok; cbn [pm_total pm_success pm_failure pm_consecutive
    pm_avg_latency_ms pm_latencies pm_health length]; rewrite ?failures_cons, ?Eok.
  - rewrite Hsam by done. rewrite Ht, Hs, Hf, Hc, Hl, Ha. split_and!; try lia; try done.
    + cbn [streak]. rewrite Eok. lia.
    + by destruct (0 <? oc_latency oc).
    + rewrite Hh. unfold health_of, healthRecoverySuccessMin. cbn [streak]. rewrite Eok. cbn [drop].
      destruct (Nat.leb_spec 3 (streak h)), (Nat.leb_spec 3 (S (streak h))), (Z.leb_spec 3 (Z.of_nat (streak h) + 1));
        try lia; rewrite ?andb_true_r, ?andb_false_r; try done.
      match goal with |- context [String.eqb ?x _] => by destruct (String.eqb_spec x HealthStatusHealthy) end.
  - rewrite Hsam' by done. rewrite Ht, Hs, Hf, Hl, Ha. split_and!; try lia; try done.
    + cbn [streak]. by rewrite Eok.
    + unfold health_of. cbn [streak]. rewrite Eok. cbn [drop Nat.leb]. rewrite failures_cons, Eok. cbn [length].
      do 2 f_equal; lia.
Qed.

(** A failure never heals. *)
Lemma failure_never_heals h oc :
  health_of h ≠ HealthStatusHealthy → oc_success oc = false → health_of (oc :: h) ≠ HealthStatusHealthy.
Proof.
  intros Hh Hoc. unfold health_of in *. cbn [streak]. rewrite Hoc. cbn [drop Nat.leb].
  destruct (Nat.leb_spec 3 (streak h)); [done|].
  pose proof (failures_drop_streak h) as Hd. pose proof (length_drop h (streak h)) as Hlen. pose proof (streak_le h).
  destruct (drop (streak h) h) as [|oc' h'] eqn:E; [done|].
  rewrite failures_cons, Hoc. unfold classify_rate in *. cbn [length] in *.
  rewrite <- Hd. repeat case_match; to_prop; try done; lia.
Qed.

(** A key's history in a run of [Record] calls. *)
Record RecordCall := { rc_ptr : nat; rc_outcome : Outcome; rc_now : Z; rc_checked : Z }.

Definition run_record (c : RecordCall) (s : LlmState) : LlmState :=
  Record_ (rc_ptr c) (rc_outcome c) (rc_now c) (rc_checked c) s.

Definition key_of (s : LlmState) (c : RecordCall) : option string := metric_key <$> ls_heap s !! rc_ptr c.

(** Calls newest first. *)
Definition history (s : LlmState) (k : string) (cs : list RecordCall) : list Outcome :=
  rc_outcome <$> filterb (λ c, bool_decide (key_of s c = Some k)) cs.

Definition run_records (cs : list RecordCall) (s : LlmState) : LlmState := fold_right run_record s cs.

Lemma record_keys c s c' : key_of (run_record c s) c' = key_of s c'.
Proof.
  unfold run_record, Record_, key_of. destruct (ls_heap s !! rc_ptr c) as [e|] eqn:He; [|done]. cbn.
  destruct (decide (rc_ptr c' = rc_ptr c)) as [->|Hne].
  - by rewrite lookup_insert_eq, He.
  - by rewrite lookup_insert_ne.
Qed.

Lemma run_records_keys cs s c' : key_of (run_records cs s) c' = key_of s c'.
Proof. induction cs as [|c cs IH]; cbn; [done|]. by rewrite record_keys. Qed.

Definition keys_seen (s : LlmState) (cs : list RecordCall) : gset string := list_to_set (omap (key_of s) cs).

Lemma run_record_metrics c s k :
  key_of s c = Some k →
  (ls_metrics s !! k = None → size (ls_metrics s) < 1000)%nat →
  ls_metrics (run_record c s) =
    <[k := update_metrics (rc_now c) (rc_outcome c) (default new_metrics (ls_metrics s !! k))]> (ls_metrics s) ∧
  ∃ e, ls_heap (run_record c s) !! rc_ptr c = Some e ∧
    me_health_status e = pm_health (update_metrics (rc_now c) (rc_outcome c) (default new_metrics (ls_metrics s !! k))).
Proof.
  unfold key_of, run_record, Record_. destruct (ls_heap s !! rc_ptr c) as [e|] eqn:He; [|done].
  cbn [fmap option_fmap option_map ls_metrics ls_heap]. intros [= <-] Hsz. rewrite lookup_insert_eq. split; [|eauto].
  destruct (ls_metrics s !! metric_key e) as [m|] eqn:Em; [done|].
  by rewrite (proj2 (Nat.leb_gt _ _)) by (unfold metricsMaxEntries; apply Hsz; done).
Qed.

Lemma history_cons s k c cs :
  history s k (c :: cs) = if decide (key_of s c = Some k) then rc_outcome c :: history s k cs else history s k cs.
Proof. unfold history. cbn [filterb]. case_bool_decide; case_decide; done. Qed.

Lemma records_follow_history s cs :
  ls_metrics s = ∅ → (size (keys_seen s cs) ≤ 1000)%nat →
  dom (ls_metrics (run_records cs s)) = keys_seen s cs ∧
  ∀ k, match ls_metrics (run_records cs s) !! k with
       | Some m => row_ok (history s k cs) m
       | None => history s k cs = []
       end.
Proof.
  intros Hempty. induction cs as [|c cs IH]; intros Hsz.
  { cbn. rewrite Hempty. split; [by rewrite dom_empty_L|]. intros k. by rewrite lookup_empty. }
  assert (keys_seen s cs ⊆ keys_seen s (c :: cs)) as Hsub.
  { unfold keys_seen. cbn. destruct (key_of s c); cbn; set_solver. }
  destruct IH as [Hdom Hrows]; [by etrans; [apply subseteq_size|]|].
  destruct (key_of s c) as [k|] eqn:Hk.
  - assert (keys_seen s (c :: cs) = {[k]} ∪ keys_seen s cs) as Hks by (unfold keys_seen; cbn; by rewrite Hk).
    assert (key_of (run_records cs s) c = Some k) as Hk' by by rewrite run_records_keys.
    destruct (run_record_metrics c (run_records cs s) k Hk') as [Hm _].
    { intros Hnone. apply not_elem_of_dom in Hnone. rewrite Hdom in Hnone.
      rewrite Hks, size_union, size_singleton in Hsz by set_solver.
      rewrite <- size_dom, Hdom. lia. }
    change (run_records (c :: cs) s) with (run_record c (run_records cs s)). rewrite Hm, dom_insert_L, Hdom.
    split; [done|]. intros k'. rewrite history_cons. destruct (decide (k' = k)) as [->|Hne].
    + rewrite lookup_insert_eq, decide_True by done. apply update_metrics_ok. specialize (Hrows k).
      destruct (ls_metrics (run_records cs s) !! k) as [m|]; cbn; [done|]. rewrite Hrows. apply row_ok_new.
    + rewrite lookup_insert_ne, decide_False by congruence. apply Hrows.
  - assert (key_of (run_records cs s) c = None) as Hk' by by rewrite run_records_keys.
    assert (run_records (c :: cs) s = run_records cs s) as ->.
    { cbn. unfold run_record, Record_. unfold key_of in Hk'. by destruct (ls_heap _ !! rc_ptr c). }
    split; [rewrite Hdom; unfold keys_seen; cbn; by rewrite Hk|].
    intros k. rewrite history_cons, decide_False by congruence. apply Hrows.
Qed.

(** A provider's health is a function of its calls: however the calls of up to
    a thousand model-provider pairs are interleaved, each pair's row holds the
    counts of its own outcomes, the mean of its last hundred measured latencies and
    the health the reference gives its history (recovery after three successes in a
    row, else the failure rate at the last failure, which never heals); and the
    entry a call went through shows that health. *)
Theorem selector_tracks_history s c cs k :
  ls_metrics s = ∅ → (size (keys_seen s (c :: cs)) ≤ 1000)%nat → key_of s c = Some k →
  (∀ k', match ls_metrics (run_records (c :: cs) s) !! k' with
         | Some m => row_ok (history s k' (c :: cs)) m
         | None => history s k' (c :: cs) = []
         end) ∧
  (∃ e, ls_heap (run_records (c :: cs) s) !! rc_ptr c = Some e ∧
        me_health_status e = health_of (rc_outcome c :: history s k cs)) ∧
  (oc_success (rc_outcome c) = false → health_of (history s k cs) ≠ HealthStatusHealthy →
   health_of (rc_outcome c :: history s k cs) ≠ HealthStatusHealthy).
Proof.
  intros Hempty Hsz Hk. destruct (records_follow_history s (c :: cs) Hempty Hsz) as [_ Hrows].
  split; [done|]. split; [|intros; by apply failure_never_heals].
  assert (key_of (run_records cs s) c = Some k) as Hk' by by rewrite run_records_keys.
  assert (keys_seen s (c :: cs) = {[k]} ∪ keys_seen s cs) as Hks by (unfold keys_seen; cbn; by rewrite Hk).
  destruct (records_follow_history s cs Hempty) as [Hdom Hrows'].
  { etrans; [|exact Hsz]. apply subseteq_size. set_solver. }
  destruct (run_record_metrics c (run_records cs s) k Hk') as [_ (e & He & Hh)].
  { intros Hnone. apply not_elem_of_dom in Hnone. rewrite Hdom in Hnone.
    rewrite Hks, size_union, size_singleton in Hsz by set_solver. rewrite <- size_dom, Hdom. lia. }
  exists e. split; [done|]. rewrite Hh. specialize (Hrows' k).
  apply (update_metrics_ok (rc_now c)). destruct (ls_metrics (run_records cs s) !! k) as [m|]; cbn; [done|].
  rewrite Hrows'. apply row_ok_new.
Qed.
End Health.

(** ** [billing.go] *)

Definition commissionFlatPerRequestUSD : Q := (1 # 1000)%Q.

Definition tier_rate (tier : string) : Q :=
  (if String.eqb tier "free" then 30 # 100
   else if String.eqb tier "basic" then 20 # 100
   else if String.eqb tier "pro" then 10 # 100
   else if String.eqb tier "enterprise" then 5 # 100
   else 20 # 100)%Q.

Definition CalculateCommission (providerCost : Q) (mode tier : string) : Q :=
  (if String.eqb mode "percentage" then providerCost * (20 # 100)
   else if String.eqb mode "flat" then commissionFlatPerRequestUSD
   else if String.eqb mode "tiered" then providerCost * tier_rate tier
   else providerCost * (20 # 100))%Q.

Record UsageLog := {
  ul_id : uuid;
  ul_business_id : uuid;
  ul_user_id : uuid;
  ul_conversation_id : string;
  ul_request_id : string;
  ul_model : string;
  ul_provider : string;
  ul_input_tokens : Z;
  ul_output_tokens : Z;
  ul_cache_read_tokens : Z;
  ul_cache_creation_tokens : Z;
  ul_provider_cost : Q;
  ul_commission : Q;
  ul_user_cost : Q;
  ul_user_tier : string;
  ul_created_at : Z;
}.

(** ** [router.go] *)

Definition tierFromRequest (req : ChatRequest) : string :=
  if String.eqb (cr_tier req) "" then "free" else cr_tier req.

Definition billable_input (u : TokenUsage) : Q :=
  (inject_Z (tu_input u) + inject_Z (tu_cache_read u) * (1 # 10)
   + inject_Z (tu_cache_creation u) * (125 # 100))%Q.

Definition provider_cost (e : ModelProviderEntry) (u : TokenUsage) : Q :=
  (billable_input u * me_input_cost e / 1000000 + inject_Z (tu_output u) * me_output_cost e / 1000000)%Q.

(** [logBilling]'s row, for an id and an instant. *)
Definition logBilling (mode : string) (id : uuid) (now : Z) (req : ChatRequest) (e : ModelProviderEntry)
    (u : TokenUsage) : UsageLog :=
  let cost := provider_cost e u in
  let tier := tierFromRequest req in
  let commission := CalculateCommission cost mode tier in
  {| ul_id := id; ul_business_id := cr_business_id req; ul_user_id := cr_user_id req;
     ul_conversation_id := cr_conversation_id req; ul_request_id := cr_request_id req;
     ul_model := cr_model req; ul_provider := me_provider e;
     ul_input_tokens := tu_input u; ul_output_tokens := tu_output u;
     ul_cache_read_tokens := tu_cache_read u; ul_cache_creation_tokens := tu_cache_creation u;
     ul_provider_cost := cost; ul_commission := commission; ul_user_cost := (cost + commission)%Q;
     ul_user_tier := tier; ul_created_at := now |}.

(** The gate the router consults: [RateLimitChecker], and [TokenRecorder] where
    the checker implements it. *)
Record RateLimitChecker (W : Type) := {
  rl_check : uuid → uuid → string → TokenCharge → SE W LLMError bool;
  rl_record : option (uuid → uuid → string → Z → W → W);
}.
Arguments rl_check {W}. Arguments rl_record {W}.

(** What a request leaves running behind it. *)
Inductive Task :=
| TLogBilling (req : ChatRequest) (entry : nat) (resp : ChatResponse)
| TRecordTokens (req : ChatRequest) (delta : Z).

Section Router.
Context `{J : JsonText} `{MR : MapRange} {P W : Type}.
(** The world holds the shared selector state and whatever else requests touch. *)
Context (get_llm : W → LlmState) (set_llm : LlmState → W → W) (clock : W → Z).
Variables (providers : gmap string P) (limiter : option (RateLimitChecker W)) (billing : bool) (mode : string).
Variable provider_chat : P → ChatRequest → SE W ProviderError (option ChatResponse).
Variables (post_usage : UsageLog → W → W) (new_uuid : W → uuid).

Definition checkRateLimit (req : ChatRequest) : SE W LLMError unit := λ w,
  match limiter with
  | None => (Ok tt, w)
  | Some rl =>
      if N.eqb (cr_user_id req) uuid_nil && N.eqb (cr_business_id req) uuid_nil then (Ok tt, w)
      else match rl_check rl (cr_user_id req) (cr_business_id req) (tierFromRequest req)
                   (estimateRequestCharge req) w with
           | (Err err, w) => (Err err, w)
           | (Ok true, w) => (Ok tt, w)
           | (Ok false, w) => (Err ErrRateLimitExceeded, w)
           end
  end.

Definition actual_tokens (u : TokenUsage) : Z := tu_input u + tu_output u + tu_cache_read u + tu_cache_creation u.

Definition reconcileTokens (req : ChatRequest) (resp : ChatResponse) : list Task :=
  match limiter with
  | Some {| rl_record := Some _ |} =>
      let delta := actual_tokens (rs_usage resp) - estimateRequestTokens req in
      if N.eqb (cr_user_id req) uuid_nil || (delta <=? 0) then [] else [TRecordTokens req delta]
  | _ => []
  end.

Definition with_provider (provider : string) (resp : ChatResponse) : ChatResponse := {|
  rs_content := rs_content resp; rs_tool_calls := rs_tool_calls resp; rs_usage := rs_usage resp;
  rs_finish_reason := rs_finish_reason resp; rs_latency := rs_latency resp; rs_provider := provider |}.

(** One provider call and its [Record]. *)
Definition attempt_call (req : ChatRequest) (c : Candidate P) : SE W LLMError ChatResponse := λ w,
  let '(r, w) := provider_chat (cd_provider c) req w in
  let r := match r with
    | Ok (Some resp) => Ok resp
    | Ok None => Err ErrNilProviderResponse
    | Err e => Err (ErrProvider e)
    end in
  let oc := match r with
    | Ok resp => {| oc_success := true; oc_latency := rs_latency resp |}
    | Err _ => {| oc_success := false; oc_latency := 0 |}
    end in
  (r, set_llm (Record_ (cd_ptr c) oc (clock w) (clock w) (get_llm w)) w).

(** The success branch: the response stamped, and the goroutines it starts. *)
Definition settle (req : ChatRequest) (c : Candidate P) (resp : ChatResponse) : ChatResponse * list Task :=
  (with_provider (me_provider (cd_entry c)) resp,
   (if billing && negb (N.eqb (cr_business_id req) uuid_nil)
    then [TLogBilling req (cd_ptr c) (with_provider (me_provider (cd_entry c)) resp)] else [])
   ++ reconcileTokens req resp).

Definition maxChatAttempts : nat := 2.

(** The candidate walk: [n] candidates in all, this one at index [attempt]. *)
Fixpoint chat_loop (req : ChatRequest) (n attempt : nat) (cs : list (Candidate P)) (lastErr : option LLMError)
    (w : W) : (option ChatResponse * option LLMError) * list Task * W :=
  match cs with
  | [] => (None, lastErr, [], w)
  | c :: cs' =>
      if Nat.leb maxChatAttempts attempt then (None, lastErr, [], w)
      else
        let '(r, w) := attempt_call req c w in
        match r with
        | Ok resp => let '(resp, tasks) := settle req c resp in (Some resp, None, tasks, w)
        | Err e =>
            if negb (isTransientLLMError e) then (None, Some e, [], w)
            else if Nat.eqb attempt 0 && Nat.leb 2 n then chat_loop req n (S attempt) cs' (Some e) w
            else (None, Some e, [], w)
        end
  end.

Definition Chat (req : ChatRequest) (w : W) : (option ChatResponse * option LLMError) * list Task * W :=
  match checkRateLimit req w with
  | (Err err, w) => (None, Some err, [], w)
  | (Ok _, w) =>
      match buildCandidates providers (cr_model req) (cr_strategy req) (get_llm w) with
      | [] => (None, Some ErrNoProvider, [], w)
      | cs => chat_loop req (length cs) 0 cs None w
      end
  end.

(** Running what was left behind: billing reads the entry's prices then. *)
Definition run_task (t : Task) (w : W) : W :=
  match t with
  | TLogBilling req p resp =>
      match ls_heap (get_llm w) !! p with
      | Some e => post_usage (logBilling mode (new_uuid w) (clock w) req e (rs_usage resp)) w
      | None => w
      end
  | TRecordTokens req delta =>
      match limiter with
      | Some {| rl_record := Some rec |} =>
          rec (cr_user_id req) (cr_business_id req) (tierFromRequest req) delta w
      | _ => w
      end
  end.

(** [Invoke] around a call that answers a value and a latency, and [ChatStream]
    up to the channel it returns (whose chunks it forwards). *)
Definition Invoke {T : Type} (model : string) (strategy : Strategy)
    (fn : P → SE W ProviderError (T * Z)) : SE W LLMError (nat * T) := λ w,
  match Pick providers model strategy (get_llm w) with
  | None => (Err ErrNoProvider, w)
  | Some c =>
      let '(r, w) := fn (cd_provider c) w in
      let oc := match r with
        | Ok (_, latency) => {| oc_success := true; oc_latency := latency |}
        | Err _ => {| oc_success := false; oc_latency := 0 |}
        end in
      (match r with Ok (t, _) => Ok (cd_ptr c, t) | Err e => Err (ErrProvider e) end,
       set_llm (Record_ (cd_ptr c) oc (clock w) (clock w) (get_llm w)) w)
  end.

Definition ChatStream {T : Type} (stream : P → ChatRequest → SE W ProviderError T) (req : ChatRequest)
  : SE W LLMError (nat * T) := λ w,
  match checkRateLimit req w with
  | (Err err, w) => (Err err, w)
  | (Ok _, w) =>
      Invoke (cr_model req) (cr_strategy req) (λ p w,
        match stream p req w with (Ok t, w) => (Ok (t, 0), w) | (Err e, w) => (Err e, w) end) w
  end.

(** *** The router's contract: the head candidate, then at most one sibling *)

Definition succeed (req : ChatRequest) (c : Candidate P) (resp : ChatResponse) (w : W)
  : (option ChatResponse * option LLMError) * list Task * W :=
  let '(resp, tasks) := settle req c resp in (Some resp, None, tasks, w).

Definition one_shot_retry (req : ChatRequest) (w : W) : (option ChatResponse * option LLMError) * list Task * W :=
  match checkRateLimit req w with
  | (Err err, w1) => (None, Some err, [], w1)
  | (Ok _, w1) =>
      match buildCandidates providers (cr_model req) (cr_strategy req) (get_llm w1) with
      | [] => (None, Some ErrNoProvider, [], w1)
      | c1 :: rest =>
          match attempt_call req c1 w1, rest with
          | (Ok resp, w2), _ => succeed req c1 resp w2
          | (Err e1, w2), c2 :: _ =>
              if isTransientLLMError e1
              then match attempt_call req c2 w2 with
                   | (Ok resp, w3) => succeed req c2 resp w3
                   | (Err e2, w3) => (None, Some e2, [], w3)
                   end
              else (None, Some e1, [], w2)
          | (Err e1, w2), [] => (None, Some e1, [], w2)
          end
      end
  end.

Lemma chat_is_one_shot req w : Chat req w = one_shot_retry req w.
Proof.
  unfold Chat, one_shot_retry, succeed. destruct (checkRateLimit req w) as [[[]|err] w1]; [|done].
  destruct (buildCandidates _ _ _ _) as [|c1 rest]; [done|]. cbn [chat_loop maxChatAttempts Nat.leb].
  destruct (attempt_call req c1 w1) as [[resp|e1] w2]; [done|].
  destruct (isTransientLLMError e1) eqn:Et; cbn [negb].
  - destruct rest as [|c2 rest]; [done|]. cbn [length Nat.eqb Nat.leb andb chat_loop maxChatAttempts].
    destruct (attempt_call req c2 w2) as [[resp|e2] w3]; [done|].
    by destruct (isTransientLLMError e2).
  - by destruct rest.
Qed.

(** What follows a success: one usage row for an attributed request, and the
    positive difference between the tokens used and those charged up front. *)
Definition tasks_ok (req : ChatRequest) (resp : ChatResponse) (tasks : list Task) : Prop :=
  (∀ t, t ∈ tasks → match t with
     | TLogBilling req' p resp' => req' = req ∧ resp' = resp ∧ billing = true ∧ cr_business_id req ≠ uuid_nil
     | TRecordTokens req' d => req' = req ∧ cr_user_id req ≠ uuid_nil ∧ 0 < d ∧
         d = actual_tokens (rs_usage resp) - estimateRequestTokens req
     end) ∧
  (length (filterb (λ t, match t with TLogBilling _ _ _ => true | _ => false end) tasks) =
   if billing && negb (N.eqb (cr_business_id req) uuid_nil) then 1 else 0)%nat ∧
  (length (filterb (λ t, match t with TRecordTokens _ _ => true | _ => false end) tasks) ≤ 1)%nat.

Lemma settle_tasks req c resp : tasks_ok req (settle req c resp).1 (settle req c resp).2.
Proof.
  unfold settle, tasks_ok, reconcileTokens. cbn [fst snd].
  destruct billing; destruct (N.eqb_spec (cr_business_id req) uuid_nil) as [Hb|Hb]; cbn [andb negb];
    destruct limiter as [[chk [rec|]]|]; cbn; destruct (N.eqb_spec (cr_user_id req) uuid_nil) as [Hu|Hu]; cbn;
    try destruct (Z.leb_spec (actual_tokens (rs_usage resp) - estimateRequestTokens req) 0); cbn;
    (split; [|lia]); intros t; rewrite ?elem_of_cons, elem_of_nil;
    intros Ht; repeat (destruct Ht as [->|Ht]); try done; by split_and!.
Qed.

(** C39: [Chat] answers a response or an error, never both or neither: a refused
    request calls no provider; else the head candidate is called and recorded, and
    only a transient failure of it makes one more call, to the next candidate,
    whose outcome is final.  A response names the provider that gave it, and is
    followed by one usage row when the request names a business and billing is
    wired, and by the tokens used beyond the estimate charged. *)
Theorem chat_one_shot_retry req w :
  Chat req w = one_shot_retry req w ∧
  match Chat req w with
  | (Some resp, None, tasks, _) => tasks_ok req resp tasks ∧
      ∃ w0 c, c ∈ buildCandidates providers (cr_model req) (cr_strategy req) (get_llm w0) ∧
              rs_provider resp = me_provider (cd_entry c)
  | (None, Some _, tasks, _) => tasks = []
  | _ => False
  end.
Proof.
  split; [apply chat_is_one_shot|]. rewrite chat_is_one_shot. unfold one_shot_retry.
  destruct (checkRateLimit req w) as [[[]|err] w1]; [|done].
  destruct (buildCandidates _ _ _ _) as [|c1 rest] eqn:Ecs; [done|].
  assert (∀ c resp w', c ∈ c1 :: rest → match succeed req c resp w' with
    | (Some resp, None, tasks, _) => tasks_ok req resp tasks ∧
        ∃ w0 c, c ∈ buildCandidates providers (cr_model req) (cr_strategy req) (get_llm w0) ∧
              rs_provider resp = me_provider (cd_entry c)
    | _ => False end) as Hs.
  { intros c resp w' Hc. unfold succeed. pose proof (settle_tasks req c resp) as Ht.
    destruct (settle req c resp) as [resp' tasks] eqn:Es. split; [done|].
    exists w1, c. rewrite Ecs. split; [done|]. unfold settle in Es. by injection Es as <- _. }
  destruct (attempt_call req c1 w1) as [[resp|e1] w2].
  - specialize (Hs c1 resp w2 ltac:(constructor)). by destruct (succeed req c1 resp w2) as [[[[?|] [?|]] ?] ?].
  - destruct rest as [|c2 rest]; [done|]. destruct (isTransientLLMError e1); [|done].
    destruct (attempt_call req c2 w2) as [[resp|e2] w3]; [|done].
    specialize (Hs c2 resp w3 ltac:(do 2 constructor)). by destruct (succeed req c2 resp w3) as [[[[?|] [?|]] ?] ?].
Qed.
End Router.

(** ** [endpoints.go] and [residency.go] *)

Record SelfHostedEndpoint := { sh_url : string; sh_model : string; sh_api_key : string }.

Definition endpoint_var (i : nat) (suffix : string) : string :=
  ("SELF_HOSTED_" +:+ print_Z (Z.of_nat i) +:+ "_" +:+ suffix)%string.

(** The scan from index [i], within [fuel] indices. *)
Fixpoint parse_endpoints (lookup : string → string) (fuel i : nat) : list SelfHostedEndpoint :=
  match fuel with
  | O => []
  | S fuel' =>
      if String.eqb (lookup (endpoint_var i "URL")) "" then []
      else
        let rest := parse_endpoints lookup fuel' (S i) in
        if String.eqb (lookup (endpoint_var i "MODEL")) "" then rest
        else {| sh_url := lookup (endpoint_var i "URL"); sh_model := lookup (endpoint_var i "MODEL");
                sh_api_key := lookup (endpoint_var i "API_KEY") |} :: rest
  end.

Definition ParseIndexedEndpoints (lookup : string → string) (fuel : nat) : list SelfHostedEndpoint :=
  parse_endpoints lookup fuel 0.

Inductive ResidencyError :=
| ErrHostedKeys (names : list string)
| ErrModelNotServed (model : string).

Fixpoint first_unserved (served models : list string) : option string :=
  match models with
  | [] => None
  | m :: ms => if String.eqb m "" then first_unserved served ms
               else if list_mem m served then first_unserved served ms else Some m
  end.

Definition EnforceResidency (production allowTransborder : bool) (hostedKeysSet models : list string)
    (endpoints : list SelfHostedEndpoint) : option ResidencyError :=
  if negb production || allowTransborder then None
  else match hostedKeysSet with
       | _ :: _ => Some (ErrHostedKeys hostedKeysSet)
       | [] => ErrModelNotServed <$> first_unserved (sh_model <$> endpoints) models
       end.

Definition HostedKeysSet (openRouter openAI anthropic : string) : list string :=
  (if String.eqb openRouter "" then [] else ["OPENROUTER_API_KEY"])
  ++ (if String.eqb openAI "" then [] else ["OPENAI_API_KEY"])
  ++ (if String.eqb anthropic "" then [] else ["ANTHROPIC_API_KEY"]).

Lemma first_unserved_none served models :
  first_unserved served models = None ↔ ∀ m, m ∈ models → m = ""%string ∨ m ∈ served.
Proof.
  induction models as [|m ms IH]; cbn; [split; [by intros _ m ?%elem_of_nil|done]|].
  setoid_rewrite elem_of_cons. destruct (String.eqb_spec m "") as [->|Hm]; [rewrite IH; naive_solver|].
  destruct (list_mem m served) eqn:El.
  - apply list_mem_true in El. rewrite IH. naive_solver.
  - apply list_mem_false in El. split; [done|]. intros Hall. destruct (Hall m); naive_solver.
Qed.

Lemma parse_endpoints_elem lookup fuel i ep :
  ep ∈ parse_endpoints lookup fuel i ↔
  ∃ n, (i ≤ n < i + fuel)%nat ∧ (∀ j, (i ≤ j ≤ n)%nat → lookup (endpoint_var j "URL") ≠ ""%string) ∧
       lookup (endpoint_var n "MODEL") ≠ ""%string ∧
       ep = {| sh_url := lookup (endpoint_var n "URL"); sh_model := lookup (endpoint_var n "MODEL");
               sh_api_key := lookup (endpoint_var n "API_KEY") |}.
Proof.
  revert i. induction fuel as [|fuel IH]; intros i; cbn [parse_endpoints].
  { split; [by intros ?%elem_of_nil|intros (n & ? & _); lia]. }
  destruct (String.eqb_spec (lookup (endpoint_var i "URL")) "") as [Hu|Hu].
  { split; [by intros ?%elem_of_nil|]. intros (n & Hn & Hall & _). exfalso. apply (Hall i); [lia|done]. }
  assert (ep ∈ parse_endpoints lookup fuel (S i) ↔
    ∃ n, (i < n < i + S fuel)%nat ∧ (∀ j, (i ≤ j ≤ n)%nat → lookup (endpoint_var j "URL") ≠ ""%string) ∧
       lookup (endpoint_var n "MODEL") ≠ ""%string ∧
       ep = {| sh_url := lookup (endpoint_var n "URL"); sh_model := lookup (endpoint_var n "MODEL");
               sh_api_key := lookup (endpoint_var n "API_KEY") |}) as Hrest.
  { rewrite IH. split; intros (n & Hn & Hall & Hr); exists n; (split; [lia|]); (split; [|done]); intros j Hj.
    - destruct (decide (j = i)) as [->|]; [done|apply Hall; lia].
    - apply Hall. lia. }
  destruct (String.eqb_spec (lookup (endpoint_var i "MODEL")) "") as [Hm|Hm].
  - rewrite Hrest. split; intros (n & Hn & Hall & Hmn & Hep); exists n; (split; [|done]); [lia|].
    assert (n ≠ i) by congruence. lia.
  - rewrite elem_of_cons, Hrest. split.
    + intros [->|(n & Hn & Hr)].
      * exists i. split; [lia|]. split; [|done]. intros j Hj. by replace j with i by lia.
      * exists n. split; [lia|done].
    + intros (n & Hn & Hr). destruct (decide (n = i)) as [->|]; [left; apply Hr|right; exists n; split; [lia|done]].
Qed.

(** In production without a filed transborder basis, the service starts exactly
    when no hosted key is set and every configured model is served by an endpoint
    of the unbroken run of [SELF_HOSTED_N_URL] variables; the scan ends at the first
    missing one, so any fuel beyond it gives the same answer. *)
Theorem residency_gate lookup stop fuel openRouter openAI anthropic models :
  lookup (endpoint_var stop "URL") = ""%string → (stop < fuel)%nat →
  EnforceResidency true false (HostedKeysSet openRouter openAI anthropic) models
    (ParseIndexedEndpoints lookup fuel) = None ↔
  openRouter = ""%string ∧ openAI = ""%string ∧ anthropic = ""%string ∧
  ∀ m, m ∈ models → m = ""%string ∨
    ∃ n, (∀ j, (j ≤ n)%nat → lookup (endpoint_var j "URL") ≠ ""%string) ∧ lookup (endpoint_var n "MODEL") = m.
Proof.
  intros Hstop Hfuel.
  assert (∀ m, m ≠ ""%string → m ∈ sh_model <$> ParseIndexedEndpoints lookup fuel ↔
    ∃ n, (∀ j, (j ≤ n)%nat → lookup (endpoint_var j "URL") ≠ ""%string) ∧ lookup (endpoint_var n "MODEL") = m) as Hm.
  { intros m Hne. unfold ParseIndexedEndpoints. rewrite list_elem_of_fmap.
    setoid_rewrite parse_endpoints_elem. split.
    - intros (ep & -> & n & _ & Hall & _ & ->). exists n. split; [|done]. intros j Hj. apply Hall. lia.
    - intros (n & Hall & Hmod). eexists. split; [|exists n; split_and!; [| |intros j Hj; apply Hall; lia| |reflexivity]];
        [done|lia| |congruence]. destruct (decide (n < fuel)%nat); [lia|]. exfalso. apply (Hall stop); [lia|done]. }
  unfold EnforceResidency, HostedKeysSet. cbn [negb orb].
  destruct (String.eqb_spec openRouter ""), (String.eqb_spec openAI ""), (String.eqb_spec anthropic "");
    cbn [app]; try (split; [done|tauto]).
  rewrite fmap_None, first_unserved_none. split.
  - intros Hall. split_and!; try done. intros k Hk. destruct (decide (k = ""%string)) as [?|Hne]; [by left|right].
    destruct (Hall k Hk) as [?|Hin]; [done|]. by apply Hm.
  - intros (_ & _ & _ & Hall) k Hk. destruct (decide (k = ""%string)) as [?|Hne]; [by left|right].
    apply Hm; [done|]. by destruct (Hall k Hk).
Qed.

(** ** On a concrete registry *)

Section router_demo.
#[local] Existing Instance sorted_range.

Definition demo_entry (provider : string) (cost : Z) : ModelProviderEntry := {|
  me_model := "m"; me_provider := provider; me_input_cost := cents cost; me_output_cost := cents cost;
  me_avg_latency_ms := 0; me_health_status := HealthStatusHealthy; me_enabled := true; me_priority := 0;
  me_last_checked := 0 |}.

Definition demo_llm_state : LlmState :=
  RegisterModelProvider 1 (demo_entry "b" 100) (RegisterModelProvider 0 (demo_entry "a" 300) NewModelRegistry).

Definition demo_providers : gmap string nat := {["a" := 1%nat; "b" := 2%nat]}.

Definition fail_at (p : nat) : RecordCall :=
  {| rc_ptr := p; rc_outcome := {| oc_success := false; oc_latency := 0 |}; rc_now := 7; rc_checked := 8 |}.

(** The cheapest provider leads until it fails. *)
Example demo_failover :
  cd_ptr <$> buildCandidates demo_providers "m" StrategyCost demo_llm_state = [1; 0]%nat ∧
  cd_ptr <$> buildCandidates demo_providers "m" StrategyCost (run_record (fail_at 1) demo_llm_state) = [0; 1]%nat.
Proof. vm_compute. done. Qed.

(** Registering a pair again replaces the pointer: what a holder of the old one
    records no longer reaches the entry the registry lists. *)
Example reregistration_orphans_holders :
  let s := run_record (fail_at 0) (RegisterModelProvider 2 (demo_entry "a" 200) demo_llm_state) in
  GetModelProviders "m" s = [2; 1]%nat ∧
  me_health_status <$> ls_heap s !! 0%nat = Some HealthStatusDown ∧
  me_health_status <$> ls_heap s !! 2%nat = Some HealthStatusHealthy.
Proof. vm_compute. done. Qed.

Lemma candidates_spec_witness :
  registry_ok demo_llm_state ∧ NoDup (cd_ptr <$> buildCandidates demo_providers "m" StrategyCost demo_llm_state).
Proof.
  assert (registry_ok demo_llm_state) as Hok
    by (apply registry_ok_register; [reflexivity|]; apply registry_ok_register; [reflexivity|exact registry_ok_new]).
  split; [exact Hok|].
  destruct (candidates_spec demo_providers "m" StrategyCost demo_llm_state Hok) as (_ & Hn & _). exact Hn.
Defined.

Lemma selector_tracks_history_witness :
  ∃ e, ls_heap (run_records [fail_at 0; fail_at 1] demo_llm_state) !! 0%nat = Some e ∧
    me_health_status e = HealthStatusDown.
Proof.
  destruct (selector_tracks_history demo_llm_state (fail_at 0) [fail_at 1] "a:m" eq_refl
    ltac:(apply Nat.leb_le; vm_compute; reflexivity) eq_refl) as (_ & He & _).
  exact He.
Defined.

Definition demo_env_vars (k : string) : string :=
  if String.eqb k "SELF_HOSTED_0_URL" then "http://gpu" else if String.eqb k "SELF_HOSTED_0_MODEL" then "qwen" else "".

Lemma residency_gate_witness :
  EnforceResidency true false (HostedKeysSet "" "" "") ["qwen"; ""] (ParseIndexedEndpoints demo_env_vars 2) = None.
Proof.
  apply (residency_gate demo_env_vars 1 2 "" "" "" ["qwen"; ""] eq_refl ltac:(lia)).
  split; [reflexivity|]. split; [reflexivity|]. split; [reflexivity|].
  intros m [->|[->|Hm%elem_of_nil]%elem_of_cons]%elem_of_cons; [right|by left|destruct Hm].
  exists 0%nat. split; [|reflexivity]. intros [|j] Hj; [vm_compute; discriminate|lia].
Defined.
End router_demo.
