(* ===== verification/RateLimit.v ===== *)
(** * Rate limits and budgets

    [src/pkg/llm/ratelimit.go] and [dailyspend_cache.go]: the per-user counters in
    Redis behind one all-or-nothing Lua script, the month counter's reconcile, the
    per-business daily-spend gate with its cache, and the policy when Redis is
    down; [src/pkg/ratelimit]: the self-healing counter and its policy.  Lua
    numbers are exact integers here, as they are below 2^53.  The spend read, the
    local token bucket and the clock are parameters. *)

From Stdlib Require Import QArith.
From S2P Require Import Prelude Json GoTime Types Mongo Redis ModelLimits LlmRouter.
Close Scope Q_scope.
Local Open Scope Z_scope.
Local Open Scope go_scope.

(** ** Counters *)

(** [incrWithHealScript] of [pkg/ratelimit] (and of [pkg/lockout]). *)
Definition incrWithHealScript (now : Z) (key : string) (ttl_ms : Z) : cmd Z :=
  do! count := cmd_incrby now key 1 in
  do! left := cmd_pttl now key in
  if left <? 0 then do! stamped := cmd_pexpire now key ttl_ms in se_ret count else se_ret count.

(** [incrWithExpiryScript]: the count, and whether a missing expiry was repaired. *)
Definition incrWithExpiryScript (now : Z) (key : string) (n ttl_ms : Z) : cmd (Z * bool) :=
  do! count := cmd_incrby now key n in
  do! left := cmd_pttl now key in
  if left <? 0
  then do! stamped := cmd_pexpire now key ttl_ms in se_ret (count, n <? count)
  else se_ret (count, false).

(** A gate of [reserveCharge]: its counter, what it adds, what it only compares,
    the cap and the window. *)
Record Gate := {
  bk_key : string;
  bk_gate : string;
  bk_increment : Z;
  bk_reserved : Z;
  bk_limit : Z;
  bk_ttl_ms : Z;
}.

(** One round of the script's first loop: whether the gate admits, and whether a
    missing expiry was repaired. *)
Definition check_bucket (now : Z) (b : Gate) : cmd (bool * bool) :=
  do! raw := cmd_get now (bk_key b) in
  do! left := cmd_pttl now (bk_key b) in
  let healed := left =? -1 in
  do! stamped := (if healed then cmd_pexpire now (bk_key b) (bk_ttl_ms b) else se_ret false) in
  match (match raw with None => Some 0 | Some s => parse_int s end) with
  | None => se_err NotAnInteger
  | Some count => se_ret (count + bk_increment b + bk_reserved b <=? bk_limit b, healed)
  end.

Definition charge_bucket (now : Z) (b : Gate) : cmd unit :=
  do! count := cmd_incrby now (bk_key b) (bk_increment b) in
  do! left := cmd_pttl now (bk_key b) in
  if left <? 0 then do! stamped := cmd_pexpire now (bk_key b) (bk_ttl_ms b) in se_ret tt else se_ret tt.

Fixpoint check_buckets (now : Z) (bs : list Gate) : cmd (bool * list bool) :=
  match bs with
  | [] => se_ret (true, [])
  | b :: bs' =>
      do! here := check_bucket now b in
      do! rest := check_buckets now bs' in
      se_ret (here.1 && rest.1, here.2 :: rest.2)
  end.

Fixpoint charge_buckets (now : Z) (bs : list Gate) : cmd unit :=
  match bs with
  | [] => se_ret tt
  | b :: bs' => do! done := charge_bucket now b in charge_buckets now bs'
  end.

(** [reserveChargeScript]: compare every gate, then charge all of them or none. *)
Definition reserveChargeScript (now : Z) (bs : list Gate) : cmd (bool * list bool) :=
  do! checked := check_buckets now bs in
  if checked.1 then do! charged := charge_buckets now bs in se_ret checked else se_ret checked.

(** ** The limiter *)

Record Limits := {
  lm_requests_per_min : Z;
  lm_tokens_per_min : Z;
  lm_tokens_per_month : Z;
  lm_daily_spend : Q;
}.

Definition IsUnlimited (l : Limits) : bool :=
  (lm_requests_per_min l =? -1) && (lm_tokens_per_min l =? -1) && (lm_tokens_per_month l =? -1)
  && Qeq_bool (lm_daily_spend l) (-1 # 1).

Definition limits_of (r t m : Z) (d : Q) : Limits :=
  {| lm_requests_per_min := r; lm_tokens_per_min := t; lm_tokens_per_month := m; lm_daily_spend := d |}.

Definition DefaultTierLimits : gmap string Limits := list_to_map
  [("free", limits_of 10 30000 100000 1); ("basic", limits_of 60 50000 1000000 10);
   ("pro", limits_of 120 100000 (-1) 50); ("enterprise", limits_of (-1) (-1) (-1) (-1 # 1))].

Definition dailySpendEpsilon : Q := (1 # 1000000000)%Q.

Inductive RedisDownPolicy := RedisDownPolicyBlock | RedisDownPolicyLocalFallback.

(** *** Calendar months *)

(** Year, month and day of a day number (days since 1970-01-01), by the inverse of
    [days_from_civil]. *)
Definition civil_date (day : Z) : Z * Z * Z :=
  let z := day + 719468 in
  let era := z / 146097 in
  let doe := z - era * 146097 in
  let yoe := (doe - doe / 1460 + doe / 36524 - doe / 146096) / 365 in
  let doy := doe - (365 * yoe + yoe / 4 - yoe / 100) in
  let mp := (5 * doy + 2) / 153 in
  let m := if mp <? 10 then mp + 3 else mp - 9 in
  ((if m <=? 2 then yoe + era * 400 + 1 else yoe + era * 400), m, doy - (153 * mp + 2) / 5 + 1).

Definition Day : Z := 24 * Hour.

(** [time.Date(y, m+1, 1, 0, 0, 0, 0, time.UTC)]. *)
Definition endOfMonth (now : Z) : Z :=
  let '(y, m, _) := civil_date (now / Day) in
  Day * (if m =? 12 then days_from_civil (y + 1) 1 1 else days_from_civil y (m + 1) 1).

Definition pad (width : nat) (n : Z) : string :=
  let s := print_Z n in
  (fold_right (λ _ acc, "0" +:+ acc) s (seq 0 (width - String.length s)))%string.

(** [now.Format("2006-01")]. *)
Definition month_text (now : Z) : string :=
  let '(y, m, _) := civil_date (now / Day) in (pad 4 y +:+ "-" +:+ pad 2 m)%string.

(** [day.Format("2006-01-02")]. *)
Definition day_text (now : Z) : string :=
  let '(y, m, d) := civil_date (now / Day) in (pad 4 y +:+ "-" +:+ pad 2 m +:+ "-" +:+ pad 2 d)%string.

Example month_boundaries :
  month_text (1772323200 * Second) = "2026-03"%string ∧
  month_text (1772323200 * Second - 1) = "2026-02"%string ∧
  endOfMonth (1772323200 * Second - 1) = 1772323200 * Second ∧ day_text (1772323200 * Second - 1) = "2026-02-28"%string.
Proof. vm_compute. done. Qed.

Section Limiter.
Context `{J : JsonText} `{U : UUIDText} `{Rd : Redis} {W : Type}.
(** [rate.Limiter.Allow] of the local bucket where one is wired, and the spend read. *)
Variables (limits : gmap string Limits) (policy : RedisDownPolicy)
          (localBucket : option (W → bool * W))
          (dailySpender : option (uuid → Z → SE W unit Q)).

Record LimiterState := {
  rs_redis : rdb;
  rs_world : W;
  rs_down_since : option Z;
}.

(** Run a script, leaving the rest of the state alone. *)
Definition on_redis {R} (c : cmd R) : SE LimiterState RedisError R := λ s,
  let '(r, db) := redis_do c (rs_redis s) in
  (r, {| rs_redis := db; rs_world := rs_world s; rs_down_since := rs_down_since s |}).

Definition handleRedisError (now : Z) : SE LimiterState LLMError bool := λ s,
  let s := {| rs_redis := rs_redis s; rs_world := rs_world s; rs_down_since := Some now |} in
  match policy with
  | RedisDownPolicyBlock => (Err ErrRateLimitUnavailable, s)
  | RedisDownPolicyLocalFallback =>
      match localBucket with
      | None => (Err ErrRateLimitUnavailable, s)
      | Some allow =>
          let '(ok, w) := allow (rs_world s) in
          let s := {| rs_redis := rs_redis s; rs_world := w; rs_down_since := rs_down_since s |} in
          if ok then (Ok true, s) else (Err ErrRateLimitExceeded, s)
      end
  end.

Definition key_prefix (userID : uuid) : string := ("ratelimit:" +:+ uuid_string userID)%string.

Definition month_key (userID : uuid) (now : Z) : string :=
  (key_prefix userID +:+ ":tokens:month:" +:+ month_text now)%string.

Definition buckets_of (now : Z) (userID : uuid) (l : Limits) (charge : TokenCharge) : list Gate := [
  {| bk_key := (key_prefix userID +:+ ":requests:min")%string; bk_gate := "requests_min"; bk_increment := 1;
     bk_reserved := 0; bk_limit := lm_requests_per_min l; bk_ttl_ms := Minute / Millisecond |};
  {| bk_key := (key_prefix userID +:+ ":tokens:min")%string; bk_gate := "tokens_min";
     bk_increment := tk_variable charge; bk_reserved := tk_stable charge; bk_limit := lm_tokens_per_min l;
     bk_ttl_ms := Minute / Millisecond |};
  {| bk_key := month_key userID now; bk_gate := "tokens_month"; bk_increment := charge_total charge;
     bk_reserved := 0; bk_limit := lm_tokens_per_month l; bk_ttl_ms := (endOfMonth now - now) / Millisecond |}].

(** The gates with a cap. *)
Definition gates (now : Z) (userID : uuid) (l : Limits) (charge : TokenCharge) : list Gate :=
  filterb (λ b, 0 <? bk_limit b) (buckets_of now userID l charge).

Definition reserveCharge (now : Z) (userID : uuid) (l : Limits) (charge : TokenCharge)
  : SE LimiterState LLMError bool := λ s,
  match gates now userID l charge with
  | [] => (Ok true, s)
  | bs =>
      match on_redis (reserveChargeScript now bs) s with
      | (Ok (admitted, _), s) => (Ok admitted, s)
      | (Err _, s) => handleRedisError now s
      end
  end.

Definition exceedsAlone (total : Z) (caps : list Z) : bool := existsb (λ c, (0 <? c) && (c <? total)) caps.

(** [CheckLimit]; [now] is read for the day, for the windows and on failure. *)
Definition CheckLimit (now : Z) (userID businessID : uuid) (tier : string) (charge : TokenCharge)
  : SE LimiterState LLMError bool := λ s,
  match limits !! tier with
  | None => if N.eqb userID uuid_nil then (Ok true, s) else (Err (ErrUnknownTier tier), s)
  | Some l =>
      if IsUnlimited l then (Ok true, s)
      else
        let rest s :=
          if negb (N.eqb userID uuid_nil)
             && exceedsAlone (charge_total charge) [lm_tokens_per_min l; lm_tokens_per_month l]
          then (Ok false, s)
          else if N.eqb userID uuid_nil then (Ok true, s)
          else reserveCharge now userID l charge s in
        match dailySpender with
        | Some spender =>
            if negb (Qle_bool (lm_daily_spend l) 0) && negb (N.eqb businessID uuid_nil) then
              let '(r, w) := spender businessID now (rs_world s) in
              let s := {| rs_redis := rs_redis s; rs_world := w; rs_down_since := rs_down_since s |} in
              match r with
              | Err _ => (Err ErrRateLimitUnavailable, s)
              | Ok spend =>
                  if Qle_bool (lm_daily_spend l) (spend + dailySpendEpsilon) then (Err ErrDailySpendExceeded, s)
                  else rest s
              end
            else rest s
        | None => rest s
        end
  end.

(** [RecordTokens], errors swallowed. *)
Definition RecordTokens (now : Z) (userID : uuid) (tier : string) (delta : Z) (s : LimiterState) : LimiterState :=
  if (delta <=? 0) || N.eqb userID uuid_nil then s
  else match limits !! tier with
       | None => s
       | Some l =>
           if IsUnlimited l || (lm_tokens_per_month l <=? 0) then s
           else (on_redis (incrWithExpiryScript now (month_key userID now) delta
                             ((endOfMonth now - now) / Millisecond)) s).2
       end.

(** What the router is given. *)
Definition rate_limit_checker (clock : LimiterState → Z) : RateLimitChecker LimiterState := {|
  rl_check := λ u b tier charge s, CheckLimit (clock s) u b tier charge s;
  rl_record := Some (λ u _ tier delta s, RecordTokens (clock s) u tier delta s) |}.
End Limiter.

(** ** [dailyspend_cache.go] *)

Record dailySpendEntry := { de_day : string; de_spend : Q; de_fetched_at : Z }.

Definition DefaultDailySpendCacheTTL : Z := 10 * Second.

Section DailySpendCache.
Context {W : Type}.
Variable inner : uuid → Z → SE W unit Q.

Definition cache_ttl (ttl : Z) : Z := if ttl <=? 0 then DefaultDailySpendCacheTTL else ttl.

Definition fresh_spend (ttl now : Z) (businessID : uuid) (day : Z) (cache : gmap uuid dailySpendEntry) : option Q :=
  match cache !! businessID with
  | Some e => if String.eqb (de_day e) (day_text day) && (now - de_fetched_at e <? cache_ttl ttl)
              then Some (de_spend e) else None
  | None => None
  end.

(** [fetched] is read after the wrapped call returned. *)
Definition GetDailySpend (ttl now fetched : Z) (businessID : uuid) (day : Z)
  : SE (gmap uuid dailySpendEntry * W) unit Q := λ '(cache, w),
  match fresh_spend ttl now businessID day cache with
  | Some spend => (Ok spend, (cache, w))
  | None =>
      match inner businessID day w with
      | (Err e, w) => (Err e, (cache, w))
      | (Ok spend, w) =>
          (Ok spend, (<[businessID := {| de_day := day_text day; de_spend := spend; de_fetched_at := fetched |}]> cache, w))
      end
  end.
End DailySpendCache.

(** ** The scripts, key by key *)

Definition fits (b : Gate) (n : Z) : bool := n + bk_increment b + bk_reserved b <=? bk_limit b.

Definition count_in (c : option cell) : option Z :=
  match c with None => Some 0 | Some c => parse_int (c_val c) end.

Definition count_at (now : Z) (b : Gate) (m : keyspace) : option Z := count_in (live_cell now (bk_key b) m).

Definition lacks_expiry (c : option cell) : bool :=
  match c with Some {| c_exp := None |} => true | _ => false end.

(** The cell with a missing expiry repaired, and the cell once charged.  An expiry
    of no milliseconds deletes the key. *)
Definition expire_in (now : Z) (b : Gate) (v : string) : option cell :=
  if bk_ttl_ms b <=? 0 then None
  else Some {| c_val := v; c_exp := Some (now + bk_ttl_ms b * Millisecond) |}.

Definition stamped (now : Z) (b : Gate) (c : option cell) : option cell :=
  match c with Some {| c_val := v; c_exp := None |} => expire_in now b v | _ => c end.

Definition charged (now : Z) (b : Gate) (c : option cell) : option cell :=
  match c with
  | None => expire_in now b (print_Z (bk_increment b))
  | Some {| c_val := v; c_exp := oe |} =>
      match parse_int v, oe with
      | Some n, Some e => Some {| c_val := print_Z (n + bk_increment b); c_exp := Some e |}
      | Some n, None => expire_in now b (print_Z (n + bk_increment b))
      | None, _ => c
      end
  end.

Definition chargeable (b : Gate) (c : option cell) : bool :=
  match c with
  | None => true
  | Some c => match parse_int (c_val c) with Some n => in_int64 (n + bk_increment b) | None => false end
  end.

Lemma live_cell_ext now k m m' : m !! k = m' !! k → live_cell now k m = live_cell now k m'.
Proof. intros He. unfold live_cell. by rewrite He. Qed.

Lemma pexpire_spec now b m c :
  live_cell now (bk_key b) m = Some c →
  ∃ m', cmd_pexpire now (bk_key b) (bk_ttl_ms b) m = (Ok true, m') ∧
    live_cell now (bk_key b) m' = expire_in now b (c_val c) ∧ ∀ k, k ≠ bk_key b → m' !! k = m !! k.
Proof.
  intros Hc. unfold cmd_pexpire, expire_in. rewrite Hc. eexists. split; [done|].
  destruct (Z.leb_spec (bk_ttl_ms b) 0).
  - split; [by rewrite live_delete_eq|]. intros k Hk. by rewrite lookup_delete_ne.
  - split; [|intros k Hk; by rewrite lookup_insert_ne].
    apply live_insert_eq. unfold cell_live, Millisecond. cbn. apply Z.leb_le. lia.
Qed.

Lemma pttl_live now k m c : live_cell now k m = Some c →
  cmd_pttl now k m = (Ok (match c_exp c with None => -1 | Some e => (e - now) / Millisecond end), m) ∧
  ∀ e, c_exp c = Some e → 0 ≤ (e - now) / Millisecond.
Proof.
  intros Hc. unfold cmd_pttl. rewrite Hc. split; [by destruct c as [v [e|]]|].
  intros e He. apply Z.div_pos; [|done]. unfold live_cell, cell_live in Hc.
  destruct (m !! k) as [d|]; [|done]. destruct (c_exp d) eqn:Ed; [|by simplify_eq].
  destruct (Z.leb_spec now z); [|done]. simplify_eq. lia.
Qed.

Lemma live_cell_is_live now k m c : live_cell now k m = Some c → cell_live now c = true.
Proof. unfold live_cell. destruct (m !! k); [|done]. destruct (cell_live now c0) eqn:E; congruence. Qed.

Lemma check_bucket_spec now b m :
  let c := live_cell now (bk_key b) m in
  ∃ m', check_bucket now b m =
    (match count_at now b m with Some n => Ok (fits b n, lacks_expiry c) | None => Err NotAnInteger end, m') ∧
    live_cell now (bk_key b) m' = stamped now b c ∧ ∀ k, k ≠ bk_key b → m' !! k = m !! k.
Proof.
  cbv zeta. unfold check_bucket, se_bind, count_at, count_in, stamped, cmd_get.
  destruct (live_cell now (bk_key b) m) as [[v [e|]]|] eqn:Hc; cbn [fmap option_fmap option_map c_val].
  - destruct (pttl_live _ _ _ _ Hc) as [-> Hpos]. cbn [c_exp]. specialize (Hpos e eq_refl).
    rewrite (proj2 (Z.eqb_neq _ _)) by lia. exists m. unfold se_ret, se_err.
    split; [by destruct (parse_int v)|]. by split.
  - destruct (pttl_live _ _ _ _ Hc) as [-> _]. cbn [c_exp]. rewrite Z.eqb_refl.
    destruct (pexpire_spec now b m _ Hc) as (m' & -> & Hl & Hfr). exists m'. unfold se_ret, se_err.
    split; [by destruct (parse_int v)|done].
  - unfold cmd_pttl. rewrite Hc. cbn. exists m. unfold se_ret. split; [done|]. split; [by rewrite Hc|done].
Qed.

Lemma charge_bucket_spec now b m :
  let c := live_cell now (bk_key b) m in
  ∃ m', charge_bucket now b m = (if chargeable b c then Ok tt else Err NotAnInteger, m') ∧
    live_cell now (bk_key b) m' = (if chargeable b c then charged now b c else c) ∧
    ∀ k, k ≠ bk_key b → m' !! k = m !! k.
Proof.
  cbv zeta. unfold charge_bucket, se_bind, cmd_incrby.
  destruct (live_cell now (bk_key b) m) as [[v oe]|] eqn:Hc; cbn [chargeable charged c_val c_exp].
  - destruct (parse_int v) as [n|]; [|by exists m]. destruct (in_int64 (n + bk_increment b)); [|by exists m].
    set (d := {| c_val := print_Z (n + bk_increment b); c_exp := oe |}).
    assert (live_cell now (bk_key b) (<[bk_key b := d]> m) = Some d) as Hd.
    { apply live_insert_eq. apply live_cell_is_live in Hc. unfold cell_live in *. by destruct oe. }
    destruct (pttl_live _ _ _ _ Hd) as [-> Hpos]. destruct oe as [e|]; cbn [c_exp d].
    + specialize (Hpos e eq_refl). rewrite (proj2 (Z.ltb_ge _ _)) by lia. eexists. split; [done|].
      rewrite Hd. split; [done|]. intros k Hk. by rewrite lookup_insert_ne.
    + cbn [Z.ltb Z.compare]. destruct (pexpire_spec now b _ _ Hd) as (m' & -> & Hl & Hfr). exists m'.
      split; [done|]. split; [done|]. intros k Hk. by rewrite Hfr, lookup_insert_ne.
  - set (d := {| c_val := print_Z (bk_increment b); c_exp := None |}).
    assert (live_cell now (bk_key b) (<[bk_key b := d]> m) = Some d) as Hd by by apply live_insert_eq.
    destruct (pttl_live _ _ _ _ Hd) as [-> _]. cbn [c_exp d Z.ltb Z.compare].
    destruct (pexpire_spec now b _ _ Hd) as (m' & -> & Hl & Hfr). exists m'.
    split; [done|]. split; [done|]. intros k Hk. by rewrite Hfr, lookup_insert_ne.
Qed.

(** The loops: keys outside are untouched; a key of a gate goes through its round
    or, after an error, not; without an error every round is taken. *)
Definition on_keys (now : Z) (bs : list Gate) (f : Gate → option cell → option cell) (all : bool)
    (m m' : keyspace) : Prop :=
  (∀ k, k ∉ bk_key <$> bs → m' !! k = m !! k) ∧
  ∀ b, b ∈ bs → live_cell now (bk_key b) m' = f b (live_cell now (bk_key b) m) ∨
                (all = false ∧ live_cell now (bk_key b) m' = live_cell now (bk_key b) m).

Lemma on_keys_nil now f all m : on_keys now [] f all m m.
Proof. split; [done|]. by intros b ?%elem_of_nil. Qed.

Lemma on_keys_stop now bs f m : on_keys now bs f false m m.
Proof. split; [done|]. by right. Qed.

Lemma on_keys_cons now b bs f all m m1 m2 :
  bk_key b ∉ bk_key <$> bs →
  live_cell now (bk_key b) m1 = f b (live_cell now (bk_key b) m) → (∀ k, k ≠ bk_key b → m1 !! k = m !! k) →
  on_keys now bs f all m1 m2 → on_keys now (b :: bs) f all m m2.
Proof.
  intros Hnin Hb Hfr [Hk Hbs]. split.
  - intros k. cbn. rewrite not_elem_of_cons. intros [Hne Hni]. rewrite Hk, Hfr; done.
  - intros b' [->|Hin]%elem_of_cons.
    + left. rewrite <- Hb. apply live_cell_ext. by apply Hk.
    + assert (live_cell now (bk_key b') m1 = live_cell now (bk_key b') m) as He.
      { apply live_cell_ext, Hfr. intros Heq. apply Hnin. rewrite <- Heq. by apply list_elem_of_fmap_2. }
      rewrite <- He. by apply Hbs.
Qed.

Lemma check_buckets_spec now bs m :
  NoDup (bk_key <$> bs) →
  let '(r, m') := check_buckets now bs m in
  on_keys now bs (stamped now) (is_ok r) m m' ∧
  (is_ok r = true → ∀ b, b ∈ bs → is_Some (count_at now b m)) ∧
  ((∀ b, b ∈ bs → is_Some (count_at now b m)) →
   r = Ok (forallb (λ b, fits b (default 0 (count_at now b m))) bs,
           (λ b, lacks_expiry (live_cell now (bk_key b) m)) <$> bs)).
Proof.
  revert m. induction bs as [|b bs IH]; intros m Hn.
  { cbn. split; [apply on_keys_nil|]. split; [by intros _ b ?%elem_of_nil|done]. }
  cbn in Hn. apply NoDup_cons in Hn as [Hnin Hn]. cbn [check_buckets]. unfold se_bind at 1.
  destruct (check_bucket_spec now b m) as (m1 & -> & Hb & Hfr).
  destruct (count_at now b m) as [n|] eqn:Ec.
  2: { split; [apply on_keys_cons with m1; [done|done|done|apply on_keys_stop]|]. split; [done|].
       intros Hall. destruct (Hall b) as [? ?]; [constructor|congruence]. }
  assert (∀ b', b' ∈ bs → live_cell now (bk_key b') m1 = live_cell now (bk_key b') m) as He.
  { intros b' Hin. apply live_cell_ext, Hfr. intros Heq. apply Hnin. rewrite <- Heq. by apply list_elem_of_fmap_2. }
  assert (∀ b', b' ∈ bs → count_at now b' m1 = count_at now b' m) as Hc
    by (intros b' Hin; unfold count_at; by rewrite He).
  specialize (IH m1 Hn).
  unfold se_bind. destruct (check_buckets now bs m1) as [r m2]. destruct IH as (Hon & Hsome & Hok).
  assert (∀ all, on_keys now bs (stamped now) all m1 m2 → on_keys now (b :: bs) (stamped now) all m m2) as Hcons.
  { intros all. by apply on_keys_cons. }
  destruct r as [[oks hs]|err]; cbn in Hon |- *; (split; [by apply Hcons|]); (split; [|]); try done.
  - intros _ b' [->|Hin]%elem_of_cons; [done|]. rewrite <- Hc by done. by apply Hsome.
  - intros Hall. assert (∀ b', b' ∈ bs → is_Some (count_at now b' m1)) as Hall'
      by (intros b' Hin; rewrite Hc by done; apply Hall; by constructor).
    specialize (Hok Hall'). injection Hok as -> ->. rewrite Ec. do 2 f_equal; f_equal.
    + clear -Hc. induction bs as [|b' bs IH]; [done|]. cbn. rewrite Hc by constructor. f_equal.
      apply IH. intros. apply Hc. by constructor.
    + apply list_fmap_ext. intros i b' Hin%list_elem_of_lookup_2. by rewrite He.
  - intros Hall. assert (∀ b', b' ∈ bs → is_Some (count_at now b' m1)) as Hall'
      by (intros b' Hin; rewrite Hc by done; apply Hall; by constructor).
    by specialize (Hok Hall').
Qed.

Lemma charge_buckets_spec now bs m :
  NoDup (bk_key <$> bs) →
  let '(r, m') := charge_buckets now bs m in
  on_keys now bs (λ b c, if chargeable b c then charged now b c else c) (is_ok r) m m' ∧
  ((∀ b, b ∈ bs → chargeable b (live_cell now (bk_key b) m) = true) ↔ r = Ok tt).
Proof.
  revert m. induction bs as [|b bs IH]; intros m Hn.
  { cbn. split; [apply on_keys_nil|]. split; [done|by intros _ b ?%elem_of_nil]. }
  cbn in Hn. apply NoDup_cons in Hn as [Hnin Hn]. cbn [charge_buckets]. unfold se_bind at 1.
  destruct (charge_bucket_spec now b m) as (m1 & -> & Hb & Hfr).
  assert (∀ b', b' ∈ bs → live_cell now (bk_key b') m1 = live_cell now (bk_key b') m) as He.
  { intros b' Hin. apply live_cell_ext, Hfr. intros Heq. apply Hnin. rewrite <- Heq. by apply list_elem_of_fmap_2. }
  destruct (chargeable b (live_cell now (bk_key b) m)) eqn:Ech.
  2: { split.
       - apply on_keys_cons with m1; [done|by rewrite Ech|done|apply on_keys_stop].
       - split; [|done]. intros Hall. rewrite Hall in Ech by constructor. done. }
  specialize (IH m1 Hn).
  destruct (charge_buckets now bs m1) as [r m2]. destruct IH as (Hon & Hok). split.
  - apply on_keys_cons with m1; [done|by rewrite Ech|done|done].
  - rewrite <- Hok. split.
    + intros Hall b' Hin. rewrite He by done. apply Hall. by constructor.
    + intros Hall b' [->|Hin]%elem_of_cons; [done|]. rewrite <- He by done. by apply Hall.
Qed.

(** The reservation script charges every gate or none: when the counters are
    numbers it admits exactly if each fits under its cap; an admission adds each
    gate's increment and starts the window of a new counter, a refusal changes no
    count; either way a live window keeps its expiry, a counter without one gets
    one, and no other key is touched. *)
Theorem reserve_all_or_nothing now bs m :
  NoDup (bk_key <$> bs) →
  (∀ b, b ∈ bs → ∃ n, count_at now b m = Some n ∧ in_int64 (n + bk_increment b) = true) →
  let admitted := forallb (λ b, fits b (default 0 (count_at now b m))) bs in
  ∃ healed m', reserveChargeScript now bs m = (Ok (admitted, healed), m') ∧
    healed = (λ b, lacks_expiry (live_cell now (bk_key b) m)) <$> bs ∧
    (∀ b, b ∈ bs → live_cell now (bk_key b) m' =
       if admitted then charged now b (stamped now b (live_cell now (bk_key b) m))
       else stamped now b (live_cell now (bk_key b) m)) ∧
    (∀ k, k ∉ bk_key <$> bs → m' !! k = m !! k).
Proof.
  intros Hn Hall admitted.
  pose proof (check_buckets_spec now bs m Hn) as Hchk. unfold reserveChargeScript, se_bind.
  destruct (check_buckets now bs m) as [r m1]. destruct Hchk as ((Hfr & Hst) & _ & Hr).
  rewrite Hr in Hst |- * by (intros b Hb; destruct (Hall b Hb) as (n & -> & _); eauto). cbn [fst]. fold admitted.
  assert (∀ b, b ∈ bs → live_cell now (bk_key b) m1 = stamped now b (live_cell now (bk_key b) m)) as Hst'.
  { intros b Hb. by destruct (Hst b Hb) as [?|[? _]]. }
  destruct admitted; [|by eexists _, m1].
  pose proof (charge_buckets_spec now bs m1 Hn) as Hchg.
  destruct (charge_buckets now bs m1) as [r2 m2]. destruct Hchg as ((Hfr2 & Hch) & Hok).
  assert (∀ b, b ∈ bs → chargeable b (live_cell now (bk_key b) m1) = true) as Hchb.
  { intros b Hb. rewrite Hst' by done. destruct (Hall b Hb) as (n & Hc & Hin). unfold count_at in Hc.
    destruct (live_cell now (bk_key b) m) as [[v [e|]]|]; cbn in Hc |- *; [by rewrite Hc| |done].
    unfold expire_in. destruct (bk_ttl_ms b <=? 0); cbn; [done|by rewrite Hc]. }
  apply Hok in Hchb as Hr2. rewrite Hr2 in Hch |- *. eexists _, m2. split_and!; [done|done| |].
  - intros b Hb. destruct (Hch b Hb) as [->|[? _]]; [|done]. rewrite Hchb by done. by rewrite Hst'.
  - intros k Hk. by rewrite Hfr2, Hfr.
Qed.

(** ** How much a window admits *)

Section Window.
Variables (k : string) (cap ttl_ms start : Z).
Hypothesis cap_range : 0 ≤ cap ∧ in_int64 cap = true.
Hypothesis ttl_positive : 0 < ttl_ms.
Notation horizon := (start + ttl_ms * Millisecond).

(** A gate that counts requests: one each, compared with the cap. *)
Definition counts_requests (b : Gate) : Prop :=
  bk_increment b = 1 ∧ bk_reserved b = 0 ∧ bk_limit b = cap ∧ bk_ttl_ms b = ttl_ms.

Definition in_cell (c : cell) : Z := default 0 (parse_int (c_val c)).

(** What the counter can still admit before [horizon]: the rest of its window,
    and one more window if it ends before. *)
Definition budget (c : option cell) : Z :=
  match c with
  | None => cap
  | Some c => Z.max 0 (cap - in_cell c) + match c_exp c with Some e => if e <? horizon then cap else 0 | None => 0 end
  end.

Lemma expire_in_budget now b v :
  counts_requests b → start ≤ now → budget (expire_in now b v) = Z.max 0 (cap - default 0 (parse_int v)).
Proof.
  intros (_ & _ & _ & Ht) Hs. unfold expire_in. rewrite Ht, (proj2 (Z.leb_gt _ _)) by lia.
  cbn. unfold in_cell. cbn. rewrite (proj2 (Z.ltb_ge _ _)) by (unfold Millisecond; lia). lia.
Qed.

Lemma stamped_budget now b c : counts_requests b → start ≤ now → budget (stamped now b c) = budget c.
Proof.
  intros Hb Hs. destruct c as [[v [e|]]|]; cbn [stamped]; [done| |done].
  rewrite (expire_in_budget _ _ _ Hb Hs). unfold budget, in_cell. cbn. lia.
Qed.

Lemma charged_budget now b c :
  counts_requests b → start ≤ now → chargeable b c = true →
  budget (charged now b c) ≤ budget c ∧
  ∀ n, count_in c = Some n → fits b n = true → budget (charged now b c) + 1 ≤ budget c.
Proof.
  intros Hb Hs Hc. pose proof Hb as (Hi & Hr & Hl & _). destruct c as [[v oe]|]; cbn [chargeable charged count_in c_val] in *.
  - destruct (parse_int v) as [n|] eqn:Ep; [|done]. rewrite Hi in *.
    assert (∀ oe', budget (Some {| c_val := print_Z (n + 1); c_exp := Some oe' |}) =
      Z.max 0 (cap - (n + 1)) + if oe' <? horizon then cap else 0) as Hbud.
    { intros oe'. unfold budget, in_cell. cbn. by rewrite parse_print_int. }
    destruct oe as [e|].
    + rewrite Hbud. unfold budget, in_cell. cbn. rewrite Ep. cbn. split; [lia|].
      intros n' [= <-]. unfold fits. rewrite Hi, Hr, Hl. intros ?%Z.leb_le. lia.
    + rewrite (expire_in_budget _ _ _ Hb Hs), parse_print_int by done. unfold budget, in_cell. cbn. rewrite Ep. cbn.
      split; [lia|]. intros n' [= <-]. unfold fits. rewrite Hi, Hr, Hl. intros ?%Z.leb_le. lia.
  - rewrite (expire_in_budget _ _ _ Hb Hs), Hi. rewrite parse_print_int by done. cbn. split; [lia|].
    intros n' [= <-]. unfold fits. rewrite Hi, Hr, Hl. intros ?%Z.leb_le. lia.
Qed.

(** Time alone admits nothing more. *)
Lemma budget_time t t' m : t ≤ t' → t' ≤ horizon → budget (live_cell t' k m) ≤ budget (live_cell t k m).
Proof.
  intros Ht Hh. destruct (live_cell t' k m) as [c|] eqn:E'; [by rewrite (live_cell_earlier _ _ _ _ _ Ht E')|].
  destruct (live_cell t k m) as [c|] eqn:E; [|done].
  unfold live_cell in *. destruct (m !! k) as [d|]; [|done]. destruct (cell_live t d); [|done]. injection E as ->.
  unfold cell_live, budget in *. destruct (c_exp c) as [e|]; [|done].
  destruct (Z.leb_spec t' e); [done|]. rewrite (proj2 (Z.ltb_lt e _)) by lia. lia.
Qed.

(** One run of the script, admitted or not, faults of other gates included. *)
Lemma reserve_budget now bs m :
  NoDup (bk_key <$> bs) → (∀ b, b ∈ bs → bk_key b = k → counts_requests b) → start ≤ now →
  let '(r, m') := reserveChargeScript now bs m in
  budget (live_cell now k m') + (if decide (k ∈ bk_key <$> bs) then match r with Ok (true, _) => 1 | _ => 0 end else 0)
  ≤ budget (live_cell now k m).
Proof.
  intros Hn Hgate Hs. pose proof (check_buckets_spec now bs m Hn) as Hchk. unfold reserveChargeScript, se_bind.
  destruct (check_buckets now bs m) as [r m1]. destruct Hchk as ((Hfr & Hst) & Hsome & Hr).
  destruct (decide (k ∈ bk_key <$> bs)) as [Hk|Hk].
  2: { assert (live_cell now k m1 = live_cell now k m) as H1 by (by apply live_cell_ext, Hfr).
       destruct r as [[[] hs]|err]; cbn [fst]; [|unfold se_ret; rewrite H1; lia..].
       pose proof (charge_buckets_spec now bs m1 Hn) as Hchg. destruct (charge_buckets now bs m1) as [r2 m2].
       destruct Hchg as ((Hfr2 & _) & _). assert (live_cell now k m2 = live_cell now k m1) as H2 by (by apply live_cell_ext, Hfr2).
       destruct r2; unfold se_ret; rewrite H2, H1; lia. }
  apply list_elem_of_fmap in Hk as (b & -> & Hb). pose proof (Hgate b Hb eq_refl) as Hcr.
  assert (budget (live_cell now (bk_key b) m1) = budget (live_cell now (bk_key b) m)) as Hb1.
  { destruct (Hst b Hb) as [->|[_ ->]]; [by apply stamped_budget|done]. }
  destruct r as [[oks hs]|err]; cbn [fst]; [|lia]. destruct oks; [|unfold se_ret; lia].
  pose proof (charge_buckets_spec now bs m1 Hn) as Hchg. destruct (charge_buckets now bs m1) as [r2 m2].
  destruct Hchg as ((Hfr2 & Hch) & Hok).
  specialize (Hsome eq_refl). specialize (Hr Hsome). injection Hr as Hfits _.
  assert (live_cell now (bk_key b) m1 = stamped now b (live_cell now (bk_key b) m)) as Hm1
    by (by destruct (Hst b Hb) as [?|[? _]]).
  destruct r2 as [[]|err]; unfold se_ret.
  - destruct (Hch b Hb) as [Hm2|[? _]]; [|done]. rewrite (proj2 Hok eq_refl b Hb) in Hm2. rewrite Hm2.
    destruct (charged_budget now b (live_cell now (bk_key b) m1) Hcr Hs (proj2 Hok eq_refl b Hb)) as [_ Hlt].
    rewrite <- Hb1. symmetry in Hfits. rewrite forallb_forall in Hfits. specialize (Hfits b (proj1 (list_elem_of_In _ _) Hb)).
    destruct (Hsome b Hb) as [n Hc]. rewrite Hc in Hfits. apply (Hlt n); [|done].
    unfold count_at in Hc. rewrite Hm1. destruct (live_cell now (bk_key b) m) as [[v [e|]]|]; [done| |done].
    cbn [stamped]. unfold expire_in. destruct Hcr as (_ & _ & _ & ->). by rewrite (proj2 (Z.leb_gt _ _)) by lia.
  - destruct (Hch b Hb) as [->|[_ ->]]; [|lia].
    destruct (chargeable b (live_cell now (bk_key b) m1)) eqn:Ech; [|lia].
    destruct (charged_budget now b _ Hcr Hs Ech) as [Hle _]. lia.
Qed.

(** A run of reservations, by anyone; how many of those that count on [k] were
    admitted. *)
Fixpoint admissions (calls : list (Z * list Gate)) (m : keyspace) : nat :=
  match calls with
  | [] => 0
  | (now, bs) :: calls' =>
      let '(r, m') := reserveChargeScript now bs m in
      (if decide (k ∈ bk_key <$> bs) then match r with Ok (true, _) => 1 | _ => 0 end else 0) + admissions calls' m'
  end.

Definition timely (t : Z) (calls : list (Z * list Gate)) : Prop :=
  Sorted Z.le (t :: (fst <$> calls)) ∧ (∀ c, c ∈ calls → c.1 ≤ horizon ∧ NoDup (bk_key <$> c.2) ∧
    ∀ b, b ∈ c.2 → bk_key b = k → counts_requests b).

Lemma admissions_budget t calls m :
  start ≤ t → timely t calls → Z.of_nat (admissions calls m) ≤ budget (live_cell t k m).
Proof.
  revert t m. induction calls as [|[now bs] calls IH]; intros t m Hs [Hsort Hall]; cbn [admissions].
  { unfold budget. destruct (live_cell t k m) as [c|]; [|lia]. destruct (c_exp c); [destruct (_ <? _)|]; lia. }
  cbn in Hsort. apply Sorted_inv in Hsort as [Hsort Hhd]. apply HdRel_inv in Hhd.
  destruct (Hall (now, bs)) as (Hh & Hn & Hg); [constructor|]. cbn in Hh, Hn, Hg.
  pose proof (reserve_budget now bs m Hn Hg) as Hr. pose proof (budget_time t now m Hhd Hh).
  destruct (reserveChargeScript now bs m) as [r m']. specialize (Hr ltac:(lia)).
  assert (Z.of_nat (admissions calls m') ≤ budget (live_cell now k m')) as Hrest.
  { apply IH; [lia|]. split; [done|]. intros c Hc. apply Hall. by constructor. }
  destruct (decide (k ∈ bk_key <$> bs)); [destruct r as [[[] ?]|?]|]; lia.
Qed.
End Window.

(** C40: Within any stretch of one window's length, whatever other users and gates
    reserve in between and whichever scripts fail, at most twice the cap of
    requests is admitted on a counter; at most the cap if no window was open at the
    start. *)
Theorem requests_bounded k cap ttl_ms start calls m :
  0 ≤ cap → in_int64 cap = true → 0 < ttl_ms → timely k cap ttl_ms start start calls →
  (live_cell start k m = None → Z.of_nat (admissions k calls m) ≤ cap) ∧
  ((∀ c, live_cell start k m = Some c → 0 ≤ in_cell c) → Z.of_nat (admissions k calls m) ≤ 2 * cap).
Proof.
  intros Hc Hr Ht Htm. pose proof (admissions_budget k cap ttl_ms start (conj Hc Hr) Ht start calls m
    (Z.le_refl _) Htm) as Hb. split.
  - intros Hl. by rewrite Hl in Hb.
  - intros Hpos. etrans; [exact Hb|]. unfold budget. destruct (live_cell start k m) as [c|]; [|lia].
    specialize (Hpos c eq_refl). destruct (c_exp c); [destruct (_ <? _)|]; lia.
Qed.

(** ** Decisions of [CheckLimit] *)

Section Decisions.
Context `{U : UUIDText} `{Rd : Redis} {W : Type}.
Variables (limits : gmap string Limits) (policy : RedisDownPolicy)
          (localBucket : option (W → bool * W)) (dailySpender : option (uuid → Z → SE W unit Q)).
Notation CheckLimit := (CheckLimit limits policy localBucket dailySpender).
Notation S_ := (@LimiterState Rd W).

(** The business may spend more today. *)
Definition within_daily_spend (l : Limits) (now : Z) (businessID : uuid) (s : S_) : Prop :=
  match dailySpender with
  | None => True
  | Some spender =>
      (lm_daily_spend l <= 0)%Q ∨ businessID = uuid_nil ∨
      ∃ spend, (spender businessID now (rs_world s)).1 = Ok spend ∧
        ¬ (lm_daily_spend l <= spend + dailySpendEpsilon)%Q
  end.

(** The local bucket let the request through while Redis was failing. *)
Definition fallback_allows : Prop :=
  policy = RedisDownPolicyLocalFallback ∧ ∃ allow w, localBucket = Some allow ∧ (allow w).1 = true.

Definition small_enough (l : Limits) (charge : TokenCharge) : Prop :=
  (0 < lm_tokens_per_min l → charge_total charge ≤ lm_tokens_per_min l) ∧
  (0 < lm_tokens_per_month l → charge_total charge ≤ lm_tokens_per_month l).

Lemma exceedsAlone_false l charge :
  exceedsAlone (charge_total charge) [lm_tokens_per_min l; lm_tokens_per_month l] = false ↔ small_enough l charge.
Proof.
  unfold exceedsAlone, small_enough. cbn.
  rewrite orb_false_r, orb_false_iff, !andb_false_iff, !Z.ltb_ge. split; [intros; split; lia|]. intros [H1 H2].
  split; [destruct (Z.le_gt_cases (lm_tokens_per_min l) 0)|destruct (Z.le_gt_cases (lm_tokens_per_month l) 0)];
    [by left|right; lia|by left|right; lia].
Qed.

Lemma handle_error_cases now s r s' :
  handleRedisError policy localBucket now s = (r, s') →
  rs_redis s' = rs_redis s ∧ ((r = Ok true ∧ fallback_allows) ∨ r = Err ErrRateLimitUnavailable ∨ r = Err ErrRateLimitExceeded).
Proof.
  unfold handleRedisError, fallback_allows. destruct policy; [intros [= <- <-]; auto|].
  destruct localBucket as [allow|]; [|intros [= <- <-]; auto].
  destruct (allow _) as [[] w] eqn:Ea; intros [= <- <-]; (split; [done|]); [left|auto].
  split; [done|]. split; [done|]. exists allow, (rs_world s). cbn in Ea. by rewrite Ea.
Qed.

Lemma reserve_charge_cases now u l charge s r s' :
  reserveCharge policy localBucket now u l charge s = (r, s') →
  match gates now u l charge with
  | [] => r = Ok true ∧ s' = s
  | bs => (∃ admitted healed db, redis_do (reserveChargeScript now bs) (rs_redis s) = (Ok (admitted, healed), db) ∧
             r = Ok admitted ∧ rs_redis s' = db) ∨
          (∃ err db, redis_do (reserveChargeScript now bs) (rs_redis s) = (Err err, db) ∧ rs_redis s' = db ∧
             ((r = Ok true ∧ fallback_allows) ∨ r = Err ErrRateLimitUnavailable ∨ r = Err ErrRateLimitExceeded))
  end.
Proof.
  unfold reserveCharge. destruct (gates now u l charge) as [|b bs]; [by intros [= <- <-]|].
  unfold on_redis. destruct (redis_do _ _) as [[[adm healed]|err] db].
  - intros [= <- <-]. left. eauto 10.
  - intros Hh%handle_error_cases. destruct Hh as [Hr Hc]. right. eauto.
Qed.

(** How the counters let a request through. *)
Definition reserved (now : Z) (u : uuid) (l : Limits) (charge : TokenCharge) (s s' : S_) : Prop :=
  gates now u l charge = [] ∨
  (∃ healed db, redis_do (reserveChargeScript now (gates now u l charge)) (rs_redis s) = (Ok (true, healed), db) ∧
                rs_redis s' = db) ∨
  ((∃ err db, redis_do (reserveChargeScript now (gates now u l charge)) (rs_redis s) = (Err err, db)) ∧ fallback_allows).

Lemma reserve_charge_reserved now u l charge s s' :
  reserveCharge policy localBucket now u l charge s = (Ok true, s') → reserved now u l charge s s'.
Proof.
  intros Hrc%reserve_charge_cases. unfold reserved.
  destruct (gates now u l charge) as [|b0 bs]; [by left|right].
  destruct Hrc as [(adm & healed & db & Hr & Ha & Hdb)|(err & db & Hr & Hdb & [[_ Hf]|[?|?]])]; [|by eauto|done..].
  injection Ha as <-. eauto.
Qed.

(** The spend gate: refused, leaving Redis alone, or passed. *)
Lemma check_limit_cases now u b tier charge l s r s' :
  u ≠ uuid_nil → limits !! tier = Some l → IsUnlimited l = false → CheckLimit now u b tier charge s = (r, s') →
  (r ≠ Ok true ∧ rs_redis s' = rs_redis s ∧ (within_daily_spend l now b s → ¬ small_enough l charge)) ∨
  (within_daily_spend l now b s ∧ small_enough l charge ∧ ∃ s1, rs_redis s1 = rs_redis s ∧
   reserveCharge policy localBucket now u l charge s1 = (r, s')).
Proof.
  intros Hu El Eu. unfold RateLimit.CheckLimit. rewrite El, Eu, (proj2 (N.eqb_neq _ _) Hu). cbn [negb andb].
  assert (∀ s1, rs_redis s1 = rs_redis s → within_daily_spend l now b s →
    (if exceedsAlone (charge_total charge) [lm_tokens_per_min l; lm_tokens_per_month l] then (Ok false, s1)
     else reserveCharge policy localBucket now u l charge s1) = (r, s') →
    (r ≠ Ok true ∧ rs_redis s' = rs_redis s ∧ (within_daily_spend l now b s → ¬ small_enough l charge)) ∨
    (within_daily_spend l now b s ∧ small_enough l charge ∧ ∃ s1, rs_redis s1 = rs_redis s ∧
     reserveCharge policy localBucket now u l charge s1 = (r, s'))) as Hrest.
  { intros s1 Hs1 Hw. destruct (exceedsAlone _ _) eqn:Ex.
    - intros [= <- <-]. left. split_and!; [done|done|]. intros _ Hsm%exceedsAlone_false. congruence.
    - apply exceedsAlone_false in Ex. intros Hrc. right. eauto. }
  unfold within_daily_spend in *. destruct dailySpender as [spender|]; [|by apply Hrest].
  destruct (Qle_bool (lm_daily_spend l) 0) eqn:Eq; cbn [negb andb].
  { apply Qle_bool_iff in Eq. apply Hrest; [done|by left]. }
  destruct (N.eqb_spec b uuid_nil) as [->|Hb]; cbn [negb andb]; [apply Hrest; auto|].
  assert (¬ (lm_daily_spend l <= 0)%Q) as Hd by (rewrite <- Qle_bool_iff; congruence).
  destruct (spender b now (rs_world s)) as [[spend|err] w].
  - destruct (Qle_bool (lm_daily_spend l) (spend + dailySpendEpsilon)) eqn:Ele.
    + intros [= <- <-]. left. split_and!; [done|done|]. apply Qle_bool_iff in Ele.
      intros [?|[?|(sp & Hsp & Hn)]]; [done|done|]. injection Hsp as <-. done.
    + apply Hrest; [done|]. right. right. exists spend. split; [done|]. rewrite <- Qle_bool_iff. congruence.
  - intros [= <- <-]. left. split_and!; [done|done|]. by intros [?|[?|(sp & Hsp & Hn)]].
Qed.

(** A user's request is admitted only if its tier is known and either has no
    limits or: the business is below its daily spend, the request alone fits every
    token cap, and the reservation script admitted it (or no gate has a cap, or the
    script failed and, under the fallback policy, the local bucket let it through).
    A request refused by the spend or size gate leaves Redis as it was. *)
Theorem admission_sound now u b tier charge (s : S_) :
  u ≠ uuid_nil →
  let '(r, s') := CheckLimit now u b tier charge s in
  (r = Ok true → ∃ l, limits !! tier = Some l ∧
     (IsUnlimited l = true ∨
      (within_daily_spend l now b s ∧ small_enough l charge ∧
       ∃ s1, rs_redis s1 = rs_redis s ∧ reserved now u l charge s1 s'))) ∧
  (∀ l, limits !! tier = Some l → IsUnlimited l = false →
     ¬ (within_daily_spend l now b s ∧ small_enough l charge) → r ≠ Ok true ∧ rs_redis s' = rs_redis s).
Proof.
  intros Hu. destruct (CheckLimit now u b tier charge s) as [r s'] eqn:Erun.
  destruct (limits !! tier) as [l|] eqn:El.
  2: { split; [|done]. intros ->. unfold RateLimit.CheckLimit in Erun. rewrite El in Erun.
       by rewrite (proj2 (N.eqb_neq _ _) Hu) in Erun. }
  destruct (IsUnlimited l) eqn:Eu; [split; [eauto|intros l' [= <-]; congruence]|].
  destruct (check_limit_cases _ _ _ _ _ _ _ _ _ Hu El Eu Erun) as [(Hr & Hs & Hw)|(Hw & Hsm & s1 & Hs1 & Hrc)].
  - split; [done|]. intros l' [= <-] _ _. done.
  - split; [|intros l' [= <-] _ Hn; by destruct Hn].
    intros ->. exists l. split; [done|]. right. split_and!; [done|done|]. exists s1. split; [done|].
    by apply reserve_charge_reserved.
Qed.
End Decisions.

(** ** On concrete counters *)

Section limit_demo.
#[local] Existing Instance json_text.
#[local] Existing Instance decimal_uuid.
#[local] Existing Instance scripted_redis.

Definition demo_charge : TokenCharge := {| tk_variable := 100; tk_stable := 50 |}.
Definition demo_limits : Limits := limits_of 2 30000 100000 1.
Definition demo_gates (now : Z) : list Gate := gates now 7%N demo_limits demo_charge.

Definition demo_limiter : LimiterState (W := unit) :=
  {| rs_redis := (∅, []); rs_world := tt; rs_down_since := None |}.

Definition demo_check (now : Z) (s : LimiterState (W := unit)) :=
  CheckLimit {["free" := demo_limits]} RedisDownPolicyBlock None None now 7%N 1%N "free" demo_charge s.

(** Two requests a minute; the window opens again after it. *)
Example demo_window :
  let '(r1, s1) := demo_check 0 demo_limiter in
  let '(r2, s2) := demo_check Second s1 in
  let '(r3, s3) := demo_check (2 * Second) s2 in
  let '(r4, _) := demo_check (61 * Second) s3 in
  (r1, r2, r3, r4) = (Ok true, Ok true, Ok false, Ok true).
Proof. vm_compute. reflexivity. Qed.

Lemma admission_sound_witness :
  let '(r, s') := demo_check 0 demo_limiter in
  r = Ok true ∧ ∃ l, ({["free" := demo_limits]} : gmap string Limits) !! "free" = Some l.
Proof.
  pose proof (admission_sound {["free" := demo_limits]} RedisDownPolicyBlock None None 0 7%N 1%N "free" demo_charge
    demo_limiter ltac:(discriminate)) as H.
  fold (demo_check 0 demo_limiter) in H.
  assert ((demo_check 0 demo_limiter).1 = Ok true) as Hr by (vm_compute; reflexivity).
  destruct (demo_check 0 demo_limiter) as [r s']. cbn in Hr. split; [exact Hr|].
  destruct (proj1 H Hr) as (l & Hl & _). exists l. exact Hl.
Defined.

Lemma reserve_all_or_nothing_witness :
  ∃ healed m', reserveChargeScript 0 (demo_gates 0) ∅ = (Ok (true, healed), m').
Proof.
  destruct (reserve_all_or_nothing 0 (demo_gates 0) ∅
    ltac:(apply (proj1 (bool_decide_eq_true _)); vm_compute; reflexivity)
    ltac:(intros b [->|[->|[->|Hb%elem_of_nil]%elem_of_cons]%elem_of_cons]%elem_of_cons;
          [exists 0; split; vm_compute; reflexivity..|destruct Hb])) as (h & m' & Hr & _).
  exists h, m'. rewrite Hr. apply f_equal2; [|reflexivity]. vm_compute. reflexivity.
Defined.

Definition demo_calls : list (Z * list Gate) :=
  [(0, demo_gates 0); (Second, demo_gates Second); (2 * Second, demo_gates (2 * Second))].

Lemma requests_bounded_witness : Z.of_nat (admissions "ratelimit:7:requests:min" demo_calls ∅) ≤ 2.
Proof.
  assert (timely "ratelimit:7:requests:min" 2 60000 0 0 demo_calls) as Ht.
  { split.
    - repeat constructor; vm_compute; discriminate.
    - intros c [->|[->|[->|Hc%elem_of_nil]%elem_of_cons]%elem_of_cons]%elem_of_cons; [..|destruct Hc];
        (split; [vm_compute; discriminate|]);
        (split; [apply (proj1 (bool_decide_eq_true _)); vm_compute; reflexivity|]);
        intros b [->|[->|[->|Hb%elem_of_nil]%elem_of_cons]%elem_of_cons]%elem_of_cons; try (destruct Hb);
        intros Hk; first [exact (conj eq_refl (conj eq_refl (conj eq_refl eq_refl))) | vm_compute in Hk; discriminate Hk]. }
  exact (proj1 (requests_bounded "ratelimit:7:requests:min" 2 60000 0 demo_calls ∅ ltac:(lia) eq_refl ltac:(lia) Ht)
    eq_refl).
Defined.
End limit_demo.
