(* ===== verification/Lockout.v ===== *)
(** * Login lockout and the shared request counter

    [src/pkg/lockout/lockout.go]: failures per email hash and network in Redis,
    the captcha and lock tiers, clearing; [src/pkg/ratelimit]: the counter the HTTP
    middlewares use and their policy when Redis is down.  The email digest and the
    local token bucket are parameters. *)

From S2P Require Import Prelude Json GoTime Mongo Redis RateLimit.
Local Open Scope Z_scope.
Local Open Scope go_scope.

Inductive Tier := TierNormal | TierCaptcha | TierLocked.

#[export] Instance Tier_eq_dec : EqDecision Tier.
Proof. solve_decision. Defined.

(** [Config] of [lockout], zero values standing for the defaults. *)
Record LockoutConfig := {
  lc_captcha : Z;
  lc_lock : Z;
  lc_duration : Z;
  lc_prefix : string;
}.

Definition DefaultFailThresholdCaptcha : Z := 4.
Definition DefaultFailThresholdLock : Z := 10.
Definition DefaultDuration : Z := 15 * Minute.
Definition DefaultKeyPrefix : string := "onevoice:lockout:".

(** [New]. *)
Definition NewLockout (cfg : LockoutConfig) : LockoutConfig := {|
  lc_captcha := if lc_captcha cfg =? 0 then DefaultFailThresholdCaptcha else lc_captcha cfg;
  lc_lock := if lc_lock cfg =? 0 then DefaultFailThresholdLock else lc_lock cfg;
  lc_duration := if lc_duration cfg =? 0 then DefaultDuration else lc_duration cfg;
  lc_prefix := if String.eqb (lc_prefix cfg) "" then DefaultKeyPrefix else lc_prefix cfg |}.

Section Lockout.
Context `{Rd : Redis}.
(** [hex(sha256(s))]. *)
Variable sha256_hex : string → string.
Variable cfg : LockoutConfig.

Definition emailHash (email : string) : string := sha256_hex (to_lower (trim_space email)).

Definition keyFor (email ipNet16 : string) : string := (lc_prefix cfg +:+ emailHash email +:+ ":" +:+ ipNet16)%string.

Definition RecordFailure (now : Z) (email ipNet16 : string) : SE rdb RedisError Z :=
  redis_do (incrWithHealScript now (keyFor email ipNet16) (lc_duration cfg / Millisecond)).

Definition tier_of (failures : Z) : Tier :=
  if lc_lock cfg <=? failures then TierLocked
  else if lc_captcha cfg <=? failures then TierCaptcha else TierNormal.

Definition GetTier (now : Z) (email ipNet16 : string) : SE rdb RedisError Tier :=
  do! v := redis_do (cmd_get now (keyFor email ipNet16)) in
  match v with
  | None => se_ret TierNormal
  | Some s => match parse_int s with Some n => se_ret (tier_of n) | None => se_err NotAnInteger end
  end.

Definition IsLocked (now : Z) (email ipNet16 : string) : SE rdb RedisError bool :=
  do! t := GetTier now email ipNet16 in se_ret (bool_decide (t = TierLocked)).

Definition TTL (now : Z) (email ipNet16 : string) : SE rdb RedisError Z :=
  do! d := redis_do (cmd_pttl now (keyFor email ipNet16)) in
  se_ret (if d <? 0 then 0 else d * Millisecond).

Definition Clear (now : Z) (email ipNet16 : string) : SE rdb RedisError unit :=
  do! n := redis_do (cmd_del now (keyFor email ipNet16)) in se_ret tt.

Fixpoint del_each (now : Z) (ks : list string) : SE rdb RedisError unit :=
  match ks with
  | [] => se_ret tt
  | k :: ks' => do! n := redis_do (cmd_del now k) in del_each now ks'
  end.

Definition ClearAllForEmail (now : Z) (email : string) : SE rdb RedisError unit :=
  do! ks := redis_do (cmd_scan now (lc_prefix cfg +:+ emailHash email +:+ ":")%string) in
  del_each now ks.
End Lockout.

(** ** [pkg/ratelimit] *)

Definition IncrWithHeal `{Rd : Redis} (now : Z) (key : string) (window : Z) : SE rdb RedisError Z :=
  redis_do (incrWithHealScript now key (window / Millisecond)).

Inductive PolicyMode := PolicyBlock | PolicyLocalFallback.
Inductive PolicyError := ErrUnavailable | ErrExceeded | ErrPerHour (n : Z) | ErrUnknownMode (mode : string).

(** [Policy]: the bucket, where there is one, by its burst. *)
Record Policy := { po_mode : PolicyMode; po_bucket : option Z }.

Definition PolicyFromEnv (mode : string) (perHour : Z) : result PolicyError Policy :=
  if String.eqb mode "" || String.eqb mode "block" then Ok {| po_mode := PolicyBlock; po_bucket := None |}
  else if String.eqb mode "local_fallback" then
    if perHour <=? 0 then Err (ErrPerHour perHour)
    else Ok {| po_mode := PolicyLocalFallback; po_bucket := Some perHour |}
  else Err (ErrUnknownMode mode).

(** [HandleRedisError]; [allow] is what the bucket answers. *)
Definition HandleRedisError {E} (p : Policy) (allow : bool) (err : option E) : result PolicyError bool :=
  match err with
  | None => Ok true
  | Some _ =>
      match po_mode p, po_bucket p with
      | PolicyLocalFallback, Some _ => if allow then Ok true else Err ErrExceeded
      | _, _ => Err ErrUnavailable
      end
  end.

(** A policy made from the environment refuses while Redis is down unless the
    operator asked for the fallback, and then only as its bucket allows. *)
Lemma policy_fails_closed {E} mode perHour p allow (e : E) :
  PolicyFromEnv mode perHour = Ok p → HandleRedisError p allow (Some e) = Ok true →
  mode = "local_fallback"%string ∧ 0 < perHour ∧ allow = true.
Proof.
  unfold PolicyFromEnv, HandleRedisError.
  destruct (String.eqb_spec mode ""), (String.eqb_spec mode "block"); cbn; try (by intros [= <-]).
  destruct (String.eqb_spec mode "local_fallback"); [|done].
  destruct (Z.leb_spec perHour 0); [done|]. intros [= <-]. cbn. by destruct allow.
Qed.

(** ** Facts *)

(** The self-healing counter charges one unit, as a gate of the limiter does. *)
Definition unit_bucket (k : string) (ttl_ms : Z) : Gate := {|
  bk_key := k; bk_gate := ""; bk_increment := 1; bk_reserved := 0; bk_limit := 0; bk_ttl_ms := ttl_ms |}.

Lemma incr_heal_charges now k ttl_ms m :
  (incrWithHealScript now k ttl_ms m).2 = (charge_bucket now (unit_bucket k ttl_ms) m).2 ∧
  ∀ n, count_in (live_cell now k m) = Some n → in_int64 (n + 1) = true →
    (incrWithHealScript now k ttl_ms m).1 = Ok (n + 1).
Proof.
  unfold incrWithHealScript, charge_bucket, se_bind, unit_bucket. cbn [bk_key bk_increment bk_ttl_ms].
  unfold count_in. destruct (cmd_incrby now k 1 m) as [[count|err] m1] eqn:Ei.
  - assert (∀ n, count_in (live_cell now k m) = Some n → in_int64 (n + 1) = true → count = n + 1) as Hc.
    { unfold cmd_incrby, count_in in *. destruct (live_cell now k m) as [c|]; [|injection Ei as <- _; by intros n [= <-]].
      destruct (parse_int (c_val c)) as [v|]; [|done]. destruct (in_int64 (v + 1)); [|done].
      injection Ei as <- _. by intros n [= <-]. }
    unfold count_in in Hc. unfold cmd_pttl. cbv beta iota.
    match goal with |- context [?x <? 0] => destruct (x <? 0) end.
    + destruct (cmd_pexpire now k ttl_ms m1) as [[x|e] m3] eqn:Ex.
      * split; [done|]. intros n Hn Hr. cbn. by rewrite (Hc n).
      * unfold cmd_pexpire in Ex. by destruct (live_cell now k m1).
    + split; [done|]. intros n Hn Hr. cbn. by rewrite (Hc n).
  - split; [done|]. intros n Hn Hr. exfalso. unfold cmd_incrby in Ei.
    destruct (live_cell now k m) as [c|]; [|done]. rewrite Hn, Hr in Ei. done.
Qed.

(** The counter [n] in a window that ends at [e]. *)
Definition counting (n e : Z) : option cell := Some {| c_val := print_Z n; c_exp := Some e |}.

Lemma incr_heal_first now k ttl_ms m : 0 < ttl_ms → live_cell now k m = None →
  (incrWithHealScript now k ttl_ms m).1 = Ok 1 ∧
  (incrWithHealScript now k ttl_ms m).2 !! k = counting 1 (now + ttl_ms * Millisecond).
Proof.
  intros Ht Hl. destruct (incr_heal_charges now k ttl_ms m) as [Hs Hr]. rewrite Hs.
  split; [apply (Hr 0); [by rewrite Hl|done]|].
  destruct (charge_bucket_spec now (unit_bucket k ttl_ms) m) as (m' & -> & Hm & _). cbn in Hm |- *.
  rewrite Hl in Hm. cbn [chargeable charged] in Hm. unfold expire_in in Hm. cbn in Hm.
  rewrite (proj2 (Z.leb_gt _ _)) in Hm by lia. by apply live_cell_lookup in Hm.
Qed.

Lemma incr_heal_next now k ttl_ms m n e : in_int64 n = true → in_int64 (n + 1) = true → now ≤ e →
  m !! k = counting n e →
  (incrWithHealScript now k ttl_ms m).1 = Ok (n + 1) ∧
  (incrWithHealScript now k ttl_ms m).2 !! k = counting (n + 1) e.
Proof.
  intros Hn Hn1 He Hm. assert (live_cell now k m = counting n e) as Hl.
  { unfold live_cell. rewrite Hm. cbn. by rewrite (proj2 (Z.leb_le _ _)). }
  destruct (incr_heal_charges now k ttl_ms m) as [Hs Hr]. rewrite Hs.
  split; [apply Hr; [rewrite Hl; cbn; by apply parse_print_int|done]|].
  destruct (charge_bucket_spec now (unit_bucket k ttl_ms) m) as (m' & -> & Hm' & _). cbn [snd].
  change (bk_key (unit_bucket k ttl_ms)) with k in Hm'. rewrite Hl in Hm'.
  unfold counting, chargeable, charged in Hm'. cbn [c_val bk_increment unit_bucket] in Hm'.
  rewrite parse_print_int, Hn1 in Hm' by done. by apply live_cell_lookup in Hm'.
Qed.

Section LockoutFacts.
Context `{Rd : Redis}.
Variables (sha256_hex : string → string) (cfg : LockoutConfig).
Notation keyFor := (keyFor sha256_hex cfg).
Notation RecordFailure := (RecordFailure sha256_hex cfg).
Notation GetTier := (GetTier sha256_hex cfg).
Notation window := (lc_duration cfg / Millisecond * Millisecond).

(** Failures at the given instants, one after the other. *)
Fixpoint record_failures (ts : list Z) (email net : string) (s : rdb) : list (result RedisError Z) * rdb :=
  match ts with
  | [] => ([], s)
  | t :: ts' =>
      let '(r, s1) := RecordFailure t email net s in
      let '(rs, s2) := record_failures ts' email net s1 in (r :: rs, s2)
  end.

Lemma record_failures_next ts email net n e s :
  up s → keys s !! keyFor email net = counting n e → in_int64 n = true → 0 ≤ n →
  in_int64 (n + Z.of_nat (length ts)) = true → (∀ t, t ∈ ts → t ≤ e) →
  let '(rs, s') := record_failures ts email net s in
  up s' ∧ keys s' !! keyFor email net = counting (n + Z.of_nat (length ts)) e ∧
  rs = (λ i, Ok (n + 1 + Z.of_nat i)) <$> seq 0 (length ts).
Proof.
  revert n s. induction ts as [|t ts IH]; intros n s Hu Hk Hn Hn0 Hlen Ht; cbn [record_failures].
  { cbn [length seq fmap list_fmap]. by rewrite Z.add_0_r. }
  assert (in_int64 (n + 1) = true) as Hn1.
  { unfold in_int64 in *. cbn [length] in Hlen. to_prop. apply andb_true_iff. split; [apply Z.leb_le|apply Z.ltb_lt]; lia. }
  unfold Lockout.RecordFailure. destruct (redis_do_healthy (incrWithHealScript t (keyFor email net)
    (lc_duration cfg / Millisecond)) s Hu) as (s1 & -> & Hk1 & Hu1).
  destruct (incr_heal_next t (keyFor email net) (lc_duration cfg / Millisecond) (keys s) n e Hn Hn1
    (Ht t ltac:(constructor)) Hk) as [Hr Hm]. rewrite Hr. rewrite <- Hk1 in Hm.
  specialize (IH (n + 1) s1 Hu1 Hm Hn1 ltac:(lia)).
  replace (n + 1 + Z.of_nat (length ts)) with (n + Z.of_nat (length (t :: ts))) in IH by (cbn [length]; lia).
  specialize (IH Hlen (λ t' Ht', Ht t' (list_elem_of_further _ _ _ Ht'))).
  destruct (record_failures ts email net s1) as [rs s2]. destruct IH as (Hu2 & Hk2 & ->).
  split; [done|]. split; [done|]. cbn [length seq fmap list_fmap]. f_equal; [f_equal; lia|].
  rewrite <- (fmap_S_seq 0 (length ts)), <- list_fmap_compose. apply list_fmap_ext. intros i x _. cbn [compose]. f_equal. lia.
Qed.

(** While Redis answers, the failures of an email and network are counted from
    the first one until its window ends: each is told its ordinal, the tier is
    captcha and then locked as the count reaches the thresholds, and it is normal
    again once the window is over or a login cleared it; failures within the window
    do not prolong it. *)
Theorem lockout_window email net t0 ts s :
  up s → 0 < lc_duration cfg / Millisecond → live_cell t0 (keyFor email net) (keys s) = None →
  (∀ t, t ∈ ts → t ≤ t0 + window) → in_int64 (1 + Z.of_nat (length ts)) = true →
  let '(rs, s') := record_failures (t0 :: ts) email net s in
  rs = (λ i, Ok (1 + Z.of_nat i)) <$> seq 0 (S (length ts)) ∧
  (∀ t, t ≤ t0 + window → (GetTier t email net s').1 = Ok (tier_of cfg (1 + Z.of_nat (length ts)))) ∧
  (∀ t, t0 + window < t → (GetTier t email net s').1 = Ok TierNormal) ∧
  (∀ t t', let '(r, s'') := Clear sha256_hex cfg t email net s' in
           r = Ok tt ∧ (GetTier t' email net s'').1 = Ok TierNormal).
Proof.
  intros Hu Hw Hl Hts Hlen. cbn [record_failures].
  unfold Lockout.RecordFailure at 1. destruct (redis_do_healthy (incrWithHealScript t0 (keyFor email net)
    (lc_duration cfg / Millisecond)) s Hu) as (s1 & -> & Hk1 & Hu1).
  destruct (incr_heal_first t0 (keyFor email net) (lc_duration cfg / Millisecond) (keys s) Hw Hl) as [Hr Hm].
  rewrite Hr. rewrite <- Hk1 in Hm.
  pose proof (record_failures_next ts email net 1 _ s1 Hu1 Hm eq_refl ltac:(lia) Hlen Hts) as Hn.
  destruct (record_failures ts email net s1) as [rs s2]. destruct Hn as (Hu2 & Hk2 & ->).
  assert (∀ t s3, up s3 → (GetTier t email net s3).1 =
    match live_cell t (keyFor email net) (keys s3) with
    | None => Ok TierNormal
    | Some c => match parse_int (c_val c) with Some n => Ok (tier_of cfg n) | None => Err NotAnInteger end
    end) as Hget.
  { intros t s3 Hu3. unfold Lockout.GetTier, se_bind.
    destruct (redis_do_healthy (cmd_get t (keyFor email net)) s3 Hu3) as (s4 & -> & _ & _). cbn.
    destruct (live_cell t (keyFor email net) (keys s3)) as [c|]; cbn; [|done]. by destruct (parse_int (c_val c)). }
  split_and!.
  - cbn [seq fmap list_fmap]. f_equal. rewrite <- (fmap_S_seq 0 (length ts)), <- list_fmap_compose.
    apply list_fmap_ext. intros i x _. cbn [compose]. f_equal. lia.
  - intros t Ht. rewrite Hget by done. unfold live_cell. rewrite Hk2. cbn [counting cell_live c_exp].
    rewrite (proj2 (Z.leb_le _ _)) by done. cbn [c_val]. by rewrite parse_print_int.
  - intros t Ht. rewrite Hget by done. unfold live_cell. rewrite Hk2. cbn [counting cell_live c_exp].
    by rewrite (proj2 (Z.leb_gt _ _)) by done.
  - intros t t'. unfold Lockout.Clear, se_bind.
    destruct (redis_do_healthy (cmd_del t (keyFor email net)) s2 Hu2) as (s3 & -> & Hk3 & Hu3).
    cbn [cmd_del fst]. unfold se_ret. split; [done|]. rewrite Hget by done. rewrite Hk3. cbn [cmd_del snd].
    by rewrite live_delete_eq.
Qed.
End LockoutFacts.

Section lockout_demo.
#[local] Existing Instance scripted_redis.

Definition demo_cfg : LockoutConfig :=
  NewLockout {| lc_captcha := 0; lc_lock := 0; lc_duration := 0; lc_prefix := "" |}.

Lemma lockout_window_witness :
  let '(rs, s') := record_failures (Rd := scripted_redis) (λ s, s) demo_cfg
    [0; 1; 2; 3; 4; 5; 6; 7; 8; 9] " Owner@Example.com" "10.0" (∅, []) in
  (GetTier (Rd := scripted_redis) (λ s, s) demo_cfg Minute " Owner@Example.com" "10.0" s').1 = Ok TierLocked ∧
  (GetTier (Rd := scripted_redis) (λ s, s) demo_cfg Hour " Owner@Example.com" "10.0" s').1 = Ok TierNormal.
Proof.
  pose proof (lockout_window (Rd := scripted_redis) (λ s, s) demo_cfg " Owner@Example.com" "10.0" 0
    [1; 2; 3; 4; 5; 6; 7; 8; 9] (∅, []) eq_refl ltac:(vm_compute; reflexivity) eq_refl
    ltac:(apply Forall_forall; repeat constructor; vm_compute; discriminate) eq_refl) as H.
  destruct (record_failures _ _ _ _ _ _) as [rs s']. destruct H as (_ & Hin & Hout & _).
  split; [rewrite Hin by (vm_compute; discriminate); reflexivity|apply Hout; vm_compute; reflexivity].
Defined.
End lockout_demo.
