(* ===== verification/TelegramCallback.v ===== *)
(** * Callback data of the approval buttons

    [src/pkg/telegramcallback/nonce.go].  [mac secret text] is the lowercase hex of
    the first four bytes of HMAC-SHA256, a parameter of which only its shape is
    used: eight characters, none a colon. *)

From S2P Require Import Prelude Json.
Local Open Scope string_scope.

Definition ActionApprove : string := "approve".
Definition ActionReject : string := "reject".
Definition version : string := "v1".

Inductive CallbackError := ErrBadFormat | ErrBadNonce | ErrEmptySecret.

#[export] Instance CallbackError_eq_dec : EqDecision CallbackError.
Proof. solve_decision. Defined.

Definition actionToByte (action : string) : result CallbackError string :=
  if String.eqb action ActionApprove then Ok "a"
  else if String.eqb action ActionReject then Ok "r" else Err ErrBadFormat.

Definition byteToAction (b : string) : result CallbackError string :=
  if String.eqb b "a" then Ok ActionApprove
  else if String.eqb b "r" then Ok ActionReject else Err ErrBadFormat.

Section Callback.
Variable mac : string → string → string.

(** What is authenticated, and its tag. *)
Definition mac_text (batchID action : string) : string := batchID +:+ "|" +:+ action.
Definition computeMAC (batchID action secret : string) : string := mac secret (mac_text batchID action).

Definition BuildCallbackData (batchID action secret : string) : result CallbackError string :=
  if String.eqb secret "" then Err ErrEmptySecret
  else match actionToByte action with
       | Err e => Err e
       | Ok b =>
           if String.eqb batchID "" then Err ErrBadFormat
           else Ok (join_with ":" [version; batchID; b; computeMAC batchID action secret])
       end.

Definition ParseAndVerify (data secret : string) : result CallbackError (string * string) :=
  if String.eqb secret "" then Err ErrEmptySecret
  else match split_on ":" data with
       | [ver; id; b; got] =>
           if negb (String.eqb ver version) || String.eqb id "" then Err ErrBadFormat
           else match byteToAction b with
                | Err e => Err e
                | Ok action =>
                    if String.eqb got (computeMAC id action secret) then Ok (id, action) else Err ErrBadNonce
                end
       | _ => Err ErrBadFormat
       end.

Hypothesis mac_shape : ∀ secret text, str_has ":" (mac secret text) = false ∧ String.length (mac secret text) = 8%nat.

Lemma join_cons w w' ws : join_with ":" (w :: w' :: ws) = w +:+ String ":" (join_with ":" (w' :: ws)).
Proof. reflexivity. Qed.

Lemma split_on_four a b c d :
  str_has ":" a = false → str_has ":" b = false → str_has ":" c = false → str_has ":" d = false →
  split_on ":" (join_with ":" [a; b; c; d]) = [a; b; c; d].
Proof.
  intros Ha Hb Hc Hd. rewrite !join_cons. rewrite !split_on_app by done. do 3 f_equal. by apply split_on_no_sep.
Qed.

(** Splitting loses only the separators. *)
Lemma join_split s : join_with ":" (split_on ":" s) = s.
Proof.
  induction s as [|a s IH]; [done|]. cbn [split_on]. pose proof (split_on_not_nil ":" s).
  destruct (split_on ":" s) as [|w ws]; [done|]. destruct (decide (a = ":"%char)) as [->|Hne].
  - by rewrite join_cons, IH.
  - rewrite <- IH. by destruct ws.
Qed.

Lemma split_parts_no_sep s : Forall (λ w, str_has ":" w = false) (split_on ":" s).
Proof.
  induction s as [|a s IH]; cbn [split_on]; [by repeat constructor|].
  destruct (decide (a = ":"%char)) as [->|Hne]; [by constructor|].
  destruct (split_on ":" s) as [|w ws]; inversion IH; subst; constructor; [|by repeat constructor| |done]; cbn;
    by rewrite decide_False.
Qed.

Lemma byte_action b action : byteToAction b = Ok action ↔ actionToByte action = Ok b.
Proof.
  unfold byteToAction, actionToByte. split.
  - destruct (String.eqb_spec b "a") as [->|]; [by intros [= <-]|].
    destruct (String.eqb_spec b "r") as [->|]; [by intros [= <-]|done].
  - destruct (String.eqb_spec action ActionApprove) as [->|]; [by intros [= <-]|].
    destruct (String.eqb_spec action ActionReject) as [->|]; [by intros [= <-]|done].
Qed.

Lemma action_byte_no_sep action b : actionToByte action = Ok b → str_has ":" b = false ∧ String.length b = 1%nat.
Proof.
  unfold actionToByte. destruct (String.eqb _ _); [by intros [= <-]|]. by destruct (String.eqb _ _); [intros [= <-]|].
Qed.

Lemma str_app_inj_length s1 s2 t1 t2 :
  String.length s1 = String.length s2 → s1 +:+ t1 = s2 +:+ t2 → s1 = s2 ∧ t1 = t2.
Proof.
  revert s2. induction s1 as [|a s1 IH]; intros [|b s2] Hl; cbn in *; try done.
  intros [= -> Ht]. destruct (IH s2 ltac:(congruence) Ht) as [-> ->]. done.
Qed.

Fixpoint last_char (d : ascii) (s : string) : ascii :=
  match s with EmptyString => d | String a s' => last_char a s' end.

Lemma last_char_app d s a t : last_char d (s +:+ String a t) = last_char a t.
Proof. revert d. induction s as [|b s IH]; intros d; cbn; [done|apply IH]. Qed.

(** The authenticated text determines the batch and the decision. *)
Lemma mac_text_inj id1 id2 a1 a2 b1 b2 :
  actionToByte a1 = Ok b1 → actionToByte a2 = Ok b2 → mac_text id1 a1 = mac_text id2 a2 → id1 = id2 ∧ a1 = a2.
Proof.
  assert (∀ a b, actionToByte a = Ok b → a = "approve" ∨ a = "reject") as Hab.
  { intros a b. unfold actionToByte. destruct (String.eqb_spec a ActionApprove); [by left|].
    destruct (String.eqb_spec a ActionReject); [by right|done]. }
  unfold mac_text. intros H1 H2 Heq. pose proof (f_equal (last_char "0") Heq) as Hlast.
  pose proof (f_equal String.length Heq) as Hlen. rewrite !str_app_length in Hlen.
  destruct (Hab _ _ H1) as [-> | ->], (Hab _ _ H2) as [-> | ->];
    try (cbn in Hlast; rewrite !last_char_app in Hlast; cbn in Hlast; discriminate Hlast);
    (split; [|done]); (apply str_app_inj_length in Heq as [? _]; [done|]); cbn in Hlen; lia.
Qed.

(** Verification accepts exactly the strings that [BuildCallbackData] makes
    with the same secret for a batch id without a colon, and gives back their batch
    and decision; what is authenticated determines both, so a tag cannot be moved
    to another batch or decision; and for a 36-character id the string has 50
    bytes, within Telegram's 64. *)
Theorem callback_data_exact data secret id action :
  (ParseAndVerify data secret = Ok (id, action) ↔
   BuildCallbackData id action secret = Ok data ∧ str_has ":" id = false) ∧
  (∀ id2 action2 data2, BuildCallbackData id action secret = Ok data → BuildCallbackData id2 action2 secret = Ok data2 →
     mac_text id action = mac_text id2 action2 → id = id2 ∧ action = action2) ∧
  (BuildCallbackData id action secret = Ok data → String.length id = 36%nat → String.length data = 50%nat).
Proof.
  assert (∀ i a d, BuildCallbackData i a secret = Ok d → secret ≠ "" ∧ i ≠ "" ∧ ∃ b, actionToByte a = Ok b ∧
    d = join_with ":" [version; i; b; computeMAC i a secret]) as Hbuild.
  { intros i a d. unfold BuildCallbackData. destruct (String.eqb_spec secret ""); [done|].
    destruct (actionToByte a) as [b|]; [|done]. destruct (String.eqb_spec i ""); [done|]. intros [= <-]. eauto. }
  split_and!.
  - split.
    + unfold ParseAndVerify. destruct (String.eqb_spec secret ""); [done|].
      pose proof (join_split data) as Hj. pose proof (split_parts_no_sep data) as Hp.
      destruct (split_on ":" data) as [|ver [|i [|b [|got [|]]]]]; try done.
      destruct (String.eqb_spec ver version) as [->|]; cbn [negb orb]; [|done].
      destruct (String.eqb_spec i ""); [done|]. destruct (byteToAction b) as [a|] eqn:Eb; [|done].
      destruct (String.eqb_spec got (computeMAC i a secret)) as [->|]; [|done]. intros [= <- <-].
      apply byte_action in Eb. inversion Hp as [|? ? _ Hp']; subst. inversion Hp' as [|? ? Hi _]; subst.
      split; [|done]. unfold BuildCallbackData. rewrite Eb.
      destruct (String.eqb_spec secret ""); [done|]. destruct (String.eqb_spec i ""); [done|]. done.
    + intros [Hb Hi]. destruct (Hbuild _ _ _ Hb) as (Hs & Hid & b & Ea & ->). unfold ParseAndVerify.
      destruct (String.eqb_spec secret ""); [done|]. destruct (action_byte_no_sep _ _ Ea) as [Hbs _].
      rewrite split_on_four by (done || apply mac_shape). cbn [negb orb String.eqb]. rewrite String.eqb_refl.
      destruct (String.eqb_spec id ""); [done|]. cbn [negb orb]. apply byte_action in Ea. rewrite Ea.
      by rewrite String.eqb_refl.
  - intros id2 action2 data2 H1 H2. destruct (Hbuild _ _ _ H1) as (_ & _ & b1 & E1 & _).
    destruct (Hbuild _ _ _ H2) as (_ & _ & b2 & E2 & _). by apply (mac_text_inj _ _ _ _ b1 b2).
  - intros H1 Hl. destruct (Hbuild _ _ _ H1) as (_ & _ & b & E & ->).
    destruct (action_byte_no_sep _ _ E) as [_ Hlb]. rewrite !join_cons, !str_app_length. cbn [String.length].
    rewrite !str_app_length. cbn [String.length]. rewrite !str_app_length. cbn [String.length join_with].
    destruct (mac_shape secret (mac_text id action)) as [_ Hm]. unfold computeMAC. rewrite Hl, Hlb, Hm. done.
Qed.
End Callback.

(** A tag of the right shape, for computing. *)
Definition demo_mac (secret text : string) : string := "0a1b2c3d".

Lemma callback_data_exact_witness :
  ParseAndVerify demo_mac "v1:b1:a:0a1b2c3d" "k" = Ok ("b1", ActionApprove) ∧
  ParseAndVerify demo_mac "v1:b1:a:ffffffff" "k" = Err ErrBadNonce.
Proof.
  split; [|reflexivity].
  apply (callback_data_exact demo_mac (λ _ _, conj eq_refl eq_refl) "v1:b1:a:0a1b2c3d" "k" "b1" ActionApprove).
  split; reflexivity.
Defined.
