(* ===== verification/Pg.v ===== *)
(** * Transactions of the relational database

    Postgres is outside the repository.  [pg_step] is what its clients rely on in
    READ COMMITTED mode: a transaction sees the committed rows beneath its own
    writes; a row it wrote or locked stays locked to its end, and a statement of
    another transaction that needs the row runs only afterwards, on what it finds
    then; a commit makes all writes visible at once, and a connection may be lost at
    any point, a commit included.  A client supplies its statements: [run] is what
    the text of a statement does to the rows it sees, given the instant, an id the
    server draws, and the rows locked by others (for SKIP LOCKED). *)

From S2P Require Import Prelude Types Prog.

Inductive DbError := DbUnique | DbRaised | DbFailed.

#[export] Instance DbError_eq_dec : EqDecision DbError.
Proof. solve_decision. Defined.

Record Moment := { mo_now : Z; mo_id : uuid }.

Notation writes K V := (gmap K (option V)).

Record Effect (K V : Type) `{Countable K} (X : Type) := {
  ef_out : result DbError X;
  ef_writes : writes K V;
  ef_locks : gset K;
}.
Arguments ef_out {K V _ _ X} e.
Arguments ef_writes {K V _ _ X} e.
Arguments ef_locks {K V _ _ X} e.
Arguments Build_Effect {K V _ _ X} _ _ _.

(** A statement that only reads. *)
Definition reads {K V} `{Countable K} {X} (r : result DbError X) : Effect K V X := Build_Effect r ∅ ∅.

(** A statement that writes. *)
Definition makes {K V} `{Countable K} {X} (x : X) (w : writes K V) : Effect K V X := Build_Effect (Ok x) w ∅.

Inductive PgCall (Stmt : Type → Type) : Type → Type :=
| BeginC : PgCall Stmt (result DbError N)
| ExecC {X} (tx : option N) (q : Stmt X) : PgCall Stmt (result DbError X)
| SaveC (tx : N) : PgCall Stmt (result DbError unit)
| ReleaseC (tx : N) : PgCall Stmt (result DbError unit)
| RestoreC (tx : N) : PgCall Stmt unit
| CommitC (tx : N) : PgCall Stmt (result DbError unit)
| RollbackC (tx : N) : PgCall Stmt unit.
Arguments BeginC {Stmt}.
Arguments ExecC {Stmt X} tx q.
Arguments SaveC {Stmt} tx.
Arguments ReleaseC {Stmt} tx.
Arguments RestoreC {Stmt} tx.
Arguments CommitC {Stmt} tx.
Arguments RollbackC {Stmt} tx.

Section pg.
Context {K V : Type} `{Countable K}.

(** The rows under the writes [w]. *)
Definition overlay (w : writes K V) (d : gmap K V) : gmap K V :=
  merge (λ ow o, match ow with Some v => v | None => o end) w d.

Lemma overlay_lookup w d k : overlay w d !! k = match w !! k with Some v => v | None => d !! k end.
Proof. unfold overlay. rewrite lookup_merge. by destruct (w !! k), (d !! k). Qed.

Lemma overlay_empty d : overlay ∅ d = d.
Proof. apply map_eq. intros k. by rewrite overlay_lookup, lookup_empty. Qed.

Lemma overlay_union w' w d : overlay (w' ∪ w) d = overlay w' (overlay w d).
Proof.
  apply map_eq. intros k. rewrite !overlay_lookup, lookup_union.
  by destruct (w' !! k), (w !! k).
Qed.

Lemma overlay_outside w d k : k ∉ dom w → overlay w d !! k = d !! k.
Proof. intros Hk. rewrite overlay_lookup. by apply not_elem_of_dom in Hk as ->. Qed.

Record Txn := {
  tx_now : Z;
  tx_writes : writes K V;
  tx_locks : gset K;
  tx_saved : list (writes K V * gset K);
}.

(** Transaction ids are never drawn twice. *)
Record Pg := { pg_rows : gmap K V; pg_open : gmap N Txn; pg_next : N }.

Definition with_txn (t : N) (x : Txn) (p : Pg) : Pg :=
  {| pg_rows := pg_rows p; pg_open := <[t := x]> (pg_open p); pg_next := pg_next p |}.

Definition drop_txn (t : N) (p : Pg) : Pg :=
  {| pg_rows := pg_rows p; pg_open := delete t (pg_open p); pg_next := pg_next p |}.

Definition commit_txn (t : N) (x : Txn) (p : Pg) : Pg :=
  {| pg_rows := overlay (tx_writes x) (pg_rows p); pg_open := delete t (pg_open p); pg_next := pg_next p |}.

Definition with_rows (w : writes K V) (p : Pg) : Pg :=
  {| pg_rows := overlay w (pg_rows p); pg_open := pg_open p; pg_next := pg_next p |}.

(** The keys locked by transactions other than [t]. *)
Definition locked (t : option N) (p : Pg) : gset K :=
  ⋃ (tx_locks <$> (map_to_list (filter (λ tx, Some tx.1 ≠ t) (pg_open p))).*2).

Definition performed {X} (e : Effect K V X) (x : Txn) : Txn :=
  {| tx_now := tx_now x; tx_writes := ef_writes e ∪ tx_writes x;
     tx_locks := ef_locks e ∪ dom (ef_writes e) ∪ tx_locks x; tx_saved := tx_saved x |}.

Definition free_of {X} (e : Effect K V X) (held : gset K) : Prop := (ef_locks e ∪ dom (ef_writes e)) ## held.

Context {Stmt : Type → Type} (run : ∀ X, Stmt X → Moment → gset K → gmap K V → Effect K V X).
Arguments run {X}.

(** One call at server time [now]. *)
Definition pg_step (now : Z) {B} (c : PgCall Stmt B) : Pg → B → Pg → Prop :=
  match c in PgCall _ B return Pg → B → Pg → Prop with
  | BeginC => λ p r p',
      (r = Ok (pg_next p) ∧ p' = {| pg_rows := pg_rows p;
         pg_open := <[pg_next p := {| tx_now := now; tx_writes := ∅; tx_locks := ∅; tx_saved := [] |}]> (pg_open p);
         pg_next := (pg_next p + 1)%N |})
      ∨ (r = Err DbFailed ∧ p' = p)
  | ExecC None q => λ p r p',
      (∃ id, let e := run q {| mo_now := now; mo_id := id |} (locked None p) (pg_rows p) in
         free_of e (locked None p) ∧ p' = with_rows (ef_writes e) p ∧ (r = ef_out e ∨ r = Err DbFailed))
      ∨ (r = Err DbFailed ∧ p' = p)
  | ExecC (Some t) q => λ p r p',
      (∃ x id, pg_open p !! t = Some x ∧
         let e := run q {| mo_now := tx_now x; mo_id := id |} (locked (Some t) p) (overlay (tx_writes x) (pg_rows p)) in
         free_of e (locked (Some t) p) ∧ p' = with_txn t (performed e x) p ∧ r = ef_out e)
      ∨ (r = Err DbFailed ∧ (p' = p ∨ p' = drop_txn t p))
  | SaveC t => λ p r p',
      (r = Ok tt ∧ ∃ x, pg_open p !! t = Some x ∧
         p' = with_txn t {| tx_now := tx_now x; tx_writes := tx_writes x; tx_locks := tx_locks x;
                            tx_saved := (tx_writes x, tx_locks x) :: tx_saved x |} p)
      ∨ (r = Err DbFailed ∧ (p' = p ∨ p' = drop_txn t p))
  | ReleaseC t => λ p r p',
      (r = Ok tt ∧ ∃ x, pg_open p !! t = Some x ∧
         p' = with_txn t {| tx_now := tx_now x; tx_writes := tx_writes x; tx_locks := tx_locks x;
                            tx_saved := tail (tx_saved x) |} p)
      ∨ (r = Err DbFailed ∧ (p' = p ∨ p' = drop_txn t p))
  | RestoreC t => λ p _ p',
      (∃ x w l saved, pg_open p !! t = Some x ∧ tx_saved x = (w, l) :: saved ∧
         p' = with_txn t {| tx_now := tx_now x; tx_writes := w; tx_locks := l; tx_saved := saved |} p)
      ∨ p' = p ∨ p' = drop_txn t p
  | CommitC t => λ p r p',
      (∃ x, pg_open p !! t = Some x ∧ p' = commit_txn t x p)
      ∨ (r = Err DbFailed ∧ (p' = p ∨ p' = drop_txn t p))
  | RollbackC t => λ p _ p', p' = drop_txn t p
  end.

(** ** What never changes *)

Fixpoint saved_ok (locks : gset K) (saved : list (writes K V * gset K)) : Prop :=
  match saved with
  | [] => True
  | (w, l) :: saved => dom w ⊆ l ∧ l ⊆ locks ∧ saved_ok l saved
  end.

Definition txn_ok (x : Txn) : Prop := dom (tx_writes x) ⊆ tx_locks x ∧ saved_ok (tx_locks x) (tx_saved x).

Definition pg_ok (p : Pg) : Prop :=
  (∀ t x, pg_open p !! t = Some x → txn_ok x ∧ (t < pg_next p)%N)
  ∧ ∀ t t' x x', t ≠ t' → pg_open p !! t = Some x → pg_open p !! t' = Some x' → tx_locks x ## tx_locks x'.

Lemma elem_of_locked t p k :
  k ∈ locked t p ↔ ∃ t' x, Some t' ≠ t ∧ pg_open p !! t' = Some x ∧ k ∈ tx_locks x.
Proof.
  unfold locked. rewrite elem_of_union_list. split.
  - intros (l & Hl & Hk). apply list_elem_of_fmap in Hl as (x & -> & Hx).
    apply list_elem_of_fmap in Hx as ([t' x'] & -> & Hx). apply elem_of_map_to_list, map_lookup_filter_Some in Hx as [? ?].
    by exists t', x'.
  - intros (t' & x & Hn & Hx & Hk). exists (tx_locks x). split; [|done].
    apply list_elem_of_fmap. exists x. split; [done|]. apply list_elem_of_fmap. exists (t', x). split; [done|].
    by apply elem_of_map_to_list, map_lookup_filter_Some.
Qed.

Lemma saved_ok_mono l l' saved : l ⊆ l' → saved_ok l saved → saved_ok l' saved.
Proof. destruct saved as [|[w l0] saved]; cbn; [done|]. intros Hl (? & ? & ?). split_and!; [done|set_solver|done]. Qed.

Lemma txn_ok_performed {X} (e : Effect K V X) x : txn_ok x → txn_ok (performed e x).
Proof.
  intros [Hd Hs]. split; cbn; [rewrite dom_union_L; set_solver|]. eapply saved_ok_mono; [|exact Hs]. set_solver.
Qed.

Lemma txn_ok_new now : txn_ok {| tx_now := now; tx_writes := ∅; tx_locks := ∅; tx_saved := [] |}.
Proof. split; cbn; [by rewrite dom_empty_L|done]. Qed.

Lemma drop_txn_ok t p : pg_ok p → pg_ok (drop_txn t p).
Proof.
  intros [Ho Ha]. split; cbn.
  - intros t' x [_ Hx]%lookup_delete_Some. by apply Ho.
  - intros t' t'' x x' Hn [_ Hx]%lookup_delete_Some [_ Hx']%lookup_delete_Some. by eapply Ha.
Qed.

Lemma with_txn_ok t x x' p :
  pg_ok p → pg_open p !! t = Some x → txn_ok x' → tx_locks x' ## locked (Some t) p → pg_ok (with_txn t x' p).
Proof.
  intros [Ho Ha] Hx Hok Hf. split; cbn.
  - intros t' y [[<- <-]|[_ Hy]]%lookup_insert_Some; [|by apply Ho]. split; [done|by eapply Ho].
  - assert (∀ t' y, t' ≠ t → pg_open p !! t' = Some y → tx_locks x' ## tx_locks y) as Hd.
    { intros t' y Hn Hy k Hk Hk'. apply (Hf k Hk). apply elem_of_locked. exists t', y. split; [congruence|done]. }
    intros t1 t2 y1 y2 Hn [[<- <-]|[Hn1 H1]]%lookup_insert_Some [[<- <-]|[Hn2 H2]]%lookup_insert_Some; [done| | |by apply (Ha t1 t2)].
    + by eapply Hd.
    + symmetry. by eapply Hd.
Qed.

Lemma own_locks_free t x p : pg_ok p → pg_open p !! t = Some x → tx_locks x ## locked (Some t) p.
Proof.
  intros [_ Ha] Hx k Hk Hl. apply elem_of_locked in Hl as (t' & y & Hn & Hy & Hk').
  apply (Ha t t' x y ltac:(congruence) Hx Hy k Hk Hk').
Qed.

Lemma pg_step_ok now {B} (c : PgCall Stmt B) p r p' : pg_ok p → pg_step now c p r p' → pg_ok p'.
Proof.
  intros Hok. pose proof Hok as [Ho Ha]. destruct c as [|X [t|] q|t|t|t|t|t]; cbn.
  - intros [[_ ->]|[_ ->]]; [|done]. split; cbn.
    + intros t x [[<- <-]|[_ Hx]]%lookup_insert_Some; [split; [apply txn_ok_new|lia]|].
      apply Ho in Hx as [? ?]. split; [done|lia].
    + intros t t' x x' Hn [[<- <-]|[_ Hx]]%lookup_insert_Some [[<- <-]|[_ Hx']]%lookup_insert_Some;
        cbn; [done|set_solver..|by eapply Ha].
  - intros [(x & id & Hx & Hf & -> & _)|[_ [->| ->]]]; [|done|by apply drop_txn_ok].
    eapply with_txn_ok; [done..|by apply txn_ok_performed, (Ho t)|].
    pose proof (own_locks_free t x p Hok Hx) as Hl. unfold free_of in Hf. cbn. set_solver.
  - intros [(id & Hf & -> & _)|[_ ->]]; [|done]. by split.
  - intros [(_ & x & Hx & ->)|[_ [->| ->]]]; [|done|by apply drop_txn_ok].
    eapply with_txn_ok; [done..| |by apply (own_locks_free t x)].
    destruct (Ho t x Hx) as [[Hd Hs] _]. by split_and!.
  - intros [(_ & x & Hx & ->)|[_ [->| ->]]]; [|done|by apply drop_txn_ok].
    eapply with_txn_ok; [done..| |by apply (own_locks_free t x)].
    destruct (Ho t x Hx) as [[Hd Hs] _]. split; cbn; [done|]. destruct (tx_saved x) as [|[w l] saved]; cbn; [done|].
    destruct Hs as (_ & Hl & Hs). by eapply saved_ok_mono.
  - intros [(x & w & l & saved & Hx & Hs & ->)|[->| ->]]; [|done|by apply drop_txn_ok].
    destruct (Ho t x Hx) as [[_ Hall] _]. rewrite Hs in Hall. destruct Hall as (Hw & Hl & Hall).
    eapply with_txn_ok; [done..| |].
    + by split.
    + pose proof (own_locks_free t x p Hok Hx). cbn. set_solver.
  - intros [(x & Hx & ->)|[_ [->| ->]]]; [|done|by apply drop_txn_ok]. by apply (drop_txn_ok t).
  - intros ->. by apply drop_txn_ok.
Qed.

(** The transaction a call belongs to. *)
Definition call_txn {B} (c : PgCall Stmt B) : option N :=
  match c with
  | BeginC => None
  | ExecC tx _ => tx
  | SaveC t | ReleaseC t | RestoreC t | CommitC t | RollbackC t => Some t
  end.

Lemma locked_by_other t x tx p k : pg_open p !! t = Some x → tx ≠ Some t → k ∈ tx_locks x → k ∈ locked tx p.
Proof. intros Hx Hn Hk. apply elem_of_locked. exists t, x. done. Qed.

(** A transaction is not touched by the calls of others, nor are the rows it locked. *)
Lemma pg_frame now {B} (c : PgCall Stmt B) p r p' t x :
  pg_ok p → pg_step now c p r p' → call_txn c ≠ Some t → pg_open p !! t = Some x →
  pg_open p' !! t = Some x ∧ ∀ k, k ∈ tx_locks x → pg_rows p' !! k = pg_rows p !! k.
Proof.
  intros Hok Hs Hn Hx. pose proof Hok as [Ho Ha].
  assert (∀ w, dom w ## locked (call_txn c) p → ∀ k, k ∈ tx_locks x → overlay w (pg_rows p) !! k = pg_rows p !! k) as Hw.
  { intros w Hd k Hk. apply overlay_outside. intros Hkw. apply (Hd k Hkw). by eapply locked_by_other. }
  destruct c as [|X [t'|] q|t'|t'|t'|t'|t']; cbn in Hs, Hn, Hw.
  - destruct Hs as [[_ ->]|[_ ->]]; [|done]. split; [|done]. cbn. apply Ho in Hx as Hlt. rewrite lookup_insert_ne; [done|lia].
  - destruct Hs as [(y & id & Hy & Hf & -> & _)|[_ [->| ->]]]; cbn; [|done|]; (split; [|done]).
    + rewrite lookup_insert_ne; [done|congruence].
    + rewrite lookup_delete_ne; [done|congruence].
  - destruct Hs as [(id & Hf & -> & _)|[_ ->]]; [|done]. split; [done|]. apply Hw. unfold free_of in Hf. set_solver.
  - destruct Hs as [(_ & y & Hy & ->)|[_ [->| ->]]]; cbn; [|done|]; (split; [|done]);
      [rewrite lookup_insert_ne|rewrite lookup_delete_ne]; done || congruence.
  - destruct Hs as [(_ & y & Hy & ->)|[_ [->| ->]]]; cbn; [|done|]; (split; [|done]);
      [rewrite lookup_insert_ne|rewrite lookup_delete_ne]; done || congruence.
  - destruct Hs as [(y & w & l & saved & Hy & _ & ->)|[->| ->]]; cbn; [|done|]; (split; [|done]);
      [rewrite lookup_insert_ne|rewrite lookup_delete_ne]; done || congruence.
  - destruct Hs as [(y & Hy & ->)|[_ [->| ->]]]; cbn; [|done|split; [|done]; rewrite lookup_delete_ne; done || congruence].
    split; [rewrite lookup_delete_ne; done || congruence|]. apply Hw. intros k Hk Hl.
    destruct (Ho t' y Hy) as [[Hd _] _]. apply (own_locks_free t' y p Hok Hy k); [by apply Hd|done].
  - subst p'. cbn. split; [|done]. rewrite lookup_delete_ne; done || congruence.
Qed.

(** The outcomes of a call, by its kind. *)
Ltac pg_cases c Hs :=
  destruct c as [|? [?|] ?|?|?|?|?|?]; cbn in Hs;
  [destruct Hs as [[-> ->]|[-> ->]]
  |destruct Hs as [(?y & ?id & ?Hy & ?Hf & -> & ?Hr)|[-> [->| ->]]]
  |destruct Hs as [(?id & ?Hf & -> & ?Hr)|[-> ->]]
  |destruct Hs as [(-> & ?y & ?Hy & ->)|[-> [->| ->]]]
  |destruct Hs as [(-> & ?y & ?Hy & ->)|[-> [->| ->]]]
  |destruct Hs as [(?y & ?w & ?l & ?saved & ?Hy & ?Hsv & ->)|[->| ->]]
  |destruct Hs as [(?y & ?Hy & ->)|[-> [->| ->]]]
  |subst].

(** No call of others opens a transaction that was open before. *)
Lemma pg_back now {B} (c : PgCall Stmt B) p r p' t x :
  pg_step now c p r p' → call_txn c ≠ Some t → (t < pg_next p)%N → pg_open p' !! t = Some x → pg_open p !! t = Some x.
Proof.
  intros Hs Hn Ht. pg_cases c Hs; cbn in Hn |- *; try done;
    intros Hx; (apply lookup_insert_Some in Hx || apply lookup_delete_Some in Hx); naive_solver lia.
Qed.

(** What the calls of transaction [t] make of it. *)
Definition own_step {B} (c : PgCall Stmt B) (t : N) (p : Pg) (x x' : Txn) : Prop :=
  match c with
  | ExecC _ q => ∃ id, let e := run q {| mo_now := tx_now x; mo_id := id |} (locked (Some t) p)
                                  (overlay (tx_writes x) (pg_rows p)) in
      free_of e (locked (Some t) p) ∧ x' = performed e x
  | SaveC _ => tx_writes x' = tx_writes x ∧ tx_locks x' = tx_locks x ∧ tx_saved x' = (tx_writes x, tx_locks x) :: tx_saved x
  | ReleaseC _ => tx_writes x' = tx_writes x ∧ tx_locks x' = tx_locks x ∧ tx_saved x' = tail (tx_saved x)
  | RestoreC _ => tx_saved x = (tx_writes x', tx_locks x') :: tx_saved x'
  | _ => False
  end.

Lemma pg_own now {B} (c : PgCall Stmt B) p r p' t x' :
  pg_step now c p r p' → call_txn c = Some t → pg_open p' !! t = Some x' →
  pg_rows p' = pg_rows p ∧ ∃ x, pg_open p !! t = Some x ∧ (x' = x ∨ own_step c t p x x').
Proof.
  intros Hs Hc. pg_cases c Hs; cbn in Hc |- *; try done; injection Hc as ->; rewrite ?lookup_insert_eq, ?lookup_delete_eq;
    try done; eauto; intros [= <-]; (split; [done|]); eexists; (split; [done|]); right; cbn; eauto.
Qed.

(** A transaction nobody had is new. *)
Lemma pg_new now {B} (c : PgCall Stmt B) p r p' t x :
  pg_step now c p r p' → pg_open p !! t = None → pg_open p' !! t = Some x →
  x = {| tx_now := now; tx_writes := ∅; tx_locks := ∅; tx_saved := [] |} ∧ pg_rows p' = pg_rows p.
Proof.
  intros Hs Hn Hx. pg_cases c Hs; cbn in Hx |- *; try congruence;
    first [apply lookup_insert_Some in Hx as [[<- <-]|[_ Hx]]|apply lookup_delete_Some in Hx as [_ Hx]]; congruence || done.
Qed.

(** What a call makes visible to all. *)
Definition commits (now : Z) {B} (c : PgCall Stmt B) (p : Pg) (rows : gmap K V) : Prop :=
  match c with
  | CommitC t => ∃ x, pg_open p !! t = Some x ∧ rows = overlay (tx_writes x) (pg_rows p)
  | ExecC None q => ∃ id, let e := run q {| mo_now := now; mo_id := id |} (locked None p) (pg_rows p) in
      free_of e (locked None p) ∧ rows = overlay (ef_writes e) (pg_rows p)
  | _ => False
  end.

Lemma pg_step_rows now {B} (c : PgCall Stmt B) p r p' :
  pg_step now c p r p' → pg_rows p' = pg_rows p ∨ commits now c p (pg_rows p').
Proof.
  intros Hs. pg_cases c Hs; cbn; eauto.
Qed.

(** *** What all open transactions have in common

    [J t w d]: the writes [w] of transaction [t] are in order on the committed rows
    [d]; it looks at those rows only where [w] writes. *)
Section justified.
Variable J : N → writes K V → gmap K V → Prop.

Definition local_to_writes : Prop := ∀ t w d d',
  (∀ k, k ∈ dom w → d !! k = d' !! k) → J t w d → J t w d'.

Hypothesis J_local : local_to_writes.
Hypothesis J_empty : ∀ t d, J t ∅ d.

Definition txn_justified (t : N) (x : Txn) (d : gmap K V) : Prop :=
  J t (tx_writes x) d ∧ Forall (λ s, J t s.1 d) (tx_saved x).

Definition all_justified (p : Pg) : Prop := ∀ t x, pg_open p !! t = Some x → txn_justified t x (pg_rows p).

Lemma saved_local t l saved d d' : saved_ok l saved → (∀ k, k ∈ l → d !! k = d' !! k) →
  Forall (λ s, J t s.1 d) saved → Forall (λ s, J t s.1 d') saved.
Proof.
  revert l. induction saved as [|[w l'] saved IH]; intros l; cbn; [constructor|].
  intros (Hw & Hl & Hs) Hd [Hj Hall]%Forall_cons. constructor; cbn.
  - eapply J_local; [|exact Hj]. auto.
  - apply (IH l'); auto.
Qed.

Lemma txn_local t x d d' : txn_ok x → (∀ k, k ∈ tx_locks x → d !! k = d' !! k) → txn_justified t x d → txn_justified t x d'.
Proof.
  intros [Hw Hs] Hd [Hj Hall]. split; [eapply J_local; [|exact Hj]; auto|by eapply saved_local].
Qed.

(** The statement of a transaction keeps its writes in order. *)
Definition exec_keeps {B} (c : PgCall Stmt B) (p : Pg) : Prop :=
  match c with
  | ExecC (Some t) q => ∀ x id, pg_open p !! t = Some x → J t (tx_writes x) (pg_rows p) →
      let e := run q {| mo_now := tx_now x; mo_id := id |} (locked (Some t) p) (overlay (tx_writes x) (pg_rows p)) in
      J t (ef_writes e ∪ tx_writes x) (pg_rows p)
  | _ => True
  end.

Lemma pg_justified now {B} (c : PgCall Stmt B) p r p' :
  pg_ok p → all_justified p → exec_keeps c p → pg_step now c p r p' → all_justified p'.
Proof.
  intros Hok Hj He Hs t x' Hx.
  destruct (decide (call_txn c = Some t)) as [Hc|Hc].
  - destruct (pg_own _ _ _ _ _ _ _ Hs Hc Hx) as (-> & x & Hx0 & [->|Ho]); [by apply Hj|].
    destruct (Hj t x Hx0) as [Hw Hall]. clear Hs Hx.
    destruct c as [|X tx q|t'|t'|t'|t'|t']; cbn in Hc, Ho; try done; simplify_eq.
    + destruct Ho as (id & _ & ->). split; [|done]. cbn in He |- *. by apply He.
    + destruct Ho as (E1 & E2 & E3). unfold txn_justified. rewrite E1, E3. split; [done|by constructor].
    + destruct Ho as (E1 & E2 & E3). unfold txn_justified. rewrite E1, E3. split; [done|]. by destruct Hall.
    + rewrite Ho in Hall. by apply Forall_cons in Hall as [? ?].
  - destruct (pg_open p !! t) as [x|] eqn:Hx0.
    + destruct (pg_frame _ _ _ _ _ _ _ Hok Hs Hc Hx0) as [Hx1 Hk]. rewrite Hx in Hx1. injection Hx1 as ->.
      eapply txn_local; [by apply (proj1 Hok t)| |by apply Hj]. intros k Hkl. by rewrite Hk.
    + destruct (pg_new _ _ _ _ _ _ _ Hs Hx0 Hx) as [-> _]. split; [apply J_empty|constructor].
Qed.

(** A lost connection ends its transaction. *)
Lemma drop_justified t p : all_justified p → all_justified (drop_txn t p).
Proof. intros Hj t' x Hx. cbn in Hx. apply lookup_delete_Some in Hx as [_ Hx]. by apply Hj. Qed.
End justified.
End pg.
