(* ===== verification/AccountStore.v ===== *)
(** * The tables of accounts

    The rows and statements behind accounts: [services/api/internal/repository/user.go],
    [password_reset_token.go], [email_verification_token.go], [email_outbox.go],
    [user_consents.go], and the statements [account_deletion.go] sends itself, over the
    schema of [migrations/postgres].  All tables live in one map, a row under the key of
    its table; [run] is what each statement does to the rows it sees, constraints,
    cascades and the sole-owner trigger included.  Telemetry, feedback and audit
    columns that only lose a reference to an erased user are not represented. *)

From S2P Require Import Prelude Json GoTime Types Users Prog Pg.

(** A link sent by mail, to reset a password or to verify an address. *)
Inductive LinkKind := ResetLink | VerifyLink.

#[export] Instance LinkKind_eq_dec : EqDecision LinkKind.
Proof. solve_decision. Defined.

(** Keys of rows; [KEmail] is an entry of the unique index on addresses, which holds
    no row but is locked by whoever writes it. *)
Inductive Key :=
| KUser (id : uuid)
| KLink (k : LinkKind) (hash : string)
| KMail (id : uuid)
| KConsent (user : uuid) (purpose : string)
| KInvite (id : uuid)
| KMember (business user : uuid)
| KBusiness (id : uuid)
| KTemplate (id : uuid)
| KAudit (id : uuid)
| KEmail (email : string).

#[export] Instance Key_eq_dec : EqDecision Key.
Proof. solve_decision. Defined.

Definition key_code (k : Key) : nat * (N * N) * string :=
  match k with
  | KUser id => (0, (id, 0%N), "")
  | KLink ResetLink h => (1, (0%N, 0%N), h)
  | KLink VerifyLink h => (2, (0%N, 0%N), h)
  | KMail id => (3, (id, 0%N), "")
  | KConsent u p => (4, (u, 0%N), p)
  | KInvite id => (5, (id, 0%N), "")
  | KMember b u => (6, (b, u), "")
  | KBusiness id => (7, (id, 0%N), "")
  | KTemplate id => (8, (id, 0%N), "")
  | KAudit id => (9, (id, 0%N), "")
  | KEmail e => (10, (0%N, 0%N), e)
  end.

Definition key_decode (c : nat * (N * N) * string) : option Key :=
  match c with
  | (0, (id, _), _) => Some (KUser id)
  | (1, _, h) => Some (KLink ResetLink h)
  | (2, _, h) => Some (KLink VerifyLink h)
  | (3, (id, _), _) => Some (KMail id)
  | (4, (u, _), p) => Some (KConsent u p)
  | (5, (id, _), _) => Some (KInvite id)
  | (6, (b, u), _) => Some (KMember b u)
  | (7, (id, _), _) => Some (KBusiness id)
  | (8, (id, _), _) => Some (KTemplate id)
  | (9, (id, _), _) => Some (KAudit id)
  | (10, _, e) => Some (KEmail e)
  | _ => None
  end.

#[export] Instance Key_countable : Countable Key.
Proof. apply (inj_countable key_code key_decode). by intros [|[]| | | | | | | |]. Defined.

Record Link := { li_user : uuid; li_email : string; li_expires : Z; li_consumed : option Z }.

(** A row of [email_outbox]; the subject and the bodies as they are sent. *)
Record Mail := {
  ml_to : string;
  ml_subject : string;
  ml_body_text : string;
  ml_body_html : option string;
  ml_business : option uuid;
  ml_status : string;
  ml_attempts : Z;
  ml_last_error : option string;
  ml_next_attempt_at : Z;
  ml_sent_at : option Z;
  ml_created_at : Z;
}.

(** [repository.Consent]. *)
Record Consent := {
  co_user : uuid;
  co_purpose : string;
  co_version : string;
  co_sha256 : string;
  co_accepted_at : Z;
  co_withdrawn_at : option Z;
  co_ip : string;
  co_user_agent : string;
}.

Record Invitation := { iv_created_by : uuid; iv_revoked_at : option Z; iv_accepted_at : option Z }.

(** A row of [audit_logs] written in a transaction. *)
Record AuditRow := { ar_user : option uuid; ar_email : string; ar_action : string; ar_details : list (string * gval) }.

Inductive Row :=
| RUser (u : User)
| RLink (l : Link)
| RMail (m : Mail)
| RConsent (c : Consent)
| RInvite (i : Invitation)
| RMember (role : uuid)
| RBusiness (name : string)
| RTemplate (created_by : uuid)
| RAudit (a : AuditRow).

Notation rows := (gmap Key Row).
Notation edits := (writes Key Row).

(** [repository.OutboxEnqueueInput]. *)
Record OutboxEnqueueInput := {
  ob_to : string;
  ob_subject : string;
  ob_text : string;
  ob_html : string;
  ob_business : option uuid;
}.

(** [repository.UpsertConsentInput]. *)
Record UpsertConsentInput := {
  uc_user : uuid;
  uc_purpose : string;
  uc_version : string;
  uc_sha256 : string;
  uc_ip : string;
  uc_user_agent : string;
}.

Inductive Stmt : Type → Type :=
| InsertUser (u : User) : Stmt unit
| SelectUser (deleted_too : bool) (id : uuid) : Stmt (option User)
| SelectUserByEmail (deleted_too : bool) (email : string) : Stmt (option User)
| UpdateUser (id : uuid) (email hash : string) (at_ : Z) : Stmt nat
| SetPasswordHash (id : uuid) (hash : string) (at_ : Z) : Stmt nat
| SetEmail (id : uuid) (email : string) (at_ : Z) : Stmt nat
| SetVerified (id : uuid) : Stmt nat
| SetLocale (id : uuid) (locale : string) (at_ : Z) : Stmt nat
| SetName (id : uuid) (name : string) (at_ : Z) : Stmt nat
| MarkDeletion (id : uuid) : Stmt nat
| UnmarkDeletion (id : uuid) (days : Z) : Stmt bool
| SelectDeletion (id : uuid) : Stmt (option (option Z * option Z))
| SelectPending (before : Z) (limit : nat) : Stmt (list uuid)
| SelectUpcoming (from to : Z) (limit : nat) : Stmt (list User)
| SelectSoleOwned (id : uuid) : Stmt (list (uuid * string))
| DeleteUser (id : uuid) : Stmt nat
| InsertLink (k : LinkKind) (user : uuid) (email hash : string) (expires : Z) : Stmt unit
| ConsumeLink (k : LinkKind) (hash : string) : Stmt (option (uuid * string))
| InvalidateLinks (k : LinkKind) (user : uuid) : Stmt unit
| SelectExpired (hash : string) : Stmt bool
| InsertMail (input : OutboxEnqueueInput) (next_at : option Z) : Stmt uuid
| SelectMailExists (to subject : string) : Stmt bool
| CancelMail (to subject : string) (business : option uuid) : Stmt unit
| InsertConsent (user : uuid) (purpose version : string) : Stmt unit
| UpsertConsent (input : UpsertConsentInput) : Stmt unit
| WithdrawConsent (user : uuid) (purpose : string) : Stmt unit
| SelectConsents (user : uuid) : Stmt (list Consent)
| RevokeInvitations (user : uuid) : Stmt unit
| InsertAudit (a : AuditRow) : Stmt unit.

(** ** What the statements do *)

Definition ownerRoleID : uuid := 1%N.

Definition statusPending : string := "pending".
Definition statusCanceled : string := "canceled".

Section statements.
(** [lower(btrim(email))], the expression the unique index is on. *)
Variable sql_canonical : string → string.

Definition user_at (id : uuid) (d : rows) : option User :=
  match d !! KUser id with Some (RUser u) => Some u | _ => None end.

Definition link_at (k : LinkKind) (hash : string) (d : rows) : option Link :=
  match d !! KLink k hash with Some (RLink l) => Some l | _ => None end.

Definition values (d : rows) : list Row := (map_to_list d).*2.

Definition users (d : rows) : list User :=
  omap (λ kr, match kr with (KUser _, RUser u) => Some u | _ => None end) (map_to_list d).
Definition mails (d : rows) : list Mail := omap (λ r, match r with RMail m => Some m | _ => None end) (values d).

Definition visible (deleted_too : bool) (u : User) : bool := deleted_too || negb (bool_decide (is_Some (us_deleted_at u))).

Definition set_user (u : User) (email hash locale name : string) (verified : bool) (verified_at deleted_at requested canceled : option Z)
    (updated : Z) : User :=
  {| us_id := us_id u; us_email := email; us_name := name; us_password_hash := hash; us_preferred_locale := locale;
     us_email_verified := verified; us_email_verified_at := verified_at; us_deleted_at := deleted_at;
     us_deletion_requested_at := requested; us_deletion_canceled_at := canceled; us_created_at := us_created_at u;
     us_updated_at := updated |}.

Definition with_password (u : User) (email hash : string) (at_ : Z) : User :=
  set_user u email hash (us_preferred_locale u) (us_name u) (us_email_verified u) (us_email_verified_at u)
    (us_deleted_at u) (us_deletion_requested_at u) (us_deletion_canceled_at u) at_.

Definition with_verified (u : User) (at_ : Z) : User :=
  set_user u (us_email u) (us_password_hash u) (us_preferred_locale u) (us_name u) true (Some at_)
    (us_deleted_at u) (us_deletion_requested_at u) (us_deletion_canceled_at u) at_.

Definition with_profile (u : User) (locale name : string) (at_ : Z) : User :=
  set_user u (us_email u) (us_password_hash u) locale name (us_email_verified u) (us_email_verified_at u)
    (us_deleted_at u) (us_deletion_requested_at u) (us_deletion_canceled_at u) at_.

Definition with_deletion (u : User) (deleted requested canceled : option Z) (at_ : Z) : User :=
  set_user u (us_email u) (us_password_hash u) (us_preferred_locale u) (us_name u) (us_email_verified u)
    (us_email_verified_at u) deleted requested canceled at_.

(** Another account has the address. *)
Definition email_taken (id : uuid) (email : string) (d : rows) : bool :=
  existsb (λ u, negb (bool_decide (us_id u = id)) && String.eqb (sql_canonical (us_email u)) (sql_canonical email)) (users d).

(** [UPDATE users SET ... WHERE id = $1 AND p]. *)
Definition update_user (id : uuid) (p : User → bool) (f : User → User) (d : rows) : Effect Key Row nat :=
  match user_at id d with
  | Some u => if p u then makes 1 {[KUser id := Some (RUser (f u))]} else makes 0 ∅
  | None => makes 0 ∅
  end.

(** The same when it may change the address. *)
Definition update_address (id : uuid) (email : string) (f : User → User) (d : rows) : Effect Key Row nat :=
  match user_at id d with
  | Some u =>
      let locks := {[KEmail (sql_canonical email)]} in
      if email_taken id email d then Build_Effect (Err DbUnique) ∅ locks
      else Build_Effect (Ok 1) {[KUser id := Some (RUser (f u))]} locks
  | None => makes 0 ∅
  end.

(** A deletion was asked for and not called off. *)
Definition pending (u : User) : bool :=
  bool_decide (is_Some (us_deletion_requested_at u)) && negb (bool_decide (is_Some (us_deletion_canceled_at u))).

Definition requested_before (u u' : User) : bool :=
  match us_deletion_requested_at u, us_deletion_requested_at u' with
  | Some r, Some r' => (r <? r')%Z
  | _, _ => false
  end.

Definition Day : Z := 24 * Hour.

(** [fn_refuse_sole_owner_delete]: no member but this one owns some business. *)
Definition sole_owner (id : uuid) (d : rows) : bool :=
  existsb (λ kr, match kr with
                 | (KMember b u, RMember role) =>
                     bool_decide (u = id) && bool_decide (role = ownerRoleID)
                     && (length (filterb (λ kr', match kr' with
                                                 | (KMember b' _, RMember role') => bool_decide (b' = b) && bool_decide (role' = ownerRoleID)
                                                 | _ => false
                                                 end) (map_to_list d)) =? 1)
                 | _ => false
                 end) (map_to_list d).

Definition restricted (id : uuid) (d : rows) : bool :=
  existsb (λ r, match r with RTemplate c => bool_decide (c = id) | _ => false end) (values d).

(** What goes, and what loses its reference, with user [id]. *)
Definition cascade (id : uuid) (k : Key) (r : Row) : option (option Row) :=
  match k, r with
  | KUser u, _ => if bool_decide (u = id) then Some None else None
  | KLink _ _, RLink l => if bool_decide (li_user l = id) then Some None else None
  | KConsent u _, _ => if bool_decide (u = id) then Some None else None
  | KMember _ u, _ => if bool_decide (u = id) then Some None else None
  | KInvite _, RInvite i => if bool_decide (iv_created_by i = id) then Some None else None
  | KAudit _, RAudit a =>
      if bool_decide (ar_user a = Some id)
      then Some (Some (RAudit {| ar_user := None; ar_email := ar_email a; ar_action := ar_action a; ar_details := ar_details a |}))
      else None
  | _, _ => None
  end.

(** Owners of a business that are not themselves waiting to be deleted. *)
Definition effective_owners (b : uuid) (d : rows) : nat :=
  length (filterb (λ kr, match kr with
                         | (KMember b' u, RMember role) =>
                             bool_decide (b' = b) && bool_decide (role = ownerRoleID)
                             && match user_at u d with Some usr => negb (pending usr) | None => false end
                         | _ => false
                         end) (map_to_list d)).

Definition sole_owned (id : uuid) (d : rows) : list (uuid * string) :=
  omap (λ kr, match kr with
              | (KMember b u, RMember role) =>
                  match d !! KBusiness b with
                  | Some (RBusiness name) =>
                      if bool_decide (u = id) && bool_decide (role = ownerRoleID) && (effective_owners b d =? 1)
                      then Some (b, name) else None
                  | _ => None
                  end
              | _ => None
              end) (map_to_list d).

Definition live_link (now : Z) (l : Link) (u : User) : bool :=
  negb (bool_decide (is_Some (li_consumed l))) && (now <? li_expires l)%Z && String.eqb (li_email l) (us_email u).

Definition consume (now : Z) (l : Link) : Link :=
  {| li_user := li_user l; li_email := li_email l; li_expires := li_expires l; li_consumed := Some now |}.

Definition new_mail (now : Z) (i : OutboxEnqueueInput) (next_at : option Z) : Mail :=
  {| ml_to := ob_to i; ml_subject := ob_subject i; ml_body_text := ob_text i; ml_body_html := Some (ob_html i);
     ml_business := ob_business i; ml_status := statusPending; ml_attempts := 0; ml_last_error := None;
     ml_next_attempt_at := default now next_at; ml_sent_at := None; ml_created_at := now |}.

(** A mail that ended with its bodies removed. *)
Definition scrubbed (status err : string) (m : Mail) : Mail :=
  {| ml_to := ml_to m; ml_subject := ml_subject m; ml_body_text := ""; ml_body_html := None; ml_business := ml_business m;
     ml_status := status; ml_attempts := ml_attempts m; ml_last_error := Some err; ml_next_attempt_at := ml_next_attempt_at m;
     ml_sent_at := ml_sent_at m; ml_created_at := ml_created_at m |}.

(** *** The statements that are more than a read or an update of one user *)

Notation effect X := (Effect Key Row X).

Definition insert_user (u : User) (d : rows) : effect unit :=
  let locks := {[KEmail (sql_canonical (us_email u)); KUser (us_id u)]} in
  if bool_decide (is_Some (d !! KUser (us_id u))) || email_taken (us_id u) (us_email u) d
  then Build_Effect (Err DbUnique) ∅ locks
  else Build_Effect (Ok tt) {[KUser (us_id u) := Some (RUser u)]} locks.

Definition select_user (deleted_too : bool) (id : uuid) (d : rows) : effect (option User) :=
  reads (Ok (match user_at id d with Some u => if visible deleted_too u then Some u else None | None => None end)).

Definition select_by_email (deleted_too : bool) (email : string) (d : rows) : effect (option User) :=
  reads (Ok (head (filterb (λ u, String.eqb (sql_canonical (us_email u)) email && visible deleted_too u) (users d)))).

Definition mark_deletion (id : uuid) (now : Z) (d : rows) : effect nat :=
  update_user id (λ u, negb (pending u)) (λ u, with_deletion u (Some now) (Some now) None now) d.

(** Within [days] of the request. *)
Definition may_cancel (now days : Z) (u : User) : bool :=
  pending u && match us_deletion_requested_at u with Some r => (now - days * Day <? r)%Z | None => false end.

Definition unmark_deletion (id : uuid) (days now : Z) (d : rows) : effect bool :=
  let e := update_user id (may_cancel now days) (λ u, with_deletion u None (us_deletion_requested_at u) (Some now) now) d in
  Build_Effect (match ef_out e with Ok n => Ok (negb (n =? 0)) | Err x => Err x end) (ef_writes e) (ef_locks e).

Definition select_deletion (id : uuid) (d : rows) : effect (option (option Z * option Z)) :=
  reads (Ok (match user_at id d with Some u => Some (us_deletion_requested_at u, us_deletion_canceled_at u) | None => None end)).

(** [FOR UPDATE SKIP LOCKED], oldest first. *)
Definition select_pending (before : Z) (limit : nat) (held : gset Key) (d : rows) : effect (list uuid) :=
  let l := take limit (stable_sort requested_before (filterb (λ u,
             pending u && match us_deletion_requested_at u with Some r => (r <? before)%Z | None => false end
             && negb (bool_decide (KUser (us_id u) ∈ held))) (users d))) in
  Build_Effect (Ok (us_id <$> l)) ∅ (list_to_set ((λ u, KUser (us_id u)) <$> l)).

Definition select_upcoming (from to : Z) (limit : nat) (d : rows) : effect (list User) :=
  reads (Ok (take limit (stable_sort requested_before (filterb (λ u,
    pending u && match us_deletion_requested_at u with Some r => (from <? r)%Z && (r <=? to)%Z | None => false end) (users d))))).

Definition delete_user (id : uuid) (d : rows) : effect nat :=
  match user_at id d with
  | None => makes 0 ∅
  | Some _ => if sole_owner id d || restricted id d then reads (Err DbRaised) else makes 1 (map_imap (cascade id) d)
  end.

Definition insert_link (k : LinkKind) (user : uuid) (email hash : string) (expires : Z) (d : rows) : effect unit :=
  match user_at user d with
  | None => reads (Err DbRaised)
  | Some _ =>
      if bool_decide (is_Some (d !! KLink k hash)) then reads (Err DbUnique)
      else makes tt {[KLink k hash := Some (RLink {| li_user := user; li_email := email; li_expires := expires; li_consumed := None |})]}
  end.

Definition consume_link (k : LinkKind) (hash : string) (now : Z) (d : rows) : effect (option (uuid * string)) :=
  match link_at k hash d with
  | None => reads (Ok None)
  | Some l =>
      match user_at (li_user l) d with
      | None => reads (Ok None)
      | Some u =>
          let locks := {[KUser (li_user l)]} in
          if live_link now l u
          then Build_Effect (Ok (Some (li_user l, li_email l))) {[KLink k hash := Some (RLink (consume now l))]} locks
          else Build_Effect (Ok None) ∅ locks
      end
  end.

Definition invalidate_links (k : LinkKind) (user : uuid) (now : Z) (d : rows) : effect unit :=
  makes tt (map_imap (λ key r, match key, r with
                               | KLink k' _, RLink l =>
                                   if bool_decide (k' = k) && bool_decide (li_user l = user) && negb (bool_decide (is_Some (li_consumed l)))
                                   then Some (Some (RLink (consume now l))) else None
                               | _, _ => None
                               end) d).

Definition lookup_expired (hash : string) (now : Z) (d : rows) : effect bool :=
  reads (Ok (match link_at VerifyLink hash d with
             | Some l => negb (bool_decide (is_Some (li_consumed l))) && (li_expires l <=? now)%Z
             | None => false
             end)).

Definition insert_mail (input : OutboxEnqueueInput) (next_at : option Z) (m : Moment) (d : rows) : effect uuid :=
  if bool_decide (is_Some (d !! KMail (mo_id m))) then reads (Err DbUnique)
  else makes (mo_id m) {[KMail (mo_id m) := Some (RMail (new_mail (mo_now m) input next_at))]}.

Definition mail_exists (to subject : string) (d : rows) : effect bool :=
  reads (Ok (existsb (λ m, String.eqb (ml_to m) to && String.eqb (ml_subject m) subject) (mails d))).

Definition cancel_mail (to subject : string) (business : option uuid) (d : rows) : effect unit :=
  makes tt (map_imap (λ key r, match key, r with
                               | KMail _, RMail m =>
                                   if String.eqb (ml_to m) to && String.eqb (ml_subject m) subject
                                      && match business with None => true | Some b => bool_decide (ml_business m = Some b) end
                                      && String.eqb (ml_status m) statusPending
                                   then Some (Some (RMail (scrubbed statusCanceled "canceled: deletion restored" m))) else None
                               | _, _ => None
                               end) d).

Definition insert_consent (user : uuid) (purpose version : string) (now : Z) (d : rows) : effect unit :=
  match user_at user d with
  | None => reads (Err DbRaised)
  | Some _ =>
      if bool_decide (is_Some (d !! KConsent user purpose)) then reads (Err DbUnique)
      else makes tt {[KConsent user purpose := Some (RConsent {| co_user := user; co_purpose := purpose; co_version := version;
             co_sha256 := ""; co_accepted_at := now; co_withdrawn_at := None; co_ip := ""; co_user_agent := "" |})]}
  end.

Definition upsert_consent (i : UpsertConsentInput) (now : Z) (d : rows) : effect unit :=
  match user_at (uc_user i) d with
  | None => reads (Err DbRaised)
  | Some _ =>
      makes tt {[KConsent (uc_user i) (uc_purpose i) := Some (RConsent {| co_user := uc_user i; co_purpose := uc_purpose i;
        co_version := uc_version i; co_sha256 := uc_sha256 i; co_accepted_at := now; co_withdrawn_at := None;
        co_ip := uc_ip i; co_user_agent := uc_user_agent i |})]}
  end.

Definition withdraw_consent (user : uuid) (purpose : string) (now : Z) (d : rows) : effect unit :=
  makes tt (match d !! KConsent user purpose with
            | Some (RConsent c) =>
                if bool_decide (is_Some (co_withdrawn_at c)) then ∅
                else {[KConsent user purpose := Some (RConsent {| co_user := co_user c; co_purpose := co_purpose c;
                       co_version := co_version c; co_sha256 := co_sha256 c; co_accepted_at := co_accepted_at c;
                       co_withdrawn_at := Some now; co_ip := co_ip c; co_user_agent := co_user_agent c |})]}
            | _ => ∅
            end).

Definition select_consents (user : uuid) (d : rows) : effect (list Consent) :=
  reads (Ok (stable_sort (λ c c', String.ltb (co_purpose c) (co_purpose c'))
    (filterb (λ c, bool_decide (co_user c = user)) (omap (λ r, match r with RConsent c => Some c | _ => None end) (values d))))).

Definition revoke_invitations (user : uuid) (now : Z) (d : rows) : effect unit :=
  makes tt (map_imap (λ key r, match key, r with
                               | KInvite _, RInvite i =>
                                   if bool_decide (iv_created_by i = user) && negb (bool_decide (is_Some (iv_revoked_at i)))
                                      && negb (bool_decide (is_Some (iv_accepted_at i)))
                                   then Some (Some (RInvite {| iv_created_by := iv_created_by i; iv_revoked_at := Some now;
                                                               iv_accepted_at := iv_accepted_at i |})) else None
                               | _, _ => None
                               end) d).

Definition insert_audit (a : AuditRow) (id : uuid) (d : rows) : effect unit :=
  if bool_decide (is_Some (d !! KAudit id)) then reads (Err DbUnique) else makes tt {[KAudit id := Some (RAudit a)]}.

Definition run (X : Type) (q : Stmt X) (m : Moment) (held : gset Key) (d : rows) : effect X :=
  let now := mo_now m in
  match q in Stmt X return effect X with
  | InsertUser u => insert_user u d
  | SelectUser deleted_too id => select_user deleted_too id d
  | SelectUserByEmail deleted_too email => select_by_email deleted_too email d
  | UpdateUser id email hash at_ => update_address id email (λ u, with_password u email hash at_) d
  | SetPasswordHash id hash at_ => update_user id (λ _, true) (λ u, with_password u (us_email u) hash at_) d
  | SetEmail id email at_ => update_address id email (λ u, with_password u email (us_password_hash u) at_) d
  | SetVerified id => update_user id (λ _, true) (λ u, with_verified u now) d
  | SetLocale id locale at_ => update_user id (λ _, true) (λ u, with_profile u locale (us_name u) at_) d
  | SetName id name at_ => update_user id (λ _, true) (λ u, with_profile u (us_preferred_locale u) name at_) d
  | MarkDeletion id => mark_deletion id now d
  | UnmarkDeletion id days => unmark_deletion id days now d
  | SelectDeletion id => select_deletion id d
  | SelectPending before limit => select_pending before limit held d
  | SelectUpcoming from to limit => select_upcoming from to limit d
  | SelectSoleOwned id => reads (Ok (sole_owned id d))
  | DeleteUser id => delete_user id d
  | InsertLink k user email hash expires => insert_link k user email hash expires d
  | ConsumeLink k hash => consume_link k hash now d
  | InvalidateLinks k user => invalidate_links k user now d
  | SelectExpired hash => lookup_expired hash now d
  | InsertMail input next_at => insert_mail input next_at m d
  | SelectMailExists to subject => mail_exists to subject d
  | CancelMail to subject business => cancel_mail to subject business d
  | InsertConsent user purpose version => insert_consent user purpose version now d
  | UpsertConsent i => upsert_consent i now d
  | WithdrawConsent user purpose => withdraw_consent user purpose now d
  | SelectConsents user => select_consents user d
  | RevokeInvitations user => revoke_invitations user now d
  | InsertAudit a => insert_audit a (mo_id m) d
  end.

End statements.

(** The statements unfold as [run] does. *)
Arguments insert_user _ _ _ /.
Arguments select_user _ _ _ /.
Arguments select_by_email _ _ _ _ /.
Arguments mark_deletion _ _ _ /.
Arguments unmark_deletion _ _ _ _ /.
Arguments select_deletion _ _ /.
Arguments select_pending _ _ _ _ /.
Arguments select_upcoming _ _ _ _ /.
Arguments delete_user _ _ /.
Arguments insert_link _ _ _ _ _ _ /.
Arguments consume_link _ _ _ _ /.
Arguments invalidate_links _ _ _ _ /.
Arguments lookup_expired _ _ _ /.
Arguments insert_mail _ _ _ _ /.
Arguments mail_exists _ _ _ /.
Arguments cancel_mail _ _ _ _ /.
Arguments insert_consent _ _ _ _ _ /.
Arguments upsert_consent _ _ _ /.
Arguments withdraw_consent _ _ _ _ /.
Arguments select_consents _ _ /.
Arguments revoke_invitations _ _ _ /.
Arguments insert_audit _ _ _ /.
