(* ===== verification/AccountService.v ===== *)
(** * Accounts and sessions

    [services/api/internal/service/user.go], [password_reset.go],
    [email_verification.go], [account_deletion.go], [consent.go], [token.go], the
    claims of [services/api/internal/auth] and the repository methods they call, as
    programs over statements of [AccountStore.v], commands of Redis, the clock, the
    random source and bcrypt.  JWT signatures, zxcvbn, bcrypt's comparison, SHA-256 and
    the texts of mails are parameters. *)

From S2P Require Import Prelude Json GoTime Types Users A2A Prog Pg AccountStore Redis RateLimit.
Local Open Scope go_scope.

(** ** Claims *)

Definition TokenIssuer : string := "onevoice-api".
Definition TokenAudience : string := "onevoice".
Definition TokenSubjectAccess : string := "access".
Definition TokenSubjectRefresh : string := "refresh".

(** The claims of both kinds of token; an access token has no [cl_token_id]. *)
Record Claims := {
  cl_user_id : uuid;
  cl_email : string;
  cl_token_id : uuid;
  cl_subject : string;
  cl_issuer : string;
  cl_audience : list string;
  cl_expires_at : option Z;
  cl_issued_at : option Z;
}.

(** [github.com/golang-jwt/jwt]: what a signed text says. *)
Class Jwt := {
  jwt_sign : string → Claims → string;
  jwt_verify : string → string → option Claims;
  jwt_verify_sign : ∀ secret c, jwt_verify secret (jwt_sign secret c) = Some c;
}.

(** [jwt.NewNumericDate]. *)
Definition numeric_date (t : Z) : Z := (t - t mod Second)%Z.

Definition AccessTokenExpiry : Z := 15 * Minute.
Definition RefreshTokenExpiry : Z := 7 * 24 * Hour.
Definition refreshTokenKeyPrefix : string := "onevoice:auth:refresh_token:".
Definition refreshTokenScanBatch : Z := 256.
Definition passwordMinLen : nat := 8.
Definition passwordMaxLen : nat := 72.
Definition passwordMinZxcvbnScore : nat := 2.
Definition deletionGraceDays : Z := 30.
Definition deletionT7OffsetDays : Z := 23.
Definition resetTokenTTL : Z := 30 * Minute.
Definition resetMinPasswordLen : nat := 8.
Definition resetRateLimitMax : Z := 3.
Definition resetRateLimitWindow : Z := Hour.
Definition verifyTokenTTL : Z := 72 * Hour.
Definition verifyResendMinWindow : Z := 60 * Second.
Definition verifyResendHourMax : Z := 5.
Definition verifyResendHourWindow : Z := 3600 * Second.

(** ** Calls *)

(** Audit rows written in the background and telemetry. *)
Inductive AccountNote :=
| NoteSignup (user : uuid)
| NoteEmailVerified (user : uuid)
| NoteConsentRecorded (user : uuid) (purpose version : string)
| NoteResetUnknown (email ip user_agent : string) (db_error : bool)
| NoteResetRequested (user : uuid) (ip user_agent : string) (rate_limited rand_failed : bool)
| NoteResetCompleted (user : uuid) (ip user_agent : string)
| NoteSoleOwnerBlocked (user : uuid) (ip user_agent : string) (businesses : list uuid)
| NoteDeletionRequested (user : uuid) (ip user_agent : string)
| NoteDeletionCanceled (user : uuid) (ip user_agent : string).

Inductive AccountCall : Type → Type :=
| PgC {X} (c : PgCall Stmt X) : AccountCall X
| SetC (key value : string) (ttl : Z) : AccountCall (result RedisError unit)
| GetC (key : string) : AccountCall (result RedisError (option string))
| GetDelC (key : string) : AccountCall (result RedisError (option string))
| DelC (keys : list string) : AccountCall (result RedisError Z)
| IncrC (key : string) (window : Z) : AccountCall (result RedisError Z)
| ScanC (cursor : N) (prefix : string) (count : Z) : AccountCall (result RedisError (list string * N))
| NowC : AccountCall Z
| NewIDC : AccountCall uuid
| RandomC : AccountCall (result goerr string)
| HashC (password : string) : AccountCall (result goerr string)
| ClearLockoutC (email : string) : AccountCall (result goerr unit)
| CleanupC (user : uuid) (email : string) : AccountCall (result goerr unit)
| NoteC (n : AccountNote) : AccountCall unit.

Inductive AccountError :=
| ErrUserExists
| ErrUserNotFound
| ErrInvalidCredentials
| ErrInvalidToken
| ErrInvalidEmail
| ErrPasswordTooWeak
| ErrPasswordTooLong
| ErrResetTokenInvalid
| ErrResetTokenCollision
| ErrVerifyTokenInvalid
| ErrAlreadyVerified
| ErrResendThrottled
| ErrEmailTaken
| ErrDeletionAlreadyPending
| ErrNoDeletionPending
| ErrAlreadyPurged
| ErrSoleOwnerBusinesses (l : list (uuid * string))
| ErrConsentMissing
| ErrConsentVersionMismatch
| ErrInternal (op : string).

#[export] Instance AccountError_eq_dec : EqDecision AccountError.
Proof. solve_decision. Defined.

(** ** The Redis commands behind the calls *)

(** [GETDEL]. *)
Definition cmd_getdel (now : Z) (k : string) : cmd (option string) := λ m,
  (Ok (c_val <$> live_cell now k m), delete k m).

(** [DEL] of several keys. *)
Definition cmd_dels (now : Z) (ks : list string) : cmd Z := λ m,
  (Ok (Z.of_nat (length (filterb (λ k, bool_decide (is_Some (live_cell now k m))) ks))), foldr delete m ks).

Notation prog := (Prog.prog AccountCall).
Notation fallible A := (Prog.prog AccountCall (result AccountError A)).

(** What the services were made with. *)
Record AccountDeps := {
  ad_secret : string;
  ad_register_tx : bool;
  ad_register_consents : bool;
  ad_audit : bool;
  ad_telemetry : bool;
  ad_lockout : bool;
  ad_public_url : string;
  ad_grace_days : Z;
  ad_t7_offset_days : Z;
  ad_warn_scan_window : Z;
}.

(** [PolicyAccepted]. *)
Record PolicyAccepted := { pa_slug : string; pa_version : string; pa_sha256 : string }.

(** [RegistrationContext]. *)
Record RegistrationContext := { rc_ip : string; rc_user_agent : string; rc_name : string; rc_policies : list PolicyAccepted }.

Section service.
Context {U : UUIDText} {J : Jwt}.
Variables (deps : AccountDeps) (lower : string → string) (sha256 sha256_hex : string → string)
  (bcrypt_ok : string → string → bool) (zxcvbn_score : string → nat) (currentVersion : string → string * string)
  (mail_text : string → list string → string * string * string).

Definition note_if (wired : bool) (n : AccountNote) : prog unit := if wired then Call (NoteC n) Ret else Ret tt.

(** ** Statements and transactions *)

Definition exec {X} (tx : option N) (op : string) (q : Stmt X) : fallible X :=
  call! r := PgC (ExecC tx q) in
  Ret (match r with Ok x => Ok x | Err _ => Err (ErrInternal op) end).

(** Begin, run [body], commit; anything else rolls back. *)
Definition in_tx {A} (op : string) (body : N → fallible A) : fallible A :=
  call! begun := PgC BeginC in
  match begun with
  | Err _ => Ret (Err (ErrInternal op))
  | Ok t =>
      sub! r := body t in
      match r with
      | Err e => call! _ := PgC (RollbackC t) in Ret (Err e)
      | Ok a =>
          call! c := PgC (CommitC t) in
          match c with
          | Ok _ => Ret (Ok a)
          | Err _ => call! _ := PgC (RollbackC t) in Ret (Err (ErrInternal op))
          end
      end
  end.

(** ** repository/user.go *)

Definition NormalizeEmail (email : string) : string := lower (trim_space email).

(** No row affected means no such user. *)
Definition affected (tx : option N) (op : string) (q : Stmt nat) : fallible unit :=
  ok! n := exec tx op q in
  Ret (if n =? 0 then Err ErrUserNotFound else Ok tt).

Definition stamped (user : User) (id : uuid) (email : string) (now : Z) : User :=
  {| us_id := id; us_email := email; us_name := us_name user; us_password_hash := us_password_hash user;
     us_preferred_locale := us_preferred_locale user; us_email_verified := us_email_verified user;
     us_email_verified_at := us_email_verified_at user; us_deleted_at := us_deleted_at user;
     us_deletion_requested_at := us_deletion_requested_at user; us_deletion_canceled_at := us_deletion_canceled_at user;
     us_created_at := now; us_updated_at := now |}.

(** [Create], and [CreateInTx] when a transaction is given. *)
Definition Create (tx : option N) (user : User) : fallible User :=
  sub! id := (if bool_decide (us_id user = uuid_nil) then Call NewIDC Ret else Ret (us_id user)) in
  call! now := NowC in
  let user := stamped user id (NormalizeEmail (us_email user)) now in
  call! r := PgC (ExecC tx (InsertUser user)) in
  Ret (match r with
       | Ok _ => Ok user
       | Err DbUnique => Err ErrUserExists
       | Err _ => Err (ErrInternal "insert user")
       end).

Definition found (r : result AccountError (option User)) : result AccountError User :=
  match r with Ok (Some u) => Ok u | Ok None => Err ErrUserNotFound | Err e => Err e end.

Definition find_user (deleted_too : bool) (tx : option N) (id : uuid) : fallible User :=
  sub! r := exec tx "query user" (SelectUser deleted_too id) in Ret (found r).

Definition GetByID (id : uuid) : fallible User := find_user false None id.
Definition GetByIDIncludingDeleted (id : uuid) : fallible User := find_user true None id.
Definition GetByIDIncludingDeletedInTx (t : N) (id : uuid) : fallible User := find_user true (Some t) id.

Definition GetByEmail (deleted_too : bool) (email : string) : fallible User :=
  sub! r := exec None "query user" (SelectUserByEmail deleted_too (NormalizeEmail email)) in Ret (found r).

Definition Update (user : User) : fallible unit :=
  call! now := NowC in
  affected None "update user" (UpdateUser (us_id user) (NormalizeEmail (us_email user)) (us_password_hash user) now).

Definition UpdatePasswordHashInTx (t : N) (id : uuid) (hash : string) : fallible unit :=
  call! now := NowC in affected (Some t) "update password_hash" (SetPasswordHash id hash now).

Definition UpdateEmailInTx (t : N) (id : uuid) (email : string) : fallible unit :=
  call! now := NowC in
  call! r := PgC (ExecC (Some t) (SetEmail id (NormalizeEmail email) now)) in
  Ret (match r with
       | Err DbUnique => Err ErrEmailTaken
       | Err _ => Err (ErrInternal "update email")
       | Ok n => if n =? 0 then Err ErrUserNotFound else Ok tt
       end).

Definition MarkEmailVerifiedInTx (t : N) (id : uuid) : fallible unit :=
  affected (Some t) "mark email verified" (SetVerified id).

Definition RequestDeletionInTx (t : N) (id : uuid) : fallible unit :=
  ok! n := exec (Some t) "request deletion" (MarkDeletion id) in
  if n =? 0 then
    ok! st := exec None "classify deletion state" (SelectDeletion id) in
    Ret (match st with
         | Some (Some _, None) => Err ErrDeletionAlreadyPending
         | _ => Err ErrUserNotFound
         end)
  else Ret (Ok tt).

Definition repoCancelDeletion (id : uuid) (days : Z) : fallible bool :=
  ok! done := exec None "cancel deletion" (UnmarkDeletion id days) in
  if done then Ret (Ok true)
  else
    ok! st := exec None "classify cancel state" (SelectDeletion id) in
    Ret (match st with
         | None => Err ErrAlreadyPurged
         | Some (None, _) => Err ErrNoDeletionPending
         | Some (Some _, Some _) => Ok true
         | Some (Some _, None) => Err ErrAlreadyPurged
         end).

Definition HardDeleteInTx (t : N) (id : uuid) : fallible unit := affected (Some t) "hard delete user" (DeleteUser id).

Definition UpdatePreferredLocale (id : uuid) (locale : string) : fallible unit :=
  call! now := NowC in affected None "update preferred_locale" (SetLocale id locale now).

Definition repoUpdateName (id : uuid) (name : string) : fallible unit :=
  call! now := NowC in affected None "update name" (SetName id name now).

(** ** Links and mails *)

(** [generateOpaqueToken]: the text that is mailed; its hash is stored. *)
Definition generateOpaqueToken (op : string) : fallible string :=
  call! r := RandomC in Ret (match r with Ok s => Ok s | Err _ => Err (ErrInternal op) end).

Definition ConsumeAtomic (k : LinkKind) (t : N) (hash : string) : fallible (uuid * string) :=
  ok! r := exec (Some t) "consume token" (ConsumeLink k hash) in
  Ret (match r with
       | Some ue => Ok ue
       | None => Err (match k with ResetLink => ErrResetTokenInvalid | VerifyLink => ErrVerifyTokenInvalid end)
       end).

Definition insertResetToken (t : N) (user : uuid) (email hash : string) (expires : Z) : fallible unit :=
  call! r := PgC (ExecC (Some t) (InsertLink ResetLink user email hash expires)) in
  Ret (match r with Ok _ => Ok tt | Err DbUnique => Err ErrResetTokenCollision | Err _ => Err (ErrInternal "insert token") end).

(** A mail whose texts are those of [template] on [args]. *)
Definition mail (to template : string) (args : list string) : OutboxEnqueueInput :=
  let '(subject, text, html) := mail_text template args in
  {| ob_to := to; ob_subject := subject; ob_text := text; ob_html := html; ob_business := None |}.

Definition Enqueue (tx : option N) (input : OutboxEnqueueInput) : fallible uuid := exec tx "enqueue" (InsertMail input None).
Definition EnqueueDeferred (tx : option N) (input : OutboxEnqueueInput) (at_ : Z) : fallible uuid :=
  exec tx "enqueue deferred" (InsertMail input (Some at_)).

(** ** email_verification.go *)

Definition IssueAndEnqueueTx (t : N) (user : uuid) (email : string) : fallible unit :=
  ok! plaintext := generateOpaqueToken "generate verify token" in
  call! now := NowC in
  ok! _ := exec (Some t) "insert verify token" (InsertLink VerifyLink user email (sha256 plaintext) (now + verifyTokenTTL)) in
  ok! _ := Enqueue (Some t) (mail email "verify" [(ad_public_url deps +:+ "/auth/verify-email?token=" +:+ plaintext)%string]) in
  Ret (Ok tt).

(** A counter of requests, refused past [max]. *)
Definition throttle (key op : string) (window max : Z) : fallible unit :=
  call! r := IncrC key window in
  Ret (match r with
       | Err _ => Err (ErrInternal op)
       | Ok n => if (max <? n)%Z then Err ErrResendThrottled else Ok tt
       end).

Definition RequestResend (userID : uuid) : fallible unit :=
  ok! u := GetByID userID in
  if us_email_verified u then Ret (Err ErrAlreadyVerified)
  else
    ok! _ := throttle ("verify_resend:user:" +:+ uuid_string userID +:+ ":min")%string "verify_resend min incr" verifyResendMinWindow 1 in
    ok! _ := throttle ("verify_resend:user:" +:+ uuid_string userID +:+ ":hr")%string "verify_resend hr incr" verifyResendHourWindow verifyResendHourMax in
    in_tx "verify_resend" (λ t, IssueAndEnqueueTx t userID (us_email u)).

Definition ConfirmVerify (plaintextToken : string) : fallible uuid :=
  ok! userID := in_tx "confirm_verify" (λ t,
    ok! ue := ConsumeAtomic VerifyLink t (sha256 plaintextToken) in
    ok! _ := MarkEmailVerifiedInTx t (fst ue) in
    Ret (Ok (fst ue))) in
  sub! _ := note_if (ad_telemetry deps) (NoteEmailVerified userID) in
  Ret (Ok userID).

Definition IsTokenExpired (plaintextToken : string) : fallible bool :=
  exec None "lookup expired" (SelectExpired (sha256 plaintextToken)).

Definition ChangeEmailBeforeVerify (userID : uuid) (newEmail : string) : fallible string :=
  let newEmail := NormalizeEmail newEmail in
  ok! u := GetByID userID in
  if us_email_verified u then Ret (Err ErrAlreadyVerified)
  else
    sub! existing := GetByEmail false newEmail in
    match existing with
    | Ok _ => Ret (Err ErrEmailTaken)
    | Err ErrUserNotFound =>
        ok! _ := in_tx "change_email" (λ t,
          ok! _ := UpdateEmailInTx t userID newEmail in
          ok! _ := exec (Some t) "change_email invalidate tokens" (InvalidateLinks VerifyLink userID) in
          IssueAndEnqueueTx t userID newEmail) in
        Ret (Ok (us_email u))
    | Err e => Ret (Err e)
    end.

(** ** consent.go *)

Fixpoint upsertConsents (t : N) (userID : uuid) (ip userAgent : string) (policies : list PolicyAccepted) : fallible unit :=
  match policies with
  | [] => Ret (Ok tt)
  | p :: policies =>
      ok! _ := exec (Some t) "user_consents upsert" (UpsertConsent {| uc_user := userID; uc_purpose := pa_slug p;
                 uc_version := pa_version p; uc_sha256 := pa_sha256 p; uc_ip := ip; uc_user_agent := userAgent |}) in
      upsertConsents t userID ip userAgent policies
  end.

(** The first policy with a version names it in the audit row. *)
Fixpoint first_version (policies : list PolicyAccepted) : string * string :=
  match policies with
  | [] => ("", "")
  | p :: policies => if String.eqb (pa_version p) "" then first_version policies else (pa_version p, pa_sha256 p)
  end.

Definition audit_in_tx (t : N) (userID : uuid) (email action : string) (details : list (string * gval)) : fallible unit :=
  exec (Some t) action (InsertAudit {| ar_user := Some userID; ar_email := email; ar_action := action; ar_details := details |}).

Definition RecordRegistrationConsents (t : N) (userID : uuid) (ip userAgent : string) (policies : list PolicyAccepted) : fallible unit :=
  ok! _ := upsertConsents t userID ip userAgent policies in
  audit_in_tx t userID "" "consent_recorded"
    [("purposes", GArr (GStr ∘ pa_slug <$> policies)); ("policy_version", GStr (fst (first_version policies)));
     ("policy_sha256", GStr (snd (first_version policies))); ("ip", GStr ip); ("user_agent", GStr userAgent)].

(** The versions the client accepted are the current ones. *)
Fixpoint versions_current (policies : list PolicyAccepted) : result AccountError unit :=
  match policies with
  | [] => Ok tt
  | p :: policies =>
      let want := fst (currentVersion (pa_slug p)) in
      if String.eqb want "" then Err ErrConsentMissing
      else if negb (String.eqb (pa_version p) want) then Err ErrConsentVersionMismatch
      else versions_current policies
  end.

Definition ReConsent (userID : uuid) (ip userAgent : string) (policies : list PolicyAccepted) : fallible unit :=
  if bool_decide (length policies = 0) then Ret (Err ErrConsentMissing)
  else
    match versions_current policies with
    | Err e => Ret (Err e)
    | Ok _ =>
        in_tx "reconsent" (λ t,
          ok! _ := upsertConsents t userID ip userAgent policies in
          audit_in_tx t userID "" "consent_reconsented"
            [("purposes", GArr (GStr ∘ pa_slug <$> policies)); ("from_version", GStr "");
             ("to_version", GStr (fst (first_version policies))); ("ip", GStr ip); ("user_agent", GStr userAgent)])
    end.

(** [DiffAgainstCurrent]: slug, accepted and current version, hash. *)
Definition policy_diff (consents : list Consent) (slug : string) : option (string * string * string * string) :=
  let '(want, sha) := currentVersion slug in
  match List.find (λ c, String.eqb (co_purpose c) slug) (rev consents) with
  | None => Some (slug, "", want, sha)
  | Some c =>
      if bool_decide (is_Some (co_withdrawn_at c)) then None
      else if String.eqb (co_version c) want then None else Some (slug, co_version c, want, sha)
  end.

Definition DiffAgainstCurrent (userID : uuid) (slugs : list string) : fallible (list (string * string * string * string)) :=
  ok! l := exec None "diff against current list" (SelectConsents userID) in
  Ret (Ok (omap (policy_diff l) slugs)).

(** ** user.go *)

(** [strings.Split] at the address sign, both parts there. *)
Definition validateEmail (email : string) : result AccountError unit :=
  if (String.length email <? 3) || negb (str_has "@"%char email) then Err ErrInvalidEmail
  else
    match split_on "@"%char email with
    | [a; b] => if String.eqb a "" || String.eqb b "" then Err ErrInvalidEmail else Ok tt
    | _ => Err ErrInvalidEmail
    end.

Definition validatePassword (password : string) : result AccountError unit :=
  if String.length password <? passwordMinLen then Err ErrPasswordTooWeak
  else if passwordMaxLen <? String.length password then Err ErrPasswordTooLong
  else if zxcvbn_score password <? passwordMinZxcvbnScore then Err ErrPasswordTooWeak
  else Ok tt.

Definition sanitizeUser (user : User) : User :=
  {| us_id := us_id user; us_email := us_email user; us_name := us_name user; us_password_hash := "";
     us_preferred_locale := us_preferred_locale user; us_email_verified := us_email_verified user;
     us_email_verified_at := us_email_verified_at user; us_deleted_at := us_deleted_at user;
     us_deletion_requested_at := us_deletion_requested_at user; us_deletion_canceled_at := us_deletion_canceled_at user;
     us_created_at := us_created_at user; us_updated_at := us_updated_at user |}.

Definition new_user (id : uuid) (email name hash : string) (created updated : Z) : User :=
  {| us_id := id; us_email := email; us_name := name; us_password_hash := hash; us_preferred_locale := "";
     us_email_verified := false; us_email_verified_at := None; us_deleted_at := None; us_deletion_requested_at := None;
     us_deletion_canceled_at := None; us_created_at := created; us_updated_at := updated |}.

Definition hash_password (op password : string) : fallible string :=
  call! r := HashC password in Ret (match r with Ok h => Ok h | Err _ => Err (ErrInternal op) end).

(** The account of a registration, checked and hashed. *)
Definition applicant (email name password : string) : fallible User :=
  match validateEmail email with
  | Err e => Ret (Err e)
  | Ok _ =>
      match validatePassword password with
      | Err e => Ret (Err e)
      | Ok _ =>
          ok! hash := hash_password "hash password" password in
          call! id := NewIDC in
          call! created := NowC in
          call! updated := NowC in
          Ret (Ok (new_user id email name hash created updated))
      end
  end.

Definition Register (email password : string) : fallible User :=
  ok! user := applicant (NormalizeEmail email) "" password in
  if ad_register_tx deps && ad_register_consents deps then
    ok! user := in_tx "register" (λ t,
      ok! user := Create (Some t) user in
      ok! _ := exec (Some t) "register insert consent" (InsertConsent (us_id user) "service_operation" "pre-v22") in
      ok! _ := IssueAndEnqueueTx t (us_id user) (us_email user) in
      Ret (Ok user)) in
    sub! _ := note_if (ad_audit deps) (NoteConsentRecorded (us_id user) "service_operation" "pre-v22") in
    sub! _ := note_if (ad_telemetry deps) (NoteSignup (us_id user)) in
    Ret (Ok (sanitizeUser user))
  else
    ok! user := Create None user in
    sub! _ := note_if (ad_telemetry deps) (NoteSignup (us_id user)) in
    Ret (Ok (sanitizeUser user)).

Definition RegisterWithContext (email password : string) (regCtx : RegistrationContext) : fallible User :=
  let email := NormalizeEmail email in
  ok! user := applicant email (trim_space (rc_name regCtx)) password in
  if ad_register_tx deps then
    ok! user := in_tx "register" (λ t,
      ok! user := Create (Some t) user in
      ok! _ := RecordRegistrationConsents t (us_id user) (rc_ip regCtx) (rc_user_agent regCtx) (rc_policies regCtx) in
      ok! _ := IssueAndEnqueueTx t (us_id user) (us_email user) in
      Ret (Ok user)) in
    sub! _ := note_if (ad_telemetry deps) (NoteSignup (us_id user)) in
    Ret (Ok (sanitizeUser user))
  else Register email password.

(** A deletion that can no longer be called off. *)
Definition purgeEligible (user : User) : prog bool :=
  match us_deletion_requested_at user, us_deletion_canceled_at user with
  | Some r, None => call! now := NowC in Ret (negb (now <? r + deletionGraceDays * 24 * Hour)%Z)
  | _, _ => Ret false
  end.

Definition generateAccessToken (user : User) : prog string :=
  call! now := NowC in
  call! iat := NowC in
  Ret (jwt_sign (ad_secret deps) {| cl_user_id := us_id user; cl_email := us_email user; cl_token_id := uuid_nil;
         cl_subject := TokenSubjectAccess; cl_issuer := TokenIssuer; cl_audience := [TokenAudience];
         cl_expires_at := Some (numeric_date (now + AccessTokenExpiry)); cl_issued_at := Some (numeric_date iat) |}).

Definition generateRefreshToken (userID : uuid) : prog (string * uuid) :=
  call! tokenID := NewIDC in
  call! now := NowC in
  call! iat := NowC in
  Ret (jwt_sign (ad_secret deps) {| cl_user_id := userID; cl_email := ""; cl_token_id := tokenID;
         cl_subject := TokenSubjectRefresh; cl_issuer := TokenIssuer; cl_audience := [TokenAudience];
         cl_expires_at := Some (numeric_date (now + RefreshTokenExpiry)); cl_issued_at := Some (numeric_date iat) |}, tokenID).

Definition refresh_key (tokenID : uuid) : string := (refreshTokenKeyPrefix +:+ uuid_string tokenID)%string.

(** Both tokens of a session, the refresh token stored. *)
Definition issue_tokens (user : User) : fallible (User * string * string) :=
  sub! accessToken := generateAccessToken user in
  sub! rt := generateRefreshToken (us_id user) in
  call! r := SetC (refresh_key (snd rt)) (uuid_string (us_id user)) RefreshTokenExpiry in
  Ret (match r with
       | Ok _ => Ok (sanitizeUser user, accessToken, fst rt)
       | Err _ => Err (ErrInternal "store refresh token")
       end).

(** Without an account a fixed hash is compared, for the time it takes. *)
Definition Login (email password : string) : fallible (User * string * string) :=
  sub! r := GetByEmail true email in
  match r with
  | Err ErrUserNotFound => Ret (Err ErrInvalidCredentials)
  | Err _ => Ret (Err (ErrInternal "get user"))
  | Ok user =>
      sub! gone := purgeEligible user in
      if gone || negb (bcrypt_ok (us_password_hash user) password) then Ret (Err ErrInvalidCredentials)
      else issue_tokens user
  end.

(** [jwt.ParseWithClaims] with the options of a refresh token. *)
Definition parse_refresh (now : Z) (token : string) : option Claims :=
  match jwt_verify (ad_secret deps) token with
  | Some c =>
      if String.eqb (cl_subject c) TokenSubjectRefresh && String.eqb (cl_issuer c) TokenIssuer
         && list_mem TokenAudience (cl_audience c)
         && match cl_expires_at c with Some e => (now <? e)%Z | None => true end
      then Some c else None
  | None => None
  end.

Definition RefreshToken (refreshToken : string) : fallible (User * string * string) :=
  call! now := NowC in
  match parse_refresh now refreshToken with
  | None => Ret (Err ErrInvalidToken)
  | Some claims =>
      call! r := GetDelC (refresh_key (cl_token_id claims)) in
      match r with
      | Err _ => Ret (Err (ErrInternal "validate refresh token"))
      | Ok None => Ret (Err ErrInvalidToken)
      | Ok (Some userID) =>
          if negb (String.eqb userID (uuid_string (cl_user_id claims))) then Ret (Err ErrInvalidToken)
          else
            ok! user := GetByIDIncludingDeleted (cl_user_id claims) in
            sub! gone := purgeEligible user in
            if gone then Ret (Err ErrUserNotFound) else issue_tokens user
      end
  end.

Definition Logout (refreshToken : string) : fallible unit :=
  call! now := NowC in
  match parse_refresh now refreshToken with
  | None => Ret (Err ErrInvalidToken)
  | Some claims =>
      call! r := DelC [refresh_key (cl_token_id claims)] in
      Ret (match r with Ok _ => Ok tt | Err _ => Err (ErrInternal "delete refresh token") end)
  end.

(** The service's own [GetByID]. *)
Definition userByID (id : uuid) : fallible User := ok! user := GetByID id in Ret (Ok (sanitizeUser user)).

Definition UpdateName (userID : uuid) (name : string) : fallible unit := repoUpdateName userID (trim_space name).

(** The keys of a page that belong to [target]. *)
Fixpoint matching_keys (target : string) (ks acc : list string) : fallible (list string) :=
  match ks with
  | [] => Ret (Ok acc)
  | k :: ks =>
      call! r := GetC k in
      match r with
      | Err _ => Ret (Err (ErrInternal "get"))
      | Ok None => matching_keys target ks acc
      | Ok (Some v) => matching_keys target ks (if String.eqb v target then acc ++ [k] else acc)
      end
  end.

(** The scan, for as many pages as [pages]. *)
Fixpoint scan_matching (pages : nat) (target : string) (cursor : N) (acc : list string) : fallible (list string) :=
  match pages with
  | 0 => Ret (Err (ErrInternal "pages"))
  | S pages =>
      call! r := ScanC cursor refreshTokenKeyPrefix refreshTokenScanBatch in
      match r with
      | Err _ => Ret (Err (ErrInternal "scan"))
      | Ok (ks, next) =>
          ok! acc := matching_keys target ks acc in
          if (next =? 0)%N then Ret (Ok acc) else scan_matching pages target next acc
      end
  end.

Definition wipeRefreshTokensForUser (pages : nat) (userID : uuid) : fallible unit :=
  ok! toDelete := scan_matching pages (uuid_string userID) 0 [] in
  if bool_decide (toDelete = []) then Ret (Ok tt)
  else
    call! r := DelC toDelete in
    Ret (match r with Ok _ => Ok tt | Err _ => Err (ErrInternal "del") end).

Definition ChangePassword (pages : nat) (userID : uuid) (currentPassword newPassword : string) : fallible unit :=
  ok! user := GetByID userID in
  if negb (bcrypt_ok (us_password_hash user) currentPassword) then Ret (Err ErrInvalidCredentials)
  else
    match validatePassword newPassword with
    | Err e => Ret (Err e)
    | Ok _ =>
        ok! newHash := hash_password "hash password" newPassword in
        ok! _ := Update (with_password user (us_email user) newHash (us_updated_at user)) in
        sub! _ := wipeRefreshTokensForUser pages userID in
        Ret (Ok tt)
    end.

(** ** password_reset.go *)

(** Over the budget; a Redis error admits. *)
Definition bumpRateLimit (emailAddr : string) : prog bool :=
  call! r := IncrC ("reset:email:" +:+ sha256_hex emailAddr)%string resetRateLimitWindow in
  Ret (match r with Ok n => (resetRateLimitMax <? n)%Z | Err _ => false end).

Definition RequestReset (emailAddr clientIP userAgent : string) : prog unit :=
  let emailAddr := NormalizeEmail emailAddr in
  sub! rateLimited := bumpRateLimit emailAddr in
  sub! r := GetByEmail false emailAddr in
  match r with
  | Err ErrUserNotFound => note_if (ad_audit deps) (NoteResetUnknown emailAddr clientIP userAgent false)
  | Err _ => note_if (ad_audit deps) (NoteResetUnknown emailAddr clientIP userAgent true)
  | Ok user =>
      if rateLimited then note_if (ad_audit deps) (NoteResetRequested (us_id user) clientIP userAgent true false)
      else
        call! token := RandomC in
        match token with
        | Err _ => note_if (ad_audit deps) (NoteResetRequested (us_id user) clientIP userAgent false true)
        | Ok plaintext =>
            call! now := NowC in
            sub! done := in_tx "password reset" (λ t,
              ok! _ := exec (Some t) "invalidate prior tokens" (InvalidateLinks ResetLink (us_id user)) in
              ok! _ := insertResetToken t (us_id user) (us_email user) (sha256 plaintext) (now + resetTokenTTL) in
              Enqueue (Some t) (mail (us_email user) "reset" [(ad_public_url deps +:+ "/auth/password-reset/confirm")%string; plaintext])) in
            match done with
            | Err _ => Ret tt
            | Ok _ => note_if (ad_audit deps) (NoteResetRequested (us_id user) clientIP userAgent false false)
            end
        end
  end.

Definition ConfirmReset (pages : nat) (plaintextToken newPassword clientIP userAgent : string) : fallible unit :=
  if String.length newPassword <? resetMinPasswordLen then Ret (Err ErrPasswordTooWeak)
  else if zxcvbn_score newPassword <? passwordMinZxcvbnScore then Ret (Err ErrPasswordTooWeak)
  else if String.eqb plaintextToken "" then Ret (Err ErrResetTokenInvalid)
  else
    ok! userID := in_tx "password reset" (λ t,
      ok! ue := ConsumeAtomic ResetLink t (sha256 plaintextToken) in
      ok! bcryptHash := hash_password "password reset: bcrypt" newPassword in
      ok! _ := UpdatePasswordHashInTx t (fst ue) bcryptHash in
      Ret (Ok (fst ue))) in
    sub! _ := wipeRefreshTokensForUser pages userID in
    sub! _ :=
      (if ad_lockout deps then
         sub! u := GetByID userID in
         match u with Ok u => forget (Call (ClearLockoutC (us_email u)) Ret) | Err _ => Ret tt end
       else Ret tt) in
    sub! _ := note_if (ad_audit deps) (NoteResetCompleted userID clientIP userAgent) in
    Ret (Ok tt).

(** ** account_deletion.go *)

Definition days (n : Z) : Z := n * 24 * Hour.

Definition consent_withdrawn : string := "consent_withdrawn".
Definition T7Subject : string := fst (fst (mail_text "deletion_t7" [])).

Definition RequestDeletion (userID : uuid) (password clientIP userAgent reason : string) : fallible unit :=
  ok! user := GetByIDIncludingDeleted userID in
  if pending user then Ret (Err ErrDeletionAlreadyPending)
  else if negb (String.eqb reason consent_withdrawn) && negb (bcrypt_ok (us_password_hash user) password)
  then Ret (Err ErrInvalidCredentials)
  else
    ok! soleOwners := exec None "enumerate sole-owner businesses" (SelectSoleOwned userID) in
    if negb (bool_decide (soleOwners = [])) then
      call! _ := NoteC (NoteSoleOwnerBlocked userID clientIP userAgent (fst <$> soleOwners)) in
      Ret (Err (ErrSoleOwnerBusinesses soleOwners))
    else
      ok! _ := in_tx "deletion" (λ t,
        ok! _ := RequestDeletionInTx t userID in
        ok! _ := exec (Some t) "revoke pending invitations" (RevokeInvitations userID) in
        call! now := NowC in
        let at_ := print_Z (now + days (ad_grace_days deps)) in
        ok! _ := Enqueue (Some t) (mail (us_email user) "deletion_confirmation" [us_email user; at_]) in
        call! now7 := NowC in
        EnqueueDeferred (Some t) (mail (us_email user) "deletion_t7" [us_email user; at_]) (now7 + days (ad_t7_offset_days deps))) in
      call! _ := NoteC (NoteDeletionRequested userID clientIP userAgent) in
      Ret (Ok tt).

Definition CancelDeletion (userID : uuid) (clientIP userAgent : string) : fallible unit :=
  ok! canceled := repoCancelDeletion userID (ad_grace_days deps) in
  if negb canceled then Ret (Err ErrAlreadyPurged)
  else
    sub! u := GetByIDIncludingDeleted userID in
    sub! _ :=
      match u with
      | Ok user => forget (exec None "cancel pending" (CancelMail (us_email user) T7Subject None))
      | Err _ => Ret tt
      end in
    call! _ := NoteC (NoteDeletionCanceled userID clientIP userAgent) in
    Ret (Ok tt).

Definition GetScheduledDeletionAt (userID : uuid) : fallible (option Z) :=
  ok! user := GetByIDIncludingDeleted userID in
  Ret (Ok (match us_deletion_requested_at user with
           | Some r => Some (r + days (ad_grace_days deps))%Z
           | None => None
           end)).

Definition batchSize : nat := 100.

(** One user of a sweep: its audit row and its erasure under a savepoint; what was
    erased, if it was. *)
Definition purge_one (t : N) (uid : uuid) : prog (option (uuid * string)) :=
  sub! r := GetByIDIncludingDeletedInTx t uid in
  match r with
  | Err _ => Ret None
  | Ok user =>
      if bool_decide (is_Some (us_deletion_canceled_at user)) then Ret None
      else
        call! sp := PgC (SaveC t) in
        match sp with
        | Err _ => Ret None
        | Ok _ =>
            sub! done := (ok! _ := audit_in_tx t uid (us_email user) "user_self_deleted" [] in HardDeleteInTx t uid) in
            match done with
            | Err _ => call! _ := PgC (RestoreC t) in Ret None
            | Ok _ =>
                call! c := PgC (ReleaseC t) in
                match c with
                | Err _ => call! _ := PgC (RestoreC t) in Ret None
                | Ok _ => Ret (Some (uid, us_email user))
                end
            end
        end
  end.

Fixpoint purge_all (t : N) (ids : list uuid) : prog (list (uuid * string)) :=
  match ids with
  | [] => Ret []
  | uid :: ids =>
      sub! p := purge_one t uid in
      sub! ps := purge_all t ids in
      Ret (match p with Some p => p :: ps | None => ps end)
  end.

Fixpoint cleanup_all (ps : list (uuid * string)) : prog unit :=
  match ps with
  | [] => Ret tt
  | (uid, email) :: ps => call! _ := CleanupC uid email in cleanup_all ps
  end.

Definition HardDeleteSweeper : fallible nat :=
  call! now := NowC in
  let before := (now - days (ad_grace_days deps))%Z in
  ok! purged := in_tx "sweeper" (λ t,
    ok! userIDs := exec (Some t) "enumerate pending deletions" (SelectPending before batchSize) in
    sub! ps := purge_all t userIDs in
    Ret (Ok ps)) in
  sub! _ := cleanup_all purged in
  Ret (Ok (length purged)).

Definition warningScanWindow (now : Z) : Z * Z :=
  let toTime := (now - days (ad_t7_offset_days deps))%Z in (toTime - ad_warn_scan_window deps, toTime)%Z.

(** The warnings of a sweep; how many were enqueued. *)
Fixpoint warn_all (users : list User) : prog nat :=
  match users with
  | [] => Ret 0
  | u :: users =>
      sub! ex := exec None "exists check" (SelectMailExists (us_email u) T7Subject) in
      match ex, us_deletion_requested_at u with
      | Ok false, Some r =>
          sub! sent := Enqueue None (mail (us_email u) "deletion_t7" [us_email u; print_Z (r + days (ad_grace_days deps))]) in
          sub! n := warn_all users in
          Ret (if is_ok sent then S n else n)
      | _, _ => warn_all users
      end
  end.

Definition WarningSweeper : fallible nat :=
  call! now := NowC in
  let '(fromTime, toTime) := warningScanWindow now in
  ok! users := exec None "enumerate upcoming deletions" (SelectUpcoming fromTime toTime 1000) in
  sub! n := warn_all users in
  Ret (Ok n).

(** ** consent.go: withdrawing the consent deletes the account first *)

Definition WithdrawPDN (userID : uuid) (ip userAgent : string) : fallible unit :=
  ok! _ := RequestDeletion userID "" ip userAgent consent_withdrawn in
  in_tx "withdraw_pdn" (λ t,
    ok! _ := exec (Some t) "withdraw_pdn mark" (WithdrawConsent userID "pdn") in
    audit_in_tx t userID "" "consent_withdrawn"
      [("purpose", GStr "pdn"); ("ip", GStr ip); ("user_agent", GStr userAgent)]).
End service.
