(* ===== verification/AccountSystem.v ===== *)
(** * Accounts under concurrent operations

    Any number of the operations of AccountService.v, on every replica of the API,
    interleaved call by call over one database and one Redis, each of which may crash,
    beside the writers that touch no account: members, businesses, invitations, mails,
    consents.  The clock is one for all and never goes back. *)

From S2P Require Import Prelude Json GoTime Types Users A2A Prog Pg AccountStore Redis RateLimit AccountService.
Local Open Scope go_scope.

(** What the history of a run shows, newest first: an account read, a link presented in
    a transaction, a change made visible (by a transaction, or by a statement alone), a
    refresh token stored, taken out, deleted. *)
Inductive Entry :=
| ESeen (user : uuid) (hash : string)
| EPresented (t : N) (k : LinkKind) (hash : string) (user : uuid)
| ECommit (by_ : option N) (now : Z) (before after : rows)
| EStored (key value : string)
| ETaken (key value : string)
| EDeleted (keys : list string).

Section system.
Context {U : UUIDText} {J : Jwt}.
Variables (deps : AccountDeps) (lower sql_canonical : string → string) (sha256 sha256_hex : string → string)
  (bcrypt_ok : string → string → bool) (zxcvbn_score : string → nat) (currentVersion : string → string * string)
  (mail_text : string → list string → string * string * string).

Notation run := (AccountStore.run sql_canonical).

(** An iteration of the keyspace that was begun: the cursor and prefix that continue it,
    and the keys it owes, there since it began and not yet returned. *)
Record Scan := { sc_cursor : N; sc_prefix : string; sc_due : list string }.

Record Store := {
  st_pg : Pg (K := Key) (V := Row);
  st_redis : keyspace;
  st_now : Z;
  st_ids : list uuid;
  st_log : list Entry;
  st_scans : list Scan;
}.

Definition live_keys (now : Z) (m : keyspace) : list string :=
  filterb (λ k, bool_decide (is_Some (live_cell now k m))) (map_to_list m).*1.

(** A key that is not there any more, even for a moment, is owed no more. *)
Definition still (now : Z) (m : keyspace) (it : Scan) : Scan :=
  {| sc_cursor := sc_cursor it; sc_prefix := sc_prefix it; sc_due := filterb (λ k, bool_decide (k ∈ live_keys now m)) (sc_due it) |}.

Definition with_pg (p : Pg) (l : list Entry) (s : Store) : Store :=
  {| st_pg := p; st_redis := st_redis s; st_now := st_now s; st_ids := st_ids s; st_log := l ++ st_log s; st_scans := st_scans s |}.

Definition with_redis (m : keyspace) (l : list Entry) (s : Store) : Store :=
  {| st_pg := st_pg s; st_redis := m; st_now := st_now s; st_ids := st_ids s; st_log := l ++ st_log s;
     st_scans := map (still (st_now s) m) (st_scans s) |}.

Definition draw (id : uuid) (s : Store) : Store :=
  {| st_pg := st_pg s; st_redis := st_redis s; st_now := st_now s; st_ids := id :: st_ids s; st_log := st_log s;
     st_scans := st_scans s |}.

Definition at_time (now : Z) (s : Store) : Store :=
  {| st_pg := st_pg s; st_redis := st_redis s; st_now := now; st_ids := st_ids s; st_log := st_log s;
     st_scans := map (still now (st_redis s)) (st_scans s) |}.

Definition with_scans (l : list Scan) (s : Store) : Store :=
  {| st_pg := st_pg s; st_redis := st_redis s; st_now := st_now s; st_ids := st_ids s; st_log := st_log s; st_scans := l |}.

(** What a statement that was answered shows. *)
Definition seen {X} (tx : option N) (q : Stmt X) : result DbError X → list Entry :=
  match q in Stmt X return result DbError X → list Entry with
  | SelectUser _ _ | SelectUserByEmail _ _ => λ r,
      match r with Ok (Some u) => [ESeen (us_id u) (us_password_hash u)] | _ => [] end
  | ConsumeLink k h => λ r,
      match r, tx with Ok (Some (u, _)), Some t => [EPresented t k h u] | _, _ => [] end
  | _ => λ _, []
  end.

Definition pg_entries {B} (c : PgCall Stmt B) (now : Z) (p p' : Pg) : B → list Entry :=
  match c in PgCall _ B return B → list Entry with
  | ExecC None q => λ r, ECommit None now (pg_rows p) (pg_rows p') :: seen None q r
  | ExecC tx q => λ r, seen tx q r
  | CommitC t => λ _, [ECommit (Some t) now (pg_rows p) (pg_rows p')]
  | _ => λ _, []
  end.

(** A command ran, or the connection failed before it or after it. *)
Definition redis_step {X} (c : cmd X) (l : result RedisError X → list Entry) (s : Store) (r : result RedisError X) (s' : Store) : Prop :=
  (∃ m', s' = with_redis m' (l (c (st_redis s)).1) s ∧ m' = (c (st_redis s)).2 ∧ (r = (c (st_redis s)).1 ∨ r = Err RedisDown))
  ∨ (r = Err RedisDown ∧ s' = s).

(** What the iterations owe that a call with [cursor] goes on with: cursor 0 begins one;
    any other continues whichever were given it. *)
Definition owed (cursor : N) (prefix : string) (s : Store) : list (list string) :=
  filterb (String.prefix prefix) <$>
  if (cursor =? 0)%N then [live_keys (st_now s) (st_redis s)]
  else sc_due <$> filterb (λ it, (sc_cursor it =? cursor)%N && String.eqb (sc_prefix it) prefix) (st_scans s).

(** SCAN as documented: a page may hold any keys of the prefix, and cursors mean nothing
    to the client; but once the cursor is back at 0, every key that was there for the
    whole iteration has been in one of its pages. *)
Definition scan_page (cursor : N) (prefix : string) (ks : list string) (next : N) (s s' : Store) : Prop :=
  (∀ k, k ∈ ks → String.prefix prefix k = true)
  ∧ if (next =? 0)%N then s' = s ∧ ∀ due, due ∈ owed cursor prefix s → due ⊆ ks
    else s' = with_scans (((λ due, {| sc_cursor := next; sc_prefix := prefix; sc_due := filterb (λ k, bool_decide (k ∉ ks)) due |})
                             <$> owed cursor prefix s) ++ st_scans s) s.

Definition is_refresh_key (k : string) : Prop := String.prefix refreshTokenKeyPrefix k = true.

(** One call answered [b]. *)
Definition call_step B (c : AccountCall B) : Store → B → Store → Prop :=
  match c in AccountCall B return Store → B → Store → Prop with
  | PgC c => λ s r s', ∃ p', pg_step run (st_now s) c (st_pg s) r p'
      ∧ s' = with_pg p' (pg_entries c (st_now s) (st_pg s) p' r) s
  | SetC k v ttl => λ s r s', redis_step (cmd_set (st_now s) k v ttl) (λ _, [EStored k v]) s r s'
  | GetC k => λ s r s', redis_step (cmd_get (st_now s) k) (λ _, []) s r s'
  | GetDelC k => λ s r s',
      redis_step (cmd_getdel (st_now s) k) (λ r, match r with Ok (Some v) => [ETaken k v] | _ => [] end) s r s'
  | DelC ks => λ s r s', redis_step (cmd_dels (st_now s) ks) (λ _, [EDeleted ks]) s r s'
  | IncrC k window => λ s r s', redis_step (incrWithHealScript (st_now s) k (window / Millisecond)) (λ _, []) s r s'
  | ScanC cursor prefix _ => λ s r s',
      match r with
      | Ok (ks, next) => scan_page cursor prefix ks next s s'
      | Err _ => s' = s
      end
  | NowC => λ s n s', n = st_now s ∧ s' = s
  | NewIDC => λ s id s', id ∉ st_ids s ∧ s' = draw id s
  | ClearLockoutC _ => λ s _ s', ∃ m',
      (∀ k, is_refresh_key k → m' !! k = st_redis s !! k) ∧ s' = with_redis m' [] s
  | _ => λ s _ s', s' = s
  end.

Notation Login := (Login deps lower bcrypt_ok).
Notation RefreshToken := (RefreshToken deps).

(** The operations a process may run. *)
Inductive starts : prog unit → Prop :=
| start_register email pw : starts (forget (Register deps lower sha256 zxcvbn_score mail_text email pw))
| start_register_with email pw ctx : starts (forget (RegisterWithContext deps lower sha256 zxcvbn_score mail_text email pw ctx))
| start_login email pw : starts (forget (Login email pw))
| start_refresh token : starts (forget (RefreshToken token))
| start_logout token : starts (forget (Logout deps token))
| start_get id : starts (forget (userByID id))
| start_name id name : starts (forget (UpdateName id name))
| start_locale id locale : starts (forget (UpdatePreferredLocale id locale))
| start_password pages id pw pw' : starts (forget (ChangePassword lower bcrypt_ok zxcvbn_score pages id pw pw'))
| start_request email ip ua : starts (RequestReset deps lower sha256 sha256_hex mail_text email ip ua)
| start_confirm pages token pw ip ua : starts (forget (ConfirmReset deps sha256 zxcvbn_score pages token pw ip ua))
| start_resend id : starts (forget (RequestResend deps sha256 mail_text id))
| start_verify token : starts (forget (ConfirmVerify deps sha256 token))
| start_expired token : starts (forget (IsTokenExpired sha256 token))
| start_email id email : starts (forget (ChangeEmailBeforeVerify deps lower sha256 mail_text id email))
| start_deletion id pw ip ua reason : starts (forget (RequestDeletion deps bcrypt_ok mail_text id pw ip ua reason))
| start_cancel id ip ua : starts (forget (CancelDeletion deps mail_text id ip ua))
| start_scheduled id : starts (forget (GetScheduledDeletionAt deps id))
| start_sweep : starts (forget (HardDeleteSweeper deps))
| start_warn : starts (forget (WarningSweeper deps mail_text))
| start_reconsent id ip ua l : starts (forget (ReConsent currentVersion id ip ua l))
| start_diff id slugs : starts (forget (DiffAgainstCurrent currentVersion id slugs))
| start_withdraw id ip ua : starts (forget (WithdrawPDN deps bcrypt_ok mail_text id ip ua)).

(** Rows that hold no account, link or audit. *)
Definition foreign (k : Key) : bool :=
  match k with KUser _ | KLink _ _ | KAudit _ => false | _ => true end.

(** A row sits under the key of its table. *)
Definition row_fits (k : Key) (r : Row) : Prop :=
  match k, r with
  | KUser id, RUser u => us_id u = id
  | KLink _ _, RLink _ | KMail _, RMail _ | KConsent _ _, RConsent _ | KInvite _, RInvite _ | KMember _ _, RMember _
  | KBusiness _, RBusiness _ | KTemplate _, RTemplate _ | KAudit _, RAudit _ => True
  | _, _ => False
  end.

Inductive env (s : Store) : Store → Prop :=
| env_lost t : env s (with_pg (drop_txn t (st_pg s)) [] s)
| env_time now : (st_now s ≤ now)%Z → env s (at_time now s)
| env_rows w : (∀ k v, w !! k = Some v → foreign k = true ∧ ∀ r, v = Some r → row_fits k r) →
    dom w ## locked None (st_pg s) → env s (with_pg (with_rows w (st_pg s)) [] s)
| env_audit id a : KAudit id ∉ dom (pg_rows (st_pg s)) → KAudit id ∉ locked None (st_pg s) →
    env s (with_pg (with_rows {[KAudit id := Some (RAudit a)]} (st_pg s)) [] s)
| env_redis m : (∀ k, is_refresh_key k → m !! k = st_redis s !! k ∨ m !! k = None) → env s (with_redis m [] s).

(** Well-typed rows without open transactions or history; refresh tokens stored before
    count as stored, their ids as drawn. *)
Definition quiet_start (s : Store) : Prop :=
  (∀ k r, pg_rows (st_pg s) !! k = Some r → row_fits k r) ∧ pg_open (st_pg s) = ∅
  ∧ (∀ k c, st_redis s !! k = Some c → is_refresh_key k → ∃ id, id ∈ st_ids s ∧ k = refresh_key id)
  ∧ st_log s = [] ∧ st_scans s = [].

(** ** What must hold of a log *)

Fixpoint log_all (P : Entry → list Entry → Prop) (log : list Entry) : Prop :=
  match log with
  | [] => True
  | e :: l => P e l ∧ log_all P l
  end.

(** Link [h], usable in [before] for account [id] at its present address, was presented
    by the transaction and is consumed in [after], before its time was over. *)
Definition link_used (k : LinkKind) (t : N) (h : string) (id : uuid) (before after : rows) (l : list Entry) : Prop :=
  EPresented t k h id ∈ l
  ∧ ∃ lk u c, link_at k h before = Some lk ∧ user_at id before = Some u ∧ li_user lk = id ∧ li_email lk = us_email u
      ∧ li_consumed lk = None ∧ (c < li_expires lk)%Z ∧ link_at k h after = Some (consume c lk).

(** A password changes with a reset link, or by someone who gave the password of an
    account as it was read; the verified flag, off for a new account, turns on with a
    verification link for the address of that moment.  It is the flag that is followed: a
    change of address keeps it as it is. *)
Definition change_proven (e : Entry) (l : list Entry) : Prop :=
  match e with
  | ECommit by_ now before after => ∀ id u',
      user_at id after = Some u' →
      match user_at id before with
      | None => us_email_verified u' = false
      | Some u =>
          (us_password_hash u' ≠ us_password_hash u →
             (∃ t h, by_ = Some t ∧ link_used ResetLink t h id before after l)
             ∨ (by_ = None ∧ ∃ hash pw, ESeen id hash ∈ l ∧ bcrypt_ok hash pw = true))
          ∧ (us_email_verified u = false → us_email_verified u' = true →
             ∃ t h, by_ = Some t ∧ link_used VerifyLink t h id before after l)
      end
  | _ => True
  end.

(** A consumed link stays as it is until its account is erased. *)
Definition links_spent (e : Entry) (l : list Entry) : Prop :=
  match e with
  | ECommit by_ now before after => ∀ k h lk, link_at k h before = Some lk → is_Some (li_consumed lk) →
      link_at k h after = Some lk ∨ (link_at k h after = None ∧ user_at (li_user lk) after = None)
  | _ => True
  end.

(** An account goes only when its deletion was asked for, not called off, and the days
    of grace are over, and leaves an audit row under its address. *)
Definition erasure_due (e : Entry) (l : list Entry) : Prop :=
  match e with
  | ECommit by_ now before after => ∀ id u, user_at id before = Some u → user_at id after = None →
      (∃ r, us_deletion_requested_at u = Some r ∧ us_deletion_canceled_at u = None ∧ (r + days (ad_grace_days deps) < now)%Z)
      ∧ ∃ a row, before !! KAudit a = None ∧ after !! KAudit a = Some (RAudit row)
          ∧ ar_email row = us_email u ∧ ar_action row = "user_self_deleted"
  | _ => True
  end.

(** A refresh token is taken once, after it was stored, and not after it was deleted. *)
Definition taken_once (stored : string → Prop) (e : Entry) (l : list Entry) : Prop :=
  match e with
  | ETaken k v => is_refresh_key k →
      (stored k ∨ EStored k v ∈ l) ∧ (∀ v', ETaken k v' ∉ l) ∧ ∀ ks, EDeleted ks ∈ l → k ∉ ks
  | _ => True
  end.
(** A scan changes nothing but what its iterations owe. *)
Lemma scan_beside cursor prefix s s' (r : result RedisError (list string * N)) :
  match r with Ok (ks, next) => scan_page cursor prefix ks next s s' | Err _ => s' = s end →
  st_pg s' = st_pg s ∧ st_now s' = st_now s ∧ st_log s' = st_log s ∧ st_redis s' = st_redis s ∧ st_ids s' = st_ids s.
Proof.
  destruct r as [[ks next]|e]; [|by intros ->]. intros [_ Hs]. destruct (next =? 0)%N; [by destruct Hs as [-> _]|by subst s'].
Qed.

Lemma elem_of_live_keys now k m : k ∈ live_keys now m ↔ is_Some (live_cell now k m).
Proof.
  unfold live_keys. rewrite elem_of_filterb, bool_decide_eq_true. split; [by intros []|]. intros Hk. split; [done|].
  destruct Hk as [c Hc%live_cell_lookup]. apply list_elem_of_fmap. exists (k, c). split; [done|]. by apply elem_of_map_to_list.
Qed.
End system.
