(* ===== verification/AccountLinks.v ===== *)
(** * What changes an account

    Over every interleaving of AccountSystem.v: passwords and verified addresses change
    only with a link that was usable and is used up in the same commit, and an account
    is erased only when its days of grace are over.  [justified] says what the writes of
    an open transaction amount to; every statement keeps it, given what its process
    holds. *)

From S2P Require Import Prelude Json GoTime Types Users A2A Prog Pg AccountStore Redis RateLimit AccountService AccountSystem.
Local Open Scope go_scope.

Section links.
Variables (deps : AccountDeps) (sql_canonical : string → string) (bcrypt_ok : string → string → bool).

Notation run := (AccountStore.run sql_canonical).

Definition typed (d : rows) : Prop := ∀ k r, d !! k = Some r → row_fits k r.
Definition edits_fit (w : edits) : Prop := ∀ k r, w !! k = Some (Some r) → row_fits k r.

Lemma typed_overlay w d : typed d → edits_fit w → typed (overlay w d).
Proof.
  intros Hd Hw k r. rewrite overlay_lookup. destruct (w !! k) as [v|] eqn:E; [|apply Hd]. intros ->. by apply Hw.
Qed.

Lemma user_at_Some id u d : typed d → user_at id d = Some u ↔ d !! KUser id = Some (RUser u).
Proof.
  intros Hd. unfold user_at. destruct (d !! KUser id) as [r|] eqn:E; [|done]. apply Hd in E.
  destruct r; try done. naive_solver.
Qed.

Lemma user_at_None id d : typed d → user_at id d = None ↔ d !! KUser id = None.
Proof.
  intros Hd. unfold user_at. destruct (d !! KUser id) as [r|] eqn:E; [|done]. apply Hd in E. by destruct r.
Qed.

Lemma user_at_id id u d : typed d → user_at id d = Some u → us_id u = id.
Proof. intros Hd Hu. apply user_at_Some in Hu; [|done]. by apply Hd in Hu. Qed.

Lemma link_at_Some k h l d : typed d → link_at k h d = Some l ↔ d !! KLink k h = Some (RLink l).
Proof.
  intros Hd. unfold link_at. destruct (d !! KLink k h) as [r|] eqn:E; [|done]. apply Hd in E.
  destruct r; try done. naive_solver.
Qed.

Lemma link_at_None k h d : typed d → link_at k h d = None ↔ d !! KLink k h = None.
Proof.
  intros Hd. unfold link_at. destruct (d !! KLink k h) as [r|] eqn:E; [|done]. apply Hd in E. by destruct r.
Qed.

(** ** The writes of a transaction *)

(** Link [h] of the account is usable in [d] and used up by [w]. *)
Definition uses (k : LinkKind) (h : string) (id : uuid) (w : edits) (d : rows) : Prop :=
  ∃ lk u c, d !! KLink k h = Some (RLink lk) ∧ d !! KUser id = Some (RUser u) ∧ li_user lk = id ∧ li_email lk = us_email u
    ∧ li_consumed lk = None ∧ (c < li_expires lk)%Z ∧ w !! KLink k h = Some (Some (RLink (consume c lk))).

Definition proven (by_ : option N) (k : LinkKind) (id : uuid) (w : edits) (d : rows) (l : list Entry) : Prop :=
  ∃ t h, by_ = Some t ∧ EPresented t k h id ∈ l ∧ uses k h id w d.

Definition checked (by_ : option N) (id : uuid) (l : list Entry) : Prop :=
  by_ = None ∧ ∃ hash pw, ESeen id hash ∈ l ∧ bcrypt_ok hash pw = true.

Definition erasable (now : Z) (u : User) (w : edits) (d : rows) : Prop :=
  (∃ r, us_deletion_requested_at u = Some r ∧ us_deletion_canceled_at u = None ∧ (r + days (ad_grace_days deps) < now)%Z)
  ∧ ∃ a row, d !! KAudit a = None ∧ w !! KAudit a = Some (Some (RAudit row))
      ∧ ar_user row = None ∧ ar_email row = us_email u ∧ ar_action row = "user_self_deleted".

Definition user_justified (by_ : option N) (now : Z) (l : list Entry) (w : edits) (d : rows) (id : uuid) (v : option Row) : Prop :=
  match d !! KUser id, v with
  | Some (RUser u), Some (RUser u') =>
      (us_password_hash u' ≠ us_password_hash u → proven by_ ResetLink id w d l ∨ checked by_ id l)
      ∧ (us_email_verified u = false → us_email_verified u' = true → proven by_ VerifyLink id w d l)
  | Some (RUser u), None => erasable now u w d
  | None, Some (RUser u') => us_email_verified u' = false
  | _, _ => True
  end.

Definition link_justified (w : edits) (d : rows) (k : LinkKind) (h : string) (v : option Row) : Prop :=
  match d !! KLink k h, v with
  | Some (RLink lk), Some (RLink lk') => lk' = lk ∨ (li_consumed lk = None ∧ ∃ c, lk' = consume c lk)
  | Some (RLink lk), None => w !! KUser (li_user lk) = Some None
  | _, _ => True
  end.

Definition justified (by_ : option N) (now : Z) (l : list Entry) (w : edits) (d : rows) : Prop :=
  edits_fit w
  ∧ (∀ id v, w !! KUser id = Some v → user_justified by_ now l w d id v)
  ∧ (∀ k h v, w !! KLink k h = Some v → link_justified w d k h v).

Lemma justified_empty by_ now l d : justified by_ now l ∅ d.
Proof. split_and!; [intros k r|intros id v|intros k h v]; by rewrite lookup_empty. Qed.

Lemma erasable_mono now now' u w d : (now ≤ now')%Z → erasable now u w d → erasable now' u w d.
Proof. intros Hn [(r & ? & ? & ?) ?]. split; [|done]. exists r. split_and!; [done..|lia]. Qed.

Lemma proven_mono by_ k id w d l l' : l ⊆ l' → proven by_ k id w d l → proven by_ k id w d l'.
Proof. intros Hl (t & h & ? & ? & ?). exists t, h. auto. Qed.

Lemma checked_mono by_ id l l' : l ⊆ l' → checked by_ id l → checked by_ id l'.
Proof. intros Hl (? & hash & pw & ? & ?). split; [done|]. exists hash, pw. auto. Qed.

Lemma justified_mono by_ now now' l l' w d :
  (now ≤ now')%Z → l ⊆ l' → justified by_ now l w d → justified by_ now' l' w d.
Proof.
  intros Hn Hl (Hf & Hu & Hk). split_and!; [done| |done]. intros id v Hv. specialize (Hu id v Hv).
  unfold user_justified in *. destruct (d !! KUser id) as [[u| | | | | | | |]|], v as [[u'| | | | | | | |]|]; try done.
  - destruct Hu as [Hp Hv']. split.
    + intros Hne. destruct (Hp Hne) as [H1|H1]; [left; by eapply proven_mono|right; by eapply checked_mono].
    + intros H1 H2. eapply proven_mono; eauto.
  - by eapply erasable_mono.
Qed.

Lemma uses_local k h id w d d' : is_Some (w !! KUser id) →
  (∀ k, k ∈ dom w → d !! k = d' !! k) → uses k h id w d → uses k h id w d'.
Proof.
  intros Hi Hd (lk & u & c & H1 & H2 & H3 & H4 & H5 & H6 & H7). exists lk, u, c.
  rewrite <- !Hd by (apply elem_of_dom; eauto). done.
Qed.

Lemma justified_local by_ now l w d d' :
  (∀ k, k ∈ dom w → d !! k = d' !! k) → justified by_ now l w d → justified by_ now l w d'.
Proof.
  intros Hd (Hf & Hu & Hk). split_and!; [done| |].
  - intros id v Hv. specialize (Hu id v Hv). unfold user_justified in *. assert (is_Some (w !! KUser id)) as Hi by eauto.
    rewrite <- Hd by by apply elem_of_dom.
    destruct (d !! KUser id) as [[u| | | | | | | |]|], v as [[u'| | | | | | | |]|]; try done.
    + destruct Hu as [Hp Hv']. split.
      * intros Hne. destruct (Hp Hne) as [(t & h & ? & ? & ?)|H1]; [left|by right]. exists t, h. split_and!; [done..|by eapply uses_local].
      * intros H1 H2. destruct (Hv' H1 H2) as (t & h & ? & ? & ?). exists t, h. split_and!; [done..|by eapply uses_local].
    + destruct Hu as [? (a & row & H1 & H2 & ?)]. split; [done|]. exists a, row. rewrite <- Hd by (apply elem_of_dom; eauto). done.
  - intros k h v Hv. specialize (Hk k h v Hv). unfold link_justified in *. rewrite <- Hd by (apply elem_of_dom; eauto). done.
Qed.

(** A commit of justified writes is in order. *)
Lemma commit_proven by_ now l w d : typed d → justified by_ now l w d →
  change_proven bcrypt_ok (ECommit by_ now d (overlay w d)) l
  ∧ links_spent (ECommit by_ now d (overlay w d)) l ∧ erasure_due deps (ECommit by_ now d (overlay w d)) l.
Proof.
  intros Hd Hj. pose proof Hj as (Hf & Hu & Hk). pose proof (typed_overlay w d Hd Hf) as Hd'.
  assert (∀ k t h id, EPresented t k h id ∈ l → uses k h id w d → link_used k t h id d (overlay w d) l) as Huse.
  { intros k t h id Hp (lk & u & c & H1 & H2 & H3 & H4 & H5 & H6 & H7). split; [done|]. exists lk, u, c.
    rewrite !link_at_Some, user_at_Some, overlay_lookup, H7 by done. done. }
  split_and!.
  - intros id u' Hu'. apply user_at_Some in Hu'; [|done]. rewrite overlay_lookup in Hu'.
    destruct (w !! KUser id) as [v|] eqn:Ew.
    + subst v. specialize (Hu id _ Ew). unfold user_justified in Hu.
      destruct (user_at id d) as [u|] eqn:Eu; [apply user_at_Some in Eu|apply user_at_None in Eu]; try done; rewrite Eu in Hu; [|done].
      destruct Hu as [Hp Hv]. split.
      * intros Hne. destruct (Hp Hne) as [(t & h & -> & ? & ?)|?]; [left; exists t, h; auto|by right].
      * intros H1 H2. destruct (Hv H1 H2) as (t & h & -> & ? & ?). exists t, h. auto.
    + apply user_at_Some in Hu'; [|done]. rewrite Hu'. split; congruence.
  - intros k h lk Hlk Hc. apply link_at_Some in Hlk; [|done]. rewrite link_at_Some, link_at_None, user_at_None, !overlay_lookup by done.
    destruct (w !! KLink k h) as [v|] eqn:Ew; [|by left]. specialize (Hk k h v Ew). unfold link_justified in Hk. rewrite Hlk in Hk.
    destruct v as [r|]; [|right; by rewrite Hk]. apply Hf in Ew. destruct r; try done.
    destruct Hk as [->|[Hn _]]; [by left|]. rewrite Hn in Hc. by destruct Hc.
  - intros id u Hu1 Hu2. apply user_at_Some in Hu1; [|done]. apply user_at_None in Hu2; [|done]. rewrite overlay_lookup in Hu2.
    destruct (w !! KUser id) as [v|] eqn:Ew; [subst v|congruence]. specialize (Hu id _ Ew). unfold user_justified in Hu.
    rewrite Hu1 in Hu. destruct Hu as [? (a & row & H1 & H2 & H3 & H4 & H5)]. split; [done|]. exists a, row.
    by rewrite overlay_lookup, H2.
Qed.

(** ** Statements that prove nothing and erase nothing *)

Definition harmless_edit (v : rows) (k : Key) (o : option Row) : Prop :=
  match k with
  | KUser id => ∃ u', o = Some (RUser u') ∧
      match v !! KUser id with
      | Some (RUser u) => us_password_hash u' = us_password_hash u ∧ us_email_verified u' = us_email_verified u
      | _ => us_email_verified u' = false
      end
  | KLink lk h => ∃ l', o = Some (RLink l') ∧
      match v !! KLink lk h with
      | Some (RLink l) => li_consumed l = None ∧ ∃ c, l' = consume c l
      | _ => True
      end
  | KAudit a => v !! KAudit a = None
  | _ => True
  end.

Definition harmless (w : edits) (v : rows) : Prop := edits_fit w ∧ ∀ k o, w !! k = Some o → harmless_edit v k o.

Definition no_erasure (w : edits) : Prop := ∀ id, w !! KUser id ≠ Some None.

Lemma harmless_empty v : harmless ∅ v.
Proof. split; [intros k r|intros k o]; by rewrite lookup_empty. Qed.

Lemma harmless_one k r v : row_fits k r → harmless_edit v k (Some r) → harmless {[k := Some r]} v.
Proof. intros Hf He. split; [intros k' r'|intros k' o]; by intros [<- [= <-]]%lookup_singleton_Some. Qed.

Lemma harmless_map (f : Key → Row → option (option Row)) v :
  typed v → (∀ k r o, v !! k = Some r → row_fits k r → f k r = Some o → (∀ r', o = Some r' → row_fits k r') ∧ harmless_edit v k o) →
  harmless (map_imap f v) v.
Proof.
  intros Hv Hf. split.
  - intros k r'. rewrite map_lookup_imap. destruct (v !! k) as [r|] eqn:E; [|done]. cbn. intros Ho.
    by destruct (Hf k r _ E (Hv _ _ E) Ho) as [Hr _]; apply Hr.
  - intros k o. rewrite map_lookup_imap. destruct (v !! k) as [r|] eqn:E; [|done]. cbn. intros Ho.
    by destruct (Hf k r _ E (Hv _ _ E) Ho) as [_ He].
Qed.

Lemma union_lookup (w' w : edits) k : (w' ∪ w) !! k = match w' !! k with Some o => Some o | None => w !! k end.
Proof. rewrite lookup_union. by destruct (w' !! k), (w !! k). Qed.

Lemma uses_union k h id w' w d : harmless w' (overlay w d) → uses k h id w d → uses k h id (w' ∪ w) d.
Proof.
  intros [_ Hh] (lk & u & c & H1 & H2 & H3 & H4 & H5 & H6 & H7). exists lk, u, c. split_and!; [done..|].
  rewrite union_lookup. destruct (w' !! KLink k h) as [o|] eqn:E; [|done]. apply Hh in E as (l' & -> & He).
  rewrite overlay_lookup, H7 in He. by destruct He.
Qed.

Lemma justified_harmless by_ now l w' w d :
  typed d → justified by_ now l w d → no_erasure w → harmless w' (overlay w d) →
  justified by_ now l (w' ∪ w) d ∧ no_erasure (w' ∪ w).
Proof.
  intros Hd (Hf & Hu & Hk) Hn Hh. pose proof Hh as [Hf' Hh'].
  assert (no_erasure (w' ∪ w)) as Hn'.
  { intros id. rewrite union_lookup. destruct (w' !! KUser id) as [o|] eqn:E; [|apply Hn]. by apply Hh' in E as (? & -> & _). }
  assert (∀ k id, proven by_ k id w d l → proven by_ k id (w' ∪ w) d l) as Hpr.
  { intros k id (t & h & ? & ? & ?). exists t, h. split_and!; [done..|by apply uses_union]. }
  split; [|done]. split_and!.
  - intros k r. rewrite union_lookup. destruct (w' !! k) eqn:E; [intros [= ->]; by apply Hf'|apply Hf].
  - intros id v Hv. assert (∃ u', v = Some (RUser u')) as [u' ->].
    { destruct v as [r|]; [|by apply Hn' in Hv]. assert (row_fits (KUser id) r) as Hr.
      { rewrite union_lookup in Hv. destruct (w' !! KUser id) eqn:E; [injection Hv as ->; by apply Hf'|by apply Hf]. }
      destruct r; try done. by eexists. }
    unfold user_justified. destruct (d !! KUser id) as [r|] eqn:Ed.
    + pose proof (Hd _ _ Ed) as Hr. destruct r as [u| | | | | | | |]; try done.
      assert (∀ u1, w !! KUser id = Some (Some (RUser u1)) →
        (us_password_hash u1 ≠ us_password_hash u → proven by_ ResetLink id (w' ∪ w) d l ∨ checked by_ id l)
        ∧ (us_email_verified u = false → us_email_verified u1 = true → proven by_ VerifyLink id (w' ∪ w) d l)) as Hold.
      { intros u1 H1. specialize (Hu id _ H1). unfold user_justified in Hu. rewrite Ed in Hu. destruct Hu as [Hp Hv'].
        split; [|auto]. intros Hne. destruct (Hp Hne); [left; auto|by right]. }
      rewrite union_lookup in Hv. destruct (w' !! KUser id) as [o|] eqn:E; [|by apply Hold].
      injection Hv as ->. apply Hh' in E as (u2 & [= <-] & He). rewrite overlay_lookup in He.
      destruct (w !! KUser id) as [[r|]|] eqn:Ew; [|by apply Hn in Ew|].
      * pose proof (Hf _ _ Ew) as Hr1. destruct r as [u1| | | | | | | |]; try done. destruct He as [-> ->]. by apply Hold.
      * rewrite Ed in He. destruct He as [-> ->]. split; congruence.
    + rewrite union_lookup in Hv. destruct (w' !! KUser id) as [o|] eqn:E.
      * injection Hv as ->. apply Hh' in E as (u2 & [= <-] & He). rewrite overlay_lookup in He.
        destruct (w !! KUser id) as [[r|]|] eqn:Ew; [|by apply Hn in Ew|].
        -- pose proof (Hf _ _ Ew) as Hr1. destruct r as [u1| | | | | | | |]; try done. destruct He as [_ ->].
           specialize (Hu id _ Ew). unfold user_justified in Hu. by rewrite Ed in Hu.
        -- by rewrite Ed in He.
      * specialize (Hu id _ Hv). unfold user_justified in Hu. by rewrite Ed in Hu.
  - intros k h v Hv. unfold link_justified. destruct (d !! KLink k h) as [r|] eqn:Ed; [|done].
    pose proof (Hd _ _ Ed) as Hr. destruct r as [|lk| | | | | | |]; try done. rewrite union_lookup in Hv.
    assert (∀ o, w !! KLink k h = Some o → ∃ lk1, o = Some (RLink lk1) ∧ (lk1 = lk ∨ li_consumed lk = None ∧ ∃ c, lk1 = consume c lk)) as Hold.
    { intros o Ho. specialize (Hk k h _ Ho). unfold link_justified in Hk. rewrite Ed in Hk. destruct o as [r|]; [|by apply Hn in Hk].
      apply Hf in Ho. destruct r; try done. eauto. }
    destruct (w' !! KLink k h) as [o|] eqn:E; [|destruct (Hold v Hv) as (lk1 & Ev & Hor); by rewrite Ev].
    injection Hv as ->. apply Hh' in E as (lk2 & -> & He). right. rewrite overlay_lookup in He.
    destruct (w !! KLink k h) as [o|] eqn:Ew.
    + destruct (Hold _ eq_refl) as (lk1 & -> & [->|[_ [c ->]]]); [done|by destruct He].
    + by rewrite Ed in He.
Qed.

Definition harmless_stmt {X} (q : Stmt X) : Prop :=
  match q with
  | UpdateUser _ _ _ _ | SetPasswordHash _ _ _ | SetVerified _ | DeleteUser _ | ConsumeLink _ _ | SelectPending _ _ => False
  | InsertUser u => us_email_verified u = false
  | _ => True
  end.

Lemma update_user_harmless id p f v : typed v →
  (∀ u, us_id (f u) = us_id u ∧ us_password_hash (f u) = us_password_hash u ∧ us_email_verified (f u) = us_email_verified u) →
  harmless (ef_writes (update_user id p f v)) v.
Proof.
  intros Hv Hf. unfold update_user. destruct (user_at id v) as [u|] eqn:E; [|apply harmless_empty].
  destruct (p u); [|apply harmless_empty]. pose proof (user_at_id _ _ _ Hv E) as Hid. apply user_at_Some in E; [|done].
  destruct (Hf u) as (H1 & H2 & H3). apply harmless_one; cbn; [congruence|]. exists (f u). rewrite E. done.
Qed.

Lemma run_harmless {X} (q : Stmt X) m held v : typed v → harmless_stmt q → harmless (ef_writes (run X q m held v)) v.
Proof.
  intros Hv Hq. destruct q; try done; unfold AccountStore.run, insert_user, select_user, select_by_email, mark_deletion, unmark_deletion, select_deletion, select_pending, select_upcoming, delete_user, insert_link, consume_link, invalidate_links, lookup_expired, insert_mail, mail_exists, cancel_mail, insert_consent, upsert_consent, withdraw_consent, select_consents, revoke_invitations, insert_audit; cbn [reads makes ef_writes]; try apply harmless_empty;
    try (by apply update_user_harmless).
  - destruct (_ || _) eqn:E; cbn; [apply harmless_empty|]. apply orb_false_iff in E as [E _].
    apply bool_decide_eq_false in E. apply harmless_one; cbn; [done|]. exists u. split; [done|].
    destruct (v !! KUser (us_id u)) eqn:E'; [|done]. by destruct E.
  - unfold update_address. destruct (user_at id v) as [u|] eqn:E; [|apply harmless_empty].
    destruct (email_taken _ _ _ _); cbn; [apply harmless_empty|]. pose proof (user_at_id _ _ _ Hv E) as Hid.
    apply user_at_Some in E; [|done]. apply harmless_one; cbn; [done|]. eexists. split; [done|]. by rewrite E.
  - destruct (user_at user v); [|apply harmless_empty]. case_bool_decide; [apply harmless_empty|].
    apply harmless_one; cbn; [done|]. eexists. split; [done|]. destruct (v !! KLink k hash) eqn:E; [|done]. by destruct H.
  - apply harmless_map; [done|]. intros key r o Hr Hfit. destruct key; try done. destruct r; try done.
    destruct (_ && _) eqn:E; [|done]. intros [= <-]. split; [by intros r' [= <-]|]. cbn. eexists. split; [done|]. rewrite Hr.
    apply andb_true_iff in E as [_ E]. apply negb_true_iff, bool_decide_eq_false, eq_None_not_Some in E. split; [done|by eexists].
  - case_bool_decide; [apply harmless_empty|]. by apply harmless_one.
  - apply harmless_map; [done|]. intros key r o Hr Hfit. destruct key; try done. destruct r; try done.
    destruct (_ && _); [|done]. intros [= <-]. split; [by intros r' [= <-]|done].
  - destruct (user_at user v); [|apply harmless_empty]. case_bool_decide; [apply harmless_empty|]. by apply harmless_one.
  - destruct (user_at _ v); [|apply harmless_empty]. by apply harmless_one.
  - destruct (v !! KConsent user purpose) as [r|]; [|apply harmless_empty]. destruct r; try apply harmless_empty.
    case_bool_decide; [apply harmless_empty|]. by apply harmless_one.
  - apply harmless_map; [done|]. intros key r o Hr Hfit. destruct key; try done. destruct r; try done.
    destruct (_ && _); [|done]. intros [= <-]. split; [by intros r' [= <-]|done].
  - case_bool_decide as E; [apply harmless_empty|]. apply harmless_one; [done|]. cbn.
    destruct (v !! KAudit (mo_id m)) eqn:E'; [|done]. by destruct E.
Qed.

(** ** Statements that prove something *)

Lemma uses_link k h id w w' d : w' !! KLink k h = w !! KLink k h → uses k h id w d → uses k h id w' d.
Proof. intros Hw (lk & u & c & H). exists lk, u, c. by rewrite Hw. Qed.

(** A change of one account, whatever justifies it, in a transaction that changed none. *)
Lemma justified_user by_ now l w d id u' :
  justified by_ now l w d → (∀ j, w !! KUser j = None) → us_id u' = id →
  user_justified by_ now l ({[KUser id := Some (RUser u')]} ∪ w) d id (Some (RUser u')) →
  justified by_ now l ({[KUser id := Some (RUser u')]} ∪ w) d ∧ no_erasure ({[KUser id := Some (RUser u')]} ∪ w).
Proof.
  intros (Hf & Hu & Hk) Hn Hid Hj.
  assert (∀ k, k ≠ KUser id → ({[KUser id := Some (RUser u')]} ∪ w : edits) !! k = w !! k) as Hne.
  { intros k Hk'. rewrite union_lookup, lookup_singleton_ne by done. done. }
  assert (({[KUser id := Some (RUser u')]} ∪ w : edits) !! KUser id = Some (Some (RUser u'))) as Heq.
  { by rewrite union_lookup, lookup_singleton_eq. }
  split; [split_and!|].
  - intros k r. destruct (decide (k = KUser id)) as [->|Hk']; [rewrite Heq; by intros [= <-]|rewrite Hne by done; apply Hf].
  - intros j v. destruct (decide (j = id)) as [->|Hj']; [rewrite Heq; by intros [= <-]|rewrite Hne, Hn by congruence; done].
  - intros k h v Hv. rewrite Hne in Hv by done. specialize (Hk k h v Hv). unfold link_justified in *.
    destruct (d !! KLink k h) as [[|lk| | | | | | |]|]; try done. destruct v as [r|]; [done|]. by rewrite Hn in Hk.
  - intros j. destruct (decide (j = id)) as [->|Hj']; [by rewrite Heq|rewrite Hne, Hn by congruence; done].
Qed.

Lemma view_user w d id : w !! KUser id = None → user_at id (overlay w d) = user_at id d.
Proof. intros Hw. unfold user_at. by rewrite overlay_lookup, Hw. Qed.

(** The statement behind [SetPasswordHash] and [SetVerified], after a link was used. *)
Lemma update_user_proven t now l k h id f w d :
  typed d → justified (Some t) now l w d → (∀ j, w !! KUser j = None) → EPresented t k h id ∈ l → uses k h id w d →
  (∀ u, us_id (f u) = us_id u) →
  (∀ u, k = ResetLink ∧ us_email_verified (f u) = us_email_verified u ∨ k = VerifyLink ∧ us_password_hash (f u) = us_password_hash u) →
  let w' := ef_writes (update_user id (λ _, true) f (overlay w d)) ∪ w in justified (Some t) now l w' d ∧ no_erasure w'.
Proof.
  intros Hd Hj Hn Hp Hu Hid Hf. pose proof Hu as (lk & u & c & _ & Hud & _). cbn. unfold update_user.
  rewrite view_user by done. apply user_at_Some in Hud as Hua; [|done]. rewrite Hua. cbn.
  apply justified_user; [done..| |].
  - rewrite Hid. by apply (Hd _ _ Hud).
  - unfold user_justified. rewrite Hud.
    assert (proven (Some t) k id ({[KUser id := Some (RUser (f u))]} ∪ w) d l) as Hpr.
    { exists t, h. split_and!; [done..|]. eapply uses_link; [|exact Hu]. by rewrite union_lookup, lookup_singleton_ne. }
    destruct (Hf u) as [[-> E]|[-> E]]; split; try congruence; auto.
Qed.

Lemma consume_uses now l t k h w d x held (e := run _ (ConsumeLink k h) x held (overlay ∅ d)) :
  typed d → w = ef_writes e ∪ ∅ → justified (Some t) now l w d ∧ no_erasure w ∧ (∀ j, w !! KUser j = None)
    ∧ ∀ id email, ef_out e = Ok (Some (id, email)) → uses k h id w d ∧ KUser id ∈ ef_locks e.
Proof.
  intros Hd ->. subst e. rewrite overlay_empty.
  assert (justified (Some t) now l (∅ ∪ ∅) d ∧ no_erasure (∅ ∪ ∅) ∧ (∀ j, (∅ ∪ ∅ : edits) !! KUser j = None)
    ∧ ∀ id email, (Ok None : result DbError (option (uuid * string))) = Ok (Some (id, email)) →
        uses k h id (∅ ∪ ∅) d ∧ KUser id ∈ (∅ : gset Key)) as Hnone.
  { rewrite !map_union_empty. split; [apply justified_empty|]. split; [intros j; by rewrite lookup_empty|].
    split; [intros j; by rewrite lookup_empty|done]. }
  cbn. destruct (link_at k h d) as [lk|] eqn:El.
  2: { exact Hnone. }
  destruct (user_at (li_user lk) d) as [u|] eqn:Eu.
  2: { exact Hnone. }
  apply link_at_Some in El; [|done]. apply user_at_Some in Eu; [|done]. destruct (live_link _ _ _) eqn:Ev; cbn.
  2: { destruct Hnone as (? & ? & ? & _). split_and!; done. }
  rewrite !map_union_empty.
  unfold live_link in Ev. rewrite !andb_true_iff in Ev. destruct Ev as [[Ev1 Ev2] Ev3].
  apply negb_true_iff, bool_decide_eq_false, eq_None_not_Some in Ev1. apply Z.ltb_lt in Ev2. apply String.eqb_eq in Ev3.
  split_and!.
  - split_and!; [by intros k' r [<- [= <-]]%lookup_singleton_Some|by intros j v [? _]%lookup_singleton_Some|].
    intros k' h' v [[= <- <-] <-]%lookup_singleton_Some. unfold link_justified. rewrite El. right. eauto.
  - intros j. by rewrite lookup_singleton_ne.
  - intros j. by rewrite lookup_singleton_ne.
  - intros id email [= <- <-]. split; [|set_solver]. exists lk, u, (mo_now x). rewrite lookup_singleton_eq. done.
Qed.

(** A password changed by who knew the one before. *)
Lemma update_checked now l id email hash at_ m held d :
  typed d → checked None id l → justified None now l (ef_writes (run _ (UpdateUser id email hash at_) m held d)) d.
Proof.
  intros Hd Hc. cbn. unfold update_address. destruct (user_at id d) as [u|] eqn:Eu; [|apply justified_empty].
  destruct (email_taken _ _ _ _); cbn; [apply justified_empty|]. apply user_at_Some in Eu as Hu; [|done].
  rewrite <- (map_union_empty {[KUser id := _]}). eapply justified_user; [apply justified_empty|done|by apply (Hd _ _ Hu)|].
  unfold user_justified. rewrite Hu. split; [by right|]. cbn. congruence.
Qed.

(** ** The sweep *)

Definition due (bound : Z) (id : uuid) (d : rows) : Prop := ∃ u r,
  d !! KUser id = Some (RUser u) ∧ us_deletion_requested_at u = Some r ∧ us_deletion_canceled_at u = None ∧ (r < bound)%Z.

(** The writes of a sweep erase; the accounts it goes through are locked and due. *)
Definition swept (ids : list uuid) (bound : Z) (w : edits) (locks : gset Key) (d : rows) : Prop :=
  (∀ id v, w !! KUser id = Some v → v = None) ∧ (∀ k h v, w !! KLink k h = Some v → v = None)
  ∧ (∀ a, w !! KAudit a ≠ Some None) ∧ ∀ id, id ∈ ids → KUser id ∈ locks ∧ due bound id d.

Lemma elem_of_users u d : typed d → u ∈ users d → d !! KUser (us_id u) = Some (RUser u).
Proof.
  intros Hd Hu. unfold users in Hu. apply list_elem_of_omap in Hu as ([k r] & Hk & Hr).
  apply elem_of_map_to_list in Hk. destruct k; try done. destruct r; try done. injection Hr as <-.
  by rewrite (Hd _ _ Hk : us_id _ = _).
Qed.

Lemma pending_swept before limit m held d (e := run _ (SelectPending before limit) m held d) ids :
  typed d → ef_out e = Ok ids → swept ids before ∅ (ef_locks e) d ∧ ef_writes e = ∅.
Proof.
  intros Hd Hids. subst e. cbn in *. injection Hids as <-. split; [|done].
  split_and!; [intros id v; by rewrite lookup_empty|intros k h v; by rewrite lookup_empty|intros a; by rewrite lookup_empty|].
  intros id Hid. apply list_elem_of_fmap in Hid as (u & -> & Hu). split.
  - apply elem_of_list_to_set, list_elem_of_fmap. eauto.
  - apply (subseteq_take limit) in Hu. rewrite stable_sort_perm, elem_of_filterb in Hu. destruct Hu as [Hp Hu].
    apply elem_of_users in Hu; [|done]. rewrite !andb_true_iff in Hp. destruct Hp as [[Hp Hr] _].
    unfold pending in Hp. rewrite andb_true_iff in Hp. destruct Hp as [_ Hc].
    apply negb_true_iff, bool_decide_eq_false, eq_None_not_Some in Hc.
    destruct (us_deletion_requested_at u) as [r|] eqn:Er; [|done]. exists u, r. split_and!; [done..|lia].
Qed.

(** The account [id] was read, and its audit row written. *)
Definition farewell (id : uuid) (email : string) (w : edits) (d : rows) : Prop :=
  ∃ a row, d !! KAudit a = None ∧ w !! KAudit a = Some (Some (RAudit row))
    ∧ ar_user row = Some id ∧ ar_email row = email ∧ ar_action row = "user_self_deleted".

Lemma erase_lookup id v k : (map_imap (cascade id) v : edits) !! k = match v !! k with Some r => cascade id k r | None => None end.
Proof. rewrite map_lookup_imap. by destruct (v !! k). Qed.

Lemma cascade_fits id k r o : row_fits k r → cascade id k r = Some (Some o) → row_fits k o.
Proof. destruct k, r; cbn; try done; case_bool_decide; try done. by intros _ [= <-]. Qed.

Lemma erase_swept ids bound w locks locks' id d :
  swept ids bound w locks d → locks ⊆ locks' → swept ids bound (map_imap (cascade id) (overlay w d) ∪ w) locks' d.
Proof.
  intros (Hu & Hk & Ha & Hi) Hl. split_and!.
  - intros j v. rewrite union_lookup, erase_lookup. destruct (overlay w d !! KUser j) as [r|]; [|apply Hu].
    cbn. destruct (bool_decide (j = id)); [by intros [= <-]|apply Hu].
  - intros k h v. rewrite union_lookup, erase_lookup. destruct (overlay w d !! KLink k h) as [r|]; [|apply Hk].
    cbn. destruct r as [|lk| | | | | | |]; try apply Hk. case_bool_decide; [by intros [= <-]|apply Hk].
  - intros a. rewrite union_lookup, erase_lookup. destruct (overlay w d !! KAudit a) as [r|]; [|apply Ha].
    cbn. destruct r; try apply Ha. by case_bool_decide.
  - intros j Hj. destruct (Hi j Hj). split; [set_solver|done].
Qed.

Lemma erasable_erase now u id w d :
  erasable now u w d → erasable now u (map_imap (cascade id) (overlay w d) ∪ w) d.
Proof.
  intros [Hr (a & row & H1 & H2 & H3 & H4 & H5)]. split; [done|]. exists a, row. split_and!; try done.
  rewrite union_lookup, erase_lookup, overlay_lookup, H2. cbn. by rewrite bool_decide_eq_false_2 by by rewrite H3.
Qed.

(** Erasing an account that is due, its audit row written. *)
Lemma justified_erase by_ now l w locks ids bound id email d :
  typed d → justified by_ now l w d → swept ids bound w locks d → id ∈ ids → (bound + days (ad_grace_days deps) ≤ now)%Z →
  (∀ u, d !! KUser id = Some (RUser u) → us_email u = email) → farewell id email w d →
  w !! KUser id = None → justified by_ now l (map_imap (cascade id) (overlay w d) ∪ w) d.
Proof.
  intros Hd (Hf & Hu & Hk) (Hs1 & Hs2 & _ & Hs3) Hid Hb He (a & row & A1 & A2 & A3 & A4 & A5) Hw.
  destruct (Hs3 id Hid) as [_ (u & r & D1 & D2 & D3 & D4)].
  assert ((map_imap (cascade id) (overlay w d) ∪ w : edits) !! KUser id = Some None) as Hgone.
  { rewrite union_lookup, erase_lookup, overlay_lookup, Hw, D1. cbn. by rewrite bool_decide_eq_true_2. }
  pose proof (typed_overlay w d Hd Hf) as Ht. split_and!.
  - intros k o. rewrite union_lookup, erase_lookup. destruct (overlay w d !! k) as [r'|] eqn:E; [|apply Hf].
    destruct (cascade id k r') as [o'|] eqn:Ec; [|apply Hf]. intros [= ->]. eapply cascade_fits; [by apply Ht|done].
  - intros j v Hv. destruct (decide (j = id)) as [->|Hj].
    + rewrite Hgone in Hv. injection Hv as <-. unfold user_justified. rewrite D1. split; [exists r; split_and!; [done..|lia]|].
      exists a, {| ar_user := None; ar_email := ar_email row; ar_action := ar_action row; ar_details := ar_details row |}.
      split_and!; try done; [|by rewrite (He u D1)].
      rewrite union_lookup, erase_lookup, overlay_lookup, A2. cbn. by rewrite bool_decide_eq_true_2.
    + rewrite union_lookup, erase_lookup in Hv.
      assert (w !! KUser j = Some v) as Hv'.
      { destruct (overlay w d !! KUser j); [|done]. cbn in Hv. by rewrite bool_decide_eq_false_2 in Hv. }
      specialize (Hs1 j v Hv') as ->. specialize (Hu j _ Hv'). unfold user_justified in *.
      destruct (d !! KUser j) as [[u'| | | | | | | |]|]; try done. by apply erasable_erase.
  - intros k h v Hv. rewrite union_lookup, erase_lookup in Hv. unfold link_justified.
    destruct (w !! KLink k h) as [v'|] eqn:Ew.
    + specialize (Hs2 k h v' Ew) as ->. rewrite overlay_lookup, Ew in Hv. injection Hv as <-. specialize (Hk k h _ Ew).
      unfold link_justified in Hk. destruct (d !! KLink k h) as [[|lk| | | | | | |]|]; try done.
      rewrite union_lookup, erase_lookup, overlay_lookup, Hk. done.
    + rewrite overlay_lookup, Ew in Hv. destruct (d !! KLink k h) as [[|lk| | | | | | |]|]; try done. cbn in Hv.
      case_bool_decide as Hlk; [|done]. injection Hv as <-. by rewrite Hlk.
Qed.

(** One more audit row. *)
Lemma justified_audit by_ now l w d a row :
  justified by_ now l w d → overlay w d !! KAudit a = None → justified by_ now l ({[KAudit a := Some (RAudit row)]} ∪ w) d.
Proof.
  intros (Hf & Hu & Hk) Ha.
  assert (∀ k, k ≠ KAudit a → ({[KAudit a := Some (RAudit row)]} ∪ w : edits) !! k = w !! k) as Hne.
  { intros k Hk'. by rewrite union_lookup, lookup_singleton_ne. }
  assert (∀ k v, w !! KAudit a = Some (Some v) → k = KAudit a → False) as Hno.
  { intros k v Hv _. by rewrite overlay_lookup, Hv in Ha. }
  split_and!.
  - intros k r. destruct (decide (k = KAudit a)) as [->|Hk']; [|rewrite Hne by done; apply Hf].
    rewrite union_lookup, lookup_singleton_eq. by intros [= <-].
  - intros id v Hv. rewrite Hne in Hv by done. specialize (Hu id v Hv). unfold user_justified in *.
    assert (∀ k, proven by_ k id w d l → proven by_ k id ({[KAudit a := Some (RAudit row)]} ∪ w) d l) as Hp.
    { intros k (t & h & ? & ? & ?). exists t, h. split_and!; [done..|]. eapply uses_link; [|done]. by apply Hne. }
    destruct (d !! KUser id) as [[u| | | | | | | |]|], v as [[u'| | | | | | | |]|]; try done.
    + destruct Hu as [Hpw Hv']. split; [|auto]. intros Hn. destruct (Hpw Hn); auto.
    + destruct Hu as [? (a' & row' & H1 & H2 & ?)]. split; [done|]. exists a', row'. rewrite Hne; [done|].
      intros [= ->]. by eapply Hno.
  - intros k h v Hv. rewrite Hne in Hv by done. specialize (Hk k h v Hv). unfold link_justified in *.
    destruct (d !! KLink k h) as [[|lk| | | | | | |]|]; try done. destruct v; [done|]. by rewrite Hne.
Qed.
End links.
