(* ===== verification/AccountSafety.v ===== *)
(** * Accounts are safe

    What a process of AccountSystem.v holds between two calls, as a stage of its
    transaction, and the invariant of the system: every open transaction is justified,
    every commit so far was.  Each operation of AccountService.v keeps to the stages. *)

From S2P Require Import Prelude Json GoTime Types Users A2A Prog Pg AccountStore Redis RateLimit AccountService AccountSystem AccountLinks.
Local Open Scope go_scope.

(** ** Stages *)

Inductive Phase := Scan | Read (id : uuid) (email : string) | Audited (id : uuid) (email : string).

(** No transaction, and none with an account read, or the time; a transaction begun (with
    the time read before it), one that wrote harmless rows, one whose link was presented,
    and a sweep through [ids]. *)
Inductive Stage :=
| Idle
| Saw (id : uuid) (hash : string)
| Timed (now : Z)
| Began (t : N) (clock : option Z)
| Plain (t : N)
| Presented (t : N) (k : LinkKind) (hash : string) (id : uuid)
| Sweep (t : N) (ids : list uuid) (bound : Z) (ph : Phase).

Definition stage_txn (h : Stage) : option N :=
  match h with
  | Idle | Saw _ _ | Timed _ => None
  | Began t _ | Plain t | Presented t _ _ _ | Sweep t _ _ _ => Some t
  end.

Definition clock_of (h : Stage) : option Z := match h with Timed n => Some n | _ => None end.

Section safety.
Context {U : UUIDText}.
Variables (deps : AccountDeps) (sql_canonical : string → string) (bcrypt_ok : string → string → bool).

Notation run := (AccountStore.run sql_canonical).
Notation justified := (justified deps bcrypt_ok).
Notation checked := (checked bcrypt_ok).

(** What a statement in a transaction makes of a stage. *)
Definition inside {X} (q : Stmt X) (h : Stage) : result DbError X → Stage → Prop :=
  match h with
  | Began t clock =>
      match q in Stmt X return result DbError X → Stage → Prop with
      | ConsumeLink k hash => λ r h', h' = match r with Ok (Some (id, _)) => Presented t k hash id | _ => Plain t end
      | SelectPending before _ => λ r h', ∃ n, clock = Some n ∧ (before + days (ad_grace_days deps) ≤ n)%Z
          ∧ h' = match r with Ok ids => Sweep t ids before Scan | Err _ => Plain t end
      | q => λ _ h', harmless_stmt q ∧ h' = Plain t
      end
  | Plain t => λ _ h', harmless_stmt q ∧ h' = Plain t
  | Presented t k _ id =>
      match q in Stmt X return result DbError X → Stage → Prop with
      | SetPasswordHash id' _ _ => λ _ h', k = ResetLink ∧ id' = id ∧ h' = Plain t
      | SetVerified id' => λ _ h', k = VerifyLink ∧ id' = id ∧ h' = Plain t
      | _ => λ _ _, False
      end
  | Sweep t ids bound ph =>
      match q in Stmt X return result DbError X → Stage → Prop with
      | SelectUser _ id => λ r h', id ∈ ids
          ∧ h' = Sweep t ids bound (match r with Ok (Some u) => Read id (us_email u) | _ => Scan end)
      | InsertAudit a => λ r h', ∃ id email, ph = Read id email ∧ ar_user a = Some id ∧ ar_email a = email
          ∧ ar_action a = "user_self_deleted" ∧ h' = Sweep t ids bound (match r with Ok _ => Audited id email | Err _ => Scan end)
      | DeleteUser id => λ _ h', ∃ email, ph = Audited id email ∧ h' = Sweep t ids bound Scan
      | _ => λ _ _, False
      end
  | _ => λ _ _, False
  end.

(** A statement alone. *)
Definition alone {X} (q : Stmt X) (h : Stage) : result DbError X → Stage → Prop :=
  match q in Stmt X return result DbError X → Stage → Prop with
  | SelectUser _ _ | SelectUserByEmail _ _ => λ r h',
      h' = h ∨ (stage_txn h = None ∧ ∃ u, r = Ok (Some u) ∧ h' = Saw (us_id u) (us_password_hash u))
  | UpdateUser id _ _ _ => λ _ h', h' = h ∧ ∃ hash pw, h = Saw id hash ∧ bcrypt_ok hash pw = true
  | q => λ _ h', harmless_stmt q ∧ h' = h
  end.

Definition in_sweep (t : N) (h : Stage) : Prop := match h with Sweep t' _ _ _ => t' = t | _ => False end.
Definition scanning (h : Stage) : Stage := match h with Sweep t ids bound _ => Sweep t ids bound Scan | h => h end.

Definition pg_moves {B} (c : PgCall Stmt B) (h : Stage) : B → Stage → Prop :=
  match c in PgCall _ B return B → Stage → Prop with
  | BeginC => λ r h', stage_txn h = None ∧ h' = match r with Ok t => Began t (clock_of h) | Err _ => Idle end
  | ExecC None q => alone q h
  | ExecC (Some t) q => λ r h', stage_txn h = Some t ∧ inside q h r h'
  | SaveC t => λ _ h', in_sweep t h ∧ h' = h
  | ReleaseC t => λ _ h', in_sweep t h ∧ h' = scanning h
  | RestoreC t => λ _ h', in_sweep t h ∧ h' = scanning h
  | CommitC t => λ r h', stage_txn h = Some t ∧ h' = if is_ok r then Idle else h
  | RollbackC t => λ _ h', stage_txn h = Some t ∧ h' = Idle
  end.

Definition moves {B} (c : AccountCall B) (h : Stage) : B → Stage → Prop :=
  match c in AccountCall B return B → Stage → Prop with
  | PgC c => pg_moves c h
  | NowC => λ now h', h' = h ∨ (stage_txn h = None ∧ h' = Timed now)
  | _ => λ _ h', h' = h
  end.

(** Whatever the answer, the process may choose a stage to go on from. *)
Definition spec B (c : AccountCall B) (h : Stage) (K : B → Stage → Prop) : Prop := ∀ b, ∃ h', moves c h b h' ∧ K b h'.

Lemma spec_mono : monotone spec.
Proof. intros B c h K K' HK Hs b. destruct (Hs b) as (h' & Hm & Hk). eauto. Qed.

(** ** What the stages say *)

Definition fact (h : Stage) (x : Txn) (d : rows) : Prop :=
  match h with
  | Began t _ => tx_writes x = ∅ ∧ tx_saved x = []
  | Plain t => no_erasure (tx_writes x)
  | Presented t k hash id =>
      (∀ j, tx_writes x !! KUser j = None) ∧ KUser id ∈ tx_locks x ∧ uses k hash id (tx_writes x) d
  | Sweep t ids bound ph =>
      swept ids bound (tx_writes x) (tx_locks x) d ∧ Forall (λ s, swept ids bound s.1 s.2 d) (tx_saved x)
      ∧ match ph with
        | Scan => True
        | Read id email => id ∈ ids ∧ ∀ u, d !! KUser id = Some (RUser u) → us_email u = email
        | Audited id email => id ∈ ids ∧ (∀ u, d !! KUser id = Some (RUser u) → us_email u = email)
            ∧ farewell id email (tx_writes x) d
        end
  | _ => True
  end.

Definition remembers (h : Stage) (now : Z) (l : list Entry) : Prop :=
  match h with
  | Saw id hash => ESeen id hash ∈ l
  | Timed n | Began _ (Some n) => (n ≤ now)%Z
  | Presented t k hash id => EPresented t k hash id ∈ l
  | Sweep _ _ bound _ => (bound + days (ad_grace_days deps) ≤ now)%Z
  | _ => True
  end.

Definition holds (p : Pg) (now : Z) (l : list Entry) (h : Stage) : Prop :=
  remembers h now l
  ∧ ∀ t, stage_txn h = Some t → (t < pg_next p)%N ∧ ∀ x, pg_open p !! t = Some x → fact h x (pg_rows p).

Definition apart (hs : list Stage) : Prop := ∀ i j hi hj t,
  hs !! i = Some hi → hs !! j = Some hj → stage_txn hi = Some t → stage_txn hj = Some t → i = j.

Definition in_order (s : Store) : Prop :=
  pg_ok (st_pg s) ∧ typed (pg_rows (st_pg s))
  ∧ all_justified (λ t, justified (Some t) (st_now s) (st_log s)) (st_pg s)
  ∧ log_all (λ e l, change_proven bcrypt_ok e l ∧ links_spent e l ∧ erasure_due deps e l) (st_log s).

Definition safe (s : Store) (hs : list Stage) : Prop :=
  in_order s ∧ Forall (holds (st_pg s) (st_now s) (st_log s)) hs ∧ apart hs.

(** ** The invariant *)

Lemma remembers_mono h now now' l l' : (now ≤ now')%Z → l ⊆ l' → remembers h now l → remembers h now' l'.
Proof. intros Hn Hl. destruct h as [|? ?|?|? [?|]|?|? ? ? ?|? ? ? ?]; cbn; try lia; auto. Qed.

Lemma fact_local h x d d' : txn_ok x → (∀ k, k ∈ tx_locks x → d !! k = d' !! k) → fact h x d → fact h x d'.
Proof.
  intros [Hw Hs] Hd. destruct h as [| | | | |t k hash id|t ids bound ph]; cbn; try done.
  - intros (H1 & H2 & lk & u & c & H3 & H4 & H5). split_and!; [done..|]. exists lk, u, c.
    rewrite <- !Hd; [done|done|]. apply Hw, elem_of_dom. destruct H5 as (_ & _ & _ & _ & H5). eauto.
  - assert (∀ id, id ∈ ids → KUser id ∈ tx_locks x → due bound id d → due bound id d') as Hdue.
    { intros id _ Hk (u & r & H1 & H2). exists u, r. by rewrite <- Hd. }
    intros ((S1 & S2 & S0 & S3) & Hall & Hph). split_and!.
    + split_and!; [done..|]. intros id Hid. destruct (S3 id Hid). auto.
    + eapply Forall_impl; [exact Hall|]. intros [w l] (T1 & T2 & T0 & T3). split_and!; [done..|].
      intros id Hid. destruct (T3 id Hid), (S3 id Hid). auto.
    + destruct ph as [|id email|id email]; [done| |].
      * destruct Hph as [Hid Hu]. split; [done|]. intros u. rewrite <- Hd; [apply Hu|by apply S3].
      * destruct Hph as (Hid & Hu & a & row & F1 & F2 & F3). split_and!; [done| |].
        -- intros u. rewrite <- Hd; [apply Hu|by apply S3].
        -- exists a, row. rewrite <- Hd; [done|]. apply Hw, elem_of_dom. eauto.
Qed.

Lemma harmless_exec {X} (q : Stmt X) by_ now l m held w d :
  typed d → justified by_ now l w d → no_erasure w → harmless_stmt q →
  let e := run X q m held (overlay w d) in justified by_ now l (ef_writes e ∪ w) d ∧ no_erasure (ef_writes e ∪ w).
Proof.
  intros Hd Hj Hn Hq. apply justified_harmless; [done..|]. apply run_harmless; [|done].
  apply typed_overlay; [done|]. by destruct Hj.
Qed.

Lemma no_erasure_empty : no_erasure ∅.
Proof. intros id. by rewrite lookup_empty. Qed.

(** A statement a stage allows keeps the transaction justified ... *)
Lemma exec_justified {X} (q : Stmt X) t h r h' x m held d now l :
  typed d → justified (Some t) now l (tx_writes x) d → remembers h now l → fact h x d → stage_txn h = Some t →
  inside q h r h' → justified (Some t) now l (ef_writes (run X q m held (overlay (tx_writes x) d)) ∪ tx_writes x) d.
Proof.
  intros Hd Hj Hr Hf Ht Hi.
  destruct h as [| | |t' clock|t'|t' k hash id|t' ids bound ph]; try done; injection Ht as ->; cbn in Hf, Hi.
  - destruct Hf as [Hw _]. assert (no_erasure (tx_writes x)) as Hn by (rewrite Hw; apply no_erasure_empty).
    destruct q; try (destruct Hi as [Hq _]; by apply harmless_exec); [cbn; by rewrite map_empty_union|].
    rewrite Hw. by eapply consume_uses.
  - destruct Hi as [Hq _]. by apply harmless_exec.
  - destruct Hf as (Hn & _ & Hu). destruct q; try done; destruct Hi as (-> & -> & _); cbn.
    + by eapply (update_user_proven deps bcrypt_ok t now l ResetLink hash); auto.
    + by eapply (update_user_proven deps bcrypt_ok t now l VerifyLink hash); auto.
  - destruct Hf as (Hs & _ & Hph). pose proof Hs as (Hs1 & _). destruct q; try done; cbn.
    + cbn. by rewrite map_empty_union.
    + destruct Hi as (email & -> & _). destruct Hph as (Hid & Hu & Hfw).
      destruct (user_at id (overlay (tx_writes x) d)) as [u|] eqn:Eu; [|cbn; by rewrite map_empty_union].
      destruct (_ || _); [cbn; by rewrite map_empty_union|]. eapply justified_erase; [done..|].
      destruct (tx_writes x !! KUser id) as [v|] eqn:Ew; [|done]. specialize (Hs1 id v Ew) as ->.
      unfold user_at in Eu. by rewrite overlay_lookup, Ew in Eu.
    + case_bool_decide as Ha; cbn; [cbn; by rewrite map_empty_union|]. apply justified_audit; [done|by apply eq_None_not_Some].
Qed.

(** ... and leads to the stage the answer calls for. *)
Lemma exec_fact {X} (q : Stmt X) t h h' x m held d now l (e := run X q m held (overlay (tx_writes x) d)) :
  typed d → justified (Some t) now l (tx_writes x) d → remembers h now l → fact h x d → stage_txn h = Some t →
  inside q h (ef_out e) h' → fact h' (performed e x) d.
Proof.
  intros Hd Hj Hr Hf Ht Hi.
  destruct h as [| | |t' clock|t'|t' k hash id|t' ids bound ph]; try done; injection Ht as ->; cbn in Hf, Hi.
  - destruct Hf as [Hw Hsv]. assert (no_erasure (tx_writes x)) as Hn by (rewrite Hw; apply no_erasure_empty).
    destruct q; try (destruct Hi as [Hq ->]; by eapply harmless_exec).
    + destruct Hi as (n & -> & Hn' & ->). subst e. rewrite Hw, overlay_empty.
      destruct (pending_swept sql_canonical before limit m held d _ Hd eq_refl) as [Hsw He].
      cbn. rewrite Hsv, Hw, dom_empty_L, map_union_empty. split_and!; [|constructor|done].
      destruct Hsw as (S1 & S2 & S0 & S3). split_and!; [done..|]. intros id Hid. destruct (S3 id Hid). split; [set_solver|done].
    + subst e h'. destruct (consume_uses deps sql_canonical bcrypt_ok now l t k hash _ d m held Hd eq_refl) as (_ & H1 & H2 & H3).
      rewrite Hw in *. destruct (ef_out _) as [[[id email]|]|err] eqn:Eo; cbn; rewrite Hw; [|done..].
      destruct (H3 id email eq_refl) as [? ?]. split_and!; [done|set_solver|done].
  - destruct Hi as [Hq ->]. by eapply harmless_exec.
  - destruct Hf as (Hn & _ & Hu). destruct q; try done; destruct Hi as (-> & -> & ->).
    + by eapply (update_user_proven deps bcrypt_ok t now l ResetLink hash); auto.
    + by eapply (update_user_proven deps bcrypt_ok t now l VerifyLink hash); auto.
  - destruct Hf as (Hs & Hsv & Hph). destruct q; try done; cbn in Hi.
    + destruct Hi as [Hid ->]. cbn. rewrite !map_empty_union, dom_empty_L, !union_empty_l_L.
      split_and!; [done..|]. destruct (user_at id _) as [u|] eqn:Eu; [|done]. destruct (visible _ _); [|done].
      split; [done|]. intros u' Hu'. destruct Hs as (S1 & _). unfold user_at in Eu. rewrite overlay_lookup in Eu.
      destruct (tx_writes x !! KUser id) as [v|] eqn:Ew; [by rewrite (S1 id v Ew) in Eu|]. rewrite Hu' in Eu. by injection Eu as ->.
    + destruct Hi as (email & _ & ->). subst e. cbn. destruct (user_at id _); [destruct (_ || _)|]; cbn;
        rewrite ?map_empty_union, ?dom_empty_L, ?union_empty_l_L; split_and!; try done.
      eapply erase_swept; [done|set_solver].
    + destruct Hi as (id & email & -> & Ha1 & Ha2 & Ha3 & ->). subst e. cbn. cbn in Hph. destruct Hph as [Hid Hu].
      case_bool_decide as Ha; cbn; [rewrite map_empty_union, dom_empty_L, !union_empty_l_L; by split_and!|].
      apply eq_None_not_Some in Ha. destruct Hs as (S1 & S2 & S0 & S3). unfold swept. split_and!; try done.
      * intros j v. rewrite union_lookup, lookup_singleton_ne by done. apply S1.
      * intros k h v. rewrite union_lookup, lookup_singleton_ne by done. apply S2.
      * intros b. rewrite union_lookup. destruct (decide (b = mo_id m)) as [->|Hne]; [by rewrite lookup_singleton_eq|].
        rewrite lookup_singleton_ne by congruence. apply S0.
      * intros j Hin. destruct (S3 j Hin). split; [set_solver|done].
      * exists (mo_id m), a. rewrite union_lookup, lookup_singleton_eq. split_and!; try done.
        rewrite overlay_lookup in Ha. destruct (tx_writes x !! KAudit (mo_id m)) as [v|] eqn:Ew; [|done].
        subst v. by apply S0 in Ew.
Qed.

Lemma exec_refused {X} (q : Stmt X) t h h' x d :
  fact h x d → stage_txn h = Some t → inside q h (Err DbFailed) h' → fact h' x d.
Proof.
  intros Hf Ht Hi. destruct h as [| | |t' clock|t'|t' k hash id|t' ids bound ph]; try done; cbn in Hf, Hi.
  - destruct Hf as [Hw _]. assert (no_erasure (tx_writes x)) as Hn by (rewrite Hw; apply no_erasure_empty).
    destruct q; try (by destruct Hi as [_ ->]); [by destruct Hi as (? & _ & _ & ->)|by subst h'].
  - by destruct Hi as [_ ->].
  - destruct Hf as (Hn & _). destruct q; try done; destruct Hi as (_ & _ & ->); intros j; by rewrite Hn.
  - destruct Hf as (? & ? & _). destruct q; try done; [destruct Hi as [_ ->]|destruct Hi as (? & _ & ->)|
      destruct Hi as (? & ? & _ & _ & _ & _ & ->)]; by split_and!.
Qed.

Lemma inside_txn {X} (q : Stmt X) h r h' : inside q h r h' → stage_txn h' = stage_txn h.
Proof.
  destruct h as [| | |t' clock|t'|t' k hash id|t' ids bound ph]; try done; cbn.
  - destruct q; try (by intros [_ ->]); [intros (? & _ & _ & ->); by destruct r|]. intros ->. by destruct r as [[[? ?]|]|].
  - by intros [_ ->].
  - destruct q; try done; by intros (_ & _ & ->).
  - destruct q; try done; [by intros [_ ->]|by intros (? & _ & ->)|by intros (? & ? & _ & _ & _ & _ & ->)].
Qed.

Lemma inside_remembers {X} (q : Stmt X) t h r h' now l :
  stage_txn h = Some t → inside q h r h' → remembers h now l → remembers h' now (seen (Some t) q r ++ l).
Proof.
  intros Ht Hi Hr. destruct h as [| | |t' clock|t'|t' k hash id|t' ids bound ph]; try done; injection Ht as ->; cbn in Hi, Hr.
  - destruct q; try (by destruct Hi as [_ ->]).
    + destruct Hi as (n & -> & Hn & ->). cbn in Hr. destruct r; cbn; [lia|done].
    + subst h'. destruct r as [[[id email]|]|]; cbn; [set_solver|done..].
  - by destruct Hi as [_ ->].
  - destruct q; try done; by destruct Hi as (_ & _ & ->).
  - destruct q; try done; [destruct Hi as [_ ->]|destruct Hi as (? & _ & ->)|destruct Hi as (? & ? & _ & _ & _ & _ & ->)];
      by cbn.
Qed.

Lemma pg_next_grows now {B} (c : PgCall Stmt B) p r p' : pg_step run now c p r p' → (pg_next p ≤ pg_next p')%N.
Proof.
  destruct c as [|? [?|] ?|?|?|?|?|?]; cbn; naive_solver lia.
Qed.

(** The holds of the others. *)
Lemma holds_frame now {B} (c : PgCall Stmt B) p r p' l l' h :
  pg_ok p → pg_step run now c p r p' → holds p now l h → l ⊆ l' →
  (∀ t, stage_txn h = Some t → call_txn c ≠ Some t) → holds p' now l' h.
Proof.
  intros Hok Hs [Hr Hh] Hl Hc. split; [by eapply remembers_mono|]. intros t Ht. destruct (Hh t Ht) as [Hlt Hf].
  pose proof (pg_next_grows _ _ _ _ _ Hs). split; [lia|]. intros x Hx.
  apply (pg_back run _ _ _ _ _ _ _ Hs (Hc t Ht) Hlt) in Hx as Hx0.
  destruct (pg_frame run _ _ _ _ _ _ _ Hok Hs (Hc t Ht) Hx0) as [_ Hk].
  eapply fact_local; [by apply (proj1 Hok t)| |by apply Hf]. intros k Hkl. by rewrite Hk.
Qed.

Lemma pg_moves_txn {B} (c : PgCall Stmt B) h r h' : pg_moves c h r h' → call_txn c = None ∨ call_txn c = stage_txn h.
Proof.
  destruct c as [|? [?|] ?|t|t|t|t|t]; cbn; auto; intros [Hs _]; auto; destruct h; try done; cbn in Hs; subst; auto.
Qed.

Lemma holds_gone p now l h : remembers h now l → (∀ t, stage_txn h = Some t → (t < pg_next p)%N ∧ pg_open p !! t = None) → holds p now l h.
Proof. intros Hr Hh. split; [done|]. intros t Ht. destruct (Hh t Ht) as [? Hn]. split; [done|]. intros x. by rewrite Hn. Qed.

(** A stage of the same transaction on what it has become. *)
Lemma holds_txn p now l h t : stage_txn h = Some t → remembers h now l → (t < pg_next p)%N →
  (∀ x, pg_open p !! t = Some x → fact h x (pg_rows p)) → holds p now l h.
Proof. intros Ht Hr Hl Hx. split; [done|]. intros t' Ht'. rewrite Ht in Ht'. by injection Ht' as <-. Qed.

Lemma holds_same p now l l' h h' : stage_txn h' = stage_txn h → remembers h' now l' →
  (∀ x, fact h x (pg_rows p) → fact h' x (pg_rows p)) → holds p now l h → holds p now l' h'.
Proof.
  intros Ht Hr Hf [_ Hh]. split; [done|]. intros t Ht'. rewrite Ht in Ht'. destruct (Hh t Ht') as [? Hx]. split; [done|].
  intros x Hx'. by apply Hf, Hx.
Qed.

Lemma holds_drop p now l l' h h' t : stage_txn h' = stage_txn h → stage_txn h = Some t → remembers h' now l' →
  holds p now l h → holds (drop_txn t p) now l' h'.
Proof.
  intros Ht Ht0 Hr [_ Hh]. apply holds_gone; [done|]. intros t' Ht'. rewrite Ht, Ht0 in Ht'. injection Ht' as <-.
  destruct (Hh t Ht0). split; [done|]. apply lookup_delete_eq.
Qed.

Lemma scanning_ok t h l now : in_sweep t h → stage_txn (scanning h) = stage_txn h ∧ stage_txn h = Some t
  ∧ (remembers h now l → remembers (scanning h) now l) ∧ ∀ x d, fact h x d → fact (scanning h) x d.
Proof. destruct h; try done. cbn. intros ->. split_and!; try done. by intros x d (? & ? & _). Qed.

Lemma exec_holds {X} t (q : Stmt X) now p r p' l h h' :
  pg_ok p → typed (pg_rows p) → all_justified (λ t, justified (Some t) now l) p → holds p now l h →
  stage_txn h = Some t → inside q h r h' → pg_step run now (ExecC (Some t) q) p r p' →
  holds p' now (seen (Some t) q r ++ l) h'.
Proof.
  intros Hok Hd Hj Hh Ht Hi Hs. pose proof Hh as [Hr Hf]. destruct (Hf t Ht) as [Hlt Hx].
  pose proof (inside_txn q h r h' Hi) as Ht'. pose proof (inside_remembers q t h r h' now l Ht Hi Hr) as Hr'.
  destruct Hs as [(x & id & Hx0 & Hfree & -> & Hres)|[-> [->| ->]]].
  - eapply (holds_txn _ _ _ _ t); [congruence|done|done|]. cbn. rewrite lookup_insert_eq. intros x' [= <-].
    eapply exec_fact; [done|by apply Hj|exact Hr|by apply Hx|exact Ht|by rewrite <- Hres].
  - eapply holds_same; [done|done| |done]. intros x Hfx. by eapply exec_refused.
  - by eapply holds_drop.
Qed.

Lemma own_holds {B} (c : PgCall Stmt B) now p r p' l h h' :
  pg_ok p → typed (pg_rows p) → all_justified (λ t, justified (Some t) now l) p → holds p now l h →
  pg_moves c h r h' → pg_step run now c p r p' → holds p' now (pg_entries c now p p' r ++ l) h'.
Proof.
  intros Hok Hd Hj Hh Hm Hs. destruct c as [|X [t|] q|t|t|t|t|t]; cbn in Hm.
  - destruct Hm as [Ht ->]. destruct Hs as [[-> ->]|[-> ->]]; [|by split].
    split; [|intros t [= <-]; split; [cbn; lia|]; cbn; rewrite lookup_insert_eq; by intros x [= <-]].
    destruct Hh as [Hr _]. by destruct h.
  - destruct Hm as [Ht Hi]. by eapply exec_holds.
  - assert (holds p' now (pg_entries (ExecC None q) now p p' r ++ l) h) as Hf
      by (eapply holds_frame; [done|exact Hs|done|set_solver|done]).
    destruct q; try (destruct Hm as [_ ->]; exact Hf); try (destruct Hm as [-> _]; exact Hf); destruct Hm as [->|(_ & u & -> & ->)]; try exact Hf;
      (split; [cbn; set_solver|done]).
  - destruct Hm as [Hsw ->]. destruct (scanning_ok t h l now Hsw) as (_ & Ht & _). pose proof Hh as [Hr Hf].
    destruct Hs as [(-> & x & Hx & ->)|[-> [->| ->]]]; [|done|by eapply holds_drop].
    eapply (holds_txn _ _ _ _ t); [done|done|by apply Hf|]. cbn. rewrite lookup_insert_eq. intros x' [= <-].
    destruct (Hf t Ht) as [_ Hx']. specialize (Hx' x Hx). destruct h; try done. destruct Hx' as (? & ? & ?).
    split_and!; [done|by constructor|done].
  - destruct Hm as [Hsw ->]. pose proof Hh as [Hr Hf]. destruct (scanning_ok t h l now Hsw) as (Ht' & Ht & Hr' & Hfs).
    destruct Hs as [(-> & x & Hx & ->)|[-> [->| ->]]].
    + eapply (holds_txn _ _ _ _ t); [congruence|auto|by apply Hf|]. cbn. rewrite lookup_insert_eq. intros x' [= <-].
      destruct (Hf t Ht) as [_ Hx']. specialize (Hx' x Hx). destruct h; try done. destruct Hx' as (? & Hall & _).
      split_and!; [done| |done]. cbn. by destruct Hall.
    + eapply holds_same; [done|auto| |done]. auto.
    + eapply holds_drop; [done|done|auto|done].
  - destruct Hm as [Hsw ->]. pose proof Hh as [Hr Hf]. destruct (scanning_ok t h l now Hsw) as (Ht' & Ht & Hr' & Hfs).
    destruct Hs as [(x & w & lk & saved & Hx & Hsv & ->)|[->| ->]].
    + eapply (holds_txn _ _ _ _ t); [congruence|auto|by apply Hf|]. cbn. rewrite lookup_insert_eq. intros x' [= <-].
      destruct (Hf t Ht) as [_ Hx']. specialize (Hx' x Hx). destruct h; try done. destruct Hx' as (? & Hall & _).
      rewrite Hsv in Hall. apply Forall_cons in Hall as [? ?]. by split_and!.
    + eapply holds_same; [done|auto| |done]. auto.
    + eapply holds_drop; [done|done|auto|done].
  - destruct Hm as [Ht ->]. pose proof Hh as [Hr Hf]. destruct (Hf t Ht) as [Hlt _].
    assert (remembers h now (ECommit (Some t) now (pg_rows p) (pg_rows p') :: l)) as Hr'
      by (eapply remembers_mono; [reflexivity| |done]; set_solver).
    destruct r as [[]|e]; cbn; [by split|].
    destruct Hs as [(x & Hx & ->)|[_ [->| ->]]].
    + apply holds_gone; [done|]. intros t' Ht'. rewrite Ht in Ht'. injection Ht' as <-. split; [done|apply lookup_delete_eq].
    + by eapply holds_same.
    + by eapply holds_drop.
  - destruct Hm as [_ ->]. by split.
Qed.

Lemma pg_exec_keeps {B} (c : PgCall Stmt B) now p r l h h' :
  typed (pg_rows p) → holds p now l h → pg_moves c h r h' → exec_keeps run (λ t, justified (Some t) now l) c p.
Proof.
  intros Hd [Hr Hf] Hm. destruct c as [|X [t|] q|t|t|t|t|t]; cbn; try done. intros x id Hx Hj.
  cbn in Hm. destruct Hm as [Ht Hi]. destruct (Hf t Ht) as [_ Hfx]. by eapply exec_justified; auto.
Qed.

Lemma justified_extends now l p now' l' : (now ≤ now')%Z → l ⊆ l' →
  all_justified (λ t, justified (Some t) now l) p → all_justified (λ t, justified (Some t) now' l') p.
Proof.
  intros Hn Hl Hj t x Hx. destruct (Hj t x Hx) as [H1 H2]. split; [by eapply justified_mono|].
  eapply Forall_impl; [exact H2|]. intros s. by apply justified_mono.
Qed.

Definition fine (e : Entry) (l : list Entry) : Prop := change_proven bcrypt_ok e l ∧ links_spent e l ∧ erasure_due deps e l.

Lemma quiet_commit by_ now d l : typed d → fine (ECommit by_ now d d) l.
Proof.
  intros Hd. pose proof (commit_proven deps sql_canonical bcrypt_ok by_ now l ∅ d Hd (justified_empty _ _ _ _ _ _)) as Hc.
  by rewrite overlay_empty in Hc.
Qed.

Lemma alone_justified {X} (q : Stmt X) h r h' m held d now l p :
  typed d → holds p now l h → alone q h r h' → justified None now l (ef_writes (run X q m held d)) d.
Proof.
  intros Hd [Hr _] Ha.
  assert (harmless_stmt q → justified None now l (ef_writes (run X q m held d)) d) as Hh.
  { intros Hq. destruct (harmless_exec q None now l m held ∅ d Hd (justified_empty _ _ _ _ _ _) no_erasure_empty Hq) as [Hj _].
    by rewrite overlay_empty, map_union_empty in Hj. }
  destruct q; try (by apply Hh; destruct Ha); try (by apply Hh). destruct Ha as (_ & hash0 & pw & -> & Hb).
  apply update_checked; [done|]. split; [done|]. by exists hash0, pw.
Qed.

Lemma seen_fine {X} tx (q : Stmt X) r l : log_all fine l → log_all fine (seen tx q r ++ l).
Proof.
  intros Hl. destruct q; try exact Hl; cbn; destruct r as [[[]|]|]; try exact Hl; try (by split_and!). destruct tx; [by split_and!|done].
Qed.

Lemma pg_log {B} (c : PgCall Stmt B) now p r p' l h h' :
  typed (pg_rows p) → all_justified (λ t, justified (Some t) now l) p → holds p now l h → log_all fine l →
  pg_moves c h r h' → pg_step run now c p r p' →
  typed (pg_rows p') ∧ log_all fine (pg_entries c now p p' r ++ l).
Proof.
  intros Hd Hj Hh Hl Hm Hs. destruct c as [|X [t|] q|t|t|t|t|t]; cbn in Hm; cbn [pg_entries].
  - destruct Hs as [[_ ->]|[_ ->]]; by split.
  - split; [|by apply seen_fine]. by destruct Hs as [(? & ? & ? & ? & -> & _)|[_ [->| ->]]].
  - destruct Hs as [(id & _ & -> & _)|[_ ->]].
    + pose proof (alone_justified q h r h' {| mo_now := now; mo_id := id |} (locked None p) _ now l p Hd Hh Hm) as Hq.
      split; [apply typed_overlay; [done|by destruct Hq]|]. cbn [app log_all]. split; [|by apply seen_fine].
      apply (commit_proven deps sql_canonical bcrypt_ok); [done|]. eapply justified_mono; [reflexivity| |exact Hq]. set_solver.
    + split; [done|]. cbn [app log_all]. split; [by apply quiet_commit|by apply seen_fine].
  - destruct Hs as [(_ & ? & _ & ->)|[_ [->| ->]]]; by split.
  - destruct Hs as [(_ & ? & _ & ->)|[_ [->| ->]]]; by split.
  - destruct Hs as [(? & ? & ? & ? & _ & _ & ->)|[->| ->]]; by split.
  - destruct Hs as [(x & Hx & ->)|[_ [->| ->]]].
    + destruct (Hj t x Hx) as [Hw _]. split; [apply typed_overlay; [done|by destruct Hw]|]. split; [|done].
      by apply (commit_proven deps sql_canonical bcrypt_ok).
    + split; [done|]. split; [by apply quiet_commit|done].
    + split; [done|]. split; [by apply quiet_commit|done].
  - cbn in Hs. subst p'. by split.
Qed.

Lemma app_more {A} (es l : list A) : l ⊆ es ++ l.
Proof. set_solver. Qed.

Lemma J_local now l : local_to_writes (λ t, justified (Some t) now l).
Proof. intros t w d d'. apply justified_local. Qed.

Lemma in_order_call {B} (c : PgCall Stmt B) s r p' h h' :
  in_order s → holds (st_pg s) (st_now s) (st_log s) h → pg_moves c h r h' → pg_step run (st_now s) c (st_pg s) r p' →
  in_order (with_pg p' (pg_entries c (st_now s) (st_pg s) p' r) s).
Proof.
  intros (Hok & Hd & Hj & Hl) Hh Hm Hs. destruct (pg_log c _ _ _ _ _ _ _ Hd Hj Hh Hl Hm Hs) as [Hd' Hl'].
  split_and!; [by eapply pg_step_ok|done| |done]. cbn.
  eapply justified_extends; [reflexivity|apply app_more|].
  eapply pg_justified; [apply J_local|intros; apply justified_empty|done|done| |done]. by eapply pg_exec_keeps.
Qed.

(** Entries that show no commit. *)
Definition silent : list Entry → Prop := Forall (λ e, match e with ECommit _ _ _ _ => False | _ => True end).

Lemma silent_nil : silent [].
Proof. constructor. Qed.

Lemma log_silent es l : silent es → log_all fine l → log_all fine (es ++ l).
Proof.
  induction 1 as [|e es He _ IH]; intros Hl; [done|]. split; [|by apply IH]. by destruct e.
Qed.

(** Whatever changes only what is beside the database keeps everything. *)
Lemma safe_beside s s' hs : st_pg s' = st_pg s → (st_now s ≤ st_now s')%Z →
  (∃ es, st_log s' = es ++ st_log s ∧ silent es) → safe s hs → safe s' hs.
Proof.
  intros Hp Hn (es & Hes & Hsil) ((Hok & Hd & Hj & Hl) & Hh & Ha). assert (st_log s ⊆ st_log s') as Hll by (rewrite Hes; set_solver).
  split; [|split; [|done]].
  - unfold in_order. rewrite Hp. split_and!; [done..|by eapply justified_extends|]. rewrite Hes. by apply log_silent.
  - rewrite Hp. eapply Forall_impl; [exact Hh|]. intros h [Hr Hf]. split; [by eapply remembers_mono|done].
Qed.

Lemma apart_insert i h h' hs : apart hs → hs !! i = Some h →
  (∀ t, stage_txn h' = Some t → stage_txn h = Some t ∨ ∀ hj, hj ∈ hs → stage_txn hj ≠ Some t) → apart (<[i := h']> hs).
Proof.
  intros Ha Hi Ht j k hj hk t [(<- & <- & _)|[Hn Hj]]%list_lookup_insert_Some [(<- & <- & _)|[Hn' Hk]]%list_lookup_insert_Some H1 H2; [done| | |by eapply Ha].
  - destruct (Ht t H1) as [Hh|Hh]; [by eapply (Ha i k)|]. apply list_elem_of_lookup_2 in Hk. by apply Hh in Hk.
  - destruct (Ht t H2) as [Hh|Hh]; [by eapply (Ha j i)|]. apply list_elem_of_lookup_2 in Hj. by apply Hh in Hj.
Qed.

Lemma pg_moves_new {B} (c : PgCall Stmt B) h r h' now p p' t :
  pg_moves c h r h' → pg_step run now c p r p' → stage_txn h' = Some t → stage_txn h = Some t ∨ t = pg_next p.
Proof.
  destruct c as [|X [t'|] q|t'|t'|t'|t'|t']; cbn [pg_moves].
  - intros [_ ->] [[-> _]|[-> _]]; [|done]. cbn. intros [= <-]. by right.
  - intros [Ht Hi] _. rewrite (inside_txn _ _ _ _ Hi). by left.
  - intros Ha _ Ht. left. destruct q; cbn in Ha; naive_solver.
  - intros [_ ->] _. by left.
  - intros [Hs ->] _. left. by destruct h.
  - intros [Hs ->] _. left. by destruct h.
  - intros [Hs ->] _. destruct (is_ok r); [done|by left].
  - by intros [Hs ->] _.
Qed.

Lemma ordered_call B (c : AccountCall B) s b s' hs i h (K : B → Stage → Prop) :
  safe s hs → hs !! i = Some h → spec B c h K → call_step sql_canonical B c s b s' →
  ∃ h', K b h' ∧ safe s' (<[i := h']> hs).
Proof.
  intros Hsafe Hi Hsp Hs. destruct (Hsp b) as (h' & Hm & Hk). exists h'. split; [done|].
  assert (∀ es s', st_pg s' = st_pg s → st_now s' = st_now s → st_log s' = es ++ st_log s → silent es → h' = h → safe s' (<[i := h']> hs)) as Hother.
  { intros es s1 H1 H2 H3 H4 ->. rewrite list_insert_id by done. eapply safe_beside; [done|by rewrite H2|by exists es|done]. }
  destruct c; cbn in Hm, Hs; try (subst h'; destruct Hs as [(m' & -> & _ & _)|[_ ->]];
    [eapply Hother; [done|done|done|cbn; try destruct (c_val <$> _); by repeat constructor|done]
    |eapply (Hother []); [done|done|done|constructor|done]]).
  - destruct Hs as (p' & Hp & ->). destruct Hsafe as (Ho & Hh & Ha). pose proof Ho as (Hok & Hd & Hj & Hl).
    assert (holds (st_pg s) (st_now s) (st_log s) h) as Hhi by (eapply Forall_lookup_1; done).
    split_and!; [by eapply in_order_call| |].
    + apply Forall_lookup_2. intros j hj [(<- & <- & _)|[Hne Hj']]%list_lookup_insert_Some; [by eapply own_holds|].
      eapply holds_frame; [done|exact Hp|eapply Forall_lookup_1; done|apply app_more|].
      intros t Ht Hc. apply Hne. destruct (pg_moves_txn c h b h' Hm) as [Hc'|Hc']; rewrite Hc in Hc'; [done|]. by eapply Ha.
    + eapply apart_insert; [done..|]. intros t Ht. destruct (pg_moves_new _ _ _ _ _ _ _ _ Hm Hp Ht) as [->| ->]; [by left|right].
      intros hj [j Hj']%list_elem_of_lookup Ht'. destruct (Forall_lookup_1 _ _ _ _ Hh Hj') as [_ Hf].
      destruct (Hf _ Ht'). lia.
  - subst h'. apply scan_beside in Hs as (H1 & H2 & H3 & H4 & H5). eapply (Hother []); [done..|constructor|done].
  - destruct Hs as [-> ->]. destruct Hm as [->|[Ht ->]]; [eapply (Hother []); by try constructor|]. destruct Hsafe as (Ho & Hh & Ha).
    split_and!; [done| |].
    + apply Forall_lookup_2. intros j hj [(<- & <- & _)|[_ Hj]]%list_lookup_insert_Some; [|by eapply Forall_lookup_1].
      split; cbn; [lia|done].
    + by eapply apart_insert.
  - subst h'. destruct Hs as [_ ->]. eapply (Hother []); by try constructor.
  - subst h' s'. eapply (Hother []); by try constructor.
  - subst h' s'. eapply (Hother []); by try constructor.
  - subst h'. destruct Hs as (m' & _ & ->). eapply (Hother []); by try constructor.
  - subst h' s'. eapply (Hother []); by try constructor.
  - subst h' s'. eapply (Hother []); by try constructor.
Qed.

Lemma ordered_more s hs : safe s hs → safe s (hs ++ [Idle]).
Proof.
  intros (Ho & Hh & Ha). split_and!; [done|by apply Forall_app; split; [|constructor; [split|constructor]]|].
  intros i j hi hj t Hi Hj H1 H2.
  apply lookup_app_Some in Hi as [Hi|[_ [_ <-]%list_lookup_singleton_Some]]; [|done].
  apply lookup_app_Some in Hj as [Hj|[_ [_ <-]%list_lookup_singleton_Some]]; [|done]. by eapply Ha.
Qed.

(** Rows written beside the open transactions. *)
Lemma safe_rows s hs w : edits_fit w → dom w ## locked None (st_pg s) → safe s hs → safe (with_pg (with_rows w (st_pg s)) [] s) hs.
Proof.
  intros Hw Hf ((Hok & Hd & Hj & Hl) & Hh & Ha).
  assert (∀ t x, pg_open (st_pg s) !! t = Some x → ∀ k, k ∈ tx_locks x → pg_rows (st_pg s) !! k = overlay w (pg_rows (st_pg s)) !! k) as Hk.
  { intros t x Hx k Hk. rewrite overlay_outside; [done|]. intros Hkw. apply (Hf k Hkw). by eapply locked_by_other. }
  split; [|split; [|done]].
  - split_and!; [done|by apply typed_overlay| |done]. intros t x Hx. eapply txn_local; [apply J_local|by apply (proj1 Hok t)| |by apply Hj].
    by eapply Hk.
  - eapply Forall_impl; [exact Hh|]. intros h [Hr Hf']. split; [done|]. intros t Ht. destruct (Hf' t Ht) as [? Hx].
    split; [done|]. intros x Hx'. eapply fact_local; [by apply (proj1 Hok t)|by eapply Hk|by apply Hx].
Qed.

Lemma ordered_env s hs s' : safe s hs → env s s' → safe s' hs.
Proof.
  intros Hsafe He. destruct He as [t|now Hn|w Hw Hf|id a Hn Hf|m Hm].
  - destruct Hsafe as ((Hok & Hd & Hj & Hl) & Hh & Ha). split; [|split; [|done]].
    + split_and!; [by apply drop_txn_ok|done|by apply drop_justified|done].
    + eapply Forall_impl; [exact Hh|]. intros h [Hr Hf]. split; [done|]. intros t' Ht. destruct (Hf t' Ht) as [? Hx].
      split; [done|]. cbn. intros x [_ Hx']%lookup_delete_Some. auto.
  - apply (safe_beside s); [done|done|exists []; split; [done|apply silent_nil]|done].
  - apply safe_rows; [|done|done]. intros k r Hk. destruct (Hw k _ Hk) as [_ Hr]. auto.
  - apply safe_rows; [by intros k r [<- [= <-]]%lookup_singleton_Some|set_solver|done].
  - apply (safe_beside s); [done|done|exists []; split; [done|apply silent_nil]|done].
Qed.

Lemma ordered_start s : quiet_start s → safe s [].
Proof.
  intros (Ht & Ho & _ & Hl & _). split; [|split; [constructor|by intros i]].
  split_and!; [split|done| |by rewrite Hl].
  - intros t x. by rewrite Ho, lookup_empty.
  - intros t t' x x' _. by rewrite Ho, lookup_empty.
  - intros t x. by rewrite Ho, lookup_empty.
Qed.
End safety.
