(* ===== verification/AccountOps.v ===== *)
(** * The operations keep to the stages

    Every operation of AccountService.v respects the specification of
    AccountSafety.v, so the invariant holds in every reachable state of
    AccountSystem.v: links prove ownership, erasure waits for the days of grace. *)

From S2P Require Import Prelude Json GoTime Types Users A2A Prog Pg AccountStore Redis RateLimit AccountService AccountSystem AccountLinks AccountSafety.
Local Open Scope go_scope.

Section ops.
Context {U : UUIDText} {J : Jwt}.
Variables (deps : AccountDeps) (lower : string → string) (sha256 sha256_hex : string → string)
  (bcrypt_ok : string → string → bool) (zxcvbn_score : string → nat) (currentVersion : string → string * string)
  (mail_text : string → list string → string * string * string).

Notation spec := (spec deps bcrypt_ok).

(** ** Calls that prove nothing *)

Definition tame (tx : option N) B (c : AccountCall B) : Prop :=
  match c with
  | PgC (ExecC tx' q) => (tx' = None ∨ tx' = tx) ∧ harmless_stmt q
  | PgC _ => False
  | _ => True
  end.

Definition calm (tx : option N) {A} (p : prog A) (Q : A → Prop) : Prop :=
  wp (plain_spec (λ _ _ _, True) (tame tx)) p (λ a _, Q a) tt.

Lemma calm_ret tx {A} (a : A) (Q : A → Prop) : Q a → calm tx (Ret a) Q.
Proof. done. Qed.

Lemma calm_call tx {A B} (c : AccountCall B) (k : B → prog A) Q : tame tx B c → (∀ b, calm tx (k b) Q) → calm tx (Call c k) Q.
Proof. intros Hc Hk. split; [done|]. intros b _. apply Hk. Qed.

Lemma calm_mono tx {A} (p : prog A) (Q Q' : A → Prop) : (∀ a, Q a → Q' a) → calm tx p Q → calm tx p Q'.
Proof. intros HQ. apply wp_mono; [apply plain_spec_mono|]. auto. Qed.

Lemma calm_bind tx {A B} (p : prog A) (f : A → prog B) Q R : calm tx p R → (∀ a, R a → calm tx (f a) Q) → calm tx (prog_bind p f) Q.
Proof.
  intros Hp Hf. apply wp_bind; [apply plain_spec_mono|]. eapply wp_mono; [apply plain_spec_mono| |exact Hp].
  intros a []. apply Hf.
Qed.

(** Alone, such a program leaves any stage as it is. *)
Lemma calm_alone {A} (p : prog A) Q h : calm None p Q → wp spec p (λ a h', Q a ∧ h' = h) h.
Proof.
  unfold calm. induction p as [a|B c k IH]; [done|]. intros [Ht Hk] b. exists h. split; [|by apply IH, Hk].
  destruct c as [X c| | | | | | | | | | | | |]; try done; [|by left]. cbn in Ht. destruct c as [|X [t|] q|t|t|t|t|t]; try done; destruct Ht as [Ho Hq].
  - naive_solver.
  - destruct q; try done; by left.
Qed.

(** In a transaction it leaves a transaction that may still be made plain. *)
Definition mild (t : N) (h : Stage) : Prop := h = Plain t ∨ ∃ n, h = Began t n.

Lemma mild_txn t h : mild t h → stage_txn h = Some t.
Proof. by intros [->|[n ->]]. Qed.

Lemma calm_inside {A} (p : prog A) Q t h : calm (Some t) p Q → mild t h → wp spec p (λ a h', Q a ∧ mild t h') h.
Proof.
  unfold calm. revert h. induction p as [a|B c k IH]; [done|]. intros h [Ht Hk] Hm b.
  destruct c as [X c| | | | | | | | | | | | |]; try (exists h; split; [done|by apply IH; [apply Hk|]]).
  2: { exists h. split; [by left|by apply IH; [apply Hk|]]. }
  cbn in Ht. destruct c as [|X [t'|] q|?|?|?|?|?]; try done; destruct Ht as [Ho Hq].
  - assert (t' = t) as -> by naive_solver. exists (Plain t). split; [|apply IH; [by apply Hk|by left]].
    split; [by apply mild_txn|]. destruct Hm as [->|[n ->]]; [done|]. by destruct q.
  - exists h. split; [|by apply IH; [apply Hk|]]. destruct q; try done; by left.
Qed.

(** ** Whole operations *)

(** Starting and ending without a transaction. *)
Definition proper {A} (p : prog A) (Q : A → Prop) : Prop :=
  ∀ h, stage_txn h = None → wp spec p (λ a h', Q a ∧ stage_txn h' = None) h.

Lemma proper_calm {A} (p : prog A) Q : calm None p Q → proper p Q.
Proof.
  intros Hp h Hh. eapply wp_mono; [apply spec_mono| |by apply calm_alone]. cbn. intros a h' [? ->]. done.
Qed.

Lemma proper_bind {A B} (p : prog A) (f : A → prog B) Q R : proper p R → (∀ a, R a → proper (f a) Q) → proper (prog_bind p f) Q.
Proof.
  intros Hp Hf h Hh. apply wp_bind; [apply spec_mono|]. eapply wp_mono; [apply spec_mono| |by apply Hp].
  cbn. intros a h' [Ha Hh']. by apply Hf.
Qed.

Lemma proper_call {A B} (c : AccountCall B) (k : B → prog A) Q : tame None B c → (∀ b, proper (k b) Q) → proper (Call c k) Q.
Proof.
  intros Hc Hk. apply (proper_bind (Call c Ret) k Q (λ _, True)); [|auto]. by apply proper_calm, calm_call.
Qed.

Lemma proper_mono {A} (p : prog A) (Q Q' : A → Prop) : (∀ a, Q a → Q' a) → proper p Q → proper p Q'.
Proof. intros HQ Hp h Hh. eapply wp_mono; [apply spec_mono| |by apply Hp]. cbn. intros a h' [? ?]. auto. Qed.

Definition on_ok {A} (Q : A → Prop) (r : result AccountError A) : Prop := match r with Ok a => Q a | Err _ => True end.

(** A transaction whose body keeps to the stages. *)
Lemma wp_in_tx {A} op (body : N → fallible A) Q h : stage_txn h = None →
  (∀ t, wp spec (body t) (λ r h', on_ok Q r ∧ stage_txn h' = Some t) (Began t (clock_of h))) →
  wp spec (in_tx op body) (λ r h', on_ok Q r ∧ h' = Idle) h.
Proof.
  intros Hh Hb r. exists (match r with Ok t => Began t (clock_of h) | Err _ => Idle end). split; [by split|].
  destruct r as [t|e]; [|done]. apply wp_bind; [apply spec_mono|]. eapply wp_mono; [apply spec_mono| |apply Hb].
  cbn. intros [a|e] h' [Ha Ht].
  - intros r. exists (if is_ok r then Idle else h'). split; [done|]. destruct r; [done|]. intros []. by exists Idle.
  - intros []. by exists Idle.
Qed.

Lemma proper_in_tx {A} op (body : N → fallible A) Q : (∀ t, calm (Some t) (body t) (on_ok Q)) → proper (in_tx op body) (on_ok Q).
Proof.
  intros Hb h Hh. eapply wp_mono; [apply spec_mono| |apply wp_in_tx; [done|]]; cbn.
  - intros r h' [? ->]. done.
  - intros t. eapply wp_mono; [apply spec_mono| |apply calm_inside; [apply Hb|right; eauto]].
    cbn. intros r h' [? ?%mild_txn]. done.
Qed.

Ltac names := unfold find_user, GetByID, GetByIDIncludingDeleted, GetByIDIncludingDeletedInTx, GetByEmail, exec, affected,
  UpdateEmailInTx, RequestDeletionInTx, repoCancelDeletion, UpdatePreferredLocale, repoUpdateName, generateOpaqueToken,
  insertResetToken, Enqueue, EnqueueDeferred, IssueAndEnqueueTx, throttle, audit_in_tx, RecordRegistrationConsents,
  hash_password, purgeEligible, issue_tokens, generateAccessToken, generateRefreshToken, userByID, UpdateName,
  bumpRateLimit, note_if, forget.

Ltac calm_step := lazymatch goal with
  | |- True => exact I
  | |- calm _ (Ret _) _ => apply calm_ret; try exact I
  | |- calm _ (Call _ _) _ => apply calm_call; [try exact I; try (split; [by auto|exact I])|intros ?]
  | |- calm _ (prog_bind _ _) _ => eapply (calm_bind _ _ _ _ (λ _, True)); [|intros ? _]
  | |- calm _ (match ?x with _ => _ end) _ => destruct x
  | _ => progress names
  end.

Ltac calms := repeat calm_step.

Lemma calm_upsert t id ip ua l : calm (Some t) (upsertConsents t id ip ua l) (λ _, True).
Proof. induction l as [|p l IH]; cbn [upsertConsents]; calms. exact IH. Qed.

Lemma calm_matching target ks acc : calm None (matching_keys target ks acc) (λ _, True).
Proof. revert acc. induction ks as [|k ks IH]; intros acc; cbn [matching_keys]; calms; apply IH. Qed.

Lemma calm_scan pages target cursor acc : calm None (scan_matching pages target cursor acc) (λ _, True).
Proof.
  revert cursor acc. induction pages as [|pages IH]; intros cursor acc; cbn [scan_matching]; [done|].
  apply calm_call; [done|]. intros [[ks next]|]; [|done].
  apply (calm_bind _ _ _ _ (λ _, True)); [apply calm_matching|]. intros [acc'|] _; [|done]. destruct (next =? 0)%N; [done|apply IH].
Qed.

Lemma calm_wipe pages id : calm None (wipeRefreshTokensForUser pages id) (λ _, True).
Proof.
  apply (calm_bind _ _ _ _ (λ _, True)); [apply calm_scan|]. intros [l|] _; [|done]. destruct (bool_decide _); calms.
Qed.

Lemma calm_warn l : calm None (warn_all deps mail_text l) (λ _, True).
Proof. induction l as [|u l IH]; cbn [warn_all]; calms; apply IH. Qed.

Lemma calm_cleanup l : calm None (cleanup_all l) (λ _, True).
Proof. induction l as [|[? ?] l IH]; cbn [cleanup_all]; calms. apply IH. Qed.

(** A registered account is not verified. *)
Lemma calm_applicant email name pw :
  calm None (applicant zxcvbn_score email name pw) (on_ok (λ u, us_email_verified u = false)).
Proof. unfold applicant. calms; try done. Qed.

Lemma calm_create tx user :
  us_email_verified user = false → calm tx (Create lower tx user) (on_ok (λ u, us_email_verified u = false)).
Proof.
  intros Hu. unfold Create. eapply (calm_bind _ _ _ _ (λ _, True)); [by destruct (bool_decide _)|]. intros id _.
  apply calm_call; [done|]. intros now. apply calm_call; [split; [by right|done]|]. by intros [[]|[]].
Qed.

Lemma proper_ret {A} (a : A) (Q : A → Prop) : Q a → proper (Ret a) Q.
Proof. intros HQ h Hh. by split. Qed.

Lemma proper_tx {A} op (body : N → fallible A) : (∀ t, calm (Some t) (body t) (λ _, True)) → proper (in_tx op body) (λ _, True).
Proof.
  intros Hb. eapply (proper_mono _ (on_ok (λ _, True))); [done|]. apply proper_in_tx. intros t.
  eapply calm_mono; [|apply Hb]. by intros [a|e] _.
Qed.

Ltac proper_step := lazymatch goal with
  | |- proper (Ret _) _ => apply proper_ret; try exact I
  | |- proper (Call _ _) _ => apply proper_call; [try exact I; try (split; [by auto|exact I])|intros ?]
  | |- proper (in_tx _ _) _ => apply proper_tx; intros ?
  | |- proper (prog_bind _ _) _ => eapply (proper_bind _ _ _ (λ _, True)); [|intros ? _]
  | |- proper (match ?x with _ => _ end) _ => destruct x
  | |- proper _ _ => progress names
  | _ => calm_step
  end.

Ltac propers := repeat proper_step.

Lemma proper_forget {A} (p : prog A) : proper p (λ _, True) → proper (forget p) (λ _, True).
Proof. intros Hp. by eapply proper_bind. Qed.

Lemma proper_issue user : proper (issue_tokens deps user) (λ _, True).
Proof. apply proper_calm. calms. Qed.

Lemma proper_wipe pages id : proper (wipeRefreshTokensForUser pages id) (λ _, True).
Proof. apply proper_calm, calm_wipe. Qed.

Notation user_new := (λ u, us_email_verified u = false).

Lemma register_body t user (more : User → fallible unit) : us_email_verified user = false → (∀ u, calm (Some t) (more u) (λ _, True)) →
  calm (Some t) (ok! user := Create lower (Some t) user in
                 ok! _ := more user in
                 ok! _ := IssueAndEnqueueTx deps sha256 mail_text t (us_id user) (us_email user) in Ret (Ok user)) (λ _, True).
Proof.
  intros Hu Hm. eapply calm_bind; [by apply calm_create|]. intros [u|e] Hn; [|done].
  eapply (calm_bind _ _ _ _ (λ _, True)); [apply Hm|]. intros [] _; [|done]. calms.
Qed.

Lemma proper_register email pw : proper (Register deps lower sha256 zxcvbn_score mail_text email pw) (λ _, True).
Proof.
  unfold Register. eapply proper_bind; [apply proper_calm, calm_applicant|]. intros [user|e] Hu; [|by apply proper_ret].
  destruct (_ && _).
  - eapply proper_bind; [apply proper_tx; intros t; apply register_body; [exact Hu|intros u; calms]|]. intros [u|e] _; propers.
  - eapply proper_bind; [by apply proper_calm, calm_create|]. intros [u|e] _; propers.
Qed.

Lemma proper_register_with email pw ctx :
  proper (RegisterWithContext deps lower sha256 zxcvbn_score mail_text email pw ctx) (λ _, True).
Proof.
  unfold RegisterWithContext. eapply proper_bind; [apply proper_calm, calm_applicant|]. intros [user|e] Hu; [|by apply proper_ret].
  destruct (ad_register_tx deps); [|apply proper_register].
  eapply proper_bind; [apply proper_tx; intros t; apply register_body; [exact Hu|intros u]|intros [u|e] _; propers].
  unfold RecordRegistrationConsents. eapply (calm_bind _ _ _ _ (λ _, True)); [apply calm_upsert|]. intros [] _; calms.
Qed.

Lemma proper_login email pw : proper (Login deps lower bcrypt_ok email pw) (λ _, True).
Proof. unfold Login. propers. Qed.

Lemma proper_refresh token : proper (RefreshToken deps token) (λ _, True).
Proof. unfold RefreshToken. propers. Qed.

Lemma proper_logout token : proper (Logout deps token) (λ _, True).
Proof. unfold Logout. propers. Qed.

Lemma proper_request_reset email ip ua : proper (RequestReset deps lower sha256 sha256_hex mail_text email ip ua) (λ _, True).
Proof. unfold RequestReset. propers. Qed.

Lemma proper_resend id : proper (RequestResend deps sha256 mail_text id) (λ _, True).
Proof. unfold RequestResend. propers. Qed.

Lemma proper_change_email id email : proper (ChangeEmailBeforeVerify deps lower sha256 mail_text id email) (λ _, True).
Proof. unfold ChangeEmailBeforeVerify. propers. Qed.

Lemma proper_request_deletion id pw ip ua reason : proper (RequestDeletion deps bcrypt_ok mail_text id pw ip ua reason) (λ _, True).
Proof. unfold RequestDeletion. propers. Qed.

Lemma proper_cancel id ip ua : proper (CancelDeletion deps mail_text id ip ua) (λ _, True).
Proof. unfold CancelDeletion. propers. Qed.

Lemma proper_warn : proper (WarningSweeper deps mail_text) (λ _, True).
Proof. unfold WarningSweeper. apply proper_call; [done|]. intros now. cbn beta iota zeta delta [warningScanWindow]. propers. apply proper_calm, calm_warn. Qed.

Lemma proper_reconsent id ip ua l : proper (ReConsent currentVersion id ip ua l) (λ _, True).
Proof.
  unfold ReConsent. destruct (bool_decide _); [propers|]. destruct (versions_current _ l); [|propers].
  apply proper_tx. intros t. eapply (calm_bind _ _ _ _ (λ _, True)); [apply calm_upsert|]. intros [] _; calms.
Qed.

Lemma proper_withdraw id ip ua : proper (WithdrawPDN deps bcrypt_ok mail_text id ip ua) (λ _, True).
Proof.
  unfold WithdrawPDN. eapply (proper_bind _ _ _ (λ _, True)); [apply proper_request_deletion|]. intros [] _; propers.
Qed.

(** ** Operations that change what only a proof may change *)

Lemma proper_password pages id pw pw' : proper (ChangePassword lower bcrypt_ok zxcvbn_score pages id pw pw') (λ _, True).
Proof.
  intros h Hh. unfold ChangePassword, GetByID, find_user, AccountService.exec. cbn [prog_bind]. intros r.
  destruct r as [[u|]|e]; [|by exists h; split; [left|]..].
  exists (Saw (us_id u) (us_password_hash u)). split; [right; eauto|]. cbn [found].
  destruct (bcrypt_ok (us_password_hash u) pw) eqn:Eb; cbn [negb]; [|done]. destruct (validatePassword _ pw'); [|done].
  unfold hash_password. cbn [prog_bind]. intros r. exists (Saw (us_id u) (us_password_hash u)). split; [done|].
  destruct r as [hash|e]; [|done]. unfold Update, affected, AccountService.exec. cbn [prog_bind]. intros now.
  exists (Saw (us_id u) (us_password_hash u)). split; [by left|]. intros r.
  exists (Saw (us_id u) (us_password_hash u)). split; [by split; [|eauto]|].
  assert (proper (sub! _ := wipeRefreshTokensForUser pages id in Ret (Ok tt : result AccountError unit)) (λ _, True)) as Hw.
  { eapply (proper_bind _ _ _ (λ _, True)); [apply proper_wipe|]. intros; propers. }
  destruct r as [n|e]; [|done]. cbn [prog_bind]. destruct (n =? 0); [done|]. by apply Hw.
Qed.

(** Presenting a link, then the statement it is for. *)
Lemma wp_consume k t hash h (f : uuid * string → fallible uuid) (Q : result AccountError uuid → Stage → Prop) :
  (∃ n, h = Began t n) → (∀ e, Q (Err e) (Plain t)) →
  (∀ id email, wp spec (f (id, email)) Q (Presented t k hash id)) →
  wp spec (ok! ue := ConsumeAtomic k t hash in f ue) Q h.
Proof.
  intros [n ->] He Hf r. destruct r as [[[id email]|]|e].
  - exists (Presented t k hash id). split; [done|]. apply Hf.
  - exists (Plain t). split; [done|]. apply He.
  - exists (Plain t). split; [done|]. apply He.
Qed.

Notation within t := (λ (r : result AccountError uuid) h', on_ok (λ _, True) r ∧ stage_txn h' = Some t).

Lemma proper_verify token : proper (ConfirmVerify deps sha256 token) (λ _, True).
Proof.
  intros h Hh. apply wp_bind; [apply spec_mono|]. eapply wp_mono; [apply spec_mono| |apply (wp_in_tx _ _ (λ _, True)); [done|]].
  - cbn. intros [id|e] h' [_ ->]; [|done]. assert (proper (sub! _ := note_if (ad_telemetry deps) (NoteEmailVerified id) in Ret (Ok id : result AccountError uuid)) (λ _, True)) as Hn by propers.
    by apply Hn.
  - intros t. apply (wp_consume _ _ _ _ _ (within t)); [eauto|done|]. intros id email r. exists (Plain t). split; [done|].
    destruct r as [n|e]; [|done]. cbn [prog_bind]. destruct (n =? 0); done.
Qed.

Lemma proper_confirm pages token pw ip ua : proper (ConfirmReset deps sha256 zxcvbn_score pages token pw ip ua) (λ _, True).
Proof.
  unfold ConfirmReset. destruct (_ <? _); [propers|]. destruct (_ <? _); [propers|]. destruct (String.eqb _ _); [propers|].
  eapply (proper_bind _ _ _ (λ _, True)).
  - intros h Hh. eapply wp_mono; [apply spec_mono| |apply (wp_in_tx _ _ (λ _, True)); [done|]]; [by intros r h' [_ ->]|].
    intros t. apply (wp_consume _ _ _ _ _ (within t)); [eauto|done|]. intros id email r. exists (Presented t ResetLink (sha256 token) id).
    split; [done|]. destruct r as [hash|e]; [|done]. cbn [prog_bind]. intros now. exists (Presented t ResetLink (sha256 token) id).
    split; [by left|]. intros r. exists (Plain t). split; [done|]. destruct r as [n|e]; [|done]. cbn. destruct (n =? 0); done.
  - intros [id|e] _; [|propers]. eapply (proper_bind _ _ _ (λ _, True)); [apply proper_wipe|]. intros; propers.
Qed.

(** *** The sweep *)

Notation sweeping t ids bound := (λ h, ∃ ph, h = Sweep t ids bound ph).

Lemma wp_purge_one t ids bound uid h : uid ∈ ids → sweeping t ids bound h →
  wp spec (purge_one t uid) (λ _, sweeping t ids bound) h.
Proof.
  intros Hid [ph ->] r.
  exists (Sweep t ids bound (match r with Ok (Some u) => Read uid (us_email u) | _ => Scan end)). split; [done|].
  destruct r as [[u|]|e]; cbn; [|eauto..]. destruct (bool_decide _); [cbn; eauto|].
  intros r. exists (Sweep t ids bound (Read uid (us_email u))). split; [done|]. destruct r as [[]|e]; [|cbn; eauto].
  intros r. exists (Sweep t ids bound (match r with Ok _ => Audited uid (us_email u) | Err _ => Scan end)).
  split; [by split; [|exists uid, (us_email u)]|]. destruct r as [[]|e].
  2: { intros []. exists (Sweep t ids bound Scan). split; [done|]. cbn. eauto. }
  intros r. exists (Sweep t ids bound Scan). split; [split; [done|by exists (us_email u)]|].
  assert (∀ a : option (uuid * string), wp spec (call! _ := PgC (RestoreC t) in Ret a) (λ _, sweeping t ids bound) (Sweep t ids bound Scan)) as Hr.
  { intros a []. exists (Sweep t ids bound Scan). split; [done|]. cbn. eauto. }
  destruct r as [n|e]; [|apply Hr]. cbn [prog_bind]. destruct (n =? 0); [apply Hr|].
  intros r. exists (Sweep t ids bound Scan). split; [done|]. destruct r as [[]|e]; [cbn; eauto|apply Hr].
Qed.

Lemma wp_purge_all t ids bound uids h : uids ⊆ ids → sweeping t ids bound h →
  wp spec (purge_all t uids) (λ _, sweeping t ids bound) h.
Proof.
  revert h. induction uids as [|uid uids IH]; intros h Hi Hh; [done|]. cbn [purge_all].
  apply wp_bind; [apply spec_mono|]. eapply wp_mono; [apply spec_mono| |apply (wp_purge_one t ids bound); [set_solver|done]].
  cbn beta. intros p h' Hh'. apply wp_bind; [apply spec_mono|]. eapply wp_mono; [apply spec_mono| |apply IH; [set_solver|done]].
  cbn. intros ps h'' Hh''. done.
Qed.

Lemma proper_sweep : proper (HardDeleteSweeper deps) (λ _, True).
Proof.
  intros h Hh now. exists (Timed now). split; [by right|]. apply wp_bind; [apply spec_mono|].
  eapply wp_mono; [apply spec_mono| |apply (wp_in_tx _ _ (λ _, True)); [done|]].
  - cbn. intros [l|e] h' [_ ->]; [|done]. assert (proper (sub! _ := cleanup_all l in Ret (Ok (length l) : result AccountError nat)) (λ _, True)) as Hc.
    { eapply (proper_bind _ _ _ (λ _, True)); [apply proper_calm, calm_cleanup|]. intros; propers. }
    by apply Hc.
  - intros t r. cbn [clock_of].
    exists (match r with Ok ids => Sweep t ids (now - days (ad_grace_days deps)) Scan | Err _ => Plain t end).
    split; [split; [done|]; exists now; by split_and!; [|lia|]|]. destruct r as [ids|e]; [|done]. cbn [prog_bind].
    apply wp_bind; [apply spec_mono|]. eapply wp_mono; [apply spec_mono| |apply (wp_purge_all t ids (now - days (ad_grace_days deps))); [reflexivity|eauto]].
    cbn. by intros ps h' [ph ->].
Qed.

(** Every operation keeps to the stages. *)
Lemma starts_spec p : starts deps lower sha256 sha256_hex bcrypt_ok zxcvbn_score currentVersion mail_text p →
  wp spec p (λ _ _, True) Idle.
Proof.
  intros Hp. assert (proper p (λ _, True)) as Hq.
  { destruct Hp; try apply proper_forget; auto using proper_register, proper_register_with, proper_login, proper_refresh,
      proper_logout, proper_request_reset, proper_confirm, proper_resend, proper_verify, proper_change_email,
      proper_request_deletion, proper_cancel, proper_sweep, proper_warn, proper_reconsent, proper_withdraw, proper_password;
      unfold IsTokenExpired, GetScheduledDeletionAt, DiffAgainstCurrent; propers. }
  eapply wp_mono; [apply spec_mono| |by apply Hq]. done.
Qed.

Variables (sql_canonical : string → string).

Notation reachable := (reachable (call_step sql_canonical) env
  (starts deps lower sha256 sha256_hex bcrypt_ok zxcvbn_score currentVersion mail_text) quiet_start).

Lemma reachable_in_order s : reachable s → in_order deps bcrypt_ok (sy_store s).
Proof.
  intros Hr.
  edestruct (sound_reachable (call_step sql_canonical) env
    (starts deps lower sha256 sha256_hex bcrypt_ok zxcvbn_score currentVersion mail_text) spec (safe deps bcrypt_ok) Idle)
    as (hs & Hs & _); [..|exact Hr|exact Hs].
  - intros. by eapply ordered_call.
  - apply ordered_more.
  - intros. by eapply ordered_env.
  - apply starts_spec.
  - apply ordered_start.
Qed.

Lemma log_all_mono (P Q : Entry → list Entry → Prop) l : (∀ e l, P e l → Q e l) → log_all P l → log_all Q l.
Proof. intros HPQ. induction l as [|e l IH]; [done|]. intros [? ?]. split; auto. Qed.

(** Every commit of the log proves its changes, and uses no link twice. *)
Definition proven_changes (l : list Entry) : Prop := log_all (λ e l, change_proven bcrypt_ok e l ∧ links_spent e l) l.

(** Every erasure of the log was due. *)
Definition due_erasures (l : list Entry) : Prop := log_all (erasure_due deps) l.

(** C27: In every interleaving of operations, sweeps and crashes, no commit changes a
    password but with a reset link usable for that account at its present address and
    used up by that very commit, or by who gave the password read before; no commit turns
    the verified flag of an account on but with such a verification link, and new accounts
    start without it; a used link stays used.  A commit that changes the address of an
    account whose flag is on leaves it on: nothing is claimed of that address. *)
Theorem links_prove_ownership s : reachable s → proven_changes (st_log (sy_store s)).
Proof. intros (_ & _ & _ & Hl)%reachable_in_order. eapply log_all_mono; [|exact Hl]. by intros e l (? & ? & ?). Qed.

(** C28: An account disappears only in a commit of a sweep after its days of grace, its
    deletion asked for and not called off even during the sweep, and leaves an audit row
    under its address. *)
Theorem erased_after_grace s : reachable s → due_erasures (st_log (sy_store s)).
Proof. intros (_ & _ & _ & Hl)%reachable_in_order. eapply log_all_mono; [|exact Hl]. by intros e l (? & ? & ?). Qed.
End ops.
