(* ===== verification/AccountSessions.v ===== *)
(** * Sessions

    Refresh tokens in Redis, over every interleaving of AccountSystem.v: a token is
    stored under an id drawn for it, taken out once, and never after it was deleted;
    and what is left of a user's tokens once [wipeRefreshTokensForUser] has returned. *)

From S2P Require Import Prelude Json GoTime Types Users A2A Prog Pg AccountStore Redis RateLimit AccountService AccountSystem.
Local Open Scope go_scope.

(** ** What the log says of a key

    The token under [k] is [v]: the last that happened to it is that it was stored. *)
Fixpoint alive (initial : keyspace) (k v : string) (l : list Entry) : Prop :=
  match l with
  | [] => ∃ c, initial !! k = Some c ∧ c_val c = v
  | EStored k' v' :: l => if decide (k' = k) then v' = v else alive initial k v l
  | ETaken k' _ :: l => k' ≠ k ∧ alive initial k v l
  | EDeleted ks :: l => k ∉ ks ∧ alive initial k v l
  | _ :: l => alive initial k v l
  end.

(** Something happened to the key. *)
Definition touched (initial : keyspace) (k : string) (l : list Entry) : Prop :=
  is_Some (initial !! k) ∨ ∃ v, EStored k v ∈ l ∨ ETaken k v ∈ l.

Definition session_ok (initial : keyspace) (e : Entry) (l : list Entry) : Prop :=
  match e with
  | EStored k _ => is_refresh_key k → ¬ touched initial k l
  | ETaken k v => is_refresh_key k → alive initial k v l ∧ ∀ v', ETaken k v' ∉ l
  | _ => True
  end.

Lemma touched_cons initial k e l : touched initial k (e :: l) ↔
  touched initial k l ∨ match e with EStored k' _ | ETaken k' _ => k' = k | _ => False end.
Proof.
  unfold touched. setoid_rewrite elem_of_cons. split.
  - intros [?|(v & [[<-|?]|[<-|?]])]; eauto 6.
  - intros [[?|(v & [?|?])]|He]; [by left|right; exists v; tauto..|].
    destruct e; try done; subst; right; eexists; [left|right]; by left.
Qed.

Lemma alive_touched initial k v l : alive initial k v l → touched initial k l.
Proof.
  induction l as [|e l IH]; cbn; [intros (c & ? & _); left; eauto|]. rewrite touched_cons.
  destruct e; try tauto. case_decide; subst; tauto.
Qed.

(** A token that is there was not taken before. *)
Lemma alive_not_taken initial k v l : is_refresh_key k → log_all (session_ok initial) l → alive initial k v l → ∀ v', ETaken k v' ∉ l.
Proof.
  intros Hk. induction l as [|e l IH]; intros Hl Ha v' Hin; [by apply elem_of_nil in Hin|]. destruct Hl as [He Hl].
  apply elem_of_cons in Hin as [<-|Hin]; [by destruct Ha|].
  destruct e; cbn in Ha; try (by eapply IH); try (by destruct Ha as [_ Ha]; eapply IH).
  case_decide as Hd; [|by eapply IH]. subst. apply (He Hk). right. eauto.
Qed.

Section sessions.
Context {U : UUIDText} {J : Jwt}.
Variables (deps : AccountDeps) (lower sql_canonical : string → string) (sha256 sha256_hex : string → string)
  (bcrypt_ok : string → string → bool) (zxcvbn_score : string → nat) (currentVersion : string → string * string)
  (mail_text : string → list string → string * string * string) (initial : keyspace).

(** ** The id a process has drawn for a token *)

Definition may {B} (c : AccountCall B) (h : option uuid) : Prop :=
  match c with
  | SetC k _ _ => ∃ id, h = Some id ∧ k = refresh_key id
  | IncrC k _ => ¬ is_refresh_key k
  | _ => True
  end.

Definition then_holds {B} (c : AccountCall B) (h : option uuid) : B → option uuid :=
  match c in AccountCall B return B → option uuid with
  | NewIDC => λ id, Some id
  | SetC _ _ _ => λ _, None
  | _ => λ _, h
  end.

Definition token_spec B (c : AccountCall B) (h : option uuid) (K : B → option uuid → Prop) : Prop :=
  may c h ∧ ∀ b, K b (then_holds c h b).

Lemma token_spec_mono : monotone token_spec.
Proof. intros B c h K K' HK [? Hs]. split; [done|]. intros b. apply HK, Hs. Qed.

Definition safe (s : Store) (hs : list (option uuid)) : Prop :=
  (∀ k c, st_redis s !! k = Some c → is_refresh_key k → alive initial k (c_val c) (st_log s))
  ∧ (∀ k, is_refresh_key k → touched initial k (st_log s) → ∃ id, id ∈ st_ids s ∧ k = refresh_key id ∧ Some id ∉ hs)
  ∧ (∀ id, Some id ∈ hs → id ∈ st_ids s)
  ∧ (∀ i j id, hs !! i = Some (Some id) → hs !! j = Some (Some id) → i = j)
  ∧ log_all (session_ok initial) (st_log s).

Lemma refresh_key_inj id id' : refresh_key id = refresh_key id' → id = id'.
Proof.
  unfold refresh_key. intros H%(inj _). apply (f_equal uuid_parse) in H. rewrite !uuid_parse_string in H. by injection H.
Qed.

Lemma refresh_key_is id : is_refresh_key (refresh_key id).
Proof. unfold is_refresh_key, refresh_key. by destruct (uuid_string id). Qed.

(** *** The calls keep it *)

Lemma incr_frame now key ttl k m : k ≠ key → (incrWithHealScript now key ttl m).2 !! k = m !! k.
Proof.
  intros Hk. unfold incrWithHealScript, se_bind, cmd_incrby, cmd_pttl, cmd_pexpire, se_ret.
  repeat first [progress cbn [fst snd] | case_match | done | rewrite lookup_insert_ne by done | rewrite lookup_delete_ne by done];
    simplify_eq; repeat first [progress cbn [fst snd] in * | case_match | done | progress simplify_eq
      | rewrite lookup_insert_ne by done | rewrite lookup_delete_ne by done].
Qed.

Lemma dels_lookup ks (m : keyspace) k c : foldr delete m ks !! k = Some c → k ∉ ks ∧ m !! k = Some c.
Proof.
  induction ks as [|k' ks IH]; cbn; [by split; [apply not_elem_of_nil|]|].
  intros [Hn Hk]%lookup_delete_Some. destruct (IH Hk). split; [|done]. apply not_elem_of_cons. done.
Qed.

Lemma dels_live now ks (m : keyspace) k c :
  live_cell now k (foldr delete m ks) = Some c → k ∉ ks ∧ live_cell now k m = Some c.
Proof.
  unfold live_cell. destruct (foldr delete m ks !! k) as [c'|] eqn:E; [|done]. apply dels_lookup in E as [? ->]. done.
Qed.

(** Entries about no token. *)
Definition aside (es : list Entry) : Prop :=
  Forall (λ e, match e with EStored _ _ | ETaken _ _ | EDeleted _ => False | _ => True end) es.

Lemma aside_log es l : aside es →
  (∀ k v, alive initial k v (es ++ l) ↔ alive initial k v l) ∧ (∀ k, touched initial k (es ++ l) ↔ touched initial k l)
  ∧ (log_all (session_ok initial) l → log_all (session_ok initial) (es ++ l)).
Proof.
  induction 1 as [|e es He _ (IH1 & IH2 & IH3)]; [done|]. cbn [app]. split_and!.
  - intros k v. rewrite <- IH1. by destruct e.
  - intros k. rewrite touched_cons, IH2. destruct e; tauto.
  - intros Hl. split; [by destruct e|auto].
Qed.

Lemma safe_keep s s' hs es :
  (∀ k c, st_redis s' !! k = Some c → is_refresh_key k → st_redis s !! k = Some c) →
  st_log s' = es ++ st_log s → aside es → st_ids s ⊆ st_ids s' → safe s hs → safe s' hs.
Proof.
  intros Hr Hl Ha Hi (H1 & H2 & H3 & H4 & H5). destruct (aside_log es (st_log s) Ha) as (A1 & A2 & A3). rewrite <- Hl in A1, A2, A3.
  split_and!; [| |by intros id ?%H3; apply Hi|done|auto].
  - intros k c Hk Hs. apply A1. auto.
  - intros k Hk (id & ? & ? & ?)%A2%H2; [|done]. exists id. auto.
Qed.

(** A process gives up the id it drew. *)
Lemma safe_drop s hs i : safe s hs → safe s (<[i := None]> hs).
Proof.
  intros (H1 & H2 & H3 & H4 & H5). assert (∀ id, Some id ∈ <[i := None]> hs → Some id ∈ hs) as Hs.
  { intros id [j Hj]%list_elem_of_lookup. apply list_lookup_insert_Some in Hj as [(_ & ? & _)|[_ Hj]]; [done|].
    by eapply list_elem_of_lookup_2. }
  split_and!; [done| |auto| |done].
  - intros k Hk (id & ? & ? & ?)%H2; [|done]. exists id. split_and!; [done|done|by intros ?%Hs].
  - intros a b id [(_ & ? & _)|[_ Ha]]%list_lookup_insert_Some [(_ & ? & _)|[_ Hb]]%list_lookup_insert_Some; by eauto.
Qed.

Lemma safe_store s hs i id v now ttl : safe s hs → hs !! i = Some (Some id) →
  safe (with_redis (cmd_set now (refresh_key id) v ttl (st_redis s)).2 [EStored (refresh_key id) v] s) (<[i := None]> hs).
Proof.
  intros Hs Hi. pose proof Hs as (H1 & _ & H3 & H4 & H5). destruct (safe_drop s hs i Hs) as (_ & H2 & H3' & H4' & _).
  assert (Some id ∈ hs) as Hin by by eapply list_elem_of_lookup_2.
  split_and!; cbn [st_redis st_log st_ids with_redis app]; [| |done..| ].
  - cbn. intros k c [[<- <-]|[Hn Hk]]%lookup_insert_Some Hr; [by rewrite decide_True|rewrite decide_False by done; auto].
  - intros k Hk [Ht|<-]%touched_cons; [auto|]. exists id. split_and!; [auto|done|].
    intros [j Hj]%list_elem_of_lookup. apply list_lookup_insert_Some in Hj as [(_ & ? & _)|[Hn Hj]]; [done|].
    by apply Hn, (H4 i j id).
  - split; [|done]. intros Hk Ht. destruct Hs as (_ & H2' & _). destruct (H2' _ Hk Ht) as (id' & _ & E & Hn).
    by apply refresh_key_inj in E as <-.
Qed.

Lemma safe_take s hs k now c : safe s hs → live_cell now k (st_redis s) = Some c →
  safe (with_redis (delete k (st_redis s)) [ETaken k (c_val c)] s) hs.
Proof.
  intros (H1 & H2 & H3 & H4 & H5) Hl%live_cell_lookup.
  split_and!; cbn [st_redis st_log st_ids with_redis app]; [| |done..|].
  - intros k' c' [Hn Hk]%lookup_delete_Some Hr. split; [done|auto].
  - intros k' Hk [Ht|<-]%touched_cons; [auto|]. apply H2; [done|]. by apply (alive_touched initial k (c_val c)), H1.
  - split; [|done]. intros Hk. split; [auto|]. apply (alive_not_taken initial k (c_val c)); auto.
Qed.

Lemma safe_delete s hs ks : safe s hs → safe (with_redis (foldr delete (st_redis s) ks) [EDeleted ks] s) hs.
Proof.
  intros (H1 & H2 & H3 & H4 & H5). split_and!; cbn [st_redis st_log st_ids with_redis app]; [| |done..|done].
  - intros k c [Hn Hk]%dels_lookup Hr. split; [done|auto].
  - intros k Hk [Ht|[]]%touched_cons. auto.
Qed.

Lemma tokens_draw s hs i id h : safe s hs → hs !! i = Some h → id ∉ st_ids s → safe (draw id s) (<[i := Some id]> hs).
Proof.
  intros (H1 & H2 & H3 & H4 & H5) Hi Hn. split_and!; cbn [draw st_ids st_redis st_log]; [done| | | |done].
  - intros k Hk (id' & Hid & -> & Hh)%H2; [|done]. exists id'. split_and!; [by right|done|].
    intros [j Hj]%list_elem_of_lookup. apply list_lookup_insert_Some in Hj as [(_ & [= ->] & _)|[_ Hj]]; [done|].
    by apply Hh, (list_elem_of_lookup_2 _ j).
  - intros id' [j Hj]%list_elem_of_lookup. apply list_lookup_insert_Some in Hj as [(_ & [= ->] & _)|[_ Hj]]; [by left|].
    right. by apply H3, (list_elem_of_lookup_2 _ j).
  - intros a b id' [(<- & E & _)|[Ha Ha']]%list_lookup_insert_Some [(<- & E' & _)|[Hb Hb']]%list_lookup_insert_Some; [done| | |by eapply H4].
    + injection E as ->. apply list_elem_of_lookup_2 in Hb'. by apply H3 in Hb'.
    + injection E' as ->. apply list_elem_of_lookup_2 in Ha'. by apply H3 in Ha'.
Qed.

Lemma tokens_call B (c : AccountCall B) s b s' hs i h (K : B → option uuid → Prop) :
  safe s hs → hs !! i = Some h → token_spec B c h K → call_step sql_canonical B c s b s' →
  ∃ h', K b h' ∧ safe s' (<[i := h']> hs).
Proof.
  intros Hs Hi [Hm Hk] Hc. exists (then_holds c h b). split; [apply Hk|].
  assert (∀ es s', (∀ k c, st_redis s' !! k = Some c → is_refresh_key k → st_redis s !! k = Some c) →
    st_log s' = es ++ st_log s → aside es → st_ids s ⊆ st_ids s' → safe s' (<[i := h]> hs)) as Hkeep.
  { intros es s1 H1 H2 H3 H4. rewrite list_insert_id by done. by eapply safe_keep. }
  destruct c; cbn in Hm, Hc |- *.
  - destruct Hc as (p' & _ & ->). eapply Hkeep; [done|done| |done].
    destruct c as [|X [t|] q|t|t|t|t|t]; cbn; repeat constructor; (destruct q; try constructor; cbn; by repeat case_match; repeat constructor).
  - destruct Hm as (id & -> & ->). destruct Hc as [(m' & -> & -> & _)|[_ ->]]; [by apply safe_store|by apply safe_drop].
  - destruct Hc as [(m' & -> & -> & _)|[_ ->]]; by apply (Hkeep []); [|..|constructor|].
  - rewrite list_insert_id by done. destruct Hc as [(m' & -> & -> & _)|[_ ->]]; [|done]. cbn.
    destruct (live_cell _ _ _) as [c|] eqn:El; cbn; [by eapply safe_take|]. eapply (safe_keep s _ _ []); try done; [|constructor].
    cbn. by intros k c [_ ?]%lookup_delete_Some.
  - rewrite list_insert_id by done. destruct Hc as [(m' & -> & -> & _)|[_ ->]]; [|done]. by apply safe_delete.
  - destruct Hc as [(m' & -> & -> & _)|[_ ->]]; apply (Hkeep []); try done; try constructor. cbn.
    intros k c Hl Hr. rewrite incr_frame in Hl; [done|]. congruence.
  - apply scan_beside in Hc as (_ & _ & Hl & Hr & Hids). apply (Hkeep []); [by rewrite Hr|done|constructor|by rewrite Hids].
  - destruct Hc as [_ ->]. by apply (Hkeep []); [|..|constructor|].
  - destruct Hc as [Hn ->]. by eapply tokens_draw.
  - subst s'. by apply (Hkeep []); [|..|constructor|].
  - subst s'. by apply (Hkeep []); [|..|constructor|].
  - destruct Hc as (m' & Hm' & ->). apply (Hkeep []); try done; [|constructor]. cbn. intros k c Hl Hr. by rewrite <- Hm'.
  - subst s'. by apply (Hkeep []); [|..|constructor|].
  - subst s'. by apply (Hkeep []); [|..|constructor|].
Qed.

Lemma tokens_more s hs : safe s hs → safe s (hs ++ [None]).
Proof.
  intros (H1 & H2 & H3 & H4 & H5). assert (∀ id, Some id ∈ hs ++ [None] → Some id ∈ hs) as Hs.
  { intros id [?|?%list_elem_of_singleton]%elem_of_app; done. }
  split_and!; [done| |by intros id ?%Hs%H3| |done].
  - intros k Hk (id & ? & ? & ?)%H2; [|done]. exists id. split_and!; [done|done|by intros ?%Hs].
  - intros i j id [Hi|[_ [_ ?]%list_lookup_singleton_Some]]%lookup_app_Some [Hj|[_ [_ ?]%list_lookup_singleton_Some]]%lookup_app_Some; try done.
    by eapply H4.
Qed.

Lemma tokens_env s hs s' : safe s hs → env s s' → safe s' hs.
Proof.
  intros Hs He. destruct He as [t|now Hn|w Hw Hf|id a Hn Hf|m Hm]; eapply (safe_keep s _ _ []); try done; try constructor.
  cbn. intros k c Hk Hr. destruct (Hm k Hr) as [E|E]; congruence.
Qed.

Lemma tokens_start s : quiet_start s → st_redis s = initial → safe s [].
Proof.
  intros (_ & _ & Hr & Hl & _) Hini. rewrite Hini in Hr. split_and!; rewrite ?Hl, ?Hini; cbn.
  - intros k c Hk _. eauto.
  - intros k Hk [[c Hc]|(v & [?%elem_of_nil|?%elem_of_nil])]; [|done..]. destruct (Hr k c Hc Hk) as (id & ? & ?).
    exists id. split_and!; [done|done|apply not_elem_of_nil].
  - by intros id ?%elem_of_nil.
  - done.
  - done.
Qed.

(** ** The operations *)

Definition mindful {A} (p : prog A) : Prop := ∀ h, wp token_spec p (λ _ _, True) h.

Lemma mindful_ret {A} (a : A) : mindful (Ret a).
Proof. done. Qed.

Lemma mindful_call {A B} (c : AccountCall B) (k : B → prog A) : (∀ h, may c h) → (∀ b, mindful (k b)) → mindful (Call c k).
Proof. intros Hc Hk h. split; [apply Hc|]. intros b. apply Hk. Qed.

Lemma mindful_bind {A B} (p : prog A) (f : A → prog B) : mindful p → (∀ a, mindful (f a)) → mindful (prog_bind p f).
Proof.
  intros Hp Hf h. apply wp_bind; [apply token_spec_mono|]. eapply wp_mono; [apply token_spec_mono| |apply Hp].
  intros a h' _. apply Hf.
Qed.

Lemma mindful_tx {A} op (body : N → fallible A) : (∀ t, mindful (body t)) → mindful (in_tx op body).
Proof.
  intros Hb. apply mindful_call; [done|]. intros [t|e]; [|done]. apply mindful_bind; [apply Hb|].
  intros [a|e]; apply mindful_call; try done. intros [?|?]; [done|]. by apply mindful_call.
Qed.

Lemma mindful_issue user : mindful (issue_tokens deps user).
Proof.
  intros h. unfold issue_tokens, generateAccessToken, generateRefreshToken. cbn [prog_bind].
  split; [done|]; intros now. split; [done|]; intros iat. split; [done|]; intros id.
  split; [done|]; intros now'. split; [done|]; intros iat'. cbn. split; [by exists id|]. by intros [].
Qed.

Ltac names := unfold find_user, GetByID, GetByIDIncludingDeleted, GetByIDIncludingDeletedInTx, GetByEmail, exec, affected,
  UpdateEmailInTx, RequestDeletionInTx, repoCancelDeletion, UpdatePreferredLocale, repoUpdateName, generateOpaqueToken,
  insertResetToken, Enqueue, EnqueueDeferred, IssueAndEnqueueTx, throttle, audit_in_tx, RecordRegistrationConsents,
  hash_password, purgeEligible, userByID, UpdateName, Create, ConsumeAtomic, MarkEmailVerifiedInTx, UpdatePasswordHashInTx,
  HardDeleteInTx, Update, bumpRateLimit, note_if, forget, applicant, wipeRefreshTokensForUser.

Ltac mindful_step := lazymatch goal with
  | |- mindful (Ret _) => apply mindful_ret
  | |- mindful (Call _ _) => apply mindful_call; [intros ?; cbn; try done|intros ?]
  | |- mindful (in_tx _ _) => apply mindful_tx; intros ?
  | |- mindful (issue_tokens _ _) => apply mindful_issue
  | |- mindful (prog_bind _ _) => apply mindful_bind; [|intros ?]
  | |- mindful (match ?x with _ => _ end) => destruct x
  | |- mindful _ => first [solve [auto with mindful] | progress names]
  end.

Ltac mindfuls := repeat mindful_step.

Lemma mindful_upsert t id ip ua l : mindful (upsertConsents t id ip ua l).
Proof. induction l as [|p l IH]; cbn [upsertConsents]; mindfuls; exact IH. Qed.

Lemma mindful_matching target ks acc : mindful (matching_keys target ks acc).
Proof. revert acc. induction ks as [|k ks IH]; intros acc; cbn [matching_keys]; mindfuls; apply IH. Qed.

Lemma mindful_scan pages target cursor acc : mindful (scan_matching pages target cursor acc).
Proof.
  revert cursor acc. induction pages as [|pages IH]; intros cursor acc; cbn [scan_matching]; mindfuls; try apply mindful_matching; apply IH.
Qed.

Lemma mindful_warn l : mindful (warn_all deps mail_text l).
Proof. induction l as [|u l IH]; cbn [warn_all]; mindfuls; apply IH. Qed.

Lemma mindful_cleanup l : mindful (cleanup_all l).
Proof. induction l as [|[? ?] l IH]; cbn [cleanup_all]; mindfuls. apply IH. Qed.

Lemma mindful_purge t ids : mindful (purge_all t ids).
Proof. induction ids as [|id ids IH]; cbn [purge_all]; unfold purge_one; mindfuls; apply IH. Qed.

#[local] Hint Resolve mindful_upsert mindful_scan mindful_warn mindful_cleanup mindful_purge : mindful.

Lemma starts_mindful p : starts deps lower sha256 sha256_hex bcrypt_ok zxcvbn_score currentVersion mail_text p → mindful p.
Proof.
  intros Hp. destruct Hp; unfold forget, RegisterWithContext, Register, Login, RefreshToken, Logout, ChangePassword, wipeRefreshTokensForUser,
    RequestReset, ConfirmReset, RequestResend, ConfirmVerify, IsTokenExpired, ChangeEmailBeforeVerify, WithdrawPDN, RequestDeletion,
    CancelDeletion, GetScheduledDeletionAt, HardDeleteSweeper, WarningSweeper, warningScanWindow, ReConsent, DiffAgainstCurrent; mindfuls.
Qed.

Definition gone (s : Store) (k : string) : Prop := live_cell (st_now s) k (st_redis s) = None.

(** What the iterations under way owed they owe still, or it is gone. *)
Definition carried (P : string → Prop) (s s' : Store) : Prop :=
  length (st_scans s) ≤ length (st_scans s') ∧
  ∀ it, it ∈ st_scans s → ∃ it', it' ∈ st_scans s' ∧ sc_cursor it' = sc_cursor it ∧ sc_prefix it' = sc_prefix it
    ∧ ∀ k, P k → k ∈ sc_due it → k ∈ sc_due it' ∨ gone s' k.

Lemma carried_more P s s' l : st_scans s' = l ++ st_scans s → carried P s s'.
Proof.
  intros E. split; [rewrite E, length_app; lia|]. intros it Hit. exists it. rewrite E. split_and!; [set_solver|done|done|auto].
Qed.

Lemma carried_still P s s' : st_scans s' = map (still (st_now s') (st_redis s')) (st_scans s) → carried P s s'.
Proof.
  intros E. split; [by rewrite E, length_map|]. intros it Hit.
  eexists. split_and!; [rewrite E; by apply list_elem_of_fmap_2|done..|]. intros k _ Hk. cbn [still sc_due].
  rewrite elem_of_filterb, bool_decide_eq_true, elem_of_live_keys. unfold gone.
  destruct (live_cell _ k _) as [c|]; [left; split; [by exists c|done]|by right].
Qed.

(** No call stores a token again that was there before. *)
Definition keeps (s s' : Store) : Prop :=
  (st_now s ≤ st_now s')%Z ∧ st_log s ⊆ st_log s' ∧ carried (λ _, True) s s'
  ∧ ∀ k c, is_refresh_key k → touched initial k (st_log s) → st_redis s' !! k = Some c → st_redis s !! k = Some c.

Lemma keeps_redis s m es : (∀ k c, is_refresh_key k → touched initial k (st_log s) → m !! k = Some c → st_redis s !! k = Some c) →
  keeps s (with_redis m es s).
Proof. intros Hm. split; [cbn; lia|]. split; [cbn; set_solver|]. split; [by apply carried_still|done]. Qed.

Lemma keeps_refl s : keeps s s.
Proof. split_and!; [lia|done|by apply (carried_more _ _ _ [])|done]. Qed.

Lemma keeps_scan s s' cursor prefix (r : result RedisError (list string * N)) :
  match r with Ok (ks, next) => scan_page cursor prefix ks next s s' | Err _ => s' = s end → keeps s s'.
Proof.
  destruct r as [[ks next]|e]; [|intros ->; apply keeps_refl]. intros [_ Hs].
  destruct (next =? 0)%N; [destruct Hs as [-> _]; apply keeps_refl|subst s'].
  split_and!; [cbn; lia|done|by eapply carried_more|done].
Qed.

Lemma call_keeps B (c : AccountCall B) s b s' hs i h :
  safe s hs → hs !! i = Some h → may c h → call_step sql_canonical B c s b s' → keeps s s'.
Proof.
  intros (_ & H2 & _) Hi Hm Hc. pose proof (keeps_refl s) as Hid.
  destruct c; cbn in Hm, Hc; try (subst s'; exact Hid);
    try (destruct Hc as [_ ->]; split_and!; [cbn; lia|done|by apply (carried_more _ _ _ [])|done]);
    try (destruct Hc as [(m' & -> & -> & _)|[_ ->]]; [|exact Hid]; apply keeps_redis; cbn; intros k c Hr Ht).
  - destruct Hc as (p' & _ & ->). split_and!; [cbn; lia|cbn; set_solver|by apply (carried_more _ _ _ [])|done].
  - destruct Hm as (id & -> & ->). intros [[<- _]|[_ ?]]%lookup_insert_Some; [|done].
    destruct (H2 _ Hr Ht) as (id' & _ & <-%refresh_key_inj & Hn). by apply list_elem_of_lookup_2, Hn in Hi.
  - done.
  - by intros [_ ?]%lookup_delete_Some.
  - by intros [_ ?]%dels_lookup.
  - intros Hl. rewrite incr_frame in Hl; [done|congruence].
  - by eapply keeps_scan.
  - destruct Hc as (m' & Hm' & ->). apply keeps_redis. intros k c Hr _. by rewrite Hm'.
Qed.

Lemma env_keeps s s' : env s s' → keeps s s'.
Proof.
  intros He. assert (∀ p, keeps s (with_pg p [] s)) as Hp.
  { intros p. split_and!; [cbn; lia|done|by apply (carried_more _ _ _ [])|done]. }
  destruct He as [t|now Hn|w Hw Hf|id a Hn Hf|m Hm]; try apply Hp.
  { split_and!; [done|done|by apply carried_still|done]. }
  apply keeps_redis. intros k c Hr _ Hk. destruct (Hm k Hr) as [E|E]; congruence.
Qed.

Notation system_step := (sys_step (call_step sql_canonical) env
  (starts deps lower sha256 sha256_hex bcrypt_ok zxcvbn_score currentVersion mail_text)).
Notation reachable := (reachable (call_step sql_canonical) env
  (starts deps lower sha256 sha256_hex bcrypt_ok zxcvbn_score currentVersion mail_text)
  (λ s0, quiet_start s0 ∧ st_redis s0 = initial)).

Lemma reachable_safe s : reachable s →
  sound (H := option uuid) token_spec safe s.
Proof.
  intros Hr. eapply (reachable_sound (call_step sql_canonical) env
    (starts deps lower sha256 sha256_hex bcrypt_ok zxcvbn_score currentVersion mail_text) token_spec safe None); [..|exact Hr].
  - intros. by eapply tokens_call.
  - apply tokens_more.
  - intros. by eapply tokens_env.
  - intros p Hp. by apply starts_mindful.
  - intros s0 [? ?]. by apply tokens_start.
Qed.

Lemma system_keeps s s' : reachable s → system_step s s' → keeps (sy_store s) (sy_store s').
Proof.
  intros (hs & Hs & Hlen & Hord)%reachable_safe Hstep. pose proof keeps_refl as Hid.
  destruct Hstep as [st ps i B c k b st' Hi Hcall|st ps p Hp|st ps i|st ps st' He]; cbn [sy_store sy_procs] in *; try apply Hid.
  - destruct (lookup_lt_is_Some_2 hs i) as [h Hh]; [rewrite Hlen; by eapply lookup_lt_Some|].
    destruct (Hord i _ h Hi Hh) as [Hm _]. by eapply call_keeps.
  - by apply env_keeps.
Qed.

(** A refresh that succeeds has taken a token out in its own run. *)
Definition takes_token (now : Z) (token : string) (hist : list (answered AccountCall)) : Prop :=
  ∃ c v, parse_refresh deps now token = Some c ∧ Answered (GetDelC (refresh_key (cl_token_id c))) (Ok (Some v)) ∈ hist.

Lemma refresh_takes h n token r hist : Prog.run h n (RefreshToken deps token) [] = (Ok r, hist) → ∃ now, takes_token now token hist.
Proof.
  intros Hr. set (ans := λ B (c : AccountCall B) (b : B), True).
  assert (wp (history_spec ans) (RefreshToken deps token) (λ r hist, is_ok r = true → ∃ now, takes_token now token hist) []) as Hw.
  { intros now _. destruct (parse_refresh deps now token) as [c|] eqn:Ec; [|done]. intros [[v|]|] _; [|done..].
    destruct (negb _); [done|]. eapply wp_mono; [apply history_spec_mono| |apply wp_history_true]. cbn.
    intros a hist' Hsub _. exists now, c, v. split; [done|]. apply Hsub. by left. }
  pose proof (run_wp ans h n (RefreshToken deps token) _ [] (λ _ _ _, I) Hw) as Hq. rewrite Hr in Hq. by apply Hq.
Qed.

(** C29: In every interleaving, a refresh token is stored once, under an id drawn for it;
    when it is taken out it is there as it was stored, nobody having taken or deleted it
    since, and nobody takes it again; and a refresh succeeds only if its own [GETDEL]
    took the token out: of two uses of a token one fails. *)
Theorem refresh_once s : reachable s →
  log_all (session_ok initial) (st_log (sy_store s))
  ∧ ∀ h n token r hist, Prog.run h n (RefreshToken deps token) [] = (Ok r, hist) → ∃ now, takes_token now token hist.
Proof. intros (hs & (_ & _ & _ & _ & Hs) & _)%reachable_safe. split; [done|]. apply refresh_takes. Qed.

(** ** Wiping the tokens of a user

    Others may do anything meanwhile but store a token again that was there before. *)
Section wipe.
Variables (target : string) (before : keyspace) (start : list Entry).

Definition held (k : string) : Prop := is_refresh_key k ∧ ∃ c, before !! k = Some c ∧ c_val c = target.

Definition others (s s' : Store) : Prop :=
  (st_now s ≤ st_now s')%Z ∧ (start ⊆ st_log s →
    start ⊆ st_log s' ∧ (∀ k c, held k → st_redis s' !! k = Some c → st_redis s !! k = Some c) ∧ carried held s s').

Notation runs := (runs (call_step sql_canonical) others).

Definition same (s : Store) : Prop := start ⊆ st_log s ∧ ∀ k c, held k → st_redis s !! k = Some c → c_val c = target.
Lemma same_others s s' : others s s' → same s → same s'.
Proof. intros [_ Ho] [Hl Hs]. destruct (Ho Hl) as (Hl' & Hk & _). split; [done|]. intros k c Hh Hc. eapply Hs; eauto. Qed.

Lemma gone_others s s' k : start ⊆ st_log s → others s s' → held k → gone s k → gone s' k.
Proof.
  intros Hl [Hn Ho] Hk Hg. destruct (Ho Hl) as (_ & Ho' & _). unfold gone in *. destruct (live_cell (st_now s') k (st_redis s')) as [c|] eqn:E; [|done].
  assert (st_redis s !! k = Some c) as Hc by by eapply Ho', live_cell_lookup. unfold live_cell in E, Hg.
  rewrite Hc in Hg. destruct (st_redis s' !! k) as [c'|]; [|done]. unfold cell_live in *.
  destruct (c_exp c') as [e|] eqn:Ee.
  - destruct (Z.leb_spec (st_now s') e); [|done]. injection E as ->. rewrite Ee in Hg.
    by rewrite (proj2 (Z.leb_le (st_now s) e)) in Hg by lia.
  - injection E as ->. by rewrite Ee in Hg.
Qed.

Lemma others_refl s : others s s.
Proof. split; [lia|]. intros Hl. split; [done|]. split; [done|]. by apply (carried_more _ _ _ []). Qed.

Lemma others_trans s s1 s' : others s s1 → others s1 s' → others s s'.
Proof.
  intros [H1 H2] Ho. pose proof Ho as [H3 H4]. split; [lia|]. intros Hl.
  destruct (H2 Hl) as (Hl1 & Hk1 & Hn1 & Hc1). destruct (H4 Hl1) as (Hl2 & Hk2 & Hn2 & Hc2).
  split; [done|]. split; [eauto|]. split; [lia|].
  intros it (it1 & (it2 & Hit & Ec & Ep & Hd2)%Hc2 & <- & <- & Hd1)%Hc1. exists it2. split_and!; [done..|].
  intros k Hh Hk. destruct (Hd1 k Hh Hk) as [?|Hg]; [auto|right]. by apply (gone_others s1).
Qed.

Lemma others_steps s s' : rtc others s s' → others s s'.
Proof. induction 1 as [s|s s1 s' Ho _ IH]; [apply others_refl|by eapply others_trans]. Qed.

(** A read takes no token away and stores none. *)
Lemma get_others k (r : result RedisError (option string)) s s' : call_step sql_canonical _ (GetC k) s r s' → others s s'.
Proof.
  intros [(m' & -> & -> & _)|[_ ->]]; [|apply others_refl]. split; [cbn; lia|]. intros Hl. split_and!; [done|done|by apply carried_still].
Qed.

Lemma scan_others s s' cursor prefix (r : result RedisError (list string * N)) :
  match r with Ok (ks, next) => scan_page cursor prefix ks next s s' | Err _ => s' = s end → others s s'.
Proof.
  intros Hs. pose proof (keeps_scan _ _ _ _ _ Hs) as (Hn & _ & [Hc1 Hc2] & _). apply scan_beside in Hs as (_ & _ & El & Er & _).
  split; [done|]. intros Hl. rewrite El, Er. split; [done|]. split; [done|]. split; [done|]. intros it (it' & ? & ? & ? & Hd)%Hc2. exists it'. split_and!; auto.
Qed.

(** The keys of a page that are gone by the end, or collected. *)
Lemma matching_runs ks acc s r s' : same s → runs (matching_keys target ks acc) s r s' →
  others s s' ∧ (∀ e, r = Err e → e = ErrInternal "get") ∧ ∀ acc', r = Ok acc' → acc ⊆ acc' ∧ ∀ k, held k → k ∈ ks → k ∈ acc' ∨ gone s' k.
Proof.
  revert acc s. induction ks as [|k ks IH]; intros acc s Hs; cbn [matching_keys Prog.runs].
  - intros [-> ->]. split; [apply others_refl|]. split; [done|]. intros acc' [= <-]. split; [done|]. by intros k _ ?%elem_of_nil.
  - intros (s1 & b & s2 & Ho%others_steps & Hstep & Hr). pose proof (same_others _ _ Ho Hs) as Hs1.
    pose proof (get_others _ _ _ _ Hstep) as Hq. pose proof (others_trans _ _ _ Ho Hq) as Ho2. pose proof (same_others _ _ Hq Hs1) as Hs2.
    destruct b as [[v|]|e].
    + apply IH in Hr as (Ho' & He & Hr); [|done]. split; [by eapply others_trans|]. split; [done|]. intros acc' Hacc.
      destruct (Hr acc' Hacc) as [Hsub Hk]. split; [destruct (String.eqb v target); set_solver|].
      intros k' Hh [->|Hin]%elem_of_cons; [|auto]. left. apply Hsub.
      assert (v = target) as ->; [|rewrite String.eqb_refl; set_solver].
      destruct Hstep as [(m' & _ & _ & [Hb|Hb])|[Hb _]]; try done. cbn in Hb. injection Hb as Hb.
      destruct (live_cell _ k _) as [c|] eqn:E; [|done]. injection Hb as ->. apply live_cell_lookup in E. by eapply Hs1.
    + apply IH in Hr as (Ho' & He & Hr); [|done]. split; [by eapply others_trans|]. split; [done|]. intros acc' Hacc.
      destruct (Hr acc' Hacc) as [Hsub Hk]. split; [done|]. intros k' Hh [->|Hin]%elem_of_cons; [|auto]. right.
      apply (gone_others s2); [apply Hs2|done|done|]. destruct Hstep as [(m' & -> & -> & [Hb|Hb])|[Hb _]]; try done. cbn in Hb. injection Hb as Hb.
      unfold gone. cbn. by destruct (live_cell _ k _).
    + destruct Hr as [-> ->]. split_and!; [done| |done]. by intros e' [= <-].
Qed.

(** What is not collected is gone, or owed to the iteration that [cursor] goes on with. *)
Definition reached (cursor : N) (acc : list string) (s : Store) : Prop :=
  cursor ≠ 0%N → ∃ it, it ∈ st_scans s ∧ sc_cursor it = cursor ∧ sc_prefix it = refreshTokenKeyPrefix
    ∧ ∀ k, held k → k ∈ acc ∨ gone s k ∨ k ∈ sc_due it.

Lemma reached_others cursor acc acc' s s' : start ⊆ st_log s → others s s' → acc ⊆ acc' → reached cursor acc s → reached cursor acc' s'.
Proof.
  intros Hl Ho Hsub Hp Hc. pose proof Ho as [_ (_ & _ & _ & Hcar)%(λ f, f Hl)].
  destruct (Hp Hc) as (it & (it' & Hit & <- & <- & Hd)%Hcar & ? & ? & Hdue). exists it'. split_and!; [done..|].
  intros k Hh. destruct (Hdue k Hh) as [Hk|[Hg|Hk]]; [left; auto|right; left; by apply (gone_others s)|].
  destruct (Hd k Hh Hk); auto.
Qed.

(** One page: what it does not hold is owed on, or nothing is owed any more. *)
Lemma page_reached cursor acc ks next s s' : scan_page cursor refreshTokenKeyPrefix ks next s s' → reached cursor acc s →
  (next = 0%N → ∀ k, held k → k ∈ acc ++ ks ∨ gone s' k)
  ∧ (next ≠ 0%N → reached next (acc ++ ks) s' ∧ length (st_scans s) < length (st_scans s')).
Proof.
  intros [_ Hs] Hr.
  assert (∃ due, due ∈ owed cursor refreshTokenKeyPrefix s ∧ ∀ k, held k → k ∈ acc ∨ gone s k ∨ k ∈ due) as (due & Hdue & Hk).
  { unfold owed. destruct (N.eqb_spec cursor 0) as [->|Hc].
    - eexists. split; [by left|]. intros k [Hp _]. rewrite elem_of_filterb, elem_of_live_keys. unfold gone.
      destruct (live_cell _ k _) as [c|]; [right; right; split; [done|by exists c]|by right; left].
    - destruct (Hr Hc) as (it & Hit & Ec & Ep & Hk). exists (filterb (String.prefix refreshTokenKeyPrefix) (sc_due it)). split.
      + do 2 apply list_elem_of_fmap_2. apply elem_of_filterb. split; [|done]. by rewrite Ec, Ep, N.eqb_refl, String.eqb_refl.
      + intros k Hh. rewrite elem_of_filterb. destruct (Hk k Hh) as [?|[?|?]]; [auto..|]. right; right. by split; [apply Hh|]. }
  destruct (N.eqb_spec next 0) as [->|Hn]; split; intros Hc; try done.
  - destruct Hs as [-> Hall]. intros k Hh. specialize (Hall due Hdue). destruct (Hk k Hh) as [?|[?|?]]; set_solver.
  - subst s'. split.
    + intros _. eexists. split_and!; [cbn; apply elem_of_app; left; by apply list_elem_of_fmap_2|done..|].
      intros k Hh. cbn [sc_due]. rewrite elem_of_filterb, bool_decide_eq_true, elem_of_app.
      destruct (decide (k ∈ ks)); destruct (Hk k Hh) as [?|[?|?]]; auto.
    + cbn. rewrite length_app, length_fmap. destruct (owed _ _ _); [by apply elem_of_nil in Hdue|]. cbn. lia.
Qed.

Lemma scan_runs pages cursor acc s r s' : same s → reached cursor acc s →
  runs (scan_matching pages target cursor acc) s r s' →
  others s s' ∧ match r with
                | Ok acc' => ∀ k, held k → k ∈ acc' ∨ gone s' k
                | Err e => e = ErrInternal "pages" → length (st_scans s) + pages ≤ length (st_scans s')
                end.
Proof.
  revert cursor acc s. induction pages as [|pages IH]; intros cursor acc s Hs Hp; cbn [scan_matching Prog.runs].
  - intros [-> ->]. split; [apply others_refl|]. lia.
  - intros (s1 & b & s2 & Ho%others_steps & Hpage & Hr). cbn in Hpage. pose proof (same_others _ _ Ho Hs) as Hs1.
    pose proof (scan_others _ _ _ _ _ Hpage) as Hsc. pose proof (others_trans _ _ _ Ho Hsc) as Hos. pose proof (same_others _ _ Hsc Hs1) as Hs2.
    destruct b as [[ks next]|e]; [|destruct Hr as [-> ->]; by split].
    apply runs_bind in Hr as (m & s3 & Hm & Hr). apply matching_runs in Hm as (Ho3 & He & Hm); [|done].
    pose proof (others_trans _ _ _ Hos Ho3) as Hos3.
    destruct m as [acc'|e]; [|destruct Hr as [-> ->]; split; [done|]; by rewrite (He e eq_refl)].
    destruct (Hm acc' eq_refl) as [Hsub Hks]. destruct (page_reached _ acc _ _ _ _ Hpage) as [Hend Hgo].
    { eapply (reached_others _ acc acc s); [apply Hs|done|done|done]. }
    assert (∀ k, held k → k ∈ acc ++ ks ∨ gone s2 k → k ∈ acc' ∨ gone s3 k) as Hin.
    { intros k Hh [[?|?]%elem_of_app|Hg]; [left; auto|auto|right]. by apply (gone_others s2 s3 k (proj1 Hs2)). }
    destruct (N.eqb_spec next 0) as [Hn|Hn].
    + destruct Hr as [-> ->]. split; [done|]. intros k Hk. auto.
    + destruct (Hgo Hn) as [Hre Hlen]. apply IH in Hr as [Ho4 Hr]; [|by eapply same_others|].
      * split; [by eapply others_trans|]. destruct r; [done|]. intros Hpg%Hr.
        destruct Ho as [_ (_ & _ & L1 & _)%(λ f, f (proj1 Hs))]. destruct Ho3 as [_ (_ & _ & L3 & _)%(λ f, f (proj1 Hs2))]. lia.
      * intros _. destruct (reached_others next (acc ++ ks) (acc ++ ks) s2 s3 (proj1 Hs2) Ho3 (reflexivity _) Hre Hn) as (it & ? & ? & ? & Hdue).
        exists it. split_and!; [done..|]. intros k Hh. destruct (Hdue k Hh) as [[?|?]%elem_of_app|[?|?]]; [left; auto| |auto..].
        destruct (Hks k Hh ltac:(done)); auto.
Qed.

End wipe.

Notation moved := (λ s s', ∃ S S', reachable S ∧ system_step S S' ∧ sy_store S = s ∧ sy_store S' = s').

Lemma moved_others S0 target : reachable S0 → ∀ s s', moved s s' → others target (st_redis (sy_store S0)) (st_log (sy_store S0)) s s'.
Proof.
  intros Hr0 s s' (S & S' & Hr & Hstep & <- & <-). destruct (system_keeps S S' Hr Hstep) as (Hn & Hl & [Hlen Hc] & Hk).
  split; [done|]. intros Hs. split; [set_solver|]. split; [|split; [done|]].
  - intros k c (Hrk & c0 & Hc0 & _). apply Hk; [done|].
    destruct (reachable_safe S0 Hr0) as (hs & (H1 & _) & _). pose proof (alive_touched _ _ _ _ (H1 k c0 Hc0 Hrk)) as [?|(v & Ht)]; [by left|].
    right. exists v. set_solver.
  - intros it (it' & ? & ? & ? & Hd)%Hc. exists it'. split_and!; auto.
Qed.

(** No refresh token the user had in Redis [before] is left. *)
Definition tokens_gone (before : keyspace) (id : uuid) (s : Store) : Prop :=
  ∀ k c, is_refresh_key k → before !! k = Some c → c_val c = uuid_string id → live_cell (st_now s) k (st_redis s) = None.

(** C30: When [wipeRefreshTokensForUser] returns without an error, every refresh token
    the user had in Redis when it began is gone, whatever every other process and the
    environment did between its calls; and the scan is given up at a number of pages only
    when Redis has meanwhile given out that many cursors to go on from. *)
Theorem wipe_ends_sessions pages id S0 r s' : reachable S0 →
  runs (call_step sql_canonical) moved (wipeRefreshTokensForUser pages id) (sy_store S0) r s' →
  match r with
  | Ok _ => tokens_gone (st_redis (sy_store S0)) id s'
  | Err e => e = ErrInternal "pages" → length (st_scans (sy_store S0)) + pages ≤ length (st_scans s')
  end.
Proof.
  intros Hr0 Hr. set (s0 := sy_store S0) in *.
  apply (runs_mono _ _ _ _ _ _ _ (moved_others S0 (uuid_string id) Hr0)) in Hr. fold s0 in Hr.
  assert (same (uuid_string id) (st_redis s0) (st_log s0) s0) as Hs0.
  { split; [done|]. intros k c (_ & c' & Hc' & Hv) Hc. congruence. }
  apply runs_bind in Hr as (m & s1 & Hscan & Hr). apply scan_runs in Hscan as [Ho Hm]; [|done|by intros []].
  pose proof (same_others _ _ _ _ _ Ho Hs0) as Hs1. destruct m as [keys|e]; [|by destruct Hr as [-> ->]].
  assert (∀ k c, is_refresh_key k → st_redis s0 !! k = Some c → c_val c = uuid_string id → held (uuid_string id) (st_redis s0) k) as Hheld.
  { intros k c Hk Hc Hv. split; [done|]. by exists c. }
  case_bool_decide as Hk.
  - destruct Hr as [-> ->]. intros k c H1 H2 H3. destruct (Hm k) as [Hin|Hg]; [by eapply Hheld|by rewrite Hk in Hin; apply elem_of_nil in Hin|done].
  - destruct Hr as (s2 & b & s3 & Hos%others_steps & Hstep & -> & ->). destruct b as [n|e]; [|done].
    intros k c H1 H2 H3. pose proof (Hheld k c H1 H2 H3) as Hh. destruct Hstep as [(m' & -> & -> & _)|[? _]]; [|done]. cbn.
    destruct (live_cell _ k _) as [c'|] eqn:El; [|done]. apply dels_live in El as [Hn Hl].
    destruct (Hm k Hh) as [?|Hg]; [done|]. pose proof (gone_others _ _ _ _ _ _ (proj1 Hs1) Hos Hh Hg) as Hg2.
    unfold gone in Hg2. congruence.
Qed.
End sessions.
