(* ===== verification/AccountDemo.v ===== *)
(** * Accounts on concrete data

    A server that answers every call, the witnesses of the theorems on accounts and
    sessions, and the runs that show where the code departs from its comments. *)

From S2P Require Import Prelude Json GoTime Types Users A2A Prog Pg AccountStore Redis RateLimit AccountService AccountSystem AccountOps AccountSessions.
Local Open Scope go_scope.

#[local] Existing Instance decimal_uuid.

(** ** Signed texts: the bits of what is signed *)

Fixpoint bits (p : positive) : string :=
  match p with xH => "" | xO p => String "0" (bits p) | xI p => String "1" (bits p) end.

Fixpoint of_bits (s : string) : option positive :=
  match s with
  | "" => Some xH
  | String c s => if Ascii.eqb c "0" then xO <$> of_bits s else if Ascii.eqb c "1" then xI <$> of_bits s else None
  end.

Lemma of_bits_bits p : of_bits (bits p) = Some p.
Proof. induction p as [p IH|p IH|]; cbn; rewrite ?IH; done. Qed.

Definition claims_code (c : Claims) : uuid * string * uuid * string * string * list string * option Z * option Z :=
  (cl_user_id c, cl_email c, cl_token_id c, cl_subject c, cl_issuer c, cl_audience c, cl_expires_at c, cl_issued_at c).

Definition claims_of (x : uuid * string * uuid * string * string * list string * option Z * option Z) : Claims :=
  let '(user, email, token, subject, issuer, audience, expires, issued) := x in
  {| cl_user_id := user; cl_email := email; cl_token_id := token; cl_subject := subject; cl_issuer := issuer;
     cl_audience := audience; cl_expires_at := expires; cl_issued_at := issued |}.

Definition signed_code (text : string) : option (string * (uuid * string * uuid * string * string * list string * option Z * option Z)) :=
  match of_bits text with Some code => decode code | None => None end.

Program Definition bit_jwt : Jwt := {|
  jwt_sign secret c := bits (encode (secret, claims_code c));
  jwt_verify secret text :=
    match signed_code text with
    | Some (secret', x) => if String.eqb secret' secret then Some (claims_of x) else None
    | None => None
    end;
|}.
Next Obligation. intros secret c. unfold signed_code. rewrite of_bits_bits, decode_encode, String.eqb_refl. by destruct c. Qed.
#[local] Existing Instance bit_jwt.

(** ** The server *)

(** What happens before a transaction begins, while a password is hashed, before a token
    is stored. *)
Record Hooks := { hk_begin : Store → Store; hk_hash : Store → Store; hk_set : Store → Store }.
Definition plain_hooks : Hooks := {| hk_begin := λ s, s; hk_hash := λ s, s; hk_set := λ s, s |}.

Notation run := (AccountStore.run (λ email, email)).

(** An id no row has. *)
Definition row_id (p : Pg (K := Key) (V := Row)) : uuid := N.of_nat (1000 + size (pg_rows p)).

Definition pg_server (now : Z) {B} (c : PgCall Stmt B) : Pg → B * Pg :=
  match c in PgCall _ B return Pg → B * Pg with
  | BeginC => λ p, (Ok (pg_next p), {| pg_rows := pg_rows p;
      pg_open := <[pg_next p := {| tx_now := now; tx_writes := ∅; tx_locks := ∅; tx_saved := [] |}]> (pg_open p);
      pg_next := (pg_next p + 1)%N |})
  | ExecC None q => λ p,
      let e := run _ q {| mo_now := now; mo_id := row_id p |} (locked None p) (pg_rows p) in
      if decide ((ef_locks e ∪ dom (ef_writes e)) ## locked None p) then (ef_out e, with_rows (ef_writes e) p) else (Err DbFailed, p)
  | ExecC (Some t) q => λ p,
      match pg_open p !! t with
      | Some x =>
          let e := run _ q {| mo_now := tx_now x; mo_id := (row_id p + N.of_nat (size (tx_writes x)))%N |} (locked (Some t) p) (overlay (tx_writes x) (pg_rows p)) in
          if decide ((ef_locks e ∪ dom (ef_writes e)) ## locked (Some t) p) then (ef_out e, with_txn t (performed e x) p) else (Err DbFailed, p)
      | None => (Err DbFailed, p)
      end
  | SaveC t => λ p,
      match pg_open p !! t with
      | Some x => (Ok tt, with_txn t {| tx_now := tx_now x; tx_writes := tx_writes x; tx_locks := tx_locks x;
                                        tx_saved := (tx_writes x, tx_locks x) :: tx_saved x |} p)
      | None => (Err DbFailed, p)
      end
  | ReleaseC t => λ p,
      match pg_open p !! t with
      | Some x => (Ok tt, with_txn t {| tx_now := tx_now x; tx_writes := tx_writes x; tx_locks := tx_locks x; tx_saved := tail (tx_saved x) |} p)
      | None => (Err DbFailed, p)
      end
  | RestoreC t => λ p,
      match pg_open p !! t with
      | Some {| tx_now := n; tx_saved := (w, l) :: saved |} =>
          (tt, with_txn t {| tx_now := n; tx_writes := w; tx_locks := l; tx_saved := saved |} p)
      | _ => (tt, p)
      end
  | CommitC t => λ p, match pg_open p !! t with Some x => (Ok tt, commit_txn t x p) | None => (Err DbFailed, p) end
  | RollbackC t => λ p, (tt, drop_txn t p)
  end.

Definition redis_server {X} (c : cmd X) (l : result RedisError X → list Entry) (s : Store) : result RedisError X * Store :=
  let '(r, m') := c (st_redis s) in (r, with_redis m' (l r) s).

Definition begins {B} (c : PgCall Stmt B) : bool := match c with BeginC => true | _ => false end.

Definition server (hk : Hooks) B (c : AccountCall B) : Store → B * Store :=
  match c in AccountCall B return Store → B * Store with
  | PgC c => λ s,
      let s := if begins c then hk_begin hk s else s in
      let '(r, p') := pg_server (st_now s) c (st_pg s) in (r, with_pg p' (pg_entries c (st_now s) (st_pg s) p' r) s)
  | SetC k v ttl => λ s, let s := hk_set hk s in redis_server (cmd_set (st_now s) k v ttl) (λ _, [EStored k v]) s
  | GetC k => λ s, redis_server (cmd_get (st_now s) k) (λ _, []) s
  | GetDelC k => λ s, redis_server (cmd_getdel (st_now s) k) (λ r, match r with Ok (Some v) => [ETaken k v] | _ => [] end) s
  | DelC ks => λ s, redis_server (cmd_dels (st_now s) ks) (λ _, [EDeleted ks]) s
  | IncrC k window => λ s, redis_server (incrWithHealScript (st_now s) k (window / Millisecond)) (λ _, []) s
  | ScanC cursor prefix _ => λ s, (Ok (mjoin (owed cursor prefix s), 0%N), s)
  | NowC => λ s, (st_now s, s)
  | NewIDC => λ s, let id := above (st_ids s) in (id, draw id s)
  | RandomC => λ s, (Ok "fresh link", s)
  | HashC pw => λ s, (Ok pw, hk_hash hk s)
  | ClearLockoutC _ => λ s, (Ok tt, with_redis (st_redis s) [] s)
  | CleanupC _ _ => λ s, (Ok tt, s)
  | NoteC _ => λ s, (tt, s)
  end.

Notation step := (call_step (λ email, email)).

(** Alone it is one the system allows. *)
Lemma pg_server_step now {B} (c : PgCall Stmt B) p : pg_step run now c p (pg_server now c p).1 (pg_server now c p).2.
Proof.
  destruct c as [|X [t|] q|t|t|t|t|t]; cbn.
  - by left.
  - destruct (pg_open p !! t) as [x|] eqn:E; [|by right; split; [|left]]. case_decide; [|by right; split; [|left]].
    left. exists x, (row_id p + N.of_nat (size (tx_writes x)))%N. done.
  - case_decide; [|by right]. left. exists (row_id p). split_and!; [done|done|by left].
  - destruct (pg_open p !! t) as [x|] eqn:E; [|by right; split; [|left]]. left. split; [done|]. by exists x.
  - destruct (pg_open p !! t) as [x|] eqn:E; [|by right; split; [|left]]. left. split; [done|]. by exists x.
  - destruct (pg_open p !! t) as [[n w l [|[w' l'] saved]]|] eqn:E; try (by right; left). left.
    eexists _, w', l', saved. split; [done|]. by split.
  - destruct (pg_open p !! t) as [x|] eqn:E; [|by right; split; [|left]]. left. by exists x.
  - done.
Qed.

Lemma redis_server_step {X} (c : cmd X) l s : redis_step c l s (redis_server c l s).1 (redis_server c l s).2.
Proof. unfold redis_server. destruct (c (st_redis s)) as [r m] eqn:E. left. exists m. rewrite E. by split_and!; [| |left]. Qed.

Lemma account_server_step B (c : AccountCall B) s : step B c s (server plain_hooks B c s).1 (server plain_hooks B c s).2.
Proof.
  destruct c as [B c| | | | | | | | | | | | |]; try (by apply redis_server_step); cbn; try done.
  - assert ((if begins c then s else s) = s) as -> by by destruct c. pose proof (pg_server_step (st_now s) c (st_pg s)) as Hs.
    destruct (pg_server (st_now s) c (st_pg s)) as [r p']. by exists p'.
  - split; [|split; [done|]].
    + intros k (due & Hk & Hdue)%list_elem_of_join. unfold owed in Hdue.
      apply list_elem_of_fmap in Hdue as (l & -> & _). by apply elem_of_filterb in Hk as [].
    + intros due Hdue k Hk. apply list_elem_of_join. by exists due.
  - split; [apply above_unused|done].
  - by exists (st_redis s).
Qed.

(** ** An account and what it holds *)

Definition demo_deps : AccountDeps := {|
  ad_secret := "secret"; ad_register_tx := true; ad_register_consents := true; ad_audit := true; ad_telemetry := false;
  ad_lockout := true; ad_public_url := "https://app"; ad_grace_days := 30; ad_t7_offset_days := 23; ad_warn_scan_window := Day |}.

Definition demo_user (id : uuid) (email : string) (requested : option Z) : User := {|
  us_id := id; us_email := email; us_name := ""; us_password_hash := "old password"; us_preferred_locale := "ru";
  us_email_verified := false; us_email_verified_at := None; us_deleted_at := requested; us_deletion_requested_at := requested;
  us_deletion_canceled_at := None; us_created_at := 0; us_updated_at := 0 |}.

Definition demo_link (id : uuid) (email : string) : Link :=
  {| li_user := id; li_email := email; li_expires := Hour; li_consumed := None |}.

Definition store (now : Z) (l : list (Key * Row)) : Store := {|
  st_pg := {| pg_rows := list_to_map l; pg_open := ∅; pg_next := 0 |}; st_redis := ∅; st_now := now; st_ids := [uuid_nil]; st_log := []; st_scans := [] |}.

Definition same_text (a b : string) : bool := String.eqb a b.
Definition strong (_ : string) : nat := 4.
Definition demo_mail (template : string) (_ : list string) : string * string * string := (template, "", "").
Definition versions (_ : string) : string * string := ("v1", "").

Notation served p s := (serve (server plain_hooks) p s).
Notation idf := (λ x : string, x).
Notation Login := (Login demo_deps idf same_text).
Notation RefreshToken := (RefreshToken demo_deps).
Notation ChangePassword := (ChangePassword idf same_text strong 2).
Notation ConfirmReset := (ConfirmReset demo_deps idf strong 2).
Notation ConfirmVerify := (ConfirmVerify demo_deps idf).
Notation ChangeEmailBeforeVerify := (ChangeEmailBeforeVerify demo_deps idf idf demo_mail).
Notation RequestDeletion := (RequestDeletion demo_deps same_text demo_mail).
Notation WithdrawPDN := (WithdrawPDN demo_deps same_text demo_mail).
Notation wipe := (wipeRefreshTokensForUser 2).
Notation reached sql := (reachable (call_step sql) env (starts demo_deps idf idf idf same_text strong versions demo_mail)).

Definition new_account : Store := store 0 [
  (KUser 7, RUser (demo_user 7 "a@example.com" None)); (KLink ResetLink "reset", RLink (demo_link 7 "a@example.com"));
  (KLink VerifyLink "verify", RLink (demo_link 7 "a@example.com"))].

Definition password_of (id : uuid) (s : Store) : option string := us_password_hash <$> user_at id (pg_rows (st_pg s)).

Definition reset : Store := (served (forget (ConfirmReset "reset" "new password" "" "")) new_account).2.

Lemma quiet_store now l : (∀ k r, (list_to_map l : rows) !! k = Some r → row_fits k r) → quiet_start (store now l).
Proof. intros Hl. split_and!; [done..| |done|done]. by intros k c. Qed.

Ltac rows_fit := let k := fresh in let r := fresh in intros k r Hkr; cbn in Hkr;
  repeat (apply lookup_insert_Some in Hkr as [[<- <-]|[_ Hkr]]; [done|]); done.

(** A password changed with the link that was mailed. *)
Lemma links_prove_ownership_witness :
  password_of 7 reset = Some "new password"
  ∧ proven_changes same_text (st_log reset).
Proof.
  split; [vm_compute; reflexivity|].
  pose proof (λ ps, links_prove_ownership demo_deps idf idf idf same_text strong versions demo_mail idf
    {| sy_store := reset; sy_procs := ps |}) as H. cbn [sy_store] in H. eapply H. unfold reset.
  apply serve_reachable; [apply account_server_step|apply start_confirm|]. exists new_account. split; [|apply rtc_refl].
  apply quiet_store. rows_fit.
Defined.

Definition leaving : Store := store (31 * Day) [(KUser 7, RUser (demo_user 7 "a@example.com" (Some 0%Z)))].
Definition swept_away : Store := (served (forget (HardDeleteSweeper demo_deps)) leaving).2.

Lemma erased_after_grace_witness :
  password_of 7 leaving = Some "old password" ∧ password_of 7 swept_away = None
  ∧ due_erasures demo_deps (st_log swept_away).
Proof.
  split; [vm_compute; reflexivity|]. split; [vm_compute; reflexivity|].
  pose proof (λ ps, erased_after_grace demo_deps idf idf idf same_text strong versions demo_mail idf
    {| sy_store := swept_away; sy_procs := ps |}) as H. cbn [sy_store] in H. eapply H. unfold swept_away.
  apply serve_reachable; [apply account_server_step|apply start_sweep|]. exists leaving. split; [|apply rtc_refl].
  apply quiet_store. rows_fit.
Defined.

(** *** A session *)

Definition token_of (r : result AccountError (User * string * string)) : string :=
  match r with Ok (_, _, token) => token | Err _ => "" end.

Definition login : prog (result AccountError (User * string * string)) := Login "a@example.com" "old password".
Definition logged_in : Store := (served (forget login) new_account).2.
Definition session : string := token_of (served login new_account).1.
Definition refreshed : Store := (served (forget (RefreshToken session)) logged_in).2.

Definition taken (l : list Entry) : list string := omap (λ e, match e with ETaken k _ => Some k | _ => None end) l.

Lemma logged_in_reachable : ∃ ps, reached idf (λ s0, quiet_start s0 ∧ st_redis s0 = ∅) {| sy_store := logged_in; sy_procs := ps |}.
Proof.
  eexists. unfold logged_in. apply serve_reachable; [apply account_server_step|apply start_login|].
  exists new_account. split; [|apply rtc_refl]. split; [|done]. apply quiet_store. rows_fit.
Defined.

(** The second use of the same token finds nothing. *)
Lemma refresh_once_witness :
  taken (st_log refreshed) = [refresh_key 1] ∧ is_ok (served (RefreshToken session) refreshed).1 = false
  ∧ log_all (session_ok ∅) (st_log refreshed).
Proof.
  split; [vm_compute; reflexivity|]. split; [vm_compute; reflexivity|].
  destruct logged_in_reachable as [ps Hps].
  pose proof (λ ps, refresh_once demo_deps idf idf idf idf same_text strong versions demo_mail ∅
    {| sy_store := refreshed; sy_procs := ps |}) as H. cbn [sy_store] in H. eapply proj1, H. unfold refreshed.
  apply serve_reachable; [apply account_server_step|apply start_refresh|]. exact Hps.
Defined.

Definition wiped : result AccountError unit * Store := served (wipe 7) logged_in.

Lemma wipe_ends_sessions_witness :
  wiped.1 = Ok tt ∧ is_Some (st_redis logged_in !! refresh_key 1) ∧ tokens_gone (st_redis logged_in) 7%N wiped.2.
Proof.
  split; [vm_compute; reflexivity|]. split; [eexists; vm_compute; reflexivity|].
  destruct logged_in_reachable as [ps Hps].
  pose proof (wipe_ends_sessions demo_deps idf idf idf idf same_text strong versions demo_mail ∅ 2 7%N
    {| sy_store := logged_in; sy_procs := ps |} wiped.1 wiped.2 Hps) as H. cbn [sy_store] in H.
  assert (wiped.1 = Ok tt) as E by (vm_compute; reflexivity). rewrite E in H. apply H.
  rewrite <- E. apply serve_runs, account_server_step.
Defined.

(** ** Where operations overlap *)

Definition with_begin (f : Store → Store) : Hooks := {| hk_begin := f; hk_hash := λ s, s; hk_set := λ s, s |}.
Definition with_hash (f : Store → Store) : Hooks := {| hk_begin := λ s, s; hk_hash := f; hk_set := λ s, s |}.
Definition with_set (f : Store → Store) : Hooks := {| hk_begin := λ s, s; hk_hash := λ s, s; hk_set := f |}.

Definition address_of (id : uuid) (s : Store) : option (string * bool) :=
  (λ u, (us_email u, us_email_verified u)) <$> user_at id (pg_rows (st_pg s)).

(** The address is checked to be unverified before the transaction that changes it: a
    verification in between leaves the new address verified, which nobody proved. *)
Example unproven_address_verified :
  let verify s := (served (ConfirmVerify "verify") s).2 in
  let r := serve (server (with_begin verify)) (ChangeEmailBeforeVerify 7 "victim@example.com") new_account in
  is_ok r.1 = true ∧ address_of 7 r.2 = Some ("victim@example.com", true).
Proof. vm_compute. by split. Qed.

(** [ChangePassword] writes the whole row as it was read: an address changed meanwhile
    goes back, and so does a password reset meanwhile. *)
Example password_change_reverts_address :
  let move s := (served (ChangeEmailBeforeVerify 7 "new@example.com") s).2 in
  let r := serve (server (with_hash move)) (ChangePassword 7 "old password" "next password") new_account in
  is_ok r.1 = true ∧ address_of 7 (move new_account) = Some ("new@example.com", false)
  ∧ address_of 7 r.2 = Some ("a@example.com", false).
Proof. vm_compute. by split_and!. Qed.

(** A refresh under way when the password is reset: its token is stored after the wipe,
    and the session goes on. *)
Example session_survives_reset :
  let reset s := (served (ConfirmReset "reset" "new password" "" "") s).2 in
  let r := serve (server (with_set reset)) (RefreshToken session) logged_in in
  password_of 7 r.2 = Some "new password" ∧ is_ok (served (RefreshToken (token_of r.1)) r.2).1 = true.
Proof. vm_compute. by split. Qed.

(** The owner of a template can never be erased. *)
Example template_author_stays :
  let s := store (31 * Day) [(KUser 7, RUser (demo_user 7 "a@example.com" (Some 0%Z))); (KTemplate 1, RTemplate 7)] in
  let r := served (HardDeleteSweeper demo_deps) s in
  r.1 = Ok 0 ∧ password_of 7 r.2 = Some "old password".
Proof. vm_compute. by split. Qed.

Definition two_owners : Store := store 0 [
  (KUser 7, RUser (demo_user 7 "a@example.com" None)); (KUser 8, RUser (demo_user 8 "b@example.com" None));
  (KBusiness 1, RBusiness "Bakery"); (KMember 1 7, RMember ownerRoleID); (KMember 1 8, RMember ownerRoleID)].

(** Both owners ask at once: each still counts the other, and no effective owner is left. *)
Example both_owners_leave :
  let leave id s := (served (RequestDeletion id "old password" "" "" "") s).2 in
  let r := serve (server (with_begin (leave 8%N))) (RequestDeletion 7 "old password" "" "" "") two_owners in
  r.1 = Ok tt ∧ effective_owners 1 (pg_rows (st_pg r.2)) = 0
  ∧ (served (RequestDeletion 7 "old password" "" "" "") (leave 8%N two_owners)).1 = Err (ErrSoleOwnerBusinesses [(1%N, "Bakery")]).
Proof. vm_compute. by split_and!. Qed.

(** A withdrawal of consent while a deletion waits is refused, the consent left standing. *)
Example withdrawal_refused_while_leaving :
  let s := store 0 [(KUser 7, RUser (demo_user 7 "a@example.com" (Some 0%Z)))] in
  (served (WithdrawPDN 7 "" "") s).1 = Err ErrDeletionAlreadyPending.
Proof. vm_compute. reflexivity. Qed.
