(* ===== verification/Isolation.v ===== *)
(** * Isolation levels and row locks

    Postgres again, as the clients of REPEATABLE READ and SERIALIZABLE transactions rely
    on it.  A transaction of these levels reads the rows as its first statement found
    them, under its own writes; a row it locks or writes must still be what it read, or
    the statement fails; and it holds its locks, of one of four strengths, to its end.
    Constraints are checked against the rows as they are.  Of two serializable
    transactions that overlap, one fails to commit if the writes of each would have
    changed an answer the other was given: a consequence of their serial order, the only
    one used here.  A statement that fails ends its transaction. *)

From S2P Require Import Prelude Types Prog Pg.

Inductive Level := ReadCommitted | RepeatableRead | Serializable.

#[export] Instance Level_eq_dec : EqDecision Level.
Proof. solve_decision. Defined.

(** FOR KEY SHARE, FOR SHARE, FOR NO KEY UPDATE, FOR UPDATE. *)
Inductive LockMode := KeyShare | Share | NoKeyUpdate | ForUpdate.

#[export] Instance LockMode_eq_dec : EqDecision LockMode.
Proof. solve_decision. Defined.

Definition strength (m : LockMode) : nat :=
  match m with KeyShare => 0 | Share => 1 | NoKeyUpdate => 2 | ForUpdate => 3 end.

(** The table of conflicting row-level locks. *)
Definition conflicts (a b : LockMode) : bool := 3 <=? strength a + strength b.

Definition stronger (a b : LockMode) : LockMode := if strength a <? strength b then b else a.

Lemma conflicts_sym a b : conflicts a b = conflicts b a.
Proof. unfold conflicts. by rewrite Nat.add_comm. Qed.

Lemma stronger_l a b : strength a ≤ strength (stronger a b).
Proof. unfold stronger. destruct (Nat.ltb_spec (strength a) (strength b)); lia. Qed.

Lemma stronger_r a b : strength b ≤ strength (stronger a b).
Proof. unfold stronger. destruct (Nat.ltb_spec (strength a) (strength b)); lia. Qed.

Lemma stronger_case a b : stronger a b = a ∨ stronger a b = b.
Proof. unfold stronger. destruct (_ <? _); auto. Qed.

Lemma compatible_weaker a a' b : strength a' ≤ strength a → conflicts a b = false → conflicts a' b = false.
Proof. unfold conflicts. rewrite !Nat.leb_gt. lia. Qed.

Notation lockset K := (gmap K LockMode).

(** A row deleted goes under FOR UPDATE, any other write under FOR NO KEY UPDATE; a
    statement that changes a key asks for more itself. *)
Definition write_mode {V} (v : option V) : LockMode := match v with None => ForUpdate | Some _ => NoKeyUpdate end.

Record Act (K V X : Type) `{Countable K} := {
  at_out : result DbError X;
  at_writes : writes K V;
  at_locks : lockset K;
}.
Arguments at_out {K V X _ _} _.
Arguments at_writes {K V X _ _} _.
Arguments at_locks {K V X _ _} _.
Arguments Build_Act {K V X _ _} _ _ _.

Inductive TxCall (Stmt : Type → Type) : Type → Type :=
| StartC (l : Level) : TxCall Stmt (result DbError N)
| RunC {X} (tx : option N) (q : Stmt X) : TxCall Stmt (result DbError X)
| FinishC (tx : N) : TxCall Stmt (result DbError unit)
| UndoC (tx : N) : TxCall Stmt unit.
Arguments StartC {Stmt} l.
Arguments RunC {Stmt X} tx q.
Arguments FinishC {Stmt} tx.
Arguments UndoC {Stmt} tx.

Section iso.
Context {K V : Type} `{Countable K} `{EqDecision V}.

Record Tx := {
  tn_level : Level;
  tn_now : Z;
  tn_view : option (gmap K V * nat);
  tn_writes : writes K V;
  tn_locks : lockset K;
  tn_asked : list (gmap K V → Prop);
}.

(** A serializable transaction that committed. *)
Record Done := { dn_view : gmap K V; dn_writes : writes K V; dn_asked : list (gmap K V → Prop) }.

(** [db_serial], newest first; a view says how many there were when it was taken. *)
Record Db := { db_rows : gmap K V; db_open : gmap N Tx; db_next : N; db_serial : list Done }.

Definition put_tx (t : N) (x : Tx) (p : Db) : Db :=
  {| db_rows := db_rows p; db_open := <[t := x]> (db_open p); db_next := db_next p; db_serial := db_serial p |}.

Definition drop_tx (t : N) (p : Db) : Db :=
  {| db_rows := db_rows p; db_open := delete t (db_open p); db_next := db_next p; db_serial := db_serial p |}.

Definition write_rows (w : writes K V) (p : Db) : Db :=
  {| db_rows := overlay w (db_rows p); db_open := db_open p; db_next := db_next p; db_serial := db_serial p |}.

Definition new_tx (l : Level) (now : Z) : Tx :=
  {| tn_level := l; tn_now := now; tn_view := None; tn_writes := ∅; tn_locks := ∅; tn_asked := [] |}.

Definition open_tx (l : Level) (now : Z) (p : Db) : Db :=
  {| db_rows := db_rows p; db_open := <[db_next p := new_tx l now]> (db_open p); db_next := (db_next p + 1)%N;
     db_serial := db_serial p |}.

(** A first statement that waits for a lock reads the rows as it found them. *)
Definition waiting (x : Tx) (p : Db) : Tx :=
  {| tn_level := tn_level x; tn_now := tn_now x; tn_view := Some (db_rows p, length (db_serial p)); tn_writes := tn_writes x;
     tn_locks := tn_locks x; tn_asked := tn_asked x |}.

Definition finish_tx (t : N) (x : Tx) (p : Db) : Db :=
  {| db_rows := overlay (tn_writes x) (db_rows p); db_open := delete t (db_open p); db_next := db_next p;
     db_serial := match tn_level x, tn_view x with
                  | Serializable, Some (v, _) => {| dn_view := v; dn_writes := tn_writes x; dn_asked := tn_asked x |} :: db_serial p
                  | _, _ => db_serial p
                  end |}.

(** The rows a statement of [x] reads, before its own writes. *)
Definition sight (x : Tx) (d : gmap K V) : gmap K V :=
  match tn_level x, tn_view x with
  | ReadCommitted, _ | _, None => d
  | _, Some (v, _) => v
  end.

(** Nothing is written by a statement that fails. *)
Definition done_writes {X} (e : Act K V X) : writes K V := match at_out e with Ok _ => at_writes e | Err _ => ∅ end.

Definition merge_locks (a b : lockset K) : lockset K := union_with (λ m m', Some (stronger m m')) a b.

Definition taken {X} (e : Act K V X) : lockset K := merge_locks (at_locks e) (write_mode <$> done_writes e).

(** May transaction [t] lock [k] beside transaction [t']? *)
Definition compatible (t : option N) (k : K) (m : LockMode) (t' : N) (x' : Tx) : bool :=
  bool_decide (Some t' = t) || match tn_locks x' !! k with Some m' => negb (conflicts m m') | None => true end.

Definition unblocked (t : option N) (l : lockset K) (p : Db) : Prop :=
  map_Forall (λ k m, map_Forall (λ t' x', compatible t k m t' x' = true) (db_open p)) l.

(** What a transaction of the higher levels locks is as it read it. *)
Definition unchanged (x : Tx) (l : lockset K) (d : gmap K V) : Prop :=
  tn_level x = ReadCommitted ∨ map_Forall (λ k m, (strength m =? 0) || bool_decide (d !! k = sight x d !! k) = true) l.

#[export] Instance unblocked_dec t l p : Decision (unblocked t l p).
Proof. unfold unblocked. apply _. Defined.

#[export] Instance unchanged_dec x l d : Decision (unchanged x l d).
Proof. unfold unchanged. apply _. Defined.

(** The commits of serializable transactions that [x] did not see. *)
Definition unseen (x : Tx) (p : Db) : list Done :=
  match tn_view x with Some (_, n) => take (length (db_serial p) - n) (db_serial p) | None => [] end.

(** Writes that change an answer given on the rows [v]. *)
Definition upset (asked : list (gmap K V → Prop)) (v : gmap K V) (w : writes K V) : Prop :=
  Exists (λ P, P v ∧ ¬ P (overlay w v)) asked.

Definition serializes (x : Tx) (p : Db) : Prop :=
  tn_level x = Serializable → Forall (λ s,
    ¬ (upset (tn_asked x) (sight x (db_rows p)) (dn_writes s) ∧ upset (dn_asked s) (dn_view s) (tn_writes x))) (unseen x p).

Context {Stmt : Type → Type} (run : ∀ X, Stmt X → Moment → gmap K V → gmap K V → Act K V X).
Arguments run {X}.

(** A statement of [x]: constraints against the rows as they are, queries on its view. *)
Definition attempt {X} (q : Stmt X) (id : uuid) (x : Tx) (d : gmap K V) : Act K V X :=
  run q {| mo_now := tn_now x; mo_id := id |} (overlay (tn_writes x) d) (overlay (tn_writes x) (sight x d)).

Definition performed_by {X} (q : Stmt X) (id : uuid) (x : Tx) (p : Db) : Tx :=
  let e := attempt q id x (db_rows p) in
  {| tn_level := tn_level x; tn_now := tn_now x;
     tn_view := match tn_view x with Some v => Some v | None => Some (db_rows p, length (db_serial p)) end;
     tn_writes := done_writes e ∪ tn_writes x; tn_locks := merge_locks (taken e) (tn_locks x);
     tn_asked := (λ d, at_out (run q {| mo_now := tn_now x; mo_id := id |} (overlay (tn_writes x) d) (overlay (tn_writes x) d)) = at_out e)
                 :: tn_asked x |}.

(** One call at server time [now]. *)
Definition iso_step (now : Z) {B} (c : TxCall Stmt B) : Db → B → Db → Prop :=
  match c in TxCall _ B return Db → B → Db → Prop with
  | StartC l => λ p r p', (r = Ok (db_next p) ∧ p' = open_tx l now p) ∨ (r = Err DbFailed ∧ p' = p)
  | RunC None q => λ p r p',
      (∃ id, let e := run q {| mo_now := now; mo_id := id |} (db_rows p) (db_rows p) in
         unblocked None (taken e) p ∧ p' = write_rows (done_writes e) p ∧ (r = at_out e ∨ r = Err DbFailed))
      ∨ (r = Err DbFailed ∧ p' = p)
  | RunC (Some t) q => λ p r p',
      (∃ x id, db_open p !! t = Some x ∧
         let e := attempt q id x (db_rows p) in
         unblocked (Some t) (taken e) p ∧ unchanged x (taken e) (db_rows p) ∧ r = at_out e
         ∧ p' = if is_ok r then put_tx t (performed_by q id x p) p else drop_tx t p)
      ∨ (r = Err DbFailed ∧ (p' = p ∨ p' = drop_tx t p))
  | FinishC t => λ p r p',
      (∃ x, db_open p !! t = Some x ∧ serializes x p ∧ p' = finish_tx t x p)
      ∨ (r = Err DbFailed ∧ (p' = p ∨ p' = drop_tx t p))
  | UndoC t => λ p _ p', p' = drop_tx t p
  end.

(** ** Locks *)

(** [x] holds [k] at strength [n] at least. *)
Definition locks_key (x : Tx) (k : K) (n : nat) : Prop := ∃ m, tn_locks x !! k = Some m ∧ n ≤ strength m.

Lemma merge_locks_case (a b : lockset K) k m : merge_locks a b !! k = Some m → a !! k = Some m ∨ b !! k = Some m.
Proof.
  unfold merge_locks. rewrite lookup_union_with. destruct (a !! k) as [m1|], (b !! k) as [m2|]; cbn; try tauto.
  intros [= <-]. destruct (stronger_case m1 m2) as [-> | ->]; tauto.
Qed.

Lemma merge_locks_l (a b : lockset K) k m : a !! k = Some m → ∃ m', merge_locks a b !! k = Some m' ∧ strength m ≤ strength m'.
Proof.
  unfold merge_locks. rewrite lookup_union_with. intros ->. destruct (b !! k) as [m2|]; cbn; [|eauto].
  eexists. split; [done|apply stronger_l].
Qed.

Lemma merge_locks_r (a b : lockset K) k m : b !! k = Some m → ∃ m', merge_locks a b !! k = Some m' ∧ strength m ≤ strength m'.
Proof.
  unfold merge_locks. rewrite lookup_union_with. intros ->. destruct (a !! k) as [m1|]; cbn; [|eauto].
  eexists. split; [done|apply stronger_r].
Qed.

Lemma taken_writes {X} (e : Act K V X) k v : done_writes e !! k = Some v →
  ∃ m, taken e !! k = Some m ∧ strength (write_mode v) ≤ strength m.
Proof. intros Hk. apply merge_locks_r. by rewrite lookup_fmap, Hk. Qed.

Lemma write_mode_exclusive (v : option V) : 2 ≤ strength (write_mode v).
Proof. destruct v; cbn; lia. Qed.

Lemma unblocked_apart t l p k m t' x' m' :
  unblocked t l p → l !! k = Some m → Some t' ≠ t → db_open p !! t' = Some x' → tn_locks x' !! k = Some m' → conflicts m m' = false.
Proof.
  intros Hu Hk Hn Hx Hm. specialize (Hu k m Hk t' x' Hx). unfold compatible in Hu.
  rewrite bool_decide_false, Hm in Hu by done. by apply negb_true_iff in Hu.
Qed.

(** *** What never changes *)

Record tx_ok (p : Db) (t : N) (x : Tx) : Prop := {
  tx_old : (t < db_next p)%N;
  tx_blank : tn_view x = None → tn_writes x = ∅ ∧ tn_locks x = ∅ ∧ tn_asked x = [];
  tx_owns : ∀ k v, tn_writes x !! k = Some v → locks_key x k (strength (write_mode v));
  tx_same : tn_level x ≠ ReadCommitted → ∀ k, locks_key x k 1 → db_rows p !! k = sight x (db_rows p) !! k;
  tx_since : ∀ v n, tn_view x = Some (v, n) → n ≤ length (db_serial p);
}.

Definition db_ok (p : Db) : Prop :=
  (∀ t x, db_open p !! t = Some x → tx_ok p t x)
  ∧ ∀ t t' x x' k m m', t ≠ t' → db_open p !! t = Some x → db_open p !! t' = Some x' →
      tn_locks x !! k = Some m → tn_locks x' !! k = Some m' → conflicts m m' = false.

(** Rows as they are where [x] holds a share lock. *)
Definition same_locked (x : Tx) (d d' : gmap K V) : Prop := ∀ k, locks_key x k 1 → d !! k = d' !! k.

Lemma sight_view x v n d : tn_level x ≠ ReadCommitted → tn_view x = Some (v, n) → sight x d = v.
Proof. unfold sight. intros Hl ->. by destruct (tn_level x). Qed.

Lemma sight_fresh x d : tn_level x = ReadCommitted ∨ tn_view x = None → sight x d = d.
Proof. unfold sight. intros [-> | ->]; [done|by destruct (tn_level x)]. Qed.

Lemma tx_ok_mono p p' t x : (db_next p ≤ db_next p')%N → length (db_serial p) ≤ length (db_serial p') →
  same_locked x (db_rows p) (db_rows p') → tx_ok p t x → tx_ok p' t x.
Proof.
  intros Hn Hs Hd [H1 H2 H3 H4 H5]. split; [lia|done|done| |intros v n Hv; specialize (H5 v n Hv); lia].
  intros Hl k Hk. rewrite <- Hd by done. specialize (H4 Hl k Hk). destruct (tn_view x) as [[v n]|] eqn:Ev.
  - by rewrite !(sight_view x v n) in * by done.
  - destruct Hk as (m & Hm & _). destruct (H2 eq_refl) as (_ & E & _). by rewrite E, lookup_empty in Hm.
Qed.

(** Writes under locks nobody's lock conflicts with leave the locked rows of all. *)
Lemma writes_frame t w p t' x' : db_ok p → unblocked t (write_mode <$> w) p → Some t' ≠ t → db_open p !! t' = Some x' →
  same_locked x' (db_rows p) (overlay w (db_rows p)).
Proof.
  intros Hok Hu Hn Hx k (m & Hm & Hs). rewrite overlay_lookup. destruct (w !! k) as [v|] eqn:Ew; [|done].
  pose proof (unblocked_apart t _ p k (write_mode v) t' x' m Hu) as Hc. rewrite lookup_fmap, Ew in Hc.
  specialize (Hc eq_refl Hn Hx Hm). unfold conflicts in Hc. apply Nat.leb_gt in Hc. pose proof (write_mode_exclusive v). lia.
Qed.

Lemma unblocked_writes {X} t (e : Act K V X) p : unblocked t (taken e) p → unblocked t (write_mode <$> done_writes e) p.
Proof.
  intros Hu k m Hk t' x' Hx. apply lookup_fmap_Some in Hk as (v & <- & Hv). unfold compatible.
  case_bool_decide as Hn; [done|]. destruct (tn_locks x' !! k) as [m'|] eqn:Em; [|done]. apply negb_true_iff.
  destruct (taken_writes e k v Hv) as (m & Hm & Hle). eapply compatible_weaker; [exact Hle|]. by eapply unblocked_apart.
Qed.

Lemma finish_frame t x p t' x' : db_ok p → db_open p !! t = Some x → t' ≠ t → db_open p !! t' = Some x' →
  same_locked x' (db_rows p) (overlay (tn_writes x) (db_rows p)).
Proof.
  intros [Ho Ha] Hx Hn Hx' k (m & Hm & Hs). rewrite overlay_lookup. destruct (tn_writes x !! k) as [v|] eqn:Ew; [|done].
  destruct (tx_owns _ _ _ (Ho t x Hx) k v Ew) as (m0 & Hm0 & Hle). specialize (Ha t t' x x' k m0 m (not_eq_sym Hn) Hx Hx' Hm0 Hm).
  unfold conflicts in Ha. apply Nat.leb_gt in Ha. pose proof (write_mode_exclusive v). lia.
Qed.

Lemma finish_serial t x p : db_serial (finish_tx t x p) = db_serial p
  ∨ tn_level x = Serializable ∧ ∃ v n, tn_view x = Some (v, n)
    ∧ db_serial (finish_tx t x p) = {| dn_view := v; dn_writes := tn_writes x; dn_asked := tn_asked x |} :: db_serial p.
Proof. cbn. destruct (tn_level x); [by left..|]. destruct (tn_view x) as [[v n]|]; [right|by left]. eauto. Qed.

Lemma drop_ok t p : db_ok p → db_ok (drop_tx t p).
Proof.
  intros [Ho Ha]. split; cbn.
  - intros t' x [_ Hx]%lookup_delete_Some. destruct (Ho t' x Hx). by split.
  - intros t' t'' x x' k m m' Hn [_ Hx]%lookup_delete_Some [_ Hx']%lookup_delete_Some. by eapply Ha.
Qed.

Lemma finish_tx_ok t x p : db_ok p → db_open p !! t = Some x → db_ok (finish_tx t x p).
Proof.
  intros Hok Hx. pose proof Hok as [Ho Ha]. split; cbn.
  - intros t' x' [Hn Hx']%lookup_delete_Some. eapply tx_ok_mono; [| | |by apply Ho]; cbn; [done| |].
    + change (length (db_serial p) ≤ length (db_serial (finish_tx t x p))).
      destruct (finish_serial t x p) as [-> |(_ & v & n & _ & ->)]; cbn; lia.
    + by eapply finish_frame.
  - intros t' t'' x1 x2 k m m' Hn [_ H1]%lookup_delete_Some [_ H2]%lookup_delete_Some. by eapply Ha.
Qed.

Lemma write_rows_ok w p : db_ok p → unblocked None (write_mode <$> w) p → db_ok (write_rows w p).
Proof.
  intros Hok Hu. pose proof Hok as [Ho Ha]. split; cbn; [|done]. intros t x Hx.
  eapply tx_ok_mono; [| | |by apply Ho]; cbn; [done..|]. by eapply writes_frame.
Qed.

Lemma waiting_ok t x p : db_ok p → db_open p !! t = Some x → tn_view x = None → db_ok (put_tx t (waiting x p) p).
Proof.
  intros [Ho Ha] Hx Hv. destruct (Ho t x Hx) as [H1 H2 H3 H4 H5]. split; cbn.
  - intros t' y [[<- <-]|[_ Hy]]%lookup_insert_Some; [|destruct (Ho t' y Hy); by split]. split; cbn; try done.
    + intros _ k (m & Hm & _). cbn in Hm. destruct (H2 Hv) as (_ & E & _). by rewrite E, lookup_empty in Hm.
    + by intros v n [= _ <-].
  - intros t1 t2 x1 x2 k m m' Hn [[<- <-]|[Hn1 Hx1]]%lookup_insert_Some [[<- <-]|[Hn2 Hx2]]%lookup_insert_Some Hm Hm';
      [done|by eapply (Ha t t2)|by eapply (Ha t1 t)|by eapply (Ha t1 t2)].
Qed.

Lemma open_ok l now p : db_ok p → db_ok (open_tx l now p).
Proof.
  intros [Ho Ha]. split; cbn.
  - intros t x [[<- <-]|[_ Hx]]%lookup_insert_Some.
    + split; cbn; [lia|done|intros k v; by rewrite lookup_empty| |done]. intros _ k (m & Hm & _). cbn in Hm. by rewrite lookup_empty in Hm.
    + eapply tx_ok_mono; [| | |by apply Ho]; cbn; [lia|done|done].
  - intros t t' x x' k m m' Hn [[<- <-]|[_ Hx]]%lookup_insert_Some [[<- <-]|[_ Hx']]%lookup_insert_Some; cbn;
      rewrite ?lookup_empty; try done. by eapply Ha.
Qed.

Lemma performed_sight {X} (q : Stmt X) id x p : sight (performed_by q id x p) (db_rows p) = sight x (db_rows p).
Proof. unfold sight. cbn. destruct (tn_level x), (tn_view x) as [[v n]|]; done. Qed.

Lemma performed_keeps {X} (q : Stmt X) id x p k n : locks_key x k n → locks_key (performed_by q id x p) k n.
Proof.
  intros (m & Hm & Hle). destruct (merge_locks_r (taken (attempt q id x (db_rows p))) (tn_locks x) k m Hm) as (m' & Hm' & ?).
  exists m'. split; [done|lia].
Qed.

Lemma performed_takes {X} (q : Stmt X) id x p k m n :
  taken (attempt q id x (db_rows p)) !! k = Some m → n ≤ strength m → locks_key (performed_by q id x p) k n.
Proof.
  intros Hk Hn. destruct (merge_locks_l _ (tn_locks x) k m Hk) as (m' & Hm' & ?). exists m'. split; [done|lia].
Qed.

Lemma performed_asks {X} (q : Stmt X) id x p k m n :
  at_locks (attempt q id x (db_rows p)) !! k = Some m → n ≤ strength m → locks_key (performed_by q id x p) k n.
Proof.
  intros Hk Hn. destruct (merge_locks_l _ (write_mode <$> done_writes (attempt q id x (db_rows p))) k m Hk) as (m' & Hm' & ?).
  eapply performed_takes; [exact Hm'|lia].
Qed.

Lemma performed_ok {X} (q : Stmt X) id t x p (e := attempt q id x (db_rows p)) :
  db_ok p → db_open p !! t = Some x → unblocked (Some t) (taken e) p → unchanged x (taken e) (db_rows p) →
  db_ok (put_tx t (performed_by q id x p) p).
Proof.
  intros Hok Hx Hu Hc. pose proof Hok as [Ho Ha]. destruct (Ho t x Hx) as [H1 H2 H3 H4 H5].
  assert (∀ t' x' k m m', t' ≠ t → db_open p !! t' = Some x' → tn_locks (performed_by q id x p) !! k = Some m →
    tn_locks x' !! k = Some m' → conflicts m m' = false) as Hap.
  { intros t' x' k m m' Hn Hx' [Hk|Hk]%merge_locks_case Hk'; [|by eapply (Ha t t')].
    eapply unblocked_apart; [exact Hu|done|by intros [= ?]|done|done]. }
  split; cbn [put_tx db_open db_rows db_next db_serial].
  - intros t' y [[<- <-]|[_ Hy]]%lookup_insert_Some; [|destruct (Ho t' y Hy); by split]. split; cbn.
    + done.
    + by destruct (tn_view x).
    + intros k v [Hk|[_ Hk]]%lookup_union_Some_raw.
      * destruct (taken_writes e k v Hk) as (m & Hm & Hle).
        destruct (merge_locks_l _ (tn_locks x) k m Hm) as (m' & Hm' & Hle'). exists m'. split; [done|lia].
      * destruct (H3 k v Hk) as (m & Hm & Hle). destruct (merge_locks_r (taken e) _ k m Hm) as (m' & Hm' & Hle').
        exists m'. split; [done|lia].
    + intros Hl k (m & [Hk|Hk]%merge_locks_case & Hs); rewrite performed_sight.
      * destruct Hc as [?|Hc]; [done|]. specialize (Hc k m Hk). apply orb_prop in Hc as [Hc|Hc].
        { apply Nat.eqb_eq in Hc. lia. } by apply bool_decide_eq_true in Hc.
      * apply H4; [done|]. by exists m.
    + intros v n Hv. destruct (tn_view x) as [[v' n']|] eqn:Ev; [injection Hv as -> ->; by eapply H5|].
      by injection Hv as _ <-.
  - intros t1 t2 x1 x2 k m m' Hn [[<- <-]|[Hn1 Hx1]]%lookup_insert_Some [[<- <-]|[Hn2 Hx2]]%lookup_insert_Some Hm Hm'.
    + done.
    + by eapply Hap.
    + rewrite conflicts_sym. by eapply Hap.
    + by eapply (Ha t1 t2).
Qed.

Lemma iso_step_ok now {B} (c : TxCall Stmt B) p r p' : db_ok p → iso_step now c p r p' → db_ok p'.
Proof.
  intros Hok. destruct c as [l|X [t|] q|t|t]; cbn.
  - intros [[_ ->]|[_ ->]]; [by apply open_ok|done].
  - intros [(x & id & Hx & Hu & Hc & -> & ->)|[_ [->| ->]]]; [|done|by apply drop_ok].
    destruct (is_ok _); [by apply performed_ok|by apply drop_ok].
  - intros [(id & Hu & -> & _)|[_ ->]]; [|done]. by apply write_rows_ok, unblocked_writes.
  - intros [(x & Hx & _ & ->)|[_ [->| ->]]]; [by apply finish_tx_ok|done|by apply drop_ok].
  - intros ->. by apply drop_ok.
Qed.

(** *** Calls of one transaction and of the others *)

(** The transaction a call belongs to. *)
Definition tx_call {B} (c : TxCall Stmt B) : option N :=
  match c with
  | StartC _ => None
  | RunC tx _ => tx
  | FinishC t | UndoC t => Some t
  end.

(** The outcomes of a call, by its kind. *)
Ltac iso_cases c Hs :=
  destruct c as [?l|? [?t|] ?q|?t|?t]; cbn in Hs;
  [destruct Hs as [[-> ->]|[-> ->]]
  |destruct Hs as [(?y & ?id & ?Hy & ?Hu & ?Hc & ?Hr & ->)|[-> [->| ->]]]
  |destruct Hs as [(?id & ?Hu & -> & ?Hr)|[-> ->]]
  |destruct Hs as [(?y & ?Hy & ?Hz & ->)|[-> [->| ->]]]
  |subst].

Lemma iso_frame now {B} (c : TxCall Stmt B) p r p' t x :
  db_ok p → iso_step now c p r p' → tx_call c ≠ Some t → db_open p !! t = Some x →
  db_open p' !! t = Some x ∧ same_locked x (db_rows p) (db_rows p').
Proof.
  intros Hok Hs Hn Hx. assert (∀ d, same_locked x d d) as Hid by done.
  iso_cases c Hs; cbn [tx_call] in Hn; cbn [open_tx put_tx drop_tx write_rows finish_tx db_open db_rows]; try done;
    try (split; [|done]; first [rewrite lookup_insert_ne|rewrite lookup_delete_ne]; congruence || done).
  - split; [|done]. rewrite lookup_insert_ne; [done|]. destruct (proj1 Hok t x Hx). lia.
  - destruct (is_ok r); cbn; (split; [|done]); [rewrite lookup_insert_ne|rewrite lookup_delete_ne]; congruence || done.
  - split; [done|]. eapply writes_frame; [done|by apply unblocked_writes|done|done].
  - split; [rewrite lookup_delete_ne; congruence || done|]. apply (finish_frame t0 y p t x); [done|done|intros E; by rewrite E in Hn|done].
Qed.

(** What a call of its own makes of a transaction. *)
Definition own_tx {B} (c : TxCall Stmt B) (t : N) (p : Db) (x x' : Tx) : B → Prop :=
  match c in TxCall _ B return B → Prop with
  | RunC _ q => λ r, ∃ id, let e := attempt q id x (db_rows p) in
      unblocked (Some t) (taken e) p ∧ unchanged x (taken e) (db_rows p) ∧ r = at_out e ∧ is_ok r = true
      ∧ x' = performed_by q id x p
  | _ => λ _, False
  end.

Lemma iso_own now {B} (c : TxCall Stmt B) p r p' t x' :
  iso_step now c p r p' → tx_call c = Some t → db_open p' !! t = Some x' →
  db_rows p' = db_rows p ∧ db_serial p' = db_serial p ∧ ∃ x, db_open p !! t = Some x ∧ (x' = x ∨ own_tx c t p x x' r).
Proof.
  intros Hs Hc. iso_cases c Hs; cbn in Hc |- *; try done; injection Hc as ->; rewrite ?lookup_delete_eq; try done;
    try (intros Hx; split_and!; [done..|]; eexists; split; [exact Hx|by left]).
  destruct (is_ok r) eqn:Er; cbn; rewrite ?lookup_delete_eq; try done. rewrite lookup_insert_eq. intros [= <-].
  split_and!; [done..|]. eexists. split; [done|]. right. exists id. by split_and!.
Qed.

Lemma iso_back now {B} (c : TxCall Stmt B) p r p' t x :
  iso_step now c p r p' → tx_call c ≠ Some t → (t < db_next p)%N → db_open p' !! t = Some x → db_open p !! t = Some x.
Proof.
  intros Hs Hn Ht. iso_cases c Hs; cbn in Hn |- *; try done; try destruct (is_ok r); cbn;
    intros Hx; (apply lookup_insert_Some in Hx || apply lookup_delete_Some in Hx); naive_solver lia.
Qed.

Lemma iso_new now {B} (c : TxCall Stmt B) p r p' t x :
  iso_step now c p r p' → db_open p !! t = None → db_open p' !! t = Some x →
  (∃ l, x = new_tx l now) ∧ db_rows p' = db_rows p ∧ db_serial p' = db_serial p.
Proof.
  intros Hs Hn Hx. iso_cases c Hs; cbn in Hx |- *; try congruence; try (destruct (is_ok r); cbn in Hx);
    first [apply lookup_insert_Some in Hx as [[<- <-]|[_ Hx]]|apply lookup_delete_Some in Hx as [_ Hx]]; eauto; congruence.
Qed.

(** What a call makes visible to all. *)
Definition publishes (now : Z) {B} (c : TxCall Stmt B) (p : Db) (rows : gmap K V) : Prop :=
  match c with
  | FinishC t => ∃ x, db_open p !! t = Some x ∧ serializes x p ∧ rows = overlay (tn_writes x) (db_rows p)
  | RunC None q => ∃ id, let e := run q {| mo_now := now; mo_id := id |} (db_rows p) (db_rows p) in
      unblocked None (taken e) p ∧ rows = overlay (done_writes e) (db_rows p)
  | _ => False
  end.

Lemma iso_step_rows now {B} (c : TxCall Stmt B) p r p' :
  iso_step now c p r p' → db_rows p' = db_rows p ∨ publishes now c p (db_rows p').
Proof. intros Hs. iso_cases c Hs; cbn; eauto. destruct (is_ok r); auto. Qed.

(** ** What all open transactions have in common

    [J t x d] looks at the rows [d] only where [x] holds a share lock. *)
Section kept.
Variable J : N → Tx → gmap K V → Prop.

Hypothesis J_local : ∀ t x d d', same_locked x d d' → J t x d → J t x d'.
Hypothesis J_new : ∀ t l now d, J t (new_tx l now) d.

Definition all_keep (p : Db) : Prop := ∀ t x, db_open p !! t = Some x → J t x (db_rows p).

Definition run_keeps {B} (c : TxCall Stmt B) (p : Db) : Prop :=
  match c with
  | RunC (Some t) q => ∀ x id, db_open p !! t = Some x → tx_ok p t x → J t x (db_rows p) →
      let e := attempt q id x (db_rows p) in
      unchanged x (taken e) (db_rows p) → is_ok (at_out e) = true → J t (performed_by q id x p) (db_rows p)
  | _ => True
  end.

Lemma iso_kept now {B} (c : TxCall Stmt B) p r p' :
  db_ok p → all_keep p → run_keeps c p → iso_step now c p r p' → all_keep p'.
Proof.
  intros Hok Hj Hk Hs t x' Hx. destruct (decide (tx_call c = Some t)) as [Hc|Hc].
  - destruct (iso_own _ _ _ _ _ _ _ Hs Hc Hx) as (-> & _ & x & Hx0 & [->|Ho]); [by apply Hj|]. clear Hs Hx.
    destruct c as [l|X tx q|t'|t']; cbn in Hc, Ho; try done. subst tx. destruct Ho as (id & Hu & Hc & -> & Hr & ->).
    apply Hk; try done; [by apply Hok|by apply Hj].
  - destruct (db_open p !! t) as [x|] eqn:Hx0.
    + destruct (iso_frame _ _ _ _ _ _ _ Hok Hs Hc Hx0) as [Hx1 Hd]. rewrite Hx in Hx1. injection Hx1 as ->.
      eapply J_local; [exact Hd|by apply Hj].
    + destruct (iso_new _ _ _ _ _ _ _ Hs Hx0 Hx) as ((l & ->) & _). apply J_new.
Qed.

(** Others may write what no lock forbids. *)
Lemma write_rows_kept w p : db_ok p → all_keep p → unblocked None (write_mode <$> w) p → all_keep (write_rows w p).
Proof.
  intros Hok Hj Hu t x Hx. eapply J_local; [|by apply Hj]. by eapply writes_frame.
Qed.

Lemma drop_kept t p : all_keep p → all_keep (drop_tx t p).
Proof. intros Hj t' x Hx. cbn in Hx. apply lookup_delete_Some in Hx as [_ Hx]. by apply Hj. Qed.
End kept.
End iso.
