(* ===== verification/TeamStore.v ===== *)
(** * The tables of teams

    The rows and statements behind organizations, members, roles and invitations:
    [services/api/internal/repository/business.go], [business_member.go], [role.go],
    [invitation.go], and the lock query of [pkg/authz/invariants.go], over the schema of
    [migrations/postgres].  All tables live in one map; [run] is what each statement does,
    its constraints checked against the rows as they are and its reads made on the rows
    it sees. *)

From S2P Require Import Prelude Json GoTime Types Users Prog Pg Isolation Authz.

(** A time that may be zero; no row holds the zero time. *)
Definition instant (t : option Z) : Z := default 0%Z t.

(** [domain.Business]. *)
Record Business := {
  bz_first_action : bool;
  bz_id : uuid;
  bz_name : string;
  bz_category : string;
  bz_address : string;
  bz_phone : string;
  bz_website : option string;
  bz_description : string;
  bz_logo_url : string;
  bz_settings : list (string * gval);
  bz_deleted_at : option Z;
  bz_deletion_requested_at : option Z;
  bz_deletion_canceled_at : option Z;
  bz_created_at : Z;
  bz_updated_at : Z;
}.

(** [domain.Role]. *)
Record Role := {
  ro_id : uuid;
  ro_business : option uuid;
  ro_name : string;
  ro_description : string;
  ro_permissions : list Permission;
  ro_is_system : bool;
  ro_created_by : option uuid;
  ro_updated_by : option uuid;
  ro_created_at : option Z;
  ro_updated_at : option Z;
}.

(** [domain.BusinessMember]. *)
Record Member := {
  mb_business : uuid;
  mb_user : uuid;
  mb_role : uuid;
  mb_status : string;
  mb_invited_by : option uuid;
  mb_invited_at : option Z;
  mb_joined_at : option Z;
  mb_role_changed_at : option Z;
  mb_role_changed_by : option uuid;
}.

(** [domain.Invitation]; a role detached from a terminal invitation is NULL in the table,
    the zero UUID in the struct. *)
Record Invitation := {
  in_id : uuid;
  in_business : uuid;
  in_role : option uuid;
  in_token_hash : string;
  in_expires_at : Z;
  in_accepted_at : option Z;
  in_accepted_by : option uuid;
  in_revoked_at : option Z;
  in_created_by : uuid;
  in_created_at : option Z;
}.

(** Keys of rows; [KRoleName] and [KTokenHash] are entries of unique indexes, which hold
    no row but are locked by whoever writes them. *)
Inductive Key :=
| KUser (id : uuid)
| KBusiness (id : uuid)
| KRole (id : uuid)
| KMember (business user : uuid)
| KInvitation (id : uuid)
| KRoleName (business : uuid) (name : string)
| KTokenHash (hash : string).

#[export] Instance Key_eq_dec : EqDecision Key.
Proof. solve_decision. Defined.

Definition key_code (k : Key) : nat * (N * N) * string :=
  match k with
  | KUser id => (0, (id, 0%N), "")
  | KBusiness id => (1, (id, 0%N), "")
  | KRole id => (2, (id, 0%N), "")
  | KMember b u => (3, (b, u), "")
  | KInvitation id => (4, (id, 0%N), "")
  | KRoleName b n => (5, (b, 0%N), n)
  | KTokenHash h => (6, (0%N, 0%N), h)
  end.

Definition key_decode (c : nat * (N * N) * string) : option Key :=
  match c with
  | (0, (id, _), _) => Some (KUser id)
  | (1, (id, _), _) => Some (KBusiness id)
  | (2, (id, _), _) => Some (KRole id)
  | (3, (b, u), _) => Some (KMember b u)
  | (4, (id, _), _) => Some (KInvitation id)
  | (5, (b, _), n) => Some (KRoleName b n)
  | (6, _, h) => Some (KTokenHash h)
  | _ => None
  end.

#[export] Instance Key_countable : Countable Key.
Proof. apply (inj_countable key_code key_decode). by intros []. Defined.

Inductive Row :=
| RUser (u : User)
| RBusiness (b : Business)
| RRole (r : Role)
| RMember (m : Member)
| RInvitation (i : Invitation).

#[export] Instance Row_eq_dec : EqDecision Row.
Proof.
  assert (EqDecision User) by solve_decision. assert (EqDecision Business) by solve_decision.
  assert (EqDecision Role) by solve_decision. assert (EqDecision Member) by solve_decision.
  assert (EqDecision Invitation) by solve_decision. solve_decision.
Defined.

Notation rows := (gmap Key Row).
Notation edits := (writes Key Row).

Inductive Stmt : Type → Type :=
| InsertBusiness (b : Business) : Stmt unit
| SelectBusiness (deleted_too : bool) (id : uuid) : Stmt (option Business)
| UpdateBusiness (b : Business) : Stmt nat
| SetLogo (id : uuid) (url : string) : Stmt nat
| SelectUser (id : uuid) : Stmt (option User)
| InsertRole (r : Role) : Stmt unit
| SelectRole (id : uuid) : Stmt (option Role)
| SelectRoles (business : option uuid) : Stmt (list Role)
| SelectRolesWithCounts (business : uuid) : Stmt (list (Role * nat))
| SelectRoleOfMember (business user : uuid) : Stmt (option Role)
| UpdateRole (r : Role) (at_ : Z) : Stmt nat
| DeleteRole (id : uuid) : Stmt nat
| ReassignMembers (business old new : uuid) (at_ : Z) (actor : option uuid) : Stmt (list uuid)
| CountHolders (business role : uuid) : Stmt nat
| CountInvited (role : uuid) : Stmt nat
| DetachInvitations (role : uuid) : Stmt unit
| InsertMember (m : Member) : Stmt unit
| SelectMember (business user : uuid) : Stmt (option Member)
| SetMemberRole (business user role : uuid) (at_ : Z) (actor : uuid) : Stmt nat
| DeleteMember (business user : uuid) : Stmt nat
| SelectMembersOf (business : uuid) : Stmt (list Member)
| SelectMembershipsOf (user : uuid) : Stmt (list Member)
| SelectHolders (business role : uuid) : Stmt (list uuid)
| CountOwners (business : uuid) : Stmt nat
| LockMembers (business : uuid) : Stmt (list snapshot_row)
| InsertInvitation (i : Invitation) : Stmt unit
| SelectInvitation (hash : string) : Stmt (option Invitation)
| SelectPending (business : uuid) (now : Z) : Stmt (list Invitation)
| CountPending (business : uuid) (now : Z) : Stmt nat
| RevokeInvitation (id business : uuid) (now : Z) : Stmt nat
| RevokeByCreator (business creator : uuid) (now : Z) : Stmt nat
| MarkAccepted (id user : uuid) (now : Z) : Stmt nat
| SelectState (id : uuid) (business : option uuid) : Stmt (option (option Z * option Z * Z)).

(** ** What the statements do *)

Definition ownerRoleID : uuid := 1%N.

Notation effect X := (Act Key Row X).
Definition answers_ {X} (x : X) : effect X := Build_Act (Ok x) ∅ ∅.
Definition refuses {X} (e : DbError) (l : lockset Key) : effect X := Build_Act (Err e) ∅ l.
Definition changes {X} (x : X) (w : edits) (l : lockset Key) : effect X := Build_Act (Ok x) w l.

Definition user_at (id : uuid) (d : rows) : option User := match d !! KUser id with Some (RUser u) => Some u | _ => None end.
Definition business_at (id : uuid) (d : rows) : option Business := match d !! KBusiness id with Some (RBusiness b) => Some b | _ => None end.
Definition role_at (id : uuid) (d : rows) : option Role := match d !! KRole id with Some (RRole r) => Some r | _ => None end.
Definition member_at (b u : uuid) (d : rows) : option Member := match d !! KMember b u with Some (RMember m) => Some m | _ => None end.
Definition invitation_at (id : uuid) (d : rows) : option Invitation := match d !! KInvitation id with Some (RInvitation i) => Some i | _ => None end.

Definition roles (d : rows) : list Role := omap (λ kr, match kr.2 with RRole r => Some r | _ => None end) (map_to_list d).
Definition members (d : rows) : list Member := omap (λ kr, match kr.2 with RMember m => Some m | _ => None end) (map_to_list d).
Definition invitations (d : rows) : list Invitation := omap (λ kr, match kr.2 with RInvitation i => Some i | _ => None end) (map_to_list d).

Definition with_profile (b now_row : Business) : Business :=
  {| bz_first_action := bz_first_action now_row; bz_id := bz_id now_row; bz_name := bz_name b; bz_category := bz_category b;
     bz_address := bz_address b; bz_phone := bz_phone b; bz_website := bz_website b; bz_description := bz_description b;
     bz_logo_url := bz_logo_url now_row; bz_settings := bz_settings now_row; bz_deleted_at := bz_deleted_at now_row;
     bz_deletion_requested_at := bz_deletion_requested_at now_row; bz_deletion_canceled_at := bz_deletion_canceled_at now_row;
     bz_created_at := bz_created_at now_row; bz_updated_at := bz_updated_at b |}.

Definition with_logo (url : string) (now : Z) (b : Business) : Business :=
  {| bz_first_action := bz_first_action b; bz_id := bz_id b; bz_name := bz_name b; bz_category := bz_category b;
     bz_address := bz_address b; bz_phone := bz_phone b; bz_website := bz_website b; bz_description := bz_description b;
     bz_logo_url := url; bz_settings := bz_settings b; bz_deleted_at := bz_deleted_at b;
     bz_deletion_requested_at := bz_deletion_requested_at b; bz_deletion_canceled_at := bz_deletion_canceled_at b;
     bz_created_at := bz_created_at b; bz_updated_at := now |}.

(** [UPDATE businesses SET ... WHERE id = $1 AND deleted_at IS NULL]. *)
Definition update_business (id : uuid) (f : Business → Business) (d : rows) : effect nat :=
  match business_at id d with
  | Some b => if bool_decide (is_Some (bz_deleted_at b)) then answers_ 0 else changes 1 {[KBusiness id := Some (RBusiness (f b))]} ∅
  | None => answers_ 0
  end.

(** A referenced row is there, and locked against its deletion. *)
Definition present (ks : list Key) (d : rows) : bool := forallb (λ k, bool_decide (is_Some (d !! k))) ks.
Definition key_shares (ks : list Key) : lockset Key := list_to_map ((λ k, (k, KeyShare)) <$> ks).

Definition opt_user (u : option uuid) : list Key := match u with Some u => [KUser u] | None => [] end.
Definition opt_business (b : option uuid) : list Key := match b with Some b => [KBusiness b] | None => [] end.

(** Another role of the business has the name. *)
Definition name_taken (r : Role) (d : rows) : bool :=
  match ro_business r with
  | None => false
  | Some b => existsb (λ r', negb (bool_decide (ro_id r' = ro_id r)) && bool_decide (ro_business r' = Some b)
                             && String.eqb (ro_name r') (ro_name r)) (roles d)
  end.

Definition name_locks (r : Role) : lockset Key :=
  match ro_business r with Some b => {[KRoleName b (ro_name r) := NoKeyUpdate]} | None => ∅ end.

Definition insert_role (r : Role) (cur : rows) : effect unit :=
  let refs := opt_business (ro_business r) ++ opt_user (ro_created_by r) ++ opt_user (ro_updated_by r) in
  let locks := merge_locks (name_locks r) (key_shares refs) in
  if bool_decide (is_Some (cur !! KRole (ro_id r))) || name_taken r cur then refuses DbUnique locks
  else if present refs cur then changes tt {[KRole (ro_id r) := Some (RRole r)]} locks
  else refuses DbRaised locks.

(** What [UPDATE roles] sets. *)
Definition with_grant (new : Role) (at_ : Z) (r : Role) : Role :=
  {| ro_id := ro_id r; ro_business := ro_business r; ro_name := ro_name new; ro_description := ro_description new;
     ro_permissions := ro_permissions new; ro_is_system := ro_is_system r; ro_created_by := ro_created_by r;
     ro_updated_by := ro_updated_by new; ro_created_at := ro_created_at r; ro_updated_at := Some at_ |}.

Definition update_role (new : Role) (at_ : Z) (cur d : rows) : effect nat :=
  match role_at (ro_id new) d with
  | Some r =>
      if ro_is_system r then answers_ 0
      else
        let r' := with_grant new at_ r in
        let refs := opt_user (ro_updated_by new) in
        let locks := merge_locks (if String.eqb (ro_name r') (ro_name r) then ∅ else merge_locks {[KRole (ro_id new) := ForUpdate]} (name_locks r'))
                       (key_shares refs) in
        if name_taken r' cur then refuses DbUnique locks
        else if present refs cur then changes 1 {[KRole (ro_id new) := Some (RRole r')]} locks
        else refuses DbRaised locks
  | None => answers_ 0
  end.

(** Somebody references the role: ON DELETE RESTRICT. *)
Definition role_referenced (id : uuid) (d : rows) : bool :=
  existsb (λ m, bool_decide (mb_role m = id)) (members d) || existsb (λ i, bool_decide (in_role i = Some id)) (invitations d).

Definition delete_role (id : uuid) (cur d : rows) : effect nat :=
  match role_at id d with
  | Some r =>
      if ro_is_system r then answers_ 0
      else if role_referenced id cur then refuses DbRaised ({[KRole id := ForUpdate]} : lockset Key)
      else changes 1 {[KRole id := None]} ∅
  | None => answers_ 0
  end.

Definition with_role (role : uuid) (at_ : Z) (actor : option uuid) (m : Member) : Member :=
  {| mb_business := mb_business m; mb_user := mb_user m; mb_role := role; mb_status := mb_status m;
     mb_invited_by := mb_invited_by m; mb_invited_at := mb_invited_at m; mb_joined_at := mb_joined_at m;
     mb_role_changed_at := Some at_; mb_role_changed_by := actor |}.

Definition holds_role (b role : uuid) (m : Member) : bool := bool_decide (mb_business m = b) && bool_decide (mb_role m = role).

Definition reassign_members (b old new : uuid) (at_ : Z) (actor : option uuid) (cur d : rows) : effect (list uuid) :=
  let hit := map_imap (λ k r, match k, r with
                              | KMember _ _, RMember m => if holds_role b old m then Some (Some (RMember (with_role new at_ actor m))) else None
                              | _, _ => None
                              end) d in
  let users := omap (λ kr, match kr with (KMember _ u, RMember m) => if holds_role b old m then Some u else None | _ => None end) (map_to_list d) in
  let refs := KRole new :: opt_user actor in
  match users with
  | [] => answers_ []
  | _ => if present refs cur then changes users hit (key_shares refs) else refuses DbRaised (key_shares refs)
  end.

Definition active (m : Member) : bool := String.eqb (mb_status m) "active".

Definition count_holders (b role : uuid) (d : rows) : nat := length (filterb (λ m, holds_role b role m && active m) (members d)).

(** Neither accepted nor revoked, ... *)
Definition open_invitation (i : Invitation) : bool :=
  negb (bool_decide (is_Some (in_accepted_at i))) && negb (bool_decide (is_Some (in_revoked_at i))).

(** ... nor expired. *)
Definition pending_at (now : Z) (i : Invitation) : bool := open_invitation i && (now <? in_expires_at i)%Z.

Definition count_invited (role : uuid) (now : Z) (d : rows) : nat :=
  length (filterb (λ i, bool_decide (in_role i = Some role) && pending_at now i) (invitations d)).

Definition detach (i : Invitation) : Invitation :=
  {| in_id := in_id i; in_business := in_business i; in_role := None; in_token_hash := in_token_hash i;
     in_expires_at := in_expires_at i; in_accepted_at := in_accepted_at i; in_accepted_by := in_accepted_by i;
     in_revoked_at := in_revoked_at i; in_created_by := in_created_by i; in_created_at := in_created_at i |}.

Definition edit_invitations (p : Invitation → bool) (f : Invitation → Invitation) (d : rows) : edits :=
  map_imap (λ k r, match k, r with
                   | KInvitation _, RInvitation i => if p i then Some (Some (RInvitation (f i))) else None
                   | _, _ => None
                   end) d.

Definition detach_invitations (role : uuid) (now : Z) (d : rows) : effect unit :=
  changes tt (edit_invitations (λ i, bool_decide (in_role i = Some role) && negb (pending_at now i)) detach d) ∅.

Definition insert_member (m : Member) (cur : rows) : effect unit :=
  let refs := [KBusiness (mb_business m); KUser (mb_user m); KRole (mb_role m)] ++ opt_user (mb_invited_by m) ++ opt_user (mb_role_changed_by m) in
  let k := KMember (mb_business m) (mb_user m) in
  if bool_decide (is_Some (cur !! k)) then refuses DbUnique ({[k := NoKeyUpdate]} : lockset Key)
  else if present refs cur && (active m || String.eqb (mb_status m) "suspended") then changes tt {[k := Some (RMember m)]} (key_shares refs)
  else refuses DbRaised (key_shares refs).

Definition set_member_role (b u role : uuid) (at_ : Z) (actor : uuid) (cur d : rows) : effect nat :=
  match member_at b u d with
  | Some m =>
      let refs := [KRole role; KUser actor] in
      if present refs cur then changes 1 {[KMember b u := Some (RMember (with_role role at_ (Some actor) m))]} (key_shares refs)
      else refuses DbRaised (key_shares refs)
  | None => answers_ 0
  end.

Definition delete_member (b u : uuid) (d : rows) : effect nat :=
  match member_at b u d with Some _ => changes 1 {[KMember b u := None]} ∅ | None => answers_ 0 end.

Definition joined_before (m m' : Member) : bool := (instant (mb_joined_at m) <? instant (mb_joined_at m'))%Z.

(** A deletion of the account was asked for and not called off. *)
Definition deletion_pending (u : User) : bool :=
  bool_decide (is_Some (us_deletion_requested_at u)) && negb (bool_decide (is_Some (us_deletion_canceled_at u))).

(** [lockSQL] of invariants.go. *)
Definition lock_members (b : uuid) (d : rows) : effect (list snapshot_row) :=
  let hit := omap (λ kr, match kr with
                         | (KMember b' u, RMember m) =>
                             match user_at u d with
                             | Some usr => if bool_decide (b' = b) && active m then Some (u, mb_role m, deletion_pending usr) else None
                             | None => None
                             end
                         | _ => None
                         end) (map_to_list d) in
  Build_Act (Ok hit) ∅ (list_to_map ((λ s, (KMember b s.1.1, ForUpdate)) <$> hit)).

Definition insert_invitation (i : Invitation) (cur : rows) : effect unit :=
  let refs := KBusiness (in_business i) :: match in_role i with Some r => [KRole r] | None => [] end ++ [KUser (in_created_by i)]
              ++ opt_user (in_accepted_by i) in
  let locks := merge_locks {[KTokenHash (in_token_hash i) := NoKeyUpdate]} (key_shares refs) in
  if bool_decide (is_Some (cur !! KInvitation (in_id i))) || existsb (λ i', String.eqb (in_token_hash i') (in_token_hash i)) (invitations cur)
  then refuses DbUnique locks
  else if present refs cur then changes tt {[KInvitation (in_id i) := Some (RInvitation i)]} locks
  else refuses DbRaised locks.

Definition created_after (i i' : Invitation) : bool := (instant (in_created_at i') <? instant (in_created_at i))%Z.

Definition pending_of (b : uuid) (now : Z) (d : rows) : list Invitation :=
  filterb (λ i, bool_decide (in_business i = b) && pending_at now i) (invitations d).

Definition revoke (now : Z) (i : Invitation) : Invitation :=
  {| in_id := in_id i; in_business := in_business i; in_role := in_role i; in_token_hash := in_token_hash i;
     in_expires_at := in_expires_at i; in_accepted_at := in_accepted_at i; in_accepted_by := in_accepted_by i;
     in_revoked_at := Some now; in_created_by := in_created_by i; in_created_at := in_created_at i |}.

Definition accept (user : uuid) (now : Z) (i : Invitation) : Invitation :=
  {| in_id := in_id i; in_business := in_business i; in_role := in_role i; in_token_hash := in_token_hash i;
     in_expires_at := in_expires_at i; in_accepted_at := Some now; in_accepted_by := Some user;
     in_revoked_at := in_revoked_at i; in_created_by := in_created_by i; in_created_at := in_created_at i |}.

Definition revoke_invitation (id b : uuid) (now : Z) (d : rows) : effect nat :=
  match invitation_at id d with
  | Some i => if bool_decide (in_business i = b) && pending_at now i
              then changes 1 {[KInvitation id := Some (RInvitation (revoke now i))]} ∅ else answers_ 0
  | None => answers_ 0
  end.

Definition revoke_by_creator (b creator : uuid) (now : Z) (d : rows) : effect nat :=
  let w := edit_invitations (λ i, bool_decide (in_business i = b) && bool_decide (in_created_by i = creator) && open_invitation i) (revoke now) d in
  changes (size w) w ∅.

(** [creator_role.permissions @> invited_role.permissions]. *)
Definition covers (have want : list Permission) : bool := forallb (λ p, list_mem p have) want.

(** The subquery of [buildMarkAcceptedSQL]: what its creator may still grant, and the
    rows that say so. *)
Definition authority (i : Invitation) (d : rows) : option (lockset Key) :=
  match member_at (in_business i) (in_created_by i) d, in_role i with
  | Some m, Some invited =>
      match role_at (mb_role m) d, role_at invited d with
      | Some cr, Some ir =>
          if active m && list_mem "members.invite" (ro_permissions cr)
             && (bool_decide (mb_role m = ownerRoleID) || covers (ro_permissions cr) (ro_permissions ir))
          then Some {[KMember (in_business i) (in_created_by i) := Share; KRole (mb_role m) := Share; KRole invited := Share]}
          else None
      | _, _ => None
      end
  | _, _ => None
  end.

Definition mark_accepted (id user : uuid) (now : Z) (cur d : rows) : effect nat :=
  match invitation_at id d with
  | Some i =>
      if pending_at now i then
        match authority i d with
        | Some locks =>
            let locks := merge_locks locks (key_shares [KUser user]) in
            if present [KUser user] cur then changes 1 {[KInvitation id := Some (RInvitation (accept user now i))]} locks
            else refuses DbRaised locks
        | None => answers_ 0
        end
      else answers_ 0
  | None => answers_ 0
  end.

Definition select_state (id : uuid) (b : option uuid) (d : rows) : effect (option (option Z * option Z * Z)) :=
  answers_ (match invitation_at id d with
            | Some i => if match b with Some b => bool_decide (in_business i = b) | None => true end
                        then Some (in_accepted_at i, in_revoked_at i, in_expires_at i) else None
            | None => None
            end).

(** [is_system DESC, name ASC]. *)
Definition role_before (r r' : Role) : bool :=
  if Bool.eqb (ro_is_system r) (ro_is_system r') then String.ltb (ro_name r) (ro_name r') else ro_is_system r.

(** The system roles and those of [business]. *)
Definition roles_of (business : option uuid) (d : rows) : list Role :=
  stable_sort role_before (filterb (λ r, match ro_business r with None => true | Some _ => bool_decide (is_Some business) && bool_decide (ro_business r = business) end) (roles d)).

Definition run (X : Type) (q : Stmt X) (m : Moment) (cur d : rows) : effect X :=
  match q in Stmt X return effect X with
  | InsertBusiness b =>
      if bool_decide (is_Some (cur !! KBusiness (bz_id b))) then refuses DbUnique ({[KBusiness (bz_id b) := NoKeyUpdate]} : lockset Key)
      else changes tt {[KBusiness (bz_id b) := Some (RBusiness b)]} ∅
  | SelectBusiness deleted_too id =>
      answers_ (match business_at id d with
                | Some b => if deleted_too || negb (bool_decide (is_Some (bz_deleted_at b))) then Some b else None
                | None => None
                end)
  | UpdateBusiness b => update_business (bz_id b) (with_profile b) d
  | SetLogo id url => update_business id (with_logo url (mo_now m)) d
  | SelectUser id => answers_ (user_at id d)
  | InsertRole r => insert_role r cur
  | SelectRole id => answers_ (role_at id d)
  | SelectRoles b => answers_ (roles_of b d)
  | SelectRolesWithCounts b => answers_ ((λ r, (r, count_holders b (ro_id r) d)) <$> roles_of (Some b) d)
  | SelectRoleOfMember b u => answers_ (match member_at b u d with Some mb => role_at (mb_role mb) d | None => None end)
  | UpdateRole r at_ => update_role r at_ cur d
  | DeleteRole id => delete_role id cur d
  | ReassignMembers b old new at_ actor => reassign_members b old new at_ actor cur d
  | CountHolders b r => answers_ (count_holders b r d)
  | CountInvited r => answers_ (count_invited r (mo_now m) d)
  | DetachInvitations r => detach_invitations r (mo_now m) d
  | InsertMember mb => insert_member mb cur
  | SelectMember b u => answers_ (member_at b u d)
  | SetMemberRole b u r at_ actor => set_member_role b u r at_ actor cur d
  | DeleteMember b u => delete_member b u d
  | SelectMembersOf b => answers_ (stable_sort joined_before (filterb (λ mb, bool_decide (mb_business mb = b)) (members d)))
  | SelectMembershipsOf u => answers_ (stable_sort joined_before (filterb (λ mb, bool_decide (mb_user mb = u)) (members d)))
  | SelectHolders b r => answers_ (mb_user <$> filterb (holds_role b r) (members d))
  | CountOwners b => answers_ (count_holders b ownerRoleID d)
  | LockMembers b => lock_members b d
  | InsertInvitation i => insert_invitation i cur
  | SelectInvitation h => answers_ (head (filterb (λ i, String.eqb (in_token_hash i) h) (invitations d)))
  | SelectPending b now => answers_ (stable_sort created_after (pending_of b now d))
  | CountPending b now => answers_ (length (pending_of b now d))
  | RevokeInvitation id b now => revoke_invitation id b now d
  | RevokeByCreator b u now => revoke_by_creator b u now d
  | MarkAccepted id user now => mark_accepted id user now cur d
  | SelectState id b => select_state id b d
  end.
