(* ===== verification/TeamService.v ===== *)
(** * Organizations, members, roles and invitations

    [services/api/internal/service/member_mutations.go] and [business.go], the handlers
    [services/api/internal/handler/members.go], [roles.go] and [invitations.go] with their
    error mapping, and the repository methods they call, as programs over statements of
    [TeamStore.v] in transactions of [Isolation.v].  A handler is given what its request
    says (path parameters, the decoded body) and what the middleware put in its context;
    it returns what it replies.  SHA-256 is a parameter, audit rows are notes. *)

From S2P Require Import Prelude Json GoTime Types Users Prog Pg Isolation Authz TeamStore.
Local Open Scope go_scope.

(** ** Calls *)

Inductive TeamNote :=
| LogRoleGranted (business actor target role : uuid)
| LogMemberRemoved (business actor target : uuid) (self : bool)
| LogBusinessCreated (business actor : uuid) (name : string)
| LogBusinessUpdated (business actor : uuid)
| LogRoleCreated (business actor role : uuid) (name : string) (permissions : list Permission)
| LogRoleUpdated (business actor role : uuid) (name : string) (permissions : list Permission)
| LogRoleDeleted (business actor role : uuid) (name : string) (reassigned : option uuid) (members : nat)
| LogInvitationCreated (business actor invitation role : uuid) (expires : Z)
| LogInvitationRevoked (business actor invitation : uuid)
| LogInvitationAccepted (business user invitation role : uuid)
| RecordValue (business user : uuid).

Inductive TeamCall : Type → Type :=
| DbC {X} (c : TxCall Stmt X) : TeamCall X
| NowC : TeamCall Z
| NewIDC : TeamCall uuid
| RandomC : TeamCall (result unit string)
| FirstActionC (business : uuid) : TeamCall (result unit bool)
| InvalidateMemberC (business user : uuid) : TeamCall unit
| InvalidateRoleC (business role : uuid) : TeamCall unit
| NoteC (n : TeamNote) : TeamCall unit.

Inductive TeamError :=
| ErrGuard (e : AuthzError)
| ErrMembershipNotFound
| ErrMembershipExists
| ErrRoleNotFound
| ErrRoleNameTaken
| ErrRoleInUse
| ErrInvitationNotFound
| ErrInvitationExpired
| ErrInvitationRevoked
| ErrInvitationAccepted
| ErrAlreadyMember
| ErrUserNotFound
| ErrBusinessNotFound
| ErrBusinessExists
| ErrInternal (op : string).

Notation prog := (Prog.prog TeamCall).
Notation fallible A := (Prog.prog TeamCall (result TeamError A)).

Definition exec {X} (tx : option N) (q : Stmt X) : prog (result DbError X) := Call (DbC (RunC tx q)) Ret.

(** A statement whose failure has no meaning of its own. *)
Definition query {X} (tx : option N) (op : string) (q : Stmt X) : fallible X :=
  sub! r := exec tx q in Ret (match r with Ok x => Ok x | Err _ => Err (ErrInternal op) end).

(** [pgx.ErrNoRows] as a sentinel. *)
Definition query_row {X} (tx : option N) (op : string) (none : TeamError) (q : Stmt (option X)) : fallible X :=
  ok! o := query tx op q in Ret (match o with Some x => Ok x | None => Err none end).

(** [RowsAffected() == 0] as a sentinel. *)
Definition affects (tx : option N) (op : string) (none : TeamError) (q : Stmt nat) : fallible unit :=
  ok! n := query tx op q in Ret (if n =? 0 then Err none else Ok tt).

(** ** Repositories *)

Definition roleGetByID (id : uuid) : fallible Role := query_row None "query role" ErrRoleNotFound (SelectRole id).
Definition ListByBusiness (b : uuid) : fallible (list Role) := query None "query roles" (SelectRoles (Some b)).
Definition ListSystem : fallible (list Role) := query None "query system roles" (SelectRoles None).
Definition ListByBusinessWithCounts (b : uuid) : fallible (list (Role * nat)) := query None "query roles with counts" (SelectRolesWithCounts b).
Definition GetByMemberInBusiness (b u : uuid) : fallible Role :=
  query_row None "query role by member" ErrMembershipNotFound (SelectRoleOfMember b u).

(** The id and the times a role is created with. *)
Definition stamp_role (r : Role) : prog Role :=
  sub! id := (if bool_decide (ro_id r = uuid_nil) then Call NewIDC Ret else Ret (ro_id r)) in
  sub! c := (match ro_created_at r with Some c => Ret c | None => Call NowC Ret end) in
  Ret {| ro_id := id; ro_business := ro_business r; ro_name := ro_name r; ro_description := ro_description r;
         ro_permissions := ro_permissions r; ro_is_system := false; ro_created_by := ro_created_by r; ro_updated_by := ro_updated_by r;
         ro_created_at := Some c; ro_updated_at := Some (default c (ro_updated_at r)) |}.

(** [Create] on the pool, [CreateInTx] in a transaction. *)
Definition roleCreate (tx : option N) (r : Role) : fallible Role :=
  sub! r := stamp_role r in
  sub! e := exec tx (InsertRole r) in
  Ret (match e with Ok _ => Ok r | Err DbUnique => Err ErrRoleNameTaken | Err _ => Err (ErrInternal "insert role") end).

Definition roleUpdate (tx : option N) (r : Role) : fallible unit :=
  call! now := NowC in
  sub! e := exec tx (UpdateRole r now) in
  Ret (match e with
       | Ok n => if n =? 0 then Err ErrRoleNotFound else Ok tt
       | Err DbUnique => Err ErrRoleNameTaken
       | Err _ => Err (ErrInternal "update role")
       end).

(** [DELETE FROM roles], a foreign key violation as a sentinel. *)
Definition delete_role_row (t : N) (id : uuid) : fallible unit :=
  sub! e := exec (Some t) (DeleteRole id) in
  Ret (match e with
       | Ok n => if n =? 0 then Err ErrRoleNotFound else Ok tt
       | Err DbRaised => Err ErrRoleInUse
       | Err _ => Err (ErrInternal "delete role")
       end).

Definition roleDelete (id : uuid) : fallible unit := affects None "delete role" ErrRoleNotFound (DeleteRole id).

Definition detachTerminalInvitations (t : N) (role : uuid) : fallible unit :=
  query (Some t) "detach terminal invitations" (DetachInvitations role).

Definition roleDeleteInTx (t : N) (id : uuid) : fallible unit :=
  ok! _ := detachTerminalInvitations t id in delete_role_row t id.

Definition DeleteWithReassignInTx (t : N) (b old new actor : uuid) : fallible (list uuid) :=
  if bool_decide (old = new) then Ret (Err (ErrInternal "reassignTo cannot equal oldRoleID"))
  else
    call! now := NowC in
    ok! reassigned := query (Some t) "reassign members" (ReassignMembers b old new now (Some actor)) in
    ok! _ := detachTerminalInvitations t old in
    ok! _ := delete_role_row t old in
    Ret (Ok reassigned).

Definition Reassign (b old new : uuid) : fallible unit :=
  if bool_decide (old = new) then Ret (Err (ErrInternal "oldRoleID equals newRoleID"))
  else
    call! now := NowC in
    ok! us := query None "reassign" (ReassignMembers b old new now None) in
    Ret (if bool_decide (us = []) then Err ErrMembershipNotFound else Ok tt).

Definition CountMembersByRole (b r : uuid) : fallible nat := query None "count members" (CountHolders b r).
Definition CountInvitationsByRole (r : uuid) : fallible nat := query None "count invitations" (CountInvited r).

(** *** business_member.go *)

Definition memberInsert (t : N) (m : Member) : fallible unit :=
  sub! j := (match mb_joined_at m with Some j => Ret j | None => Call NowC Ret end) in
  sub! e := exec (Some t) (InsertMember {| mb_business := mb_business m; mb_user := mb_user m; mb_role := mb_role m; mb_status := mb_status m;
               mb_invited_by := mb_invited_by m; mb_invited_at := mb_invited_at m; mb_joined_at := Some j;
               mb_role_changed_at := mb_role_changed_at m; mb_role_changed_by := mb_role_changed_by m |}) in
  Ret (match e with Ok _ => Ok tt | Err DbUnique => Err ErrMembershipExists | Err _ => Err (ErrInternal "insert business_member") end).

Definition GetByBusinessUser (b u : uuid) : fallible Member := query_row None "query business_member" ErrMembershipNotFound (SelectMember b u).

(** [UpdateRole] on the pool, [UpdateRoleInTx] in a transaction; so for [Delete]. *)
Definition memberUpdateRole (tx : option N) (b u role actor : uuid) : fallible unit :=
  call! now := NowC in affects tx "update business_member" ErrMembershipNotFound (SetMemberRole b u role now actor).
Definition memberDelete (tx : option N) (b u : uuid) : fallible unit :=
  affects tx "delete business_member" ErrMembershipNotFound (DeleteMember b u).

Definition membersOf (b : uuid) : fallible (list Member) := query None "query business_members" (SelectMembersOf b).
Definition ListByUser (u : uuid) : fallible (list Member) := query None "query business_members by user" (SelectMembershipsOf u).
Definition ListUserIDsByRole (b r : uuid) : fallible (list uuid) := query None "query user_ids by role" (SelectHolders b r).
Definition CountOwnersByBusiness (b : uuid) : fallible nat := query None "count owners" (CountOwners b).

(** *** invitation.go *)

(** [Create] on the pool, [CreateInTx] in a transaction. *)
Definition invitationCreate (tx : option N) (i : Invitation) : fallible Invitation :=
  sub! id := (if bool_decide (in_id i = uuid_nil) then Call NewIDC Ret else Ret (in_id i)) in
  sub! c := (match in_created_at i with Some c => Ret c | None => Call NowC Ret end) in
  let i := {| in_id := id; in_business := in_business i; in_role := in_role i; in_token_hash := in_token_hash i;
              in_expires_at := in_expires_at i; in_accepted_at := in_accepted_at i; in_accepted_by := in_accepted_by i;
              in_revoked_at := in_revoked_at i; in_created_by := in_created_by i; in_created_at := Some c |} in
  ok! _ := query tx "insert invitation" (InsertInvitation i) in Ret (Ok i).

Definition GetByTokenHash (hash : string) : fallible Invitation :=
  query_row None "query invitation by hash" ErrInvitationNotFound (SelectInvitation hash).

Definition ListPendingByBusiness (b : uuid) : fallible (list Invitation) :=
  call! now := NowC in query None "query pending invitations" (SelectPending b now).

(** [CountPendingByBusiness] and [CountPendingByBusinessInTx]. *)
Definition CountPendingByBusiness (tx : option N) (b : uuid) : fallible nat :=
  call! now := NowC in query tx "count pending invitations" (CountPending b now).

Definition classifyTerminalState (tx : option N) (id : uuid) (b : option uuid) : fallible unit :=
  ok! s := query_row tx "classify invitation" ErrInvitationNotFound (SelectState id b) in
  call! now := NowC in
  Ret (Err (match s with
            | (Some _, _, _) => ErrInvitationAccepted
            | (None, Some _, _) => ErrInvitationRevoked
            | (None, None, expires) => if negb (now <? expires)%Z then ErrInvitationExpired else ErrInvitationRevoked
            end)).

Definition invitationRevoke (id b : uuid) : fallible unit :=
  call! now := NowC in
  ok! n := query None "revoke invitation" (RevokeInvitation id b now) in
  if n =? 0 then classifyTerminalState None id (Some b) else Ret (Ok tt).

Definition RevokeByCreatorInTx (t : N) (b creator : uuid) : fallible nat :=
  call! now := NowC in query (Some t) "revoke invitations by creator" (RevokeByCreator b creator now).

(** [MarkAccepted] on the pool, [MarkAcceptedInTx] in a transaction. *)
Definition markAccepted (tx : option N) (id user : uuid) : fallible unit :=
  call! now := NowC in
  ok! n := query tx "mark accepted" (MarkAccepted id user now) in
  if n =? 0 then classifyTerminalState tx id None else Ret (Ok tt).

(** *** business.go *)

Definition businessCreate (tx : option N) (b : Business) : fallible Business :=
  sub! id := (if bool_decide (bz_id b = uuid_nil) then Call NewIDC Ret else Ret (bz_id b)) in
  call! now := NowC in
  let b := {| bz_first_action := bz_first_action b; bz_id := id; bz_name := bz_name b; bz_category := bz_category b;
              bz_address := bz_address b; bz_phone := bz_phone b; bz_website := bz_website b; bz_description := bz_description b;
              bz_logo_url := bz_logo_url b; bz_settings := bz_settings b; bz_deleted_at := None; bz_deletion_requested_at := None;
              bz_deletion_canceled_at := None; bz_created_at := now; bz_updated_at := now |} in
  sub! e := exec tx (InsertBusiness b) in
  Ret (match e with Ok _ => Ok b | Err DbUnique => Err ErrBusinessExists | Err _ => Err (ErrInternal "insert business") end).

Definition businessGetByID (deleted_too : bool) (id : uuid) : fallible Business :=
  query_row None "query business" ErrBusinessNotFound (SelectBusiness deleted_too id).

Definition businessUpdate (b : Business) : fallible Business :=
  call! now := NowC in
  let b := {| bz_first_action := bz_first_action b; bz_id := bz_id b; bz_name := bz_name b; bz_category := bz_category b;
              bz_address := bz_address b; bz_phone := bz_phone b; bz_website := bz_website b; bz_description := bz_description b;
              bz_logo_url := bz_logo_url b; bz_settings := bz_settings b; bz_deleted_at := bz_deleted_at b;
              bz_deletion_requested_at := bz_deletion_requested_at b; bz_deletion_canceled_at := bz_deletion_canceled_at b;
              bz_created_at := bz_created_at b; bz_updated_at := now |} in
  ok! _ := affects None "update business" ErrBusinessNotFound (UpdateBusiness b) in Ret (Ok b).

Definition businessUpdateLogo (id : uuid) (url : string) : fallible unit :=
  affects None "update business logo_url" ErrBusinessNotFound (SetLogo id url).

(** ** Transactions *)

(** Begin at a level, run [body], commit; anything else rolls back. *)
Definition in_tx {E A} (l : Level) (failed : E) (body : N → prog (result E A)) : prog (result E A) :=
  call! begun := DbC (StartC l) in
  match begun with
  | Err _ => Ret (Err failed)
  | Ok t =>
      sub! r := body t in
      match r with
      | Err e => call! _ := DbC (UndoC t) in Ret (Err e)
      | Ok a =>
          call! c := DbC (FinishC t) in
          match c with
          | Ok _ => Ret (Ok a)
          | Err _ => call! _ := DbC (UndoC t) in Ret (Err failed)
          end
      end
  end.

Section services.
Context {U : UUIDText}.

(** [authz.EnsureOwnerExistsAfter] in a transaction. *)
Definition EnsureOwnerExistsAfter (t : N) (b : uuid) (change : OwnerChange) : fallible unit :=
  match oc_kind change with
  | OwnerChangeUnspecified => Ret (Err (ErrGuard (ErrMisuse "OwnerChange.Kind must be set")))
  | _ =>
      match uuid_parse SystemRoleOwnerID with
      | None => Ret (Err (ErrGuard (ErrMisuse "parse SystemRoleOwnerID")))
      | Some ownerRoleID =>
          sub! rows := exec (Some t) (LockMembers b) in
          Ret (match rows with
               | Err _ => Err (ErrGuard ErrQuery)
               | Ok snapshot =>
                   match count_owners ownerRoleID change snapshot 0 with
                   | Err e => Err (ErrGuard e)
                   | Ok postOwners => if postOwners <? 1 then Err (ErrGuard ErrLastOwner) else Ok tt
                   end
               end)
      end
  end.

Definition guard {A} (r : result AuthzError A) : result TeamError A := match r with Ok a => Ok a | Err e => Err (ErrGuard e) end.

(** ** member_mutations.go *)

Definition ValidateRole (bc : BusinessContext) (roleID : uuid) : fallible (list Permission) :=
  ok! role := roleGetByID roleID in
  Ret (if match ro_business role with Some b => negb (bool_decide (b = bc_business_id bc)) | None => false end then Err ErrRoleNotFound
       else match guard (CheckEscalationSubset (bc_role_id bc) (bc_permissions bc) (ro_permissions role)) with
            | Ok _ => Ok (ro_permissions role)
            | Err e => Err e
            end).

Definition demotion (user : uuid) : OwnerChange := {| oc_kind := OwnerChangeDemote; oc_member := Some user; oc_role := None |}.
Definition removal (user : uuid) : OwnerChange := {| oc_kind := OwnerChangeRemove; oc_member := Some user; oc_role := None |}.

Definition UpdateMemberRole (bc : BusinessContext) (target roleID : uuid) : fallible Member :=
  let b := bc_business_id bc in
  ok! rolePerms := ValidateRole bc roleID in
  ok! _ := in_tx RepeatableRead (ErrInternal "update_member_role") (λ t,
    ok! _ := EnsureOwnerExistsAfter t b (demotion target) in
    ok! _ := memberUpdateRole (Some t) b target roleID (bc_user_id bc) in
    if negb (list_mem PermMembersInvite rolePerms)
    then ok! _ := RevokeByCreatorInTx t b target in Ret (Ok tt)
    else Ret (Ok tt)) in
  call! _ := InvalidateMemberC b target in
  call! _ := NoteC (LogRoleGranted b (bc_user_id bc) target roleID) in
  GetByBusinessUser b target.

Definition RemoveMember (bc : BusinessContext) (target : uuid) : fallible unit :=
  let b := bc_business_id bc in
  ok! _ := in_tx RepeatableRead (ErrInternal "remove_member") (λ t,
    ok! _ := EnsureOwnerExistsAfter t b (removal target) in
    ok! _ := memberDelete (Some t) b target in
    RevokeByCreatorInTx t b target) in
  call! _ := InvalidateMemberC b target in
  call! _ := NoteC (LogMemberRemoved b (bc_user_id bc) target (bool_decide (target = bc_user_id bc))) in
  Ret (Ok tt).

(** [userRepo.GetByIDIncludingDeleted]. *)
Definition GetByIDIncludingDeleted (id : uuid) : fallible User := query_row None "query user" ErrUserNotFound (SelectUser id).

Fixpoint hydrate_members (ms : list Member) : fallible (list (Member * User * Role)) :=
  match ms with
  | [] => Ret (Ok [])
  | m :: ms =>
      ok! user := GetByIDIncludingDeleted (mb_user m) in
      ok! role := roleGetByID (mb_role m) in
      ok! rest := hydrate_members ms in
      Ret (Ok ((m, user, role) :: rest))
  end.

Definition ListMembers (b : uuid) : fallible (list (Member * User * Role)) :=
  ok! ms := membersOf b in hydrate_members ms.

(** ** business.go *)

Record BusinessDeps := { bd_first_actions : bool; bd_telemetry : bool }.

(** [businessService.Create]; its deferred rollback runs after the commit too. *)
Definition Create (deps : BusinessDeps) (b : Business) (owner : uuid) : fallible Business :=
  if String.eqb (bz_name b) "" then Ret (Err (ErrInternal "name is required"))
  else if bool_decide (owner = uuid_nil) then Ret (Err (ErrInternal "owner user id is required"))
  else
    call! begun := DbC (StartC ReadCommitted) in
    match begun with
    | Err _ => Ret (Err (ErrInternal "begin tx"))
    | Ok t =>
        sub! r := (
          ok! b := businessCreate (Some t) b in
          match uuid_parse SystemRoleOwnerID with
          | None => Ret (Err (ErrInternal "parse SystemRoleOwnerID"))
          | Some ownerRoleID =>
              sub! e := memberInsert t {| mb_business := bz_id b; mb_user := owner; mb_role := ownerRoleID; mb_status := "active";
                          mb_invited_by := None; mb_invited_at := None; mb_joined_at := None; mb_role_changed_at := None;
                          mb_role_changed_by := None |} in
              match e with
              | Err ErrMembershipExists | Ok _ =>
                  call! c := DbC (FinishC t) in
                  match c with
                  | Err _ => Ret (Err (ErrInternal "commit business+membership"))
                  | Ok _ =>
                      call! _ := NoteC (LogBusinessCreated (bz_id b) owner (bz_name b)) in
                      if bd_telemetry deps then call! _ := NoteC (RecordValue (bz_id b) owner) in Ret (Ok b) else Ret (Ok b)
                  end
              | Err _ => Ret (Err (ErrInternal "insert owner membership"))
              end
          end) in
        call! _ := DbC (UndoC t) in Ret r
    end.

Definition deletionGraceDays : Z := 30.

(** [MembershipSummary]. *)
Record MembershipSummary := {
  ms_business : uuid;
  ms_business_name : string;
  ms_role : uuid;
  ms_role_name : string;
  ms_status : string;
  ms_joined_at : option Z;
  ms_deletion_pending_until : option Z;
}.

Definition restore_deadline (b : Business) : option Z :=
  match bz_deleted_at b, bz_deletion_requested_at b, bz_deletion_canceled_at b with
  | Some _, Some r, None => Some (r + deletionGraceDays * 24 * Hour)%Z
  | _, _, _ => None
  end.

Fixpoint summaries (l : list Member) : fallible (list MembershipSummary) :=
  match l with
  | [] => Ret (Ok [])
  | m :: l =>
      sub! biz := businessGetByID true (mb_business m) in
      match biz with
      | Err ErrBusinessNotFound => summaries l
      | Err _ => Ret (Err (ErrInternal "hydrate business"))
      | Ok biz =>
          ok! role := roleGetByID (mb_role m) in
          ok! rest := summaries l in
          Ret (Ok ({| ms_business := bz_id biz; ms_business_name := bz_name biz; ms_role := ro_id role; ms_role_name := ro_name role;
                      ms_status := mb_status m; ms_joined_at := mb_joined_at m; ms_deletion_pending_until := restore_deadline biz |} :: rest))
      end
  end.

Definition ListMembershipsByUser (u : uuid) : fallible (list MembershipSummary) := ok! l := ListByUser u in summaries l.

Definition with_first_action (done : bool) (b : Business) : Business :=
  {| bz_first_action := done; bz_id := bz_id b; bz_name := bz_name b; bz_category := bz_category b; bz_address := bz_address b;
     bz_phone := bz_phone b; bz_website := bz_website b; bz_description := bz_description b; bz_logo_url := bz_logo_url b;
     bz_settings := bz_settings b; bz_deleted_at := bz_deleted_at b; bz_deletion_requested_at := bz_deletion_requested_at b;
     bz_deletion_canceled_at := bz_deletion_canceled_at b; bz_created_at := bz_created_at b; bz_updated_at := bz_updated_at b |}.

(** [businessService.GetByID]. *)
Definition GetByID (deps : BusinessDeps) (id : uuid) : fallible Business :=
  if bool_decide (id = uuid_nil) then Ret (Err (ErrInternal "business id is required"))
  else
    ok! b := businessGetByID false id in
    if bd_first_actions deps then
      call! r := FirstActionC id in
      Ret (match r with Ok done => Ok (with_first_action done b) | Err _ => Err (ErrInternal "get first successful action") end)
    else Ret (Ok b).

Definition Update (b : Business) (actor : uuid) : fallible Business :=
  if String.eqb (bz_name b) "" then Ret (Err (ErrInternal "name is required"))
  else if bool_decide (bz_id b = uuid_nil) then Ret (Err (ErrInternal "business id is required"))
  else
    ok! b := businessUpdate b in
    call! _ := NoteC (LogBusinessUpdated (bz_id b) actor) in Ret (Ok b).

Definition UpdateLogoURL (id : uuid) (url : string) (actor : uuid) : fallible Business :=
  if bool_decide (id = uuid_nil) then Ret (Err (ErrInternal "business id is required"))
  else
    ok! _ := businessUpdateLogo id url in
    ok! b := businessGetByID false id in
    call! _ := NoteC (LogBusinessUpdated id actor) in Ret (Ok b).

(** ** Replies *)

(** A reply that is not a success: the status and the body's [error] and [reason]. *)
Record Refusal := { rf_status : Z; rf_code : string; rf_reason : option string }.

Definition http (status : Z) (code : string) : Refusal := {| rf_status := status; rf_code := code; rf_reason := None |}.

Notation reply A := (Prog.prog TeamCall (result Refusal A)).

Definition writeAuthzInvariantError (e : TeamError) : Refusal :=
  match e with
  | ErrGuard ErrLastOwner => http 422 "last_owner"
  | ErrGuard (ErrSelfLockout _) => http 422 "self_lockout"
  | ErrGuard (ErrCannotGrantUnownedPermissions _) => http 403 "cannot_grant_unowned_permissions"
  | ErrGuard ErrSystemRoleImmutable => http 422 "system_role_immutable"
  | ErrMembershipNotFound => http 404 "member_not_found"
  | ErrRoleNotFound => http 404 "role_not_found"
  | ErrRoleNameTaken => http 409 "role_name_taken"
  | ErrRoleInUse => http 422 "role_in_use"
  | _ => http 500 "internal_server_error"
  end.

Definition gone (reason : string) : Refusal := {| rf_status := 410; rf_code := "gone"; rf_reason := Some reason |}.

Definition writeInvitationStateError (e : TeamError) : Refusal :=
  match e with
  | ErrInvitationExpired => gone "expired"
  | ErrInvitationRevoked => gone "revoked"
  | ErrInvitationAccepted => gone "accepted"
  | ErrInvitationNotFound => gone "unknown"
  | ErrAlreadyMember => http 409 "already_member"
  | _ => http 500 "internal_server_error"
  end.

Definition writeRevokeError (e : TeamError) : Refusal :=
  match e with ErrInvitationNotFound => http 404 "not_found" | e => writeInvitationStateError e end.

Definition or_reply {A} (w : TeamError → Refusal) (p : fallible A) : reply A :=
  sub! r := p in Ret (match r with Ok a => Ok a | Err e => Err (w e) end).

Notation or_authz := (or_reply writeAuthzInvariantError).

Definition refuse {A} (status : Z) (code : string) : reply A := Ret (Err (http status code)).

Definition check (b : bool) (status : Z) (code : string) : reply unit := if b then Ret (Ok tt) else refuse status code.

(** [businessContext] and [requireBusiness]. *)
Definition businessContext (ctx : option BusinessContext) : reply BusinessContext :=
  match ctx with Some bc => Ret (Ok bc) | None => refuse 500 "internal_server_error" end.

Definition requireBusiness (ctx : option BusinessContext) (perm : Permission) : reply BusinessContext :=
  ok! bc := businessContext ctx in
  if Can ctx perm then Ret (Ok bc) else refuse 403 "forbidden".

Definition parseUUIDParam (raw : string) (code : string) : reply uuid :=
  match uuid_parse raw with Some id => Ret (Ok id) | None => refuse 400 code end.

(** The organization must not be waiting for its erasure. *)
Definition require_live (deps : BusinessDeps) (b : uuid) : reply unit :=
  or_reply (λ e, match e with ErrBusinessNotFound => http 404 "business not found" | _ => http 500 "internal server error" end)
    (ok! _ := GetByID deps b in Ret (Ok tt)).

Variable deps : BusinessDeps.

(** ** members.go *)

Definition MembersList (ctx : option BusinessContext) : reply (list (Member * User * Role)) :=
  ok! bc := requireBusiness ctx PermMembersRead in or_authz (ListMembers (bc_business_id bc)).

(** [body]: the [role_id] the request's body decodes to. *)
Definition MembersUpdateRole (ctx : option BusinessContext) (userId : string) (body : option uuid) : reply Member :=
  ok! bc := requireBusiness ctx PermMembersUpdateRole in
  ok! target := parseUUIDParam userId "invalid_user_id" in
  ok! _ := require_live deps (bc_business_id bc) in
  ok! _ := check (negb (bool_decide (target = bc_user_id bc))) 403 "cannot_change_own_role" in
  match body with
  | None => refuse 400 "invalid_body"
  | Some roleID =>
      ok! _ := check (negb (bool_decide (roleID = uuid_nil))) 400 "validation_failed" in
      or_reply (λ e, match e with ErrRoleNotFound => http 400 "invalid_role_id" | e => writeAuthzInvariantError e end)
        (UpdateMemberRole bc target roleID)
  end.

Definition MembersRemove (ctx : option BusinessContext) (userId : string) : reply unit :=
  ok! bc := businessContext ctx in
  ok! target := parseUUIDParam userId "invalid_user_id" in
  ok! _ := require_live deps (bc_business_id bc) in
  ok! _ := check (bool_decide (target = bc_user_id bc) || Can ctx PermMembersRemove) 403 "forbidden" in
  or_authz (RemoveMember bc target).

(** ** roles.go *)

Definition maxPermissionsPerRole : nat := 100.
Definition maxRoleNameLen : nat := 200.
Definition maxRoleDescriptionLen : nat := 2000.

(** [CreateRoleRequest] and [UpdateRoleRequest]. *)
Record RoleRequest := { rq_name : string; rq_description : option string; rq_permissions : list string }.

(** The loop of [toTypedPerms], from what it has kept so far. *)
Fixpoint typed_perms (valid kept strs : list string) : option (list Permission) :=
  match strs with
  | [] => Some kept
  | s :: strs =>
      if negb (list_mem s valid) then None
      else typed_perms valid (if list_mem s kept then kept else kept ++ [s]) strs
  end.

Definition toTypedPerms (strs : list string) : option (list Permission) :=
  typed_perms (concat (snd <$> AllPermissions)) [] strs.

(** The checks [Create] and [Update] of a role share. *)
Definition role_request (body : option RoleRequest) : reply (string * string * list Permission) :=
  match body with
  | None => refuse 400 "invalid_body"
  | Some req =>
      let name := trim_space (rq_name req) in
      let description := default "" (rq_description req) in
      ok! _ := check (negb (String.eqb name "")) 400 "validation_failed" in
      ok! _ := check (negb ((maxRoleNameLen <? String.length name) || (maxRoleDescriptionLen <? String.length description))) 400 "validation_failed" in
      ok! _ := check (negb (maxPermissionsPerRole <? length (rq_permissions req))) 400 "validation_failed" in
      match toTypedPerms (rq_permissions req) with
      | None => refuse 400 "invalid_permission"
      | Some proposed => Ret (Ok (name, description, proposed))
      end
  end.

Definition guarded_by (r : result AuthzError unit) : reply unit := or_authz (Ret (guard r)).

Definition RolesList (ctx : option BusinessContext) : reply (list (Role * nat)) :=
  ok! bc := requireBusiness ctx PermRolesRead in or_authz (ListByBusinessWithCounts (bc_business_id bc)).

Definition internal : Refusal := http 500 "internal_server_error".

Definition RolesCreate (ctx : option BusinessContext) (body : option RoleRequest) : reply Role :=
  ok! bc := requireBusiness ctx PermRolesCreate in
  let b := bc_business_id bc in
  ok! _ := require_live deps b in
  ok! req := role_request body in
  let '(name, description, proposed) := req in
  ok! _ := guarded_by (CheckEscalationSubset (bc_role_id bc) (bc_permissions bc) proposed) in
  ok! role := in_tx RepeatableRead internal (λ t, or_authz (roleCreate (Some t)
    {| ro_id := uuid_nil; ro_business := Some b; ro_name := name; ro_description := description; ro_permissions := proposed;
       ro_is_system := false; ro_created_by := Some (bc_user_id bc); ro_updated_by := Some (bc_user_id bc);
       ro_created_at := None; ro_updated_at := None |})) in
  call! _ := NoteC (LogRoleCreated b (bc_user_id bc) (ro_id role) (ro_name role) (ro_permissions role)) in
  Ret (Ok role).

(** The role a request names, if it is a system role or one of the business. *)
Definition named_role (b roleID : uuid) (foreign : Refusal) (w : TeamError → Refusal) : reply Role :=
  ok! role := or_reply w (roleGetByID roleID) in
  if match ro_business role with Some b' => negb (bool_decide (b' = b)) | None => false end then Ret (Err foreign) else Ret (Ok role).

Definition RolesUpdate (ctx : option BusinessContext) (roleId : string) (body : option RoleRequest) : reply Role :=
  ok! bc := requireBusiness ctx PermRolesUpdate in
  let b := bc_business_id bc in
  ok! roleID := parseUUIDParam roleId "invalid_role_id" in
  ok! _ := require_live deps b in
  ok! req := role_request body in
  let '(name, description, proposed) := req in
  ok! existing := named_role b roleID (http 404 "role_not_found") writeAuthzInvariantError in
  ok! _ := guarded_by (CheckSystemRoleImmutable (Some (ro_is_system existing))) in
  ok! _ := guarded_by (CheckEscalationSubset (bc_role_id bc) (bc_permissions bc) proposed) in
  ok! _ := guarded_by (CheckSelfLockout (bc_user_id bc) (bc_role_id bc) roleID proposed) in
  let role := {| ro_id := ro_id existing; ro_business := ro_business existing; ro_name := name; ro_description := description;
                 ro_permissions := proposed; ro_is_system := ro_is_system existing; ro_created_by := ro_created_by existing;
                 ro_updated_by := Some (bc_user_id bc); ro_created_at := ro_created_at existing; ro_updated_at := ro_updated_at existing |} in
  ok! _ := in_tx RepeatableRead internal (λ t, or_authz (roleUpdate (Some t) role)) in
  call! _ := InvalidateRoleC b roleID in
  call! _ := NoteC (LogRoleUpdated b (bc_user_id bc) roleID name proposed) in
  Ret (Ok role).

Fixpoint invalidate_all (b : uuid) (us : list uuid) : prog unit :=
  match us with [] => Ret tt | u :: us => call! _ := InvalidateMemberC b u in invalidate_all b us end.

(** [reassign_to] is the query parameter, empty when absent. *)
Definition RolesDelete (ctx : option BusinessContext) (roleId reassign_to : string) : reply unit :=
  ok! bc := requireBusiness ctx PermRolesDelete in
  let b := bc_business_id bc in
  ok! roleID := parseUUIDParam roleId "invalid_role_id" in
  ok! _ := require_live deps b in
  ok! reassignTo := (if String.eqb reassign_to "" then Ret (Ok None)
                     else match uuid_parse reassign_to with
                          | Some parsed => if bool_decide (parsed = roleID) then refuse 400 "invalid_reassign_to" else Ret (Ok (Some parsed))
                          | None => refuse 400 "invalid_reassign_to"
                          end) in
  ok! existing := named_role b roleID (http 404 "role_not_found") writeAuthzInvariantError in
  ok! _ := guarded_by (CheckSystemRoleImmutable (Some (ro_is_system existing))) in
  ok! memberCount := or_authz (CountMembersByRole b roleID) in
  ok! _ := check (negb ((0 <? memberCount) && bool_decide (reassignTo = None))) 422 "role_in_use" in
  ok! inviteCount := or_authz (CountInvitationsByRole roleID) in
  ok! _ := check (negb (0 <? inviteCount)) 422 "role_in_use" in
  ok! _ := (match reassignTo with
            | Some new =>
                if 0 <? memberCount then
                  ok! target := named_role b new (http 400 "invalid_reassign_to")
                    (λ e, match e with ErrRoleNotFound => http 400 "invalid_reassign_to" | e => writeAuthzInvariantError e end) in
                  match toTypedPerms (ro_permissions target) with
                  | None => Ret (Err internal)
                  | Some targetPerms => guarded_by (CheckEscalationSubset (bc_role_id bc) (bc_permissions bc) targetPerms)
                  end
                else Ret (Ok tt)
            | None => Ret (Ok tt)
            end) in
  ok! affected := in_tx RepeatableRead internal (λ t,
    match reassignTo with
    | Some new =>
        if 0 <? memberCount then or_authz (DeleteWithReassignInTx t b roleID new (bc_user_id bc))
        else or_authz (ok! _ := roleDeleteInTx t roleID in Ret (Ok []))
    | None => or_authz (ok! _ := roleDeleteInTx t roleID in Ret (Ok []))
    end) in
  call! _ := InvalidateRoleC b roleID in
  sub! _ := invalidate_all b affected in
  call! _ := NoteC (LogRoleDeleted b (bc_user_id bc) roleID (ro_name existing) reassignTo memberCount) in
  Ret (Ok tt).

Definition MyPermissions (ctx : option BusinessContext) : reply (list Permission) :=
  ok! bc := businessContext ctx in Ret (Ok (bc_permissions bc)).

(** ** invitations.go *)

Variable sha256_hex : string → string.

Definition invitationDefaultExpirySeconds : Z := 7 * 24 * 3600.
Definition invitationMinExpirySeconds : Z := 3600.
Definition invitationMaxExpirySeconds : Z := 30 * 24 * 3600.
Definition invitationPendingCap : nat := 20.

(** [computeTokenHash], and the hash [GenerateInvitationToken] stores. *)
Definition computeTokenHash (raw : string) : string := sha256_hex raw.

(** The role id of the struct: the zero UUID for NULL. *)
Definition role_of (i : Invitation) : uuid := default uuid_nil (in_role i).

(** [CreateInvitationRequest]. *)
Record InvitationRequest := { iq_role_id : uuid; iq_expires_in : option Z }.

(** The invitation and its raw token, which is shown once. *)
Definition InvitationsCreate (ctx : option BusinessContext) (body : option InvitationRequest) : reply (Invitation * string) :=
  ok! bc := requireBusiness ctx PermMembersInvite in
  let b := bc_business_id bc in
  ok! _ := require_live deps b in
  match body with
  | None => refuse 400 "invalid_body"
  | Some req =>
      ok! _ := check (negb (bool_decide (iq_role_id req = uuid_nil))) 400 "validation_failed" in
      let expiresIn := default invitationDefaultExpirySeconds (iq_expires_in req) in
      ok! _ := check (negb ((expiresIn <? invitationMinExpirySeconds)%Z || (invitationMaxExpirySeconds <? expiresIn)%Z)) 400 "validation_failed" in
      ok! role := named_role b (iq_role_id req) (http 400 "invalid_role_id")
        (λ e, match e with ErrRoleNotFound => http 400 "invalid_role_id" | e => writeAuthzInvariantError e end) in
      ok! _ := guarded_by (CheckEscalationSubset (bc_role_id bc) (bc_permissions bc) (ro_permissions role)) in
      call! token := RandomC in
      match token with
      | Err _ => Ret (Err internal)
      | Ok raw =>
          ok! inv := in_tx Serializable internal (λ t,
            ok! count := or_authz (CountPendingByBusiness (Some t) b) in
            ok! _ := check (negb (invitationPendingCap <=? count)) 429 "too_many_pending" in
            call! now := NowC in
            or_authz (invitationCreate (Some t)
              {| in_id := uuid_nil; in_business := b; in_role := Some (iq_role_id req); in_token_hash := computeTokenHash raw;
                 in_expires_at := (now + expiresIn * Second)%Z; in_accepted_at := None; in_accepted_by := None;
                 in_revoked_at := None; in_created_by := bc_user_id bc; in_created_at := Some now |})) in
          call! _ := NoteC (LogInvitationCreated b (bc_user_id bc) (in_id inv) (iq_role_id req) (in_expires_at inv)) in
          Ret (Ok (inv, raw))
      end
  end.

Fixpoint hydrate_invitations (l : list Invitation) : reply (list (Invitation * string * User)) :=
  match l with
  | [] => Ret (Ok [])
  | i :: l =>
      ok! role := or_authz (roleGetByID (role_of i)) in
      ok! user := or_authz (GetByIDIncludingDeleted (in_created_by i)) in
      ok! rest := hydrate_invitations l in
      Ret (Ok ((i, ro_name role, user) :: rest))
  end.

Definition ListPending (ctx : option BusinessContext) : reply (list (Invitation * string * User)) :=
  ok! bc := requireBusiness ctx PermMembersInvite in
  ok! l := or_authz (ListPendingByBusiness (bc_business_id bc)) in
  hydrate_invitations l.

Definition Revoke (ctx : option BusinessContext) (inviteId : string) : reply unit :=
  ok! bc := requireBusiness ctx PermMembersInvite in
  ok! invID := parseUUIDParam inviteId "invalid_invite_id" in
  ok! _ := require_live deps (bc_business_id bc) in
  ok! _ := or_reply writeRevokeError (invitationRevoke invID (bc_business_id bc)) in
  call! _ := NoteC (LogInvitationRevoked (bc_business_id bc) (bc_user_id bc) invID) in
  Ret (Ok tt).

(** The invitation of a token, if it is not in a terminal state by now. *)
Definition usable_invitation (rawToken : string) : reply Invitation :=
  ok! inv := or_reply writeInvitationStateError (GetByTokenHash (computeTokenHash rawToken)) in
  if bool_decide (is_Some (in_accepted_at inv)) then Ret (Err (gone "accepted"))
  else if bool_decide (is_Some (in_revoked_at inv)) then Ret (Err (gone "revoked"))
  else
    call! now := NowC in
    if negb (now <? in_expires_at inv)%Z then Ret (Err (gone "expired")) else Ret (Ok inv).

Definition Preview (rawToken : string) : reply (Invitation * string * string) :=
  ok! _ := check (negb (String.eqb rawToken "")) 400 "validation_failed" in
  ok! inv := usable_invitation rawToken in
  ok! role := or_authz (roleGetByID (role_of inv)) in
  ok! biz := or_authz (businessGetByID false (in_business inv)) in
  Ret (Ok (inv, bz_name biz, ro_name role)).

(** The business and the role the user now has in it. *)
Definition Accept (user : option uuid) (rawToken : string) : reply (uuid * uuid) :=
  match user with
  | None => refuse 401 "unauthorized"
  | Some userID =>
      ok! _ := check (negb (String.eqb rawToken "")) 400 "validation_failed" in
      ok! inv := in_tx RepeatableRead internal (λ t,
        ok! inv := usable_invitation rawToken in
        sub! existing := GetByBusinessUser (in_business inv) userID in
        match existing with
        | Ok _ => Ret (Err (http 409 "already_member"))
        | Err ErrMembershipNotFound =>
            ok! _ := or_reply writeInvitationStateError (markAccepted (Some t) (in_id inv) userID) in
            call! now := NowC in
            ok! _ := or_reply (λ e, match e with ErrMembershipExists => http 409 "already_member" | e => writeAuthzInvariantError e end)
              (memberInsert t {| mb_business := in_business inv; mb_user := userID; mb_role := role_of inv; mb_status := "active";
                 mb_invited_by := Some (in_created_by inv); mb_invited_at := in_created_at inv; mb_joined_at := Some now;
                 mb_role_changed_at := None; mb_role_changed_by := None |}) in
            Ret (Ok inv)
        | Err _ => Ret (Err internal)
        end) in
      call! _ := InvalidateMemberC (in_business inv) userID in
      call! _ := NoteC (LogInvitationAccepted (in_business inv) userID (in_id inv) (role_of inv)) in
      Ret (Ok (in_business inv, role_of inv))
  end.
End services.
