(* ===== verification/TeamSystem.v ===== *)
(** * Teams under concurrent requests

    Any number of the requests of TeamService.v, on every replica of the API, interleaved
    call by call over one database, each of which may crash, beside the writers of other
    components: accounts that come, change and are erased, organizations whose other
    columns change or that are erased, and connections that are lost.  The clock is one
    for all and never goes back. *)

From S2P Require Import Prelude Json GoTime Types Users Prog Pg Isolation Authz TeamStore TeamService.
Local Open Scope go_scope.

(** What the history of a run shows, newest first: the rows before and after each change
    a request made visible; each erasure of an account, with the rows its trigger saw and
    those it was committed on. *)
Inductive Entry :=
| ECommit (now : Z) (before after : rows)
| EErase (id : uuid) (checked now : rows).

(** ** What other components do to the rows *)

(** [fn_refuse_sole_owner_delete]: no member but this one owns some business. *)
Definition owner_of (b : uuid) (kr : Key * Row) : bool :=
  match kr with
  | (KMember b' _, RMember m) => bool_decide (b' = b) && bool_decide (mb_role m = ownerRoleID)
  | _ => false
  end.

Definition sole_owner (id : uuid) (d : rows) : bool :=
  existsb (λ kr, match kr with
                 | (KMember b u, RMember m) =>
                     bool_decide (u = id) && bool_decide (mb_role m = ownerRoleID) && (length (filterb (owner_of b) (map_to_list d)) =? 1)
                 | _ => false
                 end) (map_to_list d).

Definition lose (id : uuid) (u : option uuid) : option uuid := if bool_decide (u = Some id) then None else u.

Definition forget_inviter (id : uuid) (m : Member) : Member :=
  {| mb_business := mb_business m; mb_user := mb_user m; mb_role := mb_role m; mb_status := mb_status m;
     mb_invited_by := lose id (mb_invited_by m); mb_invited_at := mb_invited_at m; mb_joined_at := mb_joined_at m;
     mb_role_changed_at := mb_role_changed_at m; mb_role_changed_by := lose id (mb_role_changed_by m) |}.

Definition forget_author (id : uuid) (r : Role) : Role :=
  {| ro_id := ro_id r; ro_business := ro_business r; ro_name := ro_name r; ro_description := ro_description r;
     ro_permissions := ro_permissions r; ro_is_system := ro_is_system r; ro_created_by := lose id (ro_created_by r);
     ro_updated_by := lose id (ro_updated_by r); ro_created_at := ro_created_at r; ro_updated_at := ro_updated_at r |}.

Definition forget_accepter (id : uuid) (i : Invitation) : Invitation :=
  {| in_id := in_id i; in_business := in_business i; in_role := in_role i; in_token_hash := in_token_hash i;
     in_expires_at := in_expires_at i; in_accepted_at := in_accepted_at i; in_accepted_by := lose id (in_accepted_by i);
     in_revoked_at := in_revoked_at i; in_created_by := in_created_by i; in_created_at := in_created_at i |}.

(** [DELETE FROM users], with what goes and what loses its reference. *)
Definition erase_user (id : uuid) (d : rows) : edits :=
  map_imap (λ k r, match k, r with
                   | KUser u, _ => if bool_decide (u = id) then Some None else None
                   | KMember _ u, RMember m => if bool_decide (u = id) then Some None
                                               else if bool_decide (mb_invited_by m = Some id) || bool_decide (mb_role_changed_by m = Some id)
                                               then Some (Some (RMember (forget_inviter id m))) else None
                   | KRole _, RRole ro => if bool_decide (ro_created_by ro = Some id) || bool_decide (ro_updated_by ro = Some id)
                                          then Some (Some (RRole (forget_author id ro))) else None
                   | KInvitation _, RInvitation i =>
                       if bool_decide (in_created_by i = id) then Some None
                       else if bool_decide (in_accepted_by i = Some id) then Some (Some (RInvitation (forget_accepter id i))) else None
                   | _, _ => None
                   end) d.

(** [DELETE FROM businesses]. *)
Definition erase_business (b : uuid) (d : rows) : edits :=
  map_imap (λ k r, match k, r with
                   | KBusiness b', _ => if bool_decide (b' = b) then Some None else None
                   | KMember b' _, _ => if bool_decide (b' = b) then Some None else None
                   | KRole _, RRole ro => if bool_decide (ro_business ro = Some b) then Some None else None
                   | KInvitation _, RInvitation i => if bool_decide (in_business i = b) then Some None else None
                   | _, _ => None
                   end) d.

(** Writes of others: an account's row, the invitations revoked when its deletion is
    asked for, a business's other columns, its erasure. *)
Inductive foreign_writes (d : rows) : edits → Prop :=
| foreign_user id u : us_id u = id → foreign_writes d {[KUser id := Some (RUser u)]}
| foreign_revocation u n : foreign_writes d (edit_invitations (λ i, bool_decide (in_created_by i = u) && open_invitation i) (revoke n) d)
| foreign_business b bz : is_Some (d !! KBusiness b) → bz_id bz = b → foreign_writes d {[KBusiness b := Some (RBusiness bz)]}
| foreign_end b : foreign_writes d (erase_business b d).

Section system.
Context {U : UUIDText}.
Variables (deps : BusinessDeps) (sha256_hex : string → string).

(** [st_erasing]: the deletions of accounts under way, each past its trigger, with the
    rows the trigger saw. *)
Record Store := { st_db : Db (K := Key) (V := Row); st_now : Z; st_ids : list uuid; st_erasing : list (uuid * rows); st_log : list Entry }.

Definition with_db (p : Db) (l : list Entry) (s : Store) : Store :=
  {| st_db := p; st_now := st_now s; st_ids := st_ids s; st_erasing := st_erasing s; st_log := l ++ st_log s |}.

Definition draw (id : uuid) (s : Store) : Store :=
  {| st_db := st_db s; st_now := st_now s; st_ids := id :: st_ids s; st_erasing := st_erasing s; st_log := st_log s |}.

Definition at_time (now : Z) (s : Store) : Store :=
  {| st_db := st_db s; st_now := now; st_ids := st_ids s; st_erasing := st_erasing s; st_log := st_log s |}.

Definition erasing (l : list (uuid * rows)) (s : Store) : Store :=
  {| st_db := st_db s; st_now := st_now s; st_ids := st_ids s; st_erasing := l; st_log := st_log s |}.

Definition db_entries {B} (c : TxCall Stmt B) (now : Z) (p p' : Db (K := Key) (V := Row)) : list Entry :=
  match c with
  | RunC None _ | FinishC _ => [ECommit now (db_rows p) (db_rows p')]
  | _ => []
  end.

(** One call answered [b]. *)
Definition call_step B (c : TeamCall B) : Store → B → Store → Prop :=
  match c in TeamCall B return Store → B → Store → Prop with
  | DbC c => λ s r s', ∃ p', iso_step run (st_now s) c (st_db s) r p' ∧ s' = with_db p' (db_entries c (st_now s) (st_db s) p') s
  | NowC => λ s n s', n = st_now s ∧ s' = s
  | NewIDC => λ s id s', id ∉ st_ids s ∧ s' = draw id s
  | _ => λ s _ s', s' = s
  end.

(** The requests a process may serve. *)
Inductive starts : prog unit → Prop :=
| start_create b owner : starts (forget (Create deps b owner))
| start_memberships u : starts (forget (ListMembershipsByUser u))
| start_get b : starts (forget (GetByID deps b))
| start_update b actor : starts (forget (Update b actor))
| start_logo b url actor : starts (forget (UpdateLogoURL b url actor))
| start_members ctx : starts (forget (MembersList ctx))
| start_update_role ctx u body : starts (forget (MembersUpdateRole deps ctx u body))
| start_remove ctx u : starts (forget (MembersRemove deps ctx u))
| start_roles ctx : starts (forget (RolesList ctx))
| start_role_create ctx body : starts (forget (RolesCreate deps ctx body))
| start_role_update ctx id body : starts (forget (RolesUpdate deps ctx id body))
| start_role_delete ctx id to : starts (forget (RolesDelete deps ctx id to))
| start_invite ctx body : starts (forget (InvitationsCreate deps sha256_hex ctx body))
| start_pending ctx : starts (forget (ListPending ctx))
| start_revoke ctx id : starts (forget (Revoke deps ctx id))
| start_preview token : starts (forget (Preview sha256_hex token))
| start_accept u token : starts (forget (Accept sha256_hex u token)).

(** What happens besides: a connection is lost, a statement waits, time passes; the
    deletion of an account runs its trigger, and commits later on whatever rows there are
    then (READ COMMITTED, and the trigger takes no lock); others write. *)
Inductive env (s : Store) : Store → Prop :=
| env_lost t : env s (with_db (drop_tx t (st_db s)) [] s)
| env_waits t x : db_open (st_db s) !! t = Some x → tn_view x = None → env s (with_db (put_tx t (waiting x (st_db s)) (st_db s)) [] s)
| env_time now : (st_now s ≤ now)%Z → env s (at_time now s)
| env_check id : sole_owner id (db_rows (st_db s)) = false → env s (erasing ((id, db_rows (st_db s)) :: st_erasing s) s)
| env_erase id d0 l l' : st_erasing s = l ++ (id, d0) :: l' →
    unblocked None (write_mode <$> erase_user id (db_rows (st_db s))) (st_db s) →
    env s (erasing (l ++ l') (with_db (write_rows (erase_user id (db_rows (st_db s))) (st_db s)) [EErase id d0 (db_rows (st_db s))] s))
| env_write w : foreign_writes (db_rows (st_db s)) w → unblocked None (write_mode <$> w) (st_db s) →
    env s (with_db (write_rows w (st_db s)) [] s).

(** ** Rows in order *)

Definition row_fits (k : Key) (r : Row) : Prop :=
  match k, r with
  | KUser id, RUser u => us_id u = id
  | KBusiness id, RBusiness b => bz_id b = id
  | KRole id, RRole r => ro_id r = id
  | KMember b u, RMember m => mb_business m = b ∧ mb_user m = u
  | KInvitation id, RInvitation i => in_id i = id
  | _, _ => False
  end.

Definition typed (d : rows) : Prop := ∀ k r, d !! k = Some r → row_fits k r.

(** An active member with the owner role. *)
Definition owner_row (o : option Row) : Prop := ∃ m, o = Some (RMember m) ∧ mb_role m = ownerRoleID ∧ active m = true.

Definition owned (b : uuid) (d : rows) : Prop := ∃ u, owner_row (d !! KMember b u).

(** The seeded owner role. *)
Definition seeded (d : rows) : Prop := ∃ r, d !! KRole ownerRoleID = Some (RRole r) ∧ ro_is_system r = true ∧ ro_business r = None.

Definition quiet_start (s : Store) : Prop :=
  db_open (st_db s) = ∅ ∧ db_serial (st_db s) = [] ∧ st_log s = [] ∧ st_erasing s = []
  ∧ typed (db_rows (st_db s)) ∧ seeded (db_rows (st_db s))
  ∧ (∀ b, is_Some (db_rows (st_db s) !! KBusiness b) → owned b (db_rows (st_db s)))
  ∧ (∀ i, is_Some (db_rows (st_db s) !! KInvitation i) → i ∈ st_ids s).

Fixpoint log_all (P : Entry → Prop) (log : list Entry) : Prop :=
  match log with [] => True | e :: l => P e ∧ log_all P l end.

(** ** What a commit may do to members and invitations *)

(** The invitation is used by [u] at [n], who joins with its role. *)
Definition used_by (u : uuid) (n : Z) (inv : Invitation) (before after : rows) : Prop :=
  pending_at n inv = true ∧ is_Some (authority inv before)
  ∧ before !! KMember (in_business inv) u = None
  ∧ ∃ m, after !! KMember (in_business inv) u = Some (RMember m) ∧ in_role inv = Some (mb_role m).

Definition fair_commit (e : Entry) : Prop :=
  match e with
  | ECommit _ before after =>
      (∀ b u m, before !! KMember b u = None → after !! KMember b u = Some (RMember m) →
         before !! KBusiness b = None ∧ mb_role m = ownerRoleID
         ∨ ∃ i inv n, before !! KInvitation i = Some (RInvitation inv) ∧ after !! KInvitation i = Some (RInvitation (accept u n inv))
             ∧ in_business inv = b ∧ used_by u n inv before after)
      ∧ ∀ i inv inv', before !! KInvitation i = Some (RInvitation inv) → after !! KInvitation i = Some (RInvitation inv') →
          in_accepted_at inv' ≠ in_accepted_at inv → ∃ u n, inv' = accept u n inv ∧ used_by u n inv before after
  | EErase _ _ _ => True
  end.

(** ** How an organization may lose its last owner *)

(** The erasure passed its trigger, and committed when its account was the only active
    owner of [b]. *)
Definition orphans (b : uuid) (e : Entry) : Prop :=
  match e with
  | EErase id checked now => sole_owner id checked = false ∧ owner_row (now !! KMember b id)
      ∧ ∀ u, owner_row (now !! KMember b u) → u = id
  | _ => False
  end.

Definition orphaned (b : uuid) (log : list Entry) : Prop := ∃ e, e ∈ log ∧ orphans b e.
End system.
