(* ===== verification/TeamOrder.v ===== *)
(** * Rows of teams in order

    What is true of the rows between commits: they fit their keys, the owner role is the
    seeded one, every organization has an owner or was orphaned by an erasure.  [ok_writes] is what the writes of a
    transaction must be for a commit to keep it and to be fair to members and
    invitations; it looks at the rows only where they are written or locked. *)

From S2P Require Import Prelude Json GoTime Types Users Prog Pg Isolation Authz TeamStore TeamService TeamSystem.
Local Open Scope go_scope.

Record in_order (ids : list uuid) (d : rows) : Prop := {
  or_typed : typed d;
  or_seeded : seeded d;
  or_ids : ∀ i, is_Some (d !! KInvitation i) → i ∈ ids;
}.

(** What an invitation keeps all its life. *)
Record descends (i i' : Invitation) : Prop := {
  de_id : in_id i' = in_id i;
  de_business : in_business i' = in_business i;
  de_creator : in_created_by i' = in_created_by i;
  de_role : in_role i' = in_role i ∨ in_role i' = None;
  de_expires : in_expires_at i' = in_expires_at i;
  de_open : open_invitation i' = true → open_invitation i = true;
}.

Lemma descends_refl i : descends i i.
Proof. split; auto. Qed.

Lemma descends_trans i i' i'' : descends i i' → descends i' i'' → descends i i''.
Proof. intros [] []. split; try congruence; [|auto]. naive_solver congruence. Qed.

Lemma accept_descends u n i : descends i (accept u n i).
Proof. split; auto. done. Qed.

(** Invitations only go on: none comes but of [news]. *)
Definition invitations_go_on (news : list uuid) (d d' : rows) : Prop :=
  ∀ i inv', d' !! KInvitation i = Some (RInvitation inv') →
    i ∈ news ∧ d !! KInvitation i = None ∨ ∃ inv, d !! KInvitation i = Some (RInvitation inv) ∧ descends inv inv'.

Definition held_authority (L : Key → Prop) (inv : Invitation) (d : rows) : Prop :=
  ∃ l, authority inv d = Some l ∧ ∀ k, is_Some (l !! k) → L k.

(** The writes [w] may be committed on [d], whose rows of [L] are locked; they insert
    invitations under [news] only. *)
Record ok_writes (news : list uuid) (L : Key → Prop) (w : edits) (d : rows) : Prop := {
  ow_typed : ∀ k r, w !! k = Some (Some r) → row_fits k r;
  ow_owner : ∀ b u v, w !! KMember b u = Some v → owner_row (d !! KMember b u) →
    owner_row v ∨ ∃ u', L (KMember b u') ∧ w !! KMember b u' = None ∧ owner_row (d !! KMember b u');
  ow_join : ∀ b u m, w !! KMember b u = Some (Some (RMember m)) → d !! KMember b u = None →
    d !! KBusiness b = None ∧ is_Some (w !! KBusiness b) ∧ mb_role m = ownerRoleID
    ∨ ∃ i inv n, d !! KInvitation i = Some (RInvitation inv) ∧ w !! KInvitation i = Some (Some (RInvitation (accept u n inv)))
        ∧ in_business inv = b ∧ pending_at n inv = true ∧ held_authority L inv d ∧ in_role inv = Some (mb_role m);
  ow_business : ∀ b v, w !! KBusiness b = Some v → is_Some v
    ∧ (d !! KBusiness b = None → ∃ u o, w !! KMember b u = Some o ∧ owner_row o);
  ow_role : w !! KRole ownerRoleID = None;
  ow_invite : ∀ i v, w !! KInvitation i = Some v → ∃ inv', v = Some (RInvitation inv')
    ∧ (d !! KInvitation i = None ∧ i ∈ news
       ∨ ∃ inv, d !! KInvitation i = Some (RInvitation inv)
           ∧ (descends inv inv' ∧ in_accepted_at inv' = in_accepted_at inv
              ∨ ∃ u n m, inv' = accept u n inv ∧ pending_at n inv = true ∧ held_authority L inv d
                  ∧ d !! KMember (in_business inv) u = None ∧ w !! KMember (in_business inv) u = Some (Some (RMember m))
                  ∧ in_role inv = Some (mb_role m)));
}.

(** ** Locality *)

Lemma authority_local inv d d' l : authority inv d = Some l → (∀ k, is_Some (l !! k) → d !! k = d' !! k) → authority inv d' = Some l.
Proof.
  intros Ha Hd. unfold authority in *. destruct (member_at _ _ d) as [m|] eqn:Em; [|done]. destruct (in_role inv) as [r|] eqn:Er; [|done].
  destruct (role_at (mb_role m) d) as [cr|] eqn:Ec; [|done]. destruct (role_at r d) as [ir|] eqn:Ei; [|done].
  destruct (_ && _ && _) eqn:Eb; [|done]. injection Ha as Ha.
  assert (∀ k, k = KMember (in_business inv) (in_created_by inv) ∨ k = KRole (mb_role m) ∨ k = KRole r → d !! k = d' !! k) as Hk.
  { intros k Hk. apply Hd. rewrite <- Ha. destruct Hk as [-> |[-> | ->]].
    - rewrite lookup_insert_eq. eauto.
    - rewrite lookup_insert_ne, lookup_insert_eq by done. eauto.
    - rewrite lookup_insert_ne by done. destruct (decide (KRole (mb_role m) = KRole r)) as [->|Hn]; [rewrite lookup_insert_eq; eauto|].
      rewrite lookup_insert_ne, lookup_singleton_eq by done. eauto. }
  unfold member_at, role_at in *. rewrite <- !Hk by tauto. rewrite Em. rewrite <- Hk by tauto. rewrite Ec, Ei, Eb. by rewrite Ha.
Qed.

Lemma held_authority_local L inv d d' : (∀ k, L k → d !! k = d' !! k) → held_authority L inv d → held_authority L inv d'.
Proof. intros Hd (l & Hl & HL). exists l. split; [|done]. eapply authority_local; [exact Hl|]. auto. Qed.

Lemma held_authority_mono (L L' : Key → Prop) inv d : (∀ k, L k → L' k) → held_authority L inv d → held_authority L' inv d.
Proof. intros HL (l & Hl & HLl). exists l. auto. Qed.

Lemma ok_writes_local news L w d d' :
  (∀ k, L k ∨ is_Some (w !! k) → d !! k = d' !! k) → ok_writes news L w d → ok_writes news L w d'.
Proof.
  intros Hd [H1 H2 H3 H4 H5 H6]. split; try done.
  - intros b u v Hw. rewrite <- Hd by eauto. intros Ho. destruct (H2 b u v Hw Ho) as [?|(u' & HL & Hn & Ho')]; [by left|].
    right. exists u'. rewrite <- Hd by eauto. done.
  - intros b u m Hw. rewrite <- Hd by eauto. intros Hn. destruct (H3 b u m Hw Hn) as [(E & Hb & Hr)|(i & inv & n & Hi & Hwi & Hb & Hp & Ha & Hr)].
    + left. rewrite <- Hd by eauto. done.
    + right. exists i, inv, n. rewrite <- Hd by eauto. split_and!; try done. eapply held_authority_local; [|exact Ha]. auto.
  - intros b v Hw. rewrite <- Hd by eauto. eauto.
  - intros i v Hw. destruct (H6 i v Hw) as (inv' & -> & Hi). exists inv'. split; [done|]. rewrite <- Hd by eauto.
    destruct Hi as [?|(inv & Hi & [?|(u & n & m & -> & Hp & Ha & Hm & Hwm & Hr)])]; [by left|right; exists inv; auto|].
    right. exists inv. split; [done|]. right. exists u, n, m. rewrite <- Hd by eauto. split_and!; try done.
    eapply held_authority_local; [|exact Ha]. auto.
Qed.

Lemma ok_writes_mono news news' (L L' : Key → Prop) w d :
  news ⊆ news' → (∀ k, L k → L' k) → ok_writes news L w d → ok_writes news' L' w d.
Proof.
  intros Hn HL [H1 H2 H3 H4 H5 H6]. split; try done.
  - intros b u v Hw Ho. destruct (H2 b u v Hw Ho) as [?|(u' & ? & ?)]; eauto 6.
  - intros b u m Hw Hd. destruct (H3 b u m Hw Hd) as [?|(i & inv & n & ? & ? & ? & ? & ? & ?)]; [by left|]. right.
    exists i, inv, n. split_and!; try done. by eapply held_authority_mono.
  - intros i v Hw. destruct (H6 i v Hw) as (inv' & -> & Hi). exists inv'. split; [done|].
    destruct Hi as [[? ?]|(inv & Hi & [?|(u & n & m & -> & Hp & Ha & Hm & Hwm & Hr)])]; [left; auto|right; exists inv; auto|].
    right. exists inv. split; [done|]. right. exists u, n, m. split_and!; try done. by eapply held_authority_mono.
Qed.

Lemma ok_writes_empty news L d : ok_writes news L ∅ d.
Proof. split; intros; try (by rewrite lookup_empty in *); done. Qed.

(** ** What a commit keeps *)

Lemma team_typed_overlay w d : typed d → (∀ k r, w !! k = Some (Some r) → row_fits k r) → typed (overlay w d).
Proof.
  intros Hd Hw k r. rewrite overlay_lookup. destruct (w !! k) as [v|] eqn:E; [|apply Hd]. intros ->. by apply Hw.
Qed.

Lemma typed_member b u d r : typed d → d !! KMember b u = Some r → ∃ m, r = RMember m ∧ mb_business m = b ∧ mb_user m = u.
Proof. intros Hd Hk. apply Hd in Hk. destruct r; try done. eauto. Qed.

Lemma typed_invitation i d r : typed d → d !! KInvitation i = Some r → ∃ inv, r = RInvitation inv ∧ in_id inv = i.
Proof. intros Hd Hk. apply Hd in Hk. destruct r; try done. eauto. Qed.

Lemma typed_role i d r : typed d → d !! KRole i = Some r → ∃ ro, r = RRole ro ∧ ro_id ro = i.
Proof. intros Hd Hk. apply Hd in Hk. destruct r; try done. eauto. Qed.

Lemma ok_writes_on news L w d : typed d → ok_writes news L w d → invitations_go_on news d (overlay w d).
Proof.
  intros Hd [_ _ _ _ _ H6] i inv'. rewrite overlay_lookup. destruct (w !! KInvitation i) as [v|] eqn:E.
  - destruct (H6 i v E) as (inv1 & -> & Hi). intros [= ->].
    destruct Hi as [[? ?]|(inv & Hi & [[? _]|(u & n & m & -> & _)])]; [by left|right; eauto|].
    right. exists inv. split; [done|apply accept_descends].
  - intros Hi. right. exists inv'. split; [done|apply descends_refl].
Qed.

Lemma commit_in_order ids news L w d : in_order ids d → news ⊆ ids → ok_writes news L w d → in_order ids (overlay w d).
Proof.
  intros [H1 H2 H4] Hids Hw. pose proof Hw as [W1 W2 W3 W4 W5 W6]. split.
  - by apply team_typed_overlay.
  - destruct H2 as (r & Hr & Hs). exists r. by rewrite overlay_lookup, W5.
  - intros i [r Hi]. pose proof (team_typed_overlay w d H1 W1) as Ht. destruct (typed_invitation i _ r Ht Hi) as (inv & -> & _).
    destruct (ok_writes_on _ _ _ _ H1 Hw i inv Hi) as [[? _]|(inv0 & ? & _)]; [auto|apply H4; eauto].
Qed.

(** Every organization there is has an owner, but for those of [lost]. *)
Definition kept_owned (lost : uuid → Prop) (d : rows) : Prop := ∀ b, is_Some (d !! KBusiness b) → owned b d ∨ lost b.

Lemma kept_owned_mono (lost lost' : uuid → Prop) d : (∀ b, lost b → lost' b) → kept_owned lost d → kept_owned lost' d.
Proof. intros Hl Hd b Hb. destruct (Hd b Hb); auto. Qed.

Lemma commit_owned lost news L w d : kept_owned lost d → ok_writes news L w d → kept_owned lost (overlay w d).
Proof.
  intros H3 Hw. pose proof Hw as [W1 W2 W3 W4 W5 W6]. intros b Hb. assert (owned b d ∨ lost b → owned b (overlay w d) ∨ lost b) as Hkeep.
  { intros [(u & Hu)|?]; [left|by right]. destruct (w !! KMember b u) as [v|] eqn:E.
    - destruct (W2 b u v E Hu) as [Ho|(u' & _ & Hn & Ho)]; [exists u|exists u']; rewrite overlay_lookup; [by rewrite E|by rewrite Hn].
    - exists u. by rewrite overlay_lookup, E. }
  rewrite overlay_lookup in Hb. destruct (w !! KBusiness b) as [v|] eqn:E; [|by apply Hkeep, H3].
  destruct (W4 b v E) as [_ Hnew]. destruct (d !! KBusiness b) as [r|] eqn:Eb; [apply Hkeep, H3; eauto|].
  destruct (Hnew eq_refl) as (u & o & Ho & Hown). left. exists u. by rewrite overlay_lookup, Ho.
Qed.

Lemma commit_fair now news L w d : ok_writes news L w d → fair_commit (ECommit now d (overlay w d)).
Proof.
  intros Hw. pose proof Hw as [W1 W2 W3 W4 W5 W6]. split.
  - intros b u m Hn. rewrite overlay_lookup. destruct (w !! KMember b u) as [v|] eqn:E; [|congruence]. intros ->.
    destruct (W3 b u m E Hn) as [(? & _ & ?)|(i & inv & n & Hi & Hwi & <- & Hp & (l & Hl & _) & Hr)]; [by left|]. right.
    exists i, inv, n. rewrite overlay_lookup, Hwi. split_and!; try done. split_and!; eauto. exists m. by rewrite overlay_lookup, E.
  - intros i inv inv' Hi. rewrite overlay_lookup. destruct (w !! KInvitation i) as [v|] eqn:E; [|intros ? []; congruence]. intros ->.
    destruct (W6 i _ E) as (inv1 & [= <-] & [[? _]|(inv0 & Hi0 & Hc)]); [congruence|]. assert (inv0 = inv) as -> by congruence.
    destruct Hc as [[_ ?]|(u & n & m & -> & Hp & (l & Hl & _) & Hm & Hwm & Hr)]; [done|]. intros _. exists u, n. split; [done|].
    split_and!; eauto. exists m. by rewrite overlay_lookup, Hwm.
Qed.

(** ** What the statements write *)

Lemma edit_lookup p f d k : edit_invitations p f d !! k =
  match d !! k with
  | Some r => match k, r with
              | KInvitation _, RInvitation i => if p i then Some (Some (RInvitation (f i))) else None
              | _, _ => None
              end
  | None => None
  end.
Proof. unfold edit_invitations. rewrite map_lookup_imap. by destruct (d !! k). Qed.

Lemma edit_elsewhere p f d k : (∀ i, k ≠ KInvitation i) → edit_invitations p f d !! k = None.
Proof. intros Hk. rewrite edit_lookup. destruct (d !! k) as [r|]; [|done]. destruct k, r; try done. by destruct (Hk id). Qed.

Lemma invitation_at_Some i d inv : invitation_at i d = Some inv ↔ d !! KInvitation i = Some (RInvitation inv).
Proof. unfold invitation_at. destruct (d !! KInvitation i) as [[]|]; split; try done; by intros [= ->]. Qed.

Lemma member_at_Some b u d m : member_at b u d = Some m ↔ d !! KMember b u = Some (RMember m).
Proof. unfold member_at. destruct (d !! KMember b u) as [[]|]; split; try done; by intros [= ->]. Qed.

Lemma role_at_Some r d ro : role_at r d = Some ro ↔ d !! KRole r = Some (RRole ro).
Proof. unfold role_at. destruct (d !! KRole r) as [[]|]; split; try done; by intros [= ->]. Qed.

Lemma business_at_Some b d bz : business_at b d = Some bz ↔ d !! KBusiness b = Some (RBusiness bz).
Proof. unfold business_at. destruct (d !! KBusiness b) as [[]|]; split; try done; by intros [= ->]. Qed.

(** An edit of invitations beside writes of other rows. *)
Lemma edit_ok news L w p f v d : typed d → ok_writes news L w d → (∀ i, w !! KInvitation i = None) →
  (∀ i, is_Some (edit_invitations p f v !! KInvitation i) → v !! KInvitation i = d !! KInvitation i) →
  (∀ i, p i = true → descends i (f i) ∧ in_accepted_at (f i) = in_accepted_at i) →
  ok_writes news L (edit_invitations p f v ∪ w) d.
Proof.
  intros Hd [H1 H2 H3 H4 H5 H6] Hnone Hsame Hf. set (w1 := edit_invitations p f v) in *.
  assert (∀ k, (∀ i, k ≠ KInvitation i) → (w1 ∪ w) !! k = w !! k) as Helse.
  { intros k Hk. apply lookup_union_r. by apply edit_elsewhere. }
  assert (∀ i o, (w1 ∪ w) !! KInvitation i = Some o → ∃ inv, d !! KInvitation i = Some (RInvitation inv) ∧ p inv = true ∧ o = Some (RInvitation (f inv))) as Hinv.
  { intros i o. rewrite lookup_union_l by apply Hnone. intros Ho. specialize (Hsame i ltac:(eauto)).
    unfold w1 in Ho. rewrite edit_lookup, Hsame in Ho. destruct (d !! KInvitation i) as [r|]; [|done].
    destruct r as [| | | |inv]; try done. destruct (p inv) eqn:Ep; [|done]. injection Ho as <-. eauto. }
  split.
  - intros k r Hk. destruct k as [| | | |i| |]; try (rewrite Helse in Hk by done; by apply H1).
    destruct (Hinv i _ Hk) as (inv & Hi & Hp & [= ->]). cbn. destruct (Hf inv Hp) as [[-> _ _ _ _ _] _]. by apply (Hd _ _ Hi).
  - intros b u o. rewrite Helse by done. intros Ho Hown. destruct (H2 b u o Ho Hown) as [?|(u' & ? & Hn & ?)]; [by left|].
    right. exists u'. by rewrite Helse.
  - intros b u m. rewrite Helse by done. intros Hm Hn. destruct (H3 b u m Hm Hn) as [(? & ? & ?)|(i & inv & n & ? & Hwi & ?)].
    + left. by rewrite Helse.
    + by rewrite Hnone in Hwi.
  - intros b o. rewrite Helse by done. intros Ho. destruct (H4 b o Ho) as [? Hnew]. split; [done|]. intros Hn.
    destruct (Hnew Hn) as (u & o' & ? & ?). exists u, o'. by rewrite Helse.
  - by rewrite Helse.
  - intros i o Ho. destruct (Hinv i o Ho) as (inv & Hi & Hp & ->). eexists. split; [done|]. right. exists inv.
    split; [done|]. left. by apply Hf.
Qed.

Lemma edit_rows p f v k o : edit_invitations p f v !! k = Some o → ∃ i, k = KInvitation i.
Proof. intros Hk. destruct k; try (by rewrite edit_elsewhere in Hk); eauto. Qed.

Lemma revoke_descends n i : descends i (revoke n i) ∧ in_accepted_at (revoke n i) = in_accepted_at i.
Proof. split; [|done]. split; auto. unfold open_invitation. cbn. by rewrite andb_false_r. Qed.

Lemma detach_descends i : descends i (detach i) ∧ in_accepted_at (detach i) = in_accepted_at i.
Proof. split; [|done]. split; auto. Qed.

(** A write of one member of an organization that keeps an owner. *)
Lemma member_ok news L b u v d m :
  d !! KMember b u = Some (RMember m) → (∀ r, v = Some r → row_fits (KMember b u) r) →
  (owner_row (d !! KMember b u) → ∃ u', u' ≠ u ∧ L (KMember b u') ∧ owner_row (d !! KMember b u')) →
  ok_writes news L {[KMember b u := v]} d.
Proof.
  intros Hm Hv Ho. split.
  - intros k r [<- ->]%lookup_singleton_Some. by apply Hv.
  - intros b' u' v' [[= <- <-] <-]%lookup_singleton_Some Hown. destruct (Ho Hown) as (u' & Hn & HL & ?). right. exists u'.
    split; [done|]. split; [|done]. apply lookup_singleton_ne. congruence.
  - intros b' u' m' [[= <- <-] _]%lookup_singleton_Some. congruence.
  - intros b' v' [? _]%lookup_singleton_Some. done.
  - by apply lookup_singleton_ne.
  - intros i v' [? _]%lookup_singleton_Some. done.
Qed.

(** Members of a role that is not the owner's move to another. *)
Lemma reassign_ok news L b old new at_ actor v d : typed d → old ≠ ownerRoleID →
  let w := map_imap (λ k r, match k, r with
                            | KMember _ _, RMember m => if holds_role b old m then Some (Some (RMember (with_role new at_ actor m))) else None
                            | _, _ => None
                            end) v in
  (∀ k, is_Some (w !! k) → v !! k = d !! k) → ok_writes news L w d ∧ ∀ i, w !! KInvitation i = None.
Proof.
  intros Hd Hold w Hsame.
  assert (∀ k o, w !! k = Some o → ∃ b' u m, k = KMember b' u ∧ d !! k = Some (RMember m) ∧ mb_role m = old
            ∧ o = Some (RMember (with_role new at_ actor m))) as Hw.
  { intros k o Ho. specialize (Hsame k ltac:(eauto)). unfold w in Ho. rewrite map_lookup_imap, Hsame in Ho.
    destruct (d !! k) as [r|]; [|done]. cbn in Ho. destruct k as [| | |b' u| | |], r as [| | |m|]; try done.
    destruct (holds_role b old m) eqn:Eh; [|done]. injection Ho as <-. unfold holds_role in Eh. to_prop. naive_solver. }
  assert (∀ k, (∀ b' u, k ≠ KMember b' u) → w !! k = None) as Helse.
  { intros k Hk. apply eq_None_not_Some. intros [o Ho]. destruct (Hw k o Ho) as (b' & u & _ & -> & _). by eapply Hk. }
  split; [|intros i; by apply Helse]. split.
  - intros k r Hk. destruct (Hw k _ Hk) as (b' & u & m & -> & Hm & _ & [= ->]). by apply Hd in Hm.
  - intros b' u o Ho (m & Hm & Hr & _). destruct (Hw _ _ Ho) as (? & ? & m' & _ & Hm' & Hr' & _). congruence.
  - intros b' u m Ho Hn. destruct (Hw _ _ Ho) as (? & ? & ? & _ & Hm & _). congruence.
  - intros b' o Ho. by rewrite Helse in Ho.
  - by apply Helse.
  - intros i o Ho. by rewrite Helse in Ho.
Qed.

(** A role other than the owner's. *)
Lemma role_ok news L w id v d : ok_writes news L w d → id ≠ ownerRoleID → (∀ r, v = Some r → row_fits (KRole id) r) →
  ok_writes news L ({[KRole id := v]} ∪ w) d.
Proof.
  intros [H1 H2 H3 H4 H5 H6] Hid Hv.
  assert (∀ k, k ≠ KRole id → ({[KRole id := v]} ∪ w) !! k = w !! k) as Helse.
  { intros k Hk. apply lookup_union_r. by apply lookup_singleton_ne. }
  split.
  - intros k r. destruct (decide (k = KRole id)) as [->|Hn]; [|rewrite Helse by done; apply H1].
    rewrite lookup_union, lookup_singleton_eq, union_Some_l. intros [= ->]. by apply Hv.
  - intros b u o. rewrite Helse by done. intros Ho Hown. destruct (H2 b u o Ho Hown) as [?|(u' & ? & ? & ?)]; [by left|].
    right. exists u'. by rewrite Helse.
  - intros b u m. rewrite Helse by done. intros Hm Hn. destruct (H3 b u m Hm Hn) as [(? & ? & ?)|(i & inv & n & ? & ? & ?)].
    + left. by rewrite Helse.
    + right. exists i, inv, n. by rewrite Helse.
  - intros b o. rewrite Helse by done. intros Ho. destruct (H4 b o Ho) as [? Hnew]. split; [done|]. intros Hn.
    destruct (Hnew Hn) as (u & o' & ? & ?). exists u, o'. by rewrite Helse.
  - rewrite Helse; [done|congruence].
  - intros i o. rewrite Helse by done. intros Ho. destruct (H6 i o Ho) as (inv' & -> & Hi). exists inv'. split; [done|].
    destruct Hi as [?|(inv & ? & [?|(u & n & m & ? & ? & ? & ? & ? & ?)])]; [by left|right; eauto|].
    right. exists inv. split; [done|]. right. exists u, n, m. by rewrite Helse.
Qed.

(** A new invitation. *)
Lemma invite_ok news L i inv d : d !! KInvitation i = None → i ∈ news → in_id inv = i →
  ok_writes news L {[KInvitation i := Some (RInvitation inv)]} d.
Proof.
  intros Hd Hi Hid. split.
  - by intros k r [<- [= <-]]%lookup_singleton_Some.
  - by intros b u v [? _]%lookup_singleton_Some.
  - by intros b u m [? _]%lookup_singleton_Some.
  - by intros b v [? _]%lookup_singleton_Some.
  - by apply lookup_singleton_ne.
  - intros j v [[= <-] <-]%lookup_singleton_Some. eauto.
Qed.

(** An organization with its founder. *)
Lemma found_ok news L b bz u m d : d !! KBusiness b = None → d !! KMember b u = None → bz_id bz = b → mb_business m = b → mb_user m = u →
  mb_role m = ownerRoleID → active m = true →
  ok_writes news L ({[KMember b u := Some (RMember m)]} ∪ {[KBusiness b := Some (RBusiness bz)]}) d.
Proof.
  intros Hb Hm Hid H1 H2 Hr Ha. split.
  - intros k r [[<- [= <-]]%lookup_singleton_Some|[_ [<- [= <-]]%lookup_singleton_Some]]%lookup_union_Some_raw; done.
  - intros b' u' v [[[= <- <-] <-]%lookup_singleton_Some|[_ [? _]%lookup_singleton_Some]]%lookup_union_Some_raw; [|done].
    intros (m' & ? & _). congruence.
  - intros b' u' m' [[[= <- <-] [= <-]]%lookup_singleton_Some|[_ [? _]%lookup_singleton_Some]]%lookup_union_Some_raw; [|done].
    intros _. left. split; [done|]. split; [|done]. rewrite lookup_union_r, lookup_singleton_eq by by apply lookup_singleton_ne. eauto.
  - intros b' v [[? _]%lookup_singleton_Some|[_ [[= <-] <-]%lookup_singleton_Some]]%lookup_union_Some_raw; [done|].
    split; [eauto|]. intros _. exists u, (Some (RMember m)). rewrite lookup_union, lookup_singleton_eq, union_Some_l.
    split; [done|]. by exists m.
  - rewrite lookup_union_r; by apply lookup_singleton_ne.
  - intros i v [[? _]%lookup_singleton_Some|[_ [? _]%lookup_singleton_Some]]%lookup_union_Some_raw; done.
Qed.

(** An invitation accepted by who joins with its role. *)
Lemma join_ok news L i inv n u m d : d !! KInvitation i = Some (RInvitation inv) → in_id inv = i → d !! KMember (in_business inv) u = None →
  pending_at n inv = true → held_authority L inv d → mb_business m = in_business inv → mb_user m = u → active m = true →
  in_role inv = Some (mb_role m) →
  ok_writes news L ({[KMember (in_business inv) u := Some (RMember m)]} ∪ {[KInvitation i := Some (RInvitation (accept u n inv))]}) d.
Proof.
  intros Hi Hid Hn Hp Ha H1 H2 Hact Hr. split.
  - intros k r [[<- [= <-]]%lookup_singleton_Some|[_ [<- [= <-]]%lookup_singleton_Some]]%lookup_union_Some_raw; done.
  - intros b u' v [[[= <- <-] <-]%lookup_singleton_Some|[_ [? _]%lookup_singleton_Some]]%lookup_union_Some_raw; [|done].
    intros (m' & ? & _). congruence.
  - intros b u' m' [[[= <- <-] [= <-]]%lookup_singleton_Some|[_ [? _]%lookup_singleton_Some]]%lookup_union_Some_raw; [|done].
    intros _. right. exists i, inv, n. split_and!; try done. by rewrite lookup_union_r, lookup_singleton_eq by by apply lookup_singleton_ne.
  - intros b v [[? _]%lookup_singleton_Some|[_ [? _]%lookup_singleton_Some]]%lookup_union_Some_raw; done.
  - rewrite lookup_union_r; by apply lookup_singleton_ne.
  - intros j v [[? _]%lookup_singleton_Some|[_ [[= <-] <-]%lookup_singleton_Some]]%lookup_union_Some_raw; [done|].
    eexists. split; [done|]. right. exists inv. split; [done|]. right. exists u, n, m. split_and!; try done.
    by rewrite lookup_union, lookup_singleton_eq, union_Some_l.
Qed.

(** A write of an organization's columns. *)
Lemma business_ok news L b bz d : is_Some (d !! KBusiness b) → bz_id bz = b → ok_writes news L {[KBusiness b := Some (RBusiness bz)]} d.
Proof.
  intros [r Hb] Hid. split.
  - by intros k r' [<- [= <-]]%lookup_singleton_Some.
  - by intros b' u v [? _]%lookup_singleton_Some.
  - by intros b' u m [? _]%lookup_singleton_Some.
  - intros b' v [[= <-] <-]%lookup_singleton_Some. split; [eauto|]. congruence.
  - by apply lookup_singleton_ne.
  - by intros i v [? _]%lookup_singleton_Some.
Qed.

(** ** What the others keep *)

(** Where the trigger let an owner go, another row had the owner role. *)
Lemma other_owner b id m d : d !! KMember b id = Some (RMember m) → mb_role m = ownerRoleID → sole_owner id d = false →
  ∃ u' m', u' ≠ id ∧ d !! KMember b u' = Some (RMember m') ∧ mb_role m' = ownerRoleID.
Proof.
  intros Hm Hr Hs. set (l := filterb (owner_of b) (map_to_list d)).
  assert ((KMember b id, RMember m) ∈ l) as Hin.
  { apply elem_of_filterb. cbn. rewrite !bool_decide_true by done. split; [done|]. by apply elem_of_map_to_list. }
  assert (length l ≠ 1) as Hlen.
  { intros Hl. rewrite <- not_true_iff_false in Hs. apply Hs. unfold sole_owner. apply existsb_exists.
    exists (KMember b id, RMember m). split; [by apply list_elem_of_In, elem_of_map_to_list|]. rewrite !bool_decide_true by done.
    fold l. rewrite Hl. done. }
  assert (NoDup (l.*1)) as Hnd.
  { apply fmap_filterb_nodup, NoDup_fst_map_to_list. }
  destruct (decide (Exists (λ kr, kr.1 ≠ KMember b id) l)) as [([k r] & Hkr & Hn)%Exists_exists|Hno].
  - apply elem_of_filterb in Hkr as [Ho Hkr%elem_of_map_to_list]. destruct k as [| | |b' u'| | |], r as [| | |m'|]; try done.
    cbn in Ho, Hn. to_prop. subst b'. exists u', m'. split; [congruence|done].
  - exfalso. apply Hlen. destruct l as [|[k1 r1] [|[k2 r2] l]]; [by apply elem_of_nil in Hin|done|]. exfalso.
    assert (∀ kr, kr ∈ (k1, r1) :: (k2, r2) :: l → kr.1 = KMember b id) as Hall.
    { intros kr Hk. destruct (decide (kr.1 = KMember b id)); [done|]. destruct Hno. apply Exists_exists. eauto. }
    pose proof (Hall (k1, r1) ltac:(set_solver)) as E1. pose proof (Hall (k2, r2) ltac:(set_solver)) as E2. cbn in E1, E2. subst.
    apply NoDup_cons in Hnd as [Hnd _]. apply Hnd. cbn. by left.
Qed.

Lemma singleton_in_order ids k r d : in_order ids d → row_fits k r → (∀ i, k ≠ KRole i) → (∀ i, k ≠ KInvitation i) →
  in_order ids (overlay {[k := Some r]} d) ∧ invitations_go_on [] d (overlay {[k := Some r]} d).
Proof.
  intros [H1 H2 H4] Hf Hr Hi.
  assert (∀ k', k' ≠ k → overlay {[k := Some r]} d !! k' = d !! k') as Helse.
  { intros k' Hn. rewrite overlay_lookup, lookup_singleton_ne by done. done. }
  split; [split|].
  - apply team_typed_overlay; [done|]. by intros k' r' [<- [= <-]]%lookup_singleton_Some.
  - destruct H2 as (ro & ? & ?). exists ro. by rewrite Helse.
  - intros i. rewrite Helse by done. apply H4.
  - intros i inv. rewrite Helse by done. intros ?. right. exists inv. split; [done|apply descends_refl].
Qed.

Lemma singleton_owned lost k r d : kept_owned lost d → (∀ b u, k ≠ KMember b u) → (∀ b, k = KBusiness b → is_Some (d !! k)) →
  kept_owned lost (overlay {[k := Some r]} d).
Proof.
  intros H3 Hm Hb b Ho.
  assert (∀ k', k' ≠ k → overlay {[k := Some r]} d !! k' = d !! k') as Helse.
  { intros k' Hn. rewrite overlay_lookup, lookup_singleton_ne by done. done. }
  destruct (H3 b) as [(u & Hu)|]; [|left|by right]; [|exists u; by rewrite Helse].
  destruct (decide (KBusiness b = k)) as [<-|Hn]; [by eapply Hb|by rewrite Helse in Ho].
Qed.

Lemma erase_user_in_order ids id d : in_order ids d →
  in_order ids (overlay (erase_user id d) d) ∧ invitations_go_on [] d (overlay (erase_user id d) d).
Proof.
  intros [H1 H2 H4]. unfold erase_user. set (w := map_imap _ d).
  assert (∀ k, overlay w d !! k = match w !! k with Some v => v | None => d !! k end) as Hk by (intros; apply overlay_lookup).
  assert (∀ i inv', overlay w d !! KInvitation i = Some (RInvitation inv') → ∃ inv, d !! KInvitation i = Some (RInvitation inv) ∧ descends inv inv') as Hinv.
  { intros i inv'. rewrite Hk. unfold w. rewrite map_lookup_imap. destruct (d !! KInvitation i) as [r|] eqn:E; [|done]. cbn.
    destruct (typed_invitation i d r H1 E) as (inv & -> & _). case_bool_decide; [done|]. case_bool_decide; intros [= <-]; eexists; (split; [done|]);
      [split; auto|apply descends_refl]. }
  split; [split|].
  - apply team_typed_overlay; [done|]. intros k r Hw. unfold w in Hw. rewrite map_lookup_imap in Hw. destruct (d !! k) as [r0|] eqn:E; [|done].
    apply H1 in E. destruct k, r0; try done; cbn in Hw; repeat (case_bool_decide; try done); cbn in Hw; simplify_eq; exact E.
  - destruct H2 as (ro & Hro & Hsys & Hbz). unfold seeded. rewrite Hk. unfold w. rewrite map_lookup_imap, Hro. cbn.
    destruct (_ || _); eexists; (split; [reflexivity|done]).
  - intros i [r Hi]. rewrite Hk in Hi. unfold w in Hi. rewrite map_lookup_imap in Hi. apply H4.
    destruct (d !! KInvitation i); [eauto|done].
  - intros i inv' Hi. right. by apply Hinv.
Qed.

(** Members other than the erased keep their rows, but for who invited them. *)
Lemma erase_keeps_owner b u id d : u ≠ id → owner_row (d !! KMember b u) → owner_row (overlay (erase_user id d) d !! KMember b u).
Proof.
  intros Hn (m & Hm & Hr & Ha). unfold owner_row. rewrite overlay_lookup. unfold erase_user. rewrite map_lookup_imap, Hm. cbn.
  rewrite bool_decide_false by done. destruct (_ || _); eexists; (split; [done|]); done.
Qed.

Definition another_owner (b id : uuid) (kr : Key * Row) : bool :=
  match kr with
  | (KMember b' u, RMember m) => bool_decide (b' = b) && negb (bool_decide (u = id)) && bool_decide (mb_role m = ownerRoleID) && active m
  | _ => false
  end.

(** An erasure leaves each organization an owner, or orphans it. *)
Lemma erase_user_owned (lost : uuid → Prop) id checked d : kept_owned lost d → sole_owner id checked = false →
  kept_owned (λ b, orphans b (EErase id checked d) ∨ lost b) (overlay (erase_user id d) d).
Proof.
  intros H3 Hs b Hb. destruct (H3 b) as [(u & Hu)|?]; [|  |by right; right].
  { destruct (d !! KBusiness b) eqn:E; [eauto|]. rewrite overlay_lookup in Hb. unfold erase_user in Hb. rewrite map_lookup_imap, E in Hb.
    cbn in Hb. by destruct Hb. }
  destruct (existsb (another_owner b id) (map_to_list d)) eqn:Ex.
  - apply existsb_exists in Ex as ([k r] & Hk%list_elem_of_In%elem_of_map_to_list & Ho). destruct k as [| | |b' u'| | |], r as [| | |m|]; try done.
    cbn in Ho. to_prop. subst b'. left. exists u'. apply erase_keeps_owner; [done|]. by exists m.
  - assert (∀ u', owner_row (d !! KMember b u') → u' = id) as Hall.
    { intros u' (m & Hm & Hr & Ha). destruct (decide (u' = id)) as [|Hn]; [done|]. rewrite <- not_true_iff_false in Ex. destruct Ex.
      apply existsb_exists. exists (KMember b u', RMember m). split; [by apply list_elem_of_In, elem_of_map_to_list|]. cbn.
      by rewrite bool_decide_true, bool_decide_false, bool_decide_true, Ha. }
    right. left. pose proof (Hall u Hu) as ->. by split_and!.
Qed.

Lemma erase_business_in_order ids b d : in_order ids d →
  in_order ids (overlay (erase_business b d) d) ∧ invitations_go_on [] d (overlay (erase_business b d) d).
Proof.
  intros [H1 H2 H4]. unfold erase_business. set (w := map_imap _ d).
  assert (∀ k r, overlay w d !! k = Some r → d !! k = Some r) as Hsub.
  { intros k r. rewrite overlay_lookup. unfold w. rewrite map_lookup_imap. destruct (d !! k) as [r0|] eqn:E; [|done]. cbn.
    destruct k, r0; cbn; repeat (case_bool_decide; cbn); congruence. }
  split; [split|].
  - intros k r Hr. by apply H1, Hsub.
  - destruct H2 as (ro & Hro & Hsys & Hbz). exists ro. split; [|done]. rewrite overlay_lookup. unfold w. rewrite map_lookup_imap, Hro. cbn.
    by rewrite Hbz.
  - intros i [r Hr]. apply H4. eauto.
  - intros i inv Hi. right. exists inv. split; [by apply Hsub|apply descends_refl].
Qed.

Lemma erase_business_owned lost b d : kept_owned lost d → kept_owned lost (overlay (erase_business b d) d).
Proof.
  intros H3 b' [r Hr]. rewrite overlay_lookup in Hr. unfold erase_business in Hr. rewrite map_lookup_imap in Hr.
  destruct (d !! KBusiness b') as [r0|] eqn:E; [|done]. cbn in Hr. case_bool_decide as Hb; [done|].
  destruct (H3 b') as [(u & m & Hm & Hrole)|?]; [eauto| |by right]. left. exists u, m. split; [|done].
  rewrite overlay_lookup. unfold erase_business. rewrite map_lookup_imap, Hm. cbn. by rewrite bool_decide_false.
Qed.

Lemma revocation_ok u n d : typed d →
  ok_writes [] (λ _, True) (edit_invitations (λ i, bool_decide (in_created_by i = u) && open_invitation i) (revoke n) d) d.
Proof.
  intros Hd. rewrite <- (map_union_empty (edit_invitations _ _ _)). apply edit_ok; [done|apply ok_writes_empty|done..|].
  intros i _. apply revoke_descends.
Qed.

Lemma foreign_in_order ids d w : in_order ids d → foreign_writes d w → in_order ids (overlay w d) ∧ invitations_go_on [] d (overlay w d).
Proof.
  intros Hd Hw. destruct Hw as [id u Hu|u n|b bz Hb Hid|b].
  - by apply singleton_in_order.
  - assert (typed d) as Ht by by destruct Hd. split; [eapply commit_in_order; [done|apply list_subseteq_nil|by apply revocation_ok]|].
    eapply ok_writes_on; [done|by apply revocation_ok].
  - by apply singleton_in_order.
  - by apply erase_business_in_order.
Qed.

Lemma foreign_owned lost d w : typed d → kept_owned lost d → foreign_writes d w → kept_owned lost (overlay w d).
Proof.
  intros Ht Hd Hw. destruct Hw as [id u Hu|u n|b bz Hb Hid|b].
  - by apply singleton_owned.
  - eapply commit_owned; [done|by apply revocation_ok].
  - apply singleton_owned; [done|done|]. by intros b' [= <-].
  - by apply erase_business_owned.
Qed.
