(* ===== verification/TeamSafety.v ===== *)
(** * What a request holds, and what follows

    The stage of a process of TeamSystem.v: what it learnt and how far its transaction
    has come.  The invariant of the system: rows in order, every commit fair, and every
    stage true of its transaction.  [EnsureOwnerExistsAfter] locks the owners it counts,
    [MarkAcceptedInTx] the rows its creator's authority rests on: what they saw still
    holds when the transaction commits. *)

From S2P Require Import Prelude Json GoTime Types Users Prog Pg Isolation Authz TeamStore TeamService TeamSystem TeamOrder.
Local Open Scope go_scope.

Notation TeamTx := (Tx (K := Key) (V := Row)).
Notation TeamDb := (Db (K := Key) (V := Row)).

(** ** Stages *)

(** No transaction; one that has written nothing; one that has locked the members of an
    organization as [snapshot]; one that has inserted an organization; one that has
    changed members only; one whose invitation is marked; one ready to commit; one that
    is gone for sure; one whose commit was tried. *)
Inductive Phase :=
| NoTx
| Begun (t : N)
| Looked (t : N) (b : uuid) (snapshot : list snapshot_row)
| Founding (t : N) (b : uuid)
| Changed (t : N)
| Marked (t : N) (inv : Invitation) (user : uuid)
| Ready (t : N)
| Dead (t : N)
| Ended (t : N).

Definition phase_txn (ph : Phase) : option N :=
  match ph with
  | NoTx => None
  | Begun t | Looked t _ _ | Founding t _ | Changed t | Marked t _ _ | Ready t | Dead t | Ended t => Some t
  end.

(** Roles read that are not system roles, invitations read, ids drawn. *)
Record Stage := { sg_custom : list uuid; sg_seen : list Invitation; sg_drawn : list uuid; sg_phase : Phase }.

Definition at_phase (ph : Phase) (h : Stage) : Stage :=
  {| sg_custom := sg_custom h; sg_seen := sg_seen h; sg_drawn := sg_drawn h; sg_phase := ph |}.
Definition knows_custom (r : uuid) (h : Stage) : Stage :=
  {| sg_custom := r :: sg_custom h; sg_seen := sg_seen h; sg_drawn := sg_drawn h; sg_phase := sg_phase h |}.
Definition knows_invitation (i : Invitation) (h : Stage) : Stage :=
  {| sg_custom := sg_custom h; sg_seen := i :: sg_seen h; sg_drawn := sg_drawn h; sg_phase := sg_phase h |}.
Definition has_drawn (id : uuid) (h : Stage) : Stage :=
  {| sg_custom := sg_custom h; sg_seen := sg_seen h; sg_drawn := id :: sg_drawn h; sg_phase := sg_phase h |}.
Definition spent (ph : Phase) (h : Stage) : Stage :=
  {| sg_custom := sg_custom h; sg_seen := sg_seen h; sg_drawn := []; sg_phase := ph |}.

Definition idle : Stage := {| sg_custom := []; sg_seen := []; sg_drawn := []; sg_phase := NoTx |}.

(** After a statement of [t]: a failure other than of the connection has ended it. *)
Definition after {X} (t : N) (ph : Phase) (r : result DbError X) (next : X → Phase) : Phase :=
  match r with Ok x => next x | Err DbFailed => ph | Err _ => Dead t end.

(** What a statement in a transaction makes of a phase. *)
Definition inside {X} (q : Stmt X) (h : Stage) : result DbError X → Phase → Prop :=
  match sg_phase h with
  | Begun t =>
      match q in Stmt X return result DbError X → Phase → Prop with
      | LockMembers b => λ r ph, ph = after t (Begun t) r (Looked t b)
      | CountPending _ _ => λ r ph, ph = after t (Begun t) r (λ _, Begun t)
      | SelectState _ _ => λ r ph, ph = after t (Begun t) r (λ _, Begun t)
      | DetachInvitations _ => λ r ph, ph = after t (Begun t) r (λ _, Ready t)
      | InsertRole _ => λ r ph, ph = after t (Begun t) r (λ _, Ready t)
      | UpdateRole _ _ => λ r ph, ph = after t (Begun t) r (λ _, Ready t)
      | InsertBusiness b => λ r ph, ph = after t (Begun t) r (λ _, Founding t (bz_id b))
      | ReassignMembers _ old _ _ _ => λ r ph, old ∈ sg_custom h ∧ ph = after t (Begun t) r (λ _, Changed t)
      | InsertInvitation i => λ r ph, in_id i ∈ sg_drawn h ∧ ph = after t (Begun t) r (λ _, Ready t)
      | MarkAccepted id u _ => λ r ph, ∃ inv, inv ∈ sg_seen h ∧ in_id inv = id
          ∧ ph = after t (Begun t) r (λ n, if n =? 0 then Begun t else Marked t inv u)
      | _ => λ _ _, False
      end
  | Looked t b snapshot =>
      match q in Stmt X return result DbError X → Phase → Prop with
      | SetMemberRole b' u _ _ _ => λ r ph, b' = b ∧ (∃ u', u' ≠ u ∧ (u', ownerRoleID, false) ∈ snapshot)
          ∧ ph = after t (Looked t b snapshot) r (λ _, Changed t)
      | DeleteMember b' u => λ r ph, b' = b ∧ (∃ u', u' ≠ u ∧ (u', ownerRoleID, false) ∈ snapshot)
          ∧ ph = after t (Looked t b snapshot) r (λ _, Changed t)
      | _ => λ _ _, False
      end
  | Founding t b =>
      match q in Stmt X return result DbError X → Phase → Prop with
      | InsertMember m => λ r ph, mb_business m = b ∧ mb_role m = ownerRoleID ∧ active m = true
          ∧ ph = after t (Founding t b) r (λ _, Ready t)
      | _ => λ _ _, False
      end
  | Changed t =>
      match q in Stmt X return result DbError X → Phase → Prop with
      | RevokeByCreator _ _ _ => λ r ph, ph = after t (Changed t) r (λ _, Ready t)
      | DetachInvitations _ => λ r ph, ph = after t (Changed t) r (λ _, Ready t)
      | _ => λ _ _, False
      end
  | Marked t inv u =>
      match q in Stmt X return result DbError X → Phase → Prop with
      | InsertMember m => λ r ph, mb_business m = in_business inv ∧ mb_user m = u ∧ mb_role m = role_of inv ∧ active m = true
          ∧ ph = after t (Marked t inv u) r (λ _, Ready t)
      | _ => λ _ _, False
      end
  | Ready t =>
      match q in Stmt X return result DbError X → Phase → Prop with
      | DeleteRole _ => λ r ph, ph = after t (Ready t) r (λ _, Ready t)
      | _ => λ _ _, False
      end
  | _ => λ _ _, False
  end.

(** A statement on the pool. *)
Definition alone {X} (q : Stmt X) (h : Stage) : result DbError X → Stage → Prop :=
  match q in Stmt X return result DbError X → Stage → Prop with
  | SelectRole id => λ r h', h' = h ∨ ∃ ro, r = Ok (Some ro) ∧ ro_is_system ro = false ∧ h' = knows_custom id h
  | SelectInvitation _ => λ r h', h' = h ∨ ∃ inv, r = Ok (Some inv) ∧ h' = knows_invitation inv h
  | InsertBusiness _ | InsertRole _ | UpdateRole _ _ | DeleteRole _ | ReassignMembers _ _ _ _ _ | DetachInvitations _ | InsertMember _
  | SetMemberRole _ _ _ _ _ | DeleteMember _ _ | InsertInvitation _ | RevokeByCreator _ _ _ | MarkAccepted _ _ _ => λ _ _, False
  | _ => λ _ h', h' = h
  end.

Definition may_finish (ph : Phase) : Prop :=
  match ph with Begun _ | Changed _ | Ready _ | Dead _ => True | _ => False end.

Definition db_moves {B} (c : TxCall Stmt B) (h : Stage) : B → Stage → Prop :=
  match c in TxCall _ B return B → Stage → Prop with
  | StartC _ => λ r h', sg_phase h = NoTx ∧ h' = at_phase (match r with Ok t => Begun t | Err _ => NoTx end) h
  | RunC None q => alone q h
  | RunC (Some t) q => λ r h', phase_txn (sg_phase h) = Some t ∧ ∃ ph, inside q h r ph ∧ h' = at_phase ph h
  | FinishC t => λ r h', phase_txn (sg_phase h) = Some t ∧ may_finish (sg_phase h) ∧ h' = spent (if is_ok r then NoTx else Ended t) h
  | UndoC _ => λ _ h', h' = at_phase NoTx h
  end.

Definition moves {B} (c : TeamCall B) (h : Stage) : B → Stage → Prop :=
  match c in TeamCall B return B → Stage → Prop with
  | DbC c => db_moves c h
  | NewIDC => λ id h', h' = has_drawn id h
  | _ => λ _ h', h' = h
  end.

Definition spec B (c : TeamCall B) (h : Stage) (K : B → Stage → Prop) : Prop := ∀ b, ∃ h', moves c h b h' ∧ K b h'.

Lemma stage_spec_mono : monotone spec.
Proof. intros B c h K K' HK Hs b. destruct (Hs b) as (h' & Hm & Hk). eauto. Qed.

(** ** What the stages say *)

Notation locked_by x := (λ k, locks_key x k 1).

Definition fact (h : Stage) (x : TeamTx) (d : rows) : Prop :=
  match sg_phase h with
  | NoTx | Ended _ => True
  | Begun _ => tn_writes x = ∅
  | Looked _ b snapshot => tn_writes x = ∅ ∧ ∀ u role p, (u, role, p) ∈ snapshot →
      locks_key x (KMember b u) 1 ∧ ∃ m, d !! KMember b u = Some (RMember m) ∧ mb_role m = role ∧ active m = true
  | Founding _ b => d !! KBusiness b = None ∧ ∃ bz, bz_id bz = b ∧ tn_writes x = {[KBusiness b := Some (RBusiness bz)]}
  | Changed _ => ok_writes (sg_drawn h) (locked_by x) (tn_writes x) d ∧ ∀ i, tn_writes x !! KInvitation i = None
  | Marked _ inv u => ∃ inv0 n, d !! KInvitation (in_id inv) = Some (RInvitation inv0) ∧ descends inv inv0
      ∧ tn_writes x = {[KInvitation (in_id inv) := Some (RInvitation (accept u n inv0))]}
      ∧ pending_at n inv0 = true ∧ held_authority (locked_by x) inv0 d
  | Ready _ => ok_writes (sg_drawn h) (locked_by x) (tn_writes x) d
  | Dead _ => False
  end.

Record holds (p : TeamDb) (ids : list uuid) (h : Stage) : Prop := {
  ho_tx : ∀ t, phase_txn (sg_phase h) = Some t → (t < db_next p)%N ∧ ∀ x, db_open p !! t = Some x → fact h x (db_rows p);
  ho_custom : ∀ r, r ∈ sg_custom h → r ≠ ownerRoleID;
  ho_seen : ∀ inv, inv ∈ sg_seen h → in_id inv ∈ ids
    ∧ ∀ inv', db_rows p !! KInvitation (in_id inv) = Some (RInvitation inv') → descends inv inv';
  ho_drawn : ∀ i, i ∈ sg_drawn h → i ∈ ids ∧ db_rows p !! KInvitation i = None;
}.

Record strangers (hs : list Stage) : Prop := {
  st_apart : ∀ i j hi hj t, hs !! i = Some hi → hs !! j = Some hj → phase_txn (sg_phase hi) = Some t → phase_txn (sg_phase hj) = Some t → i = j;
  st_drawn : ∀ i j hi hj id, hs !! i = Some hi → hs !! j = Some hj → id ∈ sg_drawn hi → id ∈ sg_drawn hj → i = j;
  st_unseen : ∀ i j hi hj id inv, hs !! i = Some hi → hs !! j = Some hj → id ∈ sg_drawn hi → inv ∈ sg_seen hj → in_id inv ≠ id;
}.

Record safe (s : Store) (hs : list Stage) : Prop := {
  sa_db : db_ok (st_db s);
  sa_order : in_order (st_ids s) (db_rows (st_db s));
  sa_owned : kept_owned (λ b, orphaned b (st_log s)) (db_rows (st_db s));
  sa_erasing : ∀ id checked, (id, checked) ∈ st_erasing s → sole_owner id checked = false;
  sa_log : log_all fair_commit (st_log s);
  sa_holds : ∀ i h, hs !! i = Some h → holds (st_db s) (st_ids s) h;
  sa_strangers : strangers hs;
}.

(** ** Facts and the steps of others *)

Lemma written_locked (p : TeamDb) t x (k : Key) : tx_ok p t x → is_Some (tn_writes x !! k) → locks_key x k 1.
Proof.
  intros Hx [v Hv]. destruct (tx_owns _ _ _ Hx k v Hv) as (m & Hm & Hle). exists m. split; [done|].
  pose proof (write_mode_exclusive v). lia.
Qed.

Lemma stage_fact_local (p : TeamDb) t h x d d' : tx_ok p t x → same_locked x d d' → fact h x d → fact h x d'.
Proof.
  intros Hx Hd. assert (∀ k, is_Some (tn_writes x !! k) → d !! k = d' !! k) as Hw by (intros; by eapply Hd, written_locked).
  assert (∀ k, locks_key x k 1 ∨ is_Some (tn_writes x !! k) → d !! k = d' !! k) as Hk by (intros k [?|?]; auto).
  unfold fact. destruct (sg_phase h) as [|t'|t' b snap|t' b|t'|t' inv u|t'|t'|t']; try done.
  - intros [Hn Hs]. split; [done|]. intros u role pd Hin. destruct (Hs u role pd Hin) as (Hl & m & Hm & ?).
    split; [done|]. exists m. by rewrite <- Hd.
  - intros (Hb & bz & Hid & Hwr). split; [|eauto]. rewrite <- Hw; [done|]. rewrite Hwr, lookup_singleton_eq. eauto.
  - intros [Hok ?]. split; [|done]. by eapply ok_writes_local.
  - intros (inv0 & n & Hi & Hde & Hwr & Hp & Ha). exists inv0, n. rewrite <- Hw by (rewrite Hwr, lookup_singleton_eq; eauto).
    split_and!; try done. eapply held_authority_local; [|exact Ha]. auto.
  - intros Hok. by eapply ok_writes_local.
Qed.

(** Another process's step leaves what one holds. *)
Lemma holds_step p p' ids ids' news h : db_ok p → holds p ids h → (db_next p ≤ db_next p')%N → ids ⊆ ids' →
  (∀ t x, phase_txn (sg_phase h) = Some t → db_open p' !! t = Some x → db_open p !! t = Some x ∧ same_locked x (db_rows p) (db_rows p')) →
  typed (db_rows p') → invitations_go_on news (db_rows p) (db_rows p') → (∀ id, id ∈ news → id ∉ sg_drawn h) →
  (∀ inv, inv ∈ sg_seen h → in_id inv ∉ news) → holds p' ids' h.
Proof.
  intros Hok [H1 H2 H3 H4] Hn Hids Htx Hty Hgo Hd Hs. split.
  - intros t Ht. destruct (H1 t Ht) as [Hlt Hf]. split; [lia|]. intros x Hx. destruct (Htx t x Ht Hx) as [Hx0 Hsame].
    eapply stage_fact_local; [by apply Hok|done|by apply Hf].
  - done.
  - intros inv Hin. destruct (H3 inv Hin) as [Hi Hde]. split; [auto|]. intros inv' Hinv'.
    destruct (Hgo _ _ Hinv') as [[? _]|(inv0 & Hi0 & Hd0)]; [by destruct (Hs inv Hin)|].
    eapply descends_trans; [by apply Hde|done].
  - intros i Hin. destruct (H4 i Hin) as [Hi Hnone]. split; [auto|]. destruct (db_rows p' !! KInvitation i) as [r|] eqn:E; [|done].
    destruct (typed_invitation i _ r Hty E) as (inv & -> & _). destruct (Hgo i inv E) as [[Hnew _]|(inv0 & Hi0 & _)]; [|congruence].
    by destruct (Hd i Hnew).
Qed.

(** ** Facts and the statements of one's own *)

Section own.
Context {X : Type} (q : Stmt X) (id : uuid) (t : N) (x : TeamTx) (p : TeamDb) (ids : list uuid).
Hypothesis Hx : tx_ok p t x.
Hypothesis Hrows : in_order ids (db_rows p).

Notation d := (db_rows p).
Notation v := (sight x (db_rows p)).
Notation e := (attempt run q id x (db_rows p)).
Notation x' := (performed_by run q id x p).
Hypothesis Hsame : unchanged x (taken e) d.

Lemma taken_same k m : taken e !! k = Some m → 1 ≤ strength m → v !! k = d !! k.
Proof.
  intros Hk Hs. destruct Hsame as [Hl|Hu]; [by rewrite sight_fresh by by left|]. specialize (Hu k m Hk).
  apply orb_prop in Hu as [Hu|Hu]; [apply Nat.eqb_eq in Hu; lia|]. by apply bool_decide_eq_true in Hu.
Qed.

Lemma written_same k : is_Some (done_writes e !! k) → v !! k = d !! k.
Proof.
  intros [o Ho]. destruct (taken_writes _ k o Ho) as (m & Hm & Hle). eapply taken_same; [exact Hm|].
  pose proof (write_mode_exclusive o). lia.
Qed.

Lemma keeps_lock k n : locks_key x k n → locks_key x' k n.
Proof. apply performed_keeps. Qed.

Lemma takes_lock k m n : taken e !! k = Some m → n ≤ strength m → locks_key x' k n.
Proof. apply performed_takes. Qed.

Lemma asks_lock k m n : at_locks e !! k = Some m → n ≤ strength m → locks_key x' k n.
Proof. apply performed_asks. Qed.

Lemma asked_same k m : at_locks e !! k = Some m → 1 ≤ strength m → v !! k = d !! k.
Proof.
  intros Hk Hn. destruct (merge_locks_l (at_locks e) (write_mode <$> done_writes e) k m Hk) as (m' & Hm' & ?).
  eapply taken_same; [exact Hm'|lia].
Qed.

(** An authority read and locked holds of the rows as they are. *)
Lemma authority_same inv l : tn_writes x = ∅ → authority inv v = Some l → (∀ k m, l !! k = Some m → ∃ m', at_locks e !! k = Some m' ∧ 1 ≤ strength m') →
  held_authority (locked_by x') inv d.
Proof.
  intros Hw Hl Hk. exists l. split.
  - eapply authority_local; [exact Hl|]. intros k [m Hm]. destruct (Hk k m Hm) as (m' & ? & ?). by eapply asked_same.
  - intros k [m Hm]. destruct (Hk k m Hm) as (m' & ? & ?). by eapply asks_lock.
Qed.
End own.

(** *** Statement by statement *)

Lemma attempt_blank {X} (q : Stmt X) id (x : TeamTx) d : tn_writes x = ∅ →
  attempt run q id x d = run X q {| mo_now := tn_now x; mo_id := id |} d (sight x d).
Proof. intros Hw. unfold attempt. by rewrite Hw, !overlay_empty. Qed.

Lemma performed_writes {X} (q : Stmt X) id (x : TeamTx) p :
  tn_writes (performed_by run q id x p) = done_writes (attempt run q id x (db_rows p)) ∪ tn_writes x.
Proof. done. Qed.

Lemma lock_members_spec b d k m : at_locks (lock_members b d) !! k = Some m → m = ForUpdate.
Proof.
  cbn. set (l := omap _ _). intros Hk%elem_of_list_to_map_2. by apply list_elem_of_fmap in Hk as (s & [= _ ->] & _).
Qed.

Lemma lock_members_elem b d u role pd snap : at_out (lock_members b d) = Ok snap → (u, role, pd) ∈ snap →
  is_Some (at_locks (lock_members b d) !! KMember b u) ∧ ∃ m, d !! KMember b u = Some (RMember m) ∧ mb_role m = role ∧ active m = true.
Proof.
  cbn. set (l := omap _ _). intros [= <-] Hin. split.
  - apply not_eq_None_Some. intros Hn%not_elem_of_list_to_map_2. apply Hn. rewrite <- list_fmap_compose.
    apply list_elem_of_fmap. by exists (u, role, pd).
  - apply list_elem_of_omap in Hin as ([k r] & Hkr%elem_of_map_to_list & He). destruct k as [| | |b' u'| | |], r as [| | |m|]; try done.
    destruct (user_at u' d) as [usr|]; [|done]. destruct (bool_decide (b' = b) && active m) eqn:Eb; [|done]. to_prop. simplify_eq. by exists m.
Qed.

Section cases.
Context (id : uuid) (t : N) (x : TeamTx) (p : TeamDb) (ids : list uuid) (h : Stage).
Hypothesis Hx : tx_ok p t x.
Hypothesis Hrows : in_order ids (db_rows p).

Notation d := (db_rows p).
Notation v := (sight x (db_rows p)).
Notation drawn := (sg_drawn h).

Definition succeeds {X} (q : Stmt X) : Prop :=
  unchanged x (taken (attempt run q id x d)) d ∧ is_ok (at_out (attempt run q id x d)) = true.

(** The writes of a statement that succeeds. *)
Lemma done_ok {X} (q : Stmt X) : succeeds q → done_writes (attempt run q id x d) = at_writes (attempt run q id x d).
Proof. intros [_ Ho]. unfold done_writes. by destruct (at_out _). Qed.

Lemma fact_blank {X} (q : Stmt X) : tn_writes x = ∅ → at_writes (attempt run q id x d) = ∅ → tn_writes (performed_by run q id x p) = ∅.
Proof. intros Hw He. rewrite performed_writes, Hw, map_union_empty. unfold done_writes. by destruct (at_out _). Qed.

Lemma fact_lock b snap : tn_writes x = ∅ → succeeds (LockMembers b) → at_out (attempt run (LockMembers b) id x d) = Ok snap →
  fact (at_phase (Looked t b snap) h) (performed_by run (LockMembers b) id x p) d.
Proof.
  intros Hw [Hs _] Ho. split; [by apply fact_blank; [|rewrite attempt_blank by done]|]. intros u role pd Hin.
  assert (attempt run (LockMembers b) id x d = lock_members b v) as E by by apply attempt_blank. rewrite E in Ho.
  destruct (lock_members_elem b v u role pd snap Ho Hin) as [[m Hm] (mb & Hmb & ? & ?)].
  pose proof (lock_members_spec b v _ m Hm) as ->. rewrite <- E in Hm. split.
  - eapply asks_lock; [exact Hm|cbn; lia].
  - exists mb. split; [|done]. rewrite <- Hmb. symmetry. eapply asked_same; [exact Hs|exact Hm|cbn; lia].
Qed.

(** An edit of invitations, when none was written yet. *)
Lemma fact_edit {X} (q : Stmt X) pr f : ok_writes drawn (locked_by x) (tn_writes x) d → (∀ i, tn_writes x !! KInvitation i = None) →
  succeeds q → at_writes (attempt run q id x d) = edit_invitations pr f (overlay (tn_writes x) v) →
  (∀ i, pr i = true → descends i (f i) ∧ in_accepted_at (f i) = in_accepted_at i) →
  fact (at_phase (Ready t) h) (performed_by run q id x p) d.
Proof.
  intros Hok Hn Hq He Hf. unfold fact. cbn [at_phase sg_phase sg_drawn].
  rewrite performed_writes, done_ok, He by done. apply edit_ok; [by destruct Hrows|..].
  - eapply ok_writes_mono; [done| |exact Hok]. intros k. apply keeps_lock.
  - done.
  - intros i Hi. rewrite overlay_lookup, Hn. eapply written_same; [apply Hq|]. by rewrite done_ok, He by done.
  - done.
Qed.

Lemma locked_mono {X} (q : Stmt X) w : ok_writes drawn (locked_by x) w d → ok_writes drawn (locked_by (performed_by run q id x p)) w d.
Proof. apply ok_writes_mono; [done|]. intros k. apply keeps_lock. Qed.

Lemma owner_role_same r ro : v !! KRole r = Some (RRole ro) → d !! KRole r = v !! KRole r → ro_is_system ro = false → r ≠ ownerRoleID.
Proof.
  intros Hv Hd Hs ->. destruct Hrows as [_ (r0 & Hr0 & Hs0 & _) _ _]. congruence.
Qed.

(** A role made, changed or deleted. *)
Lemma fact_role {X} (q : Stmt X) r o ph : ok_writes drawn (locked_by x) (tn_writes x) d → succeeds q →
  at_writes (attempt run q id x d) = {[KRole r := o]} → r ≠ ownerRoleID → (∀ r', o = Some r' → row_fits (KRole r) r') → ph = Ready t →
  fact (at_phase ph h) (performed_by run q id x p) d.
Proof.
  intros Hok Hq He Hr Hf ->. unfold fact. cbn [at_phase sg_phase sg_drawn]. rewrite performed_writes, done_ok, He by done.
  apply role_ok; [by apply locked_mono|done|done].
Qed.

Lemma fact_kept {X} (q : Stmt X) : ok_writes drawn (locked_by x) (tn_writes x) d → at_writes (attempt run q id x d) = ∅ →
  fact (at_phase (Ready t) h) (performed_by run q id x p) d.
Proof.
  intros Hok He. unfold fact. cbn [at_phase sg_phase sg_drawn]. rewrite performed_writes.
  assert (done_writes (attempt run q id x d) = ∅) as -> by (unfold done_writes; by destruct (at_out _)).
  rewrite map_empty_union. by apply locked_mono.
Qed.

Hypothesis Hcustom : ∀ r, r ∈ sg_custom h → r ≠ ownerRoleID.
Hypothesis Hseen : ∀ inv, inv ∈ sg_seen h → ∀ inv', d !! KInvitation (in_id inv) = Some (RInvitation inv') → descends inv inv'.

Ltac blank Hw := rewrite attempt_blank in * by exact Hw; cbn [run] in *.

(** A row read and locked is there. *)
Lemma read_same {X} (q : Stmt X) k o r : succeeds q → tn_writes x = ∅ → at_writes (attempt run q id x d) = {[k := o]} → v !! k = Some r → d !! k = Some r.
Proof.
  intros Hq Hw He Hk. rewrite <- Hk. symmetry. eapply written_same; [apply Hq|]. rewrite done_ok, He, lookup_singleton_eq by done. eauto.
Qed.

(** A member changed or removed, another owner being locked. *)
Lemma fact_member {X} (q : Stmt X) b u o m (snap : list snapshot_row) : tn_writes x = ∅ → succeeds q → at_writes (attempt run q id x d) = {[KMember b u := o]} →
  v !! KMember b u = Some (RMember m) → (∀ r, o = Some r → row_fits (KMember b u) r) →
  (∀ u role pd, (u, role, pd) ∈ snap → locks_key x (KMember b u) 1 ∧ ∃ m, d !! KMember b u = Some (RMember m) ∧ mb_role m = role ∧ active m = true) →
  (∃ u', u' ≠ u ∧ (u', ownerRoleID, false) ∈ snap) → fact (at_phase (Changed t) h) (performed_by run q id x p) d.
Proof.
  intros Hw Hq He Hm Hf Hsnap (u' & Hn & Hin). destruct (Hsnap u' _ _ Hin) as (Hl & m' & Hm' & Hr & Ha).
  unfold fact. cbn [at_phase sg_phase sg_drawn]. rewrite performed_writes, done_ok, He, Hw, map_union_empty by done. split; [|intros i; rewrite map_union_empty; by apply lookup_singleton_ne].
  eapply member_ok; [by eapply read_same|done|]. intros _. exists u'. split; [done|]. split; [by apply keeps_lock|]. by exists m'.
Qed.

Lemma fact_changed_none {X} (q : Stmt X) : tn_writes x = ∅ → at_writes (attempt run q id x d) = ∅ →
  fact (at_phase (Changed t) h) (performed_by run q id x p) d.
Proof.
  intros Hw He. unfold fact. cbn [at_phase sg_phase sg_drawn]. rewrite fact_blank by done.
  split; [apply ok_writes_empty|]. intros i. by rewrite lookup_empty.
Qed.

Lemma inside_looked {X} (q : Stmt X) b snap r ph : sg_phase h = Looked t b snap → fact h x d → inside q h r ph → succeeds q →
  at_out (attempt run q id x d) = r → fact (at_phase ph h) (performed_by run q id x p) d.
Proof.
  intros Hph Hf Hi Hq Hr. unfold inside, fact in *. rewrite Hph in *. destruct Hf as [Hw Hsnap]. pose proof Hq as [_ Hok].
  destruct q as [| | | | | | | | | | | | | | | | | |b' u role at_ actor|b' u| | | | | | | | | | | | |]; try done; destruct Hi as (-> & Hex & ->); rewrite Hr in Hok; destruct r as [n|]; try done; cbn [after].
  - destruct (member_at b u v) as [m|] eqn:Em.
    + pose proof Em as Em'. apply member_at_Some in Em'.
      assert (at_writes (attempt run (SetMemberRole b u role at_ actor) id x d) = {[KMember b u := Some (RMember (with_role role at_ (Some actor) m))]}) as He.
      { rewrite attempt_blank in * by done. cbn [run] in *. unfold set_member_role in *. rewrite Em in *. by destruct (present _ _). }
      eapply (fact_member _ b u _ m snap); try done. intros r [= <-].
      pose proof (read_same _ _ _ _ Hq Hw He Em') as Hd. destruct (typed_member _ _ _ _ (or_typed _ _ Hrows) Hd) as (? & [= <-] & ? & ?). done.
    + apply fact_changed_none; [done|]. rewrite attempt_blank by done. cbn [run]. unfold set_member_role. by rewrite Em.
  - destruct (member_at b u v) as [m|] eqn:Em.
    + pose proof Em as Em'. apply member_at_Some in Em'.
      assert (at_writes (attempt run (DeleteMember b u) id x d) = {[KMember b u := None]}) as He.
      { rewrite attempt_blank by done. cbn [run]. unfold delete_member. by rewrite Em. }
      by eapply (fact_member _ b u _ m snap).
    + apply fact_changed_none; [done|]. rewrite attempt_blank by done. cbn [run]. unfold delete_member. by rewrite Em.
Qed.

Lemma fact_reassign b old new at_ actor : tn_writes x = ∅ → succeeds (ReassignMembers b old new at_ actor) → old ∈ sg_custom h →
  fact (at_phase (Changed t) h) (performed_by run (ReassignMembers b old new at_ actor) id x p) d.
Proof.
  intros Hw Hq Hold. pose proof Hq as [_ Hok]. pose proof (done_ok _ Hq) as Hd. set (e := attempt run _ id x d) in *.
  assert (e = reassign_members b old new at_ actor d v) as E by by apply attempt_blank.
  unfold reassign_members in E. set (hit := map_imap _ _) in E. set (users := omap _ _) in E. clearbody users.
  destruct users as [|u us].
  { apply fact_changed_none; [done|]. fold e. by rewrite E. }
  destruct (present _ _); [|by rewrite E in Hok]. assert (at_writes e = hit) as He by by rewrite E.
  destruct (reassign_ok (sg_drawn h) (locked_by (performed_by run (ReassignMembers b old new at_ actor) id x p)) b old new at_ actor v d
    (or_typed _ _ Hrows) (Hcustom _ Hold)) as [H1 H2].
  { intros k Hk. eapply written_same; [apply Hq|]. fold e. by rewrite Hd, He. }
  unfold fact. cbn [at_phase sg_phase sg_drawn]. rewrite performed_writes, Hw. fold e. rewrite Hd, He, map_union_empty.
  split; [done|]. intros i. rewrite map_union_empty. apply H2.
Qed.

Lemma fact_insert_business bz : tn_writes x = ∅ → succeeds (InsertBusiness bz) →
  fact (at_phase (Founding t (bz_id bz)) h) (performed_by run (InsertBusiness bz) id x p) d.
Proof.
  intros Hw Hq. pose proof Hq as [_ Hok]. pose proof (done_ok _ Hq) as Hd. rewrite attempt_blank in Hd, Hok by done. cbn [run] in Hd, Hok.
  case_bool_decide as Hb; [done|]. unfold fact. cbn [at_phase sg_phase]. split; [by apply eq_None_not_Some|]. exists bz.
  split; [done|]. rewrite performed_writes, Hw, map_union_empty, attempt_blank by done. cbn [run]. by rewrite bool_decide_false.
Qed.

Lemma fact_insert_role r : tn_writes x = ∅ → succeeds (InsertRole r) → fact (at_phase (Ready t) h) (performed_by run (InsertRole r) id x p) d.
Proof.
  intros Hw Hq. pose proof Hq as [_ Hok]. rewrite attempt_blank in Hok by done. cbn [run] in Hok. unfold insert_role in Hok.
  destruct (bool_decide (is_Some (d !! KRole (ro_id r)))) eqn:En; [done|]. destruct (name_taken r d) eqn:Et; [done|]. cbn [orb] in Hok.
  destruct (present _ _) eqn:Ep; [|done]. apply bool_decide_eq_false in En.
  eapply (fact_role (InsertRole r) (ro_id r) (Some (RRole r))); [|exact Hq|..|done].
  - rewrite Hw. apply ok_writes_empty.
  - rewrite attempt_blank by done. cbn [run]. unfold insert_role. by rewrite bool_decide_false, Et, Ep by done.
  - intros E. apply En. destruct Hrows as [_ (r0 & Hr0 & _) _ _]. rewrite E. eauto.
  - by intros r' [= <-].
Qed.

Lemma fact_update_role r at_ : tn_writes x = ∅ → succeeds (UpdateRole r at_) → fact (at_phase (Ready t) h) (performed_by run (UpdateRole r at_) id x p) d.
Proof.
  intros Hw Hq. pose proof Hq as [_ Hok]. assert (ok_writes (sg_drawn h) (locked_by x) (tn_writes x) d) as Hx0 by (rewrite Hw; apply ok_writes_empty).
  rewrite attempt_blank in Hok by done. cbn [run] in Hok. unfold update_role in Hok. destruct (role_at (ro_id r) v) as [ro|] eqn:Er.
  2: { apply fact_kept; [done|]. rewrite attempt_blank by done. cbn [run]. unfold update_role. by rewrite Er. }
  destruct (ro_is_system ro) eqn:Es.
  { apply fact_kept; [done|]. rewrite attempt_blank by done. cbn [run]. unfold update_role. by rewrite Er, Es. }
  destruct (name_taken _ _) eqn:Et; [done|]. destruct (present _ _) eqn:Ep; [|done]. apply role_at_Some in Er as Er'.
  assert (at_writes (attempt run (UpdateRole r at_) id x d) = {[KRole (ro_id r) := Some (RRole (with_grant r at_ ro))]}) as He.
  { rewrite attempt_blank by done. cbn [run]. unfold update_role. by rewrite Er, Es, Et, Ep. }
  pose proof (read_same _ _ _ _ Hq Hw He Er') as Hd.
  eapply (fact_role (UpdateRole r at_) (ro_id r)); [exact Hx0|exact Hq|exact He|..|done].
  - eapply owner_role_same; [exact Er'|congruence|done].
  - intros r' [= <-]. destruct (typed_role _ _ _ (or_typed _ _ Hrows) Hd) as (? & [= <-] & ?). done.
Qed.

Lemma fact_invite i : tn_writes x = ∅ → succeeds (InsertInvitation i) → in_id i ∈ sg_drawn h →
  fact (at_phase (Ready t) h) (performed_by run (InsertInvitation i) id x p) d.
Proof.
  intros Hw Hq Hi. pose proof Hq as [_ Hok]. rewrite attempt_blank in Hok by done. cbn [run] in Hok. unfold insert_invitation in Hok.
  destruct (bool_decide (is_Some (d !! KInvitation (in_id i)))) eqn:En; [done|]. destruct (existsb _ _) eqn:Et; [done|]. cbn [orb] in Hok.
  destruct (present _ _) eqn:Ep; [|done]. apply bool_decide_eq_false in En.
  unfold fact. cbn [at_phase sg_phase sg_drawn]. rewrite performed_writes, done_ok, Hw, map_union_empty, attempt_blank by done. cbn [run].
  unfold insert_invitation. rewrite bool_decide_false, Et by done. cbn [orb]. rewrite Ep. cbn [changes at_writes].
  apply invite_ok; [by apply eq_None_not_Some|done|done].
Qed.

Lemma fact_mark inv u n k : tn_writes x = ∅ → succeeds (MarkAccepted (in_id inv) u n) → inv ∈ sg_seen h →
  at_out (attempt run (MarkAccepted (in_id inv) u n) id x d) = Ok k →
  fact (at_phase (if k =? 0 then Begun t else Marked t inv u) h) (performed_by run (MarkAccepted (in_id inv) u n) id x p) d.
Proof.
  intros Hw Hq Hi Hk. pose proof Hq as [Hs _]. set (e := attempt run _ id x d) in *.
  assert (e = mark_accepted (in_id inv) u n d v) as E by by apply attempt_blank.
  assert (at_writes e = ∅ → at_out e = Ok 0 → fact (at_phase (if k =? 0 then Begun t else Marked t inv u) h)
    (performed_by run (MarkAccepted (in_id inv) u n) id x p) d) as Hnone.
  { intros He Ho. assert (k = 0) as -> by congruence. by apply fact_blank. }
  unfold mark_accepted in E. destruct (invitation_at (in_id inv) v) as [inv0|] eqn:Ei; [|by apply Hnone; rewrite E].
  destruct (pending_at n inv0) eqn:Ep; [|by apply Hnone; rewrite E]. destruct (authority inv0 v) as [l|] eqn:Ea; [|by apply Hnone; rewrite E].
  destruct (present _ _); [|by rewrite E in Hk]. assert (k = 1) as -> by (rewrite E in Hk; by injection Hk). clear Hnone.
  apply invitation_at_Some in Ei. assert (at_writes e = {[KInvitation (in_id inv) := Some (RInvitation (accept u n inv0))]}) as He by by rewrite E.
  pose proof (read_same _ _ _ _ Hq Hw He Ei) as Hd. unfold fact. cbn [at_phase sg_phase Nat.eqb]. exists inv0, n.
  rewrite performed_writes, done_ok, Hw, map_union_empty by done. fold e. split_and!; try done; [by apply Hseen|].
  eapply authority_same; [exact Hs|done|exact Ea|]. intros k m Hm. fold e. rewrite E. cbn [changes at_locks].
  destruct (merge_locks_l l (key_shares [KUser u]) k m Hm) as (m' & Hm' & Hle). exists m'. split; [done|].
  unfold authority in Ea. repeat (case_match; try done). injection Ea as <-.
  assert (m = Share) as ->; [|cbn in Hle; lia].
  repeat (apply lookup_insert_Some in Hm as [[_ <-]|[_ Hm]]; [done|]). by apply lookup_singleton_Some in Hm as [_ <-].
Qed.

(** What an insertion of a member that succeeds says. *)
Lemma insert_member_ok m : succeeds (InsertMember m) →
  overlay (tn_writes x) d !! KMember (mb_business m) (mb_user m) = None
  ∧ at_writes (attempt run (InsertMember m) id x d) = {[KMember (mb_business m) (mb_user m) := Some (RMember m)]}.
Proof.
  intros [_ Hok]. unfold attempt in *. cbn [run] in *. unfold insert_member in *.
  case_bool_decide as Hn; [done|]. destruct (_ && _); [|done]. split; [by apply eq_None_not_Some|done].
Qed.

Lemma inside_founding m b : sg_phase h = Founding t b → fact h x d → succeeds (InsertMember m) → mb_business m = b →
  mb_role m = ownerRoleID → active m = true → fact (at_phase (Ready t) h) (performed_by run (InsertMember m) id x p) d.
Proof.
  intros Hph Hf Hq Hb Hr Ha. unfold fact in *. rewrite Hph in Hf. destruct Hf as (Hn & bz & Hid & Hw).
  destruct (insert_member_ok m Hq) as [Hnone He]. cbn [at_phase sg_phase sg_drawn]. rewrite performed_writes, done_ok, He, Hw by done.
  rewrite overlay_outside in Hnone by (rewrite Hw, dom_singleton_L; set_solver). rewrite Hb in *. by apply found_ok.
Qed.

Lemma inside_marked m inv u : sg_phase h = Marked t inv u → fact h x d → succeeds (InsertMember m) → mb_business m = in_business inv →
  mb_user m = u → mb_role m = role_of inv → active m = true → fact (at_phase (Ready t) h) (performed_by run (InsertMember m) id x p) d.
Proof.
  intros Hph Hf Hq Hb Hu Hr Ha. unfold fact in *. rewrite Hph in Hf. destruct Hf as (inv0 & n & Hi & [E1 E2 E3 E4 _ _] & Hw & Hp & Hau).
  destruct (insert_member_ok m Hq) as [Hnone He]. cbn [at_phase sg_phase sg_drawn]. rewrite performed_writes, done_ok, He, Hw by done.
  rewrite overlay_outside in Hnone by (rewrite Hw, dom_singleton_L; set_solver). rewrite Hb, Hu, <- E2 in *.
  apply join_ok; try done.
  - eapply held_authority_mono; [|exact Hau]. intros k. apply keeps_lock.
  - destruct Hau as (l & Hl & _). unfold authority in Hl. destruct (member_at _ _ _); [|done]. destruct (in_role inv0) as [r|]; [|done].
    destruct E4 as [E4|E4]; [|done]. unfold role_of in Hr. rewrite <- E4 in Hr. by rewrite Hr.
Qed.

Lemma inside_ready r : sg_phase h = Ready t → fact h x d → succeeds (DeleteRole r) →
  fact (at_phase (Ready t) h) (performed_by run (DeleteRole r) id x p) d.
Proof.
  intros Hph Hf Hq. unfold fact in Hf. rewrite Hph in Hf. pose proof Hq as [_ Hok]. unfold attempt in Hok. cbn [run] in Hok. unfold delete_role in Hok.
  destruct (role_at r (overlay (tn_writes x) v)) as [ro|] eqn:Er.
  2: { apply fact_kept; [done|]. unfold attempt. cbn [run]. unfold delete_role. by rewrite Er. }
  destruct (ro_is_system ro) eqn:Es.
  { apply fact_kept; [done|]. unfold attempt. cbn [run]. unfold delete_role. by rewrite Er, Es. }
  destruct (role_referenced _ _) eqn:Ef; [done|].
  assert (at_writes (attempt run (DeleteRole r) id x d) = {[KRole r := None]}) as He.
  { unfold attempt. cbn [run]. unfold delete_role. by rewrite Er, Es, Ef. }
  apply (fact_role (DeleteRole r) r None); [exact Hf|exact Hq|exact He| |done|done].
  intros ->. apply role_at_Some in Er. rewrite overlay_lookup, (ow_role _ _ _ _ Hf) in Er.
  assert (v !! KRole ownerRoleID = d !! KRole ownerRoleID) as E.
  { eapply written_same; [apply Hq|]. rewrite done_ok, He, lookup_singleton_eq by done. eauto. }
  destruct Hrows as [_ (r0 & Hr0 & Hs0 & _) _ _]. congruence.
Qed.

(** A statement that succeeds leads to the phase its answer calls for. *)
Lemma inside_fact {X} (q : Stmt X) r ph : phase_txn (sg_phase h) = Some t → fact h x d → inside q h r ph → succeeds q →
  at_out (attempt run q id x d) = r → fact (at_phase ph h) (performed_by run q id x p) d.
Proof.
  intros Ht Hf Hi Hq Hr. pose proof Hq as [_ Hok]. rewrite Hr in Hok.
  destruct (sg_phase h) as [|t'|t' b snap|t' b|t'|t' inv u|t'|t'|t'] eqn:Hph; try done; try injection Ht as ->.
  - unfold inside in Hi. unfold fact in Hf. rewrite Hph in Hi, Hf.
    assert (ok_writes (sg_drawn h) (locked_by x) (tn_writes x) d) as Hx0 by (rewrite Hf; apply ok_writes_empty).
    assert (∀ i, tn_writes x !! KInvitation i = None) as Hn0 by (intros i; by rewrite Hf, lookup_empty).
    destruct r as [a|]; [|done]. destruct q; try done; cbn [after] in Hi.
    + subst ph. by apply fact_insert_business.
    + subst ph. by apply fact_insert_role.
    + subst ph. by apply fact_update_role.
    + destruct Hi as [? ->]. by apply fact_reassign.
    + subst ph. eapply (fact_edit _ _ detach); [exact Hx0|exact Hn0|exact Hq|reflexivity|]. intros i _. apply detach_descends.
    + subst ph. by apply fact_lock.
    + destruct Hi as [? ->]. by apply fact_invite.
    + subst ph. apply fact_blank; [done|]. by rewrite attempt_blank.
    + destruct Hi as (inv & Hin & <- & ->). by apply fact_mark.
    + subst ph. apply fact_blank; [done|]. by rewrite attempt_blank.
  - by eapply inside_looked.
  - unfold inside in Hi. rewrite Hph in Hi. destruct r as [a|]; [|done]. destruct q; try done. destruct Hi as (? & ? & ? & ->).
    by eapply inside_founding.
  - unfold inside in Hi. rewrite Hph in Hi. unfold fact in Hf. rewrite Hph in Hf. destruct Hf as [Hx0 Hn0]. destruct r as [a|]; [|done]. destruct q; try done; subst ph.
    + eapply (fact_edit _ _ detach); [exact Hx0|exact Hn0|exact Hq|reflexivity|]. intros i _. apply detach_descends.
    + eapply (fact_edit _ _ (revoke now)); [exact Hx0|exact Hn0|exact Hq|reflexivity|]. intros i _. apply revoke_descends.
  - unfold inside in Hi. rewrite Hph in Hi. destruct r as [a|]; [|done]. destruct q; try done. destruct Hi as (? & ? & ? & ? & ->).
    by eapply inside_marked.
  - unfold inside in Hi. rewrite Hph in Hi. destruct r as [a|]; [|done]. destruct q; try done; subst ph. by apply inside_ready.
  - unfold fact in Hf. by rewrite Hph in Hf.
  - unfold inside in Hi. by rewrite Hph in Hi.
Qed.
End cases.
