(* ===== verification/TeamInvariant.v ===== *)
(** * The invariant of teams

    Every call of a process keeps its stage true, the rows in order and every commit
    fair; so does whatever else happens to the database. *)

From S2P Require Import Prelude Json GoTime Types Users Prog Pg Isolation Authz TeamStore TeamService TeamSystem TeamOrder TeamSafety.
Local Open Scope go_scope.

(** ** Statements on the pool *)

Lemma change_ok news L i inv inv' d : d !! KInvitation i = Some (RInvitation inv) → in_id inv' = i → descends inv inv' →
  in_accepted_at inv' = in_accepted_at inv → ok_writes news L {[KInvitation i := Some (RInvitation inv')]} d.
Proof.
  intros Hi Hid Hd Ha. split.
  - by intros k r [<- [= <-]]%lookup_singleton_Some.
  - by intros b u v [? _]%lookup_singleton_Some.
  - by intros b u m [? _]%lookup_singleton_Some.
  - by intros b v [? _]%lookup_singleton_Some.
  - by apply lookup_singleton_ne.
  - intros j v [[= <-] <-]%lookup_singleton_Some. eexists. split; [done|]. right. eauto 6.
Qed.

Lemma columns_ok L id f d : (∀ b, bz_id (f b) = bz_id b) → typed d → ok_writes [] L (done_writes (update_business id f d)) d.
Proof.
  intros Hf Hd. unfold update_business. destruct (business_at id d) as [b|] eqn:Eb; [|apply ok_writes_empty].
  case_bool_decide; [apply ok_writes_empty|]. apply business_at_Some in Eb. apply business_ok; [eauto|]. rewrite Hf. by apply (Hd _ _ Eb).
Qed.

Lemma alone_ok {X} (q : Stmt X) h r h' m ids d : in_order ids d → alone q h r h' →
  ok_writes [] (λ _, True) (done_writes (run X q m d d)) d.
Proof.
  intros [Hd _ _] Ha. destruct q; try done; try apply ok_writes_empty.
  - by apply columns_ok.
  - by apply columns_ok.
  - cbn [run]. unfold revoke_invitation. destruct (invitation_at id d) as [i|] eqn:Ei; [|apply ok_writes_empty].
    destruct (_ && _); [|apply ok_writes_empty]. apply invitation_at_Some in Ei.
    eapply change_ok; [exact Ei|by apply (Hd _ _ Ei)|apply revoke_descends..].
Qed.

(** What is learnt on the pool is so. *)
Inductive learns (d : rows) (h : Stage) : Stage → Prop :=
| learns_nothing : learns d h h
| learns_role r : r ≠ ownerRoleID → learns d h (knows_custom r h)
| learns_invitation inv : d !! KInvitation (in_id inv) = Some (RInvitation inv) → learns d h (knows_invitation inv h).

Lemma alone_learns {X} (q : Stmt X) h r h' m ids d : in_order ids d → alone q h r h' →
  r = at_out (run X q m d d) ∨ r = Err DbFailed → learns d h h'.
Proof.
  intros [Hd Hs _] Ha Hr. destruct q; cbn in Ha; try done; try (subst h'; constructor).
  - destruct Ha as [->|(ro & -> & Hsys & ->)]; [constructor|]. destruct Hr as [[= Hr]|]; [|done]. symmetry in Hr. apply role_at_Some in Hr.
    constructor. intros ->. destruct Hs as (r0 & Hr0 & Hs0 & _). congruence.
  - destruct Ha as [->|(inv & -> & ->)]; [constructor|]. destruct Hr as [[= Hr]|]; [|done]. symmetry in Hr.
    apply head_Some_elem_of, elem_of_filterb in Hr as [_ Hr]. unfold invitations in Hr.
    apply list_elem_of_omap in Hr as ([k row] & Hk%elem_of_map_to_list & He). destruct row; cbn in He; try done. injection He as ->.
    constructor. pose proof (Hd _ _ Hk) as Hf. destruct k; try done. cbn in Hf. by subst.
Qed.

(** ** Stages and phases *)

Lemma at_phase_self h : at_phase (sg_phase h) h = h.
Proof. by destruct h. Qed.

Lemma inside_same {X} (q : Stmt X) h ph : inside q h (Err DbFailed) ph → ph = sg_phase h.
Proof.
  unfold inside. destruct (sg_phase h); try done; destruct q; try done; cbn [after]; naive_solver.
Qed.

Lemma after_txn {X} t ph (r : result DbError X) next : phase_txn ph = Some t → (∀ x, phase_txn (next x) = Some t) → phase_txn (after t ph r next) = Some t.
Proof. intros Hp Hn. destruct r as [x|[]]; cbn; auto. Qed.

Lemma inside_same_txn {X} (q : Stmt X) h r ph t : phase_txn (sg_phase h) = Some t → inside q h r ph → phase_txn ph = Some t.
Proof.
  unfold inside. intros Ht. destruct (sg_phase h); try done; injection Ht as ->; destruct q; try done; intros Hi;
    repeat match goal with H : _ ∧ _ |- _ => destruct H | H : ∃ _, _ |- _ => destruct H end; subst ph; apply after_txn; try done.
  intros n. by destruct (n =? 0).
Qed.

Lemma inside_ends {X} (q : Stmt X) h r ph : inside q h r ph → is_ok r = false → ph = sg_phase h ∨ r ≠ Err DbFailed.
Proof. intros Hi Hr. destruct r as [|[]]; [done|by right..|]. left. by eapply inside_same. Qed.

Lemma holds_phase p ids ph h : holds p ids (at_phase NoTx h) →
  (∀ t, phase_txn ph = Some t → (t < db_next p)%N ∧ ∀ x, db_open p !! t = Some x → fact (at_phase ph h) x (db_rows p)) →
  holds p ids (at_phase ph h).
Proof. intros [_ H2 H3 H4] Hph. by split. Qed.

Lemma holds_quiet p ids h : holds p ids h → holds p ids (at_phase NoTx h).
Proof. intros [_ H2 H3 H4]. by split. Qed.

Lemma holds_learns p ids h h' : in_order ids (db_rows p) → learns (db_rows p) h h' → holds p ids h → holds p ids h'.
Proof.
  intros [_ _ Hi] Hl [H1 H2 H3 H4]. destruct Hl as [|r Hr|inv Hinv]; split; try done; cbn.
  - intros r' [->|?]%elem_of_cons; auto.
  - intros inv' [->|?]%elem_of_cons; [|auto]. split; [by apply Hi|]. intros inv1. rewrite Hinv. intros [= ->]. apply descends_refl.
Qed.

(** ** One process's own call *)

Definition news_of {B} (c : TxCall Stmt B) (h : Stage) : list uuid := match c with FinishC _ => sg_drawn h | _ => [] end.

Lemma fact_may_finish h x d : may_finish (sg_phase h) → fact h x d → ok_writes (sg_drawn h) (locked_by x) (tn_writes x) d.
Proof.
  unfold fact. destruct (sg_phase h); try done; cbn; intros _.
  - intros ->. apply ok_writes_empty.
  - by intros [? _].
Qed.

Lemma db_writes {B} (c : TxCall Stmt B) p ids h r h' now p' : in_order ids (db_rows p) → holds p ids h →
  db_moves c h r h' → iso_step run now c p r p' →
  ∃ w L, ok_writes (news_of c h) L w (db_rows p) ∧ db_rows p' = overlay w (db_rows p).
Proof.
  intros Hd Hh Hm Hs. destruct (iso_step_rows run now c p r p' Hs) as [-> |Hp].
  { exists ∅, (λ _, True). rewrite overlay_empty. split; [apply ok_writes_empty|done]. }
  destruct c as [l|X [t|] q|t|t]; try done; cbn in Hp, Hm.
  - destruct Hp as (id & _ & ->). eexists _, (λ _, True). split; [by eapply alone_ok|done].
  - destruct Hp as (x & Hx & _ & ->). destruct Hm as (Ht & Hf & _). eexists _, _. split; [|done].
    apply fact_may_finish; [done|]. by apply (ho_tx _ _ _ Hh t Ht).
Qed.

Lemma db_entries_fair {B} (c : TxCall Stmt B) now p p' news L w : ok_writes news L w (db_rows p) → db_rows p' = overlay w (db_rows p) →
  log_all fair_commit (db_entries c now p p').
Proof.
  intros Hw Hr. assert (fair_commit (ECommit now (db_rows p) (db_rows p'))) as Hf by (rewrite Hr; by eapply commit_fair).
  by destruct c as [|? []| |].
Qed.

Lemma next_grows now {B} (c : TxCall Stmt B) (p : TeamDb) r p' : iso_step run now c p r p' → (db_next p ≤ db_next p')%N.
Proof.
  destruct c as [l|X [t|] q|t|t]; cbn.
  - intros [[_ ->]|[_ ->]]; cbn; lia.
  - intros [(x & id & _ & _ & _ & _ & ->)|[_ [->| ->]]]; [|done..]. by destruct (is_ok r).
  - by intros [(id & _ & -> & _)|[_ ->]].
  - by intros [(x & _ & _ & ->)|[_ [->| ->]]].
  - by intros ->.
Qed.

(** A stage whose transaction the call is not of. *)
Lemma db_frame {B} (c : TxCall Stmt B) now p r p' ids news h : db_ok p → holds p ids h → iso_step run now c p r p' →
  (∀ t, phase_txn (sg_phase h) = Some t → tx_call c ≠ Some t ∨ db_open p' !! t = None) →
  in_order ids (db_rows p') → invitations_go_on news (db_rows p) (db_rows p') → (∀ id, id ∈ news → id ∉ sg_drawn h) →
  (∀ inv, inv ∈ sg_seen h → in_id inv ∉ news) → holds p' ids h.
Proof.
  intros Hok Hh Hs Hc [Hty _ _] Hgo Hd Hu. eapply holds_step; [exact Hok|exact Hh|by eapply next_grows|done| |done|exact Hgo|done|done].
  intros t x Ht Hx. destruct (ho_tx _ _ _ Hh t Ht) as [Hlt _]. destruct (Hc t Ht) as [Hn|]; [|congruence].
  pose proof (iso_back run now c p r p' t x Hs Hn Hlt Hx) as Hx0.
  by destruct (iso_frame run now c p r p' t x Hok Hs Hn Hx0).
Qed.

Lemma db_own {B} (c : TxCall Stmt B) now p r p' ids h h' : db_ok p → in_order ids (db_rows p) → in_order ids (db_rows p') → holds p ids h →
  db_moves c h r h' → iso_step run now c p r p' → invitations_go_on (news_of c h) (db_rows p) (db_rows p') →
  (∀ inv, inv ∈ sg_seen h → in_id inv ∉ sg_drawn h) → holds p' ids h'.
Proof.
  intros Hok Hd Hd' Hh Hm Hs Hgo Hu.
  assert (∀ h1, holds p ids h1 → phase_txn (sg_phase h1) = None → sg_seen h1 = sg_seen h → news_of c h = [] ∨ sg_drawn h1 = [] → holds p' ids h1) as Hq.
  { intros h1 H1 Hn Hs1 Hnews. eapply db_frame; [exact Hok|exact H1|exact Hs|congruence|done|exact Hgo| |].
    - intros id Hid. destruct Hnews as [E|Hn0]; [rewrite E in Hid; by apply elem_of_nil in Hid|rewrite Hn0; apply not_elem_of_nil].
    - rewrite Hs1. intros inv Hinv Hin. destruct c; cbn in Hin; first [by apply elem_of_nil in Hin|by eapply (Hu inv)]. }
  pose proof (holds_quiet _ _ _ Hh) as Hh0.
  destruct c as [l|X [t|] q|t|t]; cbn in Hm.
  - destruct Hm as [Hno ->]. apply holds_phase; [apply Hq; by try left|]. destruct Hs as [[-> ->]|[-> ->]]; [|done]. cbn. intros t [= <-].
    split; [lia|]. intros x. rewrite lookup_insert_eq. by intros [= <-].
  - destruct Hm as [Ht (ph & Hi & ->)]. apply holds_phase; [apply Hq; by try left|]. intros t' Ht'.
    rewrite (inside_same_txn _ _ _ _ t Ht Hi) in Ht'. injection Ht' as <-.
    destruct (ho_tx _ _ _ Hh t Ht) as [Hlt Hf]. split; [pose proof (next_grows _ _ _ _ _ Hs); lia|]. intros x' Hx'.
    destruct Hs as [(x & id & Hx & _ & Hc & Hr & ->)|[-> Hp]].
    + destruct (is_ok r) eqn:Er; cbn in Hx'; [|by rewrite lookup_delete_eq in Hx']. rewrite lookup_insert_eq in Hx'. injection Hx' as <-.
      assert (succeeds id x p q) as Hq1 by (split; [done|by rewrite <- Hr]). destruct Hh as [_ Hc1 Hc2 _].
      eapply (inside_fact id t x p ids h); try done; [by apply Hok|by intros inv Hin; apply Hc2|by apply Hf].
    + rewrite (inside_same _ _ _ Hi), at_phase_self. destruct Hp as [->| ->]; [by apply Hf|]. cbn in Hx'. by rewrite lookup_delete_eq in Hx'.
  - eapply db_frame; [exact Hok| |exact Hs|by left|exact Hd'|exact Hgo|cbn; set_solver|cbn; set_solver].
    eapply holds_learns; [exact Hd| |exact Hh]. destruct Hs as [(id & _ & _ & Hr)|[-> _]].
    + eapply alone_learns; [exact Hd|exact Hm|exact Hr].
    + eapply (alone_learns _ _ _ _ {| mo_now := now; mo_id := 0%N |}); [exact Hd|exact Hm|by right].
  - destruct Hm as (Ht & _ & ->). assert (holds p ids (spent NoTx h)) as H1 by (destruct Hh; split; cbn; try done; set_solver).
    apply (holds_phase _ _ _ (spent NoTx h)); [apply Hq; by try right|]. intros t' Ht'.
    destruct (ho_tx _ _ _ Hh t Ht) as [Hlt Hf]. destruct (is_ok r); [done|]. injection Ht' as <-. split; [pose proof (next_grows _ _ _ _ _ Hs); lia|done].
  - subst h'. apply Hq; by try left.
Qed.

(** ** The stages of all *)

Lemma moves_txn {B} (c : TxCall Stmt B) now p h r p' h' t : db_moves c h r h' → iso_step run now c p r p' →
  phase_txn (sg_phase h') = Some t → phase_txn (sg_phase h) = Some t ∨ t = db_next p.
Proof.
  destruct c as [l|X [t'|] q|t'|t']; cbn [db_moves].
  - intros [_ ->] [[-> _]|[-> _]]; [|done]. cbn. intros [= <-]. by right.
  - intros [Ht (ph & Hi & ->)] _. cbn. rewrite (inside_same_txn _ _ _ _ t' Ht Hi). intros [= <-]. by left.
  - intros Ha _. destruct q; cbn in Ha; try done; try (subst h'; by left); naive_solver.
  - intros (Ht & _ & ->) _. cbn. destruct (is_ok r); [done|]. intros [= <-]. by left.
  - intros -> _. done.
Qed.

Lemma moves_drawn {B} (c : TxCall Stmt B) h r h' id : db_moves c h r h' → id ∈ sg_drawn h' → id ∈ sg_drawn h.
Proof.
  destruct c as [l|X [t'|] q|t'|t']; cbn [db_moves].
  - by intros [_ ->].
  - by intros [_ (ph & _ & ->)].
  - intros Ha. destruct q; cbn in Ha; try done; try (by subst h'); naive_solver.
  - intros (_ & _ & ->). cbn. intros Hn. by apply elem_of_nil in Hn.
  - by intros ->.
Qed.

Lemma moves_seen {B} (c : TxCall Stmt B) now p ids h r p' h' inv : in_order ids (db_rows p) → db_moves c h r h' →
  iso_step run now c p r p' → inv ∈ sg_seen h' → inv ∈ sg_seen h ∨ is_Some (db_rows p !! KInvitation (in_id inv)).
Proof.
  intros Hd. destruct c as [l|X [t'|] q|t'|t']; cbn [db_moves].
  - intros [_ ->] _. by left.
  - intros [_ (ph & _ & ->)] _. by left.
  - intros Ha Hs. assert (learns (db_rows p) h h') as Hl.
    { destruct Hs as [(id & _ & _ & Hr)|[-> _]].
      - by eapply alone_learns.
      - eapply (alone_learns _ _ _ _ {| mo_now := now; mo_id := 0%N |}); [exact Hd|exact Ha|by right]. }
    destruct Hl as [|r' _|inv0 Hinv]; [by left..|]. intros [->|?]%elem_of_cons; [right; eauto|by left].
  - intros (_ & _ & ->) _. by left.
  - intros -> _. by left.
Qed.

Lemma strangers_insert i h h' hs : strangers hs → hs !! i = Some h →
  (∀ t, phase_txn (sg_phase h') = Some t → phase_txn (sg_phase h) = Some t ∨ ∀ j hj, hs !! j = Some hj → phase_txn (sg_phase hj) ≠ Some t) →
  (∀ id, id ∈ sg_drawn h' → id ∈ sg_drawn h ∨ ∀ j hj, hs !! j = Some hj → id ∉ sg_drawn hj ∧ ∀ inv, inv ∈ sg_seen hj → in_id inv ≠ id) →
  (∀ inv, inv ∈ sg_seen h' → inv ∈ sg_seen h ∨ in_id inv ∉ sg_drawn h' ∧ ∀ j hj, hs !! j = Some hj → in_id inv ∉ sg_drawn hj) →
  (∀ inv, inv ∈ sg_seen h' → in_id inv ∉ sg_drawn h') → strangers (<[i := h']> hs).
Proof.
  intros [S1 S2 S3] Hi Ht Hd Hs Hself. split.
  - intros j k hj hk t [(<- & <- & _)|[Hn Hj]]%list_lookup_insert_Some [(<- & <- & _)|[Hn' Hk]]%list_lookup_insert_Some H1 H2; [done| | |by eapply S1].
    + destruct (Ht t H1) as [Hh|Hh]; [by eapply (S1 i k)|by destruct (Hh k hk Hk)].
    + destruct (Ht t H2) as [Hh|Hh]; [by eapply (S1 j i)|by destruct (Hh j hj Hj)].
  - intros j k hj hk id [(<- & <- & _)|[Hn Hj]]%list_lookup_insert_Some [(<- & <- & _)|[Hn' Hk]]%list_lookup_insert_Some H1 H2; [done| | |by eapply S2].
    + destruct (Hd id H1) as [Hh|Hh]; [by eapply (S2 i k)|by destruct (Hh k hk Hk)].
    + destruct (Hd id H2) as [Hh|Hh]; [by eapply (S2 j i)|by destruct (Hh j hj Hj)].
  - intros j k hj hk id inv [(<- & <- & _)|[Hn Hj]]%list_lookup_insert_Some [(<- & <- & _)|[Hn' Hk]]%list_lookup_insert_Some H1 H2.
    + intros <-. by eapply Hself.
    + destruct (Hd id H1) as [Hh|Hh]; [by eapply (S3 i k)|]. destruct (Hh k hk Hk) as [_ Hh']. by apply Hh'.
    + destruct (Hs inv H2) as [Hh|[_ Hh]]; [by eapply (S3 j i)|]. intros <-. by apply (Hh j hj Hj).
    + by eapply (S3 j k hj hk).
Qed.

Lemma log_all_app P l l' : log_all P l → log_all P l' → log_all P (l ++ l').
Proof. induction l as [|e l IH]; [done|]. intros [? ?] ?. split; auto. Qed.

Lemma commits_keep (p p' : TeamDb) ids news w L : in_order ids (db_rows p) → news ⊆ ids → ok_writes news L w (db_rows p) → db_rows p' = overlay w (db_rows p) →
  in_order ids (db_rows p') ∧ invitations_go_on news (db_rows p) (db_rows p').
Proof.
  intros Hd Hn Hw ->. split; [by eapply commit_in_order|]. eapply ok_writes_on; [by destruct Hd|exact Hw].
Qed.

Lemma orphaned_more b l log : orphaned b log → orphaned b (l ++ log).
Proof. intros (e & He & Hb). exists e. split; [|done]. apply elem_of_app. by right. Qed.

Lemma team_db {B} (c : TxCall Stmt B) s p' hs i h r h' : safe s hs → hs !! i = Some h → db_moves c h r h' →
  iso_step run (st_now s) c (st_db s) r p' → safe (with_db p' (db_entries c (st_now s) (st_db s) p') s) (<[i := h']> hs).
Proof.
  intros [Hok Hd Ho He Hl Hh Hst] Hi Hm Hs. pose proof (Hh i h Hi) as Hhi.
  destruct (db_writes c _ _ _ _ _ _ _ Hd Hhi Hm Hs) as (w & L & Hw & Hr).
  assert (news_of c h ⊆ st_ids s) as Hn.
  { destruct c; cbn; try apply list_subseteq_nil. intros id Hid. by apply (ho_drawn _ _ _ Hhi). }
  destruct (commits_keep _ p' _ _ _ _ Hd Hn Hw Hr) as [Hd' Hgo].
  assert (kept_owned (λ b, orphaned b (db_entries c (st_now s) (st_db s) p' ++ st_log s)) (db_rows p')) as Ho'.
  { rewrite Hr. eapply kept_owned_mono; [|by eapply commit_owned]. intros b. apply orphaned_more. }
  assert (∀ inv, inv ∈ sg_seen h → in_id inv ∉ sg_drawn h) as Hself by (intros inv Hin Hin'; by apply (st_unseen _ Hst i i h h _ inv Hi Hi Hin' Hin)).
  split; cbn [with_db st_db st_ids st_now st_log].
  - by eapply iso_step_ok.
  - done.
  - done.
  - done.
  - apply log_all_app; [by eapply db_entries_fair|done].
  - intros j hj [(<- & <- & _)|[Hne Hj]]%list_lookup_insert_Some.
    + by eapply (db_own c _ (st_db s)).
    + eapply db_frame; [exact Hok|by apply (Hh j)|exact Hs| |exact Hd'|exact Hgo| |].
      * intros t Ht. destruct (decide (tx_call c = Some t)) as [Hc|Hc]; [right|by left].
        destruct c as [l|X tx q|t'|t']; cbn in Hc, Hm; try done; [subst tx|injection Hc as ->..].
        { destruct Hne. by eapply (st_apart _ Hst i j); [| |apply Hm|]. }
        { destruct Hne. by eapply (st_apart _ Hst i j); [| |apply Hm|]. }
        rewrite Hs. apply lookup_delete_eq.
      * intros id Hid Hin. apply Hne. destruct c; cbn in Hid; try (by apply elem_of_nil in Hid). by eapply (st_drawn _ Hst i j).
      * intros inv Hin Hid. destruct c; cbn in Hid; try (by apply elem_of_nil in Hid). by eapply (st_unseen _ Hst i j).
  - apply (strangers_insert i h); try done.
    + intros t Ht. destruct (moves_txn _ _ _ _ _ _ _ _ Hm Hs Ht) as [?| ->]; [by left|right]. intros j hj Hj Ht'.
      destruct (ho_tx _ _ _ (Hh j hj Hj) _ Ht'). lia.
    + intros id Hid. left. by eapply moves_drawn.
    + intros inv Hin. destruct (moves_seen _ _ _ _ _ _ _ _ _ Hd Hm Hs Hin) as [?|Hsome]; [by left|right].
      assert (∀ j hj, hs !! j = Some hj → in_id inv ∉ sg_drawn hj) as Hno.
      { intros j hj Hj Hin'. destruct (ho_drawn _ _ _ (Hh j hj Hj) _ Hin') as [_ E]. rewrite E in Hsome. by destruct Hsome. }
      split; [|done]. intros Hin'. eapply Hno; [exact Hi|]. by eapply moves_drawn.
    + intros inv Hin Hin'. pose proof (moves_drawn _ _ _ _ _ Hm Hin') as Hdr.
      destruct (moves_seen _ _ _ _ _ _ _ _ _ Hd Hm Hs Hin) as [?|Hsome]; [by eapply Hself|].
      destruct (ho_drawn _ _ _ Hhi _ Hdr) as [_ E]. rewrite E in Hsome. by destruct Hsome.
Qed.

Lemma in_order_mono ids ids' d : ids ⊆ ids' → in_order ids d → in_order ids' d.
Proof. intros Hi [H1 H2 H4]. split; auto. Qed.

Lemma holds_mono p ids ids' h : ids ⊆ ids' → holds p ids h → holds p ids' h.
Proof.
  intros Hi [H1 H2 H3 H4]. split; [done|done|..].
  - intros inv Hin. destruct (H3 inv Hin). auto.
  - intros i Hin. destruct (H4 i Hin). auto.
Qed.

Lemma fact_draw id h x d : fact h x d → fact (has_drawn id h) x d.
Proof.
  assert (sg_drawn h ⊆ id :: sg_drawn h) as Hsub by (intros y; apply list_elem_of_further).
  unfold fact. cbn [has_drawn sg_phase sg_drawn]. destruct (sg_phase h); try done.
  - intros [? ?]. split; [by eapply (ok_writes_mono (sg_drawn h) _ (locked_by x))|done].
  - by apply (ok_writes_mono (sg_drawn h) _ (locked_by x)).
Qed.

Lemma team_draw id s hs i h : safe s hs → hs !! i = Some h → id ∉ st_ids s → safe (draw id s) (<[i := has_drawn id h]> hs).
Proof.
  intros [Hok Hd Ho He Hl Hh Hst] Hi Hid. assert (st_ids s ⊆ id :: st_ids s) as Hsub by (intros x; apply list_elem_of_further).
  assert (∀ j hj, hs !! j = Some hj → id ∉ sg_drawn hj ∧ ∀ inv, inv ∈ sg_seen hj → in_id inv ≠ id) as Hfresh.
  { intros j hj Hj. split; [intros Hin; by destruct (ho_drawn _ _ _ (Hh j hj Hj) _ Hin)|].
    intros inv Hin <-. by destruct (ho_seen _ _ _ (Hh j hj Hj) _ Hin). }
  split; cbn; try done.
  - by eapply in_order_mono.
  - intros j hj [(<- & <- & _)|[Hne Hj]]%list_lookup_insert_Some; [|eapply holds_mono; [exact Hsub|by apply (Hh j)]].
    destruct (holds_mono _ _ _ _ Hsub (Hh i h Hi)) as [H1 H2 H3 H4]. split; [|done..|].
    { intros t Ht. destruct (H1 t Ht) as [? Hf]. split; [done|]. intros x Hx. by apply fact_draw, Hf. }
    cbn. intros x [->|Hx]%elem_of_cons; [|by apply H4].
    split; [by left|]. apply eq_None_not_Some. intros Hs. apply Hid. by apply (or_ids _ _ Hd).
  - apply (strangers_insert i h); try done; [by left| |by left|].
    + cbn. intros x [->|?]%elem_of_cons; [by right|by left].
    + cbn. intros inv Hin [E|Hin']%elem_of_cons; [by apply (proj2 (Hfresh i h Hi) inv)|]. by apply (st_unseen _ Hst i i h h _ inv Hi Hi Hin' Hin).
Qed.

Lemma team_call B (c : TeamCall B) s b s' hs i h (K : B → Stage → Prop) : safe s hs → hs !! i = Some h → spec B c h K →
  call_step B c s b s' → ∃ h', K b h' ∧ safe s' (<[i := h']> hs).
Proof.
  intros Hsafe Hi Hsp Hs. destruct (Hsp b) as (h' & Hm & Hk). exists h'. split; [done|]. clear Hsp Hk.
  destruct c; cbn in Hm, Hs; try (subst h'; rewrite list_insert_id by done; by first [destruct Hs as [_ ->]|subst s']).
  - destruct Hs as (p' & Hp & ->). by eapply team_db.
  - destruct Hs as [Hid ->]. subst h'. by apply team_draw.
Qed.

Lemma team_more s hs : safe s hs → safe s (hs ++ [idle]).
Proof.
  intros [Hok Hd Ho He Hl Hh [S1 S2 S3]].
  assert (∀ j hj, (hs ++ [idle]) !! j = Some hj → hs !! j = Some hj ∨ hj = idle) as Hcase.
  { intros j hj [Hj|[_ [_ <-]%list_lookup_singleton_Some]]%lookup_app_Some; auto. }
  split; try done.
  - intros j hj [Hj| ->]%Hcase; [by eapply Hh|]. split; cbn; try done; intros ? []%elem_of_nil.
  - split.
    + intros j k hj hk t [Hj| ->]%Hcase [Hk| ->]%Hcase; [by eapply S1|done..].
    + intros j k hj hk id [Hj| ->]%Hcase [Hk| ->]%Hcase; [by eapply S2|cbn; intros; exfalso; by eapply not_elem_of_nil..].
    + intros j k hj hk id inv [Hj| ->]%Hcase [Hk| ->]%Hcase; [by eapply S3|cbn; intros; exfalso; by eapply not_elem_of_nil..].
Qed.

(** Changes of the database that no process makes. *)
Lemma team_rows s p' l e hs : safe s hs → db_ok p' → in_order (st_ids s) (db_rows p') → (db_next (st_db s) ≤ db_next p')%N →
  invitations_go_on [] (db_rows (st_db s)) (db_rows p') →
  (∀ t x, db_open p' !! t = Some x → db_open (st_db s) !! t = Some x ∧ same_locked x (db_rows (st_db s)) (db_rows p')) →
  kept_owned (λ b, orphaned b (l ++ st_log s)) (db_rows p') → log_all fair_commit l →
  (∀ id checked, (id, checked) ∈ e → sole_owner id checked = false) →
  safe (erasing e (with_db p' l s)) hs.
Proof.
  intros [Hok Hd Ho He Hl Hh Hst] Hok' Hd' Hn Hgo Hx Ho' Hl' He'. split; cbn; try done; [by apply log_all_app|]. intros i h Hi.
  eapply holds_step; [exact Hok|by apply (Hh i)|done|done| |by destruct Hd'|exact Hgo| |].
  - intros t x _. apply Hx.
  - intros id []%elem_of_nil.
  - intros inv _. apply not_elem_of_nil.
Qed.

(** The same, deletions apart. *)
Lemma team_quiet_rows s p' hs : safe s hs → db_ok p' → in_order (st_ids s) (db_rows p') → (db_next (st_db s) ≤ db_next p')%N →
  invitations_go_on [] (db_rows (st_db s)) (db_rows p') →
  (∀ t x, db_open p' !! t = Some x → db_open (st_db s) !! t = Some x ∧ same_locked x (db_rows (st_db s)) (db_rows p')) →
  kept_owned (λ b, orphaned b (st_log s)) (db_rows p') → safe (with_db p' [] s) hs.
Proof.
  intros Hs H1 H2 H3 H4 H5 H6. change (with_db p' [] s) with (erasing (st_erasing s) (with_db p' [] s)).
  apply team_rows; try done. apply Hs.
Qed.

Lemma go_on_refl d : invitations_go_on [] d d.
Proof. intros i inv Hi. right. exists inv. split; [done|apply descends_refl]. Qed.

(** The deletion of an account commits. *)
Lemma team_erase s hs id d0 l l' : safe s hs → st_erasing s = l ++ (id, d0) :: l' →
  unblocked None (write_mode <$> erase_user id (db_rows (st_db s))) (st_db s) →
  safe (erasing (l ++ l') (with_db (write_rows (erase_user id (db_rows (st_db s))) (st_db s)) [EErase id d0 (db_rows (st_db s))] s)) hs.
Proof.
  intros Hsafe Hl Hf. pose proof Hsafe as [Hok Hd Ho He _ _ _]. destruct (erase_user_in_order _ id _ Hd) as [Hd' Hgo].
  assert (sole_owner id d0 = false) as Hs.
  { apply He. rewrite Hl. apply elem_of_app. right. by left. }
  apply team_rows; try done; [by apply write_rows_ok| | |].
  - intros t x Hx. split; [done|]. by eapply writes_frame.
  - apply (kept_owned_mono (λ b, orphans b (EErase id d0 (db_rows (st_db s))) ∨ orphaned b (st_log s))); [|by apply erase_user_owned]. intros b [Hb|(e & ? & ?)]; eexists; (split; [|done]); [by left|by right].
  - intros u d1 Hin. apply He. rewrite Hl. rewrite elem_of_app in *. destruct Hin; [by left|right; by right].
Qed.

Lemma team_env s hs s' : safe s hs → env s s' → safe s' hs.
Proof.
  intros Hsafe He. pose proof Hsafe as [Hok Hd Ho Her Hl Hh Hst]. destruct He as [t|t x Hx Hv|now Hn|id Hid|id d0 l l' Hin Hf|w Hw Hf].
  - apply team_quiet_rows; try done; [by apply drop_ok|by apply go_on_refl|]. cbn. by intros t' x [_ ?]%lookup_delete_Some.
  - split; cbn; try done; [by apply waiting_ok|]. intros i h Hi. destruct (Hh i h Hi) as [H1 H2 H3 H4]. split; try done.
    intros t' Ht. destruct (H1 t' Ht) as [Hlt Hf]. split; [done|]. cbn. intros y [[-> <-]|[_ Hy]]%lookup_insert_Some; [exact (Hf x Hx)|by apply Hf].
  - by split.
  - split; cbn; try done. intros id' d [[= -> ->]|Hin]%elem_of_cons; [done|by apply Her].
  - by apply team_erase.
  - destruct (foreign_in_order _ _ _ Hd Hw) as [Hd' Hgo]. apply team_quiet_rows; try done; [by apply write_rows_ok| |].
    + intros t x Hx. split; [done|]. by eapply writes_frame.
    + apply foreign_owned; [by destruct Hd|done|done].
Qed.

Lemma team_start s : quiet_start s → safe s [].
Proof.
  intros (Ho & Hs & Hl & He & Hty & Hse & Hb & Hi). split.
  - split; intros t; intros *; rewrite Ho, lookup_empty; done.
  - by split.
  - intros b Hbb. left. by apply Hb.
  - rewrite He. by intros id d ?%elem_of_nil.
  - by rewrite Hl.
  - done.
  - by split.
Qed.
