(* ===== verification/TeamOps.v ===== *)
(** * The requests keep to the stages

    Every request of TeamService.v respects the specification of TeamSafety.v, so the
    invariant holds in every reachable state of TeamSystem.v: no organization loses its
    last owner but by the erasure of an account, nobody joins one but by an invitation that is still honoured. *)

From S2P Require Import Prelude Json GoTime Types Users Prog Pg Isolation Authz TeamStore TeamService TeamSystem TeamOrder TeamSafety TeamInvariant.
Local Open Scope go_scope.

(** An active member of the organization with its owner role. *)
Definition active_owner (b u : uuid) (d : rows) : Prop := owner_row (d !! KMember b u).

(** Every change a request made visible was fair. *)
Definition fair_history (log : list Entry) : Prop := log_all fair_commit log.

Section ops.
Context {U : UUIDText}.
Variables (deps : BusinessDeps) (sha256_hex : string → string).

(** ** Calls outside transactions *)

Definition pool_stmt {X} (q : Stmt X) : Prop := ∀ h r, alone q h r h.

Definition tame B (c : TeamCall B) : Prop :=
  match c with
  | DbC (RunC None q) => pool_stmt q
  | DbC _ | NewIDC => False
  | _ => True
  end.

Definition calm {A} (p : prog A) : Prop := wp (plain_spec (λ _ _ _, True) tame) p (λ _ _, True) tt.

Lemma team_calm_ret {A} (a : A) : calm (Ret a).
Proof. done. Qed.

Lemma team_calm_call {A B} (c : TeamCall B) (k : B → prog A) : tame B c → (∀ b, calm (k b)) → calm (Call c k).
Proof. intros Hc Hk. split; [done|]. intros b _. apply Hk. Qed.

Lemma team_calm_bind {A B} (p : prog A) (f : A → prog B) : calm p → (∀ a, calm (f a)) → calm (prog_bind p f).
Proof.
  intros Hp Hf. apply wp_bind; [apply plain_spec_mono|]. eapply wp_mono; [apply plain_spec_mono| |exact Hp].
  intros a []. by intros _; apply Hf.
Qed.

(** Such a program leaves any stage as it is. *)
Lemma calm_same {A} (p : prog A) h : calm p → wp spec p (λ _ h', h' = h) h.
Proof.
  unfold calm. induction p as [a|B c k IH]; [done|]. intros [Ht Hk] b. exists h. split; [|by apply IH, Hk].
  destruct c as [X c| | | | | | |]; try done. cbn in Ht. destruct c as [|X [t|] q|t|t]; try done. apply Ht.
Qed.

Lemma pool_select_role id : pool_stmt (SelectRole id).
Proof. by left. Qed.
Lemma pool_select_invitation hash : pool_stmt (SelectInvitation hash).
Proof. by left. Qed.

Ltac names := unfold exec, query, query_row, affects, roleGetByID, ListByBusiness, ListByBusinessWithCounts, CountMembersByRole,
  CountInvitationsByRole, GetByBusinessUser, membersOf, ListByUser, GetByTokenHash, ListPendingByBusiness, classifyTerminalState,
  invitationRevoke, businessGetByID, businessUpdate, businessUpdateLogo, ValidateRole, GetByIDIncludingDeleted, ListMembers,
  ListMembershipsByUser, GetByID, Update, UpdateLogoURL, or_reply, check, refuse, businessContext, requireBusiness, parseUUIDParam,
  require_live, role_request, guarded_by, named_role, MembersList, RolesList, ListPending, Revoke, usable_invitation, Preview, forget.

Ltac calm_step := lazymatch goal with
  | |- calm (Ret _) => apply team_calm_ret
  | |- calm (Call _ _) => apply team_calm_call; [try exact I; try (intros ? ?; first [reflexivity|by left])|intros ?]
  | |- calm (prog_bind _ _) => apply team_calm_bind; [|intros ?]
  | |- calm (match ?x with _ => _ end) => destruct x
  | |- calm _ => progress names
  end.

Ltac calms := repeat first [done|calm_step].

Lemma calm_summaries l : calm (summaries l).
Proof. induction l as [|m l IH]; cbn [summaries]; calms. Qed.

Lemma calm_hydrate_members l : calm (hydrate_members l).
Proof. induction l as [|m l IH]; cbn [hydrate_members]; calms. Qed.

Lemma calm_hydrate_invitations l : calm (hydrate_invitations l).
Proof. induction l as [|m l IH]; cbn [hydrate_invitations]; calms. Qed.

Lemma calm_invalidate b us : calm (invalidate_all b us).
Proof. induction us as [|u us IH]; cbn [invalidate_all]; calms. Qed.

Hint Resolve calm_summaries calm_hydrate_members calm_hydrate_invitations calm_invalidate : core.

(** ** Requests *)

(** Started without a transaction, knowing the roles [c] to be custom. *)
Definition proper {A} (c : list uuid) (p : prog A) : Prop :=
  ∀ h, sg_phase h = NoTx → c ⊆ sg_custom h → wp spec p (λ _ h', sg_phase h' = NoTx ∧ c ⊆ sg_custom h') h.

Lemma team_proper_calm {A} c (p : prog A) : calm p → proper c p.
Proof.
  intros Hp h Hh Hc. eapply wp_mono; [apply stage_spec_mono| |by apply calm_same]. cbn. by intros a h' ->.
Qed.

Lemma team_proper_bind {A B} c (p : prog A) (f : A → prog B) : proper c p → (∀ a, proper c (f a)) → proper c (prog_bind p f).
Proof.
  intros Hp Hf h Hh Hc. apply wp_bind; [apply stage_spec_mono|]. eapply wp_mono; [apply stage_spec_mono| |by apply Hp].
  cbn. intros a h' [Hh' Hc']. by apply Hf.
Qed.

Lemma team_proper_call {A B} c (q : TeamCall B) (k : B → prog A) : tame B q → (∀ b, proper c (k b)) → proper c (Call q k).
Proof.
  intros Hc Hk. apply (team_proper_bind _ (Call q Ret) k); [|done]. by apply team_proper_calm, team_calm_call.
Qed.

Lemma team_proper_ret {A} c (a : A) : proper c (Ret a).
Proof. by intros h Hh Hc. Qed.

(** What the body of a transaction must come to. *)
Definition closes {E A} (t : N) (c : list uuid) (r : result E A) (h : Stage) : Prop :=
  c ⊆ sg_custom h ∧ match r with Ok _ => phase_txn (sg_phase h) = Some t ∧ may_finish (sg_phase h) | Err _ => True end.

Lemma team_proper_in_tx {E A} c l (failed : E) (body : N → prog (result E A)) :
  (∀ t h, sg_phase h = Begun t → c ⊆ sg_custom h → wp spec (body t) (closes t c) h) → proper c (in_tx l failed body).
Proof.
  intros Hb h Hh Hc r. eexists. split; [by split|]. destruct r as [t|e]; [|done].
  apply wp_bind; [apply stage_spec_mono|]. eapply wp_mono; [apply stage_spec_mono| |by apply Hb].
  cbn. intros [a|e] h' [Hc' Ht].
  - destruct Ht as [Ht Hf]. intros r. eexists. split; [by split_and!|]. destruct r as [u|e]; [done|]. intros []. eexists. split; [done|]. done.
  - intros []. eexists. split; [done|]. done.
Qed.

Ltac proper_step := lazymatch goal with
  | |- proper _ (Ret _) => apply team_proper_ret
  | |- proper _ (Call _ _) => apply team_proper_call; [try exact I; try (intros ? ?; first [reflexivity|by left])|intros ?]
  | |- proper _ (in_tx _ _ _) => apply team_proper_in_tx; intros ? ? ? ?
  | |- proper _ (prog_bind _ _) => apply team_proper_bind; [|intros ?]
  | |- proper _ (match ?x with _ => _ end) => destruct x
  | |- proper _ (invalidate_all _ _) => apply team_proper_calm, calm_invalidate
  | |- proper _ _ => progress names
  | _ => calm_step
  end.

Ltac propers := repeat proper_step.

Lemma calm_memberships u : calm (ListMembershipsByUser u).
Proof. calms. Qed.
Lemma calm_get b : calm (GetByID deps b).
Proof. calms. Qed.
Lemma calm_update b actor : calm (Update b actor).
Proof. calms. Qed.
Lemma calm_logo b url actor : calm (UpdateLogoURL b url actor).
Proof. calms. Qed.
Lemma calm_members ctx : calm (MembersList ctx).
Proof. calms. Qed.
Lemma calm_roles ctx : calm (RolesList ctx).
Proof. calms. Qed.
Lemma calm_pending ctx : calm (ListPending ctx).
Proof. calms. Qed.
Lemma calm_revoke ctx id : calm (Revoke deps ctx id).
Proof. calms. Qed.
Lemma calm_preview token : calm (Preview sha256_hex token).
Proof. calms. Qed.

(** ** Bodies of transactions *)

Lemma wp_inside {X A} t (q : Stmt X) (k : result DbError X → prog A) Q h : phase_txn (sg_phase h) = Some t →
  (∀ r, ∃ ph, inside q h r ph ∧ wp spec (k r) Q (at_phase ph h)) → wp spec (Call (DbC (RunC (Some t) q)) k) Q h.
Proof. intros Ht Hk r. destruct (Hk r) as (ph & Hi & Hw). exists (at_phase ph h). split; [|done]. split; [done|]. by exists ph. Qed.

Lemma wp_same {A B} (c : TeamCall B) (k : B → prog A) Q h : tame B c → (∀ b, wp spec (k b) Q h) → wp spec (Call c k) Q h.
Proof.
  intros Hc Hk b. exists h. split; [|done]. destruct c as [X c| | | | | | |]; try done. cbn in Hc.
  destruct c as [|X [t|] q|t|t]; try done. apply Hc.
Qed.

Hypothesis owner_text : uuid_parse SystemRoleOwnerID = Some ownerRoleID.

(** The guard of owners lets a change of [u] pass when another effective owner is locked. *)
Lemma wp_guard t b ch u h : sg_phase h = Begun t → oc_member ch = Some u → oc_kind ch = OwnerChangeDemote ∨ oc_kind ch = OwnerChangeRemove →
  wp spec (EnsureOwnerExistsAfter t b ch) (λ r h', match r with
    | Ok _ => ∃ snap, h' = at_phase (Looked t b snap) h ∧ ∃ u', u' ≠ u ∧ (u', ownerRoleID, false) ∈ snap
    | Err _ => sg_custom h' = sg_custom h end) h.
Proof.
  intros Hh Hu Hk. unfold EnsureOwnerExistsAfter. rewrite owner_text.
  assert (change_complete ch) as Hc by (unfold change_complete; destruct Hk as [-> | ->]; eauto).
  assert (wp spec (sub! rows := exec (Some t) (LockMembers b) in
          Ret (match rows with
               | Err _ => Err (ErrGuard ErrQuery)
               | Ok snapshot =>
                   match count_owners ownerRoleID ch snapshot 0 with
                   | Err e => Err (ErrGuard e)
                   | Ok postOwners => if postOwners <? 1 then Err (ErrGuard ErrLastOwner) else Ok tt
                   end
               end)) (λ r h', match r with
    | Ok _ => ∃ snap, h' = at_phase (Looked t b snap) h ∧ ∃ u', u' ≠ u ∧ (u', ownerRoleID, false) ∈ snap
    | Err _ => sg_custom h' = sg_custom h end) h) as Hw.
  { apply wp_inside; [by rewrite Hh|]. intros r. unfold inside. rewrite Hh. eexists. split; [done|].
    destruct r as [snap|e]; cbn; [|done]. destruct (count_owners_spec ownerRoleID ch snap 0 Hc) as (n & -> & Hn). cbn.
    destruct (Nat.leb_spec n 0) as [|Hpos]; [done|]. exists snap. split; [done|].
    destruct (proj1 Hn ltac:(lia)) as (u' & role & Hin & -> & Hhit). exists u'. split; [|done]. intros ->.
    unfold hit_by in Hhit. rewrite Hu in Hhit. destruct Hk as [E|E]; rewrite E in Hhit; by rewrite bool_decide_true in Hhit. }
  destruct Hk as [E|E]; rewrite E; exact Hw.
Qed.

(** The change of the target and the revocation of its invitations. *)
Lemma wp_changed {A} t b (q : Stmt nat) op none (rest : prog (result TeamError A)) c h snap :
  sg_phase h = Looked t b snap → c ⊆ sg_custom h →
  (∀ r, inside q h r (after t (Looked t b snap) r (λ _, Changed t))) →
  (∀ h', sg_phase h' = Changed t → c ⊆ sg_custom h' → wp spec rest (closes t c) h') →
  wp spec (ok! _ := affects (Some t) op none q in rest) (closes t c) h.
Proof.
  intros Hh Hc Hq Hr. apply wp_inside; [by rewrite Hh|]. intros r. eexists. split; [apply Hq|].
  destruct r as [n|e]; [|by split]. cbn. destruct (n =? 0); [by split|]. by apply Hr.
Qed.

Lemma wp_revoked t b u c h : sg_phase h = Changed t → c ⊆ sg_custom h →
  wp spec (RevokeByCreatorInTx t b u) (closes t c) h.
Proof.
  intros Hh Hc. apply wp_same; [done|]. intros now. apply wp_inside; [by rewrite Hh|]. intros r. unfold inside. rewrite Hh.
  eexists. split; [done|]. destruct r as [n|e]; [|by split]. by split_and!.
Qed.

Lemma proper_update_member c bc target role : proper c (UpdateMemberRole bc target role).
Proof.
  unfold UpdateMemberRole. apply team_proper_bind; [apply team_proper_calm; calms|]. intros [perms|]; [|apply team_proper_ret].
  apply team_proper_bind; [|intros [|]; apply team_proper_calm; calms]. apply team_proper_in_tx. intros t h Hh Hc. apply wp_bind; [apply stage_spec_mono|].
  eapply wp_mono; [apply stage_spec_mono| |by apply (wp_guard t _ _ target); [| |by left]]. cbn beta. intros [[]|e] h'; [|by intros E; split; [rewrite E|]].
  intros (snap & -> & Hex). apply wp_same; [done|]. intros now. eapply wp_changed; [done|done|..].
  - intros r. unfold inside. cbn. by split_and!.
  - intros h' Hh' Hc'. destruct (negb _); [|by split_and!; rewrite ?Hh'].
    apply wp_bind; [apply stage_spec_mono|]. eapply wp_mono; [apply stage_spec_mono| |by apply wp_revoked]. by intros [].
Qed.

Lemma proper_remove_member c bc target : proper c (RemoveMember bc target).
Proof.
  unfold RemoveMember. apply team_proper_bind; [|intros [|]; apply team_proper_calm; calms]. apply team_proper_in_tx. intros t h Hh Hc.
  apply wp_bind; [apply stage_spec_mono|].
  eapply wp_mono; [apply stage_spec_mono| |by apply (wp_guard t _ _ target); [| |by right]]. cbn beta. intros [[]|e] h'; [|by intros E; split; [rewrite E|]].
  intros (snap & -> & Hex). eapply wp_changed; [done|done|..].
  - intros r. unfold inside. cbn. by split_and!.
  - intros h' Hh' Hc'. by apply wp_revoked.
Qed.

Lemma proper_update_role ctx u body : proper [] (MembersUpdateRole deps ctx u body).
Proof. unfold MembersUpdateRole. propers. apply proper_update_member. Qed.

Lemma proper_remove ctx u : proper [] (MembersRemove deps ctx u).
Proof. unfold MembersRemove. propers. apply proper_remove_member. Qed.

Lemma wp_stamp r Q h : (∀ h' r', sg_phase h' = sg_phase h → sg_custom h' = sg_custom h → wp spec (Ret r') Q h') → wp spec (stamp_role r) Q h.
Proof.
  intros HQ. unfold stamp_role. destruct (bool_decide _); cbn; [intros id; exists (has_drawn id h); split; [done|]|];
    (destruct (ro_created_at r); cbn; [by apply HQ|intros n; eexists; split; [done|by apply HQ]]).
Qed.

Lemma proper_role_create ctx body : proper [] (RolesCreate deps ctx body).
Proof.
  unfold RolesCreate. propers. apply wp_bind; [apply stage_spec_mono|]. apply wp_bind; [apply stage_spec_mono|]. apply wp_stamp. intros h' r Hh' Hc'.
  apply wp_inside; [by rewrite Hh', H|]. intros e. unfold inside. rewrite Hh', H. eexists. split; [done|].
  destruct e as [[]|[]]; (split; [cbn; by rewrite Hc'|done]).
Qed.

Lemma proper_role_update ctx id body : proper [] (RolesUpdate deps ctx id body).
Proof.
  unfold RolesUpdate. propers. apply wp_bind; [apply stage_spec_mono|]. apply wp_same; [done|]. intros now.
  apply wp_inside; [by rewrite H|]. intros e. unfold inside. rewrite H. eexists. split; [done|].
  destruct e as [n|[]]; cbn; [destruct (n =? 0)|..]; (split; [done|done]).
Qed.

Lemma wp_named b id foreign w h : wp spec (named_role b id foreign w)
  (λ r h', sg_phase h' = sg_phase h ∧ sg_custom h ⊆ sg_custom h' ∧ ∀ ro, r = Ok ro → ro_is_system ro = false → id ∈ sg_custom h') h.
Proof.
  intros r. exists (match r with Ok (Some ro) => if ro_is_system ro then h else knows_custom id h | _ => h end). split.
  - cbn. destruct r as [[ro|]|]; try by left. destruct (ro_is_system ro) eqn:E; [by left|right]. by exists ro.
  - destruct r as [[ro|]|]; cbn; try done. destruct (match ro_business ro with Some _ => _ | None => _ end); cbn;
      destruct (ro_is_system ro) eqn:E; cbn; (split; [done|]); (split; [set_solver|]); intros ro' [= ->]; try congruence; set_solver.
Qed.

Lemma wp_detach {A} t id c (rest : prog (result TeamError A)) h : sg_phase h = Begun t ∨ sg_phase h = Changed t → c ⊆ sg_custom h →
  (∀ h', sg_phase h' = Ready t → c ⊆ sg_custom h' → wp spec rest (closes t c) h') →
  wp spec (ok! _ := detachTerminalInvitations t id in rest) (closes t c) h.
Proof.
  intros Hh Hc Hr. apply wp_inside; [by destruct Hh as [-> | ->]|]. intros r. eexists (after t (sg_phase h) r (λ _, Ready t)). split.
  - unfold inside. by destruct Hh as [-> | ->].
  - destruct r as [[]|e]; cbn; [by apply Hr|done].
Qed.

Lemma wp_delete_row t id c h : sg_phase h = Ready t → c ⊆ sg_custom h → wp spec (delete_role_row t id) (closes t c) h.
Proof.
  intros Hh Hc. apply wp_inside; [by rewrite Hh|]. intros r. unfold inside. rewrite Hh. eexists. split; [done|].
  destruct r as [n|[]]; cbn; [destruct (n =? 0)|..]; (split; [done|done]).
Qed.

(** What follows a body, or turns its error into a reply, keeps it closed. *)
Lemma closes_bind {E E' A B} t c (p : prog (result E A)) (f : result E A → prog (result E' B)) h : wp spec p (closes t c) h →
  (∀ a h', closes t c (Ok a : result E A) h' → wp spec (f (Ok a)) (closes t c) h') → (∀ e, ∃ e', f (Err e) = Ret (Err e')) → wp spec (prog_bind p f) (closes t c) h.
Proof.
  intros Hp Hf He. apply wp_bind; [apply stage_spec_mono|]. eapply wp_mono; [apply stage_spec_mono| |exact Hp].
  intros [a|e] h' Hc; [by apply Hf|]. destruct (He e) as [e' ->]. by destruct Hc.
Qed.

Lemma closes_reply {A} t c w (p : fallible A) h : wp spec p (closes t c) h → wp spec (or_reply w p) (closes t c) h.
Proof. intros Hp. eapply closes_bind; [exact Hp|done|]. intros e. by eexists. Qed.

Lemma wp_delete_plain t id c h : sg_phase h = Begun t → c ⊆ sg_custom h →
  wp spec (ok! _ := roleDeleteInTx t id in Ret (Ok ([] : list uuid))) (closes t c) h.
Proof.
  intros Hh Hc. eapply closes_bind; [|by intros a h' [??]|intros e; by eexists]. apply wp_detach; [by left|done|]. intros h' Hh' Hc'.
  by apply wp_delete_row.
Qed.

Lemma wp_delete_reassign t b old new actor c h : sg_phase h = Begun t → c ⊆ sg_custom h → old ∈ c →
  wp spec (DeleteWithReassignInTx t b old new actor) (closes t c) h.
Proof.
  intros Hh Hc Hold. unfold DeleteWithReassignInTx. destruct (bool_decide _); [by split|]. apply wp_same; [done|]. intros now.
  apply wp_inside; [by rewrite Hh|]. intros r. unfold inside. rewrite Hh. eexists. split; [split; [by apply Hc|done]|].
  destruct r as [us|e]; cbn -[detachTerminalInvitations delete_role_row]; [|by split]. apply wp_detach; [by right|done|]. intros h' Hh' Hc'.
  eapply closes_bind; [by apply wp_delete_row|by intros a h1 [??]|intros e; by eexists].
Qed.

Lemma wp_delete_body t b roleID to n actor h : sg_phase h = Begun t → [roleID] ⊆ sg_custom h →
  wp spec (match to with
    | Some new =>
        if 0 <? n then or_reply writeAuthzInvariantError (DeleteWithReassignInTx t b roleID new actor)
        else or_reply writeAuthzInvariantError (ok! _ := roleDeleteInTx t roleID in Ret (Ok []))
    | None => or_reply writeAuthzInvariantError (ok! _ := roleDeleteInTx t roleID in Ret (Ok []))
    end) (closes t [roleID]) h.
Proof.
  intros Hh Hc. destruct to as [new|]; [destruct (0 <? n)|]; apply closes_reply; [|by apply wp_delete_plain..].
  apply wp_delete_reassign; [done|done|by left].
Qed.

Lemma wp_knowing {A} c (p : prog A) h : proper c p → sg_phase h = NoTx → c ⊆ sg_custom h →
  wp spec p (λ _ h', sg_phase h' = NoTx ∧ [] ⊆ sg_custom h') h.
Proof.
  intros Hp Hh Hc. eapply wp_mono; [apply stage_spec_mono| |by apply Hp]. intros a h' [? _]. split; [done|apply list_subseteq_nil].
Qed.

Lemma proper_role_delete ctx id to : proper [] (RolesDelete deps ctx id to).
Proof.
  unfold RolesDelete. apply team_proper_bind; [propers|intros [bc|]; [|apply team_proper_ret]]. apply team_proper_bind; [propers|intros [roleID|]; [|apply team_proper_ret]].
  apply team_proper_bind; [propers|intros [[]|]; [|apply team_proper_ret]]. apply team_proper_bind; [propers|intros [reassignTo|]; [|apply team_proper_ret]].
  intros h Hh Hc. apply wp_bind; [apply stage_spec_mono|]. eapply wp_mono; [apply stage_spec_mono| |apply wp_named]. cbn beta.
  intros [existing|e] h' (Hp & _ & Hr); [|split; [by rewrite Hp|apply list_subseteq_nil]]. specialize (Hr existing eq_refl).
  destruct (ro_is_system existing) eqn:Es; [split; [by rewrite Hp|apply list_subseteq_nil]|]. specialize (Hr eq_refl).
  apply (wp_knowing [roleID]); [|by rewrite Hp|set_solver]. clear h h' Hh Hc Hp Hr.
  propers. by apply wp_delete_body.
Qed.

(** An invitation of a drawn id. *)
Lemma wp_invite t i c h : sg_phase h = Begun t → c ⊆ sg_custom h → in_id i = uuid_nil → in_created_at i ≠ None →
  wp spec (invitationCreate (Some t) i) (closes t c) h.
Proof.
  intros Hh Hc Hi Hcr. unfold invitationCreate. rewrite bool_decide_true by done. intros id. exists (has_drawn id h). split; [done|].
  destruct (in_created_at i); [|done]. cbn -[inside]. apply wp_inside; [cbn; by rewrite Hh|]. intros r. unfold inside. cbn [has_drawn sg_phase]. rewrite Hh.
  eexists. split; [split; [by left|done]|]. by destruct r as [[]|e].
Qed.

Lemma wp_counted {A} t b w c (rest : nat → prog (result Refusal A)) h : sg_phase h = Begun t → c ⊆ sg_custom h →
  (∀ n h', sg_phase h' = Begun t → c ⊆ sg_custom h' → wp spec (rest n) (closes t c) h') →
  wp spec (ok! n := or_reply w (CountPendingByBusiness (Some t) b) in rest n) (closes t c) h.
Proof.
  intros Hh Hc Hr. apply wp_same; [done|]. intros now. apply wp_inside; [by rewrite Hh|]. intros r. unfold inside. rewrite Hh.
  eexists. split; [done|]. destruct r as [n|e]; cbn; [by apply Hr|by split].
Qed.

Lemma proper_invite ctx body : proper [] (InvitationsCreate deps sha256_hex ctx body).
Proof.
  unfold InvitationsCreate. propers. apply wp_counted; [done|done|]. intros n h' Hh' Hc'.
  unfold check. destruct (negb _); [|by split]. apply wp_same; [done|]. intros now. by apply closes_reply, wp_invite.
Qed.

(** Who accepts: the invitation read and marked, then the member. *)
Lemma wp_usable token (Q : result Refusal Invitation → Stage → Prop) h : Q (Err (writeInvitationStateError (ErrInternal "query invitation by hash"))) h →
  (∀ e, Q (Err e) h) → (∀ e inv, Q (Err e) (knows_invitation inv h)) → (∀ inv, Q (Ok inv) (knows_invitation inv h)) →
  wp spec (usable_invitation sha256_hex token) Q h.
Proof.
  intros _ He He' Hq r. destruct r as [[inv|]|e]; [|exists h; split; [by left|apply He]..].
  eexists. split; [right; by exists inv|]. cbn. destruct (bool_decide _); [apply He'|]. destruct (bool_decide _); [apply He'|].
  apply wp_same; [done|]. intros now. destruct (negb _); [apply He'|apply Hq].
Qed.

Lemma wp_marked {A} t u inv w c (rest : prog (result Refusal A)) h : sg_phase h = Begun t → c ⊆ sg_custom h → inv ∈ sg_seen h →
  (∀ h', sg_phase h' = Marked t inv u → c ⊆ sg_custom h' → wp spec rest (closes t c) h') →
  wp spec (ok! _ := or_reply w (markAccepted (Some t) (in_id inv) u) in rest) (closes t c) h.
Proof.
  intros Hh Hc Hinv Hr. apply wp_same; [done|]. intros now. apply wp_inside; [by rewrite Hh|]. intros r. unfold inside. rewrite Hh.
  eexists. split; [by exists inv|]. destruct r as [n|e]; cbn; [|by split]. destruct (n =? 0); [|by apply Hr].
  apply wp_inside; [done|]. intros r. unfold inside. cbn. eexists. split; [done|]. destruct r as [[s|]|e]; cbn; [|by split..].
  intros n1. eexists. by split.
Qed.

Lemma wp_joined t m c h : c ⊆ sg_custom h → phase_txn (sg_phase h) = Some t →
  (∀ m' r, mb_business m' = mb_business m → mb_user m' = mb_user m → mb_role m' = mb_role m → active m' = active m →
     inside (InsertMember m') h r (after t (sg_phase h) r (λ _, Ready t))) →
  wp spec (memberInsert t m) (λ r h', sg_custom h' = sg_custom h ∧ match r with
    | Ok _ => sg_phase h' = Ready t | Err ErrMembershipExists => sg_phase h' = Dead t | _ => True end) h.
Proof.
  intros Hc Ht Hi. unfold memberInsert. destruct (mb_joined_at m); [|apply wp_same; [done|intros now]];
    (apply wp_inside; [done|]; intros r; eexists; split; [by apply Hi|]; by destruct r as [[]|[]]).
Qed.

Lemma proper_accept user token : proper [] (Accept sha256_hex user token).
Proof.
  unfold Accept. propers. apply wp_bind; [apply stage_spec_mono|]. apply wp_usable; [by split|by split|by split|]. intros inv.
  apply wp_bind; [apply stage_spec_mono|]. eapply wp_mono; [apply stage_spec_mono| |apply calm_same; calms]. cbn beta. intros r h' ->.
  destruct r as [|[]]; try by split. apply wp_marked; [done|done|by left|]. intros h' Hh' Hc'. apply wp_same; [done|]. intros now.
  eapply closes_bind; [apply (closes_reply t [])| |intros e; by eexists].
  - eapply wp_mono; [apply stage_spec_mono| |eapply wp_joined; [exact Hc'|by rewrite Hh'|]]; cbn beta.
    + intros [[]|e] h1 [E1 E2]; (split; [by rewrite E1|]); [by rewrite E2|done].
    + intros m' r H1 H2 H3 H4. unfold inside. rewrite Hh'. by split_and!.
  - intros [] h1 [??]. by split.
Qed.

Lemma wp_found t b (Q : result TeamError Business → Stage → Prop) h : sg_phase h = Begun t →
  (∀ e h', Q (Err e) h') → (∀ b' h', sg_phase h' = Founding t (bz_id b') → Q (Ok b') h') → wp spec (businessCreate (Some t) b) Q h.
Proof.
  intros Hh He Hq. unfold businessCreate.
  assert (∀ id h1, sg_phase h1 = Begun t → wp spec (call! now := NowC in
    let b := {| bz_first_action := bz_first_action b; bz_id := id; bz_name := bz_name b; bz_category := bz_category b;
                bz_address := bz_address b; bz_phone := bz_phone b; bz_website := bz_website b; bz_description := bz_description b;
                bz_logo_url := bz_logo_url b; bz_settings := bz_settings b; bz_deleted_at := None; bz_deletion_requested_at := None;
                bz_deletion_canceled_at := None; bz_created_at := now; bz_updated_at := now |} in
    sub! e := exec (Some t) (InsertBusiness b) in
    Ret (match e with Ok _ => Ok b | Err DbUnique => Err ErrBusinessExists | Err _ => Err (ErrInternal "insert business") end)) Q h1) as Hrest.
  { intros id h1 Hh1. apply wp_same; [done|]. intros now. apply wp_inside; [by rewrite Hh1|]. intros r. unfold inside. rewrite Hh1.
    eexists. split; [done|]. destruct r as [[]|[]]; cbn; [by apply Hq|by apply He..]. }
  destruct (bool_decide _); [|by apply Hrest]. intros id. eexists. split; [done|]. by apply Hrest.
Qed.

Lemma proper_create b owner : proper [] (Create deps b owner).
Proof.
  intros h Hh Hc. unfold Create. destruct (String.eqb _ _); [by split|]. destruct (bool_decide _); [by split|].
  intros r. eexists. split; [by split|]. destruct r as [t|e]; [|by split].
  apply wp_bind; [apply stage_spec_mono|]. eapply (wp_mono spec stage_spec_mono _ (λ _ _, True)).
  { intros r h' _ []. eexists. split; [done|]. split; [done|apply list_subseteq_nil]. }
  apply wp_bind; [apply stage_spec_mono|]. apply wp_found; [done|done|]. intros b' h' Hh'. rewrite owner_text.
  apply wp_bind; [apply stage_spec_mono|]. eapply wp_mono; [apply stage_spec_mono| |eapply (wp_joined t _ []); [apply list_subseteq_nil|by rewrite Hh'|]].
  - cbn beta. assert (∀ h1, sg_phase h1 = Ready t ∨ sg_phase h1 = Dead t → wp spec (call! c := DbC (FinishC t) in
        match c with
        | Err _ => Ret (Err (ErrInternal "commit business+membership"))
        | Ok _ => call! _ := NoteC (LogBusinessCreated (bz_id b') owner (bz_name b')) in
                  if bd_telemetry deps then call! _ := NoteC (RecordValue (bz_id b') owner) in Ret (Ok b') else Ret (Ok b')
        end) (λ _ _, True) h1) as Hfin.
    { intros h1 H1. intros r. eexists. split; [split; [by destruct H1 as [-> | ->]|split; [by destruct H1 as [-> | ->]|done]]|].
      destruct r; [|done]. apply wp_same; [done|]. intros _. destruct (bd_telemetry deps); [|done]. by apply wp_same. }
    intros [[]|e] h1 [_ Hr]; [apply Hfin; by left|]. destruct e; try done. apply Hfin. by right.
  - intros m' r H1 H2 H3 H4. unfold inside. rewrite Hh'. by split_and!.
Qed.

Lemma team_starts_spec p : starts deps sha256_hex p → wp spec p (λ _ _, True) idle.
Proof.
  assert (∀ A (q : prog A), proper [] q → wp spec (forget q) (λ _ _, True) idle) as Hp.
  { intros A q Hq. apply wp_forget; [apply stage_spec_mono|]. eapply wp_mono; [apply stage_spec_mono| |apply (Hq idle)]; [done|done|apply list_subseteq_nil]. }
  assert (∀ A (q : prog A), calm q → wp spec (forget q) (λ _ _, True) idle) as Hq by (intros; by apply Hp, team_proper_calm).
  intros Hs. destruct Hs; first
    [ apply Hp; solve [auto using proper_create, proper_update_role, proper_remove, proper_role_create, proper_role_update,
        proper_role_delete, proper_invite, proper_accept]
    | apply Hq; solve [auto using calm_memberships, calm_get, calm_update, calm_logo, calm_members, calm_roles, calm_pending,
        calm_revoke, calm_preview] ].
Qed.

Lemma team_reachable_safe s : reachable call_step env (starts deps sha256_hex) quiet_start s → ∃ hs, safe (sy_store s) hs.
Proof.
  apply (sound_reachable call_step env (starts deps sha256_hex) spec safe idle).
  - intros. by eapply team_call.
  - apply team_more.
  - apply team_env.
  - apply team_starts_spec.
  - apply team_start.
Qed.

(** C22: only the erasure of an account can leave an organization without an owner: whatever
    requests run at once, crash or fail, in every reachable state each organization of the table
    has an active member with the owner role, or an account was erased when it was the only
    active owner left, although its trigger had let it go: when the trigger looked, the account
    did not own the organization yet, or another member had the owner role, who has lost it or
    left since, or was suspended. *)
Theorem owner_lost_only_by_erasure s b : reachable call_step env (starts deps sha256_hex) quiet_start s →
  is_Some (db_rows (st_db (sy_store s)) !! KBusiness b) →
  (∃ u, active_owner b u (db_rows (st_db (sy_store s))))
  ∨ ∃ id checked now, EErase id checked now ∈ st_log (sy_store s)
      ∧ active_owner b id now ∧ (∀ u, active_owner b u now → u = id)
      ∧ ∀ m, checked !! KMember b id = Some (RMember m) → mb_role m = ownerRoleID →
          ∃ u m', u ≠ id ∧ checked !! KMember b u = Some (RMember m') ∧ mb_role m' = ownerRoleID.
Proof.
  intros (hs & Hs)%team_reachable_safe Hb. destruct (sa_owned _ _ Hs b Hb) as [[u Hu]|([|id checked now] & Hin & He)]; [left; by exists u|done|].
  destruct He as (Hc & Hid & Honly). right. exists id, checked, now. split_and!; [done..|]. intros m Hm Hr. by eapply other_owner.
Qed.

(** C23: membership is never smuggled in: each change that requests have made visible adds a
    member only together with the organization it founds, or for an invitation that was neither
    used, revoked nor expired, whose creator could still grant that role when the change was
    committed; that invitation is spent by the same change, on that user. *)
Theorem joins_are_fair s : reachable call_step env (starts deps sha256_hex) quiet_start s → fair_history (st_log (sy_store s)).
Proof. by intros (hs & Hs)%team_reachable_safe; apply Hs. Qed.
End ops.
