(* ===== verification/TeamCap.v ===== *)
(** * At most twenty pending invitations

    [InvitationsCreate] counts the pending invitations of an organization and inserts one
    in a serializable transaction.  Two that overlap and both insert would each have
    changed the other's count, so one of them fails to commit; what was counted bounds
    what is there when the other commits, for nothing else adds an invitation and time
    only ends them.  The invariant goes on top of the one of TeamInvariant.v. *)

From S2P Require Import Prelude Json GoTime Types Users Prog Pg Isolation Authz TeamStore TeamService TeamSystem TeamOrder TeamSafety TeamInvariant TeamOps.
Local Open Scope go_scope.

(** ** Counting *)

Definition count_pending (b : uuid) (now : Z) (d : rows) : nat := length (pending_of b now d).

Lemma invitations_elem d i : typed d → i ∈ invitations d ↔ d !! KInvitation (in_id i) = Some (RInvitation i).
Proof.
  intros Hd. unfold invitations. rewrite list_elem_of_omap. split.
  - intros ([k r] & Hk%elem_of_map_to_list & He). destruct r as [| | | |i']; try done. injection He as ->.
    pose proof (Hd _ _ Hk) as Hf. destruct k; try done. cbn in Hf. by subst.
  - intros Hi. exists (KInvitation (in_id i), RInvitation i). split; [by apply elem_of_map_to_list|done].
Qed.

Lemma pending_elem b now d id : typed d →
  id ∈ in_id <$> pending_of b now d ↔ ∃ i, d !! KInvitation id = Some (RInvitation i) ∧ in_business i = b ∧ pending_at now i = true.
Proof.
  intros Hd. rewrite list_elem_of_fmap. split.
  - intros (i & -> & Hi). apply elem_of_filterb in Hi as [Hb Hi%invitations_elem]; [|done]. to_prop. by exists i.
  - intros (i & Hi & Hb & Hp). exists i. assert (in_id i = id) as E by by apply (Hd _ _ Hi). split; [done|].
    apply elem_of_filterb. rewrite bool_decide_true, Hp by done. split; [done|]. apply invitations_elem; [done|]. by rewrite E.
Qed.

Lemma omap_fmap_nodup {A B C} (f : A → option B) (g : B → C) (key : A → C) l :
  (∀ a b, f a = Some b → a ∈ l → g b = key a) → NoDup (key <$> l) → NoDup (g <$> omap f l).
Proof.
  induction l as [|a l IH]; intros Hf Hn; [constructor|]. apply NoDup_cons in Hn as [Hn Hl]. cbn.
  assert (NoDup (g <$> omap f l)) as Hr by (apply IH; [|done]; intros a' b ? ?; apply Hf; [done|by right]).
  destruct (f a) as [b|] eqn:E; [|done]. cbn. apply NoDup_cons. split; [|done]. rewrite (Hf a b E) by by left.
  intros (b' & Hb & (a' & Ha' & Hfa)%list_elem_of_omap)%list_elem_of_fmap. apply Hn.
  rewrite Hb, (Hf a' b' Hfa) by by right. by apply list_elem_of_fmap_2.
Qed.

Lemma pending_nodup b now d : typed d → NoDup (in_id <$> pending_of b now d).
Proof.
  intros Hd. apply fmap_filterb_nodup. unfold invitations.
  set (l := filterb (λ kr, match kr.2 with RInvitation _ => true | _ => false end) (map_to_list d)).
  assert (omap (λ kr, match kr.2 with RInvitation i => Some i | _ => None end) (map_to_list d)
    = omap (λ kr, match kr.2 with RInvitation i => Some i | _ => None end) l) as ->.
  { unfold l. induction (map_to_list d) as [|[k r] m IH]; [done|]. cbn. destruct r; cbn; [exact IH..|]. by rewrite IH. }
  apply (omap_fmap_nodup _ _ (λ kr : Key * Row, match kr.1 with KInvitation i => i | _ => 0%N end)).
  - intros [k r] i He [_ Hk%elem_of_map_to_list]%elem_of_filterb. apply Hd in Hk. destruct r as [| | | |i']; try done.
    injection He as ->. by destruct k.
  - apply NoDup_fmap_2_strong; [|eapply sublist_NoDup; [apply NoDup_map_to_list|apply filterb_sublist]].
    intros [k r] [k' r'] [Hr Hk%elem_of_map_to_list]%elem_of_filterb [Hr' Hk'%elem_of_map_to_list]%elem_of_filterb E. cbn in Hr, Hr', E.
    pose proof (Hd _ _ Hk). pose proof (Hd _ _ Hk'). destruct r; try done. destruct r'; try done. destruct k; try done. destruct k'; try done.
    cbn in E. subst. congruence.
Qed.

Lemma count_le b now now' d d' : typed d → typed d' →
  (∀ id i', d' !! KInvitation id = Some (RInvitation i') → in_business i' = b → pending_at now' i' = true →
     ∃ i, d !! KInvitation id = Some (RInvitation i) ∧ in_business i = b ∧ pending_at now i = true) →
  count_pending b now' d' ≤ count_pending b now d.
Proof.
  intros Hd Hd' Hi. unfold count_pending. rewrite <- (length_fmap in_id (pending_of b now' d')), <- (length_fmap in_id (pending_of b now d)).
  apply submseteq_length, NoDup_submseteq; [by apply pending_nodup|]. intros id. rewrite !pending_elem by done.
  intros (i' & H1 & H2 & H3). by eapply Hi.
Qed.

Lemma pending_weaken now now' i i' : descends i i' → (now ≤ now')%Z → pending_at now' i' = true → pending_at now i = true.
Proof.
  intros Hde Hn. unfold pending_at. intros [Ho He%Z.ltb_lt]%andb_true_iff. rewrite (de_open _ _ Hde Ho). cbn.
  apply Z.ltb_lt. rewrite <- (de_expires _ _ Hde). lia.
Qed.

(** Invitations that only go on are no more. *)
Lemma count_go_on b now now' d d' : typed d → typed d' → invitations_go_on [] d d' → (now ≤ now')%Z →
  count_pending b now' d' ≤ count_pending b now d.
Proof.
  intros Hd Hd' Hgo Hn. apply count_le; [done..|]. intros id i' Hi Hb Hp. destruct (Hgo id i' Hi) as [[Hin _]|(i & Hi0 & Hde)].
  - by apply elem_of_nil in Hin.
  - exists i. split; [done|]. split; [|by eapply pending_weaken]. by rewrite <- (de_business _ _ Hde).
Qed.

(** One more. *)
Notation one_invitation id i := ({[KInvitation id := Some (RInvitation i)]} : edits).

Lemma one_typed i d : typed d → typed (overlay (one_invitation (in_id i) i) d).
Proof. intros Hd. apply team_typed_overlay; [done|]. by intros k r [<- [= <-]]%lookup_singleton_Some. Qed.

Lemma one_elsewhere id i d id' : id' ≠ id → overlay (one_invitation id i) d !! KInvitation id' = d !! KInvitation id'.
Proof. intros Hn. rewrite overlay_lookup, lookup_singleton_ne; [done|congruence]. Qed.

Lemma one_there id i d : overlay (one_invitation id i) d !! KInvitation id = Some (RInvitation i).
Proof. by rewrite overlay_lookup, lookup_singleton_eq. Qed.

Lemma count_new b now i d : typed d → d !! KInvitation (in_id i) = None → in_business i = b → pending_at now i = true →
  count_pending b now (overlay (one_invitation (in_id i) i) d) = S (count_pending b now d).
Proof.
  intros Hd Hn Hb Hp. unfold count_pending. rewrite <- (length_fmap in_id), <- (length_fmap in_id (pending_of b now d)).
  change (S (length (in_id <$> pending_of b now d))) with (length (in_id i :: (in_id <$> pending_of b now d))).
  pose proof (one_typed i d Hd) as Hd'. apply Permutation_length, NoDup_Permutation.
  - by apply pending_nodup.
  - apply NoDup_cons. split; [|by apply pending_nodup]. rewrite pending_elem by done. intros (i' & Hi' & _). congruence.
  - intros id. rewrite elem_of_cons, !pending_elem by done. destruct (decide (id = in_id i)) as [->|Hne].
    + rewrite one_there. split; [by left|]. intros _. by exists i.
    + rewrite one_elsewhere by done. naive_solver.
Qed.

Lemma count_dead b now i d : typed d → d !! KInvitation (in_id i) = None → pending_at now i = false →
  count_pending b now (overlay (one_invitation (in_id i) i) d) ≤ count_pending b now d.
Proof.
  intros Hd Hn Hp. apply count_le; [done|by apply one_typed|]. intros id i' Hi' Hb Hp'. destruct (decide (id = in_id i)) as [->|Hne].
  - rewrite one_there in Hi'. congruence.
  - rewrite one_elsewhere in Hi' by done. eauto.
Qed.

(** ** Stages of who invites *)

Inductive CapPhase :=
| CapRest
| CapOpen (t : N)
| CapCounted (t : N) (b : uuid) (now : Z) (n : nat)
| CapInviting (t : N) (b : uuid) (now : Z) (n : nat) (i : Invitation).

(** With the last time read. *)
Record CapStage := { cs_clock : option Z; cs_phase : CapPhase }.

Definition cap_idle : CapStage := {| cs_clock := None; cs_phase := CapRest |}.
Definition cap_at (ph : CapPhase) (g : CapStage) : CapStage := {| cs_clock := cs_clock g; cs_phase := ph |}.
Definition cap_read (n : Z) (g : CapStage) : CapStage := {| cs_clock := Some n; cs_phase := cs_phase g |}.

Definition cap_txn (ph : CapPhase) : option N :=
  match ph with CapRest => None | CapOpen t | CapCounted t _ _ _ | CapInviting t _ _ _ _ => Some t end.

Definition inserts {X} (q : Stmt X) : bool := match q with InsertInvitation _ => true | _ => false end.

Definition cap_runs {X} (t : N) (q : Stmt X) (g : CapStage) : result DbError X → CapStage → Prop :=
  match cs_phase g with
  | CapRest => λ _ g', inserts q = false ∧ g' = g
  | CapOpen t' =>
      match q in Stmt X return result DbError X → CapStage → Prop with
      | CountPending b now => λ r g', t' = t ∧ cs_clock g = Some now
          ∧ g' = cap_at (match r with Ok n => CapCounted t b now n | Err _ => CapOpen t end) g
      | _ => λ _ _, False
      end
  | CapCounted t' b now n =>
      match q in Stmt X return result DbError X → CapStage → Prop with
      | InsertInvitation i => λ r g', t' = t ∧ in_business i = b ∧ n < invitationPendingCap ∧ open_invitation i = true
          ∧ g' = cap_at (match r with Ok _ => CapInviting t b now n i | Err _ => CapCounted t b now n end) g
      | _ => λ _ _, False
      end
  | CapInviting _ _ _ _ _ => λ _ _, False
  end.

Definition cap_db {B} (c : TxCall Stmt B) (g : CapStage) : B → CapStage → Prop :=
  match c in TxCall _ B return B → CapStage → Prop with
  | StartC Serializable => λ r g', cs_phase g = CapRest ∧ g' = match r with Ok t => cap_at (CapOpen t) g | Err _ => g end
  | StartC _ => λ _ g', cs_phase g = CapRest ∧ g' = g
  | RunC None _ => λ _ g', g' = g
  | RunC (Some t) q => cap_runs t q g
  | FinishC t => λ _ g', (cs_phase g = CapRest ∨ cap_txn (cs_phase g) = Some t) ∧ g' = cap_at CapRest g
  | UndoC _ => λ _ g', g' = cap_at CapRest g
  end.

Definition cap_moves {B} (c : TeamCall B) (g : CapStage) : B → CapStage → Prop :=
  match c in TeamCall B return B → CapStage → Prop with
  | DbC c => cap_db c g
  | NowC => λ n g', g' = cap_read n g
  | _ => λ _ g', g' = g
  end.

Definition cap_spec B (c : TeamCall B) (g : CapStage) (K : B → CapStage → Prop) : Prop := ∀ b, ∃ g', cap_moves c g b g' ∧ K b g'.

Lemma cap_spec_mono : monotone cap_spec.
Proof. intros B c h K K' HK Hs b. destruct (Hs b) as (h' & Hm & Hk). eauto. Qed.

(** *** Both specifications at once *)

Definition both_spec B (c : TeamCall B) (hg : Stage * CapStage) (K : B → Stage * CapStage → Prop) : Prop :=
  ∀ b, ∃ h' g', moves c hg.1 b h' ∧ cap_moves c hg.2 b g' ∧ K b (h', g').

Lemma wp_both {A} (p : prog A) Q1 Q2 h g : wp spec p Q1 h → wp cap_spec p Q2 g →
  wp both_spec p (λ a hg, Q1 a hg.1 ∧ Q2 a hg.2) (h, g).
Proof.
  revert h g. induction p as [a|B c k IH]; intros h g; [by split|]. intros H1 H2 b.
  destruct (H1 b) as (h' & Hm & Hk). destruct (H2 b) as (g' & Hm' & Hk'). exists h', g'. split; [done|]. split; [done|]. by apply IH.
Qed.

(** ** The requests *)

Section requests.
Context {U : UUIDText}.
Variables (deps : BusinessDeps) (sha256_hex : string → string).

Definition mild B (c : TeamCall B) : Prop :=
  match c with
  | DbC (StartC l) => l ≠ Serializable
  | DbC (RunC (Some _) q) => inserts q = false
  | _ => True
  end.

Definition soft {A} (p : prog A) : Prop := wp (plain_spec (λ _ _ _, True) mild) p (λ _ _, True) tt.

Lemma soft_ret {A} (a : A) : soft (Ret a).
Proof. done. Qed.

Lemma soft_call {A B} (c : TeamCall B) (k : B → prog A) : mild B c → (∀ b, soft (k b)) → soft (Call c k).
Proof. intros Hc Hk. split; [done|]. intros b _. apply Hk. Qed.

Lemma soft_bind {A B} (p : prog A) (f : A → prog B) : soft p → (∀ a, soft (f a)) → soft (prog_bind p f).
Proof.
  intros Hp Hf. apply wp_bind; [apply plain_spec_mono|]. eapply wp_mono; [apply plain_spec_mono| |exact Hp].
  intros a []. by intros _; apply Hf.
Qed.

Lemma soft_rests {A} (p : prog A) g : soft p → cs_phase g = CapRest → wp cap_spec p (λ _ g', cs_phase g' = CapRest) g.
Proof.
  unfold soft. revert g. induction p as [a|B c k IH]; intros g; [done|]. intros [Hc Hk] Hg.
  assert (∀ b, ∃ g', cap_moves c g b g' ∧ cs_phase g' = CapRest) as Hm.
  { intros b. destruct c as [X c| | | | | | |]; try (by exists g); [|by exists (cap_read b g)].
    destruct c as [[]|X [t|] q|t|t]; cbn in Hc; try done; try (by exists g); try (exists (cap_at CapRest g); by split; [split; [left|]|]).
    - exists g. split; [|done]. cbn. unfold cap_runs. by rewrite Hg.
    - by exists (cap_at CapRest g). }
  intros b. destruct (Hm b) as (g' & Hmv & Hg'). exists g'. split; [done|]. by apply IH; [apply Hk|].
Qed.

Ltac names := unfold exec, query, query_row, affects, roleGetByID, ListByBusiness, ListByBusinessWithCounts, CountMembersByRole,
  CountInvitationsByRole, GetByBusinessUser, membersOf, ListByUser, GetByTokenHash, ListPendingByBusiness, classifyTerminalState,
  invitationRevoke, businessGetByID, businessUpdate, businessUpdateLogo, ValidateRole, GetByIDIncludingDeleted, ListMembers,
  ListMembershipsByUser, GetByID, Update, UpdateLogoURL, or_reply, check, refuse, businessContext, requireBusiness, parseUUIDParam,
  require_live, role_request, guarded_by, named_role, MembersList, RolesList, ListPending, Revoke, usable_invitation, Preview,
  Create, businessCreate, memberInsert, MembersUpdateRole, UpdateMemberRole, EnsureOwnerExistsAfter, memberUpdateRole,
  RevokeByCreatorInTx, MembersRemove, RemoveMember, memberDelete, RolesCreate, roleCreate, stamp_role, RolesUpdate, roleUpdate,
  RolesDelete, DeleteWithReassignInTx, roleDeleteInTx, detachTerminalInvitations, delete_role_row, Accept, markAccepted, in_tx.

Ltac soft_step := lazymatch goal with
  | |- soft (Ret _) => apply soft_ret
  | |- soft (Call _ _) => apply soft_call; [done|intros ?]
  | |- soft (prog_bind _ _) => apply soft_bind; [|intros ?]
  | |- soft (match ?x with _ => _ end) => destruct x
  | |- soft _ => progress names
  end.

Ltac softs := repeat first [done|soft_step].

Lemma soft_summaries l : soft (summaries l).
Proof. induction l as [|m l IH]; cbn [summaries]; softs. Qed.

Lemma soft_hydrate_members l : soft (hydrate_members l).
Proof. induction l as [|m l IH]; cbn [hydrate_members]; softs. Qed.

Lemma soft_hydrate_invitations l : soft (hydrate_invitations l).
Proof. induction l as [|m l IH]; cbn [hydrate_invitations]; softs. Qed.

Lemma soft_invalidate b us : soft (invalidate_all b us).
Proof. induction us as [|u us IH]; cbn [invalidate_all]; softs. Qed.

Hint Resolve soft_summaries soft_hydrate_members soft_hydrate_invitations soft_invalidate : core.

(** Creating an invitation: rest before, rest after. *)
Lemma soft_then {A B} (p : prog A) (f : A → prog B) Q g : soft p → cs_phase g = CapRest →
  (∀ a g', cs_phase g' = CapRest → wp cap_spec (f a) Q g') → wp cap_spec (prog_bind p f) Q g.
Proof.
  intros Hp Hg Hf. apply wp_bind; [apply cap_spec_mono|]. eapply wp_mono; [apply cap_spec_mono| |by apply soft_rests].
  cbn. intros a g' Hg'. by apply Hf.
Qed.

Lemma cap_in_tx {E A} (failed : E) (body : N → prog (result E A)) g : cs_phase g = CapRest →
  (∀ t g', cs_phase g' = CapOpen t → wp cap_spec (body t) (λ _ g1, cap_txn (cs_phase g1) = Some t) g') →
  wp cap_spec (in_tx Serializable failed body) (λ _ g', cs_phase g' = CapRest) g.
Proof.
  intros Hg Hb r. eexists. split; [by split|]. destruct r as [t|e]; [|done]. apply wp_bind; [apply cap_spec_mono|].
  eapply wp_mono; [apply cap_spec_mono| |by apply Hb]. cbn. intros [a|e] g1 Ht.
  - intros r. eexists. split; [split; [by right|done]|]. destruct r as [u|e]; [done|]. intros []. eexists. split; [done|]. done.
  - intros []. eexists. split; [done|]. done.
Qed.

Lemma cap_create ctx body : wp cap_spec (InvitationsCreate deps sha256_hex ctx body) (λ _ _, True) cap_idle.
Proof.
  unfold InvitationsCreate. apply soft_then; [softs|done|]. intros [bc|] g Hg; [|done]. apply soft_then; [softs|done|]. clear g Hg. intros [[]|] g Hg; [|done].
  destruct body as [req|]; [|done]. apply soft_then; [softs|done|]. clear g Hg. intros [[]|] g Hg; [|done].
  apply soft_then; [softs|done|]. clear g Hg. intros [[]|] g Hg; [|done]. apply soft_then; [softs|done|]. clear g Hg. intros [role|] g Hg; [|done].
  apply soft_then; [softs|done|]. clear g Hg. intros [[]|] g Hg; [|done]. intros [raw|]; (exists g; split; [done|]); [|done].
  apply wp_bind; [apply cap_spec_mono|]. eapply wp_mono; [apply cap_spec_mono| |apply cap_in_tx; [done|]].
  - cbn. intros [inv|] g1 Hg1; [|done]. intros []. by exists g1.
  - clear g Hg. intros t g Hg now. eexists. split; [done|]. intros r. eexists. split.
    { cbn. unfold cap_runs. cbn. rewrite Hg. done. }
    destruct r as [n|e]; [|done]. cbn -[Nat.leb]. unfold check. destruct (Nat.leb_spec invitationPendingCap n); cbn; [done|].
    intros now'. eexists. split; [done|]. intros id. eexists. split; [done|]. intros r. eexists. split.
    { cbn. unfold cap_runs. cbn. split_and!; try done. }
    by destruct r.
Qed.

Lemma starts_cap p : starts deps sha256_hex p → wp cap_spec p (λ _ _, True) cap_idle.
Proof.
  assert (∀ A (q : prog A), soft q → wp cap_spec (forget q) (λ _ _, True) cap_idle) as Hq.
  { intros A q Hq. apply wp_forget; [apply cap_spec_mono|]. eapply wp_mono; [apply cap_spec_mono| |by apply soft_rests]. done. }
  intros Hs. destruct Hs; try (apply Hq; by softs).
  apply wp_forget; [apply cap_spec_mono|]. apply cap_create.
Qed.
End requests.

(** ** What open transactions write of invitations *)

(** A transaction that is not serializable writes invitations that are there only. *)
Definition old_invitations (t : N) (x : TeamTx) (d : rows) : Prop :=
  tn_level x ≠ Serializable → ∀ id, is_Some (tn_writes x !! KInvitation id) → locks_key x (KInvitation id) 1 ∧ is_Some (d !! KInvitation id).

Lemma old_local t x d d' : same_locked x d d' → old_invitations t x d → old_invitations t x d'.
Proof. intros Hs Ho Hl id Hi. destruct (Ho Hl id Hi) as [Hk Hd]. split; [done|]. by rewrite <- Hs. Qed.

Lemma old_new t l now d : old_invitations t (new_tx l now) d.
Proof. intros _ id [v Hv]. cbn in Hv. by rewrite lookup_empty in Hv. Qed.

(** Statements other than an insertion write invitations they see. *)
Lemma writes_seen {X} (q : Stmt X) m cur d id : inserts q = false → is_Some (at_writes (run X q m cur d) !! KInvitation id) → is_Some (d !! KInvitation id).
Proof.
  intros Hq. assert (∀ pr f, is_Some (edit_invitations pr f d !! KInvitation id) → is_Some (d !! KInvitation id)) as Hedit.
  { intros pr f [v Hv]. rewrite edit_lookup in Hv. destruct (d !! KInvitation id); [eauto|done]. }
  assert (∀ k v, (∀ i, k ≠ KInvitation i) → is_Some (({[k := v]} : edits) !! KInvitation id) → is_Some (d !! KInvitation id)) as Hone.
  { intros k v Hk [v' [E _]%lookup_singleton_Some]. by destruct (Hk id). }
  assert (is_Some ((∅ : edits) !! KInvitation id) → is_Some (d !! KInvitation id)) as Hnone by (intros [? E]; by rewrite lookup_empty in E).
  destruct q; cbn [run at_writes answers_]; try done; unfold update_business, insert_role, update_role, delete_role, reassign_members,
    insert_member, set_member_role, delete_member, revoke_invitation, mark_accepted, detach_invitations, revoke_by_creator; cbn [changes at_writes];
    try (by eauto); repeat (case_match; cbn [changes refuses answers_ at_writes]; try (by eauto)); try (by apply Hone).
  - intros [v Hv]. rewrite map_lookup_imap in Hv. destruct (d !! KInvitation id); [eauto|done].
  - match goal with H : invitation_at _ d = Some _ |- _ => apply invitation_at_Some in H; rename H into Hi end.
    intros [v' [[= <-] _]%lookup_singleton_Some]. eauto.
  - match goal with H : invitation_at _ d = Some _ |- _ => apply invitation_at_Some in H; rename H into Hi end.
    intros [v' [[= <-] _]%lookup_singleton_Some]. eauto.
Qed.

Lemma old_kept {X} (q : Stmt X) t x p id : tx_ok p t x → inserts q = false ∨ tn_level x = Serializable → old_invitations t x (db_rows p) →
  unchanged x (Isolation.taken (attempt run q id x (db_rows p))) (db_rows p) → is_ok (at_out (attempt run q id x (db_rows p))) = true →
  old_invitations t (performed_by run q id x p) (db_rows p).
Proof.
  intros Hx Hq Ho Hu Hok Hl i Hi. cbn [performed_by tn_level] in Hl. destruct Hq as [Hq|]; [|done].
  rewrite performed_writes in Hi. destruct Hi as [o [Hi|[_ Hi]]%lookup_union_Some_raw].
  - assert (sight x (db_rows p) !! KInvitation i = db_rows p !! KInvitation i) as Hsame.
    { eapply written_same; [exact Hu|]. eauto. }
    destruct (taken_writes _ _ _ Hi) as (m & Hm & Hle). split.
    + eapply takes_lock; [exact Hm|]. pose proof (write_mode_exclusive o). lia.
    + assert (is_Some (at_writes (attempt run q id x (db_rows p)) !! KInvitation i)) as Hs.
      { unfold done_writes in Hi. destruct (at_out _); [eauto|by rewrite lookup_empty in Hi]. }
      apply writes_seen in Hs; [|done]. rewrite overlay_lookup in Hs. destruct (tn_writes x !! KInvitation i) as [o'|] eqn:Ew; [|by rewrite <- Hsame].
      by destruct (Ho Hl i ltac:(eauto)).
  - destruct (Ho Hl i ltac:(eauto)) as [Hk Hd]. split; [by apply keeps_lock|done].
Qed.

(** ** The invariant *)

(** An answer recorded: [b] had [n] pending invitations at [now]. *)
Definition asked_count (asked : list (rows → Prop)) (b : uuid) (now : Z) (n : nat) : Prop :=
  ∃ P, P ∈ asked ∧ ∀ d, P d ↔ count_pending b now d = n.

Definition counted (x : TeamTx) (b : uuid) (now : Z) (n : nat) : Prop :=
  ∃ v k, tn_view x = Some (v, k) ∧ count_pending b now v = n ∧ asked_count (tn_asked x) b now n.

(** What a stage says of its transaction. *)
Definition cap_fact (h : Stage) (g : CapStage) (x : TeamTx) : Prop :=
  match cs_phase g with
  | CapRest => match sg_phase h with Ended _ => True | _ => tn_level x ≠ Serializable end
  | CapOpen _ => tn_level x = Serializable ∧ tn_writes x = ∅
  | CapCounted _ b now n => tn_level x = Serializable ∧ tn_writes x = ∅ ∧ counted x b now n
  | CapInviting _ b now n i => tn_level x = Serializable ∧ tn_writes x = one_invitation (in_id i) i ∧ counted x b now n ∧ n < invitationPendingCap
      ∧ in_business i = b ∧ open_invitation i = true ∧ in_id i ∈ sg_drawn h
  end.

Definition cap_time (now : Z) (g : CapStage) : Prop :=
  (∀ n, cs_clock g = Some n → (n ≤ now)%Z)
  ∧ match cs_phase g with CapCounted _ _ n _ | CapInviting _ _ n _ _ => (n ≤ now)%Z | _ => True end.

Record cap_holds (p : TeamDb) (now : Z) (h : Stage) (g : CapStage) : Prop := {
  ch_time : cap_time now g;
  ch_own : ∀ t, cap_txn (cs_phase g) = Some t → phase_txn (sg_phase h) = Some t;
  ch_fact : ∀ t x, phase_txn (sg_phase h) = Some t → db_open p !! t = Some x → cap_fact h g x;
  ch_fresh : ∀ id, id ∈ sg_drawn h →
    (∀ t x v k, db_open p !! t = Some x → tn_view x = Some (v, k) → v !! KInvitation id = None)
    ∧ ∀ e, e ∈ db_serial p → dn_view e !! KInvitation id = None;
}.

(** Rows seen once: typed, their invitations known. *)
Definition seen_once (ids : list uuid) (v : rows) : Prop := typed v ∧ ∀ id, is_Some (v !! KInvitation id) → id ∈ ids.

(** [inv] was inserted by the serializable transaction [e], which had counted. *)
Definition born (now : Z) (e : Done (K := Key) (V := Row)) (id : uuid) (inv : Invitation) : Prop :=
  ∃ i n k, dn_writes e = one_invitation id i ∧ in_id i = id ∧ descends i inv ∧ (n ≤ now)%Z
    ∧ count_pending (in_business i) n (dn_view e) = k ∧ asked_count (dn_asked e) (in_business i) n k.

(** The pending invitations of [d] were there in [v], or came of commits since. *)
Definition accounted (now : Z) (since : list (Done (K := Key) (V := Row))) (v d : rows) : Prop :=
  ∀ id inv, d !! KInvitation id = Some (RInvitation inv) → pending_at now inv = true →
    (∃ inv0, v !! KInvitation id = Some (RInvitation inv0) ∧ descends inv0 inv)
    ∨ v !! KInvitation id = None ∧ ∃ e, e ∈ since ∧ born now e id inv.

Record capped (s : Store) (hgs : list (Stage * CapStage)) : Prop := {
  cd_safe : safe s (fst <$> hgs);
  cd_cap : ∀ b, count_pending b (st_now s) (db_rows (st_db s)) ≤ invitationPendingCap;
  cd_old : all_keep old_invitations (st_db s);
  cd_views : ∀ t x v k, db_open (st_db s) !! t = Some x → tn_view x = Some (v, k) →
    seen_once (st_ids s) v ∧ accounted (st_now s) (unseen x (st_db s)) v (db_rows (st_db s));
  cd_done : ∀ e, e ∈ db_serial (st_db s) → seen_once (st_ids s) (dn_view e);
  cd_holds : ∀ i h g, hgs !! i = Some (h, g) → cap_holds (st_db s) (st_now s) h g;
}.

Lemma accounted_mono now now' since since' v d d' : (now ≤ now')%Z → since ⊆ since' → invitations_go_on [] d d' →
  accounted now since v d → accounted now' since' v d'.
Proof.
  intros Hn Hs Hgo Ha id inv Hi Hp. destruct (Hgo id inv Hi) as [[Hin _]|(inv0 & Hi0 & Hde)]; [by apply elem_of_nil in Hin|].
  destruct (Ha id inv0 Hi0 (pending_weaken _ _ _ _ Hde Hn Hp)) as [(inv1 & H1 & Hd1)|(Hv & e & He & i & n & k & H1 & H2 & H3 & H4 & H5 & H6)].
  - left. exists inv1. split; [done|]. by eapply descends_trans.
  - right. split; [done|]. exists e. split; [auto|]. exists i, n, k. split_and!; try done; [by eapply descends_trans|lia].
Qed.

Lemma accounted_self now since d : accounted now since d d.
Proof. intros id inv Hi _. left. exists inv. split; [done|apply descends_refl]. Qed.

(** ** Two that overlap *)

(** An insertion changes the count of who did not see it. *)
Lemma count_upset asked b now n v i : typed v → asked_count asked b now n → count_pending b now v = n →
  v !! KInvitation (in_id i) = None → in_business i = b → pending_at now i = true → upset asked v (one_invitation (in_id i) i).
Proof.
  intros Hv (P & HP & Hiff) Hn Hno Hb Hp. apply Exists_exists. exists P. split; [done|]. split; [by apply Hiff|].
  rewrite Hiff, count_new by done. lia.
Qed.

Lemma pending_still now now' i inv : descends i inv → (now ≤ now')%Z → pending_at now' inv = true → pending_at now i = true.
Proof. apply pending_weaken. Qed.

(** Who commits an invitation saw all that are pending now. *)
Lemma inviting_sees_all p now x b n nowx i v k ids : tn_level x = Serializable → tn_view x = Some (v, k) → tn_writes x = one_invitation (in_id i) i →
  serializes x p → seen_once ids v → (∀ e, e ∈ db_serial p → seen_once ids (dn_view e) ∧ dn_view e !! KInvitation (in_id i) = None) →
  accounted now (unseen x p) v (db_rows p) → count_pending b nowx v = n → asked_count (tn_asked x) b nowx n → in_business i = b →
  (nowx ≤ now)%Z → pending_at now i = true →
  ∀ id inv, db_rows p !! KInvitation id = Some (RInvitation inv) → in_business inv = b → pending_at now inv = true →
    ∃ inv0, v !! KInvitation id = Some (RInvitation inv0) ∧ descends inv0 inv.
Proof.
  intros Hl Hv Hw Hs [Htv _] Hdone Ha Hn Hask Hb Ht Hi id inv Hinv Hbi Hp.
  destruct (Ha id inv Hinv Hp) as [?|(Hno & e & He & i0 & ne & ke & Hwe & Hid & Hde & Hne & Hke & Hae)]; [done|exfalso].
  specialize (Hs Hl). rewrite Forall_forall in Hs. apply (Hs e He). subst id. rewrite (sight_view x v k) by (rewrite ?Hl; done). split.
  - rewrite Hwe. eapply count_upset; [done|exact Hask|exact Hn|exact Hno| |].
    + by rewrite <- (de_business _ _ Hde).
    + by eapply pending_weaken.
  - rewrite Hw. assert (e ∈ db_serial p) as Hin.
    { unfold unseen in He. rewrite Hv in He. apply elem_of_take in He as (j & Hj & _). by eapply list_elem_of_lookup_2. }
    destruct (Hdone e Hin) as [[Hte _] Hnone]. eapply count_upset; [exact Hte|exact Hae|exact Hke|exact Hnone| |].
    + by rewrite Hb, <- Hbi, (de_business _ _ Hde).
    + eapply pending_weaken; [apply descends_refl|exact Hne|done].
Qed.

(** ** One call *)

Lemma unseen_mono (x : TeamTx) p p' : (∀ v k, tn_view x = Some (v, k) → k ≤ length (db_serial p)) →
  db_serial p' = db_serial p ∨ (∃ e, db_serial p' = e :: db_serial p) → unseen x p ⊆ unseen x p'.
Proof.
  intros Hk Hs. unfold unseen. destruct (tn_view x) as [[v k]|]; [|done]. specialize (Hk v k eq_refl).
  destruct Hs as [->|[e ->]]; [done|]. cbn [length]. replace (S (length (db_serial p)) - k) with (S (length (db_serial p) - k)) by lia.
  cbn [take]. intros y Hy. by right.
Qed.

Lemma unseen_new (x : TeamTx) p p' v k e : tn_view x = Some (v, k) → k ≤ length (db_serial p) → db_serial p' = e :: db_serial p → e ∈ unseen x p'.
Proof.
  intros Hv Hk Hs. unfold unseen. rewrite Hv, Hs. cbn [length]. replace (S (length (db_serial p)) - k) with (S (length (db_serial p) - k)) by lia. by left.
Qed.

Lemma unseen_view (x x' : TeamTx) p : tn_view x = tn_view x' → unseen x p = unseen x' p.
Proof. unfold unseen. by intros ->. Qed.

(** A view is the one it was, or of the rows as they are. *)
Lemma views_step now {B} (c : TxCall Stmt B) (p : TeamDb) r p' t x' v k : iso_step run now c p r p' → db_open p' !! t = Some x' → tn_view x' = Some (v, k) →
  (∃ x, db_open p !! t = Some x ∧ tn_view x = Some (v, k)) ∨ v = db_rows p ∧ k = length (db_serial p) ∧ db_rows p' = db_rows p ∧ db_serial p' = db_serial p.
Proof.
  destruct c as [l|X [t0|] q|t0|t0]; cbn.
  - intros [[-> ->]|[-> ->]]; cbn; [|eauto]. intros [[<- <-]|[_ ?]]%lookup_insert_Some; [done|eauto].
  - intros [(x & id & Hx & _ & _ & _ & ->)|[_ [->| ->]]]; [|eauto|cbn; intros [_ ?]%lookup_delete_Some; eauto].
    destruct (is_ok r); cbn; [|intros [_ ?]%lookup_delete_Some; eauto]. intros [[<- <-]|[_ ?]]%lookup_insert_Some; [|eauto].
    cbn. destruct (tn_view x) as [vk|] eqn:Ev; [intros [= ->]; eauto|]. intros [= <- <-]. by right.
  - intros [(id & _ & -> & _)|[_ ->]]; eauto.
  - intros [(x & _ & _ & ->)|[_ [->| ->]]]; cbn; [intros [_ ?]%lookup_delete_Some; eauto|eauto|intros [_ ?]%lookup_delete_Some; eauto].
  - intros ->. cbn. intros [_ ?]%lookup_delete_Some. eauto.
Qed.

(** What a call does to the rows and to the serializable commits. *)
Inductive commit_kind (now : Z) (p p' : TeamDb) (h : Stage) : Prop :=
| commit_quiet : invitations_go_on [] (db_rows p) (db_rows p') →
    (db_serial p' = db_serial p ∨ ∃ e, db_serial p' = e :: db_serial p ∧ ∃ t x k, db_open p !! t = Some x ∧ tn_view x = Some (dn_view e, k)) →
    commit_kind now p p' h
| commit_invitation t x v k n m i : db_open p !! t = Some x → tn_level x = Serializable → tn_view x = Some (v, k) →
    tn_writes x = one_invitation (in_id i) i → serializes x p → count_pending (in_business i) n v = m → asked_count (tn_asked x) (in_business i) n m →
    m < invitationPendingCap → (n ≤ now)%Z → in_id i ∈ sg_drawn h →
    db_rows p' = overlay (one_invitation (in_id i) i) (db_rows p) →
    db_serial p' = {| dn_view := v; dn_writes := one_invitation (in_id i) i; dn_asked := tn_asked x |} :: db_serial p →
    commit_kind now p p' h.

Lemma ok_writes_old news L w d : ok_writes news L w d → (∀ id, is_Some (w !! KInvitation id) → is_Some (d !! KInvitation id)) → ok_writes [] L w d.
Proof.
  intros [H1 H2 H3 H4 H5 H6] Hold. split; try done. intros i v Hv. destruct (H6 i v Hv) as (inv' & -> & [[Hn _]|Hi]); [|eauto].
  destruct (Hold i ltac:(eauto)). congruence.
Qed.

Lemma cap_kind {B} (c : TxCall Stmt B) now p r p' ids h g h' g' : in_order ids (db_rows p) → holds p ids h → cap_holds p now h g →
  all_keep old_invitations p → db_moves c h r h' → cap_db c g r g' → iso_step run now c p r p' → commit_kind now p p' h.
Proof.
  intros Hd Hh Hg Hold Hm Hc Hs. pose proof (db_writes _ _ _ _ _ _ _ _ Hd Hh Hm Hs) as (w & L & Hw & Hr).
  assert (news_of c h = [] → db_serial p' = db_serial p → commit_kind now p p' h) as Hquiet.
  { intros E Es. rewrite E in Hw. apply commit_quiet; [|by left]. rewrite Hr. by eapply ok_writes_on; [destruct Hd|]. }
  destruct c as [l|X [t|] q|t|t]; try (apply Hquiet; [done|]); cbn in Hs.
  - by destruct Hs as [[_ ->]|[_ ->]].
  - destruct Hs as [(x & id & _ & _ & _ & _ & ->)|[_ [->| ->]]]; [by destruct (is_ok r)|done..].
  - by destruct Hs as [(id & _ & -> & _)|[_ ->]].
  - clear Hquiet. destruct Hs as [(x & Hx & Hser & ->)|[_ Hp]].
    2: { apply commit_quiet; [|left; by destruct Hp as [->| ->]]. destruct Hp as [->| ->]; apply go_on_refl. }
    destruct Hm as (Ht & Hf & _). destruct Hc as [Hph _]. pose proof (ch_fact _ _ _ _ Hg t x Ht Hx) as Hfact.
    assert (tn_writes x = ∅ → commit_kind now p (finish_tx t x p) h) as Hblank.
    { intros Hn. apply commit_quiet; [cbn; rewrite Hn, overlay_empty; apply go_on_refl|].
      destruct (finish_serial t x p) as [->|(_ & v' & k' & Hv' & ->)]; [by left|]. right. eexists. split; [done|]. by exists t, x, k'. }
    unfold cap_fact in Hfact. destruct (cs_phase g) as [|t0|t0 b n m|t0 b n m i] eqn:Eg.
    + assert (tn_level x ≠ Serializable) as Hl by by destruct (sg_phase h).
      apply commit_quiet.
      * cbn. eapply ok_writes_on; [by destruct Hd|]. eapply ok_writes_old.
        { eapply fact_may_finish; [exact Hf|]. by apply (ho_tx _ _ _ Hh t Ht). }
        intros id Hid. by apply (Hold t x Hx Hl).
      * left. destruct (finish_serial t x p) as [->|(E & _)]; [done|by rewrite E in Hl].
    + apply Hblank, Hfact.
    + apply Hblank, Hfact.
    + destruct Hfact as (Hl & Hw' & (v & k & Hv & Hcnt & Hask) & Hm & Hb & _ & Hdr). subst b.
      eapply (commit_invitation _ _ _ _ t x v k n m i); try done.
      * destruct (ch_time _ _ _ _ Hg) as [_ Hn]. by rewrite Eg in Hn.
      * cbn. by rewrite Hw'.
      * cbn. by rewrite Hl, Hv, Hw'.
  - by subst p'.
Qed.

(** What nobody has seen stays unseen. *)
Lemma fresh_step {B} (c : TxCall Stmt B) now p r p' h id : iso_step run now c p r p' → commit_kind now p p' h →
  db_rows p !! KInvitation id = None →
  (∀ t x v k, db_open p !! t = Some x → tn_view x = Some (v, k) → v !! KInvitation id = None) →
  (∀ e, e ∈ db_serial p → dn_view e !! KInvitation id = None) →
  (∀ t x v k, db_open p' !! t = Some x → tn_view x = Some (v, k) → v !! KInvitation id = None)
  ∧ ∀ e, e ∈ db_serial p' → dn_view e !! KInvitation id = None.
Proof.
  intros Hs Hk Hr Hv He. split.
  - intros t x v k Hx Hx'. destruct (views_step _ _ _ _ _ _ _ _ _ Hs Hx Hx') as [(y & Hy & Hy')|(-> & _)]; [by eapply Hv|done].
  - intros e. destruct Hk as [_ [->|(e0 & -> & t & x & k & Hx & Hvw)]|t x v k n m i Hx _ Hvw _ _ _ _ _ _ _ _ ->].
    + apply He.
    + intros [->|?]%elem_of_cons; [by eapply Hv|by apply He].
    + intros [->|?]%elem_of_cons; [by eapply Hv|by apply He].
Qed.


Lemma alone_keeps {X} (q : Stmt X) h r h' : alone q h r h' → sg_phase h' = sg_phase h ∧ sg_drawn h' = sg_drawn h.
Proof. destruct q; cbn; naive_solver. Qed.

(** The stage and its transaction after a call of its own. *)
Lemma fact_own {B} (c : TxCall Stmt B) now p r p' ids h g h' g' t x' : in_order ids (db_rows p) → db_ok p → holds p ids h → cap_holds p now h g →
  db_moves c h r h' → cap_db c g r g' → iso_step run now c p r p' →
  phase_txn (sg_phase h') = Some t → db_open p' !! t = Some x' → cap_fact h' g' x'.
Proof.
  intros Hd Hok Hh Hg Hm Hc Hs Ht Hx. destruct c as [l|X [t0|] q|t0|t0]; cbn [db_moves] in Hm.
  - destruct Hm as [Hno ->]. destruct Hs as [[-> ->]|[-> ->]]; [|done]. cbn in Ht. injection Ht as <-. cbn in Hx.
    rewrite lookup_insert_eq in Hx. injection Hx as <-. destruct l; cbn in Hc; destruct Hc as [Hph ->]; unfold cap_fact; cbn; rewrite ?Hph; done.
  - destruct Hm as [Hp (ph & Hi & ->)]. cbn in Ht. rewrite (inside_same_txn _ _ _ _ t0 Hp Hi) in Ht. injection Ht as <-.
    assert (∀ x, db_open p !! t0 = Some x → cap_fact h g x) as Hf by (intros; by eapply (ch_fact _ _ _ _ Hg)).
    assert (is_ok r = false → db_open p !! t0 = Some x') as Hfail.
    { intros Er. destruct Hs as [(x & id & _ & _ & _ & _ & ->)|[_ [->| ->]]]; [|done|]; cbn in Hx; rewrite ?Er in Hx; cbn in Hx; by rewrite ?lookup_delete_eq in Hx. }
    assert (is_ok r = true → ∃ x id, db_open p !! t0 = Some x ∧ r = at_out (attempt run q id x (db_rows p)) ∧ x' = performed_by run q id x p) as Hdone.
    { intros Er. destruct Hs as [(x & id & Hx0 & _ & _ & Hr & ->)|[-> _]]; [|done]. rewrite Er in Hx. cbn in Hx. rewrite lookup_insert_eq in Hx. injection Hx as <-. eauto 6. }
    cbn in Hc. unfold cap_runs in Hc. destruct (cs_phase g) as [|t1|t1 b n m|t1 b n m i] eqn:Eg; [| | |done].
    + destruct Hc as [_ ->]. unfold cap_fact. rewrite Eg. cbn [at_phase sg_phase].
      assert (match sg_phase h with Ended _ => False | _ => True end) as Hne.
      { unfold inside in Hi. by destruct (sg_phase h). }
      assert (∀ x, db_open p !! t0 = Some x → tn_level x ≠ Serializable) as Hl.
      { intros x Hx0. specialize (Hf x Hx0). unfold cap_fact in Hf. rewrite Eg in Hf. by destruct (sg_phase h). }
      destruct (is_ok r) eqn:Er.
      * destruct (Hdone eq_refl) as (x & id & Hx0 & _ & ->). specialize (Hl x Hx0). by destruct ph.
      * specialize (Hl x' (Hfail eq_refl)). by destruct ph.
    + destruct q; try done. destruct Hc as (-> & Hclock & ->). unfold cap_fact in Hf. rewrite Eg in Hf.
      destruct r as [n|e].
      * destruct (Hdone eq_refl) as (x & id & Hx0 & Hr & ->). destruct (Hf x Hx0) as [Hl Hw]. unfold cap_fact. cbn [cap_at cs_phase].
        split; [done|]. split; [apply fact_blank; [done|by rewrite attempt_blank]|]. rewrite attempt_blank in Hr by done. cbn in Hr. injection Hr as ->.
        unfold counted. cbn [performed_by tn_view tn_asked]. rewrite attempt_blank by done.
        exists (sight x (db_rows p)). destruct (tn_view x) as [[v k]|] eqn:Ev.
        { exists k. rewrite (sight_view x v k) by (rewrite ?Hl; done). split; [done|]. split; [done|]. eexists. split; [by left|]. intros d.
          rewrite Hw, !overlay_empty. cbn. unfold count_pending. split; intros E; [by injection E|by rewrite E]. }
        { exists (length (db_serial p)). rewrite (sight_fresh x) by by right. split; [done|]. split; [done|]. eexists. split; [by left|]. intros d.
          rewrite Hw, !overlay_empty. cbn. unfold count_pending. split; intros E; [by injection E|by rewrite E]. }
      * exact (Hf x' (Hfail eq_refl)).
    + destruct q; try done. destruct Hc as (-> & Hb & Hlt & Hopen & ->). unfold cap_fact in Hf. rewrite Eg in Hf.
      destruct r as [u|e].
      * destruct (Hdone eq_refl) as (x & id & Hx0 & Hr & ->). destruct (Hf x Hx0) as (Hl & Hw & v & k & Hv & Hcnt & P & HP & Hiff).
        unfold cap_fact. cbn [cap_at cs_phase]. split; [done|].
        assert (in_id i ∈ sg_drawn h) as Hdr.
        { unfold inside in Hi. destruct (sg_phase h); try done. by destruct Hi. }
        split.
        { rewrite performed_writes, Hw, map_union_empty. rewrite attempt_blank in * by done. cbn [run] in *. unfold done_writes. rewrite <- Hr.
          unfold insert_invitation in *. destruct (_ || _); [done|]. by destruct (present _ _). }
        split; [|done]. exists v, k. cbn [performed_by tn_view tn_asked]. rewrite Hv. split; [done|]. split; [done|]. exists P. split; [by right|done].
      * exact (Hf x' (Hfail eq_refl)).
  - destruct (alone_keeps _ _ _ _ Hm) as [Ep Ed]. cbn in Hc. subst g'. rewrite Ep in Ht.
    assert (cap_fact h' g x' = cap_fact h g x') as -> by (unfold cap_fact; by rewrite Ep, Ed).
    assert (tx_call (RunC None q) ≠ Some t) as Hn by done. destruct (ho_tx _ _ _ Hh t Ht) as [Hlt _].
    eapply (ch_fact _ _ _ _ Hg); [done|]. by eapply (iso_back run now (RunC None q)).
  - destruct Hm as (_ & _ & ->). destruct Hc as [_ ->]. cbn in Ht. destruct (is_ok r); [done|]. unfold cap_fact. cbn. by destruct (is_ok r).
  - by subst h'.
Qed.

Lemma own_moves {B} (c : TxCall Stmt B) g r g' h h' now : cap_time now g → (∀ t, cap_txn (cs_phase g) = Some t → phase_txn (sg_phase h) = Some t) →
  cap_db c g r g' → db_moves c h r h' →
  cap_time now g' ∧ ∀ t, cap_txn (cs_phase g') = Some t → phase_txn (sg_phase h') = Some t.
Proof.
  intros [Hn Hp] Ho Hc Hm. destruct c as [l|X [t|] q|t|t]; cbn [cap_db db_moves] in *.
  - assert (cs_phase g' = CapRest ∨ ∃ t, r = Ok t ∧ g' = cap_at (CapOpen t) g) as Hcase.
    { destruct l, Hc as [Hg ->]; try (by left). destruct r; [right; eauto|by left]. }
    assert (cs_clock g' = cs_clock g) as Ec by (destruct l, Hc as [_ ->]; try done; by destruct r).
    destruct Hm as [_ ->]. split; [split; [by rewrite Ec|]; destruct Hcase as [->|(t & _ & ->)]; done|].
    intros t. destruct Hcase as [->|(t' & -> & ->)]; [done|]. done.
  - destruct Hm as [Ht (ph & Hi & ->)]. cbn. rewrite (inside_same_txn _ _ _ _ t Ht Hi). unfold cap_runs in Hc.
    destruct (cs_phase g) as [|t1|t1 b n m|t1 b n m i] eqn:Eg; [| | |done].
    + destruct Hc as [_ ->]. split; [split; [done|by rewrite Eg]|]. by rewrite Eg.
    + destruct q; try done. destruct Hc as (-> & Hclock & ->). split; [split; [done|]|]; destruct r; cbn; try done. by apply Hn.
    + destruct q; try done. destruct Hc as (-> & _ & _ & _ & ->). split; [split; [done|]|]; destruct r; cbn; done.
  - subst g'. destruct (alone_keeps _ _ _ _ Hm) as [-> _]. by split.
  - destruct Hc as [_ ->]. by split.
  - subst g'. by split.
Qed.

Lemma typed_seen ids d : in_order ids d → seen_once ids d.
Proof. intros [H1 _ H4]. by split. Qed.

Lemma born_self now (x : TeamTx) v i n m : count_pending (in_business i) n v = m → asked_count (tn_asked x) (in_business i) n m → (n ≤ now)%Z →
  born now {| dn_view := v; dn_writes := one_invitation (in_id i) i; dn_asked := tn_asked x |} (in_id i) i.
Proof. intros Hc Ha Hn. exists i, n, m. split_and!; try done. apply descends_refl. Qed.

Lemma cap_after now p p' ids h : in_order ids (db_rows p) → in_order ids (db_rows p') → commit_kind now p p' h →
  (∀ b, count_pending b now (db_rows p) ≤ invitationPendingCap) →
  (∀ t x v k, db_open p !! t = Some x → tn_view x = Some (v, k) → seen_once ids v ∧ accounted now (unseen x p) v (db_rows p)) →
  (∀ e, e ∈ db_serial p → seen_once ids (dn_view e)) →
  (∀ i, i ∈ sg_drawn h → db_rows p !! KInvitation i = None ∧ ∀ e, e ∈ db_serial p → dn_view e !! KInvitation i = None) →
  ∀ b, count_pending b now (db_rows p') ≤ invitationPendingCap.
Proof.
  intros Hd Hd' Hk Hcap Hv He Hf b. destruct Hk as [Hgo _|t x v k n m i Hx Hl Hvw Hw Hs Hcnt Hask Hlt Hn Hdr Hr _].
  - etrans; [|apply (Hcap b)]. apply count_go_on; [apply Hd|apply Hd'|done|lia].
  - rewrite Hr. destruct (Hf _ Hdr) as [Hnone Hdn]. destruct (Hv t x v k Hx Hvw) as [Hsv Ha].
    destruct (pending_at now i) eqn:Ep; [|by etrans; [apply count_dead; [apply Hd| |]|]].
    destruct (decide (in_business i = b)) as [<-|Hne].
    + rewrite count_new by (done || apply Hd). assert (count_pending (in_business i) now (db_rows p) ≤ m); [|lia].
      rewrite <- Hcnt. apply count_le; [apply Hsv|apply Hd|]. intros id inv Hi Hb Hp.
      destruct (inviting_sees_all p now x (in_business i) m n i v k ids Hl Hvw Hw Hs Hsv) with (id := id) (inv := inv) as (inv0 & Hi0 & Hde); try done; [auto|].
      exists inv0. split; [done|]. split; [by rewrite <- (de_business _ _ Hde)|]. by eapply pending_weaken.
    + etrans; [|apply (Hcap b)]. apply count_le; [apply Hd|apply one_typed, Hd|]. intros id inv Hi Hb Hp. destruct (decide (id = in_id i)) as [->|Hid].
      * rewrite one_there in Hi. congruence.
      * rewrite one_elsewhere in Hi by done. eauto.
Qed.

Lemma views_after {B} (c : TxCall Stmt B) now p r p' ids h : db_ok p → in_order ids (db_rows p) → iso_step run now c p r p' → commit_kind now p p' h →
  (∀ t x v k, db_open p !! t = Some x → tn_view x = Some (v, k) → seen_once ids v ∧ accounted now (unseen x p) v (db_rows p)) →
  (∀ i, i ∈ sg_drawn h → ∀ t x v k, db_open p !! t = Some x → tn_view x = Some (v, k) → v !! KInvitation i = None) →
  ∀ t x v k, db_open p' !! t = Some x → tn_view x = Some (v, k) → seen_once ids v ∧ accounted now (unseen x p') v (db_rows p').
Proof.
  intros Hok Hd Hs Hk Hv Hf t x' v k Hx' Hvw. destruct (views_step _ _ _ _ _ _ _ _ _ Hs Hx' Hvw) as [(x & Hx & Hvx)|(-> & _ & -> & _)].
  2: { split; [by apply typed_seen|apply accounted_self]. }
  destruct (Hv t x v k Hx Hvx) as [Hseen Ha]. split; [done|]. rewrite (unseen_view x' x p') by congruence.
  assert (∀ v k, tn_view x = Some (v, k) → k ≤ length (db_serial p)) as Hlen by (intros ? ?; by apply (proj1 Hok t x Hx)).
  destruct Hk as [Hgo Hser|t1 x1 v1 k1 n m i Hx1 Hl1 Hv1 Hw1 Hs1 Hcnt Hask Hlt Hn Hdr Hr Hser].
  - eapply accounted_mono; [done| |exact Hgo|exact Ha]. apply unseen_mono; [done|]. destruct Hser as [?|(e & ? & _)]; [by left|right; eauto].
  - rewrite Hr. intros id inv Hi Hp. destruct (decide (id = in_id i)) as [->|Hid].
    + rewrite one_there in Hi. injection Hi as <-. right. split; [by eapply (Hf _ Hdr t x)|]. eexists. split; [|by eapply born_self].
      eapply unseen_new; [exact Hvx|by eapply Hlen|exact Hser].
    + rewrite one_elsewhere in Hi by done. assert (unseen x p ⊆ unseen x p') as Hsub by (apply unseen_mono; [done|right; eauto]).
      destruct (Ha id inv Hi Hp) as [?|(Hno & e & He & Hb)]; [by left|right]. split; [done|]. exists e. split; [auto|done].
Qed.

Lemma done_after now p p' ids h : commit_kind now p p' h →
  (∀ t x v k, db_open p !! t = Some x → tn_view x = Some (v, k) → seen_once ids v ∧ accounted now (unseen x p) v (db_rows p)) →
  (∀ e, e ∈ db_serial p → seen_once ids (dn_view e)) → ∀ e, e ∈ db_serial p' → seen_once ids (dn_view e).
Proof.
  intros Hk Hv He e. destruct Hk as [_ [->|(e0 & -> & t & x & k & Hx & Hvw)]|t x v k n m i Hx _ Hvw _ _ _ _ _ _ _ _ ->].
  - apply He.
  - intros [->|?]%elem_of_cons; [by eapply Hv|by apply He].
  - intros [->|?]%elem_of_cons; [by eapply Hv|by apply He].
Qed.

Lemma capped_db {B} (c : TxCall Stmt B) s p' hgs i h g r h' g' : capped s hgs → hgs !! i = Some (h, g) → db_moves c h r h' → cap_db c g r g' →
  iso_step run (st_now s) c (st_db s) r p' → capped (with_db p' (db_entries c (st_now s) (st_db s) p') s) (<[i := (h', g')]> hgs).
Proof.
  intros [Hsafe Hcap Hold Hviews Hdone Hh] Hi Hm Hc Hs.
  assert ((fst <$> hgs) !! i = Some h) as Hi1 by by rewrite list_lookup_fmap, Hi.
  pose proof (team_db c s p' _ i h r h' Hsafe Hi1 Hm Hs) as Hsafe'. destruct Hsafe as [Hok Hd Hown Her Hl Hho Hst].
  pose proof (Hh i h g Hi) as Hg. pose proof (sa_order _ _ Hsafe') as Hd'. cbn in Hd'.
  pose proof (cap_kind c _ _ _ _ _ _ _ _ _ Hd (Hho i h Hi1) Hg Hold Hm Hc Hs) as Hk.
  assert (∀ j hj gj id, hgs !! j = Some (hj, gj) → id ∈ sg_drawn hj → db_rows (st_db s) !! KInvitation id = None) as Hnone.
  { intros j hj gj id Hj Hid. apply (ho_drawn _ _ _ (Hho j hj ltac:(by rewrite list_lookup_fmap, Hj)) _ Hid). }
  split; cbn [with_db st_db st_now st_ids].
  - by rewrite list_fmap_insert.
  - apply (cap_after _ _ _ (st_ids s) h Hd Hd' Hk Hcap Hviews Hdone). intros id Hid. split; [by eapply Hnone|]. by apply (ch_fresh _ _ _ _ Hg).
  - eapply (iso_kept run old_invitations); try done; [intros; by eapply old_local|intros; by apply old_new|].
    destruct c as [l|X [t|] q|t|t]; try done. intros x id Hx Hxo Ho Hu Hr. apply old_kept; try done.
    cbn in Hc. unfold cap_runs in Hc. destruct Hm as [Ht _]. pose proof (ch_fact _ _ _ _ Hg t x Ht Hx) as Hf. unfold cap_fact in Hf.
    destruct (cs_phase g) as [|t1|t1 b n m|t1 b n m i1]; [left; by destruct Hc|left; by destruct q|right; by destruct Hf|done].
  - apply (views_after c _ _ _ _ _ h Hok Hd Hs Hk Hviews). intros id Hid. by apply (ch_fresh _ _ _ _ Hg).
  - by apply (done_after _ _ _ _ h Hk Hviews).
  - intros j hj gj [(<- & [= <- <-] & _)|[Hne Hj]]%list_lookup_insert_Some.
    + destruct (own_moves c g r g' h h' _ (ch_time _ _ _ _ Hg) (ch_own _ _ _ _ Hg) Hc Hm) as [H1 H2]. split; [done|done| |].
      * intros t x Ht Hx. by apply (fact_own c (st_now s) (st_db s) r p' (st_ids s) h g h' g' t x Hd Hok (Hho i h Hi1) Hg).
      * intros id Hid. assert (id ∈ sg_drawn h) as Hid0 by by eapply moves_drawn.
        destruct (ch_fresh _ _ _ _ Hg id Hid0) as [Hv He]. by eapply (fresh_step c); [exact Hs|exact Hk|by eapply Hnone| |].
    + pose proof (Hh j hj gj Hj) as Hgj. destruct Hgj as [H1 H2 H3 H4]. split; [done|done| |].
      * intros t x Ht Hx. apply (H3 t); [done|].
        assert ((fst <$> hgs) !! j = Some hj) as Hj1 by by rewrite list_lookup_fmap, Hj.
        destruct (ho_tx _ _ _ (Hho j hj Hj1) t Ht) as [Hlt _].
        destruct (decide (tx_call c = Some t)) as [E|E]; [|by eapply iso_back].
        destruct c as [l|X tx q|t'|t']; cbn in E, Hm; try done; [subst tx|injection E as ->..].
        { destruct Hne. by eapply (st_apart _ Hst i j); [| |apply Hm|]. }
        { destruct Hne. by eapply (st_apart _ Hst i j); [| |apply Hm|]. }
        rewrite Hs in Hx. cbn in Hx. by rewrite lookup_delete_eq in Hx.
      * intros id Hid. destruct (H4 id Hid) as [Hv He]. by eapply (fresh_step c); [exact Hs|exact Hk|by eapply Hnone| |].
Qed.

(** Rows changed by others, or time. *)
Lemma cap_holds_time p now now' h g : (now ≤ now')%Z → cap_holds p now h g → cap_holds p now' h g.
Proof.
  intros Hn [[H1 H1'] H2 H3 H4]. split; try done. split; [intros n Hc; specialize (H1 n Hc); lia|]. destruct (cs_phase g); try done; lia.
Qed.

Lemma cap_call B (c : TeamCall B) s b s' hgs i hg (K : B → Stage * CapStage → Prop) : capped s hgs → hgs !! i = Some hg → both_spec B c hg K →
  call_step B c s b s' → ∃ hg', K b hg' ∧ capped s' (<[i := hg']> hgs).
Proof.
  intros Hcap Hi Hsp Hs. destruct (Hsp b) as (h' & g' & Hm & Hc & Hk). exists (h', g'). split; [done|]. clear Hsp Hk. destruct hg as [h g]. cbn in Hm, Hc.
  destruct c; cbn in Hm, Hc, Hs; try (subst h' g'; rewrite list_insert_id by done; by subst s').
  - destruct Hs as (p' & Hp & ->). by eapply capped_db.
  - destruct Hs as [-> ->]. subst h' g'. destruct Hcap as [Hsafe H1 H2 H3 H4 H5]. split; try done.
    + rewrite list_fmap_insert. cbn. rewrite list_insert_id; [done|]. by rewrite list_lookup_fmap, Hi.
    + intros j hj gj [(<- & [= <- <-] & _)|[_ Hj]]%list_lookup_insert_Some; [|by apply (H5 j)].
      destruct (H5 i h g Hi) as [[T1 T2] O F R]. split; [split; [by intros n [= <-]|done]|done..].
  - destruct Hs as [Hid ->]. subst h' g'. rename b into nid. pose proof Hcap as [Hsafe H1 H2 H3 H4 H5].
    assert ((fst <$> hgs) !! i = Some h) as Hi1 by by rewrite list_lookup_fmap, Hi.
    assert (st_ids s ⊆ nid :: st_ids s) as Hsub by (intros x; apply list_elem_of_further).
    assert (∀ v, seen_once (st_ids s) v → seen_once (nid :: st_ids s) v) as Hseen by (intros v [? ?]; split; auto).
    split; cbn; try done.
    + rewrite list_fmap_insert. by apply (team_draw nid s (fst <$> hgs) i h).
    + intros t x v k Hx Hv. destruct (H3 t x v k Hx Hv). auto.
    + auto.
    + intros j hj gj [(<- & [= <- <-] & _)|[_ Hj]]%list_lookup_insert_Some; [|by apply (H5 j)].
      destruct (H5 i h g Hi) as [T O F R]. split; [done|done| |].
      * intros t x Ht Hx. specialize (F t x Ht Hx). unfold cap_fact in *. cbn. destruct (cs_phase g); try done.
        destruct F as (? & ? & ? & ? & ? & ? & ?). split_and!; try done. by right.
      * cbn. intros id' [->|Hd]%elem_of_cons; [|by apply R]. assert (∀ v, seen_once (st_ids s) v → v !! KInvitation nid = None) as Hfr.
        { intros v [_ Hv]. apply eq_None_not_Some. intros Hs. by apply Hid, Hv. }
        split; [intros t x v k Hx Hv; by apply Hfr, (H3 t x v k)|intros e He; by apply Hfr, H4].
Qed.

Lemma cap_more s hgs : capped s hgs → capped s (hgs ++ [(idle, cap_idle)]).
Proof.
  intros [Hsafe H1 H2 H3 H4 H5]. split; try done.
  - rewrite fmap_app. by apply team_more.
  - intros j hj gj [Hj|[_ [_ [= <- <-]]%list_lookup_singleton_Some]]%lookup_app_Some; [by apply (H5 j)|].
    split; [by split|done|done|]. intros id Hid. by apply elem_of_nil in Hid.
Qed.

(** What processes do not do adds no invitation. *)
Lemma cap_quiet s s' hgs : capped s hgs → safe s' (fst <$> hgs) → (st_now s ≤ st_now s')%Z → st_ids s' = st_ids s →
  db_serial (st_db s') = db_serial (st_db s) → invitations_go_on [] (db_rows (st_db s)) (db_rows (st_db s')) →
  all_keep old_invitations (st_db s') →
  (∀ t x', db_open (st_db s') !! t = Some x' → ∃ x, db_open (st_db s) !! t = Some x
     ∧ tn_level x' = tn_level x ∧ tn_writes x' = tn_writes x ∧ tn_asked x' = tn_asked x
     ∧ (tn_view x' = tn_view x ∨ tn_view x = None ∧ tn_view x' = Some (db_rows (st_db s), length (db_serial (st_db s))))) →
  capped s' hgs.
Proof.
  intros [Hsafe Hcap Hold Hviews Hdone Hh] Hsafe' Hn Hids Hser Hgo Hold' Hx.
  pose proof (sa_order _ _ Hsafe) as Hd. pose proof (sa_order _ _ Hsafe') as Hd'.
  split; [done| |done|rewrite Hids|by rewrite Hids, Hser|].
  - intros b. etrans; [|apply (Hcap b)]. apply count_go_on; [apply Hd|apply Hd'|done|done].
  - intros t x' v k Hx' Hv. destruct (Hx t x' Hx') as (x & Hx0 & _ & _ & _ & [Ev|(_ & Ev)]).
    + rewrite Ev in Hv. destruct (Hviews t x v k Hx0 Hv) as [Hs Ha]. split; [done|]. eapply accounted_mono; [done| |exact Hgo|exact Ha].
      unfold unseen. by rewrite Ev, Hser.
    + rewrite Ev in Hv. injection Hv as <- <-. split; [by apply typed_seen|]. by eapply accounted_mono; [done| |exact Hgo|apply (accounted_self _ (unseen x' (st_db s')))].
  - intros i h g Hi. destruct (cap_holds_time _ _ _ _ _ Hn (Hh i h g Hi)) as [H1 H2 H3 H4]. split; [done|done| |].
    + intros t x' Ht Hx'. destruct (Hx t x' Hx') as (x & Hx0 & E1 & E2 & E3 & E4). specialize (H3 t x Ht Hx0). unfold cap_fact, counted in *.
      rewrite E1, E2, E3. destruct E4 as [->|[E4 _]]; [done|]. destruct (cs_phase g); try done; naive_solver congruence.
    + intros id Hid. rewrite Hser. destruct (H4 id Hid) as [Hv He]. split; [|done]. intros t x' v k Hx' Hv'.
      destruct (Hx t x' Hx') as (x & Hx0 & _ & _ & _ & [Ev|(_ & Ev)]).
      * rewrite Ev in Hv'. by eapply Hv.
      * rewrite Ev in Hv'. injection Hv' as <- _. destruct (sa_holds _ _ Hsafe i h ltac:(by rewrite list_lookup_fmap, Hi)) as [_ _ _ Hdr].
        by apply Hdr.
Qed.

Lemma cap_env s hgs s' : capped s hgs → env s s' → capped s' hgs.
Proof.
  intros Hcap He. pose proof Hcap as [Hsafe _ Hold _ _ _]. pose proof (team_env _ _ _ Hsafe He) as Hsafe'.
  pose proof (sa_order _ _ Hsafe) as Hd. pose proof (sa_db _ _ Hsafe) as Hok. destruct He as [t|t x Hx Hv|now Hn|id Hid|id d0 l l' Hin Hf|w Hw Hf].
  - apply (cap_quiet s); try done; [apply go_on_refl|by apply drop_kept|]. cbn. intros t' x' [_ Hx]%lookup_delete_Some. exists x'. by split_and!; [..|left].
  - apply (cap_quiet s); try done; [apply go_on_refl| |].
    + unfold all_keep. cbn. intros t' y [[<- <-]|[_ Hy]]%lookup_insert_Some; [exact (Hold t x Hx)|by apply Hold].
    + cbn. intros t' y [[<- <-]|[_ Hy]]%lookup_insert_Some; [exists x; by split_and!; [..|right]|exists y; by split_and!; [..|left]].
  - apply (cap_quiet s); try done; [apply go_on_refl|]. intros t x' Hx. exists x'. by split_and!; [..|left].
  - apply (cap_quiet s); try done; [apply go_on_refl|]. intros t x' Hx. exists x'. by split_and!; [..|left].
  - apply (cap_quiet s); try done.
    + by apply (erase_user_in_order (st_ids s)).
    + eapply write_rows_kept; [intros; by eapply old_local|done..].
    + cbn. intros t x' Hx. exists x'. by split_and!; [..|left].
  - apply (cap_quiet s); try done.
    + by apply (foreign_in_order (st_ids s)).
    + eapply write_rows_kept; [intros; by eapply old_local|done..].
    + cbn. intros t x' Hx. exists x'. by split_and!; [..|left].
Qed.

(** A quiet start within the cap. *)
Definition capped_start (s : Store) : Prop :=
  quiet_start s ∧ ∀ b, count_pending b (st_now s) (db_rows (st_db s)) ≤ invitationPendingCap.

Lemma cap_start s : capped_start s → capped s [].
Proof.
  intros [Hq Hc]. pose proof Hq as (Ho & Hs & _). split; [by apply team_start|done|..].
  - intros t x. by rewrite Ho, lookup_empty.
  - intros t x v k. by rewrite Ho, lookup_empty.
  - intros e. rewrite Hs. by intros ?%elem_of_nil.
  - by intros i h g.
Qed.

Section cap.
Context {U : UUIDText}.
Variables (deps : BusinessDeps) (sha256_hex : string → string).
Hypothesis owner_text : uuid_parse SystemRoleOwnerID = Some ownerRoleID.

Lemma reachable_capped s : reachable call_step env (starts deps sha256_hex) capped_start s → ∃ hgs, capped (sy_store s) hgs.
Proof.
  apply (sound_reachable call_step env (starts deps sha256_hex) both_spec capped (idle, cap_idle)).
  - intros. by eapply cap_call.
  - apply cap_more.
  - apply cap_env.
  - intros p Hp. eapply wp_mono; [|done|apply wp_both; [by apply (team_starts_spec deps sha256_hex)|by apply (starts_cap deps sha256_hex)]].
    + intros B c hg K K' HK Hs b. destruct (Hs b) as (h' & g' & ? & ? & ?). exists h', g'. auto.
  - apply cap_start.
Qed.

(** C24: no organization ever has more than twenty pending invitations, however many requests
    create them at once on however many replicas: of two whose counts missed each other's
    insertion, at most one commits. *)
Theorem pending_capped s b : reachable call_step env (starts deps sha256_hex) capped_start s →
  count_pending b (st_now (sy_store s)) (db_rows (st_db (sy_store s))) ≤ invitationPendingCap.
Proof. intros (hgs & Hs)%reachable_capped. apply Hs. Qed.
End cap.
