(* ===== verification/TeamDemo.v ===== *)
(** * Teams on concrete data

    A server that answers every call, the witnesses of the theorems on teams, and the
    runs that show where the code departs from its documents. *)

From S2P Require Import Prelude Json GoTime Types Users Prog Pg Isolation Authz TeamStore TeamService TeamSystem TeamOrder TeamOps TeamCap.
Local Open Scope go_scope.

#[local] Existing Instance decimal_uuid.

(** ** The server *)

Notation TeamTx := (Tx (K := Key) (V := Row)).
Notation TeamDb := (Db (K := Key) (V := Row)).

(** What happens before an invitation is marked, and before a transaction commits. *)
Record TeamHooks := { th_mark : Store → Store; th_commit : Store → Store }.
Definition no_hooks : TeamHooks := {| th_mark := λ s, s; th_commit := λ s, s |}.

(** A commit goes through when nothing serializable was missed. *)
Definition may_commit (x : TeamTx) (p : TeamDb) : bool :=
  negb (bool_decide (tn_level x = Serializable)) || match unseen x p with [] => true | _ => false end.

Definition db_server (now : Z) {B} (c : TxCall Stmt B) : TeamDb → B * TeamDb :=
  match c in TxCall _ B return TeamDb → B * TeamDb with
  | StartC l => λ p, (Ok (db_next p), open_tx l now p)
  | RunC None q => λ p,
      let e := run _ q {| mo_now := now; mo_id := 0%N |} (db_rows p) (db_rows p) in
      if decide (unblocked None (Isolation.taken e) p) then (at_out e, write_rows (done_writes e) p) else (Err DbFailed, p)
  | RunC (Some t) q => λ p,
      match db_open p !! t with
      | Some x =>
          let e := attempt run q 0%N x (db_rows p) in
          if decide (unblocked (Some t) (Isolation.taken e) p ∧ unchanged x (Isolation.taken e) (db_rows p))
          then (at_out e, if is_ok (at_out e) then put_tx t (performed_by run q 0%N x p) p else drop_tx t p)
          else (Err DbFailed, drop_tx t p)
      | None => (Err DbFailed, p)
      end
  | FinishC t => λ p,
      match db_open p !! t with
      | Some x => if may_commit x p then (Ok tt, finish_tx t x p) else (Err DbFailed, drop_tx t p)
      | None => (Err DbFailed, p)
      end
  | UndoC t => λ p, (tt, drop_tx t p)
  end.

Definition before_call (hk : TeamHooks) {B} (c : TxCall Stmt B) : Store → Store :=
  match c with
  | RunC (Some _) (MarkAccepted _ _ _) => th_mark hk
  | FinishC _ => th_commit hk
  | _ => λ s, s
  end.

(** Another token for each id drawn. *)
Definition fresh_token (s : Store) : string := Nat.iter (length (st_ids s) - 2) (String "'") "token".

Definition server (hk : TeamHooks) B (c : TeamCall B) : Store → B * Store :=
  match c in TeamCall B return Store → B * Store with
  | DbC c => λ s, let s := before_call hk c s in
      let '(r, p') := db_server (st_now s) c (st_db s) in (r, with_db p' (db_entries c (st_now s) (st_db s) p') s)
  | NowC => λ s, (st_now s, s)
  | NewIDC => λ s, let id := above (st_ids s) in (id, draw id s)
  | RandomC => λ s, (Ok (fresh_token s), s)
  | FirstActionC _ => λ s, (Ok false, s)
  | InvalidateMemberC _ _ | InvalidateRoleC _ _ | NoteC _ => λ s, (tt, s)
  end.

(** Alone it is one the system allows. *)
Lemma may_commit_serializes x p : may_commit x p = true → serializes x p.
Proof.
  unfold may_commit, serializes. intros Hm Hl. rewrite bool_decide_true in Hm by done. cbn in Hm.
  destruct (unseen x p); [constructor|done].
Qed.

Lemma db_server_step now {B} (c : TxCall Stmt B) p : iso_step run now c p (db_server now c p).1 (db_server now c p).2.
Proof.
  destruct c as [l|X [t|] q|t|t]; cbn.
  - by left.
  - destruct (db_open p !! t) as [x|] eqn:E; [|by right; split; [|left]]. case_decide as Hd; [|by right; split; [|right]].
    left. exists x, 0%N. by destruct Hd.
  - case_decide; [|by right]. left. exists 0%N. split_and!; [done|done|by left].
  - destruct (db_open p !! t) as [x|] eqn:E; [|by right; split; [|left]]. destruct (may_commit x p) eqn:Em; [|by right; split; [|right]].
    left. exists x. split_and!; [done|by apply may_commit_serializes|done].
  - done.
Qed.

Lemma team_server_step B (c : TeamCall B) s : call_step B c s (server no_hooks B c s).1 (server no_hooks B c s).2.
Proof.
  destruct c as [B c| | | | | | |]; cbn; try done.
  - assert (before_call no_hooks c s = s) as -> by by destruct c as [|? [] []| |].
    pose proof (db_server_step (st_now s) c (st_db s)) as Hs. destruct (db_server (st_now s) c (st_db s)) as [r p']. by exists p'.
  - split; [apply above_unused|done].
Qed.

Notation served p s := (serve (server no_hooks) p s).
Notation hash_of := (λ token : string, token).

(** ** A bakery *)

Definition no_deps : BusinessDeps := {| bd_first_actions := true; bd_telemetry := false |}.

Definition demo_user (id : uuid) (requested : option Z) : User := {|
  us_id := id; us_email := ""; us_name := ""; us_password_hash := ""; us_preferred_locale := "ru"; us_email_verified := true;
  us_email_verified_at := None; us_deleted_at := requested; us_deletion_requested_at := requested; us_deletion_canceled_at := None;
  us_created_at := 0; us_updated_at := 0 |}.

Definition demo_business (id : uuid) (name : string) : Business := {|
  bz_first_action := false; bz_id := id; bz_name := name; bz_category := ""; bz_address := ""; bz_phone := ""; bz_website := None;
  bz_description := ""; bz_logo_url := ""; bz_settings := []; bz_deleted_at := None; bz_deletion_requested_at := None;
  bz_deletion_canceled_at := None; bz_created_at := 0; bz_updated_at := 0 |}.

Definition demo_role (id : uuid) (business : option uuid) (permissions : list Permission) : Role := {|
  ro_id := id; ro_business := business; ro_name := ""; ro_description := ""; ro_permissions := permissions;
  ro_is_system := bool_decide (business = None); ro_created_by := None; ro_updated_by := None; ro_created_at := Some 0%Z;
  ro_updated_at := Some 0%Z |}.

Definition demo_member (b u r : uuid) : Member := {|
  mb_business := b; mb_user := u; mb_role := r; mb_status := "active"; mb_invited_by := None; mb_invited_at := None;
  mb_joined_at := Some 0%Z; mb_role_changed_at := None; mb_role_changed_by := None |}.

Definition all_permissions : list Permission := concat (snd <$> AllPermissions).

(** Owner 7 of business 9, and user 8, who is nothing to it yet; role 5 only reads. *)
Definition bakery_rows (more : list (Key * Row)) : rows := list_to_map (more ++ [
  (KUser 7, RUser (demo_user 7 None)); (KUser 8, RUser (demo_user 8 None));
  (KRole ownerRoleID, RRole (demo_role ownerRoleID None all_permissions)); (KRole 5, RRole (demo_role 5 (Some 9%N) [PermMembersRead]));
  (KBusiness 9, RBusiness (demo_business 9 "Bakery")); (KMember 9 7, RMember (demo_member 9 7 ownerRoleID))]).

Definition store (d : rows) : Store := {|
  st_db := {| db_rows := d; db_open := ∅; db_next := 0; db_serial := [] |}; st_now := 0; st_ids := [uuid_nil; 9%N]; st_erasing := []; st_log := [] |}.

Definition bakery : Store := store (bakery_rows []).

Definition as_owner (u : uuid) : option BusinessContext :=
  Some {| bc_business_id := 9; bc_user_id := u; bc_role_id := ownerRoleID; bc_permissions := all_permissions |}.

Definition invite_reader : option InvitationRequest := Some {| iq_role_id := 5; iq_expires_in := None |}.
Definition invited : Store := (served (forget (InvitationsCreate no_deps hash_of (as_owner 7) invite_reader)) bakery).2.
Definition joined : Store := (served (forget (Accept hash_of (Some 8%N) "token")) invited).2.

Definition rows_of (s : Store) : rows := db_rows (st_db s).
Definition status_of {A} (r : result Refusal A) : option Z := match r with Ok _ => None | Err e => Some (rf_status e) end.
Definition role_of_member (b u : uuid) (s : Store) : option uuid := mb_role <$> member_at b u (rows_of s).

(** A store of rows written down is a start if each row says it is. *)
Definition keyed (kr : Key * Row) : bool :=
  match kr with
  | (KUser id, RUser u) => bool_decide (us_id u = id)
  | (KBusiness id, RBusiness b) => bool_decide (bz_id b = id)
  | (KRole id, RRole r) => bool_decide (ro_id r = id)
  | (KMember b u, RMember m) => bool_decide (mb_business m = b) && bool_decide (mb_user m = u)
  | _ => false
  end.

Definition has_owner (d : rows) (kr : Key * Row) : bool :=
  match kr with
  | (KBusiness b, _) => existsb (λ m, bool_decide (mb_business m = b) && bool_decide (mb_role m = ownerRoleID) && active m) (members d)
  | _ => true
  end.

Definition seeds (d : rows) : bool := match role_at ownerRoleID d with Some r => ro_is_system r && bool_decide (ro_business r = None) | None => false end.

Lemma team_quiet_store d : forallb keyed (map_to_list d) = true → forallb (has_owner d) (map_to_list d) = true → seeds d = true → quiet_start (store d).
Proof.
  intros Hk Ho Hs. rewrite forallb_forall in Hk, Ho.
  assert (∀ k r, d !! k = Some r → keyed (k, r) = true) as Hkr.
  { intros k r Hr. by apply Hk, list_elem_of_In, elem_of_map_to_list. }
  assert (typed d) as Ht.
  { intros k r Hr. apply Hkr in Hr. destruct k, r; try done; cbn in Hr; by to_prop. }
  split_and!; try done.
  - unfold seeds in Hs. destruct (role_at ownerRoleID d) as [r|] eqn:E; [|done]. apply role_at_Some in E. to_prop. by exists r.
  - intros b [r Hr]. specialize (Ho (KBusiness b, r)). rewrite <- list_elem_of_In, elem_of_map_to_list in Ho. specialize (Ho Hr).
    cbn in Ho. apply existsb_exists in Ho as (m & Hm%list_elem_of_In & Hb). to_prop. unfold members in Hm.
    apply list_elem_of_omap in Hm as ([k r'] & Hr'%elem_of_map_to_list & He). destruct r' as [| | |m'|]; try done. injection He as ->.
    pose proof (Ht _ _ Hr') as Hf. destruct k as [| | |b' u| | |]; try done. destruct Hf as (E1 & E2). exists u, m.
    replace b with b' by congruence. done.
  - intros i [r Hr]. specialize (Hkr _ _ Hr). by destruct r.
Qed.

Notation reached := (reachable call_step env (starts no_deps hash_of) quiet_start).

Lemma bakery_reached : reached {| sy_store := bakery; sy_procs := [] |}.
Proof. exists bakery. split; [|apply rtc_refl]. apply team_quiet_store; vm_compute; reflexivity. Qed.

Lemma invited_reached : reached {| sy_store := invited; sy_procs := [Ret tt] |}.
Proof.
  pose proof (serve_reachable call_step env (starts no_deps hash_of) (server no_hooks) quiet_start
    (forget (InvitationsCreate no_deps hash_of (as_owner 7) invite_reader)) bakery [] team_server_step (start_invite _ _ _ _) bakery_reached) as H.
  exact H.
Qed.

Definition erased (e : Entry) : bool := match e with EErase _ _ _ => true | ECommit _ _ _ => false end.

(** The owner alone cannot leave, and is still there: nobody was erased. *)
Lemma owner_lost_only_by_erasure_witness :
  let leave := MembersRemove no_deps (as_owner 7) "7" in
  let left := (served (forget leave) bakery).2 in
  status_of (served leave bakery).1 = Some 422%Z ∧ is_Some (rows_of left !! KBusiness 9) ∧ ∃ u, active_owner 9 u (rows_of left).
Proof.
  split; [vm_compute; reflexivity|]. split; [eexists; vm_compute; reflexivity|].
  pose proof (λ ps, owner_lost_only_by_erasure no_deps hash_of eq_refl
    {| sy_store := (served (forget (MembersRemove no_deps (as_owner 7) "7")) bakery).2; sy_procs := ps |} 9%N) as H. cbn [sy_store] in H.
  pose proof (serve_reachable call_step env (starts no_deps hash_of) (server no_hooks) quiet_start
    (forget (MembersRemove no_deps (as_owner 7) "7")) bakery [] team_server_step (start_remove _ _ _ _) bakery_reached) as Hr.
  destruct (H _ Hr) as [Ho|(id & d0 & d1 & Hin & _)]; [eexists; vm_compute; reflexivity|exact Ho|].
  assert (existsb erased (st_log (served (forget (MembersRemove no_deps (as_owner 7) "7")) bakery).2) = false) as Hlog by (vm_compute; reflexivity).
  rewrite <- not_true_iff_false in Hlog. destruct Hlog. apply existsb_exists. exists (EErase id d0 d1). split; [by apply list_elem_of_In|reflexivity].
Defined.

(** Somebody invited joins. *)
Lemma joins_are_fair_witness :
  role_of_member 9 8 invited = None ∧ role_of_member 9 8 joined = Some 5%N ∧ fair_history (st_log joined).
Proof.
  split; [vm_compute; reflexivity|]. split; [vm_compute; reflexivity|].
  pose proof (λ ps, joins_are_fair no_deps hash_of eq_refl {| sy_store := joined; sy_procs := ps |}) as H. cbn [sy_store] in H.
  eapply H. unfold joined. apply serve_reachable; [apply team_server_step|apply start_accept|apply invited_reached].
Defined.

(** Twenty times, and once more. *)
Definition invite : prog (result Refusal (Invitation * string)) := InvitationsCreate no_deps hash_of (as_owner 7) invite_reader.
Definition invited_times (n : nat) : Store := Nat.iter n (λ s, (served (forget invite) s).2) bakery.

Lemma invited_times_reached n : ∃ ps, reachable call_step env (starts no_deps hash_of) capped_start {| sy_store := invited_times n; sy_procs := ps |}.
Proof.
  induction n as [|n [ps IH]].
  - exists [], bakery. split; [|apply rtc_refl]. split; [apply team_quiet_store; vm_compute; reflexivity|]. intros b. vm_compute. lia.
  - eexists. change (invited_times (S n)) with (served (forget invite) (invited_times n)).2.
    apply serve_reachable; [apply team_server_step|apply start_invite|exact IH].
Qed.

Lemma pending_capped_witness :
  count_pending 9 0 (rows_of (invited_times 20)) = 20 ∧ status_of (served invite (invited_times 20)).1 = Some 429%Z
  ∧ count_pending 9 0 (rows_of (invited_times 21)) ≤ invitationPendingCap.
Proof.
  split; [vm_compute; reflexivity|]. split; [vm_compute; reflexivity|]. destruct (invited_times_reached 21) as [ps Hps].
  apply (pending_capped (U := decimal_uuid) no_deps hash_of eq_refl {| sy_store := invited_times 21; sy_procs := ps |} 9%N Hps).
Defined.

(** ** Where requests overlap *)

Definition write_now (k : Key) (r : Row) (s : Store) : Store := with_db (write_rows {[k := Some r]} (st_db s)) [] s.

(** Every transaction that has not read yet waits from now on. *)
Definition all_wait (s : Store) : Store :=
  let p := st_db s in
  with_db {| db_rows := db_rows p; db_open := (λ x, match tn_view x with None => waiting x p | Some _ => x end) <$> db_open p;
             db_next := db_next p; db_serial := db_serial p |} [] s.

Definition accepts (u : uuid) (s : Store) : Store :=
  (served (forget (Accept hash_of (Some u) "token")) (write_now (KUser u) (RUser (demo_user u None)) s)).2.

(** Two accept one invitation: the second, if it waited for the first, is answered 500,
    if it came later 410. *)
Example loser_of_a_race :
  status_of (serve (server {| th_mark := λ s, accepts 6 (all_wait s); th_commit := λ s, s |}) (Accept hash_of (Some 8%N) "token") invited).1 = Some 500%Z
  ∧ status_of (served (Accept hash_of (Some 8%N) "token") (accepts 6 invited)).1 = Some 410%Z.
Proof. vm_compute. by split. Qed.

Definition two_owners : Store := store (bakery_rows [(KMember 9 8, RMember (demo_member 9 8 ownerRoleID))]).
(** The trigger lets each of two owners go while the other is there; both commit. *)
Definition after_check (id : uuid) (s : Store) : Store := erasing ((id, rows_of s) :: st_erasing s) s.
Definition after_erasure (id : uuid) (d0 : rows) (l : list (uuid * rows)) (s : Store) : Store :=
  erasing l (with_db (write_rows (erase_user id (rows_of s)) (st_db s)) [EErase id d0 (rows_of s)] s).
Definition both_checked : Store := after_check 8 (after_check 7 two_owners).
Definition one_erased : Store := after_erasure 7 (rows_of two_owners) [(8%N, rows_of two_owners)] both_checked.
Definition both_erased : Store := after_erasure 8 (rows_of two_owners) [] one_erased.

Lemma nothing_locked (w : edits) (p : Db (K := Key) (V := Row)) : db_open p = ∅ → unblocked None (write_mode <$> w) p.
Proof. intros Ho k m _ t x. by rewrite Ho, lookup_empty. Qed.

Example sweepers_lose_the_owner :
  reached {| sy_store := both_erased; sy_procs := [] |}
  ∧ is_Some (rows_of both_erased !! KBusiness 9) ∧ role_of_member 9 7 both_erased = None ∧ role_of_member 9 8 both_erased = None.
Proof.
  split; [|split; [eexists; vm_compute; reflexivity|split; vm_compute; reflexivity]].
  exists two_owners. split; [apply team_quiet_store; vm_compute; reflexivity|].
  eapply rtc_l; [apply step_env, (env_check two_owners 7); vm_compute; reflexivity|].
  eapply rtc_l; [apply step_env, (env_check (after_check 7 two_owners) 8); vm_compute; reflexivity|].
  eapply rtc_l; [apply step_env, (env_erase both_checked 7 (rows_of two_owners) [(8%N, rows_of two_owners)] []);
    [reflexivity|apply nothing_locked; reflexivity]|].
  eapply rtc_l; [apply step_env, (env_erase one_erased 8 (rows_of two_owners) [] []);
    [reflexivity|apply nothing_locked; reflexivity]|apply rtc_refl].
Qed.

(** The trigger counts an owner who is suspended. *)
Example suspended_owner_counts :
  sole_owner 7 (bakery_rows [(KMember 9 8, RMember
    {| mb_business := 9; mb_user := 8; mb_role := ownerRoleID; mb_status := "suspended"; mb_invited_by := None; mb_invited_at := None;
       mb_joined_at := Some 0%Z; mb_role_changed_at := None; mb_role_changed_by := None |})]) = false.
Proof. vm_compute. reflexivity. Qed.

Definition asks_to_leave (u : uuid) : Store → Store := write_now (KUser u) (RUser (demo_user u (Some 0%Z))).

(** An owner whose deletion is asked for does not count; but it may be asked for between
    the count and the commit, for only the rows of members are locked. *)
Example last_effective_owner_removed :
  let r := serve (server {| th_mark := λ s, s; th_commit := asks_to_leave 7 |}) (MembersRemove no_deps (as_owner 7) "8") two_owners in
  status_of r.1 = None ∧ role_of_member 9 8 r.2 = None ∧ deletion_pending <$> user_at 7 (rows_of r.2) = Some true
  ∧ status_of (served (MembersRemove no_deps (as_owner 7) "8") (asks_to_leave 7 two_owners)).1 = Some 422%Z.
Proof. vm_compute. by split_and!. Qed.

(** Permissions are those of the request: a role lost meanwhile still grants. *)
Example stale_permissions_grant :
  let demoted := write_now (KMember 9 8) (RMember (demo_member 9 8 5)) two_owners in
  status_of (served (RolesCreate no_deps (as_owner 8) (Some {| rq_name := "admin"; rq_description := None; rq_permissions := all_permissions |})) demoted).1 = None.
Proof. vm_compute. reflexivity. Qed.

Definition idle_reader : Role := demo_role 5 (Some 9%N) [PermMembersRead].
Definition suspended (b u r : uuid) : Member := {|
  mb_business := b; mb_user := u; mb_role := r; mb_status := "suspended"; mb_invited_by := None; mb_invited_at := None;
  mb_joined_at := Some 0%Z; mb_role_changed_at := None; mb_role_changed_by := None |}.

(** A role only suspended members hold counts as held by none, and so is never reassigned. *)
Example suspended_holders_block :
  let s := store (bakery_rows [(KMember 9 8, RMember (suspended 9 8 5)); (KRole 4, RRole (demo_role 4 (Some 9%N) []))]) in
  status_of (served (RolesDelete no_deps (as_owner 7) "5" "4") s).1 = Some 422%Z
  ∧ role_at 5 (rows_of (served (RolesDelete no_deps (as_owner 7) "5" "") bakery).2) = None.
Proof. vm_compute. by split. Qed.

(** Two that count nineteen at once: the second to commit is refused, and may be tried again. *)
Example one_of_two_invites :
  let r := serve (server {| th_mark := λ s, s; th_commit := λ s, (served (forget invite) s).2 |}) invite (invited_times 19) in
  status_of r.1 = Some 500%Z ∧ count_pending 9 0 (rows_of r.2) = 20.
Proof. vm_compute. by split. Qed.
