(* ===== verification/CreditStore.v ===== *)
(** * The tables of plans, credits and usage

    [usage_logs], [credit_ledger], [plan_definitions] and [subscriptions] over the schema
    of [migrations/postgres], with the statements of
    [services/api/internal/repository/billing.go], [credit_ledger.go], [credit_grant.go],
    [subscription.go] and [plan_definition.go], and the split of a charge in
    [services/api/internal/service/creditmeter].  All tables live in one map; of users and
    businesses only what these statements read.  An amount of NUMERIC(p,s) is a whole
    number of units of its last digit. *)

From Stdlib Require Import QArith Qround.
From S2P Require Import Prelude Types GoTime Users Prog Pg Isolation LlmRouter.
Close Scope Q_scope.

(** ** creditmeter.go *)

Definition CreditReasonGrant : string := "grant".
Definition CreditReasonConsume : string := "consume".
Definition CreditReasonOverage : string := "overage".
Definition CreditReasonRefund : string := "refund".
Definition CreditReasonExpire : string := "expire".

Record Result := { rs_delta : Z; rs_balance_after : Z; rs_overage : Z; rs_reason : string }.

Definition Compute (prevBalance consume : Z) : Result :=
  if (consume <=? 0)%Z then
    {| rs_delta := 0; rs_balance_after := Z.max prevBalance 0; rs_overage := 0; rs_reason := CreditReasonConsume |}
  else if (consume <=? prevBalance)%Z then
    {| rs_delta := - consume; rs_balance_after := prevBalance - consume; rs_overage := 0; rs_reason := CreditReasonConsume |}
  else
    let drawn := if (prevBalance <? 0)%Z then 0%Z else prevBalance in
    {| rs_delta := - drawn; rs_balance_after := 0; rs_overage := consume - drawn; rs_reason := CreditReasonOverage |}.

(** ** Rows *)

(** [domain.CreditLedgerEntry], with the [seq] of its row. *)
Record CreditLedgerEntry := {
  en_seq : N;
  en_id : uuid;
  en_business : uuid;
  en_delta : Z;
  en_balance : Z;
  en_overage : Z;
  en_reason : string;
  en_usage : option uuid;
  en_period : option string;
  en_key : option string;
  en_created_at : Z;
}.

(** A row of [usage_logs]. *)
Record UsageRow := {
  ur_id : uuid;
  ur_business : uuid;
  ur_user : option uuid;
  ur_conversation : option string;
  ur_request : option string;
  ur_model : string;
  ur_provider : string;
  ur_input : Z;
  ur_output : Z;
  ur_cache_read : Z;
  ur_cache_creation : Z;
  ur_cost : Z;
  ur_commission : Z;
  ur_tier : string;
  ur_created_at : Z;
}.

(** [domain.PlanDefinition]; money and caps as the table holds them. *)
Record PlanDefinition := {
  pd_code : string;
  pd_name : string;
  pd_price : Z;
  pd_monthly_credits : Z;
  pd_overage_price : Z;
  pd_daily_cap : Z;
  pd_max_integrations : Z;
  pd_max_members : Z;
  pd_tier : string;
  pd_active : bool;
  pd_sort_order : Z;
  pd_created_at : Z;
  pd_updated_at : Z;
}.

(** [domain.Subscription]. *)
Record Subscription := {
  su_id : uuid;
  su_business : uuid;
  su_parent : option uuid;
  su_plan : string;
  su_status : string;
  su_period_start : option Z;
  su_period_end : option Z;
  su_provider : option string;
  su_provider_id : option string;
  su_cancel_at_end : bool;
  su_created_at : Z;
  su_updated_at : Z;
}.

Definition SubscriptionStatusActive : string := "active".
Definition subscription_statuses : list string := [SubscriptionStatusActive; "past_due"; "canceled"; "expired"].

(** [businesses], as far as it is read here: is the business deleted? *)
Record BusinessRow := { br_id : uuid; br_deleted : bool }.

(** Keys of rows; [KEntryId], [KIdem], [KActive] are entries of unique indexes and
    [KAdvisory] an advisory lock: they hold no row but can be locked. *)
Inductive Key :=
| KUser (id : uuid)
| KBusiness (id : uuid)
| KUsage (id : uuid)
| KEntry (seq : N)
| KSubscription (id : uuid)
| KEntryId (id : uuid)
| KActive (business : uuid)
| KPlan (code : string)
| KIdem (key : string)
| KAdvisory (k : Z).

#[export] Instance Key_eq_dec : EqDecision Key.
Proof. solve_decision. Defined.

Definition key_code (k : Key) : nat * N * string * Z :=
  match k with
  | KUser id => (0, id, "", 0%Z)
  | KBusiness id => (1, id, "", 0%Z)
  | KUsage id => (2, id, "", 0%Z)
  | KEntry s => (3, s, "", 0%Z)
  | KSubscription id => (4, id, "", 0%Z)
  | KEntryId id => (5, id, "", 0%Z)
  | KActive b => (6, b, "", 0%Z)
  | KPlan c => (7, 0%N, c, 0%Z)
  | KIdem k => (8, 0%N, k, 0%Z)
  | KAdvisory k => (9, 0%N, "", k)
  end.

Definition key_decode (c : nat * N * string * Z) : option Key :=
  match c with
  | (0, id, _, _) => Some (KUser id)
  | (1, id, _, _) => Some (KBusiness id)
  | (2, id, _, _) => Some (KUsage id)
  | (3, s, _, _) => Some (KEntry s)
  | (4, id, _, _) => Some (KSubscription id)
  | (5, id, _, _) => Some (KEntryId id)
  | (6, b, _, _) => Some (KActive b)
  | (7, _, c, _) => Some (KPlan c)
  | (8, _, k, _) => Some (KIdem k)
  | (9, _, _, k) => Some (KAdvisory k)
  | _ => None
  end.

#[export] Instance Key_countable : Countable Key.
Proof. apply (inj_countable key_code key_decode). by intros []. Defined.

Inductive Row :=
| RUser (u : User)
| RBusiness (b : BusinessRow)
| RUsage (u : UsageRow)
| REntry (e : CreditLedgerEntry)
| RSubscription (s : Subscription)
| RPlan (p : PlanDefinition).

#[export] Instance Row_eq_dec : EqDecision Row.
Proof.
  assert (EqDecision User) by solve_decision. assert (EqDecision BusinessRow) by solve_decision.
  assert (EqDecision UsageRow) by solve_decision. assert (EqDecision CreditLedgerEntry) by solve_decision.
  assert (EqDecision Subscription) by solve_decision. assert (EqDecision PlanDefinition) by solve_decision. solve_decision.
Defined.

Notation rows := (gmap Key Row).
Notation edits := (writes Key Row).

(** [llm.MonthlyUsageSummary] with its units; the spend in micro-dollars. *)
Record MonthlyUsageSummary := {
  mu_actions : Z;
  mu_spend : Z;
  mu_images : Z;
  mu_total : Z;
  mu_text : Z;
  mu_image_units : Z;
  mu_other : Z;
}.

Inductive Stmt : Type → Type :=
| LockAdvisory (k : Z) : Stmt unit
| SelectBalance (business : uuid) : Stmt (option Z)
| EntryExists (key : string) : Stmt bool
| InsertEntry (e : CreditLedgerEntry) : Stmt unit
| InsertUsage (l : UsageLog) : Stmt unit
| SumSpend (business : uuid) (from to : Z) : Stmt Z
| SumMonth (business : uuid) (from to : Z) : Stmt MonthlyUsageSummary
| SelectActive (business : uuid) : Stmt (option Subscription)
| UpsertSubscription (s : Subscription) : Stmt unit
| SelectPlan (code : string) : Stmt (option PlanDefinition)
| SelectPlans : Stmt (list PlanDefinition)
| SelectLive : Stmt (list uuid).

(** ** What the statements do *)

Notation effect X := (Act Key Row X).
Definition answers_ {X} (x : X) : effect X := Build_Act (Ok x) ∅ ∅.
Definition refuses {X} (e : DbError) (l : lockset Key) : effect X := Build_Act (Err e) ∅ l.
Definition changes {X} (x : X) (w : edits) (l : lockset Key) : effect X := Build_Act (Ok x) w l.

Definition present (ks : list Key) (d : rows) : bool := forallb (λ k, bool_decide (is_Some (d !! k))) ks.
Definition key_shares (ks : list Key) : lockset Key := list_to_map ((λ k, (k, KeyShare)) <$> ks).
Definition opt_key {A} (f : A → Key) (o : option A) : list Key := match o with Some a => [f a] | None => [] end.

(** INTEGER. *)
Definition int4 (n : Z) : bool := ((- 2 ^ 31 <=? n) && (n <? 2 ^ 31))%Z.

(** *** The ledger *)

(** The rows of one business by their [seq]. *)
Definition ledger (b : uuid) (d : rows) : gmap N CreditLedgerEntry :=
  map_fold (λ k r m, match k, r with
                     | KEntry s, REntry e => if bool_decide (en_business e = b) then <[s := e]> m else m
                     | _, _ => m
                     end) ∅ d.

(** [ORDER BY seq DESC LIMIT 1]. *)
Definition later (s : N) (e : CreditLedgerEntry) (o : option (N * CreditLedgerEntry)) : option (N * CreditLedgerEntry) :=
  match o with
  | Some (s', e') => if (s' <? s)%N then Some (s, e) else o
  | None => Some (s, e)
  end.

Definition latest (m : gmap N CreditLedgerEntry) : option CreditLedgerEntry := snd <$> map_fold later None m.

Definition entries (d : rows) : list CreditLedgerEntry :=
  omap (λ kr, match kr with (KEntry _, REntry e) => Some e | _ => None end) (map_to_list d).

Definition has_key (key : string) (e : CreditLedgerEntry) : bool := bool_decide (en_key e = Some key).

(** The identity column: a number above all that were given. *)
Definition next_seq (gap : N) (d : rows) : N :=
  (above (omap (λ kr, match kr.1 with KEntry s => Some s | _ => None end) (map_to_list d)) + gap)%N.

Definition numbered (s : N) (now : Z) (e : CreditLedgerEntry) : CreditLedgerEntry :=
  {| en_seq := s; en_id := en_id e; en_business := en_business e; en_delta := en_delta e; en_balance := en_balance e;
     en_overage := en_overage e; en_reason := en_reason e; en_usage := en_usage e; en_period := en_period e;
     en_key := en_key e; en_created_at := now |}.

Definition credit_reasons : list string :=
  [CreditReasonGrant; CreditReasonConsume; CreditReasonOverage; CreditReasonRefund; CreditReasonExpire].

(** The columns' types and CHECKs. *)
Definition entry_checks (e : CreditLedgerEntry) : bool :=
  int4 (en_delta e) && int4 (en_balance e) && int4 (en_overage e) && (0 <=? en_balance e)%Z && (0 <=? en_overage e)%Z
  && list_mem (en_reason e) credit_reasons.

(** [INSERT ... ON CONFLICT (idempotency_key) WHERE idempotency_key IS NOT NULL DO NOTHING]. *)
Definition insert_entry (e : CreditLedgerEntry) (now : Z) (gap : N) (cur : rows) : effect unit :=
  let refs := KBusiness (en_business e) :: opt_key KUsage (en_usage e) in
  let own := KEntryId (en_id e) :: opt_key KIdem (en_key e) in
  let locks := merge_locks (list_to_map ((λ k, (k, NoKeyUpdate)) <$> own)) (key_shares refs) in
  let s := next_seq gap cur in
  if negb (entry_checks e) then refuses DbRaised ∅
  else if match en_key e with Some key => existsb (has_key key) (entries cur) | None => false end then answers_ tt
  else if existsb (λ e', bool_decide (en_id e' = en_id e)) (entries cur) then refuses DbUnique locks
  else if present refs cur then changes tt {[KEntry s := Some (REntry (numbered s now e))]} locks
  else refuses DbRaised locks.

(** *** Usage *)

Definition nullableUUID (u : uuid) : option uuid := if bool_decide (u = uuid_nil) then None else Some u.
Definition nullableString (s : string) : option string := if String.eqb s "" then None else Some s.

(** A float as NUMERIC(12,6): micro-dollars, halves away from zero. *)
Definition to_micros (q : Q) : Z :=
  let up (q : Q) := Qfloor (q * 1000000 + (1 # 2)) in
  if Qle_bool 0 q then up q else (- up (- q)%Q)%Z.

Definition numeric_12_6 (n : Z) : bool := ((- 10 ^ 12 <? n) && (n <? 10 ^ 12))%Z.

Definition usage_row (l : UsageLog) : UsageRow :=
  {| ur_id := ul_id l; ur_business := ul_business_id l; ur_user := nullableUUID (ul_user_id l);
     ur_conversation := nullableString (ul_conversation_id l); ur_request := nullableString (ul_request_id l);
     ur_model := ul_model l; ur_provider := ul_provider l; ur_input := ul_input_tokens l; ur_output := ul_output_tokens l;
     ur_cache_read := ul_cache_read_tokens l; ur_cache_creation := ul_cache_creation_tokens l;
     ur_cost := to_micros (ul_provider_cost l); ur_commission := to_micros (ul_commission l);
     ur_tier := ul_user_tier l; ur_created_at := ul_created_at l |}.

Definition usage_checks (r : UsageRow) : bool :=
  forallb (λ n, int4 n && (0 <=? n)%Z) [ur_input r; ur_output r; ur_cache_read r; ur_cache_creation r]
  && forallb (λ n, numeric_12_6 n && (0 <=? n)%Z) [ur_cost r; ur_commission r].

Definition insert_usage (l : UsageLog) (cur : rows) : effect unit :=
  let r := usage_row l in
  let refs := KBusiness (ur_business r) :: opt_key KUser (ur_user r) in
  if negb (usage_checks r) then refuses DbRaised ∅
  else if bool_decide (is_Some (cur !! KUsage (ur_id r))) then refuses DbUnique ({[KUsage (ur_id r) := NoKeyUpdate]} : lockset Key)
  else if present refs cur then changes tt {[KUsage (ur_id r) := Some (RUsage r)]} (key_shares refs)
  else refuses DbRaised (key_shares refs).

Definition usages (d : rows) : list UsageRow :=
  omap (λ kr, match kr with (KUsage _, RUsage u) => Some u | _ => None end) (map_to_list d).

(** The usage of a business in a half-open window. *)
Definition usage_in (b : uuid) (from to : Z) (d : rows) : list UsageRow :=
  filterb (λ u, bool_decide (ur_business u = b) && (from <=? ur_created_at u)%Z && (ur_created_at u <? to)%Z) (usages d).

Definition sum_of {A} (f : A → Z) (l : list A) : Z := foldr (λ x n, f x + n)%Z 0%Z l.

Definition spent (u : UsageRow) : Z := ur_cost u + ur_commission u.

Definition metering (e : CreditLedgerEntry) : bool :=
  String.eqb (en_reason e) CreditReasonConsume || String.eqb (en_reason e) CreditReasonOverage.

Definition charge_of (e : CreditLedgerEntry) : Z := - en_delta e + en_overage e.

(** The units the business was charged for one usage row, 0 when there is no entry. *)
Definition units_of (b : uuid) (d : rows) (u : UsageRow) : Z :=
  sum_of charge_of (filterb (λ e, bool_decide (en_business e = b) && metering e && bool_decide (en_usage e = Some (ur_id u))) (entries d)).

Definition ImageProvider : string := "openai-image".
Definition text_providers : list string := ["openai"; "anthropic"; "openrouter"].

Definition sum_month (b : uuid) (from to : Z) (d : rows) : MonthlyUsageSummary :=
  let l := usage_in b from to d in
  let text u := list_mem (ur_provider u) text_providers in
  let image u := String.eqb (ur_provider u) ImageProvider in
  {| mu_actions := Z.of_nat (length l);
     mu_spend := sum_of spent l;
     mu_images := Z.of_nat (length (filterb image l));
     mu_total := sum_of (units_of b d) l;
     mu_text := sum_of (units_of b d) (filterb text l);
     mu_image_units := sum_of (units_of b d) (filterb image l);
     mu_other := sum_of (units_of b d) (filterb (λ u, negb (text u || image u)) l) |}.

(** *** Plans and subscriptions *)

Definition subscriptions (d : rows) : list Subscription :=
  omap (λ kr, match kr with (KSubscription _, RSubscription s) => Some s | _ => None end) (map_to_list d).

Definition active_of (b : uuid) (s : Subscription) : bool :=
  bool_decide (su_business s = b) && String.eqb (su_status s) SubscriptionStatusActive.

Definition active_subscription (b : uuid) (d : rows) : option Subscription := head (filterb (active_of b) (subscriptions d)).

(** [DO UPDATE SET] of [Upsert]. *)
Definition with_excluded (new : Subscription) (now : Z) (s : Subscription) : Subscription :=
  {| su_id := su_id s; su_business := su_business s; su_parent := su_parent new; su_plan := su_plan new; su_status := su_status new;
     su_period_start := su_period_start new; su_period_end := su_period_end new; su_provider := su_provider new;
     su_provider_id := su_provider_id new; su_cancel_at_end := su_cancel_at_end new; su_created_at := su_created_at s;
     su_updated_at := now |}.

Definition stamped (now : Z) (s : Subscription) : Subscription :=
  {| su_id := su_id s; su_business := su_business s; su_parent := su_parent s; su_plan := su_plan s; su_status := su_status s;
     su_period_start := su_period_start s; su_period_end := su_period_end s; su_provider := su_provider s;
     su_provider_id := su_provider_id s; su_cancel_at_end := su_cancel_at_end s; su_created_at := now; su_updated_at := now |}.

(** The row inserted conflicts on the partial index only when it is active itself. *)
Definition upsert_subscription (s : Subscription) (now : Z) (cur : rows) : effect unit :=
  let refs := KBusiness (su_business s) :: KPlan (su_plan s) :: opt_key KBusiness (su_parent s) in
  let is_active := String.eqb (su_status s) SubscriptionStatusActive in
  let locks := merge_locks (if is_active then {[KActive (su_business s) := NoKeyUpdate]} else ∅) (key_shares refs) in
  if negb (list_mem (su_status s) subscription_statuses) then refuses DbRaised ∅
  else
    match (if is_active then active_subscription (su_business s) cur else None) with
    | Some old =>
        if present refs cur then changes tt {[KSubscription (su_id old) := Some (RSubscription (with_excluded s now old))]} locks
        else refuses DbRaised locks
    | None =>
        if bool_decide (is_Some (cur !! KSubscription (su_id s))) then refuses DbUnique locks
        else if present refs cur then changes tt {[KSubscription (su_id s) := Some (RSubscription (stamped now s))]} locks
        else refuses DbRaised locks
    end.

Definition plans (d : rows) : list PlanDefinition :=
  omap (λ kr, match kr with (KPlan _, RPlan p) => Some p | _ => None end) (map_to_list d).

Definition plan_at (code : string) (d : rows) : option PlanDefinition :=
  match d !! KPlan code with Some (RPlan p) => Some p | _ => None end.

Definition businesses (d : rows) : list BusinessRow :=
  omap (λ kr, match kr with (KBusiness _, RBusiness b) => Some b | _ => None end) (map_to_list d).

Definition run (X : Type) (q : Stmt X) (m : Moment) (cur d : rows) : effect X :=
  match q in Stmt X return effect X with
  | LockAdvisory k => Build_Act (Ok tt) ∅ {[KAdvisory k := ForUpdate]}
  | SelectBalance b => answers_ (en_balance <$> latest (ledger b d))
  | EntryExists key => answers_ (existsb (has_key key) (entries d))
  | InsertEntry e => insert_entry e (mo_now m) (mo_id m) cur
  | InsertUsage l => insert_usage l cur
  | SumSpend b from to => answers_ (sum_of spent (usage_in b from to d))
  | SumMonth b from to => answers_ (sum_month b from to d)
  | SelectActive b => answers_ (active_subscription b d)
  | UpsertSubscription s => upsert_subscription s (mo_now m) cur
  | SelectPlan code => answers_ (plan_at code d)
  | SelectPlans => answers_ (stable_sort (λ p p', pd_sort_order p <? pd_sort_order p')%Z (filterb pd_active (plans d)))
  | SelectLive => answers_ (br_id <$> stable_sort (λ b b', br_id b <? br_id b')%N (filterb (λ b, negb (br_deleted b)) (businesses d)))
  end.
