(* ===== verification/CreditService.v ===== *)
(** * Plans, credits and usage

    [services/api/internal/service/planresolver], [creditgrant] and [billing_summary.go],
    the repositories [billing.go], [credit_ledger.go], [credit_grant.go],
    [subscription.go] and [plan_definition.go], the handler [internal_billing.go] and its
    client [pkg/billingclient], as programs over statements of [CreditStore.v].  Each
    replica of the API has a cache of plans.  A handler is given what its request says:
    the method, the query values, the decoded body. *)

From Stdlib Require Import QArith.
From S2P Require Import Prelude Types GoTime Calendar Prog Pg Isolation LlmRouter CreditStore.
Close Scope Q_scope.
Local Open Scope go_scope.

(** [planresolver.Plan]. *)
Record Plan := {
  pl_code : string;
  pl_name : string;
  pl_tier : string;
  pl_monthly_credits : Z;
  pl_daily_cap : Q;
}.

Record cachedPlan := { ca_plan : Plan; ca_expires_at : Z }.

(** ** Calls *)

Inductive CreditCall : Type → Type :=
| DbC {X} (c : TxCall Stmt X) : CreditCall X
| NowC : CreditCall Time
| NewIDC : CreditCall uuid
| CanceledC : CreditCall bool
| CachedC (replica business : uuid) : CreditCall (option cachedPlan)
| CacheC (replica business : uuid) (entry : cachedPlan) : CreditCall unit
| DropC (replica business : uuid) : CreditCall unit.

Inductive CreditError :=
| ErrSubscriptionNotFound
| ErrPlanNotFound
| ErrRequired (what : string)
| ErrCanceled
| ErrInternal (op : string).

Notation prog := (Prog.prog CreditCall).
Notation fallible A := (Prog.prog CreditCall (result CreditError A)).

Definition exec {X} (tx : option N) (q : Stmt X) : prog (result DbError X) := Call (DbC (RunC tx q)) Ret.

Definition query {X} (tx : option N) (op : string) (q : Stmt X) : fallible X :=
  sub! r := exec tx q in Ret (match r with Ok x => Ok x | Err _ => Err (ErrInternal op) end).

(** [pgx.ErrNoRows] as a sentinel. *)
Definition query_row {X} (op : string) (none : CreditError) (q : Stmt (option X)) : fallible X :=
  ok! o := query None op q in Ret (match o with Some x => Ok x | None => Err none end).

(** [Begin], the body, [Commit], and the deferred [Rollback]. *)
Definition in_transaction {A} (op : string) (body : N → fallible A) : fallible A :=
  call! b := DbC (StartC ReadCommitted) in
  match b with
  | Err _ => Ret (Err (ErrInternal (op +:+ ": begin")))
  | Ok t =>
      sub! r := (ok! a := body t in
                 call! c := DbC (FinishC t) in
                 Ret (match c with Ok _ => Ok a | Err _ => Err (ErrInternal (op +:+ ": commit")) end)) in
      call! _ := DbC (UndoC t) in
      Ret r
  end.

Definition id_or_new (id : uuid) : prog uuid := if bool_decide (id = uuid_nil) then Call NewIDC Ret else Ret id.

(** ** Repositories *)

(** *** subscription.go, plan_definition.go *)

Definition ActiveByBusiness (b : uuid) : fallible Subscription :=
  query_row "ActiveByBusiness: exec" ErrSubscriptionNotFound (SelectActive b).

Definition Upsert (s : Subscription) : fallible unit :=
  if bool_decide (su_business s = uuid_nil) then Ret (Err (ErrRequired "Upsert: business_id"))
  else
    sub! id := id_or_new (su_id s) in
    query None "Upsert: exec" (UpsertSubscription
      {| su_id := id; su_business := su_business s; su_parent := su_parent s;
         su_plan := if String.eqb (su_plan s) "" then "free" else su_plan s;
         su_status := if String.eqb (su_status s) "" then SubscriptionStatusActive else su_status s;
         su_period_start := su_period_start s; su_period_end := su_period_end s; su_provider := su_provider s;
         su_provider_id := su_provider_id s; su_cancel_at_end := su_cancel_at_end s;
         su_created_at := su_created_at s; su_updated_at := su_updated_at s |}).

Definition GetByCode (code : string) : fallible PlanDefinition := query_row "GetByCode: exec" ErrPlanNotFound (SelectPlan code).

Definition ListActive : fallible (list PlanDefinition) := query None "ListActive: query" SelectPlans.

(** *** credit_ledger.go *)

Definition creditsPerUsage : Z := 1.

Definition CurrentBalance (b : uuid) : fallible Z :=
  ok! o := query None "CurrentBalance: exec" (SelectBalance b) in Ret (Ok (default 0%Z o)).

Definition Append (t : N) (e : CreditLedgerEntry) : fallible unit :=
  if bool_decide (en_business e = uuid_nil) then Ret (Err (ErrRequired "Append: business_id"))
  else
    sub! id := id_or_new (en_id e) in
    query (Some t) "Append: exec" (InsertEntry
      {| en_seq := en_seq e; en_id := id; en_business := en_business e; en_delta := en_delta e; en_balance := en_balance e;
         en_overage := en_overage e; en_reason := en_reason e; en_usage := en_usage e; en_period := en_period e;
         en_key := en_key e; en_created_at := en_created_at e |}).

(** The first 8 bytes of the id, big-endian, as an int64. *)
Definition advisoryLockKey (id : uuid) : Z :=
  let u := ((Z.of_N id / 2 ^ 64) mod 2 ^ 64)%Z in if (u <? 2 ^ 63)%Z then u else (u - 2 ^ 64)%Z.

Section keys.
Context {U : UUIDText}.

Definition grantIdempotencyKey (b : uuid) (period : string) : string := ("grant:" +:+ (uuid_string b +:+ (":" +:+ period)))%string.
Definition expireIdempotencyKey (b : uuid) (period : string) : string := ("expire:" +:+ (uuid_string b +:+ (":" +:+ period)))%string.

(** The row of a metered usage log. *)
Definition meter_entry (b usageLogID : uuid) (prevBalance : Z) : CreditLedgerEntry :=
  let res := Compute prevBalance creditsPerUsage in
  {| en_seq := 0%N; en_id := uuid_nil; en_business := b; en_delta := rs_delta res; en_balance := rs_balance_after res;
     en_overage := rs_overage res; en_reason := rs_reason res; en_usage := Some usageLogID; en_period := None;
     en_key := Some (uuid_string usageLogID); en_created_at := 0%Z |}.

Definition MeterUsage (t : N) (b usageLogID : uuid) : fallible unit :=
  if bool_decide (b = uuid_nil) then Ret (Err (ErrRequired "MeterUsage: business_id"))
  else
    ok! _ := query (Some t) "MeterUsage: advisory lock" (LockAdvisory (advisoryLockKey b)) in
    ok! prev := query (Some t) "MeterUsage: read balance" (SelectBalance b) in
    Append t (meter_entry b usageLogID (default 0%Z prev)).

Definition expire_entry (b : uuid) (prevBalance : Z) (period : string) : CreditLedgerEntry :=
  {| en_seq := 0%N; en_id := uuid_nil; en_business := b; en_delta := - prevBalance; en_balance := 0; en_overage := 0;
     en_reason := CreditReasonExpire; en_usage := None; en_period := Some period;
     en_key := Some (expireIdempotencyKey b period); en_created_at := 0%Z |}.

Definition grant_entry (b : uuid) (monthlyCredits : Z) (period : string) : CreditLedgerEntry :=
  {| en_seq := 0%N; en_id := uuid_nil; en_business := b; en_delta := monthlyCredits; en_balance := monthlyCredits; en_overage := 0;
     en_reason := CreditReasonGrant; en_usage := None; en_period := Some period;
     en_key := Some (grantIdempotencyKey b period); en_created_at := 0%Z |}.

Definition ledgerGrantMonthly (t : N) (b : uuid) (monthlyCredits : Z) (period : string) : fallible bool :=
  if bool_decide (b = uuid_nil) then Ret (Err (ErrRequired "GrantMonthly: business_id"))
  else if String.eqb period "" then Ret (Err (ErrRequired "GrantMonthly: period"))
  else if (monthlyCredits <=? 0)%Z then Ret (Ok false)
  else
    ok! _ := query (Some t) "GrantMonthly: advisory lock" (LockAdvisory (advisoryLockKey b)) in
    ok! alreadyGranted := query (Some t) "GrantMonthly: idempotency check" (EntryExists (grantIdempotencyKey b period)) in
    if alreadyGranted then Ret (Ok false)
    else
      ok! prev := query (Some t) "GrantMonthly: read balance" (SelectBalance b) in
      let prevBalance := default 0%Z prev in
      ok! _ := (if (0 <? prevBalance)%Z then Append t (expire_entry b prevBalance period) else Ret (Ok tt)) in
      ok! _ := Append t (grant_entry b monthlyCredits period) in
      Ret (Ok true).

(** *** credit_grant.go *)

Definition EnumerateActiveBusinessIDs : fallible (list uuid) := query None "EnumerateActiveBusinessIDs: query" SelectLive.

Definition GrantMonthly (b : uuid) (monthlyCredits : Z) (period : string) : fallible bool :=
  in_transaction "GrantMonthly" (λ t, ledgerGrantMonthly t b monthlyCredits period).

(** *** billing.go *)

(** The zero [time.Time], as an instant. *)
Definition zero_time : Z := -62135596800 * Second.

Definition filled (id : uuid) (created : Z) (l : UsageLog) : UsageLog :=
  {| ul_id := id; ul_business_id := ul_business_id l; ul_user_id := ul_user_id l; ul_conversation_id := ul_conversation_id l;
     ul_request_id := ul_request_id l; ul_model := ul_model l; ul_provider := ul_provider l; ul_input_tokens := ul_input_tokens l;
     ul_output_tokens := ul_output_tokens l; ul_cache_read_tokens := ul_cache_read_tokens l;
     ul_cache_creation_tokens := ul_cache_creation_tokens l; ul_provider_cost := ul_provider_cost l; ul_commission := ul_commission l;
     ul_user_cost := ul_user_cost l; ul_user_tier := ul_user_tier l; ul_created_at := created |}.

Definition LogUsage (l : UsageLog) : fallible unit :=
  if bool_decide (ul_business_id l = uuid_nil) then Ret (Err (ErrRequired "LogUsage: business_id"))
  else
    sub! id := id_or_new (ul_id l) in
    sub! created := (if (ul_created_at l =? zero_time)%Z then call! n := NowC in Ret (ti_at n) else Ret (ul_created_at l)) in
    let l := filled id created l in
    in_transaction "LogUsage" (λ t,
      ok! _ := query (Some t) "LogUsage: exec" (InsertUsage l) in
      MeterUsage t (ul_business_id l) (ul_id l)).

Definition usd (micros : Z) : Q := micros # 1000000.

Definition dayWindow : Z := 24 * Hour.

Definition GetDailySpend (b : uuid) (day : Time) : fallible Q :=
  let dayUTC := Date (Year day) (Month day) (Day_of_month day) in
  let next := (dayUTC + dayWindow)%Z in
  ok! sum := query None "GetDailySpend: exec" (SumSpend b dayUTC next) in
  Ret (Ok (usd sum)).

Definition GetCreditBalance (b : uuid) : fallible Z := CurrentBalance b.

Definition GetMonthlyUsageSummary (b : uuid) (year month : Z) : fallible MonthlyUsageSummary :=
  let start := Date year month 1 in
  let next := Date year (month + 1) 1 in
  query None "GetMonthlyUsageSummary: exec" (SumMonth b start next).

(** ** planresolver.go *)

Definition DefaultTTL : Z := 60 * Second.
Definition resolver_ttl (ttl : Z) : Z := if (ttl <=? 0)%Z then DefaultTTL else ttl.

Definition freePlan : Plan :=
  {| pl_code := "free"; pl_name := "Free"; pl_tier := "free"; pl_monthly_credits := 0; pl_daily_cap := 1 # 1 |}.

Definition planFromDefinition (def : PlanDefinition) : Plan :=
  {| pl_code := pd_code def; pl_name := pd_name def; pl_tier := pd_tier def; pl_monthly_credits := pd_monthly_credits def;
     pl_daily_cap := usd (pd_daily_cap def) |}.

Definition ActivePlanForBusiness (b : uuid) : fallible Plan :=
  ok! sub := ActiveByBusiness b in
  ok! def := GetByCode (su_plan sub) in
  Ret (Ok (planFromDefinition def)).

Definition FreePlan : fallible Plan := ok! def := GetByCode "free" in Ret (Ok (planFromDefinition def)).

Definition fetch (b : uuid) : prog Plan :=
  sub! r := ActivePlanForBusiness b in
  match r with
  | Ok plan => Ret plan
  | Err _ => sub! f := FreePlan in Ret (match f with Ok free => free | Err _ => freePlan end)
  end.

Section resolver.
Variable ttl : Z.

Definition Resolve (replica b : uuid) : prog Plan :=
  call! now := NowC in
  let miss :=
    sub! plan := fetch b in
    call! _ := CacheC replica b {| ca_plan := plan; ca_expires_at := (ti_at now + resolver_ttl ttl)%Z |} in
    Ret plan in
  call! entry := CachedC replica b in
  match entry with
  | Some e => if (ti_at now <? ca_expires_at e)%Z then Ret (ca_plan e) else miss
  | None => miss
  end.

Definition Invalidate (replica b : uuid) : prog unit := Call (DropC replica b) Ret.

(** ** creditgrant.go *)

Fixpoint grant_each (replica : uuid) (period : string) (ids : list uuid) (granted : nat) : fallible nat :=
  match ids with
  | [] => Ret (Ok granted)
  | id :: ids =>
      call! canceled := CanceledC in
      if (canceled : bool) then Ret (Err ErrCanceled)
      else
        sub! plan := Resolve replica id in
        if (pl_monthly_credits plan <=? 0)%Z then grant_each replica period ids granted
        else
          sub! did := GrantMonthly id (pl_monthly_credits plan) period in
          match did with
          | Err _ | Ok false => grant_each replica period ids granted
          | Ok true => sub! _ := Invalidate replica id in grant_each replica period ids (S granted)
          end
  end.

Definition GrantAll (replica : uuid) : fallible nat :=
  call! now := NowC in
  let period := format_month (UTC now) in
  ok! ids := EnumerateActiveBusinessIDs in
  grant_each replica period ids 0.

(** ** billing_summary.go *)

Record BillingSummary := {
  bs_plan : Plan;
  bs_granted : Z;
  bs_used : Z;
  bs_remaining : Z;
  bs_overage : Z;
  bs_usage : MonthlyUsageSummary;
  bs_today : Q;
  bs_cap : Q;
}.

Definition Summary (replica b : uuid) : fallible BillingSummary :=
  sub! plan := Resolve replica b in
  ok! remaining := GetCreditBalance b in
  call! now := NowC in
  let now := UTC now in
  ok! usage := GetMonthlyUsageSummary b (Year now) (Month now) in
  ok! todaySpend := GetDailySpend b now in
  Ret (Ok {| bs_plan := plan; bs_granted := pl_monthly_credits plan;
             bs_used := Z.max 0 (pl_monthly_credits plan - remaining); bs_remaining := remaining; bs_overage := 0;
             bs_usage := usage; bs_today := todaySpend; bs_cap := pl_daily_cap plan |}).
End resolver.

(** ** internal_billing.go *)

(** What is replied: a status, and the code and detail of an error. *)
Inductive BillingReply :=
| NoContent
| DailySpend (usd : Q)
| BillingFailure (status : Z) (code detail : string).

Definition writeBillingError (status : Z) (code detail : string) : BillingReply := BillingFailure status code detail.

Definition HandleLogUsage (method : string) (body : option UsageLog) : prog BillingReply :=
  if negb (String.eqb method "POST") then Ret (writeBillingError 405 "method_not_allowed" "")
  else
    match body with
    | None => Ret (writeBillingError 400 "invalid_payload" "could not decode body")
    | Some log =>
        if bool_decide (ul_business_id log = uuid_nil) then Ret (writeBillingError 400 "invalid_payload" "business_id required")
        else if String.eqb (ul_model log) "" then Ret (writeBillingError 400 "invalid_payload" "model required")
        else if (ul_input_tokens log <? 0)%Z || (ul_output_tokens log <? 0)%Z
                || (ul_cache_read_tokens log <? 0)%Z || (ul_cache_creation_tokens log <? 0)%Z
        then Ret (writeBillingError 400 "invalid_payload" "token counts must be >= 0")
        else
          sub! r := LogUsage log in
          Ret (match r with Ok _ => NoContent | Err _ => writeBillingError 500 "transient" "" end)
    end.

Definition HandleGetDailySpend (method business_id date : string) : prog BillingReply :=
  if negb (String.eqb method "GET") then Ret (writeBillingError 405 "method_not_allowed" "")
  else if String.eqb business_id "" then Ret (writeBillingError 400 "invalid_payload" "business_id required")
  else
    match uuid_parse business_id with
    | None => Ret (writeBillingError 400 "invalid_payload" "business_id must be a UUID")
    | Some b =>
        if bool_decide (b = uuid_nil) then Ret (writeBillingError 400 "invalid_payload" "business_id required")
        else if String.eqb date "" then Ret (writeBillingError 400 "invalid_payload" "date required")
        else
          match parse_date date with
          | None => Ret (writeBillingError 400 "invalid_payload" "date must be YYYY-MM-DD")
          | Some day =>
              sub! r := GetDailySpend b day in
              Ret (match r with Ok spend => DailySpend spend | Err _ => writeBillingError 500 "transient" "" end)
          end
    end.

(** ** pkg/billingclient *)

Inductive ClientError := ErrInvalidPayload | ErrTransient | ErrUnexpectedStatus (status : Z).

(** The log is refused before it is sent... *)
Definition client_checks (log : option UsageLog) : result ClientError UsageLog :=
  match log with
  | Some l => if bool_decide (ul_business_id l = uuid_nil) then Err ErrInvalidPayload else Ok l
  | None => Err ErrInvalidPayload
  end.

(** ... and the answer read: [None] when there was none. *)
Definition client_outcome (accepted : list Z) (status : option Z) : result ClientError unit :=
  match status with
  | None => Err ErrTransient
  | Some s =>
      if list_mem s accepted then Ok tt
      else if (s =? 400)%Z then Err ErrInvalidPayload
      else if (500 <=? s)%Z then Err ErrTransient
      else Err (ErrUnexpectedStatus s)
  end.

Definition client_LogUsage (post : UsageLog → option Z) (log : option UsageLog) : result ClientError unit :=
  let? l := client_checks log in client_outcome [204; 200]%Z (post l).

(** [get] answers a status and the decoded body. *)
Definition client_GetDailySpend (get : string → string → option (Z * option Q)) (b : uuid) (day : Time) : result ClientError Q :=
  let answer := get (uuid_string b) (format_date (UTC day)) in
  let? _ := client_outcome [200]%Z (fst <$> answer) in
  match answer with Some (_, Some spend) => Ok spend | _ => Err ErrInvalidPayload end.

Definition status_of (r : BillingReply) : Z * option Q :=
  match r with NoContent => (204%Z, None) | DailySpend q => (200%Z, Some q) | BillingFailure s _ _ => (s, None) end.
End keys.
