(* ===== verification/CreditBooks.v ===== *)
(** * The books of a business

    What the rows of the credit ledger and of the usage logs say together, and how an
    entry or a usage log that is added keeps it so: every balance is the sum of the
    changes up to it and never negative, a metered usage log has one entry that charges
    it, and a business is granted a period once. *)

From S2P Require Import Prelude Types Pg Isolation LlmRouter CreditStore CreditService.
Local Open Scope Z_scope.

(** ** The ledger as a map *)

Lemma ledger_lookup b d s e : ledger b d !! s = Some e ↔ d !! KEntry s = Some (REntry e) ∧ en_business e = b.
Proof.
  unfold ledger. revert s e. apply (map_fold_weak_ind (λ m d, ∀ s e, m !! s = Some e ↔ d !! KEntry s = Some (REntry e) ∧ en_business e = b)).
  - intros s e. rewrite !lookup_empty. naive_solver.
  - intros k r d' m Hk IH s e. destruct (decide (k = KEntry s)) as [->|Hn].
    + rewrite lookup_insert_eq. specialize (IH s e). rewrite Hk in IH. destruct r as [| | |e'| |]; try naive_solver.
      case_bool_decide as Hb; [rewrite lookup_insert_eq; naive_solver|]. naive_solver.
    + rewrite lookup_insert_ne by done. rewrite <- IH. destruct k as [| | |s'| | | | | |], r as [| | |e'| |]; try done.
      case_bool_decide; [|done]. rewrite lookup_insert_ne by congruence. done.
Qed.

Lemma ledger_ext b d d' :
  (∀ s e, en_business e = b → d' !! KEntry s = Some (REntry e) ↔ d !! KEntry s = Some (REntry e)) → ledger b d' = ledger b d.
Proof.
  intros H. apply map_eq. intros s. apply option_eq. intros e. rewrite !ledger_lookup.
  split; intros [? ?]; (split; [|done]); by apply H.
Qed.

Lemma ledger_empty b d : (∀ s e, d !! KEntry s = Some (REntry e) → en_business e ≠ b) → ledger b d = ∅.
Proof. intros H. apply map_empty. intros s. apply eq_None_not_Some. intros [e He]. apply ledger_lookup in He as [He Hb]. by destruct (H s e He). Qed.

Lemma ledger_insert b d s e : d !! KEntry s = None →
  ledger b (<[KEntry s := REntry e]> d) = if bool_decide (en_business e = b) then <[s := e]> (ledger b d) else ledger b d.
Proof.
  intros Hn. apply map_eq. intros s'. apply option_eq. intros e'. rewrite ledger_lookup.
  assert (ledger b d !! s = None) as Hm.
  { apply eq_None_not_Some. intros [x Hx]. apply ledger_lookup in Hx as [Hx _]. congruence. }
  destruct (decide (s' = s)) as [->|Hs].
  - rewrite lookup_insert_eq. case_bool_decide; [rewrite lookup_insert_eq; naive_solver|]. rewrite Hm. naive_solver.
  - rewrite lookup_insert_ne by congruence. rewrite <- ledger_lookup. case_bool_decide; [by rewrite lookup_insert_ne|done].
Qed.

Lemma ledger_other b d k r : (∀ s, k ≠ KEntry s) → ledger b (<[k := r]> d) = ledger b d.
Proof. intros Hk. apply ledger_ext. intros s e _. rewrite lookup_insert_ne; [done|apply Hk]. Qed.

(** *** The latest entry *)

Definition topmost (m : gmap N CreditLedgerEntry) (o : option (N * CreditLedgerEntry)) : Prop :=
  match o with
  | None => m = ∅
  | Some (s, e) => m !! s = Some e ∧ ∀ s' e', m !! s' = Some e' → (s' ≤ s)%N
  end.

Lemma latest_spec m : topmost m (map_fold later None m).
Proof.
  apply (map_fold_weak_ind (λ o m, topmost m o)); [done|]. intros s e m' o Hs IH. destruct o as [[s0 e0]|]; cbn in *.
  - destruct IH as [H0 Hmax]. destruct (N.ltb_spec s0 s) as [Hlt|Hge]; cbn.
    + split; [by rewrite lookup_insert_eq|]. intros s' e' [[-> _]|[_ He]]%lookup_insert_Some; [lia|]. specialize (Hmax _ _ He). lia.
    + split; [rewrite lookup_insert_ne; [done|]; intros ->; congruence|]. intros s' e' [[<- _]|[_ He]]%lookup_insert_Some; [done|by eapply Hmax].
  - subst m'. split; [by rewrite lookup_insert_eq|]. intros s' e' [[<- _]|[_ He]]%lookup_insert_Some; [done|by rewrite lookup_empty in He].
Qed.

Lemma latest_Some m e : latest m = Some e → ∃ s, m !! s = Some e ∧ ∀ s' e', m !! s' = Some e' → (s' ≤ s)%N.
Proof. unfold latest. pose proof (latest_spec m) as H. destruct (map_fold _ _ _) as [[s x]|]; [|done]. intros [= <-]. by exists s. Qed.

Lemma latest_None m : latest m = None → m = ∅.
Proof. unfold latest. pose proof (latest_spec m) as H. by destruct (map_fold _ _ _) as [[s x]|]. Qed.

(** Above all entries. *)
Definition above_all (s : N) (m : gmap N CreditLedgerEntry) : Prop := ∀ s' e', m !! s' = Some e' → (s' < s)%N.

Lemma latest_insert m s e : above_all s m → latest (<[s := e]> m) = Some e.
Proof.
  intros Ha. destruct (latest (<[s := e]> m)) as [x|] eqn:E.
  - apply latest_Some in E as (s' & Hx & Hmax). specialize (Hmax s e (lookup_insert_eq _ _ _)).
    apply lookup_insert_Some in Hx as [[_ ->]|[_ Hx]]; [done|]. specialize (Ha _ _ Hx). lia.
  - apply latest_None in E. by apply insert_non_empty in E.
Qed.

Definition balance (b : uuid) (d : rows) : Z := default 0 (en_balance <$> latest (ledger b d)).

Lemma above_lt n l : n ∈ l → (n < above l)%N.
Proof.
  unfold above. induction l as [|x l IH]; [by intros ?%elem_of_nil|]. cbn. intros [->|Hn]%elem_of_cons; [lia|]. specialize (IH Hn). lia.
Qed.

Lemma next_seq_lt gap d s r : d !! KEntry s = Some r → (s < next_seq gap d)%N.
Proof.
  intros Hr. unfold next_seq. eapply N.lt_le_trans; [apply above_lt|apply N.le_add_r].
  apply list_elem_of_omap. exists (KEntry s, r). split; [by apply elem_of_map_to_list|done].
Qed.

Lemma next_seq_above gap d b : above_all (next_seq gap d) (ledger b d).
Proof. intros s e He. apply ledger_lookup in He as [He _]. by eapply next_seq_lt. Qed.

Lemma next_seq_free gap d : d !! KEntry (next_seq gap d) = None.
Proof. destruct (d !! KEntry _) as [r|] eqn:E; [|done]. apply (next_seq_lt gap) in E. lia. Qed.

(** A number drawn over more rows. *)
Lemma next_seq_before gap k v d s r : d !! KEntry s = Some r → (s < next_seq gap (<[k := v]> d))%N.
Proof.
  intros Hr. destruct (decide (k = KEntry s)) as [->|Hn].
  - eapply next_seq_lt, lookup_insert_eq.
  - eapply next_seq_lt. by rewrite lookup_insert_ne.
Qed.

Lemma above_before gap k v d b : above_all (next_seq gap (<[k := v]> d)) (ledger b d).
Proof. intros s e He. apply ledger_lookup in He as [He _]. by eapply next_seq_before. Qed.

Lemma free_before gap k v d : d !! KEntry (next_seq gap (<[k := v]> d)) = None.
Proof. destruct (d !! KEntry _) as [r|] eqn:E; [|done]. apply (next_seq_before gap k v) in E. lia. Qed.

(** ** Sums *)

Definition total (f : CreditLedgerEntry → Z) (m : gmap N CreditLedgerEntry) : Z := map_fold (λ _ e n, f e + n) 0 m.

Lemma total_insert f m s e : m !! s = None → total f (<[s := e]> m) = f e + total f m.
Proof. intros Hs. unfold total. rewrite map_fold_insert_L; [done|intros; lia|done]. Qed.

Lemma total_ext f g m : (∀ s e, m !! s = Some e → f e = g e) → total f m = total g m.
Proof.
  induction m as [|s e m Hs IH] using map_ind; intros H; [done|]. rewrite !total_insert by done.
  rewrite (H s e) by apply lookup_insert_eq. f_equal. apply IH. intros s' e' He. apply (H s'). rewrite lookup_insert_ne; [done|]. intros ->. congruence.
Qed.

Lemma total_plus f g m : total (λ e, f e + g e) m = total f m + total g m.
Proof. induction m as [|s e m Hs IH] using map_ind; [done|]. rewrite !total_insert by done. lia. Qed.

(** The changes up to [s]. *)
Definition running (m : gmap N CreditLedgerEntry) (s : N) : Z := total en_delta (filter (λ se, (se.1 ≤ s)%N) m).

Lemma running_all m s : (∀ s' e', m !! s' = Some e' → (s' ≤ s)%N) → running m s = total en_delta m.
Proof. intros H. unfold running. by rewrite map_filter_id. Qed.

Lemma running_insert_above m s e s' : above_all s m → (s' < s)%N → running (<[s := e]> m) s' = running m s'.
Proof.
  intros Ha Hs. unfold running. rewrite map_filter_insert_False; [|cbn; lia]. by rewrite delete_id; [|destruct (m !! s) as [x|] eqn:E; [specialize (Ha _ _ E); lia|done]].
Qed.

(** ** What one entry says *)

Section books.
Context {U : UUIDText}.

(** An entry that charges the usage log [u] of [b], a grant and an expiry for [period]. *)
Record meters (b u : uuid) (e : CreditLedgerEntry) : Prop := {
  mt_metering : metering e = true;
  mt_business : en_business e = b;
  mt_usage : en_usage e = Some u;
  mt_key : en_key e = Some (uuid_string u);
  mt_charge : charge_of e = creditsPerUsage;
  mt_delta : en_delta e <= 0;
}.

Record opens_period (b : uuid) (period : string) (e : CreditLedgerEntry) : Prop := {
  gr_reason : en_reason e = CreditReasonGrant;
  gr_business : en_business e = b;
  gr_period : en_period e = Some period;
  gr_key : en_key e = Some (grantIdempotencyKey b period);
  gr_balance : en_balance e = en_delta e;
  gr_delta : 0 < en_delta e;
}.

Record closes_period (b : uuid) (period : string) (e : CreditLedgerEntry) : Prop := {
  xp_reason : en_reason e = CreditReasonExpire;
  xp_business : en_business e = b;
  xp_key : en_key e = Some (expireIdempotencyKey b period);
  xp_balance : en_balance e = 0;
  xp_delta : en_delta e < 0;
}.

(** The usage log is there, and of the business. *)
Definition used (b u : uuid) (d : rows) : Prop := ∃ row, d !! KUsage u = Some (RUsage row) ∧ ur_business row = b.

Definition entry_ok (d : rows) (e : CreditLedgerEntry) : Prop :=
  (∃ u, meters (en_business e) u e ∧ used (en_business e) u d)
  ∨ (∃ period, opens_period (en_business e) period e) ∨ ∃ period, closes_period (en_business e) period e.

(** Entries with a key. *)
Definition keyed (key : string) (d : rows) : Prop := ∃ s e, d !! KEntry s = Some (REntry e) ∧ en_key e = Some key.

(** The usage log has its entry. *)
Definition metered (b u : uuid) (d : rows) : Prop := ∃ s e, d !! KEntry s = Some (REntry e) ∧ meters b u e.

(** The rows are in order, but for usage logs in [L] that have no entry and the expiry
    keyed [P] that has no grant. *)
Record books (L : gset uuid) (P : option string) (d : rows) : Prop := {
  bk_usage : ∀ u row, d !! KUsage u = Some (RUsage row) → ur_id row = u;
  bk_entry : ∀ s e, d !! KEntry s = Some (REntry e) → entry_ok d e;
  bk_unique : ∀ s s' e e' k, d !! KEntry s = Some (REntry e) → d !! KEntry s' = Some (REntry e') →
    en_key e = Some k → en_key e' = Some k → s = s';
  bk_running : ∀ b s e, ledger b d !! s = Some e → en_balance e = running (ledger b d) s ∧ 0 <= en_balance e;
  bk_paired : ∀ b period, keyed (expireIdempotencyKey b period) d → P ≠ Some (expireIdempotencyKey b period) →
    keyed (grantIdempotencyKey b period) d;
  bk_metered : ∀ u row, d !! KUsage u = Some (RUsage row) → u ∈ L ∨ metered (ur_business row) u d;
}.

(** *** Keys *)

Lemma grant_key_inj b b' p p' : grantIdempotencyKey b p = grantIdempotencyKey b' p' → b = b' ∧ p = p'.
Proof. unfold grantIdempotencyKey. cbn [String.append]. intros [= H]. by apply uuid_string_sep in H. Qed.

Lemma expire_key_inj b b' p p' : expireIdempotencyKey b p = expireIdempotencyKey b' p' → b = b' ∧ p = p'.
Proof. unfold expireIdempotencyKey. cbn [String.append]. intros [= H]. by apply uuid_string_sep in H. Qed.

Lemma grant_not_expire b b' p p' : grantIdempotencyKey b p ≠ expireIdempotencyKey b' p'.
Proof. done. Qed.

Lemma uuid_not_grant u b p : uuid_string u ≠ grantIdempotencyKey b p.
Proof. intros H. pose proof (uuid_string_chars u) as Hc. by rewrite H in Hc. Qed.

Lemma uuid_not_expire u b p : uuid_string u ≠ expireIdempotencyKey b p.
Proof. intros H. pose proof (uuid_string_chars u) as Hc. rewrite H in Hc. unfold expireIdempotencyKey in Hc. cbn in Hc. done. Qed.

Lemma uuid_string_inj u u' : uuid_string u = uuid_string u' → u = u'.
Proof. intros H. apply (f_equal uuid_parse) in H. rewrite !uuid_parse_string in H. congruence. Qed.

(** Whose entry it is, from its key. *)
Lemma entry_grant_key d e b p : entry_ok d e → en_key e = Some (grantIdempotencyKey b p) → opens_period b p e.
Proof.
  intros [(u & Hm & _)|[(q & Hg)|(q & Hx)]] Hk.
  - rewrite (mt_key _ _ _ Hm) in Hk. injection Hk as Hk. by apply uuid_not_grant in Hk.
  - rewrite (gr_key _ _ _ Hg) in Hk. apply (inj Some) in Hk. by apply grant_key_inj in Hk as [<- <-].
  - rewrite (xp_key _ _ _ Hx) in Hk. apply (inj Some) in Hk. symmetry in Hk. by apply grant_not_expire in Hk.
Qed.

Lemma entry_expire_key d e b p : entry_ok d e → en_key e = Some (expireIdempotencyKey b p) → closes_period b p e.
Proof.
  intros [(u & Hm & _)|[(q & Hg)|(q & Hx)]] Hk.
  - rewrite (mt_key _ _ _ Hm) in Hk. injection Hk as Hk. by apply uuid_not_expire in Hk.
  - rewrite (gr_key _ _ _ Hg) in Hk. apply (inj Some) in Hk. by apply grant_not_expire in Hk.
  - rewrite (xp_key _ _ _ Hx) in Hk. apply (inj Some) in Hk. by apply expire_key_inj in Hk as [<- <-].
Qed.

Lemma entry_usage_key d e u : entry_ok d e → en_key e = Some (uuid_string u) → meters (en_business e) u e ∧ used (en_business e) u d.
Proof.
  intros [(v & Hm & Hu)|[(q & Hg)|(q & Hx)]] Hk.
  - rewrite (mt_key _ _ _ Hm) in Hk. apply (inj Some) in Hk. by apply uuid_string_inj in Hk as <-.
  - rewrite (gr_key _ _ _ Hg) in Hk. injection Hk as Hk. symmetry in Hk. by apply uuid_not_grant in Hk.
  - rewrite (xp_key _ _ _ Hx) in Hk. injection Hk as Hk. symmetry in Hk. by apply uuid_not_expire in Hk.
Qed.

(** ** Adding to the books *)

(** [e] goes on top of its business's ledger. *)
Record appended (d : rows) (s : N) (e : CreditLedgerEntry) : Prop := {
  ap_free : d !! KEntry s = None;
  ap_above : above_all s (ledger (en_business e) d);
  ap_sum : en_balance e = balance (en_business e) d + en_delta e;
  ap_solvent : 0 <= en_balance e;
}.

Lemma balance_total L P d b : books L P d → balance b d = total en_delta (ledger b d).
Proof.
  intros Hb. unfold balance. destruct (latest (ledger b d)) as [e|] eqn:E; cbn.
  - apply latest_Some in E as (s & He & Hmax). destruct (bk_running _ _ _ Hb b s e He) as [-> _]. by apply running_all.
  - apply latest_None in E. by rewrite E.
Qed.

Lemma balance_insert d s e : appended d s e → balance (en_business e) (<[KEntry s := REntry e]> d) = en_balance e.
Proof.
  intros [Hf Ha _ _]. unfold balance. rewrite ledger_insert, bool_decide_true by done. by rewrite latest_insert.
Qed.

Lemma used_mono d d' b u : (∀ k, is_Some (d !! k) → d' !! k = d !! k) → used b u d → used b u d'.
Proof. intros Hd (row & Hr & Hb). exists row. rewrite Hd by eauto. done. Qed.

Lemma entry_ok_mono d d' e : (∀ k, is_Some (d !! k) → d' !! k = d !! k) → entry_ok d e → entry_ok d' e.
Proof. intros Hd [(u & Hm & Hu)|H]; [left|by right]. exists u. split; [done|by eapply used_mono]. Qed.

Lemma insert_keeps {K} `{Countable K} {V} (d : gmap K V) k v : d !! k = None → ∀ k', is_Some (d !! k') → <[k := v]> d !! k' = d !! k'.
Proof. intros Hk k' [x Hx]. rewrite lookup_insert_ne; [done|]. intros ->. congruence. Qed.

Lemma keyed_insert d s e key : d !! KEntry s = None →
  keyed key (<[KEntry s := REntry e]> d) ↔ en_key e = Some key ∨ keyed key d.
Proof.
  intros Hs. split.
  - intros (s' & e' & He & Hk). apply lookup_insert_Some in He as [[[= ->] [= ->]]|[_ He]]; [by left|right; by exists s', e'].
  - intros [Hk|(s' & e' & He & Hk)]; [exists s, e|exists s', e']; (split; [|done]); [by rewrite lookup_insert_eq|].
    rewrite lookup_insert_ne; [done|]. intros [= ->]. congruence.
Qed.

(** The entry settles what was open, but leaves [L'] and [P'] so. *)
Lemma books_insert L L' P P' d s e : books L P d → appended d s e → entry_ok d e →
  (∀ k, en_key e = Some k → ¬ keyed k d) →
  (∀ u, u ∈ L → u ∈ L' ∨ meters (en_business e) u e ∧ used (en_business e) u d) →
  (∀ b p, P = Some (expireIdempotencyKey b p) ∨ en_key e = Some (expireIdempotencyKey b p) →
     P' = Some (expireIdempotencyKey b p) ∨ en_key e = Some (grantIdempotencyKey b p) ∨ keyed (grantIdempotencyKey b p) d) →
  books L' P' (<[KEntry s := REntry e]> d).
Proof.
  intros Hb Ha Ho Hk HL HP. pose proof Ha as [Hf Hab Hs Hn]. pose proof (insert_keeps d (KEntry s) (REntry e) Hf) as Hkeep. split.
  - intros u row Hu. rewrite lookup_insert_ne in Hu by done. by eapply bk_usage.
  - intros s' e' [[[= ->] [= ->]]|[_ He]]%lookup_insert_Some; (eapply entry_ok_mono; [exact Hkeep|]); [done|by eapply bk_entry].
  - intros s1 s2 e1 e2 k [[[= <-] [= <-]]|[_ H1]]%lookup_insert_Some [[[= <-] [= <-]]|[_ H2]]%lookup_insert_Some K1 K2; [done|..].
    + destruct (Hk k K1). by exists s2, e2.
    + destruct (Hk k K2). by exists s1, e1.
    + by eapply (bk_unique _ _ _ Hb).
  - intros b s' e'. rewrite ledger_insert by done. case_bool_decide as Eb; [subst b|by apply (bk_running _ _ _ Hb)].
    intros [[<- <-]|[_ He]]%lookup_insert_Some.
    + split; [|done]. rewrite running_all; [|intros s' e' [[<- _]|[_ He]]%lookup_insert_Some; [done|specialize (Hab _ _ He); lia]].
      rewrite total_insert; [rewrite Hs, (balance_total L P) by done; lia|].
      destruct (ledger _ d !! s) as [x|] eqn:E; [specialize (Hab _ _ E); lia|done].
    + rewrite running_insert_above; [by eapply bk_running|done|by eapply Hab].
  - intros b p Hx HP'. rewrite keyed_insert in Hx |- * by done. destruct (decide (P = Some (expireIdempotencyKey b p))) as [E|E].
    + destruct (HP b p) as [?|[?|?]]; [by left|done|by left|by right].
    + destruct Hx as [Hx|Hx]; [|right; by apply (bk_paired _ _ _ Hb)]. destruct (HP b p) as [?|[?|?]]; [by right|done|by left|by right].
  - intros u row Hu. rewrite lookup_insert_ne in Hu by done.
    assert (metered (ur_business row) u d → metered (ur_business row) u (<[KEntry s:=REntry e]> d)) as Hmono.
    { intros (s' & e' & He & Hm). exists s', e'. by rewrite Hkeep by eauto. }
    destruct (bk_metered _ _ _ Hb u row Hu) as [HuL|Hm]; [|by right; apply Hmono].
    destruct (HL u HuL) as [?|(Hm & row' & Hr & Hbu)]; [by left|right]. rewrite Hr in Hu. injection Hu as ->. rewrite Hbu.
    exists s, e. by rewrite lookup_insert_eq.
Qed.

Lemma books_use L P d u row : books L P d → d !! KUsage u = None → ur_id row = u → books ({[u]} ∪ L) P (<[KUsage u := RUsage row]> d).
Proof.
  intros Hb Hn Hu. pose proof (insert_keeps d (KUsage u) (RUsage row) Hn) as Hkeep.
  assert (∀ s e, <[KUsage u := RUsage row]> d !! KEntry s = Some (REntry e) ↔ d !! KEntry s = Some (REntry e)) as He
    by (intros s e; by rewrite lookup_insert_ne).
  assert (∀ k, keyed k (<[KUsage u := RUsage row]> d) ↔ keyed k d) as Hk by (intros k; unfold keyed; by setoid_rewrite He).
  split.
  - intros v row' [[[= <-] [= <-]]|[_ H]]%lookup_insert_Some; [done|by eapply bk_usage].
  - intros s e H%He. eapply entry_ok_mono; [exact Hkeep|by eapply bk_entry].
  - intros s s' e e' k H1%He H2%He. by eapply bk_unique.
  - intros b s e. rewrite ledger_other by done. by eapply bk_running.
  - intros b p. rewrite !Hk. by eapply bk_paired.
  - intros v row' [[[= <-] [= <-]]|[_ H]]%lookup_insert_Some; [left; set_solver|].
    destruct (bk_metered _ _ _ Hb v row' H) as [?|(s & e & H1 & H2)]; [left; set_solver|right]. exists s, e. by rewrite He.
Qed.

(** ** What others may do to the rows *)

(** Entries and usage logs stay, but for those of the businesses [gone]; of a usage log
    its id and its business. *)
Record frame (gone : uuid → Prop) (d d' : rows) : Prop := {
  fr_entry : ∀ s e, d' !! KEntry s = Some (REntry e) ↔ d !! KEntry s = Some (REntry e) ∧ ¬ gone (en_business e);
  fr_usage : ∀ u row', d' !! KUsage u = Some (RUsage row') →
    ∃ row, d !! KUsage u = Some (RUsage row) ∧ ur_id row' = ur_id row ∧ ur_business row' = ur_business row;
  fr_stays : ∀ u row, d !! KUsage u = Some (RUsage row) → ¬ gone (ur_business row) →
    ∃ row', d' !! KUsage u = Some (RUsage row') ∧ ur_business row' = ur_business row;
  fr_gone : ∀ u row', d' !! KUsage u = Some (RUsage row') → ¬ gone (ur_business row');
}.

Lemma frame_ledger gone d d' b : frame gone d d' → ¬ gone b → ledger b d' = ledger b d.
Proof.
  intros Hf Hb. apply ledger_ext. intros s e <-. rewrite (fr_entry _ _ _ Hf). naive_solver.
Qed.

Lemma frame_gone gone d d' b : frame gone d d' → gone b → ledger b d' = ∅.
Proof. intros Hf Hb. apply ledger_empty. intros s e He <-. apply (fr_entry _ _ _ Hf) in He as [_ He]. done. Qed.

Lemma books_frame gone L P d d' : frame gone d d' → (∀ b, gone b ∨ ¬ gone b) → books L P d → books L P d'.
Proof.
  intros Hf Hdec Hb. pose proof Hf as [H1 H2 H3 H4]. split.
  - intros u row' Hu. destruct (H2 u row' Hu) as (row & Hr & -> & _). by eapply bk_usage.
  - intros s e [He Hg]%H1. destruct (bk_entry _ _ _ Hb s e He) as [(u & Hm & row & Hr & Hbu)|H]; [left|by right].
    exists u. split; [done|]. destruct (H3 u row Hr) as (row' & Hr' & Hb'); [by rewrite Hbu|]. exists row'. split; [done|congruence].
  - intros s s' e e' k [He _]%H1 [He' _]%H1. by eapply bk_unique.
  - intros b s e He. destruct (Hdec b) as [Hg|Hg].
    + by rewrite (frame_gone gone d) in He by done.
    + rewrite (frame_ledger gone d) in * by done. by eapply bk_running.
  - intros b p (s & e & [He Hg]%H1 & Hk) HP. pose proof (entry_expire_key _ _ _ _ (bk_entry _ _ _ Hb s e He) Hk) as Hx.
    destruct (bk_paired _ _ _ Hb b p) as (s' & e' & He' & Hk'); [by exists s, e|done|].
    pose proof (entry_grant_key _ _ _ _ (bk_entry _ _ _ Hb s' e' He') Hk') as Hgr. exists s', e'. split; [|done].
    apply H1. split; [done|]. by rewrite (gr_business _ _ _ Hgr), <- (xp_business _ _ _ Hx).
  - intros u row' Hu. destruct (H2 u row' Hu) as (row & Hr & _ & Hbu). destruct (bk_metered _ _ _ Hb u row Hr) as [?|(s & e & He & Hm)]; [by left|right].
    rewrite Hbu. exists s, e. split; [|done]. apply H1. split; [done|]. rewrite (mt_business _ _ _ Hm), <- Hbu. by eapply H4.
Qed.
End books.
