(* ===== verification/CreditSystem.v ===== *)
(** * Credits under concurrent requests

    Any number of the operations of CreditService.v, on every replica of the API,
    interleaved call by call over one database and the replicas' plan caches, each of which
    may crash, beside what other components do to the rows: accounts and businesses that
    come, change and are erased with what belongs to them, plans that are edited, and
    connections that are lost.  Ids are drawn once; the clock never goes back. *)

From S2P Require Import Prelude Types GoTime Users Calendar Prog Pg Isolation LlmRouter CreditStore CreditService.
Local Open Scope go_scope.

Notation CreditTx := (Tx (K := Key) (V := Row)).
Notation CreditDb := (Db (K := Key) (V := Row)).

(** ** What other components do to the rows *)

Definition without_user (u : UsageRow) : UsageRow :=
  {| ur_id := ur_id u; ur_business := ur_business u; ur_user := None; ur_conversation := ur_conversation u;
     ur_request := ur_request u; ur_model := ur_model u; ur_provider := ur_provider u; ur_input := ur_input u; ur_output := ur_output u;
     ur_cache_read := ur_cache_read u; ur_cache_creation := ur_cache_creation u; ur_cost := ur_cost u;
     ur_commission := ur_commission u; ur_tier := ur_tier u; ur_created_at := ur_created_at u |}.

Definition without_parent (s : Subscription) : Subscription :=
  {| su_id := su_id s; su_business := su_business s; su_parent := None; su_plan := su_plan s; su_status := su_status s;
     su_period_start := su_period_start s; su_period_end := su_period_end s; su_provider := su_provider s;
     su_provider_id := su_provider_id s; su_cancel_at_end := su_cancel_at_end s; su_created_at := su_created_at s;
     su_updated_at := su_updated_at s |}.

(** [DELETE FROM users]: usage logs lose their user. *)
Definition erase_user (id : uuid) (d : rows) : edits :=
  map_imap (λ k r, match k, r with
                   | KUser u, _ => if bool_decide (u = id) then Some None else None
                   | KUsage _, RUsage u => if bool_decide (ur_user u = Some id) then Some (Some (RUsage (without_user u))) else None
                   | _, _ => None
                   end) d.

(** [DELETE FROM businesses]: usage logs, entries and subscriptions go with it. *)
Definition erase_business (b : uuid) (d : rows) : edits :=
  map_imap (λ k r, match k, r with
                   | KBusiness b', _ => if bool_decide (b' = b) then Some None else None
                   | KUsage _, RUsage u => if bool_decide (ur_business u = b) then Some None else None
                   | KEntry _, REntry e => if bool_decide (en_business e = b) then Some None else None
                   | KSubscription _, RSubscription s =>
                       if bool_decide (su_business s = b) then Some None
                       else if bool_decide (su_parent s = Some b) then Some (Some (RSubscription (without_parent s))) else None
                   | _, _ => None
                   end) d.

Inductive foreign_writes (d : rows) : edits → Prop :=
| foreign_user id u : foreign_writes d {[KUser id := Some (RUser u)]}
| foreign_leaver id : foreign_writes d (erase_user id d)
| foreign_business b r : is_Some (d !! KBusiness b) → foreign_writes d {[KBusiness b := Some (RBusiness r)]}
| foreign_end b : is_Some (d !! KBusiness b) → foreign_writes d (erase_business b d)
| foreign_plan c p : foreign_writes d {[KPlan c := Some (RPlan p)]}.

Section system.
Context {U : UUIDText}.
Variable ttl : Z.

Record Store := { st_db : CreditDb; st_now : Z; st_ids : list uuid; st_cache : gmap (uuid * uuid) cachedPlan }.

Definition with_db (p : CreditDb) (s : Store) : Store :=
  {| st_db := p; st_now := st_now s; st_ids := st_ids s; st_cache := st_cache s |}.

Definition draw (id : uuid) (s : Store) : Store :=
  {| st_db := st_db s; st_now := st_now s; st_ids := id :: st_ids s; st_cache := st_cache s |}.

Definition at_time (now : Z) (s : Store) : Store :=
  {| st_db := st_db s; st_now := now; st_ids := st_ids s; st_cache := st_cache s |}.

Definition with_cache (c : gmap (uuid * uuid) cachedPlan) (s : Store) : Store :=
  {| st_db := st_db s; st_now := st_now s; st_ids := st_ids s; st_cache := c |}.

(** One call answered [r]. *)
Definition call_step B (c : CreditCall B) : Store → B → Store → Prop :=
  match c in CreditCall B return Store → B → Store → Prop with
  | DbC c => λ s r s', ∃ p', iso_step run (st_now s) c (st_db s) r p' ∧ s' = with_db p' s
  | NowC => λ s t s', ti_at t = st_now s ∧ s' = s
  | NewIDC => λ s id s', id ∉ st_ids s ∧ s' = draw id s
  | CanceledC => λ s _ s', s' = s
  | CachedC replica b => λ s r s', r = st_cache s !! (replica, b) ∧ s' = s
  | CacheC replica b e => λ s _ s', s' = with_cache (<[(replica, b) := e]> (st_cache s)) s
  | DropC replica b => λ s _ s', s' = with_cache (delete (replica, b) (st_cache s)) s
  end.

(** What a process may do: serve the endpoint, grant, show the summary, resolve a plan,
    drop a cached one, keep a subscription, list the plans. *)
Inductive starts : prog unit → Prop :=
| start_log method body : starts (forget (HandleLogUsage method body))
| start_spend method b date : starts (forget (HandleGetDailySpend method b date))
| start_grant replica : starts (forget (GrantAll ttl replica))
| start_summary replica b : starts (forget (Summary ttl replica b))
| start_resolve replica b : starts (forget (Resolve ttl replica b))
| start_invalidate replica b : starts (forget (Invalidate replica b))
| start_upsert s : starts (forget (Upsert s))
| start_plans : starts (forget ListActive).

Inductive env (s : Store) : Store → Prop :=
| env_lost t : env s (with_db (drop_tx t (st_db s)) s)
| env_time now : (st_now s ≤ now)%Z → env s (at_time now s)
| env_restart replica : env s (with_cache (filter (λ ke, ke.1.1 ≠ replica) (st_cache s)) s)
| env_write w : foreign_writes (db_rows (st_db s)) w → unblocked None (write_mode <$> w) (st_db s) →
    env s (with_db (write_rows w (st_db s)) s)
| env_found b r : b ∉ st_ids s → unblocked None ({[KBusiness b := NoKeyUpdate]}) (st_db s) →
    env s (draw b (with_db (write_rows {[KBusiness b := Some (RBusiness r)]} (st_db s)) s)).
End system.
