(* ===== verification/CreditSafety.v ===== *)
(** * What an operation holds, and what follows

    The phase of a process of CreditSystem.v: how far its transaction has come.  The
    advisory lock of a business keeps its ledger still between the balance read and the
    entry written on top of it. *)

From S2P Require Import Prelude Types GoTime Users Calendar Prog Pg Isolation LlmRouter CreditStore CreditService CreditBooks CreditSystem.
Local Open Scope go_scope.

(** ** Phases *)

(** No transaction; one that has written nothing; a usage log inserted, its business
    locked, its balance read; a business locked for a grant, found without one, its balance
    read, its leftover expired; ready to commit; gone for sure; tried to commit. *)
Inductive Phase :=
| NoTx
| Begun (t : N)
| Logged (t : N) (row : UsageRow)
| Metering (t : N) (row : UsageRow)
| Due (t : N) (row : UsageRow) (prev : Z)
| Held (t : N) (b : uuid)
| Fresh (t : N) (b : uuid) (period : string)
| Owed (t : N) (b : uuid) (period : string) (prev : Z)
| Cleared (t : N) (b : uuid) (period : string)
| Ready (t : N)
| Dead (t : N)
| Ended (t : N).

Definition phase_txn (ph : Phase) : option N :=
  match ph with
  | NoTx => None
  | Begun t | Logged t _ | Metering t _ | Due t _ _ | Held t _ | Fresh t _ _ | Owed t _ _ _ | Cleared t _ _ | Ready t | Dead t | Ended t => Some t
  end.

(** After a statement of [t]: a failure other than of the connection has ended it. *)
Definition after {X} (t : N) (ph : Phase) (r : result DbError X) (next : X → Phase) : Phase :=
  match r with Ok x => next x | Err DbFailed => ph | Err _ => Dead t end.

Section stages.
Context {U : UUIDText}.

Definition with_id (id : uuid) (e : CreditLedgerEntry) : CreditLedgerEntry :=
  {| en_seq := en_seq e; en_id := id; en_business := en_business e; en_delta := en_delta e; en_balance := en_balance e;
     en_overage := en_overage e; en_reason := en_reason e; en_usage := en_usage e; en_period := en_period e;
     en_key := en_key e; en_created_at := en_created_at e |}.

(** What a statement in a transaction makes of a phase. *)
Definition inside {X} (q : Stmt X) (h : Phase) : result DbError X → Phase → Prop :=
  match q in Stmt X return result DbError X → Phase → Prop with
  | InsertUsage l => λ r ph, match h with
      | Begun t => ph = after t h r (λ _, Logged t (usage_row l))
      | _ => False
      end
  | LockAdvisory k => λ r ph, match h with
      | Logged t row => k = advisoryLockKey (ur_business row) ∧ ph = after t h r (λ _, Metering t row)
      | Begun t => ∃ b, k = advisoryLockKey b ∧ ph = after t h r (λ _, Held t b)
      | _ => False
      end
  | EntryExists key => λ r ph, match h with
      | Held t b => ∃ period, key = grantIdempotencyKey b period ∧ ph = after t h r (λ there, if there then Held t b else Fresh t b period)
      | _ => False
      end
  | SelectBalance b' => λ r ph, match h with
      | Metering t row => b' = ur_business row ∧ ph = after t h r (λ o, Due t row (default 0%Z o))
      | Fresh t b period => b' = b ∧ ph = after t h r (λ o, Owed t b period (default 0%Z o))
      | _ => False
      end
  | InsertEntry e => λ r ph, match h with
      | Due t row prev => (∃ id, e = with_id id (meter_entry (ur_business row) (ur_id row) prev)) ∧ ph = after t h r (λ _, Ready t)
      | Owed t b period prev =>
          (0 < prev)%Z ∧ (∃ id, e = with_id id (expire_entry b prev period)) ∧ ph = after t h r (λ _, Cleared t b period)
          ∨ (prev <= 0)%Z ∧ (∃ id n, (0 < n)%Z ∧ e = with_id id (grant_entry b n period)) ∧ ph = after t h r (λ _, Ready t)
      | Cleared t b period => (∃ id n, (0 < n)%Z ∧ e = with_id id (grant_entry b n period)) ∧ ph = after t h r (λ _, Ready t)
      | _ => False
      end
  | _ => λ _ _, False
  end.

(** On the pool: reads, and subscriptions. *)
Definition alone {X} (q : Stmt X) : Prop :=
  match q with InsertEntry _ | InsertUsage _ => False | _ => True end.

Definition may_finish (ph : Phase) : Prop :=
  match ph with Begun _ | Held _ _ | Ready _ | Dead _ => True | _ => False end.

Definition db_moves {B} (c : TxCall Stmt B) (h : Phase) : B → Phase → Prop :=
  match c in TxCall _ B return B → Phase → Prop with
  | StartC l => λ r h', l = ReadCommitted ∧ h = NoTx ∧ h' = match r with Ok t => Begun t | Err _ => NoTx end
  | RunC None q => λ _ h', alone q ∧ h' = h
  | RunC (Some t) q => λ r h', phase_txn h = Some t ∧ inside q h r h'
  | FinishC t => λ r h', phase_txn h = Some t ∧ may_finish h ∧ h' = if is_ok r then NoTx else Ended t
  | UndoC t => λ _ h', h' = NoTx
  end.

Definition moves {B} (c : CreditCall B) (h : Phase) : B → Phase → Prop :=
  match c in CreditCall B return B → Phase → Prop with
  | DbC c => db_moves c h
  | _ => λ _ h', h' = h
  end.

Definition spec B (c : CreditCall B) (h : Phase) (K : B → Phase → Prop) : Prop := ∀ r, ∃ h', moves c h r h' ∧ K r h'.

Lemma credit_spec_mono : monotone spec.
Proof. intros B c h K K' HK Hs r. destruct (Hs r) as (h' & Hm & Hk). eauto. Qed.

Notation cwp := (wp spec).

Lemma cwp_bind {A B} (p : prog A) (f : A → prog B) Q h : cwp p (λ a, cwp (f a) Q) h → cwp (prog_bind p f) Q h.
Proof. apply wp_bind, credit_spec_mono. Qed.

Lemma cwp_mono {A} (p : prog A) (Q Q' : A → Phase → Prop) h : (∀ a h', Q a h' → Q' a h') → cwp p Q h → cwp p Q' h.
Proof. apply wp_mono, credit_spec_mono. Qed.

(** ** The operations keep to their phases *)

(** A statement on the pool. *)
Lemma cwp_query {X} op (q : Stmt X) (Q : result CreditError X → Phase → Prop) h : alone q →
  (∀ r, Q r h) → cwp (query None op q) Q h.
Proof. intros Hq HQ. cbn. intros r. exists h. split; [done|]. apply HQ. Qed.

Lemma cwp_row {X} op none (q : Stmt (option X)) (Q : result CreditError X → Phase → Prop) h : alone q →
  (∀ r, Q r h) → cwp (query_row op none q) Q h.
Proof. intros Hq HQ. cbn. intros r. exists h. split; [done|]. destruct r as [[x|]|e]; apply HQ. Qed.

(** A statement in the transaction. *)
Lemma cwp_exec {X} t op (q : Stmt X) (Q : result CreditError X → Phase → Prop) h : phase_txn h = Some t →
  (∀ r, ∃ h', inside q h r h' ∧ Q (match r with Ok x => Ok x | Err _ => Err (ErrInternal op) end) h') → cwp (query (Some t) op q) Q h.
Proof. intros Ht HQ. cbn. intros r. destruct (HQ r) as (h' & ? & ?). by exists h'. Qed.

(** A transaction that reaches its commit only in a phase that may finish, from none to
    none. *)
Lemma cwp_transaction {A} op (body : N → Prog.prog CreditCall (result CreditError A)) (Q : result CreditError A → Phase → Prop) :
  (∀ t, cwp (body t) (λ r h, phase_txn h = Some t ∧ (is_ok r = true → may_finish h)) (Begun t)) →
  (∀ r, Q r NoTx) → cwp (in_transaction op body) Q NoTx.
Proof.
  intros Hb HQ. unfold in_transaction. cbn [wp]. intros [t|e]; cbn [moves db_moves]; [|exists NoTx; split; [done|apply HQ]].
  exists (Begun t). split; [done|]. apply cwp_bind, cwp_bind. eapply cwp_mono; [|apply Hb].
  intros [a|e] h [Ht Hf]; cbn.
  - intros c. eexists. split; [split_and!; [done|by apply Hf|done]|]. intros []. exists NoTx. split; [done|]. apply HQ.
  - intros []. exists NoTx. split; [done|]. apply HQ.
Qed.

Lemma cwp_id (id : uuid) (Q : uuid → Phase → Prop) h : (∀ id', Q id' h) → cwp (id_or_new id) Q h.
Proof. intros HQ. unfold id_or_new. case_bool_decide; cbn; [|apply HQ]. intros id'. exists h. split; [done|apply HQ]. Qed.

Lemma cwp_append t e ph (next : Phase) (Q : result CreditError unit → Phase → Prop) :
  phase_txn ph = Some t → (∀ id r, inside (InsertEntry (with_id id e)) ph r (after t ph r (λ _, next))) →
  (∀ h, phase_txn h = Some t → (∀ er, Q (Err er) h)) → phase_txn next = Some t → Q (Ok tt) next → cwp (Append t e) Q ph.
Proof.
  intros Ht Hi He Hn Hq. unfold Append. case_bool_decide; [by apply He|]. apply cwp_bind, cwp_id. intros id. apply cwp_exec; [done|].
  intros r. exists (after t ph r (λ _, next)). split; [apply (Hi id)|]. destruct r as [[]|[]]; cbn; try done; by apply He.
Qed.

Lemma ok_meter t row : cwp (MeterUsage t (ur_business row) (ur_id row))
  (λ r h, phase_txn h = Some t ∧ (is_ok r = true → may_finish h)) (Logged t row).
Proof.
  unfold MeterUsage. case_bool_decide; [done|]. apply cwp_bind, cwp_exec; [done|]. intros r. eexists. split; [by split|].
  destruct r as [[]|e]; [|cbn; by destruct e]. cbn [after]. apply cwp_bind, cwp_exec; [done|]. intros r. eexists. split; [by split|].
  destruct r as [prev|e]; [|cbn; by destruct e]. cbn [after]. eapply (cwp_append _ _ _ (Ready t)); try done.
  intros id r. cbn. split; [by exists id|done].
Qed.

Lemma ok_log l : cwp (LogUsage l) (λ _ h, h = NoTx) NoTx.
Proof.
  unfold LogUsage. case_bool_decide; [done|]. apply cwp_bind, cwp_id. intros id. apply cwp_bind.
  apply (cwp_mono _ (λ _ h, h = NoTx)).
  2:{ destruct (_ =? _)%Z; cbn; [|done]. intros n. by exists NoTx. }
  intros created h ->. apply cwp_transaction; [|done]. intros t. apply cwp_bind, cwp_exec; [done|]. intros r. eexists. split; [done|].
  destruct r as [[]|e]; [|cbn; by destruct e]. cbn [after]. apply (ok_meter t (usage_row (filled id created l))).
Qed.

Lemma ok_grant b n period : cwp (GrantMonthly b n period) (λ _ h, h = NoTx) NoTx.
Proof.
  apply cwp_transaction; [|done]. intros t. unfold ledgerGrantMonthly. case_bool_decide; [done|]. destruct (String.eqb _ _); [done|].
  destruct (Z.leb_spec n 0) as [|Hn]; [done|]. apply cwp_bind, cwp_exec; [done|]. intros r. eexists. split; [by exists b|].
  destruct r as [[]|e]; [|cbn; by destruct e]. cbn [after]. apply cwp_bind, cwp_exec; [done|]. intros r. eexists. split; [by exists period|].
  destruct r as [[]|e]; [done| |cbn; by destruct e]. cbn [after]. apply cwp_bind, cwp_exec; [done|]. intros r. eexists. split; [by split|].
  destruct r as [o|e]; [|cbn; by destruct e]. cbn [after]. set (prev := default 0%Z o). apply cwp_bind.
  assert (∀ ph, (∀ id r, inside (InsertEntry (with_id id (grant_entry b n period))) ph r (after t ph r (λ _, Ready t))) → phase_txn ph = Some t →
    cwp (ok! _ := Append t (grant_entry b n period) in Ret (Ok true)) (λ r h, phase_txn h = Some t ∧ (is_ok r = true → may_finish h)) ph) as Hg.
  { intros ph Hi Ht. apply cwp_bind. by eapply (cwp_append _ _ _ (Ready t)). }
  destruct (Z.ltb_spec 0 prev) as [Hp|Hp].
  - eapply (cwp_append _ _ _ (Cleared t b period)); try done.
    + intros id r. left. split_and!; [done|by exists id|done].
    + apply Hg; [|done]. intros id r. split; [by exists id, n|done].
  - apply Hg; [|done]. intros id r. right. split_and!; [done|by exists id, n|done].
Qed.

Lemma ok_active b : cwp (ActivePlanForBusiness b) (λ _ h, h = NoTx) NoTx.
Proof.
  apply cwp_bind, cwp_row; [done|]. intros [s|e]; [|done]. apply cwp_bind, cwp_row; [done|]. by intros [d|e].
Qed.

Lemma ok_resolve ttl replica b : cwp (Resolve ttl replica b) (λ _ h, h = NoTx) NoTx.
Proof.
  assert (∀ now : Time, cwp (sub! plan := fetch b in
    call! _ := CacheC replica b {| ca_plan := plan; ca_expires_at := (ti_at now + resolver_ttl ttl)%Z |} in Ret plan) (λ _ h, h = NoTx) NoTx) as Hmiss.
  { intros now. apply cwp_bind. apply (cwp_mono _ (λ _ h, h = NoTx)).
    - intros plan h ->. cbn. intros []. by exists NoTx.
    - apply cwp_bind. eapply cwp_mono; [|apply ok_active]. intros [p|e] h ->; [done|]. apply cwp_bind, cwp_bind, cwp_row; [done|]. by intros [f|f]. }
  unfold Resolve. cbn [wp]. intros now. exists NoTx. split; [done|]. intros entry. exists NoTx. split; [done|].
  destruct entry as [e|]; [|apply Hmiss]. destruct (_ <? _)%Z; [done|apply Hmiss].
Qed.

Lemma ok_each ttl replica period ids n : cwp (grant_each ttl replica period ids n) (λ _ h, h = NoTx) NoTx.
Proof.
  revert n. induction ids as [|id ids IH]; intros n; cbn [grant_each]; [done|]. cbn [wp]. intros c. exists NoTx. split; [done|].
  destruct c; [done|]. apply cwp_bind. eapply cwp_mono; [|apply ok_resolve]. intros plan h ->. destruct (_ <=? _)%Z; [apply IH|].
  apply cwp_bind. eapply cwp_mono; [|apply ok_grant]. intros [[]|e] h ->; [|apply IH..]. apply cwp_bind. cbn. intros []. exists NoTx. split; [done|]. apply IH.
Qed.

Lemma ok_spend b day : cwp (GetDailySpend b day) (λ _ h, h = NoTx) NoTx.
Proof. apply cwp_bind, cwp_query; [done|]. by intros [x|e]. Qed.

Lemma starts_ok ttl p : starts ttl p → cwp p (λ _ _, True) NoTx.
Proof.
  intros Hp. destruct Hp as [method body|method b date|replica|replica b|replica b|replica b|s|]; apply wp_forget; try apply credit_spec_mono;
    apply (cwp_mono _ (λ _ h, h = NoTx)); try done.
  - unfold HandleLogUsage. destruct (negb _); [done|]. destruct body as [l|]; [|done]. case_bool_decide; [done|]. destruct (String.eqb _ _); [done|].
    destruct (_ || _ || _ || _)%Z; [done|]. apply cwp_bind. eapply cwp_mono; [|apply ok_log]. by intros [] h ->.
  - unfold HandleGetDailySpend. destruct (negb _); [done|]. destruct (String.eqb _ _); [done|]. destruct (uuid_parse b); [|done].
    case_bool_decide; [done|]. destruct (String.eqb _ _); [done|]. destruct (parse_date date); [|done].
    apply cwp_bind. eapply cwp_mono; [|apply ok_spend]. by intros [] h ->.
  - unfold GrantAll. cbn [wp]. intros now. exists NoTx. split; [done|]. apply cwp_bind, cwp_query; [done|]. intros [ids|e]; [|done]. apply ok_each.
  - unfold Summary. apply cwp_bind. eapply cwp_mono; [|apply ok_resolve]. intros plan h ->. apply cwp_bind, cwp_bind, cwp_query; [done|].
    intros [o|e]; [|done]. cbn [wp]. intros now. exists NoTx. split; [done|]. apply cwp_bind, cwp_query; [done|]. intros [u|e]; [|done].
    apply cwp_bind. eapply cwp_mono; [|apply ok_spend]. by intros [] h ->.
  - apply ok_resolve.
  - intros []. by exists NoTx.
  - unfold Upsert. case_bool_decide; [done|]. apply cwp_bind, cwp_id. intros id. by apply cwp_query.
  - by apply cwp_query.
Qed.
End stages.
