(* ===== verification/CreditInvariant.v ===== *)
(** * The books stay in order

    What the rows of an open transaction of CreditSafety.v are, phase by phase, and that
    no step of the system disturbs it: the invariant the theorems of CreditOps.v rest on. *)

From S2P Require Import Prelude Types GoTime Users Calendar Prog Pg Isolation LlmRouter CreditStore CreditService CreditBooks CreditSystem CreditSafety.
Local Open Scope go_scope.

Section invariant.
Context {U : UUIDText}.

(** ** What the phases say *)

Definition the_usage (row : UsageRow) : edits := {[KUsage (ur_id row) := Some (RUsage row)]}.
Definition the_entry (s : N) (e : CreditLedgerEntry) : edits := {[KEntry s := Some (REntry e)]}.

(** The business's advisory lock; the lock that keeps the business from being deleted. *)
Definition advised (x : CreditTx) (b : uuid) : Prop := locks_key x (KAdvisory (advisoryLockKey b)) 3.
Definition secured (x : CreditTx) (b : uuid) : Prop := locks_key x (KBusiness b) 0.

Definition keyless (key : string) (b : uuid) (d : rows) : Prop := ∀ s e, ledger b d !! s = Some e → en_key e ≠ Some key.

Definition gone (ids : list uuid) (b : uuid) (d : rows) : Prop := d !! KBusiness b = None ∧ b ∈ ids.

Definition logged (x : CreditTx) (d : rows) (row : UsageRow) : Prop :=
  d !! KUsage (ur_id row) = None ∧ secured x (ur_business row).

Inductive ready (x : CreditTx) (d : rows) : Prop :=
| ready_blank : tn_writes x = ∅ → ready x d
| ready_metered row s e : tn_writes x = the_entry s e ∪ the_usage row → logged x d row → advised x (ur_business row) →
    meters (ur_business row) (ur_id row) e → appended d s e → ready x d
| ready_granted b period s e : tn_writes x = the_entry s e → advised x b → secured x b →
    keyless (grantIdempotencyKey b period) b d → opens_period b period e → appended d s e → ready x d
| ready_reset b period s e s' e' : tn_writes x = the_entry s' e' ∪ the_entry s e → advised x b → secured x b →
    keyless (grantIdempotencyKey b period) b d → closes_period b period e → opens_period b period e' → appended d s e →
    d !! KEntry s' = None → (s < s')%N → above_all s' (ledger b d) → ready x d.

Definition fact (ids : list uuid) (h : Phase) (x : CreditTx) (d : rows) : Prop :=
  match h with
  | NoTx | Ended _ => True
  | Begun _ => tn_writes x = ∅
  | Logged _ row => tn_writes x = the_usage row ∧ logged x d row
  | Metering _ row => tn_writes x = the_usage row ∧ logged x d row ∧ advised x (ur_business row)
  | Due _ row prev => tn_writes x = the_usage row ∧ logged x d row ∧ advised x (ur_business row) ∧ balance (ur_business row) d = prev
  | Held _ b => tn_writes x = ∅ ∧ advised x b
  | Fresh _ b period => tn_writes x = ∅ ∧ advised x b ∧ keyless (grantIdempotencyKey b period) b d
  | Owed _ b period prev => tn_writes x = ∅ ∧ advised x b ∧ keyless (grantIdempotencyKey b period) b d ∧ (balance b d = prev ∨ gone ids b d)
  | Cleared _ b period => ∃ s e, tn_writes x = the_entry s e ∧ advised x b ∧ secured x b ∧ keyless (grantIdempotencyKey b period) b d
      ∧ closes_period b period e ∧ appended d s e
  | Ready _ => ready x d
  | Dead _ => False
  end.

(** Every transaction of these operations is READ COMMITTED. *)
Definition true_of (ids : list uuid) (h : Phase) (x : CreditTx) (d : rows) : Prop := tn_level x = ReadCommitted ∧ fact ids h x d.

Definition holds (p : CreditDb) (ids : list uuid) (h : Phase) : Prop :=
  ∀ t, phase_txn h = Some t → (t < db_next p)%N ∧ ∀ x, db_open p !! t = Some x → true_of ids h x (db_rows p).

Variable L : gset uuid.

Record safe (s : Store) (hs : list Phase) : Prop := {
  sa_db : db_ok (st_db s);
  sa_books : books L None (db_rows (st_db s));
  sa_known : ∀ b, is_Some (db_rows (st_db s) !! KBusiness b) → b ∈ st_ids s;
  sa_holds : ∀ i h, hs !! i = Some h → holds (st_db s) (st_ids s) h;
  sa_apart : ∀ i j hi hj t, hs !! i = Some hi → hs !! j = Some hj → phase_txn hi = Some t → phase_txn hj = Some t → i = j;
}.

(** ** Rows under writes *)

Lemma overlay_put k (r : Row) (d : rows) : overlay {[k := Some r]} d = <[k := r]> d.
Proof.
  apply map_eq. intros k'. rewrite overlay_lookup. destruct (decide (k' = k)) as [->|Hn].
  - by rewrite lookup_singleton_eq, lookup_insert_eq.
  - apply not_eq_sym in Hn. rewrite lookup_singleton_ne by exact Hn. rewrite lookup_insert_ne by exact Hn. reflexivity.
Qed.

Lemma overlay_usage row d : overlay (the_usage row) d = <[KUsage (ur_id row) := RUsage row]> d.
Proof. exact (overlay_put (KUsage (ur_id row)) (RUsage row) d). Qed.

Lemma overlay_entry s e d : overlay (the_entry s e) d = <[KEntry s := REntry e]> d.
Proof. exact (overlay_put (KEntry s) (REntry e) d). Qed.

Lemma keyed_business L' P d b period : books L' P d → keyed (grantIdempotencyKey b period) d → ¬ keyless (grantIdempotencyKey b period) b d.
Proof.
  intros Hb (s & e & He & Hk) Hn. pose proof (entry_grant_key _ _ _ _ (bk_entry _ _ _ Hb s e He) Hk) as Hg.
  apply (Hn s e); [|done]. apply ledger_lookup. split; [done|]. apply Hg.
Qed.

Lemma usage_unkeyed L' P d u : books L' P d → d !! KUsage u = None → ¬ keyed (uuid_string u) d.
Proof.
  intros Hb Hn (s & e & He & Hk). destruct (entry_usage_key _ _ _ (bk_entry _ _ _ Hb s e He) Hk) as [_ (row & Hr & _)]. congruence.
Qed.

Lemma balance_nonneg L' P d b : books L' P d → (0 <= balance b d)%Z.
Proof.
  intros Hb. unfold balance. destruct (latest (ledger b d)) as [e|] eqn:E; cbn; [|done].
  apply latest_Some in E as (s & He & _). by destruct (bk_running _ _ _ Hb b s e He).
Qed.

Lemma appended_use d s e row : appended d s e → appended (<[KUsage (ur_id row) := RUsage row]> d) s e.
Proof. intros [H1 H2 H3 H4]. split; rewrite ?lookup_insert_ne; unfold balance in *; rewrite ?ledger_other; done. Qed.

(** *** A commit keeps the books *)

Lemma ready_books x d : ready x d → books L None d → books L None (overlay (tn_writes x) d).
Proof.
  intros Hr Hb. destruct Hr as [Hw|row s e Hw [Hn _] _ Hm Ha|b period s e Hw _ _ Hk Hg Ha|b period s e s' e' Hw _ _ Hk Hx Hg Ha Hf Hlt Hab]; rewrite Hw.
  - by rewrite overlay_empty.
  - rewrite overlay_union, overlay_usage, overlay_entry. pose proof (books_use _ _ _ _ row Hb Hn eq_refl) as Hb'.
    assert (used (en_business e) (ur_id row) (<[KUsage (ur_id row):=RUsage row]> d)) as Hu.
    { exists row. rewrite lookup_insert_eq. split; [done|]. by rewrite (mt_business _ _ _ Hm). }
    pose proof (mt_business _ _ _ Hm) as Ebu. rewrite <- Ebu in Hm.
    eapply books_insert; [exact Hb'|by apply appended_use|left; by exists (ur_id row)|..].
    + intros k Hk (s' & e' & He & Hk'). rewrite lookup_insert_ne in He by done. rewrite (mt_key _ _ _ Hm) in Hk. injection Hk as <-.
      eapply usage_unkeyed; [exact Hb|exact Hn|]. by exists s', e'.
    + intros u [->%elem_of_singleton|?]%elem_of_union; [by right|by left].
    + intros b p [?|Hk]; [done|]. rewrite (mt_key _ _ _ Hm) in Hk. injection Hk as Hk. by apply uuid_not_expire in Hk.
  - rewrite overlay_entry. assert (entry_ok d e) as Ho by (right; left; exists period; by rewrite (gr_business _ _ _ Hg)).
    eapply books_insert; [exact Hb|done|done|..].
    + intros k Ek. rewrite (gr_key _ _ _ Hg) in Ek. injection Ek as <-. intros Hkd. by eapply keyed_business.
    + by left.
    + intros b' p [?|Ek]; [done|]. rewrite (gr_key _ _ _ Hg) in Ek. apply (inj Some) in Ek. by apply grant_not_expire in Ek.
  - rewrite overlay_union, !overlay_entry. pose proof (ap_free _ _ _ Ha) as Hf0. pose proof (xp_business _ _ _ Hx) as Hxb. pose proof (gr_business _ _ _ Hg) as Hgb.
    assert (ledger b (<[KEntry s := REntry e]> d) = <[s := e]> (ledger b d)) as El by by rewrite ledger_insert, bool_decide_true by done.
    assert (books L (Some (expireIdempotencyKey b period)) (<[KEntry s := REntry e]> d)) as Hb'.
    { eapply books_insert; [exact Hb|done|right; right; exists period; by rewrite Hxb|..].
      - intros k Ek Hkd. rewrite (xp_key _ _ _ Hx) in Ek. injection Ek as <-. eapply keyed_business; [exact Hb| |exact Hk].
        by eapply (bk_paired _ _ _ Hb).
      - by left.
      - intros b' p [?|Ek]; [done|]. rewrite (xp_key _ _ _ Hx) in Ek. by left. }
    eapply books_insert; [exact Hb'| |right; left; exists period; by rewrite Hgb|..].
    + split; rewrite ?Hgb, ?El.
      * rewrite lookup_insert_ne; [done|]. intros [= ->]. lia.
      * intros s0 e0 [[<- _]|[_ H0]]%lookup_insert_Some; [done|by eapply Hab].
      * pose proof (balance_insert _ _ _ Ha) as Eb. rewrite Hxb in Eb. rewrite Eb, (xp_balance _ _ _ Hx). pose proof (gr_balance _ _ _ Hg). lia.
      * rewrite (gr_balance _ _ _ Hg). pose proof (gr_delta _ _ _ Hg). lia.
    + intros k Ek. rewrite (gr_key _ _ _ Hg) in Ek. injection Ek as <-. rewrite keyed_insert by done. rewrite (xp_key _ _ _ Hx).
      intros [Ek|Hkd]; [apply (inj Some) in Ek; symmetry in Ek; by apply grant_not_expire in Ek|by apply (keyed_business L None d b period)].
    + by left.
    + intros b' p [Ek|Ek].
      * apply (inj Some), expire_key_inj in Ek as [<- <-]. right. left. apply Hg.
      * rewrite (gr_key _ _ _ Hg) in Ek. apply (inj Some) in Ek. by apply grant_not_expire in Ek.
Qed.

(** ** The statements of one's own *)

Lemma entries_elem e d : e ∈ entries d ↔ ∃ s, d !! KEntry s = Some (REntry e).
Proof.
  unfold entries. rewrite list_elem_of_omap. split.
  - intros ([k r] & Hk & He). apply elem_of_map_to_list in Hk. destruct k as [| | |s| | | | | |], r as [| | |e'| |]; try done. injection He as ->. by exists s.
  - intros [s Hs]. exists (KEntry s, REntry e). split; [by apply elem_of_map_to_list|done].
Qed.

Lemma has_key_keyed key d : existsb (has_key key) (entries d) = true ↔ keyed key d.
Proof.
  rewrite existsb_exists. setoid_rewrite <- list_elem_of_In. unfold has_key, keyed. setoid_rewrite entries_elem. split.
  - intros (e & [s Hs] & Hk). apply bool_decide_eq_true in Hk. by exists s, e.
  - intros (s & e & Hs & Hk). exists e. split; [by exists s|]. by apply bool_decide_eq_true.
Qed.

Lemma insert_entry_ok e now gap cur : is_ok (at_out (insert_entry e now gap cur)) = true → (∀ k, en_key e = Some k → ¬ keyed k cur) →
  is_Some (cur !! KBusiness (en_business e))
  ∧ at_writes (insert_entry e now gap cur) = the_entry (next_seq gap cur) (numbered (next_seq gap cur) now e)
  ∧ ∃ m, at_locks (insert_entry e now gap cur) !! KBusiness (en_business e) = Some m.
Proof.
  unfold insert_entry. destruct (negb _); [done|]. intros Hok Hk.
  assert (match en_key e with Some key => existsb (has_key key) (entries cur) | None => false end = false) as Hn.
  { destruct (en_key e) as [k|]; [|done]. apply not_true_iff_false. rewrite has_key_keyed. by apply Hk. }
  rewrite Hn in *. destruct (existsb _ _); [done|]. destruct (present _ _) eqn:Ep; [|done]. cbn [changes at_writes at_locks]. split_and!; [|done|].
  - apply andb_true_iff in Ep as [Ep _]. by apply bool_decide_eq_true in Ep.
  - destruct (merge_locks_r (list_to_map ((λ k, (k, NoKeyUpdate)) <$> KEntryId (en_id e) :: opt_key KIdem (en_key e)))
      (key_shares (KBusiness (en_business e) :: opt_key KUsage (en_usage e))) (KBusiness (en_business e)) KeyShare) as (m & Hm & _); [|eauto].
    unfold key_shares. cbn. by rewrite lookup_insert_eq.
Qed.

Lemma insert_usage_ok l cur : is_ok (at_out (insert_usage l cur)) = true →
  cur !! KUsage (ul_id l) = None ∧ at_writes (insert_usage l cur) = the_usage (usage_row l)
  ∧ at_locks (insert_usage l cur) !! KBusiness (ul_business_id l) = Some KeyShare.
Proof.
  unfold insert_usage. destruct (negb _); [done|]. case_bool_decide as Hn; [done|]. destruct (present _ _); [|done].
  intros _. split_and!; [by apply eq_None_not_Some|done|]. cbn. by rewrite lookup_insert_eq.
Qed.

Lemma Compute_one prev (r := Compute prev creditsPerUsage) : (0 <= prev)%Z →
  rs_balance_after r = (prev + rs_delta r)%Z ∧ (0 <= rs_balance_after r)%Z ∧ (- rs_delta r + rs_overage r = 1)%Z ∧ (rs_delta r <= 0)%Z
  ∧ (rs_reason r = CreditReasonConsume ∨ rs_reason r = CreditReasonOverage).
Proof.
  intros Hp. subst r. unfold Compute, creditsPerUsage. destruct (Z.leb_spec 1 0); [lia|].
  destruct (Z.leb_spec 1 prev); cbn; [split_and!; lia || auto|]. destruct (Z.ltb_spec prev 0); [lia|]. cbn. split_and!; lia || auto.
Qed.

Lemma meter_meters id s now b u prev : (0 <= prev)%Z → meters b u (numbered s now (with_id id (meter_entry b u prev))).
Proof.
  intros Hp. destruct (Compute_one prev Hp) as (_ & _ & Hc & Hd & Hr). split; [|done|done|done|exact Hc|exact Hd].
  unfold metering. cbn [numbered with_id meter_entry en_reason]. by destruct Hr as [-> | ->].
Qed.

Section own.
Context {X : Type} (q : Stmt X) (id : uuid) (t : N) (x : CreditTx) (p : CreditDb) (ids : list uuid).
Hypothesis Hlevel : tn_level x = ReadCommitted.
Hypothesis Hbooks : books L None (db_rows p).

Notation d := (db_rows p).
Notation e := (attempt run q id x (db_rows p)).
Notation x' := (performed_by run q id x p).
Hypothesis Hok : is_ok (at_out e) = true.

Lemma attempt_committed : e = run X q {| mo_now := tn_now x; mo_id := id |} (overlay (tn_writes x) d) (overlay (tn_writes x) d).
Proof. unfold attempt. by rewrite sight_fresh by by left. Qed.

Lemma writes_after : tn_writes x' = at_writes e ∪ tn_writes x.
Proof. cbn. unfold done_writes. by destruct (at_out e). Qed.

Lemma advised_after b : advised x b → advised x' b.
Proof. apply performed_keeps. Qed.

Lemma secured_after b : secured x b → secured x' b.
Proof. apply performed_keeps. Qed.

Lemma logged_after row : logged x d row → logged x' d row.
Proof. intros [? ?]. split; [done|by apply secured_after]. Qed.

Lemma secures b m : at_locks e !! KBusiness b = Some m → secured x' b.
Proof. intros Hm. eapply performed_asks; [exact Hm|lia]. Qed.
End own.

Ltac committed Hl Hok := rewrite (attempt_committed _ _ _ _ Hl) in *; cbn [run] in *.

(** The entry that charges the usage log, on the balance read. *)
Lemma fact_metered id t row prev x p ids nid : tn_level x = ReadCommitted → books L None (db_rows p) →
  fact ids (Due t row prev) x (db_rows p) →
  let q := InsertEntry (with_id nid (meter_entry (ur_business row) (ur_id row) prev)) in
  is_ok (at_out (attempt run q id x (db_rows p))) = true → fact ids (Ready t) (performed_by run q id x p) (db_rows p).
Proof.
  intros Hl Hb (Hw & Hlog & Hadv & Hbal) q Hok. set (e := with_id _ _) in q.
  assert ((0 <= prev)%Z) as Hp by (rewrite <- Hbal; by eapply balance_nonneg).
  set (cur := <[KUsage (ur_id row) := RUsage row]> (db_rows p)).
  assert (attempt run q id x (db_rows p) = insert_entry e (tn_now x) id cur) as E by (rewrite attempt_committed by done; by rewrite Hw, overlay_usage).
  rewrite E in Hok. destruct (insert_entry_ok _ _ _ _ Hok) as (_ & Hwr & _).
  { intros k [= <-] (s & e' & He & Hk). unfold cur in He. rewrite lookup_insert_ne in He by done.
    eapply usage_unkeyed; [exact Hb|apply (proj1 Hlog)|]. by exists s, e'. }
  cbn [fact]. eapply ready_metered.
  - rewrite writes_after by by rewrite E. rewrite E, Hwr, Hw. reflexivity.
  - by apply logged_after.
  - by apply advised_after.
  - by apply meter_meters.
  - destruct (Compute_one prev Hp) as (H1 & H2 & _). split; cbn; [apply free_before|apply above_before|by rewrite Hbal|done].
Qed.

(** The leftover of a balance read, when nothing was granted for the period. *)
Lemma fact_expired id t b period prev x p ids nid : tn_level x = ReadCommitted → books L None (db_rows p) → (0 < prev)%Z →
  fact ids (Owed t b period prev) x (db_rows p) →
  let q := InsertEntry (with_id nid (expire_entry b prev period)) in
  is_ok (at_out (attempt run q id x (db_rows p))) = true → fact ids (Cleared t b period) (performed_by run q id x p) (db_rows p).
Proof.
  intros Hl Hb Hp (Hw & Hadv & Hk & Hbal) q Hok. set (e := with_id _ _) in q.
  assert (attempt run q id x (db_rows p) = insert_entry e (tn_now x) id (db_rows p)) as E by (rewrite attempt_committed by done; by rewrite Hw, overlay_empty). rewrite E in Hok.
  destruct (insert_entry_ok _ _ _ _ Hok) as ([r Hr] & Hwr & m & Hm).
  { intros k [= <-] Hkd. eapply (keyed_business L None); [exact Hb| |exact Hk]. by eapply (bk_paired _ _ _ Hb). }
  destruct Hbal as [Hbal|[Hg _]]; [|cbn in Hr; congruence].
  eexists _, _. split_and!; [rewrite writes_after by by rewrite E|..].
  - rewrite E, Hwr, Hw. by rewrite map_union_empty.
  - by apply advised_after.
  - eapply secures. rewrite E. exact Hm.
  - done.
  - split; cbn; try done. lia.
  - split; cbn; [apply next_seq_free|apply next_seq_above|lia|lia].
Qed.

Lemma grant_grants nid s now b n period : (0 < n)%Z → opens_period b period (numbered s now (with_id nid (grant_entry b n period))).
Proof. by split. Qed.

(** A grant on an empty balance. *)
Lemma fact_granted id t b period prev n x p ids nid : tn_level x = ReadCommitted → books L None (db_rows p) → (prev <= 0)%Z → (0 < n)%Z →
  fact ids (Owed t b period prev) x (db_rows p) →
  let q := InsertEntry (with_id nid (grant_entry b n period)) in
  is_ok (at_out (attempt run q id x (db_rows p))) = true → fact ids (Ready t) (performed_by run q id x p) (db_rows p).
Proof.
  intros Hl Hb Hp Hn (Hw & Hadv & Hk & Hbal) q Hok. set (e := with_id _ _) in q.
  assert (attempt run q id x (db_rows p) = insert_entry e (tn_now x) id (db_rows p)) as E by (rewrite attempt_committed by done; by rewrite Hw, overlay_empty). rewrite E in Hok.
  destruct (insert_entry_ok _ _ _ _ Hok) as ([r Hr] & Hwr & m & Hm).
  { intros k [= <-] Hkd. by eapply (keyed_business L None). }
  destruct Hbal as [Hbal|[Hg _]]; [|cbn in Hr; congruence]. pose proof (balance_nonneg L None (db_rows p) b Hb).
  cbn [fact]. eapply (ready_granted _ _ b period).
  - rewrite writes_after by by rewrite E. rewrite E, Hwr, Hw. by rewrite map_union_empty.
  - by apply advised_after.
  - eapply secures. rewrite E. exact Hm.
  - done.
  - by apply grant_grants.
  - split; cbn; [apply next_seq_free|apply next_seq_above|lia|lia].
Qed.

(** A grant on top of the expiry. *)
Lemma fact_reset id t b period n x p ids nid : tn_level x = ReadCommitted → books L None (db_rows p) → (0 < n)%Z →
  fact ids (Cleared t b period) x (db_rows p) →
  let q := InsertEntry (with_id nid (grant_entry b n period)) in
  is_ok (at_out (attempt run q id x (db_rows p))) = true → fact ids (Ready t) (performed_by run q id x p) (db_rows p).
Proof.
  intros Hl Hb Hn (s & e0 & Hw & Hadv & Hsec & Hk & Hx & Ha) q Hok. set (e := with_id _ _) in q.
  set (cur := <[KEntry s := REntry e0]> (db_rows p)).
  assert (attempt run q id x (db_rows p) = insert_entry e (tn_now x) id cur) as E by (rewrite attempt_committed by done; by rewrite Hw, overlay_entry).
  rewrite E in Hok. pose proof (ap_free _ _ _ Ha) as Hf0. pose proof (xp_business _ _ _ Hx) as Hxb.
  destruct (insert_entry_ok _ _ _ _ Hok) as (_ & Hwr & _).
  { intros k [= <-]. unfold cur. rewrite keyed_insert by done. rewrite (xp_key _ _ _ Hx). intros [Ek|Hkd].
    - apply (inj Some) in Ek. symmetry in Ek. by apply grant_not_expire in Ek.
    - by apply (keyed_business L None (db_rows p) b period). }
  pose proof (next_seq_lt id cur s (REntry e0) (lookup_insert_eq _ _ _)) as Hlt.
  cbn [fact]. eapply (ready_reset _ _ b period).
  - rewrite writes_after by by rewrite E. rewrite E, Hwr, Hw. reflexivity.
  - by apply advised_after.
  - by apply secured_after.
  - done.
  - exact Hx.
  - by apply grant_grants.
  - exact Ha.
  - apply free_before.
  - exact Hlt.
  - apply above_before.
Qed.

(** A statement that writes nothing. *)
Lemma writes_none {X} (q : Stmt X) id x p : is_ok (at_out (attempt run q id x (db_rows p))) = true →
  at_writes (attempt run q id x (db_rows p)) = ∅ → tn_writes (performed_by run q id x p) = tn_writes x.
Proof. intros Hok He. rewrite writes_after, He by done. apply (left_id_L ∅ (∪)). Qed.

Lemma lock_advised id x p b : advised (performed_by run (LockAdvisory (advisoryLockKey b)) id x p) b.
Proof. eapply performed_asks; [cbn; apply lookup_singleton_eq|cbn; lia]. Qed.

Lemma exists_keyless key b d : existsb (has_key key) (entries d) = false → keyless key b d.
Proof.
  intros Hn s e He Hk. apply not_true_iff_false in Hn. apply Hn. apply has_key_keyed. apply ledger_lookup in He as [He _]. by exists s, e.
Qed.

Lemma credit_inside_fact {X} (q : Stmt X) id h h' x p ids r t : phase_txn h = Some t → books L None (db_rows p) → true_of ids h x (db_rows p) →
  inside q h r h' → r = at_out (attempt run q id x (db_rows p)) → is_ok r = true → true_of ids h' (performed_by run q id x p) (db_rows p).
Proof.
  intros Ht Hb [Hl Hf] Hi -> Hok. split; [done|].
  destruct q as [k|b|key|e|l|b from to|b from to|b|s|code| |]; try done; unfold inside in Hi.
  - assert (tn_writes (performed_by run (LockAdvisory k) id x p) = tn_writes x) as Hw by by apply writes_none.
    destruct h as [|t'|t' row| | | | | | | | |]; try done; cbn in Hf.
    + destruct Hi as (b & -> & ->). cbn [attempt run at_out after fact]. rewrite Hw. split; [done|apply lock_advised].
    + destruct Hi as (-> & ->). cbn [attempt run at_out after fact]. rewrite Hw. destruct Hf as [Hwr Hlog].
      split_and!; [done|by apply logged_after|apply lock_advised].
  - assert (tn_writes (performed_by run (SelectBalance b) id x p) = tn_writes x) as Hw by by apply writes_none.
    assert (at_out (attempt run (SelectBalance b) id x (db_rows p)) = Ok (en_balance <$> latest (ledger b (overlay (tn_writes x) (db_rows p))))) as Eo
      by by rewrite attempt_committed.
    rewrite Eo in Hi. destruct h as [| | |t' row| | |t' b' period| | | | |]; try done; cbn [fact] in Hf; destruct Hi as [-> ->]; cbn [after fact]; rewrite Hw.
    + destruct Hf as (Hwr & Hlog & Hadv). rewrite Hwr, overlay_usage, ledger_other by done.
      split_and!; [done|by apply logged_after|by apply advised_after|done].
    + destruct Hf as (Hwr & Hadv & Hk). rewrite Hwr, overlay_empty. split_and!; [done|by apply advised_after|done|by left].
  - assert (tn_writes (performed_by run (EntryExists key) id x p) = tn_writes x) as Hw by by apply writes_none.
    assert (at_out (attempt run (EntryExists key) id x (db_rows p)) = Ok (existsb (has_key key) (entries (overlay (tn_writes x) (db_rows p))))) as Eo
      by by rewrite attempt_committed.
    rewrite Eo in Hi. destruct h as [| | | | |t' b| | | | | |]; try done; cbn [fact] in Hf. destruct Hi as (period & -> & ->), Hf as [Hwr Hadv].
    rewrite Hwr, overlay_empty in *. cbn [after]. destruct (existsb _ _) eqn:Ex; cbn [fact]; rewrite Hw.
    + split; [done|by apply advised_after].
    + split_and!; [done|by apply advised_after|by apply exists_keyless].
  - assert (∀ (r : result DbError unit) (ph ph' : Phase) t, is_ok r = true → after t ph r (λ _, ph') = ph') as Haf
      by (intros [[]|] ???; done).
    destruct h as [| | | |t' row prev| | |t' b period prev|t' b period| | |]; try done.
    + destruct Hi as [(nid & ->) ->]. rewrite Haf by done. by eapply fact_metered.
    + destruct Hi as [(Hp & (nid & ->) & ->)|(Hp & (nid & n & Hn & ->) & ->)]; rewrite Haf by done; [by eapply fact_expired|by eapply fact_granted].
    + destruct Hi as [(nid & n & Hn & ->) ->]. rewrite Haf by done. by eapply fact_reset.
  - destruct h as [|t'| | | | | | | | | |]; try done; cbn [fact] in Hf. subst h'.
    assert (attempt run (InsertUsage l) id x (db_rows p) = insert_usage l (db_rows p)) as E
      by (rewrite attempt_committed by done; by rewrite Hf, overlay_empty).
    pose proof Hok as Hok'. rewrite E in Hok'. destruct (insert_usage_ok l (db_rows p) Hok') as (Hn & Hwr & Hlk).
    assert (tn_writes (performed_by run (InsertUsage l) id x p) = the_usage (usage_row l)) as Hw
      by (rewrite writes_after by done; rewrite E, Hwr, Hf; apply map_union_empty).
    destruct (at_out _) as [[]|]; [|done]. cbn [after fact]. split; [exact Hw|split; [exact Hn|]].
    eapply secures. rewrite E. exact Hlk.
Qed.

(** ** The steps of others *)

(** A ledger nobody else may write; it goes only with its business. *)
Lemma fact_step ids ids' h x d d' : (∀ k, is_Some (tn_writes x !! k) → d' !! k = d !! k) →
  (∀ b, advised x b → ledger b d' = ledger b d ∨ gone ids' b d' ∧ ledger b d' = ∅) →
  (∀ b, advised x b → secured x b → ledger b d' = ledger b d) → (∀ b, gone ids b d → gone ids' b d') →
  fact ids h x d → fact ids' h x d'.
Proof.
  intros Hw Ha Hs Hg.
  assert (∀ row, is_Some (tn_writes x !! KUsage (ur_id row)) → logged x d row → logged x d' row) as Hlog.
  { intros row Hk [Hn Hsec]. split; [by rewrite Hw|done]. }
  assert (∀ key b, advised x b → keyless key b d → keyless key b d') as Hkey.
  { intros key b Hb Hk. destruct (Ha b Hb) as [E|[_ E]]; intros s e; rewrite E; [apply Hk|by rewrite lookup_empty]. }
  assert (∀ s e, is_Some (tn_writes x !! KEntry s) → advised x (en_business e) → secured x (en_business e) → appended d s e → appended d' s e) as Happ.
  { intros s e Hk Hb Hsec [H1 H2 H3 H4]. unfold balance in *. split; [by rewrite Hw|by rewrite Hs|unfold balance; by rewrite Hs|done]. }
  assert (∀ row, is_Some (the_usage row !! KUsage (ur_id row))) as Hu by (intros row; unfold the_usage; rewrite lookup_singleton_eq; eauto).
  assert (∀ s e, is_Some (the_entry s e !! KEntry s)) as He by (intros s e; unfold the_entry; rewrite lookup_singleton_eq; eauto).
  assert (∀ (w w' : edits) k, is_Some (w !! k) → is_Some ((w ∪ w') !! k)) as HL by (intros w w' k [v Hv]; exists v; by apply lookup_union_Some_l).
  assert (∀ (w w' : edits) k, is_Some (w' !! k) → is_Some ((w ∪ w') !! k)) as HR.
  { intros w w' k [v Hv]. rewrite lookup_union, Hv. destruct (w !! k); cbn; eauto. }
  destruct h; cbn [fact]; try done.
  - intros [E H]. split; [done|]. apply Hlog; [by rewrite E|done].
  - intros (E & H & ?). split_and!; [done| |done]. apply Hlog; [by rewrite E|done].
  - intros (E & H & Hb & Hbal). split_and!; [done|apply Hlog; [by rewrite E|done]|done|]. unfold balance in *. by rewrite Hs by (done || apply H).
  - intros (E & Hb & Hk). auto.
  - intros (E & Hb & Hk & Hbal). split_and!; [done|done|auto|]. destruct (Ha b Hb) as [El|[Hgo _]]; [|by right].
    destruct Hbal as [Hbal|Hgo]; [left|right; auto]. unfold balance in *. by rewrite El.
  - intros (s & e & E & Hb & Hsec & Hk & Hx & Hap). pose proof (xp_business _ _ _ Hx) as Eb. exists s, e. split_and!; auto.
    apply Happ; rewrite ?Eb, ?E; auto.
  - intros [E|row s e E H Hb Hm Hap|b period s e E Hb Hsec Hk Hgr Hap|b period s e s' e' E Hb Hsec Hk Hx Hgr Hap Hf Hlt Hab].
    + by apply ready_blank.
    + pose proof (mt_business _ _ _ Hm) as Eb. eapply (ready_metered _ _ row s e); auto; [apply Hlog; [rewrite E; auto|done]|].
      apply Happ; rewrite ?Eb, ?E; auto. apply H.
    + pose proof (gr_business _ _ _ Hgr) as Eb. eapply (ready_granted _ _ b period s e); auto. apply Happ; rewrite ?Eb, ?E; auto.
    + pose proof (xp_business _ _ _ Hx) as Eb. eapply (ready_reset _ _ b period s e s' e'); auto.
      * apply Happ; rewrite ?Eb, ?E; auto.
      * rewrite Hw by (rewrite E; auto). done.
      * by rewrite Hs.
Qed.
End invariant.
