(* ===== verification/CreditOps.v ===== *)
(** * Credits: the theorems

    The invariant of CreditInvariant.v holds in every reachable state of CreditSystem.v;
    from it, what the books of a business say however the operations interleave. *)

From S2P Require Import Prelude Types GoTime Users Calendar Prog Pg Isolation LlmRouter CreditStore CreditService CreditBooks CreditSystem CreditSafety CreditInvariant.
Local Open Scope go_scope.

Section ops.
Context {U : UUIDText}.
Variable L : gset uuid.
Variable ttl : Z.

Notation safe := (safe L).

(** ** What a commit and a foreign write leave *)

Lemma advised_apart (p : CreditDb) t t' x x' b : db_ok p → t ≠ t' → db_open p !! t = Some x → db_open p !! t' = Some x' →
  advised x b → advised x' b → False.
Proof.
  intros [_ Ha] Hn Hx Hx' (m & Hm & Hle) (m' & Hm' & Hle'). specialize (Ha t t' x x' _ m m' Hn Hx Hx' Hm Hm').
  unfold conflicts in Ha. apply Nat.leb_gt in Ha. lia.
Qed.

Lemma ready_ledger x d b : ready x d → ¬ advised x b → ledger b (overlay (tn_writes x) d) = ledger b d.
Proof.
  intros Hr Hb. assert (∀ s e d0, d0 !! KEntry s = None → en_business e ≠ b → ledger b (<[KEntry s := REntry e]> d0) = ledger b d0) as Hi.
  { intros s e d0 Hs He. by rewrite ledger_insert, bool_decide_false. }
  destruct Hr as [E|row s e E [Hn _] Ha Hm Hap|b' period s e E Ha _ _ Hg Hap|b' period s e s' e' E Ha _ _ Hx Hg Hap Hf Hlt _]; rewrite E.
  - by rewrite overlay_empty.
  - rewrite overlay_union, overlay_usage, overlay_entry, Hi, ledger_other; [done|done|rewrite lookup_insert_ne by done; apply Hap|].
    rewrite (mt_business _ _ _ Hm). by intros <-.
  - rewrite overlay_entry, Hi; [done|apply Hap|]. rewrite (gr_business _ _ _ Hg). by intros ->.
  - rewrite overlay_union, !overlay_entry, !Hi; [done|apply Hap| |rewrite lookup_insert_ne by (intros [= ->]; lia); done|].
    + rewrite (xp_business _ _ _ Hx). by intros ->.
    + rewrite (gr_business _ _ _ Hg). by intros ->.
Qed.

Lemma ready_business x d b : ready x d → overlay (tn_writes x) d !! KBusiness b = d !! KBusiness b.
Proof.
  intros Hr. destruct Hr as [E|row s e E _ _ _ _|b' period s e E _ _ _ _ _|b' period s e s' e' E _ _ _ _ _ _ _ _ _]; rewrite E.
  - by rewrite overlay_empty.
  - by rewrite overlay_union, overlay_usage, overlay_entry, !lookup_insert_ne.
  - by rewrite overlay_entry, lookup_insert_ne.
  - by rewrite overlay_union, !overlay_entry, !lookup_insert_ne.
Qed.

Lemma may_finish_ready ids h x d : may_finish h → fact ids h x d → ready x d.
Proof. destruct h; cbn; try done; intros _; [apply ready_blank|intros [? _]; by apply ready_blank]. Qed.

(** Writes that touch no entry, no usage log and no business. *)
Definition quiet (w : edits) : Prop :=
  ∀ k, is_Some (w !! k) → match k with KEntry _ | KUsage _ | KBusiness _ => False | _ => True end.

Lemma quiet_same w d k : quiet w → match k with KEntry _ | KUsage _ | KBusiness _ => True | _ => False end → overlay w d !! k = d !! k.
Proof. intros Hq Hk. rewrite overlay_lookup. destruct (w !! k) as [v|] eqn:E; [|done]. specialize (Hq k (ex_intro _ v E)). by destruct k. Qed.

Lemma quiet_frame w d : quiet w → frame (λ _, False) d (overlay w d).
Proof.
  intros Hq. split.
  - intros s e. rewrite quiet_same by done. naive_solver.
  - intros u row. rewrite quiet_same by done. eauto.
  - intros u row Hu _. rewrite quiet_same by done. eauto.
  - by intros u row _ [].
Qed.

Lemma quiet_none : quiet ∅.
Proof. intros k [o Ho]. by rewrite lookup_empty in Ho. Qed.

Lemma quiet_subscription id (v : option Row) : quiet ({[KSubscription id := v]} : edits).
Proof. intros k [o Ho]. by apply lookup_singleton_Some in Ho as [<- _]. Qed.

Lemma alone_quiet {X} (q : Stmt X) m cur d : alone q → quiet (done_writes (run X q m cur d)).
Proof.
  unfold done_writes. destruct q; cbn [alone]; try done; intros _; try apply quiet_none. cbn [run]. unfold upsert_subscription.
  repeat case_match; simplify_eq/=; apply quiet_none || apply quiet_subscription.
Qed.

(** What is erased of a business goes with the business. *)
Definition foreign_spec (lost : option uuid) (w : edits) (d : rows) : Prop :=
  frame (λ b, lost = Some b) d (overlay w d)
  ∧ (∀ b, is_Some (overlay w d !! KBusiness b) → is_Some (d !! KBusiness b))
  ∧ ∀ b, lost = Some b → is_Some (d !! KBusiness b) ∧ w !! KBusiness b = Some None.

Lemma quiet_foreign w d : quiet w → foreign_spec None w d.
Proof.
  intros Hq. split_and!; [|intros b Hb; by rewrite (quiet_same w d) in Hb|done]. destruct (quiet_frame w d Hq) as [H1 H2 H3 H4].
  split; [|done|intros u row Hu _; apply (H3 u row); [done|tauto]|done]. intros s e. rewrite H1. naive_solver.
Qed.

Lemma foreign_ok d w : foreign_writes d w → ∃ lost, foreign_spec lost w d.
Proof.
  intros Hf. destruct Hf as [id u|id|b r Hb|b Hb|c pl].
  - exists None. apply quiet_foreign. intros k [v [<- _]%lookup_singleton_Some]. done.
  - exists None. assert (∀ k, overlay (erase_user id d) d !! k = match k, d !! k with
      | KUser u, Some _ => if bool_decide (u = id) then None else d !! k
      | KUsage _, Some (RUsage u) => if bool_decide (ur_user u = Some id) then Some (RUsage (without_user u)) else d !! k
      | _, _ => d !! k end) as Ho.
    { intros k. rewrite overlay_lookup. unfold erase_user. rewrite map_lookup_imap. destruct (d !! k) as [r|] eqn:E; cbn; [|destruct k; by rewrite ?E].
      destruct k, r; rewrite ?E; try done; by case_bool_decide. }
    split_and!; [|intros b; rewrite Ho; by destruct (d !! KBusiness b)|done]. split.
    + intros s e. rewrite Ho. destruct (d !! KEntry s); naive_solver.
    + intros u row'. rewrite Ho. destruct (d !! KUsage u) as [[| |row| | |]|]; try done. case_bool_decide; intros [= <-]; by exists row.
    + intros u row Hu _. rewrite Ho, Hu. case_bool_decide; eauto.
    + done.
  - exists None. assert (overlay {[KBusiness b := Some (RBusiness r)]} d = <[KBusiness b := RBusiness r]> d) as Eo by apply overlay_put.
    split_and!; [|intros b'; rewrite Eo; intros [v [[[= <-] _]|[_ Hv]]%lookup_insert_Some]; eauto|done]. rewrite Eo. split.
    + intros s e. rewrite lookup_insert_ne by done. naive_solver.
    + intros u row. rewrite lookup_insert_ne by done. eauto.
    + intros u row Hu _. rewrite lookup_insert_ne by done. eauto.
    + done.
  - exists (Some b). assert (∀ k, erase_business b d !! k = match k, d !! k with
      | KBusiness b', Some _ => if bool_decide (b' = b) then Some None else None
      | KUsage _, Some (RUsage u) => if bool_decide (ur_business u = b) then Some None else None
      | KEntry _, Some (REntry e) => if bool_decide (en_business e = b) then Some None else None
      | KSubscription _, Some (RSubscription s) =>
          if bool_decide (su_business s = b) then Some None
          else if bool_decide (su_parent s = Some b) then Some (Some (RSubscription (without_parent s))) else None
      | _, _ => None end) as Ho.
    { intros k. unfold erase_business. rewrite map_lookup_imap. destruct (d !! k) as [r|] eqn:E; cbn; [|destruct k; by rewrite ?E].
      destruct k, r; by rewrite ?E. }
    split_and!.
    + split.
      * intros s e. rewrite overlay_lookup, Ho. destruct (d !! KEntry s) as [[| | |e'| |]|] eqn:E; try naive_solver. case_bool_decide; naive_solver.
      * intros u row'. rewrite overlay_lookup, Ho. destruct (d !! KUsage u) as [[| |row| | |]|] eqn:E; try done. case_bool_decide; [done|]. intros [= <-]. eauto.
      * intros u row Hu Hg. rewrite overlay_lookup, Ho, Hu. rewrite bool_decide_false by congruence. eauto.
      * intros u row'. rewrite overlay_lookup, Ho. destruct (d !! KUsage u) as [[| |row| | |]|] eqn:E; try done.
        case_bool_decide; [done|]. intros [= <-]. congruence.
    + intros b'. rewrite overlay_lookup, Ho. destruct (d !! KBusiness b'); [eauto|by destruct 1].
    + intros b' [= <-]. split; [done|]. rewrite Ho. destruct Hb as [r ->]. by rewrite bool_decide_true.
  - exists None. apply quiet_foreign. intros k [v [<- _]%lookup_singleton_Some]. done.
Qed.

(** ** The invariant is kept *)

(** What the step of another leaves of what a process holds. *)
Lemma holds_other (p p' : CreditDb) ids ids' h : db_ok p → holds p ids h → (db_next p ≤ db_next p')%N →
  (∀ t x, phase_txn h = Some t → db_open p' !! t = Some x →
     db_open p !! t = Some x ∧ same_locked x (db_rows p) (db_rows p')
     ∧ (∀ b, advised x b → ledger b (db_rows p') = ledger b (db_rows p) ∨ gone ids' b (db_rows p') ∧ ledger b (db_rows p') = ∅)
     ∧ (∀ b, advised x b → secured x b → ledger b (db_rows p') = ledger b (db_rows p))) →
  (∀ b, gone ids b (db_rows p) → gone ids' b (db_rows p')) → holds p' ids' h.
Proof.
  intros Hok Hh Hn Hx Hg t Ht. destruct (Hh t Ht) as [Hlt Hf]. split; [lia|]. intros x Hx'.
  destruct (Hx t x Ht Hx') as (Hx0 & Hsame & Ha & Hs). destruct (Hf x Hx0) as [Hl Hfact]. split; [done|].
  eapply fact_step; [|exact Ha|exact Hs|exact Hg|exact Hfact]. intros k [v Hv]. symmetry. apply Hsame.
  destruct (tx_owns _ _ _ (proj1 Hok t x Hx0) k v Hv) as (m & Hm & Hle). exists m. split; [done|]. pose proof (write_mode_exclusive v). lia.
Qed.

(** Nothing changes in the database but its open transactions. *)
Lemma credit_holds_same (p p' : CreditDb) ids ids' h : db_ok p → holds p ids h → (db_next p ≤ db_next p')%N → db_rows p' = db_rows p → ids ⊆ ids' →
  (∀ t x, phase_txn h = Some t → db_open p' !! t = Some x → db_open p !! t = Some x) → holds p' ids' h.
Proof.
  intros Hok Hh Hn Hr Hids Hx. eapply holds_other; [done|exact Hh|done|..]; rewrite Hr.
  - intros t x Ht Hx'. split_and!; [by eapply Hx|done|by left|done].
  - intros b [? ?]. split; auto.
Qed.

Lemma safe_moved s hs i h h' p' : safe s hs → hs !! i = Some h → db_ok p' → books L None (db_rows p') →
  (∀ b, is_Some (db_rows p' !! KBusiness b) → is_Some (db_rows (st_db s) !! KBusiness b)) →
  (∀ j hj, j ≠ i → hs !! j = Some hj → holds p' (st_ids s) hj) → holds p' (st_ids s) h' →
  (∀ t, phase_txn h' = Some t → phase_txn h = Some t ∨ t = db_next (st_db s)) → safe (with_db p' s) (<[i := h']> hs).
Proof.
  intros [H1 H2 H3 H4 H5] Hi Hok Hb Hk Ho Hh Ht. split; cbn; [done|done|auto| |].
  - intros j hj [(-> & <- & _)|[Hn Hj]]%list_lookup_insert_Some; [done|by eapply Ho].
  - assert (∀ j hj t, j ≠ i → hs !! j = Some hj → phase_txn hj = Some t → phase_txn h' = Some t → False) as Ha.
    { intros j hj t Hn Hj Htj Hth. destruct (Ht t Hth) as [Hth'| ->]; [apply Hn; by eapply H5|].
      destruct (H4 j hj Hj _ Htj). lia. }
    intros j k hj hk t [(-> & <- & _)|[Hnj Hj]]%list_lookup_insert_Some [(-> & <- & _)|[Hnk Hk']]%list_lookup_insert_Some Htj Htk;
      [done|by destruct (Ha k hk t)|by destruct (Ha j hj t)|by eapply H5].
Qed.

Lemma others_frame s hs j hj now {B} (c : TxCall Stmt B) r p' t x : safe s hs → hs !! j = Some hj → phase_txn hj = Some t →
  iso_step run now c (st_db s) r p' → tx_call c ≠ Some t → db_open p' !! t = Some x →
  db_open (st_db s) !! t = Some x ∧ same_locked x (db_rows (st_db s)) (db_rows p').
Proof.
  intros Hs Hj Ht Hst Hn Hx. destruct (sa_holds _ _ _ Hs j hj Hj t Ht) as [Hlt _].
  pose proof (iso_back _ _ _ _ _ _ _ _ Hst Hn Hlt Hx) as Hx0. split; [done|].
  by destruct (iso_frame _ _ _ _ _ _ _ _ (sa_db _ _ _ Hs) Hst Hn Hx0).
Qed.

(** The rows stay as they were. *)
Lemma safe_same s hs i h h' now {B} (c : TxCall Stmt B) r p' : safe s hs → hs !! i = Some h → iso_step run now c (st_db s) r p' →
  db_rows p' = db_rows (st_db s) → (db_next (st_db s) ≤ db_next p')%N → (∀ t, tx_call c = Some t → phase_txn h = Some t) → holds p' (st_ids s) h' →
  (∀ t, phase_txn h' = Some t → phase_txn h = Some t ∨ t = db_next (st_db s)) → safe (with_db p' s) (<[i := h']> hs).
Proof.
  intros Hs Hi Hst Hr Hnx Hc Hh Ht. pose proof Hs as [H1 H2 H3 H4 H5].
  eapply safe_moved; [exact Hs|exact Hi|by eapply iso_step_ok|by rewrite Hr|by intros b; rewrite Hr| |done|done].
  intros j hj Hn Hj. eapply credit_holds_same; [exact H1|by eapply H4|done|done|done|]. intros t x Htj Hx.
  eapply others_frame; [exact Hs|exact Hj|exact Htj|exact Hst| |exact Hx]. intros E. apply Hn. eapply H5; [exact Hj|exact Hi|exact Htj|by apply Hc].
Qed.

(** A statement on the pool. *)
Lemma safe_alone s hs i h now {X} (q : Stmt X) r p' : safe s hs → hs !! i = Some h → iso_step run now (RunC None q) (st_db s) r p' → alone q →
  safe (with_db p' s) (<[i := h]> hs).
Proof.
  intros Hs Hi Hst Hq. pose proof Hs as [H1 H2 H3 H4 H5]. pose proof (iso_step_ok _ _ _ _ _ _ H1 Hst) as Hok.
  assert (∃ w, quiet w ∧ db_rows p' = overlay w (db_rows (st_db s)) ∧ db_next p' = db_next (st_db s)) as (w & Hw & Hr & Hnx).
  { cbn in Hst. destruct Hst as [(id & _ & -> & _)|[_ ->]].
    - exists (done_writes (run X q {| mo_now := now; mo_id := id |} (db_rows (st_db s)) (db_rows (st_db s)))).
      split_and!; [by apply alone_quiet|done|done].
    - exists ∅. rewrite overlay_empty. split; [apply quiet_none|done]. }
  pose proof (quiet_frame w (db_rows (st_db s)) Hw) as Hf.
  assert (∀ b, ledger b (db_rows p') = ledger b (db_rows (st_db s))) as Hl by (intros b; rewrite Hr; eapply frame_ledger; [exact Hf|by intros ?]).
  assert (∀ b, db_rows p' !! KBusiness b = db_rows (st_db s) !! KBusiness b) as Hb by (intros b; rewrite Hr; by apply quiet_same).
  assert (∀ j hj, hs !! j = Some hj → holds p' (st_ids s) hj) as Ho.
  { intros j hj Hj. eapply holds_other; [exact H1|by eapply H4|lia| |intros b [Hg ?]; split; [by rewrite Hb|done]].
    intros t x Ht Hx. destruct (others_frame s hs j hj _ _ _ _ t x Hs Hj Ht Hst) as [? ?]; [done|done|]. auto. }
  eapply safe_moved; [exact Hs|exact Hi|done| | |by intros; eapply Ho|by eapply Ho|by left].
  - rewrite Hr. eapply books_frame; [exact Hf|by right; intros ?|done].
  - intros b. by rewrite Hb.
Qed.

Lemma ended_same s hs i h t p' : safe s hs → hs !! i = Some h → phase_txn h = Some t →
  (p' = st_db s ∨ p' = drop_tx t (st_db s)) → holds p' (st_ids s) (Ended t).
Proof.
  intros Hs Hi Ht Hp t' [= <-]. destruct (sa_holds _ _ _ Hs i h Hi t Ht) as [Hlt Hf]. split; [by destruct Hp as [->| ->]|].
  intros x Hx. split; [|done]. assert (db_open (st_db s) !! t = Some x) as Hx0 by (destruct Hp as [->| ->]; [done|cbn in Hx; by apply lookup_delete_Some in Hx as [_ ?]]).
  by destruct (Hf x Hx0).
Qed.

Lemma ended_phase (b : bool) t t' : phase_txn (if b then NoTx else Ended t) = Some t' → t' = t.
Proof. destruct b; [done|]. by intros [= ->]. Qed.

Lemma safe_finish s hs i h now t r p' : safe s hs → hs !! i = Some h → iso_step run now (FinishC (Stmt := Stmt) t) (st_db s) r p' →
  phase_txn h = Some t → may_finish h → safe (with_db p' s) (<[i := if is_ok r then NoTx else Ended t]> hs).
Proof.
  intros Hs Hi Hst Ht Hm. pose proof Hs as [H1 H2 H3 H4 H5]. destruct (H4 i h Hi t Ht) as [Hlt Hf].
  assert (∀ t', tx_call (FinishC (Stmt := Stmt) t) = Some t' → phase_txn h = Some t') as Hc by by intros ? [= <-].
  pose proof Hst as Hst'. cbn in Hst. destruct Hst as [(x & Hx & _ & ->)|[-> Hp]].
  2:{ eapply safe_same; [exact Hs|exact Hi|exact Hst'|by destruct Hp as [->| ->]|by destruct Hp as [->| ->]|done| |].
      - by eapply ended_same.
      - intros t' [= <-]. by left. }
  destruct (Hf x Hx) as [Hl Hfact]. pose proof (may_finish_ready _ _ _ _ Hm Hfact) as Hr.
  eapply safe_moved; [exact Hs|exact Hi|by eapply iso_step_ok|by apply ready_books|intros b; cbn; by rewrite ready_business| | |].
  - intros j hj Hn Hj. eapply holds_other; [exact H1|by eapply H4|done| |intros b [Hg ?]; split; [cbn; by rewrite ready_business|done]].
    intros t' x' Ht' Hx'. assert (t' ≠ t) as Hne by (intros ->; apply Hn; by eapply H5).
    destruct (others_frame s hs j hj _ _ _ _ t' x' Hs Hj Ht' Hst') as [Hx0 Hsame]; [cbn; congruence|done|].
    assert (∀ b, advised x' b → ledger b (overlay (tn_writes x) (db_rows (st_db s))) = ledger b (db_rows (st_db s))) as Ha.
    { intros b Hb. apply ready_ledger; [done|]. intros Hb'. by eapply (advised_apart (st_db s) t t'). }
    split_and!; [done|done|intros b Hb; left; by apply Ha|intros b Hb _; by apply Ha].
  - intros t' Ht'. apply ended_phase in Ht' as ->. split; [done|]. intros y Hy. cbn in Hy. by rewrite lookup_delete_eq in Hy.
  - intros t' ->%ended_phase. by left.
Qed.

(** A statement in the transaction. *)
Lemma credit_after_txn {X} t ph (r : result DbError X) next : phase_txn ph = Some t → (∀ a, phase_txn (next a) = Some t) → phase_txn (after t ph r next) = Some t.
Proof. intros Hp Hn. destruct r as [a|[]]; cbn; auto. Qed.

Lemma credit_inside_txn {X} (q : Stmt X) h r h' t : phase_txn h = Some t → inside q h r h' → phase_txn h' = Some t.
Proof.
  intros Ht Hi. destruct q; cbn in Hi; try done; destruct h; try done; cbn in Ht; injection Ht as ->;
    repeat match goal with H : _ ∧ _ |- _ => destruct H | H : ∃ _, _ |- _ => destruct H | H : _ ∨ _ |- _ => destruct H end;
    subst; (apply credit_after_txn; [done|]); by intros [].
Qed.

Lemma inside_failed {X} (q : Stmt X) h h' t : phase_txn h = Some t → inside q h (Err DbFailed) h' → h' = h.
Proof. intros Ht Hi. destruct q; cbn in Hi; try done; destruct h; try done; cbn in Ht; injection Ht as ->; naive_solver. Qed.

Lemma safe_inside s hs i h h' now {X} (q : Stmt X) t r p' : safe s hs → hs !! i = Some h → iso_step run now (RunC (Some t) q) (st_db s) r p' →
  phase_txn h = Some t → inside q h r h' → safe (with_db p' s) (<[i := h']> hs).
Proof.
  intros Hs Hi Hst Ht Hin. pose proof Hs as [H1 H2 H3 H4 H5]. destruct (H4 i h Hi t Ht) as [Hlt Hf].
  pose proof (credit_inside_txn q h r h' t Ht Hin) as Ht'.
  assert (db_rows p' = db_rows (st_db s) ∧ db_next p' = db_next (st_db s)) as [Hr Hnx].
  { cbn in Hst. destruct Hst as [(x & id & _ & _ & _ & _ & ->)|[_ [->| ->]]]; [by destruct (is_ok r)|done..]. }
  eapply safe_same; [exact Hs|exact Hi|exact Hst|exact Hr|by rewrite Hnx|by intros ? [= <-]| |intros ? E; left; congruence].
  intros t' E. assert (t' = t) as -> by congruence. split; [by rewrite Hnx|]. intros x' Hx'. rewrite Hr.
  cbn in Hst. destruct Hst as [(x & id & Hx & _ & _ & Er & ->)|[-> Hp]].
  - destruct (is_ok r) eqn:Ek; [|cbn in Hx'; by rewrite lookup_delete_eq in Hx'].
    cbn in Hx'. rewrite lookup_insert_eq in Hx'. injection Hx' as <-. eapply credit_inside_fact; [exact Ht|exact H2|by apply Hf|exact Hin|exact Er|exact Ek].
  - apply inside_failed with (t := t) in Hin as ->; [|done]. destruct Hp as [->| ->]; [by apply Hf|]. cbn in Hx'. by rewrite lookup_delete_eq in Hx'.
Qed.

Lemma credit_safe_call B (c : CreditCall B) s r s' hs i h (K : B → Phase → Prop) :
  safe s hs → hs !! i = Some h → spec B c h K → call_step B c s r s' → ∃ h', K r h' ∧ safe s' (<[i := h']> hs).
Proof.
  intros Hs Hi Hspec Hst. destruct (Hspec r) as (h' & Hm & Hk). exists h'. split; [done|]. pose proof Hs as [H1 H2 H3 H4 H5].
  assert (∀ ids c, st_ids s ⊆ ids → safe {| st_db := st_db s; st_now := st_now s; st_ids := ids; st_cache := c |} hs) as Hids.
  { intros ids ca Hl. split; cbn; [done|done|auto| |done]. intros j hj Hj. eapply credit_holds_same; [exact H1|by eapply H4|done..|auto]. }
  destruct c as [X c| | | |rep b|rep b e|rep b]; cbn in Hm, Hst.
  - destruct Hst as (p' & Hst & ->). destruct c as [l|X [t|] q|t|t]; cbn in Hm.
    + destruct Hm as (-> & -> & ->). pose proof Hst as Hst'. cbn in Hst. destruct Hst as [[-> ->]|[-> ->]].
      * eapply safe_same; [exact Hs|exact Hi|exact Hst'|done|cbn; lia|done| |by intros ? [= <-]; right].
        intros t [= <-]. cbn. split; [lia|]. rewrite lookup_insert_eq. by intros x [= <-].
      * eapply safe_same; [exact Hs|exact Hi|exact Hst'|done..].
    + destruct Hm as [Ht Hin]. by eapply safe_inside.
    + destruct Hm as [Hq ->]. by eapply safe_alone.
    + destruct Hm as (Ht & Hf & ->). by eapply safe_finish.
    + subst h'. cbn in Hst. subst p'. eapply safe_moved; [exact Hs|exact Hi|by apply drop_ok|done|done| |done|done].
      intros j hj Hn Hj. eapply credit_holds_same; [exact H1|by eapply H4|done..|]. intros t' x _ Hx. cbn in Hx; by apply lookup_delete_Some in Hx as [_ ?].
  - destruct Hst as [_ ->]. subst h'. by rewrite list_insert_id.
  - destruct Hst as [_ ->]. subst h'. rewrite list_insert_id by done. apply Hids. set_solver.
  - subst. by rewrite list_insert_id.
  - destruct Hst as [_ ->]. subst h'. by rewrite list_insert_id.
  - subst. rewrite list_insert_id by done. by apply Hids.
  - subst. rewrite list_insert_id by done. by apply Hids.
Qed.

Lemma credit_safe_more s hs : safe s hs → safe s (hs ++ [NoTx]).
Proof.
  intros [H1 H2 H3 H4 H5]. assert (∀ j hj t, (hs ++ [NoTx]) !! j = Some hj → phase_txn hj = Some t → hs !! j = Some hj) as Ha.
  { intros j hj t [?|[_ E]]%lookup_app_Some Ht; [done|]. apply list_lookup_singleton_Some in E as [_ <-]. done. }
  split; [done|done|done| |].
  - intros j hj Hj t Ht. by eapply H4; [eapply Ha|].
  - intros j k hj hk t Hj Hk Htj Htk. by eapply H5; [eapply Ha|eapply Ha|..].
Qed.

(** Rows written by others under no lock of an open transaction. *)
Lemma safe_written s hs w ids' now c lost : safe s hs → foreign_spec lost w (db_rows (st_db s)) ∨ lost = None ∧ (∃ b r, w = {[KBusiness b := Some (RBusiness r)]} ∧ b ∉ st_ids s ∧ b ∈ ids') →
  unblocked None (write_mode <$> w) (st_db s) → st_ids s ⊆ ids' →
  safe {| st_db := write_rows w (st_db s); st_now := now; st_ids := ids'; st_cache := c |} hs.
Proof.
  intros [H1 H2 H3 H4 H5] Hw Hu Hids. set (d := db_rows (st_db s)) in *.
  assert (∃ gone_, (∀ b, gone_ b ∨ ¬ gone_ b) ∧ frame gone_ d (overlay w d) ∧ (∀ b, gone_ b → is_Some (d !! KBusiness b) ∧ w !! KBusiness b = Some None)) as (go & Hdec & Hf & Hg).
  { destruct Hw as [(Hf & _ & Hl)|(_ & b & r & -> & _ & _)].
    - exists (λ b, lost = Some b). split_and!; [|done|done]. intros b. destruct (decide (lost = Some b)); auto.
    - exists (λ _, False). split_and!; [by right; intros []| |by intros ? []]. rewrite overlay_put. split.
      + intros s0 e. rewrite lookup_insert_ne by done. naive_solver.
      + intros u row. rewrite lookup_insert_ne by done. eauto.
      + intros u row Hr _. rewrite lookup_insert_ne by done. eauto.
      + by intros u row _ []. }
  assert (∀ b, b ∈ st_ids s → is_Some (overlay w d !! KBusiness b) → is_Some (d !! KBusiness b)) as Hk.
  { destruct Hw as [(_ & Hk & _)|(_ & b0 & r & -> & Hb0 & _)]; [auto|]. intros b Hb. rewrite overlay_put, lookup_insert_ne; [done|congruence]. }
  split; cbn; fold d.
  - apply write_rows_ok; [done|]. exact Hu.
  - by eapply books_frame.
  - intros b Hb. destruct Hw as [(_ & Hk' & _)|(_ & b0 & r & -> & _ & Hb0)]; [auto|].
    rewrite overlay_put in Hb. destruct Hb as [v [[[= <-] _]|[_ Hv]]%lookup_insert_Some]; [done|eauto].
  - intros j hj Hj. eapply holds_other; [exact H1|by eapply H4|done| |]; cbn; fold d.
    + intros t x Ht Hx. split; [done|]. split; [by eapply writes_frame|].
      assert (∀ b, gone ids' b (overlay w d) ∧ ledger b (overlay w d) = ∅ ∨ ledger b (overlay w d) = ledger b d) as Hl.
      { intros b. destruct (Hdec b) as [Hb|Hb]; [left|right; by eapply frame_ledger]. destruct (Hg b Hb) as [Hbs Hwb].
        split; [|by eapply frame_gone]. split; [by rewrite overlay_lookup, Hwb|auto]. }
      split; [intros b _; destruct (Hl b); auto|]. intros b _ (m & Hm & _). destruct (Hdec b) as [Hb|Hb]; [|by eapply frame_ledger].
      destruct (Hg b Hb) as [_ Hwb]. exfalso.
      pose proof (unblocked_apart None _ (st_db s) (KBusiness b) ForUpdate t x m Hu) as Hc. rewrite lookup_fmap, Hwb in Hc.
      specialize (Hc eq_refl ltac:(done) Hx Hm). unfold conflicts in Hc. apply Nat.leb_gt in Hc. cbn in Hc. lia.
    + intros b [Hn Hb]. split; [|auto]. apply eq_None_not_Some. intros Hb'. apply Hk in Hb' as [v Hv]; [congruence|done].
  - done.
Qed.

Lemma credit_safe_env s hs s' : safe s hs → env s s' → safe s' hs.
Proof.
  intros Hs He. pose proof Hs as [H1 H2 H3 H4 H5].
  assert (∀ p' now c, db_ok p' → db_rows p' = db_rows (st_db s) → db_next p' = db_next (st_db s) →
    (∀ t x, db_open p' !! t = Some x → db_open (st_db s) !! t = Some x) →
    safe {| st_db := p'; st_now := now; st_ids := st_ids s; st_cache := c |} hs) as Hsame.
  { intros p' now c Hok Hr Hn Hx. split; cbn; [done|by rewrite Hr|intros b; rewrite Hr; auto| |done].
    intros j hj Hj. eapply credit_holds_same; [exact H1|by eapply H4|by rewrite Hn|done|done|auto]. }
  destruct He as [t|now Hnow|rep|w Hf Hu|b r Hb Hu].
  - apply Hsame; [by apply drop_ok|done|done|]. intros t' x Hx. cbn in Hx. by apply lookup_delete_Some in Hx as [_ ?].
  - by apply Hsame.
  - by apply Hsame.
  - destruct (foreign_ok _ _ Hf) as [lost Hl]. eapply safe_written; [exact Hs|left; exact Hl|done|done].
  - eapply (safe_written _ _ _ _ _ _ None); [exact Hs| | |set_solver].
    + right. split; [done|]. exists b, r. split_and!; [done|done|set_solver].
    + by rewrite map_fmap_singleton.
Qed.

(** Nobody is connected; the books are in order, but for usage logs in [L] from before
    they were metered. *)
Definition quiet_start (s : Store) : Prop :=
  db_open (st_db s) = ∅ ∧ books L None (db_rows (st_db s)) ∧ ∀ b, is_Some (db_rows (st_db s) !! KBusiness b) → b ∈ st_ids s.

Lemma quiet_safe s : quiet_start s → safe s [].
Proof.
  intros (Ho & Hb & Hk). split; [|done|done|by intros i h|by intros i j hi hj t Hi].
  split; rewrite Ho; [intros t x|intros t t' x x' k m m' _]; by rewrite lookup_empty.
Qed.

Lemma credit_reachable_safe s : reachable call_step env (starts ttl) quiet_start s → ∃ hs, safe (sy_store s) hs.
Proof.
  apply (sound_reachable call_step env (starts ttl) spec safe NoTx).
  - intros B c st b st' hs i h K. apply credit_safe_call.
  - apply credit_safe_more.
  - intros st hs st'. apply credit_safe_env.
  - intros p Hp. by eapply starts_ok.
  - apply quiet_safe.
Qed.

(** ** What the books say *)

(** Of a ledger: granted, expired, drawn by usage, consumed beyond the balance. *)
Definition of_reason (reason : string) (f : CreditLedgerEntry → Z) (e : CreditLedgerEntry) : Z :=
  if String.eqb (en_reason e) reason then f e else 0%Z.

Definition granted (m : gmap N CreditLedgerEntry) : Z := total (of_reason CreditReasonGrant en_delta) m.
Definition lapsed (m : gmap N CreditLedgerEntry) : Z := total (of_reason CreditReasonExpire (λ e, (- en_delta e)%Z)) m.
Definition drawn (m : gmap N CreditLedgerEntry) : Z := total (λ e, if metering e then (- en_delta e)%Z else 0%Z) m.
Definition overage (m : gmap N CreditLedgerEntry) : Z := total (λ e, if metering e then en_overage e else 0%Z) m.

Lemma total_linear m : (∀ s e, m !! s = Some e → of_reason CreditReasonGrant en_delta e
    + (- of_reason CreditReasonExpire (λ e, (- en_delta e)%Z) e) + (- (if metering e then (- en_delta e)%Z else 0%Z)) = en_delta e)%Z →
  (granted m - lapsed m - drawn m = total en_delta m)%Z.
Proof.
  intros H. unfold granted, lapsed, drawn. induction m as [|s e m Hs IH] using map_ind; [done|]. rewrite !total_insert by done.
  specialize (H s e (lookup_insert_eq _ _ _)) as He. specialize (IH ltac:(intros s' e' He'; apply (H s'); rewrite lookup_insert_ne; [done|]; intros ->; congruence)). lia.
Qed.

Lemma ledger_kinds (d : rows) b s e : books L None d → ledger b d !! s = Some e → en_business e = b ∧ entry_ok d e.
Proof. intros Hb He. apply ledger_lookup in He as [He Hbu]. split; [done|]. by eapply bk_entry. Qed.

Lemma reason_cases (e : CreditLedgerEntry) b : (∃ u, meters b u e) ∨ (∃ p, opens_period b p e) ∨ (∃ p, closes_period b p e) →
  (of_reason CreditReasonGrant en_delta e + (- of_reason CreditReasonExpire (λ e, (- en_delta e)%Z) e)
   + (- (if metering e then (- en_delta e)%Z else 0%Z)) = en_delta e)%Z.
Proof.
  unfold of_reason, metering. intros [(u & Hm)|[(p & Hg)|(p & Hx)]].
  - destruct Hm as [Hm _ _ _ _ _]. unfold metering in Hm. rewrite Hm. apply orb_prop in Hm as [Hm|Hm]; apply String.eqb_eq in Hm as ->; cbn; lia.
  - rewrite (gr_reason _ _ _ Hg). cbn. lia.
  - rewrite (xp_reason _ _ _ Hx). cbn. lia.
Qed.

Lemma entry_kind d e : entry_ok d e → (∃ u, meters (en_business e) u e) ∨ (∃ p, opens_period (en_business e) p e) ∨ ∃ p, closes_period (en_business e) p e.
Proof. intros [(u & Hm & _)|H]; [left; by exists u|by right]. Qed.

(** The usage logs charged, one by one. *)
Lemma charges (d : rows) m : (∀ s e, m !! s = Some e → entry_ok d e) →
  (∀ s s' e e' k, m !! s = Some e → m !! s' = Some e' → en_key e = Some k → en_key e' = Some k → s = s') →
  ∃ charged : gset uuid, (drawn m + overage m = Z.of_nat (size charged))%Z
    ∧ ∀ u, u ∈ charged ↔ ∃ s e, m !! s = Some e ∧ meters (en_business e) u e.
Proof.
  unfold drawn, overage. induction m as [|s e m Hs IH] using map_ind; intros Ho Hu.
  - exists ∅. split; [done|]. intros u. split; [by intros ?%elem_of_empty|]. intros (s & e & He & _). by rewrite lookup_empty in He.
  - destruct IH as (ch & Hsum & Hch).
    { intros s' e' He. eapply Ho. rewrite lookup_insert_ne; [exact He|]. intros ->; congruence. }
    { intros s1 s2 e1 e2 k H1 H2. eapply Hu; rewrite lookup_insert_ne; [exact H1|intros ->; congruence|exact H2|intros ->; congruence]. }
    rewrite !total_insert by done. pose proof (Ho s e (lookup_insert_eq _ _ _)) as Hk. apply entry_kind in Hk.
    destruct (metering e) eqn:Em.
    + destruct Hk as [(u & Hm)|[(p & Hg)|(p & Hx)]].
      * exists ({[u]} ∪ ch). assert (u ∉ ch) as Hn.
        { intros Hin. apply Hch in Hin as (s' & e' & He' & Hm'). assert (s' = s) as ->; [|congruence].
          eapply Hu; [|apply lookup_insert_eq|apply Hm'|apply Hm]. rewrite lookup_insert_ne; [done|]. intros ->; congruence. }
        split.
        -- rewrite size_union by set_solver. rewrite size_singleton. destruct Hm as [_ _ _ _ Hc _]. unfold charge_of, creditsPerUsage in Hc. lia.
        -- intros v. rewrite elem_of_union, elem_of_singleton, Hch. split.
           ++ intros [->|(s' & e' & He' & Hm')]; [exists s, e; by rewrite lookup_insert_eq|]. exists s', e'. rewrite lookup_insert_ne; [done|]. intros ->; congruence.
           ++ intros (s' & e' & [[<- <-]|[_ He']]%lookup_insert_Some & Hm'); [left|right; by exists s', e'].
              pose proof (mt_usage _ _ _ Hm). pose proof (mt_usage _ _ _ Hm'). congruence.
      * unfold metering in Em. by rewrite (gr_reason _ _ _ Hg) in Em.
      * unfold metering in Em. by rewrite (xp_reason _ _ _ Hx) in Em.
    + exists ch. split; [lia|]. intros v. rewrite Hch. split.
      * intros (s' & e' & He' & Hm'). exists s', e'. rewrite lookup_insert_ne; [done|]. intros ->; congruence.
      * intros (s' & e' & [[<- <-]|[_ He']]%lookup_insert_Some & Hm'); [|by exists s', e']. pose proof (mt_metering _ _ _ Hm'). congruence.
Qed.

(** What is charged in a business's books and to what. *)
Record balanced (b : uuid) (d : rows) : Prop := {
  bl_solvent : (0 <= balance b d)%Z;
  bl_running : ∀ s e, ledger b d !! s = Some e → en_balance e = running (ledger b d) s ∧ (0 <= en_balance e)%Z;
  bl_accounts : (granted (ledger b d) - lapsed (ledger b d) - drawn (ledger b d) = balance b d)%Z;
  bl_usage : ∃ charged : gset uuid, (drawn (ledger b d) + overage (ledger b d) = Z.of_nat (size charged))%Z
    ∧ (∀ u, u ∈ charged → used b u d) ∧ ∀ u, used b u d → u ∈ L ∨ u ∈ charged;
}.

(** C25: However requests log usage, grant months, keep subscriptions and read, on any
    number of replicas, however they interleave, crash and lose connections, and whatever
    businesses and accounts are erased meanwhile, the committed ledger of every business is
    in balance: each entry's balance is the sum of the changes up to it and never negative,
    what was granted is what expired, what usage drew and what is left, and what was drawn
    and what went beyond is one credit for each usage log, each charged once and none left
    out but those of before. *)
Theorem books_balance s b : reachable call_step env (starts ttl) quiet_start s → balanced b (db_rows (st_db (sy_store s))).
Proof.
  intros (hs & [_ Hb _ _ _])%credit_reachable_safe. set (d := db_rows _) in *. split.
  - by eapply balance_nonneg.
  - intros s0 e. by eapply bk_running.
  - rewrite (balance_total L None) by done. apply total_linear. intros s0 e He. destruct (ledger_kinds _ _ _ _ Hb He) as [Eb Ho].
    by eapply reason_cases, entry_kind.
  - destruct (charges d (ledger b d)) as (ch & Hsum & Hch).
    + intros s0 e He. by destruct (ledger_kinds _ _ _ _ Hb He).
    + intros s1 s2 e1 e2 k [H1 _]%ledger_lookup [H2 _]%ledger_lookup. by eapply bk_unique.
    + exists ch. split; [done|]. setoid_rewrite Hch. split.
      * intros u (s0 & e & He & Hm). destruct (ledger_kinds _ _ _ _ Hb He) as [<- Ho].
        by destruct (entry_usage_key d e u Ho (mt_key _ _ _ Hm)).
      * intros u (row & Hr & Hbu). destruct (bk_metered _ _ _ Hb u row Hr) as [?|(s0 & e & He & Hm)]; [by left|right].
        exists s0, e. pose proof (mt_business _ _ _ Hm) as Eb. rewrite <- Eb in Hm. split; [|done]. apply ledger_lookup. split; [done|congruence].
Qed.

(** C26: However grant passes on any number of replicas interleave with each other and with
    metering, crash and are repeated, a business is granted a period at most once; the
    period opens with exactly the allowance of its entry, and nothing of an earlier one is
    left: up to the entry before it, the changes add up to zero. *)
Theorem period_granted_once s b n n' e e' : reachable call_step env (starts ttl) quiet_start s →
  let m := ledger b (db_rows (st_db (sy_store s))) in
  m !! n = Some e → m !! n' = Some e' → en_reason e = CreditReasonGrant → en_reason e' = CreditReasonGrant → en_period e = en_period e' →
  n = n' ∧ en_balance e = en_delta e ∧ (0 < en_delta e)%Z ∧ (running m n - en_delta e = 0)%Z.
Proof.
  intros (hs & [_ Hb _ _ _])%credit_reachable_safe m He He' Hr Hr' Hp. set (d := db_rows _) in *.
  assert (∀ n e, m !! n = Some e → en_reason e = CreditReasonGrant → ∃ p, opens_period b p e) as Hg.
  { intros k x Hx Hrx. destruct (ledger_kinds _ _ _ _ Hb Hx) as [Eb Ho]. apply entry_kind in Ho. rewrite Eb in Ho.
    destruct Ho as [(u & [Hm _ _ _ _ _])|[?|(p & [Hrx' _ _ _ _])]]; [|done|].
    - unfold metering in Hm. by rewrite Hrx in Hm.
    - by rewrite Hrx in Hrx'. }
  destruct (Hg n e He Hr) as [p Hge], (Hg n' e' He' Hr') as [p' Hge'].
  assert (p' = p) as -> by (rewrite (gr_period _ _ _ Hge), (gr_period _ _ _ Hge') in Hp; congruence).
  destruct (bk_running _ _ _ Hb b n e He) as [Hrun _]. pose proof (gr_balance _ _ _ Hge) as Hbal. split_and!.
  - apply ledger_lookup in He as [He _], He' as [He' _]. eapply (bk_unique _ _ _ Hb); [exact He|exact He'|apply Hge|apply Hge'].
  - done.
  - apply Hge.
  - fold m in Hrun. lia.
Qed.
End ops.
