(* ===== verification/CreditDemo.v ===== *)
(** * Credits on concrete data

    A server that answers every call, the witnesses of the theorems on credits, and the
    runs that show where the code departs from its documents. *)

From Stdlib Require Import QArith.
From S2P Require Import Prelude Types GoTime Users Calendar Prog Pg Isolation LlmRouter CreditStore CreditService CreditBooks CreditSystem CreditOps.
Close Scope Q_scope.
Local Open Scope go_scope.

#[local] Existing Instance decimal_uuid.

(** ** The server *)

(** Alone, a statement waits for nothing; [lost] says which reads find no connection. *)
Definition db_server (lost : ∀ X, Stmt X → bool) (now : Z) {B} (c : TxCall Stmt B) : CreditDb → B * CreditDb :=
  match c in TxCall _ B return CreditDb → B * CreditDb with
  | StartC l => λ p, (Ok (db_next p), open_tx l now p)
  | RunC None q => λ p,
      let e := run _ q {| mo_now := now; mo_id := 0%N |} (db_rows p) (db_rows p) in
      if lost _ q then (Err DbFailed, p)
      else if decide (unblocked None (Isolation.taken e) p) then (at_out e, write_rows (done_writes e) p) else (Err DbFailed, p)
  | RunC (Some t) q => λ p,
      match db_open p !! t with
      | Some x =>
          let e := attempt run q 0%N x (db_rows p) in
          if decide (unblocked (Some t) (Isolation.taken e) p ∧ unchanged x (Isolation.taken e) (db_rows p))
          then (at_out e, if is_ok (at_out e) then put_tx t (performed_by run q 0%N x p) p else drop_tx t p)
          else (Err DbFailed, drop_tx t p)
      | None => (Err DbFailed, p)
      end
  | FinishC t => λ p,
      match db_open p !! t with
      | Some x => if bool_decide (tn_level x = Serializable) then (Err DbFailed, drop_tx t p) else (Ok tt, finish_tx t x p)
      | None => (Err DbFailed, p)
      end
  | UndoC t => λ p, (tt, drop_tx t p)
  end.

Definition server (lost : ∀ X, Stmt X → bool) B (c : CreditCall B) : Store → B * Store :=
  match c in CreditCall B return Store → B * Store with
  | DbC c => λ s, let '(r, p') := db_server lost (st_now s) c (st_db s) in (r, with_db p' s)
  | NowC => λ s, ({| ti_at := st_now s; ti_offset := 0 |}, s)
  | NewIDC => λ s, let id := above (st_ids s) in (id, draw id s)
  | CanceledC => λ s, (false, s)
  | CachedC replica b => λ s, (st_cache s !! (replica, b), s)
  | CacheC replica b e => λ s, (tt, with_cache (<[(replica, b) := e]> (st_cache s)) s)
  | DropC replica b => λ s, (tt, with_cache (delete (replica, b) (st_cache s)) s)
  end.

Lemma credit_db_step lost now {B} (c : TxCall Stmt B) p : iso_step run now c p (db_server lost now c p).1 (db_server lost now c p).2.
Proof.
  destruct c as [l|X [t|] q|t|t]; cbn.
  - by left.
  - destruct (db_open p !! t) as [x|] eqn:E; [|by right; split; [|left]]. case_decide as Hd; [|by right; split; [|right]].
    left. exists x, 0%N. by destruct Hd.
  - destruct (lost X q); [by right|]. case_decide; [|by right]. left. exists 0%N. split_and!; [done|done|by left].
  - destruct (db_open p !! t) as [x|] eqn:E; [|by right; split; [|left]]. case_bool_decide as El; [by right; split; [|right]|].
    left. exists x. split_and!; [done|by intros ?|done].
  - done.
Qed.

Lemma credit_server_step lost B (c : CreditCall B) s : call_step B c s (server lost B c s).1 (server lost B c s).2.
Proof.
  destruct c as [B c| | | | | |]; cbn; try done.
  - pose proof (credit_db_step lost (st_now s) c (st_db s)) as Hs. destruct (db_server lost (st_now s) c (st_db s)) as [r p']. by exists p'.
  - split; [apply above_unused|done].
Qed.

Definition connected (X : Type) (q : Stmt X) : bool := false.

(** The subscription cannot be read. *)
Definition subscription_lost (X : Type) (q : Stmt X) : bool := match q with SelectActive _ => true | _ => false end.

Notation served p s := (serve (server connected) p s).

(** ** A bakery on the Pro plan *)

Definition demo_plan (code : string) (credits : Z) : PlanDefinition := {|
  pd_code := code; pd_name := code; pd_price := 0; pd_monthly_credits := credits; pd_overage_price := 0; pd_daily_cap := 1000000;
  pd_max_integrations := 1; pd_max_members := 1; pd_tier := code; pd_active := true; pd_sort_order := 0; pd_created_at := 0; pd_updated_at := 0 |}.

Definition demo_subscription (id b : uuid) (plan status : string) : Subscription := {|
  su_id := id; su_business := b; su_parent := None; su_plan := plan; su_status := status; su_period_start := None; su_period_end := None;
  su_provider := None; su_provider_id := None; su_cancel_at_end := false; su_created_at := 0; su_updated_at := 0 |}.

Definition demo_log (id : uuid) : UsageLog := {|
  ul_id := id; ul_business_id := 9; ul_user_id := uuid_nil; ul_conversation_id := ""; ul_request_id := ""; ul_model := "m";
  ul_provider := "openai"; ul_input_tokens := 1; ul_output_tokens := 1; ul_cache_read_tokens := 0; ul_cache_creation_tokens := 0;
  ul_provider_cost := 1 # 100; ul_commission := 0; ul_user_cost := 0; ul_user_tier := "pro"; ul_created_at := zero_time |}.

Definition rows_of (s : Store) : rows := db_rows (st_db s).

Definition bakery_of (credits : Z) : Store := {|
  st_db := {| db_rows := list_to_map [
      (KBusiness 9, RBusiness {| br_id := 9; br_deleted := false |}); (KPlan "free", RPlan (demo_plan "free" 2));
      (KPlan "pro", RPlan (demo_plan "pro" credits)); (KSubscription 5, RSubscription (demo_subscription 5 9 "pro" "active"))];
    db_open := ∅; db_next := 0; db_serial := [] |};
  st_now := 0; st_ids := [uuid_nil; 5%N; 9%N]; st_cache := ∅ |}.

Definition grants_on (replica : uuid) : prog (result CreditError nat) := GrantAll DefaultTTL replica.
Definition logs (id : uuid) : prog BillingReply := HandleLogUsage "POST" (Some (demo_log id)).

Definition granted_once (credits : Z) : Store := (served (forget (grants_on 1)) (bakery_of credits)).2.

(** Ids 101, 102, ... are used one by one. *)
Definition used_times (n : nat) : Store :=
  Nat.iter n (λ s, (served (forget (logs (above (st_ids s) + 100))) s).2) (granted_once 3).

Definition later_on (s : Store) : Store := at_time (st_now s + 32 * 24 * Hour)%Z s.
Definition next_month : Store := (served (forget (grants_on 2)) (later_on (used_times 1))).2.

Definition deltas (b : uuid) (s : Store) : list (string * Z * Z * Z) :=
  (λ e, (en_reason e, en_delta e, en_balance e, en_overage e)) <$> (snd <$> map_to_list (ledger b (rows_of s))).

Notation credit_reached L := (reachable call_step env (starts DefaultTTL) (quiet_start (U := decimal_uuid) L)).

Lemma bakery_books credits L : quiet_start (U := decimal_uuid) L (bakery_of credits).
Proof.
  assert (∀ s e, rows_of (bakery_of credits) !! KEntry s = Some (REntry e) → False) as Hn.
  { intros s e. unfold rows_of. cbn. by rewrite !lookup_insert_ne, lookup_empty. }
  assert (∀ u r, rows_of (bakery_of credits) !! KUsage u = Some (RUsage r) → False) as Hu.
  { intros u r. unfold rows_of. cbn. by rewrite !lookup_insert_ne, lookup_empty. }
  split_and!; [done| |].
  - split.
    + by intros u row ?%Hu.
    + by intros s e ?%Hn.
    + by intros s s' e e' k ?%Hn.
    + by intros b s e [?%Hn _]%ledger_lookup.
    + by intros b period (s & e & ?%Hn & _) _.
    + by intros u row ?%Hu.
  - intros b. cbn. intros [r [[[= <-] _]|[_ H]]%lookup_insert_Some]; [set_solver|].
    by rewrite !lookup_insert_ne, lookup_empty in H.
Qed.

Lemma granted_reached credits L : ∃ ps, credit_reached L {| sy_store := granted_once credits; sy_procs := ps |}.
Proof.
  eexists. unfold granted_once. apply serve_reachable; [apply credit_server_step|apply start_grant|].
  exists (bakery_of credits). split; [apply bakery_books|apply rtc_refl].
Qed.

Lemma used_reached n L : ∃ ps, credit_reached L {| sy_store := used_times n; sy_procs := ps |}.
Proof.
  induction n as [|n [ps IH]]; [apply granted_reached|]. eexists. cbn [used_times Nat.iter nat_rect].
  apply serve_reachable; [apply credit_server_step|apply start_log|exact IH].
Qed.

Lemma next_month_reached L : ∃ ps, credit_reached L {| sy_store := next_month; sy_procs := ps |}.
Proof.
  destruct (used_reached 1 L) as [ps (s0 & H0 & Hr)]. eexists. unfold next_month.
  apply serve_reachable; [apply credit_server_step|apply start_grant|]. exists s0. split; [done|].
  eapply rtc_r; [exact Hr|]. apply step_env, env_time. vm_compute. by intros.
Qed.

(** Three granted, four used: three drawn, one beyond. *)
Lemma books_balance_witness :
  let m := ledger 9 (rows_of (used_times 4)) in
  granted m = 3%Z ∧ drawn m = 3%Z ∧ overage m = 1%Z ∧ balance 9 (rows_of (used_times 4)) = 0%Z
  ∧ balanced ∅ 9 (rows_of (used_times 4)).
Proof.
  split; [vm_compute; reflexivity|]. split; [vm_compute; reflexivity|]. split; [vm_compute; reflexivity|]. split; [vm_compute; reflexivity|].
  destruct (used_reached 4 ∅) as [ps Hps].
  exact (books_balance (U := decimal_uuid) ∅ DefaultTTL {| sy_store := used_times 4; sy_procs := ps |} 9%N Hps).
Defined.

(** A second month: what was left is expired, and the allowance opened again. *)
Lemma period_granted_once_witness :
  let m := ledger 9 (rows_of next_month) in
  deltas 9 next_month = [("grant", 3, 3, 0); ("consume", -1, 2, 0); ("expire", -2, 0, 0); ("grant", 3, 3, 0)]%Z
  ∧ ∃ n e, m !! n = Some e ∧ en_period e = Some "1970-02" ∧ en_balance e = en_delta e ∧ (running m n - en_delta e = 0)%Z.
Proof.
  split; [vm_compute; reflexivity|]. destruct (next_month_reached ∅) as [ps Hps].
  destruct (ledger 9 (rows_of next_month) !! 4%N) as [e|] eqn:E; [|vm_compute in E; discriminate E].
  assert (en_reason e = CreditReasonGrant ∧ en_period e = Some "1970-02") as [Hr Hp].
  { vm_compute in E. injection E as <-. split; reflexivity. }
  exists 4%N, e. split; [exact E|]. split; [exact Hp|].
  destruct (period_granted_once (U := decimal_uuid) ∅ DefaultTTL {| sy_store := next_month; sy_procs := ps |} 9%N 4%N 4%N e e Hps E E Hr Hr eq_refl)
    as (_ & Hb & _ & Hs). split; [exact Hb|exact Hs].
Defined.

(** ** Where the code departs from what is said of it *)

Definition minutes_on (n : Z) (s : Store) : Store := at_time (st_now s + n * Minute)%Z s.

(** One read that fails while granting gives a Pro business the Free allowance, and later
    passes of the month, though they resolve the plan rightly, do not correct it. *)
Example allowance_of_a_failed_read :
  let s := (serve (server subscription_lost) (forget (grants_on 1)) (bakery_of 3)).2 in
  let after := minutes_on 5 s in
  deltas 9 s = [("grant", 2, 2, 0)]%Z ∧ pl_monthly_credits (served (Resolve DefaultTTL 1 9) after).1 = 3%Z
  ∧ (served (grants_on 1) after).1 = Ok 0 ∧ deltas 9 (served (grants_on 1) after).2 = [("grant", 2, 2, 0)]%Z.
Proof. vm_compute. by split_and!. Qed.

(** A subscription kept as canceled is a second row: the active one stays active. *)
Example canceling_leaves_active :
  let s := (served (forget (Upsert (demo_subscription 0 9 "pro" "canceled"))) (bakery_of 3)).2 in
  sum_of (λ _, 1%Z) (subscriptions (rows_of s)) = 2%Z ∧ su_plan <$> active_subscription 9 (rows_of s) = Some "pro"
  ∧ pl_code (served (Resolve DefaultTTL 1 9) s).1 = "pro".
Proof. vm_compute. by split_and!. Qed.

(** A usage log sent again is refused: the primary key of [usage_logs] is hit before the
    ledger's conflict clause is reached. *)
Example retried_log_fails :
  let s := (served (forget (logs 101)) (granted_once 3)).2 in
  (served (logs 101) (granted_once 3)).1 = NoContent
  ∧ (served (logs 101) s).1 = BillingFailure 500 "transient" "" ∧ deltas 9 (served (logs 101) s).2 = deltas 9 s.
Proof. vm_compute. by split_and!. Qed.

(** At half past one of May 30 in UTC+3 it is May 29 in UTC, where the usage just logged
    lies; the day's spend is that of May 30. *)
Example spend_of_the_local_day :
  let now := (Date 2026 5 30 - 90 * Minute)%Z in
  let s := (served (forget (logs 101)) (at_time now (bakery_of 3))).2 in
  let day := {| ti_at := now; ti_offset := 180 * 60 |} in
  (served (GetDailySpend 9 (UTC day)) s).1 = Ok (usd 10000) ∧ (served (GetDailySpend 9 day) s).1 = Ok (usd 0).
Proof. vm_compute. by split. Qed.
